(* ===== verification/_CoqProject ===== *)
-Q . S2P
Prelude.v
Status.v
Coding.v
Hashing.v
FsTypes.v
Keys.v
Giga.v
GigaFacts.v
GigaProps.v
GigaMerge.v
Random.v
Mxdb.v
MxdbProps.v
HashTable.v
Lru.v
LruProps.v
FsDb.v
Fs.v
FsOps.v
FsProps.v
FsCom.v
FsRpc.v
FsPath.v
FsCli.v
FsCliDir.v
FsCliOps.v
FsCliProps.v
FsConc.v
FsConcInv.v
FsConcProps.v
FsConcLive.v
Comparator.v
SkipList.v
SkipListProps.v
History.v
MemTable.v
MemTableProps.v
WriteBatch.v
WriteBatchProps.v
Crc32c.v
Crc32cProps.v
Log.v
LogFacts.v
LogProps.v
Iterator.v
Format.v
BlockBuilder.v
Block.v
BlockProps.v
BuilderProps.v
Filter.v
FilterBlock.v
TwoLevel.v
TableBuilder.v
Table.v
TableFacts.v
TableWrite.v
TableProps.v
Merger.v
MemIter.v
DbIter.v
DbIterProps.v
VersionEdit.v
DbOptions.v
Version.v
VersionFacts.v
VersionProps.v
StrUtil.v
Filenames.v
Env.v
VersionSet.v
VersionSetFacts.v
Manifest.v
VersionSetProps.v
Logging.v
Recovery.v
Compaction.v
Db.v
DbOps.v
CompactionProps.v
