(* ===== verification/Prelude.v ===== *)
(** * DeltaFS prototype: the metadata path

    DeltaFS keeps the name space of a file system in key-value tables.  A client
    ([src/libdeltafs/fscli.cc]) resolves paths with leases and sends each operation to
    the server that a GIGA+ index assigns to the name; a server ([fs.cc]) checks the
    request and runs it on its database through the templates of [fsdb0.h]; requests
    travel in fixed-size messages ([fscom.cc], [fssvr.cc]).

    ** Files
    - [Prelude]: machine words as [Z] ([wrap], [u32], [word]), byte strings [Slice],
      assertions that a release build ignores ([assert_]), shared lemmas and tactics.
    - [Status] ([pdlfs-common/status.h], [status.cc]): status codes.
    - [Coding] ([coding.h], [coding.cc]): fixed and variable length integers.
    - [Hashing] ([hash.cc], [xxhash.c]): the three hash functions of the metadata path.
    - [FsTypes] ([fstypes.h], [fstypes.cc]): [Stat], [LookupStat] and their encodings.
    - [Keys] ([fsdbbase.h], [fsdbbase.cc], [slice.h]): database keys and directory ids.
    - [Giga] ([gigaplus.h], [gigaplus.cc]): the directory index, with [GigaFacts]
      (representation invariant, hashes and partitions), [GigaProps] and [GigaMerge] (theorems).
    - [Mxdb] ([fsdb0.h]): the metadata templates over the interface [KvStore];
      [MxdbProps] states the laws [KvLaws] of a store, with a finite map as instance, and
      the refinement of an abstract map of entries.
    - [HashTable] ([hashmap.h]), [Lru] ([lru.h]) with [LruProps]: the
      intrusive hash table and the cache of handles.
    - [FsDb] ([fsdb.cc], [fsro.cc], [fsbuk.cc]): the database wrappers.
    - [Fs] ([fs.h], [fs.cc]): the metadata server, with [FsOps] (directory control blocks,
      operations inside a directory) and [FsProps] (the operations of the
      interface).
    - [FsConc]: the operations of the server as threads, one step per critical section or
      database access, once with waiting as a guard on the busy flags ([cstep]) and once with the
      condition variable of each directory ([wstep]); [FsConcInv] (a thread alone is the
      sequential operation, the invariant of locks and references),
      [FsConcProps] and [FsConcLive].
    - [FsCom] ([fscom.h], [fscom.cc], [fsapi.h]): the interface [FilesystemIf] as a record of
      operations, the messages, the client stubs and the handlers, the dispatcher and the info server
      ([fssvr.cc], [fsis.cc]); [FsRpc]: their theorems.
    - [FsPath] ([Resolu] of [fscli.cc]): path resolution over an abstract lookup.
    - [FsCli], [FsCliDir], [FsCliOps] ([fscli.h], [fscli.cc]): the client, its state and caches
      (leases, directories, partitions, batches), the stubs it keeps per server, its operations;
      [FsCliProps]: their theorems.

    - [Random] ([random.h]), [Comparator] ([comparator.h], [comparator.cc], [internal_types.h],
      [internal_types.cc]): the class of comparators with its laws, and internal keys;
      [SkipList] ([skiplist.h]) with [SkipListProps]; [History]: what a
      sequence of updates means to a reader at a snapshot; [MemTable] ([memtable.h],
      [memtable.cc], [types.h]) with [MemTableProps], [WriteBatch] ([write_batch.cc]) with
      [WriteBatchProps]: the part of the database in memory.
    - [Crc32c] ([crc32c.h], [crc32c_sw.cc], [crc32c_sse42.cc]) with
      [Crc32cProps]: checksums; [Log] ([log_format.h], [log_writer.cc], [log_reader.cc]) with
      [LogFacts] (what the writer lays out, what the reader makes of a fragment) and
      [LogProps]: write-ahead logs.
    - [Iterator] ([iterator.h], [iterator_wrapper.h]): the interface of iterators and its contract;
      [Format] ([format.h], [format.cc]): handles, footers and stored blocks; [BlockBuilder]
      ([block_builder.cc]) and [Block] ([block.cc]), with [BlockProps] (the layout,
      the iterator) and [BuilderProps] (the builder, and both together).
    - [Filter] ([filter_policy.h], [bloom.cc]): filter policies and their promise; [FilterBlock]
      ([filter_block.cc]); [TwoLevel] ([two_level_iterator.cc]): an iterator over an index of
      blocks; [TableBuilder] ([table_builder.cc], [index_block.cc], [table_properties.cc]) and
      [Table] ([table.cc]), with [TableFacts] (the layout of a table), [TableWrite]
      (what the builder has written) and [TableProps] (tables are read back).
    - [Merger] ([merger.cc]): the iterator that merges others; [MemIter]: the iterator of a
      memtable; [DbIter] ([db_iter.cc]) with [DbIterProps]: the iterator of a database at a snapshot.
    - [VersionEdit] ([version_edit.h], [version_edit.cc]): the records of the
      manifest; [DbOptions] ([options.cc]): the options and their sanitization; [Version]
      ([version_set.cc], class [Version]) with [VersionFacts] (binary search, the iterator over the files of a
      level, overlapping files) and [VersionProps] (reading a version).
    - [Env] ([env.h], [env.cc], [SetCurrentFile]): the environment as an interface, with its laws and files in memory; [VersionSet]
      ([version_set.cc]: [Builder], [VersionSet]): the versions with their references, [LogAndApply] and [Recover];
      [VersionSetFacts] (reference counts, the order of files, the builder), [Manifest] (the reference for edits: [replay]),
      [VersionSetProps] (the invariant of the set), [Logging] ([LogAndApply]) and [Recovery] ([Recover]).
    - [Compaction] ([version_set.cc]: [Compaction], [PickCompaction], [CompactRange]): what a compaction reads and the questions it
      asks; [Db] ([db_impl.h], [db_impl.cc], [builder.cc]): the state of the database, flushes, the merging loop, the background thread;
      [DbOps] ([db_impl.cc], [db.cc]): writes and their groups, reads, snapshots, manual compactions, opening; [CompactionProps]: what a
      compaction keeps, and a database in memory that is opened, written, compacted and opened again.
    - [StrUtil] ([strutil.cc]): numbers and words in strings; [Filenames] ([filenames.cc]): the names
      of the files of a database.

    ** Conventions
    A C++ integer of [w] bits is a [Z] with [wrap w] where it can wrap around.  Objects
    behind pointers live in maps from pointers ([dir_heap], [heap]).  A function of the
    code that can fail an [assert], read outside its buffer or use a missing object returns
    an [option]; [ndebug] says whether assertions are compiled out.  Loops that are not
    structural carry fuel, and the theorems show that the fuel given is enough: 17 steps for
    the walk to a parent partition and for a split, whose radix is at most 16, ten bytes
    for a varint, 32 squarings for the operator of a checksum, the length of a record and two
    more for its fragments, three rounds for the reader of a fragment, one round per filter offset and
    per entry of an index, which are no more than the bytes they take, two draws of the generator per byte that the
    iterator of a database samples, since two draws in a row are never both 0, one round per internal entry for its other loops, one round per byte of a version edit, for the
    search of overlapping files the number of files times one restart per end of a file, the number of files for a binary search,
    20 digits for a number of 64 bits, the bytes of each file that [Recover] reads, and the length of the list
    for the caches, the tables and the skip lists.
    The key-value store, the transport, files and the clock are parameters: a store is an instance of
    [KvStore] with the laws [KvLaws], a file of [WritableFile], [SequentialFile] or [RandomAccessFile] with theirs,
    the snappy library of [Snappy] with [SnappyLaws], a block cache of [BlockCache],
    the time is an argument, the crc instructions of the processor have their documented effect.  In [Fs] an operation of the
    server runs alone and a wait that nobody ends is [None]; in [FsConc] operations interleave:
    in [cstep] a waiting thread has no step, which allows every schedule of the code and more, and in [wstep] it is in the
    queue of a condition variable until it is signalled.
    A method of the database ([Db], [DbOps]) is a function of its state in the monad [DBM]; where it gives up the mutex it takes the next of a
    list of functions, which stand for what the other threads do ([others]), and a wait takes them until its condition holds.  Its fuel bounds
    the entries that are merged or written, the memtables that are switched and the waits of a loop; it is the number of input entries in the
    theorem on compactions.

    ** Theorems
    The property theorems carry a number in their comment.  They state, for the server, what each
    operation returns and writes ([FsProps]); for the directory index, that every hash has one
    responsible partition and server, that splitting and merging keep this, and where the code departs
    from its documentation ([GigaProps], [GigaMerge]); for the database templates, that they
    refine lookup, insertion, deletion and ordered enumeration and fail only with the store ([MxdbProps]); for the cache
    and the table, their invariants, exact reference counts and that no handle in use is deleted under any operation ([LruProps],
    [HashTable]); for the server's threads, that writers of a name exclude each other, that no name is created twice and no inode
    number given twice ([FsConcProps]), and that every schedule ends with all calls returned, since a thread asleep is always
    signalled ([FsConcLive]); for the messages, that a remote call is the direct call
    unless a name is too long for the buffer ([FsRpc]); for the client, that a path is walked
    component by component ([FsPath]), that a name goes to the server that accepts it and that a
    batch delivers its names in order ([FsCliProps]); for the database, that internal keys sort as
    documented ([Comparator]), that a skip list is the sorted sequence of its keys, that a memtable
    answers every snapshot from the history of its batches, that the checksums agree, that a
    log cut at any point gives back a prefix of its records ([LogProps]), that a block read
    back from a file iterates over the pairs it was built from ([BuilderProps]), that a filter never
    hides a key ([FilterBlock]), and that a table is opened, iterated and searched as the sorted
    sequence of the pairs it was built from ([TableProps]), and that the iterator of a database over
    its merged sources is the sorted sequence of what its snapshot sees ([DbIterProps]); for the versions, that
    edits are read back from the manifest ([VersionEdit]), that overlapping files are found with their closure
    ([VersionFacts]), and that [Get] on a version is what the snapshot sees of all its files ([VersionProps]); for the version set, that an
    edit is logged before it is applied, that a failure changes nothing, that versions and files live exactly as long as they are
    referenced ([Logging]), that recovery gives back the state that was logged, from any of the manifests a crash leaves ([Recovery]),
    and that a compaction drops only entries that no reader at or after the oldest snapshot can see ([CompactionProps]).

    ** Not modelled
    Of the LSM-tree database, [AddL0Tables] and [Dump], [GetProperty], [GetApproximateSizes], the destructor, the statistics, the signals of its
    condition variables, the arena of a memtable and the cache of open tables (a parameter).  About [DbOps] and the background thread nothing is
    proved in general: they run in an example.  ([LogAndApply] runs alone: its caller holds the lock, or keeps others out.)  Further the socket and Mercury transports, the object store bindings, the
    benchmark drivers and the parallel compactor. *)
From Stdlib Require Export ZArith Lia List.
From stdpp Require Export strings base numbers list gmap option.
From Stdlib Require Import Ascii.
From Stdlib Require String.
Import ListNotations.

Declare Scope dfs_scope.
Delimit Scope dfs_scope with dfs.
#[global] Open Scope dfs_scope.
#[global] Open Scope Z_scope.

(** ** Machine words *)

(** The unsigned integer types of the code as [Z] with their wrap-around. *)
Definition wrap (w z : Z) : Z := z mod 2 ^ w.
Definition u8 (z : Z) : Z := wrap 8 z.
Definition u16 (z : Z) : Z := wrap 16 z.
Definition u32 (z : Z) : Z := wrap 32 z.
Definition u64 (z : Z) : Z := wrap 64 z.

Definition word (w z : Z) : Prop := 0 <= z < 2 ^ w.
#[global] Instance word_dec w z : Decision (word w z).
Proof. unfold word. apply _. Defined.

(** Rotation of a [w]-bit word, [(x << r) | (x >> (w - r))]. *)
Definition rotl (w x r : Z) : Z := Z.lor (wrap w (Z.shiftl x r)) (Z.shiftr x (w - r)).

(** ** Byte strings: a [Slice] or a [std::string] is its sequence of bytes *)
Abbreviation Slice := (list Z).

Definition lit (s : string) : Slice :=
  (λ a : ascii, Z.of_nat (nat_of_ascii a)) <$> String.list_ascii_of_string s.
Definition slice_size (s : Slice) : Z := Z.of_nat (length s).
Definition bytes (s : Slice) : Prop := Forall (word 8) s.

Notation "'|[' s ']|'" := (slice_size s) (at level 0, s at level 200, no associativity) : dfs_scope.

(** ** Automation *)
Create HintDb dfs.
Create Rewrite HintDb dfs.

(** Decide a closed decidable proposition by evaluation. *)
Ltac by_compute := refine (bool_decide_unpack _ _); vm_compute; exact I.

(** Destruct the scrutinee of a [match] or [if] in the goal, keeping its equation. *)
Ltac case_goal :=
  match goal with
  | |- context [match ?x with _ => _ end] => destruct x eqn:?
  end.

(** Split every boolean test and conjunction hypothesis. *)
Ltac bool_hyps :=
  repeat match goal with
  | H : _ && _ = true |- _ => apply andb_true_iff in H; destruct H
  | H : _ || _ = false |- _ => apply orb_false_iff in H; destruct H
  | H : negb _ = true |- _ => apply negb_true_iff in H
  | H : negb _ = false |- _ => apply negb_false_iff in H
  | H : (_ <? _) = true |- _ => apply Z.ltb_lt in H
  | H : (_ <? _) = false |- _ => apply Z.ltb_ge in H
  | H : (_ <=? _) = true |- _ => apply Z.leb_le in H
  | H : (_ <=? _) = false |- _ => apply Z.leb_gt in H
  | H : (_ =? _) = true |- _ => apply Z.eqb_eq in H
  | H : (_ =? _) = false |- _ => apply Z.eqb_neq in H
  | H : bool_decide _ = true |- _ => apply bool_decide_eq_true in H
  | H : bool_decide _ = false |- _ => apply bool_decide_eq_false in H
  end.

(** Bitwise equality of integers: compare them bit by bit. *)
Ltac bitwise i Hi :=
  apply Z.bits_inj'; intros i Hi;
  repeat first
    [ rewrite Z.lor_spec | rewrite Z.land_spec | rewrite Z.lxor_spec
    | rewrite Z.shiftr_spec by lia | rewrite Z.shiftl_spec by lia ].

(** ** Words *)
Lemma wrap_word w z : 0 <= w -> word w (wrap w z).
Proof. intros. apply Z.mod_pos_bound. lia. Qed.

Lemma wrap_small w z : word w z -> wrap w z = z.
Proof. apply Z.mod_small. Qed.

Lemma wrap_add_period w z : wrap w (z + 2 ^ w) = wrap w z.
Proof. unfold wrap. rewrite <- (Z.mul_1_l (2 ^ w)) at 1. apply Z_mod_plus_full. Qed.

Lemma wrap_land w z : 0 <= w -> wrap w z = Z.land z (Z.ones w).
Proof. intros. symmetry. by apply Z.land_ones. Qed.

Lemma wrap_testbit w z i :
  0 <= w -> 0 <= i -> Z.testbit (wrap w z) i = (i <? w) && Z.testbit z i.
Proof.
  intros. unfold wrap. destruct (Z.ltb_spec i w).
  - by rewrite Z.mod_pow2_bits_low.
  - by rewrite Z.mod_pow2_bits_high by lia.
Qed.

Lemma word_testbit w z i : word w z -> 0 <= w -> w <= i -> Z.testbit z i = false.
Proof.
  intros Hz ??. rewrite <- (wrap_small w z Hz), wrap_testbit by lia.
  destruct (Z.ltb_spec i w); [lia | done].
Qed.

Lemma word_mono w w' z : word w z -> w <= w' -> word w' z.
Proof.
  intros [? ?] ?. split; [done |].
  apply Z.lt_le_trans with (2 ^ w); [done |]. apply Z.pow_le_mono_r; lia.
Qed.

Lemma word_shiftr w z n : word w z -> 0 <= n <= w -> word (w - n) (Z.shiftr z n).
Proof.
  intros [? ?] ?. rewrite Z.shiftr_div_pow2 by lia. split.
  - apply Z.div_pos; lia.
  - apply Z.div_lt_upper_bound; [lia |].
    rewrite <- Z.pow_add_r by lia. by replace (n + (w - n)) with w by lia.
Qed.

Lemma land_ones_word w z : 0 <= w -> word w (Z.land z (Z.ones w)).
Proof. intros. rewrite <- wrap_land by done. by apply wrap_word. Qed.

(** ** Byte strings *)
Lemma slice_size_app s t : |[s ++ t]| = |[s]| + |[t]|.
Proof. unfold slice_size. rewrite length_app. lia. Qed.

Lemma slice_size_nonneg s : 0 <= |[s]|.
Proof. unfold slice_size. lia. Qed.

Lemma slice_size_cons x s : |[x :: s]| = 1 + |[s]|.
Proof. unfold slice_size. cbn [length]. lia. Qed.

Lemma take_slice_size s t : take (Z.to_nat (|[s]|)) (s ++ t) = s.
Proof. unfold slice_size. by rewrite Nat2Z.id, take_app_length. Qed.
Lemma drop_slice_size s t : drop (Z.to_nat (|[s]|)) (s ++ t) = t.
Proof. unfold slice_size. by rewrite Nat2Z.id, drop_app_length. Qed.

Lemma slice_size_take n s : 0 <= n -> |[take (Z.to_nat n) s]| = Z.min n (|[s]|).
Proof. intros. unfold slice_size. rewrite length_take. lia. Qed.
Lemma slice_size_drop n s : 0 <= n -> |[drop (Z.to_nat n) s]| = Z.max 0 (|[s]| - n).
Proof. intros. unfold slice_size. rewrite length_drop. lia. Qed.
Lemma drop_all n s : |[s]| <= n -> drop (Z.to_nat n) s = [].
Proof. intros. apply drop_ge. unfold slice_size in *. lia. Qed.
Lemma take_whole n s : |[s]| <= n -> take (Z.to_nat n) s = s.
Proof. intros. apply take_ge. unfold slice_size in *. lia. Qed.

(** Side conditions on ranges of words. *)
Ltac word_lia :=
  first [ lia | eassumption | eapply word_mono; [eassumption | lia]
        | split; cbn; lia | unfold word in *; cbn in *; lia ].

#[export] Hint Resolve wrap_word word_mono slice_size_nonneg : dfs.
#[export] Hint Rewrite slice_size_app slice_size_cons : dfs.

(** Low bits below a shifted value add to it. *)
Lemma lor_shiftl_add a b n : 0 <= n -> word n b -> Z.lor (Z.shiftl a n) b = a * 2 ^ n + b.
Proof.
  intros Hn Hb. assert (Z.land (Z.shiftl a n) b = 0) as E.
  { apply Z.bits_inj'. intros i Hi. rewrite Z.land_spec, Z.bits_0, Z.shiftl_spec by done.
    destruct (Z.ltb_spec i n).
    - by rewrite Z.testbit_neg_r by lia.
    - by rewrite (word_testbit n b), andb_false_r by done. }
  rewrite <- Z.lxor_lor, <- Z.add_nocarry_lxor by done.
  by rewrite Z.shiftl_mul_pow2 by done.
Qed.

Lemma wrap_shiftl w z n : 0 <= n <= w -> wrap w (Z.shiftl z n) = Z.shiftl (wrap (w - n) z) n.
Proof.
  intros. apply Z.bits_inj'. intros j Hj. rewrite wrap_testbit, !Z.shiftl_spec by lia.
  destruct (Z.ltb_spec j n).
  - rewrite !(Z.testbit_neg_r _ (j - n)) by lia. apply andb_false_r.
  - rewrite wrap_testbit by lia.
    destruct (Z.ltb_spec j w), (Z.ltb_spec (j - n) (w - n)); try lia; done.
Qed.

(** ** Assertions

    [assert(P)] of the code: in a debug build a false [P] aborts the process, which is
    [None]; a build with [NDEBUG] does not test [P]. *)
Definition assert_ (ndebug P : bool) : option unit := if ndebug || P then Some tt else None.

Lemma assert_true ndebug : assert_ ndebug true = Some tt.
Proof. unfold assert_. by rewrite orb_true_r. Qed.
Lemma assert_bool ndebug b : b = true -> assert_ ndebug b = Some tt.
Proof. intros ->. apply assert_true. Qed.

(** [omap] depends on its function at the elements only. *)
Lemma omap_ext_in {A B} (f g : A -> option B) (l : list A) :
  (∀ x, x ∈ l -> f x = g x) -> omap f l = omap g l.
Proof.
  induction l as [| x l IH]; intros H; [done |]. cbn. rewrite (H x) by left.
  rewrite IH; [done |]. intros y Hy. apply H. by right.
Qed.
