(* ===== verification/Status.v ===== *)
(** * Status codes and results ([pdlfs-common/status.h], [status.cc])

    [Status] carries an error code and a message; the code's [state_ == NULL] is
    [OK].  The equivalence [≡st] compares the codes only: it is what survives a trip
    through [err_code]/[FromCode]. *)
From S2P Require Import Prelude.
Inductive Code :=
  | kOk | kNotFound | kAlreadyExists | kCorruption | kNotSupported
  | kInvalidArgument | kIOError | kBufferFull | kReadOnly | kWriteOnly
  | kDeadLocked | kOptimisticLockFailed | kTryAgain | kDisconnected
  | kAssertionFailed | kAccessDenied | kDirExpected | kFileExpected
  | kDirNotEmpty | kDirNotAllocated | kDirDisabled | kDirMarkedDeleted
  | kInvalidFileDescriptor | kTooManyOpens | kRange | kUnknownError.

#[global] Instance Code_eq_dec : EqDecision Code.
Proof. solve_decision. Defined.

Definition all_codes : list Code :=
  [kOk; kNotFound; kAlreadyExists; kCorruption; kNotSupported;
   kInvalidArgument; kIOError; kBufferFull; kReadOnly; kWriteOnly;
   kDeadLocked; kOptimisticLockFailed; kTryAgain; kDisconnected;
   kAssertionFailed; kAccessDenied; kDirExpected; kFileExpected;
   kDirNotEmpty; kDirNotAllocated; kDirDisabled; kDirMarkedDeleted;
   kInvalidFileDescriptor; kTooManyOpens; kRange; kUnknownError].

(** The numeric value of a code in the enumeration. *)
Definition code_num (c : Code) : Z :=
  match c with
  | kOk => 0 | kNotFound => 1 | kAlreadyExists => 2 | kCorruption => 3
  | kNotSupported => 4 | kInvalidArgument => 5 | kIOError => 6
  | kBufferFull => 7 | kReadOnly => 8 | kWriteOnly => 9 | kDeadLocked => 10
  | kOptimisticLockFailed => 11 | kTryAgain => 12 | kDisconnected => 13
  | kAssertionFailed => 14 | kAccessDenied => 15 | kDirExpected => 16
  | kFileExpected => 17 | kDirNotEmpty => 18 | kDirNotAllocated => 19
  | kDirDisabled => 20 | kDirMarkedDeleted => 21
  | kInvalidFileDescriptor => 22 | kTooManyOpens => 23 | kRange => 24
  | kUnknownError => 25
  end.

(** [state_] of a status: [None] for the OK status, otherwise code and message. *)
Definition Status : Type := option (Code * Slice).

Definition OK : Status := None.
Definition ok (s : Status) : bool := bool_decide (s = None).
Definition code (s : Status) : Code := match s with None => kOk | Some (c, _) => c end.
Definition err_code (s : Status) : Z := code_num (code s).

(** [Status::Status(Code, msg, msg2)]. *)
Definition MkStatus (c : Code) (msg msg2 : Slice) : Status :=
  Some (c, msg ++ (if decide (msg2 = []) then [] else lit ": " ++ msg2)).

(** The constructors and tests made by [DEF_ERR]. *)
Definition Err (c : Code) (msg : string) : Status := MkStatus c (lit msg) [].
Definition IsErr (c : Code) (s : Status) : bool := bool_decide (code s = c).
Definition IsNotFound : Status -> bool := IsErr kNotFound.
Definition IsDirExpected : Status -> bool := IsErr kDirExpected.

Definition kMaxCode : Z := 24.

(** [Status::FromCode]; [None] is its failed assertion on an out-of-range code.  Without
    assertions the code makes a status of a value outside the enumeration, which [Code] cannot hold: it is
    [None] too. *)
Definition FromCode (n : Z) : option Status :=
  if decide (0 < n <= kMaxCode) then
    p ← list_find (λ c, code_num c = n) all_codes; Some (MkStatus p.2 [] [])
  else None.

(** The strings of [kCodeString], as the compiler reads the initialiser: the comma
    after ["Too many open files"] is missing, so the last two literals are one. *)
Definition kCodeString : list string :=
  ["OK"; "Not found"; "Already exists"; "Corruption"; "Not implemented";
   "Invalid argument"; "IO error"; "Buffer full"; "Read only"; "Write only";
   "Dead locked"; "Optimistic lock failed"; "Try again"; "Disconnected";
   "Assertion failed"; "Permission denied"; "Dir expected"; "File expected";
   "Dir not empty"; "Dir not allocated"; "Dir disabled"; "Dir marked deleted";
   "Invalid file descriptor"; "Too many open filesOut of range"]%string.

(** [Status::ToString]; [None] is the read past the end of [kCodeString]. *)
Definition ToString (s : Status) : option Slice :=
  match s with
  | None => Some (lit "OK")
  | Some (c, msg) =>
      type ← kCodeString !! Z.to_nat (err_code s);
      Some (if decide (msg = []) then lit type else lit type ++ lit ": " ++ msg)
  end.

(** ** Equality of codes *)
Definition status_equiv : relation Status := λ s t, code s = code t.
Infix "≡st" := status_equiv (at level 70, no associativity) : dfs_scope.

#[global] Instance status_equiv_equivalence : Equivalence status_equiv.
Proof.
  unfold status_equiv. split; repeat intro; congruence.
Qed.

#[global] Instance code_Proper : Proper (status_equiv ==> eq) code.
Proof. by intros s t H. Qed.
#[global] Instance err_code_Proper : Proper (status_equiv ==> eq) err_code.
Proof. intros s t H. unfold err_code. by rewrite H. Qed.
#[global] Instance IsErr_Proper c : Proper (status_equiv ==> eq) (IsErr c).
Proof. intros s t H. unfold IsErr. by rewrite H. Qed.

(** The statuses the code can build: only the OK status has code [kOk]. *)
Definition status_wf (s : Status) : Prop := code s = kOk -> s = OK.

Lemma ok_OK s : ok s = true <-> s = OK.
Proof. unfold ok. by rewrite bool_decide_eq_true. Qed.
Lemma ok_false s : ok s = false <-> s <> OK.
Proof. unfold ok. by rewrite bool_decide_eq_false. Qed.
Lemma ok_MkStatus c m m2 : ok (MkStatus c m m2) = false.
Proof. done. Qed.

Lemma code_num_inj c d : code_num c = code_num d -> c = d.
Proof. destruct c, d; intros H; solve [reflexivity | discriminate H]. Qed.

Lemma code_num_range c : 0 <= code_num c <= 25.
Proof. destruct c; cbn; lia. Qed.

Lemma FromCode_code_num c :
  c <> kOk -> c <> kUnknownError -> FromCode (code_num c) = Some (MkStatus c [] []).
Proof. destruct c; intros H1 H2; try done. Qed.

(** The string of a status: [ToString] reads inside [kCodeString] for the codes 0 to 23 only.  The
    comma missing after the string of [kTooManyOpens] leaves the table one entry short, so that
    [kRange] (24) and [kUnknownError] read past its end; for every code below, the message is
    appended after a colon. *)
Theorem ToString_in_table c msg :
  (ToString (MkStatus c msg []) = None <-> 24 <= code_num c) /\
  (code_num c < 23 -> msg <> [] ->
   ∃ type, kCodeString !! Z.to_nat (code_num c) = Some type /\
     ToString (MkStatus c msg []) = Some (lit type ++ lit ": " ++ msg)).
Proof.
  unfold MkStatus, ToString. split.
  - destruct c; cbn; split; intros; first [done | lia].
  - intros Hc Hm. destruct (decide (msg ++ _ = [])) as [E |]; [by apply app_eq_nil in E as [? _] |].
    cbn [decide decide_rel] in *. rewrite app_nil_r. destruct c; cbn in Hc; try lia; by eexists.
Qed.

Lemma ToString_in_table_witness :
  ToString (MkStatus kRange (lit "x") []) = None /\
  ToString (MkStatus kNotFound (lit "x") []) = Some (lit "Not found: x").
Proof.
  split.
  - apply (proj1 (ToString_in_table kRange (lit "x"))). cbn. lia.
  - destruct (proj2 (ToString_in_table kNotFound (lit "x"))) as (type & E & ->); [by_compute | discriminate |].
    injection E as <-. reflexivity.
Defined.
