(* ===== verification/Coding.v ===== *)
(** * Integer and string encodings ([pdlfs-common/coding.h], [coding.cc])

    Fixed-width little-endian integers, varints and length-prefixed strings.  An
    encoder that writes at [dst] and returns the advanced pointer is the function
    giving the bytes it writes; a decoder that advances a [Slice*] returns the value
    with the rest of the input, [None] where the code returns false or NULL. *)
From S2P Require Import Prelude.
(** ** Fixed-width integers *)
Definition EncodeFixed16 (value : Z) : Slice :=
  [Z.land value 255; Z.land (Z.shiftr value 8) 255].

Definition EncodeFixed32 (value : Z) : Slice :=
  [Z.land value 255; Z.land (Z.shiftr value 8) 255;
   Z.land (Z.shiftr value 16) 255; Z.land (Z.shiftr value 24) 255].

Definition EncodeFixed64 (value : Z) : Slice :=
  [Z.land value 255; Z.land (Z.shiftr value 8) 255;
   Z.land (Z.shiftr value 16) 255; Z.land (Z.shiftr value 24) 255;
   Z.land (Z.shiftr value 32) 255; Z.land (Z.shiftr value 40) 255;
   Z.land (Z.shiftr value 48) 255; Z.land (Z.shiftr value 56) 255].

Definition PutFixed32 (dst : Slice) (value : Z) : Slice := dst ++ EncodeFixed32 value.
Definition PutFixed64 (dst : Slice) (value : Z) : Slice := dst ++ EncodeFixed64 value.

(** [None]: the read runs past the end of the buffer. *)
Definition DecodeFixed16 (p : Slice) : option Z :=
  match p with
  | b0 :: b1 :: _ => Some (Z.lor b0 (Z.shiftl b1 8))
  | _ => None
  end.

Definition DecodeFixed32 (p : Slice) : option Z :=
  match p with
  | b0 :: b1 :: b2 :: b3 :: _ =>
      Some (Z.lor (Z.lor (Z.lor b0 (Z.shiftl b1 8)) (Z.shiftl b2 16)) (Z.shiftl b3 24))
  | _ => None
  end.

Definition DecodeFixed64 (p : Slice) : option Z :=
  lo ← DecodeFixed32 p; hi ← DecodeFixed32 (drop 4 p);
  Some (Z.lor (Z.shiftl hi 32) lo).

(** ** Varints *)
Definition B : Z := 128.

(** The unrolled 32-bit encoder; every store truncates to an [unsigned char]. *)
Definition EncodeVarint32 (v : Z) : Slice :=
  if v <? Z.shiftl 1 7 then [u8 v]
  else if v <? Z.shiftl 1 14 then [u8 (Z.lor v B); u8 (Z.shiftr v 7)]
  else if v <? Z.shiftl 1 21 then
    [u8 (Z.lor v B); u8 (Z.lor (Z.shiftr v 7) B); u8 (Z.shiftr v 14)]
  else if v <? Z.shiftl 1 28 then
    [u8 (Z.lor v B); u8 (Z.lor (Z.shiftr v 7) B); u8 (Z.lor (Z.shiftr v 14) B);
     u8 (Z.shiftr v 21)]
  else
    [u8 (Z.lor v B); u8 (Z.lor (Z.shiftr v 7) B); u8 (Z.lor (Z.shiftr v 14) B);
     u8 (Z.lor (Z.shiftr v 21) B); u8 (Z.shiftr v 28)].

(** The loop of [EncodeVarint64]: [fuel] bounds its iterations, see
    [EncodeVarint64_fuel]. *)
Fixpoint EncodeVarint64_loop (fuel : nat) (v : Z) : Slice :=
  match fuel with
  | O => [u8 v]
  | S fuel =>
      if B <=? v then
        u8 (Z.lor (Z.land v (B - 1)) B) :: EncodeVarint64_loop fuel (Z.shiftr v 7)
      else [u8 v]
  end.

(** A 64-bit value has at most nine 7-bit groups after the first. *)
Definition EncodeVarint64 (v : Z) : Slice := EncodeVarint64_loop 9 v.

Definition PutVarint32 (dst : Slice) (v : Z) : Slice := dst ++ EncodeVarint32 v.
Definition PutVarint64 (dst : Slice) (v : Z) : Slice := dst ++ EncodeVarint64 v.

Fixpoint VarintLength_loop (fuel : nat) (len v : Z) : Z :=
  match fuel with
  | O => len
  | S fuel => if 128 <=? v then VarintLength_loop fuel (len + 1) (Z.shiftr v 7) else len
  end.
Definition VarintLength (v : Z) : Z := VarintLength_loop 9 1 v.

(** The decoding loops, [shift <= last] being the loop's test and [w] the width of
    [result]. *)
Fixpoint GetVarint_loop (w last : Z) (p : Slice) (shift result : Z) : option (Z * Slice) :=
  match p with
  | [] => None
  | byte :: p =>
      if shift <=? last then
        if decide (Z.land byte 128 = 0)
        then Some (Z.lor result (wrap w (Z.shiftl byte shift)), p)
        else GetVarint_loop w last p (shift + 7)
               (Z.lor result (wrap w (Z.shiftl (Z.land byte 127) shift)))
      else None
  end.

Definition GetVarint32PtrFallback (p : Slice) : option (Z * Slice) :=
  GetVarint_loop 32 28 p 0 0.

(** The inlined fast path for one-byte values. *)
Definition GetVarint32Ptr (p : Slice) : option (Z * Slice) :=
  match p with
  | result :: q =>
      if decide (Z.land result 128 = 0) then Some (result, q) else GetVarint32PtrFallback p
  | [] => GetVarint32PtrFallback p
  end.
Definition GetVarint32 (input : Slice) : option (Z * Slice) := GetVarint32Ptr input.

Definition GetVarint64Ptr (p : Slice) : option (Z * Slice) := GetVarint_loop 64 63 p 0 0.
Definition GetVarint64 (input : Slice) : option (Z * Slice) := GetVarint64Ptr input.

(** ** Length-prefixed strings *)
Definition EncodeLengthPrefixedSlice (value : Slice) : Slice :=
  EncodeVarint32 (u32 (|[value]|)) ++ value.
Definition PutLengthPrefixedSlice (dst value : Slice) : Slice :=
  PutVarint32 dst (u32 (|[value]|)) ++ value.

Definition GetLengthPrefixedSlice (input : Slice) : option (Slice * Slice) :=
  '(len, input) ← GetVarint32 input;
  if len <=? |[input]|
  then Some (take (Z.to_nat len) input, drop (Z.to_nat len) input)
  else None.

(** ** Fixed-width integers: round trips *)
Lemma byte_word v : word 8 (Z.land v 255).
Proof. apply (land_ones_word 8). lia. Qed.

(** Putting the next byte on top of the low [s] bits gives the low [s + 8] bits. *)
Lemma lor_next_byte v s :
  0 <= s -> Z.lor (wrap s v) (Z.shiftl (Z.land (Z.shiftr v s) 255) s) = wrap (s + 8) v.
Proof.
  intros. change 255 with (Z.ones 8). apply Z.bits_inj'. intros i Hi.
  rewrite Z.lor_spec, Z.shiftl_spec, !wrap_testbit by lia.
  destruct (Z.ltb_spec i s), (Z.ltb_spec i (s + 8)); try lia; cbn.
  - by rewrite (Z.testbit_neg_r _ (i - s)), orb_false_r by lia.
  - rewrite Z.land_spec, Z.shiftr_spec, Z.ones_spec_low by lia.
    by replace (i - s + s) with i by lia; rewrite andb_true_r.
  - by rewrite Z.land_spec, Z.ones_spec_high, andb_false_r by lia.
Qed.

Lemma wrap_8_land v : Z.land v 255 = wrap 8 v.
Proof. symmetry. by apply wrap_land. Qed.

Lemma DecodeFixed16_wrap v rest : DecodeFixed16 (EncodeFixed16 v ++ rest) = Some (u16 v).
Proof.
  cbn [EncodeFixed16 app DecodeFixed16]. f_equal.
  by rewrite (wrap_8_land v), (lor_next_byte v 8) by lia.
Qed.

Lemma DecodeFixed32_wrap v rest : DecodeFixed32 (EncodeFixed32 v ++ rest) = Some (u32 v).
Proof.
  cbn [EncodeFixed32 app DecodeFixed32]. f_equal.
  rewrite (wrap_8_land v), (lor_next_byte v 8) by lia. change (8 + 8) with 16.
  rewrite (lor_next_byte v 16) by lia. change (16 + 8) with 24.
  by rewrite (lor_next_byte v 24).
Qed.

Lemma EncodeFixed64_split v :
  EncodeFixed64 v = EncodeFixed32 v ++ EncodeFixed32 (Z.shiftr v 32).
Proof.
  unfold EncodeFixed64, EncodeFixed32. rewrite !Z.shiftr_shiftr by lia. done.
Qed.

Lemma DecodeFixed64_wrap v rest : DecodeFixed64 (EncodeFixed64 v ++ rest) = Some (u64 v).
Proof.
  rewrite EncodeFixed64_split, <- app_assoc. unfold DecodeFixed64.
  rewrite DecodeFixed32_wrap. cbn [mbind option_bind].
  replace (drop 4 (EncodeFixed32 v ++ EncodeFixed32 (Z.shiftr v 32) ++ rest))
    with (EncodeFixed32 (Z.shiftr v 32) ++ rest) by done.
  rewrite DecodeFixed32_wrap. cbn [mbind option_bind]. f_equal.
  apply Z.bits_inj'. intros i Hi. unfold u32, u64.
  rewrite Z.lor_spec, Z.shiftl_spec, (wrap_testbit 32 v i), (wrap_testbit 64 v i) by lia.
  destruct (Z.ltb_spec i 32), (Z.ltb_spec i 64); try lia; cbn [andb].
  - by rewrite Z.testbit_neg_r by lia.
  - rewrite wrap_testbit, Z.shiftr_spec, orb_false_r by lia.
    replace (i - 32 + 32) with i by lia.
    by destruct (Z.ltb_spec (i - 32) 32); [| lia].
  - rewrite wrap_testbit by lia. destruct (Z.ltb_spec (i - 32) 32); [lia |]. done.
Qed.

Lemma length_EncodeFixed32 v : length (EncodeFixed32 v) = 4%nat.
Proof. done. Qed.
Lemma length_EncodeFixed64 v : length (EncodeFixed64 v) = 8%nat.
Proof. done. Qed.

(** ** Varints: round trips *)

(** One continuation byte: its low seven bits and its flag. *)
Lemma flag_byte v : Z.land (u8 (Z.lor v B)) 127 = Z.land v 127 /\ Z.land (u8 (Z.lor v B)) 128 <> 0.
Proof.
  unfold u8, B. split.
  - change 127 with (Z.ones 7). apply Z.bits_inj'. intros i Hi.
    rewrite !Z.land_spec, wrap_testbit, Z.lor_spec by lia.
    destruct (Z.ltb_spec i 7).
    + rewrite Z.ones_spec_low, !andb_true_r by lia.
      destruct (Z.ltb_spec i 8); [| lia]. cbn.
      change 128 with (2 ^ 7). by rewrite Z.pow2_bits_false, orb_false_r by lia.
    + by rewrite Z.ones_spec_high, !andb_false_r by lia.
  - intros E. apply (f_equal (λ z, Z.testbit z 7)) in E.
    rewrite Z.land_spec, wrap_testbit, Z.lor_spec in E by lia. cbn in E.
    by rewrite orb_true_r in E.
Qed.

Lemma last_byte v : 0 <= v < 128 -> u8 v = v /\ Z.land v 128 = 0.
Proof.
  intros. split; [apply wrap_small; split; cbn; lia |].
  apply Z.bits_inj'. intros i Hi. rewrite Z.land_spec, Z.bits_0.
  destruct (decide (i = 7)) as [-> |].
  - by rewrite (word_testbit 7) by (try split; cbn; lia).
  - change 128 with (2 ^ 7). by rewrite Z.pow2_bits_false, andb_false_r by lia.
Qed.

(** Seven more bits of [v] land on top of those already decoded. *)
Lemma lor_next_group w v s :
  0 <= s -> 0 <= w ->
  Z.lor (wrap w (Z.shiftl (Z.land v 127) s)) (wrap w (Z.shiftl (Z.shiftr v 7) (s + 7)))
  = wrap w (Z.shiftl v s).
Proof.
  intros. change 127 with (Z.ones 7). apply Z.bits_inj'. intros i Hi.
  rewrite Z.lor_spec, !wrap_testbit, !Z.shiftl_spec by lia.
  destruct (i <? w); [cbn | done].
  destruct (Z.ltb_spec i s).
  { rewrite !(Z.testbit_neg_r _ (_ - _)) by lia. done. }
  rewrite Z.land_spec. destruct (Z.ltb_spec (i - s) 7).
  - rewrite Z.ones_spec_low, andb_true_r, (Z.testbit_neg_r _ (i - (s + 7))) by lia.
    apply orb_false_r.
  - rewrite Z.ones_spec_high, andb_false_r, Z.shiftr_spec by lia. cbn.
    f_equal. lia.
Qed.

Lemma small_shiftr_word v n :
  0 <= n -> word (7 * (n + 1)) v -> 0 <= Z.shiftr v 7 /\ word (7 * n) (Z.shiftr v 7).
Proof.
  intros Hn Hv. assert (word (7 * n) (Z.shiftr v 7)) as Hw.
  { replace (7 * n) with (7 * (n + 1) - 7) by lia. apply word_shiftr; [done | lia]. }
  split; [apply Hw | done].
Qed.

(** The decoding loop undoes the encoding loop, whatever was decoded before. *)
Lemma GetVarint_loop_encode w last fuel v s r rest :
  word (7 * (Z.of_nat fuel + 1)) v -> 0 <= s -> s + 7 * Z.of_nat fuel <= last -> 0 <= w ->
  GetVarint_loop w last (EncodeVarint64_loop fuel v ++ rest) s r
  = Some (Z.lor r (wrap w (Z.shiftl v s)), rest).
Proof.
  revert v s r. induction fuel as [| fuel IH]; intros v s r Hv Hs Hl Hw.
  - assert (0 <= v < 128) as Hb by exact Hv.
    destruct (last_byte v Hb) as [E1 E2]. cbn [EncodeVarint64_loop app GetVarint_loop].
    rewrite E1. destruct (Z.leb_spec s last); [| lia]. by rewrite decide_True.
  - cbn [EncodeVarint64_loop]. destruct (Z.leb_spec B v) as [Hb | Hb].
    + cbn [app GetVarint_loop]. destruct (Z.leb_spec s last); [| lia].
      destruct (flag_byte (Z.land v (B - 1))) as [E1 E2].
      rewrite decide_False, E1 by done.
      rewrite <- Z.land_assoc. change (Z.land (B - 1) 127) with 127.
      assert (word (7 * (Z.of_nat fuel + 1)) (Z.shiftr v 7)).
      { apply small_shiftr_word; [lia |]. by replace (Z.of_nat fuel + 1 + 1)
          with (Z.of_nat (S fuel) + 1) by lia. }
      rewrite IH by (try lia; done).
      by rewrite <- Z.lor_assoc, lor_next_group by lia.
    + unfold B in Hb. destruct Hv as [Hv _].
      destruct (last_byte v) as [E1 E2]; [lia |].
      cbn [app GetVarint_loop]. rewrite E1.
      destruct (Z.leb_spec s last); [| lia]. by rewrite decide_True.
Qed.

(** The nine iterations allowed by [EncodeVarint64] reach the last group. *)
Lemma EncodeVarint64_loop_fuel n m v :
  word (7 * (Z.of_nat n + 1)) v -> (n <= m)%nat ->
  EncodeVarint64_loop m v = EncodeVarint64_loop n v.
Proof.
  revert m v. induction n as [| n IH]; intros m v Hv Hm.
  - assert (0 <= v < 128) by exact Hv. destruct m; cbn [EncodeVarint64_loop]; [done |].
    unfold B. by destruct (Z.leb_spec 128 v); [lia |].
  - destruct m as [| m]; [lia |]. cbn [EncodeVarint64_loop].
    destruct (B <=? v); [| done]. f_equal. apply IH; [| lia].
    apply small_shiftr_word; [lia |]. by replace (Z.of_nat n + 1 + 1)
      with (Z.of_nat (S n) + 1) by lia.
Qed.

Lemma u8_lor_land v : u8 (Z.lor (Z.land v (B - 1)) B) = u8 (Z.lor v B).
Proof.
  unfold u8, B. change (128 - 1) with (Z.ones 7). change 128 with (2 ^ 7).
  apply Z.bits_inj'. intros i Hi. rewrite !wrap_testbit, !Z.lor_spec by lia.
  destruct (Z.ltb_spec i 8); [| done]. cbn [andb].
  destruct (decide (i = 7)) as [-> |].
  - by rewrite Z.pow2_bits_true, !orb_true_r by lia.
  - by rewrite Z.land_spec, Z.ones_spec_low, andb_true_r by lia.
Qed.

(** The unrolled encoder computes what the loop computes. *)
Lemma EncodeVarint32_loop v : word 32 v -> EncodeVarint32 v = EncodeVarint64 v.
Proof.
  intros Hv. unfold EncodeVarint64.
  rewrite (EncodeVarint64_loop_fuel 4) by word_lia.
  assert (∀ k n, 0 <= k -> 0 <= n ->
            (Z.shiftl 1 (n + k) <=? v) = (Z.shiftl 1 n <=? Z.shiftr v k)) as Hs.
  { intros k n Hk Hn.
    rewrite Z.shiftr_div_pow2, !Z.shiftl_1_l, Z.pow_add_r by lia.
    apply eq_true_iff_eq. rewrite !Z.leb_le. rewrite (Z.mul_comm (2 ^ n)). split; intros H'.
    - apply Z.div_le_lower_bound; lia.
    - etransitivity; [apply Z.mul_le_mono_nonneg_l, H'; lia |].
      apply Z.mul_div_le. lia. }
  unfold EncodeVarint32. cbn [EncodeVarint64_loop].
  assert ((B <=? v) = negb (v <? Z.shiftl 1 7)) as ->.
  { unfold B. by rewrite <- Z.leb_antisym. }
  rewrite !u8_lor_land, !Z.shiftr_shiftr by lia. cbn [Z.add Pos.add Pos.succ].
  assert (∀ k, 0 <= k -> (B <=? Z.shiftr v k) = negb (v <? Z.shiftl 1 (7 + k))) as Hb.
  { intros k Hk. rewrite <- Z.leb_antisym. by rewrite Hs by lia. }
  rewrite !Hb by lia. change (7 + 7) with 14. change (14 + 7) with 21.
  change (21 + 7) with 28. change (7 + 14) with 21. change (7 + 21) with 28.
  destruct (Z.ltb_spec v (Z.shiftl 1 7)); cbn [negb]; [done |].
  destruct (Z.ltb_spec v (Z.shiftl 1 14)); cbn [negb]; [done |].
  destruct (Z.ltb_spec v (Z.shiftl 1 21)); cbn [negb]; [done |].
  by destruct (Z.ltb_spec v (Z.shiftl 1 28)).
Qed.

Lemma GetVarint64_encode v rest :
  word 64 v -> GetVarint64 (EncodeVarint64 v ++ rest) = Some (v, rest).
Proof.
  intros Hv. unfold GetVarint64, GetVarint64Ptr, EncodeVarint64.
  rewrite GetVarint_loop_encode; try lia.
  - by rewrite Z.shiftl_0_r, wrap_small.
  - eapply word_mono; [done | lia].
Qed.

Lemma GetVarint32_encode v rest :
  word 32 v -> GetVarint32 (EncodeVarint32 v ++ rest) = Some (v, rest).
Proof.
  intros Hv. rewrite EncodeVarint32_loop by done. unfold EncodeVarint64.
  rewrite (EncodeVarint64_loop_fuel 4) by word_lia.
  assert (GetVarint32PtrFallback (EncodeVarint64_loop 4 v ++ rest) = Some (v, rest)) as E.
  { unfold GetVarint32PtrFallback. rewrite GetVarint_loop_encode; try lia.
    - by rewrite Z.shiftl_0_r, wrap_small.
    - eapply word_mono; [done | lia]. }
  unfold GetVarint32, GetVarint32Ptr. revert E. cbn [EncodeVarint64_loop].
  destruct (Z.leb_spec B v) as [Hb | Hb].
  - intros E. cbn [app] in *. destruct (flag_byte (Z.land v (B - 1))) as [_ E2].
    by rewrite decide_False.
  - intros _. destruct (last_byte v) as [E1 E2].
    { unfold B in Hb. destruct Hv. lia. }
    cbn [app]. by rewrite E1, decide_True.
Qed.

Lemma length_EncodeVarint64_loop fuel v :
  (1 <= length (EncodeVarint64_loop fuel v) <= S fuel)%nat.
Proof.
  revert v. induction fuel as [| fuel IH]; intros v; cbn [EncodeVarint64_loop]; [cbn; lia |].
  destruct (B <=? v); cbn [length]; [specialize (IH (Z.shiftr v 7)) |]; lia.
Qed.

Lemma length_EncodeVarint64 v : (1 <= length (EncodeVarint64 v) <= 10)%nat.
Proof. apply (length_EncodeVarint64_loop 9). Qed.

Lemma length_EncodeVarint32 v : (1 <= length (EncodeVarint32 v) <= 5)%nat.
Proof. unfold EncodeVarint32. repeat case_match; cbn; lia. Qed.

Lemma bytes_EncodeVarint32 v : bytes (EncodeVarint32 v).
Proof. unfold EncodeVarint32. repeat case_match; repeat constructor; apply wrap_word; lia. Qed.

Lemma bytes_EncodeVarint64_loop fuel v : bytes (EncodeVarint64_loop fuel v).
Proof.
  revert v. induction fuel as [| fuel IH]; intros v; cbn [EncodeVarint64_loop]; [| destruct (B <=? v)];
    (apply list.Forall_cons; split; [apply wrap_word; lia |]); [apply Forall_nil; exact I | apply IH | apply Forall_nil; exact I].
Qed.
Lemma bytes_EncodeVarint64 v : bytes (EncodeVarint64 v).
Proof. apply bytes_EncodeVarint64_loop. Qed.

(** Bytes decode to words. *)
Lemma lor_byte_word s a b : 0 <= s -> word s a -> word 8 b -> word (s + 8) (Z.lor a (Z.shiftl b s)).
Proof.
  intros Hs Ha Hb. rewrite Z.lor_comm, lor_shiftl_add by done. unfold word in *. rewrite Z.pow_add_r by lia. nia.
Qed.
Lemma DecodeFixed32_word p v : bytes p -> DecodeFixed32 p = Some v -> word 32 v.
Proof.
  unfold DecodeFixed32. destruct p as [| a [| b [| c [| d p]]]]; try done. intros Hp [= <-].
  repeat (apply list.Forall_cons in Hp as [? Hp]). apply (lor_byte_word 24); [lia | | done]. apply (lor_byte_word 16); [lia | | done].
  by apply (lor_byte_word 8).
Qed.
Lemma DecodeFixed64_word p v : bytes p -> DecodeFixed64 p = Some v -> word 64 v.
Proof.
  unfold DecodeFixed64. intros Hp. destruct (DecodeFixed32 p) as [lo |] eqn:E1; [| done]. cbn [mbind option_bind].
  destruct (DecodeFixed32 (drop 4 p)) as [hi |] eqn:E2; [| done]. cbn [mbind option_bind]. intros [= <-].
  apply DecodeFixed32_word in E1; [| done]. apply DecodeFixed32_word in E2; [| by apply Forall_drop].
  rewrite lor_shiftl_add by (lia || done). unfold word in *. lia.
Qed.

Lemma VarintLength_loop_length fuel len v :
  VarintLength_loop fuel len v
  = len + Z.of_nat (length (EncodeVarint64_loop fuel v)) - 1.
Proof.
  revert len v. induction fuel as [| fuel IH]; intros len v; cbn; [lia |].
  change B with 128. destruct (128 <=? v); [rewrite IH |]; cbn [length]; lia.
Qed.

(** [VarintLength] predicts the size of the encoding. *)
Lemma VarintLength_length v : VarintLength v = |[EncodeVarint64 v]|.
Proof.
  unfold VarintLength, slice_size, EncodeVarint64. rewrite VarintLength_loop_length. lia.
Qed.

(** ** Length-prefixed strings *)
Lemma GetLengthPrefixedSlice_encode s rest :
  |[s]| < 2 ^ 32 ->
  GetLengthPrefixedSlice (EncodeLengthPrefixedSlice s ++ rest) = Some (s, rest).
Proof.
  intros Hs. unfold GetLengthPrefixedSlice, EncodeLengthPrefixedSlice.
  assert (word 32 (|[s]|)) as Hw by (split; [apply slice_size_nonneg | done]).
  unfold u32. rewrite wrap_small, <- app_assoc, GetVarint32_encode by done. cbn.
  rewrite slice_size_app. destruct (Z.leb_spec (|[s]|) (|[s]| + |[rest]|)) as [| Hlt].
  - unfold slice_size. by rewrite Nat2Z.id, take_app_length, drop_app_length.
  - pose proof (slice_size_nonneg rest). lia.
Qed.

Lemma bytes_EncodeFixed32 v : bytes (EncodeFixed32 v).
Proof. unfold EncodeFixed32. repeat (apply list.Forall_cons; split; [first [apply byte_word | apply wrap_word; lia] |]). by apply Forall_nil. Qed.
Lemma foldl_PutFixed32 buf l : foldl PutFixed32 buf l = buf ++ concat (EncodeFixed32 <$> l).
Proof.
  revert buf. induction l as [| x l IH]; intros buf; cbn; [by rewrite app_nil_r |]. rewrite IH. unfold PutFixed32. by rewrite <- app_assoc.
Qed.
Lemma PutLengthPrefixedSlice_app dst s :
  PutLengthPrefixedSlice dst s = dst ++ EncodeLengthPrefixedSlice s.
Proof. unfold PutLengthPrefixedSlice, PutVarint32. by rewrite <- app_assoc. Qed.

Lemma size_EncodeLengthPrefixedSlice s :
  |[s]| + 1 <= |[EncodeLengthPrefixedSlice s]| <= |[s]| + 5.
Proof.
  unfold EncodeLengthPrefixedSlice. rewrite slice_size_app.
  pose proof (length_EncodeVarint32 (u32 (|[s]|))). unfold slice_size in *. lia.
Qed.

(** Every successful decoding step consumes input: the loops over names end. *)
Lemma GetVarint_loop_rest w last p s r v q :
  GetVarint_loop w last p s r = Some (v, q) -> (length q < length p)%nat.
Proof.
  revert s r. induction p as [| b p IH]; intros s r; cbn [GetVarint_loop]; [done |].
  destruct (s <=? last); [| done]. case_decide.
  - intros [= <- <-]. cbn. lia.
  - intros H'. apply IH in H'. cbn. lia.
Qed.

Lemma GetVarint32_rest p v q : GetVarint32 p = Some (v, q) -> (length q < length p)%nat.
Proof.
  unfold GetVarint32, GetVarint32Ptr. destruct p as [| b p]; [done |].
  case_decide; [intros [= <- <-]; cbn; lia |]. apply GetVarint_loop_rest.
Qed.

Lemma GetLengthPrefixedSlice_rest p s q :
  GetLengthPrefixedSlice p = Some (s, q) -> (length q < length p)%nat.
Proof.
  unfold GetLengthPrefixedSlice. destruct (GetVarint32 p) as [[len r] |] eqn:E; [cbn | done].
  apply GetVarint32_rest in E. destruct (len <=? |[r]|); [| done].
  intros [= <- <-]. rewrite length_drop. lia.
Qed.

#[export] Hint Rewrite DecodeFixed16_wrap DecodeFixed32_wrap DecodeFixed64_wrap : dfs.

(** C20. Varints round-trip: [GetVarint64] reads back every 64-bit value that [EncodeVarint64] wrote and
    stops right after it, [VarintLength] is the number of bytes written, at most 10; a 32-bit value has the
    same bytes under [EncodeVarint32], at most 5 of them, and [GetVarint32] reads it back. *)
Theorem varint_roundtrip v rest :
  word 64 v ->
  GetVarint64 (EncodeVarint64 v ++ rest) = Some (v, rest) /\
  VarintLength v = |[EncodeVarint64 v]| /\ |[EncodeVarint64 v]| <= 10 /\
  (word 32 v -> EncodeVarint32 v = EncodeVarint64 v /\ |[EncodeVarint32 v]| <= 5 /\
     GetVarint32 (EncodeVarint32 v ++ rest) = Some (v, rest)).
Proof.
  intros Hv. pose proof (length_EncodeVarint64 v). pose proof (length_EncodeVarint32 v).
  split_and!; [by apply GetVarint64_encode | apply VarintLength_length | unfold slice_size; lia |].
  intros H32. split_and!; [by apply EncodeVarint32_loop | unfold slice_size; lia | by apply GetVarint32_encode].
Qed.

Lemma varint_roundtrip_witness :
  GetVarint64 (EncodeVarint64 300 ++ [7]) = Some (300, [7]) /\ EncodeVarint64 300 = [172; 2].
Proof. split; [apply varint_roundtrip; by_compute | reflexivity]. Defined.
