(* ===== verification/Hashing.v ===== *)
(** * Hash functions ([pdlfs-common/hash.cc], [xxhash.cc], [xxhash/xxhash.c])

    [Hash] (the murmur-like hash of the caches and of the per-directory locks),
    [xxhash32] (zeroth servers) and [xxhash64] (name hashes of the directory
    index), on little-endian reads. *)
From S2P Require Import Prelude Coding.
(** A little-endian 32-bit or 64-bit load of the given bytes. *)
Definition le32 (b0 b1 b2 b3 : Z) : Z :=
  Z.lor (Z.lor (Z.lor b0 (Z.shiftl b1 8)) (Z.shiftl b2 16)) (Z.shiftl b3 24).
Definition le64 (b0 b1 b2 b3 b4 b5 b6 b7 : Z) : Z :=
  Z.lor (Z.shiftl (le32 b4 b5 b6 b7) 32) (le32 b0 b1 b2 b3).

(** ** [Hash] *)
Definition Hash_m : Z := 0xc6a4a793.
Definition Hash_r : Z := 24.

(** Four bytes at a time, then the [switch] on the remaining ones. *)
Fixpoint Hash_loop (h : Z) (data : Slice) : Z :=
  match data with
  | b0 :: b1 :: b2 :: b3 :: data =>
      let h := u32 (h + le32 b0 b1 b2 b3) in
      let h := u32 (h * Hash_m) in
      Hash_loop (Z.lxor h (Z.shiftr h 16)) data
  | [] => h
  | d0 :: tail =>
      let h := match tail with [_; d2] => u32 (h + Z.shiftl d2 16) | _ => h end in
      let h := match tail with d1 :: _ => u32 (h + Z.shiftl d1 8) | _ => h end in
      let h := u32 (h + d0) in
      let h := u32 (h * Hash_m) in
      Z.lxor h (Z.shiftr h Hash_r)
  end.

Definition Hash (data : Slice) (seed : Z) : Z :=
  Hash_loop (Z.lxor seed (u32 (|[data]| * Hash_m))) data.

(** ** [xxhash32] *)
Definition PRIME32_1 : Z := 2654435761.
Definition PRIME32_2 : Z := 2246822519.
Definition PRIME32_3 : Z := 3266489917.
Definition PRIME32_4 : Z := 668265263.
Definition PRIME32_5 : Z := 374761393.

Definition XXH32_round (seed input : Z) : Z :=
  let seed := u32 (seed + input * PRIME32_2) in
  let seed := rotl 32 seed 13 in
  u32 (seed * PRIME32_1).

Definition XXH32_avalanche (h32 : Z) : Z :=
  let h32 := Z.lxor h32 (Z.shiftr h32 15) in
  let h32 := u32 (h32 * PRIME32_2) in
  let h32 := Z.lxor h32 (Z.shiftr h32 13) in
  let h32 := u32 (h32 * PRIME32_3) in
  Z.lxor h32 (Z.shiftr h32 16).

(** The [switch] on [len & 15] runs [PROCESS4] on each remaining group of four bytes,
    then [PROCESS1] on each remaining byte. *)
Fixpoint XXH32_finalize (h32 : Z) (p : Slice) : Z :=
  match p with
  | b0 :: b1 :: b2 :: b3 :: p =>
      let h32 := u32 (h32 + le32 b0 b1 b2 b3 * PRIME32_3) in
      XXH32_finalize (u32 (rotl 32 h32 17 * PRIME32_4)) p
  | b :: p =>
      let h32 := u32 (h32 + b * PRIME32_5) in
      XXH32_finalize (u32 (rotl 32 h32 11 * PRIME32_1)) p
  | [] => XXH32_avalanche h32
  end.

(** The loop over 16-byte stripes: the accumulators and the bytes left. *)
Fixpoint XXH32_stripes (v1 v2 v3 v4 : Z) (p : Slice) : (Z * Z * Z * Z) * Slice :=
  match p with
  | a0 :: a1 :: a2 :: a3 :: b0 :: b1 :: b2 :: b3 ::
    c0 :: c1 :: c2 :: c3 :: d0 :: d1 :: d2 :: d3 :: p =>
      XXH32_stripes (XXH32_round v1 (le32 a0 a1 a2 a3)) (XXH32_round v2 (le32 b0 b1 b2 b3))
        (XXH32_round v3 (le32 c0 c1 c2 c3)) (XXH32_round v4 (le32 d0 d1 d2 d3)) p
  | _ => ((v1, v2, v3, v4), p)
  end.

Definition XXH32_endian_align (input : Slice) (seed : Z) : Z :=
  let '(h32, p) :=
    if 16 <=? |[input]| then
      let '((v1, v2, v3, v4), p) :=
        XXH32_stripes (u32 (seed + PRIME32_1 + PRIME32_2)) (u32 (seed + PRIME32_2))
          (u32 seed) (u32 (seed - PRIME32_1)) input in
      (u32 (rotl 32 v1 1 + rotl 32 v2 7 + rotl 32 v3 12 + rotl 32 v4 18), p)
    else (u32 (seed + PRIME32_5), input) in
  XXH32_finalize (u32 (h32 + u32 (|[input]|))) p.

Definition xxhash32 (data : Slice) (seed : Z) : Z := XXH32_endian_align data seed.

(** ** [xxhash64] *)
Definition PRIME64_1 : Z := 11400714785074694791.
Definition PRIME64_2 : Z := 14029467366897019727.
Definition PRIME64_3 : Z := 1609587929392839161.
Definition PRIME64_4 : Z := 9650029242287828579.
Definition PRIME64_5 : Z := 2870177450012600261.

Definition XXH64_round (acc input : Z) : Z :=
  let acc := u64 (acc + input * PRIME64_2) in
  let acc := rotl 64 acc 31 in
  u64 (acc * PRIME64_1).

Definition XXH64_mergeRound (acc val : Z) : Z :=
  let val := XXH64_round 0 val in
  let acc := Z.lxor acc val in
  u64 (acc * PRIME64_1 + PRIME64_4).

Definition XXH64_avalanche (h64 : Z) : Z :=
  let h64 := Z.lxor h64 (Z.shiftr h64 33) in
  let h64 := u64 (h64 * PRIME64_2) in
  let h64 := Z.lxor h64 (Z.shiftr h64 29) in
  let h64 := u64 (h64 * PRIME64_3) in
  Z.lxor h64 (Z.shiftr h64 32).

(** The [switch] on [len & 31]: [PROCESS8_64], [PROCESS4_64], then [PROCESS1_64]. *)
Fixpoint XXH64_finalize (h64 : Z) (p : Slice) : Z :=
  match p with
  | b0 :: b1 :: b2 :: b3 :: b4 :: b5 :: b6 :: b7 :: p =>
      let k1 := XXH64_round 0 (le64 b0 b1 b2 b3 b4 b5 b6 b7) in
      let h64 := Z.lxor h64 k1 in
      XXH64_finalize (u64 (rotl 64 h64 27 * PRIME64_1 + PRIME64_4)) p
  | b0 :: b1 :: b2 :: b3 :: p =>
      let h64 := Z.lxor h64 (u64 (le32 b0 b1 b2 b3 * PRIME64_1)) in
      XXH64_finalize (u64 (rotl 64 h64 23 * PRIME64_2 + PRIME64_3)) p
  | b :: p =>
      let h64 := Z.lxor h64 (u64 (b * PRIME64_5)) in
      XXH64_finalize (u64 (rotl 64 h64 11 * PRIME64_1)) p
  | [] => XXH64_avalanche h64
  end.

Fixpoint XXH64_stripes (v1 v2 v3 v4 : Z) (p : Slice) : (Z * Z * Z * Z) * Slice :=
  match p with
  | a0 :: a1 :: a2 :: a3 :: a4 :: a5 :: a6 :: a7 ::
    b0 :: b1 :: b2 :: b3 :: b4 :: b5 :: b6 :: b7 ::
    c0 :: c1 :: c2 :: c3 :: c4 :: c5 :: c6 :: c7 ::
    d0 :: d1 :: d2 :: d3 :: d4 :: d5 :: d6 :: d7 :: p =>
      XXH64_stripes (XXH64_round v1 (le64 a0 a1 a2 a3 a4 a5 a6 a7))
        (XXH64_round v2 (le64 b0 b1 b2 b3 b4 b5 b6 b7))
        (XXH64_round v3 (le64 c0 c1 c2 c3 c4 c5 c6 c7))
        (XXH64_round v4 (le64 d0 d1 d2 d3 d4 d5 d6 d7)) p
  | _ => ((v1, v2, v3, v4), p)
  end.

Definition XXH64_endian_align (input : Slice) (seed : Z) : Z :=
  let '(h64, p) :=
    if 32 <=? |[input]| then
      let '((v1, v2, v3, v4), p) :=
        XXH64_stripes (u64 (seed + PRIME64_1 + PRIME64_2)) (u64 (seed + PRIME64_2))
          (u64 seed) (u64 (seed - PRIME64_1)) input in
      let h64 := u64 (rotl 64 v1 1 + rotl 64 v2 7 + rotl 64 v3 12 + rotl 64 v4 18) in
      let h64 := XXH64_mergeRound h64 v1 in
      let h64 := XXH64_mergeRound h64 v2 in
      let h64 := XXH64_mergeRound h64 v3 in
      (XXH64_mergeRound h64 v4, p)
    else (u64 (seed + PRIME64_5), input) in
  XXH64_finalize (u64 (h64 + |[input]|)) p.

Definition xxhash64 (data : Slice) (seed : Z) : Z := XXH64_endian_align data seed.

(** ** Published test vectors, and the ranges of the results *)
Example xxhash32_empty : xxhash32 [] 0 = 0x02CC5D05.
Proof. vm_compute. reflexivity. Qed.
Example xxhash64_empty : xxhash64 [] 0 = 0xEF46DB3751D8E999.
Proof. vm_compute. reflexivity. Qed.
Example xxhash64_abc : xxhash64 (lit "abc") 0 = 0x44BC2CF5AD770999.
Proof. vm_compute. reflexivity. Qed.
Example xxhash32_abc : xxhash32 (lit "abc") 0 = 0x32D153FF.
Proof. vm_compute. reflexivity. Qed.

Lemma word_lxor w a b : 0 <= w -> word w a -> word w b -> word w (Z.lxor a b).
Proof.
  intros Hw Ha Hb. assert (Z.lxor a b = wrap w (Z.lxor a b)) as ->; [| by apply wrap_word].
  apply Z.bits_inj'. intros i Hi. rewrite wrap_testbit by lia.
  destruct (Z.ltb_spec i w); [done |].
  by rewrite Z.lxor_spec, !(word_testbit w) by done.
Qed.

Lemma word_xorshift w h n : 0 <= n <= w -> word w h -> word w (Z.lxor h (Z.shiftr h n)).
Proof.
  intros. apply word_lxor; [lia | done |].
  eapply word_mono; [apply word_shiftr; [done | lia] | lia].
Qed.

(** A hash is a 32-bit word: [hash & (kWays - 1)] picks one of the ways. *)
Lemma Hash_loop_word n data h :
  (length data <= n)%nat -> word 32 h -> word 32 (Hash_loop h data).
Proof.
  revert data h. induction n as [| n IH]; intros data h Hn Hh.
  { destruct data; [done | cbn in Hn; lia]. }
  destruct data as [| d0 [| d1 [| d2 [| d3 data]]]]; cbn [Hash_loop]; [done | ..].
  1-3: apply word_xorshift; [unfold Hash_r; lia | by apply wrap_word].
  apply IH; [cbn in Hn; lia |]. apply word_xorshift; [lia | by apply wrap_word].
Qed.

Lemma Hash_word data seed : word 32 seed -> word 32 (Hash data seed).
Proof.
  intros. apply (Hash_loop_word (length data)); [lia |].
  apply word_lxor; [lia | done |]. by apply wrap_word.
Qed.

Lemma XXH32_finalize_word n p h :
  (length p <= n)%nat -> word 32 (XXH32_finalize h p).
Proof.
  revert p h. induction n as [| n IH]; intros p h Hn.
  { destruct p; [| cbn in Hn; lia]. apply word_xorshift; [lia |]. by apply wrap_word. }
  destruct p as [| d0 [| d1 [| d2 [| d3 p]]]]; cbn [XXH32_finalize];
    try (apply word_xorshift; [lia |]; by apply wrap_word).
  apply IH. cbn in Hn. lia.
Qed.

Lemma xxhash32_word data seed : word 32 (xxhash32 data seed).
Proof.
  unfold xxhash32, XXH32_endian_align. destruct (if _ <=? _ then _ else _) as [h p].
  by eapply XXH32_finalize_word.
Qed.
