(* ===== verification/FsTypes.v ===== *)
(** * Inode structures ([pdlfs-common/fstypes.h], [fstypes.cc], [fsapi.h])

    [Stat] and [LookupStat] in the [DELTAFS_PROTO] configuration, with the varint
    encodings under which they are stored as database values.  The debug-only
    [is_*_set_] flags are left out. *)
From S2P Require Import Prelude Coding.
Record Stat := MkStat {
  DnodeNo : Z;
  InodeNo : Z;
  FileSize : Z;
  ModifyTime : Z;
  ChangeTime : Z;
  FileMode : Z;
  ZerothServer : Z;
  UserId : Z;
  GroupId : Z
}.

Record LookupStat := MkLookupStat {
  DirDnodeNo : Z;
  DirInodeNo : Z;
  LeaseDue : Z;
  DirMode : Z;
  DirZerothServer : Z;
  DirUserId : Z;
  DirGroupId : Z
}.

(** User id information. *)
Record User := MkUser { uid : Z; gid : Z }.

#[global] Instance Stat_eq_dec : EqDecision Stat.
Proof. solve_decision. Defined.
#[global] Instance LookupStat_eq_dec : EqDecision LookupStat.
Proof. solve_decision. Defined.
#[global] Instance User_eq_dec : EqDecision User.
Proof. solve_decision. Defined.

(** The setter used by the batched creations, [Stat::SetInodeNo]. *)
Definition SetInodeNo (ino : Z) (s : Stat) : Stat :=
  MkStat (DnodeNo s) ino (FileSize s) (ModifyTime s) (ChangeTime s) (FileMode s)
    (ZerothServer s) (UserId s) (GroupId s).

(** [LookupStat::SetLeaseDue] and [LookupStat::CopyFrom], which leaves the lease. *)
Definition SetLeaseDue (due : Z) (l : LookupStat) : LookupStat :=
  MkLookupStat (DirDnodeNo l) (DirInodeNo l) due (DirMode l) (DirZerothServer l)
    (DirUserId l) (DirGroupId l).
Definition CopyFrom (stat : Stat) (l : LookupStat) : LookupStat :=
  MkLookupStat (DnodeNo stat) (InodeNo stat) (LeaseDue l) (FileMode stat)
    (ZerothServer stat) (UserId stat) (GroupId stat).

Definition Stat_kMaxEncodedLength : Z := 80.
Definition LookupStat_kMaxEncodedLength : Z := 60.

(** [Stat::EncodeTo]. *)
Definition Stat_EncodeTo (s : Stat) : Slice :=
  EncodeVarint64 (DnodeNo s) ++ EncodeVarint64 (InodeNo s) ++
  EncodeVarint64 (FileSize s) ++ EncodeVarint32 (FileMode s) ++
  EncodeVarint32 (ZerothServer s) ++ EncodeVarint32 (UserId s) ++
  EncodeVarint32 (GroupId s) ++ EncodeVarint64 (ModifyTime s) ++
  EncodeVarint64 (ChangeTime s).

(** [Stat::DecodeFrom]: the decoded structure and the rest of the input. *)
Definition Stat_DecodeFrom (input : Slice) : option (Stat * Slice) :=
  '(dno, input) ← GetVarint64 input;
  '(ino, input) ← GetVarint64 input;
  '(size, input) ← GetVarint64 input;
  '(mode, input) ← GetVarint32 input;
  '(zeroth_server, input) ← GetVarint32 input;
  '(uid, input) ← GetVarint32 input;
  '(gid, input) ← GetVarint32 input;
  '(mtime, input) ← GetVarint64 input;
  '(ctime, input) ← GetVarint64 input;
  Some (MkStat dno ino size mtime ctime mode zeroth_server uid gid, input).

(** [LookupStat::EncodeTo] and [LookupStat::DecodeFrom]. *)
Definition LookupStat_EncodeTo (l : LookupStat) : Slice :=
  EncodeVarint64 (DirDnodeNo l) ++ EncodeVarint64 (DirInodeNo l) ++
  EncodeVarint32 (DirZerothServer l) ++ EncodeVarint32 (DirMode l) ++
  EncodeVarint32 (DirUserId l) ++ EncodeVarint32 (DirGroupId l) ++
  EncodeVarint64 (LeaseDue l).

Definition LookupStat_DecodeFrom (input : Slice) : option (LookupStat * Slice) :=
  '(dno, input) ← GetVarint64 input;
  '(ino, input) ← GetVarint64 input;
  '(zeroth_server, input) ← GetVarint32 input;
  '(mode, input) ← GetVarint32 input;
  '(uid, input) ← GetVarint32 input;
  '(gid, input) ← GetVarint32 input;
  '(lease_due, input) ← GetVarint64 input;
  Some (MkLookupStat dno ino lease_due mode zeroth_server uid gid, input).

(** Field ranges given by the C++ types. *)
Definition Stat_wf (s : Stat) : Prop :=
  word 64 (DnodeNo s) /\ word 64 (InodeNo s) /\ word 64 (FileSize s) /\
  word 64 (ModifyTime s) /\ word 64 (ChangeTime s) /\ word 32 (FileMode s) /\
  word 32 (ZerothServer s) /\ word 32 (UserId s) /\ word 32 (GroupId s).
Definition LookupStat_wf (l : LookupStat) : Prop :=
  word 64 (DirDnodeNo l) /\ word 64 (DirInodeNo l) /\ word 64 (LeaseDue l) /\
  word 32 (DirMode l) /\ word 32 (DirZerothServer l) /\ word 32 (DirUserId l) /\
  word 32 (DirGroupId l).
Definition User_wf (u : User) : Prop := word 32 (uid u) /\ word 32 (gid u).

#[global] Instance Stat_wf_dec s : Decision (Stat_wf s).
Proof. unfold Stat_wf. apply _. Defined.
#[global] Instance LookupStat_wf_dec l : Decision (LookupStat_wf l).
Proof. unfold LookupStat_wf. apply _. Defined.
#[global] Instance User_wf_dec u : Decision (User_wf u).
Proof. unfold User_wf. apply _. Defined.

(** File type bits of a mode ([sys/stat.h]). *)
Definition S_IFMT : Z := 0xf000.
Definition S_IFDIR : Z := 0x4000.
Definition S_IFREG : Z := 0x8000.
Definition ACCESSPERMS : Z := 0x1ff.
Definition S_ISDIR (mode : Z) : bool := Z.land mode S_IFMT =? S_IFDIR.

(** ** Round trips and sizes *)

(** Decode one encoded field after another. *)
Ltac decode_fields :=
  repeat (rewrite <- app_assoc);
  repeat (first [rewrite GetVarint64_encode by done | rewrite GetVarint32_encode by done];
          cbn [mbind option_bind]).

Lemma Stat_DecodeFrom_EncodeTo s rest :
  Stat_wf s -> Stat_DecodeFrom (Stat_EncodeTo s ++ rest) = Some (s, rest).
Proof.
  intros (?&?&?&?&?&?&?&?&?). unfold Stat_DecodeFrom, Stat_EncodeTo.
  decode_fields. by destruct s.
Qed.

Lemma LookupStat_DecodeFrom_EncodeTo l rest :
  LookupStat_wf l -> LookupStat_DecodeFrom (LookupStat_EncodeTo l ++ rest) = Some (l, rest).
Proof.
  intros (?&?&?&?&?&?&?). unfold LookupStat_DecodeFrom, LookupStat_EncodeTo.
  decode_fields. by destruct l.
Qed.

Lemma size_EncodeVarint64 v : 1 <= |[EncodeVarint64 v]| <= 10.
Proof. pose proof (length_EncodeVarint64 v). unfold slice_size. lia. Qed.
Lemma size_EncodeVarint32 v : 1 <= |[EncodeVarint32 v]| <= 5.
Proof. pose proof (length_EncodeVarint32 v). unfold slice_size. lia. Qed.

(** Bound the size of a concatenation of varints. *)
Ltac varint_sizes :=
  rewrite ?slice_size_app;
  repeat match goal with
  | |- context [ |[EncodeVarint64 ?v]| ] =>
      let H := fresh in pose proof (size_EncodeVarint64 v) as H; revert H;
      generalize (|[EncodeVarint64 v]|); intros ? ?
  | |- context [ |[EncodeVarint32 ?v]| ] =>
      let H := fresh in pose proof (size_EncodeVarint32 v) as H; revert H;
      generalize (|[EncodeVarint32 v]|); intros ? ?
  end.

Lemma size_Stat_EncodeTo s : 9 <= |[Stat_EncodeTo s]| <= 70.
Proof. unfold Stat_EncodeTo. varint_sizes. lia. Qed.
Lemma size_LookupStat_EncodeTo l : 7 <= |[LookupStat_EncodeTo l]| <= 50.
Proof. unfold LookupStat_EncodeTo. varint_sizes. lia. Qed.

Lemma S_ISDIR_dir mode : S_ISDIR (Z.lor S_IFDIR (Z.land mode ACCESSPERMS)) = true.
Proof.
  unfold S_ISDIR. apply Z.eqb_eq. rewrite Z.land_lor_distr_l, <- Z.land_assoc.
  change (Z.land ACCESSPERMS S_IFMT) with 0. by rewrite Z.land_0_r, Z.lor_0_r.
Qed.
Lemma S_ISDIR_reg mode : S_ISDIR (Z.lor S_IFREG (Z.land mode ACCESSPERMS)) = false.
Proof.
  unfold S_ISDIR. rewrite Z.land_lor_distr_l, <- Z.land_assoc.
  change (Z.land ACCESSPERMS S_IFMT) with 0. by rewrite Z.land_0_r, Z.lor_0_r.
Qed.

Lemma mode_word t mode : word 32 t -> word 32 (Z.lor t (Z.land mode ACCESSPERMS)).
Proof.
  intros Ht. assert (word 32 (Z.land mode ACCESSPERMS)) as Hm.
  { change ACCESSPERMS with (Z.ones 9). rewrite <- wrap_land by lia.
    eapply word_mono; [by apply wrap_word | lia]. }
  assert (Z.lor t (Z.land mode ACCESSPERMS) = wrap 32 (Z.lor t (Z.land mode ACCESSPERMS)))
    as ->; [| by apply wrap_word].
  apply Z.bits_inj'. intros i Hi. rewrite wrap_testbit by lia.
  destruct (Z.ltb_spec i 32); [done |]. by rewrite Z.lor_spec, !(word_testbit 32) by done.
Qed.

(** Inode structures round-trip through their encodings and fit their buffers: [DecodeFrom] reads back
    every field of a [Stat] or [LookupStat] that [EncodeTo] wrote and leaves what follows, and the
    encodings never exceed [kMaxEncodedLength]. *)
Theorem inode_encodings s l rest :
  Stat_wf s -> LookupStat_wf l ->
  Stat_DecodeFrom (Stat_EncodeTo s ++ rest) = Some (s, rest) /\
  LookupStat_DecodeFrom (LookupStat_EncodeTo l ++ rest) = Some (l, rest) /\
  |[Stat_EncodeTo s]| <= Stat_kMaxEncodedLength /\ |[LookupStat_EncodeTo l]| <= LookupStat_kMaxEncodedLength.
Proof.
  intros Hs Hl. pose proof (size_Stat_EncodeTo s). pose proof (size_LookupStat_EncodeTo l).
  unfold Stat_kMaxEncodedLength, LookupStat_kMaxEncodedLength.
  split_and!; [by apply Stat_DecodeFrom_EncodeTo | by apply LookupStat_DecodeFrom_EncodeTo | lia | lia].
Qed.

Lemma inode_encodings_witness :
  let s := MkStat 1 2 3 4 5 6 7 8 9 in let l := MkLookupStat 1 2 (2 ^ 64 - 1) 4 5 6 7 in
  Stat_DecodeFrom (Stat_EncodeTo s ++ [1]) = Some (s, [1]) /\
  LookupStat_DecodeFrom (LookupStat_EncodeTo l ++ [1]) = Some (l, [1]).
Proof.
  intros s l. destruct (inode_encodings s l [1]) as (H1 & H2 & _); [by_compute | by_compute |]. exact (conj H1 H2).
Defined.
