(* ===== verification/Keys.v ===== *)
(** * Database keys and directory ids ([pdlfs-common/fsdbbase.h], [fsdbbase.cc])

    In the [DELTAFS_PROTO] configuration a key is 16 bytes of prefix (the 64-bit
    directory dno, the low 56 bits of its inode number and the key type, both
    big-endian) followed by the entry name. *)
From S2P Require Import Prelude Coding FsTypes.
Inductive KeyType :=
  | kDirEntType | kDirIdxType | kDirMetaType | kSuperBlockType
  | kDataDesType | kDataBlockType | kInoType.

Definition KeyType_num (t : KeyType) : Z :=
  match t with
  | kDirEntType => 1 | kDirIdxType => 2 | kDirMetaType => 3 | kSuperBlockType => 4
  | kDataDesType => 5 | kDataBlockType => 6 | kInoType => 7
  end.

Record DirId := MkDirId { dno : Z; ino : Z }.
#[global] Instance DirId_eq_dec : EqDecision DirId.
Proof. solve_decision. Defined.
#[global] Instance DirId_countable : Countable DirId.
Proof.
  apply (inj_countable' (λ d, (dno d, ino d)) (λ p, MkDirId p.1 p.2)). by intros [].
Defined.

Definition DirId_wf (d : DirId) : Prop := word 64 (dno d) /\ word 64 (ino d).

(** The [DirId] constructors from [LookupStat] and [Stat]. *)
Definition DirId_of_LookupStat (stat : LookupStat) : DirId :=
  MkDirId (DirDnodeNo stat) (DirInodeNo stat).
Definition DirId_of_Stat (stat : Stat) : DirId := MkDirId (DnodeNo stat) (InodeNo stat).

Definition compare64 (a b : Z) : Z := if a <? b then -1 else if a >? b then 1 else 0.

(** [DirId::compare] and [operator==]. *)
Definition DirId_compare (x y : DirId) : Z :=
  let r := compare64 (dno x) (dno y) in
  if r =? 0 then compare64 (ino x) (ino y) else r.
Definition DirId_eqb (x y : DirId) : bool :=
  if negb (dno x =? dno y) then false else ino x =? ino y.

(** A 64-bit integer in big-endian order, [htobe64] followed by [memcpy]. *)
Definition be64 (v : Z) : Slice := rev (EncodeFixed64 v).
(** [memcpy] from a buffer followed by [be64toh]. *)
Definition be64toh (p : Slice) : option Z :=
  if decide (8 <= length p)%nat then DecodeFixed64 (rev (take 8 p)) else None.

Definition FS_KEY_PREFIX_LENGTH : nat := 16.

(** [PackPrefix]. *)
Definition PackPrefix (dno ino : Z) (t : KeyType) : Slice :=
  let tmp1 := be64 dno in
  let tmp2 := Z.lor (u64 (Z.shiftl ino 8)) (Z.land (KeyType_num t) 0xff) in
  tmp1 ++ be64 tmp2.

(** The constructors of [Key] from ids, [Key::Key(dno, ino, type)] and [Key::Key(ino, type)],
    and from the two kinds of stats. *)
Definition Key (dno ino : Z) (type : KeyType) : Slice := PackPrefix dno ino type.
Definition Key_of_ino (ino : Z) (type : KeyType) : Slice := PackPrefix 0 ino type.
Definition Key_of_LookupStat (stat : LookupStat) (type : KeyType) : Slice :=
  PackPrefix (DirDnodeNo stat) (DirInodeNo stat) type.
Definition Key_of_Stat (stat : Stat) (type : KeyType) : Slice :=
  PackPrefix (DnodeNo stat) (InodeNo stat) type.

(** [Key::SetName], [Key::SetSuffix], [Key::SetOffset] and [Key::SetType]. *)
Definition SetName (name rep : Slice) : Slice := take FS_KEY_PREFIX_LENGTH rep ++ name.
Definition SetSuffix (suff rep : Slice) : Slice := SetName suff rep.
Definition SetOffset (off : Z) (rep : Slice) : Slice :=
  take FS_KEY_PREFIX_LENGTH rep ++ be64 off.
Definition SetType (t : KeyType) (rep : Slice) : Slice :=
  <[(FS_KEY_PREFIX_LENGTH - 1)%nat := KeyType_num t]> rep.

(** The readers [prefix], [suffix], [dnode], [inode], [type] and [offset]. *)
Definition Key_prefix (rep : Slice) : Slice := take FS_KEY_PREFIX_LENGTH rep.
Definition Key_suffix (rep : Slice) : Slice := drop FS_KEY_PREFIX_LENGTH rep.
Definition Key_dnode (rep : Slice) : option Z := be64toh rep.
Definition Key_inode (rep : Slice) : option Z :=
  composite ← be64toh (drop (FS_KEY_PREFIX_LENGTH - 8) rep); Some (Z.shiftr composite 8).
Definition Key_type (rep : Slice) : option Z := rep !! (FS_KEY_PREFIX_LENGTH - 1)%nat.
Definition Key_offset (rep : Slice) : option Z := be64toh (Key_suffix rep).

(** Lexicographic comparison of byte strings, [Slice::compare] ([memcmp], then sizes). *)
Fixpoint Slice_compare (a b : Slice) : comparison :=
  match a, b with
  | [], [] => Eq
  | [], _ :: _ => Lt
  | _ :: _, [] => Gt
  | x :: a, y :: b => match Z.compare x y with Eq => Slice_compare a b | c => c end
  end.

(** [Slice::starts_with]. *)
Definition starts_with (s x : Slice) : bool := bool_decide (take (length x) s = x).

(** ** Big-endian encodings *)
Fixpoint be_val (l : Slice) : Z :=
  match l with [] => 0 | b :: l => b * 256 ^ Z.of_nat (length l) + be_val l end.

Lemma be_val_bound l : bytes l -> 0 <= be_val l < 256 ^ Z.of_nat (length l).
Proof.
  induction 1 as [| b l Hb Hl IH]; cbn [be_val length]; [cbn; lia |].
  rewrite Nat2Z.inj_succ, Z.pow_succ_r by lia. destruct Hb as [? Hb].
  change (2 ^ 8) with 256 in Hb. nia.
Qed.

Lemma be_val_app l k : be_val (l ++ k) = be_val l * 256 ^ Z.of_nat (length k) + be_val k.
Proof.
  induction l as [| b l IH]; cbn [be_val app]; [lia |].
  rewrite IH, length_app, Nat2Z.inj_add, Z.pow_add_r by lia. ring.
Qed.

(** On strings of one size, [memcmp] is the comparison of big-endian values. *)
Lemma Slice_compare_be l k :
  bytes l -> bytes k -> length l = length k ->
  Slice_compare l k = Z.compare (be_val l) (be_val k).
Proof.
  intros Hl. revert k. induction Hl as [| b l Hb Hl IH]; intros k Hk E.
  { by destruct k. }
  destruct k as [| c k]; [done |]. injection E as E. inversion Hk as [| ?? Hc Hk']; subst.
  cbn [Slice_compare be_val]. rewrite <- E.
  pose proof (be_val_bound l Hl). pose proof (be_val_bound k Hk') as Hkb. rewrite <- E in Hkb.
  destruct (Z.compare_spec b c) as [-> | Hlt | Hgt].
  - rewrite IH by done. symmetry. apply Z.add_compare_mono_l.
  - symmetry. apply Z.compare_lt_iff. nia.
  - symmetry. apply Z.compare_gt_iff. nia.
Qed.

Lemma Slice_compare_app a b s t :
  length a = length b ->
  Slice_compare (a ++ s) (b ++ t)
  = match Slice_compare a b with Eq => Slice_compare s t | c => c end.
Proof.
  revert b. induction a as [| x a IH]; intros [| y b]; try done.
  intros [= E]. cbn. destruct (x ?= y); [by apply IH | done | done].
Qed.

Lemma Slice_compare_refl a : Slice_compare a a = Eq.
Proof. induction a as [| x a IH]; cbn; [done |]. by rewrite Z.compare_refl. Qed.

Lemma Slice_compare_eq a b : Slice_compare a b = Eq -> a = b.
Proof.
  revert b. induction a as [| x a IH]; intros [| y b]; cbn; try done.
  destruct (Z.compare_spec x y) as [-> | |]; try done. intros H. f_equal. by apply IH.
Qed.

(** *** The order of byte strings *)
Definition Slice_le (a b : Slice) : Prop := Slice_compare a b <> Gt.
#[global] Instance Slice_le_dec a b : Decision (Slice_le a b).
Proof. unfold Slice_le. destruct (Slice_compare a b); [left | left | right]; congruence. Defined.

Lemma Slice_compare_antisym a b : Slice_compare b a = CompOpp (Slice_compare a b).
Proof.
  revert b. induction a as [| x a IH]; intros [| y b]; cbn; try done.
  rewrite (Z.compare_antisym x y). destruct (x ?= y); cbn; [apply IH | done | done].
Qed.

Lemma Slice_compare_trans a b c :
  Slice_compare a b <> Gt -> Slice_compare b c <> Gt -> Slice_compare a c <> Gt.
Proof.
  revert b c. induction a as [| x a IH]; intros [| y b] [| z c]; cbn; try done.
  destruct (Z.compare_spec x y), (Z.compare_spec y z), (Z.compare_spec x z); subst;
    try lia; try done. apply IH.
Qed.

#[global] Instance Slice_le_preorder : PreOrder Slice_le.
Proof.
  split.
  - intros a. unfold Slice_le. by rewrite Slice_compare_refl.
  - intros a b c. apply Slice_compare_trans.
Qed.
#[global] Instance Slice_le_total : Total Slice_le.
Proof.
  intros a b. unfold Slice_le. rewrite (Slice_compare_antisym a b).
  destruct (Slice_compare a b); cbn; [left | left | right]; congruence.
Qed.

Lemma bytes_be64 v : bytes (be64 v).
Proof. unfold be64, bytes. apply Forall_rev. repeat constructor; apply byte_word. Qed.

Lemma length_be64 v : length (be64 v) = 8%nat.
Proof. done. Qed.

Lemma be64toh_be64 v rest : be64toh (be64 v ++ rest) = Some (u64 v).
Proof.
  unfold be64toh. rewrite decide_True by (rewrite length_app, length_be64; lia).
  replace (take 8 (be64 v ++ rest)) with (be64 v) by done.
  unfold be64. rewrite rev_involutive.
  rewrite <- (app_nil_r (EncodeFixed64 v)). apply DecodeFixed64_wrap.
Qed.

Lemma be_val_be64 v : word 64 v -> be_val (be64 v) = v.
Proof.
  intros [? Hv]. unfold be64, EncodeFixed64. rewrite !wrap_8_land. unfold wrap.
  rewrite !Z.shiftr_div_pow2 by lia. cbn [rev app be_val length Z.of_nat].
  rewrite <- (Z.mod_small v (2 ^ 64)) at 9 by done.
  pose proof (Z.div_mod v (2 ^ 8)). pose proof (Z.div_mod (v / 2 ^ 8) (2 ^ 8)).
  Z.to_euclidean_division_equations. cbn in *. lia.
Qed.

Lemma Slice_compare_be64 a b :
  word 64 a -> word 64 b -> Slice_compare (be64 a) (be64 b) = Z.compare a b.
Proof.
  intros. rewrite Slice_compare_be by (try apply bytes_be64; done).
  by rewrite !be_val_be64.
Qed.

(** ** Keys *)
Lemma KeyType_num_range t : 0 < KeyType_num t < 256.
Proof. destruct t; cbn; lia. Qed.

Lemma KeyType_num_inj t t' : KeyType_num t = KeyType_num t' -> t = t'.
Proof. destruct t, t'; done. Qed.

(** The composite inode-and-type word, arithmetically. *)
Lemma composite_eq i t :
  Z.lor (u64 (Z.shiftl i 8)) (Z.land (KeyType_num t) 0xff)
  = wrap 56 i * 2 ^ 8 + KeyType_num t.
Proof.
  pose proof (KeyType_num_range t). assert (word 8 (KeyType_num t)) by (split; cbn; lia).
  change 0xff with (Z.ones 8). rewrite <- wrap_land, (wrap_small 8) by (lia || done).
  unfold u64. rewrite wrap_shiftl by lia. by apply lor_shiftl_add.
Qed.

Lemma composite_word i t : word 64 (wrap 56 i * 2 ^ 8 + KeyType_num t).
Proof.
  pose proof (KeyType_num_range t). destruct (wrap_word 56 i) as [? Hi]; [lia |].
  unfold word. change (2 ^ 64) with (2 ^ 56 * 2 ^ 8). change (2 ^ 8) with 256 in *. lia.
Qed.

Lemma length_PackPrefix d i t : length (PackPrefix d i t) = FS_KEY_PREFIX_LENGTH.
Proof. done. Qed.

Lemma SetSuffix_Key n d i t : SetSuffix n (Key d i t) = PackPrefix d i t ++ n.
Proof. done. Qed.

(** The readers recover what a key was built from; an inode number keeps its low 56 bits. *)
Lemma Key_dnode_spec n d i t : Key_dnode (SetSuffix n (Key d i t)) = Some (u64 d).
Proof.
  rewrite SetSuffix_Key. unfold PackPrefix, Key_dnode. rewrite <- app_assoc. apply be64toh_be64.
Qed.

Lemma Key_inode_spec n d i t : Key_inode (SetSuffix n (Key d i t)) = Some (wrap 56 i).
Proof.
  unfold Key_inode. replace (drop (FS_KEY_PREFIX_LENGTH - 8) (SetSuffix n (Key d i t)))
    with (be64 (Z.lor (u64 (Z.shiftl i 8)) (Z.land (KeyType_num t) 0xff)) ++ n) by done.
  rewrite be64toh_be64. cbn [mbind option_bind]. f_equal.
  rewrite composite_eq. unfold u64. rewrite wrap_small by apply composite_word.
  pose proof (KeyType_num_range t).
  rewrite Z.shiftr_div_pow2 by lia. change (2 ^ 8) with 256.
  rewrite Z.div_add_l, (Z.div_small (KeyType_num t)) by lia. lia.
Qed.

Lemma Key_type_spec n d i t :
  Key_type (SetSuffix n (Key d i t)) = Some (KeyType_num t).
Proof.
  unfold Key_type. rewrite SetSuffix_Key, lookup_app_l by (rewrite length_PackPrefix; unfold FS_KEY_PREFIX_LENGTH; lia).
  unfold PackPrefix. rewrite lookup_app_r by (rewrite length_be64; unfold FS_KEY_PREFIX_LENGTH; lia).
  rewrite composite_eq. cbn. f_equal. rewrite wrap_8_land.
  pose proof (KeyType_num_range t). unfold wrap. change (2 ^ 8) with 256.
  rewrite Z.add_comm, Z.mod_add by lia. apply Z.mod_small. lia.
Qed.

(** Keys are ordered by directory, type and name: the entries of a directory are
    contiguous in the database and sorted by name. *)
Lemma Key_compare d i t n d' i' t' n' :
  word 64 d -> word 64 d' ->
  Slice_compare (SetSuffix n (Key d i t)) (SetSuffix n' (Key d' i' t'))
  = match d ?= d' with
    | Eq => match wrap 56 i ?= wrap 56 i' with
            | Eq => match KeyType_num t ?= KeyType_num t' with
                    | Eq => Slice_compare n n' | c => c end
            | c => c end
    | c => c end.
Proof.
  intros. rewrite !SetSuffix_Key. unfold PackPrefix.
  rewrite <- !app_assoc, Slice_compare_app, Slice_compare_be64 by done.
  destruct (d ?= d'); [| done | done].
  rewrite Slice_compare_app, !composite_eq, Slice_compare_be64
    by (try apply composite_word; done).
  pose proof (KeyType_num_range t). pose proof (KeyType_num_range t').
  change (2 ^ 8) with 256.
  destruct (Z.compare_spec (wrap 56 i) (wrap 56 i')) as [-> | Hlt | Hgt].
  - by rewrite Z.add_compare_mono_l.
  - by rewrite (proj2 (Z.compare_lt_iff _ _)) by lia.
  - by rewrite (proj2 (Z.compare_gt_iff _ _)) by lia.
Qed.

(** Two keys of one directory prefix are equal when their names are. *)
Lemma Key_inj d i t n d' i' t' n' :
  word 64 d -> word 64 d' -> word 56 i -> word 56 i' ->
  SetSuffix n (Key d i t) = SetSuffix n' (Key d' i' t') ->
  d = d' /\ i = i' /\ t = t' /\ n = n'.
Proof.
  intros Hd Hd' Hi Hi' E.
  assert (Slice_compare (SetSuffix n (Key d i t)) (SetSuffix n' (Key d' i' t')) = Eq) as C
    by (rewrite E; apply Slice_compare_refl).
  rewrite Key_compare, !(wrap_small 56) in C by done.
  destruct (Z.compare_spec d d') as [-> | |]; try done.
  destruct (Z.compare_spec i i') as [-> | |]; try done.
  destruct (Z.compare_spec (KeyType_num t) (KeyType_num t')) as [Et | |]; try done.
  apply Slice_compare_eq in C. apply KeyType_num_inj in Et. done.
Qed.

Lemma starts_with_app p s : starts_with (p ++ s) p = true.
Proof. unfold starts_with. apply bool_decide_eq_true. by rewrite take_app_length. Qed.

(** A key starts with a directory's prefix exactly when it is a key of that directory. *)
Lemma starts_with_Key n d i t d' i' t' :
  word 64 d -> word 64 d' -> word 56 i -> word 56 i' ->
  starts_with (SetSuffix n (Key d i t)) (Key d' i' t') = true <-> d = d' /\ i = i' /\ t = t'.
Proof.
  intros Hd Hd' Hi Hi'. split.
  - unfold starts_with. intros E%bool_decide_eq_true.
    rewrite SetSuffix_Key in E. unfold Key in E.
    rewrite (length_PackPrefix d' i' t'), <- (length_PackPrefix d i t) in E.
    rewrite take_app_length in E.
    destruct (Key_inj d i t [] d' i' t' []) as (?&?&?&?); try done.
  - intros (<- & <- & <-). apply starts_with_app.
Qed.

(** [DirId::compare] is a three-way comparison that decides equality. *)
Lemma DirId_compare_eq x y : DirId_compare x y = 0 <-> x = y.
Proof.
  unfold DirId_compare, compare64. destruct x as [d i], y as [d' i']; cbn.
  split; [| intros [= <- <-]; by rewrite !Z.ltb_irrefl, !Z.gtb_ltb, !Z.ltb_irrefl].
  rewrite !Z.gtb_ltb. repeat case_match; bool_hyps; try lia. intros _. f_equal; lia.
Qed.

Lemma DirId_eqb_eq x y : DirId_eqb x y = true <-> x = y.
Proof.
  unfold DirId_eqb. destruct x as [d i], y as [d' i']; cbn.
  destruct (Z.eqb_spec d d'), (Z.eqb_spec i i'); cbn; split; try done; congruence.
Qed.

(** Keys order the entries of the database: the byte order of two full keys is the order of the
    dnode number, then of the inode number, the type and the name; the keys of different entries differ as
    long as inode numbers stay below 2^56, and inode numbers that agree modulo 2^56 share all their keys. *)
Theorem Key_order d i t n d' i' t' n' :
  word 64 d -> word 64 d' ->
  Slice_compare (SetSuffix n (Key d i t)) (SetSuffix n' (Key d' i' t'))
  = match d ?= d' with
    | Eq => match wrap 56 i ?= wrap 56 i' with
            | Eq => match KeyType_num t ?= KeyType_num t' with
                    | Eq => Slice_compare n n' | c => c end
            | c => c end
    | c => c end /\
  (word 56 i -> word 56 i' -> SetSuffix n (Key d i t) = SetSuffix n' (Key d' i' t') ->
   d = d' /\ i = i' /\ t = t' /\ n = n') /\
  SetSuffix n (Key d (i + 2 ^ 56) t) = SetSuffix n (Key d i t).
Proof.
  intros Hd Hd'. split_and!; [by apply Key_compare | by apply Key_inj |].
  unfold Key, PackPrefix, SetSuffix. by rewrite !composite_eq, wrap_add_period.
Qed.

Lemma Key_order_witness :
  SetSuffix (lit "b") (Key 1 2 kDirEntType) <> SetSuffix (lit "a") (Key 1 2 kDirEntType) /\
  SetSuffix (lit "b") (Key 1 (3 + 2 ^ 56) kDirEntType) = SetSuffix (lit "b") (Key 1 3 kDirEntType).
Proof.
  split.
  - intros E. destruct (Key_order 1 2 kDirEntType (lit "b") 1 2 kDirEntType (lit "a")) as (_ & H & _); [by_compute.. |].
    by destruct (H ltac:(by_compute) ltac:(by_compute) E) as (_ & _ & _ & [=]).
  - apply (Key_order 1 3 kDirEntType (lit "b") 1 3 kDirEntType (lit "b")); by_compute.
Defined.
