(* ===== verification/Giga.v ===== *)
(** * GIGA+ directory index ([pdlfs-common/gigaplus.h], [gigaplus.cc])

    A directory is divided into partitions; a bitmap records the partitions that
    exist.  A name is hashed, the low [radix] bits of its (bit-reversed) hash give a
    partition, and if that partition does not exist its ancestors are tried.  [Rep] is
    the in-memory index: its bitmap is the list of the [bitmap_capacity_] bytes. *)
From S2P Require Import Prelude Coding Hashing.
Record DirIndexOptions := MkDirIndexOptions {
  num_servers : Z;
  num_virtual_servers : Z;
  paranoid_checks : bool
}.

Definition kMaxRadix : Z := 16.
Definition kMaxPartitions : Z := Z.shiftl 1 kMaxRadix.

(** [floor(log2(value))] on positive integers. *)
Definition ToLog2 (value : Z) : Z := Z.log2 value.

Definition kBits (off : Z) : Z := Z.shiftl 1 off.

(** Bit reversal of a byte by 64-bit multiplications. *)
Definition Reverse (byte : Z) : Z :=
  u8 (Z.shiftr (u64 (Z.land (u64 (byte * 0x80200802)) 0x0884422110 * 0x0101010101)) 32).

(** [GIGAHash]: the name hash, as the bytes it is copied to. *)
Definition GIGAHash (b : Slice) : Slice :=
  EncodeFixed64 (u64 (xxhash64 b 0 - 17241709254077376921)).
Definition DirIndex_Hash (name : Slice) : Slice := GIGAHash name.
Definition PutHash (dst name : Slice) : Slice := dst ++ GIGAHash name.

Definition kHeadSize : Z := 4.
Definition kInitBitmapCapacity : Z := Z.shiftl 1 7 / 8.

Record Rep := MkRep {
  zeroth_server : Z;
  radix : Z;
  bitmap : list Z
}.

Definition bitmap_capacity (rep : Rep) : Z := |[bitmap rep]|.
Definition SetRadix (r : Z) (rep : Rep) : Rep := MkRep (zeroth_server rep) (u16 r) (bitmap rep).
Definition bitmap_size (rep : Rep) : Z := (Z.shiftl 1 (radix rep) + 7) / 8.

(** [MapIndexToServer]: C++ [%] on operands that are not negative. *)
Definition MapIndexToServer (index zeroth_server num_servers : Z) : Z :=
  Z.rem (index + zeroth_server) num_servers.

(** [RandomServer]: the hash as a signed [int]. *)
Definition to_int (z : Z) : Z := if u32 z <? 2 ^ 31 then u32 z else u32 z - 2 ^ 32.
Definition RandomServer (dir : Slice) (seed : Z) : Z := to_int (xxhash32 dir (u32 seed)).
(** [RandomServers]: the two halves of the 64-bit hash. *)
Definition RandomServers (dir : Slice) (seed : Z) : Z * Z :=
  let h := xxhash64 dir (u64 seed) in (to_int h, to_int (Z.shiftr h 32)).

Section DirIndex.
(** Whether the build defines [NDEBUG]. *)
Variable ndebug : bool.
Abbreviation assert := (assert_ ndebug).

Definition ToRadix (index : Z) : option Z :=
  assert ((0 <=? index) && (index <? kMaxPartitions));;
  Some (if index =? 0 then 0 else 1 + ToLog2 index).

Definition ToChildIndex (index radix : Z) : option Z :=
  assert ((0 <=? index) && (index <? kMaxPartitions / 2));;
  assert ((0 <=? radix) && (radix <? kMaxRadix));;
  Some (index + Z.shiftl 1 radix).

Definition ToParentIndex (index : Z) : option Z :=
  assert ((0 <=? index) && (index <? kMaxPartitions));;
  Some (if index =? 0 then 0 else index - Z.shiftl 1 (ToLog2 index)).

(** The index made of the first [n] bits of a hash; [None] also on a read past its end. *)
Fixpoint ComputeIndex_bytes (hash : Slice) (nbytes : nat) (idx result : Z) {struct nbytes}
    : option (Slice * Z) :=
  match nbytes with
  | O => Some (hash, result)
  | S nbytes =>
      match hash with
      | [] => None
      | h :: hash =>
          ComputeIndex_bytes hash nbytes (idx + 1) (result + Z.shiftl (Reverse h) (idx * 8))
      end
  end.

Definition ComputeIndexFromHash (hash : Slice) (n : Z) : option Z :=
  assert (0 <=? n);; assert (n <=? kMaxRadix);;
  let nbytes := n / 8 in
  '(rest, result) ← ComputeIndex_bytes hash (Z.to_nat nbytes) 0 0;
  let nbits := n mod 8 in
  result ← (if 0 <? nbits then
              h ← head rest;
              Some (result + Z.shiftl (Z.land (Reverse h) (Z.shiftl 1 nbits - 1)) (nbytes * 8))
            else Some result);
  assert ((0 <=? result) && (result <? kMaxPartitions));;
  Some result.

(** ** The in-memory representation *)

(** [bitmap_[index / 8] & kBits[index % 8]]. *)
Definition raw_bit (bm : list Z) (index : Z) : bool :=
  match bm !! Z.to_nat (index / 8) with
  | Some b => negb (Z.land b (kBits (index mod 8)) =? 0)
  | None => false
  end.

Definition Rep_bit (rep : Rep) (index : Z) : option bool :=
  assert (index <? kMaxPartitions);;
  Some (if index <? bitmap_size rep * 8 then raw_bit (bitmap rep) index else false).

Definition Rep_byte (rep : Rep) (index : Z) : option Z :=
  assert (index <? kMaxPartitions / 8);;
  if index <? bitmap_size rep then bitmap rep !! Z.to_nat index else Some 0.

(** The two scanning loops of [HighestBit]; [None] when they run below index 0. *)
Fixpoint HighestBit_byte (bm : list Z) (i : nat) : option nat :=
  b ← bm !! i;
  if b =? 0 then match i with O => None | S i => HighestBit_byte bm i end else Some i.
Fixpoint HighestBit_bit (b : Z) (off : nat) : option nat :=
  if Z.land b (kBits (Z.of_nat off)) =? 0
  then match off with O => None | S off => HighestBit_bit b off end else Some off.

Definition HighestBit (rep : Rep) : option Z :=
  let i := bitmap_size rep - 1 in
  assert (i <? bitmap_capacity rep);;
  b0 ← Rep_bit rep 0; assert b0;;
  i ← HighestBit_byte (bitmap rep) (Z.to_nat i);
  b ← bitmap rep !! i;
  off ← HighestBit_bit b 7;
  Some (Z.of_nat off + Z.of_nat i * 8).

Definition ScaleUp (factor : Z) (rep : Rep) : option Rep :=
  if 1 <? factor then
    let cap := bitmap_capacity rep * factor in
    assert (cap <=? kMaxPartitions / 8);;
    Some (MkRep (zeroth_server rep) (radix rep)
            (bitmap rep ++ replicate (Z.to_nat (cap - bitmap_capacity rep)) 0))
  else Some rep.

(** The doubling loop of [ScaleToSize]; [fuel] 32 covers every [int] size. *)
Fixpoint ScaleToSize_factor (fuel : nat) (current capacity factor : Z) : Z :=
  match fuel with
  | O => factor
  | S fuel =>
      if current <? capacity
      then ScaleToSize_factor fuel (Z.shiftl current 1) capacity (Z.shiftl factor 1)
      else factor
  end.
Definition ScaleToSize (capacity : Z) (rep : Rep) : option Rep :=
  ScaleUp (ScaleToSize_factor 32 (bitmap_capacity rep) capacity 1) rep.

(** [bitmap_[i] |= kBits[off]]; [None] when [i] is outside the buffer. *)
Definition set_bit (bm : list Z) (index : Z) : option (list Z) :=
  b ← bm !! Z.to_nat (index / 8);
  Some (<[Z.to_nat (index / 8) := Z.lor b (kBits (index mod 8))]> bm).

Definition TurnOnBit (index : Z) (rep : Rep) : option Rep :=
  assert (index <? kMaxPartitions);;
  rep ← (if bitmap_capacity rep * 8 <=? index then
           assert (index <? 2 * bitmap_capacity rep * 8);; ScaleUp 2 rep
         else Some rep);
  r ← ToRadix index;
  rep ← (if radix rep <? r then
           assert (radix rep =? r - 1);; Some (SetRadix r rep)
         else Some rep);
  assert (index / 8 <? bitmap_capacity rep);;
  bm ← set_bit (bitmap rep) index;
  let rep := MkRep (zeroth_server rep) (radix rep) bm in
  (if ndebug then Some tt
   else h ← HighestBit rep; r ← ToRadix h; assert (radix rep =? r));;
  Some rep.

Definition TurnOffBit (index : Z) (rep : Rep) : option Rep :=
  assert (negb (index =? 0) && (index <? kMaxPartitions));;
  if index <? bitmap_size rep * 8 then
    assert (index / 8 <? bitmap_capacity rep);;
    b ← bitmap rep !! Z.to_nat (index / 8);
    let rep := MkRep (zeroth_server rep) (radix rep)
      (<[Z.to_nat (index / 8) := Z.ldiff b (kBits (index mod 8))]> (bitmap rep)) in
    r ← ToRadix index;
    if radix rep =? r then
      h ← HighestBit rep; r ← ToRadix h; Some (SetRadix r rep)
    else Some rep
  else Some rep.

(** [Rep::Rep]. *)
Definition NewRep (zeroth : Z) : option Rep :=
  TurnOnBit 0 (MkRep (u16 zeroth) 0 (replicate (Z.to_nat kInitBitmapCapacity) 0)).

(** ** Directory index operations *)
Definition IsSet (rep : Rep) (index : Z) : option bool := Rep_bit rep index.

Definition DirIndex_Set (options : DirIndexOptions) (index : Z) (rep : Rep) : option Rep :=
  assert ((0 <=? index) && (index <? num_virtual_servers options));;
  TurnOnBit index rep.

(** The loop of [SetAll], [n] iterations from [i] on. *)
Fixpoint SetAll_loop (n : nat) (i : Z) (rep : Rep) : option Rep :=
  match n with
  | O => Some rep
  | S n => rep ← TurnOnBit i rep; SetAll_loop n (i + 1) rep
  end.
Definition SetAll (options : DirIndexOptions) (rep : Rep) : option Rep :=
  rep ← ScaleToSize (num_virtual_servers options) rep;
  SetAll_loop (Z.to_nat (num_virtual_servers options)) 0 rep.

Definition TEST_Unset (options : DirIndexOptions) (index : Z) (rep : Rep) : option Rep :=
  assert ((0 <? index) && (index <? num_virtual_servers options));;
  TurnOffBit index rep.

(** [IsSplittable]: the loop over the radices from [r] to [kMaxRadix]. *)
Fixpoint IsSplittable_loop (fuel : nat) (options : DirIndexOptions) (rep : Rep)
    (index r : Z) : option bool :=
  match fuel with
  | O => Some false
  | S fuel =>
      if r <? kMaxRadix then
        i ← ToChildIndex index r;
        b ← Rep_bit rep i;
        if negb b then Some (i <? num_virtual_servers options)
        else
          (if ndebug then Some tt else r' ← ToRadix i; assert (r + 1 =? r'));;
          IsSplittable_loop fuel options rep index (r + 1)
      else Some false
  end.
Definition IsSplittable (options : DirIndexOptions) (rep : Rep) (index : Z) : option bool :=
  b ← Rep_bit rep index;
  if negb b then Some false
  else r ← ToRadix index; IsSplittable_loop 17 options rep index r.

(** [NewIndexForSplitting]: the first child of [index] whose bit is not set. *)
Fixpoint NewIndex_loop (fuel : nat) (rep : Rep) (index i r : Z) : option Z :=
  b ← Rep_bit rep i;
  if (b : bool) then
    match fuel with
    | O => None
    | S fuel => i ← ToChildIndex index r; NewIndex_loop fuel rep index i (r + 1)
    end
  else Some i.
Definition NewIndexForSplitting (options : DirIndexOptions) (rep : Rep) (index : Z)
    : option Z :=
  (if ndebug then Some tt else b ← IsSplittable options rep index; assert b);;
  r ← ToRadix index;
  i ← NewIndex_loop 18 rep index index r;
  assert (negb (i =? index) && (i <? num_virtual_servers options));;
  Some i.

(** [HashToIndex]: climb to the first existing ancestor; 16 steps reach the root. *)
Fixpoint HashToIndex_loop (fuel : nat) (rep : Rep) (i : Z) : option Z :=
  b ← Rep_bit rep i;
  if negb b then
    match fuel with
    | O => None
    | S fuel => i ← ToParentIndex i; HashToIndex_loop fuel rep i
    end
  else Some i.
Definition HashToIndex (options : DirIndexOptions) (rep : Rep) (hash : Slice) : option Z :=
  b0 ← Rep_bit rep 0; assert b0;;
  i ← ComputeIndexFromHash hash (radix rep);
  assert (i <? num_virtual_servers options);;
  HashToIndex_loop 17 rep i.

Definition GetIndex (options : DirIndexOptions) (rep : Rep) (name : Slice) : option Z :=
  HashToIndex options rep (DirIndex_Hash name).

Definition GetServerForIndex (options : DirIndexOptions) (rep : Rep) (index : Z) : Z :=
  MapIndexToServer index (zeroth_server rep) (num_servers options).

Definition SelectServer (options : DirIndexOptions) (rep : Rep) (name : Slice) : option Z :=
  i ← GetIndex options rep name; Some (GetServerForIndex options rep i).
Definition HashToServer (options : DirIndexOptions) (rep : Rep) (hash : Slice) : option Z :=
  i ← HashToIndex options rep hash; Some (GetServerForIndex options rep i).

(** [ToBeMigrated]: whether a hash moves to the child partition [index] in a split. *)
Definition ToBeMigrated (index : Z) (hash : Slice) : option bool :=
  r ← ToRadix index; i ← ComputeIndexFromHash hash r; Some (i =? index).

(** ** Encoding, parsing and merging *)
(** A bitmap shorter than the radix says fails an assertion, or is read past its end. *)
Definition ToSlice (rep : Rep) : option Slice :=
  if bitmap_size rep <=? bitmap_capacity rep then
    Some (EncodeFixed16 (zeroth_server rep) ++ EncodeFixed16 (radix rep) ++
          take (Z.to_nat (bitmap_size rep)) (bitmap rep))
  else None.

(** [DirIndex::View]: a read-only index over encoded bytes. *)
Record View := MkView { view_zeroth_server : Z; view_radix : Z; view_bitmap : list Z }.

Definition View_bit (v : View) (index : Z) : option bool :=
  assert (index <? kMaxPartitions);;
  Some (if (index =? 0) && bool_decide (view_bitmap v = []) then true
        else if index <? |[view_bitmap v]| * 8 then raw_bit (view_bitmap v) index
        else false).
Definition View_byte (v : View) (index : Z) : option Z :=
  assert (index <? kMaxPartitions / 8);;
  if (index =? 0) && bool_decide (view_bitmap v = []) then Some (kBits 0)
  else if index <? |[view_bitmap v]| then view_bitmap v !! Z.to_nat index else Some 0.
Definition View_HighestBit (v : View) : option Z :=
  if decide (view_bitmap v = []) then Some 0
  else
    b0 ← View_bit v 0; assert b0;;
    i ← HighestBit_byte (view_bitmap v) (length (view_bitmap v) - 1);
    b ← view_bitmap v !! i;
    off ← HighestBit_bit b 7;
    Some (Z.of_nat off + Z.of_nat i * 8).

(** [ParseDirIndex]: [Some None] is the result false. *)
Definition ParseDirIndex (input : Slice) (paranoid_checks : bool) : option (option View) :=
  if |[input]| <? kHeadSize then Some None
  else
    z ← DecodeFixed16 input; r ← DecodeFixed16 (drop 2 input);
    let v := MkView z r (drop 4 input) in
    if |[input]| - kHeadSize <? (Z.shiftl 1 r + 7) / 8 then Some None
    else
      b0 ← View_bit v 0;
      if negb b0 then Some None
      else if paranoid_checks then
        h ← View_HighestBit v; r' ← ToRadix h;
        Some (if negb (r =? r') then None else Some v)
      else Some (Some v).

(** The byte-wise union of [DoMerge], over the [byte] function of the other index. *)
Fixpoint DoMerge_loop (byte : Z -> option Z) (n : nat) (i : Z) (bm : list Z)
    : option (list Z) :=
  match n with
  | O => Some bm
  | S n =>
      o ← byte i; b ← bm !! Z.to_nat i;
      DoMerge_loop byte n (i + 1) (<[Z.to_nat i := Z.lor b o]> bm)
  end.
Definition DoMerge (o_zeroth o_radix o_size : Z) (o_byte : Z -> option Z) (rep : Rep)
    : option Rep :=
  assert (zeroth_server rep =? o_zeroth);;
  let new_capacity := Z.max (bitmap_size rep) o_size in
  rep ← ScaleToSize new_capacity rep;
  let rep := SetRadix (Z.max (radix rep) o_radix) rep in
  assert (bitmap_size rep <=? new_capacity);;
  bm ← DoMerge_loop o_byte (Z.to_nat new_capacity) 0 (bitmap rep);
  let rep := MkRep (zeroth_server rep) (radix rep) bm in
  (if ndebug then Some tt
   else h ← HighestBit rep; r ← ToRadix h; assert (radix rep =? r));;
  Some rep.

Definition Merge (other rep : Rep) : option Rep :=
  DoMerge (zeroth_server other) (radix other) (bitmap_size other) (Rep_byte other) rep.
Definition MergeView (other : View) (rep : Rep) : option Rep :=
  DoMerge (view_zeroth_server other) (view_radix other) (|[view_bitmap other]|)
    (View_byte other) rep.

(** [DirIndex::Update] on an encoded index of the same directory and on another index,
    with [None] for an index that has no representation yet; [TEST_Reset]. *)
Definition TEST_Reset (options : DirIndexOptions) (other : Slice) (rep : option Rep)
    : option (bool * option Rep) :=
  v ← ParseDirIndex other (paranoid_checks options);
  match v with
  | None => Some (false, rep)
  | Some v =>
      new_rep ← NewRep (view_zeroth_server v);
      new_rep ← MergeView v new_rep;
      Some (true, Some new_rep)
  end.
Definition Update (options : DirIndexOptions) (other : Slice) (rep : option Rep)
    : option (bool * option Rep) :=
  match rep with
  | None => TEST_Reset options other rep
  | Some r =>
      v ← ParseDirIndex other (paranoid_checks options);
      match v with
      | None => Some (false, rep)
      | Some v =>
          if negb (zeroth_server r =? view_zeroth_server v) then Some (false, rep)
          else r ← MergeView v r; Some (true, Some r)
      end
  end.
Definition UpdateIndex (other : Rep) (rep : option Rep) : option Rep :=
  match rep with
  | None => new_rep ← NewRep (zeroth_server other); Merge other new_rep
  | Some r => Merge other r
  end.
End DirIndex.
