(* ===== verification/GigaFacts.v ===== *)
(** * GIGA+ directory index: invariant and correctness

    [Rep_wf] is the representation invariant of an index; the operations of [Giga]
    preserve it and never fail an assertion under it, in debug builds ([ndebug] false)
    as in release builds.  The set of partitions of an index is [raw_bit]. *)
From S2P Require Import Prelude Coding Hashing Giga.

(** ** Bits *)
Lemma land_kBits b k : 0 <= k -> negb (Z.land b (kBits k) =? 0) = Z.testbit b k.
Proof.
  intros Hk. unfold kBits. rewrite Z.shiftl_1_l.
  assert (Z.land b (2 ^ k) = if Z.testbit b k then 2 ^ k else 0) as ->.
  { apply Z.bits_inj'. intros i Hi. rewrite Z.land_spec.
    destruct (decide (i = k)) as [-> | Hne].
    - rewrite Z.pow2_bits_true, andb_true_r by lia.
      destruct (Z.testbit b k) eqn:E; [by rewrite Z.pow2_bits_true | by rewrite Z.bits_0].
    - rewrite Z.pow2_bits_false, andb_false_r by lia.
      destruct (Z.testbit b k); [by rewrite Z.pow2_bits_false by lia | by rewrite Z.bits_0]. }
  destruct (Z.testbit b k); [| done].
  apply negb_true_iff, Z.eqb_neq. pose proof (Z.pow_pos_nonneg 2 k). lia.
Qed.

Lemma raw_bit_testbit bm i :
  raw_bit bm i = match bm !! Z.to_nat (i / 8) with Some b => Z.testbit b (i mod 8) | None => false end.
Proof. unfold raw_bit. case_match; [| done]. apply land_kBits. apply Z.mod_pos_bound. lia. Qed.

Lemma raw_bit_lt bm i : 0 <= i -> raw_bit bm i = true -> i < |[bm]| * 8.
Proof.
  unfold raw_bit. intros Hi H. destruct (bm !! Z.to_nat (i / 8)) eqn:E; [| done].
  apply lookup_lt_Some in E. unfold slice_size. apply Nat2Z.inj_lt in E.
  rewrite Z2Nat.id in E by (apply Z.div_pos; lia). Z.to_euclidean_division_equations. lia.
Qed.

Lemma raw_bit_app_zeros bm n i : 0 <= i -> raw_bit (bm ++ replicate n 0) i = raw_bit bm i.
Proof.
  intros Hi. rewrite !raw_bit_testbit.
  destruct (bm !! Z.to_nat (i / 8)) eqn:E.
  - by rewrite (lookup_app_l_Some _ _ _ _ E).
  - rewrite lookup_app_r by by apply lookup_ge_None.
    destruct (replicate n 0 !! _) eqn:E'; [| done].
    apply lookup_replicate in E' as [-> _]. apply Z.bits_0.
Qed.

Lemma kBits_byte k : 0 <= k < 8 -> word 8 (kBits k).
Proof.
  intros. unfold kBits. rewrite Z.shiftl_1_l. split; [lia |]. apply Z.pow_lt_mono_r; lia.
Qed.

Lemma word_lor w a b : 0 <= w -> word w a -> word w b -> word w (Z.lor a b).
Proof.
  intros Hw Ha Hb. assert (Z.lor a b = wrap w (Z.lor a b)) as ->; [| by apply wrap_word].
  apply Z.bits_inj'. intros i Hi. rewrite wrap_testbit by lia.
  destruct (Z.ltb_spec i w); [done |].
  by rewrite Z.lor_spec, !(word_testbit w) by done.
Qed.

(** Setting a bit inside the buffer sets that bit only. *)
Lemma set_bit_spec bm i :
  bytes bm -> 0 <= i < |[bm]| * 8 ->
  ∃ bm', set_bit bm i = Some bm' ∧ bytes bm' ∧ length bm' = length bm ∧
    ∀ j, 0 <= j -> raw_bit bm' j = (j =? i) || raw_bit bm j.
Proof.
  intros Hb [Hi0 Hi]. unfold set_bit, slice_size in *.
  assert (0 <= i / 8) by (apply Z.div_pos; lia).
  assert (i / 8 < Z.of_nat (length bm)) by (apply Z.div_lt_upper_bound; lia).
  destruct (lookup_lt_is_Some_2 bm (Z.to_nat (i / 8))) as [b E]; [lia |].
  rewrite E. cbn. eexists. split; [done |]. split_and!.
  - apply Forall_insert; [done |]. apply word_lor; [lia | | apply kBits_byte].
    + eapply Forall_lookup_1 in E; [| exact Hb]. done.
    + apply Z.mod_pos_bound. lia.
  - apply length_insert.
  - intros j Hj. assert (0 <= j / 8) by (apply Z.div_pos; lia). rewrite !raw_bit_testbit.
    destruct (decide (j / 8 = i / 8)) as [Eq | Ne].
    + rewrite Eq, E, list_lookup_insert_eq by lia.
      rewrite Z.lor_spec. unfold kBits. rewrite Z.shiftl_1_l, orb_comm. f_equal.
      pose proof (Z.mod_pos_bound j 8). pose proof (Z.mod_pos_bound i 8).
      destruct (Z.eqb_spec j i) as [-> | Hne].
      * apply Z.pow2_bits_true. lia.
      * apply Z.pow2_bits_false. intros Em. apply Hne.
        rewrite (Z.div_mod j 8), (Z.div_mod i 8) by lia. congruence.
    + rewrite list_lookup_insert_ne by lia.
      destruct (Z.eqb_spec j i) as [-> |]; done.
Qed.

(** ** Radices *)
Definition radix_of (i : Z) : Z := if i =? 0 then 0 else 1 + Z.log2 i.

Lemma radix_of_nonneg i : 0 <= radix_of i.
Proof. unfold radix_of. pose proof (Z.log2_nonneg i). case_match; lia. Qed.

Lemma radix_of_spec i r : 0 <= i -> 0 <= r -> radix_of i <= r <-> i < 2 ^ r.
Proof.
  intros Hi Hr. unfold radix_of. destruct (Z.eqb_spec i 0) as [-> | Hne].
  - pose proof (Z.pow_pos_nonneg 2 r). lia.
  - rewrite (Z.log2_lt_pow2 i r) by lia. lia.
Qed.

Lemma radix_of_mono i j : 0 <= i <= j -> radix_of i <= radix_of j.
Proof.
  intros. apply radix_of_spec; [lia | apply radix_of_nonneg |].
  apply Z.le_lt_trans with j; [lia |].
  apply radix_of_spec; [lia | apply radix_of_nonneg | lia].
Qed.

Lemma ToRadix_spec ndebug i : 0 <= i < kMaxPartitions -> ToRadix ndebug i = Some (radix_of i).
Proof.
  intros. unfold ToRadix. rewrite assert_bool; [done |].
  apply andb_true_iff. split; [apply Z.leb_le | apply Z.ltb_lt]; lia.
Qed.

Lemma kMaxPartitions_eq : kMaxPartitions = 2 ^ 16.
Proof. done. Qed.

Lemma radix_of_16 i : 0 <= i < kMaxPartitions -> radix_of i <= 16.
Proof. rewrite kMaxPartitions_eq. intros. apply radix_of_spec; lia. Qed.

(** ** The representation invariant *)
Record Rep_wf (rep : Rep) : Prop := {
  wf_zeroth : word 16 (zeroth_server rep);
  wf_radix : 0 <= radix rep <= kMaxRadix;
  wf_bytes : bytes (bitmap rep);
  (** the capacity is 16 bytes, doubled some number of times *)
  wf_cap : ∃ k, 0 <= k <= 9 ∧ bitmap_capacity rep = 16 * 2 ^ k;
  wf_size : bitmap_size rep <= bitmap_capacity rep;
  wf_root : raw_bit (bitmap rep) 0 = true;
  (** the radix is that of the highest partition *)
  wf_bits : ∀ i, 0 <= i -> raw_bit (bitmap rep) i = true -> radix_of i <= radix rep;
  wf_top : ∃ i, 0 <= i ∧ raw_bit (bitmap rep) i = true ∧ radix_of i = radix rep
}.

Lemma bitmap_size_pow rep : 0 <= radix rep -> 2 ^ radix rep <= bitmap_size rep * 8.
Proof.
  intros. unfold bitmap_size. rewrite Z.shiftl_1_l. Z.to_euclidean_division_equations. lia.
Qed.

Lemma bitmap_size_pos rep : 0 <= radix rep -> 1 <= bitmap_size rep.
Proof. intros. pose proof (bitmap_size_pow rep). pose proof (Z.pow_pos_nonneg 2 (radix rep)). lia. Qed.

(** Under the invariant, [Rep_bit] reads the bitmap. *)
Lemma Rep_bit_wf ndebug rep i :
  Rep_wf rep -> 0 <= i < kMaxPartitions -> Rep_bit ndebug rep i = Some (raw_bit (bitmap rep) i).
Proof.
  intros Hwf Hi. unfold Rep_bit. rewrite assert_bool by (apply Z.ltb_lt; lia). cbn.
  destruct (Z.ltb_spec i (bitmap_size rep * 8)) as [| Hge]; [done |]. f_equal.
  destruct (raw_bit (bitmap rep) i) eqn:E; [| done].
  apply wf_bits in E; [| done | lia]. pose proof (wf_radix _ Hwf).
  apply radix_of_spec in E; [| lia | lia]. pose proof (bitmap_size_pow rep). lia.
Qed.

(** ** The highest partition *)
Lemma HighestBit_bit_spec b off :
  match HighestBit_bit b off with
  | Some o => (o <= off)%nat ∧ Z.testbit b (Z.of_nat o) = true ∧
      ∀ k, (o < k <= off)%nat -> Z.testbit b (Z.of_nat k) = false
  | None => ∀ k, (k <= off)%nat -> Z.testbit b (Z.of_nat k) = false
  end.
Proof.
  induction off as [| off IH]; cbn [HighestBit_bit].
  - pose proof (land_kBits b (Z.of_nat 0)) as E.
    destruct (Z.land b _ =? 0); cbn [negb] in E.
    + intros k Hk. replace k with 0%nat by lia. rewrite <- E; [done | lia].
    + split_and!; [done | rewrite <- E; [done | lia] | lia].
  - pose proof (land_kBits b (Z.of_nat (S off))) as E.
    destruct (Z.land b _ =? 0); cbn [negb] in E.
    + assert (Z.testbit b (Z.of_nat (S off)) = false) as E' by (rewrite <- E; [done | lia]).
      destruct (HighestBit_bit b off) as [o |].
      * destruct IH as (? & ? & IH). split_and!; [lia | done |].
        intros k Hk. destruct (decide (k = S off)) as [-> |]; [done | apply IH; lia].
      * intros k Hk. destruct (decide (k = S off)) as [-> |]; [done | apply IH; lia].
    + split_and!; [lia | rewrite <- E; [done | lia] | lia].
Qed.

Lemma HighestBit_byte_spec bm i :
  (i < length bm)%nat ->
  match HighestBit_byte bm i with
  | Some o => (o <= i)%nat ∧ (∃ b, bm !! o = Some b ∧ b <> 0) ∧
      ∀ k, (o < k <= i)%nat -> bm !! k = Some 0
  | None => ∀ k, (k <= i)%nat -> bm !! k = Some 0
  end.
Proof.
  induction i as [| i IH]; intros Hi; cbn [HighestBit_byte].
  - destruct (lookup_lt_is_Some_2 bm 0) as [b E]; [lia |]. rewrite E. cbn.
    destruct (Z.eqb_spec b 0) as [-> |].
    + intros k Hk. by replace k with 0%nat by lia.
    + split_and!; [done | by eexists | lia].
  - destruct (lookup_lt_is_Some_2 bm (S i)) as [b E]; [lia |]. rewrite E. cbn.
    destruct (Z.eqb_spec b 0) as [-> |].
    + specialize (IH ltac:(lia)). destruct (HighestBit_byte bm i) as [o |].
      * destruct IH as (? & ? & IH). split_and!; [lia | done |].
        intros k Hk. destruct (decide (k = S i)) as [-> |]; [done | apply IH; lia].
      * intros k Hk. destruct (decide (k = S i)) as [-> |]; [done | apply IH; lia].
    + split_and!; [lia | by eexists | lia].
Qed.

Lemma byte_nonzero_bit b : word 8 b -> b <> 0 -> ∃ k, (k <= 7)%nat ∧ Z.testbit b (Z.of_nat k) = true.
Proof.
  intros Hb Hne. destruct Hb as [H0 Hb].
  exists (Z.to_nat (Z.log2 b)). pose proof (Z.log2_nonneg b).
  assert (Z.log2 b < 8) by (apply Z.log2_lt_pow2; lia).
  split; [lia |]. rewrite Z2Nat.id by lia. apply Z.bit_log2. lia.
Qed.

Lemma HighestBit_bit_top b : word 8 b -> b <> 0 ->
  ∃ o, HighestBit_bit b 7 = Some o ∧ (o <= 7)%nat ∧ Z.testbit b (Z.of_nat o) = true ∧
    ∀ k, (o < k <= 7)%nat -> Z.testbit b (Z.of_nat k) = false.
Proof.
  intros Hb Hne. pose proof (HighestBit_bit_spec b 7) as H.
  destruct (HighestBit_bit b 7) as [o |]; [destruct H as (?&?&?); by exists o |].
  destruct (byte_nonzero_bit b Hb Hne) as (k & Hk & E). by rewrite (H k Hk) in E.
Qed.

Lemma HighestBit_byte_top bm n :
  (n < length bm)%nat -> raw_bit bm 0 = true ->
  ∃ o b, HighestBit_byte bm n = Some o ∧ (o <= n)%nat ∧ bm !! o = Some b ∧ b <> 0 ∧
    ∀ k, (o < k <= n)%nat -> bm !! k = Some 0.
Proof.
  intros Hn H0. pose proof (HighestBit_byte_spec bm n Hn) as H.
  destruct (HighestBit_byte bm n) as [o |].
  - destruct H as (Ho & (b & Hb & Hne) & Hz). by exists o, b.
  - rewrite raw_bit_testbit in H0. change (Z.to_nat (0 / 8)) with 0%nat in H0.
    rewrite H in H0 by lia. by rewrite Z.bits_0 in H0.
Qed.

(** The scan finds the greatest set bit, when every set bit lies in the scanned bytes. *)
Lemma HighestBit_spec ndebug rep :
  0 <= radix rep <= 16 -> bytes (bitmap rep) -> bitmap_size rep <= bitmap_capacity rep ->
  raw_bit (bitmap rep) 0 = true ->
  (∀ i, 0 <= i -> raw_bit (bitmap rep) i = true -> i < bitmap_size rep * 8) ->
  ∃ h, HighestBit ndebug rep = Some h ∧ 0 <= h ∧ raw_bit (bitmap rep) h = true ∧
    ∀ i, 0 <= i -> raw_bit (bitmap rep) i = true -> i <= h.
Proof.
  intros Hr Hb Hs H0 Hall. pose proof (bitmap_size_pos rep ltac:(lia)).
  unfold HighestBit. rewrite assert_bool by (apply Z.ltb_lt; lia). cbn [mbind option_bind].
  unfold Rep_bit at 1. rewrite assert_bool by done. cbn [mbind option_bind].
  rewrite (proj2 (Z.ltb_lt 0 _)), H0, assert_true by lia. cbn [mbind option_bind].
  unfold bitmap_capacity, slice_size in *.
  destruct (HighestBit_byte_top (bitmap rep) (Z.to_nat (bitmap_size rep - 1)))
    as (o & b & -> & Ho & Eb & Hne & Hz); [lia | done |].
  cbn [mbind option_bind]. rewrite Eb. cbn [mbind option_bind].
  destruct (HighestBit_bit_top b) as (off & -> & Hoff & Hbit & Hhi); [| done |].
  { by eapply Forall_lookup_1 in Eb. }
  cbn [mbind option_bind]. eexists. split; [done |]. split; [lia |]. split.
  - rewrite raw_bit_testbit, Z.div_add, Z.mod_add by lia.
    rewrite Z.div_small, Z.mod_small by lia. by rewrite Z.add_0_l, Nat2Z.id, Eb.
  - intros i Hi Ei. specialize (Hall i Hi Ei). rewrite raw_bit_testbit in Ei.
    pose proof (Z.mod_pos_bound i 8 ltac:(lia)). pose proof (Z.div_mod i 8 ltac:(lia)).
    assert (0 <= i / 8) by (apply Z.div_pos; lia).
    destruct (Z.lt_trichotomy (i / 8) (Z.of_nat o)) as [| [Eo | Hgt]]; [lia | |].
    + rewrite Eo, Nat2Z.id, Eb in Ei.
      destruct (Z.le_gt_cases (i mod 8) (Z.of_nat off)); [lia |].
      specialize (Hhi (Z.to_nat (i mod 8)) ltac:(lia)). rewrite Z2Nat.id in Hhi by lia. congruence.
    + rewrite Hz in Ei by (split; [lia |]; Z.to_euclidean_division_equations; lia).
      by rewrite Z.bits_0 in Ei.
Qed.

(** ** Setting a partition *)

(** What one more partition may be: at most one radix above the current one. *)
Definition can_turn_on (rep : Rep) (i : Z) : Prop :=
  0 <= i < kMaxPartitions /\ radix_of i <= radix rep + 1.

Lemma ScaleUp_2 ndebug rep :
  bitmap_capacity rep * 2 <= 8192 ->
  ScaleUp ndebug 2 rep = Some (MkRep (zeroth_server rep) (radix rep)
    (bitmap rep ++ replicate (Z.to_nat (bitmap_capacity rep)) 0)).
Proof.
  intros Hc. unfold ScaleUp. change (1 <? 2) with true. cbn [andb].
  rewrite assert_bool by (apply Z.leb_le; exact Hc). cbn [mbind option_bind].
  do 5 f_equal. lia.
Qed.

(** The buffer is doubled when the partition lies past its end. *)
Definition grown (rep : Rep) (i : Z) : Rep :=
  if bitmap_capacity rep * 8 <=? i then
    MkRep (zeroth_server rep) (radix rep)
      (bitmap rep ++ replicate (Z.to_nat (bitmap_capacity rep)) 0)
  else rep.

Lemma grown_wf rep i :
  Rep_wf rep -> can_turn_on rep i -> Rep_wf (grown rep i) /\ i < bitmap_capacity (grown rep i) * 8.
Proof.
  intros Hwf [Hi Hr]. unfold grown. destruct (Z.leb_spec (bitmap_capacity rep * 8) i) as [Hge |].
  2: { split; [done | lia]. }
  destruct (wf_cap _ Hwf) as (k & Hk & Ek). rewrite kMaxPartitions_eq in Hi.
  assert (k < 9).
  { destruct (decide (k = 9)) as [-> |]; [| lia]. rewrite Ek in Hge. cbn in *. lia. }
  pose proof (wf_radix _ Hwf).
  apply radix_of_spec in Hr; [| lia | lia]. rewrite Z.pow_add_r in Hr by lia.
  pose proof (bitmap_size_pow rep ltac:(lia)). pose proof (wf_size _ Hwf).
  assert (bitmap_capacity (MkRep (zeroth_server rep) (radix rep)
    (bitmap rep ++ replicate (Z.to_nat (bitmap_capacity rep)) 0)) = 2 * bitmap_capacity rep) as Ec.
  { unfold bitmap_capacity, slice_size. cbn. rewrite length_app, length_replicate. lia. }
  split; [| rewrite Ec; lia]. destruct Hwf. split; cbn; try done.
  - apply Forall_app_2; [done |]. apply Forall_replicate. split; cbn; lia.
  - exists (k + 1). split; [lia |]. rewrite Ec, Ek, Z.pow_add_r by lia. lia.
  - rewrite Ec. unfold bitmap_size in *. cbn in *. pose proof (slice_size_nonneg (bitmap rep)).
    unfold bitmap_capacity in *. lia.
  - by rewrite raw_bit_app_zeros.
  - intros j Hj. rewrite raw_bit_app_zeros by done. auto.
  - destruct wf_top0 as (j & Hj & Ej & ?). exists j. by rewrite raw_bit_app_zeros.
Qed.

Lemma grown_fields rep i :
  zeroth_server (grown rep i) = zeroth_server rep /\ radix (grown rep i) = radix rep /\
  ∀ j, 0 <= j -> raw_bit (bitmap (grown rep i)) j = raw_bit (bitmap rep) j.
Proof.
  unfold grown. case_match; [| done]. split_and!; try done. intros. by apply raw_bit_app_zeros.
Qed.

Lemma bitmap_size_le_mono rep rep' :
  0 <= radix rep -> radix rep <= radix rep' -> bitmap_size rep <= bitmap_size rep'.
Proof.
  intros. unfold bitmap_size. rewrite !Z.shiftl_1_l. apply Z.div_le_mono; [lia |].
  pose proof (Z.pow_le_mono_r 2 (radix rep) (radix rep')). lia.
Qed.

(** [(2^r + 7) / 8] bytes hold an index of radix [r]. *)
Lemma bitmap_size_fits rep i :
  0 <= radix rep -> bitmap_size rep <= bitmap_capacity rep ->
  0 <= i < bitmap_capacity rep * 8 -> (∃ k, 0 <= k ∧ bitmap_capacity rep = 16 * 2 ^ k) ->
  forall r, radix rep <= r -> r = Z.max (radix rep) (radix_of i) ->
  (Z.shiftl 1 r + 7) / 8 <= bitmap_capacity rep.
Proof.
  intros H0 Hs Hi (k & Hk & Ek) r Hr ->. rewrite Z.shiftl_1_l.
  assert (2 ^ Z.max (radix rep) (radix_of i) <= bitmap_capacity rep * 8).
  { destruct (Z.max_spec (radix rep) (radix_of i)) as [[_ ->] | [_ ->]]; [| unfold bitmap_size in Hs].
    - assert (radix_of i <= k + 7) as Hle.
      { apply radix_of_spec; [lia | lia |]. rewrite Z.pow_add_r by lia.
        change (2 ^ 7) with 128. lia. }
      apply (Z.pow_le_mono_r 2) in Hle; [| lia]. rewrite Z.pow_add_r in Hle by lia.
      change (2 ^ 7) with 128 in Hle. lia.
    - rewrite Z.shiftl_1_l in Hs. Z.to_euclidean_division_equations. lia. }
  Z.to_euclidean_division_equations. lia.
Qed.

(** The index after the radix update and the write of [TurnOnBit]. *)
Lemma turned_on_wf rep i bm :
  Rep_wf rep -> can_turn_on rep i -> i < bitmap_capacity rep * 8 ->
  set_bit (bitmap rep) i = Some bm ->
  Rep_wf (MkRep (zeroth_server rep) (Z.max (radix rep) (radix_of i)) bm).
Proof.
  intros Hwf [Hi Hr] Hc Eb.
  destruct (set_bit_spec (bitmap rep) i) as (bm' & E & Hb & Hl & Hbits);
    [by destruct Hwf | unfold bitmap_capacity in *; lia |].
  rewrite E in Eb. injection Eb as ->.
  pose proof (wf_radix _ Hwf) as Hrad. change kMaxRadix with 16 in Hrad.
  pose proof (radix_of_16 i Hi).
  destruct (wf_cap _ Hwf) as (k & Hk & Ek).
  split; cbn; try by destruct Hwf.
  - change kMaxRadix with 16. lia.
  - exists k. split; [done |]. unfold bitmap_capacity, slice_size in *. cbn. by rewrite Hl.
  - unfold bitmap_size, bitmap_capacity, slice_size in *. cbn. rewrite Hl.
    apply (bitmap_size_fits rep i); unfold bitmap_capacity, slice_size;
      [lia | by destruct Hwf | lia | exists k; split; [lia | done] | lia | done].
  - rewrite Hbits by done. destruct Hwf as [????? Hroot ??]. rewrite Hroot. apply orb_true_r.
  - intros j Hj. rewrite Hbits by done. intros [->%Z.eqb_eq | Ej]%orb_true_iff; [lia |].
    pose proof (wf_bits _ Hwf j Hj Ej). lia.
  - destruct (Z.max_spec (radix rep) (radix_of i)) as [[_ ->] | [_ ->]].
    + exists i. rewrite Hbits, Z.eqb_refl by lia. split_and!; [lia | done | done].
    + destruct (wf_top _ Hwf) as (j & Hj & Ej & <-). exists j.
      rewrite Hbits, Ej by done. split_and!; [done | apply orb_true_r | done].
Qed.

Lemma HighestBit_wf ndebug rep :
  Rep_wf rep ->
  ∃ h, HighestBit ndebug rep = Some h ∧ 0 <= h < kMaxPartitions ∧
    raw_bit (bitmap rep) h = true ∧
    (∀ i, 0 <= i -> raw_bit (bitmap rep) i = true -> i <= h) ∧ radix_of h = radix rep.
Proof.
  intros Hwf. pose proof (wf_radix _ Hwf) as Hr. change kMaxRadix with 16 in Hr.
  destruct (HighestBit_spec ndebug rep) as (h & E & Hh & Eh & Hmax);
    [done | by destruct Hwf | by destruct Hwf | by destruct Hwf | |].
  { intros i Hi Ei. pose proof (wf_bits _ Hwf i Hi Ei) as Hri.
    apply radix_of_spec in Hri; [| done | lia].
    pose proof (bitmap_size_pow rep ltac:(lia)). lia. }
  exists h. pose proof (wf_bits _ Hwf h Hh Eh) as Hrh.
  assert (h < 2 ^ 16) by (apply radix_of_spec; lia).
  split_and!; [done | lia | done | done | done |].
  destruct (wf_top _ Hwf) as (j & Hj & Ej & Er).
  pose proof (radix_of_mono j h). specialize (Hmax j Hj Ej). lia.
Qed.

(** The assertion that closes [TurnOnBit] and the merges. *)
Lemma radix_assertion (ndebug : bool) rep :
  Rep_wf rep ->
  (if ndebug then Some tt
   else h ← HighestBit ndebug rep; r ← ToRadix ndebug h; assert_ ndebug (radix rep =? r)) = Some tt.
Proof.
  intros Hwf. destruct ndebug; [done |].
  destruct (HighestBit_wf false rep Hwf) as (h & -> & Hh & _ & _ & Er). cbn.
  rewrite ToRadix_spec by done. cbn. by rewrite Er, Z.eqb_refl.
Qed.

Lemma TurnOnBit_spec ndebug rep i :
  Rep_wf rep -> can_turn_on rep i ->
  ∃ rep', TurnOnBit ndebug i rep = Some rep' ∧ Rep_wf rep' ∧
    zeroth_server rep' = zeroth_server rep ∧
    radix rep' = Z.max (radix rep) (radix_of i) ∧
    (∀ j, 0 <= j -> raw_bit (bitmap rep') j = (j =? i) || raw_bit (bitmap rep) j) ∧
    (i < bitmap_capacity rep * 8 -> bitmap_capacity rep' = bitmap_capacity rep).
Proof.
  intros Hwf Hcan. destruct (grown_wf rep i Hwf Hcan) as [Hgw Hgi].
  destruct (grown_fields rep i) as (Ez & Er & Eb).
  assert (can_turn_on (grown rep i) i) as Hgcan by (unfold can_turn_on; by rewrite Er).
  destruct (set_bit_spec (bitmap (grown rep i)) i) as (bm & Es & _ & Hl & Hbits);
    [by destruct Hgw | destruct Hcan; unfold bitmap_capacity in *; lia |].
  pose proof (turned_on_wf _ _ _ Hgw Hgcan Hgi Es) as Hwf'.
  destruct Hcan as [Hi Hr]. unfold TurnOnBit.
  rewrite (assert_bool ndebug (i <? kMaxPartitions)) by (apply Z.ltb_lt; lia). cbn [mbind option_bind].
  assert ((if bitmap_capacity rep * 8 <=? i then
             assert_ ndebug (i <? 2 * bitmap_capacity rep * 8);; ScaleUp ndebug 2 rep
           else Some rep) = Some (grown rep i)) as ->.
  { unfold grown in *. destruct (Z.leb_spec (bitmap_capacity rep * 8) i); [| done].
    destruct (wf_cap _ Hgw) as (k & Hk & Ek). revert Hgi Ek. unfold bitmap_capacity, slice_size.
    cbn [bitmap]. rewrite length_app, length_replicate. intros Hgi Ek.
    assert (2 ^ k <= 2 ^ 9) by (apply Z.pow_le_mono_r; lia). change (2 ^ 9) with 512 in *.
    rewrite assert_bool by (apply Z.ltb_lt; lia). cbn [mbind option_bind].
    rewrite ScaleUp_2; unfold bitmap_capacity, slice_size; [done | lia]. }
  cbn [mbind option_bind]. rewrite ToRadix_spec by done. cbn [mbind option_bind].
  assert ((if radix (grown rep i) <? radix_of i then
             assert_ ndebug (radix (grown rep i) =? radix_of i - 1);;
             Some (SetRadix (radix_of i) (grown rep i))
           else Some (grown rep i))
    = Some (MkRep (zeroth_server (grown rep i)) (Z.max (radix (grown rep i)) (radix_of i))
              (bitmap (grown rep i)))) as ->.
  { destruct (Z.ltb_spec (radix (grown rep i)) (radix_of i)) as [Hlt |].
    - rewrite assert_bool by (apply Z.eqb_eq; lia). cbn [mbind option_bind]. unfold SetRadix.
      pose proof (radix_of_16 i Hi).
      unfold u16. rewrite wrap_small
        by (pose proof (radix_of_nonneg i); split; [lia |]; change (2 ^ 16) with 65536; lia).
      do 2 f_equal. lia.
    - rewrite Z.max_l by lia. by destruct (grown rep i). }
  cbn [mbind option_bind bitmap zeroth_server radix].
  unfold bitmap_capacity at 1. cbn [bitmap].
  rewrite assert_bool by (apply Z.ltb_lt, Z.div_lt_upper_bound; unfold bitmap_capacity in *; lia).
  cbn [mbind option_bind]. rewrite Es. cbn [mbind option_bind].
  pose proof (radix_assertion ndebug _ Hwf') as Ha. cbn [radix] in Ha.
  rewrite Ha. cbn [mbind option_bind]. eexists. split; [done |]. split; [done |]. cbn. rewrite Ez, Er.
  split_and!; [done | done | |].
  - intros j Hj. by rewrite Hbits, Eb.
  - intros Hc. unfold bitmap_capacity, slice_size in *. cbn. rewrite Hl. unfold grown.
    destruct (Z.leb_spec (bitmap_capacity rep * 8) i); [unfold bitmap_capacity, slice_size in *; lia | done].
Qed.

(** ** Fresh indices and [SetAll] *)
Lemma NewRep_eq (ndebug : bool) z :
  NewRep ndebug z = Some (MkRep (u16 z) 0 (1 :: replicate 15 0)).
Proof. destruct ndebug; reflexivity. Qed.

Lemma fresh_bits i : 0 <= i -> raw_bit (1 :: replicate 15 0) i = (i =? 0).
Proof.
  intros Hi. rewrite (raw_bit_app_zeros [1] 15) by done. rewrite raw_bit_testbit.
  destruct (Z.eqb_spec i 0) as [-> |]; [done |].
  destruct (Z.lt_ge_cases i 8).
  - rewrite Z.div_small, Z.mod_small by lia. change (Z.to_nat 0) with 0%nat. cbn [lookup list_lookup].
    apply (Z.pow2_bits_false 0 i). lia.
  - assert (1 <= i / 8) by (apply Z.div_le_lower_bound; lia).
    destruct (Z.to_nat (i / 8)) as [| k] eqn:E; [lia |]. by rewrite lookup_cons, lookup_nil.
Qed.

Lemma NewRep_wf z : Rep_wf (MkRep (u16 z) 0 (1 :: replicate 15 0)).
Proof.
  split; cbn [zeroth_server radix bitmap].
  - by apply wrap_word.
  - change kMaxRadix with 16. lia.
  - repeat constructor; cbn; lia.
  - exists 0. split; [lia | done].
  - done.
  - done.
  - intros i Hi Ei. rewrite fresh_bits in Ei by done. apply Z.eqb_eq in Ei as ->. done.
  - exists 0. rewrite fresh_bits by done. done.
Qed.

(** One more partition than [0 .. i-1] fits the radix. *)
Lemma can_turn_on_next rep i :
  Rep_wf rep -> 0 <= i < kMaxPartitions ->
  (∀ j, 0 <= j -> raw_bit (bitmap rep) j = (j <? i) || (j =? 0)) -> can_turn_on rep i.
Proof.
  intros Hwf Hi Hb. split; [done |]. pose proof (wf_radix _ Hwf).
  apply radix_of_spec; [lia | lia |].
  destruct (decide (i = 0)) as [-> |]; [apply Z.pow_pos_nonneg; lia |].
  assert (radix_of (i - 1) <= radix rep) as Hr.
  { apply wf_bits; [done | lia |]. rewrite Hb by lia.
    by rewrite (proj2 (Z.ltb_lt (i - 1) i)) by lia. }
  apply radix_of_spec in Hr; [| lia | lia].
  rewrite Z.pow_add_r by lia. change (2 ^ 1) with 2.
  pose proof (Z.pow_pos_nonneg 2 (radix rep) ltac:(lia) ltac:(lia)). lia.
Qed.

Lemma SetAll_loop_spec (ndebug : bool) n i rep :
  Rep_wf rep -> 0 <= i -> i + Z.of_nat n <= kMaxPartitions ->
  (∀ j, 0 <= j -> raw_bit (bitmap rep) j = (j <? i) || (j =? 0)) ->
  ∃ rep', SetAll_loop ndebug n i rep = Some rep' ∧ Rep_wf rep' ∧
    zeroth_server rep' = zeroth_server rep ∧
    ∀ j, 0 <= j -> raw_bit (bitmap rep') j = (j <? i + Z.of_nat n) || (j =? 0).
Proof.
  revert i rep. induction n as [| n IH]; intros i rep Hwf Hi Hn Hb; cbn [SetAll_loop].
  { exists rep. split_and!; try done. intros j Hj. by rewrite Hb, Z.add_0_r. }
  destruct (TurnOnBit_spec ndebug rep i Hwf) as (rep' & -> & Hwf' & Hz & _ & Hb' & _).
  { apply can_turn_on_next; [done | lia | done]. }
  cbn [mbind option_bind].
  destruct (IH (i + 1) rep') as (rep'' & -> & Hwf'' & Hz' & Hb''); [done | lia | lia | |].
  { intros j Hj. rewrite Hb', Hb by done.
    destruct (Z.eqb_spec j i), (Z.ltb_spec j i), (Z.ltb_spec j (i + 1)); try lia; done. }
  exists rep''. split_and!; [done | done | congruence |].
  intros j Hj. rewrite Hb'' by done. do 2 f_equal. lia.
Qed.

Lemma ScaleToSize_factor_spec fuel cur capacity factor :
  0 < cur -> 0 < factor -> capacity <= cur * 2 ^ Z.of_nat fuel ->
  ∃ m, 0 <= m ∧ ScaleToSize_factor fuel cur capacity factor = factor * 2 ^ m ∧
    capacity <= cur * 2 ^ m ∧ (m = 0 ∨ cur * 2 ^ (m - 1) < capacity).
Proof.
  revert cur factor. induction fuel as [| fuel IH]; intros cur factor Hc Hf Hle; cbn [ScaleToSize_factor].
  { exists 0. cbn in *. split_and!; lia. }
  destruct (Z.ltb_spec cur capacity) as [Hlt |].
  2: { exists 0. cbn. split_and!; lia. }
  rewrite !Z.shiftl_mul_pow2 by lia. change (2 ^ 1) with 2.
  destruct (IH (cur * 2) (factor * 2)) as (m & Hm & -> & Hle' & Hmin); [lia | lia | |].
  { rewrite Nat2Z.inj_succ, Z.pow_succ_r in Hle by lia. lia. }
  exists (m + 1). rewrite Z.pow_add_r by lia. change (2 ^ 1) with 2.
  split_and!; [lia | lia | lia | right].
  destruct Hmin as [-> | Hmin]; [cbn in *; lia |].
  replace (m + 1 - 1) with (m - 1 + 1) by lia. destruct (decide (m = 0)) as [-> |]; [cbn in *; lia |].
  rewrite Z.pow_add_r by lia. lia.
Qed.

(** Reserving room keeps the partitions, within the 8192 bytes of the largest bitmap. *)
Lemma ScaleToSize_spec (ndebug : bool) capacity rep :
  Rep_wf rep -> capacity <= 8192 ->
  ∃ rep', ScaleToSize ndebug capacity rep = Some rep' ∧ Rep_wf rep' ∧
    zeroth_server rep' = zeroth_server rep ∧ radix rep' = radix rep ∧
    capacity <= bitmap_capacity rep' ∧
    ∀ j, 0 <= j -> raw_bit (bitmap rep') j = raw_bit (bitmap rep) j.
Proof.
  intros Hwf Hc. destruct (wf_cap _ Hwf) as (k & Hk & Ek). pose proof (Z.pow_pos_nonneg 2 k).
  unfold ScaleToSize.
  destruct (ScaleToSize_factor_spec 32 (bitmap_capacity rep) capacity 1)
    as (m & Hm & -> & Hle & Hmin); [lia | lia | change (2 ^ Z.of_nat 32) with 4294967296; lia |].
  rewrite Z.mul_1_l. unfold ScaleUp. destruct (Z.ltb_spec 1 (2 ^ m)) as [Hlt |].
  2: { exists rep. split_and!; try done. pose proof (Z.pow_pos_nonneg 2 m).
       replace (2 ^ m) with 1 in Hle by lia. lia. }
  assert (k + m <= 9) as Hkm.
  { destruct Hmin as [-> | Hmin]; [cbn in Hlt; lia |].
    destruct (decide (m = 0)) as [-> |]; [cbn in Hlt; lia |].
    rewrite Ek, <- Z.mul_assoc, <- Z.pow_add_r in Hmin by lia.
    assert (k + (m - 1) < 9); [| lia].
    apply (Z.pow_lt_mono_r_iff 2); [lia | lia |]. change (2 ^ 9) with 512. lia. }
  assert (bitmap_capacity rep * 2 ^ m = 16 * 2 ^ (k + m)) as Ecap
    by (rewrite Ek, Z.pow_add_r by lia; lia).
  assert (2 ^ (k + m) <= 2 ^ 9) by (apply Z.pow_le_mono_r; lia). change (2 ^ 9) with 512 in *.
  rewrite assert_bool by (apply Z.leb_le; change (kMaxPartitions / 8) with 8192; lia).
  cbn [mbind option_bind]. eexists. split; [done |]. cbn [zeroth_server bitmap].
  assert (∀ z r, bitmap_capacity (MkRep z r (bitmap rep ++
    replicate (Z.to_nat (bitmap_capacity rep * 2 ^ m - bitmap_capacity rep)) 0))
    = bitmap_capacity rep * 2 ^ m) as Enew.
  { intros. unfold bitmap_capacity, slice_size in *. cbn. rewrite length_app, length_replicate.
    pose proof (Z.pow_pos_nonneg 2 m). nia. }
  split; [| split_and!; [done | done | by rewrite Enew | intros; by apply raw_bit_app_zeros]].
  destruct Hwf. split; cbn [zeroth_server radix bitmap]; try done.
  - apply Forall_app_2; [done |]. apply Forall_replicate. split; cbn; lia.
  - exists (k + m). rewrite Enew. split; [lia | done].
  - rewrite Enew. unfold bitmap_size in *. cbn [radix]. nia.
  - by rewrite raw_bit_app_zeros.
  - intros j Hj. rewrite raw_bit_app_zeros by done. auto.
  - destruct wf_top0 as (j & Hj & Ej & ?). exists j. by rewrite raw_bit_app_zeros.
Qed.

(** The index of a directory after [SetAll]: every virtual server has its partition. *)
Definition full_index (n : Z) (rep : Rep) : Prop :=
  Rep_wf rep /\ ∀ j, 0 <= j -> raw_bit (bitmap rep) j = (j <? n) || (j =? 0).

Lemma SetAll_full (ndebug : bool) options z :
  1 <= num_virtual_servers options <= 8192 ->
  ∃ rep0 rep, NewRep ndebug z = Some rep0 ∧ SetAll ndebug options rep0 = Some rep ∧
    full_index (num_virtual_servers options) rep ∧ zeroth_server rep = u16 z.
Proof.
  intros Hn. rewrite NewRep_eq. eexists. unfold SetAll.
  destruct (ScaleToSize_spec ndebug (num_virtual_servers options) _ (NewRep_wf z))
    as (rep1 & -> & Hwf1 & Hz1 & _ & _ & Hb1); [lia |]. cbn [mbind option_bind].
  destruct (SetAll_loop_spec ndebug (Z.to_nat (num_virtual_servers options)) 0 rep1)
    as (rep2 & E2 & Hwf2 & Hz2 & Hb2); [done | lia | rewrite kMaxPartitions_eq; lia | |].
  { intros j Hj. rewrite Hb1 by done. cbn [bitmap]. rewrite fresh_bits by done.
    by rewrite (proj2 (Z.ltb_ge j 0)) by lia. }
  exists rep2. split_and!; [done | done | split; [done |] | by rewrite Hz2, Hz1].
  intros j Hj. rewrite Hb2 by done. do 2 f_equal. lia.
Qed.

(** * GIGA+ directory index: routing of names to partitions and servers

    [responsible bm h p] is the specification of the lookup: [p] is the deepest
    existing partition on the path of the hash value [h], the path being the
    partitions [h mod 2^k].  [HashToIndex] computes it, and a split moves exactly
    the names selected by [ToBeMigrated]. *)

(** The first two bytes of a hash, bit-reversed: the index at the largest radix. *)
Definition hash_value (hash : Slice) : Z :=
  match hash with h0 :: h1 :: _ => Reverse h0 + Reverse h1 * 256 | _ => 0 end.

Lemma Reverse_byte b : 0 <= Reverse b < 256.
Proof. apply (wrap_word 8). lia. Qed.

Lemma hash_value_word hash : 0 <= hash_value hash < 2 ^ 16.
Proof.
  unfold hash_value. destruct hash as [| h0 [| h1 ?]]; try (cbn; lia).
  pose proof (Reverse_byte h0). pose proof (Reverse_byte h1). change (2 ^ 16) with 65536. lia.
Qed.

(** [Reverse] is the reversal of the eight bits of a byte. *)
Lemma Reverse_bits b i : word 8 b -> 0 <= i < 8 -> Z.testbit (Reverse b) i = Z.testbit b (7 - i).
Proof.
  intros Hb Hi.
  assert (forallb (λ n : nat, forallb (λ k : nat,
    Bool.eqb (Z.testbit (Reverse (Z.of_nat n)) (Z.of_nat k)) (Z.testbit (Z.of_nat n) (7 - Z.of_nat k)))
    (seq 0 8)) (seq 0 256) = true) as H by (vm_compute; reflexivity).
  rewrite forallb_forall in H. destruct Hb as [Hb0 Hb1]. change (2 ^ 8) with 256 in Hb1.
  specialize (H (Z.to_nat b)). rewrite forallb_forall in H.
  specialize (H ltac:(apply in_seq; lia) (Z.to_nat i) ltac:(apply in_seq; lia)).
  apply Bool.eqb_prop in H. by rewrite !Z2Nat.id in H by lia.
Qed.

(** The index computed from a hash is its value cut to [n] bits. *)
Lemma ComputeIndexFromHash_spec ndebug hash n :
  (2 <= length hash)%nat -> 0 <= n <= 16 ->
  ComputeIndexFromHash ndebug hash n = Some (hash_value hash mod 2 ^ n).
Proof.
  intros Hl Hn. destruct hash as [| h0 [| h1 hash]]; [cbn in Hl; lia | cbn in Hl; lia |].
  pose proof (hash_value_word (h0 :: h1 :: hash)) as Hw. cbn [hash_value] in *.
  pose proof (Reverse_byte h0). pose proof (Reverse_byte h1).
  assert (0 <= (Reverse h0 + Reverse h1 * 256) mod 2 ^ n < kMaxPartitions) as Hres.
  { rewrite kMaxPartitions_eq. pose proof (Z.mod_pos_bound (Reverse h0 + Reverse h1 * 256) (2 ^ n)).
    pose proof (Z.pow_pos_nonneg 2 n). pose proof (Z.pow_le_mono_r 2 n 16). lia. }
  unfold ComputeIndexFromHash.
  rewrite (assert_bool ndebug (0 <=? n)) by (apply Z.leb_le; lia). cbn [mbind option_bind].
  rewrite (assert_bool ndebug (n <=? kMaxRadix)) by (apply Z.leb_le; change kMaxRadix with 16; lia).
  cbn [mbind option_bind].
  assert (∀ x, x = (Reverse h0 + Reverse h1 * 256) mod 2 ^ n ->
    (assert_ ndebug ((0 <=? x) && (x <? kMaxPartitions));; Some x)
    = Some ((Reverse h0 + Reverse h1 * 256) mod 2 ^ n)) as Hfin.
  { intros x ->. rewrite assert_bool; [done |]. apply andb_true_iff.
    split; [apply Z.leb_le | apply Z.ltb_lt]; lia. }
  assert (n < 8 ∧ n / 8 = 0 ∧ n mod 8 = n ∨ 8 <= n < 16 ∧ n / 8 = 1 ∧ n mod 8 = n - 8 ∨ n = 16)
    as [(Hn8 & E1 & E2) | [(Hn8 & E1 & E2) | ->]]
    by (Z.to_euclidean_division_equations; lia).
  - rewrite E1, E2. change (Z.to_nat 0) with 0%nat. cbn [ComputeIndex_bytes mbind option_bind].
    destruct (Z.ltb_spec 0 n) as [Hp |].
    + cbn [head mbind option_bind]. apply Hfin. cbn [Z.mul]. rewrite Z.shiftl_0_r, Z.shiftl_1_l.
      rewrite Z.sub_1_r, <- Z.ones_equiv, Z.land_ones, Z.add_0_l by lia.
      replace (Reverse h0 + Reverse h1 * 256) with (Reverse h0 + Reverse h1 * 2 ^ (8 - n) * 2 ^ n)
        by (rewrite <- Z.mul_assoc, <- Z.pow_add_r by lia; by replace (8 - n + n) with 8 by lia).
      by rewrite Z.mod_add by (pose proof (Z.pow_pos_nonneg 2 n ltac:(lia) ltac:(lia)); lia).
    + cbn [mbind option_bind]. apply Hfin. replace n with 0 by lia. by rewrite Z.mod_1_r.
  - rewrite E1, E2. change (Z.to_nat 1) with 1%nat. cbn [ComputeIndex_bytes mbind option_bind].
    change (0 * 8) with 0. change (1 * 8) with 8. rewrite Z.shiftl_0_r, Z.add_0_l.
    assert ((Reverse h0 + Reverse h1 * 256) mod 2 ^ n
      = Reverse h0 + Reverse h1 mod 2 ^ (n - 8) * 256) as Em.
    { pose proof (Z.pow_pos_nonneg 2 (n - 8) ltac:(lia) ltac:(lia)).
      replace (2 ^ n) with (256 * 2 ^ (n - 8)) by (change 256 with (2 ^ 8); rewrite <- Z.pow_add_r by lia; f_equal; lia).
      symmetry. apply Z.mod_unique with (q := Reverse h1 / 2 ^ (n - 8)).
      - left. pose proof (Z.mod_pos_bound (Reverse h1) (2 ^ (n - 8)) ltac:(lia)). nia.
      - rewrite (Z.div_mod (Reverse h1) (2 ^ (n - 8))) at 1 by lia. ring. }
    destruct (Z.ltb_spec 0 (n - 8)) as [Hp |].
    + cbn [head mbind option_bind]. apply Hfin. rewrite Em, Z.shiftl_1_l.
      by rewrite Z.sub_1_r, <- Z.ones_equiv, Z.land_ones, Z.shiftl_mul_pow2 by lia.
    + cbn [mbind option_bind]. apply Hfin. rewrite Em.
      replace (n - 8) with 0 by lia. rewrite Z.mod_1_r. lia.
  - change (16 / 8) with 2. change (16 mod 8) with 0. change (Z.to_nat 2) with 2%nat.
    cbn [ComputeIndex_bytes mbind option_bind]. change (0 <? 0) with false.
    cbn [mbind option_bind]. apply Hfin.
    change (0 * 8) with 0. change ((0 + 1) * 8) with 8.
    rewrite Z.shiftl_0_r, Z.shiftl_mul_pow2, Z.mod_small by lia. done.
Qed.

(** ** The responsible partition *)
Definition responsible (bm : list Z) (h p : Z) : Prop :=
  raw_bit bm p = true /\
  ∃ k, 0 <= k <= 16 /\ p = h mod 2 ^ k /\
    ∀ k', k <= k' <= 16 -> raw_bit bm (h mod 2 ^ k') = true -> h mod 2 ^ k' = p.

Lemma responsible_unique bm h p q : responsible bm h p -> responsible bm h q -> p = q.
Proof.
  intros (Hp & k & Hk & Ep & Hkp) (Hq & l & Hl & Eq & Hlq).
  destruct (Z.le_ge_cases k l).
  - rewrite Eq. symmetry. apply Hkp; [lia | by rewrite <- Eq].
  - rewrite Ep. apply Hlq; [lia | by rewrite <- Ep].
Qed.

Lemma mod_pow2_mod h k l : 0 <= k <= l -> (h mod 2 ^ l) mod 2 ^ k = h mod 2 ^ k.
Proof.
  intros. replace (2 ^ l) with (2 ^ k * 2 ^ (l - k))
    by (rewrite <- Z.pow_add_r by lia; f_equal; lia).
  pose proof (Z.pow_pos_nonneg 2 k). pose proof (Z.pow_pos_nonneg 2 (l - k)).
  rewrite Z.rem_mul_r, Z.mul_comm, Z.mod_add, Z.mod_mod by lia. done.
Qed.

Lemma log2_parent i : 0 < i -> i - Z.shiftl 1 (Z.log2 i) = i mod 2 ^ Z.log2 i.
Proof.
  intros Hi. rewrite Z.shiftl_1_l. pose proof (Z.log2_spec i Hi) as [? Hs].
  rewrite Z.pow_succ_r in Hs by apply Z.log2_nonneg.
  apply Z.mod_unique with (q := 1); lia.
Qed.

(** Partitions between an index and its radix are the index itself. *)
Lemma mod_above_log2 h m k :
  0 <= m -> 0 < h mod 2 ^ m -> Z.log2 (h mod 2 ^ m) < k <= m -> h mod 2 ^ k = h mod 2 ^ m.
Proof.
  intros Hm Hi Hk. pose proof (Z.log2_nonneg (h mod 2 ^ m)).
  rewrite <- (mod_pow2_mod h k m) by lia. apply Z.mod_small. split; [lia |].
  apply Z.log2_lt_pow2; lia.
Qed.

(** The climb from [h mod 2^m] ends at the deepest existing partition below [2^m];
    [m + 1] steps are enough. *)
Lemma HashToIndex_loop_spec ndebug rep h fuel m :
  Rep_wf rep -> 0 <= m <= 16 -> m < Z.of_nat fuel ->
  (∀ k, m < k <= 16 -> raw_bit (bitmap rep) (h mod 2 ^ k) = true -> h mod 2 ^ k = h mod 2 ^ m) ->
  ∃ p, HashToIndex_loop ndebug fuel rep (h mod 2 ^ m) = Some p ∧ responsible (bitmap rep) h p.
Proof.
  intros Hwf. revert m. induction fuel as [| fuel IH]; intros m Hm Hf Hdeep; [lia |].
  cbn [HashToIndex_loop]. pose proof (Z.pow_pos_nonneg 2 m ltac:(lia) ltac:(lia)).
  pose proof (Z.mod_pos_bound h (2 ^ m) ltac:(lia)). pose proof (Z.pow_le_mono_r 2 m 16).
  assert (0 <= h mod 2 ^ m < kMaxPartitions) as Hi by (rewrite kMaxPartitions_eq; lia).
  rewrite Rep_bit_wf by done. cbn [mbind option_bind].
  destruct (raw_bit (bitmap rep) (h mod 2 ^ m)) eqn:E; cbn [negb].
  { exists (h mod 2 ^ m). split; [done |]. split; [done |]. exists m. split; [lia |].
    split; [done |]. intros k' Hk' Ek'. destruct (decide (k' = m)) as [-> |]; [done |].
    apply Hdeep; [lia | done]. }
  assert (h mod 2 ^ m <> 0) as Hne.
  { intros E0. rewrite E0, (wf_root _ Hwf) in E. done. }
  unfold ToParentIndex. rewrite assert_bool
    by (apply andb_true_iff; split; [apply Z.leb_le | apply Z.ltb_lt]; lia).
  cbn [mbind option_bind]. destruct (Z.eqb_spec (h mod 2 ^ m) 0); [done |].
  unfold ToLog2. rewrite log2_parent by lia.
  assert (Z.log2 (h mod 2 ^ m) < m).
  { apply Z.log2_lt_pow2; lia. }
  pose proof (Z.log2_nonneg (h mod 2 ^ m)).
  rewrite mod_pow2_mod by lia. apply IH; [lia | lia |].
  intros k Hk Ek. exfalso.
  destruct (Z.le_gt_cases k m) as [Hle |].
  - rewrite (mod_above_log2 h m k) in Ek by lia. congruence.
  - rewrite (Hdeep k) in Ek by (lia || done). congruence.
Qed.

(** Beyond the radix the path only has the partitions seen at the radix. *)
Lemma radix_deepest rep h k :
  Rep_wf rep -> radix rep < k <= 16 ->
  raw_bit (bitmap rep) (h mod 2 ^ k) = true -> h mod 2 ^ k = h mod 2 ^ radix rep.
Proof.
  intros Hwf Hk E. pose proof (wf_radix _ Hwf).
  pose proof (Z.pow_pos_nonneg 2 k ltac:(lia) ltac:(lia)).
  pose proof (Z.mod_pos_bound h (2 ^ k) ltac:(lia)).
  apply wf_bits in E; [| done | lia]. apply radix_of_spec in E; [| lia | lia].
  rewrite <- (mod_pow2_mod h (radix rep) k) by lia. symmetry. apply Z.mod_small. lia.
Qed.

(** What the debug assertion of [HashToIndex] asks of the virtual servers. *)
Definition index_in_range (options : DirIndexOptions) (rep : Rep) (hash : Slice) : Prop :=
  hash_value hash mod 2 ^ radix rep < num_virtual_servers options.

Lemma HashToIndex_responsible ndebug options rep hash :
  Rep_wf rep -> (2 <= length hash)%nat ->
  ndebug = true \/ index_in_range options rep hash ->
  ∃ p, HashToIndex ndebug options rep hash = Some p ∧ responsible (bitmap rep) (hash_value hash) p.
Proof.
  intros Hwf Hl Hr. pose proof (wf_radix _ Hwf) as Hrad. change kMaxRadix with 16 in Hrad.
  unfold HashToIndex. rewrite Rep_bit_wf by (done || (rewrite kMaxPartitions_eq; lia)).
  cbn [mbind option_bind]. rewrite (wf_root _ Hwf), assert_true. cbn [mbind option_bind].
  rewrite ComputeIndexFromHash_spec by lia. cbn [mbind option_bind].
  assert (assert_ ndebug (hash_value hash mod 2 ^ radix rep <? num_virtual_servers options)
    = Some tt) as ->.
  { destruct Hr as [-> | Hr]; [done |]. apply assert_bool, Z.ltb_lt. exact Hr. }
  cbn [mbind option_bind].
  apply HashToIndex_loop_spec; [done | lia | lia |].
  intros k Hk. by apply radix_deepest.
Qed.

Lemma length_GIGAHash b : length (GIGAHash b) = 8%nat.
Proof. done. Qed.

(** ** Splitting a partition *)
Lemma radix_of_child p r : 0 <= p < 2 ^ r -> 0 <= r -> radix_of (p + 2 ^ r) = r + 1.
Proof.
  intros Hp Hr. unfold radix_of. pose proof (Z.pow_pos_nonneg 2 r ltac:(lia) Hr).
  destruct (Z.eqb_spec (p + 2 ^ r) 0); [lia |].
  rewrite (Z.log2_unique (p + 2 ^ r) r); [lia | lia |]. rewrite Z.pow_succ_r by lia. lia.
Qed.

(** [r] is the first free child slot of [p] at or after [r0]. *)
Definition first_free (bm : list Z) (p r0 r : Z) : Prop :=
  r0 <= r < 16 /\ raw_bit bm (p + 2 ^ r) = false /\
  ∀ k, r0 <= k < r -> raw_bit bm (p + 2 ^ k) = true.

Lemma child_range p r : 0 <= p -> radix_of p <= r < 16 ->
  0 <= p < 2 ^ r /\ p < kMaxPartitions / 2 /\ 0 <= p + 2 ^ r < kMaxPartitions.
Proof.
  intros Hp Hr. pose proof (radix_of_nonneg p).
  assert (p < 2 ^ r) by (apply radix_of_spec; lia).
  assert (2 ^ r <= 2 ^ 15) by (apply Z.pow_le_mono_r; lia).
  change (kMaxPartitions / 2) with (2 ^ 15). change kMaxPartitions with (2 ^ 15 + 2 ^ 15).
  pose proof (Z.pow_pos_nonneg 2 r). lia.
Qed.

Lemma ToChildIndex_spec ndebug p r :
  0 <= p -> radix_of p <= r < 16 -> ToChildIndex ndebug p r = Some (p + 2 ^ r).
Proof.
  intros Hp Hr. destruct (child_range p r) as (H1 & H2 & H3); [done | done |].
  pose proof (radix_of_nonneg p). unfold ToChildIndex.
  rewrite (assert_bool ndebug ((0 <=? p) && (p <? kMaxPartitions / 2)))
    by (apply andb_true_iff; split; [apply Z.leb_le | apply Z.ltb_lt]; lia).
  cbn [mbind option_bind].
  rewrite assert_bool by (apply andb_true_iff; change kMaxRadix with 16;
    split; [apply Z.leb_le | apply Z.ltb_lt]; lia).
  cbn [mbind option_bind]. by rewrite Z.shiftl_1_l.
Qed.

Lemma IsSplittable_loop_spec (ndebug : bool) options rep p fuel r :
  Rep_wf rep -> 0 <= p -> radix_of p <= r -> 16 < r + Z.of_nat fuel ->
  ∃ b, IsSplittable_loop ndebug fuel options rep p r = Some b ∧
    (b = true -> ∃ r', first_free (bitmap rep) p r r' ∧ p + 2 ^ r' < num_virtual_servers options).
Proof.
  intros Hwf Hp. revert r. induction fuel as [| fuel IH]; intros r Hr Hf; cbn [IsSplittable_loop].
  { by exists false. }
  change kMaxRadix with 16. destruct (Z.ltb_spec r 16) as [Hlt |]; [| by exists false].
  destruct (child_range p r) as (H1 & H2 & H3); [done | lia |].
  rewrite ToChildIndex_spec by lia. cbn [mbind option_bind].
  rewrite Rep_bit_wf by done. cbn [mbind option_bind].
  destruct (raw_bit (bitmap rep) (p + 2 ^ r)) eqn:E; cbn [negb].
  - pose proof (radix_of_nonneg p).
    assert ((if ndebug then Some tt
             else ToRadix ndebug (p + 2 ^ r) ≫= λ r', assert_ ndebug (r + 1 =? r')) = Some tt) as Ha.
    { destruct ndebug; [done |]. rewrite ToRadix_spec by done. cbn [mbind option_bind].
      by rewrite radix_of_child, Z.eqb_refl by lia. }
    cbn [mbind option_bind] in Ha. rewrite Ha. cbn [mbind option_bind].
    destruct (IH (r + 1)) as (b & -> & Hb); [lia | lia |]. exists b. split; [done |].
    intros Eb. destruct (Hb Eb) as (r' & (Hr' & Hfree & Hset) & Hn). exists r'. split; [| done].
    split; [lia |]. split; [done |]. intros k Hk.
    destruct (decide (k = r)) as [-> |]; [done | apply Hset; lia].
  - eexists. split; [done |]. intros Hn%Z.ltb_lt. exists r. split; [| done].
    split; [lia |]. split; [done |]. lia.
Qed.

Lemma NewIndex_loop_spec (ndebug : bool) rep p r0 r fuel i :
  Rep_wf rep -> 0 <= p -> radix_of p <= r0 -> first_free (bitmap rep) p r0 r ->
  0 <= i < kMaxPartitions -> raw_bit (bitmap rep) i = true -> r - r0 + 1 <= Z.of_nat fuel ->
  NewIndex_loop ndebug fuel rep p i r0 = Some (p + 2 ^ r).
Proof.
  intros Hwf Hp. revert r0 i. induction fuel as [| fuel IH];
    intros r0 i Hr0 (Hr & Hfree & Hset) Hi Ei Hf; [lia |].
  cbn [NewIndex_loop]. rewrite Rep_bit_wf by done. cbn [mbind option_bind]. rewrite Ei.
  rewrite ToChildIndex_spec by lia. cbn [mbind option_bind].
  destruct (child_range p r0) as (H1 & H2 & H3); [done | lia |].
  destruct (decide (r0 = r)) as [-> |].
  - destruct fuel; cbn [NewIndex_loop]; rewrite Rep_bit_wf by done; cbn [mbind option_bind];
      by rewrite Hfree.
  - apply IH; [lia | | done | apply Hset; lia | lia].
    split; [lia |]. split; [done |]. intros k Hk. apply Hset. lia.
Qed.

(** A partition that can be split has a free child, within the radix step the index allows. *)
Lemma splittable_child (ndebug : bool) options rep p :
  Rep_wf rep -> 0 <= p < kMaxPartitions -> num_virtual_servers options <= kMaxPartitions ->
  IsSplittable ndebug options rep p = Some true ->
  ∃ r, NewIndexForSplitting ndebug options rep p = Some (p + 2 ^ r) ∧
    0 <= r < 16 ∧ p < 2 ^ r ∧ raw_bit (bitmap rep) p = true ∧
    raw_bit (bitmap rep) (p + 2 ^ r) = false ∧ can_turn_on rep (p + 2 ^ r) ∧
    p + 2 ^ r < num_virtual_servers options ∧
    ∀ k, radix_of p <= k < r -> raw_bit (bitmap rep) (p + 2 ^ k) = true.
Proof.
  intros Hwf Hp Hn Hs. pose proof (radix_of_nonneg p). pose proof Hs as Hs0.
  unfold IsSplittable in Hs. rewrite Rep_bit_wf in Hs by done. cbn [mbind option_bind] in Hs.
  destruct (raw_bit (bitmap rep) p) eqn:Ep; cbn [negb] in Hs; [| done].
  rewrite ToRadix_spec in Hs by done. cbn [mbind option_bind] in Hs.
  destruct (IsSplittable_loop_spec ndebug options rep p 17 (radix_of p)) as (b & Eb & Hb);
    [done | lia | lia | lia |].
  rewrite Eb in Hs. injection Hs as ->. destruct (Hb eq_refl) as (r & Hfr & Hrn).
  destruct Hfr as (Hr & Hfree & Hset). exists r.
  destruct (child_range p r) as (H1 & H2 & H3); [lia | lia |].
  split_and!; try done; try lia.
  - unfold NewIndexForSplitting. rewrite Hs0. cbn [mbind option_bind].
    assert ((if ndebug then Some tt else assert_ ndebug true) = Some tt) as ->
      by (destruct ndebug; done).
    cbn [mbind option_bind]. rewrite ToRadix_spec by done. cbn [mbind option_bind].
    rewrite (NewIndex_loop_spec ndebug rep p (radix_of p) r 18 p); try done; try lia.
    cbn [mbind option_bind]. rewrite assert_bool; [done |].
    pose proof (Z.pow_pos_nonneg 2 r). apply andb_true_iff.
    split; [apply negb_true_iff, Z.eqb_neq | apply Z.ltb_lt]; lia.
  - split; [done |]. rewrite radix_of_child by lia.
    pose proof (wf_bits _ Hwf p ltac:(lia) Ep).
    destruct (decide (r = radix_of p)); [lia |].
    destruct (child_range p (r - 1)) as (H4 & H5 & H6); [lia | lia |].
    pose proof (wf_bits _ Hwf (p + 2 ^ (r - 1)) ltac:(lia) (Hset (r - 1) ltac:(lia))) as Hr1.
    rewrite radix_of_child in Hr1 by lia. lia.
Qed.

(** The responsible partition after a child [p + 2^r] of [p] appears. *)
Lemma responsible_split bm bm' h p r q :
  0 <= p < 2 ^ r -> 0 <= r < 16 -> raw_bit bm p = true -> raw_bit bm (p + 2 ^ r) = false ->
  (∀ j, 0 <= j -> raw_bit bm' j = (j =? p + 2 ^ r) || raw_bit bm j) ->
  responsible bm h q ->
  responsible bm' h (if (q =? p) && (h mod 2 ^ (r + 1) =? p + 2 ^ r) then p + 2 ^ r else q).
Proof.
  intros Hp Hr Ep Ec Hb (Eq & k & Hk & Hqk & Hdeep).
  assert (∀ m, 0 <= m -> 0 <= h mod 2 ^ m) as Hpos.
  { intros m Hm. apply Z.mod_pos_bound, Z.pow_pos_nonneg; lia. }
  assert (0 <= q) by (rewrite Hqk; apply Hpos; lia).
  assert (p + 2 ^ r < 2 ^ (r + 1)) by (rewrite Z.pow_add_r by lia; change (2 ^ 1) with 2; lia).
  destruct (Z.eqb_spec q p) as [Eqp | Hqp]; cbn [andb];
    [destruct (Z.eqb_spec (h mod 2 ^ (r + 1)) (p + 2 ^ r)) as [Eh | Hh] |].
  - split; [by rewrite Hb, Z.eqb_refl by lia |]. exists (r + 1). split; [lia |].
    split; [done |]. intros k' Hk' Ek'. rewrite Hb in Ek' by (apply Hpos; lia).
    apply orb_true_iff in Ek' as [?%Z.eqb_eq | Ek']; [done |].
    exfalso. destruct (Z.le_gt_cases k k') as [Hle | Hgt].
    + pose proof (Hdeep k' ltac:(lia) Ek') as Eq'.
      pose proof (mod_pow2_mod h (r + 1) k' ltac:(lia)) as Em. rewrite Eq', Eh in Em.
      rewrite Z.mod_small in Em by lia. pose proof (Z.pow_pos_nonneg 2 r). lia.
    + pose proof (mod_pow2_mod h (r + 1) k ltac:(lia)) as Em.
      rewrite <- Hqk, Eqp, Eh, Z.mod_small in Em by lia. pose proof (Z.pow_pos_nonneg 2 r). lia.
  - split; [rewrite Hb, Eq by lia; apply orb_true_r |]. exists k. split; [done |].
    split; [done |]. intros k' Hk' Ek'. rewrite Hb in Ek' by (apply Hpos; lia).
    apply orb_true_iff in Ek' as [E'%Z.eqb_eq | Ek']; [| by apply Hdeep].
    exfalso. apply Hh. destruct (Z.le_gt_cases (r + 1) k') as [Hle | Hgt].
    + rewrite <- (mod_pow2_mod h (r + 1) k'), E', Z.mod_small by lia. done.
    + pose proof (Z.mod_pos_bound h (2 ^ k')). pose proof (Z.pow_le_mono_r 2 k' r).
      pose proof (Z.pow_pos_nonneg 2 k'). lia.
  - split; [rewrite Hb, Eq by lia; apply orb_true_r |]. exists k. split; [done |].
    split; [done |]. intros k' Hk' Ek'. rewrite Hb in Ek' by (apply Hpos; lia).
    apply orb_true_iff in Ek' as [E'%Z.eqb_eq | Ek']; [| by apply Hdeep]. exfalso.
    assert (r + 1 <= k') as Hrk.
    { destruct (Z.le_gt_cases (r + 1) k'); [done |].
      pose proof (Z.mod_pos_bound h (2 ^ k')). pose proof (Z.pow_le_mono_r 2 k' r).
      pose proof (Z.pow_pos_nonneg 2 k'). lia. }
    destruct (Z.le_gt_cases k r) as [Hle | Hgt].
    + assert (h mod 2 ^ r = p) as Ehr.
      { rewrite <- (mod_pow2_mod h r k'), E' by lia.
        rewrite <- (Z.mul_1_l (2 ^ r)) at 1. by rewrite Z.mod_add, Z.mod_small by lia. }
      apply Hqp. rewrite <- (Hdeep r); [done | lia | by rewrite Ehr].
    + assert (q = p + 2 ^ r); [| congruence].
      rewrite Hqk, <- (mod_pow2_mod h k k'), E' by lia. apply Z.mod_small.
      pose proof (Z.pow_le_mono_r 2 (r + 1) k). lia.
Qed.

Lemma ToBeMigrated_spec ndebug c hash :
  0 <= c < kMaxPartitions -> (2 <= length hash)%nat ->
  ToBeMigrated ndebug c hash = Some (hash_value hash mod 2 ^ radix_of c =? c).
Proof.
  intros Hc Hl. unfold ToBeMigrated. rewrite ToRadix_spec by done. cbn [mbind option_bind].
  pose proof (radix_of_nonneg c). pose proof (radix_of_16 c Hc).
  by rewrite ComputeIndexFromHash_spec by lia.
Qed.

Lemma responsible_range rep h p :
  Rep_wf rep -> responsible (bitmap rep) h p -> 0 <= p < kMaxPartitions.
Proof.
  intros Hwf (_ & k & Hk & -> & _). rewrite kMaxPartitions_eq.
  pose proof (Z.pow_pos_nonneg 2 k ltac:(lia) ltac:(lia)).
  pose proof (Z.mod_pos_bound h (2 ^ k) ltac:(lia)). pose proof (Z.pow_le_mono_r 2 k 16). lia.
Qed.

(** ** Servers *)
Lemma MapIndexToServer_range i z n : 0 <= i -> 0 <= z -> 0 < n -> 0 <= MapIndexToServer i z n < n.
Proof.
  intros. unfold MapIndexToServer. rewrite Z.rem_mod_nonneg by lia. apply Z.mod_pos_bound. lia.
Qed.

(** Under [SetAll] the radix is that of the last partition, and a power of two of
    virtual servers keeps every hash in range. *)
Lemma full_index_radix n rep : 1 <= n <= kMaxPartitions -> full_index n rep -> radix rep = radix_of (n - 1).
Proof.
  intros Hn [Hwf Hb]. apply Z.le_antisymm.
  - destruct (wf_top _ Hwf) as (j & Hj & Ej & <-). apply radix_of_mono.
    rewrite Hb in Ej by done. destruct (Z.ltb_spec j n), (Z.eqb_spec j 0); cbn in *; lia || done.
  - apply wf_bits; [done | lia |]. rewrite Hb by lia. by rewrite (proj2 (Z.ltb_lt _ _)) by lia.
Qed.

Lemma full_index_in_range options rep hash k :
  0 <= k <= 13 -> num_virtual_servers options = 2 ^ k ->
  full_index (num_virtual_servers options) rep -> index_in_range options rep hash.
Proof.
  intros Hk En Hf. unfold index_in_range.
  assert (2 ^ k <= 2 ^ 13) by (apply Z.pow_le_mono_r; lia). pose proof (Z.pow_pos_nonneg 2 k).
  rewrite (full_index_radix (num_virtual_servers options) rep)
    by (try done; rewrite En, kMaxPartitions_eq; cbn in *; lia).
  assert (radix_of (num_virtual_servers options - 1) <= k) as Hr by (apply radix_of_spec; lia).
  pose proof (radix_of_nonneg (num_virtual_servers options - 1)).
  apply (Z.pow_le_mono_r 2) in Hr; [| lia].
  pose proof (Z.pow_pos_nonneg 2 (radix_of (num_virtual_servers options - 1)) ltac:(lia) ltac:(lia)).
  pose proof (Z.mod_pos_bound (hash_value hash) (2 ^ radix_of (num_virtual_servers options - 1))). lia.
Qed.
