(* ===== verification/GigaProps.v ===== *)
(** * What the directory index promises to its users

    Routing of names after [SetAll] (as [Filesystem] and [FilesystemCli] build their
    indices), routing under any well-formed index, the effect of a split, the bounds
    within which the assertions of [gigaplus.cc] hold, and merging. *)
From S2P Require Import Prelude Coding Hashing Giga GigaFacts.
(** The index a client or server builds for a directory: a fresh one with every virtual
    server set. *)
Definition fresh_full (ndebug : bool) (options : DirIndexOptions) (z : Z) : option Rep :=
  rep ← NewRep ndebug z; SetAll ndebug options rep.

(** The example configuration of the witnesses. *)
Definition ex_opts (nsrv nvs : Z) : DirIndexOptions := MkDirIndexOptions nsrv nvs true.

Lemma full_index_bit n rep j :
  full_index n rep -> 1 <= n -> 0 <= j -> raw_bit (bitmap rep) j = (j <? n).
Proof.
  intros [_ Hb] Hn Hj. rewrite Hb by done.
  destruct (Z.eqb_spec j 0) as [-> |]; [| by rewrite orb_false_r].
  by rewrite orb_true_r, (proj2 (Z.ltb_lt 0 n)) by lia.
Qed.

(** Under a full index of [2^k] partitions a name lives in the partition made of the
    [k] low bits of its hash value. *)
Lemma full_index_responsible n rep h k p :
  full_index n rep -> 0 <= k <= 16 -> n = 2 ^ k -> 0 <= h ->
  responsible (bitmap rep) h p -> p = h mod 2 ^ k.
Proof.
  intros Hf Hk -> Hh Hp. pose proof (Z.pow_pos_nonneg 2 k ltac:(lia) ltac:(lia)).
  pose proof (Z.mod_pos_bound h (2 ^ k) ltac:(lia)).
  apply (responsible_unique (bitmap rep) h); [done |]. split.
  - rewrite (full_index_bit (2 ^ k)) by (done || lia). apply Z.ltb_lt. lia.
  - exists k. split_and!; [lia | lia | done |]. intros k' Hk' E.
    pose proof (Z.pow_pos_nonneg 2 k' ltac:(lia) ltac:(lia)).
    pose proof (Z.mod_pos_bound h (2 ^ k') ltac:(lia)).
    rewrite (full_index_bit (2 ^ k)) in E by (done || lia). apply Z.ltb_lt in E.
    rewrite <- (mod_pow2_mod h k k') by lia. symmetry. apply Z.mod_small. lia.
Qed.

Lemma fresh_full_spec (ndebug : bool) (options : DirIndexOptions) (z k : Z) :
  0 <= k <= 13 -> num_virtual_servers options = 2 ^ k -> 0 < num_servers options ->
  ∃ rep, fresh_full ndebug options z = Some rep ∧
    (∀ j, 0 <= j < kMaxPartitions -> IsSet ndebug rep j = Some (j <? 2 ^ k)) ∧
    ∀ name, let p := hash_value (DirIndex_Hash name) mod 2 ^ k in
      GetIndex ndebug options rep name = Some p ∧
      SelectServer ndebug options rep name = Some ((p + u16 z) mod num_servers options).
Proof.
  intros Hk En Hs. assert (1 <= 2 ^ k <= 8192) as Hn.
  { split; [pose proof (Z.pow_pos_nonneg 2 k); lia |]. change 8192 with (2 ^ 13). apply Z.pow_le_mono_r; lia. }
  destruct (SetAll_full ndebug options z) as (rep0 & rep & E0 & E & Hf & Ez); [by rewrite En |].
  exists rep. unfold fresh_full. rewrite E0. split; [done |]. rewrite En in Hf. split.
  { intros j Hj. unfold IsSet. rewrite Rep_bit_wf by (done || apply Hf).
    f_equal. apply (full_index_bit (2 ^ k)); [done | lia | lia]. }
  intros name. set (p := hash_value (DirIndex_Hash name) mod 2 ^ k).
  destruct (HashToIndex_responsible ndebug options rep (DirIndex_Hash name)) as (q & Eq & Hq).
  { apply Hf. }
  { unfold DirIndex_Hash. rewrite length_GIGAHash. lia. }
  { right. apply (full_index_in_range options rep (DirIndex_Hash name) k); [done | done |].
    by rewrite En. }
  pose proof (hash_value_word (DirIndex_Hash name)).
  assert (q = p) as -> by (eapply full_index_responsible; [done | lia | done | lia | done]).
  unfold SelectServer, GetIndex. rewrite Eq. split; [done |]. cbn [mbind option_bind]. f_equal.
  unfold GetServerForIndex, MapIndexToServer. rewrite Ez.
  pose proof (wrap_word 16 z ltac:(lia)) as [??].
  assert (0 <= p) by (apply Z.mod_pos_bound; lia).
  apply Z.rem_mod_nonneg; [unfold u16; lia | done].
Qed.

(** C12. For a power of two [2^k <= 8192] of virtual servers, building the index of a
    directory with [SetAll] never fails an assertion, in either build; the index then has
    exactly the partitions [0 .. 2^k-1], [GetIndex] sends every name to the partition given by
    the [k] low bits of its bit-reversed hash, and [SelectServer] to server
    [(partition + zeroth_server) mod num_servers], so that all participants agree. *)
Theorem fresh_full_routes (ndebug : bool) (options : DirIndexOptions) (z k : Z) :
  0 <= k <= 13 -> num_virtual_servers options = 2 ^ k -> 0 < num_servers options ->
  ∃ rep, fresh_full ndebug options z = Some rep ∧
    (∀ j, 0 <= j < kMaxPartitions -> IsSet ndebug rep j = Some (j <? 2 ^ k)) ∧
    ∀ name, let p := hash_value (DirIndex_Hash name) mod 2 ^ k in
      GetIndex ndebug options rep name = Some p ∧
      SelectServer ndebug options rep name = Some ((p + u16 z) mod num_servers options).
Proof. apply fresh_full_spec. Qed.

Lemma fresh_full_routes_witness :
  ∃ rep, fresh_full false (ex_opts 3 8) 2 = Some rep ∧
    SelectServer false (ex_opts 3 8) rep (lit "a") =
      Some ((hash_value (DirIndex_Hash (lit "a")) mod 2 ^ 3 + 2) mod 3).
Proof.
  destruct (fresh_full_routes false (ex_opts 3 8) 2 3) as (rep & E & _ & H);
    [lia | reflexivity | reflexivity |].
  exists rep. split; [exact E | exact (proj2 (H (lit "a")))].
Defined.

(** Under every well-formed index (whatever partitions exist) [HashToIndex] ends and
    returns the one partition responsible for the hash: an existing partition that is a prefix
    of the hash and such that no longer prefix of the hash is an existing partition; and the
    partition's server is one of the [num_servers] servers. *)
Theorem HashToServer_responsible (ndebug : bool) options rep hash :
  Rep_wf rep -> (2 <= length hash)%nat -> 0 < num_servers options ->
  ndebug = true \/ index_in_range options rep hash ->
  ∃ p s, HashToIndex ndebug options rep hash = Some p ∧
    (∀ q, responsible (bitmap rep) (hash_value hash) q <-> q = p) ∧
    IsSet ndebug rep p = Some true ∧
    HashToServer ndebug options rep hash = Some s ∧ 0 <= s < num_servers options.
Proof.
  intros Hwf Hl Hs Hr.
  destruct (HashToIndex_responsible ndebug options rep hash) as (p & E & Hp); [done.. |].
  pose proof (responsible_range rep _ p Hwf Hp) as Hpr.
  exists p, (GetServerForIndex options rep p). unfold HashToServer, IsSet. rewrite E.
  split_and!; [done | | | done | |].
  - intros q. split; [intros Hq; by eapply responsible_unique | by intros ->].
  - rewrite Rep_bit_wf by done. f_equal. apply Hp.
  - apply MapIndexToServer_range; [lia | apply (wf_zeroth _ Hwf) | done].
  - apply MapIndexToServer_range; [lia | apply (wf_zeroth _ Hwf) | done].
Qed.

Lemma HashToServer_responsible_witness :
  ∃ p, HashToIndex false (ex_opts 2 4) (MkRep 1 0 (1 :: replicate 15 0)) (GIGAHash (lit "x")) = Some p
    ∧ responsible (1 :: replicate 15 0) (hash_value (GIGAHash (lit "x"))) p.
Proof.
  destruct (HashToServer_responsible false (ex_opts 2 4) (MkRep 1 0 (1 :: replicate 15 0))
    (GIGAHash (lit "x"))) as (p & s & E & Hq & _).
  - apply (NewRep_wf 1).
  - rewrite length_GIGAHash. lia.
  - reflexivity.
  - right. vm_compute. reflexivity.
  - exists p. split; [exact E | apply Hq; reflexivity].
Defined.

(** ** Adding and splitting partitions *)

(** Adding a partition the index allows (at most one radix beyond the current one) never
    fails, keeps the representation invariant, sets exactly that partition, keeps the server
    of partition 0, and updates the radix to cover the new partition. *)
Theorem DirIndex_Set_spec (ndebug : bool) options rep i :
  Rep_wf rep -> can_turn_on rep i -> i < num_virtual_servers options ->
  ∃ rep', DirIndex_Set ndebug options i rep = Some rep' ∧ Rep_wf rep' ∧
    zeroth_server rep' = zeroth_server rep ∧
    radix rep' = Z.max (radix rep) (radix_of i) ∧
    ∀ j, 0 <= j < kMaxPartitions ->
      IsSet ndebug rep' j = Some ((j =? i) || raw_bit (bitmap rep) j).
Proof.
  intros Hwf Hcan Hi. pose proof Hcan as [Hr _]. unfold DirIndex_Set.
  rewrite assert_bool by (apply andb_true_iff; split; [apply Z.leb_le | apply Z.ltb_lt]; lia).
  cbn [mbind option_bind].
  destruct (TurnOnBit_spec ndebug rep i) as (rep' & E & Hwf' & Hz & Hrad & Hb & _); [done.. |].
  exists rep'. split_and!; try done. intros j Hj. unfold IsSet.
  rewrite Rep_bit_wf, Hb by (done || lia). done.
Qed.

Lemma DirIndex_Set_spec_witness :
  ∃ rep', DirIndex_Set false (ex_opts 2 4) 1 (MkRep 1 0 (1 :: replicate 15 0)) = Some rep'
    ∧ radix rep' = 1.
Proof.
  destruct (DirIndex_Set_spec false (ex_opts 2 4) (MkRep 1 0 (1 :: replicate 15 0)) 1)
    as (rep' & E & _ & _ & Hr & _).
  - apply (NewRep_wf 1).
  - split; [split; [lia | reflexivity] | reflexivity].
  - reflexivity.
  - exists rep'. split; [exact E | exact Hr].
Defined.

(** C13. Splitting a partition [p] that [IsSplittable]: [NewIndexForSplitting] gives a partition
    [c] that does not exist, [Set] adds it without failing an assertion and keeps the invariant,
    and afterwards exactly the hashes of [p] that [ToBeMigrated] selects belong to [c] while
    every other hash keeps its partition. *)
Theorem split_moves (ndebug : bool) options rep p :
  Rep_wf rep -> 0 <= p < kMaxPartitions -> num_virtual_servers options <= kMaxPartitions ->
  IsSplittable ndebug options rep p = Some true ->
  ∃ c rep', NewIndexForSplitting ndebug options rep p = Some c ∧
    IsSet ndebug rep c = Some false ∧
    DirIndex_Set ndebug options c rep = Some rep' ∧ Rep_wf rep' ∧
    ∀ hash q, (2 <= length hash)%nat -> responsible (bitmap rep) (hash_value hash) q ->
      ∃ m, ToBeMigrated ndebug c hash = Some m ∧
        responsible (bitmap rep') (hash_value hash) (if (q =? p) && m then c else q).
Proof.
  intros Hwf Hp Hn Hs.
  destruct (splittable_child ndebug options rep p) as (r & E & Hr & Hpr & Ep & Ec & Hcan & Hcn & _);
    [done.. |].
  pose proof Hcan as [Hc _]. exists (p + 2 ^ r).
  destruct (TurnOnBit_spec ndebug rep (p + 2 ^ r)) as (rep' & Et & Hwf' & _ & _ & Hb & _); [done.. |].
  exists rep'. split_and!; [done | | | done |].
  - unfold IsSet. by rewrite Rep_bit_wf, Ec by done.
  - unfold DirIndex_Set. rewrite assert_bool; [done |].
    apply andb_true_iff; split; [apply Z.leb_le | apply Z.ltb_lt]; lia.
  - intros hash q Hl Hq. rewrite ToBeMigrated_spec by (done || lia). eexists. split; [done |].
    rewrite radix_of_child by lia. apply (responsible_split (bitmap rep)); (done || lia).
Qed.

Lemma split_moves_witness :
  ∃ rep' q, DirIndex_Set false (ex_opts 2 4) 1 (MkRep 1 0 (1 :: replicate 15 0)) = Some rep' ∧
    responsible (bitmap rep') (hash_value (GIGAHash (lit "a"))) q.
Proof.
  destruct (split_moves false (ex_opts 2 4) (MkRep 1 0 (1 :: replicate 15 0)) 0)
    as (c & rep' & E & _ & Es & _ & H).
  - apply (NewRep_wf 1).
  - split; [lia | reflexivity].
  - vm_compute. discriminate.
  - vm_compute. reflexivity.
  - assert (c = 1) as -> by (vm_compute in E; congruence).
    destruct (H (GIGAHash (lit "a")) 0) as (m & _ & Hm).
    + rewrite length_GIGAHash. lia.
    + split; [vm_compute; reflexivity |]. exists 0. split; [lia |]. split; [reflexivity |].
      intros k Hk. cbn [bitmap]. rewrite fresh_bits; [apply Z.eqb_eq |].
      apply Z.mod_pos_bound. apply Z.pow_pos_nonneg; lia.
    + exists rep'. eexists. split; [exact Es | exact Hm].
Defined.

(** ** Configurations whose assertions fail *)

(** More virtual servers than [ScaleUp] takes. *)
Lemma SetAll_too_many options z :
  8192 < num_virtual_servers options <= kMaxPartitions -> fresh_full false options z = None.
Proof.
  intros Hn. unfold fresh_full, SetAll, ScaleToSize. rewrite NewRep_eq. cbn [mbind option_bind].
  set (rep := MkRep (u16 z) 0 (1 :: replicate 15 0)). rewrite kMaxPartitions_eq in Hn.
  change (bitmap_capacity rep) with 16.
  destruct (ScaleToSize_factor_spec 32 16 (num_virtual_servers options) 1)
    as (m & Hm & -> & Hle & _); [lia | lia | lia |].
  rewrite Z.mul_1_l. unfold ScaleUp. change (bitmap_capacity rep) with 16.
  rewrite (proj2 (Z.ltb_lt 1 (2 ^ m))) by lia.
  rewrite (proj2 (Z.leb_gt (16 * 2 ^ m) (kMaxPartitions / 8)))
    by (change (kMaxPartitions / 8) with 8192; lia).
  done.
Qed.

(** C40. The limits on the number of virtual servers.  [SetAll] hands it to [ScaleToSize], which takes a number of
    bytes: with more than 8192 virtual servers (65536 are allowed) a debug build fails the capacity assertion of
    [ScaleUp] on every directory.  With a number that is not a power of two, the full index built by
    [SetAll] can fail the assertion of [HashToIndex]: the radix of the last partition lets a hash
    select a partition number that no virtual server has.  Three virtual servers and the name
    [a] are an example, in which a release build falls back to the parent partition 1. *)
Theorem virtual_server_limits options z :
  8192 < num_virtual_servers options <= kMaxPartitions ->
  fresh_full false options z = None /\
  (rep ← fresh_full false (ex_opts 1 3) 0; GetIndex false (ex_opts 1 3) rep (lit "a")) = None /\
  (rep ← fresh_full true (ex_opts 1 3) 0; GetIndex true (ex_opts 1 3) rep (lit "a")) = Some 1.
Proof. intros Hn. split; [by apply SetAll_too_many |]. split; vm_compute; reflexivity. Qed.

Lemma virtual_server_limits_witness : fresh_full false (ex_opts 1 8193) 0 = None.
Proof. apply (virtual_server_limits (ex_opts 1 8193) 0). split; [reflexivity | discriminate]. Defined.
