(* ===== verification/GigaMerge.v ===== *)
(** * Exchanging directory indices

    [ToSlice], [ParseDirIndex] and the merges of [gigaplus.cc]: an index sent to another
    participant and merged there adds exactly its partitions. *)
From S2P Require Import Prelude Coding Hashing Giga GigaFacts GigaProps.
(** The byte function of an index that a merge reads. *)
Definition index_byte (o : Rep) (i : Z) : Z :=
  if i <? bitmap_size o then default 0 (bitmap o !! Z.to_nat i) else 0.

Lemma bitmap_size_le_8192 rep : 0 <= radix rep <= 16 -> bitmap_size rep <= 8192.
Proof.
  intros. unfold bitmap_size. rewrite Z.shiftl_1_l.
  pose proof (Z.pow_le_mono_r 2 (radix rep) 16). change (2 ^ 16) with 65536 in *.
  Z.to_euclidean_division_equations. lia.
Qed.

Lemma index_byte_word o i : Rep_wf o -> word 8 (index_byte o i).
Proof.
  intros Hwf. unfold index_byte. case_match; [| split; [lia | cbn; lia]].
  destruct (bitmap o !! Z.to_nat i) eqn:E; [| split; cbn; lia].
  pose proof (wf_bytes _ Hwf) as Hb. by eapply Forall_lookup_1 in E.
Qed.

(** The bits of the byte function are the partitions. *)
Lemma index_byte_bit o j :
  Rep_wf o -> 0 <= j -> Z.testbit (index_byte o (j / 8)) (j mod 8) = raw_bit (bitmap o) j.
Proof.
  intros Hwf Hj. unfold index_byte. rewrite raw_bit_testbit.
  destruct (Z.ltb_spec (j / 8) (bitmap_size o)) as [| Hge].
  - destruct (bitmap o !! Z.to_nat (j / 8)); [done | by rewrite Z.bits_0].
  - rewrite Z.bits_0. symmetry. rewrite <- raw_bit_testbit.
    destruct (raw_bit (bitmap o) j) eqn:E; [| done]. exfalso.
    pose proof (wf_radix _ Hwf). apply wf_bits in E; [| done | done].
    apply radix_of_spec in E; [| lia | lia]. pose proof (bitmap_size_pow o).
    Z.to_euclidean_division_equations. lia.
Qed.

Lemma Rep_byte_index (ndebug : bool) o i :
  Rep_wf o -> 0 <= i < 8192 -> Rep_byte ndebug o i = Some (index_byte o i).
Proof.
  intros Hwf Hi. unfold Rep_byte, index_byte.
  rewrite assert_bool by (apply Z.ltb_lt; change (kMaxPartitions / 8) with 8192; lia).
  cbn [mbind option_bind]. destruct (Z.ltb_spec i (bitmap_size o)); [| done].
  pose proof (wf_size _ Hwf). unfold bitmap_capacity, slice_size in *.
  destruct (lookup_lt_is_Some_2 (bitmap o) (Z.to_nat i)) as [b ->]; [lia | done].
Qed.

(** The loop of [DoMerge] ors [n] bytes from [i] on. *)
Lemma DoMerge_loop_spec byte ob n i bm :
  (∀ k, i <= k < i + Z.of_nat n -> byte k = Some (ob k)) ->
  0 <= i -> i + Z.of_nat n <= |[bm]| ->
  ∃ bm', DoMerge_loop byte n i bm = Some bm' ∧ length bm' = length bm ∧
    ∀ k, 0 <= k -> bm' !! Z.to_nat k =
      (λ b, if (i <=? k) && (k <? i + Z.of_nat n) then Z.lor b (ob k) else b) <$> bm !! Z.to_nat k.
Proof.
  revert i bm. induction n as [| n IH]; intros i bm Hbyte Hi Hn; cbn [DoMerge_loop].
  { exists bm. split_and!; [done | done |]. intros k Hk. rewrite Z.add_0_r.
    destruct (Z.leb_spec i k), (Z.ltb_spec k i); try lia; cbn; by destruct (bm !! _). }
  rewrite Hbyte by lia. cbn [mbind option_bind]. unfold slice_size in *.
  destruct (lookup_lt_is_Some_2 bm (Z.to_nat i)) as [b E]; [lia |].
  rewrite E. cbn [mbind option_bind].
  destruct (IH (i + 1) (<[Z.to_nat i:=Z.lor b (ob i)]> bm)) as (bm' & -> & Hl & Hk).
  { intros k Hk. apply Hbyte. lia. } { lia. } { rewrite length_insert. lia. }
  exists bm'. split_and!; [done | by rewrite Hl, length_insert |]. intros k Hk0. rewrite Hk by done.
  destruct (Z.eqb_spec k i) as [-> | Hne].
  - rewrite list_lookup_insert_eq, E by lia. cbn.
    destruct (Z.leb_spec (i + 1) i), (Z.leb_spec i i), (Z.ltb_spec i (i + Z.of_nat (S n))); (lia || done).
  - rewrite list_lookup_insert_ne by lia. destruct (bm !! Z.to_nat k); [| done]. cbn. f_equal.
    destruct (Z.leb_spec (i + 1) k), (Z.leb_spec i k), (Z.ltb_spec k (i + 1 + Z.of_nat n)),
      (Z.ltb_spec k (i + Z.of_nat (S n))); (lia || done).
Qed.

Lemma bytes_lookup bm : (∀ k b, bm !! k = Some b -> word 8 b) -> bytes bm.
Proof. intros H. apply Forall_lookup_2. intros k b E. by eapply H. Qed.

(** The union of two well-formed indices is well formed, with the larger radix. *)
Lemma merged_wf rep o bm :
  Rep_wf rep -> Rep_wf o -> bytes bm ->
  (∃ k, 0 <= k <= 9 ∧ |[bm]| = 16 * 2 ^ k) ->
  Z.max (bitmap_size rep) (bitmap_size o) <= |[bm]| ->
  (∀ j, 0 <= j -> raw_bit bm j = raw_bit (bitmap rep) j || raw_bit (bitmap o) j) ->
  Rep_wf (MkRep (zeroth_server rep) (Z.max (radix rep) (radix o)) bm).
Proof.
  intros Hr Ho Hb Hcap Hsz Hbits.
  pose proof (wf_radix _ Hr). pose proof (wf_radix _ Ho).
  split; cbn [zeroth_server radix bitmap]; [apply Hr | lia | done | done | | | |].
  - unfold bitmap_capacity, bitmap_size in *. cbn [radix bitmap].
    destruct (Z.max_spec (radix rep) (radix o)) as [[_ ->] | [_ ->]]; lia.
  - by rewrite Hbits, (wf_root _ Hr).
  - intros i Hi Ei. rewrite Hbits in Ei by done. apply orb_true_iff in Ei as [Ei | Ei].
    + pose proof (wf_bits _ Hr i Hi Ei). lia.
    + pose proof (wf_bits _ Ho i Hi Ei). lia.
  - destruct (Z.max_spec (radix rep) (radix o)) as [[_ ->] | [_ ->]].
    + destruct (wf_top _ Ho) as (i & Hi & Ei & ?). exists i. by rewrite Hbits, Ei, orb_true_r.
    + destruct (wf_top _ Hr) as (i & Hi & Ei & ?). exists i. by rewrite Hbits, Ei.
Qed.

Lemma DoMerge_spec (ndebug : bool) rep o byte :
  Rep_wf rep -> Rep_wf o -> zeroth_server o = zeroth_server rep ->
  (∀ k, 0 <= k < 8192 -> byte k = Some (index_byte o k)) ->
  ∃ rep', DoMerge ndebug (zeroth_server o) (radix o) (bitmap_size o) byte rep = Some rep' ∧
    Rep_wf rep' ∧ zeroth_server rep' = zeroth_server rep ∧
    radix rep' = Z.max (radix rep) (radix o) ∧
    ∀ j, 0 <= j -> raw_bit (bitmap rep') j = raw_bit (bitmap rep) j || raw_bit (bitmap o) j.
Proof.
  intros Hr Ho Hz Hbyte. unfold DoMerge.
  pose proof (wf_radix _ Hr) as Hr1. pose proof (wf_radix _ Ho) as Hr2. change kMaxRadix with 16 in *.
  pose proof (bitmap_size_le_8192 rep Hr1). pose proof (bitmap_size_le_8192 o Hr2).
  pose proof (bitmap_size_pos rep ltac:(lia)).
  set (cap := Z.max (bitmap_size rep) (bitmap_size o)).
  rewrite (assert_bool ndebug (zeroth_server rep =? zeroth_server o)) by (apply Z.eqb_eq; congruence).
  cbn [mbind option_bind].
  destruct (ScaleToSize_spec ndebug cap rep Hr) as (rep1 & -> & Hwf1 & Hz1 & Hrad1 & Hcap1 & Hb1); [lia |].
  cbn [mbind option_bind]. unfold SetRadix. cbn [zeroth_server radix bitmap].
  rewrite Hrad1, Hz1. unfold u16.
  rewrite wrap_small by (split; [lia |]; change (2 ^ 16) with 65536; lia).
  rewrite (assert_bool ndebug (bitmap_size _ <=? cap)).
  2: { apply Z.leb_le. unfold cap, bitmap_size. cbn [radix].
       destruct (Z.max_spec (radix rep) (radix o)) as [[_ ->] | [_ ->]]; lia. }
  cbn [mbind option_bind]. unfold bitmap_capacity in Hcap1.
  destruct (DoMerge_loop_spec byte (index_byte o) (Z.to_nat cap) 0 (bitmap rep1)) as (bm & -> & Hl & Hk);
    [intros; apply Hbyte; lia | lia | lia |].
  cbn [mbind option_bind].
  assert (∀ j, 0 <= j -> raw_bit bm j = raw_bit (bitmap rep) j || raw_bit (bitmap o) j) as Hbits.
  { intros j Hj. rewrite <- Hb1, <- (index_byte_bit o j), !raw_bit_testbit by done.
    assert (0 <= j / 8) by (apply Z.div_pos; lia). rewrite Hk by done.
    destruct (bitmap rep1 !! Z.to_nat (j / 8)) eqn:E; cbn.
    - destruct (Z.leb_spec 0 (j / 8)), (Z.ltb_spec (j / 8) (0 + Z.of_nat (Z.to_nat cap))); cbn;
        try lia; [by rewrite Z.lor_spec |].
      unfold index_byte. rewrite (proj2 (Z.ltb_ge _ _)), Z.bits_0, orb_false_r by lia. done.
    - unfold index_byte. apply lookup_ge_None in E. unfold slice_size in *.
      rewrite (proj2 (Z.ltb_ge _ _)), Z.bits_0 by lia. done. }
  assert (Rep_wf (MkRep (zeroth_server rep) (Z.max (radix rep) (radix o)) bm)) as Hwf.
  { apply merged_wf; try done.
    - apply bytes_lookup. intros k b E. specialize (Hk (Z.of_nat k) ltac:(lia)).
      rewrite Nat2Z.id, E in Hk. destruct (bitmap rep1 !! k) eqn:E1; [| done]. injection Hk as ->.
      assert (word 8 z) by (pose proof (wf_bytes _ Hwf1) as Hb; by eapply Forall_lookup_1 in E1).
      case_match; [| done]. apply word_lor; [lia | done |]. by apply index_byte_word.
    - destruct (wf_cap _ Hwf1) as (k & ? & Ek). exists k. unfold bitmap_capacity, slice_size in *.
      split; [done |]. by rewrite Hl.
    - unfold slice_size in *. rewrite Hl. lia. }
  pose proof (radix_assertion ndebug _ Hwf) as Ha. cbn [radix] in Ha. rewrite Ha. cbn [mbind option_bind].
  eexists. split; [done |]. done.
Qed.

(** ** Parsing an encoded index *)
Definition view_of (o : Rep) : View :=
  MkView (zeroth_server o) (radix o) (take (Z.to_nat (bitmap_size o)) (bitmap o)).

Lemma view_bitmap_size o : Rep_wf o -> |[view_bitmap (view_of o)]| = bitmap_size o.
Proof.
  intros Hwf. pose proof (wf_size _ Hwf) as Hs. pose proof (wf_radix _ Hwf).
  pose proof (bitmap_size_pos o ltac:(lia)).
  unfold view_of, slice_size, bitmap_capacity, slice_size in *. cbn [view_bitmap].
  rewrite length_take. lia.
Qed.

Lemma view_bitmap_cons o : Rep_wf o -> bool_decide (view_bitmap (view_of o) = []) = false.
Proof.
  intros Hwf. apply bool_decide_eq_false. intros E. pose proof (view_bitmap_size o Hwf) as Hs.
  rewrite E in Hs. pose proof (wf_radix _ Hwf). pose proof (bitmap_size_pos o ltac:(lia)).
  unfold slice_size in Hs. cbn [length] in Hs. lia.
Qed.

Lemma view_lookup o k :
  0 <= k < bitmap_size o -> view_bitmap (view_of o) !! Z.to_nat k = bitmap o !! Z.to_nat k.
Proof. intros Hk. unfold view_of. cbn [view_bitmap]. by rewrite lookup_take_lt by lia. Qed.

Lemma View_byte_index (ndebug : bool) o i :
  Rep_wf o -> 0 <= i < 8192 -> View_byte ndebug (view_of o) i = Some (index_byte o i).
Proof.
  intros Hwf Hi. unfold View_byte, index_byte.
  rewrite assert_bool by (apply Z.ltb_lt; change (kMaxPartitions / 8) with 8192; lia).
  cbn [mbind option_bind]. rewrite view_bitmap_cons, andb_false_r, view_bitmap_size by done.
  destruct (Z.ltb_spec i (bitmap_size o)); [| done]. rewrite view_lookup by lia.
  pose proof (wf_size _ Hwf). unfold bitmap_capacity, slice_size in *.
  destruct (lookup_lt_is_Some_2 (bitmap o) (Z.to_nat i)) as [b ->]; [lia | done].
Qed.

Lemma View_bit_root (ndebug : bool) o : Rep_wf o -> View_bit ndebug (view_of o) 0 = Some true.
Proof.
  intros Hwf. unfold View_bit. rewrite assert_bool by done. cbn [mbind option_bind].
  rewrite view_bitmap_cons, view_bitmap_size, andb_false_r by done.
  pose proof (wf_radix _ Hwf). pose proof (bitmap_size_pos o ltac:(lia)).
  rewrite (proj2 (Z.ltb_lt _ _)) by lia. rewrite <- (wf_root _ Hwf). unfold raw_bit.
  by rewrite (view_lookup o (0 / 8)) by (change (0 / 8) with 0; lia).
Qed.

Lemma HighestBit_byte_take bm n i : (i < n)%nat -> HighestBit_byte (take n bm) i = HighestBit_byte bm i.
Proof.
  revert n. induction i as [| i IH]; intros n Hi; cbn [HighestBit_byte]; rewrite lookup_take_lt by lia;
    destruct (bm !! _); cbn [mbind option_bind]; try done.
  case_match; [| done]. apply IH. lia.
Qed.

Lemma View_HighestBit_rep (ndebug : bool) o :
  Rep_wf o -> View_HighestBit ndebug (view_of o) = HighestBit ndebug o.
Proof.
  intros Hwf. unfold View_HighestBit, HighestBit. pose proof (view_bitmap_cons o Hwf) as Hc.
  pose proof (view_bitmap_size o Hwf) as Hs. pose proof (wf_size _ Hwf). pose proof (wf_radix _ Hwf).
  pose proof (bitmap_size_pos o ltac:(lia)).
  case_decide as Hd; [by rewrite bool_decide_eq_true_2 in Hc |].
  rewrite View_bit_root by done. cbn [mbind option_bind]. rewrite assert_true. cbn [mbind option_bind].
  rewrite assert_bool by (apply Z.ltb_lt; lia). cbn [mbind option_bind].
  rewrite Rep_bit_wf by (done || (rewrite kMaxPartitions_eq; lia)). cbn [mbind option_bind].
  rewrite (wf_root _ Hwf), assert_true. cbn [mbind option_bind]. unfold slice_size in Hs.
  replace (length (view_bitmap (view_of o)) - 1)%nat with (Z.to_nat (bitmap_size o - 1)) by lia.
  assert (HighestBit_byte (view_bitmap (view_of o)) (Z.to_nat (bitmap_size o - 1))
    = HighestBit_byte (bitmap o) (Z.to_nat (bitmap_size o - 1))) as ->
    by (apply HighestBit_byte_take; lia).
  pose proof (HighestBit_byte_spec (bitmap o) (Z.to_nat (bitmap_size o - 1))) as Hspec.
  destruct (HighestBit_byte (bitmap o) _) as [k |]; [| done]. cbn [mbind option_bind].
  unfold bitmap_capacity, slice_size in *. destruct Hspec as (Hk & _); [lia |].
  replace k with (Z.to_nat (Z.of_nat k)) by lia. by rewrite view_lookup by lia.
Qed.

Lemma ParseDirIndex_ToSlice (ndebug : bool) o paranoid :
  Rep_wf o -> ∃ enc, ToSlice o = Some enc /\ ParseDirIndex ndebug enc paranoid = Some (Some (view_of o)).
Proof.
  intros Hwf. unfold ParseDirIndex, ToSlice.
  rewrite (proj2 (Z.leb_le (bitmap_size o) (bitmap_capacity o))) by apply Hwf. eexists. split; [reflexivity |].
  set (vb := take (Z.to_nat (bitmap_size o)) (bitmap o)).
  pose proof (view_bitmap_size o Hwf) as Hs. cbn [view_bitmap view_of] in Hs. fold vb in Hs.
  pose proof (wf_radix _ Hwf) as Hr. change kMaxRadix with 16 in Hr.
  assert (|[EncodeFixed16 (zeroth_server o) ++ EncodeFixed16 (radix o) ++ vb]| = 4 + bitmap_size o) as Hsz
    by (rewrite !slice_size_app, Hs; change (|[EncodeFixed16 (zeroth_server o)]|) with 2;
        change (|[EncodeFixed16 (radix o)]|) with 2; lia).
  pose proof (bitmap_size_pos o ltac:(lia)).
  rewrite Hsz, (proj2 (Z.ltb_ge (4 + bitmap_size o) kHeadSize)) by (change kHeadSize with 4; lia).
  rewrite DecodeFixed16_wrap. cbn [mbind option_bind].
  change (drop 2 (EncodeFixed16 (zeroth_server o) ++ EncodeFixed16 (radix o) ++ vb))
    with (EncodeFixed16 (radix o) ++ vb).
  rewrite DecodeFixed16_wrap. cbn [mbind option_bind].
  change (drop 4 (EncodeFixed16 (zeroth_server o) ++ EncodeFixed16 (radix o) ++ vb)) with vb.
  pose proof (wf_zeroth _ Hwf) as Hz. unfold u16.
  rewrite (wrap_small 16 (zeroth_server o)) by apply Hz.
  rewrite (wrap_small 16 (radix o)) by (split; [| change (2 ^ 16) with 65536]; lia).
  rewrite (proj2 (Z.ltb_ge (4 + bitmap_size o - kHeadSize) ((Z.shiftl 1 (radix o) + 7) / 8)))
    by (change kHeadSize with 4; unfold bitmap_size; lia).
  change (MkView (zeroth_server o) (radix o) vb) with (view_of o). rewrite View_bit_root by done. cbn [mbind option_bind negb].
  destruct paranoid; [| done]. rewrite View_HighestBit_rep by done.
  destruct (HighestBit_wf ndebug o Hwf) as (h & -> & Hh & _ & _ & Er). cbn [mbind option_bind].
  rewrite ToRadix_spec by done. cbn [mbind option_bind]. by rewrite Er, Z.eqb_refl.
Qed.

(** C14. Index exchange: a well-formed index that is encoded by [ToSlice], which fails no assertion, and given to [Update]
    at an index of the same directory (same zeroth server) is parsed, also under paranoid checks,
    and merged without failing an assertion; the result is well formed and has exactly the union of
    the partitions.  An index of a different zeroth server is refused and changes nothing. *)
Theorem Update_union (ndebug : bool) options rep o :
  Rep_wf rep -> Rep_wf o ->
  ∃ enc, ToSlice o = Some enc /\
  if zeroth_server rep =? zeroth_server o then
    ∃ rep', Update ndebug options enc (Some rep) = Some (true, Some rep') ∧
      Rep_wf rep' ∧ zeroth_server rep' = zeroth_server rep ∧
      ∀ j, 0 <= j < kMaxPartitions ->
        IsSet ndebug rep' j = Some (raw_bit (bitmap rep) j || raw_bit (bitmap o) j)
  else Update ndebug options enc (Some rep) = Some (false, Some rep).
Proof.
  intros Hr Ho. destruct (ParseDirIndex_ToSlice ndebug o (paranoid_checks options) Ho) as (enc & Ee & Hp).
  exists enc. split; [done |]. cbn [Update]. rewrite Hp. cbn [mbind option_bind].
  change (view_zeroth_server (view_of o)) with (zeroth_server o).
  destruct (Z.eqb_spec (zeroth_server rep) (zeroth_server o)) as [Ez |]; cbn [negb]; [| done].
  destruct (DoMerge_spec ndebug rep o (View_byte ndebug (view_of o))) as (rep' & E & Hwf & Hz & _ & Hb);
    [done | done | done | intros; by apply View_byte_index |].
  exists rep'. unfold MergeView. rewrite view_bitmap_size by done. cbn [view_of view_zeroth_server view_radix].
  rewrite E. split_and!; [done | done | done |].
  intros j Hj. unfold IsSet. rewrite Rep_bit_wf, Hb by (done || lia). done.
Qed.

Lemma Update_union_witness :
  ∃ enc rep', ToSlice (MkRep 1 0 (1 :: replicate 15 0)) = Some enc /\ Update false (ex_opts 2 4) enc
    (Some (MkRep 1 0 (1 :: replicate 15 0))) = Some (true, Some rep') ∧ Rep_wf rep'.
Proof.
  pose proof (Update_union false (ex_opts 2 4) (MkRep 1 0 (1 :: replicate 15 0))
    (MkRep 1 0 (1 :: replicate 15 0)) (NewRep_wf 1) (NewRep_wf 1)) as H.
  destruct H as (enc & Ee & H). cbn [zeroth_server Z.eqb Pos.eqb] in H. destruct H as (rep' & E & Hwf & _).
  exists enc, rep'. split; [exact Ee |]. split; [exact E | exact Hwf].
Defined.
