(* ===== verification/Random.v ===== *)
(** * The pseudo-random numbers ([pdlfs-common/random.h])

    [Random] is the multiplicative congruential generator with multiplier 16807 modulo
    2^31 - 1; its state is [seed_]. *)
From S2P Require Import Prelude.

(** The constructor. *)
Definition new_Random (s : Z) : Z :=
  let seed := Z.land s 0x7fffffff in
  if (seed =? 0) || (seed =? 2147483647) then 1 else seed.

(** [Next]: two reductions; the result is the new [seed_]. *)
Definition Random_Next (seed : Z) : Z :=
  let product := u64 (seed * 16807) in
  let seed := u32 (Z.shiftr product 31 + Z.land product 2147483647) in
  if seed >? 2147483647 then u32 (seed - 2147483647) else seed.

(** The methods that draw: their result and the new [seed_].  [Next64] draws its low half first. *)
Definition Random_Next64 (seed : Z) : Z * Z :=
  let L := Random_Next seed in let H := Random_Next L in (Z.lor L (u64 (Z.shiftl H 32)), H).
Definition Random_Uniform (n seed : Z) : Z * Z := let r := Random_Next seed in (r mod n, r).
Definition Random_OneIn (n seed : Z) : bool * Z := let r := Random_Next seed in (r mod n =? 0, r).

(** ** The generator *)
Definition random_state (seed : Z) : Prop := 0 < seed < 2147483647.

Lemma new_Random_state s : random_state (new_Random s).
Proof.
  unfold new_Random, random_state. cbn zeta. rewrite (eq_refl : Z.land s 0x7fffffff = Z.land s (Z.ones 31)). pose proof (land_ones_word 31 s ltac:(lia)) as [? H31].
  change (2 ^ 31) with 2147483648 in H31. destruct (_ || _) eqn:E; [lia |]. bool_hyps. lia.
Qed.

Lemma Random_Next_mod seed : random_state seed ->
  Random_Next seed = seed * 16807 mod 2147483647 /\ random_state (Random_Next seed).
Proof.
  unfold random_state. intros Hs. unfold Random_Next, u64. rewrite wrap_small by (unfold word; cbn; lia).
  set (q := seed * 16807). rewrite (eq_refl : Z.land q 2147483647 = Z.land q (Z.ones 31)). rewrite Z.shiftr_div_pow2, Z.land_ones by lia. cbn zeta.
  assert (0 <= q / 2 ^ 31 <= 16806) as Hq. { unfold q. change (2 ^ 31) with 2147483648. split; [apply Z.div_pos; lia |]. apply Z.lt_succ_r, Z.div_lt_upper_bound; lia. }
  pose proof (Z.mod_pos_bound q (2 ^ 31)) as Hr. pose proof (Z.div_mod q (2 ^ 31)) as Eq.
  change (2 ^ 31) with 2147483648 in *. set (a := q / 2147483648) in *. set (b := q mod 2147483648) in *.
  unfold u32. rewrite (wrap_small 32 (a + b)) by (unfold word; cbn; lia).
  assert (q mod 2147483647 <> 0) as Hne.
  { intros E. apply Z.mod_divide in E; [| lia]. unfold q in E. rewrite Z.mul_comm in E.
    apply Z.gauss in E; [| reflexivity]. apply Z.divide_pos_le in E; lia. }
  assert (q mod 2147483647 = (a + b) mod 2147483647) as Em.
  { rewrite Eq by lia. replace (2147483648 * a + b) with (a + b + a * 2147483647) by lia. apply Z_mod_plus_full. }
  rewrite Em in *. destruct (Z.gtb_spec (a + b) 2147483647) as [Hgt | Hle].
  - rewrite wrap_small by (unfold word; cbn; lia). rewrite <- (Z_mod_plus_full (a + b) (-1)), Z.mod_small; lia.
  - destruct (Z.eq_dec (a + b) 2147483647) as [E |]; [by rewrite E in Hne |]. rewrite Z.mod_small by lia.
    rewrite Z.mod_small in Hne by lia. lia.
Qed.
