(* ===== verification/Mxdb.v ===== *)
(** * Metadata as key-value pairs ([pdlfs-common/fsdb0.h])

    [MXDB] maps directory entries to the pairs of a key-value store.  The store is the
    interface [KvStore], whose behaviour [KvLaws] relates to a finite map of byte strings;
    [MemDb] is the finite map itself.  The operations are those of the class template for
    a given format, and run inside or outside a transaction. *)
From stdpp Require Import sorting.
From S2P Require Import Prelude Status Coding FsTypes Keys.
Inductive MXDBFormat := kNameInValue | kNameInKey.
#[global] Instance MXDBFormat_eq_dec : EqDecision MXDBFormat.
Proof. solve_decision. Defined.

(** An iterator that was positioned by [Seek]: the pairs still ahead, and the status
    it reports once they are exhausted. *)
Record Iter := MkIter { it_rest : list (Slice * Slice); it_status : Status }.
Definition Valid (it : Iter) : bool := negb (bool_decide (it_rest it = [])).
Definition Next (it : Iter) : Iter := MkIter (tail (it_rest it)) (it_status it).

Inductive BatchOp := BatPut (k v : Slice) | BatDelete (k : Slice).

(** What [MXDB] asks of the database class [DX]. *)
Class KvStore (DX : Type) := {
  dx_Put : DX -> Slice -> Slice -> Status * DX;
  dx_Get : DX -> Slice -> Status * Slice;
  dx_Delete : DX -> Slice -> Status * DX;
  dx_Write : DX -> list BatchOp -> Status * DX;
  (** [NewIterator] may return NULL; the result is the iterator's [Seek]. *)
  dx_NewIterator : DX -> option (Slice -> Iter)
}.

(** A transaction: a snapshot or NULL, and a batch of updates. *)
Record Tx (DX : Type) := MkTx { snap : option DX; bat : list BatchOp }.
Arguments MkTx {DX}. Arguments snap {DX}. Arguments bat {DX}.

(** [FilesystemDbStats]: six 64-bit counters. *)
Record FilesystemDbStats := MkStats {
  putkeybytes : Z; putbytes : Z; puts : Z; getkeybytes : Z; getbytes : Z; gets : Z
}.
Definition stats0 : FilesystemDbStats := MkStats 0 0 0 0 0 0.

(** [XSTATUS]: [NotFound] without its message, any other status as an [IOError] that
    carries its text.  The text is left empty for the codes whose string [ToString] reads past the
    table ([ToString] is [None]); the code of the result does not depend on it. *)
Definition XSTATUS (x : Status) : Status :=
  if IsNotFound x then MkStatus kNotFound [] []
  else MkStatus kIOError (default [] (ToString x)) [].

Section MXDB.
Context {DX : Type} `{KvStore DX}.
Variable fmt : MXDBFormat.

Definition entry_key (id : DirId) (suf : Slice) : Slice :=
  SetSuffix suf (Key (dno id) (ino id) kDirEntType).

(** [MXDB::STARTTX], [COMMIT]; [RELEASE] frees the transaction. *)
Definition STARTTX (dx : DX) (with_snapshot : bool) : Tx DX :=
  MkTx (if with_snapshot then Some dx else None) [].
Definition COMMIT (dx : DX) (tx : option (Tx DX)) : Status * DX :=
  match tx with Some t => dx_Write dx (bat t) | None => (OK, dx) end.

(** The database an operation reads: the snapshot of the transaction, if any. *)
Definition read_view (dx : DX) (tx : option (Tx DX)) : DX :=
  default dx (tx ≫= snap).

Definition put_value (stat : Stat) (name : Slice) : Slice :=
  match fmt with
  | kNameInKey => Stat_EncodeTo stat
  | kNameInValue =>
      if 5 + |[name]| <? 200 - |[Stat_EncodeTo stat]|
      then Stat_EncodeTo stat ++ EncodeLengthPrefixedSlice name
      else PutLengthPrefixedSlice (Stat_EncodeTo stat) name
  end.

Definition perf_put (key value : Slice) (perf : FilesystemDbStats) : FilesystemDbStats :=
  MkStats (u64 (putkeybytes perf + |[key]|)) (u64 (putbytes perf + |[value]|))
    (u64 (puts perf + 1)) (getkeybytes perf) (getbytes perf) (gets perf).
Definition perf_get (key tmp : Slice) (perf : FilesystemDbStats) : FilesystemDbStats :=
  MkStats (putkeybytes perf) (putbytes perf) (puts perf)
    (u64 (getkeybytes perf + |[key]|)) (u64 (getbytes perf + |[tmp]|)) (u64 (gets perf + 1)).

(** [MXDB::PUT]. *)
Definition PUT (dx : DX) (id : DirId) (suf : Slice) (stat : Stat) (name : Slice)
    (tx : option (Tx DX)) (perf : option FilesystemDbStats)
    : Status * DX * option (Tx DX) * option FilesystemDbStats :=
  let keyenc := entry_key id suf in
  let value := put_value stat name in
  let '(s, dx, tx) :=
    match tx with
    | None =>
        let '(st, dx) := dx_Put dx keyenc value in
        (if ok st then OK else XSTATUS st, dx, None)
    | Some t => (OK, dx, Some (MkTx (snap t) (bat t ++ [BatPut keyenc value])))
    end in
  (s, dx, tx, perf_put keyenc value <$> perf).

(** [MXDB::GET]: the status, the stat if it was decoded, the name if it was assigned. *)
Definition GET (dx : DX) (id : DirId) (suf : Slice) (want_name : bool)
    (tx : option (Tx DX)) (perf : option FilesystemDbStats)
    : Status * option Stat * option Slice * option FilesystemDbStats :=
  let keyenc := entry_key id suf in
  let '(st, tmp) := dx_Get (read_view dx tx) keyenc in
  let '(s, stat, name) :=
    if ok st then
      match Stat_DecodeFrom tmp with
      | None => (MkStatus kCorruption [] [], None, None)
      | Some (stat, input) =>
          if want_name then
            match fmt with
            | kNameInKey => (OK, Some stat, Some suf)
            | kNameInValue =>
                match GetLengthPrefixedSlice input with
                | None => (MkStatus kCorruption [] [], Some stat, None)
                | Some (filename, _) => (OK, Some stat, Some filename)
                end
            end
          else (OK, Some stat, None)
      end
    else (XSTATUS st, None, None) in
  (s, stat, name, perf_get keyenc tmp <$> perf).

(** [MXDB::DELETE] and [MXDB::EXISTS]. *)
Definition DELETE (dx : DX) (id : DirId) (suf : Slice) (tx : option (Tx DX))
    : Status * DX * option (Tx DX) :=
  let keyenc := entry_key id suf in
  match tx with
  | None =>
      let '(st, dx) := dx_Delete dx keyenc in
      (if ok st then OK else XSTATUS st, dx, None)
  | Some t => (OK, dx, Some (MkTx (snap t) (bat t ++ [BatDelete keyenc])))
  end.
Definition EXISTS (dx : DX) (id : DirId) (suf : Slice) (tx : option (Tx DX)) : Status :=
  let '(st, _) := dx_Get (read_view dx tx) (entry_key id suf) in
  if ok st then OK else XSTATUS st.

(** ** Directory scans *)
Record Dir := MkDir { n_scanned : Z; key_prefix : Slice; iter : Iter }.

Definition OPENDIR (dx : DX) (id : DirId) (tx : option (Tx DX)) : option Dir :=
  let prefix := Key (dno id) (ino id) kDirEntType in
  seek ← dx_NewIterator (read_view dx tx);
  Some (MkDir 0 prefix (seek prefix)).

(** The name of an entry and the check of its value, shared by [READDIR] and [LIST]:
    the code parses the stat and then the name. *)
Definition entry_name (prefix key input : Slice) : option Slice :=
  match fmt with
  | kNameInKey => Some (drop (length prefix) key)
  | kNameInValue => fst <$> GetLengthPrefixedSlice input
  end.

(** [MXDB::READDIR]; [stat] is assigned as soon as it is decoded. *)
Definition READDIR (dir : option Dir) : Status * option Dir * option Stat * option Slice :=
  match dir with
  | None => (MkStatus kNotFound [] [], None, None, None)
  | Some d =>
      match it_rest (iter d) with
      | [] =>
          let st := it_status (iter d) in
          (if ok st then MkStatus kNotFound [] [] else XSTATUS st, dir, None, None)
      | (key, input) :: _ =>
          if negb (starts_with key (key_prefix d)) then (MkStatus kNotFound [] [], dir, None, None)
          else
            match Stat_DecodeFrom input with
            | None => (Err kCorruption "Cannot parse Stat", dir, None, None)
            | Some (stat, input) =>
                match entry_name (key_prefix d) key input with
                | None => (Err kCorruption "Cannot parse filename", dir, Some stat, None)
                | Some name =>
                    (OK, Some (MkDir (n_scanned d + 1) (key_prefix d) (Next (iter d))),
                     Some stat, Some name)
                end
            end
      end
  end.

(** The scan loop of [MXDB::LIST]: at most [limit] entries, in order. *)
Fixpoint LIST_loop (prefix : Slice) (rest : list (Slice * Slice)) (limit : nat)
    : list (Stat * Slice) :=
  match rest, limit with
  | (key, input) :: rest, S limit =>
      if negb (starts_with key prefix) then []
      else
        match Stat_DecodeFrom input with
        | None => []
        | Some (stat, input) =>
            match entry_name prefix key input with
            | None => []
            | Some name => (stat, name) :: LIST_loop prefix rest limit
            end
        end
  | _, _ => []
  end.

(** [MXDB::LIST]: stats and names appended to the lists, and their number.  The code
    calls the iterator without testing it for NULL. *)
Definition LIST (dx : DX) (id : DirId) (tx : option (Tx DX)) (limit : nat)
    : option (list (Stat * Slice) * nat) :=
  let prefix := Key_prefix (Key (dno id) (ino id) kDirEntType) in
  seek ← dx_NewIterator (read_view dx tx);
  let l := LIST_loop prefix (it_rest (seek prefix)) limit in
  Some (l, length l).
End MXDB.
