(* ===== verification/MxdbProps.v ===== *)
(** * The metadata database refines a map of directories

    [KvLaws] states what the key-value store promises; [MemDb] discharges it for a finite
    map.  Against the interface, [GET], [PUT], [DELETE], [EXISTS] and [LIST] are the
    lookup, insertion, deletion, membership and ordered enumeration of the abstract map
    [entries] from directory ids and names to stats. *)
From stdpp Require Import sorting.
From S2P Require Import Prelude Status Coding FsTypes Keys Mxdb.

(** ** The order of pairs *)
Definition pair_le (p q : Slice * Slice) : Prop := Slice_le p.1 q.1.
#[global] Instance pair_le_dec p q : Decision (pair_le p q).
Proof. unfold pair_le. apply _. Defined.
#[global] Instance pair_le_total : Total pair_le.
Proof. intros p q. apply (total Slice_le). Qed.
#[global] Instance pair_le_trans : Transitive pair_le.
Proof. intros p q r. unfold pair_le. by apply (transitivity (R := Slice_le)). Qed.

Definition apply_op (op : BatchOp) (m : gmap Slice Slice) : gmap Slice Slice :=
  match op with BatPut k v => <[k:=v]> m | BatDelete k => delete k m end.
Definition apply_batch (ops : list BatchOp) (m : gmap Slice Slice) : gmap Slice Slice :=
  foldl (λ m op, apply_op op m) m ops.

(** ** What the store promises *)
Class KvLaws (DX : Type) `{KvStore DX} := {
  dx_view : DX -> gmap Slice Slice;
  Put_ok d k v s d' : dx_Put d k v = (s, d') -> ok s = true -> dx_view d' = <[k:=v]> (dx_view d);
  Delete_ok d k s d' : dx_Delete d k = (s, d') -> ok s = true -> dx_view d' = delete k (dx_view d);
  Write_ok d ops s d' : dx_Write d ops = (s, d') -> ok s = true ->
    dx_view d' = apply_batch ops (dx_view d);
  (** a failed update may or may not have taken effect *)
  Put_err d k v s d' : dx_Put d k v = (s, d') -> ok s = false ->
    dx_view d' = dx_view d \/ dx_view d' = <[k:=v]> (dx_view d);
  Delete_err d k s d' : dx_Delete d k = (s, d') -> ok s = false ->
    dx_view d' = dx_view d \/ dx_view d' = delete k (dx_view d);
  Get_ok d k s v : dx_Get d k = (s, v) -> ok s = true -> dx_view d !! k = Some v;
  Get_NotFound d k s v : dx_Get d k = (s, v) -> IsNotFound s = true -> dx_view d !! k = None;
  (** an iterator without an error enumerates, in key order, the pairs from the target on *)
  NewIterator_ok d seek p : dx_NewIterator d = Some seek -> ok (it_status (seek p)) = true ->
    StronglySorted pair_le (it_rest (seek p)) /\ NoDup (it_rest (seek p)).*1 /\
    ∀ k v, (k, v) ∈ it_rest (seek p) <-> dx_view d !! k = Some v /\ Slice_le p k
}.

(** ** The finite map as a store *)
Abbreviation MemDb := (gmap Slice Slice).
Definition mem_seek (d : MemDb) (p : Slice) : Iter :=
  MkIter (merge_sort pair_le (filter (λ kv : Slice * Slice, Slice_le p kv.1) (map_to_list d))) OK.
#[global] Instance MemDb_store : KvStore MemDb := {
  dx_Put d k v := (OK, <[k:=v]> d);
  dx_Get d k := match d !! k with Some v => (OK, v) | None => (MkStatus kNotFound [] [], []) end;
  dx_Delete d k := (OK, delete k d);
  dx_Write d ops := (OK, apply_batch ops d);
  dx_NewIterator d := Some (mem_seek d)
}.

#[global] Instance MemDb_laws : KvLaws MemDb.
Proof.
  refine {| dx_view := λ d, d |}; cbn.
  - by intros ?? ?? ? [= <- <-].
  - by intros ?? ?? [= <- <-].
  - by intros ?? ?? [= <- <-].
  - by intros ?? ?? ? [= <- <-].
  - by intros ?? ?? [= <- <-].
  - intros d k s v. destruct (d !! k) eqn:E; intros Eq; inversion Eq; subst; intros Hok; [done |].
    by apply bool_decide_eq_true in Hok.
  - intros d k s v. destruct (d !! k) eqn:E; intros Eq; inversion Eq; subst; intros Hok; [| done].
    by apply bool_decide_eq_true in Hok.
  - intros d seek p [= <-] _. cbn. split_and!.
    + apply StronglySorted_merge_sort; apply _.
    + rewrite merge_sort_Permutation. eapply sublist_NoDup; [apply (NoDup_fst_map_to_list d) |].
      apply fmap_sublist, sublist_filter.
    + intros k v. rewrite merge_sort_Permutation, list_elem_of_filter, elem_of_map_to_list. naive_solver.
Defined.

(** ** The abstract map of a database *)

(** The inode number a key can tell apart: 56 bits. *)
Definition DirId_fits (id : DirId) : Prop := word 64 (dno id) /\ word 56 (ino id).
#[global] Instance DirId_fits_dec id : Decision (DirId_fits id).
Proof. unfold DirId_fits. apply _. Defined.

Lemma entry_key_inj id suf id' suf' :
  DirId_fits id -> DirId_fits id' -> entry_key id suf = entry_key id' suf' ->
  id = id' /\ suf = suf'.
Proof.
  intros [Hd Hi] [Hd' Hi'] E. destruct (Key_inj _ _ _ _ _ _ _ _ Hd Hd' Hi Hi' E) as (Ed & Ei & _ & En).
  split; [| done]. destruct id, id'. by f_equal.
Qed.

(** The entry of a name: the stat its value decodes to. *)
Definition entries (m : gmap Slice Slice) (id : DirId) (suf : Slice) : option Stat :=
  v ← m !! entry_key id suf; fst <$> Stat_DecodeFrom v.

(** Every pair of the database is an entry written by [PUT] with the name as suffix. *)
Definition db_wf (fmt : MXDBFormat) (m : gmap Slice Slice) : Prop :=
  ∀ k v, m !! k = Some v -> ∃ id name stat, DirId_fits id /\ Stat_wf stat /\ word 32 (|[name]|) /\
    k = entry_key id name /\ v = put_value fmt stat name.

Lemma put_value_eq fmt stat name : word 32 (|[name]|) ->
  put_value fmt stat name =
    Stat_EncodeTo stat ++ match fmt with kNameInKey => [] | kNameInValue => EncodeLengthPrefixedSlice name end.
Proof.
  intros Hn. unfold put_value. destruct fmt; [| by rewrite app_nil_r].
  case_match; [done |]. by apply PutLengthPrefixedSlice_app.
Qed.

Lemma put_value_decode fmt stat name :
  Stat_wf stat -> word 32 (|[name]|) ->
  Stat_DecodeFrom (put_value fmt stat name)
  = Some (stat, match fmt with kNameInKey => [] | kNameInValue => EncodeLengthPrefixedSlice name end).
Proof. intros. rewrite put_value_eq by done. by apply Stat_DecodeFrom_EncodeTo. Qed.

Lemma entries_put fmt m id name stat id' name' :
  DirId_fits id -> DirId_fits id' -> Stat_wf stat -> word 32 (|[name]|) ->
  entries (<[entry_key id name := put_value fmt stat name]> m) id' name'
  = if decide ((id', name') = (id, name)) then Some stat else entries m id' name'.
Proof.
  intros Hid Hid' Hs Hn. unfold entries. case_decide as Hd.
  - injection Hd as -> ->. rewrite lookup_insert_eq. cbn [mbind option_bind].
    by rewrite put_value_decode.
  - rewrite lookup_insert_ne; [done |]. intros E. apply Hd.
    apply entry_key_inj in E as [-> ->]; done.
Qed.

Lemma entries_delete m id name id' name' :
  DirId_fits id -> DirId_fits id' ->
  entries (delete (entry_key id name) m) id' name'
  = if decide ((id', name') = (id, name)) then None else entries m id' name'.
Proof.
  intros Hid Hid'. unfold entries. case_decide as Hd.
  - injection Hd as -> ->. by rewrite lookup_delete_eq.
  - rewrite lookup_delete_ne; [done |]. intros E. apply Hd.
    apply entry_key_inj in E as [-> ->]; done.
Qed.

Lemma db_wf_put fmt m id name stat :
  db_wf fmt m -> DirId_fits id -> Stat_wf stat -> word 32 (|[name]|) ->
  db_wf fmt (<[entry_key id name := put_value fmt stat name]> m).
Proof.
  intros Hwf Hid Hs Hn k v. destruct (decide (k = entry_key id name)) as [-> | Hne].
  - rewrite lookup_insert_eq. intros [= <-]. by exists id, name, stat.
  - rewrite lookup_insert_ne by done. apply Hwf.
Qed.

Lemma db_wf_delete fmt m k : db_wf fmt m -> db_wf fmt (delete k m).
Proof. intros Hwf k' v [_ E]%lookup_delete_Some. by apply Hwf. Qed.

(** ** Scanning a directory *)
Lemma prefix_interval p k t :
  Slice_le p k -> Slice_le k (p ++ t) -> starts_with k p = true.
Proof.
  unfold starts_with, Slice_le. rewrite bool_decide_eq_true.
  revert k. induction p as [| x p IH]; intros [| y k]; cbn; try done.
  rewrite (Z.compare_antisym x y).
  destruct (Z.compare_spec x y) as [-> | |]; cbn; intros H1 H2; [| by destruct H2 | by destruct H1].
  f_equal. by apply IH.
Qed.

Lemma Slice_le_app p s : Slice_le p (p ++ s).
Proof.
  unfold Slice_le. induction p as [| x p IH]; cbn; [by destruct s |]. by rewrite Z.compare_refl.
Qed.

(** What the scan makes of one pair: nothing outside the directory. *)
Definition scan_pair (fmt : MXDBFormat) (prefix : Slice) (kv : Slice * Slice) : option (Stat * Slice) :=
  if starts_with kv.1 prefix then
    '(stat, input) ← Stat_DecodeFrom kv.2;
    name ← entry_name fmt prefix kv.1 input;
    Some (stat, name)
  else None.

Definition dir_prefix (id : DirId) : Slice := Key (dno id) (ino id) kDirEntType.

Lemma entry_key_app id name : entry_key id name = dir_prefix id ++ name.
Proof. apply SetSuffix_Key. Qed.

Lemma entry_name_put fmt id name :
  word 32 (|[name]|) ->
  entry_name fmt (dir_prefix id) (entry_key id name)
    match fmt with kNameInKey => [] | kNameInValue => EncodeLengthPrefixedSlice name end = Some name.
Proof.
  intros Hn. destruct fmt; cbn [entry_name].
  - rewrite <- (app_nil_r (EncodeLengthPrefixedSlice name)).
    by rewrite GetLengthPrefixedSlice_encode by apply Hn.
  - by rewrite entry_key_app, drop_app_length.
Qed.

Lemma starts_with_entry id id' name :
  DirId_fits id -> DirId_fits id' -> starts_with (entry_key id' name) (dir_prefix id) = true -> id' = id.
Proof.
  intros [Hd Hi] [Hd' Hi'] E.
  destruct (proj1 (starts_with_Key name (dno id') (ino id') kDirEntType (dno id) (ino id) kDirEntType
    Hd' Hd Hi' Hi) E) as (E1 & E2 & _).
  destruct id as [d i], id' as [d' i']. cbn in E1, E2. by subst.
Qed.

Lemma scan_pair_put fmt id id' name stat :
  DirId_fits id -> DirId_fits id' -> Stat_wf stat -> word 32 (|[name]|) ->
  scan_pair fmt (dir_prefix id) (entry_key id' name, put_value fmt stat name)
  = if decide (id' = id) then Some (stat, name) else None.
Proof.
  intros Hid Hid' Hs Hn. unfold scan_pair. cbn [fst snd].
  case_decide as Hd.
  - subst id'. rewrite entry_key_app, starts_with_app, put_value_decode by done. cbn [mbind option_bind].
    rewrite <- entry_key_app. by rewrite entry_name_put.
  - destruct (starts_with (entry_key id' name) (dir_prefix id)) eqn:E; [| done].
    exfalso. apply Hd. by eapply starts_with_entry.
Qed.

Lemma scan_in_dir fmt id kv kv' :
  Slice_le (dir_prefix id) kv.1 -> pair_le kv kv' -> starts_with kv.1 (dir_prefix id) = false ->
  scan_pair fmt (dir_prefix id) kv' = None.
Proof.
  intros Hge Hle Hs. unfold scan_pair. destruct (starts_with kv'.1 (dir_prefix id)) eqn:E; [| done].
  unfold starts_with in E. apply bool_decide_eq_true in E.
  assert (kv'.1 = dir_prefix id ++ drop (length (dir_prefix id)) kv'.1) as E'
    by (rewrite <- E at 1; by rewrite take_drop).
  unfold pair_le in Hle. rewrite E' in Hle. by rewrite (prefix_interval _ _ _ Hge Hle) in Hs.
Qed.

(** The scan loop stops at the first pair outside the directory, which loses nothing. *)
Lemma LIST_loop_spec fmt id rest limit :
  StronglySorted pair_le rest ->
  (∀ kv, kv ∈ rest -> Slice_le (dir_prefix id) kv.1) ->
  (∀ kv, kv ∈ rest -> starts_with kv.1 (dir_prefix id) = true ->
    is_Some (scan_pair fmt (dir_prefix id) kv)) ->
  LIST_loop fmt (dir_prefix id) rest limit = take limit (omap (scan_pair fmt (dir_prefix id)) rest).
Proof.
  revert limit. induction rest as [| [k v] rest IH]; intros limit Hs Hge Hok.
  { by destruct limit. }
  apply StronglySorted_inv in Hs as [Hs Hle].
  destruct limit as [| limit]; [done |]. cbn [LIST_loop omap list_omap].
  pose proof (Hok (k, v) ltac:(left)) as Hkv. unfold scan_pair at 1. unfold scan_pair in Hkv.
  cbn [fst snd] in *. destruct (starts_with k (dir_prefix id)) eqn:E; cbn [negb].
  - destruct (Hkv eq_refl) as [x Hx]. destruct (Stat_DecodeFrom v) as [[stat input] |]; [| done].
    cbn [mbind option_bind] in *. destruct (entry_name fmt _ k input); [| done]. cbn.
    f_equal. apply IH; [done | |]; intros; [apply Hge | apply Hok]; try done; by right.
  - assert (omap (scan_pair fmt (dir_prefix id)) rest = []) as ->; [| by destruct limit].
    rewrite Forall_forall in Hle. assert (∀ kv, kv ∈ rest -> scan_pair fmt (dir_prefix id) kv = None) as Hn.
    { intros kv Hin. eapply (scan_in_dir fmt id (k, v)); [by apply (Hge (k, v)); left | | done].
      apply Hle. by apply list_elem_of_In. }
    clear -Hn. induction rest as [| kv rest IH]; [done |]. cbn.
    rewrite Hn by left. apply IH. intros. apply Hn. by right.
Qed.

Lemma Slice_le_prefix id a b : Slice_le (entry_key id a) (entry_key id b) <-> Slice_le a b.
Proof.
  unfold Slice_le. rewrite !entry_key_app, Slice_compare_app, Slice_compare_refl by done. done.
Qed.

(** ** The scan of a list of pairs written by [PUT] *)
Definition entry_pair (fmt : MXDBFormat) (kv : Slice * Slice) : Prop :=
  ∃ id name stat, DirId_fits id /\ Stat_wf stat /\ word 32 (|[name]|) /\
    kv = (entry_key id name, put_value fmt stat name).

Lemma scan_elem fmt id (l : list (Slice * Slice)) stat name :
  DirId_fits id -> (∀ kv, kv ∈ l -> entry_pair fmt kv) ->
  (stat, name) ∈ omap (scan_pair fmt (dir_prefix id)) l <->
  ∃ v, (entry_key id name, v) ∈ l /\ Stat_wf stat /\ word 32 (|[name]|) /\ v = put_value fmt stat name.
Proof.
  intros Hid Hp. rewrite list_elem_of_omap. split.
  - intros (kv & Hin & Es). destruct (Hp kv Hin) as (id' & n' & s' & ? & ? & ? & ->).
    rewrite scan_pair_put in Es by done. case_decide; [| done]. subst. injection Es as -> ->.
    eexists. by split_and!.
  - intros (v & Hin & ? & ? & ->). eexists. split; [done |].
    by rewrite scan_pair_put, decide_True by done.
Qed.

Lemma scan_sorted fmt id (l : list (Slice * Slice)) :
  DirId_fits id -> (∀ kv, kv ∈ l -> entry_pair fmt kv) ->
  StronglySorted pair_le l -> NoDup l.*1 ->
  let all := omap (scan_pair fmt (dir_prefix id)) l in
  StronglySorted (λ e e', Slice_le e.2 e'.2) all /\ NoDup all.*2.
Proof.
  intros Hid Hp Hs Hnd. cbn zeta. induction Hs as [| kv l Hs IH Hall]; [split; constructor |].
  cbn [fmap list_fmap] in Hnd. apply list.NoDup_cons in Hnd as [Hni Hnd].
  assert (∀ kv, kv ∈ l -> entry_pair fmt kv) as Hp' by (intros; apply Hp; by right).
  destruct (IH Hp' Hnd) as [IH1 IH2]. cbn [omap list_omap].
  destruct (Hp kv ltac:(left)) as (id' & name & stat & ? & ? & ? & ->).
  rewrite scan_pair_put by done. case_decide as Hd; [| done]. subst id'. split.
  - constructor; [done |]. apply Forall_forall. intros [stat' name'] Hin.
    apply list_elem_of_In, scan_elem in Hin as (v & Hin & _); [| done | done].
    rewrite Forall_forall in Hall. specialize (Hall _ (proj1 (list_elem_of_In _ _) Hin)).
    cbn. by apply (Slice_le_prefix id).
  - cbn [fmap list_fmap snd]. apply list.NoDup_cons. split; [| done].
    intros ([stat' name'] & E & Hin)%list_elem_of_fmap. cbn [snd] in E. subst name'.
    apply scan_elem in Hin as (v & Hin & _); [| done | done].
    apply Hni. apply list_elem_of_fmap. by exists (entry_key id name, v).
Qed.

(** * The metadata database: refinement theorems

    Against any store that satisfies [KvLaws]: [PUT], [DELETE] and [GET] act on the
    abstract map [entries], [LIST] enumerates a directory in name order. *)

(** What a client that calls [READDIR] at most [n] times and stops at the first status that is not OK reads. *)
Fixpoint READDIR_n (fmt : MXDBFormat) (n : nat) (dir : option Dir) : list (Stat * Slice) :=
  match n with
  | O => []
  | S n =>
      match READDIR fmt dir with
      | (s, dir, Some stat, Some name) => if ok s then (stat, name) :: READDIR_n fmt n dir else []
      | _ => []
      end
  end.

(** Reading one by one gives what the loop of [LIST] gives. *)
Lemma READDIR_n_LIST fmt n d :
  READDIR_n fmt n (Some d) = LIST_loop fmt (key_prefix d) (it_rest (iter d)) n.
Proof.
  revert d. induction n as [| n IH]; intros [k p [rest st]]; cbn [READDIR_n READDIR LIST_loop it_rest iter key_prefix].
  { by destruct rest as [| []]. }
  destruct rest as [| [key input] rest]; [reflexivity |]. cbn [LIST_loop].
  destruct (starts_with key p); cbn [negb]; [| reflexivity].
  destruct (Stat_DecodeFrom input) as [[stat inp] |]; [| reflexivity].
  destruct (entry_name fmt p key inp) as [nm |]; [| reflexivity].
  change (ok OK) with true. f_equal. apply IH.
Qed.

Section Refinement.
Context {DX : Type} `{KvLaws DX}.
Variable fmt : MXDBFormat.
Implicit Types (dx : DX) (id : DirId) (name : Slice).

Definition lookup_entry dx id name : option Stat := entries (dx_view dx) id name.
Definition dx_wf dx : Prop := db_wf fmt (dx_view dx).

Lemma PUT_ok dx id name stat perf dx' perf' tx' :
  PUT fmt dx id name stat name None perf = (OK, dx', tx', perf') ->
  dx_view dx' = <[entry_key id name := put_value fmt stat name]> (dx_view dx).
Proof.
  unfold PUT. destruct (dx_Put _ _ _) as [st d] eqn:E. intros [= Hs <- _ _].
  destruct (ok st) eqn:Hok; [by eapply Put_ok |].
  unfold XSTATUS in Hs. by destruct (IsNotFound st).
Qed.

Lemma PUT_err dx id name stat perf s dx' perf' tx' :
  PUT fmt dx id name stat name None perf = (s, dx', tx', perf') -> ok s = false ->
  dx_view dx' = dx_view dx \/
  dx_view dx' = <[entry_key id name := put_value fmt stat name]> (dx_view dx).
Proof.
  unfold PUT. destruct (dx_Put _ _ _) as [st d] eqn:E. intros [= Hs <- _ _] Hf.
  destruct (ok st) eqn:Hok; [by subst | by eapply Put_err].
Qed.

(** [GET] on a well-formed database never reports corruption: it finds exactly the
    entries of the abstract map. *)
Lemma GET_ok dx id name wn perf s stat n perf' :
  dx_wf dx -> DirId_fits id ->
  GET fmt dx id name wn None perf = (s, stat, n, perf') ->
  (ok s = true -> stat <> None /\ lookup_entry dx id name = stat) /\
  (IsNotFound s = true -> lookup_entry dx id name = None).
Proof.
  intros Hwf Hid. unfold GET. cbn [read_view mbind option_bind default].
  destruct (dx_Get dx (entry_key id name)) as [st v] eqn:E.
  unfold lookup_entry, entries.
  destruct (ok st) eqn:Hok.
  - pose proof (Get_ok _ _ _ _ E Hok) as Hl. rewrite Hl. cbn [mbind option_bind].
    destruct (Hwf _ _ Hl) as (id' & name' & stat' & Hid' & Hs' & Hn' & Ek & ->).
    apply entry_key_inj in Ek as [<- <-]; [| done | done].
    rewrite put_value_decode by done. cbn [fmap option_fmap option_map fst].
    intros Eq. assert (s = OK /\ stat = Some stat') as [-> ->].
    { destruct wn; [destruct fmt |]; try by inversion Eq.
      rewrite <- (app_nil_r (EncodeLengthPrefixedSlice name)) in Eq.
      rewrite GetLengthPrefixedSlice_encode in Eq by apply Hn'. by inversion Eq. }
    split; [done |]. intros Hnf. by apply bool_decide_eq_true in Hnf.
  - intros [= <- <- _ _]. unfold XSTATUS. destruct (IsNotFound st) eqn:Hnf.
    + split; [intros Hc; by apply bool_decide_eq_true in Hc |].
      intros _. by rewrite (Get_NotFound _ _ _ _ E Hnf).
    + split; intros Hc; by apply bool_decide_eq_true in Hc.
Qed.

(** [PUT] is insertion. *)
Lemma PUT_map dx id name stat perf s dx' tx' perf' :
  dx_wf dx -> DirId_fits id -> Stat_wf stat -> word 32 (|[name]|) ->
  PUT fmt dx id name stat name None perf = (s, dx', tx', perf') ->
  dx_wf dx' /\
  (let old := lookup_entry dx in
   let new := λ id' name', if decide ((id', name') = (id, name)) then Some stat else old id' name' in
   let after := λ m, ∀ id' name', DirId_fits id' -> lookup_entry dx' id' name' = m id' name' in
   if ok s then after new else after old \/ after new).
Proof.
  intros Hwf Hid Hs Hn E. unfold dx_wf, lookup_entry. destruct (ok s) eqn:Hok.
  - apply bool_decide_eq_true in Hok as ->. apply PUT_ok in E as ->.
    split; [by apply db_wf_put |]. intros id' name' Hid'. by apply entries_put.
  - destruct (PUT_err _ _ _ _ _ _ _ _ _ E Hok) as [-> | ->].
    + split; [done |]. by left.
    + split; [by apply db_wf_put |]. right. intros id' name' Hid'. by apply entries_put.
Qed.

Lemma PUT_status dx id name stat perf s dx' tx' perf' :
  PUT fmt dx id name stat name None perf = (s, dx', tx', perf') ->
  ok s = ok (dx_Put dx (entry_key id name) (put_value fmt stat name)).1.
Proof.
  unfold PUT. destruct (dx_Put _ _ _) as [st d] eqn:E. intros [= <- _ _ _]. cbn [fst].
  destruct (ok st) eqn:Hok; [done |]. unfold XSTATUS. by destruct (IsNotFound st).
Qed.

(** [GET] is lookup: it fails only when the read of the store does, and then it reads nothing. *)
Lemma GET_map dx id name wn perf :
  dx_wf dx -> DirId_fits id ->
  let st := (dx_Get dx (entry_key id name)).1 in
  ∃ s stat n perf', GET fmt dx id name wn None perf = (s, stat, n, perf') /\ EXISTS dx id name None = s /\
    if ok st then s = OK /\ stat <> None /\ lookup_entry dx id name = stat /\ n = (if wn then Some name else None)
    else stat = None /\ n = None /\
      if IsNotFound st then s = MkStatus kNotFound [] [] /\ lookup_entry dx id name = None else code s = kIOError.
Proof.
  intros Hwf Hid. unfold GET, EXISTS, lookup_entry, entries. cbn [read_view mbind option_bind default].
  destruct (dx_Get dx (entry_key id name)) as [st v] eqn:E. cbn [fst].
  destruct (ok st) eqn:Hok.
  - pose proof (Get_ok _ _ _ _ E Hok) as Hl. rewrite Hl. cbn [mbind option_bind].
    destruct (Hwf _ _ Hl) as (id' & name' & stat' & Hid' & Hs' & Hn' & Ek & ->).
    apply entry_key_inj in Ek as [<- <-]; [| done | done].
    rewrite put_value_decode by done. cbn [fmap option_fmap option_map fst].
    destruct wn; [destruct fmt |]; try (by do 4 eexists).
    rewrite <- (app_nil_r (EncodeLengthPrefixedSlice name)), GetLengthPrefixedSlice_encode by apply Hn'.
    by do 4 eexists.
  - do 4 eexists. split; [reflexivity |]. split; [reflexivity |]. unfold XSTATUS.
    destruct (IsNotFound st) eqn:Hnf; [| done]. by rewrite (Get_NotFound _ _ _ _ E Hnf).
Qed.

(** [DELETE] is deletion. *)
Lemma DELETE_map dx id name s dx' tx' :
  dx_wf dx -> DirId_fits id -> DELETE dx id name None = (s, dx', tx') ->
  ok s = ok (dx_Delete dx (entry_key id name)).1 /\ dx_wf dx' /\
  (let old := lookup_entry dx in
   let new := λ id' name', if decide ((id', name') = (id, name)) then None else old id' name' in
   let after := λ m, ∀ id' name', DirId_fits id' -> lookup_entry dx' id' name' = m id' name' in
   if ok s then after new else after old \/ after new).
Proof.
  intros Hwf Hid. unfold DELETE. destruct (dx_Delete _ _) as [st d] eqn:E. intros [= <- <- _]. cbn [fst].
  assert (ok (if ok st then OK else XSTATUS st) = ok st) as ->.
  { destruct (ok st) eqn:Hst; [done |]. unfold XSTATUS. by destruct (IsNotFound st). }
  split; [done |]. unfold dx_wf, lookup_entry. destruct (ok st) eqn:Hst.
  - rewrite (Delete_ok _ _ _ _ E Hst). split; [by apply db_wf_delete |]. intros. by apply entries_delete.
  - destruct (Delete_err _ _ _ _ E Hst) as [-> | ->]; [split; [done | by left] |].
    split; [by apply db_wf_delete | right]. intros. by apply entries_delete.
Qed.

(** C15. The database templates refine an abstract map from a directory and a name to a stat.  On a well-formed
    database, outside a transaction:
    [PUT] is OK if and only if the store's update is, and then it is the insertion of the entry, every other entry of every
    directory being unchanged (directory ids with inode numbers below 2^56); a failed [PUT] leaves either the old map
    or the new one.  [GET] is lookup: whenever the store's read is OK, it is OK and gives the
    stat of the map, which has the entry, and the name if it was asked for; it is NotFound when the
    store finds nothing, and then the map has no such entry; any other failure is an I/O error, never a
    corruption, and assigns nothing.  [EXISTS] has the status of [GET].  [DELETE] is OK if and only if the store's update
    is, and then it removes the entry and no other; a failed one leaves the old map or the new one.  The
    database stays well formed in each case. *)
Theorem templates_refine_map dx id name :
  dx_wf dx -> DirId_fits id ->
  let old := lookup_entry dx in
  let after := λ dx' m, ∀ id' name', DirId_fits id' -> lookup_entry dx' id' name' = m id' name' in
  (∀ stat perf s dx' tx' perf', Stat_wf stat -> word 32 (|[name]|) ->
    PUT fmt dx id name stat name None perf = (s, dx', tx', perf') ->
    ok s = ok (dx_Put dx (entry_key id name) (put_value fmt stat name)).1 /\ dx_wf dx' /\
    let new := λ id' name', if decide ((id', name') = (id, name)) then Some stat else old id' name' in
    if ok s then after dx' new else after dx' old \/ after dx' new) /\
  (∀ wn perf, let st := (dx_Get dx (entry_key id name)).1 in
    ∃ s stat n perf', GET fmt dx id name wn None perf = (s, stat, n, perf') /\ EXISTS dx id name None = s /\
      if ok st then s = OK /\ stat <> None /\ old id name = stat /\ n = (if wn then Some name else None)
      else stat = None /\ n = None /\
        if IsNotFound st then s = MkStatus kNotFound [] [] /\ old id name = None else code s = kIOError) /\
  (∀ s dx' tx', DELETE dx id name None = (s, dx', tx') ->
    ok s = ok (dx_Delete dx (entry_key id name)).1 /\ dx_wf dx' /\
    let new := λ id' name', if decide ((id', name') = (id, name)) then None else old id' name' in
    if ok s then after dx' new else after dx' old \/ after dx' new).
Proof.
  intros Hwf Hid. cbn zeta. split_and!.
  - intros stat perf s dx' tx' perf' Hs Hn E. split; [by eapply PUT_status |]. exact (PUT_map _ _ _ _ _ _ _ _ _ Hwf Hid Hs Hn E).
  - intros wn perf. by apply GET_map.
  - intros s dx' tx'. by apply DELETE_map.
Qed.

(** The pairs an iterator gives from a directory's prefix on, scanned. *)
Lemma LIST_scan dx id seek :
  dx_wf dx -> DirId_fits id -> dx_NewIterator dx = Some seek ->
  ok (it_status (seek (dir_prefix id))) = true ->
  let all := omap (scan_pair fmt (dir_prefix id)) (it_rest (seek (dir_prefix id))) in
  (∀ limit, LIST fmt dx id None limit = Some (take limit all, length (take limit all))) /\
  StronglySorted (λ e e', Slice_le e.2 e'.2) all /\ NoDup all.*2 /\
  ∀ stat name, (stat, name) ∈ all <-> lookup_entry dx id name = Some stat.
Proof.
  intros Hwf Hid Hseek Hst all.
  destruct (NewIterator_ok _ _ _ Hseek Hst) as (Hsort & Hnd & Hin).
  set (rest := it_rest (seek (dir_prefix id))) in *.
  assert (∀ kv, kv ∈ rest -> entry_pair fmt kv) as Hpairs.
  { intros [k v] Hkv. apply Hin in Hkv as [Hkv _].
    destruct (Hwf _ _ Hkv) as (id' & name & stat & ? & ? & ? & -> & ->). by exists id', name, stat. }
  assert (∀ kv, kv ∈ rest -> Slice_le (dir_prefix id) kv.1) as Hge.
  { intros [k v] Hkv. by apply Hin in Hkv as [_ ?]. }
  split_and!.
  - intros limit. unfold LIST. cbn [read_view mbind option_bind default]. rewrite Hseek.
    cbn [mbind option_bind]. fold (dir_prefix id).
    change (Key_prefix (dir_prefix id)) with (dir_prefix id). fold rest.
    rewrite LIST_loop_spec; [done | done | done |].
    intros kv Hkv Hsw. destruct (Hpairs kv Hkv) as (id' & name & stat & ? & ? & ? & ->).
    rewrite scan_pair_put by done. cbn [fst] in Hsw.
    case_decide as Hd; [by eexists |]. exfalso. apply Hd.
    by eapply starts_with_entry.
  - by apply scan_sorted.
  - by apply scan_sorted.
  - intros stat name. subst all. rewrite scan_elem by done. unfold lookup_entry, entries. split.
    + intros (v & Hv & ? & ? & ->). apply Hin in Hv as [-> _]. cbn [mbind option_bind].
      by rewrite put_value_decode.
    + destruct (dx_view dx !! entry_key id name) as [v |] eqn:E; [| done]. cbn [mbind option_bind].
      destruct (Hwf _ _ E) as (id' & name' & stat' & Hid' & ? & ? & Ek & ->).
      apply entry_key_inj in Ek as [<- <-]; [| done | done].
      rewrite put_value_decode by done. intros [= ->]. eexists. split_and!; [| done | done | done].
      apply Hin. split; [done |]. rewrite entry_key_app.
      rewrite <- (app_nil_r (dir_prefix id)) at 1. rewrite app_nil_r.
      apply Slice_le_app.
Qed.

(** C16. A directory scan is the ordered enumeration of the directory: [LIST] returns the first
    [limit] elements of one list that has exactly the entries of the directory in the abstract
    map, sorted by name without a duplicate; entries of other directories never appear nor cut the
    scan short; and [OPENDIR] followed by [READDIR] calls reads the same list entry by entry. *)
Theorem LIST_enumerates dx id seek :
  dx_wf dx -> DirId_fits id -> dx_NewIterator dx = Some seek ->
  ok (it_status (seek (dir_prefix id))) = true ->
  ∃ all, StronglySorted (λ e e', Slice_le e.2 e'.2) all /\ NoDup all.*2 /\
    (∀ stat name, (stat, name) ∈ all <-> lookup_entry dx id name = Some stat) /\
    (∀ limit, LIST fmt dx id None limit = Some (take limit all, length (take limit all))) /\
    ∀ n, READDIR_n fmt n (OPENDIR dx id None) = take n all.
Proof.
  intros Hwf Hid Hseek Hst. destruct (LIST_scan dx id seek Hwf Hid Hseek Hst) as (Hl & Hs & Hn & Hin).
  eexists. split_and!; [done | done | done | done |].
  intros n. unfold OPENDIR. cbn [read_view mbind option_bind default]. rewrite Hseek.
  cbn [mbind option_bind]. rewrite READDIR_n_LIST. cbn [key_prefix iter].
  specialize (Hl n). unfold LIST in Hl. cbn [read_view mbind option_bind default] in Hl.
  rewrite Hseek in Hl. cbn [mbind option_bind] in Hl. by injection Hl.
Qed.
End Refinement.

(** ** Witnesses on the finite map *)
Definition ex_stat (i : Z) : Stat := MkStat 0 i 0 0 0 (Z.lor S_IFREG 420) 0 1 1.
Definition ex_db : MemDb :=
  <[entry_key (MkDirId 0 0) (lit "b") := put_value kNameInKey (ex_stat 5) (lit "b")]> ∅.

Lemma ex_db_wf : dx_wf kNameInKey ex_db.
Proof.
  unfold dx_wf. change (dx_view ex_db) with (ex_db : gmap Slice Slice). unfold ex_db.
  apply db_wf_put; [intros k v; by rewrite lookup_empty | | |]; by_compute.
Qed.

(** A creation, a lookup that finds its entry, a lookup that finds nothing and a deletion. *)
Lemma templates_refine_map_witness :
  let root := MkDirId 0 0 in
  (∃ dx', dx_wf kNameInKey (dx' : MemDb) /\ lookup_entry dx' root (lit "a") = Some (ex_stat 7) /\
     lookup_entry dx' root (lit "b") = Some (ex_stat 5)) /\
  (∃ perf, GET kNameInKey ex_db root (lit "b") true None None = (OK, Some (ex_stat 5), Some (lit "b"), perf)) /\
  (∃ perf, GET kNameInKey ex_db root (lit "a") true None None = (MkStatus kNotFound [] [], None, None, perf)) /\
  (∃ dx' : MemDb, dx_wf kNameInKey dx' /\ lookup_entry dx' root (lit "b") = None).
Proof.
  assert (DirId_fits (MkDirId 0 0)) as Hid by by_compute. cbn zeta.
  destruct (templates_refine_map kNameInKey ex_db (MkDirId 0 0) (lit "a") ex_db_wf Hid) as (Hput & Hnone & _).
  destruct (templates_refine_map kNameInKey ex_db (MkDirId 0 0) (lit "b") ex_db_wf Hid) as (_ & Hget & Hdelete). split_and!.
  - assert (∃ r, PUT kNameInKey ex_db (MkDirId 0 0) (lit "a") (ex_stat 7) (lit "a") None None = r /\ ok r.1.1.1 = true)
      as ([[[s dx'] tx'] perf'] & E & Hs) by (eexists; split; [reflexivity | vm_compute; reflexivity]).
    destruct (Hput (ex_stat 7) None s dx' tx' perf') as (_ & Hwf & Ha); [by_compute | by_compute | exact E |].
    exists dx'. split; [exact Hwf |]. cbn [fst] in Hs. rewrite Hs in Ha.
    split; rewrite Ha by by_compute; vm_compute; reflexivity.
  - destruct (Hget true None) as (s & stat & n & perf & E & _ & Hr).
    assert (ok (dx_Get ex_db (entry_key (MkDirId 0 0) (lit "b"))).1 = true) as Eok by (vm_compute; reflexivity).
    rewrite Eok in Hr. destruct Hr as (-> & _ & <- & ->). exists perf. rewrite E. vm_compute. reflexivity.
  - destruct (Hnone true None) as (s & stat & n & perf & E & _ & Hr).
    assert (ok (dx_Get ex_db (entry_key (MkDirId 0 0) (lit "a"))).1 = false) as Eok by (vm_compute; reflexivity).
    assert (IsNotFound (dx_Get ex_db (entry_key (MkDirId 0 0) (lit "a"))).1 = true) as Enf by (vm_compute; reflexivity).
    rewrite Eok, Enf in Hr. destruct Hr as (-> & -> & -> & _). exists perf. exact E.
  - assert (∃ r, DELETE ex_db (MkDirId 0 0) (lit "b") None = r /\ ok r.1.1 = true) as ([[s dx'] tx'] & E & Hs)
      by (eexists; split; [reflexivity | vm_compute; reflexivity]).
    destruct (Hdelete s dx' tx' E) as (_ & Hwf & Ha).
    exists dx'. split; [exact Hwf |]. cbn [fst] in Hs. rewrite Hs in Ha. rewrite Ha by by_compute. reflexivity.
Defined.

Lemma LIST_enumerates_witness :
  ∃ all, (ex_stat 5, lit "b") ∈ all /\
    LIST kNameInKey ex_db (MkDirId 0 0) None 10 = Some (take 10 all, length (take 10 all)).
Proof.
  destruct (LIST_enumerates kNameInKey ex_db (MkDirId 0 0) (mem_seek ex_db)) as (all & _ & _ & Hin & Hl & _).
  - exact ex_db_wf.
  - by_compute.
  - reflexivity.
  - reflexivity.
  - exists all. split; [apply Hin; vm_compute; reflexivity | apply Hl].
Defined.
