(* ===== verification/HashTable.v ===== *)
(** * Chained hash table ([pdlfs-common/hashmap.h], class [HashTable])

    The table is generic in its entries: pointers to objects that carry an immutable key
    and hash.  An entry type has decidable equality (pointer comparison).  A slot, the
    [E**] that [FindPointer] returns, is a bucket and a position of its chain.  The
    second half proves that the table is a finite map from keys to entries. *)
From S2P Require Import Prelude.
(** What the table asks of its entries. *)
Class Entry (E : Type) := {
  e_key : E -> Slice;
  e_hash : E -> Z
}.

Record HashTable (E : Type) := MkHashTable {
  length_ : Z;
  elems_ : Z;
  list_ : list (list E)
}.
Arguments MkHashTable {E}. Arguments length_ {E}. Arguments elems_ {E}. Arguments list_ {E}.

Section Table.
Context {E : Type} `{EqDecision E} `{Entry E}.
Implicit Types (t : HashTable E) (e : E) (key : Slice).

Definition bucket_of (len hash : Z) : nat := Z.to_nat (Z.land hash (len - 1)).
Definition chain t (b : nat) : list E := default [] (list_ t !! b).

(** The test of the search loop. *)
Definition matches key (hash : Z) (e : E) : bool :=
  (e_hash e =? hash) && bool_decide (key = e_key e).

Fixpoint find_pos key (hash : Z) (l : list E) : nat :=
  match l with
  | [] => O
  | e :: l => if matches key hash e then O else S (find_pos key hash l)
  end.

(** [FindPointer], and the entry a slot points to. *)
Definition FindPointer t key (hash : Z) : nat * nat :=
  let b := bucket_of (length_ t) hash in (b, find_pos key hash (chain t b)).
Definition deref t (slot : nat * nat) : option E := chain t slot.1 !! slot.2.

(** [Resize]: the next length, then every entry pushed to the front of its new chain. *)
Fixpoint new_length_loop (fuel : nat) (new_length elems : Z) : Z :=
  match fuel with
  | O => new_length
  | S fuel => if new_length <? elems then new_length_loop fuel (u32 (new_length * 2)) elems
              else new_length
  end.
Definition rehash1 (len : Z) (new_list : list (list E)) (e : E) : list (list E) :=
  alter (cons e) (bucket_of len (e_hash e)) new_list.
Definition Resize t : HashTable E :=
  let new_length := new_length_loop 32 4 (elems_ t) in
  MkHashTable new_length (elems_ t)
    (foldl (rehash1 new_length) (replicate (Z.to_nat new_length) []) (concat (list_ t))).

Definition NewHashTable : HashTable E := Resize (MkHashTable 0 0 []).

(** [Inject]: the table and the entry that was replaced. *)
Definition Inject e (slot : nat * nat) t : HashTable E * option E :=
  match deref t slot with
  | Some old => (MkHashTable (length_ t) (elems_ t) (alter (<[slot.2 := e]>) slot.1 (list_ t)), Some old)
  | None =>
      let elems := u32 (elems_ t + 1) in
      let t := MkHashTable (length_ t) elems (alter (λ l, l ++ [e]) slot.1 (list_ t)) in
      (if elems >? length_ t then Resize t else t, None)
  end.
Definition Insert e t : HashTable E * option E := Inject e (FindPointer t (e_key e) (e_hash e)) t.

(** Unlinking the entry of a slot. *)
Definition unlink t (slot : nat * nat) : HashTable E :=
  MkHashTable (length_ t) (u32 (elems_ t - 1)) (alter (delete slot.2) slot.1 (list_ t)).

(** [Remove(E* e)] and [Remove(key, hash)]. *)
Definition Remove_entry e t : HashTable E * option E :=
  let slot := FindPointer t (e_key e) (e_hash e) in
  if decide (deref t slot = Some e) then (unlink t slot, Some e) else (t, None).
Definition Remove_key key (hash : Z) t : HashTable E * option E :=
  let slot := FindPointer t key hash in
  match deref t slot with
  | Some e => (unlink t slot, Some e)
  | None => (t, None)
  end.

Definition Empty t : bool := elems_ t =? 0.
Definition Size t : Z := elems_ t.
Definition Lookup t key (hash : Z) : option E := deref t (FindPointer t key hash).

(** ** Invariant *)
Definition elements t : list E := concat (list_ t).

(** The hash of an entry is a function of its key. *)
Variable hashval : Slice -> Z.
Definition hashed e : Prop := e_hash e = hashval (e_key e).

Record ht_wf t : Prop := {
  ht_length : ∃ k, 2 <= k <= 31 ∧ length_ t = 2 ^ k;
  ht_buckets : Z.of_nat (length (list_ t)) = length_ t;
  ht_elems : elems_ t = Z.of_nat (length (elements t));
  ht_small : Z.of_nat (length (elements t)) <= 2 ^ 31;
  ht_placed : ∀ b l e, list_ t !! b = Some l -> e ∈ l -> bucket_of (length_ t) (e_hash e) = b;
  ht_hashed : Forall hashed (elements t);
  ht_nodup : NoDup (e_key <$> elements t)
}.

Lemma elem_of_elements t e : e ∈ elements t <-> ∃ b l, list_ t !! b = Some l /\ e ∈ l.
Proof.
  unfold elements. rewrite list_elem_of_In, in_concat. split.
  - intros (l & Hl & He). apply list_elem_of_In, list_elem_of_lookup in Hl as [b Hb].
    exists b, l. split; [done |]. by apply list_elem_of_In.
  - intros (b & l & Hb & He). exists l.
    split; apply list_elem_of_In; [by apply list_elem_of_lookup_2 in Hb | done].
Qed.

Lemma matches_spec key e : hashed e -> matches key (hashval key) e = true <-> e_key e = key.
Proof.
  intros Hh. unfold matches, hashed in *. rewrite andb_true_iff, Z.eqb_eq, bool_decide_eq_true.
  split; [intros [_ ->]; done | intros <-; done].
Qed.

Lemma find_pos_spec key hash l :
  match l !! find_pos key hash l with
  | Some e => e ∈ l /\ matches key hash e = true
  | None => find_pos key hash l = length l /\ ∀ e, e ∈ l -> matches key hash e = false
  end.
Proof.
  induction l as [| e l IH]; cbn [find_pos]; [split; [done | by intros ? ?%elem_of_nil] |].
  destruct (matches key hash e) eqn:Em; cbn; [by split; [left |] |].
  destruct (l !! find_pos key hash l) as [e' |].
  - destruct IH. split; [by right | done].
  - destruct IH as [-> IH]. split; [done |]. intros e' [-> | ?]%elem_of_cons; [done | by apply IH].
Qed.

Lemma find_pos_le key hash l : (find_pos key hash l <= length l)%nat.
Proof. induction l; cbn; [done |]. case_match; lia. Qed.

(** Changing one chain changes only its part of the elements. *)
Lemma concat_alter (ls : list (list E)) b l :
  ls !! b = Some l ->
  ∃ rest, concat ls ≡ₚ l ++ rest /\ ∀ f, concat (alter f b ls) ≡ₚ f l ++ rest.
Proof.
  revert b. induction ls as [| l0 ls IH]; intros b Hb; [done |]. destruct b as [| b].
  - injection Hb as ->. exists (concat ls). by split.
  - destruct (IH b Hb) as (rest & E1 & E2). exists (l0 ++ rest). split.
    + cbn. rewrite E1. by rewrite !app_assoc, (Permutation_app_comm l0 l).
    + intros f. cbn. rewrite E2. by rewrite !app_assoc, (Permutation_app_comm l0 (f l)).
Qed.

Lemma bucket_lt k hash : 0 <= k -> (bucket_of (2 ^ k) hash < Z.to_nat (2 ^ k))%nat.
Proof.
  intros Hk. unfold bucket_of. replace (2 ^ k - 1) with (Z.ones k) by (rewrite Z.ones_equiv; lia).
  rewrite Z.land_ones by done.
  pose proof (Z.mod_pos_bound hash (2 ^ k)). pose proof (Z.pow_pos_nonneg 2 k). lia.
Qed.

Lemma bucket_lookup t hash : ht_wf t -> ∃ l, list_ t !! bucket_of (length_ t) hash = Some l.
Proof.
  intros Hwf. destruct (ht_length _ Hwf) as (k & Hk & El). pose proof (ht_buckets _ Hwf) as Hb.
  apply lookup_lt_is_Some_2. rewrite El. pose proof (bucket_lt k hash ltac:(lia)). lia.
Qed.

Lemma fmap_inj_in (l : list E) e e' :
  NoDup (e_key <$> l) -> e ∈ l -> e' ∈ l -> e_key e = e_key e' -> e = e'.
Proof.
  induction l as [| x l IH]; cbn; [by intros _ ?%elem_of_nil |].
  intros [Hni Hnd]%list.NoDup_cons [-> | He]%elem_of_cons [-> | He']%elem_of_cons Ek; try done.
  - exfalso. apply Hni. rewrite Ek. by apply list_elem_of_fmap_2.
  - exfalso. apply Hni. rewrite <- Ek. by apply list_elem_of_fmap_2.
  - by apply IH.
Qed.

Lemma wf_key_inj t e e' :
  ht_wf t -> e ∈ elements t -> e' ∈ elements t -> e_key e = e_key e' -> e = e'.
Proof. intros Hwf. apply fmap_inj_in, Hwf. Qed.

Lemma wf_hashed t e : ht_wf t -> e ∈ elements t -> hashed e.
Proof. intros Hwf He. pose proof (ht_hashed _ Hwf) as Hh. rewrite list.Forall_forall in Hh. auto. Qed.

(** The slot of a key points to the element with that key. *)
Lemma Lookup_spec t key e :
  ht_wf t -> Lookup t key (hashval key) = Some e <-> e ∈ elements t /\ e_key e = key.
Proof.
  intros Hwf. unfold Lookup, FindPointer, deref, chain. cbn [fst snd].
  destruct (bucket_lookup t (hashval key) Hwf) as [l Hl]. rewrite Hl. change (default [] (Some l)) with l.
  pose proof (find_pos_spec key (hashval key) l) as Hf.
  destruct (l !! find_pos key (hashval key) l) as [e' |] eqn:El.
  - destruct Hf as [Hin Hm]. assert (e' ∈ elements t) as Hin' by (apply elem_of_elements; eauto).
    apply matches_spec in Hm; [| by eapply wf_hashed]. split.
    + by intros [= ->].
    + intros [He Ek]. f_equal. eapply wf_key_inj; [done.. | congruence].
  - split; [done |]. intros [He Ek]. exfalso. pose proof (wf_hashed _ _ Hwf He) as Hh.
    apply elem_of_elements in He as (b & l' & Hb & He).
    pose proof (ht_placed _ Hwf _ _ _ Hb He) as Hp. unfold hashed in Hh. rewrite Hh, Ek in Hp.
    subst b. rewrite Hl in Hb. injection Hb as ->. destruct Hf as [_ Hf]. specialize (Hf e He).
    rewrite (proj2 (matches_spec key e Hh) Ek) in Hf. done.
Qed.

(** ** Resizing *)
Lemma new_length_spec fuel j elems :
  0 <= elems <= 2 ^ 31 -> 2 <= j <= 31 -> 31 <= j + Z.of_nat fuel ->
  ∃ k, 2 <= k <= 31 ∧ new_length_loop fuel (2 ^ j) elems = 2 ^ k ∧ elems <= 2 ^ k.
Proof.
  intros He. revert j. induction fuel as [| fuel IH]; intros j Hj Hf; cbn [new_length_loop].
  { exists 31. replace j with 31 by lia. split_and!; (done || lia). }
  destruct (Z.ltb_spec (2 ^ j) elems) as [Hlt |]; [| exists j; split_and!; (done || lia)].
  assert (j < 31) by (apply (Z.pow_lt_mono_r_iff 2); lia).
  replace (u32 (2 ^ j * 2)) with (2 ^ (j + 1)); [apply IH; lia |].
  rewrite Z.pow_add_r by lia. change (2 ^ 1) with 2. symmetry. apply wrap_small. split; [lia |].
  assert (2 ^ j <= 2 ^ 30) by (apply Z.pow_le_mono_r; lia).
  change (2 ^ 32) with (2 ^ 30 * 4). pose proof (Z.pow_pos_nonneg 2 30). lia.
Qed.

Lemma rehash_spec k (es : list E) (nl : list (list E)) :
  0 <= k -> length nl = Z.to_nat (2 ^ k) ->
  (∀ b l e, nl !! b = Some l -> e ∈ l -> bucket_of (2 ^ k) (e_hash e) = b) ->
  let nl' := foldl (rehash1 (2 ^ k)) nl es in
  length nl' = Z.to_nat (2 ^ k) /\ concat nl' ≡ₚ es ++ concat nl /\
  (∀ b l e, nl' !! b = Some l -> e ∈ l -> bucket_of (2 ^ k) (e_hash e) = b).
Proof.
  intros Hk. revert nl. induction es as [| e es IH]; intros nl Hl Hp; [done |]. cbn [foldl].
  pose proof (bucket_lt k (e_hash e) Hk) as Hb.
  destruct (lookup_lt_is_Some_2 nl (bucket_of (2 ^ k) (e_hash e))) as [l El]; [lia |].
  destruct (concat_alter _ _ _ El) as (rest & E1 & E2).
  destruct (IH (rehash1 (2 ^ k) nl e)) as (Hl' & Hc & Hp').
  - unfold rehash1. by rewrite length_alter.
  - intros b l' e' Hlk Hin. unfold rehash1 in Hlk.
    destruct (decide (b = bucket_of (2 ^ k) (e_hash e))) as [-> | Hne].
    + rewrite list_lookup_alter_eq, El in Hlk. injection Hlk as <-.
      apply elem_of_cons in Hin as [-> | Hin]; [done |]. by eapply Hp.
    + rewrite list_lookup_alter_ne in Hlk by done. by eapply Hp.
  - split_and!; [done | | done]. rewrite Hc. unfold rehash1. rewrite E2, E1. cbn.
    symmetry. apply Permutation_middle.
Qed.

Lemma concat_replicate_nil n : concat (replicate n ([] : list E)) = [].
Proof. induction n; [done | by cbn]. Qed.

(** Resizing keeps the elements; it needs no placement of the old chains. *)
Lemma Resize_spec t :
  elems_ t = Z.of_nat (length (elements t)) -> Z.of_nat (length (elements t)) <= 2 ^ 31 ->
  Forall hashed (elements t) -> NoDup (e_key <$> elements t) ->
  ht_wf (Resize t) /\ elements (Resize t) ≡ₚ elements t /\ elems_ (Resize t) = elems_ t /\
  elems_ t <= length_ (Resize t).
Proof.
  intros He Hs Hh Hn. unfold Resize. set (len := new_length_loop 32 4 (elems_ t)).
  destruct (new_length_spec 32 2 (elems_ t)) as (k & Hk & Ek & Hle); [lia | lia | lia |].
  change (2 ^ 2) with 4 in Ek. fold len in Ek. rewrite Ek.
  destruct (rehash_spec k (concat (list_ t)) (replicate (Z.to_nat (2 ^ k)) [])) as (Hl & Hp & Hb).
  - lia.
  - apply length_replicate.
  - intros b l e Hlk Hin. apply lookup_replicate in Hlk as [-> _]. by apply elem_of_nil in Hin.
  - rewrite concat_replicate_nil, app_nil_r in Hp.
    set (nl := foldl _ _ _) in *.
    assert (elements (MkHashTable (2 ^ k) (elems_ t) nl) ≡ₚ elements t) as Hp' by exact Hp.
    split_and!; [| done | done | done]. split; try (rewrite Hp'; done); try done.
    + by exists k.
    + cbn. rewrite Hl. pose proof (Z.pow_pos_nonneg 2 k). lia.
Qed.

Lemma NewHashTable_wf : ht_wf NewHashTable /\ elements NewHashTable = [].
Proof.
  destruct (Resize_spec (MkHashTable 0 0 [])) as (Hwf & Hp & _); [done | done | constructor | constructor |].
  split; [done |]. by apply Permutation_nil_r in Hp.
Qed.

(** The elements around a slot that points to an entry. *)
Lemma slot_split t b i o :
  deref t (b, i) = Some o ->
  ∃ R, elements t ≡ₚ o :: R /\
    (∀ e, concat (alter (<[i := e]>) b (list_ t)) ≡ₚ e :: R) /\
    concat (alter (delete i) b (list_ t)) ≡ₚ R.
Proof.
  unfold deref, chain. cbn [fst snd]. intros Hd.
  destruct (list_ t !! b) as [l |] eqn:El; [| done]. cbn in Hd.
  destruct (concat_alter _ _ _ El) as (rest & E1 & E2). unfold elements.
  exists (take i l ++ drop (S i) l ++ rest). split_and!.
  - rewrite E1. rewrite <- (take_drop_middle l i o Hd) at 1. rewrite <- app_assoc. cbn.
    symmetry. apply Permutation_middle.
  - intros e. rewrite E2. rewrite insert_take_drop by by eapply lookup_lt_Some.
    rewrite <- app_assoc. cbn. symmetry. apply Permutation_middle.
  - rewrite E2, delete_take_drop, <- app_assoc. done.
Qed.

(** Placement after a change of one chain. *)
Lemma placed_alter t f b (len : Z) :
  (∀ b l e, list_ t !! b = Some l -> e ∈ l -> bucket_of len (e_hash e) = b) ->
  (∀ l e, list_ t !! b = Some l -> e ∈ f l -> e ∈ l \/ bucket_of len (e_hash e) = b) ->
  ∀ b' l e, alter f b (list_ t) !! b' = Some l -> e ∈ l -> bucket_of len (e_hash e) = b'.
Proof.
  intros Hp Hf b' l e Hlk Hin. destruct (decide (b' = b)) as [-> | Hne].
  - rewrite list_lookup_alter_eq in Hlk. destruct (list_ t !! b) as [l0 |] eqn:E0; [| done].
    injection Hlk as <-. destruct (Hf l0 e eq_refl Hin); [by eapply Hp | done].
  - rewrite list_lookup_alter_ne in Hlk by done. by eapply Hp.
Qed.

Lemma elem_of_rest t o R x :
  ht_wf t -> elements t ≡ₚ o :: R -> x ∈ R <-> x ∈ elements t /\ e_key x <> e_key o.
Proof.
  intros Hwf Hp. pose proof (ht_nodup _ Hwf) as Hn. rewrite Hp in Hn. cbn in Hn.
  apply list.NoDup_cons in Hn as [Hni _]. rewrite Hp, elem_of_cons. split.
  - intros Hx. split; [by right |]. intros Ek. apply Hni. rewrite <- Ek. by apply list_elem_of_fmap_2.
  - intros [[-> | ?] ?]; done.
Qed.

Lemma FindPointer_bucket t key : (FindPointer t key (hashval key)).1 = bucket_of (length_ t) (hashval key).
Proof. done. Qed.

(** What [Insert] and the two [Remove]s do to the elements. *)
Lemma Insert_spec t e :
  ht_wf t -> hashed e -> elems_ t < 2 ^ 31 ->
  let '(t', old) := Insert e t in
  ht_wf t' /\ old = Lookup t (e_key e) (hashval (e_key e)) /\
  elems_ t' = elems_ t + (if old is Some _ then 0 else 1) /\
  ∀ x, x ∈ elements t' <-> x = e \/ (x ∈ elements t /\ e_key x <> e_key e).
Proof.
  intros Hwf Hh Hlt. unfold Insert, Inject. rewrite Hh. fold (Lookup t (e_key e) (hashval (e_key e))).
  set (slot := FindPointer t (e_key e) (hashval (e_key e))).
  pose proof (Lookup_spec t (e_key e)) as Hlk.
  destruct (Lookup t (e_key e) (hashval (e_key e))) as [o |] eqn:El.
  - destruct (proj1 (Hlk o Hwf) eq_refl) as [Hino Eko].
    unfold Lookup in El. fold slot in El. destruct (slot_split t slot.1 slot.2 o) as (R & E1 & E2 & _).
    { by destruct slot. }
    specialize (E2 e). split_and!; [| done | cbn; lia |].
    + set (t' := MkHashTable _ _ _). assert (elements t' ≡ₚ e :: R) as Hp by exact E2.
      assert (length (elements t') = length (elements t)) as Hlen by (rewrite Hp, E1; done).
      split; try (rewrite Hlen); try by destruct Hwf.
      * cbn. rewrite length_alter. by destruct Hwf.
      * apply placed_alter; [by destruct Hwf |]. intros l x Hl Hx.
        apply list_elem_of_lookup in Hx as [n Hx].
        apply list_lookup_insert_Some in Hx as [(_ & -> & _) | [_ Hx]];
          [right | left; by eapply list_elem_of_lookup_2].
        subst slot. by rewrite FindPointer_bucket, Hh.
      * rewrite Hp. constructor; [done |]. pose proof (ht_hashed _ Hwf) as HF. rewrite E1 in HF.
        by inversion HF.
      * rewrite Hp. pose proof (ht_nodup _ Hwf) as HN. rewrite E1 in HN. cbn in *. by rewrite <- Eko.
    + intros x. unfold elements at 1. cbn [list_]. rewrite E2, elem_of_cons.
      by rewrite (elem_of_rest t o R x Hwf E1), Eko.
  - destruct (bucket_lookup t (hashval (e_key e)) Hwf) as [l Hl].
    destruct (concat_alter _ _ _ Hl) as (rest & E1 & E2).
    rewrite (ht_elems _ Hwf) in Hlt |- *. unfold u32.
    rewrite (wrap_small 32 (Z.of_nat (length (elements t)) + 1)) by (split; [lia |]; change (2 ^ 32) with (2 * 2 ^ 31); lia).
    set (t' := MkHashTable _ _ _).
    assert (elements t' ≡ₚ e :: elements t) as Hp.
    { unfold elements, t', slot. cbn [list_]. rewrite FindPointer_bucket, E2, E1, <- app_assoc.
      symmetry. apply Permutation_middle. }
    assert (e_key e ∉ e_key <$> elements t) as Hni.
    { intros (x & Ex & Hx)%list_elem_of_fmap. by pose proof (proj2 (Hlk x Hwf) (conj Hx (eq_sym Ex))). }
    assert (Forall hashed (elements t')) as HF by (rewrite Hp; constructor; [done | by destruct Hwf]).
    assert (NoDup (e_key <$> elements t')) as HN
      by (rewrite Hp; cbn; apply list.NoDup_cons; split; [done | by destruct Hwf]).
    assert (∀ x, x ∈ elements t' <-> x = e \/ (x ∈ elements t /\ e_key x <> e_key e)) as Hel.
    { intros x. rewrite Hp, elem_of_cons. split; [| naive_solver]. intros [-> | Hx]; [by left | right].
      split; [done |]. intros Ek. apply Hni. rewrite <- Ek. by apply list_elem_of_fmap_2. }
    assert (length (elements t') = S (length (elements t))) as Hlen by by rewrite Hp.
    change (length_ t) with (length_ t').
    destruct (Z.of_nat (length (elements t)) + 1 >? length_ t') eqn:Eg; cbn [fst snd].
    + destruct (Resize_spec t') as (Hwf' & Hp' & He' & _); [rewrite Hlen; cbn; lia | lia | done | done |].
      split_and!; [done | done | rewrite He'; cbn; lia |]. intros x. by rewrite Hp'.
    + split_and!; [| done | cbn; lia | done]. split; try done; try by destruct Hwf.
      * cbn. rewrite length_alter. by destruct Hwf.
      * rewrite Hlen. cbn [elems_ t']. lia.
      * lia.
      * apply placed_alter; [by destruct Hwf |]. intros l0 x Hl0 Hx.
        apply elem_of_app in Hx as [Hx | ->%list_elem_of_singleton]; [by left | right].
        subst slot. by rewrite FindPointer_bucket, Hh.
Qed.

Lemma unlink_spec t key o :
  ht_wf t -> Lookup t key (hashval key) = Some o ->
  let t' := unlink t (FindPointer t key (hashval key)) in
  ht_wf t' /\ elems_ t' = elems_ t - 1 /\
  ∀ x, x ∈ elements t' <-> x ∈ elements t /\ e_key x <> key.
Proof.
  intros Hwf Hl. destruct (proj1 (Lookup_spec t key o Hwf) Hl) as [Hino Eko].
  unfold Lookup in Hl. set (slot := FindPointer t key (hashval key)) in *.
  destruct (slot_split t slot.1 slot.2 o) as (R & E1 & _ & E3); [by destruct slot |].
  cbn zeta. set (t' := unlink t slot). assert (elements t' ≡ₚ R) as Hp by exact E3.
  assert (length (elements t) = S (length (elements t'))) as Hlen by by rewrite E1, Hp.
  pose proof (ht_elems _ Hwf) as He. pose proof (ht_small _ Hwf).
  assert (elems_ t' = elems_ t - 1) as He'.
  { cbn. unfold u32. apply wrap_small. rewrite He.
    split; [lia |]. change (2 ^ 32) with (2 * 2 ^ 31). lia. }
  split_and!; [| done |].
  - split; try by destruct Hwf.
    + cbn. rewrite length_alter. by destruct Hwf.
    + rewrite He'. lia.
    + lia.
    + apply placed_alter; [by destruct Hwf |]. intros l x Hl0 Hx. left.
      eapply list_elem_of_delete_inv. exact Hx.
    + rewrite Hp. pose proof (ht_hashed _ Hwf) as HF. rewrite E1 in HF. by inversion HF.
    + rewrite Hp. pose proof (ht_nodup _ Hwf) as HN. rewrite E1 in HN. cbn in HN. by inversion HN.
  - intros x. rewrite Hp. by rewrite (elem_of_rest t o R x Hwf E1), Eko.
Qed.

(** ** The table is a finite map *)
Definition ht_map t : gmap Slice E := list_to_map ((λ e, (e_key e, e)) <$> elements t).

Lemma ht_map_lookup t key e : ht_wf t -> ht_map t !! key = Some e <-> e ∈ elements t /\ e_key e = key.
Proof.
  intros Hwf. unfold ht_map. rewrite <- elem_of_list_to_map.
  - rewrite list_elem_of_fmap. split; [intros (x & [= -> ->] & ?); done | intros [? <-]; by exists e].
  - rewrite <- list_fmap_compose. apply Hwf.
Qed.

Lemma ht_map_Lookup t key : ht_wf t -> Lookup t key (hashval key) = ht_map t !! key.
Proof.
  intros Hwf. apply option_eq. intros e. by rewrite Lookup_spec, ht_map_lookup.
Qed.

Lemma ht_map_eq t t' (f : gmap Slice E) :
  ht_wf t -> (∀ key e, f !! key = Some e <-> e ∈ elements t /\ e_key e = key) -> ht_map t = f.
Proof. intros Hwf Hf. apply map_eq. intros k. apply option_eq. intros e. by rewrite ht_map_lookup, Hf. Qed.

Lemma ht_map_size t : ht_wf t -> Z.of_nat (size (ht_map t)) = elems_ t.
Proof.
  intros Hwf. rewrite (ht_elems _ Hwf). unfold ht_map. f_equal.
  rewrite map_size_list_to_map by (rewrite <- list_fmap_compose; apply Hwf). apply length_fmap.
Qed.

Lemma Insert_map t e :
  ht_wf t -> hashed e -> elems_ t < 2 ^ 31 ->
  ht_wf (Insert e t).1 /\ (Insert e t).2 = ht_map t !! e_key e /\
  ht_map (Insert e t).1 = <[e_key e := e]> (ht_map t).
Proof.
  intros Hwf Hh Hlt. pose proof (Insert_spec t e Hwf Hh Hlt) as HI.
  destruct (Insert e t) as [t' old]. destruct HI as (Hwf' & -> & _ & Hel). cbn [fst snd].
  split_and!; [done | by apply ht_map_Lookup |]. apply (ht_map_eq t' t'); [done |].
  intros key x. rewrite Hel, lookup_insert_Some, ht_map_lookup by done. naive_solver.
Qed.

Lemma unlink_map t key o :
  ht_wf t -> Lookup t key (hashval key) = Some o ->
  ht_wf (unlink t (FindPointer t key (hashval key))) /\
  ht_map (unlink t (FindPointer t key (hashval key))) = delete key (ht_map t).
Proof.
  intros Hwf Hl. destruct (unlink_spec t key o Hwf Hl) as (Hwf' & _ & Hel). split; [done |].
  apply (ht_map_eq _ t); [done |]. intros k x. rewrite Hel, lookup_delete_Some, ht_map_lookup by done.
  naive_solver.
Qed.

Lemma Remove_key_map t key :
  ht_wf t ->
  ht_wf (Remove_key key (hashval key) t).1 /\
  (Remove_key key (hashval key) t).2 = ht_map t !! key /\
  ht_map (Remove_key key (hashval key) t).1 = delete key (ht_map t).
Proof.
  intros Hwf. unfold Remove_key. fold (Lookup t key (hashval key)).
  pose proof (ht_map_Lookup t key Hwf) as Hm. destruct (Lookup t key (hashval key)) as [o |] eqn:El; cbn [fst snd].
  - destruct (unlink_map t key o Hwf El) as [Hwf' Hm']. split_and!; [done | congruence | done].
  - split_and!; [done | done |]. by rewrite delete_id.
Qed.

Lemma Remove_entry_map t e :
  ht_wf t -> hashed e ->
  let present := bool_decide (ht_map t !! e_key e = Some e) in
  ht_wf (Remove_entry e t).1 /\
  (Remove_entry e t).2 = (if present then Some e else None) /\
  ht_map (Remove_entry e t).1 = (if present then delete (e_key e) (ht_map t) else ht_map t).
Proof.
  intros Hwf Hh. unfold Remove_entry. rewrite Hh. fold (Lookup t (e_key e) (hashval (e_key e))).
  rewrite <- (ht_map_Lookup t (e_key e) Hwf). cbn zeta.
  case_decide as Hd.
  - rewrite bool_decide_eq_true_2 by done. destruct (unlink_map t (e_key e) e Hwf Hd). done.
  - by rewrite bool_decide_eq_false_2.
Qed.
End Table.

(** Pointers to heap objects with an immutable key: an address, the key and its hash. *)
Record Ptr := MkPtr { p_addr : nat; p_key : Slice; p_hash : Z }.
#[global] Instance Ptr_eq_dec : EqDecision Ptr.
Proof. solve_decision. Defined.
#[global] Instance Ptr_entry : Entry Ptr := { e_key := p_key; e_hash := p_hash }.

(** ** Histories of table operations *)
Section History.
Context {E : Type} `{EqDecision E} `{Entry E}.
Variable hashval : Slice -> Z.

Inductive HtOp := OInsert (e : E) | ORemoveEntry (e : E) | ORemoveKey (key : Slice) | OLookup (key : Slice).

Definition ht_step (op : HtOp) (t : HashTable E) : HashTable E * option E :=
  match op with
  | OInsert e => Insert e t
  | ORemoveEntry e => Remove_entry e t
  | ORemoveKey key => Remove_key key (hashval key) t
  | OLookup key => (t, Lookup t key (hashval key))
  end.

(** The same operations on a finite map. *)
Definition map_step (op : HtOp) (m : gmap Slice E) : gmap Slice E * option E :=
  match op with
  | OInsert e => (<[e_key e := e]> m, m !! e_key e)
  | ORemoveEntry e =>
      if bool_decide (m !! e_key e = Some e) then (delete (e_key e) m, Some e) else (m, None)
  | ORemoveKey key => (delete key m, m !! key)
  | OLookup key => (m, m !! key)
  end.

Fixpoint run {S} (step : HtOp -> S -> S * option E) (ops : list HtOp) (s : S) : S * list (option E) :=
  match ops with
  | [] => (s, [])
  | op :: ops =>
      let '(s, r) := step op s in let '(s, rs) := run step ops s in (s, r :: rs)
  end.

Definition op_hashed (op : HtOp) : Prop :=
  match op with OInsert e | ORemoveEntry e => hashed hashval e | _ => True end.

Lemma ht_step_map op t :
  ht_wf hashval t -> op_hashed op -> elems_ t < 2 ^ 31 ->
  ht_wf hashval (ht_step op t).1 /\
  ((ht_map (ht_step op t).1, (ht_step op t).2) = map_step op (ht_map t)) /\
  elems_ (ht_step op t).1 <= elems_ t + 1.
Proof.
  intros Hwf Hop Hlt. assert (ht_wf hashval (ht_step op t).1 /\
    ((ht_map (ht_step op t).1, (ht_step op t).2) = map_step op (ht_map t))) as [Hwf' Hm].
  { destruct op; cbn [ht_step map_step op_hashed] in *.
    - destruct (Insert_map hashval t e) as (? & -> & ->); done.
    - pose proof (Remove_entry_map hashval t e Hwf Hop) as (? & -> & ->). by case_match.
    - destruct (Remove_key_map hashval t key) as (? & -> & ->); done.
    - split; [done |]. cbn [fst snd]. f_equal. by apply ht_map_Lookup. }
  split_and!; [done | done |].
  rewrite <- (ht_map_size hashval t), <- (ht_map_size hashval _ Hwf') by done.
  assert (ht_map (ht_step op t).1 = (map_step op (ht_map t)).1) as -> by by rewrite <- Hm.
  destruct op; cbn [map_step fst].
  - rewrite map_size_insert. case_match; unfold id; lia.
  - case_match; cbn [fst]; [rewrite map_size_delete; case_match; unfold id; lia | lia].
  - rewrite map_size_delete. case_match; unfold id; lia.
  - lia.
Qed.

Lemma run_refines ops t :
  ht_wf hashval t -> Forall op_hashed ops -> elems_ t + Z.of_nat (length ops) <= 2 ^ 31 ->
  let '(t', rs) := run ht_step ops t in
  let '(m', rs') := run map_step ops (ht_map t) in
  ht_wf hashval t' /\ ht_map t' = m' /\ rs = rs'.
Proof.
  revert t. induction ops as [| op ops IH]; intros t Hwf Hops Hn; cbn [run]; [done |].
  apply list.Forall_cons in Hops as [Hop Hops]. cbn [length] in Hn.
  destruct (ht_step_map op t Hwf Hop ltac:(lia)) as (Hwf' & Hm & He).
  destruct (ht_step op t) as [t1 r]. rewrite <- Hm. cbn [fst snd] in *.
  specialize (IH t1 Hwf' Hops ltac:(lia)).
  destruct (run ht_step ops t1) as [t2 rs], (run map_step ops (ht_map t1)) as [m2 rs'].
  destruct IH as (? & ? & ->). done.
Qed.

(** C19. The hash table refines a finite map: over any sequence of at most 2^31 insertions,
    removals by pointer, removals by key and lookups from the empty table, every operation
    returns what the map returns (the replaced, removed or found entry), [Size] is the number of
    keys, and resizing never loses or duplicates an entry. *)
Theorem HashTable_refines_map ops :
  Forall op_hashed ops -> Z.of_nat (length ops) <= 2 ^ 31 ->
  let '(t, rs) := run ht_step ops NewHashTable in
  let '(m, rs') := run map_step ops ∅ in
  rs = rs' /\ Size t = Z.of_nat (size m) /\ (∀ key, Lookup t key (hashval key) = m !! key) /\
  Empty t = bool_decide (m = ∅).
Proof.
  intros Hops Hn. destruct (NewHashTable_wf hashval) as [Hwf He].
  pose proof (run_refines ops NewHashTable Hwf Hops) as Hr.
  assert (ht_map (NewHashTable : HashTable E) = ∅) as Hm by (unfold ht_map; by rewrite He). rewrite Hm in Hr.
  destruct (run ht_step ops NewHashTable) as [t rs], (run map_step ops ∅) as [m rs'].
  destruct Hr as (Hwf' & <- & ->); [cbn; lia |].
  split_and!; [done | symmetry; by apply (ht_map_size hashval) | intros; by apply ht_map_Lookup |].
  unfold Empty. rewrite <- (ht_map_size hashval t) by done. apply eq_true_iff_eq.
  rewrite Z.eqb_eq, bool_decide_eq_true, <- map_size_empty_iff. lia.
Qed.
End History.
Arguments HtOp : clear implicits.

Lemma HashTable_refines_map_witness :
  let e := MkPtr 1 (lit "a") 7 in
  (run (ht_step (λ _, 7)) [OInsert e; OLookup (lit "a"); ORemoveKey (lit "a")] NewHashTable).2
  = [None; Some e; Some e].
Proof.
  intros e.
  pose proof (HashTable_refines_map (λ _, 7) [OInsert e; OLookup (lit "a"); ORemoveKey (lit "a")]) as Href.
  specialize (Href ltac:(repeat constructor) ltac:(cbn; lia)).
  destruct (run (ht_step (λ _, 7)) _ NewHashTable) as [t rs].
  destruct (run map_step _ ∅) as [m rs'] eqn:Em. destruct Href as [-> _].
  vm_compute in Em. cbn [snd]. injection Em as _ <-. reflexivity.
Defined.
