(* ===== verification/Lru.v ===== *)
(** * LRU cache of reference-counted handles ([pdlfs-common/lru.h])

    A handle is a pointer [Ptr]; the mutable fields of its object are in [heap].  The two
    circular lists are Coq lists in link order ([lru_.next], the oldest, first).  Every
    operation returns the calls of deleters it makes, in order; [None] is a failed assertion
    (in a debug build) or the use of a handle that was freed. *)
From S2P Require Import Prelude HashTable.
#[global] Instance Ptr_countable : Countable Ptr.
Proof.
  apply (inj_countable' (λ p, (p_addr p, p_key p, p_hash p)) (λ t, MkPtr t.1.1 t.1.2 t.2)).
  by intros [].
Defined.

(** The fields of [LRUEntry] that change or are not part of the pointer. *)
Record LRUEntry (V : Type) := MkLRUEntry {
  value : V; charge : Z; refs : Z; in_cache : bool
}.
Arguments MkLRUEntry {V}. Arguments value {V}. Arguments charge {V}.
Arguments refs {V}. Arguments in_cache {V}.

Record LRUCache (V : Type) := MkLRUCache {
  capacity_ : Z; total_usage_ : Z; usage_ : Z;
  in_use_ : list Ptr; lru_ : list Ptr;
  table_ : HashTable Ptr;
  heap : gmap Ptr (LRUEntry V);
  next_addr : nat
}.
Arguments MkLRUCache {V}. Arguments capacity_ {V}. Arguments total_usage_ {V}.
Arguments usage_ {V}. Arguments in_use_ {V}. Arguments lru_ {V}. Arguments table_ {V}.
Arguments heap {V}. Arguments next_addr {V}.

Section LRU.
Context {V : Type}.
Variable ndebug : bool.
Abbreviation assert := (assert_ ndebug).
Abbreviation Cache := (LRUCache V).
(** Deleter calls: the key and the value. *)
Abbreviation Deleted := (list (Slice * V)).
Implicit Types (c : Cache) (e : Ptr).

Definition NewLRUCache (capacity : Z) : Cache := MkLRUCache capacity 0 0 [] [] NewHashTable ∅ 0.
Definition SetCapacity (cap : Z) c : Cache :=
  MkLRUCache cap (total_usage_ c) (usage_ c) (in_use_ c) (lru_ c) (table_ c) (heap c) (next_addr c).

Definition set_entry e (x : LRUEntry V) c : Cache :=
  MkLRUCache (capacity_ c) (total_usage_ c) (usage_ c) (in_use_ c) (lru_ c) (table_ c)
    (<[e := x]> (heap c)) (next_addr c).
Definition set_table (t : HashTable Ptr) c : Cache :=
  MkLRUCache (capacity_ c) (total_usage_ c) (usage_ c) (in_use_ c) (lru_ c) t (heap c) (next_addr c).
Definition set_usage (u : Z) c : Cache :=
  MkLRUCache (capacity_ c) (total_usage_ c) u (in_use_ c) (lru_ c) (table_ c) (heap c) (next_addr c).

(** [LRU_Remove] unlinks an entry from the list that holds it; [LRU_Append] links it
    before the head of a list, as the newest. *)
Definition LRU_Remove e c : Cache :=
  MkLRUCache (capacity_ c) (total_usage_ c) (usage_ c)
    (filter (.≠ e) (in_use_ c)) (filter (.≠ e) (lru_ c)) (table_ c) (heap c) (next_addr c).
Definition LRU_Append_lru e c : Cache :=
  MkLRUCache (capacity_ c) (total_usage_ c) (usage_ c) (in_use_ c) (lru_ c ++ [e])
    (table_ c) (heap c) (next_addr c).
Definition LRU_Append_in_use e c : Cache :=
  MkLRUCache (capacity_ c) (total_usage_ c) (usage_ c) (in_use_ c ++ [e]) (lru_ c)
    (table_ c) (heap c) (next_addr c).

Definition Unref e c : option (Cache * Deleted) :=
  x ← heap c !! e;
  assert (0 <? refs x);;
  let r := u32 (refs x - 1) in
  let c := set_entry e (MkLRUEntry (value x) (charge x) r (in_cache x)) c in
  if r =? 0 then
    let c := LRU_Remove e c in
    assert (negb (in_cache x));;
    Some (MkLRUCache (capacity_ c) (u64 (total_usage_ c - charge x)) (usage_ c) (in_use_ c) (lru_ c)
            (table_ c) (delete e (heap c)) (next_addr c),
          [(p_key e, value x)])
  else if in_cache x && (r =? 1) then Some (LRU_Append_lru e (LRU_Remove e c), [])
  else Some (c, []).

(** [Remove(e)], after the entry left the table. *)
Definition Remove e c : option (Cache * Deleted) :=
  x ← heap c !! e;
  assert (in_cache x);;
  let c := set_entry e (MkLRUEntry (value x) (charge x) (refs x) false) c in
  Unref e (set_usage (u64 (usage_ c - charge x)) c).

Definition Ref e c : option Cache :=
  x ← heap c !! e;
  let c := if (refs x =? 1) && in_cache x then LRU_Append_in_use e (LRU_Remove e c) else c in
  Some (set_entry e (MkLRUEntry (value x) (charge x) (u32 (refs x + 1)) (in_cache x)) c).

Definition Release e c : option (Cache * Deleted) := Unref e c.

Definition Lookup key (hash : Z) c : option (option Ptr * Cache) :=
  match HashTable.Lookup (table_ c) key hash with
  | Some e => c ← Ref e c; Some (Some e, c)
  | None => Some (None, c)
  end.
Definition Exists key (hash : Z) c : bool :=
  bool_decide (is_Some (HashTable.Lookup (table_ c) key hash)).
Definition CacheEmpty c : bool := Empty (table_ c).

(** Remove from the table by key, check that it is the expected entry, and remove it. *)
Definition evict (a : Ptr) key (hash : Z) c : option (Cache * Deleted) :=
  let '(t, victim) := Remove_key key hash (table_ c) in
  assert (bool_decide (victim = Some a));;
  victim ← victim;
  Remove victim (set_table t c).

(** [while (usage_ > capacity_ && lru_.next != &lru_)]: [fuel] is the length of [lru_]. *)
Fixpoint make_room (fuel : nat) c : option (Cache * Deleted) :=
  match fuel, lru_ c with
  | S fuel, a :: _ =>
      if usage_ c >? capacity_ c then
        x ← heap c !! a; assert (refs x =? 1);;
        '(c, d) ← evict a (p_key a) (p_hash a) c;
        '(c, d') ← make_room fuel c;
        Some (c, d ++ d')
      else Some (c, [])
  | _, _ => Some (c, [])
  end.

Definition Insert key (hash : Z) (v : V) (chg : Z) c : option (Ptr * Cache * Deleted) :=
  let e := MkPtr (next_addr c) key hash in
  let c := MkLRUCache (capacity_ c) (u64 (total_usage_ c + chg)) (usage_ c) (in_use_ c ++ [e]) (lru_ c)
             (table_ c) (<[e := MkLRUEntry v chg 1 false]> (heap c)) (S (next_addr c)) in
  if capacity_ c =? 0 then Some (e, c, [])
  else
    let c := set_usage (u64 (usage_ c + chg)) (set_entry e (MkLRUEntry v chg 2 true) c) in
    let '(t, old) := HashTable.Insert e (table_ c) in
    let c := set_table t c in
    '(c, d1) ← match old with Some old => Remove old c | None => Some (c, []) end;
    '(c, d2) ← make_room (length (lru_ c)) c;
    '(c, d3) ← (if usage_ c >? capacity_ c then evict e key hash c else Some (c, []));
    assert (usage_ c <=? capacity_ c);;
    Some (e, c, d1 ++ d2 ++ d3).

(** [Prune]: the whole LRU list. *)
Fixpoint Prune_loop (fuel : nat) c : option (Cache * Deleted) :=
  match fuel, lru_ c with
  | S fuel, a :: _ =>
      x ← heap c !! a; assert (refs x =? 1);;
      '(c, d) ← evict a (p_key a) (p_hash a) c;
      '(c, d') ← Prune_loop fuel c;
      Some (c, d ++ d')
  | _, _ => Some (c, [])
  end.
Definition Prune c : option (Cache * Deleted) := Prune_loop (length (lru_ c)) c.

(** [Erase(key, hash)] and [Erase(e)]. *)
Definition Erase_key key (hash : Z) c : option (Cache * Deleted) :=
  let '(t, e) := Remove_key key hash (table_ c) in
  match e with Some e => Remove e (set_table t c) | None => Some (set_table t c, []) end.
Definition Erase_entry e c : option (Cache * Deleted) :=
  let '(t, r) := Remove_entry e (table_ c) in
  match r with Some e => Remove e (set_table t c) | None => Some (set_table t c, []) end.

(** [~LRUCache]: every entry left on the LRU list is deleted. *)
Fixpoint destroy_loop (l : list Ptr) c : option (Cache * Deleted) :=
  match l with
  | [] => Some (c, [])
  | e :: l =>
      x ← heap c !! e; assert ((refs x =? 1) && in_cache x);;
      '(c, d) ← Unref e (set_entry e (MkLRUEntry (value x) (charge x) (refs x) false) c);
      '(c, d') ← destroy_loop l c;
      Some (c, d ++ d')
  end.
Definition DestroyLRUCache c : option (Cache * Deleted) :=
  assert (bool_decide (in_use_ c = []));; destroy_loop (lru_ c) c.
End LRU.
