(* ===== verification/LruProps.v ===== *)
(** * LRU cache: invariant and effect of the operations

    [lru_core] is the invariant of the lists, the heap and the usage counters; [lru_tab]
    says that the table indexes exactly the entries in the cache; [lru_wf] is both.  [ext]
    is the number of references held by clients. *)
From S2P Require Import Prelude HashTable Lru.

Section Facts.
Context {V : Type}.
Variable ndebug : bool.
Abbreviation Cache := (LRUCache V).
Implicit Types (c : Cache) (e p : Ptr) (x : LRUEntry V).

Definition ext x : Z := refs x - (if in_cache x then 1 else 0).

(** Sum of a field over the live entries. *)
Definition heap_sum (f : LRUEntry V -> Z) (h : gmap Ptr (LRUEntry V)) : Z :=
  map_fold (λ _ x acc, f x + acc) 0 h.
Definition opt_sum (f : LRUEntry V -> Z) (o : option (LRUEntry V)) : Z :=
  match o with Some x => f x | None => 0 end.
Definition cached_charge x : Z := if in_cache x then charge x else 0.

Lemma heap_sum_insert f h e x : h !! e = None -> heap_sum f (<[e:=x]> h) = f x + heap_sum f h.
Proof. intros He. unfold heap_sum. rewrite map_fold_insert_L; [done | lia | done]. Qed.

Lemma heap_sum_delete f h e : heap_sum f (delete e h) = heap_sum f h - opt_sum f (h !! e).
Proof.
  destruct (h !! e) as [x |] eqn:E; cbn.
  - rewrite <- (insert_delete_id h e x E) at 2. rewrite heap_sum_insert by apply lookup_delete_eq. lia.
  - rewrite delete_id by done. lia.
Qed.

Lemma heap_sum_alter f h e o :
  heap_sum f (partial_alter (λ _, o) e h) = heap_sum f h - opt_sum f (h !! e) + opt_sum f o.
Proof.
  destruct o as [x |]; cbn.
  - change (partial_alter (λ _, Some x) e h) with (<[e:=x]> h).
    rewrite <- insert_delete_eq, heap_sum_insert, heap_sum_delete by apply lookup_delete_eq. lia.
  - change (partial_alter (λ _, None) e h) with (delete e h). rewrite heap_sum_delete. lia.
Qed.

Lemma heap_sum_nonneg f h : (∀ e x, h !! e = Some x -> 0 <= f x) -> 0 <= heap_sum f h.
Proof.
  unfold heap_sum. induction h as [| e x h He Hf IH] using map_first_key_ind; [done |].
  intros Hp. rewrite map_fold_insert_first_key by done.
  pose proof (Hp e x (lookup_insert_eq _ _ _)). assert (0 <= map_fold (λ _ x acc, f x + acc) 0 h); [| lia].
  apply IH. intros e' x' E. apply (Hp e'). rewrite lookup_insert_ne; [done |]. intros ->. congruence.
Qed.

(** What a live entry may look like. *)
Definition entry_ok x : Prop :=
  0 < refs x < 2 ^ 32 /\ 0 <= ext x /\ (in_cache x = false -> 0 < ext x) /\ 0 <= charge x.

Record lru_core c : Prop := {
  lc_entry : ∀ e x, heap c !! e = Some x -> entry_ok x;
  lc_in_use : ∀ e, e ∈ in_use_ c <-> ∃ x, heap c !! e = Some x ∧ 0 < ext x;
  lc_lru : ∀ e, e ∈ lru_ c <-> ∃ x, heap c !! e = Some x ∧ ext x = 0;
  lc_nodup_in_use : NoDup (in_use_ c);
  lc_nodup_lru : NoDup (lru_ c);
  lc_usage : usage_ c = heap_sum cached_charge (heap c);
  lc_usage_word : word 64 (usage_ c);
  lc_total : total_usage_ c = u64 (heap_sum charge (heap c));
  lc_addr : ∀ e x, heap c !! e = Some x -> (p_addr e < next_addr c)%nat
}.

(** A change of one entry [e] of the heap, with matching changes of the lists. *)
Lemma core_update c c' e o :
  lru_core c -> heap c' = partial_alter (λ _, o) e (heap c) ->
  (∀ x, o = Some x -> entry_ok x /\ (p_addr e < next_addr c')%nat) ->
  (next_addr c <= next_addr c')%nat ->
  (∀ p, p ∈ in_use_ c' <-> (p ≠ e /\ p ∈ in_use_ c) \/ (p = e /\ ∃ x, o = Some x /\ 0 < ext x)) ->
  (∀ p, p ∈ lru_ c' <-> (p ≠ e /\ p ∈ lru_ c) \/ (p = e /\ ∃ x, o = Some x /\ ext x = 0)) ->
  NoDup (in_use_ c') -> NoDup (lru_ c') ->
  usage_ c' = usage_ c - opt_sum cached_charge (heap c !! e) + opt_sum cached_charge o ->
  usage_ c' < 2 ^ 64 ->
  total_usage_ c' = u64 (total_usage_ c - opt_sum charge (heap c !! e) + opt_sum charge o) ->
  lru_core c'.
Proof.
  intros Hc Hh Ho Hna Hiu Hl Hn1 Hn2 Hu Hub Ht.
  assert (∀ p x, heap c' !! p = Some x <-> (p ≠ e /\ heap c !! p = Some x) \/ (p = e /\ o = Some x)) as Hlk.
  { intros p x. rewrite Hh. destruct (decide (p = e)) as [-> | Hne].
    - rewrite lookup_partial_alter_eq. naive_solver.
    - rewrite lookup_partial_alter_ne by done. naive_solver. }
  assert (usage_ c' = heap_sum cached_charge (heap c')) as Hu'.
  { rewrite Hu, Hh, heap_sum_alter, (lc_usage _ Hc). done. }
  split; try done.
  - intros p x Hp. apply Hlk in Hp as [[_ Hp] | [_ Hp]]; [by eapply lc_entry | by apply Ho].
  - intros p. rewrite Hiu. setoid_rewrite Hlk. rewrite (lc_in_use _ Hc). naive_solver.
  - intros p. rewrite Hl. setoid_rewrite Hlk. rewrite (lc_lru _ Hc). naive_solver.
  - split; [| done]. rewrite Hu'. apply heap_sum_nonneg. intros p x Hp. unfold cached_charge.
    assert (entry_ok x) as Hok.
    { apply Hlk in Hp as [[_ Hp] | [_ Hp]]; [by eapply lc_entry | by apply Ho]. }
    destruct Hok as (_ & _ & _ & ?). case_match; lia.
  - rewrite Ht, (lc_total _ Hc), Hh, heap_sum_alter. unfold u64, wrap.
    set (S := heap_sum charge (heap c)). set (a := opt_sum charge (heap c !! e)). set (b := opt_sum charge o).
    replace (S mod 2 ^ 64 - a + b) with (S mod 2 ^ 64 + (b - a)) by lia.
    rewrite Zplus_mod_idemp_l. f_equal. lia.
  - intros p x Hp. apply Hlk in Hp as [[_ Hp] | [-> Hp]]; [| by eapply Ho].
    pose proof (lc_addr _ Hc _ _ Hp). lia.
Qed.

Lemma filter_ne_id (l : list Ptr) e : e ∉ l -> filter (.≠ e) l = l.
Proof.
  induction l as [| p l IH]; intros He; [done |]. apply not_elem_of_cons in He as [Hne He].
  rewrite filter_cons_True by done. by rewrite IH.
Qed.

Lemma total_wrap c : lru_core c -> total_usage_ c = u64 (total_usage_ c).
Proof. intros Hc. rewrite (lc_total _ Hc). symmetry. by apply wrap_small, wrap_word. Qed.

Lemma lru_lists_disjoint c e : lru_core c -> e ∈ in_use_ c -> e ∈ lru_ c -> False.
Proof.
  intros Hc (x & E & Hx)%(lc_in_use _ Hc) (y & E' & Hy)%(lc_lru _ Hc).
  rewrite E in E'. injection E' as <-. lia.
Qed.

Lemma core_in_use c e x : lru_core c -> heap c !! e = Some x -> e ∈ in_use_ c <-> 0 < ext x.
Proof. intros Hc E. rewrite (lc_in_use _ Hc), E. naive_solver. Qed.
Lemma core_lru c e x : lru_core c -> heap c !! e = Some x -> e ∈ lru_ c <-> ext x = 0.
Proof. intros Hc E. rewrite (lc_lru _ Hc), E. naive_solver. Qed.

(** An entry after one client reference, or the reference of the cache, is gone. *)
Definition unreferenced x : option (LRUEntry V) :=
  if refs x =? 1 then None else Some (MkLRUEntry (value x) (charge x) (refs x - 1) (in_cache x)).
Definition removed x : option (LRUEntry V) :=
  if refs x =? 1 then None else Some (MkLRUEntry (value x) (charge x) (refs x - 1) false).
(** The deleter call for an entry that is freed. *)
Definition deleted e x (o : option (LRUEntry V)) : list (Slice * V) :=
  match o with None => [(p_key e, value x)] | Some _ => [] end.

Lemma u32_pred r : 0 < r < 2 ^ 32 -> u32 (r - 1) = r - 1.
Proof. intros. apply wrap_small. split; lia. Qed.

Lemma insert_alter (h : gmap Ptr (LRUEntry V)) e x : <[e:=x]> h = partial_alter (λ _, Some x) e h.
Proof. done. Qed.
Lemma delete_insert_alter (h : gmap Ptr (LRUEntry V)) e x :
  delete e (<[e:=x]> h) = partial_alter (λ _, None) e h.
Proof. by rewrite delete_insert_eq. Qed.

Lemma elem_filter_ne (l : list Ptr) e p : p ∈ filter (.≠ e) l <-> p ≠ e /\ p ∈ l.
Proof. by rewrite list_elem_of_filter. Qed.

Lemma Unref_spec c e x :
  lru_core c -> heap c !! e = Some x -> 0 < ext x ->
  ∃ c', Unref ndebug e c = Some (c', deleted e x (unreferenced x)) ∧ lru_core c' ∧
    table_ c' = table_ c ∧ capacity_ c' = capacity_ c ∧ usage_ c' = usage_ c ∧
    next_addr c' = next_addr c ∧
    heap c' = partial_alter (λ _, unreferenced x) e (heap c) ∧
    lru_ c' = (if in_cache x && (refs x =? 2) then lru_ c ++ [e] else lru_ c).
Proof.
  intros Hc E Hx. pose proof (lc_entry _ Hc _ _ E) as (Hr & He & Hic & Hch).
  assert (e ∈ in_use_ c) as Hin by (by apply (core_in_use c e x)).
  assert (e ∉ lru_ c) as Hnl by (intros ?; by eapply lru_lists_disjoint).
  pose proof (lc_usage_word _ Hc) as [_ Huw].
  unfold Unref. rewrite E. cbn [mbind option_bind].
  rewrite (assert_bool ndebug (0 <? refs x)) by (apply Z.ltb_lt; lia). cbn [mbind option_bind].
  rewrite u32_pred by done. unfold unreferenced, ext in *.
  destruct (Z.eqb_spec (refs x) 1) as [E1 | N1].
  - assert (in_cache x = false) as Ec by (destruct (in_cache x); [lia | done]).
    rewrite E1, Ec. change (1 - 1 =? 0) with true. cbn iota. cbn [negb]. rewrite assert_true.
    cbn [mbind option_bind]. eexists. split; [done |].
    split_and!; try done; cbn; [| by rewrite delete_insert_alter | by apply filter_ne_id].
    apply (core_update c _ e None); cbn; try done.
    + by rewrite delete_insert_alter.
    + intros p. rewrite elem_filter_ne. naive_solver.
    + intros p. rewrite elem_filter_ne. naive_solver.
    + apply list.NoDup_filter, Hc.
    + apply list.NoDup_filter, Hc.
    + rewrite E. cbn. unfold cached_charge. rewrite Ec. lia.
    + rewrite E. cbn. f_equal. lia.
  - rewrite (proj2 (Z.eqb_neq (refs x - 1) 0)) by lia. cbn iota.
    replace (refs x - 1 =? 1) with (refs x =? 2) by (destruct (Z.eqb_spec (refs x) 2), (Z.eqb_spec (refs x - 1) 1); lia).
    destruct (in_cache x && (refs x =? 2)) eqn:Ecase; (eexists; split; [done |]);
      split_and!; try done; cbn; try by apply insert_alter.
    2: { f_equal. by apply filter_ne_id. }
    + apply andb_true_iff in Ecase as [Ec E2%Z.eqb_eq].
      apply (core_update c _ e (Some (MkLRUEntry (value x) (charge x) (refs x - 1) (in_cache x))));
        cbn; try done.
      * intros y [= <-]. split; [| by eapply lc_addr]. unfold entry_ok, ext. cbn. rewrite Ec. lia.
      * intros p. rewrite elem_filter_ne. split; [naive_solver |]. intros [? | [-> (y & [= <-] & Hy)]]; [done |].
        unfold ext in Hy. cbn in Hy. rewrite Ec in Hy. lia.
      * intros p. rewrite elem_of_app, elem_filter_ne, list_elem_of_singleton. split; [| naive_solver].
        intros [? | ->]; [naive_solver |]. right. split; [done |]. eexists. split; [done |].
        unfold ext. cbn. rewrite Ec. lia.
      * apply list.NoDup_filter, Hc.
      * apply list.NoDup_app. split_and!; [apply list.NoDup_filter, Hc | | apply NoDup_singleton].
        intros p Hp%elem_filter_ne. rewrite list_elem_of_singleton. naive_solver.
      * rewrite E. cbn. unfold cached_charge. cbn. lia.
      * rewrite E. cbn. rewrite Z.sub_add. by apply total_wrap.
    + apply (core_update c _ e (Some (MkLRUEntry (value x) (charge x) (refs x - 1) (in_cache x))));
        cbn; try done.
      * intros y [= <-]. split; [| by eapply lc_addr]. unfold entry_ok, ext. cbn.
        apply andb_false_iff in Ecase. destruct (in_cache x), Ecase as [| ?%Z.eqb_neq]; (done || lia).
      * intros p. split; [| naive_solver]. intros Hp. destruct (decide (p = e)) as [-> |]; [right | naive_solver].
        split; [done |]. eexists. split; [done |]. unfold ext. cbn.
        apply andb_false_iff in Ecase. destruct (in_cache x), Ecase as [| ?%Z.eqb_neq]; (done || lia).
      * intros p. split; [intros Hp; left; split; [naive_solver | done] |].
        intros [? | [-> (y & [= <-] & Hy)]]; [naive_solver |]. unfold ext in Hy. cbn in Hy.
        apply andb_false_iff in Ecase. destruct (in_cache x), Ecase as [| ?%Z.eqb_neq]; (done || lia).
      * apply Hc.
      * apply Hc.
      * rewrite E. cbn. unfold cached_charge. cbn. lia.
      * rewrite E. cbn. rewrite Z.sub_add. by apply total_wrap.
Qed.

(** [Remove] of an entry in the cache, its table slot aside. *)
Lemma Remove_spec c e x :
  lru_core c -> heap c !! e = Some x -> in_cache x = true ->
  ∃ c', Remove ndebug e c = Some (c', deleted e x (removed x)) ∧ lru_core c' ∧
    table_ c' = table_ c ∧ capacity_ c' = capacity_ c ∧ usage_ c' = usage_ c - charge x ∧
    next_addr c' = next_addr c ∧
    heap c' = partial_alter (λ _, removed x) e (heap c) ∧
    lru_ c' = filter (.≠ e) (lru_ c).
Proof.
  intros Hc E Ec. pose proof (lc_entry _ Hc _ _ E) as (Hr & He & _ & Hch).
  pose proof (lc_usage_word _ Hc) as [_ Huw].
  assert (0 <= usage_ c - charge x) as Hpos.
  { rewrite (lc_usage _ Hc). pose proof (heap_sum_delete cached_charge (heap c) e) as Hs.
    rewrite E in Hs. cbn in Hs. unfold cached_charge in Hs at 3. rewrite Ec in Hs.
    assert (0 <= heap_sum cached_charge (delete e (heap c))); [| lia].
    apply heap_sum_nonneg. intros p y [_ Hp]%lookup_delete_Some.
    destruct (lc_entry _ Hc _ _ Hp) as (_ & _ & _ & ?). unfold cached_charge. case_match; lia. }
  unfold Remove. rewrite E. cbn [mbind option_bind]. rewrite Ec, assert_true. cbn [mbind option_bind].
  unfold Unref. cbn [heap set_entry set_usage usage_]. rewrite lookup_insert_eq.
  cbn [mbind option_bind refs value charge in_cache].
  rewrite (assert_bool ndebug (0 <? refs x)) by (apply Z.ltb_lt; lia). cbn [mbind option_bind].
  rewrite u32_pred by done.
  assert (u64 (usage_ c - charge x) = usage_ c - charge x) as -> by (apply wrap_small; split; lia).
  unfold removed, ext in *. rewrite Ec in He. cbn [andb].
  destruct (Z.eqb_spec (refs x) 1) as [E1 | N1].
  - rewrite E1. change (1 - 1 =? 0) with true. cbn iota. cbn [negb]. rewrite assert_true.
    cbn [mbind option_bind]. eexists. split; [done |].
    assert (∀ (h : gmap Ptr (LRUEntry V)) y z, delete e (<[e:=y]> (<[e:=z]> h)) = partial_alter (λ _, None) e h) as Hd.
    { intros. by rewrite !delete_insert_eq. }
    split_and!; try done; cbn; [| by rewrite Hd].
    apply (core_update c _ e None); cbn; rewrite ?Hd; try done.
    + intros p. rewrite elem_filter_ne. naive_solver.
    + intros p. rewrite elem_filter_ne. naive_solver.
    + apply list.NoDup_filter, Hc.
    + apply list.NoDup_filter, Hc.
    + rewrite E. cbn. unfold cached_charge. rewrite Ec. lia.
    + lia.
    + rewrite E. cbn. f_equal. lia.
  - rewrite (proj2 (Z.eqb_neq (refs x - 1) 0)) by lia. cbn iota. eexists. split; [done |].
    assert (e ∉ lru_ c) as Hnl.
    { rewrite (core_lru c e x) by done. unfold ext. rewrite Ec. lia. }
    assert (e ∈ in_use_ c) as Hin.
    { rewrite (core_in_use c e x) by done. unfold ext. rewrite Ec. lia. }
    split_and!; try done; cbn; [| by rewrite insert_insert_eq | symmetry; by apply filter_ne_id].
    apply (core_update c _ e (Some (MkLRUEntry (value x) (charge x) (refs x - 1) false))); cbn; rewrite ?insert_insert_eq; try done.
    + intros y [= <-]. split; [| by eapply lc_addr]. unfold entry_ok, ext. cbn. lia.
    + intros p. split; [| naive_solver]. intros Hp. destruct (decide (p = e)) as [-> |]; [right | naive_solver].
      split; [done |]. eexists. split; [done |]. unfold ext. cbn. lia.
    + intros p. split; [intros Hp; left; split; [naive_solver | done] |].
      intros [? | [-> (y & [= <-] & Hy)]]; [naive_solver |]. unfold ext in Hy. cbn in Hy. lia.
    + apply Hc.
    + apply Hc.
    + rewrite E. cbn. unfold cached_charge. rewrite Ec. cbn. lia.
    + lia.
    + rewrite E. cbn. rewrite Z.sub_add. by apply total_wrap.
Qed.

(** [Ref]: one more client reference; an idle entry leaves the LRU list. *)
Definition referenced x : LRUEntry V := MkLRUEntry (value x) (charge x) (refs x + 1) (in_cache x).

Lemma Ref_spec c e x :
  lru_core c -> heap c !! e = Some x -> refs x + 1 < 2 ^ 32 ->
  ∃ c', Ref e c = Some c' ∧ lru_core c' ∧
    table_ c' = table_ c ∧ capacity_ c' = capacity_ c ∧ usage_ c' = usage_ c ∧
    next_addr c' = next_addr c ∧
    heap c' = <[e := referenced x]> (heap c) ∧
    lru_ c' = filter (.≠ e) (lru_ c).
Proof.
  intros Hc E Hlt. pose proof (lc_entry _ Hc _ _ E) as (Hr & He & Hic & Hch).
  pose proof (lc_usage_word _ Hc) as [_ Huw].
  unfold Ref. rewrite E. cbn [mbind option_bind]. unfold u32.
  rewrite (wrap_small 32 (refs x + 1)) by (split; lia). fold (referenced x).
  assert (entry_ok (referenced x)) as Hok.
  { unfold entry_ok, ext, referenced in *. cbn. destruct (in_cache x); split_and!; try lia; done. }
  assert (0 < ext (referenced x)) as Hex by (unfold ext, referenced in *; cbn; destruct (in_cache x); lia).
  destruct ((refs x =? 1) && in_cache x) eqn:Ecase; (eexists; split; [done |]).
  - apply andb_true_iff in Ecase as [E1%Z.eqb_eq Ec].
    assert (e ∉ in_use_ c) as Hni.
    { rewrite (core_in_use c e x) by done. unfold ext. rewrite Ec. lia. }
    split_and!; try done. apply (core_update c _ e (Some (referenced x))); cbn; try done.
    + intros y [= <-]. split; [done | by eapply lc_addr].
    + intros p. rewrite elem_of_app, elem_filter_ne, list_elem_of_singleton. split; [| naive_solver].
      intros [? | ->]; [naive_solver |]. right. split; [done |]. by eexists.
    + intros p. rewrite elem_filter_ne. split; [naive_solver |]. intros [? | [-> (y & [= <-] & Hy)]]; [done | lia].
    + apply list.NoDup_app. split_and!; [apply list.NoDup_filter, Hc | | apply NoDup_singleton].
      intros p Hp%elem_filter_ne. rewrite list_elem_of_singleton. naive_solver.
    + apply list.NoDup_filter, Hc.
    + rewrite E. cbn. unfold cached_charge. cbn. lia.
    + rewrite E. cbn. rewrite Z.sub_add. by apply total_wrap.
  - assert (0 < ext x) as Hx.
    { unfold ext in *. apply andb_false_iff in Ecase.
      destruct (in_cache x), Ecase as [?%Z.eqb_neq |]; (done || lia). }
    assert (e ∉ lru_ c) as Hnl by (rewrite (core_lru c e x) by done; lia).
    assert (e ∈ in_use_ c) as Hin by by rewrite (core_in_use c e x).
    split_and!; try done; [| symmetry; by apply filter_ne_id].
    apply (core_update c _ e (Some (referenced x))); cbn; try done.
    + intros y [= <-]. split; [done | by eapply lc_addr].
    + intros p. split; [| naive_solver]. intros Hp. destruct (decide (p = e)) as [-> |]; [right | naive_solver].
      split; [done |]. by eexists.
    + intros p. split; [intros Hp; left; split; [naive_solver | done] |].
      intros [? | [-> (y & [= <-] & Hy)]]; [naive_solver | lia].
    + apply Hc.
    + apply Hc.
    + rewrite E. cbn. unfold cached_charge. cbn. lia.
    + rewrite E. cbn. rewrite Z.sub_add. by apply total_wrap.
Qed.

(** ** The table and eviction *)
Variable hashval : Slice -> Z.

Definition lru_tab c : Prop :=
  ht_wf hashval (table_ c) /\
  ∀ e, e ∈ elements (table_ c) <-> ∃ x, heap c !! e = Some x /\ in_cache x = true.

Record lru_wf c : Prop := {
  lw_core : lru_core c;
  lw_tab : lru_tab c;
  lw_capacity : usage_ c <= capacity_ c < 2 ^ 64
}.

(** Entries only disappear when no client refers to them: [dead] lists those. *)
Definition kept x y : Prop := ext y = ext x /\ value y = value x /\ charge y = charge x.
Definition calls c (dead : list Ptr) : list (Slice * V) :=
  omap (λ p, x ← heap c !! p; Some (p_key p, value x)) dead.
Record shrinks c c' (dead : list Ptr) : Prop := {
  sh_heap : ∀ p, match heap c !! p, heap c' !! p with
    | None, o => o = None /\ p ∉ dead
    | Some x, Some y => p ∉ dead /\ kept x y
    | Some x, None => p ∈ dead /\ ext x = 0
    end;
  sh_nodup : NoDup dead;
  sh_capacity : capacity_ c' = capacity_ c;
  sh_next : next_addr c' = next_addr c
}.

Lemma shrinks_refl c : shrinks c c [].
Proof.
  split; [| constructor | done | done]. intros p.
  destruct (heap c !! p); split; (done || by intros ?%elem_of_nil).
Qed.

Lemma shrinks_trans c c1 c2 d1 d2 :
  shrinks c c1 d1 -> shrinks c1 c2 d2 ->
  shrinks c c2 (d1 ++ d2) /\ calls c (d1 ++ d2) = calls c d1 ++ calls c1 d2.
Proof.
  intros H1 H2. split.
  - split; [| | by rewrite (sh_capacity _ _ _ H2), (sh_capacity _ _ _ H1)
             | by rewrite (sh_next _ _ _ H2), (sh_next _ _ _ H1)].
    + intros p. pose proof (sh_heap _ _ _ H1 p) as P1. pose proof (sh_heap _ _ _ H2 p) as P2.
      destruct (heap c !! p), (heap c1 !! p), (heap c2 !! p); unfold kept in *;
        rewrite ?elem_of_app; naive_solver congruence.
    + apply list.NoDup_app. split_and!; [by destruct H1 | | by destruct H2].
      intros p Hp. pose proof (sh_heap _ _ _ H1 p) as P1. pose proof (sh_heap _ _ _ H2 p) as P2.
      destruct (heap c !! p), (heap c1 !! p), (heap c2 !! p); naive_solver.
  - unfold calls. rewrite omap_app. f_equal.
    apply omap_ext_in. intros p Hp.
    pose proof (sh_heap _ _ _ H1 p) as P1. pose proof (sh_heap _ _ _ H2 p) as P2.
    destruct (heap c !! p), (heap c1 !! p), (heap c2 !! p); unfold kept in *; cbn; naive_solver congruence.
Qed.

Lemma ext_zero_refs x : entry_ok x -> ext x = 0 -> in_cache x = true /\ refs x = 1.
Proof. intros (? & ? & Hic & ?) Hx. unfold ext in *. destruct (in_cache x); [split; [done | lia] | specialize (Hic eq_refl); lia]. Qed.

Lemma removed_shrinks c c' e x :
  lru_core c -> heap c !! e = Some x -> in_cache x = true ->
  heap c' = partial_alter (λ _, removed x) e (heap c) ->
  capacity_ c' = capacity_ c -> next_addr c' = next_addr c ->
  let dead := if refs x =? 1 then [e] else [] in
  shrinks c c' dead /\ deleted e x (removed x) = calls c dead.
Proof.
  intros Hc E Ec Hh Hcap Hn. cbn zeta. split.
  - split; [| case_match; [apply NoDup_singleton | constructor] | done | done]. intros p. rewrite Hh.
    destruct (decide (p = e)) as [-> | Hne].
    + rewrite lookup_partial_alter_eq, E. unfold removed, kept, ext. destruct (Z.eqb_spec (refs x) 1).
      * split; [left |]. rewrite Ec. lia.
      * split; [by intros ?%elem_of_nil |]. cbn. rewrite Ec. split_and!; (done || lia).
    + rewrite lookup_partial_alter_ne by done.
      assert (p ∉ if refs x =? 1 then [e] else []) by (case_match; set_solver).
      destruct (heap c !! p); done.
  - unfold removed, calls, deleted. destruct (refs x =? 1); [cbn; by rewrite E | done].
Qed.

(** Removing an entry of the cache from the table and then from the cache. *)
Lemma evict_spec c a x :
  lru_core c -> lru_tab c -> heap c !! a = Some x -> in_cache x = true ->
  let dead := if refs x =? 1 then [a] else [] in
  ∃ c', evict ndebug a (p_key a) (p_hash a) c = Some (c', calls c dead) ∧
    lru_core c' ∧ lru_tab c' ∧ shrinks c c' dead ∧ usage_ c' = usage_ c - charge x ∧
    heap c' = partial_alter (λ _, removed x) a (heap c) ∧ lru_ c' = filter (.≠ a) (lru_ c).
Proof.
  intros Hc [Ht Hel] E Ec dead. assert (a ∈ elements (table_ c)) as Ha by (apply Hel; eauto).
  pose proof (wf_hashed hashval _ _ Ht Ha) as Hh. cbn in Hh.
  destruct (Remove_key_map hashval (table_ c) (p_key a) Ht) as (Ht' & Hr & Hm).
  unfold evict. unfold hashed in Hh. cbn in Hh. rewrite Hh.
  destruct (Remove_key (p_key a) (hashval (p_key a)) (table_ c)) as [t victim]. cbn [fst snd] in *.
  assert (victim = Some a) as -> by (rewrite Hr; by apply (ht_map_lookup hashval)).
  rewrite bool_decide_eq_true_2, assert_true by done. cbn [mbind option_bind].
  assert (lru_core (set_table t c)) as Hc' by (destruct Hc; split; done).
  destruct (Remove_spec (set_table t c) a x Hc' E Ec) as (c' & -> & Hc1 & Ht1 & Hcap & Hu & Hn & Hheap & Hl).
  destruct (removed_shrinks c c' a x Hc E Ec Hheap Hcap Hn) as [Hsh ->].
  exists c'. split_and!; try done. split; [by rewrite Ht1 |]. intros e. rewrite Ht1, Hheap. cbn [table_ set_table].
  assert (e ∈ elements t <-> e ∈ elements (table_ c) /\ p_key e <> p_key a) as ->.
  { transitivity (ht_map t !! p_key e = Some e); [rewrite (ht_map_lookup hashval) by done; naive_solver |].
    rewrite Hm, lookup_delete_Some, (ht_map_lookup hashval) by done. naive_solver. }
  cbn [heap set_table]. destruct (decide (e = a)) as [-> | Hne].
  - rewrite lookup_partial_alter_eq. unfold removed. split; [naive_solver |].
    intros (y & Hy & Hyc). case_match; [done |]. injection Hy as <-. done.
  - rewrite lookup_partial_alter_ne, Hel by done. split; [naive_solver |]. intros He. split; [done |].
    intros Ek. apply Hne. apply (wf_key_inj hashval (table_ c)); [done | by apply Hel | done | done].
Qed.

Lemma calls_cons c a x l : heap c !! a = Some x -> calls c (a :: l) = (p_key a, value x) :: calls c l.
Proof. intros E. unfold calls. cbn. by rewrite E. Qed.

(** Eviction takes the oldest idle entries, as many as needed and no more. *)
Lemma make_room_spec fuel c :
  lru_core c -> lru_tab c -> (length (lru_ c) <= fuel)%nat ->
  ∃ c' n, make_room ndebug fuel c = Some (c', calls c (take n (lru_ c))) ∧
    lru_core c' ∧ lru_tab c' ∧ shrinks c c' (take n (lru_ c)) ∧
    lru_ c' = drop n (lru_ c) ∧ usage_ c' <= usage_ c ∧
    (usage_ c' <= capacity_ c ∨ lru_ c' = []) ∧
    (∀ p, p ∉ take n (lru_ c) -> heap c' !! p = heap c !! p) ∧
    (n = O ∨ ∃ m a x, n = S m ∧ lru_ c !! m = Some a ∧ heap c !! a = Some x ∧
       capacity_ c < usage_ c' + charge x).
Proof.
  revert c. induction fuel as [| fuel IH]; intros c Hc Ht Hf.
  { exists c, O. cbn. rewrite take_0, drop_0. split_and!; try done; [apply shrinks_refl | | by left].
    right. destruct (lru_ c); [done | cbn in Hf; lia]. }
  cbn [make_room]. destruct (lru_ c) as [| a l] eqn:El.
  { exists c, O. rewrite El. split_and!; try done; [apply shrinks_refl | by right | by left]. }
  destruct (usage_ c >? capacity_ c) eqn:Eu.
  2: { exists c, O. rewrite Z.gtb_ltb in Eu. apply Z.ltb_ge in Eu.
       split_and!; try done; [apply shrinks_refl | by left | by left]. }
  rewrite Z.gtb_ltb in Eu. apply Z.ltb_lt in Eu.
  assert (a ∈ lru_ c) as Ha by (rewrite El; left). pose proof Ha as (x & E & Hx)%(lc_lru _ Hc).
  destruct (ext_zero_refs x (lc_entry _ Hc _ _ E) Hx) as [Ec Er].
  rewrite E. cbn [mbind option_bind]. rewrite Er, assert_true. cbn [mbind option_bind].
  destruct (evict_spec c a x Hc Ht E Ec) as (c1 & He & Hc1 & Ht1 & Hsh & Hu & Hh & Hl).
  rewrite Er, Z.eqb_refl in He, Hsh. rewrite He. cbn [mbind option_bind].
  pose proof (lc_nodup_lru _ Hc) as Hnd. rewrite El in Hnd, Hl. apply list.NoDup_cons in Hnd as [Hni Hnd].
  rewrite filter_cons_False, filter_ne_id in Hl by naive_solver.
  destruct (IH c1 Hc1 Ht1) as (c2 & n & Hm & Hc2 & Ht2 & Hsh2 & Hl2 & Hu2 & Hroom & Hsame & Hmin).
  { rewrite Hl. cbn in Hf. lia. }
  rewrite Hm. cbn [mbind option_bind]. rewrite Hl in *.
  destruct (shrinks_trans c c1 c2 [a] (take n l) Hsh Hsh2) as [Hsh' Hcalls].
  exists c2, (S n). cbn [take]. rewrite (sh_capacity _ _ _ Hsh) in *.
  pose proof (lc_entry _ Hc _ _ E) as (_ & _ & _ & Hch).
  split_and!; try done.
  - by rewrite <- Hcalls.
  - lia.
  - intros p Hp. apply not_elem_of_cons in Hp as [Hne Hp]. rewrite Hsame, Hh by done.
    by rewrite lookup_partial_alter_ne.
  - right. destruct Hmin as [-> | (m & b & y & -> & Hb & Ey & Hy)].
    + exists O, a, x. split_and!; [done | done | done |].
      assert (usage_ c2 = usage_ c1) as ->; [| lia].
      rewrite (lc_usage _ Hc2), (lc_usage _ Hc1). f_equal.
      apply map_eq. intros p. apply Hsame. by apply not_elem_of_nil.
    + exists (S m), b, y. split_and!; [done | done | | done].
      rewrite Hh, lookup_partial_alter_ne in Ey; [done |].
      intros <-. apply Hni. by eapply list_elem_of_lookup_2.
Qed.

(** ** Insertion *)

(** The state after the new handle was linked for its client. *)
Definition linked key (v : V) (chg : Z) c : Cache :=
  let e := MkPtr (next_addr c) key (hashval key) in
  MkLRUCache (capacity_ c) (u64 (total_usage_ c + chg)) (usage_ c) (in_use_ c ++ [e]) (lru_ c)
    (table_ c) (<[e := MkLRUEntry v chg 1 false]> (heap c)) (S (next_addr c)).
(** The state after the cache took its own reference. *)
Definition taken key (v : V) (chg : Z) c : Cache :=
  let e := MkPtr (next_addr c) key (hashval key) in
  set_usage (u64 (usage_ c + chg)) (set_entry e (MkLRUEntry v chg 2 true) (linked key v chg c)).

Lemma fresh_addr c e : lru_core c -> p_addr e = next_addr c -> heap c !! e = None.
Proof.
  intros Hc Ea. destruct (heap c !! e) eqn:E; [| done]. pose proof (lc_addr _ Hc _ _ E). lia.
Qed.

Lemma linked_core key v chg c : lru_core c -> 0 <= chg -> lru_core (linked key v chg c).
Proof.
  intros Hc Hchg. set (e := MkPtr (next_addr c) key (hashval key)).
  pose proof (fresh_addr c e Hc eq_refl) as E. pose proof (lc_usage_word _ Hc) as [_ Huw].
  assert (e ∉ in_use_ c) as Hni by (rewrite (lc_in_use _ Hc), E; naive_solver).
  assert (e ∉ lru_ c) as Hnl by (rewrite (lc_lru _ Hc), E; naive_solver).
  apply (core_update c _ e (Some (MkLRUEntry v chg 1 false))); cbn; try done.
  - intros x [= <-]. split; [| lia]. unfold entry_ok, ext. cbn. lia.
  - lia.
  - intros p. rewrite elem_of_app, list_elem_of_singleton. split; [| naive_solver].
    intros [? | ->]; [naive_solver |]. right. split; [done |]. by eexists.
  - intros p. split; [naive_solver |]. intros [? | [-> (y & [= <-] & Hy)]]; [naive_solver | done].
  - apply list.NoDup_app. split_and!; [by destruct Hc | | apply NoDup_singleton].
    intros p Hp. rewrite list_elem_of_singleton. naive_solver.
  - by destruct Hc.
  - rewrite E. cbn. unfold cached_charge. cbn. lia.
  - rewrite E. cbn. f_equal. lia.
Qed.

Lemma taken_core key v chg c :
  lru_core c -> 0 <= chg -> usage_ c + chg < 2 ^ 64 ->
  lru_core (taken key v chg c) /\ shrinks (linked key v chg c) (taken key v chg c) [] /\
  usage_ (taken key v chg c) = usage_ c + chg.
Proof.
  intros Hc Hchg Hlt. pose proof (linked_core key v chg c Hc Hchg) as Hc1.
  set (e := MkPtr (next_addr c) key (hashval key)). set (c1 := linked key v chg c) in *.
  assert (heap c1 !! e = Some (MkLRUEntry v chg 1 false)) as E by apply lookup_insert_eq.
  pose proof (lc_usage_word _ Hc) as [Hu0 _].
  assert (usage_ (taken key v chg c) = usage_ c + chg) as Hu by (apply wrap_small; split; lia).
  split_and!; [| | done].
  - apply (core_update c1 _ e (Some (MkLRUEntry v chg 2 true))); try done.
    + intros x [= <-]. split; [| cbn; lia]. unfold entry_ok, ext. cbn. lia.
    + intros p. change (in_use_ (taken key v chg c)) with (in_use_ c1).
      assert (e ∈ in_use_ c1) as Hin by by rewrite (core_in_use c1 e _ Hc1 E).
      split; [| by intros [[_ ?] | [-> _]]]. intros Hp.
      destruct (decide (p = e)) as [-> |]; [right | by left].
      split; [done |]. by eexists.
    + intros p. change (lru_ (taken key v chg c)) with (lru_ c1).
      assert (e ∉ lru_ c1) by by rewrite (core_lru c1 e _ Hc1 E).
      split; [naive_solver |]. intros [? | [-> (y & [= <-] & Hy)]]; [naive_solver | done].
    + by destruct Hc1.
    + by destruct Hc1.
    + rewrite Hu, E. change (usage_ c1) with (usage_ c). cbn. unfold cached_charge. cbn. lia.
    + lia.
    + change (total_usage_ (taken key v chg c)) with (total_usage_ c1).
      rewrite E. cbn [opt_sum charge]. rewrite Z.sub_add. by apply total_wrap.
  - split; [| constructor | done | done]. intros p. change (heap (taken key v chg c)) with (<[e:=MkLRUEntry v chg 2 true]> (heap c1)).
    destruct (decide (p = e)) as [-> | Hne].
    + rewrite lookup_insert_eq, E. split; [by intros ?%elem_of_nil | done].
    + rewrite lookup_insert_ne by done. destruct (heap c1 !! p); split; (done || by intros ?%elem_of_nil).
Qed.

(** Replacing the entry of the key: the old one, if any, leaves the cache. *)
Lemma replace_spec key v chg c t old :
  lru_wf c -> 0 <= chg -> capacity_ c + chg < 2 ^ 64 -> elems_ (table_ c) < 2 ^ 31 ->
  let e := MkPtr (next_addr c) key (hashval key) in
  HashTable.Insert e (table_ c) = (t, old) ->
  let c3 := set_table t (taken key v chg c) in
  ∃ c4 dead, match old with Some old => Remove ndebug old c3 | None => Some (c3, []) end
      = Some (c4, calls (linked key v chg c) dead) ∧
    lru_core c4 ∧ lru_tab c4 ∧ shrinks (linked key v chg c) c4 dead ∧
    usage_ c4 <= usage_ c + chg ∧ heap c4 !! e = Some (MkLRUEntry v chg 2 true) ∧ table_ c4 = t.
Proof.
  intros [Hc [Ht Hel] Hcap] Hchg Hlt Helm e Hins c3.
  destruct (taken_core key v chg c Hc Hchg ltac:(lia)) as (Hc2 & Hsh & Hu).
  pose proof (fresh_addr c e Hc eq_refl) as Ee.
  assert (hashed hashval e) as Hh by done.
  pose proof (HashTable.Insert_spec hashval (table_ c) e Ht Hh Helm) as HI. rewrite Hins in HI.
  destruct HI as (Ht' & Hold & _ & Hel').
  assert (lru_core c3) as Hc3 by (destruct Hc2; split; done).
  assert (heap c3 !! e = Some (MkLRUEntry v chg 2 true)) as E3 by apply lookup_insert_eq.
  assert (∀ p, p ≠ e -> heap c3 !! p = heap c !! p) as Hother.
  { intros p Hne. cbn. by rewrite !lookup_insert_ne by done. }
  assert (shrinks (linked key v chg c) c3 []) as Hsh3 by (destruct Hsh; split; done).
  destruct old as [o |].
  - symmetry in Hold. apply Lookup_spec in Hold as [Ho Ek]; [| done].
    pose proof Ho as (x & Ex & Exc)%Hel. assert (o ≠ e) as Hoe by (intros ->; congruence).
    destruct (Remove_spec c3 o x Hc3) as (c4 & -> & Hc4 & Ht4 & Hcap4 & Hu4 & Hn4 & Hh4 & _);
      [by rewrite Hother | done |].
    destruct (removed_shrinks c3 c4 o x Hc3) as [Hsh4 ->]; try done; [by rewrite Hother |].
    destruct (shrinks_trans _ _ _ _ _ Hsh3 Hsh4) as [Hsh' Hcalls]. cbn in Hcalls.
    exists c4. eexists. rewrite <- Hcalls. split_and!; [done | done | | done | | | by rewrite Ht4].
    + split; [by rewrite Ht4 |]. intros p. rewrite Ht4, Hh4. cbn [table_ c3 set_table]. rewrite Hel'.
      destruct (decide (p = o)) as [-> | Hne].
      * rewrite lookup_partial_alter_eq. split; [naive_solver |]. unfold removed. intros (y & Hy & Hyc).
        case_match; [done |]. injection Hy as <-. done.
      * rewrite lookup_partial_alter_ne by done. destruct (decide (p = e)) as [-> |].
        -- rewrite E3. naive_solver.
        -- rewrite Hother by done. rewrite Hel. split; [naive_solver |]. intros Hp. right. split; [done |].
           intros Ekp. apply Hne. apply (wf_key_inj hashval (table_ c)); [done | by apply Hel | done |].
           cbn in *. congruence.
    + rewrite Hu4. pose proof (lc_entry _ Hc _ _ Ex) as (_ & _ & _ & ?).
      change (usage_ c3) with (usage_ (taken key v chg c)). lia.
    + rewrite Hh4, lookup_partial_alter_ne by done. done.
  - exists c3, []. split_and!; try done; [| change (usage_ c3) with (usage_ (taken key v chg c)); lia].
    split; [done |]. intros p. cbn [table_ c3 set_table]. rewrite Hel'.
    destruct (decide (p = e)) as [-> | Hne]; [rewrite E3; naive_solver |].
    rewrite Hother, Hel by done. split; [naive_solver |]. intros Hp. right. split; [done |].
    intros Ekp. pose proof (proj2 (Lookup_spec hashval (table_ c) (p_key p) p Ht)) as Hfound.
    change (p_key p = key) in Ekp. change (e_key e) with key in Hold.
    rewrite Ekp in Hfound. rewrite <- Hold in Hfound. enough (None = Some p) by done. apply Hfound.
    split; [by apply Hel | done].
Qed.

Lemma LRU_Insert_spec key v chg c :
  lru_wf c -> 0 <= chg -> capacity_ c + chg < 2 ^ 64 -> elems_ (table_ c) < 2 ^ 31 ->
  let e := MkPtr (next_addr c) key (hashval key) in
  ∃ c' dead, Insert ndebug key (hashval key) v chg c = Some (e, c', calls (linked key v chg c) dead) ∧
    lru_wf c' ∧ shrinks (linked key v chg c) c' dead.
Proof.
  intros Hwf Hchg Hlt Helm e. pose proof Hwf as [Hc [Ht Hel] Hcap].
  pose proof (fresh_addr c e Hc eq_refl) as Ee. pose proof (linked_core key v chg c Hc Hchg) as Hc1.
  unfold Insert. fold (linked key v chg c). change (capacity_ (linked key v chg c)) with (capacity_ c).
  destruct (Z.eqb_spec (capacity_ c) 0) as [E0 | N0].
  { exists (linked key v chg c), []. split_and!; [done | | apply shrinks_refl]. split; [done | | done].
    split; [done |]. intros p. change (table_ (linked key v chg c)) with (table_ c). rewrite Hel.
    cbn. fold e. destruct (decide (p = e)) as [-> |].
    - rewrite lookup_insert_eq, Ee. split; [naive_solver |]. by intros (y & [= <-] & ?).
    - by rewrite lookup_insert_ne. }
  fold e. change (set_usage _ _) with (taken key v chg c).
  change (table_ (taken key v chg c)) with (table_ c).
  destruct (HashTable.Insert e (table_ c)) as [t old] eqn:Hins.
  destruct (replace_spec key v chg c t old Hwf Hchg Hlt Helm Hins)
    as (c4 & dead1 & Hr & Hc4 & Ht4 & Hsh4 & Hu4 & E4 & Etab). fold e in E4.
  assert (∀ A (k : Cache * list (Slice * V) -> option A),
    (match old with Some old => Remove ndebug old (set_table t (taken key v chg c)) | None => Some (set_table t (taken key v chg c), []) end ≫= k)
    = k (c4, calls (linked key v chg c) dead1)) as Hbind by (intros; rewrite Hr; done).
  rewrite Hbind. clear Hbind.
  destruct (make_room_spec (length (lru_ c4)) c4 Hc4 Ht4 (le_n _))
    as (c5 & n & -> & Hc5 & Ht5 & Hsh5 & Hl5 & Hu5 & Hroom & Hsame & _).
  cbn [mbind option_bind]. set (dead2 := take n (lru_ c4)) in *.
  destruct (shrinks_trans _ _ _ _ _ Hsh4 Hsh5) as [Hsh45 Hcalls].
  assert (e ∉ dead2) as Hed.
  { pose proof (sh_heap _ _ _ Hsh5 e) as P. rewrite E4 in P. destruct (heap c5 !! e); [by destruct P |].
    by destruct P as [_ ?]. }
  assert (heap c5 !! e = Some (MkLRUEntry v chg 2 true)) as E5 by by rewrite Hsame.
  assert (capacity_ c5 = capacity_ c) as Hcap5 by by rewrite (sh_capacity _ _ _ Hsh45).
  assert (capacity_ c4 = capacity_ c) as Hcap4 by by rewrite (sh_capacity _ _ _ Hsh4).
  destruct (usage_ c5 >? capacity_ c5) eqn:Eu; rewrite Z.gtb_ltb in Eu; cbn [mbind option_bind].
  - destruct (evict_spec c5 e _ Hc5 Ht5 E5 eq_refl) as (c6 & He6 & Hc6 & Ht6 & Hsh6 & Hu6 & _).
    cbn [p_key p_hash e refs charge] in He6, Hu6. change (2 =? 1) with false in He6, Hsh6.
    rewrite He6. cbn [mbind option_bind calls].
    rewrite (assert_bool ndebug (usage_ c6 <=? capacity_ c6))
      by (apply Z.leb_le; rewrite (sh_capacity _ _ _ Hsh6); lia).
    cbn [mbind option_bind]. destruct (shrinks_trans _ _ _ _ _ Hsh45 Hsh6) as [Hsh6' Hcalls6].
    exists c6, ((dead1 ++ dead2) ++ []). rewrite Hcalls6, Hcalls, <- app_assoc. split_and!; [done | | done].
    split; [done | done |]. rewrite (sh_capacity _ _ _ Hsh6). lia.
  - apply Z.ltb_ge in Eu. rewrite (assert_bool ndebug (usage_ c5 <=? capacity_ c5)) by (apply Z.leb_le; lia).
    cbn [mbind option_bind]. exists c5, (dead1 ++ dead2). rewrite Hcalls, app_nil_r. split_and!; [done | | done].
    split; [done | done | lia].
Qed.

(** [Lookup] of a key: a hit takes a reference to the entry of the table. *)
Lemma LRU_Lookup_spec key c :
  lru_wf c -> (∀ e x, heap c !! e = Some x -> refs x + 1 < 2 ^ 32) ->
  ∃ c', Lookup key (hashval key) c = Some (ht_map (table_ c) !! key, c') ∧ lru_wf c' ∧
    match ht_map (table_ c) !! key with
    | None => c' = c
    | Some e => p_key e = key ∧ ∃ x, heap c !! e = Some x ∧ in_cache x = true ∧
        heap c' = <[e := referenced x]> (heap c) ∧ table_ c' = table_ c ∧
        capacity_ c' = capacity_ c ∧ next_addr c' = next_addr c
    end.
Proof.
  intros [Hc [Ht Hel] Hcap] Hrefs. unfold Lookup. rewrite (ht_map_Lookup hashval) by done.
  destruct (ht_map (table_ c) !! key) as [e |] eqn:El; [| by exists c].
  apply (ht_map_lookup hashval) in El as [He Ek]; [| done]. pose proof He as (x & E & Ec)%Hel.
  destruct (Ref_spec c e x Hc E (Hrefs _ _ E)) as (c' & -> & Hc' & Ht' & Hcap' & Hu' & Hn' & Hh' & _).
  cbn [mbind option_bind]. exists c'. split_and!; [done | | done | by exists x].
  split; [done | | by rewrite Hu', Hcap']. split; [by rewrite Ht' |]. intros p. rewrite Ht', Hel, Hh'.
  destruct (decide (p = e)) as [-> |]; [rewrite lookup_insert_eq, E | by rewrite lookup_insert_ne].
  split; intros (y & [= <-] & Hy); by eexists.
Qed.

(** [Ref] and [Release] of a handle the client holds. *)
Lemma Ref_wf e x c :
  lru_wf c -> heap c !! e = Some x -> refs x + 1 < 2 ^ 32 ->
  ∃ c', Ref e c = Some c' ∧ lru_wf c' ∧ heap c' = <[e := referenced x]> (heap c) ∧
    table_ c' = table_ c ∧ capacity_ c' = capacity_ c ∧ next_addr c' = next_addr c.
Proof.
  intros [Hc [Ht Hel] Hcap] E Hr.
  destruct (Ref_spec c e x Hc E Hr) as (c' & -> & Hc' & Ht' & Hcap' & Hu' & Hn' & Hh' & _).
  exists c'. split_and!; try done. split; [done | | by rewrite Hu', Hcap'].
  split; [by rewrite Ht' |]. intros p. rewrite Ht', Hel, Hh'.
  destruct (decide (p = e)) as [-> |]; [rewrite lookup_insert_eq, E | by rewrite lookup_insert_ne].
  split; intros (y & [= <-] & Hy); by eexists.
Qed.

Lemma Release_spec e x c :
  lru_wf c -> heap c !! e = Some x -> 0 < ext x ->
  ∃ c', Release ndebug e c = Some (c', deleted e x (unreferenced x)) ∧ lru_wf c' ∧
    heap c' = partial_alter (λ _, unreferenced x) e (heap c) ∧
    table_ c' = table_ c ∧ capacity_ c' = capacity_ c ∧ next_addr c' = next_addr c ∧
    lru_ c' = (if in_cache x && (refs x =? 2) then lru_ c ++ [e] else lru_ c).
Proof.
  intros [Hc [Ht Hel] Hcap] E Hx.
  destruct (Unref_spec c e x Hc E Hx) as (c' & Hu & Hc' & Ht' & Hcap' & Hu' & Hn' & Hh' & Hl').
  exists c'. split_and!; try done. split; [done | | by rewrite Hu', Hcap'].
  split; [by rewrite Ht' |]. intros p. rewrite Ht', Hel, Hh'.
  destruct (decide (p = e)) as [-> |]; [rewrite lookup_partial_alter_eq, E | by rewrite lookup_partial_alter_ne].
  pose proof (lc_entry _ Hc _ _ E) as (Hr & _). unfold unreferenced, ext in *.
  destruct (Z.eqb_spec (refs x) 1).
  - split; [| naive_solver]. intros (y & [= <-] & Hy). rewrite Hy in Hx. lia.
  - split; intros (y & [= <-] & Hy); by eexists.
Qed.
End Facts.

(** * LRU cache: what its clients rely on *)

Section Props.
Context {V : Type}.
Variable ndebug : bool.
Variable hashval : Slice -> Z.
Abbreviation Cache := (LRUCache V).
Implicit Types (c : Cache) (e p : Ptr).

(** Removing an entry whose slot of the table was unlinked. *)
Lemma Remove_unlinked t e c :
  lru_wf hashval c -> e ∈ elements (table_ c) -> ht_wf hashval t ->
  (∀ p, p ∈ elements t <-> p ∈ elements (table_ c) /\ p_key p <> p_key e) ->
  ∃ c' dead, Remove ndebug e (set_table t c) = Some (c', calls c dead) ∧ lru_wf hashval c' ∧
    shrinks c c' dead ∧ table_ c' = t.
Proof.
  intros [Hc [Ht Hel] Hcap] He Ht' Helt. pose proof He as (x & E & Ec)%Hel.
  assert (lru_core (set_table t c)) as Hc' by (destruct Hc; split; done).
  destruct (Remove_spec ndebug (set_table t c) e x Hc' E Ec) as (c' & -> & Hc1 & Ht1 & Hcap1 & Hu & Hn & Hh & _).
  destruct (removed_shrinks c c' e x Hc E Ec Hh Hcap1 Hn) as [Hsh ->].
  exists c'. eexists. split_and!; [done | | done | by rewrite Ht1].
  split; [done | | rewrite Hu, Hcap1; pose proof (lc_entry _ Hc _ _ E) as (_ & _ & _ & ?); cbn; lia].
  split; [by rewrite Ht1 |]. intros p. rewrite Ht1, Hh. cbn [table_ set_table heap]. rewrite Helt.
  destruct (decide (p = e)) as [-> | Hne].
  - rewrite lookup_partial_alter_eq. unfold removed. split; [naive_solver |].
    intros (y & Hy & Hyc). case_match; [done |]. injection Hy as <-. done.
  - rewrite lookup_partial_alter_ne, Hel by done. split; [naive_solver |]. intros Hp. split; [done |].
    intros Ekp. apply Hne. apply (wf_key_inj hashval (table_ c)); [done | by apply Hel | done | done].
Qed.

(** A table with the entries of another one, but for one key. *)
Lemma elements_deleted t t' key :
  ht_wf hashval t -> ht_wf hashval t' -> ht_map t' = delete key (ht_map t) ->
  ∀ p : Ptr, p ∈ elements t' <-> p ∈ elements t /\ p_key p <> key.
Proof.
  intros Ht Ht' Hm p. transitivity (ht_map t' !! p_key p = Some p); [rewrite (ht_map_lookup hashval) by done; naive_solver |].
  rewrite Hm, lookup_delete_Some, (ht_map_lookup hashval) by done. naive_solver.
Qed.

(** Dropping an entry of the cache by key. *)
Lemma Erase_key_spec key c :
  lru_wf hashval c ->
  ∃ c' dead, Erase_key ndebug key (hashval key) c = Some (c', calls c dead) ∧ lru_wf hashval c' ∧
    shrinks c c' dead ∧ ht_map (table_ c') = delete key (ht_map (table_ c)).
Proof.
  intros Hwf. pose proof Hwf as [Hc [Ht Hel] Hcap]. unfold Erase_key.
  destruct (Remove_key_map hashval (table_ c) key Ht) as (Ht' & Hr & Hm).
  destruct (Remove_key key (hashval key) (table_ c)) as [t o]. cbn [fst snd] in *.
  pose proof (elements_deleted (table_ c) t key Ht Ht' Hm) as Helt. destruct o as [e |].
  - symmetry in Hr. apply (ht_map_lookup hashval) in Hr as [He Ek]; [| done].
    change (p_key e = key) in Ek. rewrite <- Ek in Helt.
    destruct (Remove_unlinked t e c Hwf He Ht' Helt) as (c' & dead & -> & Hwf' & Hsh & Etab).
    exists c', dead. split_and!; [done | done | done | by rewrite Etab].
  - exists (set_table t c), []. split_and!; [done | | destruct (shrinks_refl c); split; done | done].
    split; [by destruct Hc; split | | done]. split; [done |]. intros p. cbn [table_ set_table heap]. rewrite Helt, <- Hel.
    split; [naive_solver |]. intros Hp. split; [done |]. intros Ekp.
    assert (ht_map (table_ c) !! key = Some p) as Hl by (by apply (ht_map_lookup hashval)). congruence.
Qed.

(** Dropping a given entry: no effect when the cache has it no more, even if it has another one with
    the same key. *)
Lemma Erase_entry_spec e c :
  lru_wf hashval c ->
  ∃ c' dead, Erase_entry ndebug e c = Some (c', calls c dead) ∧ lru_wf hashval c' ∧ shrinks c c' dead ∧
    ht_map (table_ c') = (if bool_decide (ht_map (table_ c) !! p_key e = Some e) then delete (p_key e) (ht_map (table_ c))
                          else ht_map (table_ c)).
Proof.
  intros Hwf. pose proof Hwf as [Hc [Ht Hel] Hcap]. unfold Erase_entry.
  destruct (decide (e ∈ elements (table_ c))) as [He | He].
  - assert (hashed hashval e) as Hh by (by eapply wf_hashed).
    assert (ht_map (table_ c) !! p_key e = Some e) as Hl by (by apply (ht_map_lookup hashval)).
    destruct (Remove_entry_map hashval (table_ c) e Ht Hh) as (Ht' & Hr & Hm).
    change (e_key e) with (p_key e) in Hr, Hm. rewrite (bool_decide_eq_true_2 _ Hl) in Hr, Hm |- *.
    destruct (Remove_entry e (table_ c)) as [t o]. cbn [fst snd] in *. subst o.
    destruct (Remove_unlinked t e c Hwf He Ht' (elements_deleted _ _ _ Ht Ht' Hm)) as (c' & dead & -> & Hwf' & Hsh & Etab).
    exists c', dead. split_and!; [done | done | done | by rewrite Etab].
  - assert (ht_map (table_ c) !! p_key e <> Some e) as Hl by (intros [? _]%(ht_map_lookup hashval); done).
    rewrite (bool_decide_eq_false_2 _ Hl). unfold Remove_entry. rewrite decide_False.
    + exists c, []. change (set_table (table_ c) c) with (set_table (table_ c) c).
      assert (set_table (table_ c) c = c) as -> by (by destruct c). split_and!; [done | done | apply shrinks_refl | done].
    + destruct (FindPointer _ _ _) as [b i]. intros (R & HR & _)%slot_split. apply He. rewrite HR. by left.
Qed.

(** [Prune] empties the LRU list. *)
Lemma Prune_loop_spec fuel c :
  lru_wf hashval c -> (length (lru_ c) <= fuel)%nat ->
  ∃ c', Prune_loop ndebug fuel c = Some (c', calls c (lru_ c)) ∧ lru_wf hashval c' ∧
    shrinks c c' (lru_ c) ∧ lru_ c' = [].
Proof.
  revert c. induction fuel as [| fuel IH]; intros c Hwf Hf.
  { exists c. destruct (lru_ c); [| cbn in Hf; lia]. split_and!; (done || apply shrinks_refl). }
  pose proof Hwf as [Hc Ht Hcap]. cbn [Prune_loop]. destruct (lru_ c) as [| a l] eqn:El.
  { exists c. split_and!; (done || apply shrinks_refl). }
  assert (a ∈ lru_ c) as Ha by (rewrite El; left). pose proof Ha as (x & E & Hx)%(lc_lru _ Hc).
  destruct (ext_zero_refs x (lc_entry _ Hc _ _ E) Hx) as [Ec Er].
  rewrite E. cbn [mbind option_bind]. rewrite Er, assert_true. cbn [mbind option_bind].
  destruct (evict_spec ndebug hashval c a x Hc Ht E Ec) as (c1 & He & Hc1 & Ht1 & Hsh & Hu & Hh & Hl).
  rewrite Er, Z.eqb_refl in He, Hsh. rewrite He. cbn [mbind option_bind].
  pose proof (lc_nodup_lru _ Hc) as Hnd. rewrite El in Hnd, Hl. apply list.NoDup_cons in Hnd as [Hni Hnd].
  rewrite filter_cons_False, filter_ne_id in Hl by naive_solver.
  destruct (IH c1) as (c2 & Hp & Hwf2 & Hsh2 & Hl2).
  { split; [done | done |]. pose proof (sh_capacity _ _ _ Hsh) as Hcap'.
    pose proof (lc_entry _ Hc _ _ E) as (_ & _ & _ & ?). lia. }
  { rewrite Hl. cbn in Hf. lia. }
  rewrite Hl in *. rewrite Hp. cbn [mbind option_bind].
  destruct (shrinks_trans _ _ _ _ _ Hsh Hsh2) as [Hsh' Hcalls].
  exists c2. split_and!; [by rewrite <- Hcalls | done | done | done].
Qed.

(** The operations of the cache, with the obligations of a client: it may [Ref] or [Erase] a live
    handle, [Release] a handle it holds a reference to, set a capacity not below the usage, and
    counters do not overflow. *)
Inductive CacheOp :=
  | LInsert (key : Slice) (v : V) (chg : Z) | LLookup (key : Slice) | LRef (e : Ptr) | LRelease (e : Ptr)
  | LErase (key : Slice) | LEraseEntry (e : Ptr) | LPrune | LSetCapacity (cap : Z).

(** The handle returned, the cache, and the calls of deleters. *)
Definition apply_op (op : CacheOp) c : option (option Ptr * Cache * list (Slice * V)) :=
  match op with
  | LInsert key v chg => '(e, c, d) ← Insert ndebug key (hashval key) v chg c; Some (Some e, c, d)
  | LLookup key => '(e, c) ← Lookup key (hashval key) c; Some (e, c, [])
  | LRef e => c ← Ref e c; Some (None, c, [])
  | LRelease e => '(c, d) ← Release ndebug e c; Some (None, c, d)
  | LErase key => '(c, d) ← Erase_key ndebug key (hashval key) c; Some (None, c, d)
  | LEraseEntry e => '(c, d) ← Erase_entry ndebug e c; Some (None, c, d)
  | LPrune => '(c, d) ← Prune ndebug c; Some (None, c, d)
  | LSetCapacity cap => Some (None, SetCapacity cap c, [])
  end.

Definition counters_ok c : Prop :=
  elems_ (table_ c) < 2 ^ 31 /\ map_Forall (λ _ x, refs x + 1 < 2 ^ 32) (heap c).
Definition allowed (op : CacheOp) c : Prop :=
  counters_ok c /\
  match op with
  | LInsert _ _ chg => 0 <= chg /\ capacity_ c + chg < 2 ^ 64
  | LRef e | LEraseEntry e => is_Some (heap c !! e)
  | LRelease e => ∃ x, heap c !! e = Some x /\ 0 < ext x
  | LSetCapacity cap => usage_ c <= cap < 2 ^ 64
  | _ => True
  end.

(** The references of clients to a handle, and how many more the operation gave. *)
Definition clients c p : Z := match heap c !! p with Some x => ext x | None => 0 end.
Definition granted (op : CacheOp) (h : option Ptr) p : Z :=
  match op with
  | LRef e => if decide (e = p) then 1 else 0
  | LRelease e => if decide (e = p) then -1 else 0
  | _ => if decide (h = Some p) then 1 else 0
  end.

(** What an operation does: the invariant stays, references are counted, and exactly the handles of
    [dead] are freed. *)
Record effect (op : CacheOp) c (h : option Ptr) (c' : Cache) (dead : list Ptr) : Prop := {
  ef_wf : lru_wf hashval c';
  ef_nodup : NoDup dead;
  ef_clients : ∀ p, clients c' p = clients c p + granted op h p;
  ef_dead : ∀ p, p ∈ dead <-> is_Some (heap c !! p) /\ heap c' !! p = None;
  ef_value : ∀ p x y, heap c !! p = Some x -> heap c' !! p = Some y -> value y = value x
}.

(** Only idle handles go. *)
Lemma shrinks_effect op c c' dead :
  lru_wf hashval c' -> shrinks c c' dead -> (∀ p, granted op None p = 0) -> effect op c None c' dead.
Proof.
  intros Hwf Hsh Hg. split; [done | by destruct Hsh | | |].
  - intros p. rewrite Hg. pose proof (sh_heap _ _ _ Hsh p) as P. unfold clients.
    destruct (heap c !! p), (heap c' !! p); unfold kept in P; naive_solver lia.
  - intros p. pose proof (sh_heap _ _ _ Hsh p) as P.
    destruct (heap c !! p), (heap c' !! p); naive_solver.
  - intros p x y E E'. pose proof (sh_heap _ _ _ Hsh p) as P. rewrite E, E' in P. by destruct P as (_ & _ & ? & _).
Qed.

(** One more reference to a live handle. *)
Lemma referenced_effect op c c' h e x :
  lru_wf hashval c' -> heap c !! e = Some x -> heap c' = <[e := referenced x]> (heap c) ->
  (∀ p, granted op h p = if decide (e = p) then 1 else 0) -> effect op c h c' [].
Proof.
  intros Hwf E Hh Hg. split; [done | constructor | | |].
  - intros p. rewrite Hg. unfold clients. rewrite Hh. case_decide as Hp.
    + subst p. rewrite lookup_insert_eq, E. unfold ext, referenced. cbn. lia.
    + rewrite lookup_insert_ne by done. lia.
  - intros p. rewrite elem_of_nil, Hh. split; [done |]. intros [[y Ey] Hn]. apply lookup_insert_None in Hn as [? ?]. congruence.
  - intros p y z Ey Ez. rewrite Hh in Ez. destruct (decide (e = p)) as [<- | Hne].
    + rewrite lookup_insert_eq in Ez. injection Ez as <-. rewrite E in Ey. by injection Ey as <-.
    + rewrite lookup_insert_ne in Ez by done. congruence.
Qed.

Lemma Insert_effect key v chg c :
  lru_wf hashval c -> allowed (LInsert key v chg) c ->
  let e := MkPtr (next_addr c) key (hashval key) in
  ∃ c' dead, apply_op (LInsert key v chg) c = Some (Some e, c', calls c dead) ∧
    effect (LInsert key v chg) c (Some e) c' dead ∧ heap c !! e = None ∧
    ∃ x, heap c' !! e = Some x ∧ value x = v ∧ charge x = chg.
Proof.
  intros Hwf [[Helm _] [Hchg Hlt]] e. cbn [apply_op].
  destruct (LRU_Insert_spec ndebug hashval key v chg c Hwf Hchg Hlt Helm) as (c' & dead & E & Hwf' & Hsh). fold e in E.
  pose proof (fresh_addr c e (lw_core _ _ Hwf) eq_refl) as Ee.
  assert (heap (linked hashval key v chg c) = <[e := MkLRUEntry v chg 1 false]> (heap c)) as Hh by done.
  pose proof (sh_heap _ _ _ Hsh e) as Pe. rewrite Hh, lookup_insert_eq in Pe.
  destruct (heap c' !! e) as [y |] eqn:Ey; [| by destruct Pe]. destruct Pe as (Hed & Hk1 & Hk2 & Hk3).
  assert (calls (linked hashval key v chg c) dead = calls c dead) as Hcalls.
  { unfold calls. apply omap_ext_in. intros p Hp. rewrite Hh, lookup_insert_ne; [done |]. by intros ->. }
  exists c', dead. rewrite E. cbn [mbind option_bind]. rewrite Hcalls. split_and!; [done | | done | by exists y].
  split; [done | by destruct Hsh | | |].
  - intros p. cbn [granted]. unfold clients. destruct (decide (Some e = Some p)) as [Hp | Hne].
    + injection Hp as <-. rewrite Ee, Ey, Hk1. done.
    + pose proof (sh_heap _ _ _ Hsh p) as P. rewrite Hh, lookup_insert_ne in P by congruence.
      destruct (heap c !! p), (heap c' !! p); unfold kept in P; naive_solver lia.
  - intros p. pose proof (sh_heap _ _ _ Hsh p) as P. destruct (decide (e = p)) as [<- | Hne].
    + split; [done |]. intros [[z Ez] _]. congruence.
    + rewrite Hh, lookup_insert_ne in P by done. destruct (heap c !! p), (heap c' !! p); naive_solver.
  - intros p x z Ex Ez. pose proof (sh_heap _ _ _ Hsh p) as P. rewrite Hh, lookup_insert_ne, Ex, Ez in P by congruence.
    by destruct P as (_ & _ & ? & _).
Qed.

Lemma Release_effect e c :
  lru_wf hashval c -> allowed (LRelease e) c ->
  ∃ c' dead, apply_op (LRelease e) c = Some (None, c', calls c dead) ∧ effect (LRelease e) c None c' dead.
Proof.
  intros Hwf [_ (x & E & Hx)]. cbn [apply_op].
  destruct (Release_spec ndebug hashval e x c Hwf E Hx) as (c' & -> & Hwf' & Hh & _). cbn [mbind option_bind].
  exists c', (if refs x =? 1 then [e] else []). split.
  { unfold unreferenced, deleted. destruct (refs x =? 1); [| done]. unfold calls. cbn [omap list_omap]. by rewrite E. }
  assert (heap c' !! e = unreferenced x) as Ee by (rewrite Hh; apply lookup_partial_alter_eq).
  assert (∀ p, p ≠ e -> heap c' !! p = heap c !! p) as Hp by (intros p Hne; rewrite Hh; by apply lookup_partial_alter_ne).
  pose proof (lc_entry _ (lw_core _ _ Hwf) _ _ E) as (Hr & _).
  split; [done | case_match; [apply NoDup_singleton | constructor] | | |].
  - intros p. cbn [granted]. unfold clients. case_decide as Hd.
    + subst p. rewrite Ee, E. unfold unreferenced, ext in *. destruct (Z.eqb_spec (refs x) 1); cbn; destruct (in_cache x); lia.
    + rewrite Hp by congruence. lia.
  - intros p. destruct (decide (p = e)) as [-> | Hne].
    + rewrite Ee, E. unfold unreferenced. destruct (refs x =? 1).
      * rewrite list_elem_of_singleton. split; [by eexists | done].
      * rewrite elem_of_nil. split; [done | by intros [_ ?]].
    + rewrite Hp by done. split; [case_match; set_solver | intros [[? ?] ?]; congruence].
  - intros p y z Ey Ez. destruct (decide (p = e)) as [-> | Hne].
    + rewrite Ee in Ez. rewrite E in Ey. injection Ey as <-. unfold unreferenced in Ez. case_match; [done |]. by injection Ez as <-.
    + rewrite Hp in Ez by done. congruence.
Qed.

(** A capacity not below the usage. *)
Lemma SetCapacity_effect cap c :
  lru_wf hashval c -> usage_ c <= cap < 2 ^ 64 -> effect (LSetCapacity cap) c None (SetCapacity cap c) [].
Proof.
  intros [Hc [Ht Hel] _] Hcap. split; [| constructor | | |].
  - split; [by destruct Hc; split | by split | done].
  - intros p. change (clients (SetCapacity cap c) p) with (clients c p). cbn [granted].
    rewrite decide_False by done. lia.
  - intros p. cbn [heap SetCapacity]. rewrite elem_of_nil. split; [done |]. intros [[x Ex] Hn]. congruence.
  - intros p x y. cbn [heap SetCapacity]. congruence.
Qed.

Lemma apply_op_effect op c :
  lru_wf hashval c -> allowed op c ->
  ∃ h c' dead, apply_op op c = Some (h, c', calls c dead) ∧ effect op c h c' dead.
Proof.
  intros Hwf Hop. pose proof Hop as [[Helm Hrefs] Hop']. destruct op; cbn [apply_op].
  - destruct (Insert_effect key v chg c Hwf Hop) as (c' & dead & E & He & _). by eexists _, c', dead.
  - destruct (LRU_Lookup_spec hashval key c Hwf Hrefs) as (c' & -> & Hwf' & Hl). cbn [mbind option_bind].
    eexists _, c', []. split; [done |]. destruct (ht_map (table_ c) !! key) as [e |].
    + destruct Hl as (_ & x & E & _ & Hh & _). eapply referenced_effect; [done | done | done |].
      intros p. cbn [granted]. repeat case_decide; congruence.
    + subst c'. apply shrinks_effect; [done | apply shrinks_refl | done].
  - destruct Hop' as [x E]. destruct (Ref_wf hashval e x c Hwf E (Hrefs _ _ E)) as (c' & -> & Hwf' & Hh & _).
    cbn [mbind option_bind]. eexists _, c', []. split; [done |]. by eapply referenced_effect.
  - destruct (Release_effect e c Hwf Hop) as (c' & dead & E & He). by eexists _, c', dead.
  - destruct (Erase_key_spec key c Hwf) as (c' & dead & -> & Hwf' & Hsh & _). cbn [mbind option_bind].
    eexists _, c', dead. split; [done |]. by apply shrinks_effect.
  - destruct (Erase_entry_spec e c Hwf) as (c' & dead & -> & Hwf' & Hsh & _). cbn [mbind option_bind].
    eexists _, c', dead. split; [done |]. by apply shrinks_effect.
  - destruct (Prune_loop_spec (length (lru_ c)) c Hwf (le_n _)) as (c' & E & Hwf' & Hsh & _). unfold Prune. rewrite E.
    cbn [mbind option_bind]. eexists _, c', (lru_ c). split; [done |]. by apply shrinks_effect.
  - eexists _, _, []. split; [done |]. by apply SetCapacity_effect.
Qed.

(** [~LRUCache] deletes every handle of the LRU list. *)
Lemma destroy_loop_spec l c :
  NoDup l -> (∀ e, e ∈ l -> ∃ x, heap c !! e = Some x /\ refs x = 1 /\ in_cache x = true) ->
  ∃ c', destroy_loop ndebug l c = Some (c', calls c l) ∧ ∀ p, heap c' !! p = if decide (p ∈ l) then None else heap c !! p.
Proof.
  revert c. induction l as [| e l IH]; intros c Hnd Hl; cbn [destroy_loop].
  { exists c. split; [done |]. intros p. by rewrite decide_False by apply not_elem_of_nil. }
  apply list.NoDup_cons in Hnd as [Hni Hnd]. destruct (Hl e ltac:(left)) as (x & E & Er & Ec).
  rewrite E. cbn [mbind option_bind]. rewrite Er, Ec. cbn [andb]. rewrite assert_true. cbn [mbind option_bind].
  unfold Unref. cbn [heap set_entry]. rewrite lookup_insert_eq. cbn [mbind option_bind refs value charge in_cache].
  rewrite assert_true. cbn [mbind option_bind]. change (u32 (1 - 1) =? 0) with true. cbn iota. cbn [negb].
  rewrite assert_true. cbn [mbind option_bind].
  match goal with |- context [destroy_loop _ l ?y] => set (c1 := y) end.
  assert (∀ p, heap c1 !! p = if decide (p = e) then None else heap c !! p) as Hh.
  { intros p. unfold c1. cbn [heap LRU_Remove set_entry]. rewrite !delete_insert_eq. case_decide as Hp.
    - subst p. apply lookup_delete_eq.
    - by rewrite lookup_delete_ne. }
  destruct (IH c1 Hnd) as (c' & -> & Hh').
  { intros p Hp. rewrite Hh, decide_False by (intros ->; done). apply Hl. by right. }
  cbn [mbind option_bind]. exists c'. split.
  - rewrite (calls_cons c e x l E). cbn [app value]. do 3 f_equal. unfold calls. apply omap_ext_in. intros p Hp.
    by rewrite Hh, decide_False by (intros ->; done).
  - intros p. rewrite Hh', Hh. repeat case_decide; set_solver.
Qed.

(** C17. The LRU cache never fails an assertion, never uses a freed handle and keeps its invariant
    under every operation its clients may call ([Insert], [Lookup], [Ref], [Release], [Erase] of a key or of a
    handle, [Prune], and [SetCapacity] to no less than the usage): each live handle is on exactly one of the two
    lists (in use when a client refers to it, LRU when only the cache does), the table indexes
    exactly the handles in the cache, [total_usage_] is the charge of all live handles, and
    [usage_], the charge of those in the cache, never exceeds the capacity.  When no handle is in
    use, the destructor deletes every handle once. *)
Theorem LRUCache_invariant op c :
  lru_wf hashval c -> allowed op c ->
  (∃ h c' d, apply_op op c = Some (h, c', d) ∧ lru_wf hashval c' ∧ usage_ c' <= capacity_ c') ∧
  (in_use_ c = [] -> ∃ c', DestroyLRUCache ndebug c
     = Some (c', omap (λ p, x ← heap c !! p; Some (p_key p, value x)) (lru_ c)) ∧ heap c' = ∅).
Proof.
  intros Hwf Hop. split.
  - destruct (apply_op_effect op c Hwf Hop) as (h & c' & dead & E & He). pose proof (ef_wf _ _ _ _ _ He) as Hwf'.
    do 3 eexists. split_and!; [exact E | done | apply Hwf'].
  - intros Hu. pose proof (lw_core _ _ Hwf) as Hc. unfold DestroyLRUCache. rewrite Hu.
    rewrite bool_decide_eq_true_2, assert_true by done. cbn [mbind option_bind].
    destruct (destroy_loop_spec (lru_ c) c) as (c' & E & Hh); [apply Hc | |].
    + intros e (x & Ex & Hx)%(lc_lru _ Hc). exists x. split; [done |].
      destruct (ext_zero_refs x (lc_entry _ Hc _ _ Ex) Hx). done.
    + exists c'. split; [exact E |]. apply map_empty. intros p. rewrite Hh. case_decide as Hp; [done |].
      destruct (heap c !! p) as [x |] eqn:Ex; [| done]. exfalso. pose proof (lc_entry _ Hc _ _ Ex) as (_ & He & _).
      destruct (decide (ext x = 0)) as [H0 | H0].
      * apply Hp, (lc_lru _ Hc). by exists x.
      * assert (p ∈ in_use_ c) as Hin by (apply (lc_in_use _ Hc); exists x; split; [done | lia]).
        rewrite Hu in Hin. by apply elem_of_nil in Hin.
Qed.

(** C18. A handle in use is never deleted, and no handle is leaked.  After any operation a client may call, the references
    of the clients to each handle are those before, one more for the handle that [Insert], a [Lookup] that
    finds its key or [Ref] gave out, one less for a released one; exactly the handles of
    [dead] are freed, each once, by a deleter call with its key and value, and none of
    them has a reference left; a live handle keeps its value, and is in the cache or has a
    reference.  [Insert] returns a new handle for its key that holds the value, even if the
    cache does not keep it; [Lookup] returns a handle that was live, for its key. *)
Theorem deletes_only_idle op c :
  lru_wf hashval c -> allowed op c ->
  ∃ h c' dead, apply_op op c = Some (h, c', omap (λ p, x ← heap c !! p; Some (p_key p, value x)) dead) ∧
    NoDup dead ∧ (∀ p, p ∈ dead <-> is_Some (heap c !! p) /\ heap c' !! p = None) ∧
    (∀ p, clients c' p = clients c p + granted op h p) ∧
    (∀ p, p ∈ dead -> clients c p + granted op h p = 0) ∧
    (∀ p x y, heap c !! p = Some x -> heap c' !! p = Some y -> value y = value x) ∧
    (∀ p y, heap c' !! p = Some y -> in_cache y = true ∨ 0 < clients c' p) ∧
    match op with
    | LInsert key v _ => ∃ e x, h = Some e ∧ p_key e = key ∧ heap c !! e = None ∧ heap c' !! e = Some x ∧ value x = v
    | LLookup key => ∀ e, h = Some e -> p_key e = key ∧ is_Some (heap c !! e)
    | _ => h = None
    end.
Proof.
  intros Hwf Hop. destruct (apply_op_effect op c Hwf Hop) as (h & c' & dead & E & [Hwf' Hnd Hcl Hd Hv]).
  exists h, c', dead. split_and!; try done.
  - intros p [_ Hp]%Hd. rewrite <- Hcl. unfold clients. by rewrite Hp.
  - intros p y Ey. pose proof (lc_entry _ (lw_core _ _ Hwf') _ _ Ey) as (_ & _ & Hic & _). unfold clients. rewrite Ey.
    destruct (in_cache y); [by left | right; by apply Hic].
  - assert (∀ (o : option (Cache * list (Slice * V))),
      (o ≫= λ r, let '(c, d) := r in Some (None, c, d)) = Some (h, c', calls c dead) -> h = None) as Hnone.
    { intros [[? ?] |]; [by intros [= <- _ _] | done]. }
    destruct op; cbn [apply_op] in E; try (by apply Hnone in E).
    + destruct (Insert_effect key v chg c Hwf Hop) as (c1 & d1 & E1 & _ & Hn & x & Ex & Hx & _). cbn [apply_op] in E1.
      rewrite E in E1. injection E1 as -> -> _. eexists _, x. by split_and!.
    + destruct (LRU_Lookup_spec hashval key c Hwf (proj2 (proj1 Hop))) as (c1 & E1 & _ & Hl). rewrite E1 in E.
      cbn [mbind option_bind] in E. injection E as <- <- _. intros e He. rewrite He in Hl.
      destruct Hl as (Hk & x & Ex & _). split; [done | by exists x].
    + destruct (Ref e c); [by injection E as <- _ _ | done].
    + by injection E as <- _ _.
Qed.
End Props.

(** An empty cache is well formed. *)
Lemma NewLRUCache_wf {V} hashval capacity :
  word 64 capacity -> lru_wf hashval (NewLRUCache capacity : LRUCache V).
Proof.
  intros [H0 H1]. destruct (NewHashTable_wf (E := Ptr) hashval) as [Hwf He].
  split; [| | cbn; lia].
  - split; cbn; try done; try (intros e; rewrite lookup_empty; naive_solver);
      try (intros e; rewrite elem_of_nil, lookup_empty; naive_solver); constructor.
  - split; [exact Hwf |]. intros e. cbn. rewrite lookup_empty.
    change (e ∈ elements (NewHashTable : HashTable Ptr) <-> ∃ x : LRUEntry V, None = Some x ∧ in_cache x = true).
    rewrite He, elem_of_nil. naive_solver.
Qed.

(** Making room evicts idle handles in least-recently-used order and no more than needed: the
    deleted handles are a prefix of the LRU list, oldest first, the rest of the list keeps its order,
    every other handle is untouched, it stops with the usage within capacity or with no idle handle
    left, and before the last eviction the usage was still over capacity. *)
Theorem make_room_evicts_oldest {V} (ndebug : bool) hashval (c : LRUCache V) :
  lru_core c -> lru_tab hashval c ->
  ∃ c' n, make_room ndebug (length (lru_ c)) c
      = Some (c', omap (λ p, x ← heap c !! p; Some (p_key p, value x)) (take n (lru_ c))) ∧
    lru_ c' = drop n (lru_ c) ∧
    (usage_ c' <= capacity_ c ∨ lru_ c' = []) ∧
    (∀ p, p ∉ take n (lru_ c) -> heap c' !! p = heap c !! p) ∧
    (∀ p, p ∈ take n (lru_ c) -> heap c' !! p = None) ∧
    (n = O ∨ ∃ m a x, n = S m ∧ lru_ c !! m = Some a ∧ heap c !! a = Some x ∧
       capacity_ c < usage_ c' + charge x).
Proof.
  intros Hc Ht. destruct (make_room_spec ndebug hashval (length (lru_ c)) c Hc Ht (le_n _))
    as (c' & n & E & _ & _ & Hsh & Hl & _ & Hroom & Hsame & Hmin).
  exists c', n. split_and!; try done. intros p Hp. pose proof (sh_heap _ _ _ Hsh p) as P.
  destruct (heap c !! p), (heap c' !! p); naive_solver.
Qed.

(** ** Witnesses *)
Definition ex_cache : LRUCache nat := NewLRUCache 2.

(** A cache after some operations: "a" is in use, "b" is idle. *)
Definition ex_after (op : CacheOp) (c : LRUCache nat) : LRUCache nat :=
  match apply_op false (λ _, 0) op c with Some (_, c, _) => c | None => c end.
Definition ex_ptr (addr : nat) (key : Slice) : Ptr := MkPtr addr key 0.
Definition ex_one : LRUCache nat := ex_after (LInsert (lit "a") 1%nat 1) ex_cache.
Definition ex_two : LRUCache nat := ex_after (LInsert (lit "b") 2%nat 1) ex_one.
Definition ex_idle : LRUCache nat := ex_after (LRelease (ex_ptr 1 (lit "b"))) ex_two.

Lemma ex_after_wf op c : lru_wf (λ _, 0) c -> allowed op c -> lru_wf (λ _, 0) (ex_after op c).
Proof.
  intros Hwf Hop. unfold ex_after. destruct (apply_op_effect false (λ _, 0) op c Hwf Hop) as (h & c' & dead & -> & He).
  apply He.
Qed.
Lemma ex_idle_wf : lru_wf (λ _, 0) ex_idle.
Proof.
  repeat apply ex_after_wf; [apply NewLRUCache_wf; by_compute | ..]; (split; [split; [reflexivity | by_compute] |]).
  - split; [lia | reflexivity].
  - split; [lia | reflexivity].
  - eexists. split; vm_compute; reflexivity.
Qed.
Lemma ex_idle_counters : counters_ok ex_idle.
Proof. split; [reflexivity | by_compute]. Qed.

(** The restriction on [SetCapacity] is needed: below the charge of handles in use, the next [Insert] fails its last assertion. *)
Example SetCapacity_too_low : apply_op false (λ _, 0) (LInsert (lit "c") 3%nat 1) (SetCapacity 1 ex_two) = None.
Proof. vm_compute. reflexivity. Qed.

(** Erasing the handle in use takes it out of the cache; the cache then holds "b" only. *)
Lemma LRUCache_invariant_witness :
  ∃ h c' d, apply_op false (λ _, 0) (LEraseEntry (ex_ptr 0 (lit "a"))) ex_idle = Some (h, c', d) ∧
    usage_ c' <= capacity_ c' ∧ usage_ c' = 1.
Proof.
  destruct (LRUCache_invariant false (λ _, 0) (LEraseEntry (ex_ptr 0 (lit "a"))) ex_idle) as [(h & c' & d & E & _ & Hu) _].
  - exact ex_idle_wf.
  - split; [exact ex_idle_counters |]. vm_compute. by eexists.
  - exists h, c', d. split_and!; [exact E | exact Hu |].
    pose proof (f_equal (fmap (λ r, usage_ r.1.2)) E) as Eu. vm_compute in Eu. injection Eu as Eu. exact (eq_sym Eu).
Defined.

(** Inserting "c" into the full cache deletes the idle "b" and not "a". *)
Lemma deletes_only_idle_witness :
  ∃ h c', apply_op false (λ _, 0) (LInsert (lit "c") 3%nat 1) ex_idle = Some (h, c', [(lit "b", 2%nat)]) ∧
    clients c' (ex_ptr 0 (lit "a")) = 1.
Proof.
  destruct (deletes_only_idle false (λ _, 0) (LInsert (lit "c") 3%nat 1) ex_idle) as (h & c' & dead & E & _ & _ & Hcl & _).
  - exact ex_idle_wf.
  - split; [exact ex_idle_counters |]. split; [lia | reflexivity].
  - exists h, c'. pose proof (f_equal (fmap (λ r, (r.1.1, r.2))) E) as Ed. vm_compute in Ed. injection Ed as <- Ed.
    split; [rewrite E; do 2 f_equal; symmetry; exact Ed |]. rewrite Hcl. vm_compute. reflexivity.
Defined.

Lemma make_room_evicts_oldest_witness :
  ∃ c' d, make_room false (length (lru_ ex_cache)) ex_cache = Some (c', d).
Proof.
  destruct (make_room_evicts_oldest false (λ _, 0) ex_cache) as (c' & n & E & _).
  - apply (lw_core (λ _, 0)). apply NewLRUCache_wf. by_compute.
  - apply (lw_tab (λ _, 0)). apply NewLRUCache_wf. by_compute.
  - eexists _, _. exact E.
Defined.
