(* ===== verification/FsDb.v ===== *)
(** * The metadata databases of a server ([fsdb.cc], [fsro.cc], [fsbuk.cc])

    [FilesystemDb], [FilesystemReadonlyDb] and [BukDb] are [MXDB]s in the name-in-key
    format over LevelDB, here the interface [KvStore]; they are used after [Open]. *)
From S2P Require Import Prelude Status Coding FsTypes Keys Mxdb.
(** [FilesystemDbStats::Merge]. *)
Definition Merge (s other : FilesystemDbStats) : FilesystemDbStats :=
  MkStats (u64 (putkeybytes s + putkeybytes other)) (u64 (putbytes s + putbytes other))
    (u64 (puts s + puts other)) (u64 (getkeybytes s + getkeybytes other))
    (u64 (getbytes s + getbytes other)) (u64 (gets s + gets other)).

(** [DB::AddL0Tables], behind [FilesystemDb::BulkInsert]: it adopts the table files of a
    directory; the files themselves are outside this development. *)
Class BulkStore (DX : Type) := { dx_AddL0Tables : DX -> Slice -> Status * DX }.

Section Dbs.
Context {DX : Type} `{KvStore DX}.

(** [FilesystemDb::Put], [Get] and [Delete]; the statistics are always collected. *)
Definition FilesystemDb_Put (db : DX) (id : DirId) (fname : Slice) (stat : Stat)
    (stats : FilesystemDbStats) : Status * DX * FilesystemDbStats :=
  let '(s, db, _, perf) := PUT kNameInKey db id fname stat fname None (Some stats) in
  (s, db, default stats perf).
Definition FilesystemDb_Get (db : DX) (id : DirId) (fname : Slice) (stats : FilesystemDbStats)
    : Status * option Stat * FilesystemDbStats :=
  let '(s, stat, _, perf) := GET kNameInKey db id fname false None (Some stats) in
  (s, stat, default stats perf).
Definition FilesystemDb_Delete (db : DX) (id : DirId) (fname : Slice) : Status * DX :=
  let '(s, db, _) := DELETE db id fname None in (s, db).

(** [FilesystemReadonlyDb::Get]. *)
Definition FilesystemReadonlyDb_Get (db : DX) (id : DirId) (fname : Slice)
    (stats : FilesystemDbStats) : Status * option Stat * FilesystemDbStats :=
  let '(s, stat, _, perf) := GET kNameInKey db id fname false None (Some stats) in
  (s, stat, default stats perf).

(** [BukDb::Put]: its statistics count puts only. *)
Definition BukDb_Put (db : DX) (id : DirId) (fname : Slice) (stat : Stat)
    (stats : FilesystemDbStats) : Status * DX * FilesystemDbStats :=
  let '(s, db, _, perf) := PUT kNameInKey db id fname stat fname None (Some stats) in
  (s, db, default stats perf).

(** [FilesystemDb::BulkInsert]; the environment's [CreateDir] is left out. *)
Definition FilesystemDb_BulkInsert `{BulkStore DX} (db : DX) (table_dir : Slice) : Status * DX :=
  dx_AddL0Tables db table_dir.
End Dbs.
