(* ===== verification/Fs.v ===== *)
(** * The metadata server core ([fs.h], [fs.cc], class [Filesystem])

    Directory control blocks are objects of [dir_heap], indexed by the hash table [dirs]
    and kept alive by the handles of the LRU cache [dlru].  An operation is a function
    from the server state to a status and a new state; [None] is a failed assertion, the
    use of a missing object, or a wait that nobody ends (an operation run alone never
    waits).  The time read by [CurrentMicros] is the argument [now]. *)
From S2P Require Import Prelude Status Coding Hashing FsTypes Keys Giga HashTable.
From S2P Require Import Lru Mxdb FsDb.
Record FilesystemOptions := MkFilesystemOptions {
  dir_lru_size : Z;
  skip_partition_checks : bool; skip_name_collision_checks : bool;
  skip_lease_due_checks : bool; skip_perm_checks : bool;
  vsrvs : Z; nsrvs : Z; srvid : Z; mydno : Z
}.
Definition default_FilesystemOptions : FilesystemOptions :=
  MkFilesystemOptions 4096 false false false false 1 1 0 0.

Definition kWays : nat := 8.

Record Dir := MkDir {
  d_id : DirId;
  d_handle : Ptr;
  giga_opts : option DirIndexOptions;
  giga : option Rep;
  d_stats : FilesystemDbStats;
  fetched : bool;
  busy : list bool
}.

Record FS (DX : Type) := MkFS {
  inoq : Z;
  dlru : LRUCache Ptr;
  dirs : HashTable Ptr;
  dir_heap : gmap Ptr Dir;
  next_dir : nat;
  fs_options : FilesystemOptions;
  db_ : option DX;
  readonly_dbs : list DX
}.
Arguments MkFS {DX}. Arguments inoq {DX}. Arguments dlru {DX}. Arguments dirs {DX}.
Arguments dir_heap {DX}. Arguments next_dir {DX}. Arguments fs_options {DX}.
Arguments db_ {DX}. Arguments readonly_dbs {DX}.

Definition PickupServer (id : DirId) : Z :=
  u32 (RandomServer (EncodeFixed64 (dno id) ++ EncodeFixed64 (ino id)) 0).

(** ** Checks *)
Definition S_IWUSR : Z := 0x80.
Definition S_IWGRP : Z := 0x10.
Definition S_IWOTH : Z := 0x2.
Definition S_IXUSR : Z := 0x40.
Definition S_IXGRP : Z := 0x8.
Definition S_IXOTH : Z := 0x1.
Definition has_bit (mode b : Z) : bool := Z.land mode b =? b.

Definition IsDirWriteOk (options : FilesystemOptions) (parent : LookupStat) (who : User) : bool :=
  let mode := DirMode parent in
  if skip_perm_checks options then true
  else if uid who =? 0 then true
  else if (uid who =? DirUserId parent) && has_bit mode S_IWUSR then true
  else if (gid who =? DirGroupId parent) && has_bit mode S_IWGRP then true
  else has_bit mode S_IWOTH.

Definition IsLookupOk (options : FilesystemOptions) (parent : LookupStat) (who : User) : bool :=
  let mode := DirMode parent in
  if skip_perm_checks options then true
  else if uid who =? 0 then true
  else if (uid who =? DirUserId parent) && has_bit mode S_IXUSR then true
  else if (gid who =? DirGroupId parent) && has_bit mode S_IXGRP then true
  else has_bit mode S_IXOTH.

Definition IsLeaseOk (options : FilesystemOptions) (parent : LookupStat) (ts : Z) : bool :=
  if skip_lease_due_checks options then true else ts <=? LeaseDue parent.

Definition LRUKey (id : DirId) : Slice := EncodeFixed64 (dno id) ++ EncodeFixed64 (ino id).
Definition LRUHash (k : Slice) : Z := Hash k 0.

Section Filesystem.
Context {DX : Type} `{KvStore DX} `{BulkStore DX}.
Variable ndebug : bool.
Abbreviation assert := (assert_ ndebug).
Abbreviation Fs := (FS DX).
Implicit Types (fs : Fs) (dir : Ptr) (d : Dir).

Definition IsDirPartitionOk (options : FilesystemOptions) d (name : Slice) : option bool :=
  if skip_partition_checks options then Some true
  else
    o ← giga_opts d; g ← giga d;
    s ← SelectServer ndebug o g name; Some (srvid options =? s).

Definition NewFilesystem (options : FilesystemOptions) : Fs :=
  MkFS 0 (NewLRUCache (dir_lru_size options)) NewHashTable ∅ 0 options None [].
Definition SetReadonlyDbs (dbs : list DX) fs : Fs :=
  MkFS (inoq fs) (dlru fs) (dirs fs) (dir_heap fs) (next_dir fs) (fs_options fs) (db_ fs) dbs.
Definition SetDb (db : option DX) fs : Fs :=
  MkFS (inoq fs) (dlru fs) (dirs fs) (dir_heap fs) (next_dir fs) (fs_options fs) db (readonly_dbs fs).
Definition set_inoq (q : Z) fs : Fs :=
  MkFS q (dlru fs) (dirs fs) (dir_heap fs) (next_dir fs) (fs_options fs) (db_ fs) (readonly_dbs fs).
Definition set_dlru (c : LRUCache Ptr) fs : Fs :=
  MkFS (inoq fs) c (dirs fs) (dir_heap fs) (next_dir fs) (fs_options fs) (db_ fs) (readonly_dbs fs).
Definition set_dir dir d fs : Fs :=
  MkFS (inoq fs) (dlru fs) (dirs fs) (<[dir := d]> (dir_heap fs)) (next_dir fs) (fs_options fs)
    (db_ fs) (readonly_dbs fs).

(** [TryReuseIno]. *)
Definition TryReuseIno (ino n : Z) fs : Fs :=
  if ino =? inoq fs then set_inoq (u64 (inoq fs - n)) fs else fs.

(** ** Directory control blocks *)

(** [DeleteDir]: the deleter of the handles of [dlru]. *)
Definition DeleteDir (key : Slice) dir fs : option Fs :=
  d ← dir_heap fs !! dir;
  assert (bool_decide (p_key dir = key));;
  Some (MkFS (inoq fs) (dlru fs) (Remove_entry dir (dirs fs)).1 (delete dir (dir_heap fs)) (next_dir fs)
          (fs_options fs) (db_ fs) (readonly_dbs fs)).
Fixpoint run_deleters (l : list (Slice * Ptr)) fs : option Fs :=
  match l with
  | [] => Some fs
  | (key, dir) :: l => fs ← DeleteDir key dir fs; run_deleters l fs
  end.

Definition AcquireDir (id : DirId) fs : option (Ptr * Fs) :=
  let key := LRUKey id in
  let hash := LRUHash key in
  '(h, c) ← Lookup key hash (dlru fs);
  match h with
  | Some h =>
      x ← heap c !! h; d ← dir_heap fs !! value x;
      assert (bool_decide (d_handle d = h));;
      Some (value x, set_dlru c fs)
  | None =>
      let pos := FindPointer (dirs fs) key hash in
      match deref (dirs fs) pos with
      | Some dir =>
          d ← dir_heap fs !! dir; x ← heap (dlru fs) !! d_handle d;
          assert (bool_decide (value x = dir));;
          c ← Ref (d_handle d) (dlru fs);
          Some (dir, set_dlru c fs)
      | None =>
          let dir := MkPtr (next_dir fs) key hash in
          '(h, c, dead) ← Insert ndebug key hash dir 1 (dlru fs);
          let d := MkDir id h None None stats0 false (replicate kWays false) in
          fs ← run_deleters dead
                 (MkFS (inoq fs) c (Inject dir pos (dirs fs)).1 (<[dir := d]> (dir_heap fs))
                    (S (next_dir fs)) (fs_options fs) (db_ fs) (readonly_dbs fs));
          Some (dir, fs)
      end
  end.

(** [Filesystem::Release]. *)
Definition ReleaseDir dir fs : option Fs :=
  d ← dir_heap fs !! dir;
  '(c, dead) ← Release ndebug (d_handle d) (dlru fs);
  run_deleters dead (set_dlru c fs).

(** [MaybeFetchDir]; its status is always OK. *)
Definition MaybeFetchDir dir fs : option Fs :=
  d ← dir_heap fs !! dir;
  if fetched d then Some fs
  else
    let o := MkDirIndexOptions (nsrvs (fs_options fs)) (vsrvs (fs_options fs)) false in
    g ← NewRep ndebug (PickupServer (d_id d));
    g ← SetAll ndebug o g;
    Some (set_dir dir (MkDir (d_id d) (d_handle d) (Some o) (Some g) (d_stats d) true (busy d)) fs).

(** ** Database access *)
Fixpoint DbGet_readonly (dbs : list DX) (at_ : DirId) (name : Slice)
    (r : Status * option Stat * FilesystemDbStats) : Status * option Stat * FilesystemDbStats :=
  match dbs with
  | [] => r
  | db :: dbs =>
      let '(s, stat, stats) := FilesystemReadonlyDb_Get db at_ name r.2 in
      if ok s then (s, stat, stats)
      else if negb (IsNotFound s) then (s, stat, stats)
      else DbGet_readonly dbs at_ name (s, stat, stats)
  end.
Definition DbGet fs (at_ : DirId) (name : Slice) (stats : FilesystemDbStats)
    : Status * option Stat * FilesystemDbStats :=
  match db_ fs with
  | Some db =>
      let '(s, stat, stats) := FilesystemDb_Get db at_ name stats in
      if ok s then (s, stat, stats)
      else if negb (IsNotFound s) then (s, stat, stats)
      else DbGet_readonly (readonly_dbs fs) at_ name (s, stat, stats)
  | None => DbGet_readonly (readonly_dbs fs) at_ name (OK, None, stats)
  end.

Definition DbPut fs (at_ : DirId) (name : Slice) (stat : Stat) (stats : FilesystemDbStats)
    : option (Status * Fs * FilesystemDbStats) :=
  db ← db_ fs;
  let '(s, db, stats) := FilesystemDb_Put db at_ name stat stats in
  Some (s, SetDb (Some db) fs, stats).

Definition CheckAndPut fs (at_ : DirId) (name : Slice) (stat : Stat) (stats : FilesystemDbStats)
    : option (Status * Fs * FilesystemDbStats) :=
  let '(s, stats) :=
    if negb (skip_name_collision_checks (fs_options fs)) then
      let '(s, _, stats) := DbGet fs at_ name stats in
      (if ok s then MkStatus kAlreadyExists name []
       else if IsNotFound s then OK else s, stats)
    else (OK, stats) in
  if ok s then DbPut fs at_ name stat stats else Some (s, fs, stats).

(** ** Name subsets: the [busy] flags *)
Definition name_way (name : Slice) : nat := Z.to_nat (Z.land (Hash name 0) (Z.of_nat kWays - 1)).
Definition set_busy (i : nat) (b : bool) d : Dir :=
  MkDir (d_id d) (d_handle d) (giga_opts d) (giga d) (d_stats d) (fetched d) (<[i := b]> (busy d)).

(** [while (dir->busy[i]) cv->Wait(); busy[i] = true]: [None] while the flag is set. *)
Definition lock_way (i : nat) d : option Dir :=
  b ← busy d !! i; if (b : bool) then None else Some (set_busy i true d).
Fixpoint lock_ways (n i : nat) d : option Dir :=
  match n with O => Some d | S n => d ← lock_way i d; lock_ways n (S i) d end.
Fixpoint unlock_ways (n i : nat) d : Dir :=
  match n with O => d | S n => unlock_ways n (S i) (set_busy i false d) end.

Definition merge_stats (stats : FilesystemDbStats) d : Dir :=
  MkDir (d_id d) (d_handle d) (giga_opts d) (giga d) (Merge (d_stats d) stats) (fetched d) (busy d).

(** ** Operations inside a directory *)
Definition Lstat1 (who : User) (at_ : DirId) (name : Slice) (p : LookupStat) dir
    (stats : FilesystemDbStats) (now : Z) fs : option (Status * option Stat * Fs) :=
  if negb (IsLeaseOk (fs_options fs) p now) then
    Some (Err kAssertionFailed "Lease has expired", None, fs)
  else if negb (IsLookupOk (fs_options fs) p who) then
    Some (Err kAccessDenied "No dir x perm", None, fs)
  else
    fs ← MaybeFetchDir dir fs; d ← dir_heap fs !! dir;
    b ← IsDirPartitionOk (fs_options fs) d name;
    if negb b then Some (Err kAccessDenied "Wrong dir partition", None, fs)
    else
      let '(s, stat, stats) := DbGet fs at_ name stats in
      Some (s, stat, set_dir dir (merge_stats stats d) fs).

(** [Lokup1]; [stat] is what the caller passed.  A result that was not read is undefined. *)
Definition Lokup1 (who : User) (at_ : DirId) (name : Slice) (p : LookupStat) dir
    (stat : LookupStat) (stats : FilesystemDbStats) (now : Z) fs
    : option (Status * LookupStat * Fs) :=
  '(s, tmp, fs) ← Lstat1 who at_ name p dir stats now fs;
  if ok s then
    tmp ← tmp;
    if negb (S_ISDIR (FileMode tmp)) then Some (Err kDirExpected "Not a dir", stat, fs)
    else Some (s, SetLeaseDue (u64 (-1)) (CopyFrom tmp stat), fs)
  else Some (s, stat, fs).

Definition Mknod1 (who : User) (at_ : DirId) (name : Slice) (p : LookupStat) dir
    (stat : Stat) (stats : FilesystemDbStats) (now : Z) fs : option (Status * Fs) :=
  if negb (IsLeaseOk (fs_options fs) p now) then
    Some (Err kAssertionFailed "Lease has expired", fs)
  else if negb (IsDirWriteOk (fs_options fs) p who) then
    Some (Err kAccessDenied "No write perm", fs)
  else
    fs ← MaybeFetchDir dir fs; d ← dir_heap fs !! dir;
    b ← IsDirPartitionOk (fs_options fs) d name;
    if negb b then Some (Err kAccessDenied "Wrong dir partition", fs)
    else
      let i := name_way name in
      d ← lock_way i d;
      '(s, fs, stats) ← CheckAndPut (set_dir dir d fs) at_ name stat stats;
      d ← dir_heap fs !! dir;
      Some (s, set_dir dir (set_busy i false (merge_stats stats d)) fs).

(** The loop of [Mknos1]: [k] is what is left of [*n - m]. *)
Fixpoint Mknos_loop (k : nat) (m : Z) (at_ : DirId) (input : Slice) (startino : Z) (stat : Stat)
    (stats : FilesystemDbStats) (s : Status) fs : option (Status * Z * Fs * FilesystemDbStats) :=
  match k with
  | O => Some (s, m, fs, stats)
  | S k =>
      match GetLengthPrefixedSlice input with
      | None => Some (s, m, fs, stats)
      | Some (name, input) =>
          let stat := SetInodeNo (u64 (startino + m)) stat in
          '(s, fs, stats) ← CheckAndPut fs at_ name stat stats;
          if negb (ok s) then Some (s, m, fs, stats)
          else Mknos_loop k (m + 1) at_ input startino stat stats s fs
      end
  end.

(** [Mknos1]: the status and the value left in [*n]. *)
Definition Mknos1 (who : User) (at_ : DirId) (namearr : Slice) (startino : Z) (p : LookupStat)
    dir (stat : Stat) (n : Z) (stats : FilesystemDbStats) (now : Z) fs
    : option (Status * Z * Fs) :=
  if negb (IsLeaseOk (fs_options fs) p now) then
    Some (Err kAssertionFailed "Lease has expired", n, fs)
  else if negb (IsDirWriteOk (fs_options fs) p who) then
    Some (Err kAccessDenied "No write perm", n, fs)
  else
    fs ← MaybeFetchDir dir fs; d ← dir_heap fs !! dir;
    d ← lock_ways kWays 0 d;
    '(s, m, fs, stats) ← Mknos_loop (Z.to_nat n) 0 at_ namearr startino stat stats OK (set_dir dir d fs);
    d ← dir_heap fs !! dir;
    Some (s, u32 m, set_dir dir (unlock_ways kWays 0 (merge_stats stats d)) fs).

Definition Bukin1 (who : User) (at_ : DirId) (p : LookupStat) dir (table_dir : Slice) (now : Z) fs
    : option (Status * Fs) :=
  if negb (IsLeaseOk (fs_options fs) p now) then
    Some (Err kAssertionFailed "Lease has expired", fs)
  else if negb (IsDirWriteOk (fs_options fs) p who) then
    Some (Err kAccessDenied "No write perm", fs)
  else
    fs ← MaybeFetchDir dir fs; d ← dir_heap fs !! dir;
    d ← lock_ways kWays 0 d;
    db ← db_ fs;
    let '(s, db) := FilesystemDb_BulkInsert db table_dir in
    Some (s, set_dir dir (unlock_ways kWays 0 d) (SetDb (Some db) fs)).

(** ** The file system interface *)
Definition Bukin (who : User) (parent : LookupStat) (table_dir : Slice) (now : Z) fs
    : option (Status * Fs) :=
  let at_ := DirId_of_LookupStat parent in
  '(dir, fs) ← AcquireDir at_ fs;
  '(s, fs) ← Bukin1 who at_ parent dir table_dir now fs;
  fs ← ReleaseDir dir fs; Some (s, fs).

Definition Lokup (who : User) (parent : LookupStat) (name : Slice) (stat : LookupStat) (now : Z) fs
    : option (Status * LookupStat * Fs) :=
  let at_ := DirId_of_LookupStat parent in
  '(dir, fs) ← AcquireDir at_ fs;
  '(s, stat, fs) ← Lokup1 who at_ name parent dir stat stats0 now fs;
  fs ← ReleaseDir dir fs; Some (s, stat, fs).

Definition Lstat (who : User) (parent : LookupStat) (name : Slice) (now : Z) fs
    : option (Status * option Stat * Fs) :=
  let at_ := DirId_of_LookupStat parent in
  '(dir, fs) ← AcquireDir at_ fs;
  '(s, stat, fs) ← Lstat1 who at_ name parent dir stats0 now fs;
  fs ← ReleaseDir dir fs; Some (s, stat, fs).

(** The stat of a new file, and of a new directory. *)
Definition file_stat (mydno ino : Z) (who : User) (mode : Z) : Stat :=
  MkStat mydno ino 0 0 0 (Z.lor S_IFREG (Z.land mode ACCESSPERMS)) (u32 (-1)) (uid who) (gid who).
Definition dir_stat (mydno ino : Z) (who : User) (mode : Z) : Stat :=
  MkStat mydno ino 0 0 0 (Z.lor S_IFDIR (Z.land mode ACCESSPERMS))
    (PickupServer (MkDirId mydno ino)) (uid who) (gid who).

Definition Mkfls (who : User) (parent : LookupStat) (namearr : Slice) (mode n : Z) (now : Z) fs
    : option (Status * Z * Fs) :=
  let at_ := DirId_of_LookupStat parent in
  '(dir, fs) ← AcquireDir at_ fs;
  let stat := file_stat (mydno (fs_options fs)) 0 who mode in
  let fs := set_inoq (u64 (inoq fs + n)) fs in
  let myino := inoq fs in
  let startino := u64 (myino - n + 1) in
  '(s, n, fs) ← Mknos1 who at_ namearr startino parent dir stat n stats0 now fs;
  let fs := if negb (ok s) then
              let x := u64 (myino - startino + 1) in TryReuseIno myino (u64 (x - n)) fs
            else fs in
  fs ← ReleaseDir dir fs; Some (s, n, fs).

(** [Mkfle] and [Mkdir], which differ in the stat they write. *)
Definition Mknod (mk : Z -> Z -> User -> Z -> Stat) (who : User) (parent : LookupStat) (name : Slice)
    (mode : Z) (now : Z) fs : option (Status * option Stat * Fs) :=
  let at_ := DirId_of_LookupStat parent in
  '(dir, fs) ← AcquireDir at_ fs;
  let fs := set_inoq (u64 (inoq fs + 1)) fs in
  let myino := inoq fs in
  let stat := mk (mydno (fs_options fs)) myino who mode in
  '(s, fs) ← Mknod1 who at_ name parent dir stat stats0 now fs;
  let fs := if negb (ok s) then TryReuseIno myino 1 fs else fs in
  fs ← ReleaseDir dir fs; Some (s, Some stat, fs).
Definition Mkfle := Mknod file_stat.
Definition Mkdir := Mknod dir_stat.

(** [TEST_TotalDirsInMemory] and [TEST_LastIno]. *)
Definition TEST_TotalDirsInMemory fs : Z := Size (dirs fs).
Definition TEST_LastIno fs : Z := inoq fs.
End Filesystem.
