(* ===== verification/FsOps.v ===== *)
(** * Directory control blocks: at most one per directory

    [fs_wf] relates the control blocks, the table that indexes them and the LRU cache
    that keeps them alive: handles and control blocks correspond one to one, and the
    table indexes exactly the control blocks in memory.  [AcquireDir] and [ReleaseDir]
    preserve it. *)
From S2P Require Import Prelude Status Coding Hashing FsTypes Keys Giga GigaFacts.
From S2P Require Import GigaProps Mxdb MxdbProps HashTable Lru LruProps FsDb Fs.

Lemma EncodeFixed64_inj a b : word 64 a -> word 64 b -> EncodeFixed64 a = EncodeFixed64 b -> a = b.
Proof.
  intros Ha Hb E. pose proof (DecodeFixed64_wrap a []) as Da. pose proof (DecodeFixed64_wrap b []) as Db.
  rewrite E in Da. rewrite Da in Db. injection Db as Db. unfold u64 in Db. by rewrite !wrap_small in Db.
Qed.

Lemma LRUKey_inj x y : DirId_wf x -> DirId_wf y -> LRUKey x = LRUKey y -> x = y.
Proof.
  intros [Hx1 Hx2] [Hy1 Hy2] E. unfold LRUKey in E. apply app_inj_1 in E as [E1 E2]; [| done].
  apply EncodeFixed64_inj in E1; [| done | done]. apply EncodeFixed64_inj in E2; [| done | done].
  destruct x, y. cbn in *. congruence.
Qed.

Section DirTable.
Context {DX : Type}.
Variable ndebug : bool.
Implicit Types (fs : FS DX) (dir p h : Ptr) (d : Dir).

(** The invariant while the control blocks of [l] wait for their deleters. *)
Record fs_wf_but (l : list Ptr) fs : Prop := {
  fw_lru : lru_wf LRUHash (dlru fs);
  fw_dirs : ht_wf LRUHash (dirs fs);
  fw_index : ∀ p, p ∈ elements (dirs fs) <-> is_Some (dir_heap fs !! p);
  fw_dir : ∀ p d, dir_heap fs !! p = Some d ->
    p_key p = LRUKey (d_id d) ∧ DirId_wf (d_id d) ∧ (p_addr p < next_dir fs)%nat ∧
    (p ∉ l -> ∃ x, heap (dlru fs) !! d_handle d = Some x ∧ value x = p);
  fw_handle : ∀ h x, heap (dlru fs) !! h = Some x ->
    p_key h = p_key (value x) ∧ value x ∉ l ∧ ∃ d, dir_heap fs !! value x = Some d ∧ d_handle d = h;
  fw_dead : NoDup l ∧ ∀ p, p ∈ l -> is_Some (dir_heap fs !! p)
}.
Definition fs_wf := fs_wf_but [].

(** Parts of the state a directory operation leaves alone. *)
Definition same_data fs fs' : Prop :=
  inoq fs' = inoq fs /\ fs_options fs' = fs_options fs /\ db_ fs' = db_ fs /\
  readonly_dbs fs' = readonly_dbs fs.

Lemma same_data_trans fs1 fs2 fs3 : same_data fs1 fs2 -> same_data fs2 fs3 -> same_data fs1 fs3.
Proof. unfold same_data. intuition congruence. Qed.

(** The deleters free exactly the control blocks that wait. *)
Lemma run_deleters_spec l fs :
  fs_wf_but l fs ->
  ∃ fs', run_deleters ndebug ((λ p, (p_key p, p)) <$> l) fs = Some fs' ∧ fs_wf fs' ∧
    same_data fs fs' ∧ dlru fs' = dlru fs ∧
    ∀ p, dir_heap fs' !! p = if decide (p ∈ l) then None else dir_heap fs !! p.
Proof.
  revert fs. induction l as [| p l IH]; intros fs Hwf.
  { exists fs. split_and!; try done. }
  pose proof Hwf as [Hlru Hd Hi Hdir Hh [Hnd Hdead]]. apply list.NoDup_cons in Hnd as [Hni Hnd].
  destruct (Hdead p ltac:(left)) as [d E]. cbn [run_deleters fmap list_fmap]. unfold DeleteDir.
  rewrite E. cbn [mbind option_bind]. rewrite bool_decide_eq_true_2, assert_true by done.
  cbn [mbind option_bind]. set (fs1 := MkFS _ _ _ _ _ _ _ _).
  assert (hashed LRUHash p) as Hp by (eapply wf_hashed; [exact Hd | apply Hi; eauto]).
  pose proof (Remove_entry_map LRUHash (dirs fs) p Hd Hp) as (Hd1 & _ & Hm).
  assert (ht_map (dirs fs) !! e_key p = Some p) as Hl.
  { apply (ht_map_lookup LRUHash); [done |]. split; [apply Hi; eauto | done]. }
  rewrite bool_decide_eq_true_2 in Hm by done.
  destruct (IH fs1) as (fs' & Er & Hwf' & Hsame & Hc & Hheap).
  - split; cbn; try done.
    + intros q. transitivity (ht_map (Remove_entry p (dirs fs)).1 !! e_key q = Some q).
      { rewrite (ht_map_lookup LRUHash) by done. naive_solver. }
      rewrite Hm, lookup_delete_Some, (ht_map_lookup LRUHash) by done. rewrite Hi. split.
      * intros (Hne & Hq & _). rewrite lookup_delete_ne; [done |]. intros ->. done.
      * destruct (decide (p = q)) as [-> | Hne]; [rewrite lookup_delete_eq; by intros [? [=]] |].
        rewrite lookup_delete_ne by done. intros Hq. split_and!; [| done | done]. intros Ek. apply Hne.
        apply (wf_key_inj LRUHash (dirs fs)); try done; apply Hi; eauto.
    + intros q d' [Hne Hq]%lookup_delete_Some. destruct (Hdir q d' Hq) as (? & ? & ? & Hx).
      split_and!; try done. intros Hql. apply Hx. by apply not_elem_of_cons.
    + intros h x Hx. destruct (Hh h x Hx) as (? & Hnl & d' & Hd' & ?).
      apply not_elem_of_cons in Hnl as [Hne Hnl]. split_and!; try done. exists d'.
      by rewrite lookup_delete_ne.
    + split; [done |]. intros q Hq. rewrite lookup_delete_ne; [apply Hdead; by right |].
      intros ->. done.
  - exists fs'. split_and!; try done. intros q. rewrite Hheap. cbn [dir_heap fs1].
    destruct (decide (q ∈ l)), (decide (q ∈ p :: l)); try done; [exfalso; set_solver | |].
    + assert (q = p) as -> by set_solver. apply lookup_delete_eq.
    + rewrite lookup_delete_ne; [done |]. intros ->. set_solver.
Qed.

(** Changing the cache only in reference counts. *)
Lemma set_dlru_wf c' l fs :
  fs_wf_but l fs -> lru_wf LRUHash c' ->
  (∀ h, value <$> heap c' !! h = value <$> heap (dlru fs) !! h) -> fs_wf_but l (set_dlru c' fs).
Proof.
  intros [Hlru Hd Hi Hdir Hh Hdead] Hc Hv. split; try done; cbn.
  - intros p d Hp. destruct (Hdir p d Hp) as (? & ? & ? & Hx). split_and!; try done. intros Hl.
    destruct (Hx Hl) as (x & E & <-). specialize (Hv (d_handle d)). rewrite E in Hv.
    destruct (heap c' !! d_handle d) as [y |]; [| done]. exists y. split; [done |]. by injection Hv.
  - intros h x Hx. specialize (Hv h). rewrite Hx in Hv. cbn in Hv.
    destruct (heap (dlru fs) !! h) as [y |] eqn:E; [| done]. injection Hv as ->. by apply Hh.
Qed.

(** One more client reference to an entry changes no value. *)
Lemma referenced_values (h0 : gmap Ptr (LRUEntry Ptr)) h x :
  h0 !! h = Some x -> ∀ k, value <$> (<[h := referenced x]> h0) !! k = value <$> h0 !! k.
Proof.
  intros E k. destruct (decide (k = h)) as [-> |]; [by rewrite lookup_insert_eq, E |].
  by rewrite lookup_insert_ne.
Qed.

(** A control block and the references that operations in progress hold on it. *)
Definition dir_ref fs p d (n : Z) : Prop :=
  dir_heap fs !! p = Some d /\ ∃ x, heap (dlru fs) !! d_handle d = Some x /\ ext x = n.

(** The references that operations in progress hold on a control block, and a change of that number
    at [p] alone: other control blocks stay as they are, or are freed while nobody refers to them. *)
Definition refcount fs p : Z :=
  match dir_heap fs !! p with
  | Some d => match heap (dlru fs) !! d_handle d with Some x => ext x | None => 0 end
  | None => 0
  end.
Definition counted fs fs' p (k : Z) : Prop :=
  capacity_ (dlru fs') = capacity_ (dlru fs) /\
  refcount fs' p = refcount fs p + k /\
  ∀ q, q ≠ p -> refcount fs' q = refcount fs q /\
    (dir_heap fs' !! q = dir_heap fs !! q \/ (dir_heap fs' !! q = None /\ refcount fs q = 0)).

(** Two control blocks have two handles. *)
Lemma handle_ne fs p q d dq :
  fs_wf fs -> dir_heap fs !! p = Some d -> dir_heap fs !! q = Some dq -> q ≠ p -> d_handle dq ≠ d_handle d.
Proof.
  intros Hwf E Eq Hne He. destruct (fw_dir _ _ Hwf _ _ E) as (_ & _ & _ & Hx).
  destruct (fw_dir _ _ Hwf _ _ Eq) as (_ & _ & _ & Hy).
  destruct (Hx ltac:(by apply not_elem_of_nil)) as (x & Ex & Hvx).
  destruct (Hy ltac:(by apply not_elem_of_nil)) as (y & Ey & Hvy). rewrite He in Ey. congruence.
Qed.

Lemma released_counted p d x c' fs fs' :
  fs_wf fs -> dir_heap fs !! p = Some d -> heap (dlru fs) !! d_handle d = Some x -> 0 < ext x ->
  dlru fs' = c' -> heap c' = partial_alter (λ _, unreferenced x) (d_handle d) (heap (dlru fs)) ->
  capacity_ c' = capacity_ (dlru fs) -> (∀ q, q ≠ p -> dir_heap fs' !! q = dir_heap fs !! q) ->
  dir_heap fs' !! p = (if refs x =? 1 then None else Some d) -> counted fs fs' p (-1).
Proof.
  intros Hwf E Ex Hpos Ec Hheap Hcap Hq Hp. split; [by rewrite Ec |]. split.
  - unfold refcount. rewrite E, Ex, Hp, Ec. unfold unreferenced, ext in *. destruct (Z.eqb_spec (refs x) 1).
    + destruct (in_cache x); lia.
    + rewrite Hheap, lookup_partial_alter_eq. unfold ext. cbn. lia.
  - intros q Hne. split; [| left; by apply Hq]. unfold refcount. rewrite Hq by done.
    destruct (dir_heap fs !! q) as [dq |] eqn:Eq; [| done]. rewrite Ec, Hheap, lookup_partial_alter_ne; [done |].
    by apply not_eq_sym, (handle_ne fs p q).
Qed.

Lemma ReleaseDir_counted p d n fs :
  fs_wf fs -> dir_ref fs p d n -> 0 < n ->
  ∃ fs', ReleaseDir ndebug p fs = Some fs' ∧ fs_wf fs' ∧ same_data fs fs' ∧
    (∀ q, q ≠ p -> dir_heap fs' !! q = dir_heap fs !! q) ∧
    (dir_heap fs' !! p = Some d ∨ dir_heap fs' !! p = None) ∧ counted fs fs' p (-1).
Proof.
  intros Hwf (E & x & Ex & Hext) Hn. pose proof Hwf as [Hlru Hd Hi Hdir Hh Hdead].
  destruct (Hdir p d E) as (Hk & Hid & Ha & Hx). destruct (Hx ltac:(by apply not_elem_of_nil)) as (x' & Ex' & Hv).
  rewrite Ex in Ex'. injection Ex' as <-. destruct (Hh _ _ Ex) as (Hkh & _ & _).
  unfold ReleaseDir. rewrite E. cbn [mbind option_bind].
  destruct (Release_spec ndebug LRUHash (d_handle d) x (dlru fs) Hlru Ex ltac:(lia))
    as (c' & -> & Hc' & Hheap & _ & Hcap' & _). cbn [mbind option_bind].
  pose proof (λ fs', released_counted p d x c' fs fs' Hwf E Ex ltac:(lia)) as Hcnt.
  unfold unreferenced in *. destruct (Z.eqb_spec (refs x) 1) as [E1 | N1]; cbn [deleted].
  - replace [(p_key (d_handle d), value x)] with ((λ p, (p_key p, p)) <$> [p]) by (cbn; by rewrite Hkh, Hv).
    destruct (run_deleters_spec [p] (set_dlru c' fs)) as (fs' & Er & Hwf' & Hs & Hlru' & Hdh).
    + assert (∀ h y, heap c' !! h = Some y <-> h ≠ d_handle d /\ heap (dlru fs) !! h = Some y) as Hlk.
      { intros h y. rewrite Hheap. destruct (decide (h = d_handle d)) as [-> |].
        - rewrite lookup_partial_alter_eq. naive_solver.
        - rewrite lookup_partial_alter_ne by done. naive_solver. }
      split; try done; cbn.
      * intros q dq Hq. destruct (Hdir q dq Hq) as (? & ? & ? & Hxq). split_and!; try done.
        intros Hne%not_elem_of_cons. destruct Hne as [Hne _].
        destruct (Hxq ltac:(by apply not_elem_of_nil)) as (y & Ey & Hvy). exists y. split; [| done].
        apply Hlk. split; [| done]. intros Ehd. rewrite Ehd in Ey. rewrite Ex in Ey. congruence.
      * intros h y [Hne Ey]%Hlk. destruct (Hh h y Ey) as (? & _ & dy & Hdy & Hhd).
        split_and!; [done | | by exists dy].
        intros Hq%list_elem_of_singleton. rewrite Hq, E in Hdy. congruence.
      * split; [apply NoDup_singleton |]. intros q ->%list_elem_of_singleton. by rewrite E.
    + assert (∀ q, q ≠ p -> dir_heap fs' !! q = dir_heap fs !! q) as Hq.
      { intros q Hne. rewrite Hdh. rewrite decide_False; [done |]. by intros ->%list_elem_of_singleton. }
      assert (dir_heap fs' !! p = None) as Hp by (rewrite Hdh, decide_True; [done | by apply list_elem_of_singleton]).
      exists fs'. do 4 (split; [done |]). split; [by right | by apply Hcnt].
  - exists (set_dlru c' fs). split; [done |]. split; [| do 2 (split; [done |]); split; [by left | by apply Hcnt]].
    apply set_dlru_wf; [done | done |]. intros k. rewrite Hheap.
    destruct (decide (k = d_handle d)) as [-> |]; [by rewrite lookup_partial_alter_eq, Ex |].
    by rewrite lookup_partial_alter_ne.
Qed.

(** Counters are far from their limits. *)
Definition room fs : Prop :=
  elems_ (dirs fs) < 2 ^ 31 /\ elems_ (table_ (dlru fs)) < 2 ^ 31 /\ capacity_ (dlru fs) + 1 < 2 ^ 64 /\
  ∀ h x, heap (dlru fs) !! h = Some x -> refs x + 1 < 2 ^ 32.

Definition fresh_dir (id : DirId) (h : Ptr) : Dir :=
  MkDir id h None None stats0 false (replicate kWays false).

Lemma Lookup_dir key fs :
  fs_wf fs -> ht_map (dirs fs) !! key = None ->
  ∀ p, p_key p = key -> dir_heap fs !! p = None.
Proof.
  intros Hwf Hn p Hp. destruct (dir_heap fs !! p) eqn:E; [| done]. exfalso.
  assert (ht_map (dirs fs) !! key = Some p); [| congruence].
  apply (ht_map_lookup LRUHash); [by destruct Hwf |]. split; [apply (fw_index _ _ Hwf); eauto | done].
Qed.

(** What [AcquireDir] does for any outcome of its two searches. *)
Definition acquired id fs p fs' : Prop :=
  fs_wf fs' /\ same_data fs fs' /\
  (∃ d n, dir_ref fs' p d n /\ 0 < n /\ d_id d = id /\
     d = default (fresh_dir id (d_handle d)) (dir_heap fs !! p)) /\
  ∀ q dq, q ≠ p -> dir_heap fs' !! q = Some dq -> dir_heap fs !! q = Some dq.

(** Both searches that succeed take one more reference to an existing control block. *)
Lemma acquire_existing id fs p d x c' :
  fs_wf fs -> DirId_wf id -> dir_heap fs !! p = Some d -> p_key p = LRUKey id ->
  heap (dlru fs) !! d_handle d = Some x ->
  lru_wf LRUHash c' -> heap c' = <[d_handle d := referenced x]> (heap (dlru fs)) ->
  capacity_ c' = capacity_ (dlru fs) ->
  acquired id fs p (set_dlru c' fs) /\ counted fs (set_dlru c' fs) p 1.
Proof.
  intros Hwf Hid E Hk Ex Hc' Hheap Hcap. split.
  2: { split; [done |]. split.
       - unfold refcount. cbn [dir_heap set_dlru dlru]. rewrite E, Ex, Hheap, lookup_insert_eq.
         unfold ext, referenced. cbn. lia.
       - intros q Hne. split; [| by left]. unfold refcount. cbn [dir_heap set_dlru dlru]. rewrite Hheap.
         destruct (dir_heap fs !! q) as [dq |] eqn:Eq; [| done].
         rewrite lookup_insert_ne; [done |]. by apply not_eq_sym, (handle_ne fs p q). }
  split_and!; [| done | | done].
  - apply set_dlru_wf; [done | done |]. rewrite Hheap. by apply referenced_values.
  - exists d, (ext (referenced x)). split_and!.
    + split; [done |]. exists (referenced x). split; [| done]. cbn. rewrite Hheap. apply lookup_insert_eq.
    + pose proof (lc_entry _ (lw_core _ _ (fw_lru _ _ Hwf)) _ _ Ex) as (_ & He & _).
      unfold ext, referenced in *. cbn. lia.
    + destruct (fw_dir _ _ Hwf _ _ E) as (Hk' & Hid' & _). apply LRUKey_inj; [done | done | congruence].
    + by rewrite E.
Qed.

(** The control blocks behind the handles that an insertion deletes. *)
Definition dead_dirs fs (dead : list Ptr) : list Ptr :=
  omap (λ h, value <$> heap (dlru fs) !! h) dead.

Lemma elem_of_dead_dirs fs dead p :
  p ∈ dead_dirs fs dead <-> ∃ h x, h ∈ dead /\ heap (dlru fs) !! h = Some x /\ value x = p.
Proof.
  unfold dead_dirs. rewrite list_elem_of_omap. split.
  - intros (h & Hh & Hv). destruct (heap (dlru fs) !! h) as [x |] eqn:E; [| done]. injection Hv as <-. eauto.
  - intros (h & x & Hh & E & <-). exists h. by rewrite E.
Qed.

Lemma handle_value_inj fs h h' x x' :
  fs_wf fs -> heap (dlru fs) !! h = Some x -> heap (dlru fs) !! h' = Some x' -> value x = value x' -> h = h'.
Proof.
  intros Hwf E E' Hv. destruct (fw_handle _ _ Hwf _ _ E) as (_ & _ & d & Hd & <-).
  destruct (fw_handle _ _ Hwf _ _ E') as (_ & _ & d' & Hd' & <-). rewrite Hv in Hd. congruence.
Qed.

Lemma dead_dirs_nodup fs dead :
  fs_wf fs -> NoDup dead -> NoDup (dead_dirs fs dead).
Proof.
  intros Hwf. induction dead as [| h dead IH]; intros Hnd; [constructor |].
  apply list.NoDup_cons in Hnd as [Hni Hnd]. unfold dead_dirs. cbn [omap list_omap].
  destruct (heap (dlru fs) !! h) as [x |] eqn:E; [| by apply IH]. cbn. apply list.NoDup_cons.
  split; [| by apply IH]. intros (h' & x' & Hh' & E' & Hv)%elem_of_dead_dirs. apply Hni.
  by rewrite (handle_value_inj fs h h' x x').
Qed.

Lemma new_counted id fs fs' dir h c' dead y :
  fs_wf fs -> shrinks (linked LRUHash (LRUKey id) dir 1 (dlru fs)) c' dead ->
  h = MkPtr (next_addr (dlru fs)) (LRUKey id) (LRUHash (LRUKey id)) ->
  dir_heap fs !! dir = None -> dir ∉ dead_dirs fs dead -> heap c' !! h = Some y -> ext y = 1 -> dlru fs' = c' ->
  (∀ q, dir_heap fs' !! q
        = if decide (q ∈ dead_dirs fs dead) then None else <[dir := fresh_dir id h]> (dir_heap fs) !! q) ->
  counted fs fs' dir 1.
Proof.
  intros Hwf Hsh Eh Edir Hdl Ey Hey Ec Hdh. split; [rewrite Ec; apply (sh_capacity _ _ _ Hsh) |]. split.
  - unfold refcount. rewrite Edir, Hdh, decide_False, lookup_insert_eq by done. cbn [fresh_dir d_handle].
    by rewrite Ec, Ey, Hey.
  - intros q Hne. unfold refcount. rewrite Hdh, lookup_insert_ne by done.
    destruct (dir_heap fs !! q) as [dq |] eqn:Eq; [| case_decide; split; (done || by left)].
    destruct (fw_dir _ _ Hwf _ _ Eq) as (_ & _ & _ & Hx).
    destruct (Hx ltac:(by apply not_elem_of_nil)) as (x & Ex & Hv).
    pose proof (sh_heap _ _ _ Hsh (d_handle dq)) as P. cbn [linked heap] in P. rewrite <- Eh in P.
    assert (heap (dlru fs) !! h = None) as Eh0.
    { apply (fresh_addr (dlru fs) h); [apply Hwf | by rewrite Eh]. }
    rewrite lookup_insert_ne, Ex in P by (intros Hc; rewrite Hc in Eh0; congruence). rewrite Ec, Ex.
    case_decide as Hq.
    + apply elem_of_dead_dirs in Hq as (k & z & Hk & Ez & Hz).
      assert (k = d_handle dq) as -> by (apply (handle_value_inj fs k (d_handle dq) z x Hwf Ez Ex); congruence).
      destruct (heap c' !! d_handle dq); [by destruct P |]. destruct P as [_ ->]. split; [done | by right].
    + destruct (heap c' !! d_handle dq) as [z |].
      * destruct P as (_ & -> & _). split; [done | by left].
      * destruct P as [Hk _]. exfalso. apply Hq, elem_of_dead_dirs. eauto.
Qed.

(** A new control block: its insertion may evict the handles [dead]. *)
Lemma acquire_new id fs c' dead :
  fs_wf fs -> DirId_wf id -> elems_ (dirs fs) < 2 ^ 31 -> ht_map (dirs fs) !! LRUKey id = None ->
  let key := LRUKey id in
  let dir := MkPtr (next_dir fs) key (LRUHash key) in
  let h := MkPtr (next_addr (dlru fs)) key (LRUHash key) in
  lru_wf LRUHash c' -> shrinks (linked LRUHash key dir 1 (dlru fs)) c' dead ->
  ∃ fs', run_deleters ndebug (calls (linked LRUHash key dir 1 (dlru fs)) dead)
      (MkFS (inoq fs) c' (HashTable.Insert dir (dirs fs)).1 (<[dir := fresh_dir id h]> (dir_heap fs))
         (S (next_dir fs)) (fs_options fs) (db_ fs) (readonly_dbs fs)) = Some fs' ∧
    acquired id fs dir fs' ∧ counted fs fs' dir 1.
Proof.
  intros Hwf Hid Hlt Hnone key dir h Hc' Hsh. pose proof Hwf as [Hlru Hd Hi Hdir Hh Hdead].
  pose proof (lw_core _ _ Hlru) as Hcore. pose proof (fresh_addr (dlru fs) h Hcore eq_refl) as Eh.
  set (c1 := linked LRUHash key dir 1 (dlru fs)) in *.
  assert (heap c1 = <[h := MkLRUEntry dir 1 1 false]> (heap (dlru fs))) as Hc1 by done.
  assert (dir_heap fs !! dir = None) as Edir.
  { destruct (dir_heap fs !! dir) eqn:E; [| done]. destruct (Hdir _ _ E) as (_ & _ & Ha & _). cbn in Ha. lia. }
  assert (h ∉ dead ∧ ∃ y, heap c' !! h = Some y ∧ value y = dir ∧ ext y = 1) as (Hhd & y & Ey & Hvy & Hey).
  { pose proof (sh_heap _ _ _ Hsh h) as P. rewrite Hc1, lookup_insert_eq in P.
    destruct (heap c' !! h) as [y |]; [| by destruct P as [_ ?]].
    destruct P as (? & Hk1 & Hk2 & _). split; [done |]. by exists y. }
  set (l := dead_dirs fs dead).
  assert (calls c1 dead = (λ p, (p_key p, p)) <$> l) as Hcalls.
  { unfold calls, l, dead_dirs. rewrite list_fmap_omap. apply omap_ext_in. intros k Hk. rewrite Hc1.
    rewrite lookup_insert_ne by (by intros ->). destruct (heap (dlru fs) !! k) as [x |] eqn:E; [| done]. cbn.
    by destruct (Hh _ _ E) as (-> & _). }
  assert (∀ k x, heap (dlru fs) !! k = Some x -> k ∉ dead -> ∃ z, heap c' !! k = Some z ∧ value z = value x) as Hkeep.
  { intros k x E Hk. pose proof (sh_heap _ _ _ Hsh k) as P. 
    assert (h ≠ k) as Hne by (intros <-; rewrite Eh in E; done).
    rewrite Hc1, lookup_insert_ne, E in P by done.
    destruct (heap c' !! k) as [z |]; [| by destruct P]. destruct P as (_ & _ & Hv & _). by exists z. }
  assert (∀ k z, heap c' !! k = Some z -> k ≠ h -> k ∉ dead ∧ ∃ x, heap (dlru fs) !! k = Some x ∧ value z = value x) as Hback.
  { intros k z E Hne. pose proof (sh_heap _ _ _ Hsh k) as P. rewrite Hc1, lookup_insert_ne in P by done.
    rewrite E in P. destruct (heap (dlru fs) !! k) as [x |]; [| by destruct P].
    destruct P as (? & _ & Hv & _). split; [done |]. by exists x. }
  rewrite Hcalls.
  assert (hashed LRUHash dir) as Hhash by (unfold hashed, dir; cbn [e_hash e_key Ptr_entry p_hash p_key]; reflexivity).
  destruct (Insert_map LRUHash (dirs fs) dir Hd Hhash Hlt) as (Hd' & _ & Hm).
  match goal with |- context [run_deleters _ _ ?f] => set (fs1 := f) end.
  destruct (run_deleters_spec l fs1) as (fs' & Er & Hwf' & Hs & Hc & Hdh).
  - split; [done | done | | | |].
    + intros q. transitivity (ht_map (HashTable.Insert dir (dirs fs)).1 !! e_key q = Some q).
      { rewrite (ht_map_lookup LRUHash) by done. naive_solver. }
      rewrite Hm, lookup_insert_Some. cbn [dir_heap fs1]. split.
      * intros [[_ <-] | [_ Hq]]; [by rewrite lookup_insert_eq |].
        apply (ht_map_lookup LRUHash) in Hq as [Hq _]; [| done]. apply Hi in Hq.
        rewrite lookup_insert_ne; [done |]. intros <-. rewrite Edir in Hq. by destruct Hq.
      * destruct (decide (q = dir)) as [-> | Hne]; [by left |]. rewrite lookup_insert_ne by done. intros Hq. right.
        assert (ht_map (dirs fs) !! e_key q = Some q) as Hl by (apply (ht_map_lookup LRUHash); [done | split; [by apply Hi | done]]).
        split; [| done]. intros Ek. rewrite <- Ek in Hl. change (e_key dir) with (LRUKey id) in Hl.
        by rewrite Hnone in Hl.
    + intros q dq Hq. cbn [dir_heap fs1 next_dir dlru] in *. destruct (decide (q = dir)) as [-> | Hne].
      * rewrite lookup_insert_eq in Hq. injection Hq as <-. split_and!; [done | done | cbn; lia |].
        intros _. by exists y.
      * rewrite lookup_insert_ne in Hq by done. destruct (Hdir q dq Hq) as (? & ? & ? & Hx).
        split_and!; [done | done | lia |]. intros Hql. destruct (Hx ltac:(by apply not_elem_of_nil)) as (x & Ex & Hv).
        destruct (Hkeep _ _ Ex) as (z & Ez & Hvz).
        { intros Hk. apply Hql, elem_of_dead_dirs. eauto. }
        exists z. split; [done | congruence].
    + intros k z Ez. cbn [dir_heap fs1 dlru] in *. destruct (decide (k = h)) as [-> | Hne].
      * rewrite Ey in Ez. injection Ez as <-. rewrite Hvy. split_and!; [done | |].
        -- intros (k' & x' & _ & Ek' & Hv')%elem_of_dead_dirs. destruct (Hh _ _ Ek') as (_ & _ & dk & Hdk & _). congruence.
        -- eexists. rewrite lookup_insert_eq. split; done.
      * destruct (Hback _ _ Ez Hne) as (Hkd & x & Ex & Hv). destruct (Hh _ _ Ex) as (Hk & _ & dk & Hdk & Hdh).
        rewrite Hv. split_and!; [done | |].
        -- intros (k' & x' & Hk' & Ek' & Hv')%elem_of_dead_dirs. apply Hkd.
           by rewrite (handle_value_inj fs k k' x x').
        -- exists dk. split; [| done]. rewrite lookup_insert_ne; [done |]. intros Hc. rewrite <- Hc in Hdk. congruence.
    + split; [apply dead_dirs_nodup; [done | by destruct Hsh] |].
      intros q (k & x & _ & Ex & <-)%elem_of_dead_dirs. cbn [dir_heap fs1].
      destruct (Hh _ _ Ex) as (_ & _ & dk & Hdk & _). destruct (decide (dir = value x)) as [-> |].
      * by rewrite lookup_insert_eq.
      * by rewrite lookup_insert_ne, Hdk by done.
  - exists fs'. split; [done |]. assert (dir ∉ l) as Hdl.
    { intros (k' & x' & _ & Ek' & Hv')%elem_of_dead_dirs. destruct (Hh _ _ Ek') as (_ & _ & dk & Hdk & _). congruence. }
    split; [| by apply (new_counted id fs fs' dir h c' dead y)].
    split_and!; [done | done | |].
    + exists (fresh_dir id h), 1. split_and!; [| lia | done | by rewrite Edir].
      split; [rewrite Hdh, decide_False by done; apply lookup_insert_eq |].
      exists y. rewrite Hc. done.
    + intros q dq Hne Hq. rewrite Hdh in Hq. case_decide; [done |]. cbn [dir_heap fs1] in Hq.
      by rewrite lookup_insert_ne in Hq by done.
Qed.

Lemma Inject_Insert a key hash (t : HashTable Ptr) :
  Inject (MkPtr a key hash) (FindPointer t key hash) t = HashTable.Insert (MkPtr a key hash) t.
Proof. done. Qed.

Lemma AcquireDir_counted id fs :
  fs_wf fs -> room fs -> DirId_wf id ->
  ∃ p fs', AcquireDir ndebug id fs = Some (p, fs') ∧ (acquired id fs p fs' ∧ counted fs fs' p 1) ∧
    (∀ q d, dir_heap fs !! q = Some d -> d_id d = id -> q = p).
Proof.
  intros Hwf (Helm & Helm' & Hcap & Hrefs) Hid. pose proof Hwf as [Hlru Hd Hi Hdir Hh Hdead].
  set (key := LRUKey id).
  assert (∀ q p d, dir_heap fs !! q = Some d -> d_id d = id -> is_Some (dir_heap fs !! p) -> p_key p = key -> q = p) as Huniq.
  { intros q p d Eq Edq Ep Ekp. apply (wf_key_inj LRUHash (dirs fs)); [done | apply Hi; by eexists | by apply Hi |].
    destruct (Hdir _ _ Eq) as (Hkq & _). change (p_key q = p_key p). rewrite Hkq, Edq. done. }
  unfold AcquireDir. fold key.
  destruct (LRU_Lookup_spec LRUHash key (dlru fs) Hlru Hrefs) as (c' & -> & Hc' & Hm). cbn [mbind option_bind].
  destruct (ht_map (table_ (dlru fs)) !! key) as [h |] eqn:El.
  - destruct Hm as (Hkh & x & Ex & _ & Hheap & _ & Hcap' & _). destruct (Hh h x Ex) as (Hkv & _ & d & Ed & Hdh).
    rewrite Hheap, lookup_insert_eq. cbn [mbind option_bind referenced value].
    rewrite Ed. cbn [mbind option_bind]. rewrite bool_decide_eq_true_2, assert_true by done.
    cbn [mbind option_bind]. exists (value x), (set_dlru c' fs). split; [done |]. split.
    + eapply (acquire_existing id fs (value x) d x c'); try done;
        [rewrite <- Hkv; exact Hkh | by rewrite Hdh | by rewrite Hdh].
    + intros q d0 Eq Eid. eapply Huniq; [done | done | by eexists | by rewrite <- Hkv].
  - subst c'. fold (HashTable.Lookup (dirs fs) key (LRUHash key)).
    rewrite (ht_map_Lookup LRUHash) by done.
    destruct (ht_map (dirs fs) !! key) as [p |] eqn:Ed.
    + apply (ht_map_lookup LRUHash) in Ed as [Hp Hkp]; [| done]. apply Hi in Hp as [d Ed].
      destruct (Hdir p d Ed) as (_ & _ & _ & Hx). destruct (Hx ltac:(by apply not_elem_of_nil)) as (x & Ex & Hv).
      rewrite Ed. cbn [mbind option_bind]. rewrite Ex. cbn [mbind option_bind].
      rewrite bool_decide_eq_true_2, assert_true by done. cbn [mbind option_bind].
      destruct (Ref_wf LRUHash (d_handle d) x (dlru fs) Hlru Ex (Hrefs _ _ Ex)) as (c' & -> & Hc'' & Hheap & _ & Hcap' & _).
      cbn [mbind option_bind]. exists p, (set_dlru c' fs). split; [done |]. split.
      * by eapply (acquire_existing id fs p d x c').
      * intros q d0 Eq Eid. eapply Huniq; [done | done | by eexists | done].
    + set (dir := MkPtr (next_dir fs) key (LRUHash key)).
      destruct (LRU_Insert_spec ndebug LRUHash key dir 1 (dlru fs) Hlru ltac:(lia) ltac:(lia) Helm')
        as (c' & dead & -> & Hc'' & Hsh). cbn [mbind option_bind].
      destruct (acquire_new id fs c' dead Hwf Hid Helm Ed Hc'' Hsh) as (fs' & Er & Hacq).
      unfold dir. rewrite Inject_Insert. fold dir.
      unfold fresh_dir in Er. unfold dir, key in *. rewrite Er. cbn [mbind option_bind]. eexists _, fs'. split; [done |].
      split; [done |]. intros q d0 Eq Eid. pose proof (Lookup_dir (LRUKey id) fs Hwf Ed q) as Hn.
      destruct (Hdir _ _ Eq) as (Hkq & _). rewrite Eid in Hkq. rewrite (Hn Hkq) in Eq. done.
Qed.

Lemma ReleaseDir_spec p d n fs :
  fs_wf fs -> dir_ref fs p d n -> 0 < n ->
  ∃ fs', ReleaseDir ndebug p fs = Some fs' ∧ fs_wf fs' ∧ same_data fs fs' ∧
    (∀ q, q ≠ p -> dir_heap fs' !! q = dir_heap fs !! q) ∧
    (dir_heap fs' !! p = Some d ∨ dir_heap fs' !! p = None).
Proof.
  intros Hwf Hr Hn. destruct (ReleaseDir_counted p d n fs Hwf Hr Hn) as (fs' & ? & ? & ? & ? & ? & _).
  by exists fs'.
Qed.

Lemma AcquireDir_spec id fs :
  fs_wf fs -> room fs -> DirId_wf id ->
  ∃ p fs', AcquireDir ndebug id fs = Some (p, fs') ∧ acquired id fs p fs' ∧
    (∀ q d, dir_heap fs !! q = Some d -> d_id d = id -> q = p).
Proof.
  intros Hwf Hroom Hid. destruct (AcquireDir_counted id fs Hwf Hroom Hid) as (p & fs' & E & [Ha _] & Hu).
  by exists p, fs'.
Qed.

(** ** Room *)
Lemma size_list_le (l : list Ptr) (X : gset Ptr) : NoDup l -> (∀ p, p ∈ l -> p ∈ X) -> (length l <= size X)%nat.
Proof.
  intros Hnd Hl. rewrite <- (size_list_to_set (C := gset Ptr) l) by done. apply subseteq_size.
  intros p Hp. rewrite elem_of_list_to_set in Hp. by apply Hl.
Qed.

Lemma size_list_to_set_le (l : list Ptr) : (size (list_to_set l : gset Ptr) <= length l)%nat.
Proof.
  induction l as [| p l IH]; [done |]. cbn [list_to_set length]. rewrite size_union_alt, size_singleton.
  pose proof (subseteq_size (list_to_set l ∖ {[p]} : gset Ptr) (list_to_set l) ltac:(set_solver)). lia.
Qed.

Lemma NoDup_keys (t : HashTable Ptr) : ht_wf LRUHash t -> NoDup (elements t).
Proof. intros Ht. apply (list.NoDup_fmap_1 e_key), (ht_nodup _ _ Ht). Qed.

(** Counters stay far from their limits while there are few control blocks and few references. *)
Lemma room_of_size fs :
  fs_wf fs -> capacity_ (dlru fs) + 1 < 2 ^ 64 -> Z.of_nat (size (dir_heap fs)) < 2 ^ 31 ->
  (∀ p, refcount fs p < 2 ^ 31) -> room fs.
Proof.
  intros Hwf Hcap Hsz Href. pose proof Hwf as [Hlru Hd Hi Hdir Hh _]. split_and!; [| | done |].
  - rewrite (ht_elems _ _ Hd). pose proof (size_list_le (elements (dirs fs)) (dom (dir_heap fs)) (NoDup_keys _ Hd)) as Hl.
    rewrite size_dom in Hl. specialize (Hl ltac:(intros p Hp; by apply elem_of_dom, Hi)). lia.
  - destruct (lw_tab _ _ Hlru) as [Ht Hel]. rewrite (ht_elems _ _ Ht).
    pose proof (size_list_le (elements (table_ (dlru fs))) (list_to_set (d_handle ∘ snd <$> map_to_list (dir_heap fs))) (NoDup_keys _ Ht)) as Hl.
    assert (size (list_to_set (d_handle ∘ snd <$> map_to_list (dir_heap fs)) : gset Ptr) <= size (dir_heap fs))%nat as Hs.
    { rewrite <- (length_map_to_list (dir_heap fs)), <- (length_fmap (d_handle ∘ snd)). apply size_list_to_set_le. }
    specialize (Hl ltac:(
      intros h (x & Ex & _)%Hel; destruct (Hh h x Ex) as (_ & _ & d & Ed & <-);
      rewrite elem_of_list_to_set; apply list_elem_of_fmap; exists (value x, d); split; [done | by apply elem_of_map_to_list])). lia.
  - intros h x Ex. destruct (Hh h x Ex) as (_ & _ & d & Ed & Eh). specialize (Href (value x)). unfold refcount in Href.
    rewrite Ed, Eh, Ex in Href. unfold ext in Href. destruct (in_cache x); lia.
Qed.

Lemma counted_size fs fs' p k : counted fs fs' p k -> (size (dir_heap fs') <= S (size (dir_heap fs)))%nat.
Proof.
  intros (_ & _ & Hq). rewrite <- !size_dom. transitivity (size ({[p]} ∪ dom (dir_heap fs))).
  - apply subseteq_size. intros q [d Ed]%elem_of_dom. destruct (decide (q = p)) as [-> |]; [set_solver |].
    destruct (Hq q) as [_ [Eq | [En _]]]; [done | | congruence]. apply elem_of_union_r, elem_of_dom. rewrite <- Eq. eauto.
  - rewrite size_union_alt, size_singleton. etrans; [apply Nat.add_le_mono_l, subseteq_size, subseteq_difference_l; reflexivity |]. lia.
Qed.
End DirTable.

Lemma NewFilesystem_wf {DX} (options : FilesystemOptions) :
  word 64 (dir_lru_size options) -> fs_wf (NewFilesystem options : FS DX).
Proof.
  intros Hc. destruct (NewHashTable_wf (E := Ptr) LRUHash) as [Hwf He].
  split; cbn [dlru dirs dir_heap next_dir NewFilesystem].
  - by apply NewLRUCache_wf.
  - exact Hwf.
  - intros p. rewrite He, elem_of_nil, lookup_empty. split; [done | by intros []].
  - intros p d. by rewrite lookup_empty.
  - intros h x. cbn. by rewrite lookup_empty.
  - split; [constructor | by intros p ?%elem_of_nil].
Qed.

(** * The metadata server core: operations inside a directory

    Lemmas on fetching a directory, on its partition check, on reading through the
    databases and on [CheckAndPut]. *)

(** The server that the index of directory [id] assigns to a name, when all of [2^k]
    virtual servers are set. *)
Definition home_server (options : FilesystemOptions) (id : DirId) (name : Slice) : Z :=
  (hash_value (DirIndex_Hash name) mod vsrvs options + u16 (PickupServer id)) mod nsrvs options.

Definition options_ok (options : FilesystemOptions) : Prop :=
  ∃ k, 0 <= k <= 13 /\ vsrvs options = 2 ^ k /\ 0 < nsrvs options.

Definition giga_options (options : FilesystemOptions) : DirIndexOptions :=
  MkDirIndexOptions (nsrvs options) (vsrvs options) false.

Section Ops.
Context {DX : Type} `{KvLaws DX} `{BulkStore DX}.
Variable ndebug : bool.
Implicit Types (fs : FS DX) (p : Ptr) (d : Dir).

(** A control block at rest: no name subset is busy, and its index is the full one. *)
Definition index_ok options d : Prop :=
  fetched d = true -> giga_opts d = Some (giga_options options) /\
    ∃ g, fresh_full ndebug (giga_options options) (PickupServer (d_id d)) = Some g /\ giga d = Some g.
Definition dir_ok options d : Prop := busy d = replicate kWays false /\ index_ok options d.

(** [fs'] differs from [fs] in the contents of control block [p] only. *)
Definition dir_changed p d' fs fs' : Prop :=
  dlru fs' = dlru fs /\ dirs fs' = dirs fs /\ next_dir fs' = next_dir fs /\
  dir_heap fs' = <[p := d']> (dir_heap fs).

Lemma dir_changed_wf p d d' fs fs' :
  fs_wf fs -> dir_heap fs !! p = Some d -> d_id d' = d_id d -> d_handle d' = d_handle d ->
  dir_changed p d' fs fs' -> fs_wf fs'.
Proof.
  intros [Hlru Hd Hi Hdir Hh Hdead] E Eid Eh (Ec & Et & En & Eheap).
  assert (∀ q, is_Some (dir_heap fs' !! q) <-> is_Some (dir_heap fs !! q)) as Hsome.
  { intros q. rewrite Eheap. destruct (decide (q = p)) as [-> |]; [by rewrite lookup_insert_eq, E |].
    by rewrite lookup_insert_ne. }
  split; rewrite ?Ec, ?Et, ?En; try done.
  - intros q. by rewrite Hsome.
  - intros q dq Hq. rewrite Eheap in Hq. destruct (decide (q = p)) as [-> |].
    + rewrite lookup_insert_eq in Hq. injection Hq as <-. rewrite Eid, Eh. by apply Hdir.
    + rewrite lookup_insert_ne in Hq by done. by apply Hdir.
  - intros h x Hx. destruct (Hh h x Hx) as (Hk & _ & dx & Hdx & Hdh).
    split_and!; [done | by apply not_elem_of_nil |]. rewrite Eheap.
    destruct (decide (value x = p)) as [Ev | Hne].
    + exists d'. rewrite Ev, lookup_insert_eq. split; [done |]. rewrite Ev, E in Hdx. congruence.
    + exists dx. by rewrite lookup_insert_ne.
  - split; [constructor | by intros q ?%elem_of_nil].
Qed.

Lemma MaybeFetchDir_index p d fs :
  options_ok (fs_options fs) -> dir_heap fs !! p = Some d -> index_ok (fs_options fs) d ->
  ∃ fs' d', MaybeFetchDir ndebug p fs = Some fs' ∧ same_data fs fs' ∧ dir_changed p d' fs fs' ∧
    d_id d' = d_id d ∧ d_handle d' = d_handle d ∧ d_stats d' = d_stats d ∧ busy d' = busy d ∧
    index_ok (fs_options fs) d' ∧ fetched d' = true.
Proof.
  intros (k & Hk & Ek & Hn) E Hf. unfold MaybeFetchDir. rewrite E. cbn [mbind option_bind].
  destruct (fetched d) eqn:Ef.
  - exists fs, d. split; [done |]. split; [done |].
    split; [split_and!; try done; by rewrite insert_id |]. by split_and!.
  - destruct (fresh_full_spec ndebug (giga_options (fs_options fs)) (PickupServer (d_id d)) k Hk Ek Hn)
      as (g & Hg & _). pose proof Hg as Hg'. unfold fresh_full in Hg.
    fold (giga_options (fs_options fs)).
    destruct (NewRep ndebug (PickupServer (d_id d))) as [g0 |]; [| done]. cbn [mbind option_bind] in *.
    rewrite Hg. cbn [mbind option_bind]. eexists _, _. split; [done |].
    split; [done |]. split; [done |]. split_and!; try done. intros _. split; [done |]. by exists g.
Qed.

Lemma MaybeFetchDir_spec p d fs :
  options_ok (fs_options fs) -> dir_heap fs !! p = Some d -> dir_ok (fs_options fs) d ->
  ∃ fs' d', MaybeFetchDir ndebug p fs = Some fs' ∧ same_data fs fs' ∧ dir_changed p d' fs fs' ∧
    d_id d' = d_id d ∧ d_handle d' = d_handle d ∧ d_stats d' = d_stats d ∧
    dir_ok (fs_options fs) d' ∧ fetched d' = true.
Proof.
  intros Ho E [Hb Hf]. destruct (MaybeFetchDir_index p d fs Ho E Hf) as (fs' & d' & ? & ? & ? & ? & ? & ? & Eb & ? & ?).
  exists fs', d'. split_and!; try done. split; [by rewrite Eb | done].
Qed.

Lemma IsDirPartitionOk_index options d name :
  options_ok options -> index_ok options d -> fetched d = true ->
  IsDirPartitionOk ndebug options d name
  = Some (skip_partition_checks options || (srvid options =? home_server options (d_id d) name)).
Proof.
  intros (k & Hk & Ek & Hn) Hf Ef. unfold IsDirPartitionOk.
  destruct (skip_partition_checks options); [done |].
  destruct (Hf Ef) as (-> & g & Hg & ->). cbn [mbind option_bind].
  destruct (fresh_full_spec ndebug (giga_options options) (PickupServer (d_id d)) k Hk Ek Hn)
    as (g' & Hg' & _ & Hsel). rewrite Hg in Hg'. injection Hg' as <-.
  destruct (Hsel name) as [_ ->]. cbn [mbind option_bind orb]. unfold home_server. by rewrite Ek.
Qed.

Lemma IsDirPartitionOk_spec options d name :
  options_ok options -> dir_ok options d -> fetched d = true ->
  IsDirPartitionOk ndebug options d name
  = Some (skip_partition_checks options || (srvid options =? home_server options (d_id d) name)).
Proof. intros Ho [_ Hf]. by apply IsDirPartitionOk_index. Qed.

(** ** Reading through the databases *)
Definition ro_visible (dbs : list DX) (id : DirId) (name : Slice) : option Stat :=
  foldr (λ db r, match lookup_entry db id name with Some st => Some st | None => r end) None dbs.
(** The entry of a name as the server sees it: in its own database, else in the first
    read-only database that has it. *)
Definition all_dbs fs : list DX := match db_ fs with Some db => db :: readonly_dbs fs | None => readonly_dbs fs end.
Definition visible fs (id : DirId) (name : Slice) : option Stat := ro_visible (all_dbs fs) id name.

Definition dbs_wf fs : Prop := Forall (dx_wf kNameInKey) (all_dbs fs).

Definition read_ok (r : Status * option Stat * FilesystemDbStats) (v : option Stat) : Prop :=
  (ok r.1.1 = true -> r.1.2 = v /\ v <> None) /\ (IsNotFound r.1.1 = true -> v = None).

Lemma ok_not_NotFound s : ok s = true -> IsNotFound s = false.
Proof. intros Hs%bool_decide_eq_true. by subst. Qed.

Lemma Get_read_ok db id name stats :
  dx_wf kNameInKey db -> DirId_fits id -> read_ok (FilesystemDb_Get db id name stats) (lookup_entry db id name).
Proof.
  intros Hwf Hid. unfold FilesystemDb_Get.
  destruct (GET kNameInKey db id name false None (Some stats)) as [[[s st] n] perf] eqn:E.
  destruct (GET_ok _ _ _ _ _ _ _ _ _ _ Hwf Hid E) as [G1 G2]. split; cbn; [| done].
  intros Hs. destruct (G1 Hs) as [Hne Heq]. split; [done | by rewrite Heq].
Qed.

Lemma DbGet_readonly_spec dbs id name r :
  Forall (dx_wf kNameInKey) dbs -> DirId_fits id -> IsNotFound r.1.1 = true ->
  read_ok (DbGet_readonly dbs id name r) (ro_visible dbs id name).
Proof.
  intros Hwf Hid. revert r. induction Hwf as [| db dbs Hdb Hwf IH]; intros r Hr; cbn [DbGet_readonly ro_visible foldr].
  { split; [intros Hs; by rewrite ok_not_NotFound in Hr | done]. }
  pose proof (Get_read_ok db id name r.2 Hdb Hid) as Hg.
  change (FilesystemReadonlyDb_Get db id name r.2) with (FilesystemDb_Get db id name r.2).
  destruct (FilesystemDb_Get db id name r.2) as [[s st] stats]. destruct Hg as [G1 G2]. cbn in G1, G2.
  destruct (ok s) eqn:Hs.
  - destruct (G1 eq_refl) as [-> Hne]. destruct (lookup_entry db id name); [| done].
    split; [done |]. cbn. by rewrite ok_not_NotFound.
  - destruct (IsNotFound s) eqn:Hn; cbn [negb].
    + rewrite G2 by done. by apply IH.
    + split; cbn; [by rewrite Hs | by rewrite Hn].
Qed.

Lemma DbGet_spec fs id name stats :
  dbs_wf fs -> DirId_fits id -> all_dbs fs <> [] ->
  read_ok (DbGet fs id name stats) (visible fs id name).
Proof.
  unfold dbs_wf, visible, all_dbs, DbGet. intros Hwf Hid Hne.
  destruct (db_ fs) as [db |].
  - apply list.Forall_cons in Hwf as [Hdb Hwf].
    pose proof (Get_read_ok db id name stats Hdb Hid) as Hg. cbn [ro_visible foldr].
    destruct (FilesystemDb_Get db id name stats) as [[s st] stats']. destruct Hg as [G1 G2]. cbn in G1, G2.
    destruct (ok s) eqn:Hs.
    + destruct (G1 eq_refl) as [-> Hn]. destruct (lookup_entry db id name); [| done].
      split; [done |]. cbn. by rewrite ok_not_NotFound.
    + destruct (IsNotFound s) eqn:Hn; cbn [negb].
      * rewrite G2 by done. by apply DbGet_readonly_spec.
      * split; cbn; [by rewrite Hs | by rewrite Hn].
  - destruct (readonly_dbs fs) as [| db dbs]; [done |]. apply list.Forall_cons in Hwf as [Hdb Hwf].
    cbn [DbGet_readonly ro_visible foldr snd].
    change (FilesystemReadonlyDb_Get db id name stats) with (FilesystemDb_Get db id name stats).
    pose proof (Get_read_ok db id name stats Hdb Hid) as Hg.
    destruct (FilesystemDb_Get db id name stats) as [[s st] stats']. destruct Hg as [G1 G2]. cbn in G1, G2.
    destruct (ok s) eqn:Hs.
    + destruct (G1 eq_refl) as [-> Hn]. destruct (lookup_entry db id name); [| done].
      split; [done |]. cbn. by rewrite ok_not_NotFound.
    + destruct (IsNotFound s) eqn:Hn; cbn [negb].
      * rewrite G2 by done. by apply DbGet_readonly_spec.
      * split; cbn; [by rewrite Hs | by rewrite Hn].
Qed.

(** A read of the entry failed in a database, other than by not finding it. *)
Definition read_failed fs id name : Prop :=
  ∃ db s v, db ∈ all_dbs fs /\ dx_Get db (entry_key id name) = (s, v) /\ ok s = false /\ IsNotFound s = false.

Lemma Get_error db id name stats :
  dx_wf kNameInKey db -> DirId_fits id ->
  ok (FilesystemDb_Get db id name stats).1.1 = false ->
  IsNotFound (FilesystemDb_Get db id name stats).1.1 = false ->
  ∃ s v, dx_Get db (entry_key id name) = (s, v) /\ ok s = false /\ IsNotFound s = false.
Proof.
  intros Hwf Hid. unfold FilesystemDb_Get, GET. cbn [read_view mbind option_bind default].
  destruct (dx_Get db (entry_key id name)) as [st v] eqn:E. destruct (ok st) eqn:Hok.
  - pose proof (Get_ok _ _ _ _ E Hok) as Hl.
    destruct (Hwf _ _ Hl) as (id' & name' & stat' & Hid' & Hs' & Hn' & Ek & ->).
    rewrite put_value_decode by done. done.
  - cbn. intros _ Hnf. exists st, v. split_and!; [done | done |].
    unfold XSTATUS in Hnf. by destruct (IsNotFound st).
Qed.

Lemma DbGet_readonly_error dbs id name r :
  Forall (dx_wf kNameInKey) dbs -> DirId_fits id -> IsNotFound r.1.1 = true ->
  ok (DbGet_readonly dbs id name r).1.1 = false -> IsNotFound (DbGet_readonly dbs id name r).1.1 = false ->
  ∃ db s v, db ∈ dbs /\ dx_Get db (entry_key id name) = (s, v) /\ ok s = false /\ IsNotFound s = false.
Proof.
  intros Hwf Hid. revert r. induction Hwf as [| db dbs Hdb Hwf IH]; intros r Hr; cbn [DbGet_readonly].
  { intros _. by rewrite Hr. }
  pose proof (Get_error db id name r.2 Hdb Hid) as Hg.
  change (FilesystemReadonlyDb_Get db id name r.2) with (FilesystemDb_Get db id name r.2).
  destruct (FilesystemDb_Get db id name r.2) as [[s st] stats]. cbn [fst] in Hg.
  destruct (ok s) eqn:Hs; [cbn; by rewrite Hs |]. destruct (IsNotFound s) eqn:Hn; cbn [negb].
  - intros He1 He2. destruct (IH (s, st, stats) Hn He1 He2) as (db' & s' & v & ? & ?). exists db', s', v.
    split; [by right | done].
  - intros _ _. destruct (Hg eq_refl eq_refl) as (s' & v & ?). exists db, s', v. split; [by left | done].
Qed.

Lemma DbGet_error fs id name stats :
  dbs_wf fs -> DirId_fits id -> all_dbs fs <> [] ->
  ok (DbGet fs id name stats).1.1 = false -> IsNotFound (DbGet fs id name stats).1.1 = false ->
  read_failed fs id name.
Proof.
  unfold dbs_wf, DbGet, read_failed, all_dbs. intros Hwf Hid Hne.
  destruct (db_ fs) as [db |].
  - apply list.Forall_cons in Hwf as [Hdb Hwf].
    pose proof (Get_error db id name stats Hdb Hid) as Hg.
    destruct (FilesystemDb_Get db id name stats) as [[s st] stats']. cbn [fst] in Hg.
    destruct (ok s) eqn:Hs; [cbn; by rewrite Hs |]. destruct (IsNotFound s) eqn:Hn; cbn [negb].
    + intros He1 He2. destruct (DbGet_readonly_error _ _ _ (s, st, stats') Hwf Hid Hn He1 He2) as (db' & s' & v & ? & ?).
      exists db', s', v. split; [by right | done].
    + intros _ _. destruct (Hg eq_refl eq_refl) as (s' & v & ?). exists db, s', v. split; [by left | done].
  - destruct (readonly_dbs fs) as [| db dbs]; [done |]. apply list.Forall_cons in Hwf as [Hdb Hwf].
    cbn [DbGet_readonly snd].
    change (FilesystemReadonlyDb_Get db id name stats) with (FilesystemDb_Get db id name stats).
    pose proof (Get_error db id name stats Hdb Hid) as Hg.
    destruct (FilesystemDb_Get db id name stats) as [[s st] stats']. cbn [fst] in Hg.
    destruct (ok s) eqn:Hs; [cbn; by rewrite Hs |]. destruct (IsNotFound s) eqn:Hn; cbn [negb].
    + intros He1 He2. destruct (DbGet_readonly_error _ _ _ (s, st, stats') Hwf Hid Hn He1 He2) as (db' & s' & v & ? & ?).
      exists db', s', v. split; [by right | done].
    + intros _ _. destruct (Hg eq_refl eq_refl) as (s' & v & ?). exists db, s', v. split; [by left | done].
Qed.

(** ** Creating an entry *)

(** The entries of the server's own database. *)
Definition own fs id name : option Stat := db ← db_ fs; lookup_entry db id name.
Definition wrote fs fs' id name stat : Prop :=
  ∀ id' name', DirId_fits id' -> own fs' id' name'
    = if decide ((id', name') = (id, name)) then Some stat else own fs id' name'.
Definition unwritten fs fs' : Prop := ∀ id' name', DirId_fits id' -> own fs' id' name' = own fs id' name'.
Definition write_failed fs id name stat : Prop :=
  ∃ db db' s, db_ fs = Some db /\
    dx_Put db (entry_key id name) (put_value kNameInKey stat name) = (s, db') /\ ok s = false.

(** The four outcomes of [CheckAndPut]. *)
Inductive put_outcome (skip : bool) fs fs' id name stat : Status -> Prop :=
  | PutDone :
      (skip = false -> visible fs id name = None) -> wrote fs fs' id name stat ->
      put_outcome skip fs fs' id name stat OK
  | PutExists st :
      skip = false -> visible fs id name = Some st -> db_ fs' = db_ fs ->
      put_outcome skip fs fs' id name stat (MkStatus kAlreadyExists name [])
  | PutReadError s :
      skip = false -> ok s = false -> read_failed fs id name -> db_ fs' = db_ fs ->
      put_outcome skip fs fs' id name stat s
  | PutWriteError s :
      (skip = false -> visible fs id name = None) -> ok s = false -> write_failed fs id name stat ->
      (unwritten fs fs' \/ wrote fs fs' id name stat) -> put_outcome skip fs fs' id name stat s.

Lemma DbPut_spec fs id name stat stats db :
  dbs_wf fs -> db_ fs = Some db -> DirId_fits id -> Stat_wf stat -> word 32 (|[name]|) ->
  ∃ s db' stats', DbPut fs id name stat stats = Some (s, SetDb (Some db') fs, stats') ∧
    dbs_wf (SetDb (Some db') fs) ∧
    (if ok s then s = OK ∧ wrote fs (SetDb (Some db') fs) id name stat
     else write_failed fs id name stat ∧
       (unwritten fs (SetDb (Some db') fs) ∨ wrote fs (SetDb (Some db') fs) id name stat)).
Proof.
  unfold dbs_wf, all_dbs. intros Hwf Edb Hid Hs Hn. rewrite Edb in Hwf.
  apply list.Forall_cons in Hwf as [Hdb Hwf]. unfold DbPut. rewrite Edb. cbn [mbind option_bind].
  unfold FilesystemDb_Put, PUT. cbn [db_ SetDb readonly_dbs].
  destruct (dx_Put db (entry_key id name) (put_value kNameInKey stat name)) as [st db'] eqn:E.
  assert (∀ m, dx_view db' = m -> db_wf kNameInKey m -> Forall (dx_wf kNameInKey) (db' :: readonly_dbs fs)) as Hf.
  { intros m <- Hm. by constructor. }
  unfold write_failed, wrote, unwritten, own, lookup_entry. cbn [db_ SetDb]. rewrite Edb. cbn [mbind option_bind].
  eexists _, db', _. split; [done |]. destruct (ok st) eqn:Hok.
  - rewrite (Put_ok _ _ _ _ _ E Hok) in *. split; [by apply (Hf _ eq_refl), db_wf_put |].
    split; [done |]. intros id' name' Hid'. by apply entries_put.
  - assert (ok (XSTATUS st) = false) as -> by (unfold XSTATUS; destruct (IsNotFound st); by apply bool_decide_eq_false).
    destruct (Put_err _ _ _ _ _ E Hok) as [Hv | Hv]; rewrite Hv in *.
    + split; [by apply (Hf _ eq_refl) |]. split; [by exists db, db', st |]. by left.
    + split; [by apply (Hf _ eq_refl), db_wf_put |]. split; [by exists db, db', st |]. right.
      intros id' name' Hid'. by apply entries_put.
Qed.

Lemma CheckAndPut_spec fs id name stat stats db :
  dbs_wf fs -> db_ fs = Some db -> DirId_fits id -> Stat_wf stat -> word 32 (|[name]|) ->
  ∃ s db' stats', CheckAndPut fs id name stat stats = Some (s, SetDb (Some db') fs, stats') ∧
    dbs_wf (SetDb (Some db') fs) ∧
    put_outcome (skip_name_collision_checks (fs_options fs)) fs (SetDb (Some db') fs) id name stat s.
Proof.
  intros Hwf Edb Hid Hs Hn. unfold CheckAndPut.
  assert (SetDb (Some db) fs = fs) as Eself by (destruct fs; cbn in *; by rewrite Edb).
  assert (all_dbs fs <> []) as Hne by (unfold all_dbs; by rewrite Edb).
  destruct (skip_name_collision_checks (fs_options fs)) eqn:Eskip; cbn [negb].
  - change (ok OK) with true. cbn iota.
    destruct (DbPut_spec fs id name stat stats db Hwf Edb Hid Hs Hn) as (s & db' & stats' & -> & Hwf' & Hr).
    exists s, db', stats'. split_and!; [done | done |]. destruct (ok s) eqn:Hok.
    + destruct Hr as [-> Hw]. by apply PutDone.
    + destruct Hr. by apply PutWriteError.
  - pose proof (DbGet_spec fs id name stats Hwf Hid Hne) as [G1 G2].
    pose proof (DbGet_error fs id name stats Hwf Hid Hne) as G3.
    destruct (DbGet fs id name stats) as [[s st] stats1]. cbn [fst snd] in *.
    destruct (ok s) eqn:Hok.
    + change (ok (MkStatus kAlreadyExists name [])) with false. cbn iota.
      destruct (G1 eq_refl) as [-> Hv]. destruct (visible fs id name) as [v |] eqn:Ev; [| done].
      eexists _, db, stats1. rewrite Eself. split_and!; [done | done |]. by eapply PutExists.
    + destruct (IsNotFound s) eqn:Hnf.
      * change (ok OK) with true. cbn iota.
        destruct (DbPut_spec fs id name stat stats1 db Hwf Edb Hid Hs Hn) as (s2 & db' & stats' & -> & Hwf' & Hr).
        exists s2, db', stats'. split_and!; [done | done |]. destruct (ok s2) eqn:Hok2.
        -- destruct Hr as [-> Hw]. apply PutDone; [by intros _; apply G2 | done].
        -- destruct Hr. apply PutWriteError; try done. by intros _; apply G2.
      * rewrite Hok. exists s, db, stats1. rewrite Eself. split_and!; [done | done |].
        apply PutReadError; try done. by apply G3.
Qed.

(** ** [Mknod1] *)
Definition refusal (perm : FilesystemOptions -> LookupStat -> User -> bool) (no_perm : Status) options
    (parent : LookupStat) (who : User) (now : Z) : option Status :=
  if negb (IsLeaseOk options parent now) then Some (Err kAssertionFailed "Lease has expired")
  else if negb (perm options parent who) then Some no_perm
  else None.
Definition misplaced options (id : DirId) (name : Slice) : option Status :=
  if skip_partition_checks options || (srvid options =? home_server options id name) then None
  else Some (Err kAccessDenied "Wrong dir partition").
Definition or_else (a b : option Status) : option Status := match a with Some _ => a | None => b end.

(** Why the server refuses to create a name, before it looks at the database. *)
Definition mknod_refusal options parent who id name now : option Status :=
  or_else (refusal IsDirWriteOk (Err kAccessDenied "No write perm") options parent who now)
    (misplaced options id name).
Definition lstat_refusal options parent who id name now : option Status :=
  or_else (refusal IsLookupOk (Err kAccessDenied "No dir x perm") options parent who now)
    (misplaced options id name).

(** Everything but the contents of one control block and of the database is unchanged. *)
Definition op_changed p fs fs' : Prop :=
  inoq fs' = inoq fs /\ fs_options fs' = fs_options fs /\ readonly_dbs fs' = readonly_dbs fs /\
  ∃ d d', dir_heap fs !! p = Some d /\ d_id d' = d_id d /\ d_handle d' = d_handle d /\
    dir_ok (fs_options fs) d' /\ dir_changed p d' fs fs'.

Lemma name_way_lt name : (name_way name < kWays)%nat.
Proof.
  unfold name_way, kWays. change (Z.of_nat 8 - 1) with (Z.ones 3). rewrite Z.land_ones by lia.
  pose proof (Z.mod_pos_bound (Hash name 0) (2 ^ 3) ltac:(lia)). change (2 ^ 3) with 8 in *. lia.
Qed.

Lemma lock_way_idle options i d :
  dir_ok options d -> (i < kWays)%nat ->
  lock_way i d = Some (set_busy i true d) /\ dir_ok options (set_busy i false (set_busy i true d)).
Proof.
  intros [Hb Hf] Hi. unfold lock_way. rewrite Hb, lookup_replicate_2 by done. split; [done |].
  split; [| done]. unfold set_busy. cbn [busy]. rewrite list_insert_insert_eq, Hb. apply list_insert_id. by apply lookup_replicate_2.
Qed.

Lemma dir_changed_trans p d1 d2 fs fs1 fs2 :
  dir_changed p d1 fs fs1 -> dir_changed p d2 fs1 fs2 -> dir_changed p d2 fs fs2.
Proof.
  intros (E1 & E2 & E3 & E4) (F1 & F2 & F3 & F4). split_and!; try congruence.
  rewrite F4, E4. apply insert_insert_eq.
Qed.

Lemma set_dir_changed p d fs : dir_changed p d fs (set_dir p d fs).
Proof. done. Qed.

Lemma visible_db fs fs' id name :
  db_ fs' = db_ fs -> readonly_dbs fs' = readonly_dbs fs -> visible fs' id name = visible fs id name.
Proof. unfold visible, all_dbs. by intros -> ->. Qed.

Lemma put_outcome_db skip fs1 fs1' fs2 fs2' id name stat s :
  db_ fs2 = db_ fs1 -> readonly_dbs fs2 = readonly_dbs fs1 -> db_ fs2' = db_ fs1' ->
  put_outcome skip fs1 fs1' id name stat s -> put_outcome skip fs2 fs2' id name stat s.
Proof.
  intros E1 E2 E3 Ho.
  assert (∀ i n, own fs2 i n = own fs1 i n) as Eo by (intros; unfold own; by rewrite E1).
  assert (∀ i n, own fs2' i n = own fs1' i n) as Eo' by (intros; unfold own; by rewrite E3).
  pose proof (visible_db fs1 fs2 id name E1 E2) as Ev.
  assert (all_dbs fs2 = all_dbs fs1) as Ea by (unfold all_dbs; by rewrite E1, E2).
  assert (wrote fs1 fs1' id name stat -> wrote fs2 fs2' id name stat) as Hw.
  { intros Hw i n Hi. by rewrite Eo', Eo, Hw. }
  assert (unwritten fs1 fs1' -> unwritten fs2 fs2') as Hu.
  { intros Hu i n Hi. by rewrite Eo', Eo, Hu. }
  destruct Ho as [| st | s ? ? Hr | s ? ? Hwf [|]].
  - apply PutDone; [by rewrite Ev | auto].
  - eapply PutExists; [done | by rewrite Ev | congruence].
  - apply PutReadError; [done | done | | congruence]. unfold read_failed. by rewrite Ea.
  - apply PutWriteError; [by rewrite Ev | done | unfold write_failed; by rewrite E1 | auto].
  - apply PutWriteError; [by rewrite Ev | done | unfold write_failed; by rewrite E1 | auto].
Qed.

Lemma Mknod1_spec who id name parent p d stat stats now fs db :
  options_ok (fs_options fs) -> dir_heap fs !! p = Some d -> dir_ok (fs_options fs) d -> d_id d = id ->
  dbs_wf fs -> db_ fs = Some db -> DirId_fits id -> Stat_wf stat -> word 32 (|[name]|) ->
  ∃ s fs', Mknod1 ndebug who id name parent p stat stats now fs = Some (s, fs') ∧
    op_changed p fs fs' ∧ dbs_wf fs' ∧
    match mknod_refusal (fs_options fs) parent who id name now with
    | Some r => s = r ∧ db_ fs' = db_ fs
    | None => put_outcome (skip_name_collision_checks (fs_options fs)) fs fs' id name stat s
    end.
Proof.
  intros Hopt E Hd Hid Hwf Edb Hfit Hs Hn. unfold Mknod1, mknod_refusal, refusal, misplaced.
  assert (op_changed p fs fs) as Hsame.
  { split_and!; try done. exists d, d. split_and!; try done. split_and!; try done. by rewrite insert_id. }
  destruct (IsLeaseOk _ _ _); cbn [negb or_else]; [| by exists (Err kAssertionFailed "Lease has expired"), fs].
  destruct (IsDirWriteOk _ _ _); cbn [negb or_else]; [| by exists (Err kAccessDenied "No write perm"), fs].
  destruct (MaybeFetchDir_spec p d fs Hopt E Hd) as (fs1 & d1 & -> & (Ei & Eo & Edb1 & Er) & Hc & Eid & Eh & _ & Hd1 & Hf1).
  cbn [mbind option_bind]. assert (dir_heap fs1 !! p = Some d1) as E1 by (destruct Hc as (_ & _ & _ & ->); apply lookup_insert_eq).
  rewrite E1. cbn [mbind option_bind]. rewrite Eo, IsDirPartitionOk_spec, Eid, Hid by done.
  cbn [mbind option_bind]. destruct (skip_partition_checks (fs_options fs) || _) eqn:Ep; cbn [negb].
  2: { exists (Err kAccessDenied "Wrong dir partition"), fs1. split_and!; try done.
       - split; [done |]. split; [done |]. split; [done |]. by exists d, d1.
       - unfold dbs_wf, all_dbs. rewrite Edb1, Er. exact Hwf. }
  destruct (lock_way_idle (fs_options fs) (name_way name) d1 Hd1 (name_way_lt name)) as [-> Hd2].
  cbn [mbind option_bind]. set (fs2 := set_dir p (set_busy (name_way name) true d1) fs1).
  destruct (CheckAndPut_spec fs2 id name stat stats db) as (s & db' & stats' & -> & Hwf' & Hout); try done.
  { unfold dbs_wf, all_dbs. cbn. rewrite Edb1, Er. exact Hwf. }
  { cbn. congruence. }
  cbn [mbind option_bind SetDb dir_heap fs2 set_dir]. rewrite lookup_insert_eq. cbn [mbind option_bind].
  eexists s, _. split; [done |].
  split; [| split; [done |]].
  - split; [done |]. split; [done |]. split; [done |].
    exists d, (set_busy (name_way name) false (merge_stats stats' (set_busy (name_way name) true d1))).
    split; [done |]. split; [exact Eid |]. split; [exact Eh |]. split.
    + destruct Hd2 as [Hb2 Hf2]. split; [exact Hb2 | exact Hf2].
    + destruct Hc as (C1 & C2 & C3 & C4). split_and!; cbn; try done. rewrite C4. by rewrite !insert_insert_eq.
  - change (skip_name_collision_checks (fs_options fs2)) with (skip_name_collision_checks (fs_options fs1)) in Hout.
    rewrite Eo in Hout. eapply put_outcome_db; [| | | exact Hout]; cbn; done.
Qed.

(** ** [Lstat1] *)
Definition read_outcome fs id name s (stat : option Stat) : Prop :=
  (s = OK ∧ stat = visible fs id name ∧ stat <> None) \/
  (s = MkStatus kNotFound [] [] ∧ visible fs id name = None) \/
  (ok s = false ∧ IsNotFound s = false ∧ read_failed fs id name).

Lemma XSTATUS_NotFound st : IsNotFound (XSTATUS st) = true -> XSTATUS st = MkStatus kNotFound [] [].
Proof. unfold XSTATUS. destruct (IsNotFound st); [done |]. intros Hf. by apply bool_decide_eq_true in Hf. Qed.

Lemma Get_NotFound_status db id name stats :
  IsNotFound (FilesystemDb_Get db id name stats).1.1 = true ->
  (FilesystemDb_Get db id name stats).1.1 = MkStatus kNotFound [] [].
Proof.
  unfold FilesystemDb_Get, GET. destruct (dx_Get _ _) as [st v]. destruct (ok st).
  - destruct (Stat_DecodeFrom v) as [[stat input] |]; cbn; intros Hf; by apply bool_decide_eq_true in Hf.
  - cbn. apply XSTATUS_NotFound.
Qed.

Lemma DbGet_readonly_NotFound dbs id name r :
  (IsNotFound r.1.1 = true -> r.1.1 = MkStatus kNotFound [] []) ->
  IsNotFound (DbGet_readonly dbs id name r).1.1 = true ->
  (DbGet_readonly dbs id name r).1.1 = MkStatus kNotFound [] [].
Proof.
  revert r. induction dbs as [| db dbs IH]; intros r Hr; cbn [DbGet_readonly]; [done |].
  change (FilesystemReadonlyDb_Get db id name r.2) with (FilesystemDb_Get db id name r.2).
  pose proof (Get_NotFound_status db id name r.2) as Hg.
  destruct (FilesystemDb_Get db id name r.2) as [[s st] stats]. cbn [fst] in Hg.
  destruct (ok s); [done |]. destruct (IsNotFound s) eqn:Hn; cbn [negb]; [| cbn; by rewrite Hn].
  apply (IH (s, st, stats)). intros _. by apply Hg.
Qed.

Lemma DbGet_NotFound fs id name stats :
  IsNotFound (DbGet fs id name stats).1.1 = true -> (DbGet fs id name stats).1.1 = MkStatus kNotFound [] [].
Proof.
  unfold DbGet. destruct (db_ fs) as [db |]; [| apply DbGet_readonly_NotFound; done].
  pose proof (Get_NotFound_status db id name stats) as Hg.
  destruct (FilesystemDb_Get db id name stats) as [[s st] stats']. cbn [fst] in Hg.
  destruct (ok s); [done |]. destruct (IsNotFound s) eqn:Hn; cbn [negb]; [| cbn; by rewrite Hn].
  apply (DbGet_readonly_NotFound _ _ _ (s, st, stats')). intros _. by apply Hg.
Qed.

Lemma DbGet_outcome fs id name stats :
  dbs_wf fs -> DirId_fits id -> all_dbs fs <> [] ->
  read_outcome fs id name (DbGet fs id name stats).1.1 (DbGet fs id name stats).1.2.
Proof.
  intros Hwf Hid Hne. pose proof (DbGet_spec fs id name stats Hwf Hid Hne) as [G1 G2].
  pose proof (DbGet_error fs id name stats Hwf Hid Hne) as G3. pose proof (DbGet_NotFound fs id name stats) as G4.
  unfold read_outcome. destruct (DbGet fs id name stats) as [[s st] stats1]. cbn [fst snd] in *.
  destruct (ok s) eqn:Hok.
  - left. destruct (G1 eq_refl) as [-> ?]. by apply bool_decide_eq_true in Hok.
  - right. destruct (IsNotFound s) eqn:Hn; [left | right]; auto.
Qed.

Lemma Lstat1_spec who id name parent p d stats now fs :
  options_ok (fs_options fs) -> dir_heap fs !! p = Some d -> dir_ok (fs_options fs) d -> d_id d = id ->
  dbs_wf fs -> all_dbs fs <> [] -> DirId_fits id ->
  ∃ s st fs', Lstat1 ndebug who id name parent p stats now fs = Some (s, st, fs') ∧
    op_changed p fs fs' ∧ db_ fs' = db_ fs ∧
    match lstat_refusal (fs_options fs) parent who id name now with
    | Some r => s = r ∧ st = None
    | None => read_outcome fs id name s st
    end.
Proof.
  intros Hopt E Hd Hid Hwf Hne Hfit. unfold Lstat1, lstat_refusal, refusal, misplaced.
  assert (op_changed p fs fs) as Hsame.
  { split_and!; try done. exists d, d. split_and!; try done. split_and!; try done. by rewrite insert_id. }
  destruct (IsLeaseOk _ _ _); cbn [negb or_else]; [| by eexists _, _, fs].
  destruct (IsLookupOk _ _ _); cbn [negb or_else]; [| by eexists _, _, fs].
  destruct (MaybeFetchDir_spec p d fs Hopt E Hd) as (fs1 & d1 & -> & (Ei & Eo & Edb1 & Er) & Hc & Eid & Eh & _ & Hd1 & Hf1).
  cbn [mbind option_bind]. assert (dir_heap fs1 !! p = Some d1) as E1 by (destruct Hc as (_ & _ & _ & ->); apply lookup_insert_eq).
  rewrite E1. cbn [mbind option_bind]. rewrite Eo, IsDirPartitionOk_spec, Eid, Hid by done.
  assert (all_dbs fs1 = all_dbs fs) as Ea by (unfold all_dbs; by rewrite Edb1, Er).
  cbn [mbind option_bind]. destruct (skip_partition_checks (fs_options fs) || _) eqn:Ep; cbn [negb].
  2: { eexists _, _, fs1. split; [done |]. split; [| done].
       split; [done |]. split; [done |]. split; [done |]. by exists d, d1. }
  pose proof (DbGet_outcome fs1 id name stats) as Ho.
  assert (dbs_wf fs1) as Hwf1 by (unfold dbs_wf; by rewrite Ea). rewrite Ea in Ho. specialize (Ho Hwf1 Hfit Hne).
  destruct (DbGet fs1 id name stats) as [[s st] stats']. cbn [fst snd] in Ho.
  eexists s, st, _. split; [done |]. split; [| split; [done |]].
  - split; [done |]. split; [done |]. split; [done |]. exists d, (merge_stats stats' d1).
    split_and!; try done. destruct Hc as (C1 & C2 & C3 & C4). split_and!; try done.
    cbn. rewrite C4. apply insert_insert_eq.
  - unfold read_outcome, visible, read_failed in *. by rewrite Ea in Ho.
Qed.

(** ** [Mknos1] *)

(** The names the loop takes from the array: at most [k], up to the first that does not parse. *)
Fixpoint parse_names (k : nat) (input : Slice) : list Slice :=
  match k with
  | O => []
  | S k => match GetLengthPrefixedSlice input with
           | None => []
           | Some (name, input) => name :: parse_names k input
           end
  end.

(** A batch creates its names one after the other, with consecutive inode numbers from
    [startino + m] on, and stops at the first that fails. *)
Inductive batch (id : DirId) (startino : Z) (stat : Stat) : list Slice -> Z -> FS DX -> Status -> Z -> FS DX -> Prop :=
  | batch_end m fs fs' : db_ fs' = db_ fs -> batch id startino stat [] m fs OK m fs'
  | batch_step name names m fs fs1 s m' fs' :
      put_outcome (skip_name_collision_checks (fs_options fs)) fs fs1 id name
        (SetInodeNo (u64 (startino + m)) stat) OK ->
      batch id startino stat names (m + 1) fs1 s m' fs' ->
      batch id startino stat (name :: names) m fs s m' fs'
  | batch_fail name names m fs fs' s :
      put_outcome (skip_name_collision_checks (fs_options fs)) fs fs' id name
        (SetInodeNo (u64 (startino + m)) stat) s ->
      ok s = false -> batch id startino stat (name :: names) m fs s m fs'.

Definition names_ok (names : list Slice) : Prop := Forall (λ name, word 32 (|[name]|)) names.

Lemma SetInodeNo_wf i stat : word 64 i -> Stat_wf stat -> Stat_wf (SetInodeNo i stat).
Proof. intros Hi Hs. unfold Stat_wf, SetInodeNo in *. cbn. tauto. Qed.

Lemma Mknos_loop_spec k m id input startino stat stats fs db :
  dbs_wf fs -> db_ fs = Some db -> DirId_fits id -> Stat_wf stat -> names_ok (parse_names k input) ->
  ∃ s m' db' stats', Mknos_loop k m id input startino stat stats OK fs = Some (s, m', SetDb (Some db') fs, stats') ∧
    dbs_wf (SetDb (Some db') fs) ∧ batch id startino stat (parse_names k input) m fs s m' (SetDb (Some db') fs) ∧
    m <= m' <= m + Z.of_nat k.
Proof.
  revert m input stat stats fs db. induction k as [| k IH]; intros m input stat stats fs db Hwf Edb Hid Hs Hn;
    cbn [Mknos_loop parse_names] in *.
  { exists OK, m, db, stats. assert (SetDb (Some db) fs = fs) as -> by (destruct fs; cbn in *; by rewrite Edb).
    split_and!; [done | done | by constructor | lia | lia]. }
  destruct (GetLengthPrefixedSlice input) as [[name rest] |].
  2: { exists OK, m, db, stats. assert (SetDb (Some db) fs = fs) as -> by (destruct fs; cbn in *; by rewrite Edb).
       split_and!; [done | done | by constructor | lia | lia]. }
  apply list.Forall_cons in Hn as [Hn Hns].
  assert (Stat_wf (SetInodeNo (u64 (startino + m)) stat)) as Hs' by (apply SetInodeNo_wf; [by apply wrap_word | done]).
  destruct (CheckAndPut_spec fs id name _ stats db Hwf Edb Hid Hs' Hn) as (s & db1 & stats1 & -> & Hwf1 & Hout).
  cbn [mbind option_bind]. destruct (ok s) eqn:Hok; cbn [negb].
  - assert (s = OK) as -> by (by apply bool_decide_eq_true in Hok).
    destruct (IH (m + 1) rest (SetInodeNo (u64 (startino + m)) stat) stats1 (SetDb (Some db1) fs) db1)
      as (s & m' & db' & stats' & -> & Hwf' & Hb & Hm); try done.
    exists s, m', db', stats'. split_and!; [done | done | | lia | lia].
    eapply batch_step; [exact Hout |].
    assert (∀ ns m0 f0 s0 m1 f1, batch id startino (SetInodeNo (u64 (startino + m)) stat) ns m0 f0 s0 m1 f1 ->
      batch id startino stat ns m0 f0 s0 m1 f1) as Hst by (induction 1; econstructor; eauto).
    by apply Hst.
  - exists s, m, db1, stats1. split_and!; [done | done | by apply batch_fail | lia | lia].
Qed.

Lemma batch_db id startino stat names m fs s m' fs' gs gs' :
  batch id startino stat names m fs s m' fs' ->
  db_ gs = db_ fs -> readonly_dbs gs = readonly_dbs fs -> fs_options gs = fs_options fs -> db_ gs' = db_ fs' ->
  batch id startino stat names m gs s m' gs'.
Proof.
  intros Hb. revert gs gs'.
  induction Hb as [m fs fs' Hdb | name names m fs fs1 s m' fs' Hp Hb IH | name names m fs fs' s Hp Hs];
    intros gs gs' E1 E2 E3 E4.
  - constructor. congruence.
  - eapply (batch_step _ _ _ _ _ _ gs fs1); [rewrite E3; by eapply put_outcome_db | by apply IH].
  - apply batch_fail; [rewrite E3; by eapply put_outcome_db | done].
Qed.

(** All name subsets are locked and released again. *)
Lemma lock_ways_idle options d :
  dir_ok options d ->
  ∃ d', lock_ways kWays 0 d = Some d' ∧ d_id d' = d_id d ∧ d_handle d' = d_handle d ∧
    ∀ stats, d_id (unlock_ways kWays 0 (merge_stats stats d')) = d_id d ∧
      d_handle (unlock_ways kWays 0 (merge_stats stats d')) = d_handle d ∧
      dir_ok options (unlock_ways kWays 0 (merge_stats stats d')) ∧
      d_id (unlock_ways kWays 0 d') = d_id d ∧ d_handle (unlock_ways kWays 0 d') = d_handle d ∧
      dir_ok options (unlock_ways kWays 0 d').
Proof.
  intros [Hb Hf]. destruct d as [id h o g st f b]. cbn [busy] in Hb. subst b.
  eexists. split; [reflexivity |]. by split_and!.
Qed.

Lemma Mknos1_spec who id namearr startino parent p d stat n stats now fs db :
  options_ok (fs_options fs) -> dir_heap fs !! p = Some d -> dir_ok (fs_options fs) d -> d_id d = id ->
  dbs_wf fs -> db_ fs = Some db -> DirId_fits id -> Stat_wf stat -> word 32 n ->
  names_ok (parse_names (Z.to_nat n) namearr) ->
  ∃ s m fs', Mknos1 ndebug who id namearr startino parent p stat n stats now fs = Some (s, m, fs') ∧
    op_changed p fs fs' ∧ dbs_wf fs' ∧ 0 <= m <= n ∧
    match refusal IsDirWriteOk (Err kAccessDenied "No write perm") (fs_options fs) parent who now with
    | Some r => s = r ∧ m = n ∧ db_ fs' = db_ fs
    | None => batch id startino stat (parse_names (Z.to_nat n) namearr) 0 fs s m fs'
    end.
Proof.
  intros Hopt E Hd Hid Hwf Edb Hfit Hs Hn Hnames. unfold Mknos1, refusal.
  assert (op_changed p fs fs) as Hsame.
  { split_and!; try done. exists d, d. split_and!; try done. split_and!; try done. by rewrite insert_id. }
  assert (0 <= n <= n) by (destruct Hn; lia).
  destruct (IsLeaseOk _ _ _); cbn [negb]; [| by eexists _, n, fs].
  destruct (IsDirWriteOk _ _ _); cbn [negb]; [| by eexists _, n, fs].
  destruct (MaybeFetchDir_spec p d fs Hopt E Hd) as (fs1 & d1 & -> & (Ei & Eo & Edb1 & Er) & Hc & Eid & Eh & _ & Hd1 & Hf1).
  cbn [mbind option_bind]. assert (dir_heap fs1 !! p = Some d1) as E1 by (destruct Hc as (_ & _ & _ & ->); apply lookup_insert_eq).
  rewrite E1. cbn [mbind option_bind].
  destruct (lock_ways_idle (fs_options fs) d1 Hd1) as (d2 & -> & _ & _ & Hun). cbn [mbind option_bind].
  set (fs2 := set_dir p d2 fs1).
  destruct (Mknos_loop_spec (Z.to_nat n) 0 id namearr startino stat stats fs2 db)
    as (s & m & db' & stats' & -> & Hwf' & Hb & Hm); try done.
  { unfold dbs_wf, all_dbs. cbn. rewrite Edb1, Er. exact Hwf. }
  { cbn. congruence. }
  cbn [mbind option_bind SetDb dir_heap fs2 set_dir]. rewrite lookup_insert_eq. cbn [mbind option_bind].
  destruct (Hun stats') as (U1 & U2 & U3 & _).
  assert (u32 m = m) as -> by (apply wrap_small; destruct Hn; split; lia).
  eexists s, m, _. split; [done |]. split_and!; [| exact Hwf' | lia | lia |].
  - split; [done |]. split; [done |]. split; [done |].
    exists d, (unlock_ways kWays 0 (merge_stats stats' d2)). split_and!; try congruence.
    destruct Hc as (C1 & C2 & C3 & C4). split_and!; try done. unfold fs2. cbn [dir_heap set_dir SetDb]. rewrite C4. by rewrite !insert_insert_eq.
  - eapply batch_db; [exact Hb | | | |]; cbn; congruence.
Qed.

(** ** [Bukin1]: the same checks, then the tables of a directory are adopted. *)
Lemma Bukin1_spec who id parent p d table_dir now fs db :
  options_ok (fs_options fs) -> dir_heap fs !! p = Some d -> dir_ok (fs_options fs) d -> d_id d = id ->
  db_ fs = Some db ->
  ∃ s fs', Bukin1 ndebug who id parent p table_dir now fs = Some (s, fs') ∧ op_changed p fs fs' ∧
    match refusal IsDirWriteOk (Err kAccessDenied "No write perm") (fs_options fs) parent who now with
    | Some r => s = r ∧ db_ fs' = db_ fs
    | None => ∃ db', dx_AddL0Tables db table_dir = (s, db') ∧ db_ fs' = Some db'
    end.
Proof.
  intros Hopt E Hd Hid Edb. unfold Bukin1, refusal.
  assert (op_changed p fs fs) as Hsame.
  { split_and!; try done. exists d, d. split_and!; try done. split_and!; try done. by rewrite insert_id. }
  destruct (IsLeaseOk _ _ _); cbn [negb]; [| by eexists _, fs].
  destruct (IsDirWriteOk _ _ _); cbn [negb]; [| by eexists _, fs].
  destruct (MaybeFetchDir_spec p d fs Hopt E Hd) as (fs1 & d1 & -> & (Ei & Eo & Edb1 & Er) & Hc & Eid & Eh & _ & Hd1 & Hf1).
  cbn [mbind option_bind]. assert (dir_heap fs1 !! p = Some d1) as E1 by (destruct Hc as (_ & _ & _ & ->); apply lookup_insert_eq).
  rewrite E1. cbn [mbind option_bind].
  destruct (lock_ways_idle (fs_options fs) d1 Hd1) as (d2 & -> & _ & _ & Hun). cbn [mbind option_bind].
  rewrite Edb1, Edb. cbn [mbind option_bind]. unfold FilesystemDb_BulkInsert.
  destruct (dx_AddL0Tables db table_dir) as [s db'] eqn:Eb. destruct (Hun stats0) as (_ & _ & _ & U1 & U2 & U3).
  eexists s, _. split; [done |]. split.
  - split; [done |]. split; [done |]. split; [done |].
    exists d, (unlock_ways kWays 0 d2). split_and!; try congruence.
    destruct Hc as (C1 & C2 & C3 & C4). split_and!; try done. cbn [dir_heap set_dir SetDb]. by rewrite C4, insert_insert_eq.
  - by exists db'.
Qed.
End Ops.
