(* ===== verification/FsProps.v ===== *)
(** * The metadata server: its operations against the abstract name space

    For a server at rest ([fs_ok]) every operation of the file system interface returns,
    its status is the refusal of a check or the outcome of the database access, and its
    effect is on the entry named only. *)
From S2P Require Import Prelude Status Coding Hashing FsTypes Keys Giga GigaFacts.
From S2P Require Import GigaProps HashTable Lru LruProps Mxdb MxdbProps FsDb.
From S2P Require Import Fs FsOps.
Section Props.
Context {DX : Type} `{KvLaws DX} `{BulkStore DX}.
Variable ndebug : bool.
Implicit Types (fs : FS DX) (p : Ptr) (d : Dir).

(** A server between operations. *)
Record fs_ok fs : Prop := {
  ok_wf : fs_wf fs;
  ok_options : options_ok (fs_options fs);
  ok_dirs : ∀ p d, dir_heap fs !! p = Some d -> dir_ok ndebug (fs_options fs) d;
  ok_dbs : dbs_wf fs;
  ok_inoq : word 64 (inoq fs)
}.

Lemma DirId_fits_wf id : DirId_fits id -> DirId_wf id.
Proof. intros [? ?]. split; [done |]. by apply (word_mono 56). Qed.

(** Every operation runs between an [AcquireDir] and a [ReleaseDir]. *)
Lemma with_dir id fs :
  fs_ok fs -> room fs -> DirId_fits id ->
  ∃ p fs1 d, AcquireDir ndebug id fs = Some (p, fs1) ∧ fs_ok fs1 ∧ same_data fs fs1 ∧
    dir_heap fs1 !! p = Some d ∧ d_id d = id ∧
    ∀ fs2 d', fs_options fs2 = fs_options fs1 -> word 64 (inoq fs2) -> dbs_wf fs2 ->
      d_id d' = d_id d -> d_handle d' = d_handle d -> dir_ok ndebug (fs_options fs1) d' ->
      dir_changed p d' fs1 fs2 ->
      ∃ fs3, ReleaseDir ndebug p fs2 = Some fs3 ∧ fs_ok fs3 ∧ same_data fs2 fs3.
Proof.
  intros [Hwf Hopt Hdirs Hdbs Hino] Hroom Hid.
  destruct (AcquireDir_spec ndebug id fs Hwf Hroom (DirId_fits_wf id Hid)) as (p & fs1 & E & Hacq & _).
  destruct Hacq as (Hwf1 & Hs & (d & n & (Ed & x & Ex & Hx) & Hn & Eid & Hdef) & Hother).
  pose proof Hs as (Ei & Eo & Edb & Er).
  assert (fs_ok fs1) as Hok1.
  { split; [done | by rewrite Eo | | | by rewrite Ei].
    - intros q dq Hq. rewrite Eo. destruct (decide (q = p)) as [-> |]; [| by eapply Hdirs, Hother].
      rewrite Ed in Hq. injection Hq as <-. rewrite Hdef. destruct (dir_heap fs !! p) eqn:E0; [by eapply Hdirs |].
      split; [done | done].
    - unfold dbs_wf, all_dbs. rewrite Edb, Er. exact Hdbs. }
  exists p, fs1, d. split_and!; try done. intros fs2 d' Eo2 Hi2 Hdbs2 Eid' Eh' Hd' Hc.
  assert (fs_wf fs2) as Hwf2 by (by eapply dir_changed_wf).
  assert (dir_ref fs2 p d' n) as Href.
  { destruct Hc as (C1 & _ & _ & C4). split; [rewrite C4; apply lookup_insert_eq |].
    exists x. rewrite C1, Eh'. done. }
  destruct (ReleaseDir_spec ndebug p d' n fs2 Hwf2 Href Hn) as (fs3 & E3 & Hwf3 & Hs3 & Hq3 & Hp3).
  exists fs3. split_and!; [done | | done]. destruct Hs3 as (F1 & F2 & F3 & F4).
  split; [done | by rewrite F2, Eo2; destruct Hok1 | | | by rewrite F1].
  - intros q dq Hq. rewrite F2, Eo2. destruct (decide (q = p)) as [-> | Hne].
    + destruct Hp3 as [Hp3 | Hp3]; rewrite Hp3 in Hq; [| done]. by injection Hq as <-.
    + rewrite Hq3 in Hq by done. destruct Hc as (_ & _ & _ & C4). rewrite C4, lookup_insert_ne in Hq by done.
      by eapply (ok_dirs _ Hok1).
  - unfold dbs_wf, all_dbs. rewrite F3, F4. exact Hdbs2.
Qed.

Lemma file_stat_wf m i who mode : word 64 m -> word 64 i -> User_wf who -> Stat_wf (file_stat m i who mode).
Proof.
  intros Hm Hi [Hu Hg]. unfold Stat_wf, file_stat.
  cbn [DnodeNo InodeNo FileSize ModifyTime ChangeTime FileMode ZerothServer UserId GroupId].
  split_and!; [done | done | by_compute | by_compute | by_compute | | by apply wrap_word | done | done].
  apply mode_word. by_compute.
Qed.
Lemma dir_stat_wf m i who mode : word 64 m -> word 64 i -> User_wf who -> Stat_wf (dir_stat m i who mode).
Proof.
  intros Hm Hi [Hu Hg]. unfold Stat_wf, dir_stat.
  cbn [DnodeNo InodeNo FileSize ModifyTime ChangeTime FileMode ZerothServer UserId GroupId].
  split_and!; [done | done | by_compute | by_compute | by_compute | | by apply wrap_word | done | done].
  apply mode_word. by_compute.
Qed.

Lemma u64_succ_pred q : word 64 q -> u64 (u64 (q + 1) - 1) = q.
Proof.
  intros Hq. unfold u64, wrap. rewrite Zminus_mod_idemp_l. replace (q + 1 - 1) with q by lia.
  by apply (wrap_small 64).
Qed.

Lemma Mknod_spec mk who parent name mode now fs db :
  (∀ m i, word 64 m -> word 64 i -> Stat_wf (mk m i who mode)) ->
  fs_ok fs -> room fs -> db_ fs = Some db -> word 64 (mydno (fs_options fs)) ->
  DirId_fits (DirId_of_LookupStat parent) -> word 32 (|[name]|) ->
  let id := DirId_of_LookupStat parent in
  let stat := mk (mydno (fs_options fs)) (u64 (inoq fs + 1)) who mode in
  ∃ s fs', Mknod ndebug mk who parent name mode now fs = Some (s, Some stat, fs') ∧ fs_ok fs' ∧
    fs_options fs' = fs_options fs ∧ readonly_dbs fs' = readonly_dbs fs ∧
    inoq fs' = (if ok s then u64 (inoq fs + 1) else inoq fs) ∧
    match mknod_refusal (fs_options fs) parent who id name now with
    | Some r => s = r ∧ db_ fs' = db_ fs
    | None => put_outcome (skip_name_collision_checks (fs_options fs)) fs fs' id name stat s
    end.
Proof.
  intros Hmk Hok Hroom Edb Hm Hfit Hn id stat. unfold Mknod. fold id.
  destruct (with_dir id fs Hok Hroom Hfit) as (p & fs1 & d & -> & Hok1 & (Ei & Eo & Edb1 & Er) & Ed & Eid & Hrel).
  cbn [mbind option_bind]. set (fs1' := set_inoq (u64 (inoq fs1 + 1)) fs1).
  change (inoq fs1') with (u64 (inoq fs1 + 1)). change (fs_options fs1') with (fs_options fs1).
  rewrite Ei, Eo. fold stat.
  assert (word 64 (u64 (inoq fs + 1))) as Hino by (by apply wrap_word).
  destruct Hok1 as [_ Hopt1 Hdirs1 Hdbs1 _].
  destruct (Mknod1_spec ndebug who id name parent p d stat stats0 now fs1' db)
    as (s & fs2 & -> & (Fi & Fo & Fr & d0 & d2 & Ed0 & Eid2 & Eh2 & Hd2 & Hc2) & Hdbs2 & Hout);
    try done; [by eapply Hdirs1 | cbn; by rewrite Edb1 | by apply Hmk |].
  cbn [mbind option_bind]. change (inoq fs1') with (u64 (inoq fs1 + 1)) in Fi. rewrite Ei in Fi.
  change (dir_heap fs1') with (dir_heap fs1) in Ed0. rewrite Ed in Ed0. injection Ed0 as <-.
  set (fs2' := if negb (ok s) then TryReuseIno (u64 (inoq fs + 1)) 1 fs2 else fs2).
  assert (∃ q, fs2' = set_inoq q fs2 /\ q = if ok s then u64 (inoq fs + 1) else inoq fs) as (q & E2 & Eq).
  { unfold fs2', TryReuseIno. rewrite Fi, Z.eqb_refl. destruct (ok s); cbn [negb].
    - exists (inoq fs2). rewrite Fi. split; [| done]. destruct fs2; cbn in *. by subst.
    - eexists. split; [done |]. by apply u64_succ_pred, Hok. }
  destruct (Hrel fs2' d2) as (fs3 & -> & Hok3 & (Gi & Go & Gdb & Gr)); try done.
  { rewrite E2. cbn. rewrite Fo. done. }
  { rewrite E2. cbn. rewrite Eq. destruct (ok s); [done | by apply Hok]. }
  { rewrite E2. exact Hdbs2. }
  { rewrite E2. exact Hc2. }
  cbn [mbind option_bind]. exists s, fs3. split_and!; try done.
  - rewrite Go, E2. cbn. rewrite Fo. exact Eo.
  - rewrite Gr, E2. cbn. rewrite Fr. exact Er.
  - rewrite Gi, E2. exact Eq.
  - change (fs_options fs1') with (fs_options fs1) in Hout. rewrite Eo in Hout.
    destruct (mknod_refusal _ _ _ _ _ _).
    + destruct Hout as [-> Hdb]. split; [done |]. rewrite Gdb, E2. cbn. rewrite Hdb. exact Edb1.
    + eapply put_outcome_db; [| | | exact Hout]; [symmetry; exact Edb1 | symmetry; exact Er |].
      rewrite Gdb, E2. done.
Qed.

(** A read leaves the server at rest and its databases unchanged. *)
Definition read_only fs fs' : Prop := fs_ok fs' ∧ same_data fs fs'.

Lemma op_changed_release p d fs1 fs2 :
  dir_heap fs1 !! p = Some d -> op_changed ndebug p fs1 fs2 ->
  ∃ d', d_id d' = d_id d ∧ d_handle d' = d_handle d ∧ dir_ok ndebug (fs_options fs1) d' ∧ dir_changed p d' fs1 fs2.
Proof.
  intros E (_ & _ & _ & d0 & d' & E0 & ? & ? & ? & ?). rewrite E in E0. injection E0 as <-. by exists d'.
Qed.

Lemma Lstat_spec who parent name now fs :
  fs_ok fs -> room fs -> all_dbs fs <> [] -> DirId_fits (DirId_of_LookupStat parent) ->
  ∃ s st fs', Lstat ndebug who parent name now fs = Some (s, st, fs') ∧ read_only fs fs' ∧
    match lstat_refusal (fs_options fs) parent who (DirId_of_LookupStat parent) name now with
    | Some r => s = r ∧ st = None
    | None => read_outcome fs (DirId_of_LookupStat parent) name s st
    end.
Proof.
  intros Hok Hroom Hne Hfit. unfold Lstat. set (id := DirId_of_LookupStat parent) in *.
  destruct (with_dir id fs Hok Hroom Hfit) as (p & fs1 & d & -> & Hok1 & (Ei & Eo & Edb1 & Er) & Ed & Eid & Hrel).
  cbn [mbind option_bind]. pose proof Hok1 as [_ Hopt1 Hdirs1 Hdbs1 Hino1].
  assert (all_dbs fs1 = all_dbs fs) as Ea by (unfold all_dbs; by rewrite Edb1, Er).
  destruct (Lstat1_spec ndebug who id name parent p d stats0 now fs1)
    as (s & st & fs2 & -> & Hop & Edb2 & Hout); try done; [by eapply Hdirs1 | by rewrite Ea |].
  cbn [mbind option_bind]. destruct (op_changed_release p d fs1 fs2 Ed Hop) as (d' & ? & ? & ? & ?).
  destruct Hop as (Fi & Fo & Fr & _).
  destruct (Hrel fs2 d') as (fs3 & -> & Hok3 & Hs3); try done; [by rewrite Fi | unfold dbs_wf, all_dbs; by rewrite Edb2, Fr |].
  cbn [mbind option_bind]. exists s, st, fs3. split_and!; [done | split; [done |] |].
  - destruct Hs3 as (Gi & Go & Gdb & Gr). split_and!; congruence.
  - rewrite Eo in Hout. destruct (lstat_refusal _ _ _ _ _ _); [done |].
    unfold read_outcome, visible, read_failed in *. by rewrite Ea in Hout.
Qed.

(** The result of a lookup of a directory: a lease that never expires. *)
Definition lookup_result (st : Stat) : LookupStat :=
  MkLookupStat (DnodeNo st) (InodeNo st) (2 ^ 64 - 1) (FileMode st) (ZerothServer st) (UserId st) (GroupId st).

Lemma Lokup_spec who parent name stat now fs :
  fs_ok fs -> room fs -> all_dbs fs <> [] -> DirId_fits (DirId_of_LookupStat parent) ->
  ∃ s l fs', Lokup ndebug who parent name stat now fs = Some (s, l, fs') ∧ read_only fs fs' ∧
    match lstat_refusal (fs_options fs) parent who (DirId_of_LookupStat parent) name now with
    | Some r => s = r
    | None => ∃ s0 st0, read_outcome fs (DirId_of_LookupStat parent) name s0 st0 ∧
        match st0 with
        | Some st => if ok s0 then if S_ISDIR (FileMode st) then s = OK ∧ l = lookup_result st
                                   else s = Err kDirExpected "Not a dir" else s = s0
        | None => s = s0
        end
    end.
Proof.
  intros Hok Hroom Hne Hfit. unfold Lokup. set (id := DirId_of_LookupStat parent) in *.
  destruct (with_dir id fs Hok Hroom Hfit) as (p & fs1 & d & -> & Hok1 & (Ei & Eo & Edb1 & Er) & Ed & Eid & Hrel).
  cbn [mbind option_bind]. pose proof Hok1 as [_ Hopt1 Hdirs1 Hdbs1 Hino1].
  assert (all_dbs fs1 = all_dbs fs) as Ea by (unfold all_dbs; by rewrite Edb1, Er). unfold Lokup1.
  destruct (Lstat1_spec ndebug who id name parent p d stats0 now fs1)
    as (s & st & fs2 & -> & Hop & Edb2 & Hout); try done; [by eapply Hdirs1 | by rewrite Ea |].
  cbn [mbind option_bind]. destruct (op_changed_release p d fs1 fs2 Ed Hop) as (d' & ? & ? & ? & ?).
  destruct Hop as (Fi & Fo & Fr & _).
  destruct (Hrel fs2 d') as (fs3 & Erel & Hok3 & Hs3); try done; [by rewrite Fi | unfold dbs_wf, all_dbs; by rewrite Edb2, Fr |].
  assert (read_only fs fs3) as Hro.
  { split; [done |]. destruct Hs3 as (Gi & Go & Gdb & Gr). split_and!; congruence. }
  rewrite Eo in Hout. destruct (lstat_refusal _ _ _ _ _ _) as [r |] eqn:Eref.
  - destruct Hout as [-> ->]. assert (ok r = false) as ->.
    { unfold lstat_refusal, refusal, misplaced, or_else in Eref. repeat case_match; by simplify_eq. }
    cbn [mbind option_bind]. rewrite Erel. cbn [mbind option_bind]. by eexists _, _, fs3.
  - assert (read_outcome fs id name s st) as Hout'
      by (unfold read_outcome, visible, read_failed in *; by rewrite Ea in Hout).
    destruct (ok s) eqn:Hs.
    + destruct st as [st |]; [| exfalso; destruct Hout' as [(_ & _ & X) | [(-> & _) | (X & _)]];
        [by apply X | by apply bool_decide_eq_true in Hs | by rewrite X in Hs]].
      cbn [mbind option_bind]. destruct (S_ISDIR (FileMode st)) eqn:Edir; cbn [negb mbind option_bind];
        rewrite Erel; cbn [mbind option_bind]; eexists _, _, fs3; (split; [done |]); (split; [done |]);
        exists s, (Some st); rewrite Hs, Edir; split; try done.
      split; [by apply bool_decide_eq_true in Hs | done].
    + cbn [mbind option_bind]. rewrite Erel. cbn [mbind option_bind]. eexists _, _, fs3. split; [done |].
      split; [done |]. exists s, st. split; [done |]. rewrite Hs. by destruct st.
Qed.

Lemma Mkfls_spec who parent namearr mode n now fs db :
  fs_ok fs -> room fs -> db_ fs = Some db -> word 64 (mydno (fs_options fs)) -> User_wf who ->
  DirId_fits (DirId_of_LookupStat parent) -> word 32 n -> names_ok (parse_names (Z.to_nat n) namearr) ->
  inoq fs + n + 1 < 2 ^ 64 ->
  let id := DirId_of_LookupStat parent in
  let stat := file_stat (mydno (fs_options fs)) 0 who mode in
  ∃ s m fs', Mkfls ndebug who parent namearr mode n now fs = Some (s, m, fs') ∧ fs_ok fs' ∧
    fs_options fs' = fs_options fs ∧ readonly_dbs fs' = readonly_dbs fs ∧
    match refusal IsDirWriteOk (Err kAccessDenied "No write perm") (fs_options fs) parent who now with
    | Some r => s = r ∧ m = n ∧ db_ fs' = db_ fs ∧ inoq fs' = inoq fs + n
    | None => batch id (u64 (inoq fs + 1)) stat (parse_names (Z.to_nat n) namearr) 0 fs s m fs' ∧
        0 <= m <= n ∧ inoq fs' = inoq fs + (if ok s then n else m)
    end.
Proof.
  intros Hok Hroom Edb Hm Hu Hfit Hn Hnames Hq id stat. unfold Mkfls. fold id.
  destruct (with_dir id fs Hok Hroom Hfit) as (p & fs1 & d & -> & Hok1 & (Ei & Eo & Edb1 & Er) & Ed & Eid & Hrel).
  cbn [mbind option_bind]. set (fs1' := set_inoq (u64 (inoq fs1 + n)) fs1).
  pose proof (ok_inoq _ Hok) as [Hq0 _]. pose proof Hn as [Hn0 Hn1].
  assert (inoq fs1' = inoq fs + n) as Eq1 by (cbn; rewrite Ei; apply wrap_small; split; lia).
  rewrite Eq1, Eo. fold stat. assert (u64 (inoq fs + n - n + 1) = u64 (inoq fs + 1)) as -> by (f_equal; lia).
  destruct Hok1 as [_ Hopt1 Hdirs1 Hdbs1 _].
  assert (Stat_wf stat) as Hs by (apply file_stat_wf; [done | split; cbn; lia | done]).
  destruct (Mknos1_spec ndebug who id namearr (u64 (inoq fs + 1)) parent p d stat n stats0 now fs1' db)
    as (s & m & fs2 & -> & Hop & Hdbs2 & Hmn & Hout); try done; [by eapply Hdirs1 | cbn; congruence |].
  cbn [mbind option_bind]. destruct (op_changed_release p d fs1' fs2 Ed Hop) as (d2 & Eid2 & Eh2 & Hd2 & Hc2).
  destruct Hop as (Fi & Fo & Fr & _). rewrite Eq1 in Fi.
  set (fs2' := if negb (ok s) then _ else fs2).
  assert (∃ q, fs2' = set_inoq q fs2 /\ q = if ok s then inoq fs + n else inoq fs + m) as (q & E2 & Eq).
  { unfold fs2', TryReuseIno. rewrite Fi, Z.eqb_refl. destruct (ok s) eqn:Eok; cbn [negb].
    - exists (inoq fs2). rewrite Fi. split; [| done]. destruct fs2; cbn in *. by subst.
    - eexists. split; [done |].
      assert (u64 (inoq fs + 1) = inoq fs + 1) as -> by (apply wrap_small; split; lia).
      assert (u64 (inoq fs + n - (inoq fs + 1) + 1) = n) as ->
        by (replace (inoq fs + n - (inoq fs + 1) + 1) with n by lia; apply wrap_small; split; lia).
      assert (u64 (n - m) = n - m) as -> by (apply wrap_small; split; lia).
      replace (inoq fs + n - (n - m)) with (inoq fs + m) by lia. apply wrap_small. split; lia. }
  destruct (Hrel fs2' d2) as (fs3 & -> & Hok3 & (Gi & Go & Gdb & Gr)); try done.
  { rewrite E2. cbn. rewrite Fo. done. }
  { rewrite E2. cbn. rewrite Eq. destruct (ok s); split; lia. }
  { rewrite E2. exact Hdbs2. }
  { rewrite E2. exact Hc2. }
  cbn [mbind option_bind]. exists s, m, fs3. split_and!; try done.
  - rewrite Go, E2. cbn. rewrite Fo. exact Eo.
  - rewrite Gr, E2. cbn. rewrite Fr. exact Er.
  - change (fs_options fs1') with (fs_options fs1) in Hout. rewrite Eo in Hout.
    destruct (refusal _ _ _ _ _ _) as [r |] eqn:Eref.
    + destruct Hout as (-> & -> & Hdb). split_and!; [done | done | |].
      * rewrite Gdb, E2. cbn. rewrite Hdb. exact Edb1.
      * rewrite Gi, E2. cbn. rewrite Eq. by destruct (ok r).
    + split_and!; [| lia | lia |].
      * eapply batch_db; [exact Hout | by cbn; symmetry | by cbn; symmetry | by cbn; symmetry |].
        rewrite Gdb, E2. done.
      * rewrite Gi, E2. cbn. rewrite Eq. by destruct (ok s).
Qed.

(** C1. [Mkfle] and [Mkdir] of a server at rest always return.  They refuse exactly when the lease has
    expired, the user lacks the write permission or the name belongs to another server, and then
    change neither the database nor the next inode number.  Otherwise the outcome is that of one
    atomic test-and-insert: OK only if the name was absent (or collision checks are off), with exactly
    that entry added and the inode number [inoq + 1] consumed; [AlreadyExists] with nothing changed if it
    was present; or a database error, after which the inode number is given back. *)
Theorem Mkfle_Mkdir_spec mk who parent name mode now fs db :
  mk = file_stat \/ mk = dir_stat -> User_wf who ->
  fs_ok fs -> room fs -> db_ fs = Some db -> word 64 (mydno (fs_options fs)) ->
  DirId_fits (DirId_of_LookupStat parent) -> word 32 (|[name]|) ->
  let id := DirId_of_LookupStat parent in
  let stat := mk (mydno (fs_options fs)) (u64 (inoq fs + 1)) who mode in
  ∃ s fs', Mknod ndebug mk who parent name mode now fs = Some (s, Some stat, fs') ∧ fs_ok fs' ∧
    inoq fs' = (if ok s then u64 (inoq fs + 1) else inoq fs) ∧
    match mknod_refusal (fs_options fs) parent who id name now with
    | Some r => s = r ∧ db_ fs' = db_ fs
    | None => put_outcome (skip_name_collision_checks (fs_options fs)) fs fs' id name stat s
    end.
Proof.
  intros Hmk Hu Hok Hroom Edb Hm Hfit Hn id stat.
  destruct (Mknod_spec mk who parent name mode now fs db) as (s & fs' & E & Hok' & _ & _ & Hi & Ho); try done.
  { intros m i ? ?. destruct Hmk as [-> | ->]; [by apply file_stat_wf | by apply dir_stat_wf]. }
  by exists s, fs'.
Qed.

(** C3. [Lokup] changes nothing but cached control blocks, and its result is determined by the entry
    visible through the server's databases, its own first: a directory yields its stat with a lease that
    never expires, a file [DirExpected], an absent name [NotFound], and any other status comes from a
    failed database read or from a refused check (lease, search permission, wrong server). *)
Theorem Lokup_result who parent name stat now fs :
  fs_ok fs -> room fs -> all_dbs fs <> [] -> DirId_fits (DirId_of_LookupStat parent) ->
  let id := DirId_of_LookupStat parent in
  ∃ s l fs', Lokup ndebug who parent name stat now fs = Some (s, l, fs') ∧ fs_ok fs' ∧ same_data fs fs' ∧
    match lstat_refusal (fs_options fs) parent who id name now with
    | Some r => s = r
    | None =>
        (ok s = false ∧ read_failed fs id name) ∨
        match visible fs id name with
        | None => s = MkStatus kNotFound [] []
        | Some st => if S_ISDIR (FileMode st) then s = OK ∧ l = lookup_result st
                     else s = Err kDirExpected "Not a dir"
        end
    end.
Proof.
  intros Hok Hroom Hne Hfit id.
  destruct (Lokup_spec who parent name stat now fs Hok Hroom Hne Hfit) as (s & l & fs' & E & [Hok' Hsd] & Ho).
  exists s, l, fs'. split_and!; [done | done | done |]. fold id in Ho.
  destruct (lstat_refusal _ _ _ _ _ _); [done |]. destruct Ho as (s0 & st0 & Hr & Hs).
  destruct Hr as [(-> & -> & Hv) | [(-> & Hv) | (Hf & _ & Hrf)]].
  - right. destruct (visible fs id name); [exact Hs | done].
  - right. rewrite Hv. by destruct st0.
  - left. rewrite Hf in Hs. destruct st0; by subst.
Qed.

(** C2. Read your writes: after a [Mkfle] or [Mkdir] that returned OK, an [Lstat] of the name by any
    user with a valid lease and the search permission returns OK with exactly the stat reported by the creation
    (unless a database read fails), and a second creation of the name is never OK while
    collision checks are on. *)
Theorem create_then_read mk mk2 who who2 who3 parent parent2 name mode mode2 now now2 fs db stat fs' :
  mk = file_stat \/ mk = dir_stat -> mk2 = file_stat \/ mk2 = dir_stat -> User_wf who -> User_wf who3 ->
  fs_ok fs -> room fs -> room fs' -> db_ fs = Some db -> word 64 (mydno (fs_options fs)) ->
  DirId_fits (DirId_of_LookupStat parent) -> word 32 (|[name]|) ->
  DirId_of_LookupStat parent2 = DirId_of_LookupStat parent ->
  refusal IsLookupOk (Err kAccessDenied "No dir x perm") (fs_options fs) parent2 who2 now2 = None ->
  Mknod ndebug mk who parent name mode now fs = Some (OK, Some stat, fs') ->
  (∃ s st fs2, Lstat ndebug who2 parent2 name now2 fs' = Some (s, st, fs2) ∧
     ((s = OK ∧ st = Some stat) ∨ (ok s = false ∧ read_failed fs' (DirId_of_LookupStat parent) name))) ∧
  (skip_name_collision_checks (fs_options fs) = false ->
   ∃ s st fs3, Mknod ndebug mk2 who3 parent2 name mode2 now2 fs' = Some (s, st, fs3) ∧ ok s = false).
Proof.
  intros Hmk Hmk2 Hu Hu3 Hok Hroom Hroom' Edb Hm Hfit Hn Hid Href Ecreate.
  set (id := DirId_of_LookupStat parent) in *.
  assert (∀ m i, word 64 m -> word 64 i -> Stat_wf (mk m i who mode)) as Hmkwf
    by (intros m i ? ?; destruct Hmk as [-> | ->]; [by apply file_stat_wf | by apply dir_stat_wf]).
  destruct (Mknod_spec mk who parent name mode now fs db Hmkwf Hok Hroom Edb Hm Hfit Hn)
    as (s0 & fs0 & E & Hok' & Eo & Er & _ & Hout).
  rewrite Ecreate in E. injection E as <- Estat <-. rewrite <- Estat in Hout. fold id in Hout.
  destruct (mknod_refusal (fs_options fs) parent who id name now) as [r |] eqn:Eref.
  { destruct Hout as [<- _]. unfold mknod_refusal, refusal, misplaced, or_else in Eref. repeat case_match; by simplify_eq. }
  assert (misplaced (fs_options fs) id name = None) as Hmis.
  { unfold mknod_refusal, or_else in Eref. by case_match. }
  assert (own fs' id name = Some stat) as Hown.
  { inversion Hout as [Hv Hw | | s1 ? Hf | s1 ? Hf]; subst; try by apply bool_decide_eq_false in Hf.
    specialize (Hw id name Hfit). by rewrite decide_True in Hw. }
  assert (visible fs' id name = Some stat ∧ all_dbs fs' <> []) as [Hvis Hne].
  { unfold own in Hown. unfold visible, all_dbs. destruct (db_ fs') as [db' |]; [| done].
    cbn in Hown |- *. by rewrite Hown. }
  split.
  - destruct (Lstat_spec who2 parent2 name now2 fs' Hok' Hroom' Hne) as (s & st & fs2 & E2 & _ & Ho); [by rewrite Hid |].
    exists s, st, fs2. split; [done |]. rewrite Hid in Ho. fold id in Ho.
    unfold lstat_refusal in Ho. rewrite Eo, Href, Hmis in Ho. cbn [or_else] in Ho.
    destruct Ho as [(-> & -> & _) | [(_ & Hv) | (? & _ & ?)]]; [by left | congruence | by right].
  - intros Hskip.
    assert (∃ db', db_ fs' = Some db') as [db' Edb'].
    { unfold own in Hown. destruct (db_ fs') as [db' |]; [by eexists | done]. }
    assert (∀ m i, word 64 m -> word 64 i -> Stat_wf (mk2 m i who3 mode2)) as Hmk2wf
      by (intros m i ? ?; destruct Hmk2 as [-> | ->]; [by apply file_stat_wf | by apply dir_stat_wf]).
    destruct (Mknod_spec mk2 who3 parent2 name mode2 now2 fs' db' Hmk2wf Hok' Hroom' Edb')
      as (s & fs3 & E3 & _ & _ & _ & _ & Ho3); [by rewrite Eo | by rewrite Hid | done |].
    eexists s, _, fs3. split; [done |]. rewrite Eo, Hid, Hskip in Ho3. fold id in Ho3.
    destruct (mknod_refusal (fs_options fs) parent2 who3 id name now2) as [r |] eqn:Eref3.
    + destruct Ho3 as [-> _]. unfold mknod_refusal, refusal, misplaced, or_else in Eref3. repeat case_match; by simplify_eq.
    + inversion Ho3 as [Hv | | |]; subst; [| done..]. specialize (Hv eq_refl). congruence.
Qed.

(** C7. [Mkfls] creates the names of a batch one after the other with consecutive fresh inode
    numbers, stops at the first name that fails, and reports in [n] how many were created; the unused inode
    numbers of a failed batch are given back.  But a batch that is refused before it starts (expired lease
    or no write permission) creates nothing, and still reports all [n] names as created and keeps their inode
    numbers. *)
Theorem Mkfls_batch who parent namearr mode n now fs db :
  fs_ok fs -> room fs -> db_ fs = Some db -> word 64 (mydno (fs_options fs)) -> User_wf who ->
  DirId_fits (DirId_of_LookupStat parent) -> word 32 n -> names_ok (parse_names (Z.to_nat n) namearr) ->
  inoq fs + n + 1 < 2 ^ 64 ->
  let id := DirId_of_LookupStat parent in
  let stat := file_stat (mydno (fs_options fs)) 0 who mode in
  ∃ s m fs', Mkfls ndebug who parent namearr mode n now fs = Some (s, m, fs') ∧ fs_ok fs' ∧
    match refusal IsDirWriteOk (Err kAccessDenied "No write perm") (fs_options fs) parent who now with
    | Some r => s = r ∧ m = n ∧ db_ fs' = db_ fs ∧ inoq fs' = inoq fs + n
    | None => batch id (u64 (inoq fs + 1)) stat (parse_names (Z.to_nat n) namearr) 0 fs s m fs' ∧
        0 <= m <= n ∧ inoq fs' = inoq fs + (if ok s then n else m)
    end.
Proof.
  intros Hok Hroom Edb Hm Hu Hfit Hn Hnames Hq id stat.
  destruct (Mkfls_spec who parent namearr mode n now fs db Hok Hroom Edb Hm Hu Hfit Hn Hnames Hq)
    as (s & m & fs' & E & Hok' & _ & _ & Ho). by exists s, m, fs'.
Qed.

(** C11. One control block per directory: in a well-formed server two control blocks in memory are never of
    the same directory; [AcquireDir] never fails an assertion, returns the control block that exists
    even when the cache evicted its handle, and otherwise creates one, and the server stays well formed. *)
Theorem AcquireDir_unique id fs :
  fs_wf fs -> room fs -> DirId_wf id ->
  (∀ p q d d', dir_heap fs !! p = Some d -> dir_heap fs !! q = Some d' -> d_id d = d_id d' -> p = q) ∧
  ∃ p fs' d, AcquireDir ndebug id fs = Some (p, fs') ∧ fs_wf fs' ∧ same_data fs fs' ∧
    dir_heap fs' !! p = Some d ∧ d_id d = id ∧
    (∀ q d0, dir_heap fs !! q = Some d0 -> d_id d0 = id -> q = p ∧ d = d0).
Proof.
  intros Hwf Hroom Hid. split.
  - intros p q d d' Ep Eq Eid. apply (wf_key_inj LRUHash (dirs fs)); [apply Hwf | | |].
    + apply (fw_index _ _ Hwf). by eexists.
    + apply (fw_index _ _ Hwf). by eexists.
    + destruct (fw_dir _ _ Hwf _ _ Ep) as (Hk & _). destruct (fw_dir _ _ Hwf _ _ Eq) as (Hk' & _).
      change (p_key p = p_key q). by rewrite Hk, Hk', Eid.
  - destruct (AcquireDir_spec ndebug id fs Hwf Hroom Hid) as (p & fs' & E & Hacq & Hq).
    destruct Hacq as (Hwf' & Hs & (d & n & (Ed & _) & _ & Eid & Hdef) & _).
    exists p, fs', d. split_and!; try done. intros q d0 Eq Eid0. pose proof (Hq q d0 Eq Eid0) as ->.
    split; [done |]. by rewrite Eq in Hdef.
Qed.
End Props.

(** ** Witnesses: a server with one empty database *)
#[local] Instance MemDb_bulk : BulkStore MemDb := {| dx_AddL0Tables d _ := (OK, d) |}.
Definition ex_fs : FS MemDb := SetDb (Some (∅ : MemDb)) (NewFilesystem default_FilesystemOptions).
Definition ex_root : LookupStat := MkLookupStat 0 0 (2 ^ 64 - 1) (Z.lor S_IFDIR 511) 0 1 1.
Definition ex_user : User := MkUser 1 1.

Lemma ex_fs_ok : fs_ok false ex_fs.
Proof.
  split.
  - destruct (NewFilesystem_wf (DX := MemDb) default_FilesystemOptions) as [? ? ? ? ? ?]; [by_compute | by split].
  - exists 0. split_and!; reflexivity || by_compute.
  - intros p d. cbn. by rewrite lookup_empty.
  - constructor; [| constructor]. intros k v Hk. change ((∅ : MemDb) !! k = Some v) in Hk. by rewrite lookup_empty in Hk.
  - by_compute.
Qed.

Lemma room_check (fs : FS MemDb) :
  elems_ (dirs fs) < 2 ^ 31 /\ elems_ (table_ (dlru fs)) < 2 ^ 31 /\ capacity_ (dlru fs) + 1 < 2 ^ 64 ->
  map_Forall (λ _ x, refs x + 1 < 2 ^ 32) (heap (dlru fs)) -> room fs.
Proof. intros (? & ? & ?) Hh. by split_and!. Qed.

Lemma ex_fs_room : room ex_fs.
Proof. apply room_check; by_compute. Qed.

(** Discharges the hypotheses of a property on [ex_fs]. *)
Ltac on_ex_fs :=
  lazymatch goal with
  | |- ex _ => fail
  | |- fs_ok _ _ => exact ex_fs_ok
  | |- fs_wf _ => apply ex_fs_ok
  | |- room _ => apply room_check; by_compute
  | |- _ = _ \/ _ => first [left; reflexivity | right; reflexivity]
  | |- _ = _ => vm_compute; reflexivity
  | |- _ <> _ => discriminate
  | |- _ => by_compute
  end.

Lemma Mkfle_Mkdir_spec_witness :
  ∃ fs', Mknod false file_stat ex_user ex_root (lit "a") 420 1 ex_fs
           = Some (OK, Some (file_stat 0 1 ex_user 420), fs') /\ fs_ok false fs' /\ inoq fs' = 1.
Proof.
  destruct (Mkfle_Mkdir_spec false file_stat ex_user ex_root (lit "a") 420 1 ex_fs ∅)
    as (s & fs' & E & Hok & Hi & _); try on_ex_fs.
  - pose proof (f_equal (λ r, (λ x, x.1.1) <$> r) E) as Es. vm_compute in Es. injection Es as <-.
    exists fs'. exact (conj E (conj Hok Hi)).
Defined.

Lemma Lokup_result_witness :
  ∃ l fs', Lokup false ex_user ex_root (lit "a") ex_root 1 ex_fs = Some (MkStatus kNotFound [] [], l, fs') /\ fs_ok false fs'.
Proof.
  destruct (Lokup_result false ex_user ex_root (lit "a") ex_root 1 ex_fs) as (s & l & fs' & E & Hok & _); try on_ex_fs.
  - pose proof (f_equal (λ r, (λ x, x.1.1) <$> r) E) as Es. vm_compute in Es. injection Es as <-.
    exists l, fs'. exact (conj E Hok).
Defined.

Definition ex_created : FS MemDb :=
  match Mknod false dir_stat ex_user ex_root (lit "d") 493 1 ex_fs with Some (_, _, fs) => fs | None => ex_fs end.

Lemma create_then_read_witness :
  ∃ s st fs', Mknod false file_stat ex_user ex_root (lit "d") 420 3 ex_created = Some (s, st, fs') /\ ok s = false.
Proof.
  destruct (create_then_read false dir_stat file_stat ex_user ex_user ex_user ex_root ex_root (lit "d") 493 420
              1 2 ex_fs ∅ (dir_stat 0 1 ex_user 493) ex_created) as [_ H]; try on_ex_fs.
  - exact (H eq_refl).
Defined.

Lemma Mkfls_batch_witness :
  ∃ fs', Mkfls false ex_user ex_root [1; 97; 1; 98] 420 2 1 ex_fs = Some (OK, 2, fs') /\ inoq fs' = 2.
Proof.
  destruct (Mkfls_batch false ex_user ex_root [1; 97; 1; 98] 420 2 1 ex_fs ∅) as (s & m & fs' & E & _ & Ho); try on_ex_fs.
  - pose proof (f_equal (λ r, (λ x, x.1) <$> r) E) as Es. vm_compute in Es. injection Es as <- <-.
    exists fs'. split; [exact E | exact (proj2 (proj2 Ho))].
Defined.

Lemma AcquireDir_unique_witness :
  ∃ p fs', AcquireDir false (MkDirId 0 0) ex_fs = Some (p, fs') /\ fs_wf fs'.
Proof.
  destruct (AcquireDir_unique false (MkDirId 0 0) ex_fs) as (_ & p & fs' & d & E & Hwf & _).
  all: try on_ex_fs.
  exists p, fs'. exact (conj E Hwf).
Defined.
