(* ===== verification/FsCom.v ===== *)
(** * Remote calls: marshalling and stubs ([fscom.h], [fscom.cc], [fsapi.h], [fsapi.cc])

    [FilesystemIf] is the interface of a metadata server.  Each operation has a handler
    ([LokupOperation], ...) that decodes a request, runs the operation and encodes the
    reply, and a client stub ([LokupCli], ...) that builds the request in the 200-byte
    buffer of a message and decodes the reply.  [None] is a read of memory that was not
    written, a write past the buffer, or a failed assertion. *)
From S2P Require Import Prelude Status Coding FsTypes.

(** [fsapi.h]: an output argument that a call leaves alone is [None]. *)
Class FilesystemIf (F : Type) := {
  if_Bukin : User -> LookupStat -> Slice -> F -> option (Status * F);
  if_Mkfls : User -> LookupStat -> Slice -> Z -> Z -> F -> option (Status * Z * F);
  if_Mkfle : User -> LookupStat -> Slice -> Z -> F -> option (Status * option Stat * F);
  if_Mkdir : User -> LookupStat -> Slice -> Z -> F -> option (Status * option Stat * F);
  if_Lokup : User -> LookupStat -> Slice -> F -> option (Status * option LookupStat * F);
  if_Lstat : User -> LookupStat -> Slice -> F -> option (Status * option Stat * F)
}.

(** [FilesystemWrapper]: every operation is refused. *)
Inductive FilesystemWrapper := MkFilesystemWrapper.
#[global] Instance FilesystemWrapper_If : FilesystemIf FilesystemWrapper := {
  if_Bukin _ _ _ w := Some (MkStatus kNotSupported [] [], w);
  if_Mkfls _ _ _ _ n w := Some (MkStatus kNotSupported [] [], n, w);
  if_Mkfle _ _ _ _ w := Some (MkStatus kNotSupported [] [], None, w);
  if_Mkdir _ _ _ _ w := Some (MkStatus kNotSupported [] [], None, w);
  if_Lokup _ _ _ w := Some (MkStatus kNotSupported [] [], None, w);
  if_Lstat _ _ _ w := Some (MkStatus kNotSupported [] [], None, w)
}.

Inductive Op := kLokup | kMkdir | kMkfle | kMkfls | kBukin | kLstat.
Definition Op_num (op : Op) : Z :=
  match op with kLokup => 0 | kMkdir => 1 | kMkfle => 2 | kMkfls => 3 | kBukin => 4 | kLstat => 5 end.
Definition kNumOps : nat := 6.

(** ** Structures in messages *)
Definition EncodeLookupStat (stat : LookupStat) : Slice :=
  EncodeFixed64 (DirDnodeNo stat) ++ EncodeFixed64 (DirInodeNo stat) ++ EncodeFixed64 (LeaseDue stat) ++
  EncodeFixed32 (DirZerothServer stat) ++ EncodeFixed32 (DirMode stat) ++
  EncodeFixed32 (DirUserId stat) ++ EncodeFixed32 (DirGroupId stat).
Definition EncodeStat (stat : Stat) : Slice :=
  EncodeFixed64 (DnodeNo stat) ++ EncodeFixed64 (InodeNo stat) ++ EncodeFixed32 (FileMode stat) ++
  EncodeFixed32 (UserId stat) ++ EncodeFixed32 (GroupId stat).
Definition EncodeUser (u : User) : Slice := EncodeFixed32 (uid u) ++ EncodeFixed32 (gid u).
Definition PutLookupStat (dst : Slice) (stat : LookupStat) : Slice :=
  let dst := PutFixed64 dst (DirDnodeNo stat) in
  let dst := PutFixed64 dst (DirInodeNo stat) in
  let dst := PutFixed64 dst (LeaseDue stat) in
  let dst := PutFixed32 dst (DirZerothServer stat) in
  let dst := PutFixed32 dst (DirMode stat) in
  let dst := PutFixed32 dst (DirUserId stat) in
  PutFixed32 dst (DirGroupId stat).
Definition PutUser (dst : Slice) (u : User) : Slice := PutFixed32 (PutFixed32 dst (uid u)) (gid u).

Definition GetLookupStat (input : Slice) : option (LookupStat * Slice) :=
  if |[input]| <? 40 then None
  else
    dno ← DecodeFixed64 input; ino ← DecodeFixed64 (drop 8 input); due ← DecodeFixed64 (drop 16 input);
    zsrv ← DecodeFixed32 (drop 24 input); mode ← DecodeFixed32 (drop 28 input);
    u ← DecodeFixed32 (drop 32 input); g ← DecodeFixed32 (drop 36 input);
    Some (MkLookupStat dno ino due mode zsrv u g, drop 40 input).

(** [GetStat] sets five fields of [stat]. *)
Definition GetStat (stat : Stat) (input : Slice) : option (Stat * Slice) :=
  if |[input]| <? 28 then None
  else
    dno ← DecodeFixed64 input; ino ← DecodeFixed64 (drop 8 input);
    mode ← DecodeFixed32 (drop 16 input);
    u ← DecodeFixed32 (drop 20 input); g ← DecodeFixed32 (drop 24 input);
    Some (MkStat dno ino (FileSize stat) (ModifyTime stat) (ChangeTime stat) mode (ZerothServer stat) u g,
          drop 28 input).
Definition GetUser (input : Slice) : option (User * Slice) :=
  if |[input]| <? 8 then None
  else u ← DecodeFixed32 input; g ← DecodeFixed32 (drop 4 input); Some (MkUser u g, drop 8 input).
Definition GetFixed32 (input : Slice) : option (Z * Slice) :=
  if |[input]| <? 4 then None else v ← DecodeFixed32 input; Some (v, drop 4 input).

(** The start of every request: operation, parent, a string and the user. *)
Definition GetRequest (input : Slice) : option (LookupStat * Slice * User * Slice) :=
  '(op, input) ← GetFixed32 input;
  '(pa, input) ← GetLookupStat input;
  '(name, input) ← GetLengthPrefixedSlice input;
  '(me, input) ← GetUser input;
  Some (pa, name, me, input).

Section Operations.
Context {F : Type} `{FilesystemIf F}.

(** A reply without a body, and a reply whose body is sent when the status is OK. *)
Definition bad_input (fs : F) : option (Status * Slice * F) :=
  Some (Err kInvalidArgument "Bad rpc input data", [], fs).
Definition reply {A} (encode : A -> Slice) (ss : Status) (body : option A) (fs : F)
    : option (Status * Slice * F) :=
  if ok ss then b ← body; Some (OK, EncodeFixed32 (err_code ss) ++ encode b, fs)
  else Some (OK, EncodeFixed32 (err_code ss), fs).

(** ** Handlers *)
Definition LokupOperation (input : Slice) (fs : F) : option (Status * Slice * F) :=
  match GetRequest input with
  | None => bad_input fs
  | Some (pa, name, me, _) =>
      '(ss, stat, fs) ← if_Lokup me pa name fs; reply EncodeLookupStat ss stat fs
  end.
Definition LstatOperation (input : Slice) (fs : F) : option (Status * Slice * F) :=
  match GetRequest input with
  | None => bad_input fs
  | Some (pa, name, me, _) =>
      '(ss, stat, fs) ← if_Lstat me pa name fs; reply EncodeStat ss stat fs
  end.
Definition MkdirOperation (input : Slice) (fs : F) : option (Status * Slice * F) :=
  match ('(pa, name, me, input) ← GetRequest input; '(mode, _) ← GetFixed32 input; Some (pa, name, me, mode)) with
  | None => bad_input fs
  | Some (pa, name, me, mode) =>
      '(ss, stat, fs) ← if_Mkdir me pa name mode fs; reply EncodeStat ss stat fs
  end.
Definition MkfleOperation (input : Slice) (fs : F) : option (Status * Slice * F) :=
  match ('(pa, name, me, input) ← GetRequest input; '(mode, _) ← GetFixed32 input; Some (pa, name, me, mode)) with
  | None => bad_input fs
  | Some (pa, name, me, mode) =>
      '(ss, stat, fs) ← if_Mkfle me pa name mode fs; reply EncodeStat ss stat fs
  end.
Definition MkflsOperation (input : Slice) (fs : F) : option (Status * Slice * F) :=
  match ('(pa, namearr, me, input) ← GetRequest input; '(n, input) ← GetFixed32 input;
         '(mode, _) ← GetFixed32 input; Some (pa, namearr, me, n, mode)) with
  | None => bad_input fs
  | Some (pa, namearr, me, n, mode) =>
      '(ss, n, fs) ← if_Mkfls me pa namearr mode n fs; reply EncodeFixed32 ss (Some n) fs
  end.
Definition BukinOperation (input : Slice) (fs : F) : option (Status * Slice * F) :=
  match GetRequest input with
  | None => bad_input fs
  | Some (pa, dir, me, _) =>
      '(ss, fs) ← if_Bukin me pa dir fs; reply (λ _ : unit, []) ss (Some tt) fs
  end.
End Operations.

(** ** Client stubs *)
Section Stubs.
Context {F : Type}.
(** [rpc_->Call]. *)
Variable call : Slice -> F -> option (Status * Slice * F).

(** The bytes written at [in.buf]; more than its 200 bytes overflow the message. *)
Definition kBufSize : Z := 200.
Definition small_message (p : Slice) : option Slice := if |[p]| <=? kBufSize then Some p else None.
Definition request (op : Op) (parent : LookupStat) (name : Slice) (me : User) : Slice :=
  EncodeFixed32 (Op_num op) ++ EncodeLookupStat parent ++ EncodeLengthPrefixedSlice name ++ EncodeUser me.

(** Sending a request and decoding the reply; [ret] is what the caller passed. *)
Definition CallAndDecode {A} (input : Slice) (decode : Slice -> option A) (ret : A) (fs : F)
    : option (Status * A * F) :=
  '(s, out, fs) ← call input fs;
  if negb (ok s) then Some (s, ret, fs)
  else
    match GetFixed32 out with
    | None => Some (Err kCorruption "Bad rpc reply header", ret, fs)
    | Some (rv, input) =>
        if negb (rv =? 0) then s ← FromCode rv; Some (s, ret, fs)
        else
          match decode input with
          | None => Some (Err kCorruption "Bad rpc reply", ret, fs)
          | Some r => Some (s, r, fs)
          end
    end.

Definition LokupCli (parent : LookupStat) (name : Slice) (me : User) (ret : LookupStat) (fs : F)
    : option (Status * LookupStat * F) :=
  input ← small_message (request kLokup parent name me);
  CallAndDecode input (λ i, fst <$> GetLookupStat i) ret fs.
Definition LstatCli (parent : LookupStat) (name : Slice) (me : User) (ret : Stat) (fs : F)
    : option (Status * Stat * F) :=
  input ← small_message (request kLstat parent name me);
  CallAndDecode input (λ i, fst <$> GetStat ret i) ret fs.
Definition MkdirCli (parent : LookupStat) (name : Slice) (mode : Z) (me : User) (ret : Stat) (fs : F)
    : option (Status * Stat * F) :=
  input ← small_message (request kMkdir parent name me ++ EncodeFixed32 mode);
  CallAndDecode input (λ i, fst <$> GetStat ret i) ret fs.
Definition MkfleCli (parent : LookupStat) (name : Slice) (mode : Z) (me : User) (ret : Stat) (fs : F)
    : option (Status * Stat * F) :=
  input ← small_message (request kMkfle parent name me ++ EncodeFixed32 mode);
  CallAndDecode input (λ i, fst <$> GetStat ret i) ret fs.
(** [MkflsCli] builds its request in [in.extra_buf]. *)
Definition MkflsCli (parent : LookupStat) (namearr : Slice) (n mode : Z) (me : User) (ret : Z) (fs : F)
    : option (Status * Z * F) :=
  let buf := PutFixed32 [] (Op_num kMkfls) in
  let buf := PutLookupStat buf parent in
  let buf := PutLengthPrefixedSlice buf namearr in
  let buf := PutUser buf me in
  let buf := PutFixed32 buf n in
  let buf := PutFixed32 buf mode in
  CallAndDecode buf (λ i, fst <$> GetFixed32 i) ret fs.
Definition BukinCli (parent : LookupStat) (dir : Slice) (me : User) (fs : F)
    : option (Status * F) :=
  input ← small_message (request kBukin parent dir me);
  '(s, _, fs) ← CallAndDecode input (λ _, Some tt) tt fs;
  Some (s, fs).
End Stubs.

(** * Request dispatch ([fssvr.h], [fssvr.cc], [fsis.h], [fsis.cc])

    A server routes a request to the handler that its table [hmap_] has for the operation
    code; the information server answers with stored strings.  The embedded rpc transport is
    the caller of [Call]. *)

Definition RequestHandler (F : Type) : Type := Slice -> F -> option (Status * Slice * F).

(** [fs_] and the entries of [hmap_] are pointers: [None] is NULL. *)
Record FilesystemServer (F : Type) := MkFilesystemServer {
  fs_ : option F;
  hmap_ : list (option (RequestHandler F))
}.
Arguments MkFilesystemServer {F}. Arguments fs_ {F}. Arguments hmap_ {F}.

Section Server.
Context {F : Type} `{FilesystemIf F}.

Definition NewFilesystemServer : FilesystemServer F :=
  let hmap := replicate kNumOps None in
  let hmap := <[Z.to_nat (Op_num kLokup) := Some LokupOperation]> hmap in
  let hmap := <[Z.to_nat (Op_num kMkdir) := Some MkdirOperation]> hmap in
  let hmap := <[Z.to_nat (Op_num kMkfle) := Some MkfleOperation]> hmap in
  let hmap := <[Z.to_nat (Op_num kMkfls) := Some MkflsOperation]> hmap in
  let hmap := <[Z.to_nat (Op_num kBukin) := Some BukinOperation]> hmap in
  let hmap := <[Z.to_nat (Op_num kLstat) := Some LstatOperation]> hmap in
  MkFilesystemServer None hmap.
Definition SetFs (fs : F) (svr : FilesystemServer F) : FilesystemServer F :=
  MkFilesystemServer (Some fs) (hmap_ svr).
(** [TEST_Remap]: an index outside the table is out of bounds. *)
Definition TEST_Remap (i : nat) (h : RequestHandler F) (svr : FilesystemServer F) : option (FilesystemServer F) :=
  _ ← hmap_ svr !! i; Some (MkFilesystemServer (fs_ svr) (<[i := Some h]> (hmap_ svr))).

(** [FilesystemServer::Call]: the operation code is not checked against the table. *)
Definition Call (input : Slice) (svr : FilesystemServer F)
    : option (Status * Slice * FilesystemServer F) :=
  if 4 <=? |[input]| then
    op ← DecodeFixed32 input;
    h ← hmap_ svr !! Z.to_nat op; h ← h; fs ← fs_ svr;
    '(s, out, fs) ← h input fs;
    Some (s, out, SetFs fs svr)
  else Some (Err kInvalidArgument "Bad rpc req", [], svr).
End Server.

(** [FilesystemInfoServer]: [imap_] is keyed by [int]; looking up a missing key inserts an
    empty string. *)
Definition FilesystemInfoServer : Type := gmap Z Slice.
Definition to_int32 (v : Z) : Z := if v <? 2 ^ 31 then v else v - 2 ^ 32.
Definition SetInfo (idx : Z) (info : Slice) (svr : FilesystemInfoServer) : FilesystemInfoServer :=
  <[idx := info]> svr.
Definition Info_Call (input : Slice) (svr : FilesystemInfoServer)
    : option (Status * Slice * FilesystemInfoServer) :=
  if 4 <=? |[input]| then
    idx ← DecodeFixed32 input;
    let idx := to_int32 idx in
    let info := default [] (svr !! idx) in
    Some (OK, info, <[idx := info]> svr)
  else Some (Err kInvalidArgument "Bad req fmt", [], svr).
