(* ===== verification/FsRpc.v ===== *)
(** * Remote calls: correctness

    A call through a client stub, the dispatcher and the handler has the effect of the call
    on the server's file system, and the same result up to what a reply carries. *)
From S2P Require Import Prelude Status Coding FsTypes FsDb Mxdb MxdbProps Fs FsProps.
From S2P Require Import FsCom.

(** ** Round trips of the parts of a message *)
Ltac decode_fixed :=
  repeat first
    [ match goal with
      | |- context [drop (S (S (S (S (S (S (S (S ?n)))))))) (EncodeFixed64 ?v ++ ?x)] =>
          change (drop (S (S (S (S (S (S (S (S n)))))))) (EncodeFixed64 v ++ x)) with (drop n x)
      | |- context [drop (S (S (S (S ?n)))) (EncodeFixed32 ?v ++ ?x)] =>
          change (drop (S (S (S (S n)))) (EncodeFixed32 v ++ x)) with (drop n x)
      | |- context [drop 0 ?x] => change (drop 0 x) with x
      end
    | rewrite DecodeFixed64_wrap | rewrite DecodeFixed32_wrap | progress cbn [mbind option_bind]
    | progress unfold u64, u32 | rewrite wrap_small by done ].

Lemma size_fixed32 v x : |[EncodeFixed32 v ++ x]| = 4 + |[x]|.
Proof. by rewrite slice_size_app. Qed.
Lemma size_fixed64 v x : |[EncodeFixed64 v ++ x]| = 8 + |[x]|.
Proof. by rewrite slice_size_app. Qed.
#[export] Hint Rewrite size_fixed32 size_fixed64 : dfs.

(** A size test that an encoding passes. *)
Ltac big_enough :=
  rewrite (proj2 (Z.ltb_ge _ _)) by
    (autorewrite with dfs;
     match goal with |- context [slice_size ?x] => pose proof (slice_size_nonneg x) end; lia).

Lemma GetFixed32_encode v rest : word 32 v -> GetFixed32 (EncodeFixed32 v ++ rest) = Some (v, rest).
Proof. intros Hv. unfold GetFixed32. big_enough. by decode_fixed. Qed.

Lemma GetUser_encode u rest : User_wf u -> GetUser (EncodeUser u ++ rest) = Some (u, rest).
Proof.
  intros [Hu Hg]. unfold GetUser, EncodeUser. rewrite <- app_assoc. big_enough.
  decode_fixed. by destruct u.
Qed.

Lemma GetLookupStat_encode l rest :
  LookupStat_wf l -> GetLookupStat (EncodeLookupStat l ++ rest) = Some (l, rest).
Proof.
  intros (?&?&?&?&?&?&?). unfold GetLookupStat, EncodeLookupStat. rewrite <- !app_assoc. big_enough.
  decode_fixed. by destruct l.
Qed.

(** The fields of a stat that a reply carries. *)
Definition with_fields (st ret : Stat) : Stat :=
  MkStat (DnodeNo st) (InodeNo st) (FileSize ret) (ModifyTime ret) (ChangeTime ret) (FileMode st)
    (ZerothServer ret) (UserId st) (GroupId st).

Lemma GetStat_encode st ret rest :
  Stat_wf st -> GetStat ret (EncodeStat st ++ rest) = Some (with_fields st ret, rest).
Proof.
  intros (?&?&?&?&?&?&?&?&?). unfold GetStat, EncodeStat. rewrite <- !app_assoc. big_enough.
  by decode_fixed.
Qed.

Lemma GetRequest_encode op pa name me rest :
  LookupStat_wf pa -> User_wf me -> |[name]| < 2 ^ 32 ->
  GetRequest (request op pa name me ++ rest) = Some (pa, name, me, rest).
Proof.
  intros Hpa Hme Hn. unfold GetRequest, request. rewrite <- !app_assoc.
  rewrite GetFixed32_encode by (destruct op; split; cbn; lia). cbn [mbind option_bind].
  rewrite GetLookupStat_encode by done. cbn [mbind option_bind].
  rewrite GetLengthPrefixedSlice_encode by done. cbn [mbind option_bind].
  rewrite GetUser_encode by done. done.
Qed.

(** ** Requests and replies *)
Inductive Request :=
  | ReqLokup (name : Slice) | ReqLstat (name : Slice) | ReqMkdir (name : Slice) (mode : Z)
  | ReqMkfle (name : Slice) (mode : Z) | ReqMkfls (namearr : Slice) (n mode : Z) | ReqBukin (dir : Slice).
Inductive Reply :=
  | RepStat (st : option Stat) | RepLook (l : option LookupStat) | RepNum (n : Z) | RepNone.

(** What a request must satisfy for its stub to fit it into a message. *)
Definition fits (req : Request) : Prop :=
  match req with
  | ReqLokup name | ReqLstat name | ReqBukin name => |[name]| <= 146
  | ReqMkdir name mode | ReqMkfle name mode => |[name]| <= 142 /\ word 32 mode
  | ReqMkfls namearr n mode => |[namearr]| < 2 ^ 32 /\ word 32 n /\ word 32 mode
  end.
#[global] Instance fits_dec req : Decision (fits req).
Proof. destruct req; apply _. Defined.

Definition reply_wf (s : Status) (r : Reply) : Prop :=
  match r with
  | RepStat (Some st) => Stat_wf st
  | RepLook (Some l) => LookupStat_wf l
  | RepNum n => word 32 n
  | RepStat None | RepLook None => ok s = false
  | RepNone => True
  end.

(** The result of a remote call against that of the local one. *)
Definition agrees (s : Status) (r r' : Reply) : Prop :=
  match r, r' with
  | RepStat (Some st), RepStat (Some st') => with_fields st st' = st'
  | RepLook (Some l), RepLook (Some l') => l' = l
  | RepNum n, RepNum n' => n' = n
  | RepNone, RepNone => True
  | _, _ => False
  end.

Section Calls.
Context {F : Type} `{FilesystemIf F}.
Implicit Types (fs : F) (svr : FilesystemServer F).

(** The operation on the file system itself. *)
Definition direct (me : User) (pa : LookupStat) (req : Request) fs : option (Status * Reply * F) :=
  match req with
  | ReqLokup name => '(s, l, fs) ← if_Lokup me pa name fs; Some (s, RepLook l, fs)
  | ReqLstat name => '(s, st, fs) ← if_Lstat me pa name fs; Some (s, RepStat st, fs)
  | ReqMkdir name mode => '(s, st, fs) ← if_Mkdir me pa name mode fs; Some (s, RepStat st, fs)
  | ReqMkfle name mode => '(s, st, fs) ← if_Mkfle me pa name mode fs; Some (s, RepStat st, fs)
  | ReqMkfls namearr n mode => '(s, n, fs) ← if_Mkfls me pa namearr mode n fs; Some (s, RepNum n, fs)
  | ReqBukin dir => '(s, fs) ← if_Bukin me pa dir fs; Some (s, RepNone, fs)
  end.

(** The same operation through the stub and the dispatcher. *)
Definition remote (me : User) (pa : LookupStat) (req : Request) (ret : Stat) (lret : LookupStat) svr
    : option (Status * Reply * FilesystemServer F) :=
  match req with
  | ReqLokup name => '(s, l, svr) ← LokupCli Call pa name me lret svr; Some (s, RepLook (Some l), svr)
  | ReqLstat name => '(s, st, svr) ← LstatCli Call pa name me ret svr; Some (s, RepStat (Some st), svr)
  | ReqMkdir name mode => '(s, st, svr) ← MkdirCli Call pa name mode me ret svr; Some (s, RepStat (Some st), svr)
  | ReqMkfle name mode => '(s, st, svr) ← MkfleCli Call pa name mode me ret svr; Some (s, RepStat (Some st), svr)
  | ReqMkfls namearr n mode => '(s, n, svr) ← MkflsCli Call pa namearr n mode me n svr; Some (s, RepNum n, svr)
  | ReqBukin dir => '(s, svr) ← BukinCli Call pa dir me svr; Some (s, RepNone, svr)
  end.

Definition op_handler (op : Op) : RequestHandler F :=
  match op with
  | kLokup => LokupOperation | kMkdir => MkdirOperation | kMkfle => MkfleOperation
  | kMkfls => MkflsOperation | kBukin => BukinOperation | kLstat => LstatOperation
  end.
Definition server_of fs : FilesystemServer F := SetFs fs NewFilesystemServer.

(** The dispatcher runs the handler of the operation. *)
Lemma Call_dispatch op pa name me rest fs s out fs' :
  op_handler op (request op pa name me ++ rest) fs = Some (s, out, fs') ->
  Call (request op pa name me ++ rest) (server_of fs) = Some (s, out, server_of fs').
Proof.
  intros E. unfold Call. rewrite (proj2 (Z.leb_le _ _)).
  2: { unfold request. rewrite <- app_assoc, size_fixed32. match goal with |- context [slice_size ?x] => pose proof (slice_size_nonneg x) end. lia. }
  assert (DecodeFixed32 (request op pa name me ++ rest) = Some (u32 (Op_num op))) as ->
    by (unfold request; rewrite <- app_assoc; apply DecodeFixed32_wrap).
  cbn [mbind option_bind].
  assert (hmap_ (server_of fs) !! Z.to_nat (u32 (Op_num op)) = Some (Some (op_handler op))) as Hh by (by destruct op).
  unfold RequestHandler in *. rewrite Hh.
  cbn [mbind option_bind server_of SetFs fs_]. rewrite E. done.
Qed.

(** A reply decodes to the status code and the body that were encoded. *)
Lemma CallAndDecode_reply {A} (call : Slice -> FilesystemServer F -> option (Status * Slice * FilesystemServer F))
    (encode : A -> Slice) {B} (decode : Slice -> option B) (view : A -> B) input ss (body : option A) ret svr svr' fs' s out :
  status_wf ss -> code ss <> kUnknownError -> (ok ss = true -> ∃ b, body = Some b /\ decode (encode b) = Some (view b)) ->
  reply encode ss body fs' = Some (s, out, fs') -> call input svr = Some (s, out, svr') ->
  ∃ s', CallAndDecode call input decode ret svr
        = Some (s', (if ok ss then default ret (view <$> body) else ret), svr') /\ s' ≡st ss.
Proof.
  intros Hwf Hun Hb Hr Hc. unfold CallAndDecode. rewrite Hc. cbn [mbind option_bind]. unfold reply in Hr.
  pose proof (code_num_range (code ss)) as Hrange.
  assert (word 32 (err_code ss)) as Hw by (unfold err_code; split; cbn; lia).
  destruct (ok ss) eqn:Hok.
  - destruct (Hb eq_refl) as (b & -> & Hd). cbn [mbind option_bind] in Hr. apply ok_OK in Hok as ->.
    assert (s = OK /\ out = EncodeFixed32 (err_code OK) ++ encode b) as [-> ->] by (split; congruence).
    change (ok OK) with true. cbn [negb].
    rewrite GetFixed32_encode by done. cbn. rewrite Hd. by eexists.
  - assert (s = OK /\ out = EncodeFixed32 (err_code ss)) as [-> ->] by (split; congruence).
    change (ok OK) with true. cbn [negb].
    rewrite <- (app_nil_r (EncodeFixed32 _)), GetFixed32_encode by done.
    assert (code ss <> kOk) as Hne by (intros Hk; apply ok_false in Hok; by apply Hok, Hwf).
    destruct (Z.eqb_spec (err_code ss) 0) as [E |]; [by destruct (code_num_inj (code ss) kOk E) |]. cbn [negb].
    unfold err_code. rewrite FromCode_code_num by done. cbn [mbind option_bind]. by eexists.
Qed.

Lemma remote_call {A B} op pa name me rest (encode : A -> Slice) (decode : Slice -> option B) (view : A -> B)
    (ret : B) ss (body : option A) fs fs' :
  op_handler op (request op pa name me ++ rest) fs = reply encode ss body fs' ->
  status_wf ss -> code ss <> kUnknownError ->
  (ok ss = true -> ∃ b, body = Some b /\ decode (encode b) = Some (view b)) ->
  ∃ s', CallAndDecode Call (request op pa name me ++ rest) decode ret (server_of fs)
        = Some (s', (if ok ss then default ret (view <$> body) else ret), server_of fs') /\ s' ≡st ss.
Proof.
  intros Hop Hwf Hun Hb. destruct (reply encode ss body fs') as [[[s out] fs1] |] eqn:Er.
  - assert (fs1 = fs') as -> by (unfold reply in Er; destruct (ok ss), body; cbn in Er; congruence).
    eapply CallAndDecode_reply; [done | done | done | exact Er |]. by apply Call_dispatch.
  - unfold reply in Er. destruct (ok ss); [| done]. by destruct (Hb eq_refl) as (b & -> & _).
Qed.

(** The conditions of [remote_call] for a reply that carries a stat, and its conclusion. *)
Lemma stat_reply ret s st :
  reply_wf s (RepStat st) -> ok s = true ->
  ∃ b, st = Some b /\ fst <$> GetStat ret (EncodeStat b) = Some (with_fields b ret).
Proof.
  intros Hr Hok. destruct st as [st |]; cbn in Hr; [| congruence]. exists st. split; [done |].
  by rewrite <- (app_nil_r (EncodeStat _)), GetStat_encode.
Qed.
Lemma stat_agrees ret s st :
  reply_wf s (RepStat st) -> ok s = true ->
  agrees s (RepStat st) (RepStat (Some (if ok s then default ret ((λ st, with_fields st ret) <$> st) else ret))).
Proof. intros Hr Hok. rewrite Hok. by destruct st; cbn in Hr |- *; [| congruence]. Qed.

(** ** Sizes *)
Lemma size_request op pa name me :
  |[request op pa name me]| = 52 + |[EncodeLengthPrefixedSlice name]|.
Proof.
  assert (∀ v, |[EncodeFixed64 v]| = 8) as E64 by done. assert (∀ v, |[EncodeFixed32 v]| = 4) as E32 by done.
  unfold request, EncodeLookupStat, EncodeUser. rewrite !slice_size_app, !E64, !E32. lia.
Qed.

Lemma size_prefixed s :
  |[s]| < 2 ^ 14 -> |[EncodeLengthPrefixedSlice s]| = |[s]| + (if |[s]| <? 128 then 1 else 2).
Proof.
  intros Hs. unfold EncodeLengthPrefixedSlice, EncodeVarint32. pose proof (slice_size_nonneg s).
  rewrite slice_size_app. unfold u32. rewrite wrap_small by (split; lia).
  change (Z.shiftl 1 7) with 128. change (Z.shiftl 1 14) with 16384. change (2 ^ 14) with 16384 in Hs.
  destruct (|[s]| <? 128) eqn:E; [| rewrite (proj2 (Z.ltb_lt _ 16384)) by done].
  - change (|[[u8 (|[s]|)]]|) with 1. lia.
  - change (|[[u8 (Z.lor (|[s]|) B); u8 (Z.shiftr (|[s]|) 7)]]|) with 2. lia.
Qed.

Lemma EncodeLengthPrefixedSlice_long s :
  128 <= |[s]| -> |[s]| < 2 ^ 32 -> |[s]| + 2 <= |[EncodeLengthPrefixedSlice s]|.
Proof.
  intros H128 Hs. unfold EncodeLengthPrefixedSlice, EncodeVarint32. rewrite slice_size_app.
  unfold u32. rewrite wrap_small by (split; lia). change (Z.shiftl 1 7) with 128.
  rewrite (proj2 (Z.ltb_ge _ 128)) by done. unfold slice_size. repeat case_match; cbn [length]; lia.
Qed.

Lemma fits_message op pa name me rest :
  |[name]| <= 146 - |[rest]| -> small_message (request op pa name me ++ rest) = Some (request op pa name me ++ rest).
Proof.
  intros Hn. unfold small_message, kBufSize. rewrite (proj2 (Z.leb_le _ _)); [done |].
  pose proof (slice_size_nonneg rest).
  rewrite slice_size_app, size_request, size_prefixed by lia. case_match; lia.
Qed.

Lemma fits_plain op pa name me :
  |[name]| <= 146 -> small_message (request op pa name me) = Some (request op pa name me ++ []).
Proof. intros Hn. rewrite <- (app_nil_r (request op pa name me)) at 1. apply fits_message. change (|[[]]|) with 0. lia. Qed.
Lemma fits_mode op pa name me mode :
  |[name]| <= 142 ->
  small_message (request op pa name me ++ EncodeFixed32 mode) = Some (request op pa name me ++ EncodeFixed32 mode).
Proof. intros Hn. apply fits_message. change (|[EncodeFixed32 mode]|) with 4. lia. Qed.

Lemma Mkfls_request pa namearr n mode me :
  PutFixed32 (PutFixed32 (PutUser (PutLengthPrefixedSlice (PutLookupStat (PutFixed32 [] (Op_num kMkfls)) pa) namearr) me) n) mode
  = request kMkfls pa namearr me ++ EncodeFixed32 n ++ EncodeFixed32 mode.
Proof.
  rewrite PutLengthPrefixedSlice_app. unfold request, PutUser, PutLookupStat, PutFixed32, PutFixed64, EncodeLookupStat, EncodeUser.
  by rewrite <- !app_assoc.
Qed.

Lemma handler_request op pa name me rest fs :
  LookupStat_wf pa -> User_wf me -> |[name]| < 2 ^ 32 ->
  op_handler op (request op pa name me ++ rest) fs
  = match op with
    | kLokup => '(ss, st, fs) ← if_Lokup me pa name fs; reply EncodeLookupStat ss st fs
    | kLstat => '(ss, st, fs) ← if_Lstat me pa name fs; reply EncodeStat ss st fs
    | kBukin => '(ss, fs) ← if_Bukin me pa name fs; reply (λ _ : unit, []) ss (Some tt) fs
    | kMkdir => match fst <$> GetFixed32 rest with
                | Some mode => '(ss, st, fs) ← if_Mkdir me pa name mode fs; reply EncodeStat ss st fs
                | None => bad_input fs end
    | kMkfle => match fst <$> GetFixed32 rest with
                | Some mode => '(ss, st, fs) ← if_Mkfle me pa name mode fs; reply EncodeStat ss st fs
                | None => bad_input fs end
    | kMkfls => match ('(n, rest) ← GetFixed32 rest; '(mode, _) ← GetFixed32 rest; Some (n, mode)) with
                | Some (n, mode) => '(ss, n, fs) ← if_Mkfls me pa name mode n fs; reply EncodeFixed32 ss (Some n) fs
                | None => bad_input fs end
    end.
Proof.
  intros Hpa Hme Hn.
  destruct op; cbn [op_handler]; unfold LokupOperation, LstatOperation, MkdirOperation, MkfleOperation, MkflsOperation, BukinOperation;
    rewrite GetRequest_encode by done; cbn [mbind option_bind]; try done;
    destruct (GetFixed32 rest) as [[v rest'] |]; cbn; try done; by destruct (GetFixed32 rest') as [[? ?] |].
Qed.

(** C6. Remote calls are transparent: when the request fits its message, an operation issued through the
    client stub, the dispatcher and the handler leaves the server's file system as the direct
    call does, and returns the same status code and, on success, the same result: all of a
    [LookupStat], the count of a batch, and the inode number, mode and owner of a [Stat] (sizes,
    times and the zeroth server are not sent, the caller's are kept).  The message of an error is
    lost. *)
Theorem rpc_transparent me pa req ret lret fs s r fs' :
  LookupStat_wf pa -> User_wf me -> fits req ->
  direct me pa req fs = Some (s, r, fs') -> status_wf s -> code s <> kUnknownError -> reply_wf s r ->
  ∃ s' r', remote me pa req ret lret (server_of fs) = Some (s', r', server_of fs') /\ s' ≡st s /\
    (ok s = true -> agrees s r r').
Proof.
  intros Hpa Hme Hfits Hd Hwf Hun Hr.
  destruct req as [name | name | name mode | name mode | namearr n mode | dir]; cbn [direct fits remote] in *.
  - destruct (if_Lokup me pa name fs) as [[[s0 l] fs0] |] eqn:E; [| done]. injection Hd as -> <- ->.
    destruct (remote_call kLokup pa name me [] EncodeLookupStat (λ i, fst <$> GetLookupStat i) id lret s l fs fs')
      as (s' & Hc & Hs); [rewrite handler_request, E by (done || lia); done | done | done | |].
    { intros Hok. destruct l; cbn in Hr; [| congruence]. eexists. split; [done |].
      by rewrite <- (app_nil_r (EncodeLookupStat _)), GetLookupStat_encode. }
    unfold LokupCli. rewrite fits_plain by done. cbn [mbind option_bind].
    rewrite Hc. cbn [mbind option_bind]. do 2 eexists. split; [done |]. split; [done |].
    intros Hok. rewrite Hok. destruct l; cbn in Hr |- *; congruence.
  - destruct (if_Lstat me pa name fs) as [[[s0 st] fs0] |] eqn:E; [| done]. injection Hd as -> <- ->.
    destruct (remote_call kLstat pa name me [] EncodeStat (λ i, fst <$> GetStat ret i) (λ st, with_fields st ret) ret s st fs fs')
      as (s' & Hc & Hs); [rewrite handler_request, E by (done || lia); done | done | done | by apply stat_reply |].
    unfold LstatCli. rewrite fits_plain by done. cbn [mbind option_bind].
    rewrite Hc. cbn [mbind option_bind]. do 2 eexists. split; [done |]. split; [done |]. by apply stat_agrees.
  - destruct (if_Mkdir me pa name mode fs) as [[[s0 st] fs0] |] eqn:E; [| done]. injection Hd as -> <- ->. destruct Hfits as [Hn Hm].
    destruct (remote_call kMkdir pa name me (EncodeFixed32 mode) EncodeStat (λ i, fst <$> GetStat ret i) (λ st, with_fields st ret) ret s st fs fs')
      as (s' & Hc & Hs); [rewrite handler_request by (done || lia) | done | done | by apply stat_reply |].
    { rewrite <- (app_nil_r (EncodeFixed32 mode)), GetFixed32_encode by done. cbn. by rewrite E. }
    unfold MkdirCli. rewrite fits_mode by done. cbn [mbind option_bind].
    rewrite Hc. cbn [mbind option_bind]. do 2 eexists. split; [done |]. split; [done |]. by apply stat_agrees.
  - destruct (if_Mkfle me pa name mode fs) as [[[s0 st] fs0] |] eqn:E; [| done]. injection Hd as -> <- ->. destruct Hfits as [Hn Hm].
    destruct (remote_call kMkfle pa name me (EncodeFixed32 mode) EncodeStat (λ i, fst <$> GetStat ret i) (λ st, with_fields st ret) ret s st fs fs')
      as (s' & Hc & Hs); [rewrite handler_request by (done || lia) | done | done | by apply stat_reply |].
    { rewrite <- (app_nil_r (EncodeFixed32 mode)), GetFixed32_encode by done. cbn. by rewrite E. }
    unfold MkfleCli. rewrite fits_mode by done. cbn [mbind option_bind].
    rewrite Hc. cbn [mbind option_bind]. do 2 eexists. split; [done |]. split; [done |]. by apply stat_agrees.
  - destruct (if_Mkfls me pa namearr mode n fs) as [[[s0 m] fs0] |] eqn:E; [| done]. injection Hd as -> <- ->. destruct Hfits as (Hn & Hw & Hm).
    destruct (remote_call kMkfls pa namearr me (EncodeFixed32 n ++ EncodeFixed32 mode) EncodeFixed32 (λ i, fst <$> GetFixed32 i) id n s (Some m) fs fs')
      as (s' & Hc & Hs); [rewrite handler_request by done | done | done | |].
    { rewrite GetFixed32_encode by done. cbn [mbind option_bind].
      rewrite <- (app_nil_r (EncodeFixed32 mode)), GetFixed32_encode by done. cbn [mbind option_bind]. by rewrite E. }
    { intros _. eexists. split; [done |]. by rewrite <- (app_nil_r (EncodeFixed32 _)), GetFixed32_encode. }
    unfold MkflsCli. cbv zeta. rewrite Mkfls_request, Hc. cbn [mbind option_bind]. do 2 eexists. split; [done |]. split; [done |].
    intros Hok. by rewrite Hok.
  - destruct (if_Bukin me pa dir fs) as [[s0 fs0] |] eqn:E; [| done]. injection Hd as -> <- ->.
    destruct (remote_call kBukin pa dir me [] (λ _ : unit, []) (λ _, Some tt) id tt s (Some tt) fs fs')
      as (s' & Hc & Hs); [rewrite handler_request, E by (done || lia); done | done | done | by eexists |].
    unfold BukinCli. rewrite fits_plain by done. cbn [mbind option_bind].
    rewrite Hc. cbn [mbind option_bind]. by do 2 eexists.
Qed.
End Calls.

(** C21. Long names overflow the message: a stub writes a request of a lookup, a stat or a bulk insertion
    with a name of more than 146 bytes, or of a creation with more than 142, past the 200 bytes of
    the message's buffer; its size assertion comes after the write.  Nothing bounds names before. *)
Theorem stub_overflow {F} (call : Slice -> F -> option (Status * Slice * F)) pa name me mode ret lret fs :
  |[name]| < 2 ^ 32 ->
  (146 < |[name]| ->
   LokupCli call pa name me lret fs = None /\ LstatCli call pa name me ret fs = None /\
   BukinCli call pa name me fs = None) /\
  (142 < |[name]| -> MkfleCli call pa name mode me ret fs = None /\ MkdirCli call pa name mode me ret fs = None).
Proof.
  intros Hn.
  assert (∀ k, 128 <= |[name]| -> k < |[name]| -> k + 2 < |[EncodeLengthPrefixedSlice name]|) as Hsz.
  { intros k H128 Hk. pose proof (EncodeLengthPrefixedSlice_long name H128 Hn). lia. }
  assert (∀ op x, 200 < |[request op pa name me ++ x]| -> small_message (request op pa name me ++ x) = None) as Hsm.
  { intros o x Hx. unfold small_message, kBufSize. by rewrite (proj2 (Z.leb_gt _ _)). }
  split; intros Hlen.
  - assert (∀ op, small_message (request op pa name me) = None) as Hnone.
    { intros o. rewrite <- (app_nil_r (request o pa name me)). apply Hsm. rewrite slice_size_app, size_request.
      change (|[[]]|) with 0. specialize (Hsz 146). lia. }
    unfold LokupCli, LstatCli, BukinCli. by rewrite !Hnone.
  - unfold MkfleCli, MkdirCli. rewrite !Hsm; [done | |];
      rewrite slice_size_app, size_request; change (|[EncodeFixed32 mode]|) with 4; specialize (Hsz 142); lia.
Qed.

(** ** The metadata server behind the interface *)

(** [Filesystem : public FilesystemIf], at time [now]; a result that is not OK leaves the caller's
    structure undefined. *)
Definition Filesystem_If {DX} `{KvStore DX} `{BulkStore DX} (ndebug : bool) (now : Z) : FilesystemIf (FS DX) := {|
  if_Bukin who pa dir fs := Fs.Bukin ndebug who pa dir now fs;
  if_Mkfls who pa namearr mode n fs := Fs.Mkfls ndebug who pa namearr mode n now fs;
  if_Mkfle who pa name mode fs := Fs.Mkfle ndebug who pa name mode now fs;
  if_Mkdir who pa name mode fs := Fs.Mkdir ndebug who pa name mode now fs;
  if_Lokup who pa name fs :=
    '(s, l, fs) ← Fs.Lokup ndebug who pa name (MkLookupStat 0 0 0 0 0 0 0) now fs;
    Some (s, if ok s then Some l else None, fs);
  if_Lstat who pa name fs := Fs.Lstat ndebug who pa name now fs
|}.

#[local] Existing Instance MemDb_bulk.
#[local] Instance ex_If : FilesystemIf (FS MemDb) := Filesystem_If false 1.

Lemma rpc_transparent_witness :
  let ret := MkStat 0 0 0 0 0 0 0 0 0 in
  ∃ s' st svr, remote ex_user ex_root (ReqMkdir (lit "d") 493) ret ex_root (server_of ex_fs)
               = Some (s', RepStat (Some st), svr) /\ s' ≡st OK /\ InodeNo st = 1.
Proof.
  intros ret. destruct (direct ex_user ex_root (ReqMkdir (lit "d") 493) ex_fs) as [[[s r] fs'] |] eqn:E;
    [| vm_compute in E; discriminate E].
  pose proof (f_equal (λ r, fst <$> r) E) as Es. vm_compute in Es. injection Es as <- <-.
  pose proof (λ H1 H2 H3, rpc_transparent ex_user ex_root (ReqMkdir (lit "d") 493) ret ex_root ex_fs _ _ fs' H1 H2 H3 E) as T. clear E.
  destruct (T ltac:(by_compute) ltac:(by_compute) ltac:(by_compute)) as (s' & r' & Hrem & Hs & Hr);
    [by intros _ | by intros ? | by_compute |]. clear T.
  specialize (Hr eq_refl). destruct r' as [[st |] | | |]; try (exfalso; exact Hr). exists s', st, (server_of fs').
  split; [exact Hrem |]. split; [exact Hs |]. exact (eq_sym (f_equal InodeNo Hr)).
Defined.

Lemma stub_overflow_witness :
  LokupCli (Call (F := FS MemDb)) ex_root (replicate 147 97) ex_user ex_root (server_of ex_fs) = None.
Proof.
  destruct (stub_overflow (Call (F := FS MemDb)) ex_root (replicate 147 97) ex_user 0 (MkStat 0 0 0 0 0 0 0 0 0)
              ex_root (server_of ex_fs)) as [H _]; [by_compute |].
  destruct (H ltac:(by_compute)) as (H1 & _). exact H1.
Defined.
