(* ===== verification/FsPath.v ===== *)
(** * Path resolution ([fscli.cc], [FilesystemCli::Resolv] and [Resolu])

    A path is a C string: a [Slice] without NUL.  A pointer into it is the suffix it points
    at, the empty suffix being the terminating NUL.  The walk is parametric in the lookup of one
    component ([Lokup]) and in the release of a lease. *)
From S2P Require Import Prelude Status.

Definition slash : Z := 47.

(** [for (q = p + 1; q[0]; q++) if (q[0] == '/') break;]: the characters passed and [q]. *)
Fixpoint to_slash (s : Slice) : Slice * Slice :=
  match s with
  | [] => ([], [])
  | b :: s' => if b =? slash then ([], s) else let '(name, q) := to_slash s' in (b :: name, q)
  end.
(** [for (; c[0]; c++) if (c[0] != '/') break;]. *)
Fixpoint skip_slashes (s : Slice) : Slice :=
  match s with
  | [] => []
  | b :: s' => if b =? slash then skip_slashes s' else s
  end.

Section Walk.
Context {ST L : Type}.
Variable Lokup : L -> Slice -> ST -> option (Status * option L * ST).
Variable Release : L -> ST -> option ST.

(** What [Resolv] returns: the status, the parent, the last component with what follows it in
    the path, and the remaining path of a failed walk. *)
Record Resolved := MkResolved {
  r_status : Status;
  r_parent : L;
  r_last : Slice;
  r_rest : Slice;
  r_remaining : option Slice
}.

(** The loop of [Resolv]; [s] is what follows [p], which points at a slash. *)
Fixpoint Resolv_loop (fuel : nat) (current_parent : L) (s : Slice) (st : ST) : option (Resolved * ST) :=
  match fuel with
  | O => None
  | S fuel =>
      let '(name, q) := to_slash s in
      match q with
      | [] => Some (MkResolved OK current_parent name q None, st)
      | _ :: q' =>
          if decide (name = []) then Resolv_loop fuel current_parent q' st
          else
            let c := skip_slashes q' in
            match c with
            | [] => Some (MkResolved OK current_parent name q None, st)
            | _ :: _ =>
                '(s, tmp, st) ← Lokup current_parent name st;
                if ok s then
                  tmp ← tmp; st ← Release current_parent st;
                  Resolv_loop fuel tmp c st
                else Some (MkResolved s current_parent name q (Some (slash :: c)), st)
            end
      end
  end.
Definition Resolv (relative_root : L) (pathname : Slice) (st : ST) : option (Resolved * ST) :=
  match pathname with
  | b :: s => if b =? slash then Resolv_loop (length pathname) relative_root s st else None
  | [] => None
  end.

(** The rest of [Resolu], from the relative root on: the status, the parent directory that the
    caller must release, the last component and whether slashes follow it. *)
Definition Resolu_from (rr : L) (pathname : Slice) (st : ST)
    : option (Status * L * Slice * bool * ST) :=
  '(r, st) ← Resolv rr pathname st;
  let s := r_status r in
  let rp := r_remaining r in
  let prefix := take (length pathname - length (default [] rp)) pathname in
  if IsDirExpected s && bool_decide (rp <> None) then
    Some (MkStatus kDirExpected prefix [], r_parent r, r_last r, false, st)
  else if IsNotFound s && bool_decide (rp <> None) then
    Some (MkStatus kNotFound prefix [], r_parent r, r_last r, false, st)
  else if negb (ok s) then Some (s, r_parent r, r_last r, false, st)
  else Some (s, r_parent r, r_last r, bool_decide (r_rest r !! 0%nat = Some slash), st).
End Walk.
Arguments MkResolved {L}. Arguments r_status {L}. Arguments r_parent {L}. Arguments r_last {L}.
Arguments r_rest {L}. Arguments r_remaining {L}.

(** ** Reference: the components of a path *)
Fixpoint split_slashes (cur s : Slice) : list Slice :=
  match s with
  | [] => [cur]
  | b :: s => if b =? slash then cur :: split_slashes [] s else split_slashes (cur ++ [b]) s
  end.
Definition components (s : Slice) : list Slice := filter (λ c, c <> []) (split_slashes [] s).

Lemma to_slash_spec s name q :
  to_slash s = (name, q) ->
  s = name ++ q /\ (q = [] \/ ∃ q', q = slash :: q') /\ ∀ cur, split_slashes cur s =
    match q with [] => [cur ++ name] | _ :: q' => (cur ++ name) :: split_slashes [] q' end.
Proof.
  revert name q. induction s as [| b s IH]; intros name q; cbn [to_slash].
  { intros [= <- <-]. split_and!; [done | by left | intros cur; by rewrite app_nil_r]. }
  destruct (Z.eqb_spec b slash) as [-> | Hb].
  - intros [= <- <-]. split_and!; [done | right; by eexists | intros cur; by rewrite app_nil_r].
  - destruct (to_slash s) as [name' q'] eqn:E. intros [= <- <-]. destruct (IH _ _ eq_refl) as (-> & Hq & Hs).
    split_and!; [done | done |]. intros cur. cbn [split_slashes]. rewrite (proj2 (Z.eqb_neq b slash)) by done.
    rewrite Hs. by rewrite <- app_assoc.
Qed.

Lemma components_to_slash s name q :
  to_slash s = (name, q) ->
  components s = (if decide (name = []) then [] else [name]) ++ match q with [] => [] | _ :: q' => components q' end.
Proof.
  intros (_ & _ & Hs)%to_slash_spec. unfold components. rewrite Hs. cbn [app]. destruct q as [| b q'];
    rewrite filter_cons; destruct (decide (name = [])) as [-> |]; [by rewrite decide_False by auto | by rewrite decide_True | by rewrite decide_False by auto | by rewrite decide_True].
Qed.

Lemma components_slash s : components (slash :: s) = components s.
Proof. done. Qed.

Lemma skip_slashes_spec s :
  components (skip_slashes s) = components s /\
  match skip_slashes s with
  | [] => components s = [] /\ list.last (slash :: s) = Some slash
  | c => components c <> [] /\ list.last s = list.last c /\ ∃ pre, s = pre ++ c /\ components pre = [] /\ list.last (slash :: pre) = Some slash
  end.
Proof.
  induction s as [| b s [IHc IH]]; [done |]. cbn [skip_slashes]. destruct (Z.eqb_spec b slash) as [-> | Hb].
  - rewrite components_slash. split; [done |]. destruct (skip_slashes s) as [| c0 c].
    + destruct IH as [Hn Hl]. split; [exact Hn | exact Hl].
    + destruct IH as (? & Hl & pre & -> & Hp & Hlp). split_and!; [done | |].
      * rewrite <- Hl. destruct pre; done.
      * exists (slash :: pre). by rewrite components_slash.
  - split; [done |]. destruct (to_slash (b :: s)) as [name q] eqn:E. split_and!; [| done | by exists []].
    rewrite (components_to_slash _ _ _ E). cbn [to_slash] in E.
    rewrite (proj2 (Z.eqb_neq b slash)) in E by done. destruct (to_slash s). injection E as <- <-. done.
Qed.

Section Spec.
Context {ST L : Type}.
Variable Lokup : L -> Slice -> ST -> option (Status * option L * ST).
Variable Release : L -> ST -> option ST.

(** Looking names up one after the other, each in the result of the one before; the names todo
    start with the one that failed. *)
Fixpoint walk (parent : L) (names : list Slice) (st : ST) : option (Status * L * list Slice * ST) :=
  match names with
  | [] => Some (OK, parent, [], st)
  | name :: names' =>
      '(s, tmp, st) ← Lokup parent name st;
      if ok s then tmp ← tmp; st ← Release parent st; walk tmp names' st
      else Some (s, parent, names, st)
  end.

(** What a resolution of [pathname] must return, given the outcome of the walk. *)
Definition resolved (pathname : Slice) (todo : list Slice) (s : Status) (parent : L) (r : Resolved) : Prop :=
  r_status r = s /\ r_parent r = parent /\
  if ok s then
    r_last r = default [] (list.last (components pathname)) /\ r_remaining r = None /\
    bool_decide (r_rest r !! 0%nat = Some slash)
    = bool_decide (components pathname <> [] /\ list.last pathname = Some slash)
  else
    ∃ pre rp, r_remaining r = Some rp /\ pathname = pre ++ rp /\ todo = r_last r :: removelast (components rp) /\
      components pathname = components pre ++ components rp /\ list.last (components pre) = Some (r_last r) /\
      rp !! 0%nat = Some slash.

Lemma components_app_slash a b : components (a ++ slash :: b) = components a ++ components b.
Proof.
  unfold components. rewrite <- list.filter_app. f_equal.
  assert (∀ cur, split_slashes cur (a ++ slash :: b) = split_slashes cur a ++ split_slashes [] b) as ->; [| done].
  induction a as [| x a IH]; intros cur; [done |].
  cbn [split_slashes app]. destruct (x =? slash); [cbn; f_equal |]; apply IH.
Qed.

Lemma components_slashes pre b :
  components pre = [] -> list.last (slash :: pre) = Some slash -> components (pre ++ b) = components b.
Proof.
  intros Hn Hl. destruct pre as [| x pre]; [done |].
  change (list.last (x :: pre) = Some slash) in Hl. apply list.last_Some in Hl as [l E]. rewrite E in Hn |- *.
  rewrite components_app_slash in Hn. apply app_eq_nil in Hn as [Hn _].
  rewrite <- app_assoc. cbn [app]. by rewrite components_app_slash, Hn.
Qed.

Lemma to_slash_name s name q : to_slash s = (name, q) -> to_slash name = (name, []).
Proof.
  revert name q. induction s as [| b s IH]; intros name q; cbn [to_slash]; [by intros [= <- <-] |].
  destruct (b =? slash) eqn:Eb; [by intros [= <- <-] |]. destruct (to_slash s) as [n q0]. intros [= <- <-].
  cbn [to_slash]. rewrite Eb. by rewrite (IH _ _ eq_refl).
Qed.

Lemma Resolv_loop_spec fuel parent s st :
  (length s < fuel)%nat ->
  match walk parent (removelast (components s)) st with
  | None => Resolv_loop Lokup Release fuel parent s st = None
  | Some (s0, parent', todo, st') =>
      ∃ r, Resolv_loop Lokup Release fuel parent s st = Some (r, st') /\ resolved s todo s0 parent' r
  end.
Proof.
  revert parent s st. induction fuel as [| fuel IH]; intros parent s st Hf; [lia |]. cbn [Resolv_loop].
  destruct (to_slash s) as [name q] eqn:E. pose proof (components_to_slash _ _ _ E) as Hc.
  destruct (to_slash_spec _ _ _ E) as (-> & Hq & _). rewrite Hc. destruct Hq as [-> | [q' ->]].
  - rewrite !app_nil_r in *. destruct (decide (name = [])) as [-> |]; cbn [removelast walk]; eexists; (split; [done |]);
      unfold resolved; cbn [r_status r_parent r_last r_rest r_remaining]; (split_and!; [done.. |]);
      change (ok OK) with true; cbn iota; rewrite Hc; (split_and!; [done.. |]);
      rewrite bool_decide_false by done; symmetry; apply bool_decide_false.
    + by intros [? _].
    + intros [_ Hl]. apply list.last_Some in Hl as [l ->]. clear -E.
      assert (∀ l', to_slash (l' ++ [slash]) <> (l' ++ [slash], [])) as Hno; [| by apply Hno in E].
      clear. intros l. induction l as [| b l IH]; cbn [to_slash app]; [done |]. destruct (b =? slash); [done |].
      destruct (to_slash (l ++ [slash])) as [n q]. intros [= -> ->]. by apply IH.
  - destruct (decide (name = [])) as [-> | Hne]; cbn [app] in *.
    + specialize (IH parent q' st ltac:(cbn in Hf; lia)). destruct (walk _ _ _) as [[[[s0 p'] todo] st'] |]; [| done].
      destruct IH as (r & Hr & Hres). exists r. split; [done |]. destruct Hres as (H1 & H2 & H3). split_and!; [done.. |].
      destruct (ok s0).
      * rewrite components_slash. destruct H3 as (? & ? & H3). split_and!; [done.. |]. rewrite H3. apply bool_decide_ext.
        split; intros [? Hl]; (split; [done |]); [by destruct q' | by destruct q'].
      * destruct H3 as (pre & rp & ? & -> & ? & Hp & ? & ?). exists (slash :: pre), rp.
        by rewrite !components_slash.
    + destruct (skip_slashes_spec q') as [Hsk Hcase]. destruct (skip_slashes q') as [| c0 c] eqn:Ec.
      * destruct Hcase as [Hnil Hl]. rewrite Hnil in *. cbn [removelast walk app]. eexists. split; [done |].
        split_and!; [done.. |]. change (ok OK) with true. cbn iota. cbn [r_last r_rest r_remaining]. rewrite Hc.
        split_and!; [done.. |]. rewrite !bool_decide_true; [done | | done]. split; [done |].
        by rewrite list.last_app, Hl.
      * destruct Hcase as (Hnn & Hl & pre & Epre & Hpre & Hlp). rewrite <- Hsk in *.
        set (cs := components (c0 :: c)) in *.
        assert (components name = [name]) as Hname
          by (rewrite (components_to_slash _ _ _ (to_slash_name _ _ _ E)); by rewrite decide_False).
        assert (removelast (name :: cs) = name :: removelast cs) as -> by (by destruct cs).
        cbn [walk]. destruct (Lokup parent name st) as [[[s1 tmp] st1] |]; [| done]. cbn [mbind option_bind].
        assert (list.last (name ++ slash :: q') = list.last (c0 :: c)) as Hlast.
        { rewrite list.last_app, <- Hl. destruct q' as [| x l]; [done |].
          change (list.last (slash :: x :: l)) with (list.last (x :: l)).
          destruct (list.last (x :: l)) eqn:El; [done |]. by apply list.last_None in El. }
        destruct (ok s1) eqn:Hok.
        -- destruct tmp as [tmp |]; [| done]. cbn [mbind option_bind].
           destruct (Release parent st1) as [st2 |]; [| done]. cbn [mbind option_bind].
           assert (length (c0 :: c) <= length q')%nat by (rewrite Epre, length_app; lia).
           rewrite length_app in Hf. cbn [length] in Hf.
           specialize (IH tmp (c0 :: c) st2 ltac:(cbn [length] in *; lia)). fold cs in IH.
           destruct (walk tmp (removelast cs) st2) as [[[[s0 p'] todo] st'] |]; [| done].
           destruct IH as (r & Hr & H1 & H2 & H3). exists r. split; [done |]. split_and!; [done.. |].
           destruct (ok s0).
           ++ fold cs in H3. rewrite Hc, Hlast. destruct H3 as (-> & ? & ->). split_and!; [by destruct cs | done |].
              apply bool_decide_ext. split; intros [? ?]; (split; [| done]); [done | done].
           ++ destruct H3 as (pre' & rp & ? & Ec' & ? & Hp & ? & ?). exists (name ++ slash :: pre ++ pre'), rp.
              rewrite (components_app_slash name (pre ++ pre')), Hname, (components_slashes pre pre' Hpre Hlp).
              split_and!; [done | | done | | | done].
              ** rewrite Epre, Ec'. by rewrite <- !app_assoc, <- !app_comm_cons, <- app_assoc.
              ** rewrite Hc. fold cs in Hp. by rewrite Hp.
              ** by destruct (components pre').
        -- eexists. split; [done |]. split_and!; [done.. |]. rewrite Hok. cbn [r_last r_rest r_remaining].
           destruct (list.last_Some (slash :: pre) slash) as [[pre1 Epre1] _]; [done |].
           exists (name ++ pre1), (slash :: c0 :: c). rewrite components_slash. fold cs.
           assert (components (name ++ pre1) = [name]) as Hn1.
           { pose proof (components_app_slash (name ++ pre1) []) as H1. rewrite app_nil_r in H1.
             rewrite <- H1, <- app_assoc, <- Epre1, components_app_slash, Hname, Hpre. done. }
           rewrite Hn1. split_and!; [done | | done | by rewrite Hc | done | done].
           rewrite Epre, <- app_assoc. f_equal. rewrite app_comm_cons, Epre1. by rewrite <- app_assoc.
Qed.

(** C9. Path resolution looks up exactly the components of the path but the last, in order, each in the
    directory found before, releasing every directory it leaves; repeated and trailing slashes do not
    count.  On success it returns the last component (empty for the root) and whether slashes
    follow it; on failure it stops at the first component that fails, keeps its directory, and
    reports the status code, for a missing component or a file with the path up to that component. *)
Theorem Resolu_walks rr s st :
  match walk rr (removelast (components s)) st with
  | None => Resolu_from Lokup Release rr (slash :: s) st = None
  | Some (s0, parent, todo, st') =>
      if ok s0 then
        Resolu_from Lokup Release rr (slash :: s) st
        = Some (OK, parent, default [] (list.last (components s)),
                bool_decide (components s <> [] /\ list.last s = Some slash), st')
      else
        ∃ s' name rest pre, Resolu_from Lokup Release rr (slash :: s) st = Some (s', parent, name, false, st') /\
          s' ≡st s0 /\ todo = name :: rest /\ s = pre ++ skipn (length pre) s /\ list.last (components pre) = Some name /\
          (IsDirExpected s0 = true -> s' = MkStatus kDirExpected (slash :: pre) []) /\
          (IsNotFound s0 = true -> s' = MkStatus kNotFound (slash :: pre) [])
  end.
Proof.
  pose proof (Resolv_loop_spec (length (slash :: s)) rr s st ltac:(cbn; lia)) as Hl.
  unfold Resolu_from, Resolv. rewrite Z.eqb_refl.
  destruct (walk _ _ _) as [[[[s0 parent] todo] st'] |]; [| by rewrite Hl].
  destruct Hl as (r & -> & <- & <- & H). cbn [mbind option_bind]. destruct (ok (r_status r)) eqn:Hok.
  - destruct H as (<- & Hrem & <-). apply ok_OK in Hok. rewrite Hrem, Hok. done.
  - destruct H as (pre & rp & Hrem & Es & -> & _ & Hlast & _). rewrite Hrem, (bool_decide_true (Some rp <> None)) by done.
    assert (take (length (slash :: s) - length rp) (slash :: s) = slash :: pre) as Hpre.
    { rewrite Es. cbn [length]. rewrite length_app. replace (S (_ + _) - _)%nat with (length (slash :: pre)) by (cbn; lia).
      apply (take_app_length (slash :: pre)). }
    change (default [] (Some rp)) with rp. rewrite Hpre, !andb_true_r. cbn [negb].
    assert (s = pre ++ skipn (length pre) s) as Hsplit by (rewrite Es at 1; by rewrite Es, drop_app_length).
    destruct (IsDirExpected (r_status r)) eqn:Hd; [| destruct (IsNotFound (r_status r)) eqn:Hnf].
    + unfold IsDirExpected, IsErr in Hd. apply bool_decide_eq_true in Hd.
      do 3 eexists. exists pre. split; [done |]. split_and!; try done. unfold IsNotFound, IsErr. rewrite Hd.
      by rewrite bool_decide_false.
    + unfold IsNotFound, IsErr in Hnf. apply bool_decide_eq_true in Hnf.
      do 3 eexists. exists pre. by split_and!.
    + do 3 eexists. exists pre. by split_and!.
Qed.
End Spec.
