(* ===== verification/FsCli.v ===== *)
(** * The client library: directories, partitions and leases ([fscli.h], [fscli.cc])

    Objects behind pointers are in heaps: directory control blocks, partitions, leases, batch
    and bulk contexts, and caller contexts.  A partition has its own cache and table of
    leases.  The code that locks is run alone: waiting for a busy partition is [None], and so
    is a failed assertion or the use of an object that is gone.  The servers, or the local file
    system, are the [world] of the client. *)
From S2P Require Import Prelude Status Coding Hashing FsTypes Keys Giga HashTable Lru.
From S2P Require Import Mxdb FsDb Fs FsCom FsPath Random.

Inductive LokupMode := kRegular | kBatchedCreats | kBulkIn.
#[global] Instance LokupMode_eq_dec : EqDecision LokupMode.
Proof. solve_decision. Defined.

(** ** Objects *)
Record FilesystemCliOptions := MkFilesystemCliOptions {
  per_partition_lease_lru_size : Z; partition_lru_size : Z; batch_size : Z; cli_skip_perm_checks : bool
}.
Definition default_FilesystemCliOptions : FilesystemCliOptions := MkFilesystemCliOptions 4096 4096 16 false.

(** [FilesystemCliCtx]; [stubs_] records which stub each slot holds. *)
Record FilesystemCliCtx := MkFilesystemCliCtx {
  bkid : Z; bkrt : Slice; who : User;
  rnd_ : Z;
  stubs_ : option (list (option (Z * Z)))
}.

(** [FilesystemCli::Dir], [Lease] and [Partition]. *)
Record CDir := MkCDir {
  cd_id : DirId; cd_giga_opts : option DirIndexOptions; cd_giga : option Rep;
  cd_refs : Z; cd_fetched : bool
}.
Record Lease := MkLease {
  l_handle : Ptr; l_rep : LookupStat; l_batch : option nat; l_bk : option nat;
  l_part : Ptr; l_mode : LokupMode; l_out : bool
}.
Record Partition := MkPartition {
  pt_handle : Ptr; pt_dir : Ptr;
  cached_leases : LRUCache Ptr; leases : HashTable Ptr;
  pt_index : Z; pt_busy : list bool
}.

(** A lease a caller holds: the static root lease or an object. *)
Inductive LeaseRef := rtlease_ | LeaseAt (p : Ptr).

Record WriBuf := MkWriBuf { wb_namearr : Slice; wb_n : Z }.
Record BatchedCreates := MkBatchedCreates {
  bc_ctx : nat; wribufs : list WriBuf; bc_mode : Z; bc_refs : Z;
  bc_commit_status : Z; bc_bg_status : Status; bc_dir : Ptr
}.
Record BulkIn := MkBulkIn { dbloc : Slice; bk_open : bool; bk_stats : FilesystemDbStats; bk_stat : Stat }.
Record BulkInserts := MkBulkInserts {
  bk_ctx : nat; bulks : list BulkIn; bk_refs : Z;
  bk_commit_status : Z; bk_bg_status : Status; bk_dir : Ptr
}.

Record CliDirs := MkCliDirs { dirs_ : HashTable Ptr; cdir_heap : gmap Ptr CDir; dirlist_ : list Ptr }.
Record CliParts := MkCliParts { pars_ : HashTable Ptr; part_heap : gmap Ptr Partition; plru_ : LRUCache Ptr }.

Record Cli (F : Type) := MkCli {
  c_options : FilesystemCliOptions;
  use_fs : bool; use_rpc : bool; srvs_ : Z; ports_per_srv_ : Z;
  c_dirs : CliDirs; c_parts : CliParts;
  lease_heap : gmap Ptr Lease;
  batch_heap : gmap nat BatchedCreates;
  bulk_heap : gmap nat BulkInserts;
  ctx_heap : gmap nat FilesystemCliCtx;
  next_obj : nat;
  world : F
}.
Arguments MkCli {F}. Arguments c_options {F}. Arguments use_fs {F}. Arguments use_rpc {F}.
Arguments srvs_ {F}. Arguments ports_per_srv_ {F}. Arguments c_dirs {F}. Arguments c_parts {F}.
Arguments lease_heap {F}. Arguments batch_heap {F}. Arguments bulk_heap {F}. Arguments ctx_heap {F}.
Arguments next_obj {F}. Arguments world {F}.

(** [FormatRoot] and the lookup stat of the root: the lease never expires. *)
Definition rtstat_ : Stat := MkStat 0 0 0 0 0 511 0 0 0.
Definition rtlokupstat_ : LookupStat := SetLeaseDue (u64 (-1)) (CopyFrom rtstat_ (MkLookupStat 0 0 0 0 0 0 0)).

(** ** Permission checks of the client *)
Definition CliIsDirWriteOk (options : FilesystemCliOptions) (parent : LookupStat) (who : User) : bool :=
  let mode := DirMode parent in
  if cli_skip_perm_checks options then true
  else if uid who =? 0 then true
  else if (uid who =? DirUserId parent) && has_bit mode S_IWUSR then true
  else if (gid who =? DirGroupId parent) && has_bit mode S_IWGRP then true
  else has_bit mode S_IWOTH.
Definition CliIsLookupOk (options : FilesystemCliOptions) (parent : LookupStat) (who : User) : bool :=
  let mode := DirMode parent in
  if cli_skip_perm_checks options then true
  else if uid who =? 0 then true
  else if (uid who =? DirUserId parent) && has_bit mode S_IXUSR then true
  else if (gid who =? DirGroupId parent) && has_bit mode S_IXGRP then true
  else has_bit mode S_IXOTH.

Definition DirKey (id : DirId) : Slice := EncodeFixed64 (dno id) ++ EncodeFixed64 (ino id).
Definition PartKey (id : DirId) (partition_no : Z) : Slice :=
  EncodeFixed64 (dno id) ++ EncodeFixed64 (ino id) ++ EncodeFixed32 partition_no.
Definition HashKey (k : Slice) : Z := Hash k 0.

Definition Nofs : Status := Err kAssertionFailed "No filesystem backend".

Section Cli.
Context {F : Type}.
Implicit Types (c : Cli F).

Definition set_dirs (d : CliDirs) c : Cli F :=
  MkCli (c_options c) (use_fs c) (use_rpc c) (srvs_ c) (ports_per_srv_ c) d (c_parts c) (lease_heap c)
    (batch_heap c) (bulk_heap c) (ctx_heap c) (next_obj c) (world c).
Definition set_parts (p : CliParts) c : Cli F :=
  MkCli (c_options c) (use_fs c) (use_rpc c) (srvs_ c) (ports_per_srv_ c) (c_dirs c) p (lease_heap c)
    (batch_heap c) (bulk_heap c) (ctx_heap c) (next_obj c) (world c).
Definition set_leases (l : gmap Ptr Lease) c : Cli F :=
  MkCli (c_options c) (use_fs c) (use_rpc c) (srvs_ c) (ports_per_srv_ c) (c_dirs c) (c_parts c) l
    (batch_heap c) (bulk_heap c) (ctx_heap c) (next_obj c) (world c).
Definition set_batches (b : gmap nat BatchedCreates) c : Cli F :=
  MkCli (c_options c) (use_fs c) (use_rpc c) (srvs_ c) (ports_per_srv_ c) (c_dirs c) (c_parts c) (lease_heap c)
    b (bulk_heap c) (ctx_heap c) (next_obj c) (world c).
Definition set_bulks (b : gmap nat BulkInserts) c : Cli F :=
  MkCli (c_options c) (use_fs c) (use_rpc c) (srvs_ c) (ports_per_srv_ c) (c_dirs c) (c_parts c) (lease_heap c)
    (batch_heap c) b (ctx_heap c) (next_obj c) (world c).
Definition set_ctxs (x : gmap nat FilesystemCliCtx) c : Cli F :=
  MkCli (c_options c) (use_fs c) (use_rpc c) (srvs_ c) (ports_per_srv_ c) (c_dirs c) (c_parts c) (lease_heap c)
    (batch_heap c) (bulk_heap c) x (next_obj c) (world c).
Definition set_next (n : nat) c : Cli F :=
  MkCli (c_options c) (use_fs c) (use_rpc c) (srvs_ c) (ports_per_srv_ c) (c_dirs c) (c_parts c) (lease_heap c)
    (batch_heap c) (bulk_heap c) (ctx_heap c) n (world c).
Definition set_world (w : F) c : Cli F :=
  MkCli (c_options c) (use_fs c) (use_rpc c) (srvs_ c) (ports_per_srv_ c) (c_dirs c) (c_parts c) (lease_heap c)
    (batch_heap c) (bulk_heap c) (ctx_heap c) (next_obj c) w.
Definition set_cdir (p : Ptr) (d : CDir) c : Cli F :=
  set_dirs (MkCliDirs (dirs_ (c_dirs c)) (<[p := d]> (cdir_heap (c_dirs c))) (dirlist_ (c_dirs c))) c.
Definition set_part (p : Ptr) (x : Partition) c : Cli F :=
  set_parts (MkCliParts (pars_ (c_parts c)) (<[p := x]> (part_heap (c_parts c))) (plru_ (c_parts c))) c.
Definition set_plru (l : LRUCache Ptr) c : Cli F :=
  set_parts (MkCliParts (pars_ (c_parts c)) (part_heap (c_parts c)) l) c.
Definition set_part_leases (lru : LRUCache Ptr) (ht : HashTable Ptr) (x : Partition) : Partition :=
  MkPartition (pt_handle x) (pt_dir x) lru ht (pt_index x) (pt_busy x).
Definition set_refs (r : Z) (d : CDir) : CDir :=
  MkCDir (cd_id d) (cd_giga_opts d) (cd_giga d) r (cd_fetched d).

(** [FilesystemCli::FilesystemCli], [SetLocalFs] and [RegisterFsSrvUris]. *)
Definition NewFilesystemCli (options : FilesystemCliOptions) (w : F) : Cli F :=
  MkCli options false false 1 1 (MkCliDirs NewHashTable ∅ [])
    (MkCliParts NewHashTable ∅ (NewLRUCache (partition_lru_size options))) ∅ ∅ ∅ ∅ 0 w.
Definition SetLocalFs c : Cli F :=
  MkCli (c_options c) true (use_rpc c) (srvs_ c) (ports_per_srv_ c) (c_dirs c) (c_parts c) (lease_heap c)
    (batch_heap c) (bulk_heap c) (ctx_heap c) (next_obj c) (world c).
Definition RegisterFsSrvUris (srvs ports : Z) c : Cli F :=
  MkCli (c_options c) (use_fs c) true srvs ports (c_dirs c) (c_parts c) (lease_heap c)
    (batch_heap c) (bulk_heap c) (ctx_heap c) (next_obj c) (world c).
End Cli.
