(* ===== verification/FsCliDir.v ===== *)
(** * The client library: control blocks and lease lookups ([fscli.cc])

    [AcquireDir], [FetchDir], [AcquirePartition] and the releases, the deleters of partitions
    and leases, [PrepareStub], and the lease lookup [Lokup2], [Lokup1] and [Lokup]. *)
From S2P Require Import Prelude Status Coding Hashing FsTypes Keys Giga HashTable Lru.
From S2P Require Import Mxdb FsDb Fs FsCom FsPath FsCli Random.

Section CliDir.
Context {F : Type} `{FilesystemIf F}.
Variable ndebug : bool.
(** A call to port [port] of server [srv]. *)
Variable rpc_call : Z * Z -> Slice -> F -> option (Status * Slice * F).
Abbreviation assert := (assert_ ndebug).
Implicit Types (c : Cli F).

(** ** Directories *)
Definition CliAcquireDir (id : DirId) c : option (Ptr * Cli F) :=
  let key := DirKey id in
  let hash := HashKey key in
  let D := c_dirs c in
  let pos := FindPointer (dirs_ D) key hash in
  match deref (dirs_ D) pos with
  | Some dir =>
      d ← cdir_heap D !! dir;
      assert (bool_decide (cd_id d = id));;
      Some (dir, set_cdir dir (set_refs (u32 (cd_refs d + 1)) d) c)
  | None =>
      let dir := MkPtr (next_obj c) key hash in
      let d := MkCDir id None None 1 false in
      Some (dir, set_next (S (next_obj c))
                   (set_dirs (MkCliDirs (Inject dir pos (dirs_ D)).1 (<[dir := d]> (cdir_heap D)) (dirlist_ D ++ [dir])) c))
  end.

(** [Release] of a directory. *)
Definition CliReleaseDir (dir : Ptr) c : option (Cli F) :=
  let D := c_dirs c in
  d ← cdir_heap D !! dir;
  assert (negb (cd_refs d =? 0));;
  let r := u32 (cd_refs d - 1) in
  if r =? 0 then
    Some (set_dirs (MkCliDirs (Remove_key (p_key dir) (p_hash dir) (dirs_ D)).1 (delete dir (cdir_heap D))
                      (filter (.≠ dir) (dirlist_ D))) c)
  else Some (set_cdir dir (set_refs r d) c).

(** [FetchDir]; its status is always OK, and the zeroth server passed is not used. *)
Definition FetchDir (dir : Ptr) c : option (Cli F) :=
  d ← cdir_heap (c_dirs c) !! dir;
  if cd_fetched d then Some c
  else
    let o := MkDirIndexOptions (srvs_ c) (srvs_ c) false in
    g ← NewRep ndebug (PickupServer (cd_id d));
    g ← SetAll ndebug o g;
    Some (set_cdir dir (MkCDir (cd_id d) (Some o) (Some g) (cd_refs d) true) c).

(** [Fetch1]: the server of the name, when there is a name. *)
Definition Fetch1 (name : Slice) (dir : Ptr) c : option (option Z * Cli F) :=
  c ← FetchDir dir c;
  if decide (name = []) then Some (None, c)
  else
    d ← cdir_heap (c_dirs c) !! dir; o ← cd_giga_opts d; g ← cd_giga d;
    i ← SelectServer ndebug o g name; Some (Some i, c).

Definition AcquireAndFetch (parent : LookupStat) (name : Slice) c : option (Ptr * option Z * Cli F) :=
  '(dir, c) ← CliAcquireDir (DirId_of_LookupStat parent) c;
  '(i, c) ← Fetch1 name dir c;
  Some (dir, i, c).

(** ** Leases and partitions *)

(** [DeleteLease]: the deleter of the handles of a partition's lease cache. *)
Definition DeleteLease (key : Slice) (lease : Ptr) c : option (Cli F) :=
  l ← lease_heap c !! lease;
  assert (bool_decide (p_key lease = key));;
  assert (bool_decide (l_bk l = None) && bool_decide (l_batch l = None));;
  c ← (if l_out l then Some c
       else
         part ← part_heap (c_parts c) !! l_part l;
         Some (set_part (l_part l) (set_part_leases (cached_leases part) (Remove_entry lease (leases part)).1 part) c));
  Some (set_leases (delete lease (lease_heap c)) c).
Fixpoint delete_leases (l : list (Slice * Ptr)) c : option (Cli F) :=
  match l with
  | [] => Some c
  | (key, lease) :: l => c ← DeleteLease key lease c; delete_leases l c
  end.

(** [DeletePartition]: the deleter of the handles of [plru_]. *)
Definition DeletePartition (key : Slice) (part : Ptr) c : option (Cli F) :=
  let P := c_parts c in
  x ← part_heap P !! part;
  assert (bool_decide (p_key part = key));;
  let c := set_parts (MkCliParts (Remove_key key (p_hash part) (pars_ P)).1 (part_heap P) (plru_ P)) c in
  '(_, dead) ← DestroyLRUCache ndebug (cached_leases x);
  c ← delete_leases dead c;
  let P := c_parts c in
  x ← part_heap P !! part;
  assert (Empty (leases x));;
  c ← CliReleaseDir (pt_dir x) c;
  let P := c_parts c in
  Some (set_parts (MkCliParts (pars_ P) (delete part (part_heap P)) (plru_ P)) c).
Fixpoint delete_partitions (l : list (Slice * Ptr)) c : option (Cli F) :=
  match l with
  | [] => Some c
  | (key, part) :: l => c ← DeletePartition key part c; delete_partitions l c
  end.

(** [Release] and [Ref] of a partition. *)
Definition ReleasePart (part : Ptr) c : option (Cli F) :=
  x ← part_heap (c_parts c) !! part;
  '(l, dead) ← Release ndebug (pt_handle x) (plru_ (c_parts c));
  delete_partitions dead (set_plru l c).
Definition RefPart (part : Ptr) c : option (Cli F) :=
  x ← part_heap (c_parts c) !! part;
  l ← Ref (pt_handle x) (plru_ (c_parts c)); Some (set_plru l c).

Definition AcquirePartition (dir : Ptr) (ix : Z) c : option (Ptr * Cli F) :=
  d ← cdir_heap (c_dirs c) !! dir;
  let key := PartKey (cd_id d) ix in
  let hash := HashKey key in
  let P := c_parts c in
  '(h, l) ← Lookup key hash (plru_ P);
  match h with
  | Some h =>
      x ← heap l !! h; p ← part_heap P !! value x;
      assert (bool_decide (pt_handle p = h));;
      Some (value x, set_plru l c)
  | None =>
      let pos := FindPointer (pars_ P) key hash in
      match deref (pars_ P) pos with
      | Some part =>
          p ← part_heap P !! part; x ← heap (plru_ P) !! pt_handle p;
          assert (bool_decide (value x = part));;
          l ← Ref (pt_handle p) (plru_ P);
          Some (part, set_plru l c)
      | None =>
          let part := MkPtr (next_obj c) key hash in
          '(h, l, dead) ← Insert ndebug key hash part 1 (plru_ P);
          let p := MkPartition h dir (NewLRUCache (per_partition_lease_lru_size (c_options c))) NewHashTable ix
                     (replicate kWays false) in
          let c := set_next (S (next_obj c))
                     (set_parts (MkCliParts (Inject part pos (pars_ P)).1 (<[part := p]> (part_heap P)) l) c) in
          let c := set_cdir dir (set_refs (u32 (cd_refs d + 1)) d) c in
          c ← delete_partitions dead c;
          Some (part, c)
      end
  end.

(** [Release] of a lease; the root lease is static. *)
Definition ReleaseHandle (lease : Ptr) c : option (Cli F) :=
  l ← lease_heap c !! lease;
  x ← part_heap (c_parts c) !! l_part l;
  '(lru, dead) ← Release ndebug (l_handle l) (cached_leases x);
  delete_leases dead (set_part (l_part l) (set_part_leases lru (leases x) x) c).
Definition ReleaseLease (r : LeaseRef) c : option (Cli F) :=
  match r with
  | rtlease_ => Some c
  | LeaseAt lease =>
      l ← lease_heap c !! lease;
      c ← ReleaseHandle lease c;
      ReleasePart (l_part l) c
  end.
Definition lease_rep (r : LeaseRef) c : option LookupStat :=
  match r with rtlease_ => Some rtlokupstat_ | LeaseAt p => l_rep <$> lease_heap c !! p end.

(** ** Stubs *)
Definition PrepareStub (ctx : nat) (srv_idx : Z) c : option (Z * Z * Cli F) :=
  x ← ctx_heap c !! ctx;
  assert (srv_idx <? srvs_ c);;
  let stubs := default (replicate (Z.to_nat (srvs_ c * ports_per_srv_ c)) None) (stubs_ x) in
  let '(port_idx, rnd) :=
    if ports_per_srv_ c >? 1 then
      let r := Random_Next (rnd_ x) in (Z.rem r (ports_per_srv_ c), r)
    else (0, rnd_ x) in
  let i := Z.to_nat (srv_idx * ports_per_srv_ c + port_idx) in
  stub ← stubs !! i;
  let stub := default (srv_idx, port_idx) stub in
  let x := MkFilesystemCliCtx (bkid x) (bkrt x) (who x) rnd (Some (<[i := Some stub]> stubs)) in
  Some (stub, set_ctxs (<[ctx := x]> (ctx_heap c)) c).

(** A call of the backend: the local file system, else the server [i], else none. *)
Definition backend {A} (ctx : nat) (i : Z) (ret : A)
    (local : F -> option (Status * option A * F)) (remote : (Slice -> F -> option (Status * Slice * F)) -> F -> option (Status * A * F))
    c : option (Status * option A * Cli F) :=
  if use_fs c then '(s, r, w) ← local (world c); Some (s, r, set_world w c)
  else if use_rpc c then
    '(stub, c) ← PrepareStub ctx i c;
    '(s, r, w) ← remote (rpc_call stub) (world c);
    Some (s, if ok s then Some r else None, set_world w c)
  else Some (Nofs, None, c).

(** ** Batch and bulk contexts *)
Definition CreateBatch (ctx : nat) (parent : LookupStat) (n0 : Z) c : option (nat * Cli F) :=
  '(dir, _, c) ← AcquireAndFetch parent [] c;
  let b := next_obj c in
  let bc := MkBatchedCreates ctx (replicate (Z.to_nat (srvs_ c)) (MkWriBuf [] n0)) 432 0 0 OK dir in
  Some (b, set_next (S b) (set_batches (<[b := bc]> (batch_heap c)) c)).

(** [snprintf("/b%d-%llu-%llu-%d")] into 50 bytes. *)
Definition decimal (z : Z) : Slice := lit (pretty.pretty z).
Definition bulk_id (bkid : Z) (id : DirId) (i : Z) : Slice :=
  take 49 (lit "/b" ++ decimal bkid ++ lit "-" ++ decimal (dno id) ++ lit "-" ++ decimal (ino id) ++ lit "-" ++ decimal i).
Definition CreateBulkContext (ctx : nat) (parent : LookupStat) c : option (nat * Cli F) :=
  '(dir, _, c) ← AcquireAndFetch parent [] c;
  d ← cdir_heap (c_dirs c) !! dir; x ← ctx_heap c !! ctx;
  let stat := MkStat 0 0 0 0 0 (Z.lor S_IFREG (Z.land 432 ACCESSPERMS)) (u32 (-1)) (uid (who x)) (gid (who x)) in
  let bulks := (λ i, MkBulkIn (bkrt x ++ bulk_id (bkid x) (cd_id d) (Z.of_nat i)) false stats0 stat)
                 <$> seq 0 (Z.to_nat (srvs_ c)) in
  let b := next_obj c in
  Some (b, set_next (S b) (set_bulks (<[b := MkBulkInserts ctx bulks 0 0 OK dir]> (bulk_heap c)) c)).

(** ** Looking up leases *)

(** A valid lease that the partition already has; an expired one is removed. *)
Definition find_lease (part : Ptr) (name : Slice) (hash now : Z) c : option (option Ptr * Cli F) :=
  x ← part_heap (c_parts c) !! part;
  '(h, lru) ← Lookup name hash (cached_leases x);
  match h with
  | Some h =>
      e ← heap lru !! h; let lease := value e in
      l ← lease_heap c !! lease;
      if LeaseDue (l_rep l) <? now then
        let ht := (Remove_entry lease (leases x)).1 in
        '(lru, dead) ← Erase_entry ndebug h lru;
        let c := set_part part (set_part_leases lru ht x) c in
        c ← delete_leases dead c;
        l ← lease_heap c !! lease;
        let c := set_leases (<[lease := MkLease (l_handle l) (l_rep l) (l_batch l) (l_bk l) (l_part l) (l_mode l) true]>
                               (lease_heap c)) c in
        x ← part_heap (c_parts c) !! part;
        '(lru, dead) ← Release ndebug h (cached_leases x);
        c ← delete_leases dead (set_part part (set_part_leases lru (leases x) x) c);
        Some (None, c)
      else
        assert (bool_decide (l_handle l = h));;
        Some (Some lease, set_part part (set_part_leases lru (leases x) x) c)
  | None =>
      match HashTable.Lookup (leases x) name hash with
      | None => Some (None, c)
      | Some lease =>
          l ← lease_heap c !! lease;
          if LeaseDue (l_rep l) <? now then
            let c := set_part part (set_part_leases (cached_leases x) (Remove_entry lease (leases x)).1 x) c in
            Some (None, set_leases (<[lease := MkLease (l_handle l) (l_rep l) (l_batch l) (l_bk l) (l_part l) (l_mode l) true]>
                                      (lease_heap c)) c)
          else
            e ← heap (cached_leases x) !! l_handle l;
            assert (bool_decide (value e = lease));;
            lru ← Ref (l_handle l) (cached_leases x);
            Some (Some lease, set_part part (set_part_leases lru (leases x) x) c)
      end
  end.

Definition set_part_busy (part : Ptr) (i : nat) (b : bool) c : option (Cli F) :=
  x ← part_heap (c_parts c) !! part;
  Some (set_part part (MkPartition (pt_handle x) (pt_dir x) (cached_leases x) (leases x) (pt_index x) (<[i := b]> (pt_busy x))) c).

(** The lookup at the server. *)
Definition fetch_stat (ctx : nat) (p : LookupStat) (name : Slice) (part : Ptr) c
    : option (Status * option LookupStat * Cli F) :=
  x ← part_heap (c_parts c) !! part; u ← who <$> ctx_heap c !! ctx;
  let ret := MkLookupStat 0 0 0 0 0 0 0 in
  backend ctx (pt_index x) ret (if_Lokup u p name) (λ call, LokupCli call p name u ret) c.

(** Entering a new lease into the partition. *)
Definition install_lease (part : Ptr) (name : Slice) (hash : Z) (mode : LokupMode) (rep : LookupStat)
    (batch bk : option nat) c : option (Ptr * Cli F) :=
  x ← part_heap (c_parts c) !! part;
  let lease := MkPtr (next_obj c) name hash in
  let '(ht, old) := HashTable.Insert lease (leases x) in
  assert (bool_decide (old = None));;
  '(h, lru, dead) ← Insert ndebug name hash lease 1 (cached_leases x);
  let l := MkLease h rep batch bk part mode false in
  let c := set_next (S (next_obj c)) (set_leases (<[lease := l]> (lease_heap c)) (set_part part (set_part_leases lru ht x) c)) in
  c ← delete_leases dead c;
  if LeaseDue rep =? 0 then
    x ← part_heap (c_parts c) !! part;
    let ht := (Remove_entry lease (leases x)).1 in
    '(lru, dead) ← Erase_entry ndebug h (cached_leases x);
    let c := set_leases (<[lease := MkLease h rep batch bk part mode true]> (lease_heap c)) (set_part part (set_part_leases lru ht x) c) in
    c ← delete_leases dead c;
    Some (lease, c)
  else Some (lease, c).

(** [Lokup2]; [n0] is what the uninitialised counters of a new batch hold. *)
Definition Lokup2 (ctx : nat) (p : LookupStat) (name : Slice) (hash : Z) (mode : LokupMode) (part : Ptr)
    (n0 now : Z) c : option (Status * option Ptr * Cli F) :=
  '(r, c) ← find_lease part name hash now c;
  match r with
  | Some lease => Some (OK, Some lease, c)
  | None =>
      let i := Z.to_nat (Z.land hash (Z.of_nat kWays - 1)) in
      x ← part_heap (c_parts c) !! part;
      b ← pt_busy x !! i;
      if (b : bool) then None
      else
        c ← set_part_busy part i true c;
        '(r, c) ← find_lease part name hash now c;
        '(s, r, c) ←
          match r with
          | Some lease => Some (OK, Some lease, c)
          | None =>
              '(s, tmp, c) ← fetch_stat ctx p name part c;
              if ok s then
                tmp ← tmp;
                '(batch, bk, c) ←
                  match mode with
                  | kBulkIn => '(b, c) ← CreateBulkContext ctx tmp c; Some (None, Some b, c)
                  | kBatchedCreats => '(b, c) ← CreateBatch ctx tmp n0 c; Some (Some b, None, c)
                  | kRegular => Some (None, None, c)
                  end;
                '(lease, c) ← install_lease part name hash mode tmp batch bk c;
                Some (OK, Some lease, c)
              else Some (s, None, c)
          end;
        c ← set_part_busy part i false c;
        Some (s, r, c)
  end.

Definition Lokup1 (ctx : nat) (p : LookupStat) (name : Slice) (mode : LokupMode) (part : Ptr) (n0 now : Z) c
    : option (Status * option Ptr * Cli F) :=
  u ← who <$> ctx_heap c !! ctx;
  if negb (CliIsLookupOk (c_options c) p u) then Some (Err kAccessDenied "No x perm", None, c)
  else
    let hash := Hash name 0 in
    '(s, r, c) ← Lokup2 ctx p name hash mode part n0 now c;
    if ok s then
      lease ← r; l ← lease_heap c !! lease;
      if decide (l_mode l = mode) then
        c ← match mode with
            | kBulkIn =>
                b ← l_bk l; bk ← bulk_heap c !! b;
                Some (set_bulks (<[b := MkBulkInserts (bk_ctx bk) (bulks bk) (u32 (bk_refs bk + 1)) (bk_commit_status bk)
                                          (bk_bg_status bk) (bk_dir bk)]> (bulk_heap c)) c)
            | kBatchedCreats =>
                b ← l_batch l; bc ← batch_heap c !! b;
                Some (set_batches (<[b := MkBatchedCreates (bc_ctx bc) (wribufs bc) (bc_mode bc) (u32 (bc_refs bc + 1))
                                            (bc_commit_status bc) (bc_bg_status bc) (bc_dir bc)]> (batch_heap c)) c)
            | kRegular => Some c
            end;
        Some (OK, Some lease, c)
      else
        x ← part_heap (c_parts c) !! part;
        '(lru, dead) ← Release ndebug (l_handle l) (cached_leases x);
        c ← delete_leases dead (set_part part (set_part_leases lru (leases x) x) c);
        Some (MkStatus kAccessDenied (lit "Lease mode mismatch")
                (lit "Dir locked for regular operations, batched creates, or bulk insertion"), None, c)
    else Some (s, None, c).

Definition CliLokup (ctx : nat) (parent : LookupStat) (name : Slice) (mode : LokupMode) (n0 now : Z) c
    : option (Status * option Ptr * Cli F) :=
  '(dir, i, c) ← AcquireAndFetch parent name c; i ← i;
  '(part, c) ← AcquirePartition dir i c;
  '(s, r, c) ← Lokup1 ctx parent name mode part n0 now c;
  c ← (if ok s then RefPart part c else Some c);
  c ← ReleasePart part c;
  c ← CliReleaseDir dir c;
  Some (s, r, c).
End CliDir.
