(* ===== verification/FsCliOps.v ===== *)
(** * The client library: the operations ([fscli.cc])

    Path operations ([Mkfle], [Mkdir], [Lstat], [Atdir]), batches of creations and bulk
    insertions.  The database that a bulk insertion fills is behind the interface [BulkEnv]. *)
From S2P Require Import Prelude Status Coding Hashing FsTypes Keys Giga HashTable Lru.
From S2P Require Import Mxdb FsDb Fs FsCom FsPath FsCli FsCliDir.

(** [BukDb] as the client uses it: the static [DestroyDb], [Open], [Put], [Flush] and the
    destructor, on the database at a location. *)
Class BulkEnv (F : Type) := {
  buk_DestroyDb : Slice -> F -> F;
  buk_Open : Slice -> F -> Status * F;
  buk_Put : Slice -> DirId -> Slice -> Stat -> FilesystemDbStats -> F -> Status * FilesystemDbStats * F;
  buk_Flush : Slice -> F -> Status * F;
  buk_Close : Slice -> F -> F
}.

(** [FilesystemCli::AT]; [BAT] and [BULK] are the leases they hold. *)
Record AT := MkAT { parent_of_root : LookupStat; at_name : Slice }.

Section CliOps.
Context {F : Type} `{FilesystemIf F} `{BulkEnv F}.
Variable ndebug : bool.
Variable rpc_call : Z * Z -> Slice -> F -> option (Status * Slice * F).
Abbreviation assert := (assert_ ndebug).
Implicit Types (c : Cli F).
Abbreviation cli_lokup := (CliLokup ndebug rpc_call).
Abbreviation Release := (ReleaseLease ndebug).

(** ** Paths *)
Definition lokup_regular (ctx : nat) (now : Z) (parent : LeaseRef) (name : Slice) c
    : option (Status * option LeaseRef * Cli F) :=
  rep ← lease_rep parent c;
  '(s, r, c) ← cli_lokup ctx rep name kRegular 0 now c;
  Some (s, option_map LeaseAt r, c).

(** [Resolu]: the status, the parent to release, the last component and whether slashes follow. *)
Definition Resolu (ctx : nat) (at_ : option AT) (pathname : Slice) (now : Z) c
    : option (Status * option LeaseRef * Slice * bool * Cli F) :=
  match at_ with
  | Some a =>
      '(s, r, c) ← cli_lokup ctx (parent_of_root a) (at_name a) kRegular 0 now c;
      if ok s then
        r ← r;
        '(s, parent, last, slashes, c) ← Resolu_from (lokup_regular ctx now) Release (LeaseAt r) pathname c;
        Some (s, Some parent, last, slashes, c)
      else Some (s, None, [], false, c)
  | None =>
      '(s, parent, last, slashes, c) ← Resolu_from (lokup_regular ctx now) Release rtlease_ pathname c;
      Some (s, Some parent, last, slashes, c)
  end.

(** Running [body] on the resolved parent, then releasing the parent. *)
Definition with_parent {A} (ctx : nat) (at_ : option AT) (pathname : Slice) (now : Z) (ret : A)
    (body : LookupStat -> Slice -> bool -> Cli F -> option (Status * A * Cli F)) c : option (Status * A * Cli F) :=
  '(s, parent, tgt, slashes, c) ← Resolu ctx at_ pathname now c;
  '(s, r, c) ← (if ok s then parent ← parent; rep ← lease_rep parent c; body rep tgt slashes c
                else Some (s, ret, c));
  c ← match parent with Some p => Release p c | None => Some c end;
  Some (s, r, c).

Definition Atdir (ctx : nat) (at_ : option AT) (pathname : Slice) (now : Z) (ret : option AT) c
    : option (Status * option AT * Cli F) :=
  with_parent ctx at_ pathname now ret (λ rep tgt _ c,
    if decide (tgt = []) then Some (OK, None, c) else Some (OK, Some (MkAT rep tgt), c)) c.

(** ** Requests below a parent *)
Definition at_partition {A} (p : LookupStat) (name : Slice)
    (body : Z -> Cli F -> option (Status * A * Cli F)) c : option (Status * A * Cli F) :=
  '(dir, i, c) ← AcquireAndFetch ndebug p name c; i ← i;
  '(part, c) ← AcquirePartition ndebug dir i c;
  '(s, r, c) ← body i c;
  c ← ReleasePart ndebug part c;
  c ← CliReleaseDir ndebug dir c;
  Some (s, r, c).

(** [Mkfle2], [Mkdir2], [Lstat2], [Mkfls2] and [Bukin2]: the client's permission check, then the backend. *)
Definition checked {A} (perm : FilesystemCliOptions -> LookupStat -> User -> bool) (no_perm : Status) (ctx : nat)
    (p : LookupStat) (body : User -> Cli F -> option (Status * option A * Cli F)) c
    : option (Status * option A * Cli F) :=
  u ← who <$> ctx_heap c !! ctx;
  if negb (perm (c_options c) p u) then Some (no_perm, None, c) else body u c.
Definition no_write : Status := Err kAccessDenied "No write perm".
Definition no_x : Status := Err kAccessDenied "No x perm".

Definition CliMkfle2 (ctx : nat) (p : LookupStat) (name : Slice) (mode i : Z) (stat : Stat) c :=
  checked CliIsDirWriteOk no_write ctx p (λ u, backend ndebug rpc_call ctx i stat (if_Mkfle u p name mode)
    (λ call, MkfleCli call p name mode u stat)) c.
Definition CliMkdir2 (ctx : nat) (p : LookupStat) (name : Slice) (mode i : Z) (stat : Stat) c :=
  checked CliIsDirWriteOk no_write ctx p (λ u, backend ndebug rpc_call ctx i stat (if_Mkdir u p name mode)
    (λ call, MkdirCli call p name mode u stat)) c.
Definition CliLstat2 (ctx : nat) (p : LookupStat) (name : Slice) (i : Z) (stat : Stat) c :=
  checked CliIsLookupOk no_x ctx p (λ u, backend ndebug rpc_call ctx i stat (if_Lstat u p name)
    (λ call, LstatCli call p name u stat)) c.
Definition CliMkfls2 (ctx : nat) (p : LookupStat) (namearr : Slice) (n mode i : Z) c :=
  checked CliIsDirWriteOk no_write ctx p (λ u, backend ndebug rpc_call ctx i n
    (λ w, '(s, n, w) ← if_Mkfls u p namearr mode n w; Some (s, Some n, w))
    (λ call, MkflsCli call p namearr n mode u 0)) c.
Definition CliBukin2 (ctx : nat) (p : LookupStat) (bkdir : Slice) (i : Z) c :=
  checked CliIsDirWriteOk no_write ctx p (λ u, backend ndebug rpc_call ctx i tt
    (λ w, '(s, w) ← if_Bukin u p bkdir w; Some (s, Some tt, w))
    (λ call w, '(s, w) ← BukinCli call p bkdir u w; Some (s, tt, w))) c.

Definition CliMkfle1 (ctx : nat) (p : LookupStat) (name : Slice) (mode : Z) (stat : Stat) c :=
  at_partition p name (λ i, CliMkfle2 ctx p name mode i stat) c.
Definition CliMkdir1 (ctx : nat) (p : LookupStat) (name : Slice) (mode : Z) (stat : Stat) c :=
  at_partition p name (λ i, CliMkdir2 ctx p name mode i stat) c.
Definition CliLstat1 (ctx : nat) (p : LookupStat) (name : Slice) (stat : Stat) c :=
  at_partition p name (λ i, CliLstat2 ctx p name i stat) c.

(** ** [Mkfle], [Mkdir] and [Lstat]: [stat] is what the caller passed, [None] a value left alone *)
Definition CliMkfle (ctx : nat) (at_ : option AT) (pathname : Slice) (mode : Z) (stat : Stat) (now : Z) c
    : option (Status * option Stat * Cli F) :=
  with_parent ctx at_ pathname now None (λ rep tgt slashes c,
    if bool_decide (tgt <> []) && negb slashes then CliMkfle1 ctx rep tgt mode stat c
    else Some (Err kFileExpected "Path is dir", None, c)) c.
Definition CliMkdir (ctx : nat) (at_ : option AT) (pathname : Slice) (mode : Z) (stat : Stat) (now : Z) c
    : option (Status * option Stat * Cli F) :=
  with_parent ctx at_ pathname now None (λ rep tgt _ c,
    if decide (tgt = []) then Some (MkStatus kAlreadyExists [] [], None, c)
    else CliMkdir1 ctx rep tgt mode stat c) c.
(** With slashes after the name, [Lstat] inspects [*stat] whatever the status. *)
Definition CliLstat (ctx : nat) (at_ : option AT) (pathname : Slice) (stat : Stat) (now : Z) c
    : option (Status * option Stat * Cli F) :=
  with_parent ctx at_ pathname now None (λ rep tgt slashes c,
    if decide (tgt = []) then Some (OK, Some rtstat_, c)
    else
      '(s, r, c) ← CliLstat1 ctx rep tgt stat c;
      if slashes && negb (S_ISDIR (FileMode (default stat r))) then Some (Err kDirExpected "Not a dir", r, c)
      else Some (s, r, c)) c.

(** ** Batches *)
Definition BatchInit (ctx : nat) (at_ : option AT) (pathname : Slice) (n0 now : Z) (ret : option Ptr) c
    : option (Status * option Ptr * Cli F) :=
  with_parent ctx at_ pathname now ret (λ rep tgt _ c,
    if decide (tgt = []) then Some (MkStatus kNotSupported [] [], ret, c)
    else
      '(s, lease, c) ← cli_lokup ctx rep tgt kBatchedCreats n0 now c;
      if ok s then
        lease ← lease; l ← lease_heap c !! lease;
        assert (bool_decide (l_mode l = kBatchedCreats) && bool_decide (l_batch l <> None));;
        Some (OK, Some lease, c)
      else Some (s, ret, c)) c.

Definition CliMkfls1 (ctx : nat) (p : LookupStat) (name : Slice) (mode : Z) (force_flush : bool) (i : Z) (buf : WriBuf) c
    : option (Status * WriBuf * Cli F) :=
  '(s, buf, c) ←
    (if force_flush || (batch_size (c_options c) <=? wb_n buf) then
       '(s, _, c) ← CliMkfls2 ctx p (wb_namearr buf) (wb_n buf) mode i c;
       Some (s, if ok s then MkWriBuf [] 0 else buf, c)
     else Some (OK, buf, c));
  if ok s && bool_decide (name <> []) then
    Some (s, MkWriBuf (PutLengthPrefixedSlice (wb_namearr buf) name) (u32 (wb_n buf + 1)), c)
  else Some (s, buf, c).

Definition set_batch (b : nat) (wb : list WriBuf) (commit : Z) (bg : Status) c : option (Cli F) :=
  bc ← batch_heap c !! b;
  Some (set_batches (<[b := MkBatchedCreates (bc_ctx bc) wb (bc_mode bc) (bc_refs bc) commit bg (bc_dir bc)]> (batch_heap c)) c).

Definition BatchInsert (bat : Ptr) (name : Slice) c : option (Status * Cli F) :=
  l ← lease_heap c !! bat; b ← l_batch l; bc ← batch_heap c !! b;
  if negb (bc_commit_status bc =? 0) then Some (Err kAssertionFailed "Already committed", c)
  else if negb (ok (bc_bg_status bc)) then Some (bc_bg_status bc, c)
  else
    d ← cdir_heap (c_dirs c) !! bc_dir bc; o ← cd_giga_opts d; g ← cd_giga d;
    i ← SelectServer ndebug o g name;
    buf ← wribufs bc !! Z.to_nat i;
    '(s, buf, c) ← CliMkfls1 (bc_ctx bc) (l_rep l) name (bc_mode bc) false i buf c;
    bc ← batch_heap c !! b;
    let bg := if negb (ok s) && ok (bc_bg_status bc) then s else bc_bg_status bc in
    c ← set_batch b (<[Z.to_nat i := buf]> (wribufs bc)) (bc_commit_status bc) bg c;
    Some (s, c).

(** The loop of [BatchCommit] over the servers left. *)
Fixpoint commit_loop (k : nat) (i : Z) (ctx : nat) (rep : LookupStat) (mode : Z) (b : nat) c
    : option (Status * Cli F) :=
  match k with
  | O => Some (OK, c)
  | S k =>
      bc ← batch_heap c !! b; buf ← wribufs bc !! Z.to_nat i;
      '(s, buf, c) ← CliMkfls1 ctx rep [] mode true i buf c;
      bc ← batch_heap c !! b;
      c ← set_batch b (<[Z.to_nat i := buf]> (wribufs bc)) (bc_commit_status bc) (bc_bg_status bc) c;
      if ok s then commit_loop k (i + 1) ctx rep mode b c else Some (s, c)
  end.
Definition BatchCommit (bat : Ptr) c : option (Status * Cli F) :=
  l ← lease_heap c !! bat; b ← l_batch l; bc ← batch_heap c !! b;
  if bc_commit_status bc =? 1 then Some (Err kAssertionFailed "Batch is being committed", c)
  else if (bc_commit_status bc =? 2) || negb (ok (bc_bg_status bc)) then Some (bc_bg_status bc, c)
  else
    c ← set_batch b (wribufs bc) 1 (bc_bg_status bc) c;
    '(s, c) ← commit_loop (Z.to_nat (srvs_ c)) 0 (bc_ctx bc) (l_rep l) (bc_mode bc) b c;
    bc ← batch_heap c !! b;
    let bg := if negb (ok s) && ok (bc_bg_status bc) then s else bc_bg_status bc in
    c ← set_batch b (wribufs bc) 2 bg c;
    Some (s, c).

(** Taking a lease out of its partition. *)
Definition expel (lease : Ptr) (batch bk : option nat) c : option (Cli F) :=
  l ← lease_heap c !! lease;
  x ← part_heap (c_parts c) !! l_part l;
  '(lru, dead) ← Erase_entry ndebug (l_handle l) (cached_leases x);
  let ht := (Remove_entry lease (leases x)).1 in
  let c := set_leases (<[lease := MkLease (l_handle l) (l_rep l) batch bk (l_part l) (l_mode l) true]> (lease_heap c))
             (set_part (l_part l) (set_part_leases lru ht x) c) in
  delete_leases ndebug dead c.

Definition DestroyBAT (bat : Ptr) c : option (Status * Cli F) :=
  l ← lease_heap c !! bat; b ← l_batch l; bc ← batch_heap c !! b;
  assert (negb (bc_refs bc =? 0));;
  let r := u32 (bc_refs bc - 1) in
  let c := set_batches (<[b := MkBatchedCreates (bc_ctx bc) (wribufs bc) (bc_mode bc) r (bc_commit_status bc)
                                 (bc_bg_status bc) (bc_dir bc)]> (batch_heap c)) c in
  c ← (if r =? 0 then expel bat None (l_bk l) c else Some c);
  c ← ReleaseHandle ndebug bat c;
  c ← (if r =? 0 then CliReleaseDir ndebug (bc_dir bc) c else Some c);
  c ← ReleasePart ndebug (l_part l) c;
  Some (OK, if r =? 0 then set_batches (delete b (batch_heap c)) c else c).

(** ** Bulk insertions *)
Definition BulkInit (ctx : nat) (at_ : option AT) (pathname : Slice) (now : Z) (ret : option Ptr) c
    : option (Status * option Ptr * Cli F) :=
  with_parent ctx at_ pathname now ret (λ rep tgt _ c,
    if decide (tgt = []) then Some (MkStatus kNotSupported [] [], ret, c)
    else
      '(s, lease, c) ← cli_lokup ctx rep tgt kBulkIn 0 now c;
      if ok s then
        lease ← lease; l ← lease_heap c !! lease;
        assert (bool_decide (l_mode l = kBulkIn) && bool_decide (l_bk l <> None));;
        Some (OK, Some lease, c)
      else Some (s, ret, c)) c.

Definition CliBukin1 (ctx : nat) (p : LookupStat) (name : Slice) (force_flush : bool) (i : Z) (buk : BulkIn) c
    : option (Status * BulkIn * Cli F) :=
  let '(s, buk, c) :=
    if bk_open buk then (OK, buk, c)
    else
      let '(s, w) := buk_Open (dbloc buk) (buk_DestroyDb (dbloc buk) (world c)) in
      (s, MkBulkIn (dbloc buk) true (bk_stats buk) (bk_stat buk), set_world w c) in
  let '(s, buk, c) :=
    if ok s && bool_decide (name <> []) then
      let '(s, stats, w) := buk_Put (dbloc buk) (DirId_of_LookupStat p) name (bk_stat buk) (bk_stats buk) (world c) in
      (s, MkBulkIn (dbloc buk) (bk_open buk) stats (bk_stat buk), set_world w c)
    else (s, buk, c) in
  if ok s && force_flush then
    let '(s, w) := buk_Flush (dbloc buk) (world c) in
    let c := set_world w c in
    if ok s then
      let c := set_world (buk_Close (dbloc buk) (world c)) c in
      '(s, _, c) ← CliBukin2 ctx p (dbloc buk) i c;
      Some (s, MkBulkIn (dbloc buk) false (bk_stats buk) (bk_stat buk), c)
    else Some (s, buk, c)
  else Some (s, buk, c).

Definition set_bulk (b : nat) (l : list BulkIn) (commit : Z) (bg : Status) c : option (Cli F) :=
  bk ← bulk_heap c !! b;
  Some (set_bulks (<[b := MkBulkInserts (bk_ctx bk) l (bk_refs bk) commit bg (bk_dir bk)]> (bulk_heap c)) c).

Definition BulkInsert (hdl : Ptr) (name : Slice) c : option (Status * Cli F) :=
  l ← lease_heap c !! hdl; b ← l_bk l; bk ← bulk_heap c !! b;
  if negb (bk_commit_status bk =? 0) then Some (Err kAssertionFailed "Already committed", c)
  else if negb (ok (bk_bg_status bk)) then Some (bk_bg_status bk, c)
  else
    d ← cdir_heap (c_dirs c) !! bk_dir bk; o ← cd_giga_opts d; g ← cd_giga d;
    i ← SelectServer ndebug o g name;
    buk ← bulks bk !! Z.to_nat i;
    '(s, buk, c) ← CliBukin1 (bk_ctx bk) (l_rep l) name false i buk c;
    bk ← bulk_heap c !! b;
    let bg := if negb (ok s) && ok (bk_bg_status bk) then s else bk_bg_status bk in
    c ← set_bulk b (<[Z.to_nat i := buk]> (bulks bk)) (bk_commit_status bk) bg c;
    Some (s, c).

Fixpoint bulk_commit_loop (k : nat) (i : Z) (ctx : nat) (rep : LookupStat) (b : nat) c : option (Status * Cli F) :=
  match k with
  | O => Some (OK, c)
  | S k =>
      bk ← bulk_heap c !! b; buk ← bulks bk !! Z.to_nat i;
      '(s, buk, c) ← CliBukin1 ctx rep [] true i buk c;
      bk ← bulk_heap c !! b;
      c ← set_bulk b (<[Z.to_nat i := buk]> (bulks bk)) (bk_commit_status bk) (bk_bg_status bk) c;
      if ok s then bulk_commit_loop k (i + 1) ctx rep b c else Some (s, c)
  end.
Definition BulkCommit (hdl : Ptr) c : option (Status * Cli F) :=
  l ← lease_heap c !! hdl; b ← l_bk l; bk ← bulk_heap c !! b;
  if bk_commit_status bk =? 1 then Some (Err kAssertionFailed "Bulk context is being committed", c)
  else if (bk_commit_status bk =? 2) || negb (ok (bk_bg_status bk)) then Some (bk_bg_status bk, c)
  else
    c ← set_bulk b (bulks bk) 1 (bk_bg_status bk) c;
    '(s, c) ← bulk_commit_loop (Z.to_nat (srvs_ c)) 0 (bk_ctx bk) (l_rep l) b c;
    bk ← bulk_heap c !! b;
    let bg := if negb (ok s) && ok (bk_bg_status bk) then s else bk_bg_status bk in
    c ← set_bulk b (bulks bk) 2 bg c;
    Some (s, c).

(** [Destroy] of a bulk handle: the context leaves the lease only if the lease was not already out. *)
Definition DestroyBULK (hdl : Ptr) c : option (Status * Cli F) :=
  l ← lease_heap c !! hdl; b ← l_bk l; bk ← bulk_heap c !! b;
  assert (negb (bk_refs bk =? 0));;
  let r := u32 (bk_refs bk - 1) in
  let c := set_bulks (<[b := MkBulkInserts (bk_ctx bk) (bulks bk) r (bk_commit_status bk) (bk_bg_status bk) (bk_dir bk)]>
                        (bulk_heap c)) c in
  c ← (if (r =? 0) && negb (l_out l) then expel hdl (l_batch l) None c else Some c);
  c ← ReleaseHandle ndebug hdl c;
  c ← (if r =? 0 then CliReleaseDir ndebug (bk_dir bk) c else Some c);
  c ← ReleasePart ndebug (l_part l) c;
  if r =? 0 then
    let w := foldl (λ w buk, if bk_open buk then buk_Close (dbloc buk) w else w) (world c) (bulks bk) in
    Some (OK, set_world w (set_bulks (delete b (bulk_heap c)) c))
  else Some (OK, c).

(** ** Inspection *)
Definition TEST_ProbeDir (at_ : DirId) c : option (Status * Cli F) :=
  '(dir, c) ← CliAcquireDir ndebug at_ c; c ← CliReleaseDir ndebug dir c; Some (OK, c).
Definition TEST_ProbePartition (at_ : DirId) (ix : Z) c : option (Status * Cli F) :=
  '(dir, c) ← CliAcquireDir ndebug at_ c;
  '(part, c) ← AcquirePartition ndebug dir ix c;
  c ← ReleasePart ndebug part c; c ← CliReleaseDir ndebug dir c; Some (OK, c).
Definition TEST_TotalLeasesAtPartition (at_ : DirId) (ix : Z) c : option (Z * Cli F) :=
  '(dir, c) ← CliAcquireDir ndebug at_ c;
  '(part, c) ← AcquirePartition ndebug dir ix c;
  x ← part_heap (c_parts c) !! part;
  c ← ReleasePart ndebug part c; c ← CliReleaseDir ndebug dir c; Some (Size (leases x), c).
Definition TEST_TotalPartitionsInMemory c : Z := Size (pars_ (c_parts c)).
Definition TEST_CliTotalDirsInMemory c : Z := Size (dirs_ (c_dirs c)).

(** [~FilesystemCli]. *)
Definition DestroyFilesystemCli c : option (Cli F) :=
  '(l, dead) ← DestroyLRUCache ndebug (plru_ (c_parts c));
  c ← delete_partitions ndebug dead (set_plru l c);
  assert (Empty (pars_ (c_parts c)));;
  assert (bool_decide (dirlist_ (c_dirs c) = []));;
  assert (Empty (dirs_ (c_dirs c)));;
  Some c.
End CliOps.
