(* ===== verification/FsCliProps.v ===== *)
(** * The client library: routing and batches

    The client's index of a directory sends every name to the server that accepts it, and the
    buffers of a batch deliver the inserted names, in order, to the server's parser. *)
From S2P Require Import Prelude Status Coding Hashing FsTypes Keys Giga GigaFacts GigaProps.
From S2P Require Import HashTable Lru Mxdb MxdbProps FsDb Fs FsOps FsProps.
From S2P Require Import FsCom FsRpc FsPath FsCli FsCliDir FsCliOps.

(** The server that a client of [srvs] servers picks for a name of a directory. *)
Definition client_server (srvs : Z) (id : DirId) (name : Slice) : Z :=
  (hash_value (DirIndex_Hash name) mod srvs + u16 (PickupServer id)) mod srvs.

(** With at least as many virtual servers as servers, both powers of two, the server's index
    and the client's agree. *)
Lemma home_server_agrees options id name k m :
  0 <= k <= m -> nsrvs options = 2 ^ k -> vsrvs options = 2 ^ m ->
  home_server options id name = client_server (2 ^ k) id name.
Proof.
  intros Hkm En Ev. unfold home_server, client_server. rewrite En, Ev.
  pose proof (Z.pow_pos_nonneg 2 k ltac:(lia) ltac:(lia)).
  rewrite <- Zplus_mod_idemp_l, <- (Zplus_mod_idemp_l (hash_value _ mod 2 ^ k)). f_equal. f_equal.
  rewrite Z.mod_mod by lia. apply mod_pow2_mod. lia.
Qed.

Section Routing.
Context {F : Type}.
Variable ndebug : bool.
Implicit Types (c : Cli F).

Definition cli_giga_options (srvs : Z) : DirIndexOptions := MkDirIndexOptions srvs srvs false.
(** A control block of the client: once fetched, its index is the full one. *)
Definition cdir_ok (srvs : Z) (d : CDir) : Prop :=
  cd_fetched d = true -> cd_giga_opts d = Some (cli_giga_options srvs) /\
    ∃ g, fresh_full ndebug (cli_giga_options srvs) (PickupServer (cd_id d)) = Some g /\ cd_giga d = Some g.

Lemma FetchDir_spec c dir d k :
  0 <= k <= 13 -> srvs_ c = 2 ^ k -> cdir_heap (c_dirs c) !! dir = Some d -> cdir_ok (srvs_ c) d ->
  ∃ d', FetchDir ndebug dir c = Some (set_cdir dir d' c) /\ cdir_ok (srvs_ c) d' /\ cd_fetched d' = true /\
    cd_id d' = cd_id d /\ cd_refs d' = cd_refs d.
Proof.
  intros Hk Es E Hd. unfold FetchDir. rewrite E. cbn [mbind option_bind]. destruct (cd_fetched d) eqn:Ef.
  - exists d. split; [| done]. unfold set_cdir. rewrite insert_id by done. by destruct c as [? ? ? ? ? [] ? ? ? ? ? ? ?].
  - pose proof (Z.pow_pos_nonneg 2 k ltac:(lia) ltac:(lia)).
    destruct (fresh_full_spec ndebug (cli_giga_options (srvs_ c)) (PickupServer (cd_id d)) k) as (g & Hg & _);
      [done | done | cbn; lia |]. pose proof Hg as Hg'. unfold fresh_full in Hg.
    fold (cli_giga_options (srvs_ c)).
    destruct (NewRep ndebug (PickupServer (cd_id d))) as [g0 |]; [| done]. cbn [mbind option_bind] in *.
    rewrite Hg. cbn [mbind option_bind]. eexists. split; [done |]. split; [| done]. intros _. split; [done |]. by exists g.
Qed.

Lemma Fetch1_spec c dir d k name :
  0 <= k <= 13 -> srvs_ c = 2 ^ k -> cdir_heap (c_dirs c) !! dir = Some d -> cdir_ok (srvs_ c) d ->
  ∃ d', Fetch1 ndebug name dir c
        = Some (if decide (name = []) then None else Some (client_server (srvs_ c) (cd_id d) name), set_cdir dir d' c) /\
    cdir_ok (srvs_ c) d' /\ cd_fetched d' = true /\ cd_id d' = cd_id d /\ cd_refs d' = cd_refs d.
Proof.
  intros Hk Es E Hd. destruct (FetchDir_spec c dir d k Hk Es E Hd) as (d' & Hf & Hd' & Ef & Eid & Er).
  exists d'. unfold Fetch1. rewrite Hf. cbn [mbind option_bind]. destruct (decide (name = [])); [done |].
  destruct (Hd' Ef) as (Eo & g & Hg & Eg). assert (cdir_heap (c_dirs (set_cdir dir d' c)) !! dir = Some d') as -> by apply lookup_insert_eq. cbn [mbind option_bind]. rewrite Eo, Eg. cbn [mbind option_bind].
  pose proof (Z.pow_pos_nonneg 2 k ltac:(lia) ltac:(lia)).
  destruct (fresh_full_spec ndebug (cli_giga_options (srvs_ c)) (PickupServer (cd_id d')) k) as (g' & Hg' & _ & Hs);
    [done | done | cbn; lia |]. rewrite Hg in Hg'. injection Hg' as <-. destruct (Hs name) as [_ ->]. cbn [mbind option_bind].
  split; [| done]. unfold client_server. by rewrite Es, Eid.
Qed.

(** C8. The client sends a name to the server that accepts it.  Let the client know [2^k] servers and every
    server have [2^m >= 2^k] virtual servers (at most 8192).  Then [Fetch1] gives, for every name of
    every directory, one of the [2^k] servers, and the partition check [IsDirPartitionOk] of a server that
    has fetched the same directory accepts the name exactly when it is that server (or its checks are off). *)
Theorem client_routes_to_home c dir d name k m options sd :
  0 <= k <= m -> m <= 13 -> srvs_ c = 2 ^ k -> nsrvs options = 2 ^ k -> vsrvs options = 2 ^ m -> name <> [] ->
  cdir_heap (c_dirs c) !! dir = Some d -> cdir_ok (srvs_ c) d ->
  dir_ok ndebug options sd -> fetched sd = true -> d_id sd = cd_id d ->
  ∃ i c', Fetch1 ndebug name dir c = Some (Some i, c') /\ 0 <= i < srvs_ c /\
    IsDirPartitionOk ndebug options sd name = Some (skip_partition_checks options || (srvid options =? i)).
Proof.
  intros Hkm Hm Es En Ev Hne E Hd Hsd Hf Eid.
  destruct (Fetch1_spec c dir d k name) as (d' & HF & _); [lia | done | done | done |].
  rewrite decide_False in HF by done. eexists _, _. split; [exact HF |]. split.
  - unfold client_server. apply Z.mod_pos_bound. rewrite Es. apply Z.pow_pos_nonneg; lia.
  - rewrite IsDirPartitionOk_spec; [| | done..].
    + by rewrite Eid, (home_server_agrees options _ _ k m), Es.
    + exists m. split_and!; [lia | lia | done |]. rewrite En. apply Z.pow_pos_nonneg; lia.
Qed.
End Routing.

(** ** Batches *)

(** A write buffer that holds the given names. *)
Definition buffers (names : list Slice) (buf : WriBuf) : Prop :=
  wb_namearr buf = concat (EncodeLengthPrefixedSlice <$> names) /\ wb_n buf = Z.of_nat (length names).

Lemma parse_names_encode names :
  names_ok names -> parse_names (length names) (concat (EncodeLengthPrefixedSlice <$> names)) = names.
Proof.
  induction names as [| name names IH]; [done |]. intros [[_ Hn] Hns]%list.Forall_cons.
  cbn [fmap list_fmap concat length parse_names]. rewrite GetLengthPrefixedSlice_encode by done. by rewrite IH.
Qed.

Section Batches.
Context {F : Type} `{FilesystemIf F} `{BulkEnv F}.
Variable ndebug : bool.
Variable rpc_call : Z * Z -> Slice -> F -> option (Status * Slice * F).
Implicit Types (c : Cli F).

(** C10. The buffer of a batch delivers its names: inserting a name (empty for a commit) either only appends it, or,
    when the buffer is full or flushing is forced, first sends one request to the server.  The server's parser
    reads from that request exactly the buffered names, in insertion order; if it returns OK the buffer starts
    over with the new name, and otherwise nothing is dropped, the new name is not buffered and the error is
    returned. *)
Theorem Mkfls1_delivers ctx p name mode force i buf names c s buf' c' :
  buffers names buf -> names_ok names -> Z.of_nat (length names) + 1 < 2 ^ 32 ->
  CliMkfls1 ndebug rpc_call ctx p name mode force i buf c = Some (s, buf', c') ->
  let added := if decide (name = []) then [] else [name] in
  if force || (batch_size (c_options c) <=? wb_n buf) then
    ∃ r, CliMkfls2 ndebug rpc_call ctx p (wb_namearr buf) (wb_n buf) mode i c = Some (s, r, c') /\
      parse_names (Z.to_nat (wb_n buf)) (wb_namearr buf) = names /\
      if ok s then buffers added buf' else buf' = buf
  else s = OK /\ c' = c /\ buffers (names ++ added) buf'.
Proof.
  intros [Ea En] Hok Hlen E added. unfold CliMkfls1 in E.
  assert (∀ l a, wb_namearr a = concat (EncodeLengthPrefixedSlice <$> l) -> wb_n a = Z.of_nat (length l) ->
            Z.of_nat (length l) + 1 < 2 ^ 32 -> name <> [] ->
            buffers (l ++ [name]) (MkWriBuf (PutLengthPrefixedSlice (wb_namearr a) name) (u32 (wb_n a + 1)))) as Hadd.
  { intros l a Hl Hn Hb _. split; cbn.
    - rewrite PutLengthPrefixedSlice_app, Hl, fmap_app, concat_app. cbn. by rewrite app_nil_r.
    - rewrite Hn, length_app. cbn. rewrite (wrap_small 32) by (split; lia). lia. }
  destruct (force || (batch_size (c_options c) <=? wb_n buf)).
  - destruct (CliMkfls2 _ _ _ _ _ _ _ _ c) as [[[s0 r] c1] |]; [| done]. cbn [mbind option_bind] in E. exists r.
    assert (parse_names (Z.to_nat (wb_n buf)) (wb_namearr buf) = names) as Hp.
    { rewrite Ea, En, Nat2Z.id. by apply parse_names_encode. }
    unfold added. destruct (ok s0) eqn:Hs0; cbn [andb] in E.
    + destruct (decide (name = [])) as [-> | Hne].
      * rewrite bool_decide_false in E by auto. injection E as <- <- <-. rewrite Hs0. by split_and!.
      * rewrite bool_decide_true in E by done. injection E as <- <- <-. rewrite Hs0. split_and!; [done | done |].
        by apply (Hadd [] (MkWriBuf [] 0)).
    + injection E as <- <- <-. by rewrite Hs0.
  - cbn [mbind option_bind] in E. change (ok OK) with true in E. cbn [andb] in E. unfold added.
    destruct (decide (name = [])) as [-> | Hne].
    + rewrite bool_decide_false in E by auto. injection E as <- <- <-. by rewrite app_nil_r.
    + rewrite bool_decide_true in E by done. injection E as <- <- <-. split_and!; [done | done |]. by apply Hadd.
Qed.
End Batches.

(** ** Witnesses: a client of four servers, and a client of a local file system *)
#[local] Existing Instance MemDb_bulk.
#[local] Instance ex_If : FilesystemIf (FS MemDb) := Filesystem_If false 1.
(** No bulk database. *)
#[local] Instance ex_Bulk {F} : BulkEnv F := {|
  buk_DestroyDb _ w := w; buk_Open _ w := (Nofs, w); buk_Put _ _ _ _ stats w := (Nofs, stats, w);
  buk_Flush _ w := (Nofs, w); buk_Close _ w := w |}.
Definition ex_no_call {F} (_ : Z * Z) (_ : Slice) (_ : F) : option (Status * Slice * F) := None.
Definition ex_id : DirId := MkDirId 0 7.
Definition ex_cdir : Ptr := MkPtr 0 (DirKey ex_id) (HashKey (DirKey ex_id)).
Definition ex_cli4 : Cli unit :=
  set_cdir ex_cdir (MkCDir ex_id None None 1 false)
    (RegisterFsSrvUris 4 1 (NewFilesystemCli default_FilesystemCliOptions tt)).
Definition ex_srv : FilesystemOptions := MkFilesystemOptions 4096 false false false false 8 4 2 0.
Definition ex_cli_local : Cli (FS MemDb) :=
  set_ctxs {[ 0%nat := MkFilesystemCliCtx 0 [] ex_user 301 None ]} (SetLocalFs (NewFilesystemCli default_FilesystemCliOptions ex_fs)).

Lemma client_routes_to_home_witness :
  ∃ sd i c', Fetch1 false (lit "a") ex_cdir ex_cli4 = Some (Some i, c') /\ 0 <= i < 4 /\
    IsDirPartitionOk false ex_srv sd (lit "a") = Some (false || (2 =? i)).
Proof.
  destruct (fresh_full_spec false (giga_options ex_srv) (PickupServer ex_id) 3) as (g & Eg & _);
    [lia | reflexivity | reflexivity |].
  set (sd := MkDir ex_id ex_cdir (Some (giga_options ex_srv)) (Some g) stats0 true (replicate kWays false)).
  exists sd.
  apply (client_routes_to_home false ex_cli4 ex_cdir (MkCDir ex_id None None 1 false) (lit "a") 2 3 ex_srv sd);
    try reflexivity; try lia; try discriminate.
  split; [reflexivity |]. intros _. split; [reflexivity |]. exists g. split; [exact Eg | reflexivity].
Defined.

Lemma Mkfls1_delivers_witness :
  ∃ c' buf', CliMkfls1 false ex_no_call 0 ex_root (lit "b") 420 true 0 (MkWriBuf [1; 97] 1) ex_cli_local
               = Some (OK, buf', c') /\ inoq (world c') = 1 /\ parse_names 1 [1; 97] = [lit "a"] /\
    buffers [lit "b"] buf'.
Proof.
  destruct (CliMkfls1 false ex_no_call 0 ex_root (lit "b") 420 true 0 (MkWriBuf [1; 97] 1) ex_cli_local)
    as [[[s buf'] c'] |] eqn:E; [| vm_compute in E; discriminate E].
  pose proof (f_equal (λ r, (λ x, (x.1.1, inoq (world x.2))) <$> r) E) as Es. vm_compute in Es.
  injection Es as <- Ei.
  pose proof (Mkfls1_delivers false ex_no_call 0 ex_root (lit "b") 420 true 0 (MkWriBuf [1; 97] 1) [lit "a"]
                ex_cli_local _ buf' c' ltac:(split; reflexivity) ltac:(by_compute) ltac:(by_compute) E)
    as (r & _ & Hp & Hb).
  exists c', buf'. split; [reflexivity |]. split; [exact (eq_sym Ei) |]. split; [exact Hp | exact Hb].
Defined.
