(* ===== verification/FsConc.v ===== *)
(** * The metadata server under concurrency ([fs.cc])

    [Mkfle], [Mkdir], [Mkfls] and [Lstat] as threads.  A step of a thread is a section of its
    code that holds one mutex ([mutex_] or the [mu] of a directory), or one access to the
    database, which runs under no mutex but under the [busy] flags of the name subsets.

    Two step relations share these sections.  In [cstep] a thread that finds a flag set has no
    step until the flag is clear, as if it were signalled at every step of another thread: these are
    more schedules than the code has, so it is the relation for safety.  In [wstep] each directory
    has its condition variable: such a thread goes to sleep in the queue of [dir->cv] and
    runs again only after a [SignalAll] on it (or a [spurious] wake-up): it is the relation for
    termination. *)
From S2P Require Import Prelude Status Coding Hashing FsTypes Keys Giga HashTable Lru.
From S2P Require Import Mxdb FsDb Fs FsOps.

(** ** Operations in progress *)
Inductive ThreadCall :=
  | CallMknod (mk : Z -> Z -> User -> Z -> Stat) (who : User) (parent : LookupStat) (name : Slice) (mode now : Z)
  | CallMkfls (who : User) (parent : LookupStat) (namearr : Slice) (mode n now : Z)
  | CallLstat (who : User) (parent : LookupStat) (name : Slice) (now : Z).

(** Where a thread stands: the section it runs next, and its local variables. *)
Inductive Phase :=
  | Idle
  | Entering (dir : Ptr) (myino : Z)
  | Waiting (dir : Ptr) (myino : Z) (ways : list nat)
  | Working (dir : Ptr) (myino m : Z) (todo : list Slice) (stats : FilesystemDbStats)
  | Putting (dir : Ptr) (myino m : Z) (name : Slice) (todo : list Slice) (stats : FilesystemDbStats)
  | Leaving (dir : Ptr) (myino : Z) (s : Status) (m : Z) (stats : FilesystemDbStats)
  | Reading (dir : Ptr)
  | Merging (dir : Ptr) (s : Status) (stat : option Stat) (stats : FilesystemDbStats)
  | Releasing (dir : Ptr) (myino : Z) (s : Status) (n : Z) (stat : option Stat)
  | Finished (myino : Z) (s : Status) (n : Z) (stat : option Stat).

(** The threads of a server. *)
Abbreviation Threads := (list (ThreadCall * Phase)).
(** The threads asleep in [Wait], each with the directory of the condition variable, in the order in which they
    went to sleep. *)
Abbreviation Sleepers := (list (nat * Ptr)).

Definition call_parent (c : ThreadCall) : LookupStat :=
  match c with CallMknod _ _ p _ _ _ => p | CallMkfls _ p _ _ _ _ => p | CallLstat _ p _ _ => p end.
Definition call_id (c : ThreadCall) : DirId := DirId_of_LookupStat (call_parent c).
(** The inode numbers a call reserves, the name subsets it locks and the names it creates. *)
Definition call_inos (c : ThreadCall) : Z :=
  match c with CallMknod _ _ _ _ _ _ => 1 | CallMkfls _ _ _ _ n _ => n | CallLstat _ _ _ _ => 0 end.
Definition call_ways (c : ThreadCall) : list nat :=
  match c with CallMknod _ _ _ name _ _ => [name_way name] | CallMkfls _ _ _ _ _ _ => seq 0 kWays | CallLstat _ _ _ _ => [] end.
Definition call_names (c : ThreadCall) : list Slice :=
  match c with
  | CallMknod _ _ _ name _ _ => [name]
  | CallMkfls _ _ namearr _ n _ => parse_names (Z.to_nat n) namearr
  | CallLstat _ _ _ _ => []
  end.
(** The stat of the [m]-th name. *)
Definition call_stat (options : FilesystemOptions) (c : ThreadCall) (myino m : Z) : Stat :=
  match c with
  | CallMknod mk who _ _ mode _ => mk (mydno options) myino who mode
  | CallMkfls who _ _ mode n _ =>
      SetInodeNo (u64 (u64 (myino - n + 1) + m)) (file_stat (mydno options) 0 who mode)
  | CallLstat _ _ _ _ => MkStat 0 0 0 0 0 0 0 0 0
  end.
(** What [*n] is when the call is refused, and when it created [m] names. *)
Definition refused_n (c : ThreadCall) : Z := match c with CallMkfls _ _ _ _ n _ => n | _ => 0 end.
Definition created_n (c : ThreadCall) (m : Z) : Z := match c with CallMkfls _ _ _ _ _ _ => u32 m | _ => m end.

(** The lease and permission checks. *)
Definition call_refusal (options : FilesystemOptions) (c : ThreadCall) : option Status :=
  match c with
  | CallMknod _ who p _ _ now => refusal IsDirWriteOk (Err kAccessDenied "No write perm") options p who now
  | CallMkfls who p _ _ _ now => refusal IsDirWriteOk (Err kAccessDenied "No write perm") options p who now
  | CallLstat who p _ now => refusal IsLookupOk (Err kAccessDenied "No dir x perm") options p who now
  end.
(** The name whose partition is checked; a batch checks none. *)
Definition call_checked (c : ThreadCall) : option Slice :=
  match c with CallMknod _ _ _ name _ _ => Some name | CallMkfls _ _ _ _ _ _ => None | CallLstat _ _ name _ => Some name end.

(** Taking name subsets in order up to the first that is busy: those left to take. *)
Fixpoint take_ways (ways : list nat) (d : Dir) : option (list nat * Dir) :=
  match ways with
  | [] => Some ([], d)
  | i :: ways' => b ← busy d !! i; if (b : bool) then Some (ways, d) else take_ways ways' (set_busy i true d)
  end.
Definition free_ways (ways : list nat) (d : Dir) : Dir := foldl (λ d i, set_busy i false d) d ways.

Section Conc.
Context {DX : Type} `{KvStore DX}.
Variable ndebug : bool.
Implicit Types (fs : FS DX) (dir : Ptr) (c : ThreadCall).

(** The first section under [mutex_]: the control block, and the inode numbers reserved. *)
Definition step_acquire c fs : option (Phase * FS DX) :=
  '(dir, fs) ← AcquireDir ndebug (call_id c) fs;
  let fs := match c with CallLstat _ _ _ _ => fs | _ => set_inoq (u64 (inoq fs + call_inos c)) fs end in
  Some (Entering dir (inoq fs), fs).

(** Trying to take the name subsets left; the thread waits if it cannot. *)
Definition step_lock c dir (myino : Z) (ways : list nat) fs : option (Phase * FS DX) :=
  d ← dir_heap fs !! dir;
  '(rest, d) ← take_ways ways d;
  Some (match rest with [] => Working dir myino 0 (call_names c) stats0 | _ => Waiting dir myino rest end, set_dir dir d fs).

(** The checks, and the section under [dir->mu] up to the first wait. *)
Definition step_enter c dir (myino : Z) fs : option (Phase * FS DX) :=
  match call_refusal (fs_options fs) c with
  | Some r => Some (Releasing dir myino r (refused_n c) None, fs)
  | None =>
      fs ← MaybeFetchDir ndebug dir fs; d ← dir_heap fs !! dir;
      b ← match call_checked c with Some name => IsDirPartitionOk ndebug (fs_options fs) d name | None => Some true end;
      if negb b then Some (Releasing dir myino (Err kAccessDenied "Wrong dir partition") (refused_n c) None, fs)
      else match c with
           | CallLstat _ _ _ _ => Some (Reading dir, fs)
           | _ => step_lock c dir myino (call_ways c) fs
           end
  end.

(** Waking up: no step while the next name subset is busy. *)
Definition step_wake c dir (myino : Z) (ways : list nat) fs : option (Phase * FS DX) :=
  d ← dir_heap fs !! dir;
  match ways with
  | i :: _ => b ← busy d !! i; if (b : bool) then None else step_lock c dir myino ways fs
  | [] => None
  end.

(** The two halves of [CheckAndPut], for the next name. *)
Definition step_check c dir (myino m : Z) (todo : list Slice) (stats : FilesystemDbStats) fs : Phase :=
  match todo with
  | [] => Leaving dir myino OK m stats
  | name :: todo =>
      if negb (skip_name_collision_checks (fs_options fs)) then
        let '(s, _, stats) := DbGet fs (call_id c) name stats in
        let s := if ok s then MkStatus kAlreadyExists name [] else if IsNotFound s then OK else s in
        if ok s then Putting dir myino m name todo stats else Leaving dir myino s m stats
      else Putting dir myino m name todo stats
  end.
Definition step_put c dir (myino m : Z) (name : Slice) (todo : list Slice) (stats : FilesystemDbStats) fs
    : option (Phase * FS DX) :=
  '(s, fs, stats) ← DbPut fs (call_id c) name (call_stat (fs_options fs) c myino m) stats;
  Some (if ok s then Working dir myino (m + 1) todo stats else Leaving dir myino s m stats, fs).

(** The last section under [dir->mu]. *)
Definition step_leave c dir (myino : Z) (s : Status) (m : Z) (stats : FilesystemDbStats) fs : option (Phase * FS DX) :=
  d ← dir_heap fs !! dir;
  Some (Releasing dir myino s (created_n c m) None, set_dir dir (free_ways (call_ways c) (merge_stats stats d)) fs).
Definition step_merge dir (s : Status) (stat : option Stat) (stats : FilesystemDbStats) fs : option (Phase * FS DX) :=
  d ← dir_heap fs !! dir; Some (Releasing dir 0 s 0 stat, set_dir dir (merge_stats stats d) fs).

(** The last section under [mutex_]. *)
Definition reuse c (myino n : Z) fs : FS DX :=
  match c with
  | CallMknod _ _ _ _ _ _ => TryReuseIno myino 1 fs
  | CallMkfls _ _ _ _ n0 _ =>
      let startino := u64 (myino - n0 + 1) in
      let x := u64 (myino - startino + 1) in TryReuseIno myino (u64 (x - n)) fs
  | CallLstat _ _ _ _ => fs
  end.
Definition step_release c dir (myino : Z) (s : Status) (n : Z) (stat : option Stat) fs : option (Phase * FS DX) :=
  let fs := if negb (ok s) then reuse c myino n fs else fs in
  fs ← ReleaseDir ndebug dir fs;
  let stat := match c with CallMknod _ _ _ _ _ _ => Some (call_stat (fs_options fs) c myino 0) | _ => stat end in
  Some (Finished myino s n stat, fs).

Definition tstep c (ph : Phase) fs : option (Phase * FS DX) :=
  match ph with
  | Idle => step_acquire c fs
  | Entering dir myino => step_enter c dir myino fs
  | Waiting dir myino ways => step_wake c dir myino ways fs
  | Working dir myino m todo stats => Some (step_check c dir myino m todo stats fs, fs)
  | Putting dir myino m name todo stats => step_put c dir myino m name todo stats fs
  | Leaving dir myino s m stats => step_leave c dir myino s m stats fs
  | Reading dir =>
      match c with
      | CallLstat _ _ name _ =>
          let '(s, stat, stats) := DbGet fs (call_id c) name stats0 in Some (Merging dir s stat stats, fs)
      | _ => None
      end
  | Merging dir s stat stats => step_merge dir s stat stats fs
  | Releasing dir myino s n stat => step_release c dir myino s n stat fs
  | Finished _ _ _ _ => None
  end.

(** ** A server and its threads *)

Inductive cstep : FS DX * Threads -> FS DX * Threads -> Prop :=
  | cstep_thread t c ph ph' fs fs' (ts : Threads) :
      ts !! t = Some (c, ph) -> tstep c ph fs = Some (ph', fs') ->
      cstep (fs, ts) (fs', <[t := (c, ph')]> ts).
Definition spawn (calls : list ThreadCall) : Threads := (λ c, (c, Idle)) <$> calls.
Definition finished (ph : Phase) : Prop := match ph with Finished _ _ _ _ => True | _ => False end.

(** ** The condition variables of the directories *)

Definition Wait (t : nat) dir (q : Sleepers) : Sleepers := q ++ [(t, dir)].
Definition SignalAll dir (q : Sleepers) : Sleepers := filter (λ x, x.2 ≠ dir) q.

(** The next section of a thread that is awake.  After [Wait] the loop tests the flag again, and [step_lock]
    leaves everything as it is when the flag is still set. *)
Definition section c (ph : Phase) fs : option (Phase * FS DX) :=
  match ph with Waiting dir myino ways => step_lock c dir myino ways fs | _ => tstep c ph fs end.

(** What the section did to the condition variable: it ended with [SignalAll] or in [Wait]. *)
Definition cv_effect (t : nat) (ph ph' : Phase) (q : Sleepers) : Sleepers :=
  match ph, ph' with
  | Leaving dir _ _ _ _, _ => SignalAll dir q
  | _, Waiting dir _ _ => Wait t dir q
  | _, _ => q
  end.

Definition run_thread (t : nat) (x : FS DX * Threads * Sleepers) : option (FS DX * Threads * Sleepers) :=
  let '(fs, ts, q) := x in
  '(c, ph) ← ts !! t;
  if decide (t ∈ q.*1) then None
  else '(ph', fs) ← section c ph fs; Some (fs, <[t := (c, ph')]> ts, cv_effect t ph ph' q).
Definition wstep (x y : FS DX * Threads * Sleepers) : Prop := ∃ t, run_thread t x = Some y.

(** [Wait] may return without a signal. *)
Definition spurious (x y : FS DX * Threads * Sleepers) : Prop :=
  ∃ t, t ∈ x.2.*1 /\ y = (x.1, filter (λ s, s.1 ≠ t) x.2).
End Conc.
