(* ===== verification/FsConcInv.v ===== *)
(** * A thread alone behaves as the operation of the server

    When no other thread takes a step between its own, a thread goes through the sections of its
    code to the result and the state that [Mknod], [Mkfls] and [Lstat] of [Fs] give. *)
From S2P Require Import Prelude Status Coding Hashing FsTypes Keys Giga Mxdb.
From S2P Require Import MxdbProps HashTable Lru LruProps FsDb Fs FsOps.
From S2P Require Import FsProps FsConc.

Section Seq.
Context {DX : Type} `{KvStore DX}.
Variable ndebug : bool.
Implicit Types (fs : FS DX) (dir : Ptr) (c : ThreadCall).

Definition astep c (x y : Phase * FS DX) : Prop := tstep ndebug c x.1 x.2 = Some y.

Lemma astep_rtc c ph fs ph' fs' y :
  tstep ndebug c ph fs = Some (ph', fs') -> rtc (astep c) (ph', fs') y -> rtc (astep c) (ph, fs) y.
Proof. intros E Hr. by eapply rtc_l. Qed.

(** ** The options never change *)
Lemma run_deleters_options l fs fs' : run_deleters ndebug l fs = Some fs' -> fs_options fs' = fs_options fs.
Proof.
  revert fs. induction l as [| [key p] l IH]; intros fs E; cbn [run_deleters] in E; [by injection E as <- |].
  destruct (DeleteDir ndebug key p fs) as [fs1 |] eqn:E1; [| done]. cbn [mbind option_bind] in E. rewrite (IH _ E).
  unfold DeleteDir in E1. destruct (dir_heap fs !! p); [| done]. cbn [mbind option_bind] in E1.
  destruct (assert_ _ _); [| done]. cbn [mbind option_bind] in E1. by injection E1 as <-.
Qed.

Lemma AcquireDir_options id fs p fs' : AcquireDir ndebug id fs = Some (p, fs') -> fs_options fs' = fs_options fs.
Proof.
  unfold AcquireDir. destruct (Lookup _ _ _) as [[[h |] c'] |]; cbn [mbind option_bind]; [| | done].
  - destruct (heap c' !! h); [| done]. cbn [mbind option_bind]. destruct (dir_heap fs !! _); [| done].
    cbn [mbind option_bind]. destruct (assert_ _ _); [| done]. by intros [= <- <-].
  - destruct (deref _ _) as [q |].
    + destruct (dir_heap fs !! q); [| done]. cbn [mbind option_bind]. destruct (heap _ !! _); [| done].
      cbn [mbind option_bind]. destruct (assert_ _ _); [| done]. cbn [mbind option_bind].
      destruct (Ref _ _); [| done]. by intros [= <- <-].
    + destruct (Insert _ _ _ _ _ _) as [[[h c2] dead] |]; [| done]. cbn [mbind option_bind].
      destruct (run_deleters _ _ _) as [fs1 |] eqn:E; [| done]. intros [= <- <-].
      by rewrite (run_deleters_options _ _ _ E).
Qed.

Lemma MaybeFetchDir_options dir fs fs' : MaybeFetchDir ndebug dir fs = Some fs' -> fs_options fs' = fs_options fs.
Proof.
  unfold MaybeFetchDir. destruct (dir_heap fs !! dir) as [d |]; [| done]. cbn [mbind option_bind].
  destruct (fetched d); [by intros [= <-] |]. destruct (NewRep _ _); [| done]. cbn [mbind option_bind].
  destruct (SetAll _ _ _); [| done]. by intros [= <-].
Qed.

(** ** Creating one name *)
Lemma take_one i d d' : lock_way i d = Some d' -> take_ways [i] d = Some ([], d').
Proof.
  unfold lock_way. cbn [take_ways]. destruct (busy d !! i) as [b |]; [| done]. cbn [mbind option_bind].
  destruct b; [done |]. by intros [= <-].
Qed.

(** [CheckAndPut] in two steps. *)
Lemma CheckAndPut_steps c dir myino m name todo stats fs s fs' stats' :
  CheckAndPut fs (call_id c) name (call_stat (fs_options fs) c myino m) stats = Some (s, fs', stats') ->
  rtc (astep c) (Working dir myino m (name :: todo) stats, fs)
    (if ok s then Working dir myino (m + 1) todo stats' else Leaving dir myino s m stats', fs').
Proof.
  unfold CheckAndPut. intros E.
  assert (∀ st, DbPut fs (call_id c) name (call_stat (fs_options fs) c myino m) st = Some (s, fs', stats') ->
    rtc (astep c) (Putting dir myino m name todo st, fs)
      (if ok s then Working dir myino (m + 1) todo stats' else Leaving dir myino s m stats', fs')) as Hput.
  { intros st Ep. eapply astep_rtc; [| apply rtc_refl]. cbn [tstep]. unfold step_put. rewrite Ep. done. }
  destruct (negb (skip_name_collision_checks (fs_options fs))) eqn:Ek.
  - destruct (DbGet fs (call_id c) name stats) as [[s0 st0] stats0'] eqn:Eg.
    set (s1 := if ok s0 then _ else _) in E. eapply astep_rtc.
    { cbn [tstep step_check]. rewrite Ek, Eg. fold s1. done. }
    destruct (ok s1) eqn:E1; [by apply Hput |]. injection E as <- <- <-. rewrite E1. apply rtc_refl.
  - eapply astep_rtc; [cbn [tstep step_check]; rewrite Ek; done |]. cbn [ok] in E. by apply Hput.
Qed.

Lemma CheckAndPut_options fs id name stat stats s fs' stats' :
  CheckAndPut fs id name stat stats = Some (s, fs', stats') -> fs_options fs' = fs_options fs.
Proof.
  assert (∀ st, DbPut fs id name stat st = Some (s, fs', stats') -> fs_options fs' = fs_options fs) as Hput.
  { unfold DbPut. intros st. destruct (db_ fs); [| done]. cbn [mbind option_bind].
    destruct (FilesystemDb_Put _ _ _ _ _) as [[s1 db1] st1]. by intros [= <- <- <-]. }
  unfold CheckAndPut. destruct (negb _).
  - destruct (DbGet fs id name stats) as [[s0 ?] stats0']. destruct (ok (if ok s0 then _ else _)); [apply Hput |].
    by intros [= <- <- <-].
  - apply Hput.
Qed.

(** The loop of a batch. *)
Lemma Mknos_loop_steps who parent namearr mode n now dir myino k m input stat stats fs s m' fs' stats' :
  let c := CallMkfls who parent namearr mode n now in
  (∀ i, SetInodeNo i stat = SetInodeNo i (file_stat (mydno (fs_options fs)) 0 who mode)) ->
  Mknos_loop k m (call_id c) input (u64 (myino - n + 1)) stat stats OK fs = Some (s, m', fs', stats') ->
  rtc (astep c) (Working dir myino m (parse_names k input) stats, fs) (Leaving dir myino s m' stats', fs').
Proof.
  intros c. revert m input stat stats fs. induction k as [| k IH]; intros m input stat stats fs Hst E;
    cbn [Mknos_loop parse_names] in *.
  { injection E as <- <- <- <-. eapply astep_rtc; [done | apply rtc_refl]. }
  destruct (GetLengthPrefixedSlice input) as [[name rest] |].
  2: { injection E as <- <- <- <-. eapply astep_rtc; [done | apply rtc_refl]. }
  rewrite Hst in E. change (SetInodeNo _ _) with (call_stat (fs_options fs) c myino m) in E.
  destruct (CheckAndPut fs (call_id c) name (call_stat (fs_options fs) c myino m) stats) as [[[s1 fs1] stats1] |] eqn:Ec; [| done].
  cbn [mbind option_bind] in E. pose proof (CheckAndPut_options _ _ _ _ _ _ _ _ Ec) as Eo.
  etrans; [by eapply CheckAndPut_steps |].
  destruct (ok s1) eqn:E1; cbn [negb] in E.
  - assert (s1 = OK) as -> by (by apply bool_decide_eq_true in E1). eapply IH; [| exact E].
    intros i. by rewrite Eo.
  - injection E as <- <- <- <-. apply rtc_refl.
Qed.

(** ** Whole operations *)
Lemma release_steps c dir myino s n stat fs fs1 fs' :
  fs1 = (if negb (ok s) then reuse c myino n fs else fs) -> ReleaseDir ndebug dir fs1 = Some fs' ->
  rtc (astep c) (Releasing dir myino s n stat, fs)
    (Finished myino s n (match c with CallMknod _ _ _ _ _ _ => Some (call_stat (fs_options fs) c myino 0) | _ => stat end), fs').
Proof.
  intros -> E. eapply astep_rtc; [| apply rtc_refl]. cbn [tstep]. unfold step_release. rewrite E. cbn [mbind option_bind].
  assert (fs_options fs' = fs_options fs) as ->; [| done].
  unfold ReleaseDir in E. destruct (dir_heap _ !! dir); [| done]. cbn [mbind option_bind] in E.
  destruct (Release _ _ _) as [[c' dead] |]; [| done]. cbn [mbind option_bind] in E.
  rewrite (run_deleters_options _ _ _ E). cbn [set_dlru fs_options].
  destruct (negb (ok s)); [| done]. destruct c; cbn; unfold TryReuseIno; by repeat case_match.
Qed.

(** The sections of [Mknod1]. *)
Lemma Mknod1_steps mk who parent name mode now dir myino fs s fs' :
  let c := CallMknod mk who parent name mode now in
  Mknod1 ndebug who (call_id c) name parent dir (mk (mydno (fs_options fs)) myino who mode) stats0 now fs = Some (s, fs') ->
  fs_options fs' = fs_options fs /\ ∃ n, rtc (astep c) (Entering dir myino, fs) (Releasing dir myino s n None, fs').
Proof.
  intros c E. unfold Mknod1 in E.
  assert (∀ r, call_refusal (fs_options fs) c = Some r -> (r, fs) = (s, fs') ->
    fs_options fs' = fs_options fs /\ ∃ n, rtc (astep c) (Entering dir myino, fs) (Releasing dir myino s n None, fs')) as Href.
  { intros r Hr [= <- <-]. split; [done |]. exists 0. eapply astep_rtc; [| apply rtc_refl]. cbn [tstep]. unfold step_enter. by rewrite Hr. }
  destruct (negb (IsLeaseOk (fs_options fs) parent now)) eqn:El.
  { injection E as <- <-. eapply Href; [| done]. cbn [call_refusal c]. unfold refusal. by rewrite El. }
  destruct (negb (IsDirWriteOk (fs_options fs) parent who)) eqn:Ew.
  { injection E as <- <-. eapply Href; [| done]. cbn [call_refusal c]. unfold refusal. by rewrite El, Ew. }
  assert (call_refusal (fs_options fs) c = None) as Hr by (cbn [call_refusal c]; unfold refusal; by rewrite El, Ew).
  destruct (MaybeFetchDir ndebug dir fs) as [fs1 |] eqn:Ef; [| done]. cbn [mbind option_bind] in E.
  pose proof (MaybeFetchDir_options _ _ _ Ef) as Eo.
  destruct (dir_heap fs1 !! dir) as [d |] eqn:Ed; [| done]. cbn [mbind option_bind] in E.
  destruct (IsDirPartitionOk ndebug (fs_options fs1) d name) as [b |] eqn:Eb; [| done]. cbn [mbind option_bind] in E.
  destruct (negb b) eqn:Enb.
  { injection E as <- <-. split; [done |]. exists 0. eapply astep_rtc; [| apply rtc_refl]. cbn [tstep]. unfold step_enter.
    rewrite Hr, Ef. cbn [mbind option_bind]. rewrite Ed. cbn [mbind option_bind call_checked c].
    rewrite Eb. cbn [mbind option_bind]. by rewrite Enb. }
  destruct (lock_way (name_way name) d) as [d1 |] eqn:El1; [| done]. cbn [mbind option_bind] in E.
  change (mk (mydno (fs_options fs)) myino who mode) with (call_stat (fs_options fs) c myino 0) in E.
  rewrite <- Eo in E. change (fs_options fs1) with (fs_options (set_dir dir d1 fs1)) in E.
  destruct (CheckAndPut (set_dir dir d1 fs1) (call_id c) name _ stats0) as [[[s1 fs2] stats'] |] eqn:Ec; [| done].
  cbn [mbind option_bind] in E. destruct (dir_heap fs2 !! dir) as [d2 |] eqn:Ed2; [| done]. injection E as <- <-.
  pose proof (CheckAndPut_options _ _ _ _ _ _ _ _ Ec) as Eo2. split; [cbn in *; congruence |].
  exists (if ok s1 then 1 else 0). eapply astep_rtc.
  { cbn [tstep]. unfold step_enter. rewrite Hr, Ef. cbn [mbind option_bind]. rewrite Ed. cbn [mbind option_bind call_checked c].
    rewrite Eb. cbn [mbind option_bind]. rewrite Enb. unfold step_lock. rewrite Ed. cbn [mbind option_bind call_ways c].
    rewrite (take_one _ _ _ El1). done. }
  etrans; [exact (CheckAndPut_steps c dir myino 0 name [] stats0 _ _ _ _ Ec) |].
  assert (∀ m, rtc (astep c) (Leaving dir myino s1 m stats', fs2)
    (Releasing dir myino s1 m None, set_dir dir (set_busy (name_way name) false (merge_stats stats' d2)) fs2)) as Hleave.
  { intros m. eapply astep_rtc; [| apply rtc_refl]. cbn [tstep]. unfold step_leave. by rewrite Ed2. }
  destruct (ok s1) eqn:E1; [| apply Hleave]. assert (s1 = OK) as -> by (by apply bool_decide_eq_true in E1).
  eapply astep_rtc; [done | apply Hleave].
Qed.

Lemma Mknod_steps mk who parent name mode now fs s st fs' :
  Mknod ndebug mk who parent name mode now fs = Some (s, st, fs') ->
  ∃ myino n, rtc (astep (CallMknod mk who parent name mode now)) (Idle, fs) (Finished myino s n st, fs').
Proof.
  set (c := CallMknod mk who parent name mode now). unfold Mknod. intros E. change (DirId_of_LookupStat parent) with (call_id c) in E.
  destruct (AcquireDir ndebug (call_id c) fs) as [[dir fs1] |] eqn:Ea; [| done]. cbn [mbind option_bind] in E.
  set (fs2 := set_inoq (u64 (inoq fs1 + 1)) fs1) in E. set (myino := inoq fs2) in E.
  destruct (Mknod1 _ _ _ _ _ _ _ _ _ fs2) as [[s1 fs3] |] eqn:Em; [| done]. cbn [mbind option_bind] in E.
  destruct (Mknod1_steps mk who parent name mode now dir myino fs2 s1 fs3 Em) as (Eo & n & Hs).
  destruct (ReleaseDir ndebug dir _) as [fs4 |] eqn:Er; [| done]. injection E as <- <- <-.
  exists myino, n. eapply astep_rtc; [cbn [tstep]; unfold step_acquire; rewrite Ea; done |].
  etrans; [exact Hs |]. etrans; [eapply (release_steps c); [reflexivity | exact Er] |]. cbn [call_stat c]. rewrite Eo. apply rtc_refl.
Qed.

(** All name subsets. *)
Lemma take_all n i d d' : lock_ways n i d = Some d' -> take_ways (seq i n) d = Some ([], d').
Proof.
  revert i d. induction n as [| n IH]; intros i d E; cbn [lock_ways seq take_ways] in *; [by injection E as -> |].
  unfold lock_way in E. destruct (busy d !! i) as [b |]; [| done]. cbn [mbind option_bind] in *.
  destruct b; [done |]. cbn [mbind option_bind] in E. by apply IH.
Qed.
Lemma free_all n i d : free_ways (seq i n) d = unlock_ways n i d.
Proof. revert i d. induction n as [| n IH]; intros i d; [done |]. cbn [seq unlock_ways]. unfold free_ways in *. cbn [foldl]. apply IH. Qed.

Lemma Mkfls_steps who parent namearr mode n now fs s m fs' :
  Mkfls ndebug who parent namearr mode n now fs = Some (s, m, fs') ->
  ∃ myino, rtc (astep (CallMkfls who parent namearr mode n now)) (Idle, fs) (Finished myino s m None, fs').
Proof.
  set (c := CallMkfls who parent namearr mode n now). unfold Mkfls. intros E. change (DirId_of_LookupStat parent) with (call_id c) in E.
  destruct (AcquireDir ndebug (call_id c) fs) as [[dir fs1] |] eqn:Ea; [| done]. cbn [mbind option_bind] in E.
  set (fs2 := set_inoq (u64 (inoq fs1 + n)) fs1) in E. set (myino := inoq fs2) in E.
  destruct (Mknos1 _ _ _ _ _ _ _ _ _ _ _ fs2) as [[[s1 m1] fs3] |] eqn:Em; [| done]. cbn [mbind option_bind] in E.
  destruct (ReleaseDir ndebug dir _) as [fs4 |] eqn:Er; [| done]. injection E as <- <- <-.
  exists myino. eapply astep_rtc; [cbn [tstep]; unfold step_acquire; rewrite Ea; done |]. fold myino.
  assert (rtc (astep c) (Entering dir myino, fs2) (Releasing dir myino s1 m1 None, fs3)) as Hs.
  2: { etrans; [exact Hs |]. eapply (release_steps c); [reflexivity | exact Er]. }
  clear Er. unfold Mknos1 in Em.
  assert (∀ r, call_refusal (fs_options fs2) c = Some r -> (r, n, fs2) = (s1, m1, fs3) ->
    rtc (astep c) (Entering dir myino, fs2) (Releasing dir myino s1 m1 None, fs3)) as Href.
  { intros r Hr [= <- <- <-]. eapply astep_rtc; [| apply rtc_refl]. cbn [tstep]. unfold step_enter. by rewrite Hr. }
  destruct (negb (IsLeaseOk (fs_options fs2) parent now)) eqn:El.
  { injection Em as <- <- <-. eapply Href; [| done]. cbn [call_refusal c]. unfold refusal. by rewrite El. }
  destruct (negb (IsDirWriteOk (fs_options fs2) parent who)) eqn:Ew.
  { injection Em as <- <- <-. eapply Href; [| done]. cbn [call_refusal c]. unfold refusal. by rewrite El, Ew. }
  assert (call_refusal (fs_options fs2) c = None) as Hr by (cbn [call_refusal c]; unfold refusal; by rewrite El, Ew). clear Href.
  destruct (MaybeFetchDir ndebug dir fs2) as [fs5 |] eqn:Ef; [| done]. cbn [mbind option_bind] in Em.
  pose proof (MaybeFetchDir_options _ _ _ Ef) as Eo.
  destruct (dir_heap fs5 !! dir) as [d |] eqn:Ed; [| done]. cbn [mbind option_bind] in Em.
  destruct (lock_ways kWays 0 d) as [d1 |] eqn:El1; [| done]. cbn [mbind option_bind] in Em.
  destruct (Mknos_loop _ _ _ _ _ _ _ _ _) as [[[[s2 m2] fs6] stats'] |] eqn:Ec; [| done].
  cbn [mbind option_bind] in Em. destruct (dir_heap fs6 !! dir) as [d2 |] eqn:Ed2; [| done]. injection Em as <- <- <-.
  eapply astep_rtc.
  { cbn [tstep]. unfold step_enter. rewrite Hr, Ef. cbn [mbind option_bind]. rewrite Ed. cbn [mbind option_bind call_checked c negb].
    unfold step_lock. rewrite Ed. cbn [mbind option_bind call_ways c]. rewrite (take_all _ _ _ _ El1). done. }
  etrans.
  { refine (Mknos_loop_steps who parent namearr mode n now dir myino _ _ _ _ _ _ _ _ _ _ _ Ec).
    intros i. cbn [fs_options set_dir]. rewrite Eo. done. }
  eapply astep_rtc; [| apply rtc_refl]. cbn [tstep]. unfold step_leave. rewrite Ed2. cbn [mbind option_bind call_ways c].
  by rewrite free_all.
Qed.

Lemma Lstat_steps who parent name now fs s st fs' :
  Lstat ndebug who parent name now fs = Some (s, st, fs') ->
  ∃ myino, rtc (astep (CallLstat who parent name now)) (Idle, fs) (Finished myino s 0 st, fs').
Proof.
  set (c := CallLstat who parent name now). unfold Lstat. intros E. change (DirId_of_LookupStat parent) with (call_id c) in E.
  destruct (AcquireDir ndebug (call_id c) fs) as [[dir fs1] |] eqn:Ea; [| done]. cbn [mbind option_bind] in E.
  destruct (Lstat1 _ _ _ _ _ _ _ _ fs1) as [[[s1 st1] fs3] |] eqn:Em; [| done]. cbn [mbind option_bind] in E.
  destruct (ReleaseDir ndebug dir _) as [fs4 |] eqn:Er; [| done]. injection E as <- <- <-.
  assert (∃ i, rtc (astep c) (Entering dir (inoq fs1), fs1) (Releasing dir i s1 0 st1, fs3)) as [i Hs].
  2: { exists i. eapply astep_rtc; [cbn [tstep]; unfold step_acquire; rewrite Ea; done |]. etrans; [exact Hs |]. eapply (release_steps c); [| exact Er]. by destruct (negb (ok s1)). }
  clear Er. unfold Lstat1 in Em.
  assert (∀ r, call_refusal (fs_options fs1) c = Some r -> (r, None, fs1) = (s1, st1, fs3) ->
    ∃ i, rtc (astep c) (Entering dir (inoq fs1), fs1) (Releasing dir i s1 0 st1, fs3)) as Href.
  { intros r Hr [= <- <- <-]. eexists. eapply astep_rtc; [| apply rtc_refl]. cbn [tstep]. unfold step_enter. by rewrite Hr. }
  destruct (negb (IsLeaseOk (fs_options fs1) parent now)) eqn:El.
  { injection Em as <- <- <-. eapply Href; [| done]. cbn [call_refusal c]. unfold refusal. by rewrite El. }
  destruct (negb (IsLookupOk (fs_options fs1) parent who)) eqn:Ew.
  { injection Em as <- <- <-. eapply Href; [| done]. cbn [call_refusal c]. unfold refusal. by rewrite El, Ew. }
  assert (call_refusal (fs_options fs1) c = None) as Hr by (cbn [call_refusal c]; unfold refusal; by rewrite El, Ew). clear Href.
  destruct (MaybeFetchDir ndebug dir fs1) as [fs5 |] eqn:Ef; [| done]. cbn [mbind option_bind] in Em.
  destruct (dir_heap fs5 !! dir) as [d |] eqn:Ed; [| done]. cbn [mbind option_bind] in Em.
  destruct (IsDirPartitionOk ndebug (fs_options fs5) d name) as [b |] eqn:Eb; [| done]. cbn [mbind option_bind] in Em.
  assert (tstep ndebug c (Entering dir (inoq fs1)) fs1
    = if negb b then Some (Releasing dir (inoq fs1) (Err kAccessDenied "Wrong dir partition") 0 None, fs5) else Some (Reading dir, fs5)) as Ee.
  { cbn [tstep]. unfold step_enter. rewrite Hr, Ef. cbn [mbind option_bind]. rewrite Ed. cbn [mbind option_bind call_checked c].
    rewrite Eb. done. }
  destruct (negb b); [injection Em as <- <- <-; eexists; eapply astep_rtc; [exact Ee | apply rtc_refl] |].
  destruct (DbGet fs5 (call_id c) name stats0) as [[s2 st2] stats'] eqn:Eg. injection Em as <- <- <-.
  exists 0. eapply astep_rtc; [exact Ee |]. eapply astep_rtc.
  { unfold c at 1. cbn [tstep]. fold c. rewrite Eg. done. }
  eapply astep_rtc; [| apply rtc_refl]. cbn [tstep]. unfold step_merge. by rewrite Ed.
Qed.
End Seq.

(** * Threads of the metadata server: control blocks and name subsets

    [locks_ok] relates the control blocks to the threads: their reference counts are the numbers
    of threads inside the directory, and a name subset is busy exactly when one thread holds it.
    Every step preserves it, and a thread without a step is finished or waits for a busy subset. *)

(** ** Sums over the threads *)
Fixpoint total {A} (f : A -> Z) (l : list A) : Z :=
  match l with [] => 0 | x :: l => f x + total f l end.

Lemma total_insert {A} (f : A -> Z) l t x y : l !! t = Some x -> total f (<[t := y]> l) = total f l - f x + f y.
Proof.
  revert t. induction l as [| z l IH]; intros [| t] E; [done | done | |].
  - injection E as ->. change (<[0%nat := y]> (x :: l)) with (y :: l). cbn [total]. lia.
  - change (<[S t := y]> (z :: l)) with (z :: <[t := y]> l). specialize (IH t E). cbn [total]. lia.
Qed.
Lemma total_bounds {A} (f : A -> Z) l : (∀ x, 0 <= f x <= 1) -> 0 <= total f l <= Z.of_nat (length l).
Proof. intros Hf. induction l as [| x l IH]; cbn [total length]; [lia |]. specialize (Hf x). lia. Qed.
Lemma total_nonneg {A} (f : A -> Z) l : (∀ x, 0 <= f x) -> 0 <= total f l.
Proof. intros Hf. induction l as [| x l IH]; cbn [total]; [lia |]. specialize (Hf x). lia. Qed.
Lemma total_pos {A} (f : A -> Z) l t x : (∀ x, 0 <= f x) -> l !! t = Some x -> f x <= total f l.
Proof.
  intros Hf. revert t. induction l as [| y l IH]; intros [| t] E; [done | done | |]; cbn [total].
  - injection E as ->. pose proof (total_nonneg f l Hf). lia.
  - specialize (IH t E). specialize (Hf y). lia.
Qed.

(** ** What a thread holds *)
Definition dir_of (ph : Phase) : option Ptr :=
  match ph with
  | Idle | Finished _ _ _ _ => None
  | Entering p _ | Waiting p _ _ | Working p _ _ _ _ | Putting p _ _ _ _ _ | Leaving p _ _ _ _ | Reading p
  | Merging p _ _ _ | Releasing p _ _ _ _ => Some p
  end.
Definition holds (c : ThreadCall) (ph : Phase) (i : nat) : Prop :=
  match ph with
  | Waiting _ _ rest => i ∈ call_ways c /\ i ∉ rest
  | Working _ _ _ _ _ | Putting _ _ _ _ _ _ | Leaving _ _ _ _ _ => i ∈ call_ways c
  | _ => False
  end.
Definition count (p : Ptr) (ts : Threads) : Z := total (λ x, if decide (dir_of x.2 = Some p) then 1 else 0) ts.
Definition idle (ts : Threads) : Z := total (λ x, match x.2 with Idle => 1 | _ => 0 end) ts.

Definition call_ok (c : ThreadCall) : Prop :=
  DirId_fits (call_id c) /\ names_ok (call_names c) /\
  match c with
  | CallMknod mk who _ _ _ _ => (mk = file_stat \/ mk = dir_stat) /\ User_wf who
  | CallMkfls who _ _ _ n _ => word 32 n /\ User_wf who
  | CallLstat _ _ _ _ => True
  end.
Definition creates (c : ThreadCall) : Prop := match c with CallLstat _ _ _ _ => False | _ => True end.

(** The shape of the local variables. *)
Definition phase_ok (c : ThreadCall) (ph : Phase) : Prop :=
  match ph with
  | Waiting _ _ rest => creates c /\ rest <> [] /\ ∃ l, call_ways c = l ++ rest
  | Working _ _ m todo _ => creates c /\ 0 <= m <= Z.of_nat (length (call_names c)) /\ drop (Z.to_nat m) (call_names c) = todo
  | Putting _ _ m name todo _ => creates c /\ 0 <= m /\ drop (Z.to_nat m) (call_names c) = name :: todo
  | Leaving _ _ s m _ =>
      creates c /\ 0 <= m /\
      (if ok s then m = Z.of_nat (length (call_names c)) else m < Z.of_nat (length (call_names c)))
  | Reading _ => ¬ creates c
  | Merging _ _ _ _ => ¬ creates c
  | Releasing _ _ _ n _ => match c with CallMkfls _ _ _ _ n0 _ => 0 <= n <= n0 | _ => True end
  | _ => True
  end.

Lemma length_parse_names k input : (length (parse_names k input) <= k)%nat.
Proof.
  revert input. induction k as [| k IH]; intros input; cbn [parse_names]; [done |].
  destruct (GetLengthPrefixedSlice input) as [[name rest] |]; cbn [length]; [specialize (IH rest) |]; lia.
Qed.
Lemma length_call_names c : call_ok c -> Z.of_nat (length (call_names c)) <= call_inos c.
Proof.
  intros (_ & _ & Hc). destruct c; cbn [call_names call_inos length] in *; [done | | done].
  pose proof (length_parse_names (Z.to_nat n) namearr). destruct Hc as [[? _] _]. lia.
Qed.
Lemma refused_ok c p i r st : call_ok c -> phase_ok c (Releasing p i r (refused_n c) st).
Proof. intros (_ & _ & Hc). destruct c; cbn [phase_ok refused_n]; try done. destruct Hc as [[? ?] _]. lia. Qed.
Lemma left_ok c p i s m st : call_ok c -> 0 <= m <= Z.of_nat (length (call_names c)) ->
  phase_ok c (Releasing p i s (created_n c m) st).
Proof.
  intros Hc Hm. pose proof (length_call_names c Hc). destruct Hc as (_ & _ & Hc). destruct c; cbn [phase_ok created_n]; try done.
  cbn [call_inos] in *. destruct Hc as [[? ?] _]. rewrite (wrap_small 32) by (split; lia). lia.
Qed.

Lemma call_ways_NoDup c : NoDup (call_ways c).
Proof. destruct c; cbn [call_ways]; [apply NoDup_singleton | apply NoDup_seq | constructor]. Qed.
Lemma call_ways_lt c i : i ∈ call_ways c -> (i < kWays)%nat.
Proof.
  destruct c; cbn [call_ways].
  - intros ->%list_elem_of_singleton. apply name_way_lt.
  - rewrite elem_of_seq. lia.
  - by intros ?%elem_of_nil.
Qed.

(** ** The flags of a control block *)
Definition same_but_busy (d d' : Dir) : Prop :=
  d_id d' = d_id d /\ d_handle d' = d_handle d /\ giga_opts d' = giga_opts d /\ giga d' = giga d /\
  fetched d' = fetched d /\ length (busy d') = length (busy d).

Lemma set_busy_same i b d : same_but_busy d (set_busy i b d).
Proof. split_and!; try done. apply length_insert. Qed.
Lemma same_but_busy_trans d1 d2 d3 : same_but_busy d1 d2 -> same_but_busy d2 d3 -> same_but_busy d1 d3.
Proof. unfold same_but_busy. intuition congruence. Qed.

Lemma busy_set i b d j : (i < length (busy d))%nat ->
  busy (set_busy i b d) !! j = if decide (j = i) then Some b else busy d !! j.
Proof.
  intros Hi. unfold set_busy. cbn [busy]. case_decide as E; [subst; by apply list_lookup_insert_eq |].
  by apply list_lookup_insert_ne, not_eq_sym.
Qed.

Lemma take_ways_spec ways d :
  NoDup ways -> (∀ i, i ∈ ways -> (i < length (busy d))%nat) ->
  ∃ taken rest d', ways = taken ++ rest /\ take_ways ways d = Some (rest, d') /\ same_but_busy d d' /\
    (∀ i, busy d' !! i = Some true <-> busy d !! i = Some true \/ i ∈ taken) /\
    (∀ i, i ∈ taken -> busy d !! i <> Some true) /\
    match rest with [] => True | i :: _ => busy d' !! i = Some true end.
Proof.
  revert d. induction ways as [| i ways IH]; intros d Hnd Hlt; cbn [take_ways].
  { exists [], [], d. split_and!; try done; intros i; rewrite elem_of_nil; tauto. }
  apply list.NoDup_cons in Hnd as [Hni Hnd].
  destruct (lookup_lt_is_Some_2 (busy d) i (Hlt i ltac:(left))) as [b Eb]. rewrite Eb. cbn [mbind option_bind].
  destruct b.
  { exists [], (i :: ways), d. split_and!; try done; intros j; rewrite elem_of_nil; tauto. }
  destruct (IH (set_busy i true d) Hnd) as (taken & rest & d' & -> & E & Hs & Hb & Hf & Hr).
  { intros j Hj. cbn. rewrite length_insert. apply Hlt. by right. }
  exists (i :: taken), rest, d'. split; [done |]. split; [done |].
  split; [eapply same_but_busy_trans; [apply (set_busy_same i true) | done] |].
  assert (i < length (busy d))%nat as Hi by (apply Hlt; by left). split_and!.
  - intros j. rewrite Hb, (busy_set i true d j Hi), elem_of_cons. case_decide; subst; [tauto |].
    naive_solver.
  - intros j [-> | Hj]%elem_of_cons; [by rewrite Eb |]. intros Hj'. apply (Hf j Hj). rewrite (busy_set i true d j Hi).
    case_decide; [done | exact Hj'].
  - exact Hr.
Qed.

Lemma free_ways_spec ways d :
  (∀ i, i ∈ ways -> (i < length (busy d))%nat) ->
  same_but_busy d (free_ways ways d) /\
  ∀ i, busy (free_ways ways d) !! i = Some true <-> busy d !! i = Some true /\ i ∉ ways.
Proof.
  revert d. induction ways as [| i ways IH]; intros d Hlt; unfold free_ways in *; cbn [foldl].
  { split; [by split_and! |]. intros i. rewrite elem_of_nil. tauto. }
  assert (i < length (busy d))%nat as Hi by (apply Hlt; by left).
  destruct (IH (set_busy i false d)) as [Hs Hb].
  { intros j Hj. cbn. rewrite length_insert. apply Hlt. by right. }
  split; [eapply same_but_busy_trans; [apply (set_busy_same i false) | done] |].
  intros j. rewrite Hb, (busy_set i false d j Hi), elem_of_cons. case_decide; subst; [naive_solver | naive_solver].
Qed.

Section Inv.
Context {DX : Type} `{KvLaws DX}.
Variable ndebug : bool.
Implicit Types (fs : FS DX) (ts : Threads) (c : ThreadCall) (ph : Phase) (p : Ptr) (d : Dir).

(** ** The invariant *)
Definition inside c ph p (i : nat) : Prop := dir_of ph = Some p /\ holds c ph i.
Definition holder ts p (i : nat) : Prop := ∃ t c ph, ts !! t = Some (c, ph) /\ inside c ph p i.

Record locks_ok fs ts : Prop := {
  lk_wf : fs_wf fs;
  lk_options : options_ok (fs_options fs);
  lk_db : is_Some (db_ fs);
  lk_capacity : capacity_ (dlru fs) + 1 < 2 ^ 64;
  lk_index : ∀ p d, dir_heap fs !! p = Some d -> index_ok ndebug (fs_options fs) d /\ length (busy d) = kWays;
  lk_refs : ∀ p, refcount fs p = count p ts;
  lk_calls : ∀ t c ph, ts !! t = Some (c, ph) -> call_ok c /\ phase_ok c ph;
  lk_dir : ∀ t c ph p d, ts !! t = Some (c, ph) -> dir_of ph = Some p -> dir_heap fs !! p = Some d -> d_id d = call_id c;
  lk_busy : ∀ p d i, dir_heap fs !! p = Some d -> busy d !! i = Some true <-> holder ts p i;
  lk_excl : ∀ t t' c ph c' ph' p i, ts !! t = Some (c, ph) -> ts !! t' = Some (c', ph') ->
    inside c ph p i -> inside c' ph' p i -> t = t';
  lk_room : Z.of_nat (size (dir_heap fs)) + idle ts < 2 ^ 31;
  lk_threads : Z.of_nat (length ts) < 2 ^ 31
}.

(** What the step of a thread does to the control blocks. *)
Inductive effect c ph fs ph' fs' : Prop :=
  | effect_acquire p d :
      ph = Idle -> dir_of ph' = Some p -> (∀ i, ¬ holds c ph' i) -> fs_wf fs' -> counted fs fs' p 1 ->
      dir_heap fs' !! p = Some d -> d_id d = call_id c ->
      d = default (fresh_dir (call_id c) (d_handle d)) (dir_heap fs !! p) -> effect c ph fs ph' fs'
  | effect_dir p d d' :
      dir_of ph = Some p -> dir_of ph' = Some p -> dir_heap fs !! p = Some d -> dir_changed p d' fs fs' ->
      d_id d' = d_id d -> d_handle d' = d_handle d -> index_ok ndebug (fs_options fs) d' -> length (busy d') = kWays ->
      (∀ i, busy d' !! i = Some true <-> (busy d !! i = Some true /\ ¬ holds c ph i) \/ holds c ph' i) ->
      (∀ i, holds c ph' i -> busy d !! i = Some true -> holds c ph i) -> effect c ph fs ph' fs'
  | effect_db p :
      dir_of ph = Some p -> dir_of ph' = Some p -> (∀ i, holds c ph' i <-> holds c ph i) ->
      dlru fs' = dlru fs -> dirs fs' = dirs fs -> next_dir fs' = next_dir fs -> dir_heap fs' = dir_heap fs ->
      effect c ph fs ph' fs'
  | effect_release p :
      dir_of ph = Some p -> (∀ i, ¬ holds c ph i) -> finished ph' -> fs_wf fs' -> counted fs fs' p (-1) ->
      (dir_heap fs' !! p = dir_heap fs !! p \/ dir_heap fs' !! p = None) -> effect c ph fs ph' fs'.

(** What it does to the databases and to the inode numbers. *)
Definition data_step c ph fs ph' fs' : Prop :=
  readonly_dbs fs' = readonly_dbs fs /\
  match ph with
  | Putting _ _ _ _ _ _ => inoq fs' = inoq fs
  | Idle => db_ fs' = db_ fs /\ (∃ p, ph' = Entering p (inoq fs')) /\
      inoq fs' = match c with CallLstat _ _ _ _ => inoq fs | _ => u64 (inoq fs + call_inos c) end
  | Releasing _ myino s n _ => db_ fs' = db_ fs /\ (∃ st, ph' = Finished myino s n st) /\
      inoq fs' = inoq (if negb (ok s) then reuse c myino n fs else fs)
  | _ => db_ fs' = db_ fs /\ inoq fs' = inoq fs
  end.
Definition good_step c ph fs ph' fs' : Prop :=
  effect c ph fs ph' fs' /\ phase_ok c ph' /\ fs_options fs' = fs_options fs /\ is_Some (db_ fs') /\ data_step c ph fs ph' fs'.

Lemma good_intro c ph fs ph' fs' :
  effect c ph fs ph' fs' -> phase_ok c ph' -> fs_options fs' = fs_options fs -> is_Some (db_ fs') ->
  data_step c ph fs ph' fs' -> good_step c ph fs ph' fs'.
Proof. done. Qed.

(** The other threads. *)
Definition others (t : nat) ts p (i : nat) : Prop :=
  ∃ t0 c0 ph0, t0 ≠ t /\ ts !! t0 = Some (c0, ph0) /\ inside c0 ph0 p i.

Lemma holder_others t ts c ph p i : ts !! t = Some (c, ph) -> holder ts p i <-> inside c ph p i \/ others t ts p i.
Proof.
  intros E. split.
  - intros (t0 & c0 & ph0 & E0 & Hi). destruct (decide (t0 = t)) as [-> |].
    + left. rewrite E in E0. by injection E0 as <- <-.
    + right. by exists t0, c0, ph0.
  - intros [Hi | (t0 & c0 & ph0 & _ & E0 & Hi)]; [by exists t, c, ph | by exists t0, c0, ph0].
Qed.
Lemma holder_insert t ts c ph c' ph' p i : ts !! t = Some (c, ph) ->
  holder (<[t := (c', ph')]> ts) p i <-> inside c' ph' p i \/ others t ts p i.
Proof.
  intros E. rewrite (holder_others t _ c' ph') by (apply list_lookup_insert_eq; by eapply lookup_lt_Some).
  split; (intros [Hi | (t0 & c0 & ph0 & Hne & E0 & Hi)]; [by left | right; exists t0, c0, ph0; split_and!; try done]).
  - by rewrite list_lookup_insert_ne in E0 by done.
  - by rewrite list_lookup_insert_ne by done.
Qed.
Lemma others_excl fs ts t c ph p i : locks_ok fs ts -> ts !! t = Some (c, ph) -> inside c ph p i -> ¬ others t ts p i.
Proof. intros Hl E Hi (t0 & c0 & ph0 & Hne & E0 & Hi0). apply Hne. by eapply lk_excl. Qed.

(** A thread inside a directory keeps its control block in memory. *)
Lemma count_pos p ts t c ph : ts !! t = Some (c, ph) -> dir_of ph = Some p -> 1 <= count p ts.
Proof.
  intros E Hp. unfold count.
  pose proof (total_pos (λ x, if decide (dir_of x.2 = Some p) then 1 else 0) ts t (c, ph) ltac:(intros x; cbn beta; case_decide; lia) E) as Ht.
  cbn [snd] in Ht. by rewrite decide_True in Ht.
Qed.
Lemma refcount_Some fs p : 1 <= refcount fs p -> ∃ d x, dir_heap fs !! p = Some d /\ heap (dlru fs) !! d_handle d = Some x /\ ext x = refcount fs p.
Proof.
  unfold refcount. destruct (dir_heap fs !! p) as [d |]; [| lia]. destruct (heap _ !! _) as [x |] eqn:E; [| lia]. by exists d, x.
Qed.
Lemma thread_dir fs ts t c ph p : locks_ok fs ts -> ts !! t = Some (c, ph) -> dir_of ph = Some p ->
  ∃ d, dir_heap fs !! p = Some d /\ d_id d = call_id c.
Proof.
  intros Hl E Hp. pose proof (count_pos p ts t c ph E Hp) as Hc. rewrite <- (lk_refs _ _ Hl) in Hc.
  destruct (refcount_Some fs p Hc) as (d & x & Ed & _). exists d. split; [done |]. by eapply lk_dir.
Qed.
Lemma count_insert p ts t c ph c' ph' : ts !! t = Some (c, ph) ->
  count p (<[t := (c', ph')]> ts)
  = count p ts - (if decide (dir_of ph = Some p) then 1 else 0) + (if decide (dir_of ph' = Some p) then 1 else 0).
Proof. intros E. unfold count. by rewrite (total_insert _ _ _ _ _ E). Qed.
Lemma idle_insert ts t c ph c' ph' : ts !! t = Some (c, ph) ->
  idle (<[t := (c', ph')]> ts)
  = idle ts - (match ph with Idle => 1 | _ => 0 end) + (match ph' with Idle => 1 | _ => 0 end).
Proof. intros E. unfold idle. by rewrite (total_insert _ _ _ _ _ E). Qed.

(** ** Preservation *)

(** The control blocks after a step, away from the one it works on. *)
Definition at_most fs fs' p : Prop :=
  ∀ q, q ≠ p -> dir_heap fs' !! q = dir_heap fs !! q \/ (dir_heap fs' !! q = None /\ refcount fs q = 0).

Lemma inside_other c ph p q i : dir_of ph = Some p \/ dir_of ph = None -> q ≠ p -> ¬ inside c ph q i.
Proof. intros [E | E] Hne [E' _]; congruence. Qed.

(** What is left to check when the step of [t] works on [p]: the flags of [p], and exclusion there. *)
Lemma locks_preserved fs ts fs' t c ph ph' p :
  locks_ok fs ts -> ts !! t = Some (c, ph) -> phase_ok c ph' ->
  fs_options fs' = fs_options fs -> is_Some (db_ fs') -> fs_wf fs' -> capacity_ (dlru fs') = capacity_ (dlru fs) ->
  (dir_of ph = Some p \/ dir_of ph = None) -> (dir_of ph' = Some p \/ dir_of ph' = None) ->
  (∀ q, refcount fs' q = refcount fs q + (if decide (dir_of ph' = Some q) then 1 else 0) - (if decide (dir_of ph = Some q) then 1 else 0)) ->
  at_most fs fs' p ->
  (∀ d, dir_heap fs' !! p = Some d -> index_ok ndebug (fs_options fs) d /\ length (busy d) = kWays /\
     d_id d = call_id c /\ (∀ d0, dir_heap fs !! p = Some d0 -> d_id d0 = d_id d) /\
     (∀ i, busy d !! i = Some true <-> inside c ph' p i \/ others t ts p i)) ->
  (∀ i, inside c ph' p i -> ¬ others t ts p i) ->
  Z.of_nat (size (dir_heap fs')) + idle (<[t := (c, ph')]> ts) <= Z.of_nat (size (dir_heap fs)) + idle ts ->
  locks_ok fs' (<[t := (c, ph')]> ts).
Proof.
  intros Hl E Hph Eo Edb Hwf Ecap Hp Hp' Href Hq Hd Hexcl Hroom.
  assert (t < length ts)%nat as Ht by (by eapply lookup_lt_Some).
  assert (∀ q, refcount fs' q = count q (<[t := (c, ph')]> ts)) as Hcount.
  { intros q. rewrite Href, (lk_refs _ _ Hl), (count_insert q ts t c ph c ph' E). lia. }
  assert (∀ q d, q ≠ p -> dir_heap fs' !! q = Some d -> dir_heap fs !! q = Some d) as Hold.
  { intros q d Hne Ed. destruct (Hq q Hne) as [Eq | [Eq _]]; congruence. }
  split; rewrite ?Eo; try done; try apply Hl.
  - by rewrite Ecap; apply Hl.
  - intros q d Ed. destruct (decide (q = p)) as [-> | Hne]; [destruct (Hd d Ed) as (? & ? & _); done |].
    by eapply lk_index, Hold.
  - intros t0 c0 ph0 E0. destruct (decide (t0 = t)) as [-> |].
    + rewrite list_lookup_insert_eq in E0 by done. injection E0 as <- <-. split; [by apply (lk_calls _ _ Hl t c ph) | done].
    + rewrite list_lookup_insert_ne in E0 by done. by apply (lk_calls _ _ Hl t0).
  - intros t0 c0 ph0 q d E0 Eq Ed. destruct (decide (t0 = t)) as [-> | Hne0].
    + rewrite list_lookup_insert_eq in E0 by done. injection E0 as <- <-.
      assert (q = p) as -> by (destruct Hp'; congruence). by destruct (Hd d Ed) as (_ & _ & ? & _).
    + rewrite list_lookup_insert_ne in E0 by done. destruct (decide (q = p)) as [-> | Hne].
      * destruct (thread_dir fs ts t0 c0 ph0 p Hl E0 Eq) as (d0 & Ed0 & Eid0).
        destruct (Hd d Ed) as (_ & _ & _ & Eid & _). specialize (Eid d0 Ed0). congruence.
      * eapply (lk_dir _ _ Hl t0); eauto.
  - intros q d i Ed. rewrite (holder_insert t ts c ph c ph' q i E). destruct (decide (q = p)) as [-> | Hne].
    + destruct (Hd d Ed) as (_ & _ & _ & _ & Hb). apply Hb.
    + rewrite (lk_busy _ _ Hl q d i (Hold q d Hne Ed)), (holder_others t ts c ph q i E).
      pose proof (inside_other c ph p q i Hp Hne). pose proof (inside_other c ph' p q i Hp' Hne). tauto.
  - assert (∀ t1 c1 ph1 q i, t1 ≠ t -> <[t := (c, ph')]> ts !! t1 = Some (c1, ph1) -> inside c1 ph1 q i ->
      ¬ inside c ph' q i) as Hx.
    { intros t1 c1 ph1 q i Hne E1 Hi1 Hi. rewrite list_lookup_insert_ne in E1 by done.
      assert (q = p) as -> by (destruct Hi as [Hi _], Hp'; congruence). apply (Hexcl i Hi). by exists t1, c1, ph1. }
    intros t1 t2 c1 ph1 c2 ph2 q i E1 E2 Hi1 Hi2.
    destruct (decide (t1 = t)) as [-> | N1], (decide (t2 = t)) as [-> | N2]; [done | exfalso | exfalso |].
    + rewrite list_lookup_insert_eq in E1 by done. injection E1 as <- <-. by eapply (Hx t2).
    + rewrite list_lookup_insert_eq in E2 by done. injection E2 as <- <-. by eapply (Hx t1).
    + rewrite list_lookup_insert_ne in E1, E2 by done. by eapply (lk_excl _ _ Hl).
  - pose proof (lk_room _ _ Hl). lia.
  - rewrite length_insert. apply Hl.
Qed.

Lemma refcount_dirs fs fs' d d' p :
  dir_heap fs !! p = Some d -> d_handle d' = d_handle d -> dir_changed p d' fs fs' -> ∀ q, refcount fs' q = refcount fs q.
Proof.
  intros E Eh (E1 & _ & _ & E4) q. unfold refcount. rewrite E4, E1. destruct (decide (q = p)) as [-> | Hne].
  - by rewrite lookup_insert_eq, E, Eh.
  - by rewrite lookup_insert_ne.
Qed.

(** Every step with such an effect preserves the invariant. *)
Lemma step_preserves fs ts fs' t c ph ph' :
  locks_ok fs ts -> ts !! t = Some (c, ph) -> good_step c ph fs ph' fs' -> locks_ok fs' (<[t := (c, ph')]> ts).
Proof.
  intros Hl E (He & Hph & Eo & Edb & _). pose proof (lk_wf _ _ Hl) as Hwf.
  destruct He as [p d Ei Hp' Hh' Hwf' Hc Ed Eid Edef | p d d' Hp Hp' Ed Hc Eid Eh Hx Hlen Hb Hnew
    | p Hp Hp' Hh E1 E2 E3 E4 | p Hp Hh Hfin Hwf' Hc Hpp].
  - (* acquire *)
    destruct Hc as (Hcap & Hcp & Hcq). subst ph.
    apply (locks_preserved fs ts fs' t c Idle ph' p); try done; [by right | by left | | | | |].
    + intros q. cbn [dir_of]. rewrite (decide_False (P := None = Some q)) by done. rewrite Hp'.
      destruct (decide (Some p = Some q)) as [[= ->] | Hne]; [lia |]. destruct (Hcq q) as [-> _]; [congruence | lia].
    + intros q Hne. by destruct (Hcq q Hne).
    + intros d1 Ed1. rewrite Ed in Ed1. injection Ed1 as <-.
      destruct (dir_heap fs !! p) as [d0 |] eqn:E0; cbn in Edef.
      * subst d0. destruct (lk_index _ _ Hl p d E0). split_and!; [done | done | done | by intros ? [= <-] |].
        intros i. rewrite (lk_busy _ _ Hl p d i E0), (holder_others t ts c Idle p i E). unfold inside. cbn [holds dir_of].
        specialize (Hh' i). tauto.
      * rewrite Edef. split_and!; [by intros ? | done | done | done |]. intros i. cbn [fresh_dir busy]. split.
        -- intros Hi%lookup_replicate. destruct Hi; done.
        -- intros [[_ Hi] | (t0 & c0 & ph0 & _ & Et0 & [Hin _])]; [by apply Hh' in Hi |].
           destruct (thread_dir fs ts t0 c0 ph0 p Hl Et0 Hin) as (? & ? & _). congruence.
    + intros i [_ Hi]. by apply Hh' in Hi.
    + rewrite (idle_insert ts t c Idle c ph' E).
      pose proof (counted_size fs fs' p 1 (conj Hcap (conj Hcp Hcq))).
      assert (match ph' with Idle => 1 | _ => 0 end = 0) as -> by (by destruct ph'). lia.
  - (* inside a directory *)
    pose proof (refcount_dirs fs fs' d d' p Ed Eh Hc) as Hr. pose proof Hc as (F1 & F2 & F3 & F4).
    pose proof (lk_dir _ _ Hl t c ph p d E Hp Ed) as Ec.
    apply (locks_preserved fs ts fs' t c ph ph' p); try done; try (by left).
    + by eapply dir_changed_wf.
    + by rewrite F1.
    + intros q. rewrite Hr, Hp, Hp'. lia.
    + intros q Hne. left. by rewrite F4, lookup_insert_ne.
    + rewrite F4, lookup_insert_eq. intros d1 [= <-]. split_and!; [done | done | congruence | |].
      * rewrite Ed. intros d0 [= <-]. done.
      * intros i. rewrite Hb, (lk_busy _ _ Hl p d i Ed), (holder_others t ts c ph p i E). unfold inside. rewrite Hp, Hp'.
        assert (holds c ph i -> ¬ others t ts p i) by (intros Hi; eapply others_excl; [exact Hl | exact E | by split]).
        tauto.
    + intros i [_ Hi] Ho. assert (busy d !! i = Some true) as Hbi.
      { apply (lk_busy _ _ Hl p d i Ed), (holder_others t ts c ph p i E). by right. }
      revert Ho. eapply others_excl; [exact Hl | exact E |]. split; [done | by apply Hnew].
    + rewrite (idle_insert ts t c ph c ph' E).
      assert (match ph with Idle => 1 | _ => 0 end = 0) as -> by (by destruct ph).
      assert (match ph' with Idle => 1 | _ => 0 end = 0) as -> by (by destruct ph').
      rewrite F4, map_size_insert_Some by (rewrite Ed; eauto). lia.
  - (* database *)
    assert (∀ q, refcount fs' q = refcount fs q) as Hr by (intros q; unfold refcount; by rewrite E4, E1).
    destruct (thread_dir fs ts t c ph p Hl E Hp) as (d & Ed & Eid).
    apply (locks_preserved fs ts fs' t c ph ph' p); try done; try (by left).
    + destruct Hwf as [? ? ? ? ? ?]. split; by rewrite ?E1, ?E2, ?E3, ?E4.
    + by rewrite E1.
    + intros q. rewrite Hr, Hp, Hp'. lia.
    + intros q Hne. left. by rewrite E4.
    + rewrite E4, Ed. intros d1 [= <-]. destruct (lk_index _ _ Hl p d Ed). split_and!; [done | done | done | by intros ? [= <-] |].
      intros i. rewrite (lk_busy _ _ Hl p d i Ed), (holder_others t ts c ph p i E). unfold inside. rewrite Hp, Hp', Hh. tauto.
    + intros i [_ Hi]. eapply others_excl; [exact Hl | exact E |]. split; [done | by apply Hh].
    + rewrite (idle_insert ts t c ph c ph' E).
      assert (match ph with Idle => 1 | _ => 0 end = 0) as -> by (by destruct ph).
      assert (match ph' with Idle => 1 | _ => 0 end = 0) as -> by (by destruct ph'). rewrite E4. lia.
  - (* release *)
    destruct Hc as (Hcap & Hcp & Hcq). destruct (thread_dir fs ts t c ph p Hl E Hp) as (d & Ed & Eid).
    assert (dir_of ph' = None) as Hp' by (by destruct ph').
    apply (locks_preserved fs ts fs' t c ph ph' p); try done; [by left | by right | | | | |].
    + intros q. rewrite Hp', Hp. rewrite (decide_False (P := None = Some q)) by done.
      destruct (decide (Some p = Some q)) as [[= ->] | Hne]; [lia |]. destruct (Hcq q) as [-> _]; [congruence | lia].
    + intros q Hne. by destruct (Hcq q Hne).
    + intros d1 Ed1. destruct Hpp as [Hpp | Hpp]; [| congruence]. rewrite Hpp, Ed in Ed1. injection Ed1 as <-.
      destruct (lk_index _ _ Hl p d Ed). split_and!; [done | done | done | |].
      * rewrite Ed. by intros ? [= <-].
      * intros i. rewrite (lk_busy _ _ Hl p d i Ed), (holder_others t ts c ph p i E). unfold inside. rewrite Hp'.
        specialize (Hh i). intuition congruence.
    + intros i [Hi _]. congruence.
    + rewrite (idle_insert ts t c ph c ph' E).
      assert (match ph with Idle => 1 | _ => 0 end = 0) as -> by (by destruct ph).
      assert (match ph' with Idle => 1 | _ => 0 end = 0) as -> by (by destruct ph').
      assert (size (dir_heap fs') <= size (dir_heap fs))%nat; [| lia]. rewrite <- !size_dom. apply subseteq_size.
      intros q [dq Eq]%elem_of_dom. apply elem_of_dom. destruct (decide (q = p)) as [-> | Hne]; [by exists d |].
      destruct (Hcq q Hne) as [_ [Eq' | [Eq' _]]]; [rewrite <- Eq'; eauto | congruence].
Qed.

(** ** The steps *)
Definition takes_step c ph fs : Prop := ∃ ph' fs', tstep ndebug c ph fs = Some (ph', fs') /\ good_step c ph fs ph' fs'.

Lemma server_room fs ts : locks_ok fs ts -> room fs.
Proof.
  intros Hl. apply room_of_size; [apply Hl | apply Hl | |].
  - pose proof (lk_room _ _ Hl). assert (0 <= idle ts); [| lia]. apply total_nonneg. intros [? []]; cbn; lia.
  - intros q. rewrite (lk_refs _ _ Hl). pose proof (lk_threads _ _ Hl).
    pose proof (total_bounds (λ x : ThreadCall * Phase, if decide (dir_of x.2 = Some q) then 1 else 0) ts
                  ltac:(intros x; cbn beta; case_decide; lia)). unfold count. lia.
Qed.

Lemma DirId_fits_wf' id : DirId_fits id -> DirId_wf id.
Proof. intros [? ?]. split; [done |]. by apply (word_mono 56). Qed.

Lemma acquire_good fs ts t c : locks_ok fs ts -> ts !! t = Some (c, Idle) -> takes_step c Idle fs.
Proof.
  intros Hl E. destruct (lk_calls _ _ Hl t c Idle E) as [(Hfit & _) _].
  destruct (AcquireDir_counted ndebug (call_id c) fs (lk_wf _ _ Hl) (server_room fs ts Hl) (DirId_fits_wf' _ Hfit))
    as (p & fs1 & Ea & [(Hwf & (Ei & Eo & Edb & Er) & (d & n & [Ed _] & _ & Eid & Edef) & _) Hc] & _).
  set (fs2 := match c with CallLstat _ _ _ _ => fs1 | _ => set_inoq (u64 (inoq fs1 + call_inos c)) fs1 end).
  exists (Entering p (inoq fs2)), fs2. split.
  { cbn [tstep]. unfold step_acquire. rewrite Ea. done. }
  assert (dir_heap fs2 = dir_heap fs1 /\ dlru fs2 = dlru fs1 /\ fs_options fs2 = fs_options fs1 /\ db_ fs2 = db_ fs1 /\ fs_wf fs2)
    as (G1 & G2 & G3 & G4 & G5).
  { unfold fs2. destruct c; split_and!; try done; destruct Hwf as [? ? ? ? ? ?]; by split. }
  assert (data_step c Idle fs (Entering p (inoq fs2)) fs2) as Hdata.
  { split; [unfold fs2; by destruct c |]. split; [congruence |]. split; [by exists p |]. unfold fs2. rewrite <- Ei. by destruct c. }
  apply good_intro; [| done | congruence | rewrite G4, Edb; apply Hl | done].
  eapply (effect_acquire c Idle fs _ fs2 p d); try done; [by intros i Hi | | by rewrite G1].
  unfold counted, refcount in *. by rewrite G1, G2.
Qed.

(** Taking name subsets: [l] is held already, [rest] is tried. *)
Lemma step_lock_spec c ph p myino l rest fs d :
  dir_heap fs !! p = Some d -> length (busy d) = kWays -> creates c -> call_ways c = l ++ rest ->
  (∀ i, holds c ph i <-> i ∈ l) -> (∀ i, i ∈ l -> busy d !! i = Some true) ->
  ∃ ph' d', step_lock c p myino rest fs = Some (ph', set_dir p d' fs) /\ phase_ok c ph' /\ dir_of ph' = Some p /\
    same_but_busy d d' /\
    (∀ i, busy d' !! i = Some true <-> (busy d !! i = Some true /\ ¬ holds c ph i) \/ holds c ph' i) /\
    (∀ i, holds c ph' i -> busy d !! i = Some true -> holds c ph i).
Proof.
  intros Ed Hlen Hc Hw Hh Hb. pose proof (call_ways_NoDup c) as Hnd. rewrite Hw in Hnd.
  apply list.NoDup_app in Hnd as (_ & Hdisj & Hnd).
  destruct (take_ways_spec rest d Hnd) as (taken & rest' & d' & -> & Et & Hs & Hbd & Hf & _).
  { intros i Hi. rewrite Hlen. apply (call_ways_lt c). rewrite Hw, elem_of_app. by right. }
  unfold step_lock. rewrite Ed. cbn [mbind option_bind]. rewrite Et. cbn [mbind option_bind].
  set (ph' := match rest' with [] => _ | _ => _ end). exists ph', d'.
  assert (∀ i, holds c ph' i <-> i ∈ l \/ i ∈ taken) as Hh'.
  { intros i. apply list.NoDup_app in Hnd as (_ & Hd2 & _). subst ph'. specialize (Hdisj i). specialize (Hd2 i).
    rewrite elem_of_app in Hdisj. destruct rest' as [| j rest']; cbn [holds].
    - by rewrite Hw, app_nil_r, elem_of_app.
    - rewrite Hw, !elem_of_app. tauto. }
  split; [done |]. split_and!.
  - subst ph'. destruct rest' as [| j rest']; cbn [phase_ok].
    + split_and!; [done | lia | lia | done].
    + split_and!; [done | done |]. exists (l ++ taken). by rewrite Hw, app_assoc.
  - subst ph'. by destruct rest'.
  - done.
  - intros i. rewrite Hbd, Hh', Hh. specialize (Hb i). destruct (decide (i ∈ l)); tauto.
  - intros i. rewrite Hh', Hh. intros [Hi | Hi] Hbi; [done |]. by apply Hf in Hi.
Qed.

Lemma index_ok_same options d d' : same_but_busy d d' -> index_ok ndebug options d -> index_ok ndebug options d'.
Proof. intros (E1 & _ & E2 & E3 & E4 & _) Hi. unfold index_ok in *. by rewrite E1, E2, E3, E4. Qed.

(** A step that changes nothing but the phase. *)
Lemma stay_good c ph fs ph' p :
  dir_of ph = Some p -> match ph with Releasing _ _ _ _ _ => False | _ => True end ->
  dir_of ph' = Some p -> (∀ i, holds c ph' i <-> holds c ph i) -> phase_ok c ph' -> is_Some (db_ fs) ->
  good_step c ph fs ph' fs.
Proof.
  intros Hp Hr Hp' Hh Hph Hdb. apply good_intro; try done; [by apply (effect_db c ph fs ph' fs p) |]. by destruct ph.
Qed.

Lemma enter_good fs ts t c p myino :
  locks_ok fs ts -> ts !! t = Some (c, Entering p myino) -> takes_step c (Entering p myino) fs.
Proof.
  intros Hl E. destruct (thread_dir fs ts t c _ p Hl E eq_refl) as (d & Ed & Eid).
  unfold takes_step. cbn [tstep]. unfold step_enter. destruct (call_refusal (fs_options fs) c) as [r |].
  { eexists _, fs. split; [done |]. apply (stay_good c _ fs _ p); try done; [apply refused_ok, (lk_calls _ _ Hl t c _ E) | apply Hl]. }
  destruct (lk_index _ _ Hl p d Ed) as [Hi Hlen].
  destruct (MaybeFetchDir_index ndebug p d fs (lk_options _ _ Hl) Ed Hi)
    as (fs1 & d1 & -> & (Eq & Eo & Edb & Er) & Hc & Eid1 & Eh1 & _ & Eb1 & Hi1 & Hf1).
  cbn [mbind option_bind]. pose proof Hc as (C1 & C2 & C3 & C4).
  assert (dir_heap fs1 !! p = Some d1) as Ed1 by (rewrite C4; apply lookup_insert_eq). rewrite Ed1. cbn [mbind option_bind].
  assert (∀ ph', dir_of ph' = Some p -> (∀ i, ¬ holds c ph' i) -> phase_ok c ph' -> good_step c (Entering p myino) fs ph' fs1) as Hgood.
  { intros ph' Hp' Hh' Hph. apply good_intro; [| done | done | rewrite Edb; apply Hl | done].
    eapply (effect_dir c _ fs ph' fs1 p d d1); try done; [by rewrite Eb1 | | intros i Hi'; by apply Hh' in Hi'].
    intros i. rewrite Eb1. cbn [holds]. specialize (Hh' i). tauto. }
  assert (∃ b, match call_checked c with Some name => IsDirPartitionOk ndebug (fs_options fs1) d1 name | None => Some true end = Some b) as [b ->].
  { destruct (call_checked c) as [name |]; [| by eexists]. rewrite Eo. eexists.
    apply (IsDirPartitionOk_index ndebug (fs_options fs) d1 name (lk_options _ _ Hl)); done. }
  cbn [mbind option_bind]. destruct (negb b); [eexists _, fs1; split; [done |]; apply Hgood; [done | by intros i Hx | apply refused_ok, (lk_calls _ _ Hl t c _ E)] |].
  assert (creates c \/ ¬ creates c) as [Hcr | Hcr] by (destruct c; cbn; tauto).
  - destruct (step_lock_spec c (Entering p myino) p myino [] (call_ways c) fs1 d1 Ed1) as (ph' & d' & El & Hph & Hp' & Hs & Hb & Hn);
      [by rewrite Eb1 | done | done | intros i; cbn [holds]; by rewrite elem_of_nil | by intros i ?%elem_of_nil |].
    exists ph', (set_dir p d' fs1). split; [by destruct c |].
    apply good_intro; [| done | done | cbn; rewrite Edb; apply Hl | done].
    pose proof Hs as (S1 & S2 & _ & _ & _ & S6).
    eapply (effect_dir c _ fs ph' _ p d d'); try done.
    + split_and!; try done. cbn. rewrite C4. apply insert_insert_eq.
    + congruence.
    + congruence.
    + by eapply index_ok_same.
    + congruence.
    + intros i. by rewrite Hb, Eb1.
    + intros i. rewrite <- Eb1. apply Hn.
  - destruct c; try done. eexists _, fs1. split; [done |]. apply Hgood; [done | by intros i Hx | by intros Hx].
Qed.

(** A thread waits: the next subset it wants is busy. *)
Definition blocked c ph fs : Prop :=
  ∃ p myino i rest d, ph = Waiting p myino (i :: rest) /\ dir_heap fs !! p = Some d /\ busy d !! i = Some true.

Lemma wake_good fs ts t c p myino ways :
  locks_ok fs ts -> ts !! t = Some (c, Waiting p myino ways) ->
  blocked c (Waiting p myino ways) fs \/ takes_step c (Waiting p myino ways) fs.
Proof.
  intros Hl E. destruct (thread_dir fs ts t c _ p Hl E eq_refl) as (d & Ed & Eid).
  destruct (lk_calls _ _ Hl t c _ E) as [_ (Hcr & Hne & l & Hw)]. destruct ways as [| i rest]; [done |].
  destruct (lk_index _ _ Hl p d Ed) as [Hi Hlen].
  destruct (lookup_lt_is_Some_2 (busy d) i) as [b Eb].
  { rewrite Hlen. apply (call_ways_lt c). rewrite Hw, elem_of_app, elem_of_cons. by auto. }
  destruct b; [left; by exists p, myino, i, rest, d | right].
  assert (∀ j, holds c (Waiting p myino (i :: rest)) j <-> j ∈ l) as Hh.
  { intros j. cbn [holds]. pose proof (call_ways_NoDup c) as Hnd. rewrite Hw in Hnd |- *.
    apply list.NoDup_app in Hnd as (_ & Hd & _). specialize (Hd j). rewrite elem_of_app. tauto. }
  destruct (step_lock_spec c (Waiting p myino (i :: rest)) p myino l (i :: rest) fs d Ed Hlen Hcr Hw Hh)
    as (ph' & d' & El & Hph & Hp' & Hs & Hb & Hn).
  { intros j Hj. apply (lk_busy _ _ Hl p d j Ed). exists t, c, (Waiting p myino (i :: rest)). split; [done |].
    split; [done | by apply Hh]. }
  exists ph', (set_dir p d' fs). split.
  { cbn [tstep]. unfold step_wake. rewrite Ed. cbn [mbind option_bind]. rewrite Eb. exact El. }
  pose proof Hs as (S1 & S2 & _ & _ & _ & S6). apply good_intro; [| done | done | apply Hl | done].
  eapply (effect_dir c _ fs ph' _ p d d'); try done; [by eapply index_ok_same | congruence].
Qed.

Lemma check_good fs ts t c p myino m todo stats :
  locks_ok fs ts -> ts !! t = Some (c, Working p myino m todo stats) -> takes_step c (Working p myino m todo stats) fs.
Proof.
  intros Hl E. destruct (lk_calls _ _ Hl t c _ E) as [_ (Hcr & Hm & Hd)].
  eexists _, fs. split; [done |].
  assert (∀ st, good_step c (Working p myino m todo stats) fs (Leaving p myino OK m st) fs \/ todo <> []) as Hend.
  { intros st. destruct todo; [left | by right]. apply (stay_good c _ fs _ p); try done; [| apply Hl].
    split_and!; [done | lia |]. change (ok OK) with true. cbn iota. apply (f_equal length) in Hd. rewrite length_drop in Hd. cbn in Hd. lia. }
  unfold step_check. destruct todo as [| name todo]; [by destruct (Hend stats) |]. clear Hend.
  assert (m < Z.of_nat (length (call_names c))) as Hlt.
  { apply (f_equal length) in Hd. rewrite length_drop in Hd. cbn in Hd. lia. }
  assert (∀ st, good_step c (Working p myino m (name :: todo) stats) fs (Putting p myino m name todo st) fs) as Hput.
  { intros st. apply (stay_good c _ fs _ p); try done; [split_and!; [done | lia | done] | apply Hl]. }
  destruct (negb _); [| apply Hput]. destruct (DbGet _ _ _ _) as [[s0 ?] st]. set (s1 := if ok s0 then _ else _).
  destruct (ok s1) eqn:E1; [apply Hput |]. apply (stay_good c _ fs _ p); try done; [| apply Hl].
  split_and!; [done | lia | by rewrite E1].
Qed.

Lemma put_good fs ts t c p myino m name todo stats :
  locks_ok fs ts -> ts !! t = Some (c, Putting p myino m name todo stats) ->
  takes_step c (Putting p myino m name todo stats) fs.
Proof.
  intros Hl E. destruct (lk_calls _ _ Hl t c _ E) as [_ (Hcr & Hm & Hd)].
  assert (m < Z.of_nat (length (call_names c))) as Hlt.
  { apply (f_equal length) in Hd. rewrite length_drop in Hd. cbn in Hd. lia. }
  unfold takes_step. cbn [tstep]. unfold step_put, DbPut. destruct (lk_db _ _ Hl) as [db Edb]. rewrite Edb. cbn [mbind option_bind].
  destruct (FilesystemDb_Put _ _ _ _ _) as [[s db'] st]. cbn [mbind option_bind]. eexists _, _. split; [done |].
  apply good_intro; [| | done | by eexists | done].
  - apply (effect_db c _ fs _ _ p); try done; by destruct (ok s).
  - destruct (ok s) eqn:Hs; cbn [phase_ok]; split_and!; try done; try lia; [| by rewrite Hs].
    replace (Z.to_nat (m + 1)) with (S (Z.to_nat m)) by lia. by rewrite <- Nat.add_1_r, <- drop_drop, Hd.
Qed.

Lemma leave_good fs ts t c p myino s m stats :
  locks_ok fs ts -> ts !! t = Some (c, Leaving p myino s m stats) -> takes_step c (Leaving p myino s m stats) fs.
Proof.
  intros Hl E. destruct (thread_dir fs ts t c _ p Hl E eq_refl) as (d & Ed & Eid).
  destruct (lk_index _ _ Hl p d Ed) as [Hi Hlen].
  unfold takes_step. cbn [tstep]. unfold step_leave. rewrite Ed. cbn [mbind option_bind]. eexists _, _. split; [done |].
  destruct (free_ways_spec (call_ways c) (merge_stats stats d)) as [Hs Hb].
  { intros i Hi'. change (busy (merge_stats stats d)) with (busy d). rewrite Hlen. by apply (call_ways_lt c). }
  pose proof Hs as (S1 & S2 & _ & _ & _ & S6). destruct (lk_calls _ _ Hl t c _ E) as [Hcall (_ & Hm & Hms)].
  apply good_intro; [| apply left_ok; [done |]; destruct (ok s); lia | done | apply Hl | done].
  eapply (effect_dir c _ fs _ _ p d); try done.
  - eapply (index_ok_same _ _ _ Hs). exact Hi.
  - by rewrite S6.
  - intros i. rewrite Hb. cbn [holds]. change (busy (merge_stats stats d)) with (busy d). tauto.
Qed.

Lemma read_good fs ts t c p :
  locks_ok fs ts -> ts !! t = Some (c, Reading p) -> takes_step c (Reading p) fs.
Proof.
  intros Hl E. destruct (lk_calls _ _ Hl t c _ E) as [_ Hc]. cbn [phase_ok] in Hc. destruct c as [| |who parent name now]; try by cbn in Hc.
  unfold takes_step. cbn [tstep]. destruct (DbGet _ _ _ _) as [[s st] stats]. eexists _, fs. split; [done |].
  apply (stay_good _ _ fs _ p); try done. apply Hl.
Qed.

Lemma merge_good fs ts t c p s st stats :
  locks_ok fs ts -> ts !! t = Some (c, Merging p s st stats) -> takes_step c (Merging p s st stats) fs.
Proof.
  intros Hl E. destruct (thread_dir fs ts t c _ p Hl E eq_refl) as (d & Ed & Eid).
  destruct (lk_index _ _ Hl p d Ed) as [Hi Hlen].
  unfold takes_step. cbn [tstep]. unfold step_merge. rewrite Ed. cbn [mbind option_bind]. eexists _, _. split; [done |].
  destruct (lk_calls _ _ Hl t c _ E) as [_ Hcr]. cbn [phase_ok] in Hcr.
  apply good_intro; [| by destruct c; try (by destruct Hcr) | done | apply Hl | done]. eapply (effect_dir c _ fs _ _ p d); try done. intros i. cbn [holds]. tauto.
Qed.

(** [fs] with another last inode number. *)
Lemma reuse_inoq c myino n fs : ∃ q, reuse c myino n fs = set_inoq q fs.
Proof.
  assert (fs = set_inoq (inoq fs) fs) as E by (by destruct fs).
  destruct c; cbn [reuse]; unfold TryReuseIno; try case_match; eauto.
Qed.

Lemma release_good fs ts t c p myino s n st :
  locks_ok fs ts -> ts !! t = Some (c, Releasing p myino s n st) -> takes_step c (Releasing p myino s n st) fs.
Proof.
  intros Hl E. pose proof (count_pos p ts t c _ E eq_refl) as Hc. rewrite <- (lk_refs _ _ Hl) in Hc.
  destruct (refcount_Some fs p Hc) as (d & x & Ed & Ex & Hext).
  unfold takes_step. cbn [tstep]. unfold step_release.
  set (fs1 := if negb (ok s) then reuse c myino n fs else fs).
  assert (∃ q, fs1 = set_inoq q fs) as [q Eq].
  { unfold fs1. destruct (negb (ok s)); [apply reuse_inoq |]. exists (inoq fs). by destruct fs. }
  assert (fs_wf fs1) as Hwf1 by (rewrite Eq; destruct (lk_wf _ _ Hl) as [? ? ? ? ? ?]; by split).
  assert (dir_ref fs1 p d (refcount fs p)) as Hr1 by (rewrite Eq; split; [done | by exists x]).
  destruct (ReleaseDir_counted ndebug p d _ fs1 Hwf1 Hr1 ltac:(lia)) as (fs2 & -> & Hwf2 & (Ei & Eo & Edb & Er) & _ & Hpp & Hcnt).
  cbn [mbind option_bind]. eexists _, fs2. split; [done |].
  apply good_intro; [| done | rewrite Eo, Eq; done | rewrite Edb, Eq; apply Hl |].
  2: { split; [by rewrite Er, Eq |]. split; [by rewrite Edb, Eq |]. split; [by eexists | done]. }
  eapply (effect_release c _ fs _ fs2 p); try done; [by intros i Hi | by rewrite Eq in Hcnt |].
  rewrite Ed. exact Hpp.
Qed.

(** ** Progress and preservation *)
Lemma thread_progress fs ts t c ph :
  locks_ok fs ts -> ts !! t = Some (c, ph) -> finished ph \/ blocked c ph fs \/ takes_step c ph fs.
Proof.
  intros Hl E. destruct ph.
  - right; right. by eapply acquire_good.
  - right; right. by eapply enter_good.
  - right. by eapply wake_good.
  - right; right. by eapply check_good.
  - right; right. by eapply put_good.
  - right; right. by eapply leave_good.
  - right; right. by eapply read_good.
  - right; right. by eapply merge_good.
  - right; right. by eapply release_good.
  - by left.
Qed.

Lemma tstep_good fs ts t c ph ph' fs' :
  locks_ok fs ts -> ts !! t = Some (c, ph) -> tstep ndebug c ph fs = Some (ph', fs') -> good_step c ph fs ph' fs'.
Proof.
  intros Hl E Es. destruct (thread_progress fs ts t c ph Hl E) as [Hf | [Hb | (ph1 & fs1 & E1 & Hg)]].
  - by destruct ph.
  - destruct Hb as (p & myino & i & rest & d & -> & Ed & Eb). cbn [tstep] in Es. unfold step_wake in Es.
    rewrite Ed in Es. cbn [mbind option_bind] in Es. by rewrite Eb in Es.
  - rewrite Es in E1. by injection E1 as <- <-.
Qed.

Lemma cstep_locks x y : cstep ndebug x y -> locks_ok x.1 x.2 -> locks_ok y.1 y.2.
Proof.
  intros [t c ph ph' fs fs' ts E Es] Hl. cbn [fst snd] in *. eapply step_preserves; [done | done |].
  by eapply tstep_good.
Qed.

(** A server at rest with calls that have not begun. *)
Definition start_ok fs (calls : list ThreadCall) : Prop :=
  fs_ok ndebug fs /\ is_Some (db_ fs) /\ (∀ p, refcount fs p = 0) /\ capacity_ (dlru fs) + 1 < 2 ^ 64 /\
  Z.of_nat (size (dir_heap fs)) + Z.of_nat (length calls) < 2 ^ 31 /\ Forall call_ok calls.

Lemma spawn_lookup calls t c ph : spawn calls !! t = Some (c, ph) -> calls !! t = Some c /\ ph = Idle.
Proof. unfold spawn. rewrite list_lookup_fmap. destruct (calls !! t); [| done]. by intros [= -> <-]. Qed.

Lemma spawn_locks fs calls : start_ok fs calls -> locks_ok fs (spawn calls).
Proof.
  intros ([Hwf Hopt Hdirs Hdbs Hino] & Hdb & Href & Hcap & Hsz & Hcalls).
  assert (idle (spawn calls) = Z.of_nat (length calls)) as Hidle.
  { unfold idle, spawn. clear. induction calls as [| c l IH]; [done |]. cbn [fmap list_fmap total snd length]. cbn in IH. lia. }
  split; try done.
  - intros p d Ed. destruct (Hdirs p d Ed) as [Hb Hi]. split; [done |]. by rewrite Hb.
  - intros p. rewrite Href. unfold count, spawn. clear. induction calls as [| c l IH]; [done |].
    cbn [fmap list_fmap total snd dir_of]. rewrite decide_False by done. exact IH.
  - intros t c ph [E ->]%spawn_lookup. split; [| done]. by eapply Forall_lookup_1.
  - intros t c ph p d [_ ->]%spawn_lookup. done.
  - intros p d i Ed. destruct (Hdirs p d Ed) as [-> _]. split; [by intros [? _]%lookup_replicate |].
    intros (t & c & ph & [_ ->]%spawn_lookup & [? _]). done.
  - intros t t' c ph c' ph' p i [_ ->]%spawn_lookup _ [? _]. done.
  - rewrite Hidle. lia.
  - unfold spawn. rewrite length_fmap. lia.
Qed.

(** Runs from a start. *)
Definition reachable fs calls (x : FS DX * Threads) : Prop := rtc (cstep ndebug) (fs, spawn calls) x.
Lemma reachable_locks fs calls x : start_ok fs calls -> reachable fs calls x -> locks_ok x.1 x.2.
Proof.
  intros Hs Hr. apply (rtc_ind_r (λ x, locks_ok x.1 x.2) (fs, spawn calls)) in Hr; [done | by apply spawn_locks |].
  intros y z _ Hyz Hy. by eapply cstep_locks.
Qed.
End Inv.
