(* ===== verification/FsConcProps.v ===== *)
(** * Concurrent operations of the metadata server: theorems

    Mutual exclusion in a name subset, no name created twice, no inode number given twice, and
    progress while waiting is a guard; [FsConcLive] has the condition variables. *)
From S2P Require Import Prelude Status Coding Hashing FsTypes Keys Giga HashTable Lru.
From S2P Require Import Mxdb FsDb Fs LruProps MxdbProps FsOps FsProps.
From S2P Require Import FsConc FsConcInv.

(** The inode number a thread carries, and how many of its names it has created. *)
Definition ino_of (ph : Phase) : Z :=
  match ph with
  | Entering _ i | Waiting _ i _ | Working _ i _ _ _ | Putting _ i _ _ _ _ | Leaving _ i _ _ _
  | Releasing _ i _ _ _ | Finished i _ _ _ => i
  | _ => 0
  end.
Definition result_count (c : ThreadCall) (s : Status) (n : Z) : nat :=
  if ok s then length (call_names c)
  else match c with CallMkfls _ _ _ _ n0 _ => if n =? n0 then 0%nat else Z.to_nat n | _ => 0%nat end.
Definition created (c : ThreadCall) (ph : Phase) : nat :=
  match ph with
  | Working _ _ m _ _ | Putting _ _ m _ _ _ | Leaving _ _ _ m _ => Z.to_nat m
  | Releasing _ _ s n _ | Finished _ s n _ => result_count c s n
  | _ => 0%nat
  end.

Lemma refusal_not_ok perm no_perm options p who now r :
  ok no_perm = false -> refusal perm no_perm options p who now = Some r -> ok r = false.
Proof. unfold refusal. intros Hn. repeat case_match; intros [= <-]; done. Qed.

Section Props.
Context {DX : Type} `{KvLaws DX}.
Variable ndebug : bool.
Implicit Types (fs : FS DX) (ts : Threads) (c : ThreadCall) (ph : Phase) (p : Ptr) (d : Dir).

(** ** The next phase *)
Definition refused_count c ph : Prop := created c ph = 0%nat /\ ∃ p i r n, ph = Releasing p i r n None /\ ok r = false.
Definition next_phase c ph ph' : Prop :=
  match ph with
  | Idle => ∃ p i, ph' = Entering p i
  | Entering p i => (∃ r, ph' = Releasing p i r (refused_n c) None /\ ok r = false) \/ (ph' = Reading p /\ ¬ creates c) \/
      ph' = Working p i 0 (call_names c) stats0 \/ ∃ rest, ph' = Waiting p i rest /\ (length rest <= length (call_ways c))%nat
  | Waiting p i rest => ph' = Working p i 0 (call_names c) stats0 \/
      ∃ rest', ph' = Waiting p i rest' /\ (length rest' < length rest)%nat
  | Working p i m todo _ => (todo = [] /\ ∃ st, ph' = Leaving p i OK m st) \/
      ∃ name todo' st, todo = name :: todo' /\
        (ph' = Putting p i m name todo' st \/ ∃ s, ok s = false /\ ph' = Leaving p i s m st)
  | Putting p i m name todo _ => (∃ st, ph' = Working p i (m + 1) todo st) \/ ∃ s st, ok s = false /\ ph' = Leaving p i s m st
  | Leaving p i s m _ => ph' = Releasing p i s (created_n c m) None
  | Reading p => ∃ s st stats, ph' = Merging p s st stats
  | Merging p s st _ => ph' = Releasing p 0 s 0 st
  | Releasing p i s n _ => ∃ st, ph' = Finished i s n st
  | Finished _ _ _ _ => False
  end.

Lemma take_ways_length ways d rest d' : take_ways ways d = Some (rest, d') -> (length rest <= length ways)%nat.
Proof.
  revert d. induction ways as [| i ways IH]; intros d; cbn [take_ways]; [by intros [= <- <-] |].
  destruct (busy d !! i) as [[] |]; cbn [mbind option_bind]; [by intros [= <- <-] | | done].
  intros E%IH. cbn [length]. lia.
Qed.
Lemma step_lock_next c p i ways fs ph' fs' :
  step_lock c p i ways fs = Some (ph', fs') ->
  ph' = Working p i 0 (call_names c) stats0 \/ ∃ rest, ph' = Waiting p i rest /\ (length rest <= length ways)%nat.
Proof.
  unfold step_lock. destruct (dir_heap fs !! p); [| done]. cbn [mbind option_bind].
  destruct (take_ways ways d) as [[rest d'] |] eqn:E; [| done]. cbn [mbind option_bind]. intros [= <- _].
  apply take_ways_length in E. destruct rest; [by left | right; by eexists].
Qed.

Lemma call_refusal_not_ok options c r : call_refusal options c = Some r -> ok r = false.
Proof. destruct c; cbn [call_refusal]; by apply refusal_not_ok. Qed.

Lemma tstep_next c ph fs ph' fs' : tstep ndebug c ph fs = Some (ph', fs') -> next_phase c ph ph'.
Proof.
  destruct ph as [| p i | p i ways | p i m todo st | p i m name todo st | p i s m st | p | p s st stats | p i s n st | i s n st]; cbn [tstep next_phase].
  - unfold step_acquire. destruct (AcquireDir _ _ _) as [[p fs1] |]; [| done]. intros [= <- _]. by do 2 eexists.
  - unfold step_enter. destruct (call_refusal (fs_options fs) c) as [r |] eqn:Er.
    { intros [= <- _]. left. exists r. split; [done |]. by eapply call_refusal_not_ok. }
    destruct (MaybeFetchDir _ _ _) as [fs1 |]; [| done]. cbn [mbind option_bind].
    destruct (dir_heap fs1 !! p) as [d |]; [| done]. cbn [mbind option_bind].
    destruct (match call_checked c with Some _ => _ | None => _ end) as [b |]; [| done]. cbn [mbind option_bind].
    destruct (negb b); [intros [= <- _]; left; by eexists |].
    destruct c; [intros El%step_lock_next; auto | intros El%step_lock_next; auto | intros [= <- _]; right; left; split; [done | by intros ?]].
  - unfold step_wake. destruct (dir_heap fs !! p) as [d |] eqn:Ed; [| done]. cbn [mbind option_bind].
    destruct ways as [| w ways]; [done |]. destruct (busy d !! w) as [[] |] eqn:Eb; cbn [mbind option_bind]; [done | | done].
    unfold step_lock. rewrite Ed. cbn [mbind option_bind take_ways]. rewrite Eb. cbn [mbind option_bind].
    destruct (take_ways ways _) as [[rest d'] |] eqn:E; [| done]. cbn [mbind option_bind]. intros [= <- _].
    apply take_ways_length in E. destruct rest as [| r rest]; [by left | right]. eexists. split; [done |]. cbn [length] in *. lia.
  - intros [= <- _]. unfold step_check. destruct todo as [| name todo]; [left; split; [done | by eexists] | right].
    destruct (negb _); [| do 3 eexists; split; [done | by left]]. destruct (DbGet _ _ _ _) as [[s0 ?] st']. set (s1 := if ok s0 then _ else _).
    destruct (ok s1) eqn:E1; do 3 eexists; (split; [done |]); [by left | right; by eexists].
  - unfold step_put. destruct (DbPut _ _ _ _ _) as [[[s fs1] st'] |]; [| done]. cbn [mbind option_bind]. intros [= <- _].
    destruct (ok s) eqn:Es; [left; by eexists | right; by do 2 eexists].
  - unfold step_leave. destruct (dir_heap fs !! p); [| done]. by intros [= <- _].
  - destruct c; try done. destruct (DbGet _ _ _ _) as [[s ?] st']. intros [= <- _]. by do 3 eexists.
  - unfold step_merge. destruct (dir_heap fs !! p); [| done]. by intros [= <- _].
  - unfold step_release. destruct (ReleaseDir _ _ _); [| done]. intros [= <- _]. by eexists.
  - done.
Qed.

(** ** Every run ends *)
Definition phase_measure c ph : Z :=
  let N := Z.of_nat (length (call_names c)) in
  match ph with
  | Idle => 6 + Z.of_nat (length (call_ways c)) + 2 * N
  | Entering _ _ => 5 + Z.of_nat (length (call_ways c)) + 2 * N
  | Waiting _ _ rest => 4 + Z.of_nat (length rest) + 2 * N
  | Working _ _ _ todo _ => 3 + 2 * Z.of_nat (length todo)
  | Putting _ _ _ _ todo _ => 4 + 2 * Z.of_nat (length todo)
  | Reading _ => 3
  | Leaving _ _ _ _ _ | Merging _ _ _ _ => 2
  | Releasing _ _ _ _ _ => 1
  | Finished _ _ _ _ => 0
  end.
Definition measure ts : Z := total (λ x, phase_measure x.1 x.2) ts.

Lemma phase_measure_nonneg c ph : 0 <= phase_measure c ph.
Proof. destruct ph; cbn [phase_measure]; lia. Qed.
Lemma measure_nonneg ts : 0 <= measure ts.
Proof. apply total_nonneg. intros [c ph]. apply phase_measure_nonneg. Qed.

Lemma next_phase_measure c ph ph' : next_phase c ph ph' -> phase_measure c ph' < phase_measure c ph.
Proof.
  destruct ph; cbn [next_phase]; intros Hn.
  - destruct Hn as (p & i & ->). cbn [phase_measure]. lia.
  - destruct Hn as [(r & -> & _) | [[-> _] | [-> | (rest & -> & ?)]]]; cbn [phase_measure]; lia.
  - destruct Hn as [-> | (rest & -> & ?)]; cbn [phase_measure]; lia.
  - destruct Hn as [(-> & st & ->) | (name & todo' & st & -> & [-> | (s & _ & ->)])]; cbn [phase_measure length]; lia.
  - destruct Hn as [(st & ->) | (s' & st & _ & ->)]; cbn [phase_measure]; lia.
  - subst. cbn [phase_measure]. lia.
  - destruct Hn as (s & st & st' & ->). cbn [phase_measure]. lia.
  - subst. cbn [phase_measure]. lia.
  - destruct Hn as (st & ->). cbn [phase_measure]. lia.
  - done.
Qed.
Lemma cstep_measure x y : cstep ndebug x y -> measure y.2 < measure x.2.
Proof.
  intros [t c ph ph' fs fs' ts E Es]. cbn [snd]. unfold measure. rewrite (total_insert _ _ _ _ _ E). cbn [fst snd].
  pose proof (next_phase_measure c ph ph' (tstep_next c ph fs ph' fs' Es)). lia.
Qed.
Lemma nsteps_measure n x y : nsteps (cstep ndebug) n x y -> Z.of_nat n + measure y.2 <= measure x.2.
Proof.
  induction 1 as [x | n x y z Hxy _ IH]; [lia |]. apply cstep_measure in Hxy. lia.
Qed.

(** ** No deadlock: a batch takes the name subsets in order, and a single creation holds one at most *)
Lemma seq_split_lt n l i j rest : seq 0 n = l ++ j :: rest -> i ∈ l -> (i < j)%nat.
Proof.
  intros E Hi. apply list_elem_of_lookup in Hi as [a Ha].
  assert (seq 0 n !! a = Some i) as E1 by (rewrite E; by apply lookup_app_l_Some).
  assert (seq 0 n !! length l = Some j) as E2 by (rewrite E; by apply list_lookup_middle).
  apply lookup_seq in E1 as [-> _], E2 as [-> _]. apply lookup_lt_Some in Ha. lia.
Qed.

Lemma blocked_chain fs ts n t c p i myino rest d :
  locks_ok ndebug fs ts -> (∀ t c ph, ts !! t = Some (c, ph) -> finished ph \/ blocked c ph fs) ->
  ts !! t = Some (c, Waiting p myino (i :: rest)) -> dir_heap fs !! p = Some d -> busy d !! i = Some true ->
  (kWays - i <= n)%nat -> False.
Proof.
  intros Hl Hall. revert t c i myino rest. induction n as [| n IH]; intros t c i myino rest E Ed Eb Hn.
  all: assert (i < kWays)%nat as Hi by
    (destruct (lk_calls _ _ _ Hl t c _ E) as [_ (_ & _ & l & Hw)]; apply (call_ways_lt c);
     rewrite Hw, elem_of_app, elem_of_cons; auto).
  - lia.
  - apply (lk_busy _ _ _ Hl p d i Ed) in Eb as (t1 & c1 & ph1 & E1 & Hp1 & Hh1).
    destruct (Hall t1 c1 ph1 E1) as [Hf | (p1 & m1 & j & rest1 & d1 & -> & Ed1 & Eb1)]; [by destruct ph1 |].
    injection Hp1 as ->. rewrite Ed in Ed1. injection Ed1 as <-. destruct Hh1 as [Hw1 Hni].
    destruct (lk_calls _ _ _ Hl t1 c1 _ E1) as [_ (_ & _ & l & Hw)].
    assert (i ∈ l) as Hil by (rewrite Hw, elem_of_app in Hw1; tauto).
    assert (i < j)%nat as Hij.
    { destruct c1; cbn [call_ways] in Hw; [| by eapply seq_split_lt | by destruct l].
      destruct l as [| ? [|]]; [by apply elem_of_nil in Hil | done | done]. }
    apply (IH t1 c1 j m1 rest1 E1 Ed Eb1). lia.
Qed.

Lemma progress fs ts :
  locks_ok ndebug fs ts -> (∀ t c ph, ts !! t = Some (c, ph) -> finished ph) \/ ∃ y, cstep ndebug (fs, ts) y.
Proof.
  intros Hl. destruct (decide (List.Exists (λ x, is_Some (tstep ndebug x.1 x.2 fs)) ts)) as [Hex | Hne].
  - right. apply List.Exists_exists in Hex as ([c ph] & Hin & [[ph' fs'] Es]). cbn [fst snd] in Es.
    apply list_elem_of_In, list_elem_of_lookup in Hin as [t E]. exists (fs', <[t := (c, ph')]> ts). by econstructor.
  - assert (∀ t c ph, ts !! t = Some (c, ph) -> finished ph \/ blocked c ph fs) as Hall.
    { intros t c ph E. destruct (thread_progress ndebug fs ts t c ph Hl E) as [Hf | [Hb | (ph' & fs' & Es & _)]]; [by left | by right |].
      exfalso. apply Hne, List.Exists_exists. exists (c, ph). split; [| by eexists]. apply list_elem_of_In. by eapply list_elem_of_lookup_2. }
    left. intros t c ph E. destruct (Hall t c ph E) as [Hf | (p & myino & i & rest & d & -> & Ed & Eb)]; [done |].
    exfalso. by eapply (blocked_chain fs ts (kWays - i)).
Qed.

Lemma run_on n x :
  locks_ok ndebug x.1 x.2 -> measure x.2 <= Z.of_nat n ->
  ∃ y, rtc (cstep ndebug) x y /\ ∀ t c ph, y.2 !! t = Some (c, ph) -> finished ph.
Proof.
  revert x. induction n as [| n IH]; intros [fs ts] Hl Hm; cbn [fst snd] in *;
    (destruct (progress fs ts Hl) as [Hf | [y Hy]]; [by exists (fs, ts) |]).
  - pose proof (cstep_measure _ _ Hy). pose proof (measure_nonneg y.2). cbn [snd] in *. lia.
  - destruct (IH y) as (z & Hz & Hf); [by apply (cstep_locks ndebug (fs, ts)) | pose proof (cstep_measure _ _ Hy); cbn [snd] in *; lia |].
    exists z. split; [by eapply rtc_l | done].
Qed.

(** ** Mutual exclusion *)
Lemma dir_unique fs p p' d d' :
  fs_wf fs -> dir_heap fs !! p = Some d -> dir_heap fs !! p' = Some d' -> d_id d = d_id d' -> p = p'.
Proof.
  intros Hwf E E' Eid. apply (wf_key_inj LRUHash (dirs fs)); [apply Hwf | apply (fw_index _ _ Hwf); eauto.. |].
  destruct (fw_dir _ _ Hwf _ _ E) as (Hk & _), (fw_dir _ _ Hwf _ _ E') as (Hk' & _).
  change (p_key p = p_key p'). congruence.
Qed.

Lemma way_of_name c name : name ∈ call_names c -> name_way name ∈ call_ways c.
Proof.
  destruct c; cbn [call_names call_ways].
  - intros ->%list_elem_of_singleton. by left.
  - intros _. apply elem_of_seq. pose proof (name_way_lt name). lia.
  - by intros ?%elem_of_nil.
Qed.

(** A thread between locking and unlocking its name subsets. *)
Definition writing ph : Prop :=
  match ph with Working _ _ _ _ _ | Putting _ _ _ _ _ _ | Leaving _ _ _ _ _ => True | _ => False end.

Lemma writers_unique fs ts t t' c c' ph ph' name :
  locks_ok ndebug fs ts -> ts !! t = Some (c, ph) -> ts !! t' = Some (c', ph') -> writing ph -> writing ph' ->
  call_id c = call_id c' -> name ∈ call_names c -> name ∈ call_names c' -> t = t'.
Proof.
  intros Hl E E' Hw Hw' Eid Hn Hn'.
  assert (∃ p, dir_of ph = Some p) as [p Hp] by (destruct ph; try done; by eexists).
  assert (∃ p', dir_of ph' = Some p') as [p' Hp'] by (destruct ph'; try done; by eexists).
  destruct (thread_dir ndebug fs ts t c ph p Hl E Hp) as (d & Ed & Ed1).
  destruct (thread_dir ndebug fs ts t' c' ph' p' Hl E' Hp') as (d' & Ed' & Ed1').
  assert (p = p') as <- by (eapply dir_unique; [apply Hl | done | done | congruence]).
  eapply (lk_excl _ _ _ Hl t t' c ph c' ph' p (name_way name)); [done | done | |]; (split; [done |]);
    [destruct ph | destruct ph']; try done; by apply way_of_name.
Qed.

(** Writers exclude each other.  In every state that concurrent operations reach, two threads that are both
    between locking and unlocking name subsets of the same directory have no name in common; and a
    directory has one control block, whose reference count is the number of threads inside. *)
Theorem writers_exclusive fs calls fs' ts :
  start_ok ndebug fs calls -> reachable ndebug fs calls (fs', ts) ->
  (∀ t t' c c' ph ph' name, ts !! t = Some (c, ph) -> ts !! t' = Some (c', ph') -> writing ph -> writing ph' ->
     call_id c = call_id c' -> name ∈ call_names c -> name ∈ call_names c' -> t = t') /\
  (∀ p p' d d', dir_heap fs' !! p = Some d -> dir_heap fs' !! p' = Some d' -> d_id d = d_id d' -> p = p') /\
  ∀ p, refcount fs' p = count p ts.
Proof.
  intros Hs Hr. pose proof (reachable_locks ndebug fs calls _ Hs Hr) as Hl. cbn [fst snd] in Hl. split_and!.
  - intros t t' c c' ph ph' name. by eapply writers_unique.
  - intros p p' d d'. eapply dir_unique, Hl.
  - apply Hl.
Qed.

(** ** Inode numbers *)

(** The numbers reserved by a thread and not given back. *)
Definition owns c ph (i : Z) : Prop :=
  creates c /\
  match ph with
  | Idle | Reading _ | Merging _ _ _ _ => False
  | Finished myino s n _ =>
      myino - call_inos c < i <= myino - call_inos c + (if ok s then call_inos c else Z.of_nat (result_count c s n))
  | _ => ino_of ph - call_inos c < i <= ino_of ph
  end.
Definition begun ph : Prop := match ph with Idle => False | _ => True end.
Definition pending ts : Z := total (λ x, match x.2 with Idle => call_inos x.1 | _ => 0 end) ts.

Record inos_ok (base : Z) fs ts : Prop := {
  in_base : 0 <= base <= inoq fs;
  in_room : inoq fs + pending ts < 2 ^ 64;
  in_own : ∀ t c ph, ts !! t = Some (c, ph) -> creates c -> begun ph ->
    base + call_inos c <= ino_of ph < 2 ^ 64 /\ ∀ i, owns c ph i -> i <= inoq fs;
  in_disjoint : ∀ t t' c c' ph ph' i, ts !! t = Some (c, ph) -> ts !! t' = Some (c', ph') ->
    owns c ph i -> owns c' ph' i -> t = t'
}.

Lemma call_inos_nonneg c : call_ok c -> 0 <= call_inos c.
Proof. intros (_ & _ & Hc). destruct c; cbn [call_inos]; [lia | by destruct Hc as [[? ?] _] | lia]. Qed.

Lemma result_count_le c s n st p i : call_ok c -> phase_ok c (Releasing p i s n st) -> Z.of_nat (result_count c s n) <= call_inos c.
Proof.
  intros Hc Hp. pose proof (length_call_names c Hc). unfold result_count. destruct (ok s); [done |].
  destruct c; cbn [call_inos phase_ok] in *; [lia | | lia]. destruct (n =? _); lia.
Qed.

(** Giving numbers back: only those above what the thread keeps, and only if they are the last ones. *)
Lemma reuse_spec c myino n s fs p st :
  call_ok c -> phase_ok c (Releasing p myino s n st) -> creates c -> ok s = false ->
  call_inos c <= myino < 2 ^ 64 -> 0 <= inoq fs < 2 ^ 64 ->
  inoq (reuse c myino n fs) = inoq fs \/
  (inoq fs = myino /\ myino - call_inos c + Z.of_nat (result_count c s n) <= inoq (reuse c myino n fs) <= myino).
Proof.
  intros (_ & _ & Hc) Hph Hcr Hs Hmy Hq. unfold result_count. rewrite Hs. destruct c as [mk who pa name mode now | who pa arr mode n0 now |]; [| | done];
    cbn [reuse call_inos phase_ok] in *; unfold TryReuseIno.
  - destruct (Z.eqb_spec myino (inoq fs)) as [-> |]; [right | by left]. split; [done |]. cbn [set_inoq inoq].
    rewrite (wrap_small 64) by (split; lia). lia.
  - assert (0 <= n0 < 2 ^ 32) as Hn0 by (by destruct Hc as [[? ?] _]).
    assert (u64 (myino - u64 (myino - n0 + 1) + 1) = n0) as ->.
    { unfold u64, wrap. rewrite <- Zplus_mod_idemp_l, Zminus_mod_idemp_r, Zplus_mod_idemp_l.
      replace (myino - (myino - n0 + 1) + 1) with n0 by lia. apply Z.mod_small. lia. }
    unfold u64. rewrite (wrap_small 64 (n0 - n)) by (split; lia).
    destruct (Z.eqb_spec myino (inoq fs)) as [-> |]; [right | by left]. split; [done |]. cbn [set_inoq inoq].
    rewrite (wrap_small 64) by (split; lia). destruct (Z.eqb_spec n n0); lia.
Qed.

Lemma next_owns c ph ph' : next_phase c ph ph' -> begun ph -> ¬ finished ph' -> creates c -> phase_ok c ph ->
  ino_of ph' = ino_of ph /\ ∀ i, owns c ph' i -> owns c ph i.
Proof.
  intros Hn Hb Hf Hcr Hph. destruct ph; cbn [next_phase begun] in *; try done.
  - destruct Hn as [(r & -> & _) | [[-> ?] | [-> | (rest & -> & _)]]]; done.
  - destruct Hn as [-> | (rest & -> & _)]; done.
  - destruct Hn as [(-> & st & ->) | (name & todo' & st & -> & [-> | (s & _ & ->)])]; done.
  - destruct Hn as [(st & ->) | (s & st & _ & ->)]; done.
  - by subst.
  - by destruct Hn as (st & ->).
Qed.

Lemma pending_insert ts t c ph c' ph' : ts !! t = Some (c, ph) ->
  pending (<[t := (c', ph')]> ts)
  = pending ts - (match ph with Idle => call_inos c | _ => 0 end) + (match ph' with Idle => call_inos c' | _ => 0 end).
Proof. intros E. unfold pending. by rewrite (total_insert _ _ _ _ _ E). Qed.

(** What the step of [t] has to show. *)
Lemma inos_preserved base fs ts fs' t c ph ph' :
  inos_ok base fs ts -> ts !! t = Some (c, ph) -> base <= inoq fs' ->
  inoq fs' + pending (<[t := (c, ph')]> ts) < 2 ^ 64 ->
  (creates c -> base + call_inos c <= ino_of ph' < 2 ^ 64) ->
  (∀ i, owns c ph' i -> i <= inoq fs') ->
  (∀ t0 c0 ph0 i, t0 ≠ t -> ts !! t0 = Some (c0, ph0) -> owns c0 ph0 i -> i <= inoq fs' /\ ¬ owns c ph' i) ->
  inos_ok base fs' (<[t := (c, ph')]> ts).
Proof.
  intros [Hb Hr Ho Hd] E Hbase Hroom Hmy Hown Hoth.
  assert (t < length ts)%nat as Ht by (by eapply lookup_lt_Some). split; [lia | done | |].
  - intros t0 c0 ph0 E0 Hc0 Hb0. destruct (decide (t0 = t)) as [-> | Hne].
    + rewrite list_lookup_insert_eq in E0 by done. injection E0 as <- <-. split; [by apply Hmy | done].
    + rewrite list_lookup_insert_ne in E0 by done. destruct (Ho t0 c0 ph0 E0 Hc0 Hb0) as [? _]. split; [done |].
      intros i Hi. by destruct (Hoth t0 c0 ph0 i Hne E0 Hi).
  - intros t1 t2 c1 c2 ph1 ph2 i E1 E2 H1 H2.
    destruct (decide (t1 = t)) as [-> | N1], (decide (t2 = t)) as [-> | N2]; [done | exfalso | exfalso |].
    + rewrite list_lookup_insert_eq in E1 by done. injection E1 as <- <-.
      rewrite list_lookup_insert_ne in E2 by done. by destruct (Hoth t2 c2 ph2 i N2 E2 H2).
    + rewrite list_lookup_insert_eq in E2 by done. injection E2 as <- <-.
      rewrite list_lookup_insert_ne in E1 by done. by destruct (Hoth t1 c1 ph1 i N1 E1 H1).
    + rewrite list_lookup_insert_ne in E1, E2 by done. by eapply Hd.
Qed.

Lemma owns_begun c ph i : owns c ph i -> creates c /\ begun ph.
Proof. intros [Hc Ho]. split; [done |]. by destruct ph. Qed.

Lemma pending_nonneg (ts : Threads) : (∀ t c ph, ts !! t = Some (c, ph) -> call_ok c) -> 0 <= pending ts.
Proof.
  unfold pending. induction ts as [| [c0 ph0] l IH]; intros Hl; cbn [total fst snd]; [done |].
  specialize (IH (λ t, Hl (S t))). pose proof (call_inos_nonneg c0 (Hl 0%nat c0 ph0 eq_refl)).
  cbn [fst snd] in IH. destruct ph0; lia.
Qed.

Lemma step_acquire_inos base fs ts fs' t c p :
  inos_ok base fs ts -> (∀ t c ph, ts !! t = Some (c, ph) -> call_ok c) -> ts !! t = Some (c, Idle) ->
  inoq fs' = match c with CallLstat _ _ _ _ => inoq fs | _ => u64 (inoq fs + call_inos c) end ->
  inos_ok base fs' (<[t := (c, Entering p (inoq fs'))]> ts).
Proof.
  intros Hi Hcalls E Hq. pose proof (call_inos_nonneg c (Hcalls t c _ E)) as Hk.
  pose proof (in_base _ _ _ Hi) as Hbase. pose proof (in_room _ _ _ Hi) as Hroom.
  pose proof (pending_insert ts t c Idle c (Entering p (inoq fs')) E) as Hpi. cbn iota in Hpi.
  assert (0 <= pending (<[t := (c, Entering p (inoq fs'))]> ts)) as Hpend.
  { apply pending_nonneg. intros t0 c0 ph0 E0. destruct (decide (t0 = t)) as [-> | Hne].
    - rewrite list_lookup_insert_eq in E0 by (by eapply lookup_lt_Some). injection E0 as <- _. by eapply Hcalls.
    - rewrite list_lookup_insert_ne in E0 by done. by eapply Hcalls. }
  assert (inoq fs' = inoq fs + call_inos c) as Eq.
  { rewrite Hq. destruct c; cbn [call_inos] in *; try (apply (wrap_small 64); split; lia). lia. }
  apply (inos_preserved base fs ts fs' t c Idle); try done; [lia | lia | intros _; cbn [ino_of]; lia | |].
  - intros i [_ Ho]. cbn [ino_of] in Ho. lia.
  - intros t0 c0 ph0 i Hne E0 Hown. destruct (owns_begun _ _ _ Hown).
    assert (i <= inoq fs) by (by apply (in_own _ _ _ Hi t0 c0 ph0)). split; [lia |].
    intros [_ Ho]. cbn [ino_of] in Ho. lia.
Qed.

Lemma step_inos base fs ts fs' t c ph ph' :
  locks_ok ndebug fs ts -> inos_ok base fs ts -> ts !! t = Some (c, ph) -> tstep ndebug c ph fs = Some (ph', fs') ->
  inos_ok base fs' (<[t := (c, ph')]> ts).
Proof.
  intros Hl Hi E Es. pose proof (tstep_next c ph fs ph' fs' Es) as Hn.
  destruct (tstep_good ndebug fs ts t c ph ph' fs' Hl E Es) as (_ & Hph' & _ & _ & Hdata).
  destruct (lk_calls _ _ _ Hl t c ph E) as [Hcall Hph]. pose proof (call_inos_nonneg c Hcall) as Hk.
  pose proof (in_base _ _ _ Hi) as Hbase. pose proof (in_room _ _ _ Hi) as Hroom.
  assert (∀ t c ph, ts !! t = Some (c, ph) -> call_ok c) as Hcalls by (intros ? ? ? E0; by apply (lk_calls _ _ _ Hl _ _ _ E0)).
  pose proof (pending_nonneg ts Hcalls) as Hpend.
  assert (∀ t0 c0 ph0 i, t0 ≠ t -> ts !! t0 = Some (c0, ph0) -> owns c0 ph0 i -> owns c ph i -> False) as Hdis.
  { intros t0 c0 ph0 i Hne E0 Ho Ho'. apply Hne. by eapply (in_disjoint _ _ _ Hi t0 t). }
  assert (∀ t0 c0 ph0 i, ts !! t0 = Some (c0, ph0) -> owns c0 ph0 i -> i <= inoq fs) as Hbnd.
  { intros t0 c0 ph0 i E0 Ho. destruct (owns_begun _ _ _ Ho). by apply (in_own _ _ _ Hi t0 c0 ph0). }
  pose proof (pending_insert ts t c ph c ph' E) as Hpi.
  destruct ph as [| p i0 | p i0 ways | p i0 m todo st | p i0 m name todo st | p i0 s m st | p | p s st stats | p i0 s n st | i0 s n st];
    [destruct Hdata as (_ & _ & [p ->] & Hq); by apply (step_acquire_inos base fs) | .. | done].
  8: { destruct Hdata as (_ & _ & [st' ->] & Hq). cbn iota in Hpi.
    assert (creates c -> base + call_inos c <= i0 < 2 ^ 64) as Hown by (intros Hc; by apply (in_own _ _ _ Hi t c _ E Hc)).
    pose proof (result_count_le c s n st p i0 Hcall Hph) as Hres.
    assert (inoq fs' = inoq fs \/ (creates c /\ ok s = false /\ inoq fs = i0 /\
              i0 - call_inos c + Z.of_nat (result_count c s n) <= inoq fs' <= i0)) as Hre.
    { destruct (ok s) eqn:Hs; cbn [negb] in Hq; [by left |]. assert (creates c \/ ¬ creates c) as [Hc | Hc] by (destruct c; cbn; tauto).
      - specialize (Hown Hc). destruct (reuse_spec c i0 n s fs p st Hcall Hph Hc Hs) as [Hr | [Hr1 Hr2]]; [lia | lia | left; congruence |].
        right. rewrite Hq. done.
      - left. rewrite Hq. by destruct c; try (by destruct Hc). }
    apply (inos_preserved base fs ts fs' t c _ _ Hi E).
    - destruct Hre as [-> | (Hc & _ & _ & ?)]; [lia |]. specialize (Hown Hc). lia.
    - rewrite Hpi. lia.
    - exact Hown.
    - intros i [Hc Ho]. assert (i <= inoq fs) by (apply (Hbnd t c _ i E); split; [done |]; cbn [ino_of]; destruct (ok s); lia).
      destruct Hre as [-> | (_ & Hs & ? & ?)]; [lia |]. rewrite Hs in Ho. lia.
    - intros t0 c0 ph0 i Hne E0 Ho. pose proof (Hbnd _ _ _ _ E0 Ho) as Hle. specialize (Hdis t0 c0 ph0 i Hne E0 Ho). split.
      + destruct Hre as [-> | (Hc & Hs & ? & ?)]; [lia |]. destruct (decide (i <= inoq fs')); [done |]. exfalso. apply Hdis.
        split; [done |]. cbn [ino_of]. lia.
      + intros [Hc Ho']. apply Hdis. split; [done |]. cbn [ino_of]. destruct (ok s); lia. }
  all: assert (inoq fs' = inoq fs) as Hq by (by destruct Hdata as [_ ?]; first [apply Hdata | tauto]).
  all: assert (¬ finished ph') as Hnf by (intros Hf; destruct ph'; try done; cbn [next_phase] in Hn; naive_solver).
  all: assert (match ph' with Idle => call_inos c | _ => 0 end = 0) as Hni by (destruct ph'; try done; cbn [next_phase] in Hn; naive_solver).
  all: apply (inos_preserved base fs ts fs' t c _ _ Hi E); rewrite ?Hq; [lia | rewrite Hpi, Hni; cbn iota; lia | | |].
  all: try (intros Hc; destruct (next_owns c _ _ Hn I Hnf Hc Hph) as [-> _]; by apply (in_own _ _ _ Hi t c _ E Hc)).
  all: try (intros i Ho; destruct (owns_begun _ _ _ Ho) as [Hc _]; destruct (next_owns c _ _ Hn I Hnf Hc Hph) as [_ Hsub];
            by apply (Hbnd t c _ i E), Hsub).
  all: intros t0 c0 ph0 i Hne E0 Ho; split; [by eapply Hbnd |]; intros Ho'; destruct (owns_begun _ _ _ Ho') as [Hc _];
    destruct (next_owns c _ _ Hn I Hnf Hc Hph) as [_ Hsub]; by apply (Hdis t0 c0 ph0 i Hne E0 Ho), Hsub.
Qed.

(** ** Names *)
Lemma visible_own fs id name : visible fs id name = match own fs id name with Some st => Some st | None => ro_visible (readonly_dbs fs) id name end.
Proof. unfold visible, own, all_dbs. by destruct (db_ fs). Qed.

Lemma visible_wrote fs fs' id name stat id' name' :
  wrote fs fs' id name stat -> readonly_dbs fs' = readonly_dbs fs -> DirId_fits id' ->
  visible fs' id' name' = if decide ((id', name') = (id, name)) then Some stat else visible fs id' name'.
Proof. intros Hw Er Hid. rewrite !visible_own, Er, (Hw id' name' Hid). by case_decide. Qed.
Lemma visible_unwritten fs fs' id' name' :
  unwritten fs fs' -> readonly_dbs fs' = readonly_dbs fs -> DirId_fits id' -> visible fs' id' name' = visible fs id' name'.
Proof. intros Hw Er Hid. by rewrite !visible_own, Er, (Hw id' name' Hid). Qed.

Record names_inv fs ts : Prop := {
  nm_dbs : dbs_wf fs;
  nm_mydno : word 64 (mydno (fs_options fs));
  nm_free : ∀ t c p i m name todo st, ts !! t = Some (c, Putting p i m name todo st) -> visible fs (call_id c) name = None;
  nm_created : ∀ t c ph j name, ts !! t = Some (c, ph) -> (j < created c ph)%nat -> call_names c !! j = Some name ->
    visible fs (call_id c) name = Some (call_stat (fs_options fs) c (ino_of ph) (Z.of_nat j))
}.

(** A thread creates one name when its put succeeds, and none otherwise. *)
Lemma next_created c ph ph' : call_ok c -> phase_ok c ph -> next_phase c ph ph' ->
  match ph, ph' with
  | Putting _ _ m _ _ _, Working _ _ _ _ _ => created c ph' = S (created c ph)
  | _, _ => created c ph' = created c ph /\ (created c ph <> 0%nat -> ino_of ph' = ino_of ph)
  end.
Proof.
  intros Hc Hph Hn. pose proof (length_call_names c Hc) as Hlen. destruct ph; cbn [next_phase] in Hn.
  - by destruct Hn as (p & i & ->).
  - assert (∀ r p i, ok r = false -> created c (Releasing p i r (refused_n c) None) = 0%nat) as Hr.
    { intros r p i Hr. cbn [created]. unfold result_count. rewrite Hr. destruct c; cbn [refused_n]; try done. by rewrite Z.eqb_refl. }
    destruct Hn as [(r & -> & Hok) | [[-> _] | [-> | (rest & -> & _)]]]; split; try done. by apply Hr.
  - by destruct Hn as [-> | (rest & -> & _)].
  - by destruct Hn as [(-> & st & ->) | (name & todo' & st & -> & [-> | (s & _ & ->)])].
  - destruct Hph as (_ & Hm & _). destruct Hn as [(st & ->) | (s & st & _ & ->)]; [cbn [created]; lia | done].
  - subst ph'. split; [| done]. destruct Hph as (Hcr & Hm & Hs). cbn [created]. unfold result_count.
    destruct (ok s); [by rewrite Hs, Nat2Z.id |]. destruct Hc as (_ & _ & Hc'). destruct c; cbn [created_n call_inos call_names length] in *; [lia | | done].
    destruct Hc' as [[? ?] _]. rewrite (wrap_small 32) by (split; lia). by rewrite (proj2 (Z.eqb_neq _ _)) by lia.
  - by destruct Hn as (s & st & stats & ->).
  - subst. cbn [phase_ok] in Hph. split; [| done]. cbn [created]. unfold result_count.
    destruct c; try (by destruct Hph). by destruct (ok s).
  - by destruct Hn as (st & ->).
  - done.
Qed.

Lemma drop_name (l : list Slice) m name todo : drop m l = name :: todo -> l !! m = Some name.
Proof. intros E. by rewrite <- (Nat.add_0_r m), <- lookup_drop, E. Qed.

Lemma check_free c p i m todo st fs p' i' m' name todo' st' fs' :
  tstep ndebug c (Working p i m todo st) fs = Some (Putting p' i' m' name todo' st', fs') ->
  skip_name_collision_checks (fs_options fs) = false -> dbs_wf fs -> is_Some (db_ fs) -> DirId_fits (call_id c) ->
  visible fs (call_id c) name = None.
Proof.
  intros E Hskip Hwf [db Edb] Hid. cbn [tstep] in E. unfold step_check in E. destruct todo as [| name0 todo0]; [done |].
  rewrite Hskip in E. cbn [negb] in E. assert (all_dbs fs <> []) as Hne by (unfold all_dbs; by rewrite Edb).
  pose proof (DbGet_spec fs (call_id c) name0 st Hwf Hid Hne) as [_ G2].
  destruct (DbGet fs (call_id c) name0 st) as [[s0 v] st0]. cbn [fst] in G2.
  destruct (ok s0) eqn:E0; [done |]. destruct (IsNotFound s0) eqn:En; [| by rewrite E0 in E].
  change (ok OK) with true in E. cbn iota in E. injection E as _ _ _ <- _ _ _. by apply G2.
Qed.

Lemma call_stat_wf options c i m : call_ok c -> creates c -> word 64 (mydno options) -> word 64 i -> Stat_wf (call_stat options c i m).
Proof.
  intros (_ & _ & Hc) Hcr Hm Hi. destruct c as [mk who pa name mode now | who pa arr mode n now |]; [| | done]; cbn [call_stat].
  - destruct Hc as [[-> | ->] Hu]; [by apply file_stat_wf | by apply dir_stat_wf].
  - apply SetInodeNo_wf; [by apply wrap_word |]. apply file_stat_wf; [done | split; lia | by destruct Hc].
Qed.

(** A put adds at most the entry of a name that was absent. *)
Lemma put_effect base fs ts fs' t c p i m name todo st ph' :
  locks_ok ndebug fs ts -> inos_ok base fs ts -> names_inv fs ts -> ts !! t = Some (c, Putting p i m name todo st) ->
  tstep ndebug c (Putting p i m name todo st) fs = Some (ph', fs') ->
  dbs_wf fs' /\ fs_options fs' = fs_options fs /\
  (∀ id' name', DirId_fits id' -> (id', name') <> (call_id c, name) -> visible fs' id' name' = visible fs id' name') /\
  (∀ st', ph' = Working p i (m + 1) todo st' -> visible fs' (call_id c) name = Some (call_stat (fs_options fs) c i m)).
Proof.
  intros Hl Hi Hn E Es. destruct (lk_calls _ _ _ Hl t c _ E) as [Hcall (Hcr & Hm & Hd)].
  destruct (lk_db _ _ _ Hl) as [db Edb]. pose proof Hcall as (Hid & Hnames & _).
  assert (word 64 i) as Hiw.
  { pose proof (call_inos_nonneg c Hcall). destruct (in_own _ _ _ Hi t c _ E Hcr I) as [Hb _]. cbn [ino_of] in Hb.
    pose proof (in_base _ _ _ Hi). split; lia. }
  assert (Stat_wf (call_stat (fs_options fs) c i m)) as Hst by (apply call_stat_wf; [done | done | apply Hn | done]).
  assert (word 32 (|[name]|)) as Hw by (by eapply (Forall_lookup_1 _ _ _ _ Hnames), drop_name).
  destruct (DbPut_spec fs (call_id c) name (call_stat (fs_options fs) c i m) st db (nm_dbs _ _ Hn) Edb Hid Hst Hw)
    as (s & db' & st' & Ep & Hwf' & Hout).
  cbn [tstep] in Es. unfold step_put in Es. rewrite Ep in Es. cbn [mbind option_bind] in Es. injection Es as <- <-.
  split; [done |]. split; [done |]. split.
  - intros id' name' Hid' Hne. destruct (ok s).
    + destruct Hout as [_ Hwr]. rewrite (visible_wrote _ _ _ _ _ id' name' Hwr) by done. by rewrite decide_False.
    + destruct Hout as [_ [Hu | Hwr]]; [by apply visible_unwritten |].
      rewrite (visible_wrote _ _ _ _ _ id' name' Hwr) by done. by rewrite decide_False.
  - intros st1 Ephase. destruct (ok s); [| done]. destruct Hout as [_ Hwr].
    rewrite (visible_wrote _ _ _ _ _ _ name Hwr) by done. by rewrite decide_True.
Qed.

(** The names of the other threads after the step of [t], and those of [t]. *)
Lemma names_preserved fs ts fs' t c ph' :
  names_inv fs ts -> (t < length ts)%nat -> dbs_wf fs' -> fs_options fs' = fs_options fs ->
  (∀ t0 c0 p i m name todo st, t0 ≠ t -> ts !! t0 = Some (c0, Putting p i m name todo st) -> visible fs' (call_id c0) name = None) ->
  (∀ t0 c0 ph0 j name, ts !! t0 = Some (c0, ph0) -> (j < created c0 ph0)%nat -> call_names c0 !! j = Some name ->
     visible fs' (call_id c0) name = visible fs (call_id c0) name) ->
  (∀ p i m name todo st, ph' = Putting p i m name todo st -> visible fs' (call_id c) name = None) ->
  (∀ j name, (j < created c ph')%nat -> call_names c !! j = Some name ->
     visible fs' (call_id c) name = Some (call_stat (fs_options fs) c (ino_of ph') (Z.of_nat j))) ->
  names_inv fs' (<[t := (c, ph')]> ts).
Proof.
  intros [Hd Hm Hf Hc] Ht Hwf Eo Hf0 Hc0 Hf1 Hc1. split; [done | by rewrite Eo | |].
  - intros t0 c0 p i m name todo st E0. destruct (decide (t0 = t)) as [-> | Hne].
    + rewrite list_lookup_insert_eq in E0 by done. injection E0 as <- ->. by eapply Hf1.
    + rewrite list_lookup_insert_ne in E0 by done. by eapply Hf0.
  - intros t0 c0 ph0 j name E0 Hj En. rewrite Eo. destruct (decide (t0 = t)) as [-> | Hne].
    + rewrite list_lookup_insert_eq in E0 by done. injection E0 as <- <-. by apply Hc1.
    + rewrite list_lookup_insert_ne in E0 by done. rewrite (Hc0 t0 c0 ph0 j name) by done. by eapply Hc.
Qed.

Lemma step_put_names base fs ts fs' t c p i m name todo st ph' :
  locks_ok ndebug fs ts -> inos_ok base fs ts -> names_inv fs ts -> ts !! t = Some (c, Putting p i m name todo st) ->
  tstep ndebug c (Putting p i m name todo st) fs = Some (ph', fs') -> names_inv fs' (<[t := (c, ph')]> ts).
Proof.
  intros Hl Hi Hn E Es. destruct (put_effect base fs ts fs' t c p i m name todo st ph' Hl Hi Hn E Es) as (Hwf & Eo & Hsame & Hnew).
  destruct (lk_calls _ _ _ Hl t c _ E) as [Hcall Hph]. pose proof Hph as (_ & Hm & Hd). apply drop_name in Hd as En.
  pose proof (nm_free _ _ Hn t c p i m name todo st E) as Hfree. pose proof (tstep_next _ _ _ _ _ Es) as Hnx.
  assert (∀ t0 c0 ph0 j name0, ts !! t0 = Some (c0, ph0) -> (j < created c0 ph0)%nat -> call_names c0 !! j = Some name0 ->
     visible fs' (call_id c0) name0 = visible fs (call_id c0) name0) as Hkeep.
  { intros t0 c0 ph0 j name0 E0 Hj En0. apply Hsame; [by apply (lk_calls _ _ _ Hl t0 c0 ph0 E0) |].
    intros Heq. pose proof (f_equal fst Heq) as Eid. pose proof (f_equal snd Heq) as En1. cbn [fst snd] in Eid, En1. subst name0.
    pose proof (nm_created _ _ Hn t0 c0 ph0 j name E0 Hj En0) as Hv. rewrite Eid, Hfree in Hv. done. }
  apply (names_preserved fs ts fs' t c ph'); try done; [by eapply lookup_lt_Some | | |].
  - intros t0 c0 p0 i0 m0 name0 todo0 st0 Hne E0. destruct (lk_calls _ _ _ Hl t0 c0 _ E0) as [(Hid0 & _) (_ & _ & Hd0)].
    apply drop_name in Hd0. rewrite Hsame; [by eapply nm_free | done |]. intros Heq. apply Hne.
    pose proof (f_equal fst Heq) as Eid. pose proof (f_equal snd Heq) as En1. cbn [fst snd] in Eid, En1. subst name0.
    apply (writers_unique fs ts t0 t c0 c _ _ name Hl E0 E); try done; by eapply list_elem_of_lookup_2.
  - intros p1 i1 m1 n1 t1 s1 ->. cbn [next_phase] in Hnx. destruct Hnx as [[? ?] | (? & ? & _ & ?)]; done.
  - intros j name0 Hj En0. cbn [next_phase] in Hnx. destruct Hnx as [(st' & ->) | (s & st' & _ & ->)]; cbn [created ino_of] in *.
    + destruct (decide (j = Z.to_nat m)) as [-> | Hne].
      * rewrite En in En0. injection En0 as <-. rewrite Z2Nat.id by lia. by eapply Hnew.
      * rewrite (Hkeep t c _ j name0 E) by (try done; cbn [created]; lia). apply (nm_created _ _ Hn t c _ j name0 E); [cbn [created]; lia | done].
    + rewrite (Hkeep t c _ j name0 E) by done. by apply (nm_created _ _ Hn t c _ j name0 E).
Qed.

Lemma step_names base fs ts fs' t c ph ph' :
  skip_name_collision_checks (fs_options fs) = false ->
  locks_ok ndebug fs ts -> inos_ok base fs ts -> names_inv fs ts -> ts !! t = Some (c, ph) ->
  tstep ndebug c ph fs = Some (ph', fs') -> names_inv fs' (<[t := (c, ph')]> ts).
Proof.
  intros Hskip Hl Hi Hn E Es. pose proof (tstep_next c ph fs ph' fs' Es) as Hnx.
  destruct (tstep_good ndebug fs ts t c ph ph' fs' Hl E Es) as (_ & Hph' & Eo & _ & Hdata).
  destruct (lk_calls _ _ _ Hl t c ph E) as [Hcall Hph].
  assert ((∃ p i m name todo st, ph = Putting p i m name todo st) \/ ¬ (∃ p i m name todo st, ph = Putting p i m name todo st))
    as [Hp | Hnp] by (destruct ph; first [right; intros (? & ? & ? & ? & ? & ? & [=]); fail | left; by do 6 eexists]).
  { destruct Hp as (p & i & m & name & todo & st & ->). by eapply step_put_names. }
  assert (db_ fs' = db_ fs /\ readonly_dbs fs' = readonly_dbs fs) as [Edb Er].
  { destruct Hdata as [? Hdata]. split; [| done]. destruct ph; try apply Hdata. exfalso. apply Hnp. by do 6 eexists. }
  assert (∀ id name, visible fs' id name = visible fs id name) as Hv by (intros; by apply visible_db).
  apply (names_preserved fs ts fs' t c ph'); try done; [by eapply lookup_lt_Some | | | |].
  - unfold dbs_wf, all_dbs. rewrite Edb, Er. apply Hn.
  - intros t0 c0 p i m name todo st _ E0. rewrite Hv. by eapply nm_free.
  - intros p i m name todo st ->. rewrite Hv. destruct ph; cbn [next_phase] in Hnx; try naive_solver.
    eapply (check_free c _ _ _ _ _ fs); [exact Es | done | apply Hn | apply Hl | by destruct Hcall].
  - intros j name Hj En. rewrite Hv. pose proof (next_created c ph ph' Hcall Hph Hnx) as Hc.
    assert (created c ph' = created c ph /\ (created c ph <> 0%nat -> ino_of ph' = ino_of ph)) as [E1 E2].
    { destruct ph; try exact Hc. exfalso. apply Hnp. by do 6 eexists. }
    rewrite E2 by lia. apply (nm_created _ _ Hn t c ph j name E); [lia | done].
Qed.

(** ** Runs *)
Definition start_inos fs (calls : list ThreadCall) : Prop :=
  word 64 (mydno (fs_options fs)) /\ inoq fs + total call_inos calls < 2 ^ 64.

Lemma spawn_inos fs calls : start_ok ndebug fs calls -> start_inos fs calls -> inos_ok (inoq fs) fs (spawn calls).
Proof.
  intros ([_ _ _ _ [Hq _]] & _) [_ Hsum]. split; [lia | | |].
  - assert (pending (spawn calls) = total call_inos calls) as ->; [| done]. unfold pending, spawn. clear.
    induction calls as [| c l IH]; [done |]. cbn [fmap list_fmap total fst snd]. cbn in IH. lia.
  - by intros t c ph [_ ->]%spawn_lookup.
  - intros t t' c c' ph ph' i [_ ->]%spawn_lookup _ [_ []].
Qed.
Lemma spawn_names fs calls : start_ok ndebug fs calls -> start_inos fs calls -> names_inv fs (spawn calls).
Proof.
  intros ([_ _ _ Hdbs _] & _) [Hm _]. split; [done | done | |].
  - by intros t c p i m name todo st [_ ?]%spawn_lookup.
  - intros t c ph j name [_ ->]%spawn_lookup. cbn [created]. lia.
Qed.

Lemma reachable_all fs calls x :
  start_ok ndebug fs calls -> start_inos fs calls -> skip_name_collision_checks (fs_options fs) = false ->
  reachable ndebug fs calls x ->
  locks_ok ndebug x.1 x.2 /\ inos_ok (inoq fs) x.1 x.2 /\ names_inv x.1 x.2 /\ fs_options x.1 = fs_options fs.
Proof.
  intros Hs Hi Hskip Hr.
  apply (rtc_ind_r (λ x, locks_ok ndebug x.1 x.2 /\ inos_ok (inoq fs) x.1 x.2 /\ names_inv x.1 x.2 /\ fs_options x.1 = fs_options fs) (fs, spawn calls)) in Hr;
    [done | by split_and!; [apply spawn_locks | apply spawn_inos | apply spawn_names |] |].
  intros y z _ Hyz (Hl & Hq & Hn & Eo). pose proof (cstep_locks ndebug y z Hyz Hl) as Hl'.
  destruct Hyz as [t c ph ph' fs1 fs2 ts E Es]. cbn [fst snd] in *.
  destruct (tstep_good ndebug fs1 ts t c ph ph' fs2 Hl E Es) as (_ & _ & Eo' & _ & _).
  split_and!; [done | by eapply step_inos | eapply step_names; [by rewrite Eo | done..] | congruence].
Qed.

(** The inode number of the [j]-th name, which its thread owns. *)
Lemma call_stat_ino options c i j base :
  call_ok c -> creates c -> 0 <= base -> base + call_inos c <= i < 2 ^ 64 -> 0 <= j < call_inos c ->
  InodeNo (call_stat options c i j) = i - call_inos c + 1 + j.
Proof.
  intros (_ & _ & Hc) Hcr Hb Hi Hj. destruct c as [mk who pa name mode now | who pa arr mode n now |]; [| | done]; cbn [call_stat call_inos] in *.
  - destruct Hc as [[-> | ->] _]; cbn; lia.
  - unfold SetInodeNo. cbn [InodeNo]. unfold u64. rewrite (wrap_small 64 (i - n + 1)) by (split; lia).
    rewrite wrap_small by (split; lia). done.
Qed.

Lemma created_owns c ph j name :
  call_ok c -> (j < created c ph)%nat -> call_names c !! j = Some name ->
  creates c /\ begun ph /\ owns c ph (ino_of ph - call_inos c + 1 + Z.of_nat j) /\ Z.of_nat j < call_inos c.
Proof.
  intros Hc Hj En. pose proof (length_call_names c Hc). apply lookup_lt_Some in En as Hlt.
  assert (creates c) as Hcr by (destruct c; try done; cbn [call_names] in Hlt; cbn in Hlt; lia).
  split_and!; [done | destruct ph; try done; cbn [created] in Hj; lia | | lia]. split; [done |].
  destruct ph; cbn [created ino_of] in *; try lia. destruct (ok s); lia.
Qed.

(** C4. No name is created twice and no inode number is given twice.  Let any number of creations, batches and lookups
    run concurrently, under any schedule, on a server at rest that checks for name collisions.  In every state on
    the way, each name that some thread has created (all names of a call that finished OK) is visible with the
    stat of that creation, whose inode number is new; and two creations, by different threads or by one batch, differ both
    in the entry (directory and name) and in the inode number. *)
Theorem no_double_creation fs calls fs' ts :
  start_ok ndebug fs calls -> start_inos fs calls -> skip_name_collision_checks (fs_options fs) = false ->
  reachable ndebug fs calls (fs', ts) ->
  (∀ t c ph j name, ts !! t = Some (c, ph) -> (j < created c ph)%nat -> call_names c !! j = Some name ->
     let stat := call_stat (fs_options fs) c (ino_of ph) (Z.of_nat j) in
     visible fs' (call_id c) name = Some stat /\ inoq fs < InodeNo stat <= inoq fs') /\
  (∀ t t' c c' ph ph' j j' name name', ts !! t = Some (c, ph) -> ts !! t' = Some (c', ph') ->
     (j < created c ph)%nat -> (j' < created c' ph')%nat -> call_names c !! j = Some name -> call_names c' !! j' = Some name' ->
     (t, j) <> (t', j') ->
     (call_id c, name) <> (call_id c', name') /\
     InodeNo (call_stat (fs_options fs) c (ino_of ph) (Z.of_nat j)) <> InodeNo (call_stat (fs_options fs) c' (ino_of ph') (Z.of_nat j'))).
Proof.
  intros Hs Hi0 Hskip Hr. destruct (reachable_all fs calls _ Hs Hi0 Hskip Hr) as (Hl & Hi & Hn & Eo). cbn [fst snd] in *.
  pose proof (in_base _ _ _ Hi) as Hbase.
  assert (∀ t c ph j name, ts !! t = Some (c, ph) -> (j < created c ph)%nat -> call_names c !! j = Some name ->
    let stat := call_stat (fs_options fs) c (ino_of ph) (Z.of_nat j) in
    visible fs' (call_id c) name = Some stat /\ owns c ph (InodeNo stat) /\ inoq fs < InodeNo stat <= inoq fs' /\
    InodeNo stat = ino_of ph - call_inos c + 1 + Z.of_nat j) as H1.
  { intros t c ph j name E Hj En. destruct (lk_calls _ _ _ Hl t c ph E) as [Hcall _].
    destruct (created_owns c ph j name Hcall Hj En) as (Hcr & Hb & Ho & Hlt).
    destruct (in_own _ _ _ Hi t c ph E Hcr Hb) as [Hmy Hle].
    cbn zeta. rewrite (call_stat_ino _ c (ino_of ph) (Z.of_nat j) (inoq fs) Hcall Hcr) by lia.
    split_and!; [rewrite <- Eo; by eapply nm_created | done | lia | by apply Hle | done]. }
  split.
  - intros t c ph j name E Hj En. destruct (H1 t c ph j name E Hj En) as (? & _ & ? & _). done.
  - intros t t' c c' ph ph' j j' name name' E E' Hj Hj' En En' Hne.
    destruct (H1 t c ph j name E Hj En) as (Hv & Ho & _ & Ei). destruct (H1 t' c' ph' j' name' E' Hj' En') as (Hv' & Ho' & _ & Ei').
    assert (InodeNo (call_stat (fs_options fs) c (ino_of ph) (Z.of_nat j)) <> InodeNo (call_stat (fs_options fs) c' (ino_of ph') (Z.of_nat j'))) as Hino.
    { intros Heq. rewrite <- Heq in Ho'. pose proof (in_disjoint _ _ _ Hi t t' c c' ph ph' _ E E' Ho Ho') as <-.
      rewrite E in E'. injection E' as <- <-. apply Hne. f_equal. lia. }
    split; [| done]. intros Heq. pose proof (f_equal fst Heq) as Eid. pose proof (f_equal snd Heq) as En1.
    cbn [fst snd] in Eid, En1. subst name'. apply Hino. rewrite Eid, Hv' in Hv. by injection Hv as ->.
Qed.

(** A thread alone is the sequential operation: without steps of other threads in between, the sections of [Mkfle] and
    [Mkdir], of [Mkfls] and of [Lstat] lead to the status, the results and the server state of the sequential definitions. *)
Lemma alone_is_sequential mk who parent name namearr mode n now fs s fs' :
  (∀ st, Mknod ndebug mk who parent name mode now fs = Some (s, st, fs') ->
     ∃ i m, rtc (astep ndebug (CallMknod mk who parent name mode now)) (Idle, fs) (Finished i s m st, fs')) /\
  (∀ m, Mkfls ndebug who parent namearr mode n now fs = Some (s, m, fs') ->
     ∃ i, rtc (astep ndebug (CallMkfls who parent namearr mode n now)) (Idle, fs) (Finished i s m None, fs')) /\
  (∀ st, Lstat ndebug who parent name now fs = Some (s, st, fs') ->
     ∃ i, rtc (astep ndebug (CallLstat who parent name now)) (Idle, fs) (Finished i s 0 st, fs')).
Proof.
  split_and!; intros r E; [by apply Mknod_steps | by apply Mkfls_steps | by apply Lstat_steps].
Qed.
End Props.

(** ** Witnesses: three concurrent operations on an empty server, two of which create the same name *)
#[local] Existing Instance MemDb_bulk.
Definition ex_create : ThreadCall := CallMknod file_stat ex_user ex_root (lit "a") 420 1.
Definition ex_batch : ThreadCall := CallMkfls ex_user ex_root [1; 97; 1; 98] 420 2 1.
Definition ex_lstat : ThreadCall := CallLstat ex_user ex_root (lit "a") 1.
Definition ex_calls : list ThreadCall := [ex_create; ex_batch; ex_lstat].

Lemma ex_start : start_ok false ex_fs ex_calls /\ start_inos ex_fs ex_calls.
Proof.
  split; [| by_compute]. split; [exact ex_fs_ok |]. split; [by eexists |]. split; [intros p; reflexivity |].
  split; [by_compute |]. split; [by_compute |]. repeat constructor; by_compute.
Qed.

(** The first creation enters before the batch: the batch is kept out. *)
Lemma ex_enters :
  ∃ dir myino fs', reachable false ex_fs ex_calls (fs', <[0%nat := (ex_create, Working dir myino 0 [lit "a"] stats0)]> (spawn ex_calls)).
Proof.
  destruct (step_acquire false ex_create ex_fs) as [[ph fs1] |] eqn:E1; [| vm_compute in E1; discriminate E1].
  pose proof (f_equal (fmap fst) E1) as Ep. vm_compute in Ep. injection Ep as <-.
  assert ((step_acquire false ex_create ex_fs ≫= λ r, fst <$> tstep false ex_create r.1 r.2) = Some (Working (MkPtr 0 (repeat 0 16) 1505864639) 1 0 [lit "a"] stats0)) as E2
    by (vm_compute; reflexivity).
  rewrite E1 in E2. cbn [mbind option_bind fst snd] in E2. destruct (tstep false ex_create _ fs1) as [[ph fs2] |] eqn:E3; [| discriminate E2].
  injection E2 as ->. eexists _, 1, fs2.
  eapply rtc_l. { eapply (cstep_thread false 0%nat ex_create); [reflexivity | exact E1]. }
  eapply rtc_l. { eapply (cstep_thread false 0%nat ex_create); [reflexivity | exact E3]. }
  rewrite list_insert_insert_eq. apply rtc_refl.
Qed.

Lemma writers_exclusive_witness :
  ∃ dir myino fs' ts, reachable false ex_fs ex_calls (fs', ts) /\
    ts !! 0%nat = Some (ex_create, Working dir myino 0 [lit "a"] stats0) /\
    ∀ ph, ts !! 1%nat = Some (ex_batch, ph) -> ~ writing ph.
Proof.
  destruct ex_enters as (dir & myino & fs' & Hr). eexists dir, myino, fs', _. split; [exact Hr |]. split; [reflexivity |].
  intros ph E Hw. destruct (writers_exclusive false ex_fs ex_calls fs' _ (proj1 ex_start) Hr) as [H1 _].
  discriminate (H1 0%nat 1%nat ex_create ex_batch _ ph (lit "a") eq_refl E I Hw eq_refl); apply list_elem_of_In; by left.
Defined.

(** In the end the single creation and the batch are not both OK. *)
Lemma no_double_creation_witness :
  ∃ fs' ts, reachable false ex_fs ex_calls (fs', ts) /\ (∀ t c ph, ts !! t = Some (c, ph) -> finished ph) /\
    ∀ i s n st i' s' n' st', ts !! 0%nat = Some (ex_create, Finished i s n st) -> ts !! 1%nat = Some (ex_batch, Finished i' s' n' st') ->
      ok s = true -> ok s' = true -> False.
Proof.
  destruct (run_on false (Z.to_nat (measure (spawn ex_calls))) (ex_fs, spawn ex_calls)) as ([fs' ts] & Hr & Hf).
  { apply spawn_locks, ex_start. } { by_compute. }
  exists fs', ts. split; [exact Hr |]. split; [exact Hf |]. intros i s n st i' s' n' st' E E' Hs Hs'.
  destruct (no_double_creation false ex_fs ex_calls fs' ts (proj1 ex_start) (proj2 ex_start) eq_refl Hr) as [_ H2].
  destruct (H2 0%nat 1%nat _ _ _ _ 0%nat 0%nat (lit "a") (lit "a") E E') as [Hne _].
  - cbn [created]. unfold result_count. rewrite Hs. cbn. lia.
  - cbn [created]. unfold result_count. rewrite Hs'. vm_compute. lia.
  - reflexivity.
  - reflexivity.
  - discriminate.
  - apply Hne. reflexivity.
Defined.
