(* ===== verification/FsConcLive.v ===== *)
(** * Concurrent operations of the metadata server: termination

    The threads with the condition variables of the directories ([wstep] of [FsConc]).  A thread asleep
    always waits for a name subset that is busy, because the thread that frees the subset signals;
    hence somebody can always run, and every run ends with all operations finished. *)
From S2P Require Import Prelude Status Coding Hashing FsTypes Keys Giga HashTable Lru.
From S2P Require Import Mxdb FsDb Fs LruProps MxdbProps FsOps FsProps.
From S2P Require Import FsConc FsConcInv FsConcProps.

Lemma suffix_length {A} (l l' r r' : list A) :
  l ++ r = l' ++ r' -> (length r' <= length r)%nat -> ∃ k, r = k ++ r'.
Proof.
  intros Heq Hle. apply app_eq_app in Heq as (k & [[-> ->] | [-> ->]]); [| by exists k].
  destruct k as [| a k]; [by exists [] |]. rewrite length_app in Hle. cbn [length] in Hle. lia.
Qed.

Lemma take_ways_stop ways d i rest d' : take_ways ways d = Some (i :: rest, d') -> busy d' !! i = Some true.
Proof.
  revert d. induction ways as [| w ways IH]; intros d; cbn [take_ways]; [done |].
  destruct (busy d !! w) as [[] |] eqn:E; cbn [mbind option_bind]; [by intros [= <- _ <-] | apply IH | done].
Qed.

Section Live.
Context {DX : Type} `{KvLaws DX}.
Variable ndebug : bool.
Implicit Types (fs : FS DX) (ts : Threads) (c : ThreadCall) (ph : Phase) (p : Ptr) (d : Dir) (q : Sleepers).

(** ** A section of an awake thread is a step, or the thread goes back to sleep *)
Lemma section_cases c ph fs ph' fs' :
  section ndebug c ph fs = Some (ph', fs') ->
  tstep ndebug c ph fs = Some (ph', fs') \/ (blocked c ph fs /\ ph' = ph /\ fs' = fs) \/ ∃ p i, ph = Waiting p i [].
Proof.
  destruct ph as [| | p myino ways | | | | | | |]; cbn [section]; try (by left). intros E.
  destruct ways as [| i rest]; [right; right; by eauto |].
  cbn [tstep]. unfold step_wake. pose proof E as E1. unfold step_lock in E1. destruct (dir_heap fs !! p) as [d |] eqn:Ed; [| done].
  cbn [mbind option_bind take_ways] in *. destruct (busy d !! i) as [[] |] eqn:Eb; cbn [mbind option_bind] in *; [| by left | done].
  injection E1 as <- <-. right; left. split_and!; [by exists p, myino, i, rest, d | done |].
  unfold set_dir. rewrite insert_id by done. by destruct fs.
Qed.

(** Where the thread waits after the section, the next name subset is busy. *)
Lemma section_waits c ph fs p myino rest fs' :
  section ndebug c ph fs = Some (Waiting p myino rest, fs') -> rest <> [] -> blocked c (Waiting p myino rest) fs'.
Proof.
  intros E Hne.
  assert (∀ ways fs0 p0 i0, step_lock c p0 i0 ways fs0 = Some (Waiting p myino rest, fs') -> blocked c (Waiting p myino rest) fs') as Hlock.
  { intros ways fs0 p0 i0. unfold step_lock. destruct (dir_heap fs0 !! p0) as [d |]; [| done]. cbn [mbind option_bind].
    destruct (take_ways ways d) as [[r d'] |] eqn:Et; [| done]. cbn [mbind option_bind]. destruct r as [| i r]; [done |].
    intros [= <- <- <- <-]. apply take_ways_stop in Et. exists p0, i0, i, r, d'. split_and!; [done | | done].
    cbn [set_dir dir_heap]. apply lookup_insert_eq. }
  destruct ph; cbn [section] in E; try (apply tstep_next in E; cbn [next_phase] in E; naive_solver fail).
  - cbn [tstep] in E. unfold step_enter in E. destruct (call_refusal _ _); [done |].
    destruct (MaybeFetchDir _ _ _) as [fs1 |]; [| done]. cbn [mbind option_bind] in E.
    destruct (dir_heap fs1 !! _) as [d |]; [| done]. cbn [mbind option_bind] in E.
    destruct (match call_checked c with Some _ => _ | None => _ end) as [b |]; [| done]. cbn [mbind option_bind] in E.
    destruct (negb b); [done |]. destruct c; [by eapply Hlock | by eapply Hlock | done].
  - by eapply Hlock.
Qed.

(** ** Who holds a name subset keeps it up to the section that signals *)
Definition leaving ph : Prop := match ph with Leaving _ _ _ _ _ => True | _ => False end.

Lemma holds_kept c ph ph' p i :
  phase_ok c ph -> phase_ok c ph' -> next_phase c ph ph' -> ¬ leaving ph -> inside c ph p i -> inside c ph' p i.
Proof.
  intros Hp Hp' Hn Hl [Hd Hh]. destruct ph; cbn [next_phase holds dir_of leaving] in *; try done.
  - destruct Hh as [Hw Hni]. destruct Hn as [-> | (rest' & -> & Hlt)]; [by split |]. split; [done |]. split; [done |].
    destruct Hp as (_ & _ & l & El), Hp' as (_ & _ & l' & El'). rewrite El in El'.
    destruct (suffix_length _ _ _ _ El' ltac:(lia)) as [k ->]. rewrite elem_of_app in Hni. tauto.
  - destruct Hn as [(-> & st & ->) | (name & todo' & st & -> & [-> | (s & _ & ->)])]; by split.
  - destruct Hn as [(st & ->) | (s & st & _ & ->)]; by split.
Qed.

(** ** The invariant of the queues *)
Record queues_ok fs ts q : Prop := {
  qu_locks : locks_ok ndebug fs ts;
  qu_nodup : NoDup q.*1;
  qu_asleep : ∀ t p, (t, p) ∈ q ->
    ∃ c myino rest, ts !! t = Some (c, Waiting p myino rest) /\ blocked c (Waiting p myino rest) fs
}.

Lemma queues_incl fs ts q q' : queues_ok fs ts q -> q' `sublist_of` q -> queues_ok fs ts q'.
Proof.
  intros [H1 H2 H3] Hs. split; [done | |].
  - by eapply sublist_NoDup, fmap_sublist.
  - intros t p Hin. apply H3. by eapply elem_of_sublist.
Qed.

(** A sleeper is still blocked after a step of another thread that did not signal to it. *)
Lemma still_blocked fs ts fs' t0 c0 ph0 ph0' t c p myino rest :
  locks_ok ndebug fs ts -> locks_ok ndebug fs' (<[t0 := (c0, ph0')]> ts) -> ts !! t0 = Some (c0, ph0) ->
  next_phase c0 ph0 ph0' -> t ≠ t0 -> ts !! t = Some (c, Waiting p myino rest) -> blocked c (Waiting p myino rest) fs ->
  (leaving ph0 -> dir_of ph0 <> Some p) -> blocked c (Waiting p myino rest) fs'.
Proof.
  intros Hl Hl' E0 Hn Hne E (p1 & i1 & i & r & d & [= <- <- ->] & Ed & Eb) Hlv.
  assert (<[t0 := (c0, ph0')]> ts !! t = Some (c, Waiting p myino (i :: r))) as E' by (by rewrite list_lookup_insert_ne).
  destruct (thread_dir ndebug fs' _ t c _ p Hl' E' eq_refl) as (d' & Ed' & _).
  exists p, myino, i, r, d'. split_and!; [done | done |].
  apply (lk_busy _ _ _ Hl' p d' i Ed'). apply (lk_busy _ _ _ Hl p d i Ed) in Eb as (t1 & c1 & ph1 & E1 & Hin).
  destruct (decide (t1 = t0)) as [-> | Hne1].
  - rewrite E0 in E1. injection E1 as <- <-. exists t0, c0, ph0'. rewrite list_lookup_insert_eq by (by eapply lookup_lt_Some).
    split; [done |]. eapply holds_kept; [| | done | | done].
    + by apply (lk_calls _ _ _ Hl t0 c0 ph0 E0).
    + eapply (lk_calls _ _ _ Hl' t0 c0 ph0'). rewrite list_lookup_insert_eq; [done | by eapply lookup_lt_Some].
    + intros Hlv0. by apply (Hlv Hlv0), Hin.
  - exists t1, c1, ph1. by rewrite list_lookup_insert_ne.
Qed.

Lemma awake_not_in t q p : t ∉ q.*1 -> (t, p) ∉ q.
Proof. intros Hn Hin. apply Hn, list_elem_of_fmap. by exists (t, p). Qed.

#[local] Instance leaving_dec ph : Decision (leaving ph).
Proof. destruct ph; apply _. Defined.

Lemma cv_effect_in t ph ph' q x :
  x ∈ cv_effect t ph ph' q ->
  (x ∈ q /\ (leaving ph -> dir_of ph <> Some x.2)) \/ (x.1 = t /\ ∃ m rest, ph' = Waiting x.2 m rest).
Proof.
  assert (x ∈ q -> ¬ leaving ph -> x ∈ q /\ (leaving ph -> dir_of ph <> Some x.2)) as Hstay by tauto.
  destruct (decide (leaving ph)) as [Hlv | Hlv].
  { destruct ph; try done. cbn [cv_effect]. unfold SignalAll. intros [Hne Hin]%list_elem_of_filter. left. split; [done |].
    intros _ [= ->]. by apply Hne. }
  intros Hin. assert (x ∈ q \/ (∃ p m rest, ph' = Waiting p m rest /\ x ∈ Wait t p q)) as [? | (p & m & rest & -> & Hw)].
  { destruct ph; try done; destruct ph'; cbn [cv_effect] in Hin; try (by left); right; by do 3 eexists. }
  - left. by apply Hstay.
  - unfold Wait in Hw. apply elem_of_app in Hw as [? | ->%list_elem_of_singleton]; [left; by apply Hstay | right].
    split; [done |]. by do 2 eexists.
Qed.

Lemma cv_effect_nodup t ph ph' q : t ∉ q.*1 -> NoDup q.*1 -> NoDup (cv_effect t ph ph' q).*1.
Proof.
  intros Ht Hnd.
  assert (∀ p, NoDup (SignalAll p q).*1) as Hs.
  { intros p. eapply sublist_NoDup; [exact Hnd |]. apply fmap_sublist, sublist_filter. }
  assert (∀ p, NoDup (Wait t p q).*1) as Hw.
  { intros p. unfold Wait. rewrite fmap_app. apply list.NoDup_app. split; [done |]. split; [| apply NoDup_singleton].
    intros x Hx ->%list_elem_of_singleton. done. }
  destruct ph; try apply Hs; destruct ph'; try done; apply Hw.
Qed.

Lemma run_thread_cases fs ts q t y :
  locks_ok ndebug fs ts -> run_thread ndebug t (fs, ts, q) = Some y ->
  ∃ c ph ph' fs', ts !! t = Some (c, ph) /\ t ∉ q.*1 /\ section ndebug c ph fs = Some (ph', fs') /\
    y = (fs', <[t := (c, ph')]> ts, cv_effect t ph ph' q) /\
    (tstep ndebug c ph fs = Some (ph', fs') \/ (blocked c ph fs /\ ph' = ph /\ fs' = fs)).
Proof.
  intros Hl. unfold run_thread. destruct (ts !! t) as [[c ph] |] eqn:E; [| done]. cbn [mbind option_bind].
  case_decide as Haw; [done |]. destruct (section ndebug c ph fs) as [[ph' fs'] |] eqn:Es; [| done]. cbn [mbind option_bind].
  intros [= <-]. exists c, ph, ph', fs'. split_and!; try done.
  apply section_cases in Es as [Et | [Hb | (p & i & ->)]]; [by left | by right |].
  destruct (lk_calls _ _ _ Hl t c _ E) as [_ (_ & Hne & _)]. done.
Qed.

Lemma run_thread_queues t x y : run_thread ndebug t x = Some y -> queues_ok x.1.1 x.1.2 x.2 -> queues_ok y.1.1 y.1.2 y.2.
Proof.
  destruct x as [[fs ts] q]. cbn [fst snd]. intros Hr Hq. pose proof Hq as [Hl Hnd Hsl].
  destruct (run_thread_cases fs ts q t y Hl Hr) as (c & ph & ph' & fs' & E & Haw & Es & -> & Hc). cbn [fst snd].
  pose proof (lookup_lt_Some _ _ _ E) as Hlt.
  assert (locks_ok ndebug fs' (<[t := (c, ph')]> ts)) as Hl'.
  { destruct Hc as [Et | (_ & -> & ->)]; [| by rewrite list_insert_id].
    apply (cstep_locks ndebug (fs, ts) (fs', <[t := (c, ph')]> ts)); [by econstructor | done]. }
  split; [done | by apply cv_effect_nodup |]. intros t1 p1 Hin.
  apply cv_effect_in in Hin as [[Hin Hlv] | [Ht (m & rest & ->)]]; cbn [snd fst] in *.
  - destruct (Hsl t1 p1 Hin) as (c1 & m1 & r1 & E1 & Hb1). exists c1, m1, r1.
    assert (t1 ≠ t) as Hne. { intros ->. by apply (awake_not_in t q p1). }
    rewrite list_lookup_insert_ne by done. split; [done |].
    destruct Hc as [Et | (_ & -> & ->)]; [| done].
    eapply (still_blocked fs ts fs' t c ph ph'); try done. by eapply tstep_next.
  - subst t1. exists c, m, rest. rewrite list_lookup_insert_eq by done. split; [done |].
    eapply section_waits; [done |]. eapply (lk_calls _ _ _ Hl' t c (Waiting p1 m rest)). by rewrite list_lookup_insert_eq.
Qed.

Lemma spurious_queues x y : spurious x y -> queues_ok x.1.1 x.1.2 x.2 -> queues_ok y.1.1 y.1.2 y.2.
Proof. intros (t & _ & ->) Hq. eapply queues_incl; [exact Hq |]. apply sublist_filter. Qed.

(** ** Somebody can run *)
Lemma wait_progress fs ts q :
  queues_ok fs ts q -> (∀ t c ph, ts !! t = Some (c, ph) -> finished ph) \/ ∃ y, wstep ndebug (fs, ts, q) y.
Proof.
  intros [Hl Hnd Hsl].
  destruct (decide (List.Exists (λ t, is_Some (run_thread ndebug t (fs, ts, q))) (seq 0 (length ts)))) as [Hex | Hne].
  { right. apply list.Exists_exists in Hex as (t & _ & [y Hy]). by exists y, t. }
  left. assert (∀ t c ph, ts !! t = Some (c, ph) -> finished ph \/ blocked c ph fs) as Hall.
  { intros t c ph E. destruct (decide (t ∈ q.*1)) as [Has | Haw].
    - apply list_elem_of_fmap in Has as ([t0 p] & -> & Hin). cbn [fst] in E. destruct (Hsl _ _ Hin) as (c1 & m1 & r1 & E1 & Hb).
      rewrite E in E1. injection E1 as -> ->. by right.
    - destruct (thread_progress ndebug fs ts t c ph Hl E) as [Hf | [Hb | (ph' & fs' & Es & _)]]; [by left | by right |].
      exfalso. apply Hne, list.Exists_exists. exists t. split; [apply elem_of_seq; apply lookup_lt_Some in E; lia |].
      unfold run_thread. rewrite E. cbn [mbind option_bind]. rewrite decide_False by done.
      assert (section ndebug c ph fs = Some (ph', fs')) as ->; [| by eexists].
      destruct ph; cbn [section]; try done. cbn [tstep] in Es. unfold step_wake in Es. destruct (dir_heap fs !! dir) as [d |]; [| done].
      cbn [mbind option_bind] in Es. destruct ways as [| i r]; [done |]. by destruct (busy d !! i) as [[] |]. }
  intros t c ph E. destruct (Hall t c ph E) as [Hf | (p & myino & i & rest & d & -> & Ed & Eb)]; [done |].
  exfalso. by eapply (blocked_chain ndebug fs ts (kWays - i)).
Qed.

(** ** Every run ends: a section makes progress, or its thread goes to sleep; and the sections that wake the sleepers up
    are one for each thread *)
Definition to_signal ph : Z :=
  match ph with Reading _ | Merging _ _ _ _ | Releasing _ _ _ _ _ | Finished _ _ _ _ => 0 | _ => 1 end.
Definition signals ts : Z := total (λ x, to_signal x.2) ts.
Definition potential (x : FS DX * Threads * Sleepers) : Z :=
  let '(fs, ts, q) := x in let n := Z.of_nat (length ts) in measure ts + n * signals ts + (n - Z.of_nat (length q)).

Lemma to_signal_bounds ph : 0 <= to_signal ph <= 1.
Proof. destruct ph; cbn; lia. Qed.
Lemma next_signal c ph ph' :
  next_phase c ph ph' -> to_signal ph' <= to_signal ph /\ (leaving ph -> to_signal ph' = to_signal ph - 1).
Proof.
  pose proof (to_signal_bounds ph'). destruct ph; cbn [next_phase to_signal leaving]; intros Hn; try (split; [lia | done]).
  - by subst.
  - destruct Hn as (s & st & stats & ->). done.
  - by subst.
  - destruct Hn as (st & ->). done.
Qed.

Lemma queues_length fs ts q : queues_ok fs ts q -> (length q <= length ts)%nat.
Proof.
  intros [_ Hnd Hsl]. rewrite <- (length_fmap fst q), <- (length_seq (length ts) 0). apply submseteq_length, NoDup_submseteq; [done |].
  intros t ([t0 p] & -> & Hin)%list_elem_of_fmap. cbn [fst]. destruct (Hsl t0 p Hin) as (c & m & r & E & _).
  apply lookup_lt_Some in E. apply elem_of_seq. lia.
Qed.

(** Only the section that signals makes the queues shorter. *)
Lemma cv_effect_length t ph ph' q : ¬ leaving ph -> (length q <= length (cv_effect t ph ph' q))%nat.
Proof.
  intros Hl. destruct ph; try done; destruct ph'; cbn [cv_effect]; unfold Wait; rewrite ?length_app; lia.
Qed.

Lemma wstep_potential x y : wstep ndebug x y -> queues_ok x.1.1 x.1.2 x.2 -> potential y < potential x.
Proof.
  destruct x as [[fs ts] q]. cbn [fst snd]. intros [t Hr] Hq. pose proof Hq as [Hl _ _].
  pose proof (run_thread_queues t _ _ Hr Hq) as Hq'. pose proof (queues_length fs ts q Hq) as Hlen.
  destruct (run_thread_cases fs ts q t y Hl Hr) as (c & ph & ph' & fs' & E & Haw & Es & -> & Hc). cbn [fst snd] in *.
  pose proof (cv_effect_length t ph ph' q) as Hcv. cbn [potential]. rewrite length_insert.
  destruct Hc as [Et%tstep_next | (Hb & -> & ->)].
  - pose proof (next_phase_measure _ _ _ Et). destruct (next_signal _ _ _ Et) as [Hs1 Hs2].
    unfold measure, signals. rewrite !(total_insert _ _ _ _ _ E). cbn [fst snd].
    destruct (decide (leaving ph)) as [Hlv | Hlv]; [rewrite (Hs2 Hlv); nia |]. specialize (Hcv Hlv). nia.
  - rewrite (list_insert_id ts t) by done. destruct Hb as (p & m & i & r & d & -> & _). cbn [cv_effect].
    unfold Wait. rewrite length_app. cbn [length]. lia.
Qed.

Lemma potential_nonneg x : queues_ok x.1.1 x.1.2 x.2 -> 0 <= potential x.
Proof.
  destruct x as [[fs ts] q]. cbn [fst snd potential]. intros Hq%queues_length. pose proof (measure_nonneg ts).
  assert (0 <= signals ts) by (apply total_nonneg; intros [? ph]; apply to_signal_bounds). nia.
Qed.

Lemma nsteps_potential n x y :
  nsteps (wstep ndebug) n x y -> queues_ok x.1.1 x.1.2 x.2 -> Z.of_nat n + potential y <= potential x /\ queues_ok y.1.1 y.1.2 y.2.
Proof.
  induction 1 as [x | n x y z Hxy _ IH]; intros Hq; [by split; [lia |] |].
  pose proof (wstep_potential _ _ Hxy Hq). destruct Hxy as [t Hr].
  destruct (IH (run_thread_queues t _ _ Hr Hq)) as [? ?]. split; [lia | done].
Qed.

Lemma wait_run_on n x :
  queues_ok x.1.1 x.1.2 x.2 -> potential x <= Z.of_nat n ->
  ∃ y, rtc (wstep ndebug) x y /\ ∀ t c ph, y.1.2 !! t = Some (c, ph) -> finished ph.
Proof.
  revert x. induction n as [| n IH]; intros [[fs ts] q] Hq Hm; cbn [fst snd] in *;
    (destruct (wait_progress fs ts q Hq) as [Hf | [y Hy]]; [by exists (fs, ts, q) |]);
    pose proof (wstep_potential _ _ Hy Hq); destruct Hy as [t Hr]; pose proof (run_thread_queues t _ _ Hr Hq) as Hq'.
  - pose proof (potential_nonneg y Hq'). lia.
  - destruct (IH y Hq') as (z & Hz & Hf); [lia |]. exists z. split; [| done]. eapply rtc_l; [by exists t | done].
Qed.

Definition waiting_run (x y : FS DX * Threads * Sleepers) : Prop := rtc (λ x y, wstep ndebug x y \/ spurious x y) x y.

Lemma start_queues fs calls : start_ok ndebug fs calls -> queues_ok fs (spawn calls) [].
Proof. intros Hs. split; [by apply spawn_locks | constructor | by intros t p ?%elem_of_nil]. Qed.

Lemma waiting_run_queues x y : waiting_run x y -> queues_ok x.1.1 x.1.2 x.2 -> queues_ok y.1.1 y.1.2 y.2.
Proof.
  induction 1 as [x | x y z [[t Hr] | Hs] _ IH]; intros Hq; [done | |]; apply IH.
  - by eapply run_thread_queues.
  - by eapply spurious_queues.
Qed.

(** The steps a call takes when it runs alone. *)
Definition call_steps c : Z := 6 + Z.of_nat (length (call_ways c)) + 2 * Z.of_nat (length (call_names c)).

Lemma start_potential fs calls :
  potential (fs, spawn calls, []) =
    total call_steps calls + Z.of_nat (length calls) * Z.of_nat (length calls) + Z.of_nat (length calls).
Proof.
  cbn [potential length]. assert (length (spawn calls) = length calls) as -> by (unfold spawn; apply length_fmap).
  assert (measure (spawn calls) = total call_steps calls) as ->.
  { unfold measure, spawn. clear. induction calls as [| c l IH]; [done |].
    cbn [fmap list_fmap total fst snd phase_measure]. cbn in IH. unfold call_steps at 1. lia. }
  assert (signals (spawn calls) = Z.of_nat (length calls)) as ->; [| lia].
  unfold signals, spawn. clear. induction calls as [| c l IH]; [done |].
  cbn [fmap list_fmap total snd to_signal length]. cbn in IH. lia.
Qed.

(** C5. Every run of concurrent operations ends, and no thread sleeps for ever.  Threads that find a name subset busy sleep on the
    condition variable of the directory until another thread signals.  From a server at rest, under any
    schedule, the threads take at most a number of steps that depends on their calls alone (for each 6, plus one per
    name subset, plus two per name; and one more for each pair of threads and for each thread, for the
    wake-ups that find a subset busy again); a thread is asleep only while the subset it needs is busy; and from every
    state on the way, spurious wake-ups included, the threads can go on without spurious wake-ups until
    all are finished: no lost signal, no deadlock and no failed assertion stops them. *)
Theorem runs_end fs calls :
  start_ok ndebug fs calls ->
  (∀ n x, nsteps (wstep ndebug) n (fs, spawn calls, []) x ->
     Z.of_nat n <= total call_steps calls + Z.of_nat (length calls) * Z.of_nat (length calls) + Z.of_nat (length calls)) /\
  ∀ fs' ts q, waiting_run (fs, spawn calls, []) (fs', ts, q) ->
    (∀ t p, (t, p) ∈ q -> ∃ c myino i rest d, ts !! t = Some (c, Waiting p myino (i :: rest)) /\
       dir_heap fs' !! p = Some d /\ busy d !! i = Some true) /\
    ∃ y, rtc (wstep ndebug) (fs', ts, q) y /\ ∀ t c ph, y.1.2 !! t = Some (c, ph) -> finished ph.
Proof.
  intros Hs%start_queues. split.
  - intros n x [Hn Hq]%nsteps_potential; [| done]. pose proof (potential_nonneg x Hq). rewrite start_potential in Hn. lia.
  - intros fs' ts q Hr. apply waiting_run_queues in Hr as Hq; [| done]. cbn [fst snd] in Hq. split.
    + intros t p Hin. destruct (qu_asleep _ _ _ Hq t p Hin) as (c & m & r & E & (p1 & m1 & i & rest & d & [= <- <- ->] & Ed & Eb)).
      by exists c, m, i, rest, d.
    + pose proof (potential_nonneg (fs', ts, q) Hq). apply (wait_run_on (Z.to_nat (potential (fs', ts, q)))); [done | lia].
Qed.
End Live.

(** ** Witness: a batch sleeps until the creation that holds one of its name subsets signals *)
#[local] Existing Instance MemDb_bulk.
Definition run_schedule (l : list nat) (x : FS MemDb * Threads * Sleepers) : option (FS MemDb * Threads * Sleepers) :=
  foldl (λ o t, x ← o; run_thread false t x) (Some x) l.

Lemma run_schedule_reaches l x y : run_schedule l x = Some y -> waiting_run false x y.
Proof.
  unfold run_schedule. revert x. induction l as [| t l IH]; intros x E; cbn [foldl mbind option_bind] in E; [injection E as <-; apply rtc_refl |].
  destruct (run_thread false t x) as [z |] eqn:Ez.
  - eapply rtc_l; [left; by exists t | by apply IH].
  - exfalso. clear -E. induction l as [| t l IH]; cbn in E; [discriminate E | by apply IH].
Qed.

Lemma runs_end_witness :
  ∃ fs' ts dir, waiting_run false (ex_fs, spawn ex_calls, []) (fs', ts, [(1%nat, dir)]) /\
    ∃ y, rtc (wstep false) (fs', ts, [(1%nat, dir)]) y /\ ∀ t c ph, y.1.2 !! t = Some (c, ph) -> finished ph.
Proof.
  destruct (run_schedule [0%nat; 0%nat; 1%nat; 1%nat] (ex_fs, spawn ex_calls, [])) as [[[fs' ts] q] |] eqn:E; [| vm_compute in E; discriminate E].
  pose proof (f_equal (fmap snd) E) as Eq. vm_compute in Eq. injection Eq as <-.
  apply run_schedule_reaches in E. exists fs', ts. eexists. split; [exact E |].
  apply (runs_end false ex_fs ex_calls (proj1 ex_start)). exact E.
Defined.
