(* ===== verification/Comparator.v ===== *)
(** * Comparators and internal keys ([leveldb/comparator.h], [comparator.cc], [internal_types.h], [internal_types.cc])

    The interface [Comparator] with its contract [ComparatorLaws]; the bytewise comparator,
    which implements it; and the comparator of internal keys (a user key followed by a
    sequence number and a type), which implements it over any user comparator. *)
From S2P Require Import Prelude Coding Keys.

(** ** Three-way comparisons *)
Class OrderOn {K} (compare : K -> K -> option comparison) (valid : K -> Prop) := {
  cmp_some a b : valid a -> valid b -> is_Some (compare a b);
  cmp_refl a : valid a -> compare a a = Some Eq;
  cmp_flip a b c : valid a -> valid b -> compare a b = Some c -> compare b a = Some (CompOpp c);
  cmp_trans a b d : valid a -> valid b -> valid d ->
    compare a b = Some Lt -> compare b d = Some Lt -> compare a d = Some Lt;
  cmp_eq a b d c : valid a -> valid b -> valid d ->
    compare a b = Some Eq -> compare b d = Some c -> compare a d = Some c
}.

Section Order.
Context {K : Type} {compare : K -> K -> option comparison} {valid : K -> Prop} `{!OrderOn compare valid}.

Lemma cmp_gt_lt a b : valid a -> valid b -> compare a b = Some Gt <-> compare b a = Some Lt.
Proof. intros Ha Hb. split; intros E; by apply cmp_flip in E. Qed.
Lemma cmp_lt_gt a b : valid a -> valid b -> compare a b = Some Lt -> compare b a = Some Gt.
Proof. intros Ha Hb E. by apply cmp_flip in E. Qed.
Lemma cmp_eq_sym a b : valid a -> valid b -> compare a b = Some Eq -> compare b a = Some Eq.
Proof. intros Ha Hb E. by apply cmp_flip in E. Qed.
Lemma cmp_eq_r a b d c : valid a -> valid b -> valid d ->
  compare a b = Some c -> compare b d = Some Eq -> compare a d = Some c.
Proof.
  intros Ha Hb Hd E E'. apply cmp_flip in E, E'; [| done..]. cbn in E'.
  pose proof (cmp_eq d b a _ Hd Hb Ha E' E) as E2. apply cmp_flip in E2; [| done..].
  by rewrite CompOpp_involutive in E2.
Qed.
Lemma cmp_le_lt_trans a b d : valid a -> valid b -> valid d ->
  compare a b <> Some Gt -> compare b d = Some Lt -> compare a d = Some Lt.
Proof.
  intros Ha Hb Hd H E. destruct (cmp_some a b Ha Hb) as [[] E']; [by apply (cmp_eq a b d) | by apply (cmp_trans a b d) | done].
Qed.
Lemma cmp_lt_le_trans a b d : valid a -> valid b -> valid d ->
  compare a b = Some Lt -> compare b d <> Some Gt -> compare a d = Some Lt.
Proof.
  intros Ha Hb Hd E H. destruct (cmp_some b d Hb Hd) as [[] E']; [by apply (cmp_eq_r a b d) | by apply (cmp_trans a b d) | done].
Qed.
End Order.

(** ** The interface *)

(** [Compare], and the two methods that shorten keys of an index, as functions from the
    old value of their string to the new one. *)
Class Comparator := {
  Compare : Slice -> Slice -> option comparison;
  FindShortestSeparator : Slice -> Slice -> option Slice;
  FindShortSuccessor : Slice -> option Slice
}.

(** What the documentation of the class asks for, and that a string is left alone when the
    limit is the string itself. *)
Class ComparatorLaws (C : Comparator) (valid : Slice -> Prop) := {
  laws_order :: OrderOn Compare valid;
  FindShortestSeparator_ok start limit : valid start -> valid limit ->
    Compare start limit = Some Lt ->
    ∃ sep, FindShortestSeparator start limit = Some sep /\ valid sep /\
      Compare start sep <> Some Gt /\ Compare sep limit = Some Lt;
  FindShortestSeparator_eq start limit : valid start -> valid limit ->
    Compare start limit = Some Eq -> FindShortestSeparator start limit = Some start;
  FindShortSuccessor_ok key : valid key ->
    ∃ succ, FindShortSuccessor key = Some succ /\ valid succ /\ Compare key succ <> Some Gt
}.

(** ** The bytewise comparator *)
Section Bytewise.
Variable ndebug : bool.

Definition Bytewise_Compare (a b : Slice) : option comparison := Some (Slice_compare a b).

(** The loop that measures the common prefix. *)
Fixpoint common_prefix (a b : Slice) : nat :=
  match a, b with
  | x :: a, y :: b => if x =? y then S (common_prefix a b) else 0%nat
  | _, _ => 0%nat
  end.

Definition Bytewise_FindShortestSeparator (start limit : Slice) : option Slice :=
  let min_length := Nat.min (length start) (length limit) in
  let diff_index := common_prefix start limit in
  if decide (min_length <= diff_index)%nat then Some start
  else
    diff_byte ← start !! diff_index; limit_byte ← limit !! diff_index;
    if (diff_byte <? 0xff) && (diff_byte + 1 <? limit_byte) then
      let start := take (diff_index + 1) (<[diff_index := diff_byte + 1]> start) in
      _ ← assert_ ndebug (bool_decide (Slice_compare start limit = Lt)); Some start
    else Some start.

Fixpoint FindShortSuccessor_loop (key : Slice) : option Slice :=
  match key with
  | [] => None
  | byte :: key =>
      if negb (byte =? 0xff) then Some [u8 (byte + 1)]
      else k ← FindShortSuccessor_loop key; Some (byte :: k)
  end.
(** A run of [0xff] is left alone. *)
Definition Bytewise_FindShortSuccessor (key : Slice) : option Slice :=
  Some (default key (FindShortSuccessor_loop key)).

Instance BytewiseComparator : Comparator := {
  Compare := Bytewise_Compare;
  FindShortestSeparator := Bytewise_FindShortestSeparator;
  FindShortSuccessor := Bytewise_FindShortSuccessor
}.
End Bytewise.

(** ** Internal keys *)
Inductive ValueType := kTypeDeletion | kTypeValue.
#[global] Instance ValueType_eq_dec : EqDecision ValueType.
Proof. solve_decision. Defined.
Definition ValueType_num (t : ValueType) : Z := match t with kTypeDeletion => 0x0 | kTypeValue => 0x1 end.
Definition kValueTypeForSeek : ValueType := kTypeValue.
Definition kMaxSequenceNumber : Z := Z.shiftl 1 56 - 1.

(** A byte as a [ValueType]; [None] is a byte that is none. *)
Definition to_ValueType (c : Z) : option ValueType :=
  if c =? 0 then Some kTypeDeletion else if c =? 1 then Some kTypeValue else None.

Record ParsedInternalKey := MkParsed { user_key : Slice; sequence : Z; type : ValueType }.

Section InternalKeys.
Variable ndebug : bool.

Definition PackSequenceAndType (seq : Z) (t : ValueType) : option Z :=
  _ ← assert_ ndebug (seq <=? kMaxSequenceNumber);
  Some (Z.lor (u64 (Z.shiftl seq 8)) (ValueType_num t)).

Definition InternalKeyEncodingLength (key : ParsedInternalKey) : Z := |[user_key key]| + 8.

Definition AppendInternalKey (result : Slice) (key : ParsedInternalKey) : option Slice :=
  pack ← PackSequenceAndType (sequence key) (type key);
  Some (PutFixed64 (result ++ user_key key) pack).

(** The last eight bytes. *)
Definition ExtractTag (internal_key : Slice) : option Z :=
  if decide (8 <= length internal_key)%nat then DecodeFixed64 (drop (length internal_key - 8) internal_key) else None.
Definition ExtractUserKey (internal_key : Slice) : option Slice :=
  if decide (8 <= length internal_key)%nat then Some (take (length internal_key - 8) internal_key) else None.
(** The [ValueType] a byte is cast to. *)
Definition ExtractValueType (internal_key : Slice) : option Z :=
  num ← ExtractTag internal_key; Some (Z.land num 0xff).

(** [None] is the result [false]. *)
Definition ParseInternalKey (internal_key : Slice) : option ParsedInternalKey :=
  num ← ExtractTag internal_key; u ← ExtractUserKey internal_key;
  t ← to_ValueType (Z.land num 0xff); Some (MkParsed u (Z.shiftr num 8) t).

(** ** The comparator of internal keys *)
Section InternalKeyComparator.
Context (C : Comparator).

Definition InternalKey_Compare (akey bkey : Slice) : option comparison :=
  au ← ExtractUserKey akey; bu ← ExtractUserKey bkey;
  r ← @Compare C au bu;
  match r with
  | Eq =>
      anum ← ExtractTag akey; bnum ← ExtractTag bkey;
      Some (if anum >? bnum then Lt else if anum <? bnum then Gt else Eq)
  | r => Some r
  end.

Definition InternalKey_FindShortestSeparator (start limit : Slice) : option Slice :=
  user_start ← ExtractUserKey start; user_limit ← ExtractUserKey limit;
  tmp ← @FindShortestSeparator C user_start user_limit;
  r ← @Compare C user_start tmp;
  if (|[tmp]| <? |[user_start]|) && bool_decide (r = Lt) then
    pack ← PackSequenceAndType kMaxSequenceNumber kValueTypeForSeek;
    let tmp := PutFixed64 tmp pack in
    r1 ← InternalKey_Compare start tmp; _ ← assert_ ndebug (bool_decide (r1 = Lt));
    r2 ← InternalKey_Compare tmp limit; _ ← assert_ ndebug (bool_decide (r2 = Lt));
    Some tmp
  else Some start.

Definition InternalKey_FindShortSuccessor (key : Slice) : option Slice :=
  user_key ← ExtractUserKey key;
  tmp ← @FindShortSuccessor C user_key;
  r ← @Compare C user_key tmp;
  if (|[tmp]| <? |[user_key]|) && bool_decide (r = Lt) then
    pack ← PackSequenceAndType kMaxSequenceNumber kValueTypeForSeek;
    let tmp := PutFixed64 tmp pack in
    r1 ← InternalKey_Compare key tmp; _ ← assert_ ndebug (bool_decide (r1 = Lt));
    Some tmp
  else Some key.

Instance InternalKeyComparator : Comparator := {
  Compare := InternalKey_Compare;
  FindShortestSeparator := InternalKey_FindShortestSeparator;
  FindShortSuccessor := InternalKey_FindShortSuccessor
}.
End InternalKeyComparator.

(** [LookupKey]: the key of a memtable, a length prefix and an internal key. *)
Record LookupKey := MkLookupKey { memtable_key : Slice; internal_key : Slice; lookup_user_key : Slice }.
Definition new_LookupKey (user_key : Slice) (s : Z) : option LookupKey :=
  pack ← PackSequenceAndType s kValueTypeForSeek;
  let ikey := user_key ++ EncodeFixed64 pack in
  Some (MkLookupKey (EncodeVarint32 (u32 (|[user_key]| + 8)) ++ ikey) ikey user_key).
End InternalKeys.

(** ** The bytewise comparator keeps the contract *)
Lemma Slice_compare_lt_trans a b c : Slice_compare a b = Lt -> Slice_compare b c = Lt -> Slice_compare a c = Lt.
Proof.
  intros E1 E2. pose proof (Slice_compare_trans a b c) as H. rewrite E1, E2 in H.
  destruct (Slice_compare a c) eqn:E; [| done | by destruct H].
  apply Slice_compare_eq in E as <-. rewrite Slice_compare_antisym, E1 in E2. done.
Qed.

#[global] Instance Bytewise_order : OrderOn Bytewise_Compare bytes.
Proof.
  unfold Bytewise_Compare. split.
  - intros; by eexists.
  - intros a _. by rewrite Slice_compare_refl.
  - intros a b c _ _ [= <-]. by rewrite <- Slice_compare_antisym.
  - intros a b d _ _ _ [= E1] [= E2]. f_equal. by eapply Slice_compare_lt_trans.
  - intros a b d c _ _ _ [= ->%Slice_compare_eq] E. done.
Qed.

Lemma common_prefix_spec a b :
  (common_prefix a b < Nat.min (length a) (length b))%nat ->
  ∃ p x s y t, a = p ++ x :: s /\ b = p ++ y :: t /\ length p = common_prefix a b /\ x <> y.
Proof.
  revert b. induction a as [| x a IH]; intros [| y b]; cbn; try lia.
  destruct (Z.eqb_spec x y) as [-> | Hne]; intros H.
  - destruct (IH b) as (p & x & s & z & t & -> & -> & <- & Hxz); [lia |]. by exists (y :: p), x, s, z, t.
  - by exists [], x, a, y, b.
Qed.
Lemma common_prefix_refl a : common_prefix a a = length a.
Proof. induction a as [| x a IH]; [done |]. cbn. by rewrite Z.eqb_refl, IH. Qed.

Lemma Slice_compare_prefix p a b : Slice_compare (p ++ a) (p ++ b) = Slice_compare a b.
Proof. by rewrite Slice_compare_app, Slice_compare_refl. Qed.

Lemma FindShortSuccessor_loop_spec key k :
  bytes key -> FindShortSuccessor_loop key = Some k -> bytes k /\ Slice_compare key k = Lt.
Proof.
  intros Hb. revert k. induction Hb as [| x key Hx Hb IH]; intros k; [done |]. cbn.
  destruct (Z.eqb_spec x 255) as [-> | Hne]; cbn.
  - destruct (FindShortSuccessor_loop key) as [k' |]; [| done]. cbn. intros [= <-].
    destruct (IH _ eq_refl). split; [by constructor | done].
  - intros [= <-]. unfold word in Hx. change (2 ^ 8) with 256 in Hx.
    assert (word 8 (x + 1)) by (split; [| change (2 ^ 8) with 256]; lia).
    unfold u8. rewrite wrap_small by done. split; [constructor; [done | constructor] |].
    cbn. by rewrite (proj2 (Z.compare_lt_iff x (x + 1))) by lia.
Qed.

#[global] Instance Bytewise_laws ndebug : ComparatorLaws (BytewiseComparator ndebug) bytes.
Proof.
  split; cbn.
  - apply _.
  - intros start limit Hs Hl [= E]. unfold Bytewise_FindShortestSeparator, Bytewise_Compare.
    assert (∃ sep, Some start = Some sep /\ bytes sep /\ Some (Slice_compare start sep) <> Some Gt /\
      Some (Slice_compare sep limit) = Some Lt) as Hself
      by (exists start; rewrite Slice_compare_refl, E; naive_solver).
    case_decide as Hn; [done |].
    destruct (common_prefix_spec start limit) as (p & x & s & y & t & -> & -> & Hp & Hxy); [lia |].
    rewrite <- Hp, !list_lookup_middle by done. cbn [mbind option_bind].
    destruct ((x <? 255) && (x + 1 <? y)) eqn:Hb; [| done]. bool_hyps.
    apply Forall_app in Hs as [Hbp Hs], Hl as [_ Hl].
    inversion Hs as [| ? ? Hx _]; subst. inversion Hl as [| ? ? Hy _]; subst.
    rewrite insert_app_r_alt, Nat.sub_diag by done. cbn [insert list_insert].
    replace (take _ _) with (p ++ [x + 1])
      by (rewrite take_app_ge, Nat.add_comm, Nat.add_sub by lia; cbn; by destruct s).
    rewrite Slice_compare_prefix. cbn [Slice_compare].
    rewrite (proj2 (Z.compare_lt_iff (x + 1) y)) by lia. rewrite assert_bool by by_compute. cbn [mbind option_bind].
    eexists. split; [done |]. split; [apply Forall_app; split; [done |]; constructor; [| constructor] |].
    { unfold word in *. lia. }
    rewrite !Slice_compare_prefix. cbn. rewrite (proj2 (Z.compare_lt_iff x (x + 1))), (proj2 (Z.compare_lt_iff (x + 1) y)) by lia. done.
  - intros start limit _ _ [= ->%Slice_compare_eq]. unfold Bytewise_FindShortestSeparator.
    rewrite common_prefix_refl, decide_True by lia. done.
  - intros key Hb. unfold Bytewise_FindShortSuccessor, Bytewise_Compare. eexists. split; [done |].
    destruct (FindShortSuccessor_loop key) as [k |] eqn:E; cbn.
    + destruct (FindShortSuccessor_loop_spec key k Hb E) as [? ->]. done.
    + by rewrite Slice_compare_refl.
Qed.

(** ** Internal keys: a user key and a tag *)
Definition ikey (u : Slice) (n : Z) : Slice := u ++ EncodeFixed64 n.
Definition valid_ikey (valid : Slice -> Prop) (k : Slice) : Prop :=
  ∃ u n, k = ikey u n /\ valid u /\ word 64 n.
(** The tag of a sequence number and a type. *)
Definition tag (s : Z) (t : ValueType) : Z := s * 2 ^ 8 + ValueType_num t.
Lemma bytes_ikey u n : bytes u -> bytes (ikey u n).
Proof. intros Hu. unfold ikey, bytes. rewrite EncodeFixed64_split, !Forall_app. split_and!; [done | apply bytes_EncodeFixed32..]. Qed.

Lemma ValueType_num_word t : word 8 (ValueType_num t).
Proof. by destruct t. Qed.
Lemma to_ValueType_num t : to_ValueType (ValueType_num t) = Some t.
Proof. by destruct t. Qed.

Lemma tag_word s t : word 56 s -> word 64 (tag s t).
Proof.
  intros [? Hs]. pose proof (ValueType_num_word t) as [? Ht]. unfold tag, word.
  change (2 ^ 64) with (2 ^ 56 * 2 ^ 8). change (2 ^ 8) with 256 in *. lia.
Qed.
Lemma tag_shiftr s t : Z.shiftr (tag s t) 8 = s.
Proof.
  pose proof (ValueType_num_word t) as [? Ht]. unfold tag. rewrite Z.shiftr_div_pow2 by lia.
  change (2 ^ 8) with 256 in *. rewrite Z.div_add_l, Z.div_small by lia. lia.
Qed.
Lemma tag_land s t : Z.land (tag s t) 0xff = ValueType_num t.
Proof.
  pose proof (ValueType_num_word t) as Ht. rewrite wrap_8_land. unfold tag, wrap.
  rewrite Z.add_comm, Z.mod_add by (cbn; lia). by apply wrap_small.
Qed.
Lemma tag_lor s t : word 56 s -> Z.lor (u64 (Z.shiftl s 8)) (ValueType_num t) = tag s t.
Proof.
  intros Hs. unfold u64. rewrite wrap_shiftl by lia. rewrite (wrap_small 56) by done.
  apply lor_shiftl_add; [lia | apply ValueType_num_word].
Qed.

(** Tags order by sequence number, then by type. *)
Lemma tag_lt s t s' t' : s < s' -> tag s t < tag s' t'.
Proof.
  pose proof (ValueType_num_word t) as [? Ht]. pose proof (ValueType_num_word t') as [? Ht']. unfold tag.
  change (2 ^ 8) with 256 in *. lia.
Qed.
Lemma tag_compare s t s' t' :
  (tag s t ?= tag s' t') = match s ?= s' with Eq => ValueType_num t ?= ValueType_num t' | c => c end.
Proof.
  destruct (Z.compare_spec s s') as [-> | Hlt | Hgt].
  - unfold tag. apply Z.add_compare_mono_l.
  - apply Z.compare_lt_iff. by apply tag_lt.
  - apply Z.compare_gt_iff. by apply tag_lt.
Qed.

Lemma kMaxSequenceNumber_word s : word 56 s <-> 0 <= s <= kMaxSequenceNumber.
Proof. unfold word. change kMaxSequenceNumber with (2 ^ 56 - 1). lia. Qed.

Lemma PackSequenceAndType_tag ndebug s t : word 56 s -> PackSequenceAndType ndebug s t = Some (tag s t).
Proof.
  intros Hs. unfold PackSequenceAndType. rewrite assert_bool by (apply Z.leb_le, kMaxSequenceNumber_word, Hs).
  cbn. by rewrite tag_lor.
Qed.

Lemma length_ikey u n : length (ikey u n) = (length u + 8)%nat.
Proof. unfold ikey. by rewrite length_app. Qed.

Lemma ExtractUserKey_ikey u n : ExtractUserKey (ikey u n) = Some u.
Proof.
  unfold ExtractUserKey. rewrite decide_True by (rewrite length_ikey; lia). rewrite length_ikey, Nat.add_sub.
  unfold ikey. by rewrite take_app_length.
Qed.
Lemma ExtractTag_ikey u n : word 64 n -> ExtractTag (ikey u n) = Some n.
Proof.
  intros Hn. unfold ExtractTag. rewrite decide_True by (rewrite length_ikey; lia). rewrite length_ikey, Nat.add_sub.
  unfold ikey. rewrite drop_app_length. rewrite <- (app_nil_r (EncodeFixed64 n)), DecodeFixed64_wrap. f_equal. by apply wrap_small.
Qed.

Lemma ParseInternalKey_ikey u s t : word 56 s ->
  ParseInternalKey (ikey u (tag s t)) = Some (MkParsed u s t).
Proof.
  intros Hs. unfold ParseInternalKey. rewrite ExtractTag_ikey by by apply tag_word.
  rewrite ExtractUserKey_ikey. cbn [mbind option_bind]. by rewrite tag_land, to_ValueType_num, tag_shiftr.
Qed.

Lemma AppendInternalKey_ikey ndebug r u s t : word 56 s ->
  AppendInternalKey ndebug r (MkParsed u s t) = Some (r ++ ikey u (tag s t)).
Proof.
  intros Hs. unfold AppendInternalKey. cbn [user_key sequence type]. rewrite PackSequenceAndType_tag by done.
  cbn. unfold PutFixed64, ikey. by rewrite app_assoc.
Qed.

(** ** The comparator of internal keys keeps the contract *)
Section InternalLaws.
Context (ndebug : bool) (C : Comparator) (valid : Slice -> Prop) `{!ComparatorLaws C valid}.

Definition ikey_compare (r : comparison) (n m : Z) : comparison := match r with Eq => m ?= n | r => r end.

Lemma InternalKey_Compare_ikey u n v m : word 64 n -> word 64 m ->
  InternalKey_Compare C (ikey u n) (ikey v m) = r ← Compare u v; Some (ikey_compare r n m).
Proof.
  intros Hn Hm. unfold InternalKey_Compare. rewrite !ExtractUserKey_ikey. cbn [mbind option_bind].
  destruct (Compare u v) as [[] |]; try done. cbn. rewrite !ExtractTag_ikey by done. cbn.
  rewrite Z.gtb_ltb. f_equal. destruct (Z.compare_spec m n), (Z.ltb_spec m n), (Z.ltb_spec n m); try lia; done.
Qed.

Lemma ikey_Compare_Some u n v m c : word 64 n -> word 64 m -> valid u -> valid v ->
  InternalKey_Compare C (ikey u n) (ikey v m) = Some c <->
  ∃ r, Compare u v = Some r /\ c = ikey_compare r n m.
Proof.
  intros Hn Hm Hu Hv. rewrite InternalKey_Compare_ikey by done.
  destruct (cmp_some u v Hu Hv) as [r ->]. cbn. naive_solver.
Qed.

#[global] Instance InternalKey_order : OrderOn (InternalKey_Compare C) (valid_ikey valid).
Proof.
  split.
  - intros ? ? (u & n & -> & Hu & Hn) (v & m & -> & Hv & Hm). rewrite InternalKey_Compare_ikey by done.
    destruct (cmp_some u v Hu Hv) as [r ->]. by eexists.
  - intros ? (u & n & -> & Hu & Hn). apply ikey_Compare_Some; [done.. |]. exists Eq. split; [by apply cmp_refl |].
    cbn. by rewrite Z.compare_refl.
  - intros ? ? c (u & n & -> & Hu & Hn) (v & m & -> & Hv & Hm). rewrite !ikey_Compare_Some by done.
    intros (r & E & ->). apply cmp_flip in E; [| done..]. exists (CompOpp r). split; [done |].
    destruct r; cbn; [symmetry; apply Z.compare_antisym | done | done].
  - intros ? ? ? (u & n & -> & Hu & Hn) (v & m & -> & Hv & Hm) (w & l & -> & Hw & Hl). rewrite !ikey_Compare_Some by done.
    intros (r & E & Er) (r' & E' & Er'). destruct r; cbn in Er; [| | done]; destruct r'; cbn in Er'; try done.
    + exists Eq. split; [by apply (cmp_eq u v w) |]. symmetry in Er, Er'. rewrite Z.compare_lt_iff in Er, Er'. cbn.
      symmetry. apply Z.compare_lt_iff. lia.
    + exists Lt. split; [by apply (cmp_eq u v w) | done].
    + exists Lt. split; [by apply (cmp_eq_r u v w) | done].
    + exists Lt. split; [by apply (cmp_trans u v w) | done].
  - intros ? ? ? c (u & n & -> & Hu & Hn) (v & m & -> & Hv & Hm) (w & l & -> & Hw & Hl). rewrite !ikey_Compare_Some by done.
    intros (r & E & Er) (r' & E' & ->). destruct r; cbn in Er; try done. symmetry in Er. apply Z.compare_eq in Er as ->.
    exists r'. split; [by apply (cmp_eq u v w) | done].
Qed.

(** A user key that grew gets the first tag. *)
Lemma short_key_valid u : valid u -> valid_ikey valid (ikey u (tag kMaxSequenceNumber kValueTypeForSeek)).
Proof. intros Hu. eexists u, _. split; [done |]. split; [done | by_compute]. Qed.

#[global] Instance InternalKey_laws : ComparatorLaws (InternalKeyComparator ndebug C) (valid_ikey valid).
Proof.
  assert (word 64 (tag kMaxSequenceNumber kValueTypeForSeek)) as Htag by by_compute.
  split; cbn; [apply _ | | |].
  - intros start limit Hs0 Hl0 E0.
    assert (∃ sep, Some start = Some sep /\ valid_ikey valid sep /\ InternalKey_Compare C start sep <> Some Gt /\
      InternalKey_Compare C sep limit = Some Lt) as Hself.
    { exists start. split; [done |]. split; [done |]. split; [| done]. by rewrite cmp_refl. }
    destruct Hs0 as (u & n & -> & Hu & Hn), Hl0 as (v & m & -> & Hv & Hm).
    apply ikey_Compare_Some in E0 as (r & E & Er); [| done..].
    unfold InternalKey_FindShortestSeparator. rewrite !ExtractUserKey_ikey. cbn [mbind option_bind].
    assert (r <> Gt) as Hr by (by intros ->).
    destruct r; [| | done].
    { rewrite FindShortestSeparator_eq by done. cbn [mbind option_bind]. rewrite cmp_refl by done. cbn [mbind option_bind].
      by rewrite bool_decide_eq_false_2, andb_false_r by done. }
    destruct (FindShortestSeparator_ok u v) as (tmp & -> & Ht & Hle & Hlt); [done.. |]. cbn [mbind option_bind].
    destruct (cmp_some u tmp Hu Ht) as [r Er']. rewrite Er'. cbn [mbind option_bind].
    destruct (_ && _) eqn:Hb; [| done]. bool_hyps. subst r. rewrite PackSequenceAndType_tag by by_compute.
    cbn [mbind option_bind]. change (PutFixed64 tmp ?n) with (ikey tmp n).
    rewrite !InternalKey_Compare_ikey, Er', Hlt by done. cbn. rewrite !assert_true. cbn.
    eexists. split; [done |]. split; [by apply short_key_valid |]. by rewrite !InternalKey_Compare_ikey, Er', Hlt.
  - intros start limit (u & n & -> & Hu & Hn) (v & m & -> & Hv & Hm) (r & E & Er)%ikey_Compare_Some; [| done..].
    unfold InternalKey_FindShortestSeparator. rewrite !ExtractUserKey_ikey. cbn [mbind option_bind].
    destruct r; try done. rewrite FindShortestSeparator_eq by done. cbn [mbind option_bind]. rewrite cmp_refl by done.
    cbn [mbind option_bind]. by rewrite bool_decide_eq_false_2, andb_false_r by done.
  - intros key Hk. pose proof Hk as (u & n & -> & Hu & Hn).
    unfold InternalKey_FindShortSuccessor. rewrite !ExtractUserKey_ikey. cbn [mbind option_bind].
    destruct (FindShortSuccessor_ok u Hu) as (tmp & -> & Ht & Hle). cbn [mbind option_bind].
    destruct (cmp_some u tmp Hu Ht) as [r Er']. rewrite Er'. cbn [mbind option_bind].
    destruct (_ && _) eqn:Hb.
    + bool_hyps. subst r. rewrite PackSequenceAndType_tag by by_compute. cbn [mbind option_bind].
      change (PutFixed64 tmp ?n) with (ikey tmp n). rewrite !InternalKey_Compare_ikey, Er' by done. cbn. rewrite assert_true. cbn.
      eexists. split; [done |]. split; [by apply short_key_valid |]. by rewrite !InternalKey_Compare_ikey, Er'.
    + eexists. split; [done |]. split; [done |]. by rewrite cmp_refl.
Qed.
End InternalLaws.

(** C39. Internal keys: a key that is appended to a string parses back into its user key, sequence number
    and type; keys are ordered by user key, then newest first, then values before deletions; and the
    string that replaces the gap between two adjacent keys in an index lies between them, not below
    the first and strictly below the second. *)
Theorem internal_key_order ndebug (C : Comparator) (valid : Slice -> Prop) `{!ComparatorLaws C valid} u s t v s' t' :
  valid u -> valid v -> word 56 s -> word 56 s' ->
  ∃ a b, AppendInternalKey ndebug [] (MkParsed u s t) = Some a /\ AppendInternalKey ndebug [] (MkParsed v s' t') = Some b /\
    ParseInternalKey a = Some (MkParsed u s t) /\ ExtractUserKey a = Some u /\ |[a]| = InternalKeyEncodingLength (MkParsed u s t) /\
    InternalKey_Compare C a b =
      (r ← Compare u v; Some match r with Eq => match s' ?= s with Eq => ValueType_num t' ?= ValueType_num t | c => c end | r => r end) /\
    (InternalKey_Compare C a b = Some Lt ->
     ∃ sep, InternalKey_FindShortestSeparator ndebug C a b = Some sep /\
       InternalKey_Compare C a sep <> Some Gt /\ InternalKey_Compare C sep b = Some Lt).
Proof.
  intros Hu Hv Hs Hs'. rewrite !AppendInternalKey_ikey by done. do 2 eexists. split; [done |]. split; [done |]. cbn [app].
  pose proof (tag_word s t Hs). pose proof (tag_word s' t' Hs'). split_and!.
  - by apply ParseInternalKey_ikey.
  - apply ExtractUserKey_ikey.
  - unfold InternalKeyEncodingLength, slice_size. rewrite length_ikey. cbn. lia.
  - rewrite InternalKey_Compare_ikey by done. destruct (Compare u v) as [r |]; [| done]. cbn. f_equal.
    unfold ikey_compare. destruct r; [apply tag_compare | done | done].
  - intros E. assert (∀ w n, valid w -> word 64 n -> valid_ikey valid (ikey w n)) as Hi by (intros w n ? ?; by exists w, n).
    destruct (FindShortestSeparator_ok (ComparatorLaws := InternalKey_laws ndebug C valid) _ _ (Hi u _ Hu H) (Hi v _ Hv H0) E)
      as (sep & E1 & _ & H1 & H2). by exists sep.
Qed.

Lemma internal_key_order_witness :
  ∃ a b, AppendInternalKey false [] (MkParsed (lit "abcz") 7 kTypeValue) = Some a /\
    AppendInternalKey false [] (MkParsed (lit "ae") 9 kTypeDeletion) = Some b /\
    ∃ sep, InternalKey_FindShortestSeparator false (BytewiseComparator false) a b = Some sep /\ ExtractUserKey sep = Some (lit "ac").
Proof.
  destruct (internal_key_order false (BytewiseComparator false) bytes (lit "abcz") 7 kTypeValue (lit "ae") 9 kTypeDeletion)
    as (a & b & Ea & Eb & _ & _ & _ & E & Hsep); [by_compute.. |].
  exists a, b. split; [exact Ea |]. split; [exact Eb |].
  destruct Hsep as (sep & Es & _). { rewrite E. vm_compute. reflexivity. }
  exists sep. split; [exact Es |]. vm_compute in Ea, Eb. injection Ea as <-. injection Eb as <-.
  vm_compute in Es. injection Es as <-. vm_compute. reflexivity.
Defined.
