(* ===== verification/SkipList.v ===== *)
(** * Skip lists ([leveldb/skiplist.h])

    The nodes are the cells of an arena that only grows: a node's address is its index, the head is
    node 0 and [None] is [NULL].  The list is ordered by a three-way comparison that may fail
    outside its domain.  [sl_ok] relates a skip list to the sorted sequence of its keys; the
    theorems are about every operation of the class and of its iterator. *)
From stdpp Require Import sorting.
From S2P Require Import Prelude Comparator Random.

Definition kMaxHeight : nat := 12.
Definition kBranching : Z := 4.
Definition head_ : nat := 0.

(** [Node]: the key (the head has none) and the links, one per level. *)
Record Node (K : Type) := MkNode { n_key : option K; next_ : list (option nat) }.
Record SkipList (K : Type) := MkSkipList { nodes : list (Node K); max_height_ : nat; sl_rnd : Z }.
Arguments MkNode {K}. Arguments n_key {K}. Arguments next_ {K}.
Arguments MkSkipList {K}. Arguments nodes {K}. Arguments max_height_ {K}. Arguments sl_rnd {K}.

Section SkipList.
Context {K : Type} (compare_ : K -> K -> option comparison).
Variable ndebug : bool.
Implicit Types (sl : SkipList K) (key : K).

(** The constructor. *)
Definition new_SkipList : SkipList K :=
  MkSkipList [MkNode None (replicate kMaxHeight None)] 1 (new_Random 0xdeadbeef).

(** [Next] and [SetNext] of a node. *)
Definition node_next sl (x n : nat) : option (option nat) := nd ← nodes sl !! x; next_ nd !! n.
Definition SetNext (x n : nat) (v : option nat) sl : option (SkipList K) :=
  nd ← nodes sl !! x; _ ← next_ nd !! n;
  Some (MkSkipList (<[x := MkNode (n_key nd) (<[n := v]> (next_ nd))]> (nodes sl)) (max_height_ sl) (sl_rnd sl)).
Definition node_key sl (x : nat) : option K := nd ← nodes sl !! x; n_key nd.

Definition Equal (a b : K) : option bool := c ← compare_ a b; Some (bool_decide (c = Eq)).
Definition KeyIsAfterNode sl key (n : option nat) : option bool :=
  match n with
  | None => Some false
  | Some n => k ← node_key sl n; c ← compare_ k key; Some (bool_decide (c = Lt))
  end.

(** The loop of the three searches: [after x next] is the test that keeps the search on its
    level; the result is the last [x] and [next], and what was stored in [prev]. *)
Fixpoint search_loop sl (after : nat -> option nat -> option bool) (fuel x level : nat) (prev : list (option nat))
    : option (nat * option nat * list (option nat)) :=
  match fuel with
  | 0%nat => None
  | S fuel =>
      next ← node_next sl x level;
      b ← after x next;
      if (b : bool) then next ← next; search_loop sl after fuel next level prev
      else
        let prev := <[level := Some x]> prev in
        match level with
        | 0%nat => Some (x, next, prev)
        | S level => search_loop sl after fuel x level prev
        end
  end.
Definition search sl (after : nat -> option nat -> option bool) : option (nat * option nat * list (option nat)) :=
  search_loop sl after (length (nodes sl) + max_height_ sl) head_ (max_height_ sl - 1) (replicate kMaxHeight None).

(** The node found and [prev]. *)
Definition FindGreaterOrEqual sl key : option (option nat * list (option nat)) :=
  '(_, next, prev) ← search sl (λ _ next, KeyIsAfterNode sl key next); Some (next, prev).

Definition FindLessThan sl key : option nat :=
  '(x, _, _) ← search sl (λ x next,
      _ ← (if ndebug || bool_decide (x = head_) then Some tt else b ← KeyIsAfterNode sl key (Some x); assert_ ndebug b);
      match next with
      | None => Some false
      | Some n => k ← node_key sl n; c ← compare_ k key; Some (bool_decide (c = Lt))
      end);
  Some x.

Definition FindLast sl : option nat :=
  '(x, _, _) ← search sl (λ _ next, Some (bool_decide (next <> None))); Some x.

(** [RandomHeight]: the height and the generator's state; [more] further levels are possible. *)
Fixpoint RandomHeight_loop (more height : nat) (rnd : Z) : nat * Z :=
  match more with
  | 0%nat => (height, rnd)
  | S more =>
      let rnd := Random_Next rnd in
      if rnd mod kBranching =? 0 then RandomHeight_loop more (S height) rnd else (height, rnd)
  end.
Definition RandomHeight (rnd : Z) : nat * Z := RandomHeight_loop (kMaxHeight - 1) 1 rnd.

(** The loops of [Insert]: levels that are new start at the head; then the links. *)
Definition fill_prev (from height : nat) (prev : list (option nat)) : list (option nat) :=
  foldl (λ prev i, <[i := Some head_]> prev) prev (seq from (height - from)).
Fixpoint link_levels (x : nat) (prev : list (option nat)) (levels : list nat) sl : option (SkipList K) :=
  match levels with
  | [] => Some sl
  | i :: levels =>
      p ← prev !! i; p ← p;
      v ← node_next sl p i;
      sl ← SetNext x i v sl;
      sl ← SetNext p i (Some x) sl;
      link_levels x prev levels sl
  end.

Definition Insert key sl : option (SkipList K) :=
  '(x, prev) ← FindGreaterOrEqual sl key;
  _ ← (if ndebug then Some tt
       else match x with
            | None => Some tt
            | Some x => k ← node_key sl x; e ← Equal key k; assert_ ndebug (negb e)
            end);
  let '(height, rnd) := RandomHeight (sl_rnd sl) in
  let prev := fill_prev (max_height_ sl) height prev in
  let x := length (nodes sl) in
  link_levels x prev (seq 0 height)
    (MkSkipList (nodes sl ++ [MkNode (Some key) (replicate height None)]) (Nat.max (max_height_ sl) height) rnd).

Definition Contains sl key : option bool :=
  '(x, _) ← FindGreaterOrEqual sl key;
  match x with None => Some false | Some x => k ← node_key sl x; Equal key k end.

(** [Iterator]: [node_]. *)
Abbreviation SlIter := (option nat).
Definition it_Valid (it : SlIter) : bool := bool_decide (it <> None).
Definition it_key sl (it : SlIter) : option K := x ← it; node_key sl x.
Definition it_Next sl (it : SlIter) : option SlIter := x ← it; node_next sl x 0.
Definition not_head (x : nat) : SlIter := if decide (x = head_) then None else Some x.
Definition it_Prev sl (it : SlIter) : option SlIter := x ← it; k ← node_key sl x; x ← FindLessThan sl k; Some (not_head x).
Definition it_Seek sl (target : K) : option SlIter := fst <$> FindGreaterOrEqual sl target.
Definition it_SeekToFirst sl : option SlIter := node_next sl head_ 0.
Definition it_SeekToLast sl : option SlIter := not_head <$> FindLast sl.
End SkipList.
