(* ===== verification/SkipListProps.v ===== *)
(** * The invariant of skip lists

    [sl_ok sl l] says that [l], the addresses and keys of the nodes in order, is what level 0
    links together, sorted by key, and that every level links the nodes that are tall enough. *)
From stdpp Require Import sorting.
From S2P Require Import Prelude Random Comparator SkipList.

(** The first element that a filter keeps. *)
Lemma filter_cons_split {A} (P : A -> Prop) `{∀ x, Decision (P x)} (l : list A) x k :
  filter P l = x :: k -> ∃ a b, l = a ++ x :: b /\ P x /\ filter P a = [] /\ filter P b = k.
Proof.
  induction l as [| y l IH]; [done |]. rewrite list.filter_cons. case_decide as Hy.
  - intros [= -> <-]. by exists [], l.
  - intros E. destruct (IH E) as (a & b & -> & Hx & Ha & Hb). exists (y :: a), b. by rewrite list.filter_cons_False.
Qed.

(** ** Chains of links *)
Fixpoint chain (nxt : nat -> option (option nat)) (x : nat) (l : list nat) : Prop :=
  match l with [] => nxt x = Some None | y :: l => nxt x = Some (Some y) /\ chain nxt y l end.

Lemma chain_head nxt x l : chain nxt x l -> nxt x = Some (list.head l).
Proof. destruct l as [| y l]; [done |]. by intros [-> _]. Qed.
Lemma chain_app nxt x a b : chain nxt x (a ++ b) -> chain nxt (default x (list.last a)) b.
Proof.
  revert x. induction a as [| y a IH]; intros x; [done |]. intros [_ Hc]. apply IH in Hc.
  rewrite list.last_cons. by destruct (list.last a).
Qed.
Lemma chain_ext nxt nxt' x l : (∀ y, y ∈ x :: l -> nxt' y = nxt y) -> chain nxt x l -> chain nxt' x l.
Proof.
  revert x. induction l as [| y l IH]; intros x H; cbn.
  - by rewrite H by left.
  - rewrite H by left. intros [-> Hc]. split; [done |]. apply IH; [| done]. intros z Hz. apply H. by right.
Qed.

(** Splicing a new node into a chain. *)
Lemma chain_insert nxt nxt' x a b n :
  base.NoDup (x :: a ++ b) -> n ∉ x :: a ++ b -> chain nxt x (a ++ b) ->
  let p := default x (list.last a) in
  (∀ y, y <> p -> y <> n -> nxt' y = nxt y) -> nxt' p = Some (Some n) -> nxt' n = nxt p ->
  chain nxt' x (a ++ n :: b).
Proof.
  revert x. induction a as [| y a IH]; intros x Hnd Hn Hc p Hext Hp Hnn; subst p; cbn [app last default] in *.
  - split; [done |]. apply list.NoDup_cons in Hnd as [Hx Hnd]. apply not_elem_of_cons in Hn as [Hnx Hnb].
    destruct b as [| z b]; cbn in *; [by rewrite Hnn |]. destruct Hc as [E Hc]. split; [by rewrite Hnn |].
    eapply chain_ext; [| done]. intros w Hw. apply Hext; [| by intros ->]. intros ->. done.
  - rewrite list.last_cons in Hext, Hp, Hnn. apply list.NoDup_cons in Hnd as [Hx Hnd]. destruct Hc as [E Hc].
    apply not_elem_of_cons in Hn as [Hnx Hnb].
    assert (default x (match list.last a with Some z => Some z | None => Some y end) = default y (list.last a)) as Ed by by destruct (list.last a).
    rewrite Ed in *. split; [| by apply IH].
    rewrite Hext; [done | | done]. intros ->. apply Hx.
    destruct (list.last a) as [z |] eqn:El; cbn; [| by left]. right. apply elem_of_app. left. by apply list.last_Some_elem_of.
Qed.

(** ** The invariant *)
Section Facts.
Context {K : Type} (compare_ : K -> K -> option comparison) (valid : K -> Prop) `{!OrderOn compare_ valid}.
Variable ndebug : bool.
Implicit Types (sl : SkipList K) (l : list (nat * K)) (ns : list (Node K)).

Definition height ns (a : nat) : nat := match ns !! a with Some nd => length (next_ nd) | None => 0%nat end.
Definition nx ns (i x : nat) : option (option nat) := nd ← ns !! x; next_ nd !! i.
Definition tall ns (i : nat) l : list (nat * K) := filter (λ p, (i < height ns p.1)%nat) l.
Definition last_addr l : nat := default head_ (fst <$> list.last l).
Definition key_lt (p q : nat * K) : Prop := compare_ p.2 q.2 = Some Lt.

Record sl_ok sl l : Prop := {
  so_head : height (nodes sl) head_ = kMaxHeight;
  so_max : (1 <= max_height_ sl <= kMaxHeight)%nat;
  so_node a k : (a, k) ∈ l -> a <> head_ /\ valid k /\ node_key sl a = Some k /\
    (1 <= height (nodes sl) a <= max_height_ sl)%nat;
  so_sorted : StronglySorted key_lt l;
  so_nodup : base.NoDup l.*1;
  so_chain i : (i < kMaxHeight)%nat -> chain (nx (nodes sl) i) head_ (tall (nodes sl) i l).*1;
  so_len : length (nodes sl) = S (length l)
}.

Lemma tall_app ns i l k : tall ns i (l ++ k) = tall ns i l ++ tall ns i k.
Proof. apply list.filter_app. Qed.
Lemma tall_sub ns i l p : p ∈ tall ns i l -> p ∈ l.
Proof. by intros [_ H]%list_elem_of_filter. Qed.
Lemma tall_0 sl l k : sl_ok sl l -> (∀ p, p ∈ k -> p ∈ l) -> tall (nodes sl) 0 k = k.
Proof.
  intros Hok. induction k as [| [a x] k IH]; intros Hk; [done |]. unfold tall. rewrite list.filter_cons_True.
  - f_equal. apply IH. intros p Hp. apply Hk. by right.
  - destruct (so_node sl l Hok a x) as (_ & _ & _ & H); [apply Hk; by left |]. cbn. lia.
Qed.

Lemma last_addr_app l k : last_addr (l ++ k) = default (last_addr l) (fst <$> list.last k).
Proof. unfold last_addr. rewrite list.last_app. by destruct (list.last k). Qed.
Lemma last_addr_tall ns i l : (i < height ns (last_addr l))%nat -> last_addr (tall ns i l) = last_addr l.
Proof.
  destruct l as [| p l _] using rev_ind; [done |]. assert (last_addr (l ++ [p]) = p.1) as -> by by rewrite last_addr_app.
  intros H. rewrite tall_app, last_addr_app. unfold tall at 2. by rewrite list.filter_cons_True.
Qed.
Lemma last_addr_default l : default head_ (list.last l.*1) = last_addr l.
Proof. unfold last_addr. by rewrite list.fmap_last. Qed.
Lemma last_addr_elem l : last_addr l = head_ \/ last_addr l ∈ l.*1.
Proof.
  destruct l as [| p l _] using rev_ind; [by left |]. right. rewrite last_addr_app. cbn.
  rewrite fmap_app, elem_of_app. right. by left.
Qed.

(** ** Searching *)
Definition first_addr l : option nat := fst <$> list.head l.

(** What [prev] holds at each level after a search that ended behind [pre]. *)
Definition prev_ok ns (levels : nat) pre (prev : list (option nat)) : Prop :=
  length prev = kMaxHeight /\ ∀ i, (i < levels)%nat -> prev !! i = Some (Some (last_addr (tall ns i pre))).

Lemma search_loop_spec sl l pre post after fuel p1 p2 level prev :
  sl_ok sl l -> l = pre ++ post ->
  (∀ x, x = head_ \/ x ∈ pre.*1 -> after x None = Some false /\
     (∀ q, q ∈ pre -> after x (Some q.1) = Some true) /\ (∀ q, q ∈ post -> after x (Some q.1) = Some false)) ->
  pre = p1 ++ p2 -> (level < height (nodes sl) (last_addr p1))%nat -> (length p2 + level < fuel)%nat ->
  (level < kMaxHeight)%nat -> length prev = kMaxHeight ->
  ∃ prev', search_loop sl after fuel (last_addr p1) level prev = Some (last_addr pre, first_addr post, prev') /\
    prev_ok (nodes sl) (S level) pre prev' /\ ∀ i, (level < i)%nat -> prev' !! i = prev !! i.
Proof.
  intros Hok -> Hafter. revert p1 p2 level prev.
  induction fuel as [| fuel IH]; intros p1 p2 level prev -> Hh Hf Hlv Hprev; [lia |]. cbn [search_loop].
  pose proof (so_chain sl _ Hok level Hlv) as Hc. rewrite <- !app_assoc, tall_app, fmap_app in Hc.
  apply chain_app in Hc. rewrite last_addr_default, last_addr_tall in Hc by done. apply chain_head in Hc.
  change (node_next sl (last_addr p1) level) with (nx (nodes sl) level (last_addr p1)). rewrite Hc. cbn [mbind option_bind].
  rewrite tall_app, fmap_app.
  destruct (Hafter (last_addr p1)) as (Hn & Ht & Hff).
  { destruct (last_addr_elem p1); [by left |]. right. rewrite fmap_app, elem_of_app. by left. }
  destruct (tall (nodes sl) level p2) as [| q t] eqn:E.
  - assert (after (last_addr p1) (list.head (tall (nodes sl) level post).*1) = Some false) as Ha.
    { destruct (tall (nodes sl) level post) as [| q t] eqn:Et; [done |]. apply Hff, (tall_sub (nodes sl) level). rewrite Et. by left. }
    change ((list.head ([].*1 ++ (tall (nodes sl) level post).*1))) with (list.head (tall (nodes sl) level post).*1).
    rewrite Ha. cbn [mbind option_bind].
    assert (last_addr (tall (nodes sl) level (p1 ++ p2)) = last_addr p1) as El
      by (rewrite tall_app, E, app_nil_r; by apply last_addr_tall).
    assert (<[level:=Some (last_addr p1)]> prev !! level = Some (Some (last_addr (tall (nodes sl) level (p1 ++ p2))))) as Eset
      by (rewrite El; apply list_lookup_insert_eq; lia).
    destruct level as [| level].
    + eexists. split; [| split].
      * rewrite !(tall_0 sl _ post Hok) by (intros; apply elem_of_app; by right).
        rewrite (tall_0 sl _ p2 Hok) in E by (intros; rewrite !elem_of_app; naive_solver). subst p2. rewrite app_nil_r.
        by destruct post.
      * split; [by rewrite length_insert |]. intros i Hi. by replace i with 0%nat by lia.
      * intros i Hi. apply list_lookup_insert_ne. lia.
    + destruct (IH p1 p2 level (<[S level:=Some (last_addr p1)]> prev)) as (prev' & Es & [Hl Hp] & Hr); [done | lia | lia | lia | by rewrite length_insert |].
      exists prev'. split; [done |]. split; [split; [done |] |].
      * intros i Hi. destruct (decide (i = S level)) as [-> | Hne]; [| apply Hp; lia]. rewrite Hr by lia. exact Eset.
      * intros i Hi. rewrite Hr by lia. apply list_lookup_insert_ne. lia.
  - cbn [list.head fmap list_fmap app]. destruct (filter_cons_split _ _ _ _ E) as (a & b & -> & Hq & Ea & _).
    rewrite Ht by (rewrite !elem_of_app, elem_of_cons; naive_solver). cbn [mbind option_bind].
    assert (last_addr (p1 ++ a ++ [q]) = q.1) as Eq by (by rewrite app_assoc, last_addr_app).
    destruct (IH (p1 ++ a ++ [q]) b level prev) as (prev' & Es & Hp); [by rewrite <- !app_assoc | by rewrite Eq | | done | done |].
    { rewrite !length_app in Hf. cbn in Hf. lia. }
    exists prev'. by rewrite Eq in Es.
Qed.

Lemma search_spec sl l pre post after :
  sl_ok sl l -> l = pre ++ post ->
  (∀ x, x = head_ \/ x ∈ pre.*1 -> after x None = Some false /\
     (∀ q, q ∈ pre -> after x (Some q.1) = Some true) /\ (∀ q, q ∈ post -> after x (Some q.1) = Some false)) ->
  ∃ prev, search sl after = Some (last_addr pre, first_addr post, prev) /\ prev_ok (nodes sl) (max_height_ sl) pre prev.
Proof.
  intros Hok El Ha. pose proof (so_max sl l Hok). pose proof (so_len sl l Hok) as Hlen. subst l. rewrite length_app in Hlen.
  destruct (search_loop_spec sl (pre ++ post) pre post after (length (nodes sl) + max_height_ sl) [] pre (max_height_ sl - 1) (replicate kMaxHeight None))
    as (prev & Es & Hp & _); try done.
  - change (last_addr []) with head_. rewrite (so_head sl _ Hok). lia.
  - lia.
  - lia.
  - exists prev. split; [exact Es |]. by replace (S (max_height_ sl - 1)) with (max_height_ sl) in Hp by lia.
Qed.

(** ** The position of a key *)
Fixpoint below l (key : K) : list (nat * K) :=
  match l with [] => [] | p :: l => if decide (compare_ p.2 key = Some Lt) then p :: below l key else [] end.
Definition above l (key : K) : list (nat * K) := drop (length (below l key)) l.

Lemma below_above l key : l = below l key ++ above l key.
Proof.
  unfold above. induction l as [| p l IH]; [done |]. cbn. case_decide; [| done]. cbn. by f_equal.
Qed.
Lemma below_lt l key p : p ∈ below l key -> compare_ p.2 key = Some Lt.
Proof.
  induction l as [| q l IH]; cbn; [by intros ?%elem_of_nil |]. case_decide; [| by intros ?%elem_of_nil].
  intros [-> | Hp]%elem_of_cons; [done | by apply IH].
Qed.
Lemma above_not_lt l key p : StronglySorted key_lt l -> (∀ q, q ∈ l -> valid q.2) -> valid key ->
  p ∈ above l key -> compare_ p.2 key <> Some Lt.
Proof.
  intros Hs Hv Hk. unfold above. induction Hs as [| q l Hs IH Hq]; cbn; [by intros ?%elem_of_nil |].
  case_decide as Hlt; cbn.
  - apply IH. intros ??. apply Hv. by right.
  - intros [-> | Hp]%elem_of_cons E; [done |]. apply Hlt. rewrite list.Forall_forall in Hq.
    apply (cmp_trans q.2 p.2 key); [apply Hv; by left | apply Hv; by right | done | by apply Hq | done].
Qed.

Section Ok.
Variables (sl : SkipList K) (l : list (nat * K)).
Hypothesis Hok : sl_ok sl l.

Lemma ok_key a k : (a, k) ∈ l -> node_key sl a = Some k /\ valid k.
Proof. intros H. by destruct (so_node sl l Hok a k H) as (_ & ? & ? & _). Qed.
Lemma ok_not_head a : a ∈ l.*1 -> a <> head_.
Proof. intros ([a' k] & -> & H)%list_elem_of_fmap. by destruct (so_node sl l Hok a' k H). Qed.
Lemma ok_valid q : q ∈ l -> valid q.2.
Proof. destruct q as [a k]. intros H. by eapply ok_key. Qed.

(** The test of the searches for a key. *)
Lemma elem_below key q : q ∈ below l key -> q ∈ l.
Proof. intros H. rewrite (below_above l key), elem_of_app. by left. Qed.
Lemma elem_above key q : q ∈ above l key -> q ∈ l.
Proof. intros H. rewrite (below_above l key), elem_of_app. by right. Qed.
Lemma after_below key q : q ∈ below l key ->
  (k ← node_key sl q.1; c ← compare_ k key; Some (bool_decide (c = Lt))) = Some true.
Proof.
  intros Hq. destruct q as [a k]. cbn [fst]. destruct (ok_key a k) as [-> _]; [by eapply elem_below |].
  cbn [mbind option_bind fst]. apply below_lt in Hq. cbn in Hq. by rewrite Hq.
Qed.
Lemma after_above key q : valid key -> q ∈ above l key ->
  (k ← node_key sl q.1; c ← compare_ k key; Some (bool_decide (c = Lt))) = Some false.
Proof.
  intros Hk Hq. destruct q as [a k]. cbn [fst]. destruct (ok_key a k) as [-> Hv]; [by eapply elem_above |].
  cbn [mbind option_bind fst]. destruct (cmp_some k key Hv Hk) as [c E]. rewrite E. cbn. f_equal. apply bool_decide_eq_false.
  intros ->. apply above_not_lt in Hq; [done | apply Hok | apply ok_valid | done].
Qed.

Lemma FindGreaterOrEqual_spec key : valid key ->
  ∃ prev, FindGreaterOrEqual compare_ sl key = Some (first_addr (above l key), prev) /\
    prev_ok (nodes sl) (max_height_ sl) (below l key) prev.
Proof.
  intros Hk. unfold FindGreaterOrEqual.
  destruct (search_spec sl l _ _ (λ _ next, KeyIsAfterNode compare_ sl key next) Hok (below_above l key)) as (prev & -> & Hp).
  - intros x _. split; [done |]. split; intros q Hq; [by apply after_below | by apply after_above].
  - by exists prev.
Qed.

Lemma FindLessThan_spec key : valid key -> FindLessThan compare_ ndebug sl key = Some (last_addr (below l key)).
Proof.
  intros Hk. unfold FindLessThan.
  edestruct (search_spec sl l (below l key) (above l key)) as (prev & -> & _); [done | apply below_above | | done].
  intros x Hx. cbn beta.
  assert ((if ndebug || bool_decide (x = head_) then Some tt
           else b ← KeyIsAfterNode compare_ sl key (Some x); assert_ ndebug b) = Some tt) as ->.
  { destruct Hx as [-> | ([a k] & -> & Hx)%list_elem_of_fmap]; [by rewrite bool_decide_eq_true_2, orb_true_r by done |].
    destruct (_ || _); [done |]. unfold KeyIsAfterNode. rewrite (after_below key (a, k)) by done. apply assert_true. }
  cbn [mbind option_bind]. split; [done |]. split; intros q Hq; [by apply after_below | by apply after_above].
Qed.

Lemma FindLast_spec : FindLast sl = Some (last_addr l).
Proof.
  unfold FindLast. destruct (search_spec sl l l [] (λ _ next, Some (bool_decide (next <> None))) Hok) as (prev & -> & _); [by rewrite app_nil_r | | done].
  intros x _. split; [done |]. split; intros q Hq; [done | by apply elem_of_nil in Hq].
Qed.
End Ok.

(** ** Insertion *)
Lemma RandomHeight_loop_bound more h rnd : (h <= (RandomHeight_loop more h rnd).1 <= h + more)%nat.
Proof.
  revert h rnd. induction more as [| more IH]; intros h rnd; cbn; [lia |].
  destruct (_ =? 0); [| cbn; lia]. specialize (IH (S h) (Random_Next rnd)). lia.
Qed.
Lemma RandomHeight_bound rnd : (1 <= (RandomHeight rnd).1 <= kMaxHeight)%nat.
Proof. unfold RandomHeight. pose proof (RandomHeight_loop_bound (kMaxHeight - 1) 1 rnd). unfold kMaxHeight in *. lia. Qed.

Lemma fill_prev_spec from h prev i : (h <= length prev)%nat ->
  length (fill_prev from h prev) = length prev /\
  fill_prev from h prev !! i = if decide (from <= i < h)%nat then Some (Some head_) else prev !! i.
Proof.
  intros Hl. unfold fill_prev. remember (h - from)%nat as n eqn:En. revert from prev Hl En.
  induction n as [| n IH]; intros from prev Hl En; cbn [seq foldl].
  { split; [done |]. rewrite decide_False by lia. done. }
  destruct (IH (S from) (<[from:=Some head_]> prev)) as [-> ->]; [by rewrite length_insert | lia |].
  rewrite length_insert. split; [done |].
  destruct (decide (i = from)) as [-> | Hne].
  - rewrite decide_False, decide_True by lia. apply list_lookup_insert_eq. lia.
  - rewrite list_lookup_insert_ne by done. repeat case_decide; try lia; done.
Qed.

(** Two node tables that differ only in links. *)
Definition same_nodes sl sl' : Prop :=
  max_height_ sl' = max_height_ sl /\ sl_rnd sl' = sl_rnd sl /\ length (nodes sl') = length (nodes sl) /\
  (∀ a, height (nodes sl') a = height (nodes sl) a) /\ ∀ a, node_key sl' a = node_key sl a.

Lemma same_nodes_trans sl sl' sl'' : same_nodes sl sl' -> same_nodes sl' sl'' -> same_nodes sl sl''.
Proof.
  intros (E1 & E2 & E3 & E4 & E5) (F1 & F2 & F3 & F4 & F5). split_and!; congruence.
Qed.

Lemma height_lookup ns a i : (i < height ns a)%nat -> ∃ nd v, ns !! a = Some nd /\ next_ nd !! i = Some v.
Proof.
  unfold height. destruct (ns !! a) as [nd |]; [| lia]. intros Hi.
  destruct (lookup_lt_is_Some_2 (next_ nd) i Hi) as [v Ev]. eauto.
Qed.

Lemma SetNext_spec x n v sl : (n < height (nodes sl) x)%nat ->
  ∃ sl', SetNext x n v sl = Some sl' /\ same_nodes sl sl' /\
    ∀ i y, nx (nodes sl') i y = if decide (i = n /\ y = x) then Some v else nx (nodes sl) i y.
Proof.
  intros Hn. destruct (height_lookup _ _ _ Hn) as (nd & w & E & Ew). unfold SetNext. rewrite E. cbn [mbind option_bind].
  rewrite Ew. cbn [mbind option_bind]. eexists. split; [done |].
  assert (x < length (nodes sl))%nat as Hx by by eapply lookup_lt_Some.
  split; [split_and! |]; cbn; try done.
  - by rewrite length_insert.
  - intros a. unfold height. destruct (decide (a = x)) as [-> | Hne].
    + rewrite list_lookup_insert_eq, E by done. cbn. by rewrite length_insert.
    + by rewrite list_lookup_insert_ne.
  - intros a. unfold node_key. cbn. destruct (decide (a = x)) as [-> | Hne].
    + by rewrite list_lookup_insert_eq, E by done.
    + by rewrite list_lookup_insert_ne.
  - intros i y. unfold nx. destruct (decide (y = x)) as [-> | Hne].
    + rewrite list_lookup_insert_eq, E by done. cbn. destruct (decide (i = n)) as [-> | Hi].
      * rewrite decide_True by done. apply list_lookup_insert_eq. by eapply lookup_lt_Some.
      * rewrite decide_False by naive_solver. by rewrite list_lookup_insert_ne by done.
    + rewrite list_lookup_insert_ne by done. by rewrite decide_False by naive_solver.
Qed.

Lemma link_levels_spec x prev (p : nat -> nat) levels sl :
  base.NoDup levels ->
  (∀ i, i ∈ levels -> prev !! i = Some (Some (p i)) /\ p i <> x /\ (i < height (nodes sl) x)%nat /\ (i < height (nodes sl) (p i))%nat) ->
  ∃ sl', link_levels x prev levels sl = Some sl' /\ same_nodes sl sl' /\
    ∀ i y, nx (nodes sl') i y =
      if decide (i ∈ levels) then
        if decide (y = p i) then Some (Some x) else if decide (y = x) then nx (nodes sl) i (p i) else nx (nodes sl) i y
      else nx (nodes sl) i y.
Proof.
  intros Hnd. revert sl. induction Hnd as [| i levels Hi Hnd IH]; intros sl H; cbn [link_levels].
  { exists sl. split; [done |]. split; [done |]. intros i y. by rewrite decide_False by by intros ?%elem_of_nil. }
  destruct (H i) as (-> & Hp & Hx & Hpi); [by left |]. cbn [mbind option_bind].
  destruct (height_lookup _ _ _ Hpi) as (nd & v & End & Ev).
  assert (nx (nodes sl) i (p i) = Some v) as Env by (unfold nx; by rewrite End).
  change (node_next sl (p i) i) with (nx (nodes sl) i (p i)). rewrite Env. cbn [mbind option_bind].
  destruct (SetNext_spec x i v sl Hx) as (sl1 & -> & Hs1 & Hn1). cbn [mbind option_bind].
  destruct (SetNext_spec (p i) i (Some x) sl1) as (sl2 & -> & Hs2 & Hn2). { destruct Hs1 as (_ & _ & _ & -> & _). done. }
  cbn [mbind option_bind]. pose proof (same_nodes_trans _ _ _ Hs1 Hs2) as Hs.
  destruct (IH sl2) as (sl' & -> & Hs' & Hn').
  { intros j Hj. destruct Hs as (_ & _ & _ & Hh & _). rewrite !Hh. apply H. by right. }
  exists sl'. split; [done |]. split; [by eapply same_nodes_trans |]. intros j y. rewrite Hn', !Hn2, !Hn1.
  destruct (decide (j = i)) as [-> | Hne].
  - rewrite (decide_False (P := i ∈ levels)), (decide_True (P := i ∈ i :: levels)) by (done || by left).
    destruct (decide (y = p i)) as [-> | Hy]; [by rewrite decide_True |].
    rewrite decide_False by naive_solver. destruct (decide (y = x)) as [-> | Hyx]; [by rewrite decide_True by done |].
    by rewrite decide_False by naive_solver.
  - rewrite !(decide_False (P := j = i /\ _)) by naive_solver.
    destruct (decide (j ∈ levels)) as [Hj | Hj].
    + rewrite (decide_True (P := j ∈ i :: levels)) by by right. done.
    + rewrite (decide_False (P := j ∈ i :: levels)) by by intros [?|?]%elem_of_cons. done.
Qed.

Lemma StronglySorted_insert (p : nat * K) a b :
  StronglySorted key_lt (a ++ b) -> (∀ q, q ∈ a -> key_lt q p) -> (∀ q, q ∈ b -> key_lt p q) ->
  StronglySorted key_lt (a ++ p :: b).
Proof.
  induction a as [| q a IH]; cbn; intros Hs Ha Hb.
  - constructor; [done |]. by apply list.Forall_forall.
  - apply StronglySorted_inv in Hs as [Hs Hq]. constructor.
    + apply IH; [done | | done]. intros r Hr. apply Ha. by right.
    + rewrite list.Forall_app, list.Forall_cons in *. destruct Hq. split_and!; [done | apply Ha; by left | done].
Qed.

(** The sequence with a new node in its place. *)
Definition inserted sl l (key : K) : list (nat * K) := below l key ++ (length (nodes sl), key) :: above l key.

Section Insert.
Variables (sl : SkipList K) (l : list (nat * K)) (key : K).
Hypotheses (Hok : sl_ok sl l) (Hk : valid key) (Hfresh : ∀ q, q ∈ l -> compare_ q.2 key <> Some Eq).

Let x := length (nodes sl).
Variables (h : nat) (rnd : Z).
Hypothesis Hh : (1 <= h <= kMaxHeight)%nat.
Let sl1 := MkSkipList (nodes sl ++ [MkNode (Some key) (replicate h None)]) (Nat.max (max_height_ sl) h) rnd.

Lemma lt_new a : a = head_ \/ a ∈ l.*1 -> (a < x)%nat.
Proof.
  intros [-> | ([b k] & -> & H)%list_elem_of_fmap].
  - unfold x, head_. rewrite (so_len sl l Hok). lia.
  - destruct (ok_key sl l Hok b k H) as [E _]. unfold node_key in E. destruct (nodes sl !! b) eqn:Eb; [| done].
    by eapply lookup_lt_Some.
Qed.

Lemma height_new a : height (nodes sl1) a = if decide (a = x) then h else height (nodes sl) a.
Proof.
  unfold height, sl1. cbn. case_decide as Ha.
  - subst a. unfold x. rewrite list_lookup_middle by done. cbn. apply length_replicate.
  - destruct (decide (a < x)%nat) as [Hlt | Hge]; [by rewrite lookup_app_l |].
    rewrite (lookup_ge_None_2 (nodes sl ++ _)) by (rewrite length_app; cbn; fold x; lia).
    by rewrite lookup_ge_None_2 by (fold x; lia).
Qed.
Lemma nx_new i y : (y < x)%nat -> nx (nodes sl1) i y = nx (nodes sl) i y.
Proof. intros Hy. unfold nx, sl1. cbn. by rewrite lookup_app_l. Qed.

(** Levels on which the new node does not change which nodes are tall. *)
Lemma tall_same ns i k : (∀ a, a <> x -> height ns a = height (nodes sl) a) -> (∀ p, p ∈ k -> p ∈ l) ->
  tall ns i k = tall (nodes sl) i k.
Proof.
  intros Hns Hkl. induction k as [| p k IH]; [done |]. unfold tall in *. rewrite !list.filter_cons.
  rewrite Hns by (intros E; pose proof (lt_new p.1) as Hp; rewrite E in Hp; apply Nat.lt_irrefl with x, Hp; right;
    rewrite <- E; apply list_elem_of_fmap_2, Hkl; by left).
  rewrite IH by (intros; apply Hkl; by right). done.
Qed.

Lemma above_gt q : q ∈ above l key -> compare_ key q.2 = Some Lt.
Proof.
  intros Hq. pose proof (elem_above l key q Hq) as Hql. pose proof (ok_valid sl l Hok q Hql) as Hv.
  destruct (cmp_some q.2 key Hv Hk) as [[] E].
  - by destruct (Hfresh q).
  - apply above_not_lt in Hq; [done | apply Hok | by apply (ok_valid sl) | done].
  - by apply cmp_flip in E.
Qed.

(** What linking the new node below its height gives. *)
Lemma link_ok prev : prev_ok (nodes sl) (max_height_ sl) (below l key) prev ->
  ∃ sl', link_levels x (fill_prev (max_height_ sl) h prev) (seq 0 h) sl1 = Some sl' /\ sl_ok sl' (inserted sl l key).
Proof.
  intros [Hlen Hprev]. set (p := λ i, last_addr (tall (nodes sl) i (below l key))).
  assert (∀ i, (i < h)%nat -> fill_prev (max_height_ sl) h prev !! i = Some (Some (p i))) as Hfill.
  { intros i Hi. destruct (fill_prev_spec (max_height_ sl) h prev i) as [_ ->]; [lia |]. case_decide.
    - unfold p. destruct (tall (nodes sl) i (below l key)) as [| [a k] t] eqn:E; [done |]. exfalso.
      assert ((a, k) ∈ tall (nodes sl) i (below l key)) as Ht by (rewrite E; by left).
      pose proof (so_node sl l Hok a k (elem_below l key _ (tall_sub _ _ _ _ Ht))).
      apply list_elem_of_filter in Ht as [Ht _]. cbn in Ht. lia.
    - apply Hprev. lia. }
  assert (∀ i, p i = head_ \/ p i ∈ (tall (nodes sl) i (below l key)).*1) as Hp by (intros i; apply last_addr_elem).
  assert (∀ i, p i = head_ \/ p i ∈ l.*1) as Hpl.
  { intros i. destruct (Hp i) as [-> | ([a k] & -> & H)%list_elem_of_fmap]; [by left |]. right.
    apply list_elem_of_fmap_2, (elem_below l key), (tall_sub _ _ _ _ H). }
  assert (∀ i, (i < kMaxHeight)%nat -> (i < height (nodes sl) (p i))%nat) as Hph.
  { intros i Hi. destruct (Hp i) as [-> | ([a k] & -> & H)%list_elem_of_fmap]; [by rewrite (so_head sl l Hok) |].
    by apply list_elem_of_filter in H as [H _]. }
  destruct (link_levels_spec x (fill_prev (max_height_ sl) h prev) p (seq 0 h) sl1) as (sl' & -> & Hs & Hn).
  { apply NoDup_seq. }
  { intros i [_ Hi]%elem_of_seq. pose proof (lt_new (p i) (Hpl i)). rewrite !height_new, decide_True, decide_False by lia.
    split_and!; [by apply Hfill | lia | lia | apply Hph; lia]. }
  exists sl'. split; [done |]. destruct Hs as (Em & _ & El & Ehh & Ek).
  assert (∀ a, height (nodes sl') a = if decide (a = x) then h else height (nodes sl) a) as Eh by (intros; by rewrite Ehh, height_new).
  pose proof (so_max sl l Hok) as Hmax. pose proof (so_nodup sl l Hok) as Hnd.
  assert (x ∉ l.*1) as Hxl by (intros Hx; pose proof (lt_new x (or_intror Hx)); lia).
  rewrite (below_above l key), fmap_app in Hnd, Hxl.
  split.
  - rewrite Eh, decide_False; [apply (so_head sl l Hok) |]. pose proof (lt_new head_ (or_introl eq_refl)). lia.
  - rewrite Em. cbn. lia.
  - intros a k. unfold inserted. rewrite elem_of_app, elem_of_cons. intros Ha. rewrite Ek, Em, Eh. cbn.
    destruct (decide (a = x)) as [-> | Hne].
    + split; [pose proof (lt_new head_ (or_introl eq_refl)); lia |].
      assert (k = key) as ->.
      { destruct Ha as [Ha | [[= ->] | Ha]]; [| done |]; destruct Hxl; apply elem_of_app; [left | right];
          by apply (list_elem_of_fmap_2 fst) in Ha. }
      split; [done |]. split; [| lia]. unfold node_key. cbn. unfold x. by rewrite list_lookup_middle.
    + assert ((a, k) ∈ l) as Hal.
      { destruct Ha as [Ha | [[= ->] | Ha]]; [by eapply elem_below | done | by eapply elem_above]. }
      destruct (so_node sl l Hok a k Hal) as (Ha0 & Hv & E & Hb). split; [done |]. split; [done |]. split; [| lia].
      unfold node_key in *. cbn. rewrite lookup_app_l; [done |]. apply lt_new. right. by apply (list_elem_of_fmap_2 fst) in Hal.
  - apply StronglySorted_insert; [rewrite <- below_above; apply Hok | apply below_lt | apply above_gt].
  - unfold inserted. rewrite fmap_app. cbn. rewrite list.NoDup_app, list.NoDup_cons in *. rewrite elem_of_app in Hxl.
    destruct Hnd as (H1 & H2 & H3). split_and!; [done | | naive_solver | done].
    intros y Hy [-> | Hy']%elem_of_cons; [naive_solver | by eapply H2].
  - intros i Hi. unfold inserted. rewrite tall_app, fmap_app. unfold tall at 2. rewrite list.filter_cons. cbn [fst].
    assert (height (nodes sl') (length (nodes sl)) = h) as -> by (by rewrite Eh, decide_True). fold (tall (nodes sl') i (above l key)).
    rewrite !(tall_same (nodes sl')) by (try (intros a Ha; by rewrite Eh, decide_False); first [apply elem_below | apply elem_above]).
    pose proof (so_chain sl l Hok i Hi) as Hc. rewrite (below_above l key), tall_app, fmap_app in Hc at 1.
    assert (∀ y, y ∈ head_ :: (tall (nodes sl) i (below l key)).*1 ++ (tall (nodes sl) i (above l key)).*1 -> (y < x)%nat) as Hlt.
    { intros y. rewrite elem_of_cons, elem_of_app, !list_elem_of_fmap. intros Hy. apply lt_new.
      destruct Hy as [-> | [(q & -> & Hq) | (q & -> & Hq)]]; [by left | right | right]; apply list_elem_of_fmap_2;
        apply tall_sub in Hq; [by eapply elem_below | by eapply elem_above]. }
    case_decide as Hih.
    + cbn [fmap list_fmap fst]. eapply chain_insert; [| | exact Hc | ..].
      * apply list.NoDup_cons. split.
        -- rewrite <- fmap_app, <- tall_app, <- below_above. intros ([a k] & Ea & H)%list_elem_of_fmap. apply tall_sub in H.
           by destruct (so_node sl l Hok a k H) as [? _].
        -- rewrite <- fmap_app, <- tall_app, <- below_above. pose proof (so_nodup sl l Hok) as Hn0.
           eapply sublist_NoDup; [exact Hn0 |]. apply fmap_sublist, sublist_filter.
      * intros Hx%Hlt. lia.
      * rewrite last_addr_default. intros y Hyp Hyx. rewrite Hn. rewrite decide_True by (apply elem_of_seq; lia).
        rewrite !decide_False by done. unfold nx, sl1. cbn. destruct (decide (y < x)%nat) as [Hy | Hy]; [by rewrite lookup_app_l |].
        rewrite lookup_ge_None_2 by (rewrite length_app; cbn; fold x; lia). by rewrite lookup_ge_None_2 by (fold x; lia).
      * rewrite last_addr_default, Hn. rewrite decide_True by (apply elem_of_seq; lia). by rewrite decide_True.
      * rewrite last_addr_default, Hn. rewrite decide_True by (apply elem_of_seq; lia). fold (p i).
        pose proof (lt_new (p i) (Hpl i)). rewrite decide_False, decide_True by (done || lia). by apply nx_new.
    + eapply chain_ext; [| exact Hc]. intros y Hy. rewrite Hn, decide_False by (rewrite elem_of_seq; lia). by apply nx_new, Hlt.
  - rewrite El. unfold sl1, inserted. cbn. rewrite !length_app. cbn. rewrite (so_len sl l Hok).
    rewrite (below_above l key) at 1. rewrite length_app. lia.
Qed.
End Insert.

Lemma Insert_ok sl l key : sl_ok sl l -> valid key -> (∀ q, q ∈ l -> compare_ q.2 key <> Some Eq) ->
  ∃ sl', Insert compare_ ndebug key sl = Some sl' /\ sl_ok sl' (inserted sl l key).
Proof.
  intros Hok Hk Hf. unfold Insert. destruct (FindGreaterOrEqual_spec sl l Hok key Hk) as (prev & -> & Hp). cbn [mbind option_bind].
  destruct (RandomHeight (sl_rnd sl)) as [h rnd] eqn:Eh. pose proof (RandomHeight_bound (sl_rnd sl)) as Hh. rewrite Eh in Hh. cbn in Hh.
  destruct (link_ok sl l key Hok Hk Hf h rnd Hh prev Hp) as (sl' & El & Hok').
  destruct ndebug; cbn [mbind option_bind]; [by exists sl' |].
  unfold first_addr. destruct (above l key) as [| [a k] t] eqn:Ea; cbn [fmap option_fmap option_map list.head fst]; [by exists sl' |].
  assert ((a, k) ∈ l) as Hal by (apply (elem_above l key); rewrite Ea; by left).
  destruct (ok_key sl l Hok a k Hal) as [-> Hv]. cbn [mbind option_bind]. unfold Equal.
  destruct (cmp_some key k Hk Hv) as [c Ec]. rewrite Ec. cbn [mbind option_bind].
  rewrite bool_decide_eq_false_2; [rewrite assert_bool by done; by exists sl' |].
  intros ->. apply cmp_flip in Ec; [| done..]. by apply (Hf (a, k) Hal).
Qed.
End Facts.

(** * Skip lists are sorted sequences *)

Section Props.
Context {K : Type} (compare_ : K -> K -> option comparison) (valid : K -> Prop) `{!OrderOn compare_ valid}.
Variable ndebug : bool.
Implicit Types (sl : SkipList K) (l : list (nat * K)).

Lemma new_SkipList_ok : sl_ok compare_ valid new_SkipList [].
Proof.
  split; cbn; try done.
  - unfold kMaxHeight. lia.
  - intros a k H. by apply elem_of_nil in H.
  - constructor.
  - constructor.
  - intros i Hi. unfold kMaxHeight in Hi. do 12 (destruct i as [| i]; [done |]). lia.
Qed.

(** ** The iterator walks the sequence *)
Definition it_at l (n : nat) : option nat := fst <$> l !! n.

Section Ok.
Variables (sl : SkipList K) (l : list (nat * K)).
Hypothesis Hok : sl_ok compare_ valid sl l.

Lemma it_key_at n : (n < length l)%nat -> it_key sl (it_at l n) = snd <$> l !! n.
Proof.
  intros Hn. unfold it_at. destruct (lookup_lt_is_Some_2 l n Hn) as [[a k] E]. rewrite E. cbn.
  destruct (ok_key _ _ sl l Hok a k) as [-> _]; [by eapply list_elem_of_lookup_2 | done].
Qed.

Lemma it_Next_at n : (n < length l)%nat -> it_Next sl (it_at l n) = Some (it_at l (S n)).
Proof.
  intros Hn. unfold it_at. destruct (lookup_lt_is_Some_2 l n Hn) as [[a k] E]. rewrite E. cbn.
  pose proof (so_chain _ _ sl l Hok 0 ltac:(unfold kMaxHeight; lia)) as Hc.
  rewrite (tall_0 _ _ _ _ l Hok) in Hc by done.
  rewrite <- (take_drop (S n) l), fmap_app in Hc. apply chain_app in Hc. erewrite take_S_r, fmap_app, list.last_app in Hc by done.
  cbn in Hc. apply chain_head in Hc. change (node_next sl a 0) with (nx (nodes sl) 0 a). rewrite Hc. f_equal.
  rewrite <- (Nat.add_0_r (S n)) at 2. rewrite <- lookup_drop. by destruct (drop (S n) l).
Qed.

Lemma it_Seek_at target : valid target -> it_Seek compare_ sl target = Some (it_at l (length (below compare_ l target))).
Proof.
  intros Ht. unfold it_Seek. destruct (FindGreaterOrEqual_spec _ _ sl l Hok target Ht) as (prev & -> & _). cbn. f_equal.
  unfold it_at. rewrite <- (Nat.add_0_r (length _)). unfold above. rewrite <- lookup_drop. by destruct (drop _ l).
Qed.

Lemma it_SeekToFirst_at : it_SeekToFirst sl = Some (it_at l 0).
Proof.
  pose proof (so_chain _ _ sl l Hok 0 ltac:(unfold kMaxHeight; lia)) as Hc.
  rewrite (tall_0 _ _ _ _ l Hok) in Hc by done. apply chain_head in Hc. unfold it_SeekToFirst.
  change (node_next sl head_ 0) with (nx (nodes sl) 0 head_). rewrite Hc. unfold it_at. by destruct l.
Qed.

Lemma not_head_last l' : (∀ p, p ∈ l' -> p ∈ l) -> not_head (last_addr l') = it_at l' (length l' - 1).
Proof.
  intros Hl. unfold not_head, it_at. destruct l' as [| [a k] l' _] using rev_ind; [done |].
  rewrite length_app. cbn [length]. rewrite Nat.add_sub, list_lookup_middle by done. rewrite last_addr_app. cbn.
  rewrite decide_False; [done |]. eapply (ok_not_head _ _ sl l Hok).
  change a with (fst (a, k)). apply list_elem_of_fmap_2, Hl, elem_of_app. right. by left.
Qed.

Lemma it_SeekToLast_at : it_SeekToLast sl = Some (it_at l (length l - 1)).
Proof. unfold it_SeekToLast. erewrite FindLast_spec by done. cbn. f_equal. by apply not_head_last. Qed.

Lemma below_nth n a k : l !! n = Some (a, k) -> below compare_ l k = take n l.
Proof.
  pose proof (so_sorted _ _ sl l Hok) as Hs. pose proof (ok_valid _ _ sl l Hok) as Hv. clear Hok.
  revert n. induction Hs as [| p l' Hs IH Hp]; intros [| n]; cbn; [done | done | |].
  - intros [= ->]. cbn. rewrite decide_False; [done |]. rewrite (cmp_refl k); [done |]. apply (Hv (a, k)). by left.
  - intros E. rewrite decide_True by (rewrite list.Forall_forall in Hp; apply (Hp (a, k)); by eapply list_elem_of_lookup_2).
    f_equal. apply IH; [| done]. intros q Hq. apply Hv. by right.
Qed.

Lemma it_Prev_at n : (n < length l)%nat ->
  it_Prev compare_ ndebug sl (it_at l n) = Some (if decide (n = 0%nat) then None else it_at l (n - 1)).
Proof.
  intros Hn. unfold it_at at 1. destruct (lookup_lt_is_Some_2 l n Hn) as [[a k] E]. rewrite E. cbn.
  assert ((a, k) ∈ l) as Hin by by eapply list_elem_of_lookup_2.
  destruct (ok_key _ _ sl l Hok a k Hin) as [-> Hv]. cbn. rewrite (FindLessThan_spec _ valid _ sl l Hok) by done.
  cbn. f_equal. rewrite (below_nth n a k E). rewrite not_head_last by (by intros p (i & Hi & _)%elem_of_take; eapply list_elem_of_lookup_2).
  rewrite length_take_le by lia. unfold it_at. destruct n as [| n]; [done |]. cbn [decide]. rewrite decide_False by done.
  by rewrite lookup_take_lt by lia.
Qed.

Lemma Contains_spec key : valid key ->
  ∃ b, Contains compare_ sl key = Some b /\ (b = true <-> ∃ q, q ∈ l /\ compare_ q.2 key = Some Eq).
Proof.
  intros Hk. unfold Contains. destruct (FindGreaterOrEqual_spec _ _ sl l Hok key Hk) as (prev & -> & _). cbn [mbind option_bind].
  assert (∀ q, q ∈ l -> compare_ q.2 key = Some Eq -> q ∈ above compare_ l key) as Habove.
  { intros q Hq E. rewrite (below_above compare_ l key), elem_of_app in Hq. destruct Hq as [Hq%below_lt | Hq]; [congruence | done]. }
  unfold first_addr. destruct (above compare_ l key) as [| [a k] t] eqn:Ea; cbn [fmap option_fmap option_map list.head fst].
  - exists false. split; [done |]. split; [done |]. intros (q & Hq & E). specialize (Habove q Hq E). by apply elem_of_nil in Habove.
  - assert ((a, k) ∈ above compare_ l key) as Hab by (rewrite Ea; by left).
    pose proof (elem_above compare_ l key _ Hab) as Hal. destruct (ok_key _ _ sl l Hok a k Hal) as [-> Hv]. cbn [mbind option_bind]. unfold Equal.
    destruct (cmp_some key k Hk Hv) as [c Ec]. rewrite Ec. cbn [mbind option_bind]. eexists. split; [done |].
    rewrite bool_decide_eq_true. split.
    + intros ->. exists (a, k). split; [done |]. by apply (cmp_eq_sym key k).
    + intros (q & Hq & E). pose proof (ok_valid _ _ sl l Hok q Hq) as Hvq. specialize (Habove q Hq E).
      apply elem_of_cons in Habove as [-> | Ht]; [apply cmp_eq_sym in E; [| done..]; cbn in E; congruence |]. exfalso.
      pose proof (so_sorted _ _ sl l Hok) as Hs. rewrite (below_above compare_ l key), Ea in Hs.
      apply StronglySorted_app in Hs as (_ & _ & Hs). apply StronglySorted_inv in Hs as [_ Hs].
      rewrite list.Forall_forall in Hs. specialize (Hs q Ht). apply (above_not_lt compare_ valid l key (a, k));
        [apply Hok | exact (ok_valid compare_ valid sl l Hok) | done | done |].
      by apply (cmp_eq_r k q.2 key).
Qed.
End Ok.

Fixpoint inserts sl (ks : list K) : option (SkipList K) :=
  match ks with [] => Some sl | k :: ks => sl ← Insert compare_ ndebug k sl; inserts sl ks end.
(** No two keys of the sequence are equal for the comparison. *)
Fixpoint distinct (ks : list K) : Prop :=
  match ks with [] => True | k :: ks => (∀ k', k' ∈ ks -> compare_ k k' <> Some Eq) /\ distinct ks end.

Lemma inserted_perm sl l key : inserted compare_ sl l key ≡ₚ (length (nodes sl), key) :: l.
Proof. unfold inserted. rewrite (below_above compare_ l key) at 3. symmetry. apply Permutation_middle. Qed.

Lemma inserts_ok sl l ks :
  sl_ok compare_ valid sl l -> Forall valid ks -> distinct ks ->
  (∀ k q, k ∈ ks -> q ∈ l -> compare_ q.2 k <> Some Eq) ->
  ∃ sl' l', inserts sl ks = Some sl' /\ sl_ok compare_ valid sl' l' /\ l'.*2 ≡ₚ ks ++ l.*2.
Proof.
  revert sl l. induction ks as [| k ks IH]; intros sl l Hok Hv Hd Hf; [by exists sl, l |].
  apply list.Forall_cons in Hv as [Hk Hv]. destruct Hd as [Hkd Hd]. cbn [inserts].
  destruct (Insert_ok compare_ valid ndebug sl l k Hok Hk) as (sl1 & -> & Hok1). { intros q Hq. apply Hf; [by left | done]. }
  cbn [mbind option_bind]. pose proof (inserted_perm sl l k) as Hp.
  destruct (IH sl1 (inserted compare_ sl l k)) as (sl' & l' & E & Hok' & Hp'); [done.. | |].
  { intros k' q Hk' Hq. rewrite Hp, elem_of_cons in Hq. destruct Hq as [-> | Hq]; [by apply Hkd | apply Hf; [by right | done]]. }
  exists sl', l'. split; [done |]. split; [done |]. rewrite Hp', Hp. cbn. by rewrite Permutation_middle.
Qed.
End Props.

Arguments inserts {K}. Arguments distinct {K}.

(** C24. A skip list is a sorted sequence, whatever heights the generator draws.  Inserting keys of which no two
    are equal succeeds, the searches end, and the list holds exactly these keys in increasing order: [Contains] is
    membership, [Seek] stops at the first key that is not below its target, [SeekToFirst] and [SeekToLast] at the
    ends, and [Next] and [Prev] step to the neighbour, or to no node at the ends. *)
Theorem SkipList_sorted {K} (compare_ : K -> K -> option comparison) (valid : K -> Prop) `{!OrderOn compare_ valid} ndebug ks :
  Forall valid ks -> distinct compare_ ks ->
  ∃ sl l, inserts compare_ ndebug new_SkipList ks = Some sl /\
    l.*2 ≡ₚ ks /\ StronglySorted (λ a b, compare_ a b = Some Lt) l.*2 /\
    (∀ n, (n < length l)%nat ->
       it_key sl (it_at l n) = l.*2 !! n /\ it_Next sl (it_at l n) = Some (it_at l (S n)) /\
       it_Prev compare_ ndebug sl (it_at l n) = Some (if decide (n = 0%nat) then None else it_at l (n - 1))) /\
    it_SeekToFirst sl = Some (it_at l 0) /\ it_SeekToLast sl = Some (it_at l (length l - 1)) /\
    ∀ target, valid target ->
      (∃ b, Contains compare_ sl target = Some b /\ (b = true <-> ∃ k, k ∈ ks /\ compare_ k target = Some Eq)) /\
      ∃ n, it_Seek compare_ sl target = Some (it_at l n) /\
        ∀ i k, l.*2 !! i = Some k -> (i < n)%nat <-> compare_ k target = Some Lt.
Proof.
  intros Hv Hd. destruct (inserts_ok compare_ valid ndebug new_SkipList [] ks) as (sl & l & E & Hok & Hp);
    [apply new_SkipList_ok | done.. | by intros ? ? _ ?%elem_of_nil |]. rewrite app_nil_r in Hp.
  exists sl, l. split; [exact E |]. split; [exact Hp |]. split; [| split; [| split; [| split]]].
  - pose proof (so_sorted _ _ sl l Hok) as Hs. clear -Hs. induction Hs as [| p l Hs IH Hq]; cbn; constructor; [done |].
    by apply list.Forall_fmap.
  - intros n Hn. split_and!.
    + erewrite it_key_at by done. by rewrite list_lookup_fmap.
    + by eapply it_Next_at.
    + by eapply it_Prev_at.
  - by eapply it_SeekToFirst_at.
  - by eapply it_SeekToLast_at.
  - intros target Ht. split.
    + destruct (Contains_spec compare_ valid sl l Hok target Ht) as (b & Eb & Hb). exists b. split; [done |].
      rewrite Hb. setoid_rewrite <- Hp. split; [intros (q & Hq & Ec) | intros (k & (q & -> & Hq)%list_elem_of_fmap & Ec)].
      * exists q.2. split; [by apply list_elem_of_fmap_2 | done].
      * by exists q.
    + exists (length (below compare_ l target)). split; [by eapply it_Seek_at |]. intros i k Ei.
      rewrite list_lookup_fmap in Ei. destruct (l !! i) as [q |] eqn:Eq; [| done]. injection Ei as <-.
      rewrite (below_above compare_ l target) in Eq. split; intros H.
      * rewrite lookup_app_l in Eq by done. apply list_elem_of_lookup_2 in Eq. by eapply below_lt.
      * destruct (decide (i < length (below compare_ l target))%nat); [done |]. rewrite lookup_app_r in Eq by lia.
        apply list_elem_of_lookup_2 in Eq. exfalso. eapply (above_not_lt compare_ valid l target q); [apply Hok | exact (ok_valid compare_ valid sl l Hok) | done..].
Qed.

(** The order of numbers, for the example. *)
#[export] Instance Z_order : OrderOn (λ a b : Z, Some (Z.compare a b)) (λ _, True).
Proof.
  split; intros *.
  - by eexists.
  - by rewrite Z.compare_refl.
  - intros _ _ [= <-]. by rewrite Z.compare_antisym.
  - intros _ _ _ [= H1] [= H2]. rewrite Z.compare_lt_iff in H1, H2. f_equal. apply Z.compare_lt_iff. lia.
  - intros _ _ _ [= ->%Z.compare_eq]. done.
Qed.

Lemma SkipList_sorted_witness :
  ∃ sl, inserts (λ a b : Z, Some (Z.compare a b)) false new_SkipList [5; 3; 9] = Some sl /\
    Contains (λ a b : Z, Some (Z.compare a b)) sl 9 = Some true.
Proof.
  destruct (SkipList_sorted (λ a b : Z, Some (Z.compare a b)) (λ _, True) false [5; 3; 9])
    as (sl & l & E & _ & _ & _ & _ & _ & H).
  { repeat constructor. } { cbn. split_and!; try done; intros k'; rewrite ?elem_of_cons, ?elem_of_nil; intros H; naive_solver. }
  exists sl. split; [exact E |]. destruct (H 9 I) as [(b & Eb & Hb) _]. rewrite Eb. f_equal. apply Hb.
  exists 9. split; [right; right; left | reflexivity].
Defined.
