(* ===== verification/History.v ===== *)
(** * Versions of keys: the abstract contents of a database

    Memtables and tables hold entries: a user key, a sequence number, a type and a value.
    A reader with snapshot [s] sees, for each key, the entry with the greatest sequence number
    up to [s]; a deletion hides what is older. *)
From S2P Require Import Prelude Keys Comparator.

Record Entry := MkEntry { e_key : Slice; e_seq : Z; e_type : ValueType; e_value : Slice }.
#[global] Instance Entry_eq_dec : EqDecision Entry.
Proof. solve_decision. Defined.

Section History.
Context {C : Comparator}.
Implicit Types (h : list Entry) (e : Entry).

Definition same_key (u v : Slice) : bool := bool_decide (Compare u v = Some Eq).
(** The entries a reader of [k] at [s] may see. *)
Definition matches (k : Slice) (s : Z) e : bool := same_key (e_key e) k && (e_seq e <=? s).

Fixpoint latest (k : Slice) (s : Z) h : option Entry :=
  match h with
  | [] => None
  | e :: h =>
      if matches k s e then
        match latest k s h with
        | Some e' => if e_seq e' <? e_seq e then Some e else Some e'
        | None => Some e
        end
      else latest k s h
  end.
(** What a reader is given: a value, or nothing. *)
Definition view (h : list Entry) (k : Slice) (s : Z) : option Slice :=
  e ← latest k s h; match e_type e with kTypeValue => Some (e_value e) | kTypeDeletion => None end.

Definition is_latest h (k : Slice) (s : Z) e : Prop :=
  e ∈ h /\ matches k s e = true /\ ∀ e', e' ∈ h -> matches k s e' = true -> e_seq e' <= e_seq e.

Lemma latest_Some h k s e : latest k s h = Some e -> is_latest h k s e.
Proof.
  revert e. induction h as [| x h IH]; intros e; cbn; [done |]. destruct (matches k s x) eqn:Ex.
  - destruct (latest k s h) as [e' |] eqn:El.
    + destruct (IH e' eq_refl) as (Hin & Hm & Hmax). destruct (Z.ltb_spec (e_seq e') (e_seq x)); intros [= <-].
      * split; [by left |]. split; [done |]. intros y [-> | Hy]%elem_of_cons ?; [lia |]. specialize (Hmax y Hy). lia || (assert (e_seq y <= e_seq e') by auto; lia).
      * split; [by right |]. split; [done |]. intros y [-> | Hy]%elem_of_cons ?; [lia | by apply Hmax].
    + intros [= <-]. split; [by left |]. split; [done |]. intros y [-> | Hy]%elem_of_cons Hm; [lia |]. exfalso.
      clear -El Hy Hm. induction h as [| z h IH]; [by apply elem_of_nil in Hy |]. cbn in El.
      apply elem_of_cons in Hy as [<- | Hy]; [| destruct (matches k s z); [| by apply IH]];
        rewrite ?Hm in El; destruct (latest k s h); repeat case_match; done.
  - intros (Hin & Hm & Hmax)%IH. split; [by right |]. split; [done |]. intros y [-> | Hy]%elem_of_cons ?; [congruence | by apply Hmax].
Qed.

Lemma latest_None h k s : latest k s h = None <-> ∀ e, e ∈ h -> matches k s e = false.
Proof.
  induction h as [| x h IH]; cbn; [split; [by intros _ e ?%elem_of_nil | done] |].
  destruct (matches k s x) eqn:Ex.
  - split; [destruct (latest k s h); repeat case_match; done |]. intros H. rewrite H in Ex; [done | by left].
  - rewrite IH. split; intros H e; [intros [-> | He]%elem_of_cons; auto |]. intros He. apply H. by right.
Qed.

(** Sequence numbers are given once. *)
Lemma seq_inj h e e' : base.NoDup (e_seq <$> h) -> e ∈ h -> e' ∈ h -> e_seq e = e_seq e' -> e = e'.
Proof.
  intros Hnd (i & Hi)%list_elem_of_lookup (j & Hj)%list_elem_of_lookup E.
  assert (i = j) as ->; [| congruence].
  eapply (NoDup_lookup (e_seq <$> h)); [done | by rewrite list_lookup_fmap, Hi | by rewrite list_lookup_fmap, Hj, E].
Qed.

Lemma latest_is_latest h k s e : base.NoDup (e_seq <$> h) -> is_latest h k s e -> latest k s h = Some e.
Proof.
  intros Hnd (Hin & Hm & Hmax). destruct (latest k s h) as [e' |] eqn:E.
  - apply latest_Some in E as (Hin' & Hm' & Hmax'). f_equal. eapply seq_inj; [done.. |].
    specialize (Hmax _ Hin' Hm'). specialize (Hmax' _ Hin Hm). lia.
  - rewrite latest_None in E. rewrite E in Hm; done.
Qed.

Lemma latest_perm h h' k s : base.NoDup (e_seq <$> h) -> h ≡ₚ h' -> latest k s h = latest k s h'.
Proof.
  intros Hnd Hp. destruct (latest k s h') as [e |] eqn:E.
  - apply latest_is_latest; [done |]. apply latest_Some in E as (? & ? & Hmax).
    split; [by rewrite Hp |]. split; [done |]. intros e' He'. apply Hmax. by rewrite <- Hp.
  - rewrite latest_None in *. intros e He. apply E. by rewrite <- Hp.
Qed.

(** Newer entries first: they decide where they have an entry for the key. *)
Lemma latest_app h h' k s :
  (∀ e e', e ∈ h -> e' ∈ h' -> same_key (e_key e) k = true -> same_key (e_key e') k = true -> e_seq e' < e_seq e) ->
  latest k s (h ++ h') = match latest k s h with Some e => Some e | None => latest k s h' end.
Proof.
  intros H. induction h as [| x h IH]; [done |]. cbn. rewrite IH by (intros e e' He; apply H; by right).
  destruct (matches k s x) eqn:Ex; [| done]. destruct (latest k s h); [by repeat case_match |].
  destruct (latest k s h') as [e' |] eqn:E'; [| done]. apply latest_Some in E' as (Hin & Hm & _).
  unfold matches in Ex, Hm. bool_hyps. assert (e_seq e' < e_seq x) by (apply H; [by left | done..]).
  by rewrite (proj2 (Z.ltb_lt _ _)).
Qed.
End History.
