(* ===== verification/MemTable.v ===== *)
(** * Memtables ([leveldb/db/memtable.h], [memtable.cc]) and the buffers of readers ([leveldb/types.h])

    A memtable is a skip list of entries, each a byte string in the arena: the length of an
    internal key, the key, the length of a value and the value. *)
From stdpp Require Import sorting.
From S2P Require Import Prelude Status Coding Comparator SkipList.

(** ** Buffers *)
Class Buffer (B : Type) := { Fill : B -> Slice -> B }.

(** [StringBuf]: the string; nothing is assigned for a value of size 0. *)
#[global] Instance StringBuf : Buffer Slice := { Fill s data := if negb (|[data]| =? 0) then data else s }.

(** [DirectBuf]: the size of the area, and what [Read] returns: the size of the data, and the data if there was room. *)
Record DirectBuf := MkDirectBuf { db_size : Z; db_data : Z * option Slice }.
#[global] Instance DirectBuf_Buffer : Buffer DirectBuf := {
  Fill b data :=
    MkDirectBuf (db_size b) (if |[data]| >? db_size b then (|[data]|, None) else (|[data]|, Some data))
}.

(** ** Memtables *)
Record MemTable := MkMemTable { refs_ : Z; table_ : SkipList Slice }.

(** The parser of a length-prefixed string at a pointer: a malformed one is read out of bounds. *)
Definition LengthPrefixed (data : Slice) : option Slice :=
  '(len, p) ← GetVarint32Ptr data; if len <=? |[p]| then Some (take (Z.to_nat len) p) else None.

Section MemTable.
Variable ndebug : bool.
Context (C : Comparator).

Definition KeyComparator (aptr bptr : Slice) : option comparison :=
  a ← LengthPrefixed aptr; b ← LengthPrefixed bptr; InternalKey_Compare C a b.

Definition new_MemTable : MemTable := MkMemTable 0 new_SkipList.
Definition MemTable_Ref (m : MemTable) : MemTable := MkMemTable (refs_ m + 1) (table_ m).
(** The inner [None] is a table that is deleted. *)
Definition MemTable_Unref (m : MemTable) : option (option MemTable) :=
  let refs := refs_ m - 1 in
  _ ← assert_ ndebug (0 <=? refs);
  if refs <=? 0 then _ ← assert_ ndebug (refs =? 0); Some None else Some (Some (MkMemTable refs (table_ m))).

(** The entry [Add] writes. *)
Definition entry_bytes (s : Z) (type : ValueType) (key value : Slice) : Slice :=
  EncodeVarint32 (u32 (|[key]| + 8)) ++ key ++ EncodeFixed64 (Z.lor (u64 (Z.shiftl s 8)) (ValueType_num type)) ++
  EncodeVarint32 (u32 (|[value]|)) ++ value.

Definition MemTable_Add (s : Z) (type : ValueType) (key value : Slice) (m : MemTable) : option MemTable :=
  let encoded_len := VarintLength (|[key]| + 8) + (|[key]| + 8) + VarintLength (|[value]|) + |[value]| in
  let buf := entry_bytes s type key value in
  _ ← assert_ ndebug (|[buf]| =? encoded_len);
  t ← Insert KeyComparator ndebug buf (table_ m); Some (MkMemTable (refs_ m) t).

(** The inner [None] is the result [false]; otherwise the status and the buffer. *)
Definition MemTable_Get {B} `{Buffer B} (m : MemTable) (key : LookupKey) (buf : B) (limit : Z) (s : Status)
    : option (option (Status * B)) :=
  iter ← it_Seek KeyComparator (table_ m) (memtable_key key);
  if it_Valid iter then
    entry ← it_key (table_ m) iter;
    '(key_length, key_ptr) ← GetVarint32Ptr entry;
    ikey ← (if (8 <=? key_length) && (key_length <=? |[key_ptr]|) then Some (take (Z.to_nat key_length) key_ptr) else None);
    u ← ExtractUserKey ikey;
    r ← @Compare C u (lookup_user_key key);
    if bool_decide (r = Eq) then
      tag ← ExtractTag ikey;
      match to_ValueType (Z.land tag 0xff) with
      | Some kTypeValue =>
          v ← LengthPrefixed (drop (Z.to_nat key_length) key_ptr);
          Some (Some (s, Fill buf (take (Z.to_nat (Z.min (|[v]|) limit)) v)))
      | Some kTypeDeletion => Some (Some (MkStatus kNotFound [] [], buf))
      | None => Some None
      end
    else Some None
  else Some None.

(** [MemTableIterator]: the position in the skip list. *)
Definition EncodeKey (target : Slice) : Slice := EncodeVarint32 (u32 (|[target]|)) ++ target.
Definition mit_Seek (m : MemTable) (k : Slice) : option (option nat) := it_Seek KeyComparator (table_ m) (EncodeKey k).
Definition mit_key (m : MemTable) (it : option nat) : option Slice := e ← it_key (table_ m) it; LengthPrefixed e.
Definition mit_value (m : MemTable) (it : option nat) : option Slice :=
  e ← it_key (table_ m) it; '(len, p) ← GetVarint32Ptr e;
  if len <=? |[p]| then LengthPrefixed (drop (Z.to_nat len) p) else None.
End MemTable.
