(* ===== verification/MemTableProps.v ===== *)
(** * Memtables hold versions

    [mem_ok m h] says that the memtable [m] holds the entries [h]; [MemTable_Add] adds one and
    [MemTable_Get] finds the latest that a snapshot may see. *)
From stdpp Require Import sorting.
From S2P Require Import Prelude Status Coding Comparator SkipList SkipListProps.
From S2P Require Import History MemTable.

Lemma LengthPrefixed_fst data : LengthPrefixed data = fst <$> GetLengthPrefixedSlice data.
Proof.
  unfold LengthPrefixed, GetLengthPrefixedSlice, GetVarint32. destruct (GetVarint32Ptr data) as [[len p] |]; [| done].
  cbn. by destruct (len <=? _).
Qed.
Lemma LengthPrefixed_encode k rest : |[k]| < 2 ^ 32 -> LengthPrefixed (EncodeLengthPrefixedSlice k ++ rest) = Some k.
Proof. intros Hk. by rewrite LengthPrefixed_fst, GetLengthPrefixedSlice_encode. Qed.

Lemma size_word s : |[s]| < 2 ^ 32 -> word 32 (|[s]|).
Proof. split; [apply slice_size_nonneg | done]. Qed.

Section MemProps.
Context (ndebug : bool) (C : Comparator) (valid : Slice -> Prop) `{!ComparatorLaws C valid}.
Implicit Types (h : list Entry) (e : Entry) (m : MemTable).

(** Entries whose lengths and sequence numbers fit. *)
Definition valid_entry e : Prop :=
  valid (e_key e) /\ word 56 (e_seq e) /\ |[e_key e]| + 8 < 2 ^ 32 /\ |[e_value e]| < 2 ^ 32.
Definition entry_key e : Slice := ikey (e_key e) (tag (e_seq e) (e_type e)).
Definition entry_of e : Slice := entry_bytes (e_seq e) (e_type e) (e_key e) (e_value e).
Definition valid_mem (b : Slice) : Prop :=
  ∃ k rest, b = EncodeLengthPrefixedSlice k ++ rest /\ valid_ikey valid k /\ |[k]| < 2 ^ 32.

Lemma size_ikey u n : |[ikey u n]| = |[u]| + 8.
Proof. unfold slice_size. rewrite length_ikey. lia. Qed.

Lemma entry_key_valid e : valid_entry e -> valid_ikey valid (entry_key e).
Proof. intros (Hk & Hs & _). exists (e_key e), (tag (e_seq e) (e_type e)). split_and!; [done.. | by apply tag_word]. Qed.

Lemma entry_of_eq e : valid_entry e ->
  entry_of e = EncodeLengthPrefixedSlice (entry_key e) ++ EncodeLengthPrefixedSlice (e_value e).
Proof.
  intros (Hk & Hs & Hl & Hv). unfold entry_of, entry_bytes, entry_key, EncodeLengthPrefixedSlice. rewrite size_ikey, tag_lor by done.
  unfold ikey. by rewrite <- !app_assoc.
Qed.
Lemma entry_of_valid e : valid_entry e -> valid_mem (entry_of e).
Proof.
  intros He. rewrite entry_of_eq by done. do 2 eexists. split; [done |]. split; [by apply entry_key_valid |].
  unfold entry_key. rewrite size_ikey. apply He.
Qed.

Lemma KeyComparator_encode a b r r' : |[a]| < 2 ^ 32 -> |[b]| < 2 ^ 32 ->
  KeyComparator C (EncodeLengthPrefixedSlice a ++ r) (EncodeLengthPrefixedSlice b ++ r') = InternalKey_Compare C a b.
Proof. intros Ha Hb. unfold KeyComparator. by rewrite !LengthPrefixed_encode. Qed.

#[global] Instance KeyComparator_order : OrderOn (KeyComparator C) valid_mem.
Proof.
  split.
  - intros ? ? (a & r & -> & Ha & La) (b & r' & -> & Hb & Lb). rewrite KeyComparator_encode by done. by apply (cmp_some a b).
  - intros ? (a & r & -> & Ha & La). rewrite KeyComparator_encode by done. by apply (cmp_refl a).
  - intros ? ? c (a & r & -> & Ha & La) (b & r' & -> & Hb & Lb). rewrite !KeyComparator_encode by done. by apply (cmp_flip a b).
  - intros ? ? ? (a & r & -> & Ha & La) (b & r' & -> & Hb & Lb) (d & r'' & -> & Hd & Ld). rewrite !KeyComparator_encode by done.
    by apply (cmp_trans a b d).
  - intros ? ? ? c (a & r & -> & Ha & La) (b & r' & -> & Hb & Lb) (d & r'' & -> & Hd & Ld). rewrite !KeyComparator_encode by done.
    by apply (cmp_eq a b d).
Qed.

(** ** Adding *)
Record mem_ok m h : Prop := {
  mo_list : ∃ l, sl_ok (KeyComparator C) valid_mem (table_ m) l /\ l.*2 ≡ₚ entry_of <$> h;
  mo_valid : Forall valid_entry h;
  mo_seq : base.NoDup (e_seq <$> h)
}.

Lemma new_MemTable_ok : mem_ok new_MemTable [].
Proof. split; [| constructor | constructor]. exists []. split; [apply new_SkipList_ok | done]. Qed.

Lemma encoded_len_ok s t k v : word 56 s -> |[k]| + 8 < 2 ^ 32 -> |[v]| < 2 ^ 32 ->
  |[entry_bytes s t k v]| = VarintLength (|[k]| + 8) + (|[k]| + 8) + VarintLength (|[v]|) + |[v]|.
Proof.
  intros Hs Hk Hv. unfold entry_bytes. rewrite !slice_size_app, !VarintLength_length.
  pose proof (slice_size_nonneg k). assert (word 32 (|[k]| + 8)) as Hw by (split; lia). pose proof (size_word v Hv) as Hw'.
  unfold u32. rewrite !wrap_small, !EncodeVarint32_loop by done.
  change (|[EncodeFixed64 ?x]|) with 8. lia.
Qed.

Lemma entry_key_compare e e' : valid_entry e -> valid_entry e' ->
  InternalKey_Compare C (entry_key e) (entry_key e') =
    r ← Compare (e_key e) (e_key e'); Some (ikey_compare r (tag (e_seq e) (e_type e)) (tag (e_seq e') (e_type e'))).
Proof. intros He He'. apply InternalKey_Compare_ikey; apply tag_word; [apply He | apply He']. Qed.

Lemma entry_compare e e' : valid_entry e -> valid_entry e' ->
  KeyComparator C (entry_of e) (entry_of e') = InternalKey_Compare C (entry_key e) (entry_key e').
Proof.
  intros He He'. rewrite !entry_of_eq by done. apply KeyComparator_encode; unfold entry_key; rewrite size_ikey; [apply He | apply He'].
Qed.

Lemma entry_compare_seq e e' : valid_entry e -> valid_entry e' ->
  KeyComparator C (entry_of e) (entry_of e') = Some Eq -> e_seq e = e_seq e'.
Proof.
  intros He He'. rewrite entry_compare, entry_key_compare by done. destruct (Compare _ _) as [[] |]; try done.
  cbn. intros [= E%Z.compare_eq]. rewrite <- (tag_shiftr (e_seq e) (e_type e)), <- E. apply tag_shiftr.
Qed.

Lemma MemTable_Add_ok m h e : mem_ok m h -> valid_entry e -> e_seq e ∉ (e_seq <$> h) ->
  ∃ m', MemTable_Add ndebug C (e_seq e) (e_type e) (e_key e) (e_value e) m = Some m' /\ mem_ok m' (e :: h) /\ refs_ m' = refs_ m.
Proof.
  intros [(l & Hok & Hp) Hv Hs] He Hfresh. unfold MemTable_Add.
  assert (|[entry_bytes (e_seq e) (e_type e) (e_key e) (e_value e)]| =
    VarintLength (|[e_key e]| + 8) + (|[e_key e]| + 8) + VarintLength (|[e_value e]|) + |[e_value e]|) as El
    by (apply encoded_len_ok; apply He).
  rewrite assert_bool by by apply Z.eqb_eq. cbn [mbind option_bind].
  destruct (Insert_ok (KeyComparator C) valid_mem ndebug (table_ m) l (entry_of e) Hok) as (t & Et & Hok').
  - by apply entry_of_valid.
  - intros q Hq E. apply (list_elem_of_fmap_2 snd) in Hq. rewrite Hp in Hq. apply list_elem_of_fmap in Hq as (e' & Eq & He').
    rewrite Eq in E. pose proof (Forall_forall valid_entry h) as [Hf _]. specialize (Hf Hv e' ltac:(by apply list_elem_of_In)).
    apply entry_compare_seq in E; [| done..]. apply Hfresh. rewrite <- E. by apply list_elem_of_fmap_2.
  - fold (entry_of e). rewrite Et. cbn [mbind option_bind]. eexists. split; [done |]. split; [| done]. split; cbn [table_].
    + eexists. split; [done |]. rewrite (fmap_Permutation snd _ _ (inserted_perm (KeyComparator C) (table_ m) l (entry_of e))). cbn. by rewrite Hp.
    + by constructor.
    + constructor; done.
Qed.

(** ** Looking up *)
Lemma new_LookupKey_ok k s : word 56 s ->
  new_LookupKey ndebug k s = Some (MkLookupKey (EncodeVarint32 (u32 (|[k]| + 8)) ++ ikey k (tag s kTypeValue)) (ikey k (tag s kTypeValue)) k).
Proof. intros Hs. unfold new_LookupKey. by rewrite PackSequenceAndType_tag. Qed.

(** A lookup key stands just before the entries it matches. *)
Lemma matches_compare e k s : valid_entry e -> valid k -> word 56 s ->
  matches k s e = true <->
  Compare (e_key e) k = Some Eq /\ InternalKey_Compare C (entry_key e) (ikey k (tag s kTypeValue)) <> Some Lt.
Proof.
  intros He Hk Hs. unfold matches, same_key. rewrite andb_true_iff, bool_decide_eq_true, Z.leb_le.
  unfold entry_key. rewrite InternalKey_Compare_ikey by (apply tag_word; done || apply He).
  split; intros [E H]; (split; [done |]); rewrite E in *; cbn in *.
  - intros [= Hc]. rewrite tag_compare in Hc. destruct (Z.compare_spec s (e_seq e)); [by destruct (e_type e) | lia | done].
  - destruct (Z.le_gt_cases (e_seq e) s); [done |]. destruct H. f_equal. rewrite tag_compare.
    by rewrite (proj2 (Z.compare_lt_iff _ _)).
Qed.

(** Between entries of one key the order is by age. *)
Lemma entry_le_seq e e' : valid_entry e -> valid_entry e' -> Compare (e_key e) (e_key e') = Some Eq ->
  InternalKey_Compare C (entry_key e) (entry_key e') <> Some Gt -> e_seq e' <= e_seq e.
Proof.
  intros He He' E. rewrite entry_key_compare, E by done. cbn. intros H. destruct (Z.le_gt_cases (e_seq e') (e_seq e)); [done |].
  destruct H. f_equal. rewrite tag_compare. by rewrite (proj2 (Z.compare_gt_iff _ _)).
Qed.

Lemma InternalKey_Compare_user a b u v n k : valid u -> valid v -> word 64 n -> word 64 k -> a = ikey u n -> b = ikey v k ->
  InternalKey_Compare C a b <> Some Gt -> Compare u v <> Some Gt.
Proof. intros Hu Hv Hn Hk -> -> H E. apply H. by rewrite InternalKey_Compare_ikey, E. Qed.

(** The entry a search for a key and snapshot stops at. *)
Lemma seek_latest l h k s :
  StronglySorted (key_lt (KeyComparator C)) l -> l.*2 ≡ₚ entry_of <$> h -> Forall valid_entry h -> base.NoDup (e_seq <$> h) ->
  valid k -> word 56 s -> |[k]| + 8 < 2 ^ 32 ->
  let target := EncodeLengthPrefixedSlice (ikey k (tag s kTypeValue)) in
  match list.head (above (KeyComparator C) l target) with
  | None => latest k s h = None
  | Some q => ∃ e, e ∈ h /\ q.2 = entry_of e /\ latest k s h = if same_key (e_key e) k then Some e else None
  end.
Proof.
  intros Hsort Hp Hv Hnd Hk Hs Hlk target.
  assert (∀ q, q ∈ l -> ∃ e, e ∈ h /\ q.2 = entry_of e /\ valid_entry e) as Hl.
  { intros q Hq. apply (list_elem_of_fmap_2 snd) in Hq. rewrite Hp in Hq. apply list_elem_of_fmap in Hq as (e & -> & He).
    exists e. split; [done |]. split; [done |]. rewrite list.Forall_forall in Hv. by apply Hv. }
  assert (|[ikey k (tag s kTypeValue)]| < 2 ^ 32) as Hsz by (rewrite size_ikey; lia).
  assert (valid_ikey valid (ikey k (tag s kTypeValue))) as Hvk by (do 2 eexists; split_and!; [done | done | by apply tag_word]).
  assert (∀ e, valid_entry e -> KeyComparator C (entry_of e) target = InternalKey_Compare C (entry_key e) (ikey k (tag s kTypeValue))) as Hcmp.
  { intros e He. rewrite entry_of_eq by done. unfold target. rewrite <- (app_nil_r (EncodeLengthPrefixedSlice (ikey k _))).
    apply KeyComparator_encode; [| done]. unfold entry_key. rewrite size_ikey. apply He. }
  assert (∀ e, e ∈ h -> matches k s e = true -> ∃ q, q ∈ above (KeyComparator C) l target /\ q.2 = entry_of e) as Habove.
  { intros e He Hm. assert (valid_entry e) as Hve by (rewrite list.Forall_forall in Hv; by apply Hv).
    assert (entry_of e ∈ l.*2) as Hq by (rewrite Hp; by apply list_elem_of_fmap_2).
    apply list_elem_of_fmap in Hq as (q & Eq & Hq). exists q. split; [| done].
    rewrite (below_above (KeyComparator C) l target), elem_of_app in Hq. destruct Hq as [Hq%below_lt | Hq]; [| done].
    rewrite <- Eq, Hcmp in Hq by done. apply matches_compare in Hm as [_ Hm]; done. }
  destruct (above (KeyComparator C) l target) as [| q t] eqn:Ea; cbn [list.head].
  { apply latest_None. intros e He. destruct (matches k s e) eqn:Hm; [| done]. destruct (Habove e He Hm) as (q & Hq & _). by apply elem_of_nil in Hq. }
  assert (q ∈ above (KeyComparator C) l target) as Hqa by (rewrite Ea; by left).
  destruct (Hl q (elem_above _ _ _ _ Hqa)) as (e & He & Eq & Hve). exists e. split; [done |]. split; [done |].
  assert (InternalKey_Compare C (entry_key e) (ikey k (tag s kTypeValue)) <> Some Lt) as Hge.
  { rewrite <- Hcmp, <- Eq by done. apply (above_not_lt _ valid_mem l); [done | | | done].
    - intros q' Hq'. destruct (Hl q' Hq') as (e' & _ & -> & ?). by apply entry_of_valid.
    - exists (ikey k (tag s kTypeValue)), []. split; [by rewrite app_nil_r | done]. }
  assert (∀ e', e' ∈ h -> matches k s e' = true -> InternalKey_Compare C (entry_key e) (entry_key e') <> Some Gt /\ valid_entry e') as Hle.
  { intros e' He' Hm. assert (valid_entry e') as Hve' by (rewrite list.Forall_forall in Hv; by apply Hv). split; [| done].
    destruct (Habove e' He' Hm) as (q' & Hq' & Eq'). rewrite <- entry_compare, <- Eq, <- Eq' by done.
    apply elem_of_cons in Hq' as [-> | Hq'].
    - rewrite Eq'. by rewrite cmp_refl by by apply entry_of_valid.
    - rewrite (below_above (KeyComparator C) l target), Ea in Hsort. apply StronglySorted_app in Hsort as (_ & _ & Hsort).
      apply StronglySorted_inv in Hsort as [_ Hsort]. rewrite list.Forall_forall in Hsort. specialize (Hsort q' Hq').
      unfold key_lt in Hsort. congruence. }
  unfold same_key. case_bool_decide as Ek.
  - apply latest_is_latest; [done |]. split; [done |]. split; [by apply matches_compare |].
    intros e' He' Hm. destruct (Hle e' He' Hm) as [Hc Hve']. apply (entry_le_seq e e'); [done.. | | done].
    apply matches_compare in Hm as [Ek' _]; [| done..].
    apply (cmp_eq (e_key e) k (e_key e')); [apply Hve | done | apply Hve' | done |]. apply cmp_eq_sym; [apply Hve' | done..].
  - apply latest_None. intros e' He'. destruct (matches k s e') eqn:Hm; [| done]. exfalso. apply Ek.
    destruct (Hle e' He' Hm) as [Hc Hve']. apply matches_compare in Hm as [Ek' _]; [| done..].
    assert (Compare (e_key e) (e_key e') <> Some Gt) as Hu
      by (eapply InternalKey_Compare_user; [apply Hve | apply Hve' | | | done.. ]; apply tag_word; [apply Hve | apply Hve']).
    destruct (cmp_some (e_key e) k ltac:(apply Hve) Hk) as [[] E]; [done | |].
    + destruct Hge. unfold entry_key. rewrite InternalKey_Compare_ikey, E by (apply tag_word; done || apply Hve). done.
    + destruct Hu. apply (cmp_eq_r (e_key e) k (e_key e')); [apply Hve | done | apply Hve' | done |]. apply cmp_eq_sym; [apply Hve' | done..].
Qed.

Lemma MemTable_Get_ok {B} `{Buffer B} m h k s lk (buf : B) limit st :
  mem_ok m h -> valid k -> word 56 s -> |[k]| + 8 < 2 ^ 32 -> new_LookupKey ndebug k s = Some lk ->
  MemTable_Get C m lk buf limit st =
    Some match latest k s h with
         | None => None
         | Some e => Some match e_type e with
                          | kTypeValue => (st, Fill buf (take (Z.to_nat (Z.min (|[e_value e]|) limit)) (e_value e)))
                          | kTypeDeletion => (MkStatus kNotFound [] [], buf)
                          end
         end.
Proof.
  intros [(l & Hok & Hp) Hv Hnd] Hk Hs Hlk. rewrite new_LookupKey_ok by done. intros [= <-].
  unfold MemTable_Get. cbn [memtable_key lookup_user_key]. rewrite <- size_ikey with (n := tag s kTypeValue).
  change (EncodeVarint32 (u32 (|[ikey k (tag s kTypeValue)]|)) ++ ikey k (tag s kTypeValue)) with (EncodeLengthPrefixedSlice (ikey k (tag s kTypeValue))).
  set (target := EncodeLengthPrefixedSlice (ikey k (tag s kTypeValue))).
  assert (valid_mem target) as Ht.
  { exists (ikey k (tag s kTypeValue)), []. split; [by rewrite app_nil_r |]. split; [| by rewrite size_ikey].
    do 2 eexists; split_and!; [done | done | by apply tag_word]. }
  rewrite (it_Seek_at _ valid_mem (table_ m) l Hok) by done. cbn [mbind option_bind].
  pose proof (seek_latest l h k s (so_sorted _ _ _ _ Hok) Hp Hv Hnd Hk Hs Hlk) as Hseek. cbn zeta in Hseek. fold target in Hseek.
  assert (l !! length (below (KeyComparator C) l target) = list.head (above (KeyComparator C) l target)) as El.
  { rewrite <- (Nat.add_0_r (length _)). unfold above. rewrite <- lookup_drop. by destruct (drop _ l). }
  unfold it_at. rewrite El. destruct (list.head (above (KeyComparator C) l target)) as [q |]; cbn [fmap option_fmap option_map].
  - destruct Hseek as (e & He & Eq & ->). unfold it_Valid. rewrite bool_decide_eq_true_2 by done.
    apply list_elem_of_lookup_2 in El. destruct q as [a b]. cbn [fst snd] in *. subst b. unfold it_key. cbn [mbind option_bind].
    destruct (ok_key _ _ _ _ Hok _ _ El) as [-> _]. cbn [mbind option_bind].
    assert (valid_entry e) as Hve by (rewrite list.Forall_forall in Hv; by apply Hv). rewrite entry_of_eq by done.
    assert (|[entry_key e]| < 2 ^ 32) as Hsz by (unfold entry_key; rewrite size_ikey; apply Hve).
    assert (word 32 (|[entry_key e]|)) as Hw by by apply size_word.
    unfold EncodeLengthPrefixedSlice at 1. unfold u32 at 1. rewrite wrap_small, <- app_assoc by done.
    change (GetVarint32Ptr ?x) with (GetVarint32 x). rewrite GetVarint32_encode by done. cbn [mbind option_bind].
    rewrite slice_size_app. pose proof (slice_size_nonneg (EncodeLengthPrefixedSlice (e_value e))).
    rewrite (proj2 (Z.leb_le 8 _)), (proj2 (Z.leb_le (|[entry_key e]|) _)) by (unfold entry_key; rewrite ?size_ikey; pose proof (slice_size_nonneg (e_key e)); lia).
    cbn [andb mbind option_bind]. rewrite take_slice_size.
    rewrite (ExtractUserKey_ikey _ _ : ExtractUserKey (entry_key e) = _). cbn [mbind option_bind].
    destruct (cmp_some (e_key e) k ltac:(apply Hve) Hk) as [r Er]. unfold same_key. rewrite Er. cbn [mbind option_bind].
    destruct (decide (r = Eq)) as [-> | Hne].
    + rewrite !bool_decide_eq_true_2 by done. rewrite (ExtractTag_ikey _ _ (tag_word _ _ (proj1 (proj2 Hve))) : ExtractTag (entry_key e) = _). cbn [mbind option_bind].
      rewrite tag_land, to_ValueType_num. destruct (e_type e); [done |].
      rewrite drop_slice_size.
      rewrite <- (app_nil_r (EncodeLengthPrefixedSlice (e_value e))), LengthPrefixed_encode by apply Hve. done.
    + rewrite !bool_decide_eq_false_2 by congruence. done.
  - unfold it_Valid. rewrite bool_decide_eq_false_2 by naive_solver. by rewrite Hseek.
Qed.
End MemProps.
