(* ===== verification/WriteBatch.v ===== *)
(** * Write batches ([leveldb/write_batch.h], [write_batch.cc])

    A batch is its representation: a header of 12 bytes (a sequence number and a count) and the
    records.  A signed overflow of the count and an access outside the string are [None]. *)
From S2P Require Import Prelude Status Coding Comparator SkipList MemTable.

Definition kHeader : nat := 12.

(** [Clear], which the constructor calls: twelve zero bytes. *)
Definition Clear : Slice := replicate kHeader 0.

(** The signed 32-bit value of a word. *)
Definition to_int32 (z : Z) : Z := let z := u32 z in if z <? 2 ^ 31 then z else z - 2 ^ 32.
(** An [int] result; signed overflow is undefined. *)
Definition int32 (z : Z) : option Z := if (- 2 ^ 31 <=? z) && (z <? 2 ^ 31) then Some z else None.

(** [WriteBatchInternal]: the fields of the header. *)
Definition Count (b : Slice) : option Z := n ← DecodeFixed32 (drop 8 b); Some (to_int32 n).
Definition SetCount (n : Z) (b : Slice) : option Slice :=
  if decide (kHeader <= length b)%nat then Some (take 8 b ++ EncodeFixed32 (u32 n) ++ drop 12 b) else None.
Definition Sequence (b : Slice) : option Z := DecodeFixed64 b.
Definition SetSequence (seq : Z) (b : Slice) : option Slice :=
  if decide (8 <= length b)%nat then Some (EncodeFixed64 seq ++ drop 8 b) else None.
Definition ByteSize (b : Slice) : Z := |[b]|.

Definition WriteBatch_Put (key value : Slice) (b : Slice) : option Slice :=
  n ← Count b; n ← int32 (n + 1); b ← SetCount n b;
  Some (PutLengthPrefixedSlice (PutLengthPrefixedSlice (b ++ [ValueType_num kTypeValue]) key) value).
Definition WriteBatch_Delete (key : Slice) (b : Slice) : option Slice :=
  n ← Count b; n ← int32 (n + 1); b ← SetCount n b;
  Some (PutLengthPrefixedSlice (b ++ [ValueType_num kTypeDeletion]) key).

Definition Append (dst src : Slice) : option Slice :=
  n ← Count dst; m ← Count src; n ← int32 (n + m); dst ← SetCount n dst;
  if decide (kHeader <= length src)%nat then Some (dst ++ drop kHeader src) else None.

(** The assertion also keeps the header in place. *)
Definition SetContents (ndebug : bool) (contents : Slice) : option Slice :=
  _ ← assert_ ndebug (bool_decide (kHeader <= length contents)%nat); Some contents.

Section Iterate.
(** A [Handler]: its state and its two callbacks. *)
Context {T : Type} (hPut : Slice -> Slice -> T -> option T) (hDelete : Slice -> T -> option T).

(** The loop over the records; each consumes at least one byte.  [found], an [int] of the code, counts
    records that are there, so it does not overflow below 2^31 of them. *)
Fixpoint Iterate_loop (fuel : nat) (found : Z) (input : Slice) (st : T) : option (Status * Z * T) :=
  match input with
  | [] => Some (OK, found, st)
  | tag :: input =>
      match fuel with
      | O => None
      | S fuel =>
          let found := found + 1 in
          match to_ValueType tag with
          | Some kTypeValue =>
              match GetLengthPrefixedSlice input with
              | Some (key, input) =>
                  match GetLengthPrefixedSlice input with
                  | Some (value, input) => st ← hPut key value st; Iterate_loop fuel found input st
                  | None => Some (Err kCorruption "bad WriteBatch Put", found, st)
                  end
              | None => Some (Err kCorruption "bad WriteBatch Put", found, st)
              end
          | Some kTypeDeletion =>
              match GetLengthPrefixedSlice input with
              | Some (key, input) => st ← hDelete key st; Iterate_loop fuel found input st
              | None => Some (Err kCorruption "bad WriteBatch Delete", found, st)
              end
          | None => Some (Err kCorruption "unknown WriteBatch tag", found, st)
          end
      end
  end.

Definition Iterate (b : Slice) (st : T) : option (Status * T) :=
  if decide (length b < kHeader)%nat then Some (Err kCorruption "malformed WriteBatch (too small)", st)
  else
    '(s, found, st) ← Iterate_loop (length b) 0 (drop kHeader b) st;
    if negb (ok s) then Some (s, st)
    else
      n ← Count b;
      if negb (found =? n) then Some (Err kCorruption "WriteBatch has wrong count", st) else Some (OK, st).
End Iterate.

(** [MemTableInserter]: [sequence_] and [mem_]. *)
Section InsertInto.
Variable ndebug : bool.
Context (C : Comparator).

Definition ins_Put (key value : Slice) (st : Z * MemTable) : option (Z * MemTable) :=
  let '(sequence, mem) := st in
  mem ← MemTable_Add ndebug C sequence kTypeValue key value mem; Some (u64 (sequence + 1), mem).
Definition ins_Delete (key : Slice) (st : Z * MemTable) : option (Z * MemTable) :=
  let '(sequence, mem) := st in
  mem ← MemTable_Add ndebug C sequence kTypeDeletion key [] mem; Some (u64 (sequence + 1), mem).

Definition InsertInto (b : Slice) (memtable : MemTable) : option (Status * MemTable) :=
  seq ← Sequence b;
  '(s, st) ← Iterate ins_Put ins_Delete b (seq, memtable);
  Some (s, snd st).
End InsertInto.
