(* ===== verification/WriteBatchProps.v ===== *)
(** * Write batches and memtables: a batch is applied in order and at once

    [batch_ok b seq ops] says that the string [b] represents the updates [ops] from sequence
    number [seq] on. *)
From S2P Require Import Prelude Status Coding Keys Comparator Mxdb.
From S2P Require Import SkipList History MemTable MemTableProps WriteBatch.

Definition record_of (op : BatchOp) : Slice :=
  match op with
  | BatPut k v => ValueType_num kTypeValue :: EncodeLengthPrefixedSlice k ++ EncodeLengthPrefixedSlice v
  | BatDelete k => ValueType_num kTypeDeletion :: EncodeLengthPrefixedSlice k
  end.
Definition op_fits (op : BatchOp) : Prop :=
  match op with BatPut k v => |[k]| < 2 ^ 32 /\ |[v]| < 2 ^ 32 | BatDelete k => |[k]| < 2 ^ 32 end.
Definition op_count (ops : list BatchOp) : Z := Z.of_nat (length ops).

Definition batch_ok (b : Slice) (seq : Z) (ops : list BatchOp) : Prop :=
  b = EncodeFixed64 seq ++ EncodeFixed32 (op_count ops) ++ mjoin (record_of <$> ops) /\ op_count ops < 2 ^ 31.

(** The batch that [Put] and [Delete] build. *)
Fixpoint build (ops : list BatchOp) (b : Slice) : option Slice :=
  match ops with
  | [] => Some b
  | BatPut k v :: ops => b ← WriteBatch_Put k v b; build ops b
  | BatDelete k :: ops => b ← WriteBatch_Delete k b; build ops b
  end.

Lemma Clear_ok : batch_ok Clear 0 [].
Proof. split; done. Qed.

Lemma op_count_app ops ops' : op_count (ops ++ ops') = op_count ops + op_count ops'.
Proof. unfold op_count. rewrite length_app. lia. Qed.
Lemma op_count_nonneg ops : 0 <= op_count ops.
Proof. unfold op_count. lia. Qed.

Lemma records_app ops ops' : mjoin (record_of <$> (ops ++ ops')) = mjoin (record_of <$> ops) ++ mjoin (record_of <$> ops').
Proof. by rewrite fmap_app, join_app. Qed.

Lemma records_cons op ops : mjoin (record_of <$> (op :: ops)) = record_of op ++ mjoin (record_of <$> ops).
Proof. done. Qed.

Section Batch.
Variables (b : Slice) (seq : Z) (ops : list BatchOp).
Hypothesis Hb : batch_ok b seq ops.

Lemma Count_ok : Count b = Some (op_count ops).
Proof.
  destruct Hb as [-> Hn]. pose proof (op_count_nonneg ops). unfold Count.
  change (drop 8 (EncodeFixed64 seq ++ ?x)) with x. rewrite DecodeFixed32_wrap. cbn [mbind option_bind]. unfold to_int32, u32.
  assert (word 32 (op_count ops)) as Hw by (split; lia). rewrite !(wrap_small 32 (op_count ops)) by done. by rewrite (proj2 (Z.ltb_lt _ _)).
Qed.
Lemma Sequence_ok : word 64 seq -> Sequence b = Some seq.
Proof. destruct Hb as [-> _]. intros Hs. unfold Sequence. rewrite DecodeFixed64_wrap. f_equal. by apply wrap_small. Qed.
Lemma SetSequence_ok seq' : ∃ b', SetSequence seq' b = Some b' /\ batch_ok b' seq' ops.
Proof.
  destruct Hb as [-> Hn]. unfold SetSequence. rewrite decide_True by (rewrite length_app, length_EncodeFixed64; lia).
  eexists. split; [done |]. by split.
Qed.
Lemma SetCount_ok n : 0 <= n < 2 ^ 31 ->
  SetCount n b = Some (EncodeFixed64 seq ++ EncodeFixed32 n ++ mjoin (record_of <$> ops)).
Proof.
  intros Hn. destruct Hb as [-> _]. unfold SetCount.
  rewrite decide_True by (rewrite !length_app, length_EncodeFixed64, length_EncodeFixed32; unfold kHeader; lia).
  unfold u32. by rewrite wrap_small by (split; lia).
Qed.
(** Adding updates to a batch. *)
Lemma extend_ok ops' : op_count (ops ++ ops') < 2 ^ 31 ->
  (n ← int32 (op_count ops + op_count ops'); b ← SetCount n b; Some (b ++ mjoin (record_of <$> ops')))
  = Some (EncodeFixed64 seq ++ EncodeFixed32 (op_count (ops ++ ops')) ++ mjoin (record_of <$> (ops ++ ops'))).
Proof.
  intros Hn. rewrite <- op_count_app, records_app. pose proof (op_count_nonneg (ops ++ ops')).
  unfold int32. rewrite (proj2 (Z.leb_le (- 2 ^ 31) _)), (proj2 (Z.ltb_lt _ _)) by lia. cbn [andb mbind option_bind].
  rewrite SetCount_ok by done. cbn [mbind option_bind]. by rewrite <- !app_assoc.
Qed.
End Batch.

Lemma Put_ok b seq ops k v : batch_ok b seq ops -> op_count (ops ++ [BatPut k v]) < 2 ^ 31 ->
  ∃ b', WriteBatch_Put k v b = Some b' /\ batch_ok b' seq (ops ++ [BatPut k v]).
Proof.
  intros Hb Hn. unfold WriteBatch_Put. rewrite (Count_ok b seq ops Hb). cbn [mbind option_bind].
  pose proof (extend_ok b seq ops Hb [BatPut k v] Hn) as E. change (op_count [_]) with 1 in E.
  destruct (int32 _) as [n |]; [| done]. cbn [mbind option_bind] in *. destruct (SetCount n b) as [b1 |]; [| done].
  cbn [mbind option_bind] in *. eexists. split; [done |]. split; [| done]. apply (inj Some) in E. rewrite <- E. clear E.
  rewrite !PutLengthPrefixedSlice_app, <- !app_assoc. cbn. by rewrite app_nil_r.
Qed.
Lemma Delete_ok b seq ops k : batch_ok b seq ops -> op_count (ops ++ [BatDelete k]) < 2 ^ 31 ->
  ∃ b', WriteBatch_Delete k b = Some b' /\ batch_ok b' seq (ops ++ [BatDelete k]).
Proof.
  intros Hb Hn. unfold WriteBatch_Delete. rewrite (Count_ok b seq ops Hb). cbn [mbind option_bind].
  pose proof (extend_ok b seq ops Hb [BatDelete k] Hn) as E. change (op_count [_]) with 1 in E.
  destruct (int32 _) as [n |]; [| done]. cbn [mbind option_bind] in *. destruct (SetCount n b) as [b1 |]; [| done].
  cbn [mbind option_bind] in *. eexists. split; [done |]. split; [| done]. apply (inj Some) in E. rewrite <- E. clear E.
  rewrite !PutLengthPrefixedSlice_app, <- !app_assoc. cbn. by rewrite app_nil_r.
Qed.
Lemma Append_ok b seq ops b2 seq2 ops2 : batch_ok b seq ops -> batch_ok b2 seq2 ops2 -> op_count (ops ++ ops2) < 2 ^ 31 ->
  ∃ b', Append b b2 = Some b' /\ batch_ok b' seq (ops ++ ops2).
Proof.
  intros Hb Hb2 Hn. unfold Append. rewrite (Count_ok b seq ops Hb), (Count_ok b2 seq2 ops2 Hb2). cbn [mbind option_bind].
  pose proof (extend_ok b seq ops Hb ops2 Hn) as E. destruct (int32 _) as [n |]; [| done]. cbn [mbind option_bind] in *.
  destruct (SetCount n b) as [b1 |]; [| done]. cbn [mbind option_bind] in *. destruct Hb2 as [-> _].
  rewrite decide_True by (rewrite !length_app, length_EncodeFixed64, length_EncodeFixed32; unfold kHeader; lia).
  eexists. split; [done |]. split; [| done]. apply (inj Some) in E. rewrite <- E. clear E. done.
Qed.

Lemma build_ok b seq ops ops' : batch_ok b seq ops -> op_count (ops ++ ops') < 2 ^ 31 ->
  ∃ b', build ops' b = Some b' /\ batch_ok b' seq (ops ++ ops').
Proof.
  revert b ops. induction ops' as [| op ops' IH]; intros b ops Hb Hn; [exists b; by rewrite app_nil_r |].
  replace (ops ++ op :: ops') with ((ops ++ [op]) ++ ops') in * by by rewrite <- app_assoc.
  assert (op_count (ops ++ [op]) < 2 ^ 31) as Hn1 by (rewrite op_count_app in Hn; pose proof (op_count_nonneg ops'); lia).
  destruct op as [k v | k]; cbn [build].
  - destruct (Put_ok b seq ops k v Hb Hn1) as (b1 & -> & Hb1). cbn [mbind option_bind]. by apply IH.
  - destruct (Delete_ok b seq ops k Hb Hn1) as (b1 & -> & Hb1). cbn [mbind option_bind]. by apply IH.
Qed.

(** ** Iterating *)
Section Iterate.
Context {T : Type} (hPut : Slice -> Slice -> T -> option T) (hDelete : Slice -> T -> option T).
Definition handle (op : BatchOp) (st : T) : option T :=
  match op with BatPut k v => hPut k v st | BatDelete k => hDelete k st end.
Fixpoint handle_all (ops : list BatchOp) (st : T) : option T :=
  match ops with [] => Some st | op :: ops => st ← handle op st; handle_all ops st end.

Lemma Iterate_loop_ok fuel found ops st : Forall op_fits ops -> (length ops <= fuel)%nat ->
  Iterate_loop hPut hDelete fuel found (mjoin (record_of <$> ops)) st =
    st ← handle_all ops st; Some (OK, found + op_count ops, st).
Proof.
  intros Hf. revert fuel found st. induction Hf as [| op ops Hop Hf IH]; intros fuel found st Hl.
  { destruct fuel; cbn; by rewrite Z.add_0_r. }
  destruct fuel as [| fuel]; [cbn in Hl; lia |]. cbn in Hl.
  assert (∀ found, found + 1 + op_count ops = found + op_count (op :: ops)) as En by (intros; unfold op_count; cbn [length]; lia).
  destruct op as [k v | k]; cbn [fmap list_fmap mjoin list_join record_of app]; cbn [Iterate_loop handle_all handle];
    rewrite to_ValueType_num.
  - destruct Hop as [Hk Hv]. rewrite <- app_assoc, !GetLengthPrefixedSlice_encode by done.
    destruct (hPut k v st) as [st1 |]; [| done]. cbn [mbind option_bind]. rewrite IH by lia. by rewrite En.
  - rewrite GetLengthPrefixedSlice_encode by done.
    destruct (hDelete k st) as [st1 |]; [| done]. cbn [mbind option_bind]. rewrite IH by lia. by rewrite En.
Qed.

Lemma Iterate_ok b seq ops st : batch_ok b seq ops -> Forall op_fits ops ->
  Iterate hPut hDelete b st = st ← handle_all ops st; Some (OK, st).
Proof.
  intros Hb Hf. unfold Iterate. pose proof (Count_ok b seq ops Hb) as Hc. destruct Hb as [-> Hn].
  rewrite decide_False by (rewrite !length_app, length_EncodeFixed64, length_EncodeFixed32; unfold kHeader; lia).
  change (drop kHeader (EncodeFixed64 seq ++ EncodeFixed32 (op_count ops) ++ ?x)) with x.
  assert (length ops <= length (mjoin (record_of <$> ops)))%nat as Hl.
  { clear. induction ops as [| op ops IH]; [done |]. rewrite records_cons, length_app. cbn [length].
    assert (1 <= length (record_of op))%nat by (destruct op; cbn; lia). lia. }
  rewrite Iterate_loop_ok by (done || (rewrite !length_app; lia)).
  destruct (handle_all ops st) as [st1 |]; [| done]. cbn [mbind option_bind]. change (negb (ok OK)) with false. cbn iota.
  rewrite Hc. cbn [mbind option_bind]. by rewrite Z.eqb_refl.
Qed.
End Iterate.

(** ** Applying a batch to a memtable *)
Definition op_key (op : BatchOp) : Slice := match op with BatPut k _ => k | BatDelete k => k end.
Definition op_value (op : BatchOp) : option Slice := match op with BatPut _ v => Some v | BatDelete _ => None end.
Definition op_entry (seq : Z) (op : BatchOp) : Entry :=
  match op with BatPut k v => MkEntry k seq kTypeValue v | BatDelete k => MkEntry k seq kTypeDeletion [] end.
Fixpoint entries_from (seq : Z) (ops : list BatchOp) : list Entry :=
  match ops with [] => [] | op :: ops => op_entry seq op :: entries_from (seq + 1) ops end.

Lemma op_entry_seq seq op : e_seq (op_entry seq op) = seq.
Proof. by destruct op. Qed.
Lemma op_entry_key seq op : e_key (op_entry seq op) = op_key op.
Proof. by destruct op. Qed.

Section Apply.
Context (ndebug : bool) (C : Comparator) (valid : Slice -> Prop) `{!ComparatorLaws C valid}.
Implicit Types (h : list Entry) (m : MemTable) (ops : list BatchOp).

Definition valid_op (op : BatchOp) : Prop :=
  valid (op_key op) /\ |[op_key op]| + 8 < 2 ^ 32 /\ |[default [] (op_value op)]| < 2 ^ 32.

Lemma valid_op_fits op : valid_op op -> op_fits op.
Proof. intros (_ & Hk & Hv). destruct op; cbn in *; lia. Qed.
Lemma op_entry_valid seq op : valid_op op -> word 56 seq -> valid_entry valid (op_entry seq op).
Proof. intros (Hk & Hl & Hv) Hs. unfold valid_entry. rewrite op_entry_key, op_entry_seq. split_and!; try done. by destruct op. Qed.

Lemma handle_ins seq op m :
  handle (ins_Put ndebug C) (ins_Delete ndebug C) op (seq, m) =
    m ← MemTable_Add ndebug C seq (e_type (op_entry seq op)) (op_key op) (e_value (op_entry seq op)) m; Some (u64 (seq + 1), m).
Proof. by destruct op. Qed.

Lemma handle_all_ins seq ops m h :
  mem_ok C valid m h -> Forall valid_op ops -> 0 <= seq -> seq + op_count ops <= 2 ^ 56 -> (∀ e, e ∈ h -> e_seq e < seq) ->
  ∃ m', handle_all (ins_Put ndebug C) (ins_Delete ndebug C) ops (seq, m) = Some (seq + op_count ops, m') /\
    mem_ok C valid m' (rev (entries_from seq ops) ++ h) /\ refs_ m' = refs_ m.
Proof.
  intros Hm Hv. revert seq m h Hm. induction Hv as [| op ops Hop Hv IH]; intros seq m h Hm H0 Hn Hlt.
  { exists m. by rewrite Z.add_0_r. }
  assert (op_count (op :: ops) = 1 + op_count ops) as En by (unfold op_count; cbn [length]; lia). rewrite En in *.
  pose proof (op_count_nonneg ops). cbn [handle_all]. rewrite handle_ins.
  destruct (MemTable_Add_ok ndebug C valid m h (op_entry seq op) Hm) as (m1 & E & Hm1 & Hr).
  { apply op_entry_valid; [done | unfold word; lia]. }
  { rewrite op_entry_seq. intros (e & -> & He)%list_elem_of_fmap. specialize (Hlt e He). lia. }
  rewrite op_entry_seq, op_entry_key in E. rewrite E. cbn [mbind option_bind].
  unfold u64. rewrite (wrap_small 64 (seq + 1)) by (split; lia).
  destruct (IH (seq + 1) m1 (op_entry seq op :: h)) as (m' & E' & Hm' & Hr'); [done | lia | lia | |].
  { intros e [-> | He]%elem_of_cons; [rewrite op_entry_seq; lia | specialize (Hlt e He); lia]. }
  exists m'. rewrite E'. split; [do 2 f_equal; lia |]. split; [| congruence].
  cbn [entries_from rev]. by rewrite <- app_assoc.
Qed.

Lemma InsertInto_ok b seq ops m h :
  batch_ok b seq ops -> mem_ok C valid m h -> Forall valid_op ops -> 0 <= seq -> seq + op_count ops <= 2 ^ 56 ->
  (∀ e, e ∈ h -> e_seq e < seq) ->
  ∃ m', InsertInto ndebug C b m = Some (OK, m') /\ mem_ok C valid m' (rev (entries_from seq ops) ++ h) /\ refs_ m' = refs_ m.
Proof.
  intros Hb Hm Hv H0 Hn Hlt. pose proof (op_count_nonneg ops). unfold InsertInto.
  rewrite (Sequence_ok b seq ops Hb) by (split; lia). cbn [mbind option_bind].
  assert (Forall op_fits ops) as Hf by (eapply list.Forall_impl; [exact Hv | apply valid_op_fits]).
  rewrite (Iterate_ok _ _ b seq ops) by done.
  destruct (handle_all_ins seq ops m h) as (m' & -> & Hm' & Hr); [done.. |]. cbn. by exists m'.
Qed.

(** ** What readers see *)

(** [None]: no entry; [Some None]: deleted. *)
Definition read h (k : Slice) (s : Z) : option (option Slice) :=
  (λ e, match e_type e with kTypeValue => Some (e_value e) | kTypeDeletion => None end) <$> latest k s h.
(** The updates of a batch, one after the other. *)
Fixpoint apply_ops ops (f : Slice -> option (option Slice)) : Slice -> option (option Slice) :=
  match ops with
  | [] => f
  | op :: ops => apply_ops ops (λ k, if same_key (op_key op) k then Some (op_value op) else f k)
  end.

Lemma apply_ops_ext ops f g k : (∀ k, f k = g k) -> apply_ops ops f k = apply_ops ops g k.
Proof. revert f g. induction ops as [| op ops IH]; intros f g H; cbn; [done |]. apply IH. intros k'. by rewrite H. Qed.

Lemma read_cons h seq op k s : (∀ e, e ∈ h -> e_seq e < seq) ->
  read (op_entry seq op :: h) k s =
    if decide (seq <= s) then if same_key (op_key op) k then Some (op_value op) else read h k s else read h k s.
Proof.
  intros Hlt. unfold read. change (op_entry seq op :: h) with ([op_entry seq op] ++ h).
  rewrite latest_app by (intros e e' ->%list_elem_of_singleton He' _ _; rewrite op_entry_seq; by apply Hlt).
  cbn [latest]. unfold matches. rewrite op_entry_key, op_entry_seq.
  case_decide.
  - rewrite (proj2 (Z.leb_le _ _)), andb_true_r by done. destruct (same_key _ _); [| done]. by destruct op.
  - by rewrite (proj2 (Z.leb_gt _ _)), andb_false_r by lia.
Qed.

Lemma read_entries seq ops h k s : (∀ e, e ∈ h -> e_seq e < seq) ->
  read (rev (entries_from seq ops) ++ h) k s = apply_ops (take (Z.to_nat (s + 1 - seq)) ops) (λ k, read h k s) k.
Proof.
  revert seq h. induction ops as [| op ops IH]; intros seq h Hlt; [by destruct (Z.to_nat _) |].
  cbn [entries_from rev]. rewrite <- app_assoc. cbn [app]. rewrite IH.
  2: { intros e [-> | He]%elem_of_cons; [rewrite op_entry_seq; lia | specialize (Hlt e He); lia]. }
  destruct (decide (seq <= s)) as [Hs | Hs].
  - replace (Z.to_nat (s + 1 - seq)) with (S (Z.to_nat (s + 1 - (seq + 1)))) by lia. cbn [take apply_ops].
    apply apply_ops_ext. intros k'. cbn beta. rewrite read_cons by done. by rewrite decide_True.
  - replace (Z.to_nat (s + 1 - seq)) with 0%nat by lia. replace (Z.to_nat (s + 1 - (seq + 1))) with 0%nat by lia.
    rewrite !take_0. cbn [apply_ops]. rewrite read_cons by done. by rewrite decide_False.
Qed.

(** What [MemTable_Get] returns for what a reader sees. *)
Definition answer {B} `{Buffer B} (buf : B) (limit : Z) (st : Status) (r : option (option Slice)) : option (Status * B) :=
  match r with
  | None => None
  | Some None => Some (MkStatus kNotFound [] [], buf)
  | Some (Some v) => Some (st, Fill buf (take (Z.to_nat (Z.min (|[v]|) limit)) v))
  end.

Lemma MemTable_Get_read {B} `{Buffer B} m h k s lk (buf : B) limit st :
  mem_ok C valid m h -> valid k -> word 56 s -> |[k]| + 8 < 2 ^ 32 -> new_LookupKey ndebug k s = Some lk ->
  MemTable_Get C m lk buf limit st = Some (answer buf limit st (read h k s)).
Proof.
  intros. erewrite MemTable_Get_ok by done. unfold read. destruct (latest k s h) as [e |]; [| done]. cbn. by destruct (e_type e).
Qed.
End Apply.
Arguments read {C}. Arguments apply_ops {C}.

(** C23. A write batch is applied to a memtable in order and with a number for each update.  Building a batch with
    [Put] and [Delete], stamping it with a sequence number above those of the table and inserting it succeeds, and
    afterwards a lookup at snapshot [s] answers as if exactly the first [s + 1 - seq] updates of the batch had been
    made, one after the other, on what the table held: later updates win, deletions hide older values, and
    snapshots older than the batch see none of it. *)
Theorem batch_then_get ndebug (C : Comparator) (valid : Slice -> Prop) `{!ComparatorLaws C valid} ops seq m h :
  mem_ok C valid m h -> Forall (valid_op valid) ops -> op_count ops < 2 ^ 31 ->
  0 <= seq -> seq + op_count ops <= 2 ^ 56 -> (∀ e, e ∈ h -> e_seq e < seq) ->
  ∃ b0 b m', build ops Clear = Some b0 /\ SetSequence seq b0 = Some b /\ Count b = Some (op_count ops) /\ Sequence b = Some seq /\
    InsertInto ndebug C b m = Some (OK, m') /\ mem_ok C valid m' (rev (entries_from seq ops) ++ h) /\
    ∀ (k : Slice) s lk (buf : Slice) limit st, valid k -> word 56 s -> |[k]| + 8 < 2 ^ 32 -> new_LookupKey ndebug k s = Some lk ->
      MemTable_Get C m' lk buf limit st =
        Some (answer buf limit st (apply_ops (take (Z.to_nat (s + 1 - seq)) ops) (λ k, read h k s) k)).
Proof.
  intros Hm Hv Hn H0 Hseq Hlt. pose proof (op_count_nonneg ops).
  destruct (build_ok Clear 0 [] ops Clear_ok Hn) as (b0 & E0 & Hb0).
  destruct (SetSequence_ok b0 0 ops Hb0 seq) as (b & E & Hb).
  destruct (InsertInto_ok ndebug C valid b seq ops m h Hb Hm Hv H0 Hseq Hlt) as (m' & Ei & Hm' & _).
  exists b0, b, m'. split; [done |]. split; [done |]. split; [by apply (Count_ok b seq ops) |].
  split; [apply (Sequence_ok b seq ops); [done | split; lia] |]. split; [done |]. split; [done |].
  intros k s lk buf limit st Hk Hs Hlk El. rewrite (MemTable_Get_read ndebug C valid _ _ _ _ _ _ _ _ Hm' Hk Hs Hlk El).
  by rewrite read_entries.
Qed.

Lemma batch_then_get_witness :
  ∃ b m lk, InsertInto false (BytewiseComparator false) b new_MemTable = Some (OK, m) /\ Count b = Some 3 /\
    new_LookupKey false (lit "a") 6 = Some lk /\
    MemTable_Get (BytewiseComparator false) m lk [] 100 OK = Some (Some (OK, lit "1")).
Proof.
  destruct (batch_then_get false (BytewiseComparator false) bytes [BatPut (lit "a") (lit "1"); BatPut (lit "b") (lit "2"); BatDelete (lit "a")]
    5 new_MemTable []) as (b0 & b & m & _ & _ & Ec & _ & Ei & _ & Hget).
  - apply new_MemTable_ok.
  - repeat constructor; by_compute.
  - reflexivity.
  - lia.
  - by_compute.
  - intros e He. by apply elem_of_nil in He.
  - destruct (new_LookupKey false (lit "a") 6) as [lk |] eqn:El; [| discriminate El].
    exists b, m, lk. split; [exact Ei |]. split; [exact Ec |]. split; [reflexivity |].
    rewrite (Hget (lit "a") 6 lk [] 100 OK ltac:(by_compute) ltac:(by_compute) ltac:(by_compute) El). vm_compute. reflexivity.
Defined.
