(* ===== verification/Crc32cProps.v ===== *)
(** * The checksums agree: tables, instructions and zero operators compute one remainder *)
From S2P Require Import Prelude Coding Crc32c.

(** ** The remainder is linear *)
Lemma bit_step_lxor a b : bit_step (Z.lxor a b) = Z.lxor (bit_step a) (bit_step b).
Proof.
  unfold bit_step. rewrite Z.lxor_spec, Z.shiftr_lxor.
  destruct (Z.testbit a 0), (Z.testbit b 0); cbn [xorb]; bitwise i Hi; rewrite ?Z.lxor_spec; by repeat destruct (Z.testbit _ _).
Qed.
Lemma bits_lxor n a b : bits n (Z.lxor a b) = Z.lxor (bits n a) (bits n b).
Proof. induction n as [| n IH]; [done |]. cbn. by rewrite IH, bit_step_lxor. Qed.
Lemma bits_add n m x : bits (n + m) x = bits n (bits m x).
Proof. induction n as [| n IH]; [done |]. cbn. by rewrite IH. Qed.
Lemma bits_0 n : bits n 0 = 0.
Proof. induction n as [| n IH]; [done |]. cbn. by rewrite IH. Qed.

(** Zero bits below are shifted out. *)
Lemma bits_shiftl n x : bits n (Z.shiftl x (Z.of_nat n)) = x.
Proof.
  revert x. induction n as [| n IH]; intros x; [apply Z.shiftl_0_r |].
  replace (S n) with (n + 1)%nat by lia. rewrite bits_add.
  replace (bits 1 (Z.shiftl x (Z.of_nat (n + 1)))) with (Z.shiftl x (Z.of_nat n)); [apply IH |].
  cbn [bits]. unfold bit_step. rewrite Z.shiftl_spec_low by lia.
  rewrite Z.shiftr_shiftl_l by lia. f_equal. lia.
Qed.

Lemma lxor_word w a b : 0 <= w -> word w a -> word w b -> word w (Z.lxor a b).
Proof.
  intros Hw Ha Hb. assert (Z.lxor a b = wrap w (Z.lxor a b)) as ->; [| by apply wrap_word].
  apply Z.bits_inj'. intros i Hi. rewrite wrap_testbit, Z.lxor_spec by lia.
  destruct (Z.ltb_spec i w); [done |]. by rewrite (word_testbit w a), (word_testbit w b) by (done || lia).
Qed.
Lemma bit_step_word x : word 32 x -> word 32 (bit_step x).
Proof.
  intros Hx. assert (word 32 (Z.shiftr x 1)) as Hs by (eapply word_mono; [apply (word_shiftr 32 x 1 Hx); lia | lia]).
  unfold bit_step. destruct (Z.testbit x 0); [| done]. apply lxor_word; [lia | done | by_compute].
Qed.
Lemma bits_word n x : word 32 x -> word 32 (bits n x).
Proof. intros Hx. induction n as [| n IH]; [done |]. cbn. by apply bit_step_word. Qed.

(** ** Low and high parts of a word *)
Lemma low_high x n : 0 <= n -> x = Z.lxor (Z.land x (Z.ones n)) (Z.shiftl (Z.shiftr x n) n).
Proof.
  intros Hn. bitwise i Hi. destruct (Z.ltb_spec i n).
  - rewrite Z.ones_spec_low, (Z.testbit_neg_r _ (i - n)) by lia. by rewrite andb_true_r, xorb_false_r.
  - rewrite Z.ones_spec_high, andb_false_r, xorb_false_l by lia. rewrite Z.shiftr_spec by lia. f_equal. lia.
Qed.

Lemma bits_low_high n x : bits n x = Z.lxor (bits n (Z.land x (Z.ones (Z.of_nat n)))) (Z.shiftr x (Z.of_nat n)).
Proof. rewrite (low_high x (Z.of_nat n)) at 1 by lia. by rewrite bits_lxor, bits_shiftl. Qed.

(** ** Bytes and words of data *)
Fixpoint le_val (p : Slice) : Z := match p with [] => 0 | b :: p => Z.lxor b (Z.shiftl (le_val p) 8) end.

Lemma bits_le_val l p : bits (8 * length p) (Z.lxor l (le_val p)) = foldl byte_step l p.
Proof.
  revert l. induction p as [| b p IH]; intros l.
  { change (Z.lxor l 0 = l). apply Z.lxor_0_r. }
  cbn [le_val foldl length]. replace (8 * S (length p))%nat with (8 * length p + 8)%nat by lia.
  rewrite <- IH, bits_add. f_equal. unfold byte_step. rewrite <- Z.lxor_assoc, bits_lxor. f_equal. apply (bits_shiftl 8).
Qed.

Lemma lor_lxor_disjoint a b : Z.land a b = 0 -> Z.lor a b = Z.lxor a b.
Proof. intros H. symmetry. by apply Z.lxor_lor. Qed.

(** The update of the remainder by data, split at any place. *)
Lemma update_app l p q : foldl byte_step l (p ++ q) = foldl byte_step (foldl byte_step l p) q.
Proof. apply foldl_app. Qed.
Lemma update_lxor l l' p : foldl byte_step (Z.lxor l l') p = Z.lxor (bits (8 * length p) l) (foldl byte_step l' p).
Proof. rewrite <- !bits_le_val, Z.lxor_assoc. apply bits_lxor. Qed.
Lemma update_word l p : word 32 l -> bytes p -> word 32 (foldl byte_step l p).
Proof.
  intros Hl Hp. revert l Hl. induction Hp as [| b p Hb Hp IH]; intros l Hl; [done |]. cbn [foldl]. apply IH. unfold byte_step. apply bits_word.
  apply lxor_word; [lia | done |]. eapply word_mono; [done | lia].
Qed.

(** ** The software tables *)
Definition table_ok (n : nat) (table : list Z) : bool :=
  bool_decide (table = (λ i, bits n (Z.of_nat i)) <$> seq 0 256).
Lemma at_table_ok n table i : table_ok n table = true -> word 8 i -> at_table table i = bits n i.
Proof.
  intros ->%bool_decide_eq_true [H0 Hi]. unfold at_table. change (2 ^ 8) with 256 in Hi.
  assert (nth (Z.to_nat i) ((λ i, bits n (Z.of_nat i)) <$> seq 0 256) 0 = bits n (Z.of_nat (Z.to_nat i))) as ->; [| by rewrite Z2Nat.id].
  apply nth_lookup_Some. rewrite list_lookup_fmap, lookup_seq_lt by lia. done.
Qed.

Lemma at_table0 i : word 8 i -> at_table table0_ i = bits 8 i.
Proof. intros Hi. apply at_table_ok; [vm_compute; reflexivity | exact Hi]. Qed.
Lemma at_table1 i : word 8 i -> at_table table1_ i = bits 16 i.
Proof. intros Hi. apply at_table_ok; [vm_compute; reflexivity | exact Hi]. Qed.
Lemma at_table2 i : word 8 i -> at_table table2_ i = bits 24 i.
Proof. intros Hi. apply at_table_ok; [vm_compute; reflexivity | exact Hi]. Qed.
Lemma at_table3 i : word 8 i -> at_table table3_ i = bits 32 i.
Proof. intros Hi. apply at_table_ok; [vm_compute; reflexivity | exact Hi]. Qed.

Lemma word8_land x : word 8 (Z.land x 0xff).
Proof. change 0xff with (Z.ones 8). apply land_ones_word. lia. Qed.

Lemma land_lxor_byte l b : word 8 b -> Z.lxor (Z.land l 0xff) b = Z.land (Z.lxor l b) 0xff.
Proof.
  intros Hb. bitwise i Hi. change 0xff with (Z.ones 8). destruct (Z.ltb_spec i 8).
  - by rewrite Z.ones_spec_low, !andb_true_r by lia.
  - rewrite Z.ones_spec_high, !andb_false_r by lia. by rewrite (word_testbit 8 b) by (done || lia).
Qed.
Lemma shiftr_lxor_byte l b : word 8 b -> Z.shiftr l 8 = Z.shiftr (Z.lxor l b) 8.
Proof.
  intros Hb. bitwise i Hi. by rewrite (word_testbit 8 b), xorb_false_r by (done || lia).
Qed.

Lemma bits_byte x : bits 8 x = Z.lxor (bits 8 (Z.land x 0xff)) (Z.shiftr x 8).
Proof. pose proof (bits_low_high 8 x) as H. change (Z.of_nat 8) with 8 in H. change (Z.ones 8) with 0xff in H. exact H. Qed.

Lemma STEP1_ok l b : word 8 b -> STEP1 l b = byte_step l b.
Proof.
  intros Hb. unfold STEP1, byte_step.
  rewrite land_lxor_byte by done. rewrite at_table0 by apply word8_land.
  rewrite (shiftr_lxor_byte l b) by done. by rewrite (bits_byte (Z.lxor l b)).
Qed.

(** ** Loads *)
Fixpoint le_or (p : Slice) : Z := match p with [] => 0 | b :: p => Z.lor b (Z.shiftl (le_or p) 8) end.

Lemma le_val_or p : bytes p -> le_val p = le_or p.
Proof.
  induction 1 as [| b p Hb Hp IH]; [done |]. cbn. rewrite IH. symmetry. apply lor_lxor_disjoint.
  bitwise i Hi. rewrite Z.bits_0. destruct (Z.ltb_spec i 8); [by rewrite (Z.testbit_neg_r _ (i - 8)), andb_false_r by lia |].
  by rewrite (word_testbit 8 b) by (done || lia).
Qed.
Lemma shiftl_le_or n p : 0 <= n -> Z.shiftl (le_or p) n = match p with [] => 0 | b :: p => Z.lor (Z.shiftl b n) (Z.shiftl (le_or p) (n + 8)) end.
Proof.
  intros Hn. destruct p as [| b p]; cbn; [apply Z.shiftl_0_l |]. rewrite Z.shiftl_lor, Z.shiftl_shiftl by lia. do 2 f_equal. lia.
Qed.
Lemma DecodeFixed32_le b0 b1 b2 b3 r : DecodeFixed32 (b0 :: b1 :: b2 :: b3 :: r) = Some (le_or [b0; b1; b2; b3]).
Proof.
  cbn [DecodeFixed32 le_or]. f_equal. rewrite !Z.shiftl_lor, !Z.shiftl_shiftl, Z.shiftl_0_l, Z.lor_0_r by lia. by rewrite !Z.lor_assoc.
Qed.
Lemma le_or_app p q : le_or (p ++ q) = Z.lor (le_or p) (Z.shiftl (le_or q) (8 * Z.of_nat (length p))).
Proof.
  induction p as [| b p IH]; cbn [app le_or length]; [by rewrite Z.shiftl_0_r |].
  rewrite IH, Z.shiftl_lor, Z.shiftl_shiftl, Z.lor_assoc by lia. do 2 f_equal. lia.
Qed.

(** The first [n] of a string that is long enough, as a literal list. *)
Ltac split_list p n Hp :=
  lazymatch n with
  | O => idtac
  | S ?m => let b := fresh "b" in destruct p as [| b p]; [cbn in Hp; lia |]; split_list p m Hp
  end.

Lemma load32 p : bytes p -> (4 <= length p)%nat -> DecodeFixed32 p = Some (le_val (take 4 p)).
Proof.
  intros Hb Hp. rewrite le_val_or by by apply Forall_take. split_list p 4%nat Hp. rewrite DecodeFixed32_le. done.
Qed.
Lemma load64_ok p : bytes p -> (8 <= length p)%nat -> load64 p = le_val (take 8 p).
Proof.
  intros Hb Hp. rewrite le_val_or by by apply Forall_take. unfold load64, DecodeFixed64. split_list p 8%nat Hp.
  rewrite DecodeFixed32_le. cbn [mbind option_bind drop]. rewrite DecodeFixed32_le. cbn [mbind option_bind default take].
  rewrite take_0. match goal with |- _ = le_or [?a; ?b; ?c; ?d; ?e; ?f; ?g; ?h] => pose proof (le_or_app [a; b; c; d] [e; f; g; h]) as E end.
  cbn [app] in E. rewrite E. apply Z.lor_comm.
Qed.

Lemma bits_step8 n x : bits (n + 8) x = Z.lxor (bits (n + 8) (Z.land x 0xff)) (bits n (Z.shiftr x 8)).
Proof. rewrite !bits_add. rewrite (bits_byte x) at 1. apply bits_lxor. Qed.

Lemma bits_32 x : bits 32 x = Z.lxor (bits 32 (Z.land x 0xff)) (bits 24 (Z.shiftr x 8)).
Proof. exact (bits_step8 24 x). Qed.
Lemma bits_24 x : bits 24 x = Z.lxor (bits 24 (Z.land x 0xff)) (bits 16 (Z.shiftr x 8)).
Proof. exact (bits_step8 16 x). Qed.
Lemma bits_16 x : bits 16 x = Z.lxor (bits 16 (Z.land x 0xff)) (bits 8 (Z.shiftr x 8)).
Proof. exact (bits_step8 8 x). Qed.

Lemma STEP4_ok l w : word 32 (Z.lxor l w) -> STEP4 l w = bits 32 (Z.lxor l w).
Proof.
  intros Hw. unfold STEP4. set (c := Z.lxor l w) in *.
  assert (word 8 (Z.shiftr c 24)) as Hc by (apply (word_shiftr 32); [done | lia]).
  rewrite at_table3, at_table2, at_table1, at_table0 by (exact Hc || apply word8_land).
  rewrite (bits_32 c), (bits_24 (Z.shiftr c 8)), (bits_16 (Z.shiftr (Z.shiftr c 8) 8)).
  rewrite !Z.shiftr_shiftr by lia. change (8 + 8) with 16. change (16 + 8) with 24. by rewrite !Z.lxor_assoc.
Qed.
Lemma le_val_word p : bytes p -> word (8 * Z.of_nat (length p)) (le_val p).
Proof.
  induction 1 as [| b p Hb Hp IH]; [by_compute |]. cbn [le_val length]. apply lxor_word; [lia | |].
  - eapply word_mono; [done | lia].
  - replace (8 * Z.of_nat (S (length p))) with (8 * Z.of_nat (length p) + 8) by lia. destruct IH as [? IH].
    rewrite Z.shiftl_mul_pow2 by lia. unfold word. rewrite Z.pow_add_r by lia. nia.
Qed.

Lemma STEP4_update l p : word 32 l -> bytes p -> (4 <= length p)%nat ->
  STEP4 l (default 0 (DecodeFixed32 p)) = foldl byte_step l (take 4 p).
Proof.
  intros Hl Hb Hp. rewrite load32 by done. cbn [default]. assert (length (take 4 p) = 4)%nat as El by (rewrite length_take; lia).
  pose proof (le_val_word (take 4 p) (Forall_take _ _ _ Hb)) as Hw. rewrite El in Hw.
  rewrite STEP4_ok by (apply lxor_word; [lia | done | exact Hw]). rewrite <- bits_le_val, El. done.
Qed.

(** ** The software loops *)
Definition same_update (r : Z * Slice) (l : Z) (p : Slice) : Prop :=
  foldl byte_step r.1 r.2 = foldl byte_step l p /\ word 32 r.1 /\ bytes r.2.

Lemma sw_bytes_ok l p : bytes p -> sw_bytes l p = foldl byte_step l p.
Proof. intros Hp. revert l. induction Hp as [| b p Hb Hp IH]; intros l; [done |]. cbn [sw_bytes foldl]. by rewrite STEP1_ok, IH. Qed.

Lemma sw_words_ok fuel l p : word 32 l -> bytes p -> same_update (sw_words fuel l p) l p.
Proof.
  revert l p. induction fuel as [| fuel IH]; intros l p Hl Hp; cbn [sw_words]; [done |]. case_decide; [| done].
  rewrite STEP4_update by done. destruct (IH (foldl byte_step l (take 4 p)) (drop 4 p)) as (E & Hw & Hb).
  - by apply update_word; [| apply Forall_take].
  - by apply Forall_drop.
  - split; [| done]. rewrite E, <- update_app. by rewrite take_drop.
Qed.
Lemma sw_words16_ok fuel l p : word 32 l -> bytes p -> same_update (sw_words16 fuel l p) l p.
Proof.
  revert l p. induction fuel as [| fuel IH]; intros l p Hl Hp; cbn [sw_words16]; [done |]. case_decide; [| done].
  pose proof (sw_words_ok 4 l p Hl Hp) as (E & Hw & Hb). destruct (sw_words 4 l p) as [l' p']. cbn [fst snd] in *.
  destruct (IH l' p' Hw Hb) as (E' & H'). split; [congruence | done].
Qed.

Lemma inv_word crc : word 32 crc -> word 32 (Z.lxor crc 0xffffffff).
Proof. intros H. apply lxor_word; [lia | done | by_compute]. Qed.

Lemma ExtendSW_ok buf crc data : word 32 crc -> bytes data -> ExtendSW buf crc data = crc_bits crc data.
Proof.
  intros Hc Hb. unfold ExtendSW, crc_bits. pose proof (inv_word crc Hc) as Hl. set (l := Z.lxor crc 0xffffffff) in *.
  set (x := Z.to_nat _).
  assert (same_update (if decide (x <= length data)%nat then (sw_bytes l (take x data), drop x data) else (l, data)) l data) as (E & Hw & Hb1).
  { case_decide; [| done]. rewrite sw_bytes_ok by by apply Forall_take. split; cbn.
    - rewrite <- update_app. by rewrite take_drop.
    - split; [by apply update_word; [| apply Forall_take] | by apply Forall_drop]. }
  destruct (if decide _ then _ else _) as [l1 p1]. cbn [fst snd] in *.
  destruct (sw_words16_ok (length p1) l1 p1 Hw Hb1) as (E2 & Hw2 & Hb2). destruct (sw_words16 _ l1 p1) as [l2 p2]. cbn [fst snd] in *.
  destruct (sw_words_ok (length p2) l2 p2 Hw2 Hb2) as (E3 & Hw3 & Hb3). destruct (sw_words _ l2 p2) as [l3 p3]. cbn [fst snd] in *.
  rewrite sw_bytes_ok by done. by rewrite E3, E2, E.
Qed.

(** ** Operators as matrices *)
Definition linear (f : Z -> Z) : Prop := f 0 = 0 /\ ∀ a b, f (Z.lxor a b) = Z.lxor (f a) (f b).
Definition columns (f : Z -> Z) (k n : nat) : list Z := (λ i, f (2 ^ Z.of_nat i)) <$> seq k n.
Definition matrix (f : Z -> Z) : list Z := columns f 0 32.

Lemma bits_linear n : linear (bits n).
Proof. split; [apply bits_0 | apply bits_lxor]. Qed.

Lemma shiftl_step vec k : 0 <= k ->
  Z.shiftl vec k = Z.lxor (if Z.testbit vec 0 then 2 ^ k else 0) (Z.shiftl (Z.shiftr vec 1) (k + 1)).
Proof.
  intros Hk. rewrite (low_high vec 1) at 1 by lia. rewrite Z.shiftl_lxor, Z.shiftl_shiftl by lia. rewrite (Z.add_comm 1 k). f_equal.
  change (Z.ones 1) with 1. rewrite <- (Z.mul_1_l (2 ^ k)), <- Z.shiftl_mul_pow2 by lia.
  change 1 with (Z.ones 1) at 1. rewrite Z.land_ones, <- Z.bit0_mod by lia. destruct (Z.testbit vec 0); [done | apply Z.shiftl_0_l].
Qed.

Lemma gf2_matrix_times_loop_ok f n k vec sum : linear f -> word (Z.of_nat n) vec ->
  gf2_matrix_times_loop (columns f k n) vec sum = Z.lxor sum (f (Z.shiftl vec (Z.of_nat k))).
Proof.
  intros [Hf0 Hf]. revert k vec sum. induction n as [| n IH]; intros k vec sum Hv.
  { assert (vec = 0) as -> by (destruct Hv as [? Hv]; cbn in Hv; lia). by rewrite Z.shiftl_0_l, Hf0, Z.lxor_0_r. }
  cbn [columns seq fmap list_fmap gf2_matrix_times_loop]. destruct (Z.eqb_spec vec 0) as [-> | Hne].
  { by rewrite Z.shiftl_0_l, Hf0, Z.lxor_0_r. }
  fold (columns f (S k) n). rewrite IH.
  - rewrite (shiftl_step vec (Z.of_nat k)), Hf by lia. replace (Z.of_nat k + 1) with (Z.of_nat (S k)) by lia.
    rewrite <- Z.lxor_assoc. f_equal. destruct (Z.testbit vec 0); [done |]. by rewrite Hf0, Z.lxor_0_r.
  - replace (Z.of_nat n) with (Z.of_nat (S n) - 1) by lia. apply word_shiftr; [done | lia].
Qed.
Lemma gf2_matrix_times_ok f vec : linear f -> word 32 vec -> gf2_matrix_times (matrix f) vec = f vec.
Proof.
  intros Hf Hv. unfold gf2_matrix_times, matrix. rewrite gf2_matrix_times_loop_ok by done.
  by rewrite Z.lxor_0_l, Z.shiftl_0_r.
Qed.

Lemma square_ok n : gf2_matrix_square (matrix (bits n)) = matrix (bits (n + n)).
Proof.
  unfold gf2_matrix_square. unfold matrix at 2 3, columns. rewrite <- list_fmap_compose. apply list_fmap_ext.
  intros j i [-> Hj]%lookup_seq. cbn [compose Nat.add]. rewrite bits_add. apply gf2_matrix_times_ok; [apply bits_linear |].
  apply bits_word. split; [lia |]. apply Z.pow_lt_mono_r; lia.
Qed.

Lemma zeros_op_loop_ok fuel n k : (k < 2 * fuel)%nat ->
  zeros_op_loop fuel (matrix (bits n)) (2 ^ Z.of_nat k) = matrix (bits (n * 2 ^ S k)).
Proof.
  assert (∀ k : nat, Z.shiftr (2 ^ Z.of_nat (S k)) 1 = 2 ^ Z.of_nat k) as Hs.
  { intros j. rewrite Nat2Z.inj_succ, Z.pow_succ_r, Z.shiftr_div_pow2 by lia. change (2 ^ 1) with 2. rewrite Z.mul_comm. apply Z.div_mul. lia. }
  assert (∀ k : nat, 2 ^ Z.of_nat k =? 0 = false) as Hz by (intros j; apply Z.eqb_neq; pose proof (Z.pow_pos_nonneg 2 (Z.of_nat j)); lia).
  revert n k. induction fuel as [| fuel IH]; intros n k Hk; [lia |]. cbn [zeros_op_loop]. rewrite !square_ok.
  destruct k as [| [| k]].
  - change (Z.shiftr (2 ^ Z.of_nat 0) 1) with 0. cbn [Z.eqb]. do 2 f_equal. cbn. lia.
  - rewrite Hs, Hz. change (Z.shiftr (2 ^ Z.of_nat 0) 1) with 0. cbn [Z.eqb]. do 2 f_equal. cbn. lia.
  - rewrite Hs, Hz, Hs, Hz, IH by lia. do 2 f_equal. cbn [Nat.pow]. lia.
Qed.

Lemma crc32c_zeros_op_ok k : (k < 64)%nat -> crc32c_zeros_op (2 ^ Z.of_nat k) = matrix (bits (8 * 2 ^ k)).
Proof.
  intros Hk. unfold crc32c_zeros_op.
  replace (POLY :: ((λ n, Z.shiftl 1 (Z.of_nat n)) <$> seq 0 31)) with (matrix (bits 1)) by (vm_compute; reflexivity).
  rewrite !square_ok, zeros_op_loop_ok by lia. do 2 f_equal. cbn [Nat.pow]. lia.
Qed.

Lemma at_row (g : nat -> Z) i : word 8 i -> at_table (g <$> seq 0 256) i = g (Z.to_nat i).
Proof.
  intros [H0 Hi]. change (2 ^ 8) with 256 in Hi. unfold at_table. apply nth_lookup_Some.
  rewrite list_lookup_fmap, lookup_seq_lt by lia. done.
Qed.

Lemma four_bytes x :
  x = Z.lxor (Z.lxor (Z.lxor (Z.land x 0xff) (Z.shiftl (Z.land (Z.shiftr x 8) 0xff) 8))
                     (Z.shiftl (Z.land (Z.shiftr x 16) 0xff) 16)) (Z.shiftl (Z.shiftr x 24) 24).
Proof.
  pose proof (low_high x 8 ltac:(lia)) as E0. pose proof (low_high (Z.shiftr x 8) 8 ltac:(lia)) as E1.
  pose proof (low_high (Z.shiftr x 16) 8 ltac:(lia)) as E2. change (Z.ones 8) with 0xff in *.
  rewrite !Z.shiftr_shiftr in * by lia. change (8 + 8) with 16 in *. change (16 + 8) with 24 in *.
  rewrite E0 at 1. rewrite E1 at 1. rewrite E2 at 1. rewrite !Z.shiftl_lxor, !Z.shiftl_shiftl, !Z.lxor_assoc by lia. done.
Qed.

(** Appending [2 ^ k] zero bytes to a checksum. *)
Lemma crc32c_shift_ok k crc : (k < 64)%nat -> word 32 crc ->
  crc32c_shift (crc32c_zeros (2 ^ Z.of_nat k)) crc = bits (8 * 2 ^ k) crc.
Proof.
  intros Hk Hc. unfold crc32c_shift, crc32c_zeros. cbn [fmap list_fmap nth]. rewrite crc32c_zeros_op_ok by done.
  assert (word 8 (Z.shiftr crc 24)) as H24 by (apply (word_shiftr 32); [done | lia]).
  rewrite !at_row by (exact H24 || apply word8_land).
  assert (∀ i n, word 8 i -> 0 <= n <= 24 -> gf2_matrix_times (matrix (bits (8 * 2 ^ k))) (u32 (Z.shiftl (Z.of_nat (Z.to_nat i)) n))
    = bits (8 * 2 ^ k) (Z.shiftl i n)) as Hrow.
  { intros i n [H0 Hi] Hn. rewrite Z2Nat.id by done. change (2 ^ 8) with 256 in Hi.
    assert (word 32 (Z.shiftl i n)) as Hw.
    { rewrite Z.shiftl_mul_pow2 by lia. split; [nia |]. pose proof (Z.pow_le_mono_r 2 n 24).
      change (2 ^ 32) with (256 * 2 ^ 24). nia. }
    unfold u32. rewrite wrap_small by done. apply gf2_matrix_times_ok; [apply bits_linear | done]. }
  rewrite !Hrow by (exact H24 || apply word8_land || lia). rewrite <- !bits_lxor. f_equal. rewrite Z.shiftl_0_r.
  symmetry. apply four_bytes.
Qed.

(** ** The hardware loops *)
Section Hardware.
Variables crc32b crc32q : Z -> Z -> Z.
Hypothesis crc32b_ok : ∀ crc byte, word 32 crc -> word 8 byte -> crc32b crc byte = bits 8 (Z.lxor crc byte).
Hypothesis crc32q_ok : ∀ crc q, word 32 crc -> word 64 q -> crc32q crc q = bits 64 (Z.lxor crc q).

Lemma crc32q_update l p : word 32 l -> bytes p -> (8 <= length p)%nat ->
  crc32q l (load64 p) = foldl byte_step l (take 8 p).
Proof.
  intros Hl Hb Hp. rewrite load64_ok by done. assert (length (take 8 p) = 8)%nat as El by (rewrite length_take; lia).
  pose proof (le_val_word (take 8 p) (Forall_take _ _ _ Hb)) as Hw. rewrite El in Hw.
  rewrite crc32q_ok by (exact Hl || exact Hw). rewrite <- bits_le_val, El. done.
Qed.

Lemma crc32b_update l p : word 32 l -> bytes p -> foldl crc32b l p = foldl byte_step l p.
Proof.
  intros Hl Hp. revert l Hl. induction Hp as [| b p Hb Hp IH]; intros l Hl; [done |]. cbn [foldl].
  rewrite crc32b_ok by done. change (bits 8 (Z.lxor l b)) with (byte_step l b). apply IH.
  apply (update_word l [b]); [done | by constructor].
Qed.

Lemma hw_lead_ok addr l p : word 32 l -> bytes p -> same_update (hw_lead crc32b addr l p) l p.
Proof.
  intros Hl Hp. revert addr l Hl. induction Hp as [| b p Hb Hp IH]; intros addr l Hl; cbn [hw_lead]; [split; [done |]; split; [done | constructor] |].
  destruct (negb _).
  - rewrite crc32b_ok by done. change (bits 8 (Z.lxor l b)) with (byte_step l b). apply IH.
    apply (update_word l [b]); [done | by constructor].
  - split; [done |]. split; [done |]. by constructor.
Qed.

Lemma hw_words_ok fuel l p : word 32 l -> bytes p -> same_update (hw_words crc32q fuel l p) l p.
Proof.
  revert l p. induction fuel as [| fuel IH]; intros l p Hl Hp; cbn [hw_words]; [done |]. case_decide; [| done].
  rewrite crc32q_update by done. destruct (IH (foldl byte_step l (take 8 p)) (drop 8 p)) as (E & Hw & Hb).
  - by apply update_word; [| apply Forall_take].
  - by apply Forall_drop.
  - split; [| done]. rewrite E, <- update_app. by rewrite take_drop.
Qed.

(** The three streams read their blocks. *)
Lemma hw_three_ok n size l0 l1 l2 p : bytes p -> word 32 l0 -> word 32 l1 -> word 32 l2 ->
  (8 * n + (size + size) <= length p)%nat ->
  hw_three crc32q n size l0 l1 l2 p =
    (foldl byte_step l0 (take (8 * n) p), foldl byte_step l1 (take (8 * n) (drop size p)),
     foldl byte_step l2 (take (8 * n) (drop (size + size) p))).
Proof.
  revert l0 l1 l2 p. induction n as [| n IH]; intros l0 l1 l2 p Hb H0 H1 H2 Hl; [done |]. cbn [hw_three].
  assert (∀ k, bytes (drop k p)) as Hd by (intros k; by apply Forall_drop).
  assert (∀ k (q : Slice), take (8 * S k) q = take 8 q ++ take (8 * k) (drop 8 q)) as Ht.
  { intros k q. replace (8 * S k)%nat with (8 + 8 * k)%nat by lia. symmetry. apply take_take_drop. }
  rewrite !crc32q_update by (done || (rewrite ?length_drop; lia)).
  rewrite IH; [| done | by apply update_word; [| apply Forall_take; apply Hd || done].. | rewrite length_drop; lia].
  rewrite !Ht, !update_app, !drop_drop. by rewrite (Nat.add_comm 8 size), (Nat.add_comm 8 (size + size)).
Qed.

Lemma hw_blocks_ok fuel k l p : (3 <= k < 64)%nat -> word 32 l -> bytes p ->
  same_update (hw_blocks crc32q fuel (2 ^ k) (crc32c_zeros (2 ^ Z.of_nat k)) l p) l p.
Proof.
  intros Hk. set (size := (2 ^ k)%nat). assert (8 * (size / 8) = size)%nat as Hs.
  { unfold size. replace k with (3 + (k - 3))%nat by lia. rewrite Nat.pow_add_r. change (2 ^ 3)%nat with 8%nat.
    rewrite (Nat.mul_comm 8 (2 ^ (k - 3))), Nat.div_mul by lia. lia. }
  revert l p. induction fuel as [| fuel IH]; intros l p Hl Hp; cbn [hw_blocks]; [done |]. case_decide as Hlen; [| done].
  assert (∀ j, bytes (drop j p)) as Hd by (intros j; by apply Forall_drop).
  assert (word 32 0) as H0 by by_compute.
  rewrite hw_three_ok by (done || lia). rewrite Hs.
  set (a := take size p). set (b := take size (drop size p)). set (c := take size (drop (size + size) p)).
  assert (length b = size /\ length c = size) as [Lb Lc] by (unfold b, c; rewrite !length_take, !length_drop; lia).
  assert (word 32 (foldl byte_step l a)) as Ha by (by apply update_word; [| apply Forall_take]).
  rewrite (crc32c_shift_ok k (foldl byte_step l a)) by (done || lia). fold size.
  assert (∀ l', Z.lxor (bits (8 * size) l') (foldl byte_step 0 b) = foldl byte_step l' b) as Eb
    by (intros l'; rewrite <- Lb at 1; rewrite <- update_lxor, Z.lxor_0_r; done).
  assert (∀ l', Z.lxor (bits (8 * size) l') (foldl byte_step 0 c) = foldl byte_step l' c) as Ec
    by (intros l'; rewrite <- Lc at 1; rewrite <- update_lxor, Z.lxor_0_r; done).
  rewrite Eb. assert (word 32 (foldl byte_step (foldl byte_step l a) b)) as Hab
    by (apply update_word; [done | apply Forall_take; apply Hd]).
  rewrite crc32c_shift_ok by (done || lia). fold size. rewrite Ec.
  destruct (IH (foldl byte_step (foldl byte_step (foldl byte_step l a) b) c) (drop (size + size + size) p)) as (E & H').
  - apply update_word; [done | apply Forall_take; apply Hd].
  - apply Hd.
  - split; [| done]. rewrite E, <- !update_app. f_equal. unfold a, b, c.
    rewrite <- (drop_drop p size (size + size)), take_drop, <- (drop_drop p size size), take_drop, take_drop. done.
Qed.

Lemma ExtendHW_ok addr crc data : word 32 crc -> bytes data -> ExtendHW crc32b crc32q addr crc data = crc_bits crc data.
Proof.
  intros Hc Hb. unfold ExtendHW, crc_bits. pose proof (inv_word crc Hc) as Hl. set (l := Z.lxor crc 0xffffffff) in *.
  destruct (hw_lead_ok addr l data Hl Hb) as (E1 & Hw1 & Hb1). destruct (hw_lead _ _ l data) as [l1 p1]. cbn [fst snd] in *.
  pose proof (hw_blocks_ok (length p1) 13 l1 p1 ltac:(lia) Hw1 Hb1) as (E2 & Hw2 & Hb2).
  change (2 ^ 13)%nat with LONG in *. change (crc32c_zeros (2 ^ Z.of_nat 13)) with crc32c_long in *.
  destruct (hw_blocks _ _ LONG _ l1 p1) as [l2 p2]. cbn [fst snd] in *.
  pose proof (hw_blocks_ok (length p2) 8 l2 p2 ltac:(lia) Hw2 Hb2) as (E3 & Hw3 & Hb3).
  change (2 ^ 8)%nat with SHORT in *. change (crc32c_zeros (2 ^ Z.of_nat 8)) with crc32c_short in *.
  destruct (hw_blocks _ _ SHORT _ l2 p2) as [l3 p3]. cbn [fst snd] in *.
  destruct (hw_words_ok (length p3) l3 p3 Hw3 Hb3) as (E4 & Hw4 & Hb4). destruct (hw_words _ _ l3 p3) as [l4 p4]. cbn [fst snd] in *.
  rewrite crc32b_update by done. by rewrite E4, E3, E2, E1.
Qed.
End Hardware.

Lemma Unmask_Mask crc : word 32 crc -> Unmask (Mask crc) = crc.
Proof.
  intros Hc. unfold Unmask, Mask.
  set (r := Z.lor (Z.shiftr crc 15) (u32 (Z.shiftl crc 17))).
  assert (word 32 r) as Hr.
  { assert (r = wrap 32 r) as ->; [| apply wrap_word; lia]. unfold r. apply Z.bits_inj'. intros i Hi.
    unfold u32. rewrite wrap_testbit, !Z.lor_spec, wrap_testbit by lia. destruct (Z.ltb_spec i 32); [done |].
    rewrite Z.shiftr_spec, (word_testbit 32 crc) by (done || lia). done. }
  assert (u32 (u32 (r + kMaskDelta) - kMaskDelta) = r) as ->.
  { unfold u32, wrap. rewrite Zminus_mod_idemp_l. replace (r + kMaskDelta - kMaskDelta) with r by lia. by apply Z.mod_small. }
  assert (∀ j, 0 <= j -> Z.testbit r j = Z.testbit crc (j + 15) || ((j <? 32) && Z.testbit crc (j - 17))) as Hrj.
  { intros j Hj. unfold r, u32. by rewrite Z.lor_spec, wrap_testbit, Z.shiftr_spec, Z.shiftl_spec by lia. }
  apply Z.bits_inj'. intros i Hi. unfold u32. rewrite Z.lor_spec, wrap_testbit, Z.shiftr_spec, Z.shiftl_spec, Hrj by lia.
  rewrite (word_testbit 32 crc (i + 17 + 15)) by (done || lia). replace (i + 17 - 17) with i by lia. cbn [orb].
  destruct (Z.ltb_spec i 32); [| by rewrite (word_testbit 32 crc i), andb_false_r by (done || lia)].
  destruct (Z.ltb_spec i 15).
  - rewrite (Z.testbit_neg_r _ (i - 15)), (proj2 (Z.ltb_lt (i + 17) 32)) by lia. by rewrite orb_false_r.
  - rewrite (proj2 (Z.ltb_ge (i + 17) 32)), Hrj by lia. replace (i - 15 + 15) with i by lia.
    rewrite (Z.testbit_neg_r _ (i - 15 - 17)) by lia. by rewrite andb_false_r, orb_false_r.
Qed.

Lemma crc_bits_word crc data : word 32 crc -> bytes data -> word 32 (crc_bits crc data).
Proof. intros Hc Hd. apply inv_word, update_word; [by apply inv_word | done]. Qed.
Lemma crc_bits_app crc data data' : crc_bits (crc_bits crc data) data' = crc_bits crc (data ++ data').
Proof. unfold crc_bits. by rewrite update_app, Z.lxor_assoc, Z.lxor_nilpotent, Z.lxor_0_r. Qed.

(** C38. All ways to compute a checksum agree.  The software that takes four bytes at a time through tables, at any
    address, and the hardware path with its three parallel streams and its zero operators, given the documented effect
    of the two crc instructions, both compute the bit-by-bit remainder; extending a checksum by two pieces of data
    one after the other is extending it by their concatenation; and unmasking undoes masking. *)
Theorem crc32c_equal crc32b crc32q hw addr addr' crc data data' :
  (∀ crc byte, word 32 crc -> word 8 byte -> crc32b crc byte = bits 8 (Z.lxor crc byte)) ->
  (∀ crc q, word 32 crc -> word 64 q -> crc32q crc q = bits 64 (Z.lxor crc q)) ->
  word 32 crc -> bytes data -> bytes data' ->
  Extend crc32b crc32q hw addr crc data = crc_bits crc data /\
  Extend crc32b crc32q hw addr' (Extend crc32b crc32q hw addr crc data) data' = Extend crc32b crc32q hw addr crc (data ++ data') /\
  Unmask (Mask (Extend crc32b crc32q hw addr crc data)) = Extend crc32b crc32q hw addr crc data.
Proof.
  intros Hb Hq Hc Hd Hd'.
  assert (∀ a c d, word 32 c -> bytes d -> Extend crc32b crc32q hw a c d = crc_bits c d) as H.
  { intros a c d ? ?. unfold Extend. destruct hw; [by apply ExtendHW_ok | by apply ExtendSW_ok]. }
  pose proof (crc_bits_word crc data Hc Hd) as Hw.
  rewrite (H addr crc data), H, (H addr crc (data ++ data')) by (done || by apply Forall_app). split; [done |]. split.
  - apply crc_bits_app.
  - by apply Unmask_Mask.
Qed.

Lemma crc32c_equal_witness :
  Extend (λ c b, bits 8 (Z.lxor c b)) (λ c q, bits 64 (Z.lxor c q)) false 1 0 (lit "123456789") = 0xe3069283.
Proof.
  destruct (crc32c_equal (λ c b, bits 8 (Z.lxor c b)) (λ c q, bits 64 (Z.lxor c q)) false 1 0 0 (lit "123456789") [])
    as [E _]; [done | done | by_compute.. |]. rewrite E. vm_compute. reflexivity.
Defined.
