(* ===== verification/Log.v ===== *)
(** * Write-ahead logs ([log_format.h], [log_writer.h], [log_writer.cc], [log_reader.h], [log_reader.cc])

    Files are the interfaces [WritableFile] and [SequentialFile].  The writer cuts a record into
    fragments that do not cross the blocks of the file; the reader reads block by block and joins the
    fragments, and reports what it drops.  Checksums are [crc32c::Extend] on a machine without the crc
    instructions: they do not depend on the machine or on addresses. *)
From stdpp Require Import pretty.
From S2P Require Import Prelude Status Coding Crc32c.

Definition kZeroType : Z := 0.
Definition kFullType : Z := 1.
Definition kFirstType : Z := 2.
Definition kMiddleType : Z := 3.
Definition kLastType : Z := 4.
Definition kMaxRecordType : Z := kLastType.
Definition kBlockSize : Z := 32768.
Definition kHeaderSize : Z := 4 + 2 + 1.

Definition crc_Extend (crc : Z) (data : Slice) : Z := ExtendSW 0 crc data.
Definition crc_Value (data : Slice) : Z := crc_Extend 0 data.

(** ** The files *)
Class WritableFile (W : Type) := {
  wf_Append : W -> Slice -> Status * W;
  wf_Flush : W -> Status * W;
  wf_Sync : W -> Status * W
}.
Class SequentialFile (F : Type) := {
  sf_Read : F -> Z -> Status * Slice * F;
  sf_Skip : F -> Z -> Status * F
}.

(** ** The writer *)
Record Writer (W : Type) := MkWriter { dest_ : W; block_offset_ : Z; offset_ : Z }.
Arguments MkWriter {W}. Arguments dest_ {W}. Arguments block_offset_ {W}. Arguments offset_ {W}.

Section Writer.
Context {W : Type} `{WritableFile W}.
Variable ndebug : bool.

(** The second constructor; [offset_] is an [int], kept here as the integer it counts: above 2 GiB the code
    overflows. *)
Definition new_Writer (dest : W) (dest_length : Z) : Writer W := MkWriter dest (dest_length mod kBlockSize) dest_length.

Definition type_crc_ (t : Z) : Z := crc_Value [t].

Definition EmitPhysicalRecord (t : Z) (data : Slice) (w : Writer W) : option (Status * Writer W) :=
  let n := |[data]| in
  _ ← assert_ ndebug (n <=? 0xffff);
  _ ← assert_ ndebug (block_offset_ w + kHeaderSize + n <=? kBlockSize);
  let crc := Mask (crc_Extend (type_crc_ t) data) in
  let buf := EncodeFixed32 crc ++ [Z.land n 0xff; u8 (Z.shiftr n 8); t] in
  let '(s, dest) := wf_Append (dest_ w) buf in
  let '(s, dest) :=
    if ok s then
      let '(s, dest) := wf_Append dest data in
      if ok s then wf_Flush dest else (s, dest)
    else (s, dest) in
  Some (s, MkWriter dest (block_offset_ w + (kHeaderSize + n)) (offset_ w + (kHeaderSize + n))).

(** The loop of [AddRecord], from [begin] and the bytes left. *)
Fixpoint AddRecord_loop (fuel : nat) (begin : bool) (left : Slice) (w : Writer W) : option (Status * Writer W) :=
  match fuel with
  | O => None
  | S fuel =>
      let leftover := kBlockSize - block_offset_ w in
      _ ← assert_ ndebug (0 <=? leftover);
      let '(s, w) :=
        if leftover <? kHeaderSize then
          let '(s, dest, offset) :=
            if leftover >? 0 then
              let '(s, dest) := wf_Append (dest_ w) (replicate (Z.to_nat leftover) 0) in (s, dest, offset_ w + leftover)
            else (OK, dest_ w, offset_ w) in
          (s, MkWriter dest 0 offset)
        else (OK, w) in
      if ok s then
        _ ← assert_ ndebug (0 <=? kBlockSize - block_offset_ w - kHeaderSize);
        let avail := kBlockSize - block_offset_ w - kHeaderSize in
        let fragment_length := if |[left]| <? avail then |[left]| else avail in
        let end_ := |[left]| =? fragment_length in
        let type := if begin && end_ then kFullType else if begin then kFirstType else if end_ then kLastType else kMiddleType in
        '(s, w) ← EmitPhysicalRecord type (take (Z.to_nat fragment_length) left) w;
        let left := drop (Z.to_nat fragment_length) left in
        if ok s && (|[left]| >? 0) then AddRecord_loop fuel false left w else Some (s, w)
      else Some (s, w)
  end.
(** A fragment is empty at most once, at the end of the first block. *)
Definition AddRecord (slice : Slice) (w : Writer W) : option (Status * Writer W) :=
  AddRecord_loop (length slice + 2) true slice w.

Definition Writer_Sync (w : Writer W) : Status * Writer W :=
  let '(s, dest) := wf_Sync (dest_ w) in (s, MkWriter dest (block_offset_ w) (offset_ w)).
End Writer.

(** ** The reader *)
Definition kEof : Z := kMaxRecordType + 1.
Definition kBadRecord : Z := kMaxRecordType + 2.

(** [reporter_] is what was reported, or [NULL]. *)
Record Reader (F : Type) := MkReader {
  file_ : F; reporter_ : option (list (Z * Status)); checksum_ : bool; buffer_ : Slice; eof_ : bool;
  last_record_offset_ : Z; end_of_buffer_offset_ : Z; initial_offset_ : Z; resyncing_ : bool
}.
Arguments MkReader {F}. Arguments file_ {F}. Arguments reporter_ {F}. Arguments checksum_ {F}. Arguments buffer_ {F}.
Arguments eof_ {F}. Arguments last_record_offset_ {F}. Arguments end_of_buffer_offset_ {F}. Arguments initial_offset_ {F}.
Arguments resyncing_ {F}.

Section Reader.
Context {F : Type} `{SequentialFile F}.
Implicit Types (r : Reader F).

Definition new_Reader (file : F) (reporter : bool) (checksum : bool) (initial_offset : Z) : Reader F :=
  MkReader file (if reporter then Some [] else None) checksum [] false 0 0 initial_offset (initial_offset >? 0).

Definition set_buffer (b : Slice) r : Reader F :=
  MkReader (file_ r) (reporter_ r) (checksum_ r) b (eof_ r) (last_record_offset_ r) (end_of_buffer_offset_ r) (initial_offset_ r) (resyncing_ r).
Definition set_eof (b : bool) r : Reader F :=
  MkReader (file_ r) (reporter_ r) (checksum_ r) (buffer_ r) b (last_record_offset_ r) (end_of_buffer_offset_ r) (initial_offset_ r) (resyncing_ r).
Definition set_resyncing (b : bool) r : Reader F :=
  MkReader (file_ r) (reporter_ r) (checksum_ r) (buffer_ r) (eof_ r) (last_record_offset_ r) (end_of_buffer_offset_ r) (initial_offset_ r) b.
Definition set_last_record_offset (o : Z) r : Reader F :=
  MkReader (file_ r) (reporter_ r) (checksum_ r) (buffer_ r) (eof_ r) o (end_of_buffer_offset_ r) (initial_offset_ r) (resyncing_ r).
Definition set_file (f : F) (e : Z) r : Reader F :=
  MkReader f (reporter_ r) (checksum_ r) (buffer_ r) (eof_ r) (last_record_offset_ r) e (initial_offset_ r) (resyncing_ r).

Definition ReportDrop (n : Z) (reason : Status) r : Reader F :=
  match reporter_ r with
  | Some l =>
      if u64 (end_of_buffer_offset_ r - |[buffer_ r]| - n) >=? initial_offset_ r then
        MkReader (file_ r) (Some (l ++ [(n, reason)])) (checksum_ r) (buffer_ r) (eof_ r) (last_record_offset_ r)
          (end_of_buffer_offset_ r) (initial_offset_ r) (resyncing_ r)
      else r
  | None => r
  end.
Definition ReportCorruption (n : Z) (reason : string) r : Reader F := ReportDrop n (Err kCorruption reason) r.

Definition SkipToInitialBlock r : bool * Reader F :=
  let offset_in_block := initial_offset_ r mod kBlockSize in
  let block_start_location := initial_offset_ r - offset_in_block in
  let block_start_location := if offset_in_block >? kBlockSize - 6 then u64 (block_start_location + kBlockSize) else block_start_location in
  let r := set_file (file_ r) block_start_location r in
  if block_start_location >? 0 then
    let '(skip_status, f) := sf_Skip (file_ r) block_start_location in
    let r := set_file f block_start_location r in
    if negb (ok skip_status) then (false, ReportDrop block_start_location skip_status r) else (true, r)
  else (true, r).

(** The type byte is a [char] that becomes an [unsigned int]. *)
Definition char_to_unsigned (b : Z) : Z := if b <? 128 then b else 2 ^ 32 - 256 + b.

(** [ReadPhysicalRecord]: the type and [*result], which keeps its old value unless a record or a skipped one was read.
    A round without a result has read a block, and the round after a short block ends. *)
Fixpoint ReadPhysicalRecord (fuel : nat) (result : Slice) r : option (Z * Slice * Reader F) :=
  match fuel with
  | O => None
  | S fuel =>
      if |[buffer_ r]| <? kHeaderSize then
        if negb (eof_ r) then
          let '(status, data, f) := sf_Read (file_ r) kBlockSize in
          let r := set_buffer data (set_file f (u64 (end_of_buffer_offset_ r + |[data]|)) r) in
          if negb (ok status) then Some (kEof, result, set_eof true (ReportDrop kBlockSize status (set_buffer [] r)))
          else ReadPhysicalRecord fuel result (if |[data]| <? kBlockSize then set_eof true r else r)
        else Some (kEof, result, set_buffer [] r)
      else
        let header := buffer_ r in
        a ← header !! 4%nat; b ← header !! 5%nat; t ← header !! 6%nat;
        let type := char_to_unsigned t in
        let length := Z.lor (Z.land a 0xff) (Z.shiftl (Z.land b 0xff) 8) in
        if kHeaderSize + length >? |[header]| then
          let drop_size := |[header]| in
          let r := set_buffer [] r in
          if negb (eof_ r) then Some (kBadRecord, result, ReportCorruption drop_size "bad record length" r)
          else Some (kEof, result, r)
        else if (type =? kZeroType) && (length =? 0) then Some (kBadRecord, result, set_buffer [] r)
        else
          expected ← DecodeFixed32 header;
          let payload := take (Z.to_nat length) (drop 7 header) in
          if checksum_ r && negb (crc_Value (t :: payload) =? Unmask expected) then
            let drop_size := |[header]| in
            Some (kBadRecord, result, ReportCorruption drop_size "checksum mismatch" (set_buffer [] r))
          else
            let r := set_buffer (drop (Z.to_nat (kHeaderSize + length)) header) r in
            if u64 (end_of_buffer_offset_ r - |[buffer_ r]| - kHeaderSize - length) <? initial_offset_ r then
              Some (kBadRecord, [], r)
            else Some (type, payload, r)
  end.

(** The loop of [ReadRecord]: [scratch], [in_fragmented_record] and [prospective_record_offset] are its
    locals.  The result is the record, or [None] for [false]. *)
Fixpoint ReadRecord_loop (fuel : nat) (fragment scratch : Slice) (in_fragmented_record : bool) (prospective : Z) r
    : option (option Slice * Reader F) :=
  match fuel with
  | O => None
  | S fuel =>
      '(record_type, fragment, r) ← ReadPhysicalRecord 3 fragment r;
      let physical := u64 (end_of_buffer_offset_ r - |[buffer_ r]| - kHeaderSize - |[fragment]|) in
      if resyncing_ r && (record_type =? kMiddleType) then
        ReadRecord_loop fuel fragment scratch in_fragmented_record prospective r
      else if resyncing_ r && (record_type =? kLastType) then
        ReadRecord_loop fuel fragment scratch in_fragmented_record prospective (set_resyncing false r)
      else
        let r := set_resyncing false r in
        if record_type =? kFullType then
          let r := if in_fragmented_record && negb (bool_decide (scratch = []))
                   then ReportCorruption (|[scratch]|) "partial record without end(1)" r else r in
          Some (Some fragment, set_last_record_offset physical r)
        else if record_type =? kFirstType then
          let r := if in_fragmented_record && negb (bool_decide (scratch = []))
                   then ReportCorruption (|[scratch]|) "partial record without end(2)" r else r in
          ReadRecord_loop fuel fragment fragment true physical r
        else if record_type =? kMiddleType then
          if negb in_fragmented_record then
            ReadRecord_loop fuel fragment scratch in_fragmented_record prospective
              (ReportCorruption (|[fragment]|) "missing start of fragmented record(1)" r)
          else ReadRecord_loop fuel fragment (scratch ++ fragment) in_fragmented_record prospective r
        else if record_type =? kLastType then
          if negb in_fragmented_record then
            ReadRecord_loop fuel fragment scratch in_fragmented_record prospective
              (ReportCorruption (|[fragment]|) "missing start of fragmented record(2)" r)
          else Some (Some (scratch ++ fragment), set_last_record_offset prospective r)
        else if record_type =? kEof then Some (None, r)
        else if record_type =? kBadRecord then
          if in_fragmented_record then
            ReadRecord_loop fuel fragment [] false prospective (ReportCorruption (|[scratch]|) "error in middle of record" r)
          else ReadRecord_loop fuel fragment scratch in_fragmented_record prospective r
        else
          let n := |[fragment]| + (if in_fragmented_record then |[scratch]| else 0) in
          ReadRecord_loop fuel fragment [] false prospective
            (ReportDrop n (MkStatus kCorruption (lit "unknown record type " ++ lit (pretty (Z.to_N record_type))) []) r)
  end.

Definition ReadRecord (fuel : nat) (clean_eof : bool) r : option (option Slice * Reader F) :=
  let '(go, r) := if last_record_offset_ r <? initial_offset_ r then SkipToInitialBlock r else (true, r) in
  if negb go then Some (None, r)
  else
    let r := if clean_eof then set_eof false r else r in
    ReadRecord_loop fuel [] [] false 0 r.
End Reader.
