(* ===== verification/LogFacts.v ===== *)
(** * The layout of logs

    What the writer appends is a sequence of fragments, each behind the padding of the block it does not fit in;
    [phys_whole] and [phys_part] say what the reader makes of a fragment that is there, and of one that the end
    of the file cuts. *)
From S2P Require Import Prelude Status Coding Crc32c Crc32cProps Log.

(** ** What files promise *)
(** [wf_open] holds of a file that is open for writing, [wf_data] is what it has. *)
Class WritableFileLaws (W : Type) `{WritableFile W} := {
  wf_data : W -> Slice;
  wf_open : W -> Prop;
  Append_open w d s w' : wf_Append w d = (s, w') -> wf_open w -> wf_open w';
  Flush_open w s w' : wf_Flush w = (s, w') -> wf_open w -> wf_open w';
  Append_ok w d s w' : wf_Append w d = (s, w') -> wf_open w -> ok s = true -> wf_data w' = wf_data w ++ d;
  Append_err w d s w' : wf_Append w d = (s, w') -> wf_open w -> ok s = false -> ∃ n, wf_data w' = wf_data w ++ take n d;
  Flush_data w s w' : wf_Flush w = (s, w') -> wf_open w -> wf_data w' = wf_data w
}.
(** [sf_data] is what is still ahead. *)
Class SequentialFileLaws (F : Type) `{SequentialFile F} := {
  sf_data : F -> Slice;
  Read_ok f n s d f' : 0 <= n -> sf_Read f n = (s, d, f') -> ok s = true ->
    d = take (Z.to_nat n) (sf_data f) /\ sf_data f' = drop (Z.to_nat n) (sf_data f);
  Skip_ok f n s f' : 0 <= n -> sf_Skip f n = (s, f') -> ok s = true -> sf_data f' = drop (Z.to_nat n) (sf_data f)
}.

(** A string in memory as a file. *)
#[global] Instance MemFile_W : WritableFile Slice := {
  wf_Append w d := (OK, w ++ d); wf_Flush w := (OK, w); wf_Sync w := (OK, w)
}.
#[global] Instance MemFile_WLaws : WritableFileLaws Slice.
Proof. refine {| wf_data := λ w, w; wf_open := λ _, True |}; cbn; by intros; simplify_eq. Defined.
#[global] Instance MemFile_S : SequentialFile Slice := {
  sf_Read f n := (OK, take (Z.to_nat n) f, drop (Z.to_nat n) f); sf_Skip f n := (OK, drop (Z.to_nat n) f)
}.
#[global] Instance MemFile_SLaws : SequentialFileLaws Slice.
Proof. refine {| sf_data := λ f, f |}; cbn; by intros; simplify_eq. Defined.

(** ** Fragments *)
Definition phys (t : Z) (p : Slice) : Slice :=
  (EncodeFixed32 (Mask (crc_Value (t :: p))) ++ [Z.land (|[p]|) 0xff; u8 (Z.shiftr (|[p]|) 8); t]) ++ p.
Definition start_of (o : Z) : Z := if kBlockSize - o <? kHeaderSize then 0 else o.
Definition pad_of (o : Z) : Z := if kBlockSize - o <? kHeaderSize then kBlockSize - o else 0.
Definition next_of (o : Z) (p : Slice) : Z := start_of o + (kHeaderSize + |[p]|).

Abbreviation Item := (Z * Slice)%type.
Definition enc_item (o : Z) (it : Item) : Slice := replicate (Z.to_nat (pad_of o)) 0 ++ phys it.1 it.2.
Fixpoint enc (o : Z) (its : list Item) : Slice :=
  match its with [] => [] | it :: its => enc_item o it ++ enc (next_of o it.2) its end.
Definition item_ok (o : Z) (it : Item) : Prop := 1 <= it.1 <= 4 /\ bytes it.2 /\ next_of o it.2 <= kBlockSize.
Fixpoint layout (o : Z) (its : list Item) : Prop :=
  match its with [] => True | it :: its => item_ok o it /\ layout (next_of o it.2) its end.
Fixpoint end_of (o : Z) (its : list Item) : Z := match its with [] => o | it :: its => end_of (next_of o it.2) its end.

(** The fragments of a record: a full one, or a first one, middle ones and a last one. *)
Fixpoint shape (begin : bool) (its : list Item) (s : Slice) : Prop :=
  match its with
  | [] => False
  | it :: its =>
      match its with
      | [] => it.2 = s /\ it.1 = (if begin then kFullType else kLastType)
      | _ => it.1 = (if begin then kFirstType else kMiddleType) /\ ∃ s', s = it.2 ++ s' /\ shape false its s'
      end
  end.

Lemma size_phys t p : |[phys t p]| = kHeaderSize + |[p]|.
Proof. unfold phys. rewrite slice_size_app. done. Qed.

Lemma crc_Value_word p : bytes p -> word 32 (crc_Value p).
Proof.
  intros Hp. unfold crc_Value, crc_Extend. rewrite ExtendSW_ok by (done || by_compute). apply crc_bits_word; [by_compute | done].
Qed.
Lemma crc_Extend_app s t : bytes s -> bytes t -> crc_Extend (crc_Value s) t = crc_Value (s ++ t).
Proof.
  intros Hs Ht. pose proof (crc_Value_word s Hs) as Hw. unfold crc_Value, crc_Extend in *. rewrite (ExtendSW_ok 0 _ t) by done.
  assert (word 32 0) as H0 by by_compute. rewrite !(ExtendSW_ok 0 0) by (done || by apply Forall_app). apply crc_bits_app.
Qed.

(** ** The writer *)
Section Writer.
Context {W : Type} `{WritableFileLaws W}.
Variable ndebug : bool.

Definition writer_ok (w : Writer W) : Prop := wf_open (dest_ w) /\ 0 <= block_offset_ w <= kBlockSize.

(** An update of the file that succeeds, or leaves part of the data behind. *)
Definition appended (w : W) (s : Status) (d : Slice) (w' : W) : Prop :=
  wf_open w' /\ if ok s then wf_data w' = wf_data w ++ d else ∃ n, wf_data w' = wf_data w ++ take n d.

Lemma Append_appended w d s w' : wf_Append w d = (s, w') -> wf_open w -> appended w s d w'.
Proof. intros E Ho. split; [by eapply Append_open |]. destruct (ok s) eqn:Es; [by eapply Append_ok | by eapply Append_err]. Qed.
Lemma appended_part w s d d2 w' : ok s = false -> appended w s d w' -> appended w s (d ++ d2) w'.
Proof.
  unfold appended. intros -> [Ho [n ->]]. split; [done |]. exists (Nat.min n (length d)). f_equal. rewrite take_app_le by lia.
  destruct (Nat.le_ge_cases n (length d)); [by rewrite Nat.min_l | by rewrite Nat.min_r, !take_ge by lia].
Qed.
Lemma appended_trans w s1 d1 w1 s2 d2 w2 : ok s1 = true -> appended w s1 d1 w1 -> appended w1 s2 d2 w2 -> appended w s2 (d1 ++ d2) w2.
Proof.
  unfold appended. intros -> [_ E]. destruct (ok s2); rewrite E; intros [Ho H2]; (split; [done |]); [by rewrite H2, app_assoc |].
  destruct H2 as [n ->]. exists (length d1 + n)%nat. rewrite <- app_assoc. by rewrite take_app_add.
Qed.

Lemma EmitPhysicalRecord_ok t p w : wf_open (dest_ w) -> 1 <= t <= 4 -> bytes p -> 0 <= block_offset_ w -> block_offset_ w + (kHeaderSize + |[p]|) <= kBlockSize ->
  ∃ s w', EmitPhysicalRecord ndebug t p w = Some (s, w') /\ appended (dest_ w) s (phys t p) (dest_ w') /\ block_offset_ w' = block_offset_ w + (kHeaderSize + |[p]|).
Proof.
  intros Ho Ht Hp Hb0 Hb. unfold EmitPhysicalRecord. cbn zeta. pose proof (slice_size_nonneg p). unfold kBlockSize, kHeaderSize in *.
  rewrite !assert_bool by (apply Z.leb_le; lia). cbn [mbind option_bind]. unfold type_crc_.
  rewrite crc_Extend_app by (done || (constructor; [split; cbn; lia | constructor])).
  destruct (wf_Append (dest_ w) _) as [s1 d1] eqn:E1. apply Append_appended in E1; [| done]. unfold phys. destruct (ok s1) eqn:Es1.
  - destruct (wf_Append d1 p) as [s2 d2] eqn:E2. apply Append_appended in E2; [| by destruct E1].
    pose proof (appended_trans _ _ _ _ _ _ _ Es1 E1 E2) as E12. destruct (ok s2) eqn:Es2.
    + destruct (wf_Flush d2) as [s3 d3] eqn:E3. do 2 eexists. split; [done |]. split; [| done]. cbn [dest_].
      pose proof (Flush_open _ _ _ E3 (proj1 E12)) as Ho3. apply Flush_data in E3; [| apply E12]. unfold appended in *. rewrite E3. rewrite Es2 in E12. destruct E12 as [_ E12].
      split; [done |]. destruct (ok s3); [done |]. eexists. rewrite E12. f_equal. symmetry. by apply take_ge.
    + do 2 eexists. split; [done |]. split; [| done]. exact E12.
  - do 2 eexists. split; [done |]. split; [| done]. by apply appended_part.
Qed.

(** The fragments a record is cut into. *)
Fixpoint cut (fuel : nat) (begin : bool) (o : Z) (left : Slice) : list Item :=
  match fuel with
  | O => []
  | S fuel =>
      let avail := kBlockSize - start_of o - kHeaderSize in
      let n := if |[left]| <? avail then |[left]| else avail in
      let end_ := |[left]| =? n in
      let t := if begin && end_ then kFullType else if begin then kFirstType else if end_ then kLastType else kMiddleType in
      let p := take (Z.to_nat n) left in
      let left := drop (Z.to_nat n) left in
      (t, p) :: if |[left]| >? 0 then cut fuel false (next_of o p) left else []
  end.

(** The bound on the rounds: an empty fragment is possible only where a block has just room for a header. *)
Definition rounds (o : Z) (left : Slice) : nat := (length left + (if (o + kHeaderSize =? kBlockSize)%Z then 2 else 1))%nat.

Lemma start_of_range o : 0 <= o <= kBlockSize -> 0 <= start_of o <= kBlockSize - kHeaderSize /\ 0 <= pad_of o < kHeaderSize.
Proof. unfold start_of, pad_of, kBlockSize, kHeaderSize. destruct (Z.ltb_spec (32768 - o) (4 + 2 + 1)); lia. Qed.

(** One fragment: its size fits, and something is left only if the block is full. *)
Lemma cut_step o (left : Slice) : 0 <= o <= kBlockSize ->
  let avail := kBlockSize - start_of o - kHeaderSize in
  let n := if |[left]| <? avail then |[left]| else avail in
  let p := take (Z.to_nat n) left in let left' := drop (Z.to_nat n) left in
  |[p]| = n /\ 0 <= n <= avail /\ (|[left']| >? 0) = negb (|[left]| =? n) /\ 0 <= next_of o p <= kBlockSize /\ (|[left]| =? n = false -> next_of o p = kBlockSize /\ (rounds (next_of o p) left' < rounds o left)%nat).
Proof.
  intros Ho. cbn zeta. pose proof (start_of_range o Ho). set (avail := kBlockSize - start_of o - kHeaderSize).
  pose proof (slice_size_nonneg left) as Hl. assert (0 <= avail) as Ha by (unfold avail; lia).
  set (n := if |[left]| <? avail then |[left]| else avail).
  assert (0 <= n <= avail /\ n <= |[left]|) as [Hn Hnl] by (unfold n; destruct (Z.ltb_spec (|[left]|) avail); lia).
  assert (|[take (Z.to_nat n) left]| = n) as Ep by (unfold slice_size in *; rewrite length_take; lia).
  assert (|[drop (Z.to_nat n) left]| = |[left]| - n) as Ed by (unfold slice_size in *; rewrite length_drop; lia).
  unfold next_of. rewrite Ep, Ed. unfold avail in *. split_and!; try lia.
  intros Hne%Z.eqb_neq. assert (n = kBlockSize - start_of o - kHeaderSize) as En by (unfold n in *; destruct (Z.ltb_spec (|[left]|) (kBlockSize - start_of o - kHeaderSize)); lia).
    split; [lia |]. unfold rounds. rewrite length_drop. unfold slice_size in Hnl.
    destruct (Z.eqb_spec (start_of o + (kHeaderSize + n) + kHeaderSize) kBlockSize); [unfold kHeaderSize in *; lia |].
    destruct (Z.eqb_spec (o + kHeaderSize) kBlockSize); [lia |].
    assert (start_of o < kBlockSize - kHeaderSize) by (unfold start_of, kBlockSize, kHeaderSize in *; destruct (Z.ltb_spec (32768 - o) (4 + 2 + 1)); lia).
    lia.
Qed.

Lemma cut_ok fuel begin o (left : Slice) : 0 <= o <= kBlockSize -> bytes left -> (rounds o left <= fuel)%nat ->
  let its := cut fuel begin o left in shape begin its left /\ layout o its /\ 0 <= end_of o its <= kBlockSize.
Proof.
  revert begin o left. induction fuel as [| fuel IH]; intros begin o left Ho Hb Hf.
  { unfold rounds in Hf. destruct (_ =? _); lia. }
  pose proof (cut_step o left Ho) as Hcut. cbn zeta in Hcut. cbn [cut]. cbn zeta.
  set (n := if |[left]| <? _ then _ else _) in *. set (p := take (Z.to_nat n) left) in *. set (left' := drop (Z.to_nat n) left) in *.
  destruct Hcut as (Ep & Hn & -> & Hnext & Hmore). assert (bytes p) as Hbp by by apply Forall_take. assert (bytes left') as Hbl by by apply Forall_drop.
  assert (left = p ++ left') as El by (symmetry; apply take_drop).
  destruct (|[left]| =? n) eqn:Ee; cbn [negb].
  - apply Z.eqb_eq in Ee. assert (left' = []) as E0.
    { apply nil_length_inv. unfold left'. rewrite length_drop. unfold slice_size in Ee. lia. }
    rewrite E0, app_nil_r in El. split; [| split; [| done]].
    + cbn [shape fst snd]. split; [by rewrite El |]. by destruct begin.
    + cbn [layout fst snd]. split; [| done]. split; [| split; [done | apply Hnext]]. destruct begin; by_compute.
  - destruct (Hmore eq_refl) as [Hfull Hr]. destruct (IH false (next_of o p) left') as (Hsh & Hlay & Hend); [done | done | lia |].
    split; [| split; [| done]].
    + cbn [shape]. destruct (cut fuel false (next_of o p) left') as [| it its] eqn:Ec; [done |]. cbn [fst snd]. split; [by destruct begin |].
      exists left'. split; [done |]. done.
    + cbn [layout fst snd]. split; [| done]. split; [| split; [done | apply Hnext]]. destruct begin; by_compute.
Qed.

Lemma AddRecord_loop_ok fuel begin left w : writer_ok w -> bytes left -> (rounds (block_offset_ w) left <= fuel)%nat ->
  ∃ s w', AddRecord_loop ndebug fuel begin left w = Some (s, w') /\
    let its := cut fuel begin (block_offset_ w) left in
    appended (dest_ w) s (enc (block_offset_ w) its) (dest_ w') /\ (ok s = true -> block_offset_ w' = end_of (block_offset_ w) its).
Proof.
  revert begin left w. induction fuel as [| fuel IH]; intros begin left w Hw Hb Hf.
  { unfold rounds in Hf. destruct (_ =? _); lia. }
  cbn [AddRecord_loop cut]. destruct Hw as [Ho Hw]. rewrite assert_bool by (apply Z.leb_le; lia). cbn [mbind option_bind]. cbn zeta.
  pose proof (start_of_range _ Hw) as Hso.
  assert (∃ s d off, (if kBlockSize - block_offset_ w <? kHeaderSize
     then let '(s, dest, offset) := if kBlockSize - block_offset_ w >? 0
            then let '(s, dest) := wf_Append (dest_ w) (replicate (Z.to_nat (kBlockSize - block_offset_ w)) 0) in (s, dest, offset_ w + (kBlockSize - block_offset_ w))
            else (OK, dest_ w, offset_ w) in (s, MkWriter dest 0 offset)
     else (OK, w)) = (s, MkWriter d (start_of (block_offset_ w)) off) /\
     appended (dest_ w) s (replicate (Z.to_nat (pad_of (block_offset_ w))) 0) d) as (s0 & d0 & off0 & -> & H0s).
  { unfold start_of, pad_of. destruct (Z.ltb_spec (kBlockSize - block_offset_ w) kHeaderSize).
    - destruct (Z.gtb_spec (kBlockSize - block_offset_ w) 0).
      + destruct (wf_Append _ _) as [s1 d1] eqn:E1. apply Append_appended in E1; [| done]. by eexists _, _, _.
      + replace (kBlockSize - block_offset_ w) with 0 by lia. eexists _, _, _. split; [done |]. unfold appended. cbn. by rewrite app_nil_r.
    - destruct w as [d o off]. eexists _, _, _. split; [done |]. unfold appended. cbn. by rewrite app_nil_r. }
  cbn [block_offset_]. pose proof (cut_step _ left Hw) as Hcut. cbn zeta in Hcut.
  set (n := if |[left]| <? _ then _ else _) in *. set (p := take (Z.to_nat n) left) in *. set (left' := drop (Z.to_nat n) left) in *.
  destruct Hcut as (Ep & Hn & Egt & Hnext & Hmore). rewrite Egt.
  set (t := if begin && _ then _ else _).
  assert (1 <= t <= 4) as Ht by (unfold t; destruct begin, (|[left]| =? n); by_compute).
  assert (bytes p) as Hbp by by apply Forall_take. assert (bytes left') as Hbl by by apply Forall_drop.
  destruct (ok s0) eqn:Es0.
  - rewrite assert_bool by (apply Z.leb_le; lia). cbn [mbind option_bind].
    destruct (EmitPhysicalRecord_ok t p (MkWriter d0 (start_of (block_offset_ w)) off0)) as (s1 & w1 & -> & H1 & E1);
      [apply H0s | done | done | cbn; lia | cbn; rewrite Ep; unfold kBlockSize, kHeaderSize in *; lia |]. cbn [mbind option_bind dest_ block_offset_] in *.
    change (block_offset_ w1 = next_of (block_offset_ w) p) in E1.
    pose proof (appended_trans _ _ _ _ _ _ _ Es0 H0s H1) as H01. fold (enc_item (block_offset_ w) (t, p)) in H01.
    destruct (ok s1) eqn:Es1; cbn [andb].
    + destruct (|[left]| =? n) eqn:Ee; cbn [negb].
      * do 2 eexists. split; [done |]. split; [| by cbn]. cbn [enc]. by rewrite app_nil_r.
      * destruct (Hmore eq_refl) as [Hfull Hr]. destruct (IH false left' w1) as (s2 & w2 & -> & H2 & E2);
          [split; [apply H1 | by rewrite E1] | done | rewrite E1; lia |].
        do 2 eexists. split; [done |]. rewrite E1 in *. split; [| done]. cbn [enc fst snd]. by eapply appended_trans.
    + do 2 eexists. split; [done |]. split; [| congruence]. cbn [enc]. by apply appended_part.
  - do 2 eexists. split; [done |]. split; [| congruence]. cbn [enc]. unfold enc_item. rewrite <- app_assoc. by apply appended_part.
Qed.

(** The fragments of a record at a block offset. *)
Definition frags (o : Z) (s : Slice) : list Item := cut (length s + 2) true o s.

Lemma frags_ok o s : 0 <= o <= kBlockSize -> bytes s ->
  shape true (frags o s) s /\ layout o (frags o s) /\ 0 <= end_of o (frags o s) <= kBlockSize.
Proof. intros Ho Hb. apply cut_ok; [done | done |]. unfold rounds. destruct (_ =? _); lia. Qed.

Lemma AddRecord_ok s w : writer_ok w -> bytes s ->
  ∃ st w', AddRecord ndebug s w = Some (st, w') /\
    appended (dest_ w) st (enc (block_offset_ w) (frags (block_offset_ w) s)) (dest_ w') /\
    (ok st = true -> block_offset_ w' = end_of (block_offset_ w) (frags (block_offset_ w) s)).
Proof. intros Hw Hb. apply AddRecord_loop_ok; [done | done |]. unfold rounds. destruct (_ =? _); lia. Qed.
End Writer.

(** * Reading a log, whole or cut short *)

Lemma bool_bytes_drop n s : bytes s -> bytes (drop n s).
Proof. apply Forall_drop. Qed.

(** Strings that share a beginning. *)
Lemma app_split_le {A} (a b c d : list A) : a ++ b = c ++ d -> (length c <= length a)%nat -> ∃ e, a = c ++ e /\ d = e ++ b.
Proof.
  intros E Hl. assert (take (length c) (a ++ b) = take (length c) (c ++ d)) as Et by by rewrite E.
  rewrite take_app_length, take_app_le in Et by done. exists (drop (length c) a).
  assert (a = c ++ drop (length c) a) as Ea by (rewrite <- Et at 1; by rewrite take_drop). split; [done |].
  rewrite Ea, <- app_assoc in E. by apply app_inv_head in E.
Qed.

Section Reader.
Context {F : Type} `{SequentialFileLaws F}.
(** No read fails. *)
Hypothesis Hreads : ∀ (f : F) n, ok (sf_Read f n).1.1 = true.
(** The bytes of the file. *)
Variable P : Slice.
Implicit Types (r : Reader F).

Definition pos_in (pos : Z) : Z := pos mod kBlockSize.

Record R_ok (pos : Z) r : Prop := {
  ro_pos : 0 <= pos <= |[P]|;
  ro_data : buffer_ r ++ sf_data (file_ r) = drop (Z.to_nat pos) P;
  ro_eof : eof_ r = true -> sf_data (file_ r) = [];
  ro_block : eof_ r = false -> (pos + |[buffer_ r]|) mod kBlockSize = 0;
  ro_size : pos_in pos + |[buffer_ r]| <= kBlockSize;
  ro_report : reporter_ r = Some [];
  ro_initial : initial_offset_ r = 0;
  ro_sync : resyncing_ r = false;
  ro_last : 0 <= last_record_offset_ r
}.

(** Without end of file the buffer holds the rest of its block, or nothing at the start of one. *)
Lemma ro_buffer pos r : R_ok pos r -> eof_ r = false ->
  |[buffer_ r]| = kBlockSize - pos_in pos \/ |[buffer_ r]| = 0 /\ pos_in pos = 0.
Proof.
  intros Hr He. pose proof (ro_block pos r Hr He) as Hb. pose proof (ro_size pos r Hr) as Hs. pose proof (slice_size_nonneg (buffer_ r)).
  unfold pos_in in *. rewrite <- Z.add_mod_idemp_l in Hb by done. pose proof (Z.mod_pos_bound pos kBlockSize) as Hm.
  unfold kBlockSize in *. apply Z.mod_divide in Hb as [q Hq]; [| done].
  assert (q = 0 \/ q = 1) as [-> | ->] by lia; lia.
Qed.

Lemma ro_short pos r : R_ok pos r -> eof_ r = true -> buffer_ r = drop (Z.to_nat pos) P.
Proof. intros Hr He. rewrite <- (ro_data pos r Hr), (ro_eof pos r Hr He). by rewrite app_nil_r. Qed.

(** Reading the next block. *)
Lemma read_block n pos r frag : R_ok pos r -> |[buffer_ r]| < kHeaderSize -> eof_ r = false ->
  ∃ r', ReadPhysicalRecord (S n) frag r = ReadPhysicalRecord n frag r' /\ R_ok (pos + |[buffer_ r]|) r' /\
    checksum_ r' = checksum_ r /\ pos_in (pos + |[buffer_ r]|) = 0 /\ (eof_ r' = true \/ |[buffer_ r']| = kBlockSize).
Proof.
  intros Hr Hb He. cbn [ReadPhysicalRecord]. rewrite (proj2 (Z.ltb_lt _ _)), He by done. cbn [negb].
  pose proof (Hreads (file_ r) kBlockSize) as Hok. destruct (sf_Read (file_ r) kBlockSize) as [[s data] f'] eqn:E. cbn [fst] in Hok.
  rewrite Hok. cbn [negb]. apply Read_ok in E as [Ed Ef]; [| done..].
  destruct Hr as [Hpos Hdata _ Hblock Hsize Hrep Hinit Hsync Hlast]. specialize (Hblock He).
  eexists. split; [done |]. pose proof (slice_size_nonneg (buffer_ r)) as H0b.
  assert (pos + |[buffer_ r]| <= |[P]|) as Hle.
  { pose proof (f_equal slice_size Hdata) as El. rewrite slice_size_app in El. pose proof (slice_size_nonneg (sf_data (file_ r))).
    rewrite slice_size_drop in El by lia. lia. }
  assert (drop (Z.to_nat (pos + |[buffer_ r]|)) P = sf_data (file_ r)) as Edrop.
  { rewrite Z2Nat.inj_add, <- drop_drop, <- Hdata by lia. apply drop_slice_size. }
  assert (0 <= |[data]| <= kBlockSize) as Hd by (rewrite Ed, slice_size_take by done; pose proof (slice_size_nonneg (sf_data (file_ r))); unfold kBlockSize; lia).
  assert (data ++ sf_data f' = sf_data (file_ r)) as Ecat by (rewrite Ed, Ef; apply take_drop).
  assert (|[data]| < kBlockSize -> sf_data f' = []) as Hshort.
  { intros Hlt. rewrite Ef. apply drop_all. rewrite Ed, slice_size_take in Hlt by done. lia. }
  split; [| split; [| split]].
  - destruct (Z.ltb_spec (|[data]|) kBlockSize) as [Hlt | Hge]; split;
      cbn [set_eof set_buffer set_file buffer_ file_ eof_ reporter_ initial_offset_ resyncing_ last_record_offset_]; try done;
      try (by rewrite Edrop); try lia; unfold pos_in; rewrite ?Hblock; try lia.
    + intros _. by apply Hshort.
    + rewrite He. done.
    + intros _. rewrite <- Z.add_mod_idemp_l, Hblock by done. by replace (|[data]|) with kBlockSize by lia.
  - by destruct (_ <? _).
  - exact Hblock.
  - destruct (Z.ltb_spec (|[data]|) kBlockSize); [by left |]. right. cbn. lia.
Qed.

(** ** Parsing a fragment in the buffer *)
Lemma header_bytes n : 0 <= n < 65536 ->
  Z.lor (Z.land (Z.land n 0xff) 0xff) (Z.shiftl (Z.land (u8 (Z.shiftr n 8)) 0xff) 8) = n.
Proof.
  intros Hn. rewrite !wrap_8_land. unfold u8. assert (word 8 (Z.shiftr n 8)) as Hh.
  { rewrite Z.shiftr_div_pow2 by lia. split; [apply Z.div_pos; lia |]. apply Z.div_lt_upper_bound; [lia |]. cbn. lia. }
  rewrite !(wrap_small 8 (Z.shiftr n 8)), !(wrap_small 8 (wrap 8 n)) by (done || by apply wrap_word).
  rewrite Z.lor_comm, lor_shiftl_add by (lia || by apply wrap_word).
  unfold wrap. rewrite Z.shiftr_div_pow2 by lia. pose proof (Z.div_mod n (2 ^ 8)). lia.
Qed.

Lemma phys_header t p b : phys t p ++ b =
  EncodeFixed32 (Mask (crc_Value (t :: p))) ++ [Z.land (|[p]|) 0xff; u8 (Z.shiftr (|[p]|) 8); t] ++ p ++ b.
Proof. unfold phys. by rewrite <- !app_assoc. Qed.

(** The fields of a header. *)
Lemma phys_fields t p b :
  (phys t p ++ b) !! 4%nat = Some (Z.land (|[p]|) 0xff) /\ (phys t p ++ b) !! 5%nat = Some (u8 (Z.shiftr (|[p]|) 8)) /\
  (phys t p ++ b) !! 6%nat = Some t /\ drop 7 (phys t p ++ b) = p ++ b /\
  DecodeFixed32 (phys t p ++ b) = Some (u32 (Mask (crc_Value (t :: p)))) /\
  drop (Z.to_nat (kHeaderSize + |[p]|)) (phys t p ++ b) = b.
Proof.
  rewrite phys_header. split_and!; try done; [apply DecodeFixed32_wrap |].
  pose proof (slice_size_nonneg p). unfold kHeaderSize. rewrite Z2Nat.inj_add, <- drop_drop by lia.
  change (drop (Z.to_nat (4 + 2 + 1)) (EncodeFixed32 ?c ++ [?x; ?y; ?z] ++ p ++ b)) with (p ++ b). apply drop_slice_size.
Qed.

Lemma stored_crc t p : word 8 t -> bytes p -> Unmask (u32 (Mask (crc_Value (t :: p)))) = crc_Value (t :: p).
Proof.
  intros Ht Hp. assert (u32 (Mask (crc_Value (t :: p))) = Mask (crc_Value (t :: p))) as -> by (apply wrap_small, wrap_word; lia).
  apply Unmask_Mask, crc_Value_word. by constructor.
Qed.

Lemma parse_ok n frag r t p b : buffer_ r = phys t p ++ b -> 1 <= t <= 4 -> bytes p -> |[p]| < 65536 -> initial_offset_ r = 0 ->
  ReadPhysicalRecord (S n) frag r = Some (t, p, set_buffer b r).
Proof.
  intros Eb Ht Hp Hlen Hinit. cbn [ReadPhysicalRecord]. rewrite Eb.
  destruct (phys_fields t p b) as (-> & -> & -> & E7 & Ed & Ez). rewrite E7, Ed. cbn [mbind option_bind].
  pose proof (slice_size_nonneg p) as Hp0. pose proof (slice_size_nonneg b) as Hb0. rewrite header_bytes by lia. cbn zeta. rewrite Ez.
  assert (|[phys t p ++ b]| = kHeaderSize + |[p]| + |[b]|) as -> by (rewrite slice_size_app, size_phys; lia).
  rewrite (proj2 (Z.ltb_ge _ _)) by lia. rewrite Z.gtb_ltb, (proj2 (Z.ltb_ge _ _)) by lia.
  assert (char_to_unsigned t = t) as -> by (unfold char_to_unsigned; by rewrite (proj2 (Z.ltb_lt _ _)) by lia).
  rewrite (proj2 (Z.eqb_neq t kZeroType)) by (unfold kZeroType; lia). cbn [andb].
  rewrite take_slice_size, stored_crc, Z.eqb_refl, andb_false_r by (done || (split; [lia | change (2 ^ 8) with 256; lia])).
  cbn [initial_offset_ set_buffer buffer_ end_of_buffer_offset_]. rewrite Hinit.
  rewrite (proj2 (Z.ltb_ge _ 0)); [done |]. unfold u64. apply (wrap_word 64). lia.
Qed.

(** A fragment that the end of the file cuts. *)
Lemma parse_part n frag r t p x : buffer_ r ++ x = phys t p -> x <> [] -> kHeaderSize <= |[buffer_ r]| -> eof_ r = true ->
  |[p]| < 65536 -> ReadPhysicalRecord (S n) frag r = Some (kEof, frag, set_buffer [] r).
Proof.
  intros Eb Hx Hsz He Hlen. cbn [ReadPhysicalRecord]. rewrite (proj2 (Z.ltb_ge _ _)) by done.
  destruct (phys_fields t p []) as (E4 & E5 & E6 & _). rewrite !app_nil_r, <- Eb in *.
  assert (∀ i, (i < 7)%nat -> (buffer_ r ++ x) !! i = buffer_ r !! i) as Hl
    by (intros i Hi; apply lookup_app_l; unfold slice_size, kHeaderSize in Hsz; lia).
  rewrite Hl in E4, E5, E6 by lia. rewrite E4, E5, E6. cbn [mbind option_bind].
  pose proof (slice_size_nonneg p). rewrite header_bytes by lia. cbn zeta.
  assert (|[buffer_ r]| < kHeaderSize + |[p]|) as Hlt.
  { pose proof (f_equal slice_size Eb) as E. rewrite slice_size_app, size_phys in E.
    assert (0 < |[x]|) by (destruct x; [done | unfold slice_size; cbn; lia]). lia. }
  rewrite Z.gtb_ltb, (proj2 (Z.ltb_lt _ _)) by lia. cbn [set_buffer eof_]. by rewrite He.
Qed.

(** ** A fragment at a position *)
Definition same_checks r r' : Prop := checksum_ r' = checksum_ r.

Lemma R_ok_advance pos r b p : R_ok pos r -> buffer_ r = b ++ p -> R_ok (pos + |[b]|) (set_buffer p r).
Proof.
  intros [Hpos Hdata Heof Hblock Hsize Hrep Hinit Hsync Hlast] Eb. rewrite Eb in *. pose proof (slice_size_nonneg b) as Hb0.
  pose proof (slice_size_nonneg p) as Hp0. rewrite slice_size_app in *.
  split; cbn [set_buffer buffer_ file_ eof_ reporter_ initial_offset_ resyncing_ last_record_offset_]; try done.
  - pose proof (f_equal slice_size Hdata) as El. rewrite !slice_size_app, slice_size_drop in El by lia. pose proof (slice_size_nonneg (sf_data (file_ r))). lia.
  - rewrite Z2Nat.inj_add, <- drop_drop, <- Hdata, <- app_assoc by lia. by rewrite drop_slice_size.
  - intros He. rewrite <- Z.add_assoc. by apply Hblock.
  - unfold pos_in in *. rewrite <- Z.add_mod_idemp_l by done. pose proof (Z.mod_pos_bound pos kBlockSize ltac:(done)) as Hm.
    destruct (Z.eq_dec (|[p]|) 0) as [-> |].
    + pose proof (Z.mod_pos_bound (pos mod kBlockSize + |[b]|) kBlockSize ltac:(done)). lia.
    + rewrite Z.mod_small by lia. lia.
Qed.

(** A whole fragment that lies in the block of its position. *)
Lemma aligned_whole n pos r frag t p more : R_ok pos r -> drop (Z.to_nat pos) P = phys t p ++ more ->
  1 <= t <= 4 -> bytes p -> pos_in pos + (kHeaderSize + |[p]|) <= kBlockSize ->
  ∃ r', ReadPhysicalRecord (S (S n)) frag r = Some (t, p, r') /\ R_ok (pos + (kHeaderSize + |[p]|)) r' /\ same_checks r r'.
Proof.
  intros Hr Hd Ht Hp Hfit. pose proof (slice_size_nonneg p) as Hp0. pose proof (Z.mod_pos_bound pos kBlockSize ltac:(done)) as Hm.
  fold (pos_in pos) in Hm. assert (|[p]| < 65536) as Hlen by (unfold kBlockSize, kHeaderSize in *; lia).
  (* once the buffer reaches over the fragment *)
  assert (∀ m r0, R_ok pos r0 -> eof_ r0 = true \/ kHeaderSize + |[p]| <= |[buffer_ r0]| ->
    ∃ r', ReadPhysicalRecord (S m) frag r0 = Some (t, p, r') /\ R_ok (pos + (kHeaderSize + |[p]|)) r' /\ same_checks r0 r') as Hparse.
  { intros m r0 Hr0 Hcov. pose proof (ro_data pos r0 Hr0) as Ed. rewrite Hd in Ed.
    assert (∃ b, buffer_ r0 = phys t p ++ b) as [b Eb].
    { destruct Hcov as [He | Hcov].
      - exists more. by rewrite (ro_eof pos r0 Hr0 He), app_nil_r in Ed.
      - destruct (app_split_le _ _ _ _ Ed) as (b & Eb & _); [| by exists b]. pose proof (size_phys t p). unfold slice_size in *. lia. }
    exists (set_buffer b r0). split; [by apply parse_ok; [| | | | apply Hr0] |]. split; [| done].
    rewrite <- size_phys with (t := t). by eapply R_ok_advance. }
  destruct (Z.lt_ge_cases (|[buffer_ r]|) kHeaderSize) as [Hlt | Hge].
  - destruct (eof_ r) eqn:He; [apply Hparse; [done | by left] |].
    destruct (read_block (S n) pos r frag Hr Hlt He) as (r1 & -> & Hr1 & Hc1 & _ & Hcov).
    assert (|[buffer_ r]| = 0) as Hb0.
    { destruct (ro_buffer pos r Hr He) as [E | [E _]]; [| done]. lia. }
    rewrite Hb0, Z.add_0_r in Hr1.
    destruct (Hparse n r1 Hr1) as (r' & E & Hr' & Hc'); [destruct Hcov as [| Hcov]; [by left | right; lia] |].
    exists r'. split; [done |]. split; [done |]. unfold same_checks in *. congruence.
  - destruct (Hparse (S n) r Hr) as (r' & E & H'); [| by exists r'].
    destruct (eof_ r) eqn:He; [by left |]. right. destruct (ro_buffer pos r Hr He) as [E | [E _]]; unfold kHeaderSize in *; lia.
Qed.

(** The end of the file, or a fragment that it cuts. *)
Lemma aligned_part n pos r frag t p x : R_ok pos r -> drop (Z.to_nat pos) P ++ x = phys t p -> x <> [] ->
  pos_in pos + (kHeaderSize + |[p]|) <= kBlockSize ->
  ∃ r', ReadPhysicalRecord (S (S n)) frag r = Some (kEof, frag, r') /\ reporter_ r' = Some [].
Proof.
  intros Hr Hd Hx Hfit. pose proof (slice_size_nonneg p) as Hp0. pose proof (Z.mod_pos_bound pos kBlockSize ltac:(done)) as Hm.
  fold (pos_in pos) in Hm. assert (|[p]| < 65536) as Hlen by (unfold kBlockSize, kHeaderSize in *; lia).
  assert (|[drop (Z.to_nat pos) P]| < kHeaderSize + |[p]|) as Hshort.
  { pose proof (f_equal slice_size Hd) as E. rewrite slice_size_app, size_phys in E.
    assert (0 < |[x]|) by (destruct x; [done | unfold slice_size; cbn; lia]). lia. }
  assert (∀ m r0, R_ok pos r0 -> eof_ r0 = true -> ∃ r', ReadPhysicalRecord (S m) frag r0 = Some (kEof, frag, r') /\ reporter_ r' = Some []) as Heof.
  { intros m r0 Hr0 He. pose proof (ro_short pos r0 Hr0 He) as Eb. exists (set_buffer [] r0). split; [| apply Hr0].
    destruct (Z.lt_ge_cases (|[buffer_ r0]|) kHeaderSize).
    - cbn [ReadPhysicalRecord]. rewrite (proj2 (Z.ltb_lt _ _)), He by done. done.
    - apply (parse_part m frag r0 t p x); [by rewrite Eb | done | lia | done | done]. }
  destruct (eof_ r) eqn:He; [by apply Heof |].
  assert (|[buffer_ r]| <= |[drop (Z.to_nat pos) P]|) as Hbuf.
  { rewrite <- (ro_data pos r Hr), slice_size_app. pose proof (slice_size_nonneg (sf_data (file_ r))). lia. }
  destruct (ro_buffer pos r Hr He) as [E | [E _]]; [lia |].
  destruct (read_block (S n) pos r frag Hr ltac:(unfold kHeaderSize; lia) He) as (r1 & -> & Hr1 & _ & _ & Hcov).
  rewrite E, Z.add_0_r in Hr1. apply Heof; [done |]. destruct Hcov as [| Hcov]; [done |]. exfalso.
  assert (|[buffer_ r1]| <= |[drop (Z.to_nat pos) P]|) as Hb1.
  { rewrite <- (ro_data pos r1 Hr1), slice_size_app. pose proof (slice_size_nonneg (sf_data (file_ r1))). lia. }
  lia.
Qed.

(** ** A fragment behind its padding *)
Definition at_offset (pos o : Z) : Prop := 0 <= o <= kBlockSize /\ pos_in pos = o mod kBlockSize.

Lemma at_offset_start pos o : at_offset pos o -> pos_in (pos + pad_of o) = start_of o.
Proof.
  intros [Ho E]. unfold pos_in in *. rewrite <- Z.add_mod_idemp_l, E, Z.add_mod_idemp_l by done.
  unfold pad_of, start_of. destruct (Z.ltb_spec (kBlockSize - o) kHeaderSize) as [Hlt | Hge].
  - replace (o + (kBlockSize - o)) with kBlockSize by lia. by apply Z.mod_same.
  - rewrite Z.add_0_r. apply Z.mod_small. unfold kHeaderSize in *. lia.
Qed.

Lemma at_offset_next pos o p : at_offset pos o -> next_of o p <= kBlockSize ->
  at_offset (pos + pad_of o + (kHeaderSize + |[p]|)) (next_of o p).
Proof.
  intros Ha Hn. pose proof (at_offset_start pos o Ha) as E. destruct Ha as [Ho _]. pose proof (start_of_range o Ho). pose proof (slice_size_nonneg p).
  split; [unfold next_of, kHeaderSize in *; lia |]. unfold pos_in in *. unfold next_of. by rewrite <- Z.add_mod_idemp_l, E by done.
Qed.

(** Padding fills the rest of a block. *)
Lemma at_offset_pad pos o : at_offset pos o -> pad_of o = 0 \/ 0 < pad_of o < kHeaderSize /\ pos_in pos = kBlockSize - pad_of o.
Proof.
  intros [Ho E]. pose proof (start_of_range o Ho) as [_ Hp]. destruct (Z.eq_dec (pad_of o) 0); [by left |]. right. split; [lia |].
  rewrite E. unfold pad_of in *. destruct (Z.ltb_spec (kBlockSize - o) kHeaderSize); [| lia]. rewrite Z.mod_small; lia.
Qed.

Lemma size_enc_item o it : 0 <= o <= kBlockSize -> |[enc_item o it]| = pad_of o + (kHeaderSize + |[it.2]|).
Proof.
  intros Ho. unfold enc_item. rewrite slice_size_app, size_phys. unfold slice_size at 1. rewrite length_replicate.
  pose proof (start_of_range o Ho). lia.
Qed.

(** A fragment is read whole when the file has all of it. *)
Lemma phys_whole n pos o r frag it more : R_ok pos r -> at_offset pos o -> item_ok o it ->
  drop (Z.to_nat pos) P = enc_item o it ++ more ->
  ∃ r', ReadPhysicalRecord (S (S (S n))) frag r = Some (it.1, it.2, r') /\ R_ok (pos + |[enc_item o it]|) r' /\
    at_offset (pos + |[enc_item o it]|) (next_of o it.2) /\ same_checks r r'.
Proof.
  destruct it as [t p]. intros Hr Ha (Ht & Hp & Hfit) Hd. cbn [fst snd] in *. pose proof (at_offset_start pos o Ha) as Es.
  pose proof (proj1 Ha) as Ho. pose proof (at_offset_next pos o p Ha Hfit) as Hn. rewrite size_enc_item, Z.add_assoc by done. cbn [snd].
  assert (drop (Z.to_nat (pos + pad_of o)) P = phys t p ++ more) as Hd'.
  { pose proof (start_of_range o Ho). pose proof (ro_pos pos r Hr). rewrite Z2Nat.inj_add, <- drop_drop, Hd by lia.
    unfold enc_item. rewrite <- app_assoc. apply drop_app_length'. by rewrite length_replicate. }
  assert (pos_in (pos + pad_of o) + (kHeaderSize + |[p]|) <= kBlockSize) as Hf by (rewrite Es; exact Hfit).
  destruct (at_offset_pad pos o Ha) as [E0 | [Hpad Hpos]].
  - rewrite E0, Z.add_0_r in *. destruct (aligned_whole (S n) pos r frag t p more) as (r' & E & Hr' & Hc); [done.. |]. by exists r'.
  - assert (|[drop (Z.to_nat pos) P]| > pad_of o) as Hlong.
    { rewrite Hd, slice_size_app, size_enc_item by done. cbn [snd]. pose proof (slice_size_nonneg more). pose proof (slice_size_nonneg p). unfold kHeaderSize. lia. }
    pose proof (ro_size pos r Hr) as Hs. destruct (eof_ r) eqn:He.
    { rewrite <- (ro_short pos r Hr He) in Hlong. lia. }
    assert (|[buffer_ r]| = pad_of o) as Eb by (destruct (ro_buffer pos r Hr He) as [| [_ E]]; unfold kHeaderSize, kBlockSize in *; lia).
    destruct (read_block (S (S n)) pos r frag Hr ltac:(lia) He) as (r1 & -> & Hr1 & Hc1 & _). rewrite Eb in Hr1.
    destruct (aligned_whole n _ r1 frag t p more Hr1 Hd' Ht Hp Hf) as (r' & E & Hr' & Hc). exists r'.
    split; [done |]. split; [done |]. split; [done |]. unfold same_checks in *. congruence.
Qed.

(** A fragment that is cut is the end of the file, and nothing is reported. *)
Lemma phys_part n pos o r frag it x : R_ok pos r -> at_offset pos o -> item_ok o it ->
  drop (Z.to_nat pos) P ++ x = enc_item o it -> x <> [] ->
  ∃ r', ReadPhysicalRecord (S (S (S n))) frag r = Some (kEof, frag, r') /\ reporter_ r' = Some [].
Proof.
  destruct it as [t p]. intros Hr Ha (Ht & Hp & Hfit) Hd Hx. cbn [fst snd] in *. pose proof (at_offset_start pos o Ha) as Es.
  pose proof (proj1 Ha) as Ho. assert (pos_in (pos + pad_of o) + (kHeaderSize + |[p]|) <= kBlockSize) as Hf by (rewrite Es; exact Hfit).
  destruct (at_offset_pad pos o Ha) as [E0 | [Hpad Hpos]].
  - unfold enc_item in Hd. rewrite E0, Z.add_0_r in *. by apply (aligned_part (S n) pos r frag t p x).
  - pose proof (ro_size pos r Hr) as Hs. destruct (eof_ r) eqn:He.
    + exists (set_buffer [] r). split; [| apply Hr]. cbn [ReadPhysicalRecord]. by rewrite (proj2 (Z.ltb_lt _ _)), He by lia.
    + assert (|[buffer_ r]| = pad_of o) as Eb by (destruct (ro_buffer pos r Hr He) as [| [_ E]]; unfold kHeaderSize, kBlockSize in *; lia).
      destruct (read_block (S (S n)) pos r frag Hr ltac:(lia) He) as (r1 & -> & Hr1 & _). rewrite Eb in Hr1.
      apply (aligned_part n _ r1 frag t p x Hr1); [| done | done]. pose proof (ro_pos pos r Hr). rewrite Z2Nat.inj_add, <- drop_drop by lia.
      unfold enc_item in Hd. rewrite <- (ro_data pos r Hr), <- app_assoc in *.
      assert (Z.to_nat (pad_of o) = length (buffer_ r)) as -> by (unfold slice_size in Eb; lia).
      rewrite drop_app_length. apply (f_equal (drop (length (buffer_ r)))) in Hd. rewrite drop_app_length in Hd. rewrite Hd.
      apply drop_app_length'. rewrite length_replicate. unfold slice_size in Eb. lia.
Qed.
End Reader.
