(* ===== verification/LogProps.v ===== *)
(** * What a log gives back

    [ReadRecord_whole] and [ReadRecord_part] read one record that the file has, or that it is cut in;
    [log_recovery] says what a sequence of records becomes after a crash. *)
From S2P Require Import Prelude Status Coding Crc32c Crc32cProps Log LogFacts.

(** Writing records until one fails, with the number of those acknowledged. *)
Fixpoint write_all {W} `{WritableFile W} (ndebug : bool) (recs : list Slice) (w : Writer W) : option (nat * Writer W) :=
  match recs with
  | [] => Some (O, w)
  | s :: recs =>
      '(st, w) ← AddRecord ndebug s w;
      if ok st then '(n, w) ← write_all ndebug recs w; Some (S n, w) else Some (O, w)
  end.
(** Reading records until [ReadRecord] is [false]. *)
Fixpoint read_all {F} `{SequentialFile F} (fuel : nat) (r : Reader F) : option (list Slice * Reader F) :=
  match fuel with
  | O => None
  | S fuel =>
      '(o, r) ← ReadRecord fuel false r;
      match o with
      | Some s => '(l, r) ← read_all fuel r; Some (s :: l, r)
      | None => Some ([], r)
      end
  end.

(** The bytes of records. *)
Fixpoint log_bytes (o : Z) (recs : list Slice) : Slice :=
  match recs with [] => [] | s :: recs => enc o (frags o s) ++ log_bytes (end_of o (frags o s)) recs end.

Section Reader.
Context {F : Type} `{SequentialFileLaws F}.
Hypothesis Hreads : ∀ (f : F) n, ok (sf_Read f n).1.1 = true.
Variable P : Slice.
Implicit Types (r : Reader F).
Local Abbreviation rest pos := (drop (Z.to_nat pos) P).

Lemma R_ok_next pos o r it more : R_ok P pos r -> 0 <= o <= kBlockSize -> rest pos = enc_item o it ++ more ->
  rest (pos + |[enc_item o it]|) = more /\ (length more + 7 <= length (rest pos))%nat.
Proof.
  intros Hr Ho E. pose proof (ro_pos P pos r Hr). pose proof (slice_size_nonneg (enc_item o it)). split.
  - rewrite Z2Nat.inj_add, <- drop_drop, E by lia. apply drop_slice_size.
  - rewrite E, length_app. pose proof (size_enc_item o it Ho) as Es. pose proof (slice_size_nonneg (it.2)). pose proof (start_of_range o Ho).
    unfold slice_size, kHeaderSize in *. lia.
Qed.

Lemma R_ok_mark pos r o : 0 <= o -> R_ok P pos r -> R_ok P pos (set_last_record_offset o (set_resyncing false r)).
Proof. intros Ho []. by split. Qed.
Lemma R_ok_sync pos r : R_ok P pos r -> set_resyncing false r = r.
Proof. intros Hr. destruct r. pose proof (ro_sync P pos _ Hr) as E. cbn in *. by rewrite E. Qed.
Lemma u64_nonneg z : 0 <= u64 z.
Proof. apply (wrap_word 64). lia. Qed.

(** The types of the fragments in turn. *)
Definition begins (begin : bool) (scratch : Slice) : Prop := if begin then scratch = [] else True.

Lemma ReadRecord_whole fuel : ∀ begin its s pos o r frag scratch prosp more,
  R_ok P pos r -> at_offset pos o -> layout o its -> shape begin its s -> begins begin scratch -> 0 <= prosp ->
  rest pos = enc o its ++ more -> (length (rest pos) < fuel)%nat ->
  ∃ r', ReadRecord_loop fuel frag scratch (negb begin) prosp r = Some (Some (scratch ++ s), r') /\
    R_ok P (pos + |[enc o its]|) r' /\ at_offset (pos + |[enc o its]|) (end_of o its) /\ same_checks r r'.
Proof.
  induction fuel as [| fuel IH]; intros begin its s pos o r frag scratch prosp more Hr Ha Hl Hs Hb Hp Hd Hf; [lia |].
  destruct its as [| it its]; [done |]. cbn [enc layout end_of] in *. destruct Hl as [Hit Hl]. rewrite <- app_assoc in Hd.
  destruct (R_ok_next pos o r it _ Hr (proj1 Ha) Hd) as [Enext Hlen].
  destruct (phys_whole Hreads P 0 pos o r frag it _ Hr Ha Hit Hd) as (r1 & E1 & Hr1 & Ha1 & Hc1).
  cbn [ReadRecord_loop]. rewrite E1. cbn [mbind option_bind]. rewrite (ro_sync P _ _ Hr1). cbn [andb]. rewrite (R_ok_sync _ _ Hr1).
  destruct its as [| it2 its].
  - destruct Hs as [<- Et]. cbn [enc end_of]. rewrite app_nil_r, Et.
    assert (∀ o', 0 <= o' -> R_ok P (pos + |[enc_item o it]|) (set_last_record_offset o' r1)) as Hmark
      by (intros o' Ho'; rewrite <- (R_ok_sync _ _ Hr1); by apply R_ok_mark).
    pose proof (Hmark _ (u64_nonneg (end_of_buffer_offset_ r1 - |[buffer_ r1]| - kHeaderSize - |[it.2]|))).
    destruct begin; cbn [negb begins] in *; [rewrite Hb |]; cbn; eexists; (split; [done |]); by auto.
  - destruct Hs as (Et & s' & -> & Hs). rewrite Et, slice_size_app.
    assert (∀ sc pr, 0 <= pr -> ∃ r', ReadRecord_loop fuel it.2 sc true pr r1 = Some (Some (sc ++ s'), r') /\
      R_ok P (pos + (|[enc_item o it]| + |[enc (next_of o it.2) (it2 :: its)]|)) r' /\
      at_offset (pos + (|[enc_item o it]| + |[enc (next_of o it.2) (it2 :: its)]|)) (end_of (next_of o it.2) (it2 :: its)) /\ same_checks r r') as Hgo.
    { intros sc pr Hpr. destruct (IH false (it2 :: its) s' _ _ r1 it.2 sc pr more Hr1 Ha1 Hl Hs I Hpr Enext) as (r' & E & Hr' & Ha' & Hc');
        [rewrite Enext; lia |]. rewrite !Z.add_assoc. exists r'. split_and!; try done. unfold same_checks in *. congruence. }
    destruct begin; cbn [negb begins] in *.
    + rewrite Hb. destruct (Hgo it.2 (u64 (end_of_buffer_offset_ r1 - |[buffer_ r1]| - kHeaderSize - |[it.2]|)) (u64_nonneg _)) as (r' & E & Hr').
      exists r'. by rewrite app_nil_l.
    + rewrite app_assoc. destruct (Hgo (scratch ++ it.2) prosp Hp) as (r' & E & Hr'). by exists r'.
Qed.

Lemma ReadRecord_part fuel : ∀ begin its s pos o r frag scratch prosp x,
  R_ok P pos r -> at_offset pos o -> layout o its -> shape begin its s -> begins begin scratch -> 0 <= prosp ->
  rest pos ++ x = enc o its -> x <> [] -> (length (rest pos) < fuel)%nat ->
  ∃ r', ReadRecord_loop fuel frag scratch (negb begin) prosp r = Some (None, r') /\ reporter_ r' = Some [].
Proof.
  induction fuel as [| fuel IH]; intros begin its s pos o r frag scratch prosp x Hr Ha Hl Hs Hb Hp Hd Hx Hf; [lia |].
  destruct its as [| it its]; [done |]. cbn [enc layout] in *. destruct Hl as [Hit Hl].
  destruct (Nat.le_gt_cases (length (enc_item o it)) (length (rest pos))) as [Hle | Hgt].
  - destruct (app_split_le _ _ _ _ Hd Hle) as (more & Em & Ed). destruct (R_ok_next pos o r it _ Hr (proj1 Ha) Em) as [Enext Hlen].
    destruct (phys_whole Hreads P 0 pos o r frag it _ Hr Ha Hit Em) as (r1 & E1 & Hr1 & Ha1 & Hc1).
    cbn [ReadRecord_loop]. rewrite E1. cbn [mbind option_bind]. rewrite (ro_sync P _ _ Hr1). cbn [andb]. rewrite (R_ok_sync _ _ Hr1).
    destruct its as [| it2 its].
    { exfalso. cbn [enc] in Ed. destruct more, x; done. }
    destruct Hs as (Et & s' & -> & Hs). rewrite Et.
    assert (∀ sc pr, 0 <= pr -> ∃ r', ReadRecord_loop fuel it.2 sc true pr r1 = Some (None, r') /\ reporter_ r' = Some []) as Hgo.
    { intros sc pr Hpr. apply (IH false (it2 :: its) s' _ _ r1 it.2 sc pr x Hr1 Ha1 Hl Hs I Hpr); [by rewrite Enext, Ed | done | rewrite Enext; lia]. }
    destruct begin; cbn [negb begins] in *.
    + rewrite Hb. apply Hgo, u64_nonneg.
    + by apply Hgo.
  - destruct (app_split_le _ _ _ _ (eq_sym Hd)) as (x' & Ex & Exx); [lia |].
    destruct (phys_part Hreads P 0 pos o r frag it x' Hr Ha Hit (eq_sym Ex)) as (r1 & E1 & H1).
    { intros ->. rewrite app_nil_r in Ex. rewrite Ex in Hgt. lia. }
    cbn [ReadRecord_loop]. rewrite E1. cbn [mbind option_bind]. exists (set_resyncing false r1).
    destruct (resyncing_ r1); cbn; by destruct begin.
Qed.

(** ** Records *)
Lemma ReadRecord_clean pos r fuel : R_ok P pos r -> ReadRecord fuel false r = ReadRecord_loop fuel [] [] (negb true) 0 r.
Proof.
  intros Hr. unfold ReadRecord. rewrite (ro_initial P pos r Hr). pose proof (ro_last P pos r Hr).
  by rewrite (proj2 (Z.ltb_ge _ _)) by done.
Qed.

(** The end of the file between two records. *)
Lemma ReadRecord_end fuel pos o r : R_ok P pos r -> at_offset pos o -> rest pos = [] -> (0 < fuel)%nat ->
  ∃ r', ReadRecord fuel false r = Some (None, r') /\ reporter_ r' = Some [].
Proof.
  intros Hr Ha Hd Hf. rewrite (ReadRecord_clean pos r) by done. pose proof (start_of_range o (proj1 Ha)) as Hs.
  apply (ReadRecord_part fuel true [(kFullType, [])] [] pos o r [] [] 0 (enc o [(kFullType, [])])); try done.
  - cbn [layout fst snd]. split; [| done]. split; [by_compute |]. split; [apply Forall_nil_2 |]. unfold next_of. cbn [snd]. change (|[ [] ]|) with 0. lia.
  - by rewrite Hd.
  - cbn [enc]. rewrite app_nil_r. intros E. apply (f_equal slice_size) in E. rewrite size_enc_item in E by apply Ha.
    unfold slice_size, kHeaderSize in E. cbn in E. lia.
  - by rewrite Hd.
Qed.

Lemma read_all_ok recs : ∀ fuel pos o r x, R_ok P pos r -> at_offset pos o -> Forall bytes recs ->
  rest pos ++ x = log_bytes o recs -> (length (rest pos) + 1 < fuel)%nat ->
  ∃ k r', read_all fuel r = Some (take k recs, r') /\ reporter_ r' = Some [] /\
    ∀ i, (i <= length recs)%nat -> (length (log_bytes o (take i recs)) <= length (rest pos))%nat -> (i <= k)%nat.
Proof.
  induction recs as [| s recs IH]; intros fuel pos o r x Hr Ha Hb Hd Hf; (destruct fuel as [| fuel]; [lia |]); cbn [read_all].
  { destruct (ReadRecord_end fuel pos o r Hr Ha) as (r' & -> & Hr'); [by destruct (rest pos) | lia |].
    exists O, r'. split; [done |]. split; [done |]. cbn [length]. lia. }
  apply list.Forall_cons in Hb as [Hbs Hb]. destruct (frags_ok o s (proj1 Ha) Hbs) as (Hsh & Hl & Hend). cbn [log_bytes] in Hd.
  rewrite (ReadRecord_clean pos r) by done.
  destruct (Nat.le_gt_cases (length (enc o (frags o s))) (length (rest pos))) as [Hle | Hgt].
  - destruct (app_split_le _ _ _ _ Hd Hle) as (more & Em & Ed).
    destruct (ReadRecord_whole fuel true _ s pos o r [] [] 0 more Hr Ha Hl Hsh eq_refl ltac:(lia) Em ltac:(lia)) as (r1 & -> & Hr1 & Ha1 & _).
    cbn [mbind option_bind app]. pose proof (ro_pos P pos r Hr). pose proof (slice_size_nonneg (enc o (frags o s))).
    assert (rest (pos + |[enc o (frags o s)]|) = more) as Er by (rewrite Z2Nat.inj_add, <- drop_drop, Em by lia; apply drop_slice_size).
    assert (length (rest pos) = length (enc o (frags o s)) + length more)%nat as El by by rewrite Em, length_app.
    assert (0 < length (enc o (frags o s)))%nat as Hpos.
    { destruct (frags o s) as [| it its]; [done |]. cbn [enc]. pose proof (size_enc_item o it (proj1 Ha)). pose proof (slice_size_nonneg it.2).
      pose proof (start_of_range o (proj1 Ha)). unfold slice_size, kHeaderSize in *. rewrite length_app. lia. }
    destruct (IH fuel _ _ r1 x Hr1 Ha1 Hb) as (k & r' & -> & Hrep & Hk); [by rewrite Er, Ed | rewrite Er; lia |].
    exists (S k), r'. split; [done |]. split; [done |]. intros [| i] Hi Hs; [lia |]. cbn [take firstn log_bytes length] in *.
    rewrite length_app in Hs. apply le_n_S, Hk; [lia |]. rewrite Er. lia.
  - destruct (app_split_le _ _ _ _ (eq_sym Hd)) as (x' & Ex & Exx); [lia |].
    destruct (ReadRecord_part fuel true _ s pos o r [] [] 0 x' Hr Ha Hl Hsh eq_refl ltac:(lia) (eq_sym Ex)) as (r1 & -> & Hrep); [| lia |].
    { intros ->. rewrite app_nil_r in Ex. rewrite Ex in Hgt. lia. }
    exists O, r1. split; [done |]. split; [done |]. intros [| i] Hi Hs; [lia |]. cbn [take firstn log_bytes length] in *.
    rewrite length_app in Hs. lia.
Qed.
End Reader.

(** ** Reports *)
Section Reports.
Context {F : Type} `{SequentialFile F}.
Implicit Types (r : Reader F).

(** Reports are only added. *)
Definition more_reports r r' : Prop := ∃ x, reporter_ r' = (λ l, l ++ x) <$> reporter_ r.
Lemma more_refl r r' : reporter_ r' = reporter_ r -> more_reports r r'.
Proof. intros E. exists []. rewrite E. destruct (reporter_ r); cbn; [by rewrite app_nil_r | done]. Qed.
Lemma more_trans r r1 r2 : more_reports r r1 -> more_reports r1 r2 -> more_reports r r2.
Proof. intros [x E1] [y E2]. exists (x ++ y). rewrite E2, E1. destruct (reporter_ r); cbn; [by rewrite app_assoc | done]. Qed.
Lemma more_drop n reason r r' : reporter_ r' = reporter_ r -> more_reports r (ReportDrop n reason r').
Proof.
  intros E. unfold ReportDrop. destruct (reporter_ r') as [l |] eqn:E'; [| apply more_refl; congruence]. case_match; [| apply more_refl; congruence].
  exists [(n, reason)]. cbn. by rewrite <- E.
Qed.

Lemma Physical_reports fuel : ∀ result r t p r', ReadPhysicalRecord fuel result r = Some (t, p, r') -> more_reports r r'.
Proof.
  induction fuel as [| fuel IH]; intros result r t p r'; cbn [ReadPhysicalRecord]; [done |]. destruct (|[buffer_ r]| <? kHeaderSize).
  - destruct (eof_ r); cbn [negb]; [intros [= <- <- <-]; by apply more_refl |]. destruct (sf_Read (file_ r) kBlockSize) as [[status data] f]. cbn [negb].
    destruct (ok status); cbn [negb].
    + intros E. apply IH in E. eapply more_trans; [| exact E]. apply more_refl. by case_match.
    + intros [= <- <- <-]. match goal with |- more_reports _ (set_eof _ ?x) => apply (more_trans _ x) end; [by apply more_drop | by apply more_refl].
  - destruct (buffer_ r !! 4%nat) as [a |]; [| done]. destruct (buffer_ r !! 5%nat) as [b |]; [| done]. destruct (buffer_ r !! 6%nat) as [c |]; [| done].
    cbn [mbind option_bind]. case_match.
    + case_match; intros [= <- <- <-]; [by apply more_drop | by apply more_refl].
    + case_match; [intros [= <- <- <-]; by apply more_refl |]. destruct (DecodeFixed32 (buffer_ r)); [| done]. cbn [mbind option_bind].
      case_match; [intros [= <- <- <-]; by apply more_drop |]. case_match; intros [= <- <- <-]; by apply more_refl.
Qed.
Lemma Record_loop_reports fuel : ∀ fragment scratch b pr r x r', ReadRecord_loop fuel fragment scratch b pr r = Some (x, r') -> more_reports r r'.
Proof.
  induction fuel as [| fuel IH]; intros fragment scratch b pr r x r'; cbn [ReadRecord_loop]; [done |].
  destruct (ReadPhysicalRecord 3 fragment r) as [[[t p] r1] |] eqn:E1; [| done]. cbn [mbind option_bind]. apply Physical_reports in E1.
  assert (∀ fr sc b' pr' r2, more_reports r1 r2 -> ReadRecord_loop fuel fr sc b' pr' r2 = Some (x, r') -> more_reports r r') as Hgo.
  { intros fr sc b' pr' r2 H2 E. apply IH in E. eapply more_trans; [exact E1 |]. by eapply more_trans. }
  assert (∀ r2, more_reports r1 r2 -> more_reports r r2) as Hend by (intros r2 H2; by eapply more_trans).
  case_match; [apply Hgo; by apply more_refl |]. case_match; [apply Hgo; by apply more_refl |].
  case_match; [intros [= <- <-]; apply Hend; match goal with |- more_reports _ (set_last_record_offset _ ?x) => apply (more_trans _ x) end; [| by apply more_refl]; case_match; [by apply more_drop | by apply more_refl] |].
  case_match; [apply Hgo; case_match; [by apply more_drop | by apply more_refl] |].
  case_match; [case_match; apply Hgo; [by apply more_drop | by apply more_refl] |].
  case_match; [case_match; [apply Hgo; by apply more_drop | intros [= <- <-]; apply Hend; by apply more_refl] |].
  case_match; [intros [= <- <-]; apply Hend; by apply more_refl |].
  case_match; [case_match; apply Hgo; [by apply more_drop | by apply more_refl] |]. apply Hgo. by apply more_drop.
Qed.
Lemma ReadRecord_reports fuel r x r' : ReadRecord fuel false r = Some (x, r') -> more_reports r r'.
Proof.
  unfold ReadRecord. destruct (last_record_offset_ r <? initial_offset_ r); [| apply Record_loop_reports].
  unfold SkipToInitialBlock. cbn zeta. match goal with |- context [if ?z >? 0 then (let '(_, _) := _ in _) else _] => destruct (z >? 0) end; [| intros E; apply Record_loop_reports in E; eapply more_trans; [| exact E]; by apply more_refl].
  destruct (sf_Skip _ _) as [s f]. destruct (ok s); cbn [negb]; [intros E; apply Record_loop_reports in E; eapply more_trans; [| exact E]; by apply more_refl |].
  intros [= <- <-]. by apply more_drop.
Qed.
Lemma read_all_reports fuel : ∀ r l r', read_all fuel r = Some (l, r') -> more_reports r r'.
Proof.
  induction fuel as [| fuel IH]; intros r l r'; cbn [read_all]; [done |]. destruct (ReadRecord fuel false r) as [[[s |] r1] |] eqn:E; [| | done]; cbn [mbind option_bind]; apply ReadRecord_reports in E.
  - destruct (read_all fuel r1) as [[l1 r2] |] eqn:E2; [| done]. cbn [mbind option_bind]. intros [= <- <-]. eapply more_trans; [exact E |]. by eapply IH.
  - by intros [= <- <-].
Qed.
Lemma no_reports r r' : more_reports r r' -> reporter_ r' = Some [] -> reporter_ r = Some [].
Proof. intros [x E] E'. rewrite E in E'. destruct (reporter_ r) as [l |]; [| done]. cbn in E'. injection E' as E'. by apply app_nil in E' as [-> _]. Qed.
End Reports.

Section Writer.
Context {W : Type} `{WritableFileLaws W}.
Variable ndebug : bool.

Lemma write_all_ok recs : ∀ w, writer_ok w -> Forall bytes recs ->
  ∃ n w' d x, write_all ndebug recs w = Some (n, w') /\ (n <= length recs)%nat /\ wf_data (dest_ w') = wf_data (dest_ w) ++ d /\
    d ++ x = log_bytes (block_offset_ w) recs /\ (length (log_bytes (block_offset_ w) (take n recs)) <= length d)%nat /\
    (n = length recs -> d = log_bytes (block_offset_ w) recs).
Proof.
  induction recs as [| s recs IH]; intros w Hw Hb.
  { exists O, w, [], []. cbn. by rewrite app_nil_r. }
  apply list.Forall_cons in Hb as [Hbs Hb]. cbn [write_all log_bytes].
  destruct (AddRecord_ok ndebug s w Hw Hbs) as (st & w1 & -> & Happ & Hoff). cbn [mbind option_bind].
  destruct (frags_ok (block_offset_ w) s (proj2 Hw) Hbs) as (_ & _ & Hend). unfold appended in Happ. destruct Happ as [Hopen Happ]. destruct (ok st) eqn:Est.
  - specialize (Hoff eq_refl). destruct (IH w1) as (n & w' & d & x & -> & Hn & Ed & Ex & Hl & Hfull); [split; [done | by rewrite Hoff] | done |].
    cbn [mbind option_bind]. exists (S n), w', (enc (block_offset_ w) (frags (block_offset_ w) s) ++ d), x.
    rewrite Hoff in *. split; [done |]. split; [cbn; lia |]. split; [by rewrite Ed, Happ, app_assoc |].
    split; [by rewrite <- app_assoc, Ex |]. split; [cbn [take firstn log_bytes]; rewrite !length_app; lia |].
    cbn [length]. intros [= E]. by rewrite Hfull.
  - destruct Happ as [n Hd]. exists O, w1, (take n (enc (block_offset_ w) (frags (block_offset_ w) s))).
    eexists. split; [done |]. split; [cbn; lia |]. split; [done |]. split; [| split; [cbn; lia | done]].
    rewrite <- (take_drop n (enc (block_offset_ w) (frags (block_offset_ w) s))) at 2. by rewrite <- app_assoc.
Qed.
End Writer.

Lemma new_Reader_ok {F} `{SequentialFileLaws F} (f : F) cks : R_ok (sf_data f) 0 (new_Reader f true cks 0).
Proof. split; try done. pose proof (slice_size_nonneg (sf_data f)). lia. Qed.

(** C22. Logs survive crashes.  Records are written to an empty log one after the other, until one fails.  The file is then
    cut at any point, and reading it gives a prefix of the records, whole and in order: no record is invented,
    damaged or lost in the middle, and the cut itself is not reported as corruption.  All records that ended
    within what is left of the file are among them, so what was acknowledged and synced is recovered.
    Reads do not fail. *)
Theorem log_recovery {W F : Type} `{WritableFileLaws W} `{SequentialFileLaws F} (ndebug : bool) (recs : list Slice) (w : W) :
  wf_open w -> wf_data w = [] -> Forall bytes recs -> (∀ (f : F) n, ok (sf_Read f n).1.1 = true) ->
  ∃ n w', write_all ndebug recs (new_Writer w 0) = Some (n, w') /\ (n <= length recs)%nat /\
    ∀ (f : F) cks m fuel, sf_data f = take m (wf_data (dest_ w')) -> (length (sf_data f) + 1 < fuel)%nat ->
      ∃ k r', read_all fuel (new_Reader f true cks 0) = Some (take k recs, r') /\ reporter_ r' = Some [] /\
        ∀ i wi, (i <= n)%nat -> write_all ndebug (take i recs) (new_Writer w 0) = Some (i, wi) ->
          (length (wf_data (dest_ wi)) <= length (sf_data f))%nat -> (i <= k)%nat.
Proof.
  intros Ho Hw Hb Hreads. assert (writer_ok (new_Writer w 0)) as Hok by (split; [done | by_compute]).
  destruct (write_all_ok ndebug recs _ Hok Hb) as (n & w' & d & x & E & Hn & Ed & Ex & _). rewrite E. exists n, w'. split; [done |]. split; [done |].
  intros f cks m fuel Ef Hf. cbn [new_Writer dest_] in Ed. rewrite Hw in Ed. cbn [app] in Ed. rewrite Ed in Ef.
  destruct (read_all_ok Hreads (sf_data f) recs fuel 0 0 (new_Reader f true cks 0) (drop m d ++ x)) as (k & r' & Er & Hrep & Hk);
    [apply new_Reader_ok | by_compute | done | | done |].
  - change (Z.to_nat 0) with O. rewrite drop_0, Ef, app_assoc, take_drop. done.
  - exists k, r'. split; [done |]. split; [done |]. intros i wi Hi Ei Hsz. apply Hk; [lia |].
    assert (Forall bytes (take i recs)) as Hbi by by apply Forall_take.
    destruct (write_all_ok ndebug (take i recs) _ Hok Hbi) as (n2 & w2 & d2 & x2 & E2 & _ & Ed2 & _ & _ & Hfull).
    rewrite Ei in E2. injection E2 as <- <-. cbn [new_Writer dest_] in Ed2. rewrite Hw in Ed2. cbn [app] in Ed2.
    rewrite Ed2, Hfull in Hsz by (rewrite length_take; lia). exact Hsz.
Qed.

Lemma log_recovery_witness :
  ∃ n w', write_all false [[1; 2; 3]; [4; 5]] (new_Writer [] 0) = Some (n, w') /\ (n <= 2)%nat /\
    ∀ (f : Slice) cks m fuel, sf_data f = take m (wf_data (dest_ w')) -> (length (sf_data f) + 1 < fuel)%nat ->
      ∃ k r', read_all fuel (new_Reader f true cks 0) = Some (take k [[1; 2; 3]; [4; 5]], r') /\ reporter_ r' = Some [] /\
        ∀ i wi, (i <= n)%nat -> write_all false (take i [[1; 2; 3]; [4; 5]]) (new_Writer [] 0) = Some (i, wi) ->
          (length (wf_data (dest_ wi)) <= length (sf_data f))%nat -> (i <= k)%nat.
Proof.
  apply (log_recovery (W := Slice) (F := Slice) false [[1; 2; 3]; [4; 5]] []); [exact I | done | by_compute |].
  intros f n. reflexivity.
Defined.
