(* ===== verification/Iterator.v ===== *)
(** * Iterators ([leveldb/iterator.h], [iterator.cc], [iterator_wrapper.h])

    The interface [Iterator] and its contract [iterates]: the iterator walks a sequence of pairs, and its position
    is an index of the sequence, or its length when it is not valid.  The empty iterator and the wrapper, which keeps
    the validity and the key of another iterator, implement it. *)
From stdpp Require Import sorting.
From S2P Require Import Prelude Status Comparator.

Class Iterator (I : Type) := {
  Valid : I -> bool;
  SeekToFirst : I -> option I;
  SeekToLast : I -> option I;
  Seek : Slice -> I -> option I;
  Next : I -> option I;
  Prev : I -> option I;
  key : I -> option Slice;
  value : I -> option Slice;
  status : I -> Status
}.

Abbreviation Pairs := (list (Slice * Slice)).

(** ** What an iterator promises *)
Section Contract.
Context {C : Comparator} (valid : Slice -> Prop).
Implicit Types (l : Pairs) (target : Slice).

Definition sorted_pairs l : Prop := StronglySorted (λ a b, Compare a b = Some Lt) l.*1 /\ Forall valid l.*1.

(** The first pair that is at or past the target. *)
Fixpoint lower l target : nat :=
  match l with
  | [] => O
  | p :: l => match Compare p.1 target with Some Lt => S (lower l target) | _ => O end
  end.

Context {I : Type} `{Iterator I}.

Record iterates (R : nat -> I -> Prop) l : Prop := {
  iter_bound n it : R n it -> (n <= length l)%nat;
  iter_Valid n it : R n it -> Valid it = bool_decide (n < length l)%nat;
  iter_key n it p : R n it -> l !! n = Some p -> key it = Some p.1;
  iter_value n it p : R n it -> l !! n = Some p -> value it = Some p.2;
  iter_Next n it : R n it -> (n < length l)%nat -> ∃ it', Next it = Some it' /\ R (S n) it';
  iter_Prev n it : R n it -> (n < length l)%nat -> ∃ it', Prev it = Some it' /\ R (if decide (n = 0)%nat then length l else n - 1)%nat it';
  iter_SeekToFirst n it : R n it -> ∃ it', SeekToFirst it = Some it' /\ R 0%nat it';
  iter_SeekToLast n it : R n it -> ∃ it', SeekToLast it = Some it' /\ R (length l - 1)%nat it';
  iter_Seek n it target : R n it -> valid target -> ∃ it', Seek target it = Some it' /\ R (lower l target) it';
  iter_status n it : R n it -> ok (status it) = true
}.
End Contract.
Arguments iter_bound {C valid I _ R l} _.
Arguments iter_Valid {C valid I _ R l} _.
Arguments iter_key {C valid I _ R l} _.
Arguments iter_value {C valid I _ R l} _.
Arguments iter_Next {C valid I _ R l} _.
Arguments iter_Prev {C valid I _ R l} _.
Arguments iter_SeekToFirst {C valid I _ R l} _.
Arguments iter_SeekToLast {C valid I _ R l} _.
Arguments iter_Seek {C valid I _ R l} _.
Arguments iter_status {C valid I _ R l} _.

Lemma StronglySorted_intro {A} (R : A -> A -> Prop) (l : list A) :
  (∀ i j a b, l !! i = Some a -> l !! j = Some b -> (i < j)%nat -> R a b) -> StronglySorted R l.
Proof.
  induction l as [| x l IH]; intros Hl; constructor.
  - apply IH. intros i j a b Ei Ej Hij. by apply (Hl (S i) (S j)); [.. | lia].
  - apply list.Forall_forall. intros y [j Ej]%list_elem_of_lookup. apply (Hl 0%nat (S j)); [done.. | lia].
Qed.
Lemma StronglySorted_at {A} (R : A -> A -> Prop) (l : list A) i j a b : StronglySorted R l -> l !! i = Some a -> l !! j = Some b -> (i < j)%nat -> R a b.
Proof.
  intros Hs. revert i j. induction Hs as [| x l Hs IH Hx]; intros i j Ei Ej Hij; [done |]. destruct j as [| j]; [lia |]. destruct i as [| i].
  - injection Ei as <-. rewrite list.Forall_forall in Hx. by eapply Hx, list_elem_of_lookup_2.
  - apply (IH i j); [done.. | lia].
Qed.

Section Lower.
Context {C : Comparator} {valid : Slice -> Prop} `{!OrderOn Compare valid}.
Implicit Types (l : Pairs) (target : Slice).

Lemma lower_le l target : (lower l target <= length l)%nat.
Proof. induction l as [| p l IH]; cbn; [lia |]. destruct (Compare p.1 target) as [[] |]; lia. Qed.

Lemma lower_app l1 l2 target : lower (l1 ++ l2) target =
  if decide (lower l1 target < length l1)%nat then lower l1 target else (length l1 + lower l2 target)%nat.
Proof.
  induction l1 as [| p l1 IH]; [by cbn |]. cbn [app lower length].
  destruct (Compare p.1 target) as [[] |]; try (by rewrite decide_True by lia).
  rewrite IH. repeat case_decide; lia.
Qed.

(** In a sorted sequence it separates the smaller keys from the rest. *)
Lemma lower_spec l target i p : sorted_pairs valid l -> valid target -> l !! i = Some p ->
  (i < lower l target)%nat <-> Compare p.1 target = Some Lt.
Proof.
  intros [Hs Hv] Ht. revert i. induction l as [| q l IH]; intros i E; [done |]. cbn [lower].
  cbn [fmap list_fmap] in Hs, Hv. apply StronglySorted_inv in Hs as [Hs Hq]. apply list.Forall_cons in Hv as [Hvq Hv].
  destruct i as [| i]; cbn in E.
  - injection E as ->. destruct (Compare p.1 target) as [[] |]; split; by (lia || congruence).
  - assert (p.1 ∈ l.*1) as Hp by by eapply list_elem_of_fmap_2, list_elem_of_lookup_2.
    rewrite list.Forall_forall in Hq. specialize (Hq _ Hp). pose proof (proj1 (list.Forall_forall _ _) Hv _ Hp) as Hvp.
    assert (Compare p.1 target = Some Lt -> Compare q.1 target = Some Lt) as Htrans
      by (intros Elt; by apply (cmp_trans q.1 p.1 target)).
    destruct (Compare q.1 target) as [[] |] eqn:Eq; try (split; [lia | intros Elt; specialize (Htrans Elt); congruence]).
    rewrite <- Nat.succ_lt_mono. by apply (IH Hs Hv).
Qed.

Lemma sorted_pairs_app l1 l2 : sorted_pairs valid (l1 ++ l2) -> sorted_pairs valid l1 /\ sorted_pairs valid l2.
Proof.
  intros [Hs Hv]. rewrite fmap_app in Hs, Hv. apply StronglySorted_app in Hs as (_ & H1 & H2).
  apply list.Forall_app in Hv as [V1 V2]. done.
Qed.

Lemma sorted_pairs_lookup l i j p q : sorted_pairs valid l -> l !! i = Some p -> l !! j = Some q -> (i < j)%nat -> Compare p.1 q.1 = Some Lt.
Proof.
  intros [Hs _]. revert i j. induction l as [| r l IH]; intros i j Ei Ej Hij; [done |].
  cbn [fmap list_fmap] in Hs. apply StronglySorted_inv in Hs as [Hs Hr]. destruct j as [| j]; [lia |]. destruct i as [| i]; cbn in Ei, Ej.
  - injection Ei as ->. rewrite list.Forall_forall in Hr. by eapply Hr, list_elem_of_fmap_2, list_elem_of_lookup_2.
  - apply (IH Hs i j); [done.. | lia].
Qed.

Lemma sorted_pairs_valid l i p : sorted_pairs valid l -> l !! i = Some p -> valid p.1.
Proof. intros [_ Hv] E. rewrite list.Forall_forall in Hv. by eapply Hv, list_elem_of_fmap_2, list_elem_of_lookup_2. Qed.

Lemma lower_full l t : (∀ q, q ∈ l -> Compare q.1 t = Some Lt) -> lower l t = length l.
Proof.
  induction l as [| q l IH]; intros Hq; [done |]. cbn [lower length]. rewrite (Hq q) by left. rewrite IH; [done |]. intros r Hr. apply Hq. by right.
Qed.
Lemma lower_zero l t : (∀ q, q ∈ l -> Compare q.1 t <> Some Lt) -> lower l t = 0%nat.
Proof. destruct l as [| q l]; intros Hq; [done |]. cbn [lower]. specialize (Hq q ltac:(left)). by destruct (Compare q.1 t) as [[] |]. Qed.

Lemma lower_hit l i p : sorted_pairs valid l -> l !! i = Some p -> lower l p.1 = i.
Proof.
  intros Hs E. pose proof (sorted_pairs_valid l i p Hs E) as Hv. pose proof (lower_spec l p.1 i p Hs Hv E) as Hi. rewrite cmp_refl in Hi by done.
  destruct (lt_eq_lt_dec (lower l p.1) i) as [[Hlt | Heq] | Hgt]; [| done | by apply Hi in Hgt].
  destruct (lookup_lt_is_Some_2 l (lower l p.1)) as [q Eq]; [apply lookup_lt_Some in E; lia |].
  pose proof (sorted_pairs_lookup l _ _ q p Hs Eq E Hlt) as Hq. apply (lower_spec l p.1 _ q Hs Hv Eq) in Hq. lia.
Qed.

(** A search for a larger key ends no earlier. *)
Lemma lower_mono l k k' : sorted_pairs valid l -> valid k -> valid k' ->
  Compare k k' <> Some Gt -> (lower l k <= lower l k')%nat.
Proof.
  intros Hs Hk Hk' Hle. destruct (decide (lower l k <= lower l k')%nat) as [? | Hgt]; [done | exfalso]. pose proof (lower_le l k).
  destruct (lookup_lt_is_Some_2 l (lower l k')) as [q Eq]; [lia |]. assert (valid q.1) as Hq by by eapply sorted_pairs_valid.
  assert (Compare q.1 k = Some Lt) as Hlt by (apply (lower_spec l k _ q Hs Hk Eq); lia).
  assert (Compare q.1 k' = Some Lt) as Hlt' by by apply (cmp_lt_le_trans q.1 k k').
  apply (lower_spec l k' _ q Hs Hk' Eq) in Hlt'. lia.
Qed.

Lemma sorted_pairs_intro l : (∀ i p, l !! i = Some p -> valid p.1) -> (∀ i j p q, l !! i = Some p -> l !! j = Some q -> (i < j)%nat -> Compare p.1 q.1 = Some Lt) ->
  sorted_pairs valid l.
Proof.
  intros Hv Hs. split.
  - apply StronglySorted_intro. intros i j a b Ei Ej. rewrite list_lookup_fmap in Ei, Ej.
    apply fmap_Some in Ei as (p & Ei & ->), Ej as (q & Ej & ->). by apply Hs.
  - apply list.Forall_lookup_2. intros i a Ei. rewrite list_lookup_fmap in Ei. apply fmap_Some in Ei as (p & Ei & ->). by eapply Hv.
Qed.
Lemma lower_unique l t n : (n <= length l)%nat -> (∀ i p, (i < n)%nat -> l !! i = Some p -> Compare p.1 t = Some Lt) ->
  (∀ p, l !! n = Some p -> Compare p.1 t <> Some Lt) -> lower l t = n.
Proof.
  revert n. induction l as [| p l IH]; intros n Hn Hlt Hge; cbn [lower length] in *; [lia |]. destruct n as [| n].
  - specialize (Hge p eq_refl). by destruct (Compare p.1 t) as [[] |].
  - rewrite (Hlt 0%nat p) by (done || lia). f_equal. apply IH; [lia | | done]. intros i q Hi. apply (Hlt (S i)). lia.
Qed.
Lemma sorted_pairs_perm l l' : sorted_pairs valid l -> sorted_pairs valid l' -> l ≡ₚ l' -> l = l'.
Proof.
  intros Hs Hs' Hp. set (R := λ a b : Slice * Slice, Compare a.1 b.1 = Some Lt).
  assert (∀ l, sorted_pairs valid l -> StronglySorted R l) as HR.
  { clear. intros l Hs. apply StronglySorted_intro. intros i j a b Ei Ej Hij. exact (sorted_pairs_lookup l i j a b Hs Ei Ej Hij). }
  apply (StronglySorted_unique_strong R); [| by apply HR.. | done]. intros a b [i Ei]%list_elem_of_lookup [j Ej]%list_elem_of_lookup Hab Hba.
  pose proof (sorted_pairs_valid l i a Hs Ei) as Va. pose proof (sorted_pairs_valid l' j b Hs' Ej) as Vb. unfold R in *.
  pose proof (cmp_flip a.1 b.1 Lt Va Vb Hab) as H. cbn in H. congruence.
Qed.

(** Pairs with distinct keys can be sorted. *)
Lemma sorted_pairs_insert l p : sorted_pairs valid l -> valid p.1 -> (∀ q, q ∈ l -> Compare q.1 p.1 <> Some Eq) ->
  sorted_pairs valid (take (lower l p.1) l ++ p :: drop (lower l p.1) l).
Proof.
  intros Hs Hv Hne. set (n := lower l p.1). pose proof (lower_le l p.1) as Hn. fold n in Hn.
  assert (∀ i q, l !! i = Some q -> valid q.1 /\ if decide (i < n)%nat then Compare q.1 p.1 = Some Lt else Compare p.1 q.1 = Some Lt) as Hq.
  { intros i q Ei. pose proof (sorted_pairs_valid l i q Hs Ei) as Vq. split; [done |]. pose proof (lower_spec l p.1 i q Hs Hv Ei) as Hi. fold n in Hi.
    case_decide; [by apply Hi |]. destruct (cmp_some q.1 p.1 Vq Hv) as [[] E]; [by destruct (Hne q (list_elem_of_lookup_2 _ _ _ Ei)) | by apply Hi in E |].
    by apply cmp_gt_lt. }
  assert (∀ i q, (take n l ++ p :: drop n l) !! i = Some q -> (i = n /\ q = p) \/ ∃ j, l !! j = Some q /\ i = if decide (j < n)%nat then j else S j) as Hat.
  { intros i q Ei. destruct (decide (i < n)%nat) as [Hlt |].
    - rewrite lookup_app_l, lookup_take_lt in Ei by (rewrite ?length_take; lia). right. exists i. by rewrite decide_True.
    - rewrite lookup_app_r, length_take_le in Ei by (rewrite ?length_take; lia). destruct (i - n)%nat as [| k] eqn:Ek; [left; split; [lia | by injection Ei] |].
      change (drop n l !! k = Some q) in Ei. rewrite lookup_drop in Ei. right. exists (n + k)%nat. rewrite decide_False by lia. split; [done | lia]. }
  apply sorted_pairs_intro.
  - intros i q [[_ ->] | (j & Ej & _)]%Hat; [done |]. by apply (Hq j q).
  - intros i j a b Ha Hb Hij. apply Hat in Ha as [[-> ->] | (i' & Ei & ->)]; apply Hat in Hb as [[-> ->] | (j' & Ej & ->)].
    + lia.
    + destruct (Hq j' b Ej) as [_ H]. case_decide; [lia | done].
    + destruct (Hq i' a Ei) as [_ H]. case_decide; [done | lia].
    + apply (sorted_pairs_lookup l i' j'); [done.. |]. repeat case_decide; lia.
Qed.
End Lower.

(** ** The empty iterator *)
Record EmptyIterator := MkEmptyIterator { e_status : Status }.

Section Empty.
Variable ndebug : bool.

(** The methods that need a valid iterator fail an assertion, and return an empty string in a release build. *)
Instance EmptyIterator_Iterator : Iterator EmptyIterator := {
  Valid _ := false; SeekToFirst it := Some it; SeekToLast it := Some it; Seek _ it := Some it;
  Next it := _ ← assert_ ndebug false; Some it; Prev it := _ ← assert_ ndebug false; Some it;
  key _ := _ ← assert_ ndebug false; Some []; value _ := _ ← assert_ ndebug false; Some [];
  status := e_status
}.
Definition NewEmptyIterator : EmptyIterator := MkEmptyIterator OK.
Definition NewErrorIterator (s : Status) : EmptyIterator := MkEmptyIterator s.

Lemma EmptyIterator_iterates {C : Comparator} valid : iterates valid (λ n it, n = 0%nat /\ ok (e_status it) = true) [].
Proof. split; cbn; try (intros; lia || naive_solver). Qed.
End Empty.

(** ** The wrapper *)
Record IteratorWrapper (I : Type) := MkWrapper { w_iter : option I; w_valid : bool; w_key : Slice }.
Arguments MkWrapper {I}. Arguments w_iter {I}. Arguments w_valid {I}. Arguments w_key {I}.

Section Wrapper.
Context {I : Type} `{Iterator I}.
Variable ndebug : bool.
Implicit Types (w : IteratorWrapper I).

Definition new_Wrapper : IteratorWrapper I := MkWrapper None false [].
(** [Update]; the old key stays when the iterator is not valid. *)
Definition w_Update (it : I) w : option (IteratorWrapper I) :=
  if Valid it then k ← key it; Some (MkWrapper (Some it) true k) else Some (MkWrapper (Some it) false (w_key w)).
Definition w_Set (it : option I) w : option (IteratorWrapper I) :=
  match it with None => Some (MkWrapper None false (w_key w)) | Some it => w_Update it w end.
(** A method that moves the iterator. *)
Definition w_move (f : I -> option I) w : option (IteratorWrapper I) := it ← w_iter w; it ← f it; w_Update it w.

Instance IteratorWrapper_Iterator : Iterator (IteratorWrapper I) := {
  Valid := w_valid;
  SeekToFirst := w_move SeekToFirst; SeekToLast := w_move SeekToLast; Seek k := w_move (Seek k);
  Next := w_move Next; Prev := w_move Prev;
  key w := _ ← assert_ ndebug (w_valid w); Some (w_key w);
  value w := _ ← assert_ ndebug (w_valid w); it ← w_iter w; value it;
  status w := match w_iter w with Some it => status it | None => OK end
}.

Section Facts.
Context {C : Comparator} {valid : Slice -> Prop} {R : nat -> I -> Prop} {l : Pairs}.
Hypothesis HR : iterates valid R l.

Definition wrapped (n : nat) w : Prop :=
  ∃ it, w_iter w = Some it /\ R n it /\ w_valid w = Valid it /\ (w_valid w = true -> key it = Some (w_key w)).

Lemma w_Update_ok n it w : R n it -> ∃ w', w_Update it w = Some w' /\ wrapped n w'.
Proof.
  intros Hn. unfold w_Update. pose proof (iter_Valid HR n it Hn) as Ev. destruct (Valid it) eqn:E.
  - symmetry in Ev. apply bool_decide_eq_true in Ev. destruct (lookup_lt_is_Some_2 l n Ev) as [p Ep].
    rewrite (iter_key HR n it p Hn Ep). eexists. split; [done |]. exists it. cbn. split_and!; try done. intros _. by eapply (iter_key HR).
  - eexists. split; [done |]. exists it. by cbn.
Qed.
Lemma w_Set_ok n it w : R n it -> ∃ w', w_Set (Some it) w = Some w' /\ wrapped n w'.
Proof. apply w_Update_ok. Qed.
Lemma w_move_ok (f : I -> option I) n m w : wrapped n w -> (∀ it, R n it -> ∃ it', f it = Some it' /\ R m it') ->
  ∃ w', w_move f w = Some w' /\ wrapped m w'.
Proof.
  intros (it & Ei & Hn & _) Hf. destruct (Hf it Hn) as (it' & E & Hm). unfold w_move. rewrite Ei. cbn [mbind option_bind]. rewrite E.
  cbn [mbind option_bind]. by apply w_Update_ok.
Qed.

Lemma wrapper_iterates : iterates valid wrapped l.
Proof.
  split.
  - intros n w (it & _ & Hn & _). by eapply (iter_bound HR).
  - intros n w (it & _ & Hn & Ev & _). cbn. rewrite Ev. by eapply (iter_Valid HR).
  - intros n w p (it & _ & Hn & Ev & Hk) Ep. cbn. pose proof (iter_Valid HR n it Hn) as E. rewrite <- Ev in E.
    rewrite bool_decide_true in E by by eapply lookup_lt_Some. rewrite E, assert_true. cbn [mbind option_bind].
    rewrite <- (Hk E). by eapply (iter_key HR).
  - intros n w p (it & Ei & Hn & Ev & Hk) Ep. cbn. pose proof (iter_Valid HR n it Hn) as E. rewrite <- Ev in E.
    rewrite bool_decide_true in E by by eapply lookup_lt_Some. rewrite E, assert_true, Ei. cbn [mbind option_bind]. by eapply (iter_value HR).
  - intros n w Hw Hl. cbn. eapply w_move_ok; [done |]. intros it Hn. by eapply (iter_Next HR).
  - intros n w Hw Hl. cbn. eapply w_move_ok; [done |]. intros it Hn. by eapply (iter_Prev HR).
  - intros n w Hw. cbn. eapply w_move_ok; [done |]. intros it Hn. by eapply (iter_SeekToFirst HR).
  - intros n w Hw. cbn. eapply w_move_ok; [done |]. intros it Hn. by eapply (iter_SeekToLast HR).
  - intros n w t Hw Ht. cbn. eapply w_move_ok; [done |]. intros it Hn. by eapply (iter_Seek HR).
  - intros n w (it & Ei & Hn & _). cbn. rewrite Ei. by eapply (iter_status HR).
Qed.
End Facts.
End Wrapper.

#[export] Existing Instance IteratorWrapper_Iterator.
