(* ===== verification/Format.v ===== *)
(** * The format of tables ([leveldb/format.h], [format.cc])

    Block handles, the footer and the reading of a block with its trailer.  Files and the snappy library are
    interfaces. *)
From S2P Require Import Prelude Status Coding Crc32c Crc32cProps Log LogFacts.

Definition kTableMagicNumber : Z := 0xdb4775248b80fb57.
Definition kBlockTrailerSize : Z := 5.
Definition kNoCompression : Z := 0.
Definition kSnappyCompression : Z := 1.

(** ** What is outside the program *)

(** [Read] at an offset: the status, the data, and whether the data is in the buffer of the caller. *)
Class RandomAccessFile (F : Type) := { raf_Read : F -> Z -> Z -> Status * Slice * bool }.
(** A file that holds a string: reads do not fail and stop at its end. *)
Class RandomAccessFileLaws (F : Type) `{RandomAccessFile F} := {
  raf_data : F -> Slice;
  raf_Read_ok f off n : 0 <= off -> 0 <= n -> ∃ b, raf_Read f off n = (OK, take (Z.to_nat n) (drop (Z.to_nat off) (raf_data f)), b)
}.
#[global] Instance MemFile_R : RandomAccessFile Slice := {
  raf_Read f off n := (OK, take (Z.to_nat n) (drop (Z.to_nat off) f), false)
}.
#[global] Instance MemFile_RLaws : RandomAccessFileLaws Slice.
Proof. refine {| raf_data := λ f, f |}. intros f off n _ _. by exists false. Defined.

(** The wrappers of the snappy library in [port]: [None] is [false]. *)
Class Snappy := {
  Snappy_Compress : Slice -> option Slice;
  Snappy_GetUncompressedLength : Slice -> option Z;
  Snappy_Uncompress : Slice -> option Slice
}.
Class SnappyLaws `{Snappy} := {
  Snappy_roundtrip s c : Snappy_Compress s = Some c ->
    Snappy_GetUncompressedLength c = Some (|[s]|) /\ Snappy_Uncompress c = Some s;
  Snappy_bytes s c : bytes s -> Snappy_Compress s = Some c -> bytes c
}.
(** A build without the library. *)
Definition NoSnappy : Snappy :=
  {| Snappy_Compress _ := None; Snappy_GetUncompressedLength _ := None; Snappy_Uncompress _ := None |}.
Lemma NoSnappy_laws : @SnappyLaws NoSnappy.
Proof. by split. Qed.

(** ** Block handles *)
Record BlockHandle := MkBlockHandle { bh_offset : Z; bh_size : Z }.
Definition new_BlockHandle : BlockHandle := MkBlockHandle (u64 (-1)) (u64 (-1)).
Definition kMaxEncodedLength : Z := 10 + 10.

Section Handle.
Variable ndebug : bool.

Definition BlockHandle_EncodeTo (h : BlockHandle) (dst : Slice) : option Slice :=
  _ ← assert_ ndebug (negb (bh_offset h =? u64 (-1)));
  _ ← assert_ ndebug (negb (bh_size h =? u64 (-1)));
  Some (PutVarint64 (PutVarint64 dst (bh_offset h)) (bh_size h)).

(** The status, the handle and what is left of the input; after an error the handle may be half decoded. *)
Definition BlockHandle_DecodeFrom (h : BlockHandle) (input : Slice) : Status * BlockHandle * Slice :=
  match GetVarint64 input with
  | Some (offset, input) =>
      match GetVarint64 input with
      | Some (size, input) => (OK, MkBlockHandle offset size, input)
      | None => (Err kCorruption "bad block handle", MkBlockHandle offset (bh_size h), input)
      end
  | None => (Err kCorruption "bad block handle", h, input)
  end.

(** ** The footer *)
Record Footer := MkFooter { metaindex_handle : BlockHandle; index_handle : BlockHandle }.
Definition kEncodedLength : Z := 2 * kMaxEncodedLength + 8.

(** [resize]: to a size, with zeros where it grows. *)
Definition resize (n : Z) (s : Slice) : Slice :=
  if n <=? |[s]| then take (Z.to_nat n) s else s ++ replicate (Z.to_nat (n - |[s]|)) 0.

Definition Footer_EncodeTo (f : Footer) (dst : Slice) : option Slice :=
  let original_size := |[dst]| in
  dst ← BlockHandle_EncodeTo (metaindex_handle f) dst;
  dst ← BlockHandle_EncodeTo (index_handle f) dst;
  let dst := resize (2 * kMaxEncodedLength) dst in
  let dst := PutFixed32 dst (Z.land kTableMagicNumber 0xffffffff) in
  let dst := PutFixed32 dst (u32 (Z.shiftr kTableMagicNumber 32)) in
  _ ← assert_ ndebug (|[dst]| =? original_size + kEncodedLength);
  Some dst.

Definition Footer_DecodeFrom (f : Footer) (input : Slice) : option (Status * Footer * Slice) :=
  let magic_ptr := drop (Z.to_nat (kEncodedLength - 8)) input in
  magic_lo ← DecodeFixed32 magic_ptr;
  magic_hi ← DecodeFixed32 (drop 4 magic_ptr);
  let magic := Z.lor (u64 (Z.shiftl magic_hi 32)) magic_lo in
  if negb (magic =? kTableMagicNumber) then Some (Err kCorruption "not an sstable (bad magic number)", f, input)
  else
    let '(result, m, input1) := BlockHandle_DecodeFrom (metaindex_handle f) input in
    let '(result, i, input2) := if ok result then BlockHandle_DecodeFrom (index_handle f) input1 else (result, index_handle f, input1) in
    Some (result, MkFooter m i, if ok result then drop 8 magic_ptr else input2).
End Handle.

(** ** Reading a block *)
Record BlockContents := MkBlockContents { bc_data : Slice; cachable : bool; heap_allocated : bool }.
Definition no_contents : BlockContents := MkBlockContents [] false false.

Section ReadBlock.
Context {F : Type} `{RandomAccessFile F} `{Snappy}.

(** [options.verify_checksums]. *)
Definition ReadBlock (file : F) (verify_checksums : bool) (handle : BlockHandle) : option (Status * BlockContents) :=
  let n := bh_size handle in
  let '(s, contents, in_buf) := raf_Read file (bh_offset handle) (u64 (n + kBlockTrailerSize)) in
  if negb (ok s) then Some (s, no_contents)
  else if negb (|[contents]| =? u64 (n + kBlockTrailerSize)) then Some (Err kCorruption "truncated block read", no_contents)
  else
    type ← contents !! Z.to_nat n;
    good ← (if verify_checksums then
              stored ← DecodeFixed32 (drop (Z.to_nat (n + 1)) contents);
              Some (crc_Value (take (Z.to_nat (n + 1)) contents) =? Unmask stored)
            else Some true);
    if negb good then Some (Err kCorruption "block checksum mismatch", no_contents)
    else
      let data := take (Z.to_nat n) contents in
      if type =? kNoCompression then Some (OK, MkBlockContents data in_buf in_buf)
      else if type =? kSnappyCompression then
        match Snappy_GetUncompressedLength data with
        | None => Some (Err kCorruption "corrupted compressed block contents", no_contents)
        | Some _ =>
            match Snappy_Uncompress data with
            | None => Some (Err kCorruption "corrupted compressed block contents", no_contents)
            | Some ubuf => Some (OK, MkBlockContents ubuf true true)
            end
        end
      else Some (Err kCorruption "bad block type", no_contents).
End ReadBlock.
