(* ===== verification/BlockBuilder.v ===== *)
(** * Building blocks ([leveldb/block_builder.h], [block_builder.cc])

    Keys share a prefix with the key before them, except at restart points.  [last_key_] and the restart array are
    kept until [Finish] puts the array behind the entries. *)
From S2P Require Import Prelude Status Coding Comparator Crc32c Log Format.

Record BlockBuilder := MkBlockBuilder {
  buffer_ : Slice; buffer_start_ : Z; compression_ : Z; finished_ : bool;
  restart_interval_ : Z; restarts_ : list Z; counter_ : Z; last_key_ : Slice
}.

Section Builder.
Variable ndebug : bool.
Implicit Types (b : BlockBuilder).

Definition new_BlockBuilder (restart_interval : Z) : BlockBuilder :=
  MkBlockBuilder [] 0 kNoCompression false (if restart_interval <? 1 then 1 else restart_interval) [0] 0 [].

Definition set_buffer (buf : Slice) b : BlockBuilder :=
  MkBlockBuilder buf (buffer_start_ b) (compression_ b) (finished_ b) (restart_interval_ b) (restarts_ b) (counter_ b) (last_key_ b).
Definition set_finished (f : bool) b : BlockBuilder :=
  MkBlockBuilder (buffer_ b) (buffer_start_ b) (compression_ b) f (restart_interval_ b) (restarts_ b) (counter_ b) (last_key_ b).

Definition builder_empty b : bool := |[buffer_ b]| <=? buffer_start_ b.
(** The contents since [buffer_start_]. *)
Definition contents_of b : Slice := drop (Z.to_nat (buffer_start_ b)) (buffer_ b).

Definition TEST_SwitchBuffer (buffer : option Slice) b : BlockBuilder * option Slice :=
  let buf := default (buffer_ b) buffer in
  (MkBlockBuilder buf (|[buf]|) (compression_ b) (finished_ b) (restart_interval_ b) (restarts_ b) (counter_ b) (last_key_ b),
   (λ _, buffer_ b) <$> buffer).
Definition TEST_Pad (n : Z) b : BlockBuilder :=
  let buf := resize (|[buffer_ b]| + n) (buffer_ b) in
  MkBlockBuilder buf (|[buf]|) (compression_ b) (finished_ b) (restart_interval_ b) (restarts_ b) (counter_ b) (last_key_ b).
Definition ChangeRestartInterval (interval : Z) b : BlockBuilder :=
  MkBlockBuilder (buffer_ b) (buffer_start_ b) (compression_ b) (finished_ b) interval (restarts_ b) (counter_ b) (last_key_ b).

(** [Reset] of the class and of its base: [compression_] stays. *)
Definition Reset b : BlockBuilder :=
  MkBlockBuilder (resize (buffer_start_ b) (buffer_ b)) (buffer_start_ b) (compression_ b) false (restart_interval_ b) [0] 0 [].

Definition CurrentSizeEstimate b : Z :=
  let result := |[buffer_ b]| - buffer_start_ b in
  if negb (finished_ b) then result + Z.of_nat (length (restarts_ b)) * 4 + 4 else result.

(** [cmp_] may be [NULL]. *)
Definition in_order (cmp_ : option Comparator) b (key : Slice) : option bool :=
  match cmp_ with
  | None => Some true
  | Some C =>
      if builder_empty b then Some true
      else c ← @Compare C key (last_key_ b); Some (bool_decide (c <> Lt))
  end.

Definition Add (cmp_ : option Comparator) (key value : Slice) b : option BlockBuilder :=
  _ ← assert_ ndebug (negb (finished_ b));
  _ ← assert_ ndebug (counter_ b <=? restart_interval_ b);
  _ ← (if ndebug then Some tt else o ← in_order cmp_ b key; assert_ ndebug o);
  '(shared, restarts, counter) ←
    (if counter_ b <? restart_interval_ b then Some (Z.of_nat (common_prefix (last_key_ b) key), restarts_ b, counter_ b)
     else
       _ ← assert_ ndebug (buffer_start_ b <=? |[buffer_ b]|);
       Some (0, restarts_ b ++ [u32 (|[buffer_ b]| - buffer_start_ b)], 0));
  let non_shared := |[key]| - shared in
  let buf := PutVarint32 (PutVarint32 (PutVarint32 (buffer_ b) (u32 shared)) (u32 non_shared)) (u32 (|[value]|)) in
  let buf := buf ++ drop (Z.to_nat shared) key ++ value in
  let last_key := take (Z.to_nat shared) (last_key_ b) ++ drop (Z.to_nat shared) key in
  _ ← assert_ ndebug (bool_decide (last_key = key));
  Some (MkBlockBuilder buf (buffer_start_ b) (compression_ b) (finished_ b) (restart_interval_ b) restarts (counter + 1) last_key).

Context `{Snappy}.

(** [Finish] of the base class: the contents. *)
Definition AbstractFinish (compression : Z) (force : bool) b : option (Slice * BlockBuilder) :=
  _ ← assert_ ndebug (negb (finished_ b));
  let b := set_finished true b in
  let contents := contents_of b in
  if compression =? kNoCompression then Some (contents, b)
  else
    let sz := |[contents]| in
    let '(compression, compressed) :=
      if compression =? kSnappyCompression then
        match Snappy_Compress contents with
        | Some c => if (sz - sz / 8 <=? |[c]|) && negb force then (kNoCompression, []) else (compression, c)
        | None => (kNoCompression, [])
        end
      else (compression, []) in
    if bool_decide (compressed = []) then Some (contents, b)
    else
      let buf := resize (buffer_start_ b) (buffer_ b) ++ compressed in
      Some (compressed, MkBlockBuilder buf (buffer_start_ b) compression (finished_ b) (restart_interval_ b) (restarts_ b) (counter_ b) (last_key_ b)).

Definition Finish (compression : Z) (force : bool) b : option (Slice * BlockBuilder) :=
  _ ← assert_ ndebug (negb (finished_ b));
  let buf := foldl PutFixed32 (buffer_ b) (restarts_ b) in
  let buf := PutFixed32 buf (u32 (Z.of_nat (length (restarts_ b)))) in
  AbstractFinish compression force (set_buffer buf b).

Definition Finalize (crc32c : bool) (padding_target padding_char : Z) b : option (Slice * BlockBuilder) :=
  _ ← assert_ ndebug (finished_ b);
  let contents := contents_of b in
  let crc := if crc32c then Mask (crc_Extend (crc_Value contents) [compression_ b]) else 0 in
  let buf := buffer_ b ++ [compression_ b] ++ EncodeFixed32 crc in
  let buf :=
    if negb (padding_target =? 0) && (|[buf]| <? buffer_start_ b + padding_target)
    then buf ++ replicate (Z.to_nat (buffer_start_ b + padding_target - |[buf]|)) padding_char else buf in
  let b := set_buffer buf b in Some (contents_of b, b).
End Builder.
