(* ===== verification/Block.v ===== *)
(** * Reading blocks ([leveldb/block.h], [block.cc])

    A block keeps its bytes and the offset of its restart array; its iterator keeps offsets into them.  An offset is
    32 bits wide.  A definition is [None] where the code would read outside the block. *)
From S2P Require Import Prelude Status Coding Comparator Iterator.

Record Block := MkBlock { data_ : Slice; size_ : Z; restart_offset_ : Z }.

Definition num_restarts_of (data : Slice) (size : Z) : option Z := DecodeFixed32 (drop (Z.to_nat (size - 4)) data).

Section Block.
Variable ndebug : bool.

Definition NumRestarts (b : Block) : option Z :=
  _ ← assert_ ndebug (4 <=? size_ b); num_restarts_of (data_ b) (size_ b).

(** The constructor; a size of zero marks a bad block. *)
Definition new_Block (contents : Slice) : option Block :=
  let size := |[contents]| in
  if size <? 4 then Some (MkBlock contents 0 0)
  else
    let max_restarts_allowed := (size - 4) / 4 in
    num ← num_restarts_of contents size;
    if num >? max_restarts_allowed then Some (MkBlock contents 0 0)
    else Some (MkBlock contents size (u32 (size - u64 ((1 + num) * 4)))).
End Block.

(** [DecodeEntry] between two offsets: the lengths of the shared part, the rest of the key and the value, and the
    offset behind them; [None] is [NULL].  The sum of the lengths is 32 bits wide. *)
Definition DecodeEntry (data : Slice) (p limit : Z) : option (Z * Z * Z * Z) :=
  if limit - p <? 3 then None
  else
    let s := take (Z.to_nat (limit - p)) (drop (Z.to_nat p) data) in
    '(shared, non_shared, value_length, rest) ←
      match s with
      | a :: b :: c :: rest =>
          if Z.lor (Z.lor a b) c <? 128 then Some (a, b, c, rest)
          else
            '(shared, s) ← GetVarint32Ptr s;
            '(non_shared, s) ← GetVarint32Ptr s;
            '(value_length, s) ← GetVarint32Ptr s;
            Some (shared, non_shared, value_length, s)
      | _ => None
      end;
    if u32 (|[rest]|) <? u32 (non_shared + value_length) then None
    else Some (shared, non_shared, value_length, limit - |[rest]|).

(** [Block::Iter].  [value_] is an offset and a length, or [None] when it does not point into the block. *)
Record BlockIter := MkBlockIter {
  it_data : Slice; it_restarts : Z; it_num_restarts : Z;
  current_ : Z; restart_index_ : Z; key_ : Slice; value_ : option (Z * Z); status_ : Status
}.

Section Iter.
Context `{C : Comparator}.
Variable ndebug : bool.
Implicit Types (it : BlockIter).

Definition new_Iter (data : Slice) (restarts num_restarts : Z) : option BlockIter :=
  _ ← assert_ ndebug (num_restarts >? 0);
  Some (MkBlockIter data restarts num_restarts restarts num_restarts [] None OK).

Definition set_position (current restart_index : Z) (key : Slice) (value : option (Z * Z)) it : BlockIter :=
  MkBlockIter (it_data it) (it_restarts it) (it_num_restarts it) current restart_index key value (status_ it).

Definition NextEntryOffset it : option Z := '(off, len) ← value_ it; Some (u32 (off + len)).
Definition GetRestartPoint (index : Z) it : option Z :=
  _ ← assert_ ndebug (index <? it_num_restarts it);
  DecodeFixed32 (drop (Z.to_nat (it_restarts it + index * 4)) (it_data it)).
Definition SeekToRestartPoint (index : Z) it : option BlockIter :=
  offset ← GetRestartPoint index it; Some (set_position (current_ it) index [] (Some (offset, 0)) it).

Definition CorruptionError it : BlockIter :=
  MkBlockIter (it_data it) (it_restarts it) (it_num_restarts it) (it_restarts it) (it_num_restarts it) [] None
    (Err kCorruption "bad entry in block").
Definition no_more it : BlockIter := set_position (it_restarts it) (it_num_restarts it) (key_ it) (value_ it) it.

(** The loop that brings [restart_index_] up to [current_]. *)
Fixpoint advance_restart (fuel : nat) it : option BlockIter :=
  match fuel with
  | O => None
  | S fuel =>
      if restart_index_ it + 1 <? it_num_restarts it then
        o ← GetRestartPoint (restart_index_ it + 1) it;
        if o <? current_ it then advance_restart fuel (set_position (current_ it) (restart_index_ it + 1) (key_ it) (value_ it) it)
        else Some it
      else Some it
  end.

(** A substring of the block. *)
Definition sub_data it (off len : Z) : option Slice :=
  if (0 <=? off) && (off + len <=? |[it_data it]|) then Some (take (Z.to_nat len) (drop (Z.to_nat off) (it_data it))) else None.

Definition ParseNextKey it : option (bool * BlockIter) :=
  current ← NextEntryOffset it;
  if it_restarts it <=? current then Some (false, no_more it)
  else
    match DecodeEntry (it_data it) current (it_restarts it) with
    | None => Some (false, CorruptionError it)
    | Some (shared, non_shared, value_length, p) =>
        if |[key_ it]| <? shared then Some (false, CorruptionError it)
        else
          delta ← sub_data it p non_shared;
          it ← advance_restart (S (Z.to_nat (it_num_restarts it)))
                 (set_position current (restart_index_ it) (take (Z.to_nat shared) (key_ it) ++ delta)
                    (Some (p + non_shared, value_length)) it);
          Some (true, it)
    end.

(** The three loops that parse entries: until [stop]. *)
Fixpoint parse_until (fuel : nat) (stop : BlockIter -> option bool) it : option BlockIter :=
  match fuel with
  | O => None
  | S fuel =>
      '(more, it) ← ParseNextKey it;
      if (more : bool) then (s ← stop it; if (s : bool) then Some it else parse_until fuel stop it) else Some it
  end.
(** An entry has at least three bytes. *)
Definition parse_fuel it : nat := S (length (it_data it)).
Definition ends_at (limit : Z) it : option bool := o ← NextEntryOffset it; Some (negb (o <? limit)).

Definition BlockIter_Valid it : bool := current_ it <? it_restarts it.

Definition BlockIter_Next it : option BlockIter :=
  _ ← assert_ ndebug (BlockIter_Valid it); snd <$> ParseNextKey it.

(** The scan for a restart point before [original]; the flag says that there is none. *)
Fixpoint back_restart (fuel : nat) (original : Z) it : option (bool * BlockIter) :=
  match fuel with
  | O => None
  | S fuel =>
      o ← GetRestartPoint (restart_index_ it) it;
      if original <=? o then
        if restart_index_ it =? 0 then Some (false, no_more it)
        else back_restart fuel original (set_position (current_ it) (restart_index_ it - 1) (key_ it) (value_ it) it)
      else Some (true, it)
  end.
Definition BlockIter_Prev it : option BlockIter :=
  _ ← assert_ ndebug (BlockIter_Valid it);
  let original := current_ it in
  '(found, it) ← back_restart (S (Z.to_nat (restart_index_ it))) original it;
  if (found : bool) then
    it ← SeekToRestartPoint (restart_index_ it) it;
    parse_until (parse_fuel it) (ends_at original) it
  else Some it.

(** The binary search over the restart points: [None] inside is a corrupted entry. *)
Fixpoint search_restart (fuel : nat) (target : Slice) (left right : Z) it : option (option Z) :=
  match fuel with
  | O => None
  | S fuel =>
      if left <? right then
        let mid := u32 (left + right + 1) / 2 in
        region_offset ← GetRestartPoint mid it;
        match DecodeEntry (it_data it) region_offset (it_restarts it) with
        | Some (shared, non_shared, _, key_ptr) =>
            if negb (shared =? 0) then Some None
            else
              mid_key ← sub_data it key_ptr non_shared;
              c ← Compare mid_key target;
              if bool_decide (c = Lt) then search_restart fuel target mid right it
              else search_restart fuel target left (mid - 1) it
        | None => Some None
        end
      else Some (Some left)
  end.
Definition at_or_past (target : Slice) it : option bool := c ← Compare (key_ it) target; Some (bool_decide (c <> Lt)).
Definition BlockIter_Seek (target : Slice) it : option BlockIter :=
  found ← search_restart (S (Z.to_nat (it_num_restarts it))) target 0 (it_num_restarts it - 1) it;
  match found with
  | None => Some (CorruptionError it)
  | Some index => it ← SeekToRestartPoint index it; parse_until (parse_fuel it) (at_or_past target) it
  end.
Definition BlockIter_SeekToFirst it : option BlockIter :=
  it ← SeekToRestartPoint 0 it; snd <$> ParseNextKey it.
Definition BlockIter_SeekToLast it : option BlockIter :=
  it ← SeekToRestartPoint (it_num_restarts it - 1) it; parse_until (parse_fuel it) (ends_at (it_restarts it)) it.

Definition BlockIter_key it : option Slice := _ ← assert_ ndebug (BlockIter_Valid it); Some (key_ it).
Definition BlockIter_value it : option Slice :=
  _ ← assert_ ndebug (BlockIter_Valid it); '(off, len) ← value_ it; sub_data it off len.

#[export] Instance BlockIter_Iterator : Iterator BlockIter := {
  Valid := BlockIter_Valid; SeekToFirst := BlockIter_SeekToFirst; SeekToLast := BlockIter_SeekToLast;
  Seek := BlockIter_Seek; Next := BlockIter_Next; Prev := BlockIter_Prev;
  key := BlockIter_key; value := BlockIter_value; status := status_
}.

(** [NewIterator]: an iterator of the block, or an empty one. *)
Definition Block_NewIterator (b : Block) : option (BlockIter + EmptyIterator) :=
  if size_ b <? 4 then Some (inr (NewErrorIterator (Err kCorruption "bad block contents")))
  else
    num ← NumRestarts ndebug b;
    if num =? 0 then Some (inr NewEmptyIterator)
    else inl <$> new_Iter (data_ b) (restart_offset_ b) num.
End Iter.
