(* ===== verification/BlockProps.v ===== *)
(** * The layout of blocks

    [items] are entries with the lengths of the prefixes they share; [block_bytes] is what the builder writes for
    them; [at_item] relates a position of the iterator to an index of the entries. *)
From S2P Require Import Prelude Status Coding Comparator Crc32c Log Iterator Format.
From S2P Require Import BlockBuilder Block.

Record Item := MkItem { i_key : Slice; i_value : Slice; i_shared : nat }.
Definition enc_item (e : Item) : Slice :=
  EncodeVarint32 (Z.of_nat (i_shared e)) ++ EncodeVarint32 (|[i_key e]| - Z.of_nat (i_shared e)) ++ EncodeVarint32 (|[i_value e]|) ++
  drop (i_shared e) (i_key e) ++ i_value e.
Definition body (es : list Item) : Slice := concat (enc_item <$> es).
(** The offset of an entry. *)
Definition off (es : list Item) (n : nat) : nat := length (body (take n es)).
Definition restart_array (es : list Item) (rs : list nat) : Slice := concat ((λ r, EncodeFixed32 (Z.of_nat (off es r))) <$> rs).
Definition block_bytes (es : list Item) (rs : list nat) : Slice :=
  body es ++ restart_array es rs ++ EncodeFixed32 (Z.of_nat (length rs)).

(** Each entry shares a prefix with the one before. *)
Fixpoint chain (prev : Slice) (es : list Item) : Prop :=
  match es with
  | [] => True
  | e :: es =>
      (i_shared e <= length prev)%nat /\ (i_shared e <= length (i_key e))%nat /\
      take (i_shared e) prev = take (i_shared e) (i_key e) /\ chain (i_key e) es
  end.

Lemma body_app es fs : body (es ++ fs) = body es ++ body fs.
Proof. unfold body. by rewrite fmap_app, concat_app. Qed.
Lemma body_cons e es : body (e :: es) = enc_item e ++ body es.
Proof. done. Qed.
Lemma off_0 es : off es 0 = O.
Proof. done. Qed.
Lemma off_all es n : (length es <= n)%nat -> off es n = length (body es).
Proof. intros Hn. unfold off. by rewrite take_ge. Qed.
Lemma off_S es n e : es !! n = Some e -> off es (S n) = (off es n + length (enc_item e))%nat.
Proof. intros E. unfold off. erewrite take_S_r by done. rewrite body_app, length_app. cbn. by rewrite app_nil_r. Qed.
Lemma off_app es fs n : (n <= length es)%nat -> off (es ++ fs) n = off es n.
Proof. intros Hn. unfold off. by rewrite take_app_le. Qed.
Lemma length_enc_item e : (3 + length (i_value e) + (length (i_key e) - i_shared e) <= length (enc_item e))%nat.
Proof.
  unfold enc_item. rewrite !length_app, length_drop.
  pose proof (length_EncodeVarint32 (Z.of_nat (i_shared e))). pose proof (length_EncodeVarint32 (|[i_key e]| - Z.of_nat (i_shared e))).
  pose proof (length_EncodeVarint32 (|[i_value e]|)). lia.
Qed.
Lemma off_step es n : (n < length es)%nat -> (off es n + 3 <= off es (S n))%nat.
Proof. intros [e E]%lookup_lt_is_Some_2. rewrite (off_S es n e E). pose proof (length_enc_item e). lia. Qed.
Lemma off_mono es n m : (n <= m)%nat -> (off es n <= off es m)%nat.
Proof.
  induction 1 as [| m Hm IH]; [done |]. destruct (Nat.lt_ge_cases m (length es)) as [Hl | Hl].
  - pose proof (off_step es m Hl). lia.
  - rewrite (off_all es m), (off_all es (S m)) in * by lia. done.
Qed.
Lemma off_lt es n m : (n < m)%nat -> (n < length es)%nat -> (off es n < off es m)%nat.
Proof. intros Hm Hn. pose proof (off_step es n Hn). pose proof (off_mono es (S n) m ltac:(lia)). lia. Qed.
Lemma off_lt_inv es n m : (off es n < off es m)%nat -> (n < m)%nat.
Proof. intros Ho. destruct (Nat.lt_ge_cases n m); [done |]. pose proof (off_mono es m n ltac:(lia)). lia. Qed.
Lemma off_le es n : (off es n <= length (body es))%nat.
Proof. destruct (Nat.le_ge_cases (length es) n); [by rewrite off_all |]. rewrite <- (off_all es (length es)) by done. by apply off_mono. Qed.
Lemma count_le es : (3 * length es <= length (body es))%nat.
Proof. induction es as [| e es IH]; [done |]. rewrite body_cons, length_app. cbn [length]. pose proof (length_enc_item e). lia. Qed.

Lemma drop_off es n e tl : es !! n = Some e -> drop (off es n) (body es ++ tl) = enc_item e ++ body (drop (S n) es) ++ tl.
Proof.
  intros E. rewrite <- (take_drop_middle es n e E) at 2. rewrite body_app, body_cons, <- !app_assoc. apply drop_app_length.
Qed.

(** ** Decoding an entry *)
Lemma varint32_one v x l : word 32 v -> EncodeVarint32 v = x :: l -> x < 128 -> 0 <= x -> l = [] /\ x = v.
Proof.
  intros Hv E Hx H0. pose proof (GetVarint32_encode v [] Hv) as G. rewrite E in G. cbn [app] in G.
  unfold GetVarint32, GetVarint32Ptr in G. destruct (decide (Z.land x 128 = 0)) as [_ | Hn].
  - rewrite app_nil_r in G. by injection G.
  - exfalso. apply Hn. apply Z.bits_inj'. intros i Hi. rewrite Z.land_spec, Z.bits_0. destruct (Z.eq_dec i 7) as [-> | Hne].
    + rewrite (word_testbit 7 x 7); [done | | lia | lia]. split; [done | cbn; lia].
    + change 128 with (2 ^ 7). by rewrite Z.pow2_bits_false, andb_false_r by lia.
Qed.

Lemma lor_lt_128 a b : 0 <= a -> 0 <= b -> Z.lor a b < 128 -> a < 128 /\ b < 128.
Proof.
  intros Ha Hb Hl. pose proof (Z.sub_lor_l_same_r a b). pose proof (Z.sub_lor_l_same_l b a).
  assert (0 <= Z.land a (Z.lnot b)) by (apply Z.land_nonneg; by left).
  assert (0 <= Z.land b (Z.lnot a)) by (apply Z.land_nonneg; by left). lia.
Qed.

Lemma DecodeEntry_ok data p limit a b c rest :
  word 32 a -> word 32 b -> word 32 c -> 0 <= p -> |[rest]| < 2 ^ 32 -> b + c <= |[rest]| ->
  take (Z.to_nat (limit - p)) (drop (Z.to_nat p) data) = EncodeVarint32 a ++ EncodeVarint32 b ++ EncodeVarint32 c ++ rest ->
  3 <= limit - p -> DecodeEntry data p limit = Some (a, b, c, limit - |[rest]|).
Proof.
  intros Ha Hb Hc Hp Hr Hbc E Hl. unfold DecodeEntry. rewrite (proj2 (Z.ltb_ge _ _)) by done. cbn zeta. rewrite E. clear E.
  pose proof (slice_size_nonneg rest). assert (u32 (|[rest]|) = |[rest]|) as Er by (apply wrap_small; split; lia).
  assert (u32 (b + c) = b + c) as Ebc by (apply wrap_small; split; destruct Hb, Hc; lia).
  set (s := EncodeVarint32 a ++ EncodeVarint32 b ++ EncodeVarint32 c ++ rest).
  assert (∃ x y z q, s = x :: y :: z :: q /\ 0 <= x /\ 0 <= y /\ 0 <= z /\
    (Z.lor (Z.lor x y) z < 128 -> x = a /\ y = b /\ z = c /\ q = rest)) as (x & y & z & q & Es & Hx & Hy & Hz & Hfast).
  { pose proof (length_EncodeVarint32 a) as La. pose proof (length_EncodeVarint32 b) as Lb. pose proof (length_EncodeVarint32 c) as Lc.
    assert (bytes (take 3 s)) as Hby.
    { unfold s. rewrite !app_assoc. rewrite take_app_le by (rewrite !length_app; lia).
      apply Forall_take. rewrite !Forall_app. repeat split; apply bytes_EncodeVarint32. }
    assert (EncodeVarint32 a ++ EncodeVarint32 b ++ EncodeVarint32 c ++ rest = s) as Es by done. clearbody s.
    destruct s as [| x [| y [| z q]]]; try (apply (f_equal length) in Es; rewrite !length_app in Es; cbn in Es; lia).
    cbn in Hby. apply list.Forall_cons in Hby as [[Hx _] Hby]. apply list.Forall_cons in Hby as [[Hy _] Hby].
    apply list.Forall_cons in Hby as [[Hz _] _].
    exists x, y, z, q. split; [done |]. split_and!; try done. intros [[Hlx Hly]%lor_lt_128 Hlz]%lor_lt_128; [| done || by apply Z.lor_nonneg..].
    destruct (EncodeVarint32 a) as [| x' l] eqn:E1; [cbn in La; lia |]. cbn in Es. injection Es as -> Es.
    destruct (varint32_one a x l Ha E1 Hlx Hx) as [-> ->]. cbn in Es.
    destruct (EncodeVarint32 b) as [| y' l] eqn:E2; [cbn in Lb; lia |]. cbn in Es. injection Es as -> Es.
    destruct (varint32_one b y l Hb E2 Hly Hy) as [-> ->]. cbn in Es.
    destruct (EncodeVarint32 c) as [| z' l] eqn:E3; [cbn in Lc; lia |]. cbn in Es. injection Es as -> Es.
    by destruct (varint32_one c z l Hc E3 Hlz Hz) as [-> ->]. }
  rewrite Es. destruct (Z.ltb_spec (Z.lor (Z.lor x y) z) 128) as [Hlt | _].
  - destruct (Hfast Hlt) as (-> & -> & -> & ->). cbn [mbind option_bind]. by rewrite Er, Ebc, (proj2 (Z.ltb_ge _ _)).
  - rewrite <- Es. unfold s. change GetVarint32Ptr with GetVarint32.
    rewrite GetVarint32_encode by done. cbn [mbind option_bind]. rewrite GetVarint32_encode by done. cbn [mbind option_bind].
    rewrite GetVarint32_encode by done. cbn [mbind option_bind]. by rewrite Er, Ebc, (proj2 (Z.ltb_ge _ _)).
Qed.

Lemma size_restart_array es rs : |[restart_array es rs]| = 4 * Z.of_nat (length rs).
Proof.
  unfold restart_array. induction rs as [| r rs IH]; [done |]. cbn [fmap list_fmap concat]. rewrite slice_size_app, IH.
  unfold slice_size. rewrite length_EncodeFixed32. cbn [length]. lia.
Qed.
Lemma drop_restart_array es rs i r tl : rs !! i = Some r ->
  drop (i * 4) (restart_array es rs ++ tl) = EncodeFixed32 (Z.of_nat (off es r)) ++ restart_array es (drop (S i) rs) ++ tl.
Proof.
  intros E. rewrite <- (take_drop_middle rs i r E) at 1. unfold restart_array. rewrite fmap_app, concat_app, <- app_assoc.
  rewrite drop_app_length'; [cbn [fmap list_fmap concat]; by rewrite <- ?app_assoc |]. pose proof (size_restart_array es (take i rs)) as Hl. unfold restart_array, slice_size in Hl.
  rewrite length_take in Hl. pose proof (lookup_lt_Some _ _ _ E). lia.
Qed.

(** ** A well-formed block *)
Record layout_ok (es : list Item) (rs : list nat) : Prop := {
  bo_chain : chain [] es;
  bo_first : rs !! 0%nat = Some 0%nat;
  bo_sorted i j a b : rs !! i = Some a -> rs !! j = Some b -> (i < j)%nat -> (a < b)%nat;
  bo_bound i r : rs !! i = Some r -> (r < length es)%nat \/ r = 0%nat;
  bo_full i r e : rs !! i = Some r -> es !! r = Some e -> i_shared e = 0%nat
}.
Record block_ok (es : list Item) (rs : list nat) : Prop := {
  bo_layout :> layout_ok es rs;
  bo_size : |[block_bytes es rs]| < 2 ^ 32
}.

Arguments bo_chain {es rs} _. Arguments bo_first {es rs} _. Arguments bo_sorted {es rs} _.
Arguments bo_bound {es rs} _. Arguments bo_full {es rs} _. Arguments bo_size {es rs} _.

Section Ok.
Context {es : list Item} {rs : list nat}.
Hypothesis Hok : block_ok es rs.
Local Abbreviation data := (block_bytes es rs).
Local Abbreviation N := (length es).
Local Abbreviation ofs n := (Z.of_nat (off es n)).

Lemma size_block : |[data]| = Z.of_nat (length (body es)) + 4 * Z.of_nat (length rs) + 4.
Proof.
  unfold block_bytes. rewrite !slice_size_app, size_restart_array. unfold slice_size. rewrite length_EncodeFixed32. lia.
Qed.
Lemma ofs_bound n : 0 <= ofs n <= Z.of_nat (length (body es)) /\ Z.of_nat (length (body es)) + 8 <= |[data]| < 2 ^ 32.
Proof.
  pose proof (off_le es n). pose proof (bo_size Hok) as Hs. rewrite size_block in *.
  pose proof (lookup_lt_Some _ _ _ (bo_first Hok)). lia.
Qed.
Lemma rs_pos : (0 < length rs)%nat.
Proof. eapply lookup_lt_Some, (bo_first Hok). Qed.
Lemma item_fits n e : es !! n = Some e -> |[i_key e]| < 2 ^ 32 /\ |[i_value e]| < 2 ^ 32 /\ (i_shared e <= length (i_key e))%nat.
Proof.
  intros E. assert (∀ prev fs, chain prev fs -> e ∈ fs -> (i_shared e <= length (i_key e))%nat /\ |[i_key e]| <= |[prev]| + Z.of_nat (length (body fs))) as Hc.
  { clear. intros prev fs. revert prev. induction fs as [| f fs IH]; intros prev Hc; [by intros ?%elem_of_nil |].
    cbn in Hc. destruct Hc as (H1 & H2 & _ & Hc). rewrite body_cons, length_app. pose proof (length_enc_item f). intros [-> | He]%elem_of_cons.
    - split; [done |]. unfold slice_size. lia.
    - destruct (IH _ Hc He) as [H3 H4]. split; [done |]. unfold slice_size in *. lia. }
  destruct (Hc [] es (bo_chain Hok)) as [H1 H2]; [by eapply list_elem_of_lookup_2 |].
  pose proof (off_S es n e E). pose proof (length_enc_item e). pose proof (ofs_bound (S n)). unfold slice_size in *. cbn [length] in H2. lia.
Qed.

(** *** Positions *)
Record fields (it : BlockIter) : Prop := {
  f_data : it_data it = data;
  f_restarts : it_restarts it = Z.of_nat (length (body es));
  f_num : it_num_restarts it = Z.of_nat (length rs);
  f_status : status_ it = OK
}.
Lemma fields_set it c r k v : fields it -> fields (set_position c r k v it).
Proof. intros []. by split. Qed.

Lemma GetRestartPoint_ok ndebug i r it : fields it -> rs !! i = Some r -> GetRestartPoint ndebug (Z.of_nat i) it = Some (ofs r).
Proof.
  intros [Ed Er En _] E. unfold GetRestartPoint. pose proof (lookup_lt_Some _ _ _ E) as Hi.
  rewrite En, assert_bool by (apply Z.ltb_lt; lia). cbn [mbind option_bind]. rewrite Ed, Er.
  replace (Z.to_nat (Z.of_nat (length (body es)) + Z.of_nat i * 4)) with (length (body es) + i * 4)%nat by lia.
  unfold block_bytes. rewrite <- drop_drop, drop_app_length.
  rewrite (drop_restart_array es rs i r) by done.
  rewrite DecodeFixed32_wrap. f_equal. apply wrap_small. pose proof (ofs_bound r). split; lia.
Qed.

(** The iterator can parse the entry [n] next. *)
Definition prefix_at (n : nat) (k : Slice) : Prop :=
  ∀ e, es !! n = Some e -> (i_shared e <= length k)%nat /\ take (i_shared e) k = take (i_shared e) (i_key e).
Definition restart_before (n : nat) (it : BlockIter) : Prop :=
  ∃ i r, restart_index_ it = Z.of_nat i /\ rs !! i = Some r /\ (r <= n)%nat.
Definition before (n : nat) (it : BlockIter) : Prop :=
  fields it /\ (n <= N)%nat /\ NextEntryOffset it = Some (ofs n) /\ restart_before n it /\ prefix_at n (key_ it).

(** It is at the entry [n]. *)
Definition at_item (n : nat) (it : BlockIter) : Prop :=
  fields it /\ (n <= N)%nat /\ current_ it = ofs n /\
  ∀ e, es !! n = Some e ->
    key_ it = i_key e /\ value_ it = Some (ofs (S n) - |[i_value e]|, |[i_value e]|) /\
    ∃ i r, restart_index_ it = Z.of_nat i /\ rs !! i = Some r /\ (r <= n)%nat /\ (∀ j r', rs !! j = Some r' -> (i < j)%nat -> (n <= r')%nat).

Lemma advance_ok ndebug n it fuel : fields it -> (n < N)%nat -> current_ it = ofs n -> restart_before n it ->
  (Z.of_nat (length rs) - restart_index_ it < Z.of_nat fuel) ->
  ∃ i r, advance_restart ndebug fuel it = Some (set_position (current_ it) (Z.of_nat i) (key_ it) (value_ it) it) /\
    rs !! i = Some r /\ (r <= n)%nat /\ (∀ j r', rs !! j = Some r' -> (i < j)%nat -> (n <= r')%nat).
Proof.
  revert it. induction fuel as [| fuel IH]; intros it Hf Hn Ec (i & r & Ei & Er & Hr) Hfuel.
  { pose proof (lookup_lt_Some _ _ _ Er). lia. }
  cbn [advance_restart]. rewrite (f_num it Hf), Ei.
  assert (set_position (current_ it) (Z.of_nat i) (key_ it) (value_ it) it = it) as Eself by (rewrite <- Ei; by destruct it).
  destruct (Z.ltb_spec (Z.of_nat i + 1) (Z.of_nat (length rs))) as [Hlt | Hge].
  - destruct (lookup_lt_is_Some_2 rs (S i)) as [r2 Er2]; [lia |]. replace (Z.of_nat i + 1) with (Z.of_nat (S i)) in * by lia.
    rewrite (GetRestartPoint_ok ndebug (S i) r2 it Hf Er2). cbn [mbind option_bind]. rewrite Ec.
    destruct (Z.ltb_spec (ofs r2) (ofs n)) as [Ho | Ho].
    + assert (r2 < n)%nat by (apply (off_lt_inv es); lia).
      destruct (IH (set_position (ofs n) (Z.of_nat (S i)) (key_ it) (value_ it) it)) as (j & r' & -> & Hj);
        [by apply fields_set | done | done | exists (S i), r2; cbn; split_and!; [done | done | lia] | cbn; lia |].
      exists j, r'. by split.
    + exists i, r. rewrite <- Ec, Eself. split; [done |]. split; [done |]. split; [done |]. intros j r' Ej Hij.
      assert (r2 <= r')%nat.
      { destruct (decide (j = S i)) as [-> | Hne]; [by simplify_eq |]. pose proof (bo_sorted Hok (S i) j r2 r' Er2 Ej). lia. }
      destruct (Nat.lt_ge_cases r' n) as [Hl |]; [| done]. pose proof (off_lt es r' n Hl ltac:(lia)). pose proof (off_mono es r2 r' ltac:(lia)). lia.
  - exists i, r. rewrite Eself. split; [done |]. split; [done |]. split; [done |]. intros j r' Ej Hij.
    pose proof (lookup_lt_Some _ _ _ Ej). lia.
Qed.
End Ok.

(** * Blocks are sorted sequences

    [block_iterates]: the iterator of a well-formed block keeps the contract of iterators. *)

Section Ok.
Context {C : Comparator} {valid : Slice -> Prop} `{!OrderOn Compare valid}.
Context {es : list Item} {rs : list nat} (ndebug : bool).
Hypothesis Hok : block_ok es rs.
Local Abbreviation data := (block_bytes es rs).
Local Abbreviation N := (length es).
Local Abbreviation ofs n := (Z.of_nat (off es n)).
Implicit Types (it : BlockIter).

Lemma sub_data_ok it o n s tl : it_data it = data -> drop o data = s ++ tl -> n = |[s]| -> (o <= length data)%nat ->
  sub_data it (Z.of_nat o) n = Some s.
Proof.
  intros Ed E -> Ho. unfold sub_data. rewrite Ed. pose proof (f_equal length E) as El. rewrite length_drop, length_app in El.
  rewrite (proj2 (Z.leb_le _ _)) by lia. rewrite (proj2 (Z.leb_le _ _)) by (unfold slice_size; lia). cbn [andb].
  rewrite Nat2Z.id, E. f_equal. apply take_slice_size.
Qed.

(** The entry at an offset. *)
Lemma item_at n e : es !! n = Some e -> ∃ p tl,
  DecodeEntry data (ofs n) (Z.of_nat (length (body es))) =
    Some (Z.of_nat (i_shared e), |[i_key e]| - Z.of_nat (i_shared e), |[i_value e]|, Z.of_nat p) /\
  drop p data = drop (i_shared e) (i_key e) ++ i_value e ++ tl /\ (p <= length data)%nat /\
  Z.of_nat p + (|[i_key e]| - Z.of_nat (i_shared e)) + |[i_value e]| = ofs (S n).
Proof.
  intros E. destruct (item_fits Hok n e E) as (Hk & Hv & Hs). pose proof (ofs_bound Hok n) as (Ho & Hb & Hz).
  pose proof (off_S es n e E) as EoS. pose proof (off_le es (S n)) as HoS.
  set (head := EncodeVarint32 (Z.of_nat (i_shared e)) ++ EncodeVarint32 (|[i_key e]| - Z.of_nat (i_shared e)) ++ EncodeVarint32 (|[i_value e]|)).
  assert (enc_item e = head ++ drop (i_shared e) (i_key e) ++ i_value e) as Eenc by (unfold enc_item, head; by rewrite <- !app_assoc).
  pose proof (f_equal length Eenc) as Elen. rewrite !length_app, length_drop in Elen.
  set (rest := drop (i_shared e) (i_key e) ++ i_value e ++ body (drop (S n) es)).
  assert (drop (off es n) (body es) = head ++ rest) as Ebody.
  { pose proof (drop_off es n e [] E) as Ed. rewrite !app_nil_r in Ed. by rewrite Ed, Eenc, <- !app_assoc. }
  assert (drop (off es n) data = head ++ rest ++ restart_array es rs ++ EncodeFixed32 (Z.of_nat (length rs))) as Edata.
  { unfold block_bytes. rewrite drop_app_le by apply off_le. by rewrite Ebody, <- app_assoc. }
  assert (length (head ++ rest) = length (body es) - off es n)%nat as Elr by (by rewrite <- Ebody, length_drop).
  rewrite length_app in Elr.
  assert (length rest = length (i_key e) - i_shared e + length (i_value e) + length (body (drop (S n) es)))%nat as Erest
    by (unfold rest; rewrite !length_app, length_drop; lia).
  unfold slice_size in *. assert (length (body (drop (S n) es)) = length (body es) - off es (S n))%nat as Etail by lia.
  exists (off es n + length head)%nat, (body (drop (S n) es) ++ restart_array es rs ++ EncodeFixed32 (Z.of_nat (length rs))). split; [| split; [| split]].
  - rewrite (DecodeEntry_ok _ _ _ (Z.of_nat (i_shared e)) (Z.of_nat (length (i_key e)) - Z.of_nat (i_shared e)) (Z.of_nat (length (i_value e))) rest);
      unfold slice_size; try (split; lia); try lia.
    + repeat f_equal. lia.
    + rewrite Nat2Z.id, Edata. replace (Z.to_nat (Z.of_nat (length (body es)) - ofs n)) with (length (head ++ rest)) by (rewrite length_app; lia).
      rewrite app_assoc, take_app_length. unfold head. by rewrite <- !app_assoc.
    + pose proof (length_enc_item e). lia.
  - rewrite <- drop_drop, Edata, drop_app_length. unfold rest. by rewrite <- !app_assoc.
  - lia.
  - lia.
Qed.

Lemma ParseNextKey_ok n it : before (es := es) (rs := rs) n it -> ∃ it', ParseNextKey ndebug it = Some (bool_decide (n < N)%nat, it') /\ at_item (es := es) (rs := rs) n it'.
Proof.
  intros (Hf & Hn & Eo & Hr & Hp). unfold ParseNextKey. rewrite Eo. cbn [mbind option_bind]. rewrite (f_restarts it Hf).
  destruct (decide (n < N)%nat) as [Hlt | Hge].
  - rewrite bool_decide_true by done. pose proof (off_lt es n N Hlt Hlt) as Hol. rewrite (off_all es N) in Hol by lia.
    rewrite (proj2 (Z.leb_gt _ _)) by lia. destruct (lookup_lt_is_Some_2 es n Hlt) as [e E].
    destruct (item_at n e E) as (p & tl & Ed & Edata & Hpl & Eend). rewrite (f_data it Hf), Ed. destruct (Hp e E) as [Hs Et].
    rewrite (proj2 (Z.ltb_ge _ _)) by (unfold slice_size; lia).
    destruct (item_fits Hok n e E) as (_ & _ & Hse).
    rewrite (sub_data_ok it p _ (drop (i_shared e) (i_key e)) (i_value e ++ tl)); [| apply Hf | done | unfold slice_size; rewrite length_drop; lia | done].
    cbn [mbind option_bind]. rewrite Nat2Z.id, Et, take_drop. rewrite (f_num it Hf).
    set (it1 := set_position (ofs n) (restart_index_ it) (i_key e) (Some (Z.of_nat p + (|[i_key e]| - Z.of_nat (i_shared e)), |[i_value e]|)) it).
    destruct (advance_ok Hok ndebug n it1 (S (Z.to_nat (Z.of_nat (length rs))))) as (i & r & -> & Ei & Hri & Hrj);
      [by apply fields_set | done | done | exact Hr | |].
    { destruct Hr as (i & r & Ei & Er & _). cbn. rewrite Ei. lia. }
    eexists. split; [done |]. split; [by do 2 apply fields_set |]. split; [done |]. split; [done |].
    intros e' E'. assert (e' = e) as -> by congruence. split; [done |]. split; [cbn; do 2 f_equal; lia |]. by exists i, r.
  - rewrite bool_decide_false by done. assert (n = N) as -> by lia. rewrite (off_all es N) by lia.
    rewrite (proj2 (Z.leb_le _ _)) by lia. eexists. split; [done |]. split; [by apply fields_set |]. split; [done |].
    unfold no_more. cbn. rewrite (f_restarts it Hf), (off_all es N) by lia. split; [done |]. intros e E%lookup_lt_Some. lia.
Qed.

Lemma at_before n it : at_item (es := es) (rs := rs) n it -> (n < N)%nat -> before (es := es) (rs := rs) (S n) it.
Proof.
  intros (Hf & Hn & Ec & He) Hlt. destruct (lookup_lt_is_Some_2 es n Hlt) as [e E]. destruct (He e E) as (Ek & Ev & i & r & Ei & Er & Hr & _).
  split; [done |]. split; [done |]. unfold NextEntryOffset. rewrite Ev. cbn [mbind option_bind].
  pose proof (ofs_bound Hok (S n)) as (Ho & Hb & Hz). split; [| split].
  - f_equal. replace (ofs (S n) - |[i_value e]| + |[i_value e]|) with (ofs (S n)) by lia. apply wrap_small. split; lia.
  - exists i, r. split_and!; [done | done | lia].
  - intros e' E'. rewrite Ek. assert (∀ prev fs m a b, chain prev fs -> fs !! m = Some a -> fs !! S m = Some b ->
      (i_shared b <= length (i_key a))%nat /\ take (i_shared b) (i_key a) = take (i_shared b) (i_key b)) as Hc.
    { clear. intros prev fs m. revert prev fs. induction m as [| m IH]; intros prev [| f fs] a b; try done; cbn.
      - intros (_ & _ & _ & Hc) [= ->] E. destruct fs as [| g fs]; [done |]. injection E as ->. cbn in Hc. by destruct Hc as (? & _ & ? & _).
      - intros (_ & _ & _ & Hc) Ea Eb. by eapply IH. }
    by eapply Hc; [apply (bo_chain Hok) | |].
Qed.

Lemma parse_until_ok fuel stop t : ∀ m it, before (es := es) (rs := rs) m it -> (m <= t <= N)%nat ->
  (∀ i it, (i < t)%nat -> (m <= i)%nat -> at_item (es := es) (rs := rs) i it -> stop it = Some false) ->
  (∀ it, (t < N)%nat -> at_item (es := es) (rs := rs) t it -> stop it = Some true) -> (t - m < fuel)%nat ->
  ∃ it', parse_until ndebug fuel stop it = Some it' /\ at_item (es := es) (rs := rs) t it'.
Proof.
  induction fuel as [| fuel IH]; intros m it Hb Hm Hlow Hstop Hf; [lia |]. cbn [parse_until].
  destruct (ParseNextKey_ok m it Hb) as (it1 & -> & H1). cbn [mbind option_bind].
  destruct (decide (m < N)%nat) as [Hlt | Hge].
  - rewrite bool_decide_true by done. destruct (decide (m = t)) as [-> | Hne].
    + rewrite Hstop by done. cbn [mbind option_bind]. by exists it1.
    + rewrite (Hlow m) by (done || lia). cbn [mbind option_bind]. apply (IH (S m)); [by apply at_before | lia | | done | lia].
      intros i it' Hi Hmi. apply Hlow; lia.
  - rewrite bool_decide_false by done. assert (m = t) as -> by lia. by exists it1.
Qed.
Lemma parse_fuel_ok it : fields (es := es) (rs := rs) it -> (N < parse_fuel it)%nat.
Proof.
  intros Hf. unfold parse_fuel. rewrite (f_data it Hf). pose proof (count_le es). pose proof (ofs_bound Hok 0) as (_ & Hb & _). unfold slice_size in Hb. lia.
Qed.

Lemma SeekToRestartPoint_ok i r it : fields (es := es) (rs := rs) it -> rs !! i = Some r ->
  ∃ it', SeekToRestartPoint ndebug (Z.of_nat i) it = Some it' /\ before (es := es) (rs := rs) r it'.
Proof.
  intros Hf Er. unfold SeekToRestartPoint. rewrite (GetRestartPoint_ok Hok ndebug i r it Hf Er). cbn [mbind option_bind].
  eexists. split; [done |]. split; [by apply fields_set |]. split; [destruct (bo_bound Hok i r Er); lia |].
  pose proof (ofs_bound Hok r) as (Ho & Hb & Hz). split; [| split].
  - unfold NextEntryOffset. cbn. f_equal. rewrite Z.add_0_r. apply wrap_small. split; lia.
  - by exists i, r.
  - intros e E. rewrite (bo_full Hok i r e Er E). split; [lia | done].
Qed.

Lemma ends_at_ok n limit it : at_item (es := es) (rs := rs) n it -> (n < N)%nat -> ends_at (ofs limit) it = Some (bool_decide (off es limit <= off es (S n))%nat).
Proof.
  intros Hn Hlt. destruct (at_before n it Hn Hlt) as (_ & _ & Eo & _). unfold ends_at. rewrite Eo. cbn [mbind option_bind]. f_equal.
  destruct (Z.ltb_spec (ofs (S n)) (ofs limit)); [rewrite bool_decide_false by lia | rewrite bool_decide_true by lia]; done.
Qed.

Lemma back_ok n i r it fuel : fields (es := es) (rs := rs) it -> (n < N)%nat -> current_ it = ofs n ->
  restart_index_ it = Z.of_nat i -> rs !! i = Some r -> (i < fuel)%nat ->
  ∃ b it', back_restart ndebug fuel (ofs n) it = Some (b, it') /\ fields (es := es) (rs := rs) it' /\
    if (b : bool) then ∃ j r', restart_index_ it' = Z.of_nat j /\ rs !! j = Some r' /\ (r' < n)%nat
    else n = 0%nat /\ at_item (es := es) (rs := rs) N it'.
Proof.
  revert i r it. induction fuel as [| fuel IH]; intros i r it Hf Hn Ec Ei Er Hi; [lia |]. cbn [back_restart].
  rewrite Ei, (GetRestartPoint_ok Hok ndebug i r it Hf Er). cbn [mbind option_bind].
  destruct (Z.leb_spec (ofs n) (ofs r)) as [Hle | Hgt].
  - destruct (Z.eqb_spec (Z.of_nat i) 0) as [E0 | Hne].
    + assert (i = 0%nat) as -> by lia. rewrite (bo_first Hok) in Er. injection Er as <-. exists false, (no_more it).
      split; [done |]. split; [by apply fields_set |]. split.
      * destruct n as [| n]; [done |]. pose proof (off_lt es 0 (S n) ltac:(lia) ltac:(lia)). lia.
      * split; [by apply fields_set |]. split; [done |]. cbn. rewrite (f_restarts it Hf), (off_all es N) by lia. split; [done |].
        intros e E%lookup_lt_Some. lia.
    + destruct (lookup_lt_is_Some_2 rs (i - 1)) as [r1 Er1]; [apply lookup_lt_Some in Er; lia |].
      apply (IH (i - 1)%nat r1); [by apply fields_set | done | done | cbn; lia | done | lia].
  - exists true, it. split; [done |]. split; [done |]. exists i, r. split_and!; [done.. |]. apply (off_lt_inv es). lia.
Qed.

(** ** The operations *)
Lemma BlockIter_Valid_ok n it : at_item (es := es) (rs := rs) n it -> BlockIter_Valid it = bool_decide (n < N)%nat.
Proof.
  intros (Hf & Hn & Ec & _). unfold BlockIter_Valid. rewrite (f_restarts it Hf), Ec. destruct (decide (n < N)%nat) as [Hlt | Hge].
  - rewrite bool_decide_true by done. pose proof (off_lt es n N Hlt Hlt) as Ho. rewrite (off_all es N) in Ho by lia. by apply Z.ltb_lt; lia.
  - rewrite bool_decide_false by done. assert (n = N) as -> by lia. rewrite off_all by lia. apply Z.ltb_irrefl.
Qed.

Lemma Next_ok n it : at_item (es := es) (rs := rs) n it -> (n < N)%nat -> ∃ it', BlockIter_Next ndebug it = Some it' /\ at_item (es := es) (rs := rs) (S n) it'.
Proof.
  intros Hn Hlt. unfold BlockIter_Next. rewrite (BlockIter_Valid_ok n it Hn), bool_decide_true, assert_true by done. cbn [mbind option_bind].
  destruct (ParseNextKey_ok (S n) it (at_before n it Hn Hlt)) as (it' & -> & H'). by exists it'.
Qed.

Lemma Prev_ok n it : at_item (es := es) (rs := rs) n it -> (n < N)%nat ->
  ∃ it', BlockIter_Prev ndebug it = Some it' /\ at_item (es := es) (rs := rs) (if decide (n = 0)%nat then N else n - 1)%nat it'.
Proof.
  intros Hn Hlt. unfold BlockIter_Prev. rewrite (BlockIter_Valid_ok n it Hn), bool_decide_true, assert_true by done. cbn [mbind option_bind].
  destruct (lookup_lt_is_Some_2 es n Hlt) as [e E]. destruct Hn as (Hf & _ & Ec & He). destruct (He e E) as (_ & _ & i & r & Ei & Er & Hr & _).
  rewrite Ec. destruct (back_ok n i r it (S (Z.to_nat (restart_index_ it))) Hf Hlt Ec Ei Er) as (b & it1 & -> & Hf1 & Hb); [lia |].
  cbn [mbind option_bind]. destruct b.
  - destruct Hb as (j & r' & Ej & Er' & Hr'). rewrite Ej. destruct (SeekToRestartPoint_ok j r' it1 Hf1 Er') as (it2 & -> & H2). cbn [mbind option_bind].
    rewrite decide_False by lia. apply (parse_until_ok _ _ (n - 1) r' it2 H2); [lia | | |].
    + intros k it' Hk _ Hat. rewrite (ends_at_ok k n it' Hat) by lia. rewrite bool_decide_false; [done |]. pose proof (off_lt es (S k) n). lia.
    + intros it' _ Hat. rewrite (ends_at_ok (n - 1) n it' Hat) by lia. rewrite bool_decide_true; [done |]. by replace (S (n - 1)) with n by lia.
    + pose proof (parse_fuel_ok it2 (proj1 H2)). lia.
  - destruct Hb as [-> Hat]. rewrite decide_True by done. by exists it1.
Qed.

Lemma SeekToFirst_ok it : fields (es := es) (rs := rs) it -> ∃ it', BlockIter_SeekToFirst ndebug it = Some it' /\ at_item (es := es) (rs := rs) 0 it'.
Proof.
  intros Hf. unfold BlockIter_SeekToFirst. destruct (SeekToRestartPoint_ok 0 0 it Hf (bo_first Hok)) as (it1 & E & H1).
  change (Z.of_nat 0) with 0 in E. rewrite E. cbn [mbind option_bind]. destruct (ParseNextKey_ok 0 it1 H1) as (it' & -> & H'). by exists it'.
Qed.

Lemma SeekToLast_ok it : fields (es := es) (rs := rs) it -> ∃ it', BlockIter_SeekToLast ndebug it = Some it' /\ at_item (es := es) (rs := rs) (N - 1) it'.
Proof.
  intros Hf. unfold BlockIter_SeekToLast. pose proof (rs_pos Hok). destruct (lookup_lt_is_Some_2 rs (length rs - 1)) as [r Er]; [lia |].
  rewrite (f_num it Hf). replace (Z.of_nat (length rs) - 1) with (Z.of_nat (length rs - 1)) by lia.
  destruct (SeekToRestartPoint_ok _ r it Hf Er) as (it1 & -> & H1). cbn [mbind option_bind].
  assert (it_restarts it1 = ofs N) as -> by (rewrite (f_restarts it1 (proj1 H1)), off_all by lia; done).
  apply (parse_until_ok _ _ (N - 1) r it1 H1).
  - destruct (bo_bound Hok _ r Er); lia.
  - intros k it' Hk _ Hat. rewrite (ends_at_ok k N it' Hat) by lia. rewrite bool_decide_false; [done |]. pose proof (off_lt es (S k) N). lia.
  - intros it' Hlt Hat. rewrite (ends_at_ok (N - 1) N it' Hat) by lia. rewrite bool_decide_true; [done |]. by replace (S (N - 1)) with N by lia.
  - pose proof (parse_fuel_ok it1 (proj1 H1)). lia.
Qed.

(** ** Seeking *)
Definition pairs (es : list Item) : Pairs := (λ e, (i_key e, i_value e)) <$> es.
Hypothesis Hsorted : sorted_pairs valid (pairs es).

Lemma pairs_lookup n e : es !! n = Some e -> pairs es !! n = Some (i_key e, i_value e).
Proof. intros E. unfold pairs. by rewrite list_lookup_fmap, E. Qed.

Lemma search_restart_ok target it fuel : valid target -> fields (es := es) (rs := rs) it -> ∀ left right,
  (left < length rs)%nat -> (right < length rs)%nat -> (∃ r, rs !! left = Some r /\ (r <= lower (pairs es) target)%nat) -> (right - left < fuel)%nat ->
  ∃ i r, search_restart ndebug fuel target (Z.of_nat left) (Z.of_nat right) it = Some (Some (Z.of_nat i)) /\ rs !! i = Some r /\ (r <= lower (pairs es) target)%nat.
Proof.
  intros Ht Hf. induction fuel as [| fuel IH]; intros left right Hl Hrt (r & Er & Hr) Hfuel; [lia |]. cbn [search_restart].
  destruct (Z.ltb_spec (Z.of_nat left) (Z.of_nat right)) as [Hlt | Hge]; [| by exists left, r].
  pose proof (ofs_bound Hok 0) as (_ & Hb & Hz). pose proof (size_block (es := es) (rs := rs)) as Hsz.
  set (mid := ((left + right + 1) / 2)%nat). assert (u32 (Z.of_nat left + Z.of_nat right + 1) / 2 = Z.of_nat mid) as ->.
  { unfold u32. rewrite wrap_small by (split; lia). unfold mid. rewrite Nat2Z.inj_div. f_equal. lia. }
  assert (left < mid <= right)%nat as Hmid.
  { unfold mid. pose proof (Nat.div_mod (left + right + 1) 2). pose proof (Nat.mod_upper_bound (left + right + 1) 2). lia. }
  destruct (lookup_lt_is_Some_2 rs mid) as [rm Erm]; [lia |]. rewrite (GetRestartPoint_ok Hok ndebug mid rm it Hf Erm). cbn [mbind option_bind].
  assert (rm < N)%nat as Hrm.
  { destruct (bo_bound Hok mid rm Erm) as [| ->]; [done |]. pose proof (bo_sorted Hok left mid r 0 Er Erm). lia. }
  destruct (lookup_lt_is_Some_2 es rm Hrm) as [e E]. destruct (item_at rm e E) as (p & tl & Ed & Edata & Hpl & _).
  rewrite (f_data it Hf), (f_restarts it Hf), Ed. rewrite (bo_full Hok mid rm e Erm E) in *. cbn [negb Z.of_nat]. rewrite Z.eqb_refl. cbn [negb].
  rewrite (sub_data_ok it p _ (i_key e) (i_value e ++ tl)); [| apply Hf | done | lia | done]. cbn [mbind option_bind].
  pose proof (pairs_lookup rm e E) as Epair. pose proof (sorted_pairs_valid _ _ _ Hsorted Epair) as Hve. cbn [fst] in Hve.
  destruct (cmp_some (i_key e) target Hve Ht) as [c Ec]. rewrite Ec. cbn [mbind option_bind]. pose proof (lower_spec _ target rm _ Hsorted Ht Epair) as Hlow.
  cbn [fst] in Hlow. destruct (decide (c = Lt)) as [-> | Hne].
  - rewrite bool_decide_true by done. apply (IH mid right); [lia | done | | lia]. exists rm. split; [done |]. apply Nat.lt_le_incl, Hlow, Ec.
  - rewrite bool_decide_false by done. replace (Z.of_nat mid - 1) with (Z.of_nat (mid - 1)) by lia. apply (IH left (mid - 1)%nat); [done | lia | by exists r | lia].
Qed.

Lemma Seek_ok target it : valid target -> fields (es := es) (rs := rs) it ->
  ∃ it', BlockIter_Seek ndebug target it = Some it' /\ at_item (es := es) (rs := rs) (lower (pairs es) target) it'.
Proof.
  intros Ht Hf. unfold BlockIter_Seek. pose proof (rs_pos Hok). rewrite (f_num it Hf).
  replace (Z.of_nat (length rs) - 1) with (Z.of_nat (length rs - 1)) by lia.
  destruct (search_restart_ok target it (S (Z.to_nat (Z.of_nat (length rs)))) Ht Hf 0 (length rs - 1)) as (i & r & E & Er & Hr);
    [lia | lia | | lia |]. { exists 0%nat. split; [apply (bo_first Hok) | lia]. }
  change (Z.of_nat 0) with 0 in E. rewrite E. cbn [mbind option_bind].
  destruct (SeekToRestartPoint_ok i r it Hf Er) as (it1 & -> & H1). cbn [mbind option_bind].
  pose proof (lower_le (pairs es) target) as Hle. assert (length (pairs es) = N) as El by apply length_fmap. rewrite El in Hle.
  assert (∀ n it', at_item (es := es) (rs := rs) n it' -> (n < N)%nat -> at_or_past target it' = Some (bool_decide (lower (pairs es) target <= n)%nat)) as Hstop.
  { intros n it' Hat Hlt. destruct (lookup_lt_is_Some_2 es n Hlt) as [e Ee]. destruct Hat as (_ & _ & _ & He). destruct (He e Ee) as (Ek & _).
    unfold at_or_past. rewrite Ek. pose proof (pairs_lookup n e Ee) as Epair. pose proof (sorted_pairs_valid _ _ _ Hsorted Epair) as Hve. cbn [fst] in Hve.
    destruct (cmp_some (i_key e) target Hve Ht) as [c Ec]. rewrite Ec. cbn [mbind option_bind]. f_equal.
    pose proof (lower_spec _ target n _ Hsorted Ht Epair) as Hlow. cbn [fst] in Hlow. rewrite Ec in Hlow.
    apply bool_decide_ext. split; [intros Hc | intros Hl ->].
    - destruct (Nat.lt_ge_cases n (lower (pairs es) target)) as [Hl |]; [| done]. apply Hlow in Hl. congruence.
    - assert (n < lower (pairs es) target)%nat by by apply Hlow. lia. }
  apply (parse_until_ok _ _ _ r it1 H1); [lia | | |].
  - intros k it' Hk _ Hat. rewrite (Hstop k it' Hat) by lia. by rewrite bool_decide_false by lia.
  - intros it' Hlt Hat. rewrite (Hstop _ it' Hat Hlt). by rewrite bool_decide_true by lia.
  - pose proof (parse_fuel_ok it1 (proj1 H1)). lia.
Qed.

Lemma value_ok n e it : at_item (es := es) (rs := rs) n it -> es !! n = Some e -> BlockIter_value ndebug it = Some (i_value e).
Proof.
  intros Hat E. unfold BlockIter_value. rewrite (BlockIter_Valid_ok n it Hat), bool_decide_true, assert_true by by eapply lookup_lt_Some.
  cbn [mbind option_bind]. destruct Hat as (Hf & _ & _ & He). destruct (He e E) as (_ & -> & _). cbn [mbind option_bind].
  destruct (item_at n e E) as (p & tl & _ & Edata & Hpl & Eend). pose proof (item_fits Hok n e E) as (_ & _ & Hse).
  replace (ofs (S n) - |[i_value e]|) with (Z.of_nat (p + (length (i_key e) - i_shared e))) by (unfold slice_size in *; lia).
  apply (sub_data_ok it _ _ _ tl); [apply Hf | | done |].
  - rewrite <- drop_drop, Edata. apply drop_app_length'. by rewrite length_drop.
  - apply (f_equal length) in Edata. rewrite !length_app, !length_drop in Edata. lia.
Qed.

(** The iterator of a block keeps the contract. *)
Lemma block_iterates : iterates (I := BlockIter) (H := BlockIter_Iterator ndebug) valid (at_item (es := es) (rs := rs)) (pairs es).
Proof.
  assert (length (pairs es) = N) as El by apply length_fmap. split; rewrite ?El.
  - by intros n it (_ & Hn & _).
  - apply BlockIter_Valid_ok.
  - intros n it p Hat E. unfold pairs in E. rewrite list_lookup_fmap in E. destruct (es !! n) as [e |] eqn:Ee; [| done]. injection E as <-.
    cbn. unfold BlockIter_key. rewrite (BlockIter_Valid_ok n it Hat), bool_decide_true, assert_true by by eapply lookup_lt_Some.
    cbn [mbind option_bind]. destruct Hat as (_ & _ & _ & He). by destruct (He e Ee) as (-> & _).
  - intros n it p Hat E. unfold pairs in E. rewrite list_lookup_fmap in E. destruct (es !! n) as [e |] eqn:Ee; [| done]. injection E as <-.
    by apply (value_ok n e).
  - apply Next_ok.
  - apply Prev_ok.
  - intros n it (Hf & _). by apply SeekToFirst_ok.
  - intros n it (Hf & _). by apply SeekToLast_ok.
  - intros n it target (Hf & _) Ht. by apply Seek_ok.
  - intros n it (Hf & _). cbn. by rewrite (f_status it Hf).
Qed.
End Ok.
