(* ===== verification/BuilderProps.v ===== *)
(** * Building a block and reading it back

    [Add_ok] keeps the relation [builder_ok] between the builder and the entries it has taken; [block_roundtrip]
    reads the block with its iterator. *)
From S2P Require Import Prelude Status Coding Comparator Crc32c Crc32cProps Log LogFacts.
From S2P Require Import Format BlockBuilder Iterator Block BlockProps.

Lemma common_prefix_le a b : (common_prefix a b <= length a)%nat /\ (common_prefix a b <= length b)%nat.
Proof. revert b. induction a as [| x a IH]; intros [| y b]; cbn; try lia. destruct (x =? y); [destruct (IH b) |]; lia. Qed.
Lemma common_prefix_take a b : take (common_prefix a b) a = take (common_prefix a b) b.
Proof.
  revert b. induction a as [| x a IH]; intros [| y b]; cbn; try done.
  destruct (Z.eqb_spec x y) as [-> |]; [| done]. cbn. by rewrite IH.
Qed.

Lemma chain_snoc prev es e : chain prev es -> let k := default prev (i_key <$> list.last es) in
  (i_shared e <= length k)%nat -> (i_shared e <= length (i_key e))%nat -> take (i_shared e) k = take (i_shared e) (i_key e) -> chain prev (es ++ [e]).
Proof.
  revert prev. induction es as [| f es IH]; intros prev Hc k H1 H2 H3; subst k; cbn in *; [done |].
  destruct Hc as (C1 & C2 & C3 & Hc). split_and!; [done.. |]. destruct es as [| g es]; [by apply (IH (i_key f)) |].
  change (list.last (f :: g :: es)) with (list.last (g :: es)) in *. specialize (IH (i_key f)).
  destruct (list.last (g :: es)) as [x |] eqn:El; [by apply IH | by apply last_None in El].
Qed.

(** What a key and a value cost at most. *)
Definition cost (p : Slice * Slice) : Z := 19 + |[p.1]| + |[p.2]|.
Definition total_cost (l : Pairs) : Z := foldr (λ p z, cost p + z) 8 l.

Section Builder.
Context {C : Comparator} {valid : Slice -> Prop} `{!OrderOn Compare valid}.
Variable ndebug : bool.
Implicit Types (b : BlockBuilder).

Record builder_ok (pre : Slice) b (es : list Item) (rs : list nat) : Prop := {
  bu_layout : layout_ok es rs;
  bu_buffer : buffer_ b = pre ++ body es;
  bu_start : buffer_start_ b = |[pre]|;
  bu_finished : finished_ b = false;
  bu_interval : 1 <= restart_interval_ b;
  bu_restarts : restarts_ b = (λ r, Z.of_nat (off es r)) <$> rs;
  bu_counter : 0 <= counter_ b <= restart_interval_ b;
  bu_last : ∃ r, list.last rs = Some r /\ Z.of_nat r + counter_ b = Z.of_nat (length es);
  bu_key : last_key_ b = default [] (i_key <$> list.last es)
}.

Lemma new_ok n : builder_ok [] (new_BlockBuilder n) [] [0%nat].
Proof.
  split; try done.
  - split; [done | done | | | done].
    + intros i j a c Ei Ej Hij. apply lookup_lt_Some in Ej as Hj. cbn in Hj. lia.
    + intros i r E. right. destruct i as [| i]; [by injection E | done].
  - cbn. destruct (Z.ltb_spec n 1); lia.
  - cbn. destruct (Z.ltb_spec n 1); lia.
  - by exists 0%nat.
Qed.

(** After [Reset] the builder starts again behind what it kept of its buffer. *)
Lemma Reset_ok pre b : buffer_start_ b = |[pre]| -> take (length pre) (buffer_ b) = pre -> 1 <= restart_interval_ b -> builder_ok pre (Reset b) [] [0%nat].
Proof.
  intros Es Et Hi. destruct (new_ok 1) as [Hl _ _ _ _ _ _ _ _]. split; try done; cbn; try lia.
  - unfold resize. rewrite Es. apply (f_equal length) in Et as El. rewrite length_take in El. unfold slice_size.
    rewrite (proj2 (Z.leb_le _ _)), Nat2Z.id, Et by lia. by rewrite app_nil_r.
  - by exists 0%nat.
Qed.

Definition room pre (es : list Item) (rs : list nat) (p : Slice * Slice) : Prop := |[pre]| + |[block_bytes es rs]| + cost p < 2 ^ 32.

Lemma in_order_ok pre b es rs key : builder_ok pre b es rs -> (∀ e, list.last es = Some e -> Compare (i_key e) key = Some Lt /\ valid (i_key e)) -> valid key ->
  in_order (Some C) b key = Some true.
Proof.
  intros Hb Hl Hk. unfold in_order. destruct (builder_empty b) eqn:Ee; [done |]. rewrite (bu_key _ _ _ _ Hb). destruct (list.last es) as [e |] eqn:E.
  - cbn. destruct (Hl e eq_refl) as [Hlt Hv]. by rewrite (cmp_lt_gt _ _ Hv Hk Hlt).
  - exfalso. apply last_None in E as ->. unfold builder_empty in Ee. rewrite (bu_buffer _ _ _ _ Hb), (bu_start _ _ _ _ Hb) in Ee.
    cbn in Ee. rewrite app_nil_r, Z.leb_refl in Ee. done.
Qed.

Lemma off_snoc es e r : (r <= length es)%nat -> off (es ++ [e]) r = off es r.
Proof. apply off_app. Qed.

Lemma Add_ok pre b es rs key v : builder_ok pre b es rs -> room pre es rs (key, v) ->
  in_order (Some C) b key = Some true ->
  ∃ b' sh rs', Add ndebug (Some C) key v b = Some b' /\ builder_ok pre b' (es ++ [MkItem key v sh]) rs' /\
    (length rs' <= S (length rs))%nat /\ (length rs <= length rs')%nat.
Proof.
  intros Hb Hroom Hord. unfold Add. rewrite (bu_finished _ _ _ _ Hb). cbn [negb]. rewrite assert_true. cbn [mbind option_bind].
  rewrite (assert_bool ndebug (counter_ b <=? restart_interval_ b)) by apply Z.leb_le, (bu_counter _ _ _ _ Hb). cbn [mbind option_bind].
  assert ((if ndebug then Some tt else o ← in_order (Some C) b key; assert_ ndebug o) = Some tt) as ->.
  { rewrite Hord. cbn [mbind option_bind]. rewrite assert_true. by destruct ndebug. }
  cbn [mbind option_bind]. destruct Hb as [Hl Ebuf Est Ef Hint Ers Hc (rl & Erl & Hrl) Ek].
  unfold room, cost in Hroom. cbn [fst snd] in Hroom. pose proof (slice_size_nonneg pre) as Hp0. pose proof (slice_size_nonneg key) as Hk0. pose proof (slice_size_nonneg v) as Hv0.
  rewrite size_block in Hroom.
  set (fresh := counter_ b <? restart_interval_ b).
  set (sh := if fresh then common_prefix (last_key_ b) key else 0%nat).
  set (rs' := if fresh then rs else rs ++ [length es]).
  assert ((if fresh then Some (Z.of_nat (common_prefix (last_key_ b) key), restarts_ b, counter_ b)
     else _ ← assert_ ndebug (buffer_start_ b <=? |[buffer_ b]|); Some (0, restarts_ b ++ [u32 (|[buffer_ b]| - buffer_start_ b)], 0)) =
     Some (Z.of_nat sh, (λ r, Z.of_nat (off es r)) <$> rs', if fresh then counter_ b else 0)) as ->.
  { unfold sh, rs'. destruct fresh; [by rewrite Ers |]. rewrite Ebuf, Est, slice_size_app, assert_bool by (apply Z.leb_le; pose proof (slice_size_nonneg (body es)); lia).
    cbn [mbind option_bind]. rewrite fmap_app, Ers. cbn. do 4 f_equal. rewrite off_all by lia. unfold u32. rewrite wrap_small; unfold slice_size in *; [f_equal; lia | split; lia]. }
  cbn [mbind option_bind].
  assert ((sh <= length (last_key_ b))%nat /\ (sh <= length key)%nat /\ take sh (last_key_ b) = take sh key) as (Hs1 & Hs2 & Hs3).
  { unfold sh. destruct fresh; [destruct (common_prefix_le (last_key_ b) key); split_and!; [done | done | apply common_prefix_take] |].
    split_and!; [lia | lia | done]. }
  rewrite Nat2Z.id, Hs3, take_drop. rewrite bool_decide_true, assert_true by done. cbn [mbind option_bind].
  eexists _, sh, rs'. split; [done |]. split; [| unfold rs'; destruct fresh; rewrite ?length_app; cbn; lia].
  assert (∀ r, r ∈ rs' -> (r <= length es)%nat) as Hbound.
  { intros r Hr. assert (∀ r, r ∈ rs -> (r <= length es)%nat) as Hbo.
    { intros r0 [i Ei]%list_elem_of_lookup_1. destruct (bo_bound Hl i r0 Ei); lia. }
    unfold rs' in Hr. destruct fresh; [by apply Hbo |]. apply elem_of_app in Hr as [Hr | ->%list_elem_of_singleton]; [by apply Hbo | done]. }
  assert (fresh = false -> (0 < length es)%nat) as Hpos by (intros Hfr; apply Z.ltb_ge in Hfr; lia).
  split; cbn [buffer_ buffer_start_ finished_ restart_interval_ restarts_ counter_ last_key_]; try done.
  - split.
    + apply chain_snoc; cbn [i_shared i_key]; [apply (bo_chain Hl) | | done | ]; rewrite <- Ek; done.
    + unfold rs'. destruct fresh; [apply (bo_first Hl) |]. apply lookup_app_l_Some, (bo_first Hl).
    + intros i j a c Ei Ej Hij. unfold rs' in *. destruct fresh eqn:Efr; [by eapply (bo_sorted Hl) |].
      apply lookup_app_Some in Ej as [Ej | [Hj Ej]].
      * rewrite lookup_app_l in Ei by (apply lookup_lt_Some in Ej; lia). by eapply (bo_sorted Hl).
      * apply list_lookup_singleton_Some in Ej as [Ej <-]. rewrite lookup_app_l in Ei by lia. destruct (bo_bound Hl i a Ei); [done |]. specialize (Hpos eq_refl). lia.
    + intros i r Ei. rewrite length_app. cbn. unfold rs' in *. destruct fresh eqn:Efr; [destruct (bo_bound Hl i r Ei); lia |].
      apply lookup_app_Some in Ei as [Ei | [Hi Ei]]; [destruct (bo_bound Hl i r Ei); lia |]. apply list_lookup_singleton_Some in Ei as [_ <-]. lia.
    + intros i r e Ei Ee. apply lookup_app_Some in Ee as [Ee | [Hr Ee]].
      * unfold rs' in Ei. destruct fresh; [by eapply (bo_full Hl) |]. apply lookup_app_Some in Ei as [Ei | [Hi Ei]]; [by eapply (bo_full Hl) |].
        apply list_lookup_singleton_Some in Ei as [_ <-]. apply lookup_lt_Some in Ee. lia.
      * apply list_lookup_singleton_Some in Ee as [Er <-]. cbn. unfold sh, rs' in *. destruct fresh eqn:Efr; [| done].
        destruct (bo_bound Hl i r Ei) as [| ->]; [lia |]. assert (es = []) as -> by (apply length_zero_iff_nil; lia). rewrite Ek. by cbn.
  - rewrite Ebuf. unfold PutVarint32. rewrite body_app, body_cons. unfold enc_item. cbn [i_shared i_key i_value body fmap list_fmap concat]. rewrite app_nil_r.
    unfold u32. rewrite !wrap_small by (unfold slice_size in *; split; lia). by rewrite <- !app_assoc.
  - apply list_fmap_ext. intros i r Ei. by rewrite off_snoc by by eapply Hbound, list_elem_of_lookup_2.
  - unfold fresh. destruct (Z.ltb_spec (counter_ b) (restart_interval_ b)); lia.
  - rewrite length_app. cbn. unfold rs'. destruct fresh.
    + exists rl. split; [done | lia].
    + exists (length es). rewrite last_snoc. split; [done | lia].
  - by rewrite last_snoc.
Qed.


Lemma size_enc_item_le e : |[enc_item e]| <= 15 + |[i_key e]| + |[i_value e]|.
Proof.
  unfold enc_item. rewrite !slice_size_app. unfold slice_size. rewrite length_drop.
  pose proof (length_EncodeVarint32 (Z.of_nat (i_shared e))). pose proof (length_EncodeVarint32 (Z.of_nat (length (i_key e)) - Z.of_nat (i_shared e))).
  pose proof (length_EncodeVarint32 (Z.of_nat (length (i_value e)))). lia.
Qed.

Fixpoint add_all (cmp : option Comparator) (l : Pairs) b : option BlockBuilder :=
  match l with [] => Some b | p :: l => b ← Add ndebug cmp p.1 p.2 b; add_all cmp l b end.

Lemma pairs_app es fs : pairs (es ++ fs) = pairs es ++ pairs fs.
Proof. apply fmap_app. Qed.

(** One more pair. *)
Lemma add_one_ok pre b es rs k v : builder_ok pre b es rs -> sorted_pairs valid (pairs es ++ [(k, v)]) ->
  |[pre]| + |[block_bytes es rs]| + cost (k, v) < 2 ^ 32 ->
  ∃ b' sh rs', Add ndebug (Some C) k v b = Some b' /\ builder_ok pre b' (es ++ [MkItem k v sh]) rs' /\
    |[block_bytes (es ++ [MkItem k v sh]) rs']| <= |[block_bytes es rs]| + cost (k, v) /\ compression_ b' = compression_ b.
Proof.
  intros Hb Hs Hsz.
  assert (valid k) as Hk by (eapply (sorted_pairs_valid _ (length (pairs es)) (k, v) Hs); by rewrite list_lookup_middle).
  destruct (Add_ok pre b es rs k v Hb) as (b1 & sh & rs1 & Ea & Hb1 & Hr1 & Hr2).
  - done.
  - eapply in_order_ok; [done | | done]. intros e Ee. apply last_Some in Ee as [es0 ->]. rewrite pairs_app in Hs. change (pairs [e]) with [(i_key e, i_value e)] in Hs. rewrite <- app_assoc in Hs. cbn [app] in Hs. split.
    + refine (sorted_pairs_lookup _ (length (pairs es0)) (length (pairs es0) + 1) (i_key e, i_value e) (k, v) Hs _ _ _); [| | lia].
      * by rewrite list_lookup_middle.
      * rewrite lookup_app_r by lia. by replace (length (pairs es0) + 1 - length (pairs es0))%nat with 1%nat by lia.
    + eapply (sorted_pairs_valid _ (length (pairs es0)) (i_key e, i_value e) Hs). by rewrite list_lookup_middle.
  - exists b1, sh, rs1. split; [done |]. split; [done |]. split.
    + pose proof (size_enc_item_le (MkItem k v sh)) as Henc. cbn [i_key i_value] in Henc.
      rewrite !size_block, body_app, body_cons, app_nil_r. rewrite length_app. unfold cost, slice_size in *. cbn [fst snd]. lia.
    + unfold Add in Ea. repeat (apply bind_Some in Ea as (? & _ & Ea)). destruct x2 as [[? ?] ?]. repeat (apply bind_Some in Ea as (? & _ & Ea)). by injection Ea as <-.
Qed.

Lemma add_all_ok pre l : ∀ b es rs, builder_ok pre b es rs -> sorted_pairs valid (pairs es ++ l) ->
  |[pre]| + |[block_bytes es rs]| + total_cost l - 8 < 2 ^ 32 ->
  ∃ b' es' rs', add_all (Some C) l b = Some b' /\ builder_ok pre b' es' rs' /\ pairs es' = pairs es ++ l /\
    |[block_bytes es' rs']| <= |[block_bytes es rs]| + total_cost l - 8 /\ compression_ b' = compression_ b.
Proof.
  induction l as [| [k v] l IH]; intros b es rs Hb Hs Hsz.
  { exists b, es, rs. rewrite app_nil_r. split_and!; [done.. | | done]. cbn. lia. }
  cbn [add_all fst snd]. cbn [total_cost foldr] in *. fold (total_cost l) in *.
  assert (8 <= total_cost l) as Hl8.
  { clear. induction l as [| p l IH]; [done |]. cbn. fold (total_cost l). unfold cost. pose proof (slice_size_nonneg p.1). pose proof (slice_size_nonneg p.2). lia. }
  assert (pairs es ++ (k, v) :: l = (pairs es ++ [(k, v)]) ++ l) as Eapp by by rewrite <- app_assoc.
  rewrite Eapp in Hs. destruct (add_one_ok pre b es rs k v Hb) as (b1 & sh & rs1 & -> & Hb1 & Hgrow & Ecmp); [exact (proj1 (sorted_pairs_app _ _ Hs)) | lia |].
  cbn [mbind option_bind]. destruct (IH b1 _ _ Hb1) as (b' & es' & rs' & -> & Hb' & Ep & Hsz' & Ecmp').
  - by rewrite pairs_app.
  - lia.
  - exists b', es', rs'. split_and!; [done | done | | lia | congruence]. by rewrite Ep, pairs_app, <- app_assoc.
Qed.
End Builder.

(** ** The trailer *)
Lemma contents_pre b pre s : buffer_ b = pre ++ s -> buffer_start_ b = |[pre]| -> contents_of b = s.
Proof. intros E1 E2. unfold contents_of. rewrite E1, E2. apply drop_slice_size. Qed.

Lemma bytes_block es rs : Forall (λ p : Slice * Slice, bytes p.1 /\ bytes p.2) (pairs es) -> bytes (block_bytes es rs).
Proof.
  intros Hf. apply Forall_app. split; [| apply Forall_app; split; [| apply bytes_EncodeFixed32]].
  - induction es as [| e es IH]; [constructor |]. cbn in Hf. apply list.Forall_cons in Hf as [[Hk Hv] Hf]. rewrite body_cons.
    apply Forall_app. split; [| by apply IH]. unfold enc_item. cbn in *.
    repeat (apply Forall_app; split); try apply bytes_EncodeVarint32; [by apply Forall_drop | done].
  - apply Forall_concat, Forall_fmap, list.Forall_forall. intros r _. apply bytes_EncodeFixed32.
Qed.

(** A block in a file: its contents, the type and the checksum. *)
Definition stored (raw : Slice) (type : Z) : Slice := raw ++ [type] ++ EncodeFixed32 (Mask (crc_Value (raw ++ [type]))).

Section Read.
Context {F : Type} `{RandomAccessFileLaws F} `{Snappy}.

(** What a stored block of a type holds. *)
Definition unpack (type : Z) (raw : Slice) : option Slice :=
  if type =? kNoCompression then Some raw
  else if type =? kSnappyCompression then _ ← Snappy_GetUncompressedLength raw; Snappy_Uncompress raw
  else None.

Lemma ReadBlock_stored (f : F) verify pre raw type post s :
  raf_data f = pre ++ stored raw type ++ post -> bytes raw -> word 8 type -> |[raw]| + 5 < 2 ^ 64 -> unpack type raw = Some s ->
  ∃ c, ReadBlock f verify (MkBlockHandle (|[pre]|) (|[raw]|)) = Some (OK, c) /\ bc_data c = s.
Proof.
  intros Ef Hb Ht Hsz Hu. unfold ReadBlock. cbn [bh_size bh_offset]. pose proof (slice_size_nonneg raw) as Hr0. pose proof (slice_size_nonneg pre) as Hp0.
  assert (u64 (|[raw]| + kBlockTrailerSize) = |[raw]| + 5) as -> by (apply wrap_small; split; unfold kBlockTrailerSize; lia).
  assert (|[stored raw type]| = |[raw]| + 5) as Esz by (unfold stored; rewrite !slice_size_app; done).
  destruct (raf_Read_ok f (|[pre]|) (|[raw]| + 5)) as [inb ->]; [done | lia |]. cbn [ok negb].
  assert (take (Z.to_nat (|[raw]| + 5)) (drop (Z.to_nat (|[pre]|)) (raf_data f)) = stored raw type) as -> by (by rewrite Ef, drop_slice_size, <- Esz, take_slice_size).
  change (ok OK) with true. cbn [negb]. rewrite Esz, Z.eqb_refl. cbn [negb].
  assert (stored raw type !! Z.to_nat (|[raw]|) = Some type) as ->.
  { unfold stored. rewrite lookup_app_r by (unfold slice_size; lia). unfold slice_size. by rewrite Nat2Z.id, Nat.sub_diag. }
  cbn [mbind option_bind].
  assert (stored raw type = (raw ++ [type]) ++ EncodeFixed32 (Mask (crc_Value (raw ++ [type])))) as Esnoc by (unfold stored; by rewrite <- app_assoc).
  assert (bytes (raw ++ [type])) as Hbt by (apply Forall_app; split; [done | by apply list.Forall_singleton]).
  assert ((if verify then stored0 ← DecodeFixed32 (drop (Z.to_nat (|[raw]| + 1)) (stored raw type));
     Some (crc_Value (take (Z.to_nat (|[raw]| + 1)) (stored raw type)) =? Unmask stored0) else Some true) = Some true) as ->.
  { destruct verify; [| done]. assert (|[raw]| + 1 = |[raw ++ [type]]|) as E1 by (rewrite slice_size_app; done).
    rewrite E1, Esnoc, drop_slice_size, take_slice_size. rewrite <- (app_nil_r (EncodeFixed32 _)), DecodeFixed32_wrap. cbn [mbind option_bind].
    assert (u32 (Mask (crc_Value (raw ++ [type]))) = Mask (crc_Value (raw ++ [type]))) as -> by (apply wrap_small, wrap_word; lia).
    rewrite Unmask_Mask by by apply crc_Value_word. by rewrite Z.eqb_refl. }
  cbn [mbind option_bind negb]. assert (take (Z.to_nat (|[raw]|)) (stored raw type) = raw) as -> by (unfold stored; apply take_slice_size).
  unfold unpack in Hu. destruct (type =? kNoCompression); [injection Hu as <-; by eexists |].
  destruct (type =? kSnappyCompression); [| done]. destruct (Snappy_GetUncompressedLength raw); [| done]. cbn [mbind option_bind] in Hu.
  rewrite Hu. by eexists.
Qed.
End Read.

(** ** Finishing a block *)
Section Finish.
Context `{SnappyLaws}.
Variable ndebug : bool.

(** [Finish]: the contents, compressed or not. *)
Lemma Finish_ok pre b es rs compression force : builder_ok pre b es rs -> compression_ b = kNoCompression -> |[block_bytes es rs]| < 2 ^ 32 ->
  bytes (block_bytes es rs) -> compression = kNoCompression \/ compression = kSnappyCompression ->
  ∃ raw b', Finish ndebug compression force b = Some (raw, b') /\ bytes raw /\ buffer_ b' = pre ++ raw /\ buffer_start_ b' = |[pre]| /\
    finished_ b' = true /\ unpack (compression_ b') raw = Some (block_bytes es rs) /\ word 8 (compression_ b') /\
    (compression = kNoCompression -> raw = block_bytes es rs).
Proof.
  intros Hb Hcmp Hsz Hby Hc. unfold Finish, AbstractFinish. rewrite (bu_finished _ _ _ _ Hb), assert_true. cbn [mbind option_bind].
  cbn [set_buffer finished_]. rewrite (bu_finished _ _ _ _ Hb), assert_true. cbn [mbind option_bind].
  assert (PutFixed32 (foldl PutFixed32 (buffer_ b) (restarts_ b)) (u32 (Z.of_nat (length (restarts_ b)))) = pre ++ block_bytes es rs) as ->.
  { rewrite foldl_PutFixed32, (bu_buffer _ _ _ _ Hb), (bu_restarts _ _ _ _ Hb), length_fmap. unfold PutFixed32, block_bytes, restart_array.
    rewrite <- list_fmap_compose. unfold u32. rewrite wrap_small; [by rewrite <- !app_assoc |]. rewrite size_block in Hsz. split; lia. }
  rewrite (contents_pre _ pre (block_bytes es rs)) by (done || apply (bu_start _ _ _ _ Hb)).
  assert (∀ b', buffer_ b' = pre ++ block_bytes es rs -> compression_ b' = kNoCompression -> unpack (compression_ b') (block_bytes es rs) = Some (block_bytes es rs)) as Hraw
    by (intros b' _ E; by rewrite E).
  destruct Hc as [-> | ->].
  { do 2 eexists. split; [done |]. cbn. rewrite Hcmp. split_and!; [done | done | apply (bu_start _ _ _ _ Hb) | done | done | by_compute | done]. }
  change (kSnappyCompression =? kNoCompression) with false. change (kSnappyCompression =? kSnappyCompression) with true. cbn match.
  destruct (Snappy_Compress (block_bytes es rs)) as [c |] eqn:Ec.
  - destruct ((_ <=? _) && negb force).
    + rewrite bool_decide_true by done. do 2 eexists. split; [done |]. cbn. rewrite Hcmp.
      split_and!; [done | done | apply (bu_start _ _ _ _ Hb) | done | done | by_compute | done].
    + case_bool_decide as Ec0.
      * do 2 eexists. split; [done |]. cbn. rewrite Hcmp. split_and!; [done | done | apply (bu_start _ _ _ _ Hb) | done | done | by_compute | done].
      * do 2 eexists. split; [done |]. cbn. destruct (Snappy_roundtrip _ _ Ec) as [El Eu].
        split_and!; [by eapply Snappy_bytes | | apply (bu_start _ _ _ _ Hb) | done | | by_compute | done].
        -- rewrite (bu_start _ _ _ _ Hb). unfold resize. rewrite slice_size_app, (proj2 (Z.leb_le _ _)), take_slice_size by (pose proof (slice_size_nonneg (block_bytes es rs)); lia). done.
        -- unfold unpack. change (kSnappyCompression =? kNoCompression) with false. change (kSnappyCompression =? kSnappyCompression) with true. cbn match.
           rewrite El. cbn [mbind option_bind]. exact Eu.
  - rewrite bool_decide_true by done. do 2 eexists. split; [done |]. cbn. rewrite Hcmp.
    split_and!; [done | done | apply (bu_start _ _ _ _ Hb) | done | done | by_compute | done].
Qed.

(** Without compression the builder can be used again. *)
Lemma Finish_plain pre b es rs : builder_ok pre b es rs -> |[block_bytes es rs]| < 2 ^ 32 ->
  ∃ b', Finish ndebug kNoCompression false b = Some (block_bytes es rs, b') /\ compression_ b' = compression_ b /\ builder_ok pre (Reset b') [] [0%nat].
Proof.
  intros Hb Hsz. unfold Finish, AbstractFinish. rewrite (bu_finished _ _ _ _ Hb), assert_true. cbn [mbind option_bind].
  cbn [set_buffer finished_]. rewrite (bu_finished _ _ _ _ Hb), assert_true. cbn [mbind option_bind].
  assert (PutFixed32 (foldl PutFixed32 (buffer_ b) (restarts_ b)) (u32 (Z.of_nat (length (restarts_ b)))) = pre ++ block_bytes es rs) as ->.
  { rewrite foldl_PutFixed32, (bu_buffer _ _ _ _ Hb), (bu_restarts _ _ _ _ Hb), length_fmap. unfold PutFixed32, block_bytes, restart_array.
    rewrite <- list_fmap_compose. unfold u32. rewrite wrap_small; [by rewrite <- !app_assoc |]. rewrite size_block in Hsz. split; lia. }
  rewrite (contents_pre _ pre (block_bytes es rs)) by (done || apply (bu_start _ _ _ _ Hb)).
  eexists. split; [done |]. split; [done |]. apply Reset_ok; cbn.
  - apply (bu_start _ _ _ _ Hb).
  - apply take_app_length.
  - apply (bu_interval _ _ _ _ Hb).
Qed.

(** [Finalize]: the block with its trailer, and padding behind it. *)
Lemma Finalize_ok pre b raw target c : buffer_ b = pre ++ raw -> buffer_start_ b = |[pre]| -> finished_ b = true -> bytes raw -> word 8 (compression_ b) ->
  ∃ pad b', Finalize ndebug true target c b = Some (stored raw (compression_ b) ++ replicate pad c, b').
Proof.
  intros Eb Es Ef Hraw Ht. unfold Finalize. rewrite Ef, assert_true. cbn [mbind option_bind]. rewrite (contents_pre b pre raw) by done.
  rewrite crc_Extend_app by (done || by apply list.Forall_singleton). rewrite Eb.
  assert ((pre ++ raw) ++ [compression_ b] ++ EncodeFixed32 (Mask (crc_Value (raw ++ [compression_ b]))) = pre ++ stored raw (compression_ b)) as ->
    by (unfold stored; by rewrite <- !app_assoc).
  destruct (negb (target =? 0) && _).
  - do 2 eexists. cbn zeta. rewrite (contents_pre _ pre (stored raw (compression_ b) ++ replicate (Z.to_nat (buffer_start_ b + target - |[pre ++ stored raw (compression_ b)]|)) c));
      [done | cbn; by rewrite <- app_assoc | done].
  - exists 0%nat. eexists. cbn zeta. rewrite (contents_pre _ pre (stored raw (compression_ b))) by done. by rewrite app_nil_r.
Qed.

(** Opening the contents of a block. *)
Lemma new_Block_ok es rs : block_ok es rs ->
  ∃ blk it, new_Block (block_bytes es rs) = Some blk /\ Block_NewIterator ndebug blk = Some (inl it) /\ at_item (es := es) (rs := rs) (length es) it.
Proof.
  intros Hok. pose proof (bo_size Hok) as Hsz. pose proof (rs_pos Hok) as Hpos. pose proof (size_block (es := es) (rs := rs)) as Esz.
  assert (num_restarts_of (block_bytes es rs) (|[block_bytes es rs]|) = Some (Z.of_nat (length rs))) as Enum.
  { unfold num_restarts_of. assert (|[block_bytes es rs]| - 4 = |[body es ++ restart_array es rs]|) as ->.
    { unfold block_bytes. rewrite app_assoc, (slice_size_app (body es ++ _)). unfold slice_size at 2. rewrite length_EncodeFixed32. lia. }
    unfold block_bytes. rewrite app_assoc, drop_slice_size, <- (app_nil_r (EncodeFixed32 _)), DecodeFixed32_wrap. f_equal. apply wrap_small. split; lia. }
  unfold new_Block. rewrite (proj2 (Z.ltb_ge _ 4)) by lia. rewrite Enum. cbn [mbind option_bind].
  rewrite Z.gtb_ltb, (proj2 (Z.ltb_ge _ _)) by (apply Z.div_le_lower_bound; lia).
  eexists. assert (u32 (|[block_bytes es rs]| - u64 ((1 + Z.of_nat (length rs)) * 4)) = Z.of_nat (length (body es))) as ->.
  { unfold u64. rewrite (wrap_small 64) by (split; lia). unfold u32. rewrite wrap_small; [lia | split; lia]. }
  unfold Block_NewIterator. cbn [size_ data_ restart_offset_]. unfold NumRestarts, new_Iter. cbn [size_ data_].
  eexists. split; [done |]. cbn [size_ data_ restart_offset_]. rewrite (proj2 (Z.ltb_ge _ 4)) by lia. rewrite assert_bool by (apply Z.leb_le; lia). cbn [mbind option_bind].
  rewrite Enum. cbn [mbind option_bind]. rewrite (proj2 (Z.eqb_neq _ 0)) by lia. rewrite assert_bool by (apply Z.gtb_lt; lia). split; [done |].
  split; [by split |]. split; [done |]. cbn. rewrite off_all by lia. split; [done |]. intros e E%lookup_lt_Some. lia.
Qed.
End Finish.

(** C25. A block is the sorted sequence it was built from.  Keys in increasing order are added to a builder, at any restart
    interval, and the block is finished, compressed or not, and finalized with its trailer and any padding.  From any
    place in a file, [ReadBlock] returns what was built, with its checksum verified or not, and the iterator of the block
    keeps the contract of iterators for exactly the pairs that were added: it seeks to the first pair at or past a
    target, to both ends, and steps both ways.  All this for blocks below 4 GiB. *)
Theorem block_roundtrip {C : Comparator} {valid : Slice -> Prop} `{!OrderOn Compare valid} {F} `{RandomAccessFileLaws F} `{SnappyLaws}
    (ndebug force verify : bool) (interval compression target c : Z) (l : Pairs) :
  sorted_pairs valid l -> Forall (λ p : Slice * Slice, bytes p.1 /\ bytes p.2) l -> total_cost l < 2 ^ 32 ->
  compression = kNoCompression \/ compression = kSnappyCompression ->
  ∃ b raw b1 final b2,
    add_all ndebug (Some C) l (new_BlockBuilder interval) = Some b /\ Finish ndebug compression force b = Some (raw, b1) /\
    Finalize ndebug true target c b1 = Some (final, b2) /\
    ∀ (f : F) pre post, raf_data f = pre ++ final ++ post -> |[raw]| + 5 < 2 ^ 64 ->
      ∃ contents blk it R,
        ReadBlock f verify (MkBlockHandle (|[pre]|) (|[raw]|)) = Some (OK, contents) /\
        new_Block (bc_data contents) = Some blk /\ Block_NewIterator ndebug blk = Some (inl it) /\
        iterates (I := BlockIter) (H := BlockIter_Iterator ndebug) valid R l /\ R (length l) it.
Proof.
  intros Hs Hby Hsz Hc. destruct (add_all_ok ndebug [] l (new_BlockBuilder interval) [] [0%nat]) as (b & es & rs & Eb & Hb & Ep & Hbs & Ecmp).
  { apply new_ok. } { done. } { change (|[block_bytes [] [0%nat]]|) with 8. change (|[ [] ]|) with 0. lia. }
  cbn in Ep. subst l. change (|[block_bytes [] [0%nat]]|) with 8 in Hbs.
  assert (block_ok es rs) as Hok by (split; [apply Hb | lia]).
  destruct (Finish_ok ndebug [] b es rs compression force Hb Ecmp) as (raw & b1 & E1 & Hraw & Ebuf & Est & Ef & Hu & Ht & _);
    [lia | by apply bytes_block | done |].
  destruct (Finalize_ok ndebug [] b1 raw target c Ebuf Est Ef Hraw Ht) as (pad & b2 & E2).
  exists b, raw, b1. do 2 eexists. split; [done |]. split; [done |]. split; [exact E2 |]. intros f pre post Efile Hr.
  rewrite <- app_assoc in Efile. destruct (ReadBlock_stored f verify pre raw _ _ _ Efile Hraw Ht Hr Hu) as (contents & Er & Ec).
  destruct (new_Block_ok ndebug es rs Hok) as (blk & it & Enb & Eit & Hat).
  exists contents, blk, it, (at_item (es := es) (rs := rs)). rewrite Ec. split_and!; try done.
  - by apply block_iterates.
  - unfold pairs. by rewrite length_fmap.
Qed.

#[local] Instance NoSnappy_instance : Snappy := NoSnappy.
#[local] Instance NoSnappy_laws_instance : SnappyLaws := NoSnappy_laws.

Lemma block_roundtrip_witness :
  let l : Pairs := [([97; 98], [1]); ([97; 98; 99], []); ([98], [2; 3])] in
  ∃ b raw b1 final b2,
    add_all false (Some (BytewiseComparator false)) l (new_BlockBuilder 2) = Some b /\ Finish false kNoCompression false b = Some (raw, b1) /\
    Finalize false true 0 0 b1 = Some (final, b2) /\
    ∀ (f : Slice) pre post, raf_data f = pre ++ final ++ post -> |[raw]| + 5 < 2 ^ 64 ->
      ∃ contents blk it R,
        ReadBlock f true (MkBlockHandle (|[pre]|) (|[raw]|)) = Some (OK, contents) /\
        new_Block (bc_data contents) = Some blk /\ Block_NewIterator false blk = Some (inl it) /\
        iterates (C := BytewiseComparator false) (I := BlockIter) (H := BlockIter_Iterator (C := BytewiseComparator false) false) bytes R l /\ R 3%nat it.
Proof.
  intros l. apply (block_roundtrip (C := BytewiseComparator false) (valid := bytes) (F := Slice) false false true 2 kNoCompression 0 0 l).
  - split; [repeat constructor | by_compute].
  - by_compute.
  - reflexivity.
  - by left.
Defined.

(** ** The type of a block that is not compressed *)

(** Run lengths as a compressor: pairs of a byte and a count. *)
Fixpoint rle (s : Slice) : Slice :=
  match s with
  | [] => []
  | x :: s =>
      match rle s with
      | y :: n :: r => if (x =? y) && (n <? 255) then y :: n + 1 :: r else x :: 1 :: y :: n :: r
      | r => x :: 1 :: r
      end
  end.
Fixpoint unrle (c : Slice) : option Slice :=
  match c with
  | [] => Some []
  | x :: n :: c => s ← unrle c; Some (replicate (Z.to_nat n) x ++ s)
  | [_] => None
  end.
Definition RunLengths : Snappy :=
  {| Snappy_Compress s := Some (rle s); Snappy_GetUncompressedLength c := slice_size <$> unrle c; Snappy_Uncompress := unrle |}.

Lemma RunLengths_laws : @SnappyLaws RunLengths.
Proof.
  assert (∀ s, unrle (rle s) = Some s /\ match rle s with _ :: n :: _ => 1 <= n | _ :: [] => False | [] => True end) as Hr.
  { induction s as [| x s [IH Hn]]; [done |]. cbn [rle]. destruct (rle s) as [| y [| n r]]; [| done |].
    - injection IH as <-. done.
    - destruct (Z.eqb_spec x y) as [-> |]; destruct (Z.ltb_spec n 255); cbn [andb]; try (split; [| lia]; cbn [unrle] in *; destruct (unrle r); [| done]; cbn in IH; injection IH as <-; done).
      split; [| lia]. cbn [unrle] in *. destruct (unrle r) as [t |]; [| done]. cbn in *. injection IH as <-.
      replace (Z.to_nat (n + 1)) with (S (Z.to_nat n)) by lia. done. }
  split; cbn.
  - intros s c [= <-]. destruct (Hr s) as [-> _]. done.
  - intros s c Hb [= <-]. induction Hb as [| x s Hx Hb IH]; [constructor |]. cbn [rle]. destruct (Hr s) as [_ Hn].
    destruct (rle s) as [| y [| n r]]; [apply list.Forall_cons; split; [done | apply list.Forall_singleton; by_compute] | done |].
    apply list.Forall_cons in IH as [Hy IH]. apply list.Forall_cons in IH as [Hw IH].
    assert (word 8 1) by by_compute. assert (n < 255 -> word 8 (n + 1)) as Hw1 by (intros; destruct Hw; split; cbn in *; lia).
    destruct (_ =? y); destruct (Z.ltb_spec n 255); cbn [andb]; repeat (apply list.Forall_cons; split); by auto.
Qed.

(** A builder that is used again keeps the type of a block it compressed.  The next block of a compressing builder that
    does not shrink is stored as it is but marked as compressed, and cannot be read. *)
Theorem stale_block_type :
  let _ := RunLengths in
  ('(first, b) ← (b ← Add false None [97] (replicate 100 0) (new_BlockBuilder 16); Finish false kSnappyCompression false b);
   '(raw, b) ← (b ← Add false None [98] [1; 2; 3; 4; 5] (Reset b); Finish false kSnappyCompression false b);
   '(final, b) ← Finalize false true 0 0 b;
   result ← ReadBlock final true (MkBlockHandle 0 (|[raw]|));
   Some result) = Some (Err kCorruption "corrupted compressed block contents", no_contents).
Proof. vm_compute. reflexivity. Qed.
