(* ===== verification/Filter.v ===== *)
(** * Filters ([leveldb/filter_policy.h], [bloom.cc], [internal_types.cc])

    The interface [FilterPolicy] with its contract [FilterPolicyLaws]: a filter answers for every key it was made
    of.  The bloom filter implements it, and so does the policy over internal keys, for any policy over user keys. *)
From S2P Require Import Prelude Hashing Comparator.

(** ** The interface *)

(** [CreateFilter] takes the array of keys with its length, an [int], and gives back the array, which it may change,
    with the extended string. *)
Class FilterPolicy := {
  fp_Name : Slice;
  CreateFilter : list Slice -> Z -> Slice -> option (list Slice * Slice);
  fp_KeyMayMatch : Slice -> Slice -> option bool
}.

(** A filter is appended, and it matches every key that is the same as a key of it. *)
Class FilterPolicyLaws (P : FilterPolicy) (valid : Slice -> Prop) (same : Slice -> Slice -> Prop) := {
  CreateFilter_ok keys dst : Forall valid keys -> Z.of_nat (length keys) < 2 ^ 31 ->
    ∃ keys' filter, CreateFilter keys (Z.of_nat (length keys)) dst = Some (keys', dst ++ filter) /\ bytes filter /\
      (keys <> [] -> |[filter]| <= 2 ^ 32 * Z.of_nat (length keys)) /\
      ∀ k k', k ∈ keys -> same k k' -> fp_KeyMayMatch k' filter = Some true;
  fp_KeyMayMatch_some k filter : valid k -> |[filter]| < 2 ^ 32 -> is_Some (fp_KeyMayMatch k filter)
}.

(** ** The bloom filter *)
Definition BloomHash (key : Slice) : Z := Hash key 0xbc9f1d34.

Record BloomFilterPolicy := MkBloom { bits_per_key_ : Z; k_ : Z }.

(** [static_cast<size_t>(bits_per_key * 0.69)]: the product is below 30 or clamped, and there no multiple of 1/100
    is near an integer but 0; a value of at most -1 does not fit the type. *)
Definition new_BloomFilterPolicy (bits_per_key : Z) : option BloomFilterPolicy :=
  if bits_per_key <=? -2 then None
  else
    let k := Z.quot (bits_per_key * 69) 100 in
    let k := if k <? 1 then 1 else k in
    let k := if k >? 30 then 30 else k in
    Some (MkBloom (u64 bits_per_key) k).

Definition bloom_delta (h : Z) : Z := Z.lor (Z.shiftr h 17) (u32 (Z.shiftl h 15)).

(** [array[bitpos / 8] |= (1 << (bitpos % 8))]. *)
Definition set_bit (array : Slice) (bitpos : Z) : option Slice :=
  c ← array !! Z.to_nat (bitpos / 8);
  Some (<[Z.to_nat (bitpos / 8) := Z.lor c (Z.shiftl 1 (bitpos mod 8))]> array).
Definition get_bit (array : Slice) (bitpos : Z) : option bool :=
  c ← array !! Z.to_nat (bitpos / 8);
  Some (negb (Z.land c (Z.shiftl 1 (bitpos mod 8)) =? 0)).

(** The loop over [j]. *)
Fixpoint add_probes (n : nat) (h delta bits : Z) (array : Slice) : option Slice :=
  match n with
  | O => Some array
  | S n => array ← set_bit array (h mod bits); add_probes n (u32 (h + delta)) delta bits array
  end.
Definition add_key (k bits : Z) (array key : Slice) : option Slice :=
  let h := BloomHash key in add_probes (Z.to_nat k) h (bloom_delta h) bits array.
Fixpoint add_keys (k bits : Z) (keys : list Slice) (array : Slice) : option Slice :=
  match keys with
  | [] => Some array
  | key :: keys => array ← add_key k bits array key; add_keys k bits keys array
  end.

(** A negative [n] is a large one after its conversion, and the loop leaves the array of keys. *)
Definition Bloom_CreateFilter (p : BloomFilterPolicy) (keys : list Slice) (n : Z) (dst : Slice) : option (list Slice * Slice) :=
  let n := u64 n in
  let bits := u64 (n * bits_per_key_ p) in
  let bits := if bits <? 64 then 64 else bits in
  let bytes := u64 (bits + 7) / 8 in
  let bits := u64 (bytes * 8) in
  if Z.of_nat (length keys) <? n then None
  else
    array ← add_keys (k_ p) bits (take (Z.to_nat n) keys) (replicate (Z.to_nat bytes) 0 ++ [u8 (k_ p)]);
    Some (keys, dst ++ array).

Fixpoint check_probes (n : nat) (h delta bits : Z) (array : Slice) : option bool :=
  match n with
  | O => Some true
  | S n => b ← get_bit array (h mod bits); if negb b then Some false else check_probes n (u32 (h + delta)) delta bits array
  end.

(** A byte read as a [char] and converted to [size_t]. *)
Definition char_size (c : Z) : Z := if c <? 128 then c else u64 (c - 256).

Definition Bloom_KeyMayMatch (key bloom_filter : Slice) : option bool :=
  let len := |[bloom_filter]| in
  if len <? 2 then Some false
  else
    let bits := u64 ((len - 1) * 8) in
    c ← bloom_filter !! Z.to_nat (len - 1);
    let k := char_size c in
    if k >? 30 then Some true
    else let h := BloomHash key in check_probes (Z.to_nat k) h (bloom_delta h) bits bloom_filter.

Definition Bloom_FilterPolicy (p : BloomFilterPolicy) : FilterPolicy := {|
  fp_Name := lit "leveldb.BuiltinBloomFilter2";
  CreateFilter := Bloom_CreateFilter p;
  fp_KeyMayMatch := Bloom_KeyMayMatch
|}.

(** ** The policy over internal keys *)
Section Internal.
Context (P : FilterPolicy).

(** The keys of the array become user keys in place. *)
Definition InternalFilter_CreateFilter (keys : list Slice) (n : Z) (dst : Slice) : option (list Slice * Slice) :=
  if Z.of_nat (length keys) <? n then None
  else
    mkey ← mapM ExtractUserKey (take (Z.to_nat n) keys);
    @CreateFilter P (mkey ++ drop (Z.to_nat n) keys) n dst.
Definition InternalFilter_KeyMayMatch (key f : Slice) : option bool :=
  u ← ExtractUserKey key; @fp_KeyMayMatch P u f.
Definition InternalFilterPolicy : FilterPolicy := {|
  fp_Name := @fp_Name P;
  CreateFilter := InternalFilter_CreateFilter;
  fp_KeyMayMatch := InternalFilter_KeyMayMatch
|}.
End Internal.

(** ** The bloom filter keeps the contract *)
Lemma land_bit_testbit c j : 0 <= j -> negb (Z.land c (Z.shiftl 1 j) =? 0) = Z.testbit c j.
Proof.
  intros Hj. rewrite Z.shiftl_1_l. destruct (Z.testbit c j) eqn:E.
  - apply negb_true_iff, Z.eqb_neq. intros H%(f_equal (λ z, Z.testbit z j)).
    by rewrite Z.land_spec, E, Z.pow2_bits_true, Z.bits_0 in H.
  - apply negb_false_iff, Z.eqb_eq, Z.bits_inj'. intros i Hi. rewrite Z.land_spec, Z.bits_0.
    destruct (Z.eq_dec i j) as [-> | Hne]; [by rewrite E |]. by rewrite Z.pow2_bits_false, andb_false_r.
Qed.

Lemma lor_bit_word c j : word 8 c -> 0 <= j < 8 -> word 8 (Z.lor c (Z.shiftl 1 j)).
Proof.
  intros Hc Hj. rewrite Z.shiftl_1_l. unfold word. split; [apply Z.lor_nonneg; split; [apply Hc | lia] |].
  assert (Z.lor c (2 ^ j) = wrap 8 (Z.lor c (2 ^ j))) as ->; [| by apply (wrap_word 8)].
  apply Z.bits_inj'. intros i Hi. rewrite wrap_testbit by lia. destruct (Z.ltb_spec i 8); [done |].
  rewrite Z.lor_spec, Z.pow2_bits_false, orb_false_r by lia. apply (word_testbit 8); [done | lia | lia].
Qed.

Section Bloom.
Variable m : Z.
Local Abbreviation bits := (m * 8).
Implicit Types (a : Slice).

(** The array of [m] bytes with the number of probes behind it. *)
Record filter_array (k : Z) a : Prop := {
  fa_length : |[a]| = m + 1;
  fa_bytes : bytes a;
  fa_last : a !! Z.to_nat m = Some k
}.
Definition grows a a' : Prop := ∀ p, get_bit a p = Some true -> get_bit a' p = Some true.

Lemma set_bit_ok k a p : filter_array k a -> 0 <= p < bits ->
  ∃ a', set_bit a p = Some a' /\ filter_array k a' /\ grows a a' /\ get_bit a' p = Some true.
Proof.
  intros [Hl Hb Hk] Hp. unfold set_bit. assert (0 <= p / 8 < m) as Hd by (split; [apply Z.div_pos; lia | apply Z.div_lt_upper_bound; lia]).
  pose proof (Z.mod_pos_bound p 8 ltac:(lia)) as Hm. unfold slice_size in Hl.
  destruct (lookup_lt_is_Some_2 a (Z.to_nat (p / 8))) as [c Ec]; [lia |]. rewrite Ec. cbn [mbind option_bind].
  eexists. split; [done |]. split_and!.
  - split.
    + unfold slice_size. by rewrite length_insert.
    + apply Forall_insert; [done |]. apply lor_bit_word; [| lia]. by eapply Forall_lookup_1.
    + rewrite list_lookup_insert_ne by lia. done.
  - intros q. unfold get_bit. destruct (decide (Z.to_nat (q / 8) = Z.to_nat (p / 8))) as [E | Hne]; [| by rewrite list_lookup_insert_ne].
    rewrite E, list_lookup_insert_eq, Ec by lia. cbn [mbind option_bind].
    pose proof (Z.mod_pos_bound q 8 ltac:(lia)). rewrite !land_bit_testbit, Z.lor_spec by lia. intros [= ->]. done.
  - unfold get_bit. rewrite list_lookup_insert_eq by lia. cbn [mbind option_bind].
    rewrite land_bit_testbit, Z.lor_spec, Z.shiftl_1_l, Z.pow2_bits_true by lia. by rewrite orb_true_r.
Qed.

Lemma check_probes_grows n h d b a a' : grows a a' -> check_probes n h d b a = Some true -> check_probes n h d b a' = Some true.
Proof.
  intros Hg. revert h. induction n as [| n IH]; intros h; [done |]. cbn [check_probes].
  destruct (get_bit a (h mod b)) as [[] |] eqn:E; [| done..]. rewrite (Hg _ E). cbn. apply IH.
Qed.

Hypothesis Hm : 0 < m.

Lemma add_probes_ok k n h d a : filter_array k a ->
  ∃ a', add_probes n h d bits a = Some a' /\ filter_array k a' /\ grows a a' /\ check_probes n h d bits a' = Some true.
Proof.
  revert h a. induction n as [| n IH]; intros h a Ha; [exists a; split_and!; [done | done | by intros ?? | done] |]. cbn [add_probes check_probes].
  destruct (set_bit_ok k a (h mod bits)) as (a1 & -> & Ha1 & Hg1 & Hp); [done | apply Z.mod_pos_bound; lia |]. cbn [mbind option_bind].
  destruct (IH (u32 (h + d)) a1 Ha1) as (a2 & -> & Ha2 & Hg2 & Hc). exists a2. split_and!; [done | done | |].
  - intros p ?. by apply Hg2, Hg1.
  - by rewrite (Hg2 _ Hp).
Qed.

Lemma add_keys_ok k keys a : filter_array k a ->
  ∃ a', add_keys k bits keys a = Some a' /\ filter_array k a' /\ grows a a' /\
    ∀ key, key ∈ keys -> check_probes (Z.to_nat k) (BloomHash key) (bloom_delta (BloomHash key)) bits a' = Some true.
Proof.
  revert a. induction keys as [| key keys IH]; intros a Ha.
  - exists a. split_and!; [done | done | by intros ?? |]. intros key Hkey. by apply not_elem_of_nil in Hkey.
  - cbn [add_keys]. unfold add_key.
    destruct (add_probes_ok k (Z.to_nat k) (BloomHash key) (bloom_delta (BloomHash key)) a Ha) as (a1 & -> & Ha1 & Hg1 & Hc).
    cbn [mbind option_bind]. destruct (IH a1 Ha1) as (a2 & -> & Ha2 & Hg2 & Hks). exists a2. split_and!; [done | done | |].
    + intros p ?. by apply Hg2, Hg1.
    + intros key' [-> | Hin]%elem_of_cons; [by eapply check_probes_grows | by apply Hks].
Qed.

Lemma check_probes_some n h d a : |[a]| = m + 1 -> is_Some (check_probes n h d bits a).
Proof.
  intros Hl. revert h. induction n as [| n IH]; intros h; cbn [check_probes]; [by eexists |].
  pose proof (Z.mod_pos_bound h bits ltac:(lia)) as Hp. unfold get_bit, slice_size in *.
  assert (0 <= h mod bits / 8 < m) as Hd by (split; [apply Z.div_pos; lia | apply Z.div_lt_upper_bound; lia]).
  destruct (lookup_lt_is_Some_2 a (Z.to_nat (h mod bits / 8))) as [c ->]; [lia |]. cbn [mbind option_bind].
  destruct (negb _); cbn; [by eexists | apply IH].
Qed.
End Bloom.

#[global] Instance Bloom_laws b p : new_BloomFilterPolicy b = Some p -> 0 <= b < 2 ^ 31 ->
  FilterPolicyLaws (Bloom_FilterPolicy p) (λ _, True) eq.
Proof.
  intros Hp Hb. unfold new_BloomFilterPolicy in Hp. destruct (Z.leb_spec b (-2)); [done |]. injection Hp as <-.
  set (k := if _ >? 30 then _ else _). assert (1 <= k <= 30) as Hk.
  { unfold k. destruct (Z.ltb_spec (Z.quot (b * 69) 100) 1); [by cbn |]. destruct (_ >? 30) eqn:E; [done |]. rewrite Z.gtb_ltb, Z.ltb_ge in E. lia. }
  clearbody k. split; cbn [CreateFilter fp_KeyMayMatch Bloom_FilterPolicy].
  - intros keys dst _ Hn. unfold Bloom_CreateFilter. cbn [bits_per_key_ k_].
    set (n := Z.of_nat (length keys)) in *. assert (0 <= n) as Hn0 by lia.
    assert (u64 n = n) as -> by (apply wrap_small; split; lia). assert (u64 b = b) as -> by (apply wrap_small; split; lia).
    assert (0 <= n * b < 2 ^ 31 * 2 ^ 31) as Hnb by nia.
    assert (u64 (n * b) = n * b) as -> by (apply wrap_small; split; lia).
    set (bits := if n * b <? 64 then 64 else n * b). assert (64 <= bits < 2 ^ 62) as Hbits.
    { unfold bits. destruct (Z.ltb_spec (n * b) 64); [by cbn | lia]. }
    assert (bits <= 64 + n * 2 ^ 31) as Hbits2 by (unfold bits; destruct (Z.ltb_spec (n * b) 64); nia).
    clearbody bits. assert (u64 (bits + 7) = bits + 7) as -> by (apply wrap_small; split; lia).
    pose proof (Z.div_mod (bits + 7) 8 ltac:(lia)) as Hdiv. pose proof (Z.mod_pos_bound (bits + 7) 8 ltac:(lia)) as Hmod.
    set (m := (bits + 7) / 8) in *. assert (8 <= m < 2 ^ 60) as Hm by lia. clearbody m.
    assert (u64 (m * 8) = m * 8) as -> by (apply wrap_small; split; lia).
    rewrite (proj2 (Z.ltb_ge n n)) by lia. unfold n. rewrite Nat2Z.id, firstn_all.
    assert (u8 k = k) as -> by (apply wrap_small; split; [lia | change (2 ^ 8) with 256; lia]).
    assert (filter_array m k (replicate (Z.to_nat m) 0 ++ [k])) as Ha.
    { split.
      - rewrite slice_size_app. unfold slice_size. rewrite length_replicate. cbn [length]. lia.
      - apply Forall_app. split; [by apply Forall_replicate | constructor; [split; [lia | change (2 ^ 8) with 256; lia] | constructor]].
      - rewrite lookup_app_r; rewrite length_replicate; [by rewrite Nat.sub_diag | lia]. }
    destruct (add_keys_ok m ltac:(lia) k keys _ Ha) as (a & -> & [Hl Hby Hlast] & _ & Hks). cbn [mbind option_bind].
    exists keys, a. split; [done |]. split; [done |]. split; [intros Hne; rewrite Hl; assert (0 < n) by (destruct keys; [done | unfold n; cbn; lia]); fold n; lia |].
    intros key ? Hin <-. unfold Bloom_KeyMayMatch. rewrite Hl.
    rewrite (proj2 (Z.ltb_ge (m + 1) 2)) by lia. replace (m + 1 - 1) with m by lia.
    assert (u64 (m * 8) = m * 8) as -> by (apply wrap_small; split; lia). rewrite Hlast. cbn [mbind option_bind].
    unfold char_size. rewrite (proj2 (Z.ltb_lt k 128)) by lia. rewrite Z.gtb_ltb, (proj2 (Z.ltb_ge 30 k)) by lia. by apply Hks.
  - intros key f _ Hf. unfold Bloom_KeyMayMatch. destruct (Z.ltb_spec (|[f]|) 2); [by eexists |].
    assert (u64 ((|[f]| - 1) * 8) = (|[f]| - 1) * 8) as -> by (apply wrap_small; split; lia).
    destruct (lookup_lt_is_Some_2 f (Z.to_nat (|[f]| - 1))) as [c ->]; [unfold slice_size in *; lia |]. cbn [mbind option_bind].
    destruct (_ >? 30); [by eexists |]. apply check_probes_some; lia.
Qed.

(** ** The policy over internal keys keeps the contract *)
#[global] Instance InternalFilter_laws P (valid : Slice -> Prop) same : FilterPolicyLaws P valid same ->
  FilterPolicyLaws (InternalFilterPolicy P) (valid_ikey valid) (λ k k', ∃ u n u' n', k = ikey u n /\ k' = ikey u' n' /\ same u u').
Proof.
  intros [Hc Hs]. split; cbn [CreateFilter fp_KeyMayMatch InternalFilterPolicy].
  - intros keys dst Hv Hn. unfold InternalFilter_CreateFilter. rewrite (proj2 (Z.ltb_ge _ _)) by lia.
    rewrite Nat2Z.id, firstn_all, drop_ge by lia.
    assert (∃ us, mapM ExtractUserKey keys = Some us /\ Forall valid us /\ length us = length keys /\ ∀ u n, ikey u n ∈ keys -> u ∈ us) as (us & -> & Hus & Hlen & Hin).
    { clear Hn. induction Hv as [| k keys (u & n & -> & Hu & Hn) Hv (us & E & Hus & Hl & Hin)].
      - exists []. split_and!; [done.. |]. intros u n Hu. by apply not_elem_of_nil in Hu.
      - exists (u :: us). cbn. rewrite ExtractUserKey_ikey. cbn. rewrite E. split_and!; [done | by constructor | by rewrite Hl |].
        intros u' n' [E' | Hi]%elem_of_cons; [| right; by eapply Hin].
        apply (f_equal ExtractUserKey) in E'. rewrite !ExtractUserKey_ikey in E'. injection E' as ->. left. }
    cbn [mbind option_bind]. rewrite app_nil_r, <- Hlen. destruct (Hc us dst Hus) as (keys' & filter & E & Hb & Hsz & Hm); [lia |].
    exists keys', filter. split; [done |]. split; [done |]. split; [intros Hne; apply Hsz; intros ->; by destruct keys |]. intros ? ? Hk (u & n & u' & n' & -> & -> & Hsame).
    unfold InternalFilter_KeyMayMatch. rewrite ExtractUserKey_ikey. cbn [mbind option_bind]. eapply Hm; [by eapply Hin | done].
  - intros ? f (u & n & -> & Hu & _) Hf. unfold InternalFilter_KeyMayMatch. rewrite ExtractUserKey_ikey. cbn. by apply Hs.
Qed.
