(* ===== verification/FilterBlock.v ===== *)
(** * Filter blocks ([leveldb/filter_block.h], [filter_block.cc])

    The builder, which makes one filter for each 2 KB of block offsets, and the reader; and that no key of a block is
    ever reported absent from it. *)
From S2P Require Import Prelude Coding Hashing Comparator Filter.

Definition kFilterBaseLg : Z := 11.
Definition kFilterBase : Z := Z.shiftl 1 kFilterBaseLg.

(** [tmp_keys_] is empty between the operations. *)
Record FilterBlockBuilder := MkFilterBuilder {
  keys_ : Slice;
  start_ : list Z;
  result_ : Slice;
  filter_offsets_ : list Z
}.
Definition new_FilterBlockBuilder : FilterBlockBuilder := MkFilterBuilder [] [] [] [].

(** The pointers [data_] and [offset_] as the contents and an offset. *)
Record FilterBlockReader := MkFilterReader { fr_data : Slice; fr_offset : Z; fr_num : Z; fr_base_lg : Z }.

Section Operations.
Context (P : FilterPolicy) (ndebug : bool).
Implicit Types (b : FilterBlockBuilder).

Definition GenerateFilter b : option FilterBlockBuilder :=
  let num_keys := length (start_ b) in
  if decide (num_keys = 0%nat) then Some (MkFilterBuilder (keys_ b) (start_ b) (result_ b) (filter_offsets_ b ++ [u32 (|[result_ b]|)]))
  else
    let start := start_ b ++ [|[keys_ b]|] in
    tmp_keys ← mapM (λ i, base ← start !! i; next ← start !! S i;
                        Some (take (Z.to_nat (u64 (next - base))) (drop (Z.to_nat base) (keys_ b)))) (seq 0 num_keys);
    let offsets := filter_offsets_ b ++ [u32 (|[result_ b]|)] in
    r ← CreateFilter tmp_keys (wrap 32 (Z.of_nat num_keys + 2 ^ 31) - 2 ^ 31) (result_ b);
    Some (MkFilterBuilder [] [] r.2 offsets).

Fixpoint StartBlock_loop (fuel : nat) (filter_index : Z) b : option FilterBlockBuilder :=
  if filter_index >? Z.of_nat (length (filter_offsets_ b)) then
    match fuel with
    | O => None
    | S fuel => b ← GenerateFilter b; StartBlock_loop fuel filter_index b
    end
  else Some b.
(** An iteration adds one offset. *)
Definition StartBlock (block_offset : Z) b : option FilterBlockBuilder :=
  let filter_index := block_offset / kFilterBase in
  _ ← assert_ ndebug (Z.of_nat (length (filter_offsets_ b)) <=? filter_index);
  StartBlock_loop (Z.to_nat filter_index) filter_index b.

Definition AddKey (key : Slice) b : FilterBlockBuilder :=
  MkFilterBuilder (keys_ b ++ key) (start_ b ++ [|[keys_ b]|]) (result_ b) (filter_offsets_ b).

Definition FilterBlock_Finish b : option (Slice * FilterBlockBuilder) :=
  b ← (if decide (start_ b = []) then Some b else GenerateFilter b);
  let array_offset := u32 (|[result_ b]|) in
  let result := foldl PutFixed32 (result_ b) (filter_offsets_ b) in
  let result := PutFixed32 result array_offset ++ [u8 kFilterBaseLg] in
  Some (result, MkFilterBuilder (keys_ b) (start_ b) result (filter_offsets_ b)).

(** [DecodeFixed32] at an offset of the contents, which it never passes. *)
Definition new_FilterBlockReader (contents : Slice) : option FilterBlockReader :=
  let n := |[contents]| in
  if n <? 5 then Some (MkFilterReader [] 0 0 0)
  else
    c ← contents !! Z.to_nat (n - 1);
    let base_lg := char_size c in
    last_word ← DecodeFixed32 (drop (Z.to_nat (n - 5)) contents);
    if last_word >? n - 5 then Some (MkFilterReader [] 0 0 base_lg)
    else Some (MkFilterReader contents last_word ((n - 5 - last_word) / 4) base_lg).

(** A shift by 64 or more is undefined. *)
Definition FilterBlock_KeyMayMatch (r : FilterBlockReader) (block_offset : Z) (key : Slice) : option bool :=
  _ ← assert_ false (fr_base_lg r <? 64);
  let index := Z.shiftr block_offset (fr_base_lg r) in
  if index <? fr_num r then
    start ← DecodeFixed32 (drop (Z.to_nat (fr_offset r + index * 4)) (fr_data r));
    limit ← DecodeFixed32 (drop (Z.to_nat (fr_offset r + index * 4 + 4)) (fr_data r));
    if (start <=? limit) && (limit <=? fr_offset r) then
      fp_KeyMayMatch key (take (Z.to_nat (limit - start)) (drop (Z.to_nat start) (fr_data r)))
    else if start =? limit then Some false
    else Some true
  else Some true.

(** The calls of a table builder: a block starts at an offset, then its keys are added. *)
Fixpoint add_blocks (blocks : list (Z * list Slice)) b : option FilterBlockBuilder :=
  match blocks with
  | [] => Some b
  | (off, keys) :: blocks => b ← StartBlock off b; add_blocks blocks (foldl (λ b k, AddKey k b) b keys)
  end.
End Operations.

(** ** Concatenated pieces and where they start *)
Definition offsets (l : list Slice) : list Z := (λ i, |[concat (take i l)]|) <$> seq 0 (length l).

Lemma length_offsets l : length (offsets l) = length l.
Proof. unfold offsets. by rewrite length_fmap, length_seq. Qed.
Lemma offsets_lookup l i : (i < length l)%nat -> offsets l !! i = Some (|[concat (take i l)]|).
Proof. intros Hi. unfold offsets. rewrite list_lookup_fmap, lookup_seq_lt by done. done. Qed.
Lemma offsets_snoc l x : offsets (l ++ [x]) = offsets l ++ [|[concat l]|].
Proof.
  unfold offsets. rewrite length_app. cbn [length]. rewrite seq_app, fmap_app. f_equal.
  - apply list_fmap_ext. intros i j Hj. apply lookup_seq in Hj as [-> Hi]. cbn. by rewrite take_app_le by lia.
  - cbn. by rewrite take_app_length.
Qed.
Lemma offsets_next l i : (i < length l)%nat -> (offsets l ++ [|[concat l]|]) !! S i = Some (|[concat (take (S i) l)]|).
Proof.
  intros Hi. rewrite <- (offsets_snoc l []), offsets_lookup by (rewrite length_app; cbn; lia). by rewrite take_app_le by lia.
Qed.
Lemma concat_slice (l : list Slice) i x tl : l !! i = Some x ->
  take (Z.to_nat (|[concat (take (S i) l)]| - |[concat (take i l)]|)) (drop (Z.to_nat (|[concat (take i l)]|)) (concat l ++ tl)) = x.
Proof.
  intros E. rewrite (take_S_r l i x E), concat_app, slice_size_app. cbn [concat]. rewrite app_nil_r.
  replace (_ + _ - _) with (|[x]|) by lia. rewrite <- (take_drop_middle l i x E) at 2.
  rewrite concat_app. cbn [concat]. rewrite <- !app_assoc, drop_slice_size, take_slice_size. done.
Qed.

(** An array of fixed integers read at an index. *)
Lemma size_fixed32_array l : |[concat (EncodeFixed32 <$> l)]| = 4 * Z.of_nat (length l).
Proof.
  induction l as [| v l IH]; [done |]. cbn [fmap list_fmap concat]. rewrite slice_size_app. change (list_fmap _ _ EncodeFixed32 l) with (EncodeFixed32 <$> l).
  rewrite IH. unfold slice_size. rewrite length_EncodeFixed32. cbn [length]. lia.
Qed.
Lemma fixed32_at l i v pre tl : l !! i = Some v ->
  DecodeFixed32 (drop (Z.to_nat (|[pre]| + 4 * Z.of_nat i)) (pre ++ concat (EncodeFixed32 <$> l) ++ tl)) = Some (u32 v).
Proof.
  intros E. rewrite <- (take_drop_middle l i v E), fmap_app, concat_app, fmap_cons. cbn [concat].
  pose proof (size_fixed32_array (take i l)) as Hl. rewrite length_take in Hl. pose proof (lookup_lt_Some _ _ _ E).
  replace (|[pre]| + 4 * Z.of_nat i) with (|[pre ++ concat (EncodeFixed32 <$> take i l)]|) by (rewrite slice_size_app, Hl; lia).
  rewrite <- !app_assoc, (app_assoc pre), drop_slice_size. apply DecodeFixed32_wrap.
Qed.

(** ** What a builder holds *)
Section Facts.
Context {P : FilterPolicy} {valid : Slice -> Prop} {same : Slice -> Slice -> Prop} `{!FilterPolicyLaws P valid same} (ndebug : bool).
Implicit Types (b : FilterBlockBuilder) (groups : list (list Slice)) (cur : list Slice) (fs : list Slice).

(** A filter answers for its keys. *)
Definition covers (keys : list Slice) (filter : Slice) : Prop := ∀ k k', k ∈ keys -> same k k' -> fp_KeyMayMatch k' filter = Some true.

(** Groups of keys that are done with their filters, and the keys of the group that is open. *)
Record builder_has groups fs cur b : Prop := {
  fh_covers : Forall2 covers groups fs;
  fh_result : result_ b = concat fs;
  fh_size : |[concat fs]| <= 2 ^ 32 * Z.of_nat (length (concat groups));
  fh_bytes : bytes (concat fs);
  fh_offsets : filter_offsets_ b = u32 <$> offsets fs;
  fh_keys : keys_ b = concat cur;
  fh_start : start_ b = offsets cur;
  fh_valid : Forall valid cur
}.

Lemma new_has : builder_has [] [] [] new_FilterBlockBuilder.
Proof. split; try done; by constructor. Qed.

Lemma AddKey_has groups fs cur b k : builder_has groups fs cur b -> valid k -> builder_has groups fs (cur ++ [k]) (AddKey k b).
Proof.
  intros [? ? ? ? ? Hk Hs Hv] Hvk. split; cbn; [done.. | | |].
  - rewrite Hk, concat_app. cbn. by rewrite app_nil_r.
  - by rewrite Hs, Hk, offsets_snoc.
  - apply list.Forall_app. split; [done | by constructor].
Qed.

(** The list of keys is made again from the flat string. *)
Lemma tmp_keys_ok cur : |[concat cur]| < 2 ^ 64 ->
  mapM (λ i, base ← (offsets cur ++ [|[concat cur]|]) !! i; next ← (offsets cur ++ [|[concat cur]|]) !! S i;
    Some (take (Z.to_nat (u64 (next - base))) (drop (Z.to_nat base) (concat cur)))) (seq 0 (length cur)) = Some cur.
Proof.
  intros Hsz. apply mapM_Some. apply Forall2_same_length_lookup. split; [by rewrite length_seq |].
  intros i j k Hj Hk. apply lookup_seq in Hj as [-> Hi]. cbn [Nat.add]. rewrite offsets_next by done.
  rewrite lookup_app_l by (by rewrite length_offsets). rewrite offsets_lookup by done. cbn [mbind option_bind].
  pose proof (take_S_r cur i k Hk) as ES. pose proof (concat_slice cur i k [] Hk) as E. rewrite app_nil_r in E.
  assert (|[concat (take (S i) cur)]| = |[concat (take i cur)]| + |[k]|) as El.
  { rewrite ES, concat_app, slice_size_app. cbn. by rewrite app_nil_r. }
  assert (u64 (|[concat (take (S i) cur)]| - |[concat (take i cur)]|) = |[concat (take (S i) cur)]| - |[concat (take i cur)]|) as ->; [| by rewrite E].
  apply wrap_small. rewrite El. pose proof (slice_size_nonneg k). pose proof (slice_size_nonneg (concat (take i cur))).
  assert (|[concat cur]| = |[concat (take (S i) cur)]| + |[concat (drop (S i) cur)]|) as Et.
  { rewrite <- slice_size_app, <- concat_app, take_drop. done. }
  pose proof (slice_size_nonneg (concat (drop (S i) cur))). split; lia.
Qed.

Lemma GenerateFilter_has groups fs cur b : builder_has groups fs cur b ->
  |[concat cur]| < 2 ^ 64 -> Z.of_nat (length cur) < 2 ^ 31 ->
  ∃ f b', GenerateFilter P b = Some b' /\ builder_has (groups ++ [cur]) (fs ++ [f]) [] b'.
Proof.
  intros [Hc Hr Hrs Hrb Ho Hk Hs Hv] Hsz Hn. unfold GenerateFilter. rewrite Hs, length_offsets. case_decide as Hz.
  - apply length_zero_iff_nil in Hz as ->. exists [], (MkFilterBuilder (keys_ b) (offsets []) (result_ b) (filter_offsets_ b ++ [u32 (|[result_ b]|)])).
    split; [done |]. split; cbn; try done.
    + apply Forall2_app; [done |]. constructor; [| done]. intros k k' Hin. by apply not_elem_of_nil in Hin.
    + rewrite Hr, concat_app. cbn. by rewrite app_nil_r.
    + rewrite !concat_app, slice_size_app. cbn [concat]. rewrite !app_nil_r. change (|[ [] ]|) with 0. lia.
    + rewrite concat_app. apply Forall_app. by split.
    + by rewrite Ho, offsets_snoc, fmap_app, Hr.
  - rewrite Hk, tmp_keys_ok by done. cbn [mbind option_bind].
    destruct (CreateFilter_ok (P := P) cur (result_ b) Hv Hn) as (keys' & f & E & Hb & Hfs & Hm).
    assert (wrap 32 (Z.of_nat (length cur) + 2 ^ 31) - 2 ^ 31 = Z.of_nat (length cur)) as -> by (unfold wrap; rewrite Z.mod_small; lia).
    rewrite E. cbn [mbind option_bind snd]. eexists f, _. split; [done |]. split; cbn; try done.
    + apply Forall2_app; [done |]. by constructor.
    + rewrite Hr, concat_app. cbn. by rewrite app_nil_r.
    + rewrite !concat_app, slice_size_app, length_app. cbn [concat]. rewrite !app_nil_r. specialize (Hfs ltac:(intros ->; by apply Hz)). lia.
    + rewrite concat_app. cbn [concat]. rewrite app_nil_r. apply Forall_app. by split.
    + by rewrite Ho, offsets_snoc, fmap_app, Hr.
Qed.

Lemma StartBlock_loop_has fuel idx : ∀ groups fs cur b, builder_has groups fs cur b ->
  |[concat cur]| < 2 ^ 64 -> Z.of_nat (length cur) < 2 ^ 31 -> Z.of_nat (length groups) <= idx -> idx <= Z.of_nat (length groups + fuel) ->
  ∃ more cur' fs' b', StartBlock_loop P fuel idx b = Some b' /\ builder_has (groups ++ more) fs' cur' b' /\
    Z.of_nat (length (groups ++ more)) = idx /\ concat more ++ cur' = cur /\ (more = [] /\ cur' = cur \/ cur' = [] /\ ∃ more', more = cur :: more').
Proof.
  induction fuel as [| fuel IH]; intros groups fs cur b Hb Hsz Hn Hle Hf; cbn [StartBlock_loop]; rewrite (fh_offsets _ _ _ _ Hb), length_fmap, length_offsets;
    pose proof (list.Forall2_length _ _ _ (fh_covers _ _ _ _ Hb)) as Hlen.
  - rewrite Z.gtb_ltb, (proj2 (Z.ltb_ge _ _)) by lia. exists [], cur, fs, b. rewrite app_nil_r. split_and!; [done | done | lia | done | by left].
  - rewrite Z.gtb_ltb. destruct (Z.ltb_spec (Z.of_nat (length fs)) idx) as [Hlt | Hge].
    + destruct (GenerateFilter_has _ _ _ _ Hb Hsz Hn) as (f & b1 & -> & Hb1). cbn [mbind option_bind].
      destruct (IH _ _ _ _ Hb1) as (more & cur' & fs' & b' & -> & Hb' & Hl & Hcat & Hmore); [by_compute | by_compute | rewrite length_app; cbn; lia.. |].
      rewrite <- app_assoc in Hb', Hl. exists (cur :: more), cur', fs', b'. split_and!; [done | done | done | cbn [concat]; by rewrite <- app_assoc, Hcat, app_nil_r |].
      right. split; [by destruct Hmore as [[_ ->] | [-> _]] | by exists more].
    + exists [], cur, fs, b. rewrite app_nil_r. split_and!; [done | done | lia | done | by left].
Qed.

Lemma AddKeys_has groups fs keys : ∀ cur b, builder_has groups fs cur b -> Forall valid keys ->
  builder_has groups fs (cur ++ keys) (foldl (λ b k, AddKey k b) b keys).
Proof.
  induction keys as [| k keys IH]; intros cur b Hb Hv; [by rewrite app_nil_r |]. apply list.Forall_cons in Hv as [Hk Hv].
  cbn [foldl]. replace (cur ++ k :: keys) with ((cur ++ [k]) ++ keys) by by rewrite <- app_assoc. by apply IH; [apply AddKey_has |].
Qed.

(** Where the keys of the blocks so far are. *)
Definition recorded (seen : list (Z * list Slice)) groups cur : Prop :=
  ∀ off keys k, (off, keys) ∈ seen -> k ∈ keys -> ∃ K, (groups ++ [cur]) !! Z.to_nat (off / kFilterBase) = Some K /\ k ∈ K.

Fixpoint ascending (lo : Z) (blocks : list (Z * list Slice)) : Prop :=
  match blocks with [] => True | (off, _) :: blocks => lo <= off /\ ascending off blocks end.
Definition all_keys (blocks : list (Z * list Slice)) : list Slice := concat blocks.*2.

Lemma add_blocks_has blocks : ∀ seen lo groups fs cur b, builder_has groups fs cur b -> recorded seen groups cur ->
  0 <= lo -> ascending lo blocks -> Z.of_nat (length groups) <= lo / kFilterBase -> Forall valid (all_keys blocks) ->
  |[concat (cur ++ all_keys blocks)]| < 2 ^ 64 -> Z.of_nat (length (cur ++ all_keys blocks)) < 2 ^ 31 ->
  ∀ hi, (∀ p, p ∈ blocks -> p.1 <= hi) -> Z.of_nat (length groups) <= hi / kFilterBase ->
  ∃ groups' fs' cur' b', add_blocks P ndebug blocks b = Some b' /\ builder_has groups' fs' cur' b' /\ recorded (seen ++ blocks) groups' cur' /\
    |[concat cur']| < 2 ^ 64 /\ Z.of_nat (length cur') < 2 ^ 31 /\
    concat groups' ++ cur' = concat groups ++ cur ++ all_keys blocks /\ Z.of_nat (length groups') <= hi / kFilterBase.
Proof.
  induction blocks as [| [off keys] blocks IH]; intros seen lo groups fs cur b Hb Hrec Hlo Has Hg Hv Hsz Hn hi Hhi Hghi; cbn [add_blocks].
  { unfold all_keys in *. cbn in Hsz, Hn. cbn [fmap list_fmap concat] in *. rewrite app_nil_r in Hsz, Hn. exists groups, fs, cur, b. rewrite !app_nil_r. split_and!; done. }
  destruct Has as [Hoff Has]. unfold all_keys in Hv, Hsz, Hn. cbn [fmap list_fmap concat snd] in Hv, Hsz, Hn. fold (all_keys blocks) in Hv, Hsz, Hn.
  apply list.Forall_app in Hv as [Hvk Hv]. rewrite !concat_app, !slice_size_app in Hsz. rewrite !length_app in Hn.
  pose proof (slice_size_nonneg (concat keys)). pose proof (slice_size_nonneg (concat (all_keys blocks))). pose proof (slice_size_nonneg (concat cur)).
  assert (lo / kFilterBase <= off / kFilterBase) as Hidx by (apply Z.div_le_mono; [by cbn | done]).
  unfold StartBlock. pose proof (list.Forall2_length _ _ _ (fh_covers _ _ _ _ Hb)) as Hlen.
  rewrite assert_bool by (apply Z.leb_le; rewrite (fh_offsets _ _ _ _ Hb), length_fmap, length_offsets; lia). cbn [mbind option_bind].
  destruct (StartBlock_loop_has (Z.to_nat (off / kFilterBase)) (off / kFilterBase) _ _ _ _ Hb) as (more & cur1 & fs1 & b1 & -> & Hb1 & Hl1 & Hcat & Hmore); [lia.. |].
  cbn [mbind option_bind]. pose proof (AddKeys_has _ _ keys _ _ Hb1 Hvk) as Hb2.
  assert (|[concat cur1]| <= |[concat cur]| /\ (length cur1 <= length cur)%nat) as [Hc1 Hc2].
  { destruct Hmore as [[_ ->] | [-> _]]; [lia | split; [done | cbn [length]; lia]]. }
  edestruct (IH (seen ++ [(off, keys)]) off _ _ _ _ Hb2) as (groups' & fs' & cur' & b' & -> & Hb' & Hrec' & Hsz' & Hn' & Hcat' & Hl'); [| lia | done | lia | done | | | | |].
  - intros off' keys' k Hin Hk. apply elem_of_app in Hin as [Hin | Hin].
    + destruct (Hrec off' keys' k Hin Hk) as (K & EK & HkK). destruct Hmore as [[-> ->] | [-> (more' & ->)]].
      * rewrite app_nil_r. apply lookup_app_Some in EK as [EK | [Hge EK]].
        -- exists K. by rewrite lookup_app_l by by eapply lookup_lt_Some.
        -- exists (cur ++ keys). rewrite lookup_app_r by done. destruct (Z.to_nat (off' / kFilterBase) - length groups)%nat as [| n]; [| by destruct n].
           injection EK as <-. split; [done |]. apply elem_of_app. by left.
      * exists K. split; [| done]. rewrite <- EK. replace (groups ++ cur :: more') with ((groups ++ [cur]) ++ more') by by rewrite <- app_assoc.
        rewrite <- app_assoc. apply lookup_app_l. by eapply lookup_lt_Some.
    + apply list_elem_of_singleton in Hin. injection Hin as -> ->. exists (cur1 ++ keys).
      rewrite lookup_app_r by lia. replace (Z.to_nat (off / kFilterBase) - length (groups ++ more))%nat with 0%nat by lia.
      split; [done |]. apply elem_of_app. by right.
  - rewrite !concat_app, !slice_size_app. lia.
  - rewrite !length_app. lia.
  - intros q Hq. apply Hhi. by right.
  - rewrite Hl1. apply Z.div_le_mono; [by cbn |]. apply (Hhi (off, keys)). left.
  - exists groups', fs', cur', b'. split_and!; try done; [by rewrite <- app_assoc in Hrec' |].
    rewrite Hcat', concat_app, <- Hcat. unfold all_keys. cbn [fmap list_fmap concat snd]. by rewrite <- !app_assoc.
Qed.

(** The block that [Finish] makes. *)
Definition filter_bytes (fs : list Slice) : Slice :=
  concat fs ++ concat (EncodeFixed32 <$> (u32 <$> (offsets fs ++ [|[concat fs]|]))) ++ [u8 kFilterBaseLg].

Lemma FilterBlock_Finish_has groups fs cur b : builder_has groups fs cur b -> |[concat cur]| < 2 ^ 64 -> Z.of_nat (length cur) < 2 ^ 31 ->
  ∃ groups' fs' b', FilterBlock_Finish P b = Some (filter_bytes fs', b') /\ Forall2 covers groups' fs' /\
    bytes (filter_bytes fs') /\ |[filter_bytes fs']| <= 2 ^ 32 * Z.of_nat (length (concat groups ++ cur)) + 4 * (Z.of_nat (length groups) + 2) + 5 /\
    ∀ i K k, (groups ++ [cur]) !! i = Some K -> k ∈ K -> groups' !! i = Some K.
Proof.
  intros Hb Hsz Hn. unfold FilterBlock_Finish. rewrite (fh_start _ _ _ _ Hb).
  assert (∀ groups fs cur b, builder_has groups fs cur b -> PutFixed32 (foldl PutFixed32 (result_ b) (filter_offsets_ b)) (u32 (|[result_ b]|)) ++ [u8 kFilterBaseLg] = filter_bytes fs) as Hbytes.
  { clear. intros groups fs cur b Hb. rewrite (fh_result _ _ _ _ Hb), (fh_offsets _ _ _ _ Hb), foldl_PutFixed32. unfold PutFixed32, filter_bytes.
    rewrite !fmap_app, concat_app. cbn [fmap list_fmap concat]. by rewrite app_nil_r, <- !app_assoc. }
  assert (∀ groups fs cur b, builder_has groups fs cur b -> |[filter_bytes fs]| <= 2 ^ 32 * Z.of_nat (length (concat groups)) + 4 * (Z.of_nat (length groups) + 1) + 5) as Hsize.
  { clear. intros groups fs cur b Hb. unfold filter_bytes. rewrite !slice_size_app, size_fixed32_array, length_fmap, length_app, length_offsets.
    rewrite (list.Forall2_length _ _ _ (fh_covers _ _ _ _ Hb)). pose proof (fh_size _ _ _ _ Hb). cbn [length]. change (|[ [u8 kFilterBaseLg] ]|) with 1. lia. }
  assert (∀ groups fs cur b, builder_has groups fs cur b -> bytes (filter_bytes fs)) as Hby.
  { clear. intros groups fs cur b Hb. unfold filter_bytes, bytes. rewrite !Forall_app. split_and!; [apply (fh_bytes _ _ _ _ Hb) | | apply list.Forall_singleton; by_compute].
    induction (u32 <$> (offsets fs ++ [|[concat fs]|])) as [| v l IH]; [constructor |]. cbn [fmap list_fmap concat]. apply Forall_app. split; [apply bytes_EncodeFixed32 | done]. }
  case_decide as Hcur.
  - cbn [mbind option_bind]. rewrite (Hbytes _ _ _ _ Hb). do 3 eexists. split; [done |]. split; [apply (fh_covers _ _ _ _ Hb) |]. split; [by eapply Hby |].
    split; [rewrite length_app; specialize (Hsize _ _ _ _ Hb); lia |].
    assert (cur = []) as -> by (apply (f_equal length) in Hcur; rewrite length_offsets in Hcur; by apply length_zero_iff_nil).
    intros i K k E Hk. apply lookup_app_Some in E as [E | [Hge E]]; [done |].
    destruct (i - length groups)%nat as [| n]; [| by destruct n]. injection E as <-. by apply not_elem_of_nil in Hk.
  - destruct (GenerateFilter_has _ _ _ _ Hb Hsz Hn) as (f & b' & -> & Hb'). cbn [mbind option_bind]. rewrite (Hbytes _ _ _ _ Hb').
    do 3 eexists. split; [done |]. split; [apply (fh_covers _ _ _ _ Hb') |]. split; [by eapply Hby |]. split; [| done].
    specialize (Hsize _ _ _ _ Hb'). rewrite concat_app, !length_app in Hsize. cbn [concat length] in Hsize. rewrite app_nil_r in Hsize. rewrite length_app. lia.
Qed.

Lemma char_size_lg : char_size (u8 kFilterBaseLg) = 11.
Proof. done. Qed.

(** The reader finds the filter of an offset. *)
Lemma reader_finds groups fs : Forall2 covers groups fs -> |[concat fs]| < 2 ^ 32 -> 
  ∃ r, new_FilterBlockReader (filter_bytes fs) = Some r /\
    (∀ off k, 0 <= off -> valid k -> is_Some (FilterBlock_KeyMayMatch P r off k)) /\
    ∀ off K k k', 0 <= off -> groups !! Z.to_nat (off / kFilterBase) = Some K -> k ∈ K -> same k k' -> FilterBlock_KeyMayMatch P r off k' = Some true.
Proof.
  intros Hc Hsz. pose proof (slice_size_nonneg (concat fs)) as Hs0. set (l := u32 <$> (offsets fs ++ [|[concat fs]|])).
  assert (length l = S (length fs)) as Hl by (unfold l; rewrite length_fmap, length_app, length_offsets; cbn; lia).
  assert (|[filter_bytes fs]| = |[concat fs]| + 4 * Z.of_nat (length fs) + 5) as Hn.
  { unfold filter_bytes. fold l. rewrite !slice_size_app, size_fixed32_array, Hl. cbn [slice_size length]. unfold slice_size at 2. cbn [length]. lia. }
  assert (∀ i v, (offsets fs ++ [|[concat fs]|]) !! i = Some v -> 0 <= v < 2 ^ 32 ->
    DecodeFixed32 (drop (Z.to_nat (|[concat fs]| + 4 * Z.of_nat i)) (filter_bytes fs)) = Some v) as Hat.
  { intros i v E Hv. unfold filter_bytes. rewrite (fixed32_at _ i (u32 v)); [| by rewrite list_lookup_fmap, E].
    assert (u32 v = v) as -> by (by apply wrap_small). f_equal. by apply wrap_small. }
  unfold new_FilterBlockReader. rewrite Hn, (proj2 (Z.ltb_ge _ _)) by lia.
  assert (filter_bytes fs !! Z.to_nat (|[concat fs]| + 4 * Z.of_nat (length fs) + 5 - 1) = Some (u8 kFilterBaseLg)) as ->.
  { unfold filter_bytes. rewrite app_assoc. fold l. rewrite lookup_app_r.
    - replace (_ - _)%nat with 0%nat; [done |]. pose proof (size_fixed32_array l) as Hf. unfold slice_size in *. rewrite length_app. lia.
    - pose proof (size_fixed32_array l) as Hf. unfold slice_size in *. rewrite length_app. lia. }
  cbn [mbind option_bind]. rewrite char_size_lg.
  replace (|[concat fs]| + 4 * Z.of_nat (length fs) + 5 - 5) with (|[concat fs]| + 4 * Z.of_nat (length fs)) by lia.
  rewrite (Hat _ (|[concat fs]|)); [| rewrite lookup_app_r; rewrite length_offsets; [by rewrite Nat.sub_diag | lia] | lia].
  cbn [mbind option_bind]. rewrite Z.gtb_ltb, (proj2 (Z.ltb_ge _ _)) by lia.
  replace (|[concat fs]| + 4 * Z.of_nat (length fs) - |[concat fs]|) with (Z.of_nat (length fs) * 4) by lia. rewrite Z.div_mul by lia.
  assert (∀ j, 0 <= |[concat (take j fs)]| <= |[concat fs]|) as Hle.
  { intros j. rewrite <- (take_drop j fs) at 3. rewrite concat_app, slice_size_app. pose proof (slice_size_nonneg (concat (take j fs))). pose proof (slice_size_nonneg (concat (drop j fs))). lia. }
  (** The filter at an index. *)
  assert (∀ off k, 0 <= off -> FilterBlock_KeyMayMatch P (MkFilterReader (filter_bytes fs) (|[concat fs]|) (Z.of_nat (length fs)) 11) off k =
    match fs !! Z.to_nat (off / kFilterBase) with Some f => fp_KeyMayMatch k f | None => Some true end) as Hmatch.
  { intros off k Hoff. unfold FilterBlock_KeyMayMatch. cbn [fr_base_lg fr_num fr_offset fr_data].
    cbn [assert_ orb Z.ltb Z.compare Pos.compare Pos.compare_cont mbind option_bind].
    rewrite Z.shiftr_div_pow2 by lia. change (2 ^ 11) with kFilterBase in *. set (i := Z.to_nat (off / kFilterBase)) in *.
    assert (off / kFilterBase = Z.of_nat i) as Ei by (unfold i; rewrite Z2Nat.id; [done | apply Z.div_pos; [done | by cbn]]). rewrite Ei.
    destruct (fs !! i) as [f |] eqn:Ef; [| apply lookup_ge_None_1 in Ef; by rewrite (proj2 (Z.ltb_ge _ _)) by lia].
    pose proof (lookup_lt_Some _ _ _ Ef) as Hi. rewrite (proj2 (Z.ltb_lt _ _)) by lia.
    replace (|[concat fs]| + Z.of_nat i * 4) with (|[concat fs]| + 4 * Z.of_nat i) by lia.
    rewrite (Hat i (|[concat (take i fs)]|)); [| rewrite lookup_app_l by (by rewrite length_offsets); by apply offsets_lookup | specialize (Hle i); lia].
    cbn [mbind option_bind]. replace (|[concat fs]| + 4 * Z.of_nat i + 4) with (|[concat fs]| + 4 * Z.of_nat (S i)) by lia.
    rewrite (Hat (S i) (|[concat (take (S i) fs)]|)); [| by apply offsets_next | specialize (Hle (S i)); lia].
    cbn [mbind option_bind]. assert (|[concat (take (S i) fs)]| = |[concat (take i fs)]| + |[f]|) as El.
    { rewrite (take_S_r fs i f Ef), concat_app, slice_size_app. cbn. by rewrite app_nil_r. }
    pose proof (slice_size_nonneg f). rewrite (proj2 (Z.leb_le _ _)) by lia. rewrite (proj2 (Z.leb_le _ _)) by (specialize (Hle (S i)); lia). cbn [andb].
    unfold filter_bytes. by rewrite (concat_slice fs i f _ Ef). }
  eexists. split; [done |]. split.
  - intros off k Hoff Hk. rewrite Hmatch by done. destruct (fs !! _) as [f |] eqn:Ef; [| by eexists]. apply fp_KeyMayMatch_some; [done |].
    rewrite <- (take_drop_middle fs _ f Ef), concat_app, slice_size_app in Hsz. cbn [concat] in Hsz. rewrite slice_size_app in Hsz.
    match goal with |- |[?a]| < _ => pose proof (slice_size_nonneg (concat (take (Z.to_nat (off / kFilterBase)) fs))); pose proof (slice_size_nonneg (concat (drop (S (Z.to_nat (off / kFilterBase))) fs))) end. lia.
  - intros off K k k' Hoff EK Hk Hsame. rewrite Hmatch by done. destruct (Forall2_lookup_l _ _ _ _ _ Hc EK) as (f & -> & Hcov). by eapply Hcov.
Qed.

(** All together, for any policy. *)
Lemma filter_block_ok blocks : ascending 0 blocks -> Forall valid (all_keys blocks) ->
  |[concat (all_keys blocks)]| < 2 ^ 64 -> Z.of_nat (length (all_keys blocks)) < 2 ^ 31 ->
  ∃ b contents b', add_blocks P ndebug blocks new_FilterBlockBuilder = Some b /\ FilterBlock_Finish P b = Some (contents, b') /\ bytes contents /\
    (∀ hi, 0 <= hi -> (∀ p, p ∈ blocks -> p.1 <= hi) -> |[contents]| <= 2 ^ 32 * Z.of_nat (length (all_keys blocks)) + 4 * (hi / kFilterBase + 2) + 5) /\
    (|[contents]| < 2 ^ 32 -> ∃ r, new_FilterBlockReader contents = Some r /\
      (∀ off k, 0 <= off -> valid k -> is_Some (FilterBlock_KeyMayMatch P r off k)) /\
      ∀ off keys k k', (off, keys) ∈ blocks -> k ∈ keys -> same k k' -> FilterBlock_KeyMayMatch P r off k' = Some true).
Proof.
  intros Has Hv Hsz Hn.
  assert (∃ groups fs cur b, add_blocks P ndebug blocks new_FilterBlockBuilder = Some b /\ builder_has groups fs cur b /\ recorded blocks groups cur /\
    |[concat cur]| < 2 ^ 64 /\ Z.of_nat (length cur) < 2 ^ 31 /\ concat groups ++ cur = all_keys blocks /\
    ∀ hi, 0 <= hi -> (∀ p, p ∈ blocks -> p.1 <= hi) -> Z.of_nat (length groups) <= hi / kFilterBase) as (groups & fs & cur & b & E & Hb & Hrec & Hsz' & Hn' & Hcat & Hhi).
  { assert (∀ hi, 0 <= hi -> (∀ p, p ∈ blocks -> p.1 <= hi) -> _) as Hall
      by (intros hi H0 H1; exact (add_blocks_has blocks [] 0 [] [] [] _ new_has ltac:(intros ? ? ? Hin; by apply not_elem_of_nil in Hin) ltac:(done) Has ltac:(done) Hv Hsz Hn hi H1 ltac:(cbn; apply Z.div_pos; [done | by cbn]))).
    destruct (Hall (foldr (λ p z, Z.max p.1 z) 0 blocks)) as (groups & fs & cur & b & E & Hb & Hrec & Hsz' & Hn' & Hcat & _).
    { clear. induction blocks; cbn; lia. }
    { clear. intros p Hp. induction blocks as [| q blocks IH]; [by apply not_elem_of_nil in Hp |]. cbn. apply elem_of_cons in Hp as [-> | Hp]; [lia |]. specialize (IH Hp). lia. }
    exists groups, fs, cur, b. split_and!; try done. intros hi H0 H1. destruct (Hall hi H0 H1) as (groups2 & fs2 & cur2 & b2 & E2 & Hb2 & _ & _ & _ & _ & Hl).
    rewrite E in E2. injection E2 as <-. pose proof (fh_offsets _ _ _ _ Hb) as O1. rewrite (fh_offsets _ _ _ _ Hb2) in O1. apply (f_equal length) in O1.
    rewrite !length_fmap, !length_offsets in O1. rewrite (list.Forall2_length _ _ _ (fh_covers _ _ _ _ Hb)), <- O1, <- (list.Forall2_length _ _ _ (fh_covers _ _ _ _ Hb2)). done. }
  destruct (FilterBlock_Finish_has _ _ _ _ Hb Hsz' Hn') as (groups' & fs' & b' & Ef & Hc & Hby & Hsize & Hg).
  exists b, (filter_bytes fs'), b'. split_and!; [done | done | done | |].
  { intros hi H0 H1. specialize (Hhi hi H0 H1). rewrite Hcat in Hsize. lia. } intros Hlt. destruct (reader_finds groups' fs' Hc) as (r & Er & Htot & Hr).
  { unfold filter_bytes in Hlt. rewrite !slice_size_app in Hlt. 
    pose proof (slice_size_nonneg (concat (EncodeFixed32 <$> (u32 <$> (offsets fs' ++ [|[concat fs']|]))))). pose proof (slice_size_nonneg [u8 kFilterBaseLg]). lia. }
  exists r. split; [done |]. split; [done |]. intros off keys k k' Hin Hk Hsame. destruct (Hrec off keys k Hin Hk) as (K & EK & HkK).
  eapply Hr; [| by eapply Hg | done | done].
  clear -Has Hin. assert (∀ lo, 0 <= lo -> ascending lo blocks -> 0 <= off) as H; [| by apply (H 0)].
  clear Has. induction blocks as [| [o ks] blocks IH]; intros lo Hlo Has; [by apply not_elem_of_nil in Hin |].
  destruct Has as [? Has]. apply elem_of_cons in Hin as [[= -> ->] | Hin]; [lia |]. eapply (IH Hin o); [lia | done].
Qed.
End Facts.

(** ** The bloom filters of a table *)

(** C27. The filter block never hides a key: after any calls that start blocks at increasing offsets and add internal
    keys to them, the builder finishes without an error, and the reader of the finished block answers, at the offset of a block
    and for any version of the user key of a key of the block, that it may be there; for bloom filters of every number of bits per key. *)
Theorem filter_block_no_false_negatives bits_per_key p ndebug blocks :
  new_BloomFilterPolicy bits_per_key = Some p -> 0 <= bits_per_key < 2 ^ 31 ->
  ascending 0 blocks -> Forall (valid_ikey (λ _, True)) (all_keys blocks) ->
  |[concat (all_keys blocks)]| < 2 ^ 64 -> Z.of_nat (length (all_keys blocks)) < 2 ^ 31 ->
  let P := InternalFilterPolicy (Bloom_FilterPolicy p) in
  ∃ b contents b', add_blocks P ndebug blocks new_FilterBlockBuilder = Some b /\ FilterBlock_Finish P b = Some (contents, b') /\
    (|[contents]| < 2 ^ 32 -> ∃ r, new_FilterBlockReader contents = Some r /\
      ∀ off keys u n n', (off, keys) ∈ blocks -> ikey u n ∈ keys -> FilterBlock_KeyMayMatch P r off (ikey u n') = Some true).
Proof.
  intros Hp Hb Has Hv Hsz Hn P. pose proof (Bloom_laws _ _ Hp Hb) as Hlaws.
  destruct (filter_block_ok (P := P) ndebug blocks Has Hv Hsz Hn) as (b & contents & b' & Eb & Ef & _ & _ & Hr).
  exists b, contents, b'. split_and!; [done | done |]. intros Hlt. destruct (Hr Hlt) as (r & Er & _ & Hmatch).
  exists r. split; [done |]. intros off keys u n n' Hin Hk. apply (Hmatch off keys (ikey u n)); [done | done |]. by exists u, n, u, n'.
Qed.

Lemma filter_block_no_false_negatives_witness :
  let P := InternalFilterPolicy (Bloom_FilterPolicy (MkBloom 10 6)) in
  let blocks := [(0, [ikey (lit "a") 3; ikey (lit "b") 2]); (1000, [ikey (lit "c") 9]); (5000, [ikey (lit "d") 7]); (9000, [])] in
  ∃ b contents b' r, add_blocks P false blocks new_FilterBlockBuilder = Some b /\ FilterBlock_Finish P b = Some (contents, b') /\
    new_FilterBlockReader contents = Some r /\ FilterBlock_KeyMayMatch P r 5000 (ikey (lit "d") 100) = Some true.
Proof.
  destruct (filter_block_no_false_negatives 10 (MkBloom 10 6) false
    [(0, [ikey (lit "a") 3; ikey (lit "b") 2]); (1000, [ikey (lit "c") 9]); (5000, [ikey (lit "d") 7]); (9000, [])])
    as (b & contents & b' & Eb & Ef & Hr).
  - reflexivity.
  - split; [discriminate | reflexivity].
  - cbn. lia.
  - repeat constructor; do 2 eexists; (split; [reflexivity | split; [exact I | by_compute]]).
  - by_compute.
  - by_compute.
  - assert (|[contents]| < 2 ^ 32) as Hlt by (vm_compute in Eb; injection Eb as <-; vm_compute in Ef; injection Ef as <- _; by_compute).
    destruct (Hr Hlt) as (r & Er & Hm). exists b, contents, b', r. split_and!; [done | done | done |].
    apply (Hm 5000 [ikey (lit "d") 7] (lit "d") 7); [| left]. apply list_elem_of_In. cbn. auto.
Defined.
