(* ===== verification/TwoLevel.v ===== *)
(** * Two-level iterators ([leveldb/two_level_iterator.h], [two_level_iterator.cc])

    An iterator over an index, whose values are block handles, and a function from a handle to an iterator of the
    block.  The two-level iterator keeps the contract of iterators for the concatenation of the blocks. *)
From S2P Require Import Prelude Status Keys Comparator Iterator.

(** An iterator of one of two classes. *)
#[global] Instance Sum_Iterator {A B} `{Iterator A} `{Iterator B} : Iterator (A + B) := {
  Valid it := match it with inl a => Valid a | inr b => Valid b end;
  SeekToFirst it := match it with inl a => inl <$> SeekToFirst a | inr b => inr <$> SeekToFirst b end;
  SeekToLast it := match it with inl a => inl <$> SeekToLast a | inr b => inr <$> SeekToLast b end;
  Seek t it := match it with inl a => inl <$> Seek t a | inr b => inr <$> Seek t b end;
  Next it := match it with inl a => inl <$> Next a | inr b => inr <$> Next b end;
  Prev it := match it with inl a => inl <$> Prev a | inr b => inr <$> Prev b end;
  key it := match it with inl a => key a | inr b => key b end;
  value it := match it with inl a => value a | inr b => value b end;
  status it := match it with inl a => status a | inr b => status b end
}.

Section Sum.
Context {A B : Type} `{Iterator A} `{Iterator B} {C : Comparator} {valid : Slice -> Prop} {R : nat -> A -> Prop} {l : Pairs}.
Hypothesis HR : iterates valid R l.
Definition in_left (n : nat) (it : A + B) : Prop := ∃ a, it = inl a /\ R n a.
Lemma left_iterates : iterates valid in_left l.
Proof.
  split.
  - intros n ? (a & -> & Ha). by eapply (iter_bound HR).
  - intros n ? (a & -> & Ha). by eapply (iter_Valid HR).
  - intros n ? p (a & -> & Ha). by eapply (iter_key HR).
  - intros n ? p (a & -> & Ha). by eapply (iter_value HR).
  - intros n ? (a & -> & Ha) Hn. destruct (iter_Next HR n a Ha Hn) as (a' & E & Ha'). exists (inl a'). cbn. rewrite E. split; [done | by exists a'].
  - intros n ? (a & -> & Ha) Hn. destruct (iter_Prev HR n a Ha Hn) as (a' & E & Ha'). exists (inl a'). cbn. rewrite E. split; [done | by exists a'].
  - intros n ? (a & -> & Ha). destruct (iter_SeekToFirst HR n a Ha) as (a' & E & Ha'). exists (inl a'). cbn. rewrite E. split; [done | by exists a'].
  - intros n ? (a & -> & Ha). destruct (iter_SeekToLast HR n a Ha) as (a' & E & Ha'). exists (inl a'). cbn. rewrite E. split; [done | by exists a'].
  - intros n ? t (a & -> & Ha) Ht. destruct (iter_Seek HR n a t Ha Ht) as (a' & E & Ha'). exists (inl a'). cbn. rewrite E. split; [done | by exists a'].
  - intros n ? (a & -> & Ha). by eapply (iter_status HR).
Qed.
End Sum.

Section SumRight.
Context {A B : Type} `{Iterator A} `{Iterator B} {C : Comparator} {valid : Slice -> Prop} {R : nat -> B -> Prop} {l : Pairs}.
Hypothesis HR : iterates valid R l.
Definition in_right (n : nat) (it : A + B) : Prop := ∃ b, it = inr b /\ R n b.
Lemma right_iterates : iterates valid in_right l.
Proof.
  split.
  - intros n ? (b & -> & Hb). by eapply (iter_bound HR).
  - intros n ? (b & -> & Hb). by eapply (iter_Valid HR).
  - intros n ? p (b & -> & Hb). by eapply (iter_key HR).
  - intros n ? p (b & -> & Hb). by eapply (iter_value HR).
  - intros n ? (b & -> & Hb) Hn. destruct (iter_Next HR n b Hb Hn) as (b' & E & Hb'). exists (inr b'). cbn. rewrite E. split; [done | by exists b'].
  - intros n ? (b & -> & Hb) Hn. destruct (iter_Prev HR n b Hb Hn) as (b' & E & Hb'). exists (inr b'). cbn. rewrite E. split; [done | by exists b'].
  - intros n ? (b & -> & Hb). destruct (iter_SeekToFirst HR n b Hb) as (b' & E & Hb'). exists (inr b'). cbn. rewrite E. split; [done | by exists b'].
  - intros n ? (b & -> & Hb). destruct (iter_SeekToLast HR n b Hb) as (b' & E & Hb'). exists (inr b'). cbn. rewrite E. split; [done | by exists b'].
  - intros n ? t (b & -> & Hb) Ht. destruct (iter_Seek HR n b t Hb Ht) as (b' & E & Hb'). exists (inr b'). cbn. rewrite E. split; [done | by exists b'].
  - intros n ? (b & -> & Hb). by eapply (iter_status HR).
Qed.
End SumRight.

Record TwoLevelIterator (I D : Type) := MkTwoLevel {
  tl_status : Status;
  index_iter_ : IteratorWrapper I;
  data_iter_ : IteratorWrapper D;
  data_block_handle_ : Slice
}.
Arguments MkTwoLevel {I D}. Arguments tl_status {I D}. Arguments index_iter_ {I D}. Arguments data_iter_ {I D}. Arguments data_block_handle_ {I D}.

Section TwoLevel.
Context {I D : Type} `{Iterator I} `{Iterator D}.
(** [block_function_] applied to [arg_] and [options_]; the fuel bounds the blocks that are skipped. *)
Context (ndebug : bool) (block_function : Slice -> option D) (fuel : nat).
Implicit Types (it : TwoLevelIterator I D).
#[local] Hint Extern 0 (Iterator (IteratorWrapper _)) => exact (IteratorWrapper_Iterator ndebug) : typeclass_instances.

Definition new_TwoLevel (index_iter : I) : option (TwoLevelIterator I D) :=
  i ← w_Set (Some index_iter) new_Wrapper; Some (MkTwoLevel OK i new_Wrapper []).

Definition set_index (i : IteratorWrapper I) it : TwoLevelIterator I D := MkTwoLevel (tl_status it) i (data_iter_ it) (data_block_handle_ it).
Definition set_data (d : IteratorWrapper D) it : TwoLevelIterator I D := MkTwoLevel (tl_status it) (index_iter_ it) d (data_block_handle_ it).

Definition SaveError (s : Status) it : TwoLevelIterator I D :=
  if ok (tl_status it) && negb (ok s) then MkTwoLevel s (index_iter_ it) (data_iter_ it) (data_block_handle_ it) else it.
Definition SetDataIterator (data_iter : option D) it : option (TwoLevelIterator I D) :=
  let it := match w_iter (data_iter_ it) with Some d => SaveError (status d) it | None => it end in
  d ← w_Set data_iter (data_iter_ it); Some (set_data d it).

Definition InitDataBlock it : option (TwoLevelIterator I D) :=
  if negb (w_valid (index_iter_ it)) then SetDataIterator None it
  else
    handle ← value (index_iter_ it);
    if bool_decide (is_Some (w_iter (data_iter_ it))) && bool_decide (Slice_compare handle (data_block_handle_ it) = Eq) then Some it
    else
      iter ← block_function handle;
      SetDataIterator (Some iter) (MkTwoLevel (tl_status it) (index_iter_ it) (data_iter_ it) handle).

(** A method of the data iterator, when there is one. *)
Definition on_data (f : IteratorWrapper D -> option (IteratorWrapper D)) it : option (TwoLevelIterator I D) :=
  match w_iter (data_iter_ it) with Some _ => d ← f (data_iter_ it); Some (set_data d it) | None => Some it end.
Definition no_data it : bool := match w_iter (data_iter_ it) with None => true | Some _ => negb (w_valid (data_iter_ it)) end.

Fixpoint SkipEmptyDataBlocksForward (fuel : nat) it : option (TwoLevelIterator I D) :=
  if no_data it then
    if negb (w_valid (index_iter_ it)) then SetDataIterator None it
    else
      match fuel with
      | O => None
      | S fuel =>
          i ← Next (index_iter_ it); it ← InitDataBlock (set_index i it);
          it ← on_data SeekToFirst it; SkipEmptyDataBlocksForward fuel it
      end
  else Some it.
Fixpoint SkipEmptyDataBlocksBackward (fuel : nat) it : option (TwoLevelIterator I D) :=
  if no_data it then
    if negb (w_valid (index_iter_ it)) then SetDataIterator None it
    else
      match fuel with
      | O => None
      | S fuel =>
          i ← Prev (index_iter_ it); it ← InitDataBlock (set_index i it);
          it ← on_data SeekToLast it; SkipEmptyDataBlocksBackward fuel it
      end
  else Some it.

Definition TwoLevel_Seek (target : Slice) it : option (TwoLevelIterator I D) :=
  i ← Seek target (index_iter_ it); it ← InitDataBlock (set_index i it);
  it ← on_data (Seek target) it; SkipEmptyDataBlocksForward fuel it.
Definition TwoLevel_SeekToFirst it : option (TwoLevelIterator I D) :=
  i ← SeekToFirst (index_iter_ it); it ← InitDataBlock (set_index i it);
  it ← on_data SeekToFirst it; SkipEmptyDataBlocksForward fuel it.
Definition TwoLevel_SeekToLast it : option (TwoLevelIterator I D) :=
  i ← SeekToLast (index_iter_ it); it ← InitDataBlock (set_index i it);
  it ← on_data SeekToLast it; SkipEmptyDataBlocksBackward fuel it.
Definition TwoLevel_Next it : option (TwoLevelIterator I D) :=
  _ ← assert_ ndebug (w_valid (data_iter_ it));
  d ← Next (data_iter_ it); SkipEmptyDataBlocksForward fuel (set_data d it).
Definition TwoLevel_Prev it : option (TwoLevelIterator I D) :=
  _ ← assert_ ndebug (w_valid (data_iter_ it));
  d ← Prev (data_iter_ it); SkipEmptyDataBlocksBackward fuel (set_data d it).
Definition TwoLevel_status it : Status :=
  if negb (ok (status (index_iter_ it))) then status (index_iter_ it)
  else match w_iter (data_iter_ it) with
       | Some _ => if negb (ok (status (data_iter_ it))) then status (data_iter_ it) else tl_status it
       | None => tl_status it
       end.

#[export] Instance TwoLevel_Iterator : Iterator (TwoLevelIterator I D) := {
  Valid it := w_valid (data_iter_ it);
  SeekToFirst := TwoLevel_SeekToFirst; SeekToLast := TwoLevel_SeekToLast; Seek := TwoLevel_Seek;
  Next := TwoLevel_Next; Prev := TwoLevel_Prev;
  key it := _ ← assert_ ndebug (w_valid (data_iter_ it)); key (data_iter_ it);
  value it := _ ← assert_ ndebug (w_valid (data_iter_ it)); value (data_iter_ it);
  status := TwoLevel_status
}.
End TwoLevel.

(** ** The contract *)
Section Facts.
Context {C : Comparator} {valid : Slice -> Prop} `{!OrderOn Compare valid}.
Context {I D : Type} `{HiI : Iterator I} `{HiD : Iterator D} (ndebug : bool) (block_function : Slice -> option D).
#[local] Hint Extern 0 (Iterator (IteratorWrapper _)) => exact (IteratorWrapper_Iterator ndebug) : typeclass_instances.
(** The pairs of the index, and the pairs of the block of a handle. *)
Context {RI : nat -> I -> Prop} {idx : Pairs} {RD : Slice -> nat -> D -> Prop} {blk : Slice -> Pairs}.
Hypothesis HI : iterates valid RI idx.
Hypothesis HD : ∀ i p, idx !! i = Some p -> iterates valid (RD p.2) (blk p.2) /\ ∃ d n, block_function p.2 = Some d /\ RD p.2 n d.
Implicit Types (it : TwoLevelIterator I D).

Definition blocks : list Pairs := (λ p, blk p.2) <$> idx.
Definition all_pairs : Pairs := concat blocks.
Definition first_of (i : nat) : nat := length (concat (take i blocks)).

Lemma first_of_S i p : idx !! i = Some p -> first_of (S i) = (first_of i + length (blk p.2))%nat.
Proof.
  intros E. unfold first_of. rewrite (take_S_r blocks i (blk p.2)) by (unfold blocks; by rewrite list_lookup_fmap, E).
  rewrite concat_app, length_app. cbn. by rewrite app_nil_r.
Qed.
Lemma first_of_all : first_of (length idx) = length all_pairs.
Proof. unfold first_of, all_pairs, blocks. by rewrite take_ge by by rewrite length_fmap. Qed.
Lemma all_pairs_split i p : idx !! i = Some p ->
  all_pairs = concat (take i blocks) ++ blk p.2 ++ concat (drop (S i) blocks).
Proof.
  intros E. unfold all_pairs. rewrite <- (take_drop_middle blocks i (blk p.2)) at 1 by (unfold blocks; by rewrite list_lookup_fmap, E).
  by rewrite concat_app.
Qed.
Lemma all_pairs_lookup i p j : idx !! i = Some p -> (j < length (blk p.2))%nat -> all_pairs !! (first_of i + j)%nat = blk p.2 !! j.
Proof.
  intros E Hj. rewrite (all_pairs_split i p E). unfold first_of. rewrite lookup_app_r, Nat.add_comm, Nat.add_sub by lia. by apply lookup_app_l.
Qed.
Lemma first_of_bound i p j : idx !! i = Some p -> (j < length (blk p.2))%nat -> (first_of i + j < length all_pairs)%nat.
Proof. intros E Hj. eapply lookup_lt_is_Some_1. rewrite (all_pairs_lookup i p j) by done. by apply lookup_lt_is_Some_2. Qed.

(** ** States *)
Definition at_index (i : nat) it : Prop := wrapped (R := RI) i (index_iter_ it).
Definition data_in (h : Slice) (j : nat) it : Prop := wrapped (R := RD h) j (data_iter_ it) /\ data_block_handle_ it = h.
Definition none it : Prop := w_iter (data_iter_ it) = None /\ w_valid (data_iter_ it) = false.
Definition data_ok it : Prop := none it \/ ∃ i p j, idx !! i = Some p /\ data_in p.2 j it.

Definition two_level_at (n : nat) it : Prop := ok (tl_status it) = true /\
  ((∃ i p j, idx !! i = Some p /\ at_index i it /\ data_in p.2 j it /\ (j < length (blk p.2))%nat /\ n = (first_of i + j)%nat) \/
   (n = length all_pairs /\ none it /\ at_index (length idx) it)).

Lemma data_status_ok it d : data_ok it -> w_iter (data_iter_ it) = Some d -> ok (status d) = true.
Proof.
  intros [[E _] | (i & p & j & Ep & (d' & E & Hj & _) & _)] Ed; [congruence |]. rewrite E in Ed. injection Ed as ->.
  destruct (HD i p Ep) as [HB _]. by eapply (iter_status HB).
Qed.

Lemma SetDataIterator_some i p n d it : ok (tl_status it) = true -> data_ok it \/ (∃ h, data_ok (MkTwoLevel (tl_status it) (index_iter_ it) (data_iter_ it) h)) ->
  idx !! i = Some p -> RD p.2 n d -> data_block_handle_ it = p.2 ->
  ∃ it', SetDataIterator (Some d) it = Some it' /\ ok (tl_status it') = true /\ index_iter_ it' = index_iter_ it /\ data_in p.2 n it'.
Proof.
  intros Hst Hok Ep Hn Eh. unfold SetDataIterator. destruct (HD i p Ep) as [HB _].
  destruct (w_Set_ok HB n d (data_iter_ it) Hn) as (w & Ew & Hw).
  assert ((match w_iter (data_iter_ it) with Some d0 => SaveError (status d0) it | None => it end) = it) as ->.
  { destruct (w_iter (data_iter_ it)) as [d0 |] eqn:Ed; [| done]. unfold SaveError.
    assert (ok (status d0) = true) as -> by (destruct Hok as [Hok | [h Hok]]; exact (data_status_ok _ d0 Hok Ed)). by rewrite andb_false_r. }
  rewrite Ew. cbn [mbind option_bind]. eexists. split; [done |]. by cbn.
Qed.
Lemma SetDataIterator_none it : ok (tl_status it) = true -> data_ok it ->
  ∃ it', SetDataIterator None it = Some it' /\ ok (tl_status it') = true /\ index_iter_ it' = index_iter_ it /\ none it'.
Proof.
  intros Hst Hok. unfold SetDataIterator.
  assert ((match w_iter (data_iter_ it) with Some d0 => SaveError (status d0) it | None => it end) = it) as ->.
  { destruct (w_iter (data_iter_ it)) as [d0 |] eqn:Ed; [| done]. unfold SaveError.
    assert (ok (status d0) = true) as -> by exact (data_status_ok it d0 Hok Ed). by rewrite andb_false_r. }
  cbn [w_Set mbind option_bind]. eexists. split; [done |]. by cbn.
Qed.

Lemma index_valid i it : at_index i it -> w_valid (index_iter_ it) = bool_decide (i < length idx)%nat.
Proof. intros Hi. by apply (iter_Valid (wrapper_iterates ndebug HI)). Qed.

Definition at_block (i : nat) (P : Slice -> nat -> Prop) it : Prop := ok (tl_status it) = true /\ at_index i it /\
  match idx !! i with Some p => ∃ j, data_in p.2 j it /\ P p.2 j | None => none it end.

Lemma InitDataBlock_ok i it : ok (tl_status it) = true -> at_index i it -> data_ok it ->
  ∃ it', InitDataBlock ndebug block_function it = Some it' /\ at_block i (λ _ _, True) it'.
Proof.
  intros Hst Hi Hok. unfold InitDataBlock, at_block. rewrite (index_valid i it Hi). case_bool_decide as Hlt; cbn [negb].
  - destruct (lookup_lt_is_Some_2 idx i Hlt) as [p Ep]. rewrite Ep.
    rewrite (iter_value (wrapper_iterates ndebug HI) i _ p Hi Ep). cbn [mbind option_bind]. destruct (HD i p Ep) as [HB (d & n & Ed & Hn)].
    destruct (bool_decide (is_Some (w_iter (data_iter_ it)))) eqn:Es; [apply bool_decide_eq_true in Es as [d0 Ed0] |]; cbn [andb];
      [case_bool_decide as Eh; [apply Slice_compare_eq in Eh |] |]; cbn [mbind option_bind].
    + eexists. split; [done |]. split_and!; [done.. |]. destruct Hok as [[E _] | (i' & p' & j & Ep' & Hw & Eh')]; [congruence |].
      exists j. split; [| done]. rewrite <- Eh', <- Eh in Hw. by split.
    + rewrite Ed. cbn [mbind option_bind]. edestruct (SetDataIterator_some i p n d (MkTwoLevel (tl_status it) (index_iter_ it) (data_iter_ it) p.2)) as (it' & -> & ? & Ei & ?); try done.
      { right. exists (data_block_handle_ it). by destruct it. }
      eexists. split; [done |]. split_and!; [done | unfold at_index; by rewrite Ei | by exists n].
    + rewrite Ed. cbn [mbind option_bind]. edestruct (SetDataIterator_some i p n d (MkTwoLevel (tl_status it) (index_iter_ it) (data_iter_ it) p.2)) as (it' & -> & ? & Ei & ?); try done.
      { right. exists (data_block_handle_ it). by destruct it. }
      eexists. split; [done |]. split_and!; [done | unfold at_index; by rewrite Ei | by exists n].
  - destruct (SetDataIterator_none it Hst Hok) as (it' & -> & ? & Ei & ?). eexists. split; [done |].
    rewrite lookup_ge_None_2 by lia. split_and!; [done | unfold at_index; by rewrite Ei | done].
Qed.

Lemma at_block_data i P it : at_block i P it -> data_ok it.
Proof. intros (_ & _ & Hm). destruct (idx !! i) as [p |] eqn:Ep; [right | by left]. destruct Hm as (j & ? & _). by exists i, p, j. Qed.

(** The data iterator of the block moves. *)
Lemma on_data_ok i (g : Slice -> nat) f P it : at_block i P it ->
  (∀ p j w, idx !! i = Some p -> wrapped (R := RD p.2) j w -> ∃ w', f w = Some w' /\ wrapped (R := RD p.2) (g p.2) w') ->
  ∃ it', on_data f it = Some it' /\ at_block i (λ h j, j = g h) it'.
Proof.
  intros (Hst & Hi & Hm) Hf. unfold on_data, at_block. destruct (idx !! i) as [p |] eqn:Ep.
  - destruct Hm as (j & [Hw Eh] & _). pose proof Hw as (d & -> & _). destruct (Hf p j _ eq_refl Hw) as (w' & -> & Hw'). cbn [mbind option_bind].
    eexists. split; [done |]. split_and!; [done | done |]. by exists (g p.2).
  - destruct Hm as [E ?]. rewrite E. eexists. by split_and!.
Qed.

(** Moving the index, and then the data iterator of the block found. *)
Lemma move_block i (g : Slice -> nat) f it : ok (tl_status it) = true -> at_index i it -> data_ok it ->
  (∀ p j w, idx !! i = Some p -> wrapped (R := RD p.2) j w -> ∃ w', f w = Some w' /\ wrapped (R := RD p.2) (g p.2) w') ->
  ∃ it1 it2, InitDataBlock ndebug block_function it = Some it1 /\ on_data f it1 = Some it2 /\ at_block i (λ h j, j = g h) it2.
Proof.
  intros Hst Hi Hok Hf. destruct (InitDataBlock_ok i it Hst Hi Hok) as (it1 & E1 & H1).
  destruct (on_data_ok i g f _ it1 H1 Hf) as (it2 & E2 & H2). by exists it1, it2.
Qed.

Lemma wrapper_of i p : idx !! i = Some p -> iterates valid (wrapped (R := RD p.2)) (blk p.2).
Proof. intros Ep. apply (wrapper_iterates ndebug). by eapply HD. Qed.

Lemma data_valid i p j it : idx !! i = Some p -> data_in p.2 j it -> no_data it = negb (bool_decide (j < length (blk p.2))%nat).
Proof.
  intros Ep [Hw _]. unfold no_data. pose proof Hw as (d & -> & _).
  assert (w_valid (data_iter_ it) = bool_decide (j < length (blk p.2))%nat) as -> by by apply (iter_Valid (wrapper_of i p Ep)). done.
Qed.
Lemma none_no_data it : none it -> no_data it = true.
Proof. intros [E _]. unfold no_data. by rewrite E. Qed.

Lemma forward_ok fuel : ∀ i (g : Slice -> nat) it, at_block i (λ h j, j = g h) it -> (i <= length idx)%nat -> (length idx - i <= fuel)%nat ->
  (∀ p, idx !! i = Some p -> (g p.2 <= length (blk p.2))%nat) ->
  ∃ it', SkipEmptyDataBlocksForward ndebug block_function fuel it = Some it' /\
    two_level_at (match idx !! i with Some p => first_of i + g p.2 | None => length all_pairs end)%nat it'.
Proof.
  induction fuel as [| fuel IH]; intros i g it Hb Hi Hf Hg; pose proof Hb as (Hst & Hat & Hm); cbn [SkipEmptyDataBlocksForward];
    rewrite (index_valid i it Hat); (destruct (idx !! i) as [p |] eqn:Ep;
    [destruct Hm as (j & Hj & ->); rewrite (data_valid i p _ it Ep Hj); pose proof (lookup_lt_Some _ _ _ Ep) as Hlt; rewrite (bool_decide_true (i < _)%nat) by done
    | rewrite none_no_data, bool_decide_false by (done || by apply lookup_ge_None_1 in Ep; lia); cbn [negb]]).
  1: lia.
  2: { case_bool_decide as Hd; cbn [negb].
    - eexists. split; [done |]. split; [done |]. left. by exists i, p, (g p.2).
    - destruct (iter_Next (wrapper_iterates ndebug HI) i _ Hat Hlt) as (w & Ew & Hw). rewrite Ew. cbn [mbind option_bind].
      destruct (move_block (S i) (λ _, 0%nat) SeekToFirst (set_index w it)) as (it1 & it2 & E1 & E2 & H2);
        [done | done | right; by exists i, p, (g p.2) | |].
      { intros q j v Eq Hv. by apply (iter_SeekToFirst (wrapper_of (S i) q Eq) j). }
      rewrite E1. cbn [mbind option_bind]. rewrite E2. cbn [mbind option_bind].
      destruct (IH (S i) (λ _, 0%nat) it2 H2) as (it' & -> & Hit'); [lia | lia | lia |]. exists it'. split; [done |].
      specialize (Hg p eq_refl). assert (g p.2 = length (blk p.2)) as -> by lia. rewrite <- (first_of_S i p Ep).
      destruct (idx !! S i) as [q |] eqn:Eq; [by rewrite Nat.add_0_r in Hit' |].
      apply lookup_ge_None_1 in Eq. assert (S i = length idx) as Ei by lia. by rewrite Ei, first_of_all. }
  all: destruct (SetDataIterator_none it Hst) as (it' & -> & ? & Ei & ?); [by left |]; eexists; (split; [done |]); split; [done |]; right;
    (split; [done |]); (split; [done |]); unfold at_index; rewrite Ei; apply lookup_ge_None_1 in Ep; by replace (length idx) with i by lia.
Qed.

(** Where a step back from the start of block [i] ends. *)
Definition last_before (i : nat) : nat := if decide (first_of i = 0)%nat then length all_pairs else (first_of i - 1)%nat.

Lemma backward_ok fuel : ∀ i p j it, idx !! i = Some p -> ok (tl_status it) = true -> at_index i it -> data_in p.2 j it ->
  (i < fuel)%nat -> (j <= length (blk p.2))%nat ->
  ∃ it', SkipEmptyDataBlocksBackward ndebug block_function fuel it = Some it' /\
    two_level_at (if decide (j < length (blk p.2))%nat then first_of i + j else last_before i)%nat it'.
Proof.
  induction fuel as [| fuel IH]; intros i p j it Ep Hst Hat Hj Hf Hle; [lia |]. cbn [SkipEmptyDataBlocksBackward].
  pose proof (lookup_lt_Some _ _ _ Ep) as Hlt. rewrite (index_valid i it Hat), (data_valid i p j it Ep Hj), (bool_decide_true (i < _)%nat) by done.
  cbn [negb]. case_bool_decide as Hd; cbn [negb].
  { rewrite decide_True by done. eexists. split; [done |]. split; [done |]. left. by exists i, p, j. }
  rewrite decide_False by done. destruct (iter_Prev (wrapper_iterates ndebug HI) i _ Hat Hlt) as (w & Ew & Hw). rewrite Ew. cbn [mbind option_bind].
  set (i' := if decide (i = 0)%nat then length idx else (i - 1)%nat) in *.
  destruct (move_block i' (λ h, length (blk h) - 1)%nat SeekToLast (set_index w it)) as (it1 & it2 & E1 & E2 & H2);
    [done | done | right; by exists i, p, j | |].
  { intros q j' v Eq Hv. by apply (iter_SeekToLast (wrapper_of i' q Eq) j'). }
  rewrite E1. cbn [mbind option_bind]. rewrite E2. cbn [mbind option_bind]. destruct H2 as (Hst2 & Hat2 & Hm).
  assert (i' = if decide (i = 0)%nat then length idx else (i - 1)%nat) as Ei' by done. clearbody i'.
  destruct i as [| i]; [rewrite decide_True in Ei' by done | rewrite decide_False in Ei' by done; cbn [Nat.sub] in Ei']; subst i'.
  - rewrite lookup_ge_None_2 in Hm by lia. destruct fuel as [| fuel]; cbn [SkipEmptyDataBlocksBackward];
      rewrite (none_no_data it2 Hm), (index_valid _ it2 Hat2), bool_decide_false by lia; cbn [negb];
      (destruct (SetDataIterator_none it2 Hst2) as (it' & -> & ? & Ei & ?); [by left |]); eexists; (split; [done |]); (split; [done |]); right;
      (split; [done |]); (split; [done |]); unfold at_index; by rewrite Ei.
  - rewrite Nat.sub_0_r in *. destruct (lookup_lt_is_Some_2 idx i) as [q Eq]; [lia |]. rewrite Eq in Hm. destruct Hm as (j' & Hj' & ->).
    destruct (IH i q _ it2 Eq Hst2 Hat2 Hj') as (it' & -> & Hit'); [lia | lia |]. exists it'. split; [done |].
    unfold last_before in *. rewrite (first_of_S i q Eq). case_decide as Hq.
    + rewrite decide_False by lia. by replace (first_of i + length (blk q.2) - 1)%nat with (first_of i + (length (blk q.2) - 1))%nat by lia.
    + replace (first_of i + length (blk q.2))%nat with (first_of i) by lia. done.
Qed.

(** ** Seeking *)

Hypothesis Hidx : sorted_pairs valid idx.
(** The keys of a block are up to its separator, and past the separators before it. *)
Hypothesis Hle : ∀ i p q, idx !! i = Some p -> q ∈ blk p.2 -> valid q.1 /\ Compare q.1 p.1 <> Some Gt.
Hypothesis Hgt : ∀ i p k r q, idx !! i = Some p -> idx !! k = Some r -> (i < k)%nat -> q ∈ blk r.2 -> Compare p.1 q.1 = Some Lt.

Lemma in_blocks q (bs : list Pairs) : q ∈ concat bs -> ∃ b, b ∈ bs /\ q ∈ b.
Proof. intros [b [Hb Hq]]%list_elem_of_In%in_concat. exists b. by rewrite !list_elem_of_In. Qed.

Lemma lower_all_pairs t : valid t ->
  lower all_pairs t = match idx !! lower idx t with Some p => first_of (lower idx t) + lower (blk p.2) t | None => length all_pairs end%nat.
Proof.
  intros Ht. set (i := lower idx t).
  assert (∀ k r q, idx !! k = Some r -> (k < i)%nat -> q ∈ blk r.2 -> Compare q.1 t = Some Lt) as Hbelow.
  { intros k r q Ek Hk Hq. apply (lower_spec _ _ _ _ Hidx Ht Ek) in Hk. destruct (Hle k r q Ek Hq) as [Hv Hn].
    apply (cmp_le_lt_trans q.1 r.1 t); [done | by eapply sorted_pairs_valid | done | done | done]. }
  assert (lower (concat (take i blocks)) t = length (concat (take i blocks))) as Hfull.
  { apply lower_full. intros q (b & Hb & Hq)%in_blocks. apply list_elem_of_lookup in Hb as [k Ek].
    apply lookup_take_Some in Ek as [Ek Hk]. unfold blocks in Ek. rewrite list_lookup_fmap in Ek. apply fmap_Some in Ek as (r & Er & ->). by eapply Hbelow. }
  destruct (idx !! i) as [p |] eqn:Ep.
  - rewrite (all_pairs_split i p Ep), lower_app, Hfull, decide_False by lia. unfold first_of. rewrite lower_app. case_decide as Hd; [done |].
    assert (Compare p.1 t <> Some Lt) as Hp by (intros E; apply (lower_spec _ _ _ _ Hidx Ht Ep) in E; unfold i in E; lia).
    rewrite lower_zero, Nat.add_0_r; [pose proof (lower_le (blk p.2) t); lia |]. intros q (b & Hb & Hq)%in_blocks Elt. apply Hp.
    apply list_elem_of_lookup in Hb as [k Ek]. rewrite lookup_drop in Ek. unfold blocks in Ek. rewrite list_lookup_fmap in Ek. apply fmap_Some in Ek as (r & Er & ->).
    assert (valid q.1) as Hvq by by eapply Hle. assert (valid p.1) as Hvp by by eapply sorted_pairs_valid.
    apply (cmp_trans p.1 q.1 t); [done.. | | done]. eapply (Hgt i p); [done | done | lia | done].
  - unfold all_pairs. apply lookup_ge_None_1 in Ep. rewrite take_ge in Hfull by (unfold blocks; by rewrite length_fmap). done.
Qed.

(** ** The operations *)
Lemma two_level_data n it : two_level_at n it -> data_ok it.
Proof. intros [_ [(i & p & j & Ep & _ & Hj & _) | (_ & Hn & _)]]; [right; by exists i, p, j | by left]. Qed.
Lemma two_level_index n it : two_level_at n it -> ∃ i, at_index i it.
Proof. intros [_ [(i & p & j & Ep & Hi & _) | (_ & _ & Hi)]]; by eexists. Qed.
Lemma two_level_valid n it : two_level_at n it -> w_valid (data_iter_ it) = bool_decide (n < length all_pairs)%nat.
Proof.
  intros [_ [(i & p & j & Ep & _ & [Hw _] & Hj & ->) | (-> & [_ ->] & _)]].
  - rewrite bool_decide_true by by apply (first_of_bound i p j).
    assert (w_valid (data_iter_ it) = bool_decide (j < length (blk p.2))%nat) as -> by by apply (iter_Valid (wrapper_of i p Ep)).
    by rewrite bool_decide_true.
  - by rewrite bool_decide_false by lia.
Qed.
Lemma two_level_block n it : two_level_at n it -> (n < length all_pairs)%nat ->
  ∃ i p j, idx !! i = Some p /\ at_index i it /\ data_in p.2 j it /\ (j < length (blk p.2))%nat /\ n = (first_of i + j)%nat /\ ok (tl_status it) = true.
Proof. intros [Hst [(i & p & j & H1) | (-> & _)]] Hn; [| lia]. exists i, p, j. naive_solver. Qed.

(** A seek moves the index, then the iterator of the block. *)
Lemma seek_block (f : IteratorWrapper I -> option (IteratorWrapper I)) f' i g n it : two_level_at n it ->
  (∀ k w, wrapped (R := RI) k w -> ∃ w', f w = Some w' /\ wrapped (R := RI) i w') ->
  (∀ p j w, idx !! i = Some p -> wrapped (R := RD p.2) j w -> ∃ w', f' w = Some w' /\ wrapped (R := RD p.2) (g p.2) w') ->
  ∃ w it1 it2, f (index_iter_ it) = Some w /\ InitDataBlock ndebug block_function (set_index w it) = Some it1 /\
    on_data f' it1 = Some it2 /\ at_block i (λ h j, j = g h) it2.
Proof.
  intros Hit Hfi Hfd. destruct (two_level_index n it Hit) as [k Hk]. destruct (Hfi k _ Hk) as (w & Ew & Hw).
  destruct (move_block i g f' (set_index w it)) as (it1 & it2 & E1 & E2 & H2);
    [apply Hit | done | by destruct (two_level_data n it Hit); [left | right] | done |].
  by exists w, it1, it2.
Qed.

Lemma two_level_read n it q : two_level_at n it -> all_pairs !! n = Some q ->
  w_valid (data_iter_ it) = true /\ key (data_iter_ it) = Some q.1 /\ value (data_iter_ it) = Some q.2.
Proof.
  intros Hit Eq. pose proof (lookup_lt_Some _ _ _ Eq) as Hn. rewrite (two_level_valid n it Hit), bool_decide_true by done.
  destruct (two_level_block n it Hit Hn) as (i & p & j & Ep & _ & [Hw _] & Hj & -> & _). rewrite (all_pairs_lookup i p j Ep Hj) in Eq.
  split_and!; [done | by apply (iter_key (wrapper_of i p Ep) j _ q Hw) | by apply (iter_value (wrapper_of i p Ep) j _ q Hw)].
Qed.

Section Steps.
Context (fuel : nat) (Hf : (length idx < fuel)%nat).

Lemma TwoLevel_Next_ok n it : two_level_at n it -> (n < length all_pairs)%nat ->
  ∃ it', TwoLevel_Next ndebug block_function fuel it = Some it' /\ two_level_at (S n) it'.
Proof.
  intros Hit Hn. unfold TwoLevel_Next. rewrite (two_level_valid n it Hit), bool_decide_true by done. rewrite assert_true. cbn [mbind option_bind].
  destruct (two_level_block n it Hit Hn) as (i & p & j & Ep & Hi & [Hw Eh] & Hj & -> & Hst).
  destruct (iter_Next (wrapper_of i p Ep) j _ Hw Hj) as (w & -> & Hw'). cbn [mbind option_bind].
  destruct (forward_ok fuel i (λ _, S j) (set_data w it)) as (it' & -> & Hit').
  { split; [done |]. split; [done |]. rewrite Ep. by exists (S j). } { apply lookup_lt_Some in Ep. lia. } { lia. }
  { intros r Er. rewrite Ep in Er. injection Er as <-. lia. }
  exists it'. split; [done |]. rewrite Ep in Hit'. by replace (S (first_of i + j)) with (first_of i + S j)%nat by lia.
Qed.

Lemma TwoLevel_Prev_ok n it : two_level_at n it -> (n < length all_pairs)%nat ->
  ∃ it', TwoLevel_Prev ndebug block_function fuel it = Some it' /\ two_level_at (if decide (n = 0)%nat then length all_pairs else n - 1)%nat it'.
Proof.
  intros Hit Hn. unfold TwoLevel_Prev. rewrite (two_level_valid n it Hit), bool_decide_true by done. rewrite assert_true. cbn [mbind option_bind].
  destruct (two_level_block n it Hit Hn) as (i & p & j & Ep & Hi & [Hw Eh] & Hj & -> & Hst).
  destruct (iter_Prev (wrapper_of i p Ep) j _ Hw Hj) as (w & -> & Hw'). cbn [mbind option_bind].
  destruct (backward_ok fuel i p (if decide (j = 0)%nat then length (blk p.2) else (j - 1)%nat) (set_data w it)) as (it' & -> & Hit');
    [done | done | done | split; [exact Hw' | done] | apply lookup_lt_Some in Ep; lia | case_decide; lia |].
  exists it'. split; [done |]. unfold last_before in Hit'. destruct (decide (j = 0)%nat) as [-> |].
  - rewrite decide_False in Hit' by lia. by rewrite Nat.add_0_r.
  - rewrite decide_True in Hit' by lia. rewrite decide_False by lia. by replace (first_of i + j - 1)%nat with (first_of i + (j - 1))%nat by lia.
Qed.

Lemma TwoLevel_SeekToFirst_ok n it : two_level_at n it ->
  ∃ it', TwoLevel_SeekToFirst ndebug block_function fuel it = Some it' /\ two_level_at 0 it'.
Proof.
  intros Hit. unfold TwoLevel_SeekToFirst.
  destruct (seek_block SeekToFirst SeekToFirst 0%nat (λ _, 0%nat) n it Hit) as (w & it1 & it2 & -> & E1 & E2 & H2).
  { intros k w Hw. by apply (iter_SeekToFirst (wrapper_iterates ndebug HI) k). } { intros p j w Ep Hw. by apply (iter_SeekToFirst (wrapper_of 0 p Ep) j). }
  cbn [mbind option_bind]. rewrite E1. cbn [mbind option_bind]. rewrite E2. cbn [mbind option_bind].
  destruct (forward_ok fuel 0 (λ _, 0%nat) it2 H2) as (it' & -> & Hit'); [lia.. |]. exists it'. split; [done |].
  destruct (idx !! 0%nat) as [p |] eqn:Ep; [done |]. apply lookup_ge_None_1 in Ep.
  assert (length all_pairs = 0)%nat as E0; [| by rewrite E0 in Hit']. rewrite <- first_of_all. by replace (length idx) with 0%nat by lia.
Qed.

Lemma TwoLevel_SeekToLast_ok n it : two_level_at n it ->
  ∃ it', TwoLevel_SeekToLast ndebug block_function fuel it = Some it' /\ two_level_at (length all_pairs - 1) it'.
Proof.
  intros Hit. unfold TwoLevel_SeekToLast.
  destruct (seek_block SeekToLast SeekToLast (length idx - 1)%nat (λ h, length (blk h) - 1)%nat n it Hit) as (w & it1 & it2 & -> & E1 & E2 & H2).
  { intros k w Hw. by apply (iter_SeekToLast (wrapper_iterates ndebug HI) k). } { intros p j w Ep Hw. by apply (iter_SeekToLast (wrapper_of _ p Ep) j). }
  cbn [mbind option_bind]. rewrite E1. cbn [mbind option_bind]. rewrite E2. cbn [mbind option_bind]. destruct H2 as (Hst2 & Hat2 & Hm).
  destruct (idx !! (length idx - 1)%nat) as [p |] eqn:Ep.
  - destruct Hm as (j & Hj & ->). pose proof (lookup_lt_Some _ _ _ Ep) as Hlt.
    destruct (backward_ok fuel _ p _ it2 Ep Hst2 Hat2 Hj) as (it' & -> & Hit'); [lia | lia |]. exists it'. split; [done |].
    pose proof (first_of_S _ p Ep) as ES. replace (S (length idx - 1)) with (length idx) in ES by lia. rewrite first_of_all in ES. unfold last_before in Hit'.
    case_decide; [| case_decide].
    + by replace (length all_pairs - 1)%nat with (first_of (length idx - 1) + (length (blk p.2) - 1))%nat by lia.
    + by replace (length all_pairs - 1)%nat with (length all_pairs) by lia.
    + by replace (length all_pairs - 1)%nat with (first_of (length idx - 1) - 1)%nat by lia.
  - apply lookup_ge_None_1 in Ep. assert (length idx = 0)%nat as E0 by lia.
    assert (length all_pairs = 0)%nat as El by (rewrite <- first_of_all, E0; done).
    destruct fuel as [| n']; [lia |]. cbn [SkipEmptyDataBlocksBackward]. rewrite (none_no_data it2 Hm), (index_valid _ it2 Hat2), bool_decide_false by lia. cbn [negb].
    destruct (SetDataIterator_none it2 Hst2) as (it' & -> & ? & Ei & ?); [by left |]. eexists. split; [done |]. split; [done |]. right.
    split; [lia |]. split; [done |]. unfold at_index. rewrite Ei. by replace (length idx) with (length idx - 1)%nat by lia.
Qed.

Lemma TwoLevel_Seek_ok n it t : two_level_at n it -> valid t ->
  ∃ it', TwoLevel_Seek ndebug block_function fuel t it = Some it' /\ two_level_at (lower all_pairs t) it'.
Proof.
  intros Hit Ht. unfold TwoLevel_Seek.
  destruct (seek_block (Seek t) (Seek t) (lower idx t) (λ h, lower (blk h) t) n it Hit) as (w & it1 & it2 & -> & E1 & E2 & H2).
  { intros k w Hw. by apply (iter_Seek (wrapper_iterates ndebug HI) k). } { intros p j w Ep Hw. by apply (iter_Seek (wrapper_of _ p Ep) j). }
  cbn [mbind option_bind]. rewrite E1. cbn [mbind option_bind]. rewrite E2. cbn [mbind option_bind].
  destruct (forward_ok fuel (lower idx t) (λ h, lower (blk h) t) it2 H2) as (it' & -> & Hit'); [apply lower_le | lia | intros; apply lower_le |].
  exists it'. split; [done |]. by rewrite (lower_all_pairs t Ht).
Qed.

Lemma two_level_iterates : iterates (H := TwoLevel_Iterator ndebug block_function fuel) valid two_level_at all_pairs.
Proof.
  split.
  - intros n it [_ [(i & p & j & Ep & _ & _ & Hj & ->) | (-> & _)]]; [| lia]. pose proof (first_of_bound i p j Ep Hj). lia.
  - apply two_level_valid.
  - intros n it q Hit Eq. destruct (two_level_read n it q Hit Eq) as (Hv & Hk & _). cbn [key TwoLevel_Iterator]. by rewrite Hv, assert_true.
  - intros n it q Hit Eq. destruct (two_level_read n it q Hit Eq) as (Hv & _ & Hk). cbn [value TwoLevel_Iterator]. by rewrite Hv, assert_true.
  - apply TwoLevel_Next_ok.
  - apply TwoLevel_Prev_ok.
  - apply TwoLevel_SeekToFirst_ok.
  - apply TwoLevel_SeekToLast_ok.
  - apply TwoLevel_Seek_ok.
  - intros n it Hit. cbn. unfold TwoLevel_status. destruct (two_level_index n it Hit) as [i Hi].
    assert (ok (status (index_iter_ it)) = true) as -> by by apply (iter_status (wrapper_iterates ndebug HI) i). cbn [negb].
    destruct (w_iter (data_iter_ it)) as [d |] eqn:Ed; [| apply Hit].
    pose proof (data_status_ok it d (two_level_data n it Hit) Ed) as Hd. cbn. rewrite Ed, Hd. apply Hit.
Qed.

(** A new iterator, over an index that is not valid yet. *)
Lemma new_TwoLevel_ok i : RI (length idx) i -> ∃ it, new_TwoLevel i = Some it /\ two_level_at (length all_pairs) it.
Proof.
  intros Hi. unfold new_TwoLevel. destruct (w_Set_ok HI (length idx) i new_Wrapper Hi) as (w & -> & Hw). cbn [mbind option_bind].
  eexists. split; [done |]. split; [done |]. by right.
Qed.
End Steps.
End Facts.
