(* ===== verification/TableBuilder.v ===== *)
(** * Building tables ([leveldb/table_builder.h], [table_builder.cc], [index_block.h], [index_block.cc], [table_properties.h], [table_properties.cc])

    A table is a sequence of data blocks, a filter block, a block of properties, a block that names these two, an index
    with one entry for each data block, and a footer. *)
From S2P Require Import Prelude Status Coding Comparator Crc32c Log Format BlockBuilder.
From S2P Require Import Filter FilterBlock.

(** ** Properties *)
Record TableProperties := MkTableProperties { first_key_ : Slice; tp_last_key_ : Slice; min_seq_ : Z; max_seq_ : Z }.
Definition TableProperties_Clear : TableProperties := MkTableProperties [] [] kMaxSequenceNumber 0.
Definition SetFirstKey (key : Slice) (p : TableProperties) : TableProperties := MkTableProperties key (tp_last_key_ p) (min_seq_ p) (max_seq_ p).
Definition SetLastKey (key : Slice) (p : TableProperties) : TableProperties := MkTableProperties (first_key_ p) key (min_seq_ p) (max_seq_ p).
Definition AddSeq (seq : Z) (p : TableProperties) : TableProperties :=
  MkTableProperties (first_key_ p) (tp_last_key_ p) (if seq <? min_seq_ p then seq else min_seq_ p) (if seq >? max_seq_ p then seq else max_seq_ p).
Definition TableProperties_EncodeTo (p : TableProperties) (dst : Slice) : Slice :=
  PutLengthPrefixedSlice (PutLengthPrefixedSlice (PutVarint64 (PutVarint64 dst (min_seq_ p)) (max_seq_ p)) (first_key_ p)) (tp_last_key_ p).
(** After an error some of the numbers may have been read. *)
Definition TableProperties_DecodeFrom (src : Slice) : Status * TableProperties :=
  let p := TableProperties_Clear in
  let bad := Err kCorruption "" in
  match GetVarint64 src with
  | None => (bad, p)
  | Some (mn, input) =>
      match GetVarint64 input with
      | None => (bad, MkTableProperties [] [] mn 0)
      | Some (mx, input) =>
          match GetLengthPrefixedSlice input with
          | None => (bad, MkTableProperties [] [] mn mx)
          | Some (first, input) =>
              match GetLengthPrefixedSlice input with
              | None => (bad, MkTableProperties [] [] mn mx)
              | Some (last, _) => (OK, MkTableProperties first last mn mx)
              end
          end
      end
  end.

(** ** The options a table depends on, but for the comparator *)
Record Options := MkOptions {
  block_size : Z; block_restart_interval : Z; index_block_restart_interval : Z;
  compression : Z; filter_policy : option FilterPolicy; paranoid_checks : bool
}.

(** A filter block keeps the policy it was made with; [compressed_output] is empty between the operations. *)
Record TableBuilder (W : Type) := MkTableBuilder {
  tb_options : Options; tb_file : W; tb_offset : Z; tb_status : Status;
  data_block : BlockBuilder; index_block : BlockBuilder; last_key : Slice;
  num_entries : Z; num_blocks : Z; closed : bool;
  filter_block : option (FilterPolicy * FilterBlockBuilder); props_ : TableProperties;
  pending_index_entry : bool; pending_handle : BlockHandle
}.
Arguments MkTableBuilder {W}. Arguments tb_options {W}. Arguments tb_file {W}. Arguments tb_offset {W}. Arguments tb_status {W}.
Arguments data_block {W}. Arguments index_block {W}. Arguments last_key {W}. Arguments num_entries {W}. Arguments num_blocks {W}.
Arguments closed {W}. Arguments filter_block {W}. Arguments props_ {W}. Arguments pending_index_entry {W}. Arguments pending_handle {W}.

Section Builder.
Context {W : Type} `{WritableFile W} `{Snappy} (C : Comparator) (ndebug : bool).
Implicit Types (r : TableBuilder W).

(** The statements that assign one or two of the fields. *)
Definition set_status (s : Status) r : TableBuilder W :=
  MkTableBuilder (tb_options r) (tb_file r) (tb_offset r) s (data_block r) (index_block r) (last_key r) (num_entries r) (num_blocks r) (closed r) (filter_block r) (props_ r) (pending_index_entry r) (pending_handle r).
Definition set_file (f : W) (s : Status) r : TableBuilder W :=
  MkTableBuilder (tb_options r) f (tb_offset r) s (data_block r) (index_block r) (last_key r) (num_entries r) (num_blocks r) (closed r) (filter_block r) (props_ r) (pending_index_entry r) (pending_handle r).
Definition set_offset (o : Z) r : TableBuilder W :=
  MkTableBuilder (tb_options r) (tb_file r) o (tb_status r) (data_block r) (index_block r) (last_key r) (num_entries r) (num_blocks r) (closed r) (filter_block r) (props_ r) (pending_index_entry r) (pending_handle r).
Definition set_data_block (b : BlockBuilder) r : TableBuilder W :=
  MkTableBuilder (tb_options r) (tb_file r) (tb_offset r) (tb_status r) b (index_block r) (last_key r) (num_entries r) (num_blocks r) (closed r) (filter_block r) (props_ r) (pending_index_entry r) (pending_handle r).
Definition set_index_block (b : BlockBuilder) (k : Slice) r : TableBuilder W :=
  MkTableBuilder (tb_options r) (tb_file r) (tb_offset r) (tb_status r) (data_block r) b k (num_entries r) (num_blocks r) (closed r) (filter_block r) (props_ r) (pending_index_entry r) (pending_handle r).
Definition set_entry (k : Slice) r : TableBuilder W :=
  MkTableBuilder (tb_options r) (tb_file r) (tb_offset r) (tb_status r) (data_block r) (index_block r) k (num_entries r + 1) (num_blocks r) (closed r) (filter_block r) (props_ r) (pending_index_entry r) (pending_handle r).
Definition count_block r : TableBuilder W :=
  MkTableBuilder (tb_options r) (tb_file r) (tb_offset r) (tb_status r) (data_block r) (index_block r) (last_key r) (num_entries r) (num_blocks r + 1) (closed r) (filter_block r) (props_ r) (pending_index_entry r) (pending_handle r).
Definition set_closed r : TableBuilder W :=
  MkTableBuilder (tb_options r) (tb_file r) (tb_offset r) (tb_status r) (data_block r) (index_block r) (last_key r) (num_entries r) (num_blocks r) true (filter_block r) (props_ r) (pending_index_entry r) (pending_handle r).
Definition set_filter_block (f : option (FilterPolicy * FilterBlockBuilder)) r : TableBuilder W :=
  MkTableBuilder (tb_options r) (tb_file r) (tb_offset r) (tb_status r) (data_block r) (index_block r) (last_key r) (num_entries r) (num_blocks r) (closed r) f (props_ r) (pending_index_entry r) (pending_handle r).
Definition set_props (p : TableProperties) r : TableBuilder W :=
  MkTableBuilder (tb_options r) (tb_file r) (tb_offset r) (tb_status r) (data_block r) (index_block r) (last_key r) (num_entries r) (num_blocks r) (closed r) (filter_block r) p (pending_index_entry r) (pending_handle r).
Definition set_pending (p : bool) (h : BlockHandle) r : TableBuilder W :=
  MkTableBuilder (tb_options r) (tb_file r) (tb_offset r) (tb_status r) (data_block r) (index_block r) (last_key r) (num_entries r) (num_blocks r) (closed r) (filter_block r) (props_ r) p h.
Definition set_options (o : Options) (d i : BlockBuilder) r : TableBuilder W :=
  MkTableBuilder o (tb_file r) (tb_offset r) (tb_status r) d i (last_key r) (num_entries r) (num_blocks r) (closed r) (filter_block r) (props_ r) (pending_index_entry r) (pending_handle r).

Definition new_TableBuilder (options : Options) (file : W) : option (TableBuilder W) :=
  fb ← match filter_policy options with
       | Some P => b ← StartBlock P ndebug 0 new_FilterBlockBuilder; Some (Some (P, b))
       | None => Some None
       end;
  Some (MkTableBuilder options file 0 OK (new_BlockBuilder (block_restart_interval options))
    (new_BlockBuilder (index_block_restart_interval options)) [] 0 0 false fb TableProperties_Clear false new_BlockHandle).

(** Whether the comparator is another one is an argument. *)
Definition ChangeOptions (other_comparator : bool) (options : Options) r : Status * TableBuilder W :=
  if other_comparator then (Err kInvalidArgument "changing comparator while building table", r)
  else (OK, set_options options (ChangeRestartInterval (block_restart_interval options) (data_block r))
              (ChangeRestartInterval (index_block_restart_interval options) (index_block r)) r).

(** [IndexBlockBuilder::AddIndexEntry]: the last key becomes the key of the entry. *)
Definition AddIndexEntry (last : Slice) (next_key : option Slice) (h : BlockHandle) (b : BlockBuilder) : option (Slice * BlockBuilder) :=
  last ← match next_key with Some next => FindShortestSeparator last next | None => FindShortSuccessor last end;
  encoding ← BlockHandle_EncodeTo ndebug h [];
  b ← BlockBuilder.Add ndebug (Some C) last encoding b;
  Some (last, b).

Definition WriteRawBlock (raw : Slice) (type : Z) r : option (BlockHandle * TableBuilder W) :=
  let handle := MkBlockHandle (tb_offset r) (|[raw]|) in
  let '(s, f) := wf_Append (tb_file r) raw in
  let r := set_file f s r in
  if negb (ok s) then Some (handle, r)
  else
    let trailer := [u8 type] ++ EncodeFixed32 (Mask (crc_Extend (crc_Value raw) [u8 type])) in
    let '(s, f) := wf_Append (tb_file r) trailer in
    let r := set_file f s r in
    Some (handle, if ok s then set_offset (u64 (tb_offset r + |[raw]| + kBlockTrailerSize)) r else r).

Definition WriteBlock (block_contents : Slice) r : option (BlockHandle * TableBuilder W) :=
  _ ← assert_ ndebug (ok (tb_status r));
  let type := compression (tb_options r) in
  let '(raw, type) :=
    if type =? kNoCompression then (block_contents, type)
    else if type =? kSnappyCompression then
      match Snappy_Compress block_contents with
      | Some compressed =>
          if |[compressed]| <? |[block_contents]| - |[block_contents]| / 8 then (compressed, type) else (block_contents, kNoCompression)
      | None => (block_contents, kNoCompression)
      end
    else ([], type) in
  WriteRawBlock raw type r.

(** [AddBlock] of the data block; the handle is the pending one. *)
Definition AddBlock r : option (TableBuilder W) :=
  '(contents, b) ← BlockBuilder.Finish ndebug kNoCompression false (data_block r);
  '(h, r) ← WriteBlock contents (set_data_block b r);
  Some (set_pending (pending_index_entry r) h (set_data_block (BlockBuilder.Reset b) r)).

Definition TableBuilder_Flush r : option (TableBuilder W) :=
  _ ← assert_ ndebug (negb (closed r));
  if negb (ok (tb_status r)) then Some r
  else if builder_empty (data_block r) then Some r
  else
    _ ← assert_ ndebug (negb (pending_index_entry r));
    r ← AddBlock r;
    if ok (tb_status r) then
      let r := set_pending true (pending_handle r) r in
      let '(s, f) := wf_Flush (tb_file r) in
      let r := set_file f s r in
      if ok s then
        let r := count_block r in
        match filter_block r with
        | Some (P, b) => b ← StartBlock P ndebug (tb_offset r) b; Some (set_filter_block (Some (P, b)) r)
        | None => Some r
        end
      else Some r
    else Some r.

Definition TableBuilder_Add (key value : Slice) r : option (TableBuilder W) :=
  _ ← assert_ ndebug (negb (closed r));
  if negb (ok (tb_status r)) then Some r
  else
    r ← (if 0 <? num_entries r then
           _ ← (if ndebug then Some tt else c ← Compare key (last_key r); assert_ ndebug (bool_decide (c = Gt))); Some r
         else Some (set_props (SetFirstKey key (props_ r)) r));
    let r := match ParseInternalKey key with Some parsed => set_props (AddSeq (sequence parsed) (props_ r)) r | None => r end in
    r ← (if pending_index_entry r then
           _ ← assert_ ndebug (builder_empty (data_block r));
           '(k, b) ← AddIndexEntry (last_key r) (Some key) (pending_handle r) (index_block r);
           Some (set_pending false (pending_handle r) (set_index_block b k r))
         else Some r);
    let r := match filter_block r with Some (P, b) => set_filter_block (Some (P, AddKey key b)) r | None => r end in
    let r := set_entry key r in
    d ← BlockBuilder.Add ndebug (Some C) key value (data_block r);
    let r := set_data_block d r in
    if block_size (tb_options r) <=? CurrentSizeEstimate d then TableBuilder_Flush r else Some r.

(** The steps of [Finish], each under [if (ok())]. *)
Definition Finish_filter r : option (BlockHandle * TableBuilder W) :=
  match ok (tb_status r), filter_block r with
  | true, Some (P, b) =>
      '(contents, b) ← FilterBlock_Finish P b;
      WriteRawBlock contents kNoCompression (set_filter_block (Some (P, b)) r)
  | _, _ => Some (new_BlockHandle, r)
  end.
Definition Finish_props r : option (BlockHandle * TableBuilder W) :=
  if ok (tb_status r) then
    let p := SetLastKey (last_key r) (props_ r) in
    WriteRawBlock (TableProperties_EncodeTo p []) kNoCompression (set_props p r)
  else Some (new_BlockHandle, r).
Definition Finish_metaindex (filter_handle props_handle : BlockHandle) r : option (BlockHandle * TableBuilder W) :=
  if ok (tb_status r) then
    let cmp := Some (BytewiseComparator ndebug) in
    b ← match filter_block r, filter_policy (tb_options r) with
        | Some _, Some P =>
            enc ← BlockHandle_EncodeTo ndebug filter_handle [];
            BlockBuilder.Add ndebug cmp (lit "filter." ++ @fp_Name P) enc (new_BlockBuilder 1)
        | Some _, None => None
        | None, _ => Some (new_BlockBuilder 1)
        end;
    enc ← BlockHandle_EncodeTo ndebug props_handle [];
    b ← BlockBuilder.Add ndebug cmp (lit "table.properties") enc b;
    '(contents, _) ← BlockBuilder.Finish ndebug kNoCompression false b;
    WriteRawBlock contents kNoCompression r
  else Some (new_BlockHandle, r).
Definition Finish_index r : option (BlockHandle * TableBuilder W) :=
  if ok (tb_status r) then
    r ← (if pending_index_entry r then
           '(k, b) ← AddIndexEntry (last_key r) None (pending_handle r) (index_block r);
           Some (set_pending false (pending_handle r) (set_index_block b k r))
         else Some r);
    '(contents, b) ← BlockBuilder.Finish ndebug kNoCompression false (index_block r);
    WriteBlock contents (set_index_block b (last_key r) r)
  else Some (new_BlockHandle, r).
Definition Finish_footer (metaindex_handle index_handle : BlockHandle) r : option (TableBuilder W) :=
  if ok (tb_status r) then
    enc ← Footer_EncodeTo ndebug (MkFooter metaindex_handle index_handle) [];
    let '(s, f) := wf_Append (tb_file r) enc in
    let r := set_file f s r in
    Some (if ok s then set_offset (u64 (tb_offset r + |[enc]|)) r else r)
  else Some r.

Definition TableBuilder_Finish r : option (Status * TableBuilder W) :=
  r ← TableBuilder_Flush r;
  _ ← assert_ ndebug (negb (closed r));
  let r := set_closed r in
  '(filter_handle, r) ← Finish_filter r;
  '(props_handle, r) ← Finish_props r;
  '(metaindex_handle, r) ← Finish_metaindex filter_handle props_handle r;
  '(index_handle, r) ← Finish_index r;
  r ← Finish_footer metaindex_handle index_handle r;
  Some (tb_status r, r).

Definition Abandon r : option (TableBuilder W) := _ ← assert_ ndebug (negb (closed r)); Some (set_closed r).
End Builder.
