(* ===== verification/Table.v ===== *)
(** * Tables ([leveldb/table.h], [table.cc])

    A table is opened from its footer and index; filters and properties are read when they can be.  Blocks are read
    through an optional block cache, which is an interface.  A pointer to an iterator of a block, or to an empty
    one that carries an error, is a sum. *)
From S2P Require Import Prelude Status Coding Comparator Iterator Log Format Block.
From S2P Require Import Filter FilterBlock TwoLevel TableBuilder.

(** The cache of blocks, for [Lookup] and [Insert] with the key and the charge. *)
Class BlockCache (K : Type) := {
  cache_Lookup : K -> Slice -> option Block * K;
  cache_Insert : K -> Slice -> Block -> Z -> K
}.
#[global] Instance unit_cache : BlockCache unit := { cache_Lookup k _ := (None, k); cache_Insert k _ _ _ := k }.

(** [verify_checksums], [fill_cache] and [limit]. *)
Record ReadOptions := MkReadOptions { verify_checksums : bool; fill_cache : bool; ro_limit : Z }.

Record Table (F : Type) := MkTable {
  t_options : Options; t_file : F; cache_id : Z;
  t_filter : option (FilterPolicy * FilterBlockReader);
  t_metaindex_handle : BlockHandle; t_index_block : Block;
  t_props : TableProperties; props_valid : bool
}.
Arguments MkTable {F}. Arguments t_options {F}. Arguments t_file {F}. Arguments cache_id {F}. Arguments t_filter {F}.
Arguments t_metaindex_handle {F}. Arguments t_index_block {F}. Arguments t_props {F}. Arguments props_valid {F}.

Section Table.
Context {F : Type} `{RandomAccessFile F} `{Snappy} (C : Comparator) (ndebug : bool).
Implicit Types (t : Table F).

(** What [Block::NewIterator] gives. *)
Abbreviation AnyIter := (BlockIter + EmptyIterator)%type.
#[local] Instance block_iter (C' : Comparator) : Iterator AnyIter :=
  @Sum_Iterator _ _ (BlockIter_Iterator (C := C') ndebug) (EmptyIterator_Iterator ndebug).

Definition set_filter (f : FilterPolicy * FilterBlockReader) t : Table F :=
  MkTable (t_options t) (t_file t) (cache_id t) (Some f) (t_metaindex_handle t) (t_index_block t) (t_props t) (props_valid t).
Definition set_table_props (p : TableProperties) (valid : bool) t : Table F :=
  MkTable (t_options t) (t_file t) (cache_id t) (t_filter t) (t_metaindex_handle t) (t_index_block t) p valid.

(** A block that a handle in a string points to, for the two blocks of [ReadMeta]; [None] inside is an early return. *)
Definition read_handle (handle_value : Slice) t : option (option Slice) :=
  let '(s, handle, _) := BlockHandle_DecodeFrom new_BlockHandle handle_value in
  if negb (ok s) then Some None
  else
    '(s, block) ← ReadBlock (t_file t) (paranoid_checks (t_options t)) handle;
    Some (if ok s then Some (bc_data block) else None).

Definition ReadFilter (P : FilterPolicy) (handle_value : Slice) t : option (Table F) :=
  block ← read_handle handle_value t;
  match block with
  | Some data => r ← new_FilterBlockReader data; Some (set_filter (P, r) t)
  | None => Some t
  end.
Definition ReadProperties (props_handle_value : Slice) t : option (Table F) :=
  block ← read_handle props_handle_value t;
  match block with
  | Some data => let '(s, p) := TableProperties_DecodeFrom data in Some (set_table_props p (props_valid t || ok s) t)
  | None => Some t
  end.

(** Seek for a name in the meta index, and the value when it is there. *)
Definition meta_find (name : Slice) (iter : AnyIter) : option (option Slice * AnyIter) :=
  let B := block_iter (BytewiseComparator ndebug) in
  iter ← @Seek _ B name iter;
  if @Valid _ B iter then
    k ← @key _ B iter;
    if bool_decide (k = name) then v ← @value _ B iter; Some (Some v, iter) else Some (None, iter)
  else Some (None, iter).

Definition ReadMeta (footer : Footer) t : option (Table F) :=
  '(s, contents) ← ReadBlock (t_file t) (paranoid_checks (t_options t)) (metaindex_handle footer);
  if negb (ok s) then Some t
  else
    meta ← new_Block (bc_data contents);
    iter ← Block_NewIterator ndebug meta;
    '(v, iter) ← meta_find (lit "table.properties") iter;
    t ← match v with Some v => ReadProperties v t | None => Some t end;
    match filter_policy (t_options t) with
    | Some P =>
        '(v, _) ← meta_find (lit "filter." ++ @fp_Name P) iter;
        match v with Some v => ReadFilter P v t | None => Some t end
    | None => Some t
    end.

(** [new_id] is what [NewId] of the block cache gives, or 0. *)
Definition Open (options : Options) (file : F) (size new_id : Z) : option (Status * option (Table F)) :=
  if size <? kEncodedLength then Some (Err kCorruption "file is too short to be an sstable", None)
  else
    let '(s, footer_input, _) := raf_Read file (size - kEncodedLength) kEncodedLength in
    if negb (ok s) then Some (s, None)
    else
      '(s, footer, _) ← Footer_DecodeFrom (MkFooter new_BlockHandle new_BlockHandle) footer_input;
      if negb (ok s) then Some (s, None)
      else
        '(s, contents) ← ReadBlock file (paranoid_checks options) (index_handle footer);
        if negb (ok s) then Some (s, None)
        else
          index ← new_Block (bc_data contents);
          let t := MkTable options file new_id None (metaindex_handle footer) index TableProperties_Clear false in
          t ← ReadMeta footer t; Some (s, Some t).

(** ** Reading *)
Section Cached.
Context {K : Type} `{BlockCache K}.

(** The iterator over the block of a handle, and the cache. *)
Definition BlockReader t (options : ReadOptions) (block_cache : option K) (index_value : Slice) : option (AnyIter * option K) :=
  let '(s, handle, _) := BlockHandle_DecodeFrom new_BlockHandle index_value in
  '(s, block, cache) ←
    (if ok s then
       match block_cache with
       | Some cache =>
           let key := EncodeFixed64 (cache_id t) ++ EncodeFixed64 (bh_offset handle) in
           match cache_Lookup cache key with
           | (Some block, cache) => Some (s, Some block, Some cache)
           | (None, cache) =>
               '(s, contents) ← ReadBlock (t_file t) (verify_checksums options) handle;
               if ok s then
                 block ← new_Block (bc_data contents);
                 Some (s, Some block, Some (if cachable contents && fill_cache options then cache_Insert cache key block (size_ block) else cache))
               else Some (s, None, Some cache)
           end
       | None =>
           '(s, contents) ← ReadBlock (t_file t) (verify_checksums options) handle;
           if ok s then block ← new_Block (bc_data contents); Some (s, Some block, None) else Some (s, None, None)
       end
     else Some (s, None, block_cache));
  match block with
  | Some block => iter ← Block_NewIterator ndebug block; Some (iter, cache)
  | None => Some (inr (NewErrorIterator s), cache)
  end.

(** The pair is what the saver is called with; it is not called when there is none. *)
Definition InternalGet t (options : ReadOptions) (block_cache : option K) (k : Slice) : option (Status * option (Slice * Slice) * option K) :=
  let B := block_iter C in
  iiter ← Block_NewIterator ndebug (t_index_block t);
  iiter ← @Seek _ B k iiter;
  '(s, saved, cache) ←
    (if @Valid _ B iiter then
       handle_value ← @value _ B iiter;
       absent ← match t_filter t with
                | Some (P, filter) =>
                    let '(s, handle, _) := BlockHandle_DecodeFrom new_BlockHandle handle_value in
                    if ok s then m ← FilterBlock_KeyMayMatch P filter (bh_offset handle) k; Some (negb m) else Some false
                | None => Some false
                end;
       if (absent : bool) then Some (OK, None, block_cache)
       else
         '(block_iter, cache) ← BlockReader t options block_cache handle_value;
         block_iter ← @Seek _ B k block_iter;
         saved ← (if @Valid _ B block_iter then
                    v ← (if negb (ro_limit options =? 0) then @value _ B block_iter else Some []);
                    bk ← @key _ B block_iter; Some (Some (bk, v))
                  else Some None);
         Some (@status _ B block_iter, saved, cache)
     else Some (OK, None, block_cache));
  Some (if ok s then @status _ B iiter else s, saved, cache).
End Cached.

(** The iterator of a table without a block cache; the index has no more entries than its block has bytes. *)
Definition table_block t (options : ReadOptions) (index_value : Slice) : option AnyIter :=
  '(iter, _) ← BlockReader (K := unit) t options None index_value; Some iter.
Definition Table_fuel t : nat := S (length (data_ (t_index_block t))).
#[local] Instance any_iter : Iterator AnyIter := block_iter C.
Definition Table_Iterator t (options : ReadOptions) : Iterator (TwoLevelIterator AnyIter AnyIter) :=
  TwoLevel_Iterator ndebug (table_block t options) (Table_fuel t).
Definition Table_NewIterator t : option (TwoLevelIterator AnyIter AnyIter) :=
  iiter ← Block_NewIterator ndebug (t_index_block t); new_TwoLevel iiter.

Definition ApproximateOffsetOf t (k : Slice) : option Z :=
  let B := block_iter C in
  index_iter ← Block_NewIterator ndebug (t_index_block t);
  index_iter ← @Seek _ B k index_iter;
  if @Valid _ B index_iter then
    v ← @value _ B index_iter;
    let '(s, handle, _) := BlockHandle_DecodeFrom new_BlockHandle v in
    Some (if ok s then bh_offset handle else bh_offset (t_metaindex_handle t))
  else Some (bh_offset (t_metaindex_handle t)).

Definition GetProperties t : option TableProperties := if props_valid t then Some (t_props t) else None.
End Table.
