(* ===== verification/TableFacts.v ===== *)
(** * Facts about the format of tables

    Handles and footers are read back; the data blocks of a table under construction, the entries of its index, and
    the file they make. *)
From stdpp Require Import sorting.
From S2P Require Import Prelude Status Coding Comparator Iterator Crc32c Crc32cProps LogFacts.
From S2P Require Import Format BlockBuilder Block BlockProps BuilderProps TableBuilder.

(** ** Handles and footers *)
Definition enc_handle (h : BlockHandle) : Slice := EncodeVarint64 (bh_offset h) ++ EncodeVarint64 (bh_size h).
Definition handle_ok (h : BlockHandle) : Prop := 0 <= bh_offset h < 2 ^ 64 - 1 /\ 0 <= bh_size h < 2 ^ 64 - 1.

Lemma handle_words h : handle_ok h -> word 64 (bh_offset h) /\ word 64 (bh_size h).
Proof. intros [? ?]. split; split; lia. Qed.
Lemma handle_size h : |[enc_handle h]| <= 20.
Proof.
  unfold enc_handle. rewrite slice_size_app. unfold slice_size. pose proof (length_EncodeVarint64 (bh_offset h)). pose proof (length_EncodeVarint64 (bh_size h)). lia.
Qed.
Lemma EncodeTo_ok ndebug h dst : handle_ok h -> BlockHandle_EncodeTo ndebug h dst = Some (dst ++ enc_handle h).
Proof.
  intros [Ho Hs]. unfold BlockHandle_EncodeTo. rewrite !assert_bool by (apply negb_true_iff, Z.eqb_neq; change (u64 (-1)) with (2 ^ 64 - 1); lia).
  cbn [mbind option_bind]. unfold PutVarint64, enc_handle. by rewrite app_assoc.
Qed.
Lemma DecodeFrom_ok h0 h rest : handle_ok h -> BlockHandle_DecodeFrom h0 (enc_handle h ++ rest) = (OK, h, rest).
Proof.
  intros [Ho Hs]%handle_words. unfold BlockHandle_DecodeFrom, enc_handle. rewrite <- app_assoc, GetVarint64_encode, GetVarint64_encode by done. by destruct h.
Qed.
Lemma enc_handle_inj h h' : handle_ok h -> handle_ok h' -> enc_handle h = enc_handle h' -> h = h'.
Proof.
  intros H H' E. pose proof (DecodeFrom_ok h h [] H) as D. rewrite E, DecodeFrom_ok in D by done. by injection D.
Qed.

Definition enc_footer (m i : BlockHandle) : Slice :=
  resize (2 * kMaxEncodedLength) (enc_handle m ++ enc_handle i) ++ EncodeFixed32 (Z.land kTableMagicNumber 0xffffffff) ++ EncodeFixed32 (u32 (Z.shiftr kTableMagicNumber 32)).

Lemma resize_handles m i (t : Slice) : ∃ pad, resize (2 * kMaxEncodedLength) (enc_handle m ++ enc_handle i) ++ t = enc_handle m ++ enc_handle i ++ pad ++ t /\
  |[enc_handle m ++ enc_handle i ++ pad]| = 40.
Proof.
  pose proof (handle_size m) as Hm. pose proof (handle_size i) as Hi. unfold resize. change (2 * kMaxEncodedLength) with 40.
  rewrite slice_size_app. destruct (Z.leb_spec 40 (|[enc_handle m]| + |[enc_handle i]|)).
  - exists []. rewrite take_whole by (rewrite slice_size_app; lia). rewrite app_nil_r, <- app_assoc, slice_size_app. split; [done | lia].
  - exists (replicate (Z.to_nat (40 - (|[enc_handle m]| + |[enc_handle i]|))) 0). rewrite <- !app_assoc. split; [done |]. rewrite !slice_size_app. unfold slice_size at 3. rewrite length_replicate. lia.
Qed.
Lemma enc_footer_size m i : |[enc_footer m i]| = kEncodedLength.
Proof.
  unfold enc_footer. destruct (resize_handles m i []) as (pad & E & Hs). rewrite !app_nil_r in E. rewrite slice_size_app, E, Hs, slice_size_app.
  unfold slice_size. rewrite !length_EncodeFixed32. done.
Qed.

Lemma Footer_EncodeTo_ok ndebug m i : handle_ok m -> handle_ok i -> Footer_EncodeTo ndebug (MkFooter m i) [] = Some (enc_footer m i).
Proof.
  intros Hm Hi. unfold Footer_EncodeTo. cbn [metaindex_handle index_handle]. rewrite EncodeTo_ok by done. cbn [mbind option_bind app].
  rewrite EncodeTo_ok by done. cbn [mbind option_bind]. unfold PutFixed32. rewrite <- app_assoc. fold (enc_footer m i).
  rewrite assert_bool; [done |]. apply Z.eqb_eq. by rewrite enc_footer_size.
Qed.
Lemma Footer_DecodeFrom_ok f m i : handle_ok m -> handle_ok i -> ∃ rest, Footer_DecodeFrom f (enc_footer m i) = Some (OK, MkFooter m i, rest).
Proof.
  intros Hm Hi. unfold Footer_DecodeFrom, enc_footer.
  set (lo := Z.land kTableMagicNumber 0xffffffff) in *. set (hi := u32 (Z.shiftr kTableMagicNumber 32)) in *.
  assert (Z.lor (u64 (Z.shiftl (u32 hi) 32)) (u32 lo) = kTableMagicNumber) as Emagic by by_compute. clearbody lo hi.
  destruct (resize_handles m i (EncodeFixed32 lo ++ EncodeFixed32 hi)) as (pad & E & Hs). rewrite E.
  assert (drop (Z.to_nat (kEncodedLength - 8)) (enc_handle m ++ enc_handle i ++ pad ++ EncodeFixed32 lo ++ EncodeFixed32 hi) = EncodeFixed32 lo ++ EncodeFixed32 hi) as ->.
  { replace (kEncodedLength - 8) with (|[enc_handle m ++ enc_handle i ++ pad]|) by (rewrite Hs; done).
    assert (∀ a b c t : Slice, a ++ b ++ c ++ t = (a ++ b ++ c) ++ t) as -> by (intros; by rewrite <- !app_assoc). apply drop_slice_size. }
  rewrite DecodeFixed32_wrap. cbn [mbind option_bind]. change (drop 4 (EncodeFixed32 lo ++ EncodeFixed32 hi)) with (EncodeFixed32 hi).
  rewrite <- (app_nil_r (EncodeFixed32 hi)), DecodeFixed32_wrap. cbn [mbind option_bind].
  rewrite Emagic, Z.eqb_refl. cbn [negb].
  rewrite DecodeFrom_ok by done. change (ok OK) with true. cbn match. rewrite DecodeFrom_ok by done. change (ok OK) with true. cbn match. by eexists.
Qed.

(** ** Properties are read back *)
Lemma TableProperties_roundtrip p rest : word 64 (min_seq_ p) -> word 64 (max_seq_ p) -> |[first_key_ p]| < 2 ^ 32 -> |[tp_last_key_ p]| < 2 ^ 32 ->
  TableProperties_DecodeFrom (TableProperties_EncodeTo p [] ++ rest) = (OK, p).
Proof.
  intros Hmn Hmx Hf Hl. unfold TableProperties_DecodeFrom, TableProperties_EncodeTo, PutVarint64. rewrite !PutLengthPrefixedSlice_app, <- !app_assoc. cbn [app].
  rewrite GetVarint64_encode, GetVarint64_encode by done.
  rewrite GetLengthPrefixedSlice_encode by (unfold word; pose proof (slice_size_nonneg (first_key_ p)); lia).
  rewrite GetLengthPrefixedSlice_encode by (unfold word; pose proof (slice_size_nonneg (tp_last_key_ p)); lia). by destruct p.
Qed.

(** ** The data blocks of a file *)
Record WBlock := MkWBlock { w_es : list Item; w_rs : list nat; w_raw : Slice; w_type : Z }.
Definition w_pairs (b : WBlock) : Pairs := pairs (w_es b).
Definition costs (l : Pairs) : Z := foldr (λ p z, cost p + z) 0 l.

Lemma cost_pos p : 19 <= cost p.
Proof. unfold cost. pose proof (slice_size_nonneg p.1). pose proof (slice_size_nonneg p.2). lia. Qed.
Lemma costs_app l1 l2 : costs (l1 ++ l2) = costs l1 + costs l2.
Proof. induction l1 as [| p l1 IH]; [done |]. cbn [app costs foldr]. fold (costs (l1 ++ l2)) (costs l1). lia. Qed.
Lemma costs_length l : 19 * Z.of_nat (length l) <= costs l.
Proof. induction l as [| p l IH]; [done |]. cbn [length costs foldr]. fold (costs l). pose proof (cost_pos p). lia. Qed.
Lemma costs_nonneg l : 0 <= costs l.
Proof. pose proof (costs_length l). lia. Qed.

Section Layout.
Context `{SnappyLaws}.

Record wblock_ok (b : WBlock) : Prop := {
  wb_block : block_ok (w_es b) (w_rs b);
  wb_pos : w_es b <> [];
  wb_bytes : bytes (w_raw b);
  wb_type : word 8 (w_type b);
  wb_unpack : unpack (w_type b) (w_raw b) = Some (block_bytes (w_es b) (w_rs b));
  wb_size : |[w_raw b]| <= 8 + costs (w_pairs b)
}.

Implicit Types (bs : list WBlock).
Definition file_of bs : Slice := concat ((λ b, stored (w_raw b) (w_type b)) <$> bs).
Definition w_handle bs (i : nat) (b : WBlock) : BlockHandle := MkBlockHandle (|[file_of (take i bs)]|) (|[w_raw b]|).
Definition block_pairs bs : Pairs := concat (w_pairs <$> bs).
Definition start bs (i : nat) : nat := length (block_pairs (take i bs)).

Lemma stored_size raw type : |[stored raw type]| = |[raw]| + 5.
Proof. unfold stored. rewrite !slice_size_app. unfold slice_size. rewrite length_EncodeFixed32. cbn. lia. Qed.
Lemma file_of_app bs bs' : file_of (bs ++ bs') = file_of bs ++ file_of bs'.
Proof. unfold file_of. by rewrite fmap_app, concat_app. Qed.
Lemma file_of_snoc bs b : file_of (bs ++ [b]) = file_of bs ++ stored (w_raw b) (w_type b).
Proof. rewrite file_of_app. unfold file_of at 2. cbn. by rewrite app_nil_r. Qed.
Lemma file_of_split bs i b : bs !! i = Some b -> file_of bs = file_of (take i bs) ++ stored (w_raw b) (w_type b) ++ file_of (drop (S i) bs).
Proof. intros E. rewrite <- (take_drop_middle bs i b E) at 1. rewrite file_of_app. done. Qed.

Lemma block_pairs_app bs bs' : block_pairs (bs ++ bs') = block_pairs bs ++ block_pairs bs'.
Proof. unfold block_pairs. by rewrite fmap_app, concat_app. Qed.
Lemma block_pairs_snoc bs b : block_pairs (bs ++ [b]) = block_pairs bs ++ w_pairs b.
Proof. rewrite block_pairs_app. unfold block_pairs at 2. cbn. by rewrite app_nil_r. Qed.
Lemma start_S bs i b : bs !! i = Some b -> start bs (S i) = (start bs i + length (w_pairs b))%nat.
Proof. intros E. unfold start. by rewrite (take_S_r bs i b E), block_pairs_snoc, length_app. Qed.
Lemma start_all bs n : (length bs <= n)%nat -> start bs n = length (block_pairs bs).
Proof. intros. unfold start. by rewrite take_ge. Qed.
Lemma start_snoc bs b i : (i <= length bs)%nat -> start (bs ++ [b]) i = start bs i.
Proof. intros. unfold start. by rewrite take_app_le. Qed.
Lemma w_handle_snoc bs b i c : (i <= length bs)%nat -> w_handle (bs ++ [b]) i c = w_handle bs i c.
Proof. intros. unfold w_handle. by rewrite take_app_le. Qed.
Lemma start_mono bs i j : (i <= j)%nat -> (start bs i <= start bs j)%nat.
Proof.
  intros Hij. unfold start. replace (take i bs) with (take i (take j bs)) by by rewrite take_take, Nat.min_l.
  assert (block_pairs (take j bs) = block_pairs (take i (take j bs)) ++ block_pairs (drop i (take j bs))) as E by by rewrite <- block_pairs_app, take_drop.
  apply (f_equal length) in E. rewrite length_app in E. lia.
Qed.
Lemma block_pairs_lookup bs i b j : bs !! i = Some b -> (j < length (w_pairs b))%nat -> block_pairs bs !! (start bs i + j)%nat = w_pairs b !! j.
Proof.
  intros E Hj. assert (block_pairs bs = block_pairs (take i bs) ++ w_pairs b ++ block_pairs (drop (S i) bs)) as ->.
  { rewrite <- (take_drop_middle bs i b E) at 1. by rewrite block_pairs_app. }
  unfold start. rewrite lookup_app_r by lia. rewrite Nat.add_comm, Nat.add_sub. by apply lookup_app_l.
Qed.

Lemma w_pairs_pos b : wblock_ok b -> (0 < length (w_pairs b))%nat.
Proof. intros Hb. unfold w_pairs, pairs. rewrite length_fmap. pose proof (wb_pos b Hb). destruct (w_es b); [done | cbn; lia]. Qed.
Lemma start_lt bs i : Forall wblock_ok bs -> (i < length bs)%nat -> (start bs i < start bs (S i))%nat.
Proof.
  intros Hb Hi. destruct (lookup_lt_is_Some_2 bs i Hi) as [b E]. rewrite (start_S bs i b E).
  rewrite list.Forall_forall in Hb. pose proof (w_pairs_pos b (Hb b (list_elem_of_lookup_2 _ _ _ E))). lia.
Qed.

(** A file costs at most twice its pairs. *)
Lemma file_of_size bs : Forall wblock_ok bs -> 0 <= |[file_of bs]| <= 2 * costs (block_pairs bs).
Proof.
  intros Hb. split; [apply slice_size_nonneg |]. induction Hb as [| b bs Hb Hbs IH]; [done |].
  change (file_of (b :: bs)) with (stored (w_raw b) (w_type b) ++ file_of bs). change (block_pairs (b :: bs)) with (w_pairs b ++ block_pairs bs).
  rewrite slice_size_app, costs_app, stored_size. pose proof (wb_size b Hb). pose proof (w_pairs_pos b Hb). pose proof (costs_length (w_pairs b)). lia.
Qed.

Lemma w_handle_ok bs i b : Forall wblock_ok bs -> bs !! i = Some b -> 2 * costs (block_pairs bs) < 2 ^ 64 - 1 -> handle_ok (w_handle bs i b).
Proof.
  intros Hb E Hsz. pose proof (file_of_size bs Hb) as Hf. rewrite (file_of_split bs i b E), !slice_size_app, stored_size in Hf.
  pose proof (slice_size_nonneg (w_raw b)). pose proof (slice_size_nonneg (file_of (take i bs))). pose proof (slice_size_nonneg (file_of (drop (S i) bs))).
  unfold handle_ok, w_handle. cbn [bh_offset bh_size]. lia.
Qed.

(** Handles of different blocks are different. *)
Lemma w_handle_inj bs i j b c : bs !! i = Some b -> bs !! j = Some c -> w_handle bs i b = w_handle bs j c -> i = j.
Proof.
  assert (∀ i j b, bs !! i = Some b -> (i < j)%nat -> |[file_of (take i bs)]| < |[file_of (take j bs)]|) as Hlt.
  { clear. intros i j b E Hij. rewrite <- (take_drop (S i) (take j bs)), take_take, Nat.min_l by lia.
    rewrite (take_S_r bs i b E), !file_of_app, !slice_size_app. unfold file_of at 3. cbn. rewrite app_nil_r, stored_size.
    pose proof (slice_size_nonneg (w_raw b)). match goal with |- context [ |[file_of (drop ?a ?x)]| ] => pose proof (slice_size_nonneg (file_of (drop a x))) end. lia. }
  intros Ei Ej [= Eo _]. destruct (lt_eq_lt_dec i j) as [[Hij | ?] | Hij]; [| done |].
  - pose proof (Hlt i j b Ei Hij). lia.
  - pose proof (Hlt j i c Ej Hij). lia.
Qed.
End Layout.

(** ** The entries of the index *)

(** What a table asks of its comparator besides its contract: short separators, which are below every key that is
    the same as the key that follows. *)
Class TableOrder (C : Comparator) (valid : Slice -> Prop) (same : Slice -> Slice -> Prop) := {
  to_laws :: ComparatorLaws C valid;
  to_bytes k : valid k -> bytes k;
  to_same k : valid k -> same k k;
  to_sep_size a b s : valid a -> valid b -> FindShortestSeparator a b = Some s -> |[s]| <= |[a]|;
  to_succ_size a s : valid a -> FindShortSuccessor a = Some s -> |[s]| <= |[a]|;
  to_sep_tight a b s k : valid a -> valid b -> valid k -> Compare a b = Some Lt -> FindShortestSeparator a b = Some s ->
    same b k -> Compare a k = Some Lt -> Compare s k = Some Lt
}.

Section Entries.
Context {C : Comparator} {valid : Slice -> Prop} {same : Slice -> Slice -> Prop} `{!TableOrder C valid same} `{SnappyLaws}.
Implicit Types (bs : list WBlock) (l idx : Pairs).

(** The entry of block [i]: its handle, and a separator between its last key and the key behind it. *)
Record entry_ok l bs (i : nat) (p : Slice * Slice) (b : WBlock) : Prop := {
  en_handle : p.2 = enc_handle (w_handle bs i b);
  en_valid : valid p.1;
  en_size : |[p.1]| <= costs (w_pairs b);
  en_last q : list.last (w_pairs b) = Some q -> Compare q.1 p.1 <> Some Gt;
  en_next q k : l !! start bs (S i) = Some q -> valid k -> same q.1 k -> (∀ q', list.last (w_pairs b) = Some q' -> Compare q'.1 k = Some Lt) -> Compare p.1 k = Some Lt
}.
Definition entries_ok l bs idx : Prop := ∀ i p, idx !! i = Some p -> ∃ b, bs !! i = Some b /\ entry_ok l bs i p b.

(** More pairs behind the key that follows an entry change nothing. *)
Lemma entries_grow l l' bs idx : entries_ok l bs idx -> (∀ i, (i < length idx)%nat -> (start bs (S i) < length l)%nat) -> entries_ok (l ++ l') bs idx.
Proof.
  intros He Hs i p E. destruct (He i p E) as (b & Eb & [? ? ? ? Hn]). exists b. split; [done |]. split; try done.
  intros q k Eq. apply Hn. rewrite lookup_app_l in Eq; [done |]. apply Hs. by eapply lookup_lt_Some.
Qed.
(** So does another block. *)
Lemma entries_block l bs b idx : entries_ok l bs idx -> entries_ok l (bs ++ [b]) idx.
Proof.
  intros He i p E. destruct (He i p E) as (c & Eb & [Eh ? ? ? Hn]). pose proof (lookup_lt_Some _ _ _ Eb). exists c.
  split; [by apply lookup_app_l_Some |]. split; try done.
  - by rewrite w_handle_snoc by lia.
  - intros q k. rewrite start_snoc by lia. apply Hn.
Qed.

Lemma pair_cost b q : q ∈ w_pairs b -> |[q.1]| <= costs (w_pairs b) - 19.
Proof.
  intros [i E]%list_elem_of_lookup. rewrite <- (take_drop_middle _ i q E), costs_app. cbn [costs foldr]. fold (costs (drop (S i) (w_pairs b))).
  pose proof (costs_nonneg (take i (w_pairs b))). pose proof (costs_nonneg (drop (S i) (w_pairs b))). unfold cost. pose proof (slice_size_nonneg q.2). lia.
Qed.

(** The entry made when the next key comes, and the one made at the end. *)
Lemma separator_ok l bs b q key v : sorted_pairs valid (l ++ [(key, v)]) -> l = block_pairs bs -> list.last bs = Some b -> list.last (w_pairs b) = Some q ->
  ∃ sep, FindShortestSeparator q.1 key = Some sep /\ entry_ok (l ++ [(key, v)]) bs (length bs - 1) (sep, enc_handle (w_handle bs (length bs - 1) b)) b.
Proof.
  intros Hs -> Eb Eq. rewrite last_lookup in Eb. assert (length bs <> 0%nat) as Hpos by (destruct bs; [done | cbn; lia]).
  assert (q ∈ w_pairs b) as Hin by (rewrite last_lookup in Eq; by eapply list_elem_of_lookup_2).
  replace (Nat.pred (length bs)) with (length bs - 1)%nat in Eb by lia.
  assert (block_pairs bs !! (length (block_pairs bs) - 1)%nat = Some q) as Elast.
  { pose proof (start_S bs _ b Eb) as ES. replace (S (length bs - 1)) with (length bs) in ES by lia. rewrite start_all in ES by lia.
    rewrite last_lookup in Eq. pose proof (lookup_lt_Some _ _ _ Eq). replace (length (block_pairs bs) - 1)%nat with (start bs (length bs - 1) + Nat.pred (length (w_pairs b)))%nat by lia.
    by rewrite (block_pairs_lookup bs _ b) by (done || lia). }
  assert (valid q.1 /\ valid key) as [Hvq Hvk].
  { split; [eapply (sorted_pairs_valid _ (length (block_pairs bs) - 1) q Hs) | eapply (sorted_pairs_valid _ (length (block_pairs bs)) (key, v) Hs)].
    - apply lookup_app_l_Some. done.
    - by rewrite list_lookup_middle. }
  assert (Compare q.1 key = Some Lt) as Hlt.
  { pose proof (lookup_lt_Some _ _ _ Elast). apply (sorted_pairs_lookup _ (length (block_pairs bs) - 1) (length (block_pairs bs)) q (key, v) Hs); [by apply lookup_app_l_Some | by rewrite list_lookup_middle | lia]. }
  destruct (FindShortestSeparator_ok q.1 key Hvq Hvk Hlt) as (sep & E & Hv & Hle & Hlt'). exists sep. split; [done |].
  split; cbn [fst snd]; try done.
  - pose proof (to_sep_size q.1 key sep Hvq Hvk E). pose proof (pair_cost b q Hin). lia.
  - intros q' Eq'. rewrite Eq in Eq'. by injection Eq' as <-.
  - intros q' k Eq' Hk Hsame Hlk. replace (S (length bs - 1)) with (length bs) in Eq' by lia. rewrite start_all, list_lookup_middle in Eq' by (done || lia).
    injection Eq' as <-. apply (to_sep_tight q.1 key sep k); auto.
Qed.
Lemma successor_ok bs b q : sorted_pairs valid (block_pairs bs) -> list.last bs = Some b -> list.last (w_pairs b) = Some q ->
  ∃ sep, FindShortSuccessor q.1 = Some sep /\ entry_ok (block_pairs bs) bs (length bs - 1) (sep, enc_handle (w_handle bs (length bs - 1) b)) b.
Proof.
  intros Hs Eb Eq. rewrite last_lookup in Eb. assert (length bs <> 0%nat) as Hpos by (destruct bs; [done | cbn; lia]).
  replace (Nat.pred (length bs)) with (length bs - 1)%nat in Eb by lia.
  rewrite last_lookup in Eq. pose proof (lookup_lt_Some _ _ _ Eq) as Hl.
  assert (valid q.1) as Hvq.
  { eapply (sorted_pairs_valid _ (start bs (length bs - 1) + Nat.pred (length (w_pairs b)))%nat q Hs). by rewrite (block_pairs_lookup bs _ b). }
  destruct (FindShortSuccessor_ok q.1 Hvq) as (sep & E & Hv & Hle). exists sep. split; [done |]. split; cbn [fst snd]; try done.
  - pose proof (to_succ_size q.1 sep Hvq E). pose proof (pair_cost b q (list_elem_of_lookup_2 _ _ _ Eq)). lia.
  - intros q' Eq'. rewrite last_lookup, Eq in Eq'. by injection Eq' as <-.
  - intros q' k Eq'. replace (S (length bs - 1)) with (length bs) in Eq' by lia. rewrite start_all in Eq' by lia. apply lookup_lt_Some in Eq'. lia.
Qed.

(** One more entry. *)
Lemma entries_snoc l bs idx p b : entries_ok l bs idx -> bs !! length idx = Some b -> entry_ok l bs (length idx) p b -> entries_ok l bs (idx ++ [p]).
Proof.
  intros He Eb Hp i r E. apply lookup_app_Some in E as [E | [Hi E]]; [by apply He |].
  apply list_lookup_singleton_Some in E as [Ei <-]. replace i with (length idx) by lia. by exists b.
Qed.

(** The separators are increasing. *)
Lemma entries_sorted l bs idx : sorted_pairs valid l -> (∃ tl, l = block_pairs bs ++ tl) -> Forall wblock_ok bs -> entries_ok l bs idx -> sorted_pairs valid idx.
Proof.
  intros Hs [tl El] Hb He. split.
  - apply StronglySorted_intro. intros i j a c Ei Ej Hij. rewrite list_lookup_fmap in Ei, Ej. apply fmap_Some in Ei as (p & Ei & ->). apply fmap_Some in Ej as (r & Ej & ->).
    destruct (He i p Ei) as (b & Eb & Hp). destruct (He j r Ej) as (d & Ed & Hr). pose proof (lookup_lt_Some _ _ _ Ed) as Hj.
    assert (wblock_ok d) as Hd by (rewrite list.Forall_forall in Hb; by eapply Hb, list_elem_of_lookup_2). pose proof (w_pairs_pos d Hd) as Hdpos.
    pose proof (start_lt bs j Hb Hj) as Hjs. pose proof (start_S bs j d Ed) as EjS. pose proof (start_mono bs (S i) j ltac:(lia)) as Hm.
    destruct (lookup_lt_is_Some_2 (w_pairs d) (Nat.pred (length (w_pairs d)))) as [qd Eqd]; [lia |].
    assert (l !! (start bs j + Nat.pred (length (w_pairs d)))%nat = Some qd) as Elq.
    { rewrite El. apply lookup_app_l_Some. by rewrite (block_pairs_lookup bs j d) by (done || lia). }
    assert (start bs (S i) < length l)%nat as Hlt by (apply lookup_lt_Some in Elq; lia).
    destruct (lookup_lt_is_Some_2 l _ Hlt) as [q Eq].
    assert (valid q.1 /\ valid qd.1) as [Hvq Hvqd] by (split; by eapply sorted_pairs_valid).
    assert (Compare p.1 q.1 = Some Lt) as Hpq.
    { eapply (en_next _ _ _ _ _ Hp q); [done | done | by apply to_same |]. intros q' Eq'. rewrite last_lookup in Eq'.
      pose proof (lookup_lt_Some _ _ _ Eq') as Hl'. assert (l !! (start bs i + Nat.pred (length (w_pairs b)))%nat = Some q') as Elq'.
      { rewrite El. apply lookup_app_l_Some. by rewrite (block_pairs_lookup bs i b) by (done || lia). }
      pose proof (start_S bs i b Eb). by apply (sorted_pairs_lookup _ _ _ _ _ Hs Elq' Eq ltac:(lia)). }
    assert (Compare p.1 qd.1 = Some Lt) as Hpqd.
    { destruct (decide (start bs (S i) = start bs j + Nat.pred (length (w_pairs d)))%nat) as [E |]; [rewrite E, Elq in Eq; by injection Eq as <- |].
      apply (cmp_trans p.1 q.1 qd.1); [apply Hp | done | done | done |]. apply (sorted_pairs_lookup _ _ _ _ _ Hs Eq Elq). lia. }
    apply (cmp_lt_le_trans p.1 qd.1 r.1); [apply Hp | done | apply Hr | done |]. apply (en_last _ _ _ _ _ Hr). by rewrite last_lookup.
  - apply list.Forall_forall. intros k [p [-> [i Ei]%list_elem_of_lookup]]%list_elem_of_fmap. by destruct (He i p Ei) as (b & _ & Hp); apply Hp.
Qed.
End Entries.
