(* ===== verification/TableWrite.v ===== *)
(** * What a table builder writes

    The invariant of a table under construction: the file is the blocks written so far, the index has their entries but perhaps for the
    last, the filter builder has seen their keys.  [Add], [Flush] and [Finish] keep it until an error of the file. *)
From stdpp Require Import sorting.
From S2P Require Import Prelude Status Coding Keys Comparator Crc32c Crc32cProps Log.
From S2P Require Import LogFacts Iterator Format BlockBuilder BlockProps BuilderProps Filter FilterBlock.
From S2P Require Import TableBuilder TableFacts.

(** ** The calls of the filter builder *)
Definition filter_calls (bs : list WBlock) (keys : list Slice) : list (Z * list Slice) :=
  imap (λ i b, (|[file_of (take i bs)]|, (w_pairs b).*1)) bs ++ [(|[file_of bs]|, keys)].

Lemma filter_calls_snoc bs b keys : filter_calls (bs ++ [b]) keys = filter_calls bs (w_pairs b).*1 ++ [(|[file_of (bs ++ [b])]|, keys)].
Proof.
  unfold filter_calls. rewrite imap_app. cbn [imap]. rewrite Nat.add_0_r, take_app_length. f_equal. f_equal.
  apply imap_ext. intros i c Hi. apply lookup_lt_Some in Hi. by rewrite take_app_le by lia.
Qed.
Lemma add_blocks_app P nd x y b : add_blocks P nd (x ++ y) b = b ← add_blocks P nd x b; add_blocks P nd y b.
Proof.
  revert b. induction x as [| [o ks] x IH]; intros b; [done |]. cbn [app add_blocks]. destruct (StartBlock P nd o b) as [b1 |]; [| done].
  cbn [mbind option_bind]. apply IH.
Qed.
Lemma filter_calls_key P nd bs keys k b : add_blocks P nd (filter_calls bs keys) new_FilterBlockBuilder = Some b ->
  add_blocks P nd (filter_calls bs (keys ++ [k])) new_FilterBlockBuilder = Some (AddKey k b).
Proof.
  unfold filter_calls. rewrite !add_blocks_app. destruct (add_blocks P nd (imap _ bs) new_FilterBlockBuilder) as [b0 |]; [| done].
  cbn [mbind option_bind add_blocks]. destruct (StartBlock P nd _ b0) as [b1 |]; [| done]. cbn [mbind option_bind]. intros [= <-]. by rewrite foldl_snoc.
Qed.
Lemma filter_calls_keys bs keys : all_keys (filter_calls bs keys) = (block_pairs bs).*1 ++ keys.
Proof.
  revert keys. induction bs as [| b bs IH] using rev_ind; intros keys.
  - unfold filter_calls, all_keys. cbn. by rewrite app_nil_r.
  - rewrite filter_calls_snoc. unfold all_keys in *. rewrite fmap_app, concat_app, IH. rewrite block_pairs_snoc, fmap_app. cbn. by rewrite app_nil_r.
Qed.

Lemma ascending_snoc lo x o ks : ascending lo x -> lo <= o -> (∀ p, p ∈ x -> p.1 <= o) -> ascending lo (x ++ [(o, ks)]).
Proof.
  revert lo. induction x as [| [o' ks'] x IH]; intros lo Hx Ho Hle; [done |]. destruct Hx as [? Hx]. split; [done |].
  apply IH; [done | apply (Hle (o', ks')); left | intros p Hp; apply Hle; by right].
Qed.
Lemma filter_calls_ascending bs keys : ascending 0 (filter_calls bs keys) /\ ∀ p, p ∈ filter_calls bs keys -> p.1 <= |[file_of bs]|.
Proof.
  revert keys. induction bs as [| b bs IH] using rev_ind; intros keys.
  - split; [done |]. by intros p ->%list_elem_of_singleton.
  - rewrite filter_calls_snoc. destruct (IH (w_pairs b).*1) as [Ha Hle].
    assert (|[file_of bs]| <= |[file_of (bs ++ [b])]|) as Hmono by (rewrite file_of_app, slice_size_app; pose proof (slice_size_nonneg (file_of [b])); lia).
    assert (∀ p, p ∈ filter_calls bs (w_pairs b).*1 -> p.1 <= |[file_of (bs ++ [b])]|) as Hle' by (intros p Hp; specialize (Hle p Hp); lia).
    split; [apply ascending_snoc; [done | apply slice_size_nonneg | done] |]. intros p [Hp | ->%list_elem_of_singleton]%elem_of_app; [by apply Hle' | done].
Qed.

(** ** The properties of the pairs added so far *)
Definition add_prop (p : TableProperties) (kv : Slice * Slice) : TableProperties :=
  match ParseInternalKey kv.1 with Some parsed => AddSeq (sequence parsed) p | None => p end.
Definition props_of (l : Pairs) : TableProperties :=
  foldl add_prop (match l with kv :: _ => SetFirstKey kv.1 TableProperties_Clear | [] => TableProperties_Clear end) l.
Lemma props_of_snoc l kv : props_of (l ++ [kv]) = add_prop (if decide (l = []) then SetFirstKey kv.1 (props_of l) else props_of l) kv.
Proof. unfold props_of. rewrite foldl_snoc. by destruct l. Qed.

(** Reads of the fields of an updated builder. *)
Tactic Notation "tb_simpl" := cbn [tb_options tb_file tb_offset tb_status data_block index_block last_key num_entries num_blocks closed filter_block props_
  pending_index_entry pending_handle set_status set_file set_offset set_data_block set_index_block set_entry count_block set_closed set_filter_block
  set_props set_pending set_options].
Tactic Notation "tb_simpl" "in" hyp(h) := cbn [tb_options tb_file tb_offset tb_status data_block index_block last_key num_entries num_blocks closed filter_block props_
  pending_index_entry pending_handle set_status set_file set_offset set_data_block set_index_block set_entry count_block set_closed set_filter_block
  set_props set_pending set_options] in h.

(** Builders are equal when their fields are. *)
Lemma tb_ext {W} (r r' : TableBuilder W) :
  tb_options r = tb_options r' -> tb_file r = tb_file r' -> tb_offset r = tb_offset r' -> tb_status r = tb_status r' ->
  data_block r = data_block r' -> index_block r = index_block r' -> last_key r = last_key r' -> num_entries r = num_entries r' ->
  num_blocks r = num_blocks r' -> closed r = closed r' -> filter_block r = filter_block r' -> props_ r = props_ r' ->
  pending_index_entry r = pending_index_entry r' -> pending_handle r = pending_handle r' -> r = r'.
Proof. destruct r, r'; cbn; intros; by subst. Qed.
Ltac tb_eq := apply tb_ext; tb_simpl; try done.

Section Write.
Context {C : Comparator} {valid : Slice -> Prop} {same : Slice -> Slice -> Prop} `{!TableOrder C valid same}.
Context {W : Type} `{WritableFileLaws W} `{SnappyLaws} (ndebug : bool) (options : Options).
Hypothesis Hcomp : compression options = kNoCompression \/ compression options = kSnappyCompression.
Hypothesis Hfilter : ∀ P, filter_policy options = Some P -> FilterPolicyLaws P valid same.
Implicit Types (r : TableBuilder W) (bs : list WBlock) (l : Pairs).
Local Abbreviation entries := (entries_ok (valid := valid) (same := same)).
Local Abbreviation entry := (entry_ok (valid := valid) (same := same)).

(** ** Writing a block *)
Lemma WriteRawBlock_ok raw type r : wf_open (tb_file r) -> bytes raw -> word 8 type -> 0 <= tb_offset r -> tb_offset r + |[raw]| + 5 < 2 ^ 64 ->
  ∃ o f s, WriteRawBlock raw type r = Some (MkBlockHandle (tb_offset r) (|[raw]|), set_offset o (set_file f s r)) /\
    (ok s = true -> wf_open f /\ wf_data f = wf_data (tb_file r) ++ stored raw type /\ o = tb_offset r + |[raw]| + 5).
Proof.
  intros Hopen Hraw Ht Ho Hsz. unfold WriteRawBlock. destruct (wf_Append (tb_file r) raw) as [s1 f1] eqn:E1. cbn [set_file tb_file tb_offset].
  assert (u8 type = type) as -> by by apply wrap_small. rewrite crc_Extend_app by (done || by apply list.Forall_singleton).
  destruct (ok s1) eqn:Es1; cbn [negb].
  - destruct (wf_Append f1 ([type] ++ EncodeFixed32 (Mask (crc_Value (raw ++ [type]))))) as [s2 f2] eqn:E2.
    destruct (ok s2) eqn:Es2.
    + eexists _, f2, s2. split; [done |]. intros _. pose proof (Append_open _ _ _ _ E1 Hopen) as Ho1. split; [exact (Append_open _ _ _ _ E2 Ho1) |]. split.
      * rewrite (Append_ok _ _ _ _ E2 Ho1 Es2), (Append_ok _ _ _ _ E1 Hopen Es1). unfold stored. by rewrite <- app_assoc.
      * apply wrap_small. unfold kBlockTrailerSize. pose proof (slice_size_nonneg raw). split; lia.
    + eexists (tb_offset r), f2, s2. split; [done |]. by rewrite Es2.
  - eexists (tb_offset r), f1, s1. split; [done |]. by rewrite Es1.
Qed.

Lemma WriteBlock_ok s0 r : wf_open (tb_file r) -> ok (tb_status r) = true -> tb_options r = options -> bytes s0 -> 0 <= tb_offset r -> tb_offset r + |[s0]| + 5 < 2 ^ 64 ->
  ∃ raw type o f s, WriteBlock ndebug s0 r = Some (MkBlockHandle (tb_offset r) (|[raw]|), set_offset o (set_file f s r)) /\
    bytes raw /\ word 8 type /\ |[raw]| <= |[s0]| /\ unpack type raw = Some s0 /\
    (ok s = true -> wf_open f /\ wf_data f = wf_data (tb_file r) ++ stored raw type /\ o = tb_offset r + |[raw]| + 5).
Proof.
  intros Hopen Hst Hopt Hb Ho Hsz. unfold WriteBlock. rewrite Hst, assert_true, Hopt. cbn [mbind option_bind].
  assert (∃ o f s, WriteRawBlock s0 kNoCompression r = Some (MkBlockHandle (tb_offset r) (|[s0]|), set_offset o (set_file f s r)) /\
    (ok s = true -> wf_open f /\ wf_data f = wf_data (tb_file r) ++ stored s0 kNoCompression /\ o = tb_offset r + |[s0]| + 5)) as (o & f & s & E & Hs)
    by (apply WriteRawBlock_ok; [done | done | by_compute | done | done]).
  assert (unpack kNoCompression s0 = Some s0) as Hun by done. assert (word 8 kNoCompression) as Hw by by_compute.
  destruct Hcomp as [-> | ->].
  - change (kNoCompression =? kNoCompression) with true. cbn match. rewrite E. exists s0, kNoCompression, o, f, s. by split_and!.
  - change (kSnappyCompression =? kNoCompression) with false. change (kSnappyCompression =? kSnappyCompression) with true. cbn match.
    destruct (Snappy_Compress s0) as [c |] eqn:Ec; [destruct (Z.ltb_spec (|[c]|) (|[s0]| - |[s0]| / 8)) as [Hlt | Hge] |].
    + destruct (Snappy_roundtrip _ _ Ec) as [El Eu]. assert (bytes c) as Hc by by eapply Snappy_bytes.
      assert (0 <= |[s0]| / 8) by (apply Z.div_pos; [apply slice_size_nonneg | done]).
      destruct (WriteRawBlock_ok c kSnappyCompression r Hopen Hc ltac:(by_compute) Ho ltac:(lia)) as (o' & f' & s' & E' & Hs'). rewrite E'.
      exists c, kSnappyCompression, o', f', s'. split_and!; [done | done | by_compute | lia | | done].
      unfold unpack. change (kSnappyCompression =? kNoCompression) with false. change (kSnappyCompression =? kSnappyCompression) with true. cbn match.
      rewrite El. cbn [mbind option_bind]. exact Eu.
    + rewrite E. exists s0, kNoCompression, o, f, s. by split_and!.
    + rewrite E. exists s0, kNoCompression, o, f, s. by split_and!.
Qed.

(** ** The invariant *)
Record good l bs (es : list Item) (rs : list nat) (ies : list Item) (irs : list nat) r : Prop := {
  g_closed : closed r = false;
  g_options : tb_options r = options;
  g_pairs : l = block_pairs bs ++ pairs es;
  g_blocks : Forall wblock_ok bs;
  g_data : builder_ok [] (data_block r) es rs;
  g_data_type : compression_ (data_block r) = kNoCompression;
  g_data_size : |[block_bytes es rs]| <= 8 + costs (pairs es);
  g_index : builder_ok [] (index_block r) ies irs;
  g_index_type : compression_ (index_block r) = kNoCompression;
  g_index_size : |[block_bytes ies irs]| <= 8 + 4 * costs (block_pairs (take (length ies) bs));
  g_entries : entries l bs (pairs ies);
  g_strict i : (i < length ies)%nat -> (start bs (S i) < length l)%nat;
  g_pending : if pending_index_entry r then es = [] /\ S (length ies) = length bs /\
      ∃ b, list.last bs = Some b /\ pending_handle r = w_handle bs (length bs - 1) b
    else length ies = length bs /\ (bs <> [] -> es <> []);
  g_last q : list.last l = Some q -> last_key r = q.1;
  g_last0 : l = [] -> last_key r = [];
  g_num : num_entries r = Z.of_nat (length l);
  g_file : wf_data (tb_file r) = file_of bs;
  g_offset : tb_offset r = |[file_of bs]|;
  g_filter : match filter_block r with
             | Some (P, b) => filter_policy options = Some P /\ add_blocks P ndebug (filter_calls bs (pairs es).*1) new_FilterBlockBuilder = Some b
             | None => filter_policy options = None
             end;
  g_props : props_ r = props_of l;
  g_open : wf_open (tb_file r)
}.

(** What is asked of the pairs. *)
Record input_ok l : Prop := {
  in_sorted : sorted_pairs valid l;
  in_bytes : Forall (λ p : Slice * Slice, bytes p.2) l;
  in_costs : costs l < 2 ^ 29
}.
Lemma input_ok_app l l' : input_ok (l ++ l') -> input_ok l.
Proof.
  intros [Hs Hb Hc]. rewrite costs_app in Hc. pose proof (costs_nonneg l'). apply list.Forall_app in Hb as [Hb _].
  split; [exact (proj1 (sorted_pairs_app _ _ Hs)) | done | lia].
Qed.
Lemma input_bytes l : input_ok l -> Forall (λ p : Slice * Slice, bytes p.1 /\ bytes p.2) l.
Proof.
  intros [Hs Hb _]. apply list.Forall_forall. intros p Hp. rewrite list.Forall_forall in Hb. split; [| by apply Hb].
  apply (to_bytes (same := same)). apply list_elem_of_lookup in Hp as [i Ei]. by eapply sorted_pairs_valid.
Qed.

Lemma body_empty b es rs : builder_ok [] b es rs -> builder_empty b = bool_decide (es = []).
Proof.
  intros Hb. unfold builder_empty. rewrite (bu_buffer _ _ _ _ Hb), (bu_start _ _ _ _ Hb). cbn [app]. pose proof (count_le es) as Hc.
  change (|[ [] ]|) with 0. unfold slice_size. case_bool_decide as E.
  - subst es. done.
  - apply Z.leb_gt. destruct es; [done | cbn [length] in Hc; lia].
Qed.
Lemma estimate_ok b es rs : builder_ok [] b es rs -> CurrentSizeEstimate b = |[block_bytes es rs]|.
Proof.
  intros Hb. unfold CurrentSizeEstimate. rewrite (bu_finished _ _ _ _ Hb), (bu_buffer _ _ _ _ Hb), (bu_start _ _ _ _ Hb), (bu_restarts _ _ _ _ Hb), length_fmap, size_block.
  cbn [negb app]. change (|[ [] ]|) with 0. unfold slice_size. lia.
Qed.

(** The filter builder takes any calls for the pairs. *)
Lemma filter_call_ok P bs keys : filter_policy options = Some P -> Forall valid ((block_pairs bs).*1 ++ keys) ->
  |[concat ((block_pairs bs).*1 ++ keys)]| < 2 ^ 64 -> Z.of_nat (length ((block_pairs bs).*1 ++ keys)) < 2 ^ 31 ->
  ∃ b contents b', add_blocks P ndebug (filter_calls bs keys) new_FilterBlockBuilder = Some b /\ FilterBlock_Finish P b = Some (contents, b') /\ bytes contents /\
    |[contents]| <= 2 ^ 32 * Z.of_nat (length ((block_pairs bs).*1 ++ keys)) + 4 * (|[file_of bs]| / kFilterBase + 2) + 5 /\
    (|[contents]| < 2 ^ 32 -> ∃ fr, new_FilterBlockReader contents = Some fr /\
      (∀ off k, 0 <= off -> valid k -> is_Some (FilterBlock_KeyMayMatch P fr off k)) /\
      ∀ off ks k k', (off, ks) ∈ filter_calls bs keys -> k ∈ ks -> same k k' -> FilterBlock_KeyMayMatch P fr off k' = Some true).
Proof.
  intros HP Hv Hsz Hn. pose proof (Hfilter P HP) as HL. rewrite <- filter_calls_keys in *. destruct (filter_calls_ascending bs keys) as [Ha Hle].
  destruct (filter_block_ok (P := P) (valid := valid) (same := same) ndebug (filter_calls bs keys) Ha Hv Hsz Hn) as (b & contents & b' & Eb & Ef & Hby & Hs & Hr).
  exists b, contents, b'. split_and!; [done | done | done | apply Hs; [apply slice_size_nonneg | done] | done].
Qed.
Lemma keys_size l : 0 <= |[concat l.*1]| <= costs l.
Proof.
  split; [apply slice_size_nonneg |]. induction l as [| p l IH]; [done |]. cbn [fmap list_fmap concat costs foldr]. fold (costs l). rewrite slice_size_app.
  change (list_fmap _ _ fst l) with (l.*1). unfold cost. pose proof (slice_size_nonneg p.2). lia.
Qed.
Lemma filter_input_ok l : input_ok l -> Forall valid l.*1 /\ |[concat l.*1]| < 2 ^ 64 /\ Z.of_nat (length l.*1) < 2 ^ 31.
Proof.
  intros [[_ Hv] _ Hc]. pose proof (keys_size l). pose proof (costs_length l). rewrite length_fmap. split_and!; [done | lia | lia].
Qed.

(** ** [Flush] *)
Lemma Flush_ok l bs es rs ies irs r : good l bs es rs ies irs r -> input_ok l -> ok (tb_status r) = true -> es <> [] ->
  ∃ r', TableBuilder_Flush ndebug r = Some r' /\ closed r' = false /\ tb_options r' = options /\
    (ok (tb_status r') = true -> ∃ b, w_es b = es /\ pending_index_entry r' = true /\ good l (bs ++ [b]) [] [0%nat] ies irs r').
Proof.
  intros G Hin Hst Hes. pose proof G as [Gc Go Gp Gb Gd Gdt Gds Gi Git Gis Ge Gstr Gpe Gl Gl0 Gn Gf Gof Gfi Gpr Gop].
  unfold TableBuilder_Flush. rewrite Gc, assert_true, Hst. cbn [mbind option_bind negb]. rewrite (body_empty _ _ _ Gd), bool_decide_false by done.
  destruct (pending_index_entry r) eqn:Epend; [by destruct Gpe as [-> _] |]. destruct Gpe as [Glen Gne]. rewrite assert_true. cbn [mbind option_bind].
  assert (costs l = costs (block_pairs bs) + costs (pairs es)) as Hcl by (by rewrite Gp, costs_app).
  pose proof (file_of_size bs Gb) as Hfs. pose proof (costs_nonneg (block_pairs bs)) as Hc0. pose proof (costs_nonneg (pairs es)) as Hc1. pose proof (in_costs l Hin) as Hcosts.
  unfold AddBlock. destruct (Finish_plain ndebug [] _ _ _ Gd) as (d & -> & Edt & Hreset); [lia |]. cbn [mbind option_bind].
  assert (bytes (block_bytes es rs)) as Hby by (apply bytes_block; pose proof (input_bytes l Hin) as Hbl; rewrite Gp in Hbl; by apply list.Forall_app in Hbl as [_ ?]).
  destruct (WriteBlock_ok (block_bytes es rs) (set_data_block d r)) as (raw & type & o & f & s & -> & Hraw & Ht & Hrs & Hu & Hs);
    [exact Gop | done | done | done | cbn; rewrite Gof; lia | cbn; rewrite Gof; lia |]. cbn [mbind option_bind].
  tb_simpl. tb_simpl in Hs.
  destruct (ok s) eqn:Es; [| eexists; split; [done |]; tb_simpl; by rewrite Gc, Go, Es]. destruct (Hs eq_refl) as (Hof & Ef & Eo).
  destruct (wf_Flush f) as [s2 f2] eqn:Efl. pose proof (Flush_open _ _ _ Efl Hof) as Hof2.
  destruct (ok s2) eqn:Es2; [| eexists; split; [done |]; tb_simpl; by rewrite Gc, Go, Es2].
  set (b := MkWBlock es rs raw type).
  assert (wblock_ok b) as Hb by (split; cbn; [split; [apply Gd | lia] | done | done | done | done | change (|[raw]| <= 8 + costs (pairs es)); lia]).
  assert (file_of (bs ++ [b]) = wf_data (tb_file r) ++ stored raw type) as Efile by (by rewrite file_of_snoc, Gf).
  assert (o = |[file_of (bs ++ [b])]|) as Eoff by (rewrite file_of_snoc, slice_size_app, stored_size, Eo, Gof; cbn; lia).
  assert (∃ fb, (match filter_block r with Some (P, b0) => b1 ← StartBlock P ndebug o b0; Some (Some (P, b1)) | None => Some None end) = Some fb /\
    match fb with
    | Some (P, b0) => filter_policy options = Some P /\ add_blocks P ndebug (filter_calls (bs ++ [b]) []) new_FilterBlockBuilder = Some b0
    | None => filter_policy options = None
    end) as (fb & Efb & Hfb).
  { destruct (filter_block r) as [[P b0] |]; [| by eexists]. destruct Gfi as [HP Hcalls].
    destruct (filter_input_ok l Hin) as (Hv & Hsz & Hn). rewrite Gp, fmap_app in Hv, Hsz, Hn.
    destruct (filter_call_ok P (bs ++ [b]) [] HP) as (b1 & _ & _ & Eb1 & _); [by rewrite block_pairs_snoc, fmap_app, app_nil_r.. |].
    exists (Some (P, b1)). split; [| done]. rewrite filter_calls_snoc, add_blocks_app in Eb1. change (w_pairs b) with (pairs es) in Eb1. rewrite Hcalls in Eb1.
    cbn [mbind option_bind add_blocks] in Eb1. rewrite Eoff. destruct (StartBlock P ndebug _ b0) as [b2 |]; [| done]. cbn [mbind option_bind foldl] in *. by injection Eb1 as <-. }
  set (h := MkBlockHandle (tb_offset r) (|[raw]|)).
  exists (set_filter_block fb (count_block (set_file f2 s2 (set_pending true h (set_data_block (Reset d) (set_offset o (set_file f s r))))))).
  split.
  { destruct (filter_block r) as [[P b0] |] eqn:Efr.
    - destruct (StartBlock P ndebug o b0) as [b1 |]; [| done]. cbn [mbind option_bind] in *. injection Efb as <-. done.
    - injection Efb as <-. f_equal. tb_eq. }
  split; [done |]. split; [done |]. intros _. exists b. split; [done |]. split; [done |].
  split; tb_simpl; try done.
  - by rewrite app_nil_r, block_pairs_snoc.
  - apply list.Forall_app. split; [done | by apply list.Forall_singleton].
  - change (compression_ (Reset d)) with (compression_ d). by rewrite Edt.
  - by rewrite take_app_le by lia.
  - by apply entries_block.
  - intros i Hi. rewrite start_snoc by lia. by apply Gstr.
  - split; [done |]. split; [rewrite length_app; cbn; lia |]. exists b. split; [apply last_snoc |].
    rewrite length_app, Nat.add_sub, w_handle_snoc by done. unfold h, w_handle. rewrite take_ge by done. by rewrite Gof.
  - by rewrite (Flush_data _ _ _ Efl Hof), Ef, Efile.
Qed.

(** ** One more entry of the index *)
Lemma add_entry_ok l bs b sep ib ies irs : builder_ok [] ib ies irs -> compression_ ib = kNoCompression ->
  |[block_bytes ies irs]| <= 8 + 4 * costs (block_pairs (take (length ies) bs)) ->
  entries l bs (pairs ies) -> Forall wblock_ok bs -> sorted_pairs valid l -> (∃ tl, l = block_pairs bs ++ tl) ->
  costs (block_pairs bs) < 2 ^ 29 -> S (length ies) = length bs -> list.last bs = Some b ->
  entry l bs (length bs - 1) (sep, enc_handle (w_handle bs (length bs - 1) b)) b ->
  ∃ ib' sh irs', BlockBuilder.Add ndebug (Some C) sep (enc_handle (w_handle bs (length bs - 1) b)) ib = Some ib' /\
    let ies' := ies ++ [MkItem sep (enc_handle (w_handle bs (length bs - 1) b)) sh] in
    builder_ok [] ib' ies' irs' /\ compression_ ib' = kNoCompression /\
    |[block_bytes ies' irs']| <= 8 + 4 * costs (block_pairs (take (length ies') bs)) /\ entries l bs (pairs ies') /\
    length ies' = length bs.
Proof.
  intros Hi Hcp Hsz He Hb Hs Htl Hc Hlen Elast Hen. set (h := enc_handle (w_handle bs (length bs - 1) b)) in *.
  assert (bs !! length ies = Some b) as Eb by (rewrite last_lookup in Elast; by replace (length ies) with (Nat.pred (length bs)) by lia).
  assert (length (pairs ies) = length ies) as Elp by (unfold pairs; by rewrite length_fmap).
  replace (length bs - 1)%nat with (length ies) in Hen by lia.
  assert (entries l bs (pairs ies ++ [(sep, h)])) as He' by (apply (entries_snoc l bs _ _ b); by rewrite ?Elp).
  assert (cost (sep, h) <= 4 * costs (w_pairs b)) as Hcost.
  { unfold cost. cbn [fst snd]. pose proof (en_size _ _ _ _ _ Hen) as H3. cbn [fst] in H3. pose proof (handle_size (w_handle bs (length bs - 1) b)) as H4. fold h in H4.
    rewrite list.Forall_forall in Hb. pose proof (w_pairs_pos b (Hb b (list_elem_of_lookup_2 _ _ _ Eb))). pose proof (costs_length (w_pairs b)). lia. }
  assert (block_pairs (take (S (length ies)) bs) = block_pairs (take (length ies) bs) ++ w_pairs b) as Etake by (by rewrite (take_S_r bs _ b Eb), block_pairs_snoc).
  assert (costs (block_pairs (take (length ies) bs)) + costs (w_pairs b) <= costs (block_pairs bs)) as Hle.
  { rewrite <- costs_app, <- Etake. rewrite <- (take_drop (S (length ies)) bs) at 2. rewrite block_pairs_app, costs_app.
    pose proof (costs_nonneg (block_pairs (drop (S (length ies)) bs))). lia. }
  pose proof (costs_nonneg (block_pairs (take (length ies) bs))).
  destruct (add_one_ok ndebug [] ib ies irs sep h Hi) as (ib' & sh & irs' & E & Hi' & Hsz' & Ecp).
  - eapply entries_sorted; [exact Hs | exact Htl | exact Hb | exact He'].
  - change (|[ [] ]|) with 0. lia.
  - exists ib', sh, irs'. split; [done |]. cbn zeta. split_and!; [done | by rewrite Ecp | | by rewrite pairs_app | rewrite length_app; cbn; lia].
    rewrite length_app. cbn [length]. rewrite Nat.add_1_r, Etake, costs_app. lia.
Qed.

Lemma last_pair bs b : list.last bs = Some b -> wblock_ok b -> ∃ q, list.last (w_pairs b) = Some q /\ list.last (block_pairs bs) = Some q.
Proof.
  intros [bs' ->]%last_Some Hb. destruct (list.last (w_pairs b)) as [q |] eqn:Eq.
  - exists q. split; [done |]. rewrite block_pairs_snoc. apply last_Some in Eq as [l' ->]. by rewrite app_assoc, last_snoc.
  - apply last_None in Eq. pose proof (w_pairs_pos b Hb) as Hp. rewrite Eq in Hp. cbn in Hp. lia.
Qed.

(** The pending entry is added when the next key comes. *)
Lemma pending_ok l bs es rs ies irs r key v : good l bs es rs ies irs r -> input_ok (l ++ [(key, v)]) ->
  ∃ ib lk ies' irs',
    (if pending_index_entry r then
       _ ← assert_ ndebug (builder_empty (data_block r));
       '(k, b) ← AddIndexEntry C ndebug (last_key r) (Some key) (pending_handle r) (index_block r);
       Some (k, b)
     else Some (last_key r, index_block r)) = Some (lk, ib) /\
    builder_ok [] ib ies' irs' /\ compression_ ib = kNoCompression /\ |[block_bytes ies' irs']| <= 8 + 4 * costs (block_pairs (take (length ies') bs)) /\
    entries (l ++ [(key, v)]) bs (pairs ies') /\ length ies' = length bs.
Proof.
  intros [Gc Go Gp Gb Gd Gdt Gds Gi Git Gis Ge Gstr Gpe Gl Gl0 Gn Gf Gof Gfi Gpr Gop] Hin.
  assert (entries (l ++ [(key, v)]) bs (pairs ies)) as Hgrow.
  { apply entries_grow; [done |]. unfold pairs. rewrite length_fmap. exact Gstr. }
  pose proof (in_costs _ Hin) as Hcosts. rewrite costs_app, Gp, costs_app in Hcosts.
  pose proof (costs_nonneg (pairs es)). pose proof (costs_nonneg [(key, v)]). pose proof (costs_nonneg (block_pairs bs)).
  destruct (pending_index_entry r).
  - destruct Gpe as (-> & Hlen & b & Elast & Eh). rewrite (body_empty _ _ _ Gd), bool_decide_true, assert_true by done. cbn [mbind option_bind].
    assert (bs !! (length bs - 1)%nat = Some b) as Eb by (rewrite last_lookup in Elast; by replace (length bs - 1)%nat with (Nat.pred (length bs)) by lia).
    assert (wblock_ok b) as Hb by (rewrite list.Forall_forall in Gb; by eapply Gb, list_elem_of_lookup_2).
    destruct (last_pair bs b Elast Hb) as (q & Eq & El). cbn [pairs fmap list_fmap] in Gp. rewrite app_nil_r in Gp. rewrite <- Gp in El.
    rewrite (Gl q El). unfold AddIndexEntry.
    destruct (separator_ok l bs b q key v (in_sorted _ Hin) Gp Elast Eq) as (sep & -> & Hen). cbn [mbind option_bind]. rewrite Eh.
    rewrite EncodeTo_ok by (apply w_handle_ok; [done | done | lia]). cbn [mbind option_bind app].
    destruct (add_entry_ok (l ++ [(key, v)]) bs b sep (index_block r) ies irs Gi Git Gis Hgrow Gb (in_sorted _ Hin)) as (ib' & sh & irs' & -> & Hi' & Ht' & Hs' & He' & Hl');
      [by rewrite Gp; eexists | lia | done | done | done |].
    cbn [mbind option_bind]. do 4 eexists. split; [done |]. by split_and!.
  - destruct Gpe as [Hlen _]. do 4 eexists. split; [done |]. by split_and!.
Qed.

(** ** [Add] *)
Lemma pending_step r lk ib key :
  (if pending_index_entry r then
     _ ← assert_ ndebug (builder_empty (data_block r));
     '(k, b) ← AddIndexEntry C ndebug (last_key r) (Some key) (pending_handle r) (index_block r);
     Some (k, b)
   else Some (last_key r, index_block r)) = Some (lk, ib) ->
  (if pending_index_entry r then
     _ ← assert_ ndebug (builder_empty (data_block r));
     '(k, b) ← AddIndexEntry C ndebug (last_key r) (Some key) (pending_handle r) (index_block r);
     Some (set_pending false (pending_handle r) (set_index_block b k r))
   else Some r) = Some (set_pending false (pending_handle r) (set_index_block ib lk r)).
Proof.
  destruct (pending_index_entry r) eqn:Ep.
  - destruct (assert_ ndebug (builder_empty (data_block r))); [| done]. cbn [mbind option_bind].
    destruct (AddIndexEntry C ndebug (last_key r) (Some key) (pending_handle r) (index_block r)) as [[k b] |]; [| done]. cbn [mbind option_bind].
    by intros [= -> ->].
  - intros [= <- <-]. f_equal. tb_eq.
Qed.

Lemma first_step l bs es rs ies irs r key v : good l bs es rs ies irs r -> input_ok (l ++ [(key, v)]) ->
  (if 0 <? num_entries r then
     _ ← (if ndebug then Some tt else c ← Compare key (last_key r); assert_ ndebug (bool_decide (c = Gt))); Some r
   else Some (set_props (SetFirstKey key (props_ r)) r)) =
  Some (set_props (if decide (l = []) then SetFirstKey key (props_of l) else props_of l) r).
Proof.
  intros [Gc Go Gp Gb Gd Gdt Gds Gi Git Gis Ge Gstr Gpe Gl Gl0 Gn Gf Gof Gfi Gpr Gop] Hin. rewrite Gn. destruct (list.last l) as [q |] eqn:El.
  - apply last_Some in El as E2. destruct E2 as [l' ->]. rewrite length_app. rewrite (proj2 (Z.ltb_lt _ _)) by (cbn; lia).
    pose proof (in_sorted _ Hin) as Hs. rewrite <- app_assoc in Hs. cbn [app] in Hs.
    assert ((l' ++ q :: [(key, v)]) !! length l' = Some q) as Eq by (by rewrite list_lookup_middle).
    assert ((l' ++ q :: [(key, v)]) !! S (length l') = Some (key, v)) as Ek by (rewrite lookup_app_r by lia; by replace (S (length l') - length l')%nat with 1%nat by lia).
    assert (Compare key (last_key r) = Some Gt) as ->.
    { rewrite (Gl q eq_refl). apply cmp_lt_gt; [exact (sorted_pairs_valid _ _ _ Hs Eq) | exact (sorted_pairs_valid _ _ _ Hs Ek) |].
      apply (sorted_pairs_lookup _ _ _ _ _ Hs Eq Ek). lia. }
    cbn [mbind option_bind]. rewrite assert_true. rewrite decide_False by (by destruct l').
    destruct ndebug; cbn [mbind option_bind]; f_equal; tb_eq.
  - apply last_None in El as ->. cbn [length]. rewrite decide_True by done. by rewrite Gpr.
Qed.

Lemma Add_good l bs es rs ies irs r key v : good l bs es rs ies irs r -> input_ok (l ++ [(key, v)]) -> ok (tb_status r) = true ->
  ∃ r', TableBuilder_Add C ndebug key v r = Some r' /\ closed r' = false /\ tb_options r' = options /\
    (ok (tb_status r') = true -> ∃ bs' es' rs' ies' irs', good (l ++ [(key, v)]) bs' es' rs' ies' irs' r').
Proof.
  intros G Hin Hst. pose proof G as [Gc Go Gp Gb Gd Gdt Gds Gi Git Gis Ge Gstr Gpe Gl Gl0 Gn Gf Gof Gfi Gpr Gop].
  unfold TableBuilder_Add. rewrite Gc, assert_true, Hst. cbn [mbind option_bind negb].
  rewrite (first_step l bs es rs ies irs r key v G Hin). cbn [mbind option_bind].
  set (p1 := if decide (l = []) then SetFirstKey key (props_of l) else props_of l).
  assert ((match ParseInternalKey key with Some parsed => set_props (AddSeq (sequence parsed) (props_ (set_props p1 r))) (set_props p1 r) | None => set_props p1 r end)
    = set_props (props_of (l ++ [(key, v)])) r) as ->.
  { rewrite props_of_snoc. fold p1. unfold add_prop. cbn [fst]. destruct (ParseInternalKey key); tb_eq. }
  set (r2 := set_props (props_of (l ++ [(key, v)])) r).
  destruct (pending_ok l bs es rs ies irs r key v G Hin) as (ib & lk & ies' & irs' & E & Hi' & Hit' & His' & He' & Hl').
  rewrite (pending_step r2 lk ib key E). cbn [mbind option_bind]. clear E.
  set (r3 := set_pending false (pending_handle r2) (set_index_block ib lk r2)).
  set (r4 := match filter_block r3 with Some (P, b) => set_filter_block (Some (P, AddKey key b)) r3 | None => r3 end).
  assert (data_block (set_entry key r4) = data_block r) as -> by (unfold r4; destruct (filter_block r3) as [[P b0] |]; done).
  destruct (add_one_ok ndebug [] (data_block r) es rs key v Gd) as (d & sh & rs' & -> & Hd & Hds & Hdt).
  { pose proof (in_sorted _ Hin) as Hs. rewrite Gp, <- app_assoc in Hs. exact (proj2 (sorted_pairs_app _ _ Hs)). }
  { pose proof (in_costs _ Hin) as Hc. rewrite costs_app, Gp, costs_app in Hc. cbn [costs foldr] in Hc. pose proof (costs_nonneg (block_pairs bs)). change (|[ [] ]|) with 0. lia. }
  cbn [mbind option_bind]. set (r5 := set_data_block d (set_entry key r4)).
  assert (pairs (es ++ [MkItem key v sh]) = pairs es ++ [(key, v)]) as Epairs by (by rewrite pairs_app).
  assert (good (l ++ [(key, v)]) bs (es ++ [MkItem key v sh]) rs' ies' irs' r5) as G5.
  { assert (tb_options r4 = options /\ closed r4 = false /\ pending_index_entry r4 = false /\ index_block r4 = ib /\ num_entries r4 = num_entries r /\
      tb_file r4 = tb_file r /\ tb_offset r4 = tb_offset r /\ props_ r4 = props_of (l ++ [(key, v)])) as (R1 & R2 & R3 & R4 & R5 & R6 & R7 & R8)
      by (unfold r4; destruct (filter_block r3) as [[P b0] |]; done).
    split; unfold r5; tb_simpl; try done.
    - by rewrite Epairs, Gp, app_assoc.
    - by rewrite Hdt.
    - rewrite Epairs, costs_app. cbn [costs foldr]. lia.
    - by rewrite R4.
    - by rewrite R4.
    - intros i Hi. pose proof (start_mono bs (S i) (length bs) ltac:(lia)). rewrite (start_all bs (length bs)) in * by lia. rewrite length_app, Gp, length_app. cbn [length]. lia.
    - rewrite R3. split; [done |]. intros _. by destruct es.
    - intros q. rewrite last_snoc. by intros [= <-].
    - by destruct l.
    - rewrite R5, Gn, length_app. cbn [length]. lia.
    - by rewrite R6.
    - by rewrite R7.
    - unfold r4. destruct (filter_block r3) as [[P b0] |] eqn:Ef.
      + change (filter_block r = Some (P, b0)) in Ef. rewrite Ef in Gfi. destruct Gfi as [HP Hc]. tb_simpl. split; [done |].
        rewrite Epairs, fmap_app. by apply filter_calls_key.
      + change (filter_block r = None) in Ef. rewrite Ef in Gfi. unfold r3, r2. tb_simpl. by rewrite Ef.
    - unfold r4. destruct (filter_block r3) as [[P b0] |]; exact Gop. }
  assert (tb_options r5 = options /\ ok (tb_status r5) = true) as [Ho5 Hst5] by (unfold r5, r4; destruct (filter_block r3) as [[P b0] |]; done).
  rewrite Ho5. destruct (block_size options <=? CurrentSizeEstimate d).
  - destruct (Flush_ok _ _ _ _ _ _ _ G5 Hin Hst5) as (r' & -> & ? & ? & Hg); [by destruct es |]. exists r'. split_and!; [done.. |].
    intros Hok. destruct (Hg Hok) as (b & _ & _ & G'). by do 5 eexists.
  - exists r5. split_and!; [done | apply G5 | done |]. intros _. by do 5 eexists.
Qed.
End Write.

(** * The end of a table

    What [Finish] puts behind the data blocks, and the file that is left: [table_file]. *)

Definition final_props (l : Pairs) : TableProperties := SetLastKey (match list.last l with Some q => q.1 | None => [] end) (props_of l).
Definition filter_name (P : FilterPolicy) : Slice := lit "filter." ++ @fp_Name P.
Definition props_name : Slice := lit "table.properties".

Section Finish.
Context {C : Comparator} {valid : Slice -> Prop} {same : Slice -> Slice -> Prop} `{!TableOrder C valid same}.
Context {W : Type} `{WritableFileLaws W} `{SnappyLaws} (ndebug : bool) (options : Options).
Hypothesis Hcomp : compression options = kNoCompression \/ compression options = kSnappyCompression.
Hypothesis Hfilter : ∀ P, filter_policy options = Some P -> FilterPolicyLaws P valid same /\ bytes (@fp_Name P) /\ |[@fp_Name P]| < 2 ^ 16.
Implicit Types (r : TableBuilder W) (bs : list WBlock) (l : Pairs) (D : Slice).
Local Abbreviation entries := (entries_ok (valid := valid) (same := same)).
Local Abbreviation good := (good (valid := valid) (same := same) ndebug options).
Local Abbreviation input_ok := (input_ok (valid := valid)).

(** The names in the meta index, in order, with the handles. *)
Definition meta_pairs (fh ph : BlockHandle) : Pairs :=
  match filter_policy options with Some P => [(filter_name P, enc_handle fh)] | None => [] end ++ [(props_name, enc_handle ph)].

(** The filter block answers for the keys of every data block. *)
Definition filter_part bs (fpart : Slice) (fh : BlockHandle) : Prop :=
  match filter_policy options with
  | Some P => ∃ contents, fpart = stored contents kNoCompression /\ fh = MkBlockHandle (|[file_of bs]|) (|[contents]|) /\ bytes contents /\
      |[contents]| < 2 ^ 60 /\
      (|[contents]| < 2 ^ 32 -> ∃ fr, new_FilterBlockReader contents = Some fr /\
        (∀ off k, 0 <= off -> valid k -> is_Some (FilterBlock_KeyMayMatch P fr off k)) /\
        ∀ i b k k', bs !! i = Some b -> k ∈ (w_pairs b).*1 -> same k k' -> FilterBlock_KeyMayMatch P fr (|[file_of (take i bs)]|) k' = Some true)
  | None => fpart = []
  end.

(** The state between the blocks of [Finish]. *)
Record mid l bs (ies : list Item) (irs : list nat) (p : TableProperties) D r : Prop := {
  mi_options : tb_options r = options;
  mi_index : builder_ok [] (index_block r) ies irs;
  mi_index_type : compression_ (index_block r) = kNoCompression;
  mi_index_size : |[block_bytes ies irs]| <= 8 + 4 * costs (block_pairs (take (length ies) bs));
  mi_entries : entries l bs (pairs ies);
  mi_pending : if pending_index_entry r then S (length ies) = length bs /\ ∃ b, list.last bs = Some b /\ pending_handle r = w_handle bs (length bs - 1) b
               else length ies = length bs;
  mi_last q : list.last l = Some q -> last_key r = q.1;
  mi_last0 : l = [] -> last_key r = [];
  mi_filter : is_Some (filter_block r) <-> is_Some (filter_policy options);
  mi_props : props_ r = p;
  mi_file : wf_data (tb_file r) = D;
  mi_offset : tb_offset r = |[D]|;
  mi_open : wf_open (tb_file r)
}.

Lemma write_mid l bs ies irs p D r raw type : mid l bs ies irs p D r -> bytes raw -> word 8 type -> |[D]| + |[raw]| + 5 < 2 ^ 64 ->
  ∃ r', WriteRawBlock raw type r = Some (MkBlockHandle (|[D]|) (|[raw]|), r') /\
    (ok (tb_status r') = true -> mid l bs ies irs p (D ++ stored raw type) r').
Proof.
  intros [? ? ? ? ? ? ? ? ? ? Hf Ho Hop] Hraw Ht Hsz.
  destruct (WriteRawBlock_ok raw type r Hop Hraw Ht) as (o & f & s & E & Hs); [rewrite Ho; apply slice_size_nonneg | by rewrite Ho |].
  rewrite Ho in E. eexists. split; [exact E |]. tb_simpl. intros Hok. destruct (Hs Hok) as (Hop' & Ef & Eo).
  split; tb_simpl; try done; [by rewrite Ef, Hf |]. rewrite slice_size_app, stored_size, Eo, Ho. lia.
Qed.

(** ** The filter block *)
Lemma filter_calls_in bs i b : bs !! i = Some b -> (|[file_of (take i bs)]|, (w_pairs b).*1) ∈ filter_calls bs [].
Proof.
  intros E. unfold filter_calls. apply elem_of_app. left. apply elem_of_lookup_imap. by exists i, b.
Qed.

Lemma Finish_filter_ok l bs rs ies irs r : good l bs [] rs ies irs r -> input_ok l -> ok (tb_status r) = true ->
  ∃ fh r', Finish_filter (set_closed r) = Some (fh, r') /\
    (ok (tb_status r') = true -> ∃ fpart, filter_part bs fpart fh /\ mid l bs ies irs (props_of l) (file_of bs ++ fpart) r').
Proof.
  intros [Gc Go Gp Gb Gd Gdt Gds Gi Git Gis Ge Gstr Gpe Gl Gl0 Gn Gf Gof Gfi Gpr Gop] Hin Hst. unfold Finish_filter. tb_simpl. rewrite Hst.
  cbn [pairs fmap list_fmap] in Gp. rewrite app_nil_r in Gp.
  assert (∀ fb, (is_Some fb <-> is_Some (filter_policy options)) -> mid l bs ies irs (props_of l) (file_of bs) (set_filter_block fb (set_closed r))) as Hmid.
  { intros fb Hfb. split; tb_simpl; try done. destruct (pending_index_entry r); [by destruct Gpe as (_ & ?) | by destruct Gpe]. }
  destruct (filter_block r) as [[P b] |] eqn:Efb.
  - destruct Gfi as [HP Hc]. destruct (filter_input_ok l Hin) as (Hv & Hsz & Hn). rewrite Gp in Hv, Hsz, Hn.
    destruct (Hfilter P HP) as [Hlaws _].
    destruct (filter_call_ok ndebug options (λ P HP, proj1 (Hfilter P HP)) P bs [] HP) as (b1 & contents & b2 & E1 & E2 & Hby & Hs & Hr); [by rewrite app_nil_r.. |].
    change (pairs [] : Pairs).*1 with (@nil Slice) in Hc. rewrite Hc in E1. injection E1 as <-. rewrite E2. cbn [mbind option_bind].
    assert (|[contents]| < 2 ^ 60) as Hcs.
    { pose proof (costs_length (block_pairs bs)). pose proof (in_costs _ Hin) as Hcosts. rewrite Gp in Hcosts. rewrite app_nil_r, length_fmap in Hs.
      pose proof (file_of_size bs Gb). assert (|[file_of bs]| / kFilterBase <= |[file_of bs]|) by (change kFilterBase with 2048; apply Z.div_le_upper_bound; lia). lia. }
    pose proof (file_of_size bs Gb) as Hfs. pose proof (in_costs _ Hin) as Hcosts. rewrite Gp in Hcosts.
    destruct (write_mid l bs ies irs (props_of l) (file_of bs) _ contents kNoCompression (Hmid (Some (P, b2)) ltac:(rewrite HP; by split; eexists)) Hby ltac:(by_compute) ltac:(lia)) as (r' & -> & Hr').
    do 2 eexists. split; [done |]. intros Hok. exists (stored contents kNoCompression). split; [| by apply Hr'].
    unfold filter_part. rewrite HP. exists contents. split_and!; try done. intros Hlt. destruct (Hr Hlt) as (fr & Efr & Htot & Hm). exists fr. split; [done |]. split; [done |].
    intros i c k k' Eb Hk Hsame. by eapply Hm; [apply filter_calls_in | |].
  - do 2 eexists. split; [done |]. intros _. exists []. rewrite app_nil_r. split; [unfold filter_part; by rewrite Gfi |].
    replace (set_closed r) with (set_filter_block None (set_closed r)) by (tb_eq). apply Hmid. rewrite Gfi. done.
Qed.

(** ** The properties *)
Record props_ok (p : TableProperties) : Prop := {
  po_min : word 64 (min_seq_ p);
  po_max : word 64 (max_seq_ p);
  po_first : bytes (first_key_ p) /\ |[first_key_ p]| < 2 ^ 29;
  po_last : bytes (tp_last_key_ p) /\ |[tp_last_key_ p]| < 2 ^ 29
}.
Lemma input_key l q : input_ok l -> q ∈ l -> bytes q.1 /\ |[q.1]| < 2 ^ 29.
Proof.
  intros Hin Hq. pose proof (input_bytes l Hin) as Hb. rewrite list.Forall_forall in Hb. split; [by apply Hb |].
  pose proof (in_costs _ Hin) as Hcl. apply list_elem_of_lookup in Hq as [i Ei].
  rewrite <- (take_drop_middle l i q Ei), costs_app in Hcl. cbn [costs foldr] in Hcl. fold (costs (drop (S i) l)) in Hcl.
  pose proof (costs_nonneg (take i l)). pose proof (costs_nonneg (drop (S i) l)). unfold cost in Hcl. pose proof (slice_size_nonneg q.2). lia.
Qed.
Lemma ParseInternalKey_word k parsed : bytes k -> ParseInternalKey k = Some parsed -> word 64 (sequence parsed).
Proof.
  unfold ParseInternalKey, ExtractTag. intros Hb. case_decide; [| done]. destruct (DecodeFixed64 _) as [n |] eqn:E; [| done]. cbn [mbind option_bind].
  apply DecodeFixed64_word in E; [| by apply Forall_drop]. destruct (ExtractUserKey k); [| done]. cbn [mbind option_bind].
  destruct (to_ValueType _); [| done]. cbn [mbind option_bind]. intros [= <-]. cbn [sequence]. eapply word_mono; [apply (word_shiftr 64 n 8); [done | lia] | lia].
Qed.
Lemma props_of_ok l : input_ok l -> props_ok (props_of l).
Proof.
  induction l as [| kv l IH] using rev_ind; intros Hin; [split; cbn; try split; try constructor; lia || done |].
  assert (input_ok l) as Hin' by by eapply input_ok_app. specialize (IH Hin'). rewrite props_of_snoc.
  assert (bytes kv.1 /\ |[kv.1]| < 2 ^ 29) as [Hb Hs] by (apply (input_key _ _ Hin), elem_of_app; right; left).
  assert (∀ p, props_ok p -> props_ok (add_prop p kv)) as Hadd.
  { intros p [Hmn Hmx Hf Hl]. unfold add_prop. destruct (ParseInternalKey kv.1) as [parsed |] eqn:E; [| done]. apply ParseInternalKey_word in E; [| done].
    split; cbn [AddSeq min_seq_ max_seq_ first_key_ tp_last_key_]; [by destruct (_ <? _) | by destruct (_ >? _) | done | done]. }
  apply Hadd. case_decide; [| done]. by destruct IH.
Qed.
Lemma final_props_ok l : input_ok l -> props_ok (final_props l).
Proof.
  intros Hin. destruct (props_of_ok l Hin) as [? ? ? ?]. unfold final_props. split; cbn; try done.
  destruct (list.last l) as [q |] eqn:E; [| split; [constructor | done]]. apply (input_key l q Hin). rewrite last_lookup in E. by eapply list_elem_of_lookup_2.
Qed.
Lemma props_bytes p : props_ok p -> bytes (TableProperties_EncodeTo p []) /\ |[TableProperties_EncodeTo p []]| < 2 ^ 32.
Proof.
  intros [_ _ [Hf Hfs] [Hl Hls]]. unfold TableProperties_EncodeTo, PutVarint64. rewrite !PutLengthPrefixedSlice_app. unfold EncodeLengthPrefixedSlice. cbn [app]. split.
  - unfold bytes. rewrite !Forall_app. split_and!; try done; apply bytes_EncodeVarint64 || apply bytes_EncodeVarint32.
  - rewrite !slice_size_app. unfold slice_size in *. pose proof (length_EncodeVarint64 (min_seq_ p)). pose proof (length_EncodeVarint64 (max_seq_ p)).
    pose proof (length_EncodeVarint32 (u32 (Z.of_nat (length (first_key_ p))))). pose proof (length_EncodeVarint32 (u32 (Z.of_nat (length (tp_last_key_ p))))). lia.
Qed.

Lemma Finish_props_ok l bs ies irs D r : mid l bs ies irs (props_of l) D r -> input_ok l -> ok (tb_status r) = true -> |[D]| < 2 ^ 61 ->
  let enc := TableProperties_EncodeTo (final_props l) [] in
  ∃ r', Finish_props r = Some (MkBlockHandle (|[D]|) (|[enc]|), r') /\
    (ok (tb_status r') = true -> mid l bs ies irs (final_props l) (D ++ stored enc kNoCompression) r').
Proof.
  intros M Hin Hst HD enc. unfold Finish_props. rewrite Hst.
  assert (SetLastKey (last_key r) (props_ r) = final_props l) as ->.
  { unfold final_props. rewrite (mi_props _ _ _ _ _ _ _ M). f_equal. destruct (list.last l) as [q |] eqn:E; [by apply (mi_last _ _ _ _ _ _ _ M) |].
    apply last_None in E. by apply (mi_last0 _ _ _ _ _ _ _ M). }
  assert (mid l bs ies irs (final_props l) D (set_props (final_props l) r)) as M' by (destruct M; split; done).
  destruct (props_bytes (final_props l) (final_props_ok l Hin)) as [Hb Hs].
  apply (write_mid l bs ies irs _ D _ enc kNoCompression M' Hb ltac:(by_compute)). fold enc in Hs. lia.
Qed.

(** ** The meta index *)
Lemma meta_sorted fh ph : sorted_pairs (C := BytewiseComparator ndebug) bytes (meta_pairs fh ph).
Proof.
  unfold meta_pairs. destruct (filter_policy options) as [P |] eqn:HP; split; cbn [app fmap list_fmap fst].
  - repeat constructor.
  - destruct (Hfilter P eq_refl) as (_ & Hn & _). apply list.Forall_cons. split; [| apply list.Forall_singleton; by_compute].
    unfold filter_name, bytes. apply Forall_app. split; [by_compute | done].
  - repeat constructor.
  - apply list.Forall_singleton. by_compute.
Qed.
Lemma meta_bytes fh ph : Forall (λ p : Slice * Slice, bytes p.1 /\ bytes p.2) (meta_pairs fh ph).
Proof.
  destruct (meta_sorted fh ph) as [_ Hv]. unfold meta_pairs in *. apply list.Forall_forall. intros p Hp. rewrite list.Forall_forall in Hv.
  split; [apply Hv; by apply list_elem_of_fmap_2 |].
  assert (∀ h, bytes (enc_handle h)) as He by (intros h; unfold enc_handle, bytes; apply Forall_app; split; apply bytes_EncodeVarint64).
  destruct (filter_policy options); cbn [app] in Hp; repeat (apply elem_of_cons in Hp as [-> | Hp]; [apply He |]); by apply not_elem_of_nil in Hp.
Qed.

Lemma Finish_metaindex_ok l bs ies irs p D r fh ph : mid l bs ies irs p D r -> ok (tb_status r) = true -> |[D]| < 2 ^ 61 ->
  (is_Some (filter_policy options) -> handle_ok fh) -> handle_ok ph ->
  ∃ mes mrs r', pairs mes = meta_pairs fh ph /\ block_ok mes mrs /\ |[block_bytes mes mrs]| < 2 ^ 17 /\ bytes (block_bytes mes mrs) /\
    Finish_metaindex ndebug fh ph r = Some (MkBlockHandle (|[D]|) (|[block_bytes mes mrs]|), r') /\
    (ok (tb_status r') = true -> mid l bs ies irs p (D ++ stored (block_bytes mes mrs) kNoCompression) r').
Proof.
  intros M Hst HD Hfh Hph. unfold Finish_metaindex. rewrite Hst. pose proof (meta_sorted fh ph) as Hs. pose proof (handle_size fh). pose proof (handle_size ph).
  assert (∃ b es rs, (match filter_block r, filter_policy (tb_options r) with
      | Some _, Some P => enc ← BlockHandle_EncodeTo ndebug fh []; BlockBuilder.Add ndebug (Some (BytewiseComparator ndebug)) (lit "filter." ++ @fp_Name P) enc (new_BlockBuilder 1)
      | Some _, None => None
      | None, _ => Some (new_BlockBuilder 1)
      end) = Some b /\ builder_ok [] b es rs /\ pairs es = match filter_policy options with Some P => [(filter_name P, enc_handle fh)] | None => [] end /\
      |[block_bytes es rs]| < 2 ^ 16 + 100) as (b & es & rs & -> & Hb & Hp & Hsz).
  { pose proof (mi_filter _ _ _ _ _ _ _ M) as Hf. rewrite (mi_options _ _ _ _ _ _ _ M). unfold meta_pairs in Hs. destruct (filter_policy options) as [P |] eqn:HP.
    - destruct (filter_block r); [| destruct (proj2 Hf ltac:(by eexists)) as [? [=]]]. rewrite EncodeTo_ok by (apply Hfh; by eexists). cbn [mbind option_bind app].
      destruct (Hfilter P eq_refl) as (_ & Hn & Hns). assert (|[filter_name P]| = 7 + |[@fp_Name P]|) as Efn by (unfold filter_name; by rewrite slice_size_app).
      destruct (add_one_ok (C := BytewiseComparator ndebug) (valid := bytes) ndebug [] (new_BlockBuilder 1) [] [0%nat] (filter_name P) (enc_handle fh) (new_ok 1))
        as (b & sh & rs & E & Hb & Hsz & _).
      + change (pairs [] ++ [(filter_name P, enc_handle fh)]) with [(filter_name P, enc_handle fh)]. exact (proj1 (sorted_pairs_app _ _ Hs)).
      + change (|[block_bytes [] [0%nat]]|) with 8. change (|[ [] ]|) with 0. unfold cost. cbn [fst snd]. lia.
      + do 3 eexists. split; [exact E |]. split; [exact Hb |]. split; [done |]. change (|[block_bytes [] [0%nat]]|) with 8 in Hsz. unfold cost in Hsz. cbn [fst snd] in Hsz. cbn [app]. cbn [app] in Hsz. lia.
    - destruct (filter_block r); [destruct (proj1 Hf ltac:(by eexists)) as [? [=]] |]. do 3 eexists. split; [done |]. split; [apply new_ok |]. split; [done |]. by_compute. }
  cbn [mbind option_bind]. rewrite EncodeTo_ok by done. cbn [mbind option_bind app].
  destruct (add_one_ok (C := BytewiseComparator ndebug) (valid := bytes) ndebug [] b es rs props_name (enc_handle ph) Hb) as (b' & sh & rs' & E & Hb' & Hsz' & _).
  { rewrite Hp. exact Hs. } { unfold cost. cbn [fst snd]. change (|[props_name]|) with 16. change (|[ [] ]|) with 0. lia. }
  fold props_name. rewrite E. cbn [mbind option_bind]. set (mes := es ++ [MkItem props_name (enc_handle ph) sh]) in *.
  assert (pairs mes = meta_pairs fh ph) as Hmes by (unfold mes, meta_pairs; by rewrite pairs_app, Hp).
  assert (|[block_bytes mes rs']| < 2 ^ 17) as Hlt by (unfold cost in Hsz'; cbn [fst snd] in Hsz'; change (|[props_name]|) with 16 in Hsz'; lia).
  destruct (Finish_plain ndebug [] b' mes rs' Hb') as (b2 & -> & _ & _); [lia |]. cbn [mbind option_bind].
  assert (bytes (block_bytes mes rs')) as Hby by (apply bytes_block; rewrite Hmes; apply meta_bytes).
  destruct (write_mid l bs ies irs p D r (block_bytes mes rs') kNoCompression M Hby ltac:(by_compute)) as (r' & -> & Hr'); [lia |].
  exists mes, rs', r'. split_and!; try done. split; [apply Hb' | lia].
Qed.

(** ** The index *)
Lemma Finish_index_ok l bs ies irs p D r : mid l bs ies irs p D r -> input_ok l -> l = block_pairs bs -> Forall wblock_ok bs -> ok (tb_status r) = true -> |[D]| < 2 ^ 61 ->
  ∃ ies' irs' raw type r', length ies' = length bs /\ entries l bs (pairs ies') /\ block_ok ies' irs' /\ bytes raw /\ word 8 type /\
    unpack type raw = Some (block_bytes ies' irs') /\ |[raw]| < 2 ^ 32 /\
    Finish_index C ndebug r = Some (MkBlockHandle (|[D]|) (|[raw]|), r') /\
    (ok (tb_status r') = true -> wf_open (tb_file r') /\ wf_data (tb_file r') = D ++ stored raw type /\ tb_offset r' = |[D]| + |[raw]| + 5).
Proof.
  intros [Mo Mi Mit Mis Me Mp Ml Ml0 Mfi Mpr Mf Mof Mop] Hin El Hb Hst HD. unfold Finish_index. rewrite Hst.
  assert (costs (block_pairs bs) < 2 ^ 29) as Hcosts by (rewrite <- El; exact (in_costs _ Hin)).
  assert (∃ k ib ies' irs', (if pending_index_entry r then
      '(k, b) ← AddIndexEntry C ndebug (last_key r) None (pending_handle r) (index_block r); Some (set_pending false (pending_handle r) (set_index_block b k r))
      else Some r) = Some (set_pending false (pending_handle r) (set_index_block ib k r)) /\
    builder_ok [] ib ies' irs' /\ compression_ ib = kNoCompression /\ |[block_bytes ies' irs']| <= 8 + 4 * costs (block_pairs (take (length ies') bs)) /\
    entries l bs (pairs ies') /\ length ies' = length bs) as (k & ib & ies' & irs' & -> & Hi & Hit & His & He & Hl).
  { destruct (pending_index_entry r) eqn:Ep.
    - destruct Mp as (Hlen & b & Elast & Eh).
      assert (bs !! (length bs - 1)%nat = Some b) as Eb by (rewrite last_lookup in Elast; by replace (length bs - 1)%nat with (Nat.pred (length bs)) by lia).
      assert (wblock_ok b) as Hbb by (rewrite list.Forall_forall in Hb; by eapply Hb, list_elem_of_lookup_2).
      destruct (last_pair bs b Elast Hbb) as (q & Eq & Elq). pose proof (in_sorted _ Hin) as Hs. rewrite El in Hs.
      destruct (successor_ok (same := same) bs b q Hs Elast Eq) as (sep & Esep & Hen). unfold AddIndexEntry. rewrite <- El in Elq. rewrite (Ml q Elq), Esep. cbn [mbind option_bind].
      pose proof (costs_nonneg (block_pairs bs)). rewrite Eh, EncodeTo_ok by (apply w_handle_ok; [done | done | lia]). cbn [mbind option_bind app]. rewrite <- El in Hen.
      destruct (add_entry_ok ndebug l bs b sep (index_block r) ies irs Mi Mit Mis Me Hb (in_sorted _ Hin)) as (ib' & sh & irs' & -> & Hi' & Ht' & Hs' & He' & Hl');
        [exists []; by rewrite app_nil_r | lia | done | done | done |].
      cbn [mbind option_bind]. do 4 eexists. split; [reflexivity |]. by split_and!.
    - exists (last_key r), (index_block r), ies, irs. split_and!; try done. f_equal. tb_eq. }
  cbn [mbind option_bind]. set (r1 := set_pending false (pending_handle r) (set_index_block ib k r)). change (index_block r1) with ib.
  rewrite Hl, take_ge in His by lia.
  destruct (Finish_plain ndebug [] ib ies' irs' Hi) as (ib2 & -> & _ & _); [lia |]. cbn [mbind option_bind].
  assert (bytes (block_bytes ies' irs')) as Hby.
  { apply bytes_block. apply list.Forall_forall. intros q [i Ei]%list_elem_of_lookup. destruct (He i q Ei) as (b & _ & Hq). split.
    - apply (to_bytes (same := same)), (en_valid _ _ _ _ _ Hq).
    - rewrite (en_handle _ _ _ _ _ Hq). unfold enc_handle, bytes. apply Forall_app. split; apply bytes_EncodeVarint64. }
  destruct (WriteBlock_ok ndebug options Hcomp (block_bytes ies' irs') (set_index_block ib2 (last_key r1) r1)) as (raw & type & o & f & s & -> & Hraw & Ht & Hrs & Hu & Hs);
    [exact Mop | done | done | done | tb_simpl; unfold r1; tb_simpl; rewrite Mof; apply slice_size_nonneg | tb_simpl; unfold r1; tb_simpl; rewrite Mof; lia |].
  exists ies', irs', raw, type. eexists. split_and!; try done; [split; [apply Hi | lia] | lia | unfold r1; tb_simpl; by rewrite Mof |].
  unfold r1 in Hs. tb_simpl in Hs. tb_simpl. intros Hok. destruct (Hs Hok) as (Hop' & -> & ->). rewrite Mf, Mof. done.
Qed.

(** ** The file of a table *)
Record Layout := MkLayout {
  la_blocks : list WBlock; la_index : list Item; la_index_restarts : list nat;
  la_filter : Slice; la_filter_handle : BlockHandle;
  la_meta : list Item; la_meta_restarts : list nat;
  la_raw : Slice; la_type : Z
}.
Section Parts.
Variables (l : Pairs) (y : Layout).
Definition props_raw : Slice := TableProperties_EncodeTo (final_props l) [].
Definition data_part : Slice := file_of (la_blocks y) ++ la_filter y.
Definition props_handle : BlockHandle := MkBlockHandle (|[data_part]|) (|[props_raw]|).
Definition meta_raw : Slice := block_bytes (la_meta y) (la_meta_restarts y).
Definition meta_part : Slice := data_part ++ stored props_raw kNoCompression.
Definition meta_handle : BlockHandle := MkBlockHandle (|[meta_part]|) (|[meta_raw]|).
Definition index_part : Slice := meta_part ++ stored meta_raw kNoCompression.
Definition index_handle_of : BlockHandle := MkBlockHandle (|[index_part]|) (|[la_raw y]|).
Definition file_data : Slice := index_part ++ stored (la_raw y) (la_type y) ++ enc_footer meta_handle index_handle_of.
End Parts.

Record table_file l (y : Layout) D : Prop := {
  tf_pairs : l = block_pairs (la_blocks y);
  tf_blocks : Forall wblock_ok (la_blocks y);
  tf_index : block_ok (la_index y) (la_index_restarts y);
  tf_length : length (la_index y) = length (la_blocks y);
  tf_entries : entries l (la_blocks y) (pairs (la_index y));
  tf_raw : bytes (la_raw y) /\ word 8 (la_type y) /\ unpack (la_type y) (la_raw y) = Some (block_bytes (la_index y) (la_index_restarts y));
  tf_filter : filter_part (la_blocks y) (la_filter y) (la_filter_handle y);
  tf_meta : block_ok (la_meta y) (la_meta_restarts y) /\ bytes (meta_raw y);
  tf_meta_pairs : pairs (la_meta y) = meta_pairs (la_filter_handle y) (props_handle l y);
  tf_data : D = file_data l y
}.

Lemma Finish_steps l bs rs ies irs r : good l bs [] rs ies irs r -> input_ok l -> ok (tb_status r) = true ->
  ∃ s r', ('(filter_handle, r) ← Finish_filter (set_closed r);
    '(props_handle, r) ← Finish_props r;
    '(metaindex_handle, r) ← Finish_metaindex ndebug filter_handle props_handle r;
    '(index_handle, r) ← Finish_index C ndebug r;
    r ← Finish_footer ndebug metaindex_handle index_handle r;
    Some (tb_status r, r)) = Some (s, r') /\ (ok s = true -> ∃ y, table_file l y (wf_data (tb_file r'))).
Proof.
  intros G Hin Hst. pose proof G as [_ _ Gp Gb _ _ _ _ _ _ _ _ _ _ _ _ _ _ _ _]. cbn [pairs fmap list_fmap] in Gp. rewrite app_nil_r in Gp.
  assert (∀ r, ok (tb_status r) = false -> Finish_props r = Some (new_BlockHandle, r)) as E1 by (intros r0 E; unfold Finish_props; by rewrite E).
  assert (∀ fh ph r, ok (tb_status r) = false -> Finish_metaindex ndebug fh ph r = Some (new_BlockHandle, r)) as E2 by (intros fh ph r0 E; unfold Finish_metaindex; by rewrite E).
  assert (∀ r, ok (tb_status r) = false -> Finish_index C ndebug r = Some (new_BlockHandle, r)) as E3 by (intros r0 E; unfold Finish_index; by rewrite E).
  assert (∀ mh ih r, ok (tb_status r) = false -> Finish_footer ndebug mh ih r = Some r) as E4 by (intros mh ih r0 E; unfold Finish_footer; by rewrite E).
  destruct (Finish_filter_ok l bs rs ies irs r G Hin Hst) as (fh & r1 & -> & Hs1). cbn [mbind option_bind].
  destruct (ok (tb_status r1)) eqn:S1; [| rewrite E1 by done; cbn [mbind option_bind]; rewrite E2 by done; cbn [mbind option_bind]; rewrite E3 by done; cbn [mbind option_bind]; rewrite E4 by done;
    do 2 eexists; split; [done |]; by rewrite S1].
  destruct (Hs1 eq_refl) as (fpart & Hfp & M1). pose proof (in_costs _ Hin) as Hcosts. pose proof (file_of_size bs Gb) as Hfs. rewrite <- Gp in Hfs.
  assert (|[file_of bs ++ fpart]| < 2 ^ 61 - 2 ^ 40) as Hd1.
  { rewrite slice_size_app. unfold filter_part in Hfp. destruct (filter_policy options); [destruct Hfp as (c & -> & _ & _ & ? & _); rewrite stored_size; lia | rewrite Hfp; change (|[ [] ]|) with 0; lia]. }
  destruct (Finish_props_ok l bs ies irs _ r1 M1 Hin S1 ltac:(lia)) as (r2 & -> & Hs2). cbn [mbind option_bind].
  destruct (ok (tb_status r2)) eqn:S2; [| rewrite E2 by done; cbn [mbind option_bind]; rewrite E3 by done; cbn [mbind option_bind]; rewrite E4 by done;
    do 2 eexists; split; [done |]; by rewrite S2].
  specialize (Hs2 eq_refl). rename Hs2 into M2. destruct (props_bytes _ (final_props_ok l Hin)) as [_ Hps]. fold (props_raw l) in *.
  pose proof (slice_size_nonneg (file_of bs ++ fpart)). pose proof (slice_size_nonneg (props_raw l)).
  destruct (Finish_metaindex_ok l bs ies irs _ _ r2 fh (MkBlockHandle (|[file_of bs ++ fpart]|) (|[props_raw l]|)) M2 S2) as (mes & mrs & r3 & Hmes & Hmok & Hms & Hmb & -> & Hs3).
  { rewrite slice_size_app, stored_size. lia. }
  { intros [P HP]. unfold filter_part in Hfp. rewrite HP in Hfp. destruct Hfp as (c & _ & -> & _ & Hc & _). unfold handle_ok. cbn [bh_offset bh_size]. pose proof (slice_size_nonneg c). lia. }
  { unfold handle_ok. cbn [bh_offset bh_size]. lia. }
  cbn [mbind option_bind]. destruct (ok (tb_status r3)) eqn:S3; [| rewrite E3 by done; cbn [mbind option_bind]; rewrite E4 by done; do 2 eexists; split; [done |]; by rewrite S3].
  specialize (Hs3 eq_refl). pose proof (slice_size_nonneg (block_bytes mes mrs)) as Hm0.
  destruct (Finish_index_ok l bs ies irs _ _ r3 Hs3 Hin Gp Gb S3) as (ies' & irs' & raw & type & r4 & Hl & He & Hiok & Hraw & Ht & Hu & Hrs & -> & Hs4).
  { rewrite !slice_size_app, !stored_size in *. lia. }
  cbn [mbind option_bind]. destruct (ok (tb_status r4)) eqn:S4; [| rewrite E4 by done; do 2 eexists; split; [done |]; by rewrite S4].
  destruct (Hs4 eq_refl) as (Ho4 & Hf4 & _). unfold Finish_footer. rewrite S4. pose proof (slice_size_nonneg raw).
  set (y := MkLayout bs ies' irs' fpart fh mes mrs raw type).
  rewrite Footer_EncodeTo_ok by (unfold handle_ok; cbn [bh_offset bh_size]; rewrite ?slice_size_app, ?stored_size in *; lia). cbn [mbind option_bind].
  destruct (wf_Append (tb_file r4) _) as [s f] eqn:Ea. do 2 eexists. split; [done |]. intros Hok. exists y.
  assert (s = tb_status (if ok s then set_offset (u64 (tb_offset (set_file f s r4) + |[enc_footer (meta_handle l y) (index_handle_of l y)]|)) (set_file f s r4) else set_file f s r4)) as Es by (destruct (ok s); done).
  assert (ok s = true) as Hs by (rewrite Es; exact Hok).
  split; try done. rewrite Hs. tb_simpl. rewrite (Append_ok _ _ _ _ Ea Ho4 Hs), Hf4. symmetry. exact (app_assoc (index_part l y) (stored raw type) (enc_footer (meta_handle l y) (index_handle_of l y))).
Qed.

(** ** A whole table *)
Fixpoint add_pairs l r : option (TableBuilder W) :=
  match l with [] => Some r | p :: l => r ← TableBuilder_Add C ndebug p.1 p.2 r; add_pairs l r end.
Definition build_table l (file : W) : option (Status * TableBuilder W) :=
  r ← new_TableBuilder ndebug options file; r ← add_pairs l r; TableBuilder_Finish C ndebug r.

Lemma new_good file : wf_open file -> wf_data file = [] -> ∃ r, new_TableBuilder ndebug options file = Some r /\ ok (tb_status r) = true /\ good [] [] [] [0%nat] [] [0%nat] r.
Proof.
  intros Hop Hf. unfold new_TableBuilder.
  assert (∃ fb, match filter_policy options with Some P => b ← StartBlock P ndebug 0 new_FilterBlockBuilder; Some (Some (P, b)) | None => Some None end = Some fb /\
    match fb with Some (P, b) => filter_policy options = Some P /\ add_blocks P ndebug (filter_calls [] []) new_FilterBlockBuilder = Some b | None => filter_policy options = None end)
    as (fb & -> & Hfb).
  { destruct (filter_policy options) as [P |] eqn:HP; [| by eexists]. exists (Some (P, new_FilterBlockBuilder)).
    assert (StartBlock P ndebug 0 new_FilterBlockBuilder = Some new_FilterBlockBuilder) as Es by (unfold StartBlock; by rewrite assert_true). rewrite Es.
    split; [done |]. split; [done |]. unfold filter_calls. cbn [imap app add_blocks]. change (|[file_of []]|) with 0. by rewrite Es. }
  cbn [mbind option_bind]. eexists. split; [done |]. split; [done |]. split; tb_simpl; try done; try apply new_ok.
  - intros i Hi. cbn in Hi. lia.
Qed.

Lemma add_pairs_ok l2 : ∀ l1 r, input_ok (l1 ++ l2) -> closed r = false -> tb_options r = options ->
  (ok (tb_status r) = true -> ∃ bs es rs ies irs, good l1 bs es rs ies irs r) ->
  ∃ r', add_pairs l2 r = Some r' /\ closed r' = false /\ tb_options r' = options /\
    (ok (tb_status r') = true -> ∃ bs es rs ies irs, good (l1 ++ l2) bs es rs ies irs r').
Proof.
  induction l2 as [| [key v] l2 IH]; intros l1 r Hin Hc Ho Hg; cbn [add_pairs fst snd]; [exists r; by rewrite app_nil_r |].
  assert (l1 ++ (key, v) :: l2 = (l1 ++ [(key, v)]) ++ l2) as Eapp by by rewrite <- app_assoc. rewrite Eapp in *.
  assert (∃ r1, TableBuilder_Add C ndebug key v r = Some r1 /\ closed r1 = false /\ tb_options r1 = options /\
    (ok (tb_status r1) = true -> ∃ bs es rs ies irs, good (l1 ++ [(key, v)]) bs es rs ies irs r1)) as (r1 & -> & Hc1 & Ho1 & Hg1).
  { destruct (ok (tb_status r)) eqn:Hst.
    - destruct (Hg eq_refl) as (bs & es & rs & ies & irs & G). eapply Add_good; [done | intros P HP; by apply Hfilter | exact G | by eapply input_ok_app | done].
    - exists r. unfold TableBuilder_Add. rewrite Hc, Hst, assert_true. cbn [mbind option_bind negb]. split_and!; try done; by rewrite Hst. }
  cbn [mbind option_bind]. by apply IH.
Qed.

Lemma table_build_ok l file : input_ok l -> wf_open file -> wf_data file = [] ->
  ∃ s r, build_table l file = Some (s, r) /\ (ok s = true -> ∃ y, table_file l y (wf_data (tb_file r))).
Proof.
  intros Hin Hop Hf. unfold build_table. destruct (new_good file Hop Hf) as (r0 & -> & _ & G0). cbn [mbind option_bind].
  destruct (add_pairs_ok l [] r0 Hin) as (r1 & -> & Hc1 & Ho1 & Hg1); [apply G0 | apply G0 | intros _; by do 5 eexists |].
  cbn [mbind option_bind app] in *. unfold TableBuilder_Finish.
  assert (∃ r2, TableBuilder_Flush ndebug r1 = Some r2 /\ closed r2 = false /\ (ok (tb_status r2) = true -> ∃ bs rs ies irs, good l bs [] rs ies irs r2)) as (r2 & -> & Hc2 & Hg2).
  { destruct (ok (tb_status r1)) eqn:Hst.
    - destruct (Hg1 eq_refl) as (bs & es & rs & ies & irs & G). destruct es as [| e es].
      + exists r1. unfold TableBuilder_Flush. rewrite Hc1, Hst, assert_true. cbn [mbind option_bind negb].
        rewrite (body_empty _ _ _ (g_data _ _ _ _ _ _ _ _ _ G)), bool_decide_true by done. split_and!; [done | done |]. intros _. by do 4 eexists.
      + destruct (Flush_ok ndebug options Hcomp (λ P HP, proj1 (Hfilter P HP)) l bs (e :: es) rs ies irs r1 G Hin Hst ltac:(done)) as (r2 & -> & ? & _ & Hg). exists r2. split_and!; [done | done |].
        intros Hok. destruct (Hg Hok) as (b & _ & _ & G2). by do 4 eexists.
    - exists r1. unfold TableBuilder_Flush. rewrite Hc1, Hst, assert_true. cbn [mbind option_bind negb]. split_and!; [done | done |]. done. }
  cbn [mbind option_bind]. rewrite Hc2, assert_true. cbn [mbind option_bind].
  destruct (ok (tb_status r2)) eqn:Hst.
  - destruct (Hg2 eq_refl) as (bs & rs & ies & irs & G). exact (Finish_steps l bs rs ies irs r2 G Hin Hst).
  - unfold Finish_filter. tb_simpl. rewrite Hst. cbn [mbind option_bind].
    unfold Finish_props. tb_simpl. rewrite Hst. cbn [mbind option_bind]. unfold Finish_metaindex. tb_simpl. rewrite Hst. cbn [mbind option_bind].
    unfold Finish_index. tb_simpl. rewrite Hst. cbn [mbind option_bind]. unfold Finish_footer. tb_simpl. rewrite Hst. cbn [mbind option_bind].
    do 2 eexists. split; [done |]. tb_simpl. by rewrite Hst.
Qed.
End Finish.
