(* ===== verification/TableProps.v ===== *)
(** * Tables are read back

    A table opened from the file of a builder iterates over the pairs that were added, finds the first pair at or past
    a key, and has the properties of the builder; the comparator of internal keys is an order for tables. *)
From stdpp Require Import sorting.
From S2P Require Import Prelude Status Keys Coding Comparator Iterator Crc32c Log LogFacts.
From S2P Require Import Format BlockBuilder Block BlockProps BuilderProps.
From S2P Require Import Filter FilterBlock TwoLevel TableBuilder Table TableFacts TableWrite.

Section Read.
Context {C : Comparator} {valid : Slice -> Prop} {same : Slice -> Slice -> Prop} `{!TableOrder C valid same}.
Context {F : Type} `{RandomAccessFileLaws F} `{SnappyLaws} (ndebug : bool) (options : Options).
Implicit Types (t : Table F) (y : Layout) (l : Pairs).
Local Abbreviation table_file := (table_file (valid := valid) (same := same) options).

(** The iterator of a block that holds the given items. *)
Lemma open_block es rs : block_ok es rs -> ∃ blk it, new_Block (block_bytes es rs) = Some blk /\ Block_NewIterator ndebug blk = Some (inl it) /\
  data_ blk = block_bytes es rs /\ in_left (B := EmptyIterator) (R := at_item (es := es) (rs := rs)) (length (pairs es)) (inl it).
Proof.
  intros Hok. destruct (new_Block_ok ndebug es rs Hok) as (blk & it & E1 & E2 & Hat). exists blk, it. split_and!; try done.
  - unfold new_Block in E1. destruct (_ <? 4); [by injection E1 as <- |]. destruct (num_restarts_of _ _); [| done]. cbn [mbind option_bind] in E1.
    by destruct (_ >? _); injection E1 as <-.
  - exists it. unfold pairs. by rewrite length_fmap.
Qed.
Lemma any_iterates (C' : Comparator) (valid' : Slice -> Prop) `{!OrderOn (@Compare C') valid'} es rs : block_ok es rs -> sorted_pairs (C := C') valid' (pairs es) ->
  iterates (H := block_iter ndebug C') valid' (in_left (B := EmptyIterator) (R := at_item (es := es) (rs := rs))) (pairs es).
Proof. intros Hok Hs. exact (left_iterates (H0 := EmptyIterator_Iterator ndebug) (block_iterates ndebug Hok Hs)). Qed.

(** ** The meta index *)
Lemma meta_find_ok es rs n it i name v : block_ok es rs -> sorted_pairs (C := BytewiseComparator ndebug) bytes (pairs es) ->
  in_left (B := EmptyIterator) (R := at_item (es := es) (rs := rs)) n it -> pairs es !! i = Some (name, v) ->
  ∃ it', meta_find ndebug name it = Some (Some v, it') /\ in_left (B := EmptyIterator) (R := at_item (es := es) (rs := rs)) i it'.
Proof.
  intros Hok Hs Hn Ei. pose proof (any_iterates (BytewiseComparator ndebug) bytes es rs Hok Hs) as HI. unfold meta_find.
  assert (bytes name) as Hname by exact (sorted_pairs_valid (C := BytewiseComparator ndebug) _ i (name, v) Hs Ei).
  destruct (iter_Seek HI n it name Hn Hname) as (it' & E & Hit'). rewrite E. cbn [mbind option_bind].
  pose proof (lower_hit (C := BytewiseComparator ndebug) _ i (name, v) Hs Ei) as El. cbn [fst] in El. rewrite El in Hit'.
  rewrite (iter_Valid HI i it' Hit'), bool_decide_true by by eapply lookup_lt_Some.
  rewrite (iter_key HI i it' _ Hit' Ei). cbn [mbind option_bind fst]. rewrite bool_decide_true by done.
  rewrite (iter_value HI i it' _ Hit' Ei). cbn [mbind option_bind snd]. by exists it'.
Qed.

Lemma read_handle_ok t pre raw post h : raf_data (t_file t) = pre ++ stored raw kNoCompression ++ post -> bytes raw -> |[raw]| + 5 < 2 ^ 64 ->
  h = MkBlockHandle (|[pre]|) (|[raw]|) -> handle_ok h -> read_handle (enc_handle h) t = Some (Some raw).
Proof.
  intros Ef Hb Hs -> Hh. unfold read_handle. rewrite <- (app_nil_r (enc_handle _)), DecodeFrom_ok by done. change (ok OK) with true. cbn [negb].
  destruct (ReadBlock_stored (t_file t) (paranoid_checks (t_options t)) pre raw kNoCompression post raw Ef Hb ltac:(by_compute) Hs ltac:(done)) as (c & -> & Hc).
  cbn [mbind option_bind]. change (ok OK) with true. cbn match. by rewrite Hc.
Qed.

(** ** Opening *)
Record opened l y (f : F) (ropts : Options) t : Prop := {
  op_options : t_options t = ropts;
  op_file : t_file t = f;
  op_meta : t_metaindex_handle t = meta_handle l y;
  op_index : new_Block (block_bytes (la_index y) (la_index_restarts y)) = Some (t_index_block t);
  op_props : t_props t = final_props l /\ props_valid t = true;
  op_filter : match t_filter t with
    | Some (P, fr) => (∀ off k, 0 <= off -> valid k -> is_Some (FilterBlock_KeyMayMatch P fr off k)) /\
        ∀ i b k k', la_blocks y !! i = Some b -> k ∈ (w_pairs b).*1 -> same k k' ->
          FilterBlock_KeyMayMatch P fr (|[file_of (take i (la_blocks y))]|) k' = Some true
    | None => True
    end
}.

Section File.
Context (l : Pairs) (y : Layout) (f : F) (ropts : Options).
Hypothesis Hin : input_ok (valid := valid) l.
Hypothesis Hy : table_file l y (raf_data f).
Hypothesis Hsz : |[raf_data f]| < 2 ^ 32.
Hypothesis Hro : filter_policy ropts = filter_policy options.
Hypothesis Hname : ∀ P, filter_policy options = Some P -> bytes (@fp_Name P).

(** The parts of the file, and where they start. *)
Lemma parts : raf_data f = (((file_of (la_blocks y) ++ la_filter y) ++ stored (props_raw l) kNoCompression) ++ stored (meta_raw y) kNoCompression) ++
  stored (la_raw y) (la_type y) ++ enc_footer (meta_handle l y) (index_handle_of l y).
Proof. apply Hy. Qed.
Lemma parts_at : (∃ post, raf_data f = data_part y ++ stored (props_raw l) kNoCompression ++ post) /\
  (∃ post, raf_data f = meta_part l y ++ stored (meta_raw y) kNoCompression ++ post) /\
  (∃ post, raf_data f = index_part l y ++ stored (la_raw y) (la_type y) ++ post) /\ (∃ post, raf_data f = file_of (la_blocks y) ++ la_filter y ++ post).
Proof.
  rewrite parts. fold (data_part y) (meta_part l y) (index_part l y). split_and!.
  - exists (stored (meta_raw y) kNoCompression ++ stored (la_raw y) (la_type y) ++ enc_footer (meta_handle l y) (index_handle_of l y)).
    generalize (enc_footer (meta_handle l y) (index_handle_of l y)). intros e. unfold index_part, meta_part. by rewrite <- !app_assoc.
  - exists (stored (la_raw y) (la_type y) ++ enc_footer (meta_handle l y) (index_handle_of l y)).
    generalize (enc_footer (meta_handle l y) (index_handle_of l y)). intros e. unfold index_part. by rewrite <- !app_assoc.
  - by eexists.
  - exists (stored (props_raw l) kNoCompression ++ stored (meta_raw y) kNoCompression ++ stored (la_raw y) (la_type y) ++ enc_footer (meta_handle l y) (index_handle_of l y)).
    generalize (enc_footer (meta_handle l y) (index_handle_of l y)). intros e. unfold index_part, meta_part, data_part. by rewrite <- !app_assoc.
Qed.
Lemma part_sizes : 0 <= |[file_of (la_blocks y)]| /\ 0 <= |[la_filter y]| /\ 0 <= |[props_raw l]| /\ 0 <= |[meta_raw y]| /\ 0 <= |[la_raw y]| /\
  |[data_part y]| = |[file_of (la_blocks y)]| + |[la_filter y]| /\ |[meta_part l y]| = |[data_part y]| + |[props_raw l]| + 5 /\
  |[index_part l y]| = |[meta_part l y]| + |[meta_raw y]| + 5 /\ |[raf_data f]| = |[index_part l y]| + |[la_raw y]| + 5 + kEncodedLength.
Proof.
  rewrite parts. unfold index_part, meta_part, data_part. rewrite !slice_size_app, !stored_size, enc_footer_size.
  pose proof (slice_size_nonneg (file_of (la_blocks y))). pose proof (slice_size_nonneg (la_filter y)). pose proof (slice_size_nonneg (props_raw l)).
  pose proof (slice_size_nonneg (meta_raw y)). pose proof (slice_size_nonneg (la_raw y)). lia.
Qed.
Lemma handles_ok : handle_ok (props_handle l y) /\ handle_ok (meta_handle l y) /\ handle_ok (index_handle_of l y).
Proof.
  pose proof part_sizes as (? & ? & ? & ? & ? & ? & ? & ? & ?). change kEncodedLength with 48 in *.
  unfold handle_ok, props_handle, meta_handle, index_handle_of. cbn [bh_offset bh_size]. lia.
Qed.

Lemma read_footer : ∃ b, raf_Read f (|[raf_data f]| - kEncodedLength) kEncodedLength = (OK, enc_footer (meta_handle l y) (index_handle_of l y), b).
Proof.
  pose proof part_sizes as (? & ? & ? & ? & ? & ? & ? & ? & ?).
  destruct (raf_Read_ok f (|[raf_data f]| - kEncodedLength) kEncodedLength) as [b ->]; [change kEncodedLength with 48 in *; lia | by cbn |]. exists b. f_equal. f_equal.
  replace (|[raf_data f]| - kEncodedLength) with (|[index_part l y ++ stored (la_raw y) (la_type y)]|) by (rewrite slice_size_app, stored_size; lia).
  rewrite parts, app_assoc. fold (data_part y) (meta_part l y) (index_part l y). rewrite drop_slice_size. apply take_whole. by rewrite enc_footer_size.
Qed.

Lemma ReadProperties_ok t : t_file t = f -> ReadProperties (enc_handle (props_handle l y)) t = Some (set_table_props (final_props l) true t).
Proof.
  intros Ef. destruct handles_ok as (Hp & _ & _). pose proof part_sizes as (? & ? & ? & ? & ? & ? & ? & ? & ?). change kEncodedLength with 48 in *.
  destruct parts_at as ([post Ep] & _). unfold ReadProperties. rewrite (read_handle_ok t (data_part y) (props_raw l) post (props_handle l y));
    [| by rewrite Ef | apply (props_bytes (final_props l)), final_props_ok, Hin | lia | done | done].
  cbn [mbind option_bind]. destruct (final_props_ok l Hin) as [? ? [_ ?] [_ ?]].
  assert (TableProperties_DecodeFrom (props_raw l) = (OK, final_props l)) as -> by (rewrite <- (app_nil_r (props_raw l)); apply TableProperties_roundtrip; [done | done | lia | lia]). change (ok OK) with true. by rewrite orb_true_r.
Qed.

Lemma ReadFilter_ok P t : t_file t = f -> filter_policy options = Some P ->
  ∃ fr, ReadFilter P (enc_handle (la_filter_handle y)) t = Some (set_filter (P, fr) t) /\
    (∀ off k, 0 <= off -> valid k -> is_Some (FilterBlock_KeyMayMatch P fr off k)) /\
    ∀ i b k k', la_blocks y !! i = Some b -> k ∈ (w_pairs b).*1 -> same k k' ->
      FilterBlock_KeyMayMatch P fr (|[file_of (take i (la_blocks y))]|) k' = Some true.
Proof.
  intros Ef HP. pose proof (tf_filter _ _ _ _ Hy) as Hf. unfold filter_part in Hf. rewrite HP in Hf. destruct Hf as (c & Ec & Eh & Hb & _ & Hr).
  pose proof part_sizes as (? & ? & ? & ? & ? & ? & ? & ? & ?). change kEncodedLength with 48 in *. rewrite Ec, stored_size in *. pose proof (slice_size_nonneg c).
  destruct (Hr ltac:(lia)) as (fr & Efr & Htot & Hm). exists fr. split; [| done]. unfold ReadFilter.
  destruct parts_at as (_ & _ & _ & [post Ep]). rewrite Ec in Ep.
  rewrite (read_handle_ok t (file_of (la_blocks y)) c post); [cbn [mbind option_bind]; by rewrite Efr | by rewrite Ef | done | lia | done |].
  rewrite Eh. unfold handle_ok. cbn [bh_offset bh_size]. lia.
Qed.

Lemma ReadMeta_ok t : t_file t = f -> t_options t = ropts -> t_filter t = None -> t_metaindex_handle t = meta_handle l y ->
  new_Block (block_bytes (la_index y) (la_index_restarts y)) = Some (t_index_block t) ->
  ∃ t', ReadMeta ndebug (MkFooter (meta_handle l y) (index_handle_of l y)) t = Some t' /\ opened l y f ropts t'.
Proof.
  intros Ef Eo Efil Em Ei. destruct handles_ok as (_ & Hm & _). pose proof part_sizes as (? & ? & ? & ? & ? & ? & ? & ? & ?). change kEncodedLength with 48 in *.
  destruct (tf_meta _ _ _ _ Hy) as [Hmok Hmb]. pose proof (tf_meta_pairs _ _ _ _ Hy) as Hmp.
  destruct parts_at as (_ & [post Ep] & _). unfold ReadMeta. cbn [metaindex_handle]. rewrite <- Ef in Ep.
  destruct (ReadBlock_stored (t_file t) (paranoid_checks (t_options t)) _ (meta_raw y) kNoCompression post (meta_raw y) Ep Hmb ltac:(by_compute) ltac:(lia) ltac:(done)) as (c & Er & Hc).
  fold (meta_handle l y) in Er. rewrite Er. cbn [mbind option_bind]. change (ok OK) with true. cbn [negb]. rewrite Hc. unfold meta_raw.
  destruct (open_block _ _ Hmok) as (blk & it & -> & Eit & _ & Hat). cbn [mbind option_bind]. rewrite Eit. cbn [mbind option_bind].
  assert (sorted_pairs (C := BytewiseComparator ndebug) bytes (pairs (la_meta y))) as Hs.
  { rewrite Hmp. unfold meta_pairs. destruct (filter_policy options) as [P |] eqn:HP; split; cbn [app fmap list_fmap fst].
    - repeat constructor.
    - apply list.Forall_cons. split; [| apply list.Forall_singleton; by_compute]. unfold filter_name, bytes. apply Forall_app. split; [by_compute | by apply Hname].
    - repeat constructor.
    - apply list.Forall_singleton. by_compute. }
  set (n := length (pairs (la_meta y))) in Hat.
  assert (pairs (la_meta y) !! (match filter_policy options with Some _ => 1 | None => 0 end)%nat = Some (props_name, enc_handle (props_handle l y))) as Eprops
    by (rewrite Hmp; unfold meta_pairs; by destruct (filter_policy options)).
  destruct (meta_find_ok _ _ n (inl it) _ props_name _ Hmok Hs Hat Eprops) as (it1 & E1 & Hat1). fold props_name. rewrite E1. cbn [mbind option_bind].
  rewrite ReadProperties_ok by done. cbn [mbind option_bind]. cbn [set_table_props t_options]. rewrite Eo, Hro.
  destruct (filter_policy options) as [P |] eqn:HP.
  - assert (pairs (la_meta y) !! 0%nat = Some (filter_name P, enc_handle (la_filter_handle y))) as Efilter by (rewrite Hmp; unfold meta_pairs; by rewrite HP).
    destruct (meta_find_ok _ _ _ it1 _ (filter_name P) _ Hmok Hs Hat1 Efilter) as (it2 & E2 & _). fold (filter_name P). rewrite E2. cbn [mbind option_bind].
    destruct (ReadFilter_ok P (set_table_props (final_props l) true t) Ef HP) as (fr & -> & Htot & Hmatch). eexists. split; [done |]. by split.
  - eexists. split; [done |]. split; try done. cbn [set_table_props t_filter]. by rewrite Efil.
Qed.

Lemma Open_ok new_id : ∃ t, Open ndebug ropts f (|[raf_data f]|) new_id = Some (OK, Some t) /\ opened l y f ropts t.
Proof.
  destruct handles_ok as (_ & Hm & Hi). pose proof part_sizes as (? & ? & ? & ? & ? & ? & ? & ? & ?).
  unfold Open. rewrite (proj2 (Z.ltb_ge _ _)) by (change kEncodedLength with 48 in *; lia).
  destruct read_footer as [b ->]. change (ok OK) with true. cbn [negb].
  destruct (Footer_DecodeFrom_ok (MkFooter new_BlockHandle new_BlockHandle) _ _ Hm Hi) as [rest ->]. cbn [mbind option_bind]. change (ok OK) with true. cbn [negb index_handle metaindex_handle].
  destruct (tf_raw _ _ _ _ Hy) as (Hraw & Ht & Hu). destruct parts_at as (_ & _ & [post Ep] & _).
  change kEncodedLength with 48 in *.
  destruct (ReadBlock_stored f (paranoid_checks ropts) _ (la_raw y) (la_type y) post _ Ep Hraw Ht ltac:(lia) Hu) as (c & Er & Hc).
  fold (index_handle_of l y) in Er. rewrite Er. cbn [mbind option_bind]. change (ok OK) with true. cbn [negb]. rewrite Hc.
  destruct (open_block _ _ (tf_index _ _ _ _ Hy)) as (blk & it & Eb & _). rewrite Eb. cbn [mbind option_bind].
  destruct (ReadMeta_ok (MkTable ropts f new_id None (meta_handle l y) blk TableProperties_Clear false)) as (t & -> & Ho); try done.
  cbn [mbind option_bind]. by exists t.
Qed.

(** ** The blocks of an open table *)
Section Opened.
Context (t : Table F) (Ht : opened l y f ropts t).
Local Abbreviation bs := (la_blocks y).
Local Abbreviation idx := (pairs (la_index y)).

Definition block_map : gmap Slice WBlock := list_to_map (imap (λ i b, (enc_handle (w_handle bs i b), b)) bs).
Definition block_of (h : Slice) : Pairs := match block_map !! h with Some b => w_pairs b | None => [] end.
Definition at_block (h : Slice) : nat -> BlockIter + EmptyIterator -> Prop :=
  match block_map !! h with Some b => in_left (R := at_item (es := w_es b) (rs := w_rs b)) | None => λ _ _, False end.

Lemma costs_bs : costs (block_pairs bs) < 2 ^ 29.
Proof. rewrite <- (tf_pairs _ _ _ _ Hy). exact (in_costs _ Hin). Qed.
Lemma block_handle_ok i b : bs !! i = Some b -> handle_ok (w_handle bs i b).
Proof. intros E. apply w_handle_ok; [apply Hy | done |]. pose proof costs_bs. lia. Qed.
Lemma block_map_lookup i b : bs !! i = Some b -> block_map !! enc_handle (w_handle bs i b) = Some b.
Proof.
  intros E. apply elem_of_list_to_map_1; [| apply elem_of_lookup_imap; by exists i, b].
  apply NoDup_alt. intros j k h Ej Ek. rewrite list_lookup_fmap, list_lookup_imap in Ej, Ek.
  destruct (bs !! j) as [c |] eqn:Ec; [| done]. destruct (bs !! k) as [d |] eqn:Ed; [| done]. cbn [fmap option_fmap option_map fst] in Ej, Ek. injection Ej as Ej. injection Ek as Ek.
  apply (w_handle_inj bs j k c d Ec Ed). apply enc_handle_inj; [by apply block_handle_ok.. | congruence].
Qed.

Lemma entry_at i p : idx !! i = Some p -> ∃ b, bs !! i = Some b /\ entry_ok (valid := valid) (same := same) l bs i p b /\ wblock_ok b /\
  block_map !! p.2 = Some b /\ p.2 = enc_handle (w_handle bs i b).
Proof.
  intros E. destruct (tf_entries _ _ _ _ Hy i p E) as (b & Eb & Hp). exists b. pose proof (tf_blocks _ _ _ _ Hy) as Hb. rewrite list.Forall_forall in Hb.
  rewrite (en_handle _ _ _ _ _ Hp). split_and!; try done; [by eapply Hb, list_elem_of_lookup_2 | by apply block_map_lookup].
Qed.
Lemma index_length : length idx = length bs.
Proof. unfold pairs. rewrite length_fmap. apply Hy. Qed.
Lemma entry_exists i b : bs !! i = Some b -> ∃ p, idx !! i = Some p.
Proof. intros E. apply lookup_lt_is_Some_2. rewrite index_length. by eapply lookup_lt_Some. Qed.

(** The pair at a place of a block. *)
Lemma pair_at i b j q : bs !! i = Some b -> w_pairs b !! j = Some q -> l !! (start bs i + j)%nat = Some q /\ (start bs i + j < start bs (S i))%nat.
Proof.
  intros Eb Ej. pose proof (lookup_lt_Some _ _ _ Ej). rewrite (tf_pairs _ _ _ _ Hy), (block_pairs_lookup bs i b) by done. rewrite (start_S bs i b Eb). split; [done | lia].
Qed.
Lemma block_sorted i b : bs !! i = Some b -> sorted_pairs valid (w_pairs b).
Proof.
  intros Eb. pose proof (in_sorted _ Hin) as Hs. rewrite (tf_pairs _ _ _ _ Hy), <- (take_drop_middle bs i b Eb), block_pairs_app in Hs.
  apply sorted_pairs_app in Hs as [_ Hs]. change (block_pairs (b :: drop (S i) bs)) with (w_pairs b ++ block_pairs (drop (S i) bs)) in Hs. exact (proj1 (sorted_pairs_app _ _ Hs)).
Qed.

Lemma index_sorted : sorted_pairs valid idx.
Proof. eapply entries_sorted; [apply Hin | exists []; rewrite app_nil_r; apply Hy | apply Hy | apply Hy]. Qed.
Lemma below_separator i p q : idx !! i = Some p -> q ∈ block_of p.2 -> valid q.1 /\ Compare q.1 p.1 <> Some Gt.
Proof.
  intros E Hq. destruct (entry_at i p E) as (b & Eb & Hp & Hb & Em & _). unfold block_of in Hq. rewrite Em in Hq.
  apply list_elem_of_lookup in Hq as [j Ej]. pose proof (block_sorted i b Eb) as Hs. assert (valid q.1) as Hv by by eapply sorted_pairs_valid. split; [done |].
  pose proof (w_pairs_pos b Hb). destruct (lookup_lt_is_Some_2 (w_pairs b) (Nat.pred (length (w_pairs b)))) as [z Ez]; [lia |].
  assert (Compare z.1 p.1 <> Some Gt) as Hz by (apply (en_last _ _ _ _ _ Hp); by rewrite last_lookup).
  destruct (decide (j = Nat.pred (length (w_pairs b)))) as [-> | Hne]; [rewrite Ez in Ej; by injection Ej as <- |].
  assert (valid z.1) as Hvz by by eapply sorted_pairs_valid. pose proof (lookup_lt_Some _ _ _ Ej).
  rewrite (cmp_lt_le_trans q.1 z.1 p.1); [done | done | done | apply Hp | | done]. apply (sorted_pairs_lookup _ _ _ _ _ Hs Ej Ez). lia.
Qed.
Lemma above_separator i p k r q : idx !! i = Some p -> idx !! k = Some r -> (i < k)%nat -> q ∈ block_of r.2 -> Compare p.1 q.1 = Some Lt.
Proof.
  intros Ei Ek Hik Hq. destruct (entry_at i p Ei) as (b & Eb & Hp & Hb & _). destruct (entry_at k r Ek) as (c & Ec & _ & _ & Em & _).
  unfold block_of in Hq. rewrite Em in Hq. apply list_elem_of_lookup in Hq as [j Ej]. destruct (pair_at k c j q Ec Ej) as [El Hlt].
  pose proof (in_sorted _ Hin) as Hs. pose proof (start_mono bs (S i) k ltac:(lia)) as Hm.
  destruct (lookup_lt_is_Some_2 l (start bs (S i))) as [z Ez]; [apply lookup_lt_Some in El; lia |].
  assert (valid z.1 /\ valid q.1) as [Hvz Hvq] by (split; by eapply sorted_pairs_valid).
  assert (Compare p.1 z.1 = Some Lt) as Hpz.
  { apply (en_next _ _ _ _ _ Hp z); [done | done | by apply to_same |]. intros w Ew. rewrite last_lookup in Ew. destruct (pair_at i b _ w Eb Ew) as [Elw Hltw].
    apply (sorted_pairs_lookup _ _ _ _ _ Hs Elw Ez). lia. }
  destruct (decide (start bs (S i) = start bs k + j)%nat) as [E | Hne]; [rewrite E, El in Ez; by injection Ez as <- |].
  apply (cmp_trans p.1 z.1 q.1); [apply Hp | done | done | done |]. apply (sorted_pairs_lookup _ _ _ _ _ Hs Ez El). lia.
Qed.

(** ** Reading the blocks *)
Lemma at_block_iterates h b : block_map !! h = Some b -> wblock_ok b -> sorted_pairs valid (w_pairs b) ->
  iterates (H := block_iter ndebug C) valid (at_block h) (block_of h).
Proof. intros E Hb Hs. unfold at_block, block_of. rewrite E. exact (any_iterates C valid _ _ (wb_block b Hb) Hs). Qed.

Lemma read_data_block ro i b : bs !! i = Some b -> wblock_ok b ->
  ∃ contents, ReadBlock (t_file t) (verify_checksums ro) (w_handle bs i b) = Some (OK, contents) /\ bc_data contents = block_bytes (w_es b) (w_rs b).
Proof.
  intros Eb Hb. destruct parts_at as (_ & _ & _ & [post Ep]). rewrite (file_of_split bs i b Eb), <- !app_assoc in Ep. rewrite <- (op_file _ _ _ _ _ Ht) in Ep.
  pose proof (block_handle_ok i b Eb) as [_ Hhs]. unfold w_handle in Hhs. cbn [bh_size] in Hhs.
  assert (|[w_raw b]| + 5 < 2 ^ 64) as Hs.
  { pose proof (f_equal slice_size Ep) as Es. rewrite (op_file _ _ _ _ _ Ht), !slice_size_app, stored_size in Es.
    pose proof (slice_size_nonneg (file_of (take i bs))). pose proof (slice_size_nonneg (file_of (drop (S i) bs))). pose proof (slice_size_nonneg (la_filter y)). pose proof (slice_size_nonneg post). lia. }
  exact (ReadBlock_stored (t_file t) (verify_checksums ro) _ (w_raw b) (w_type b) _ _ Ep (wb_bytes b Hb) (wb_type b Hb) Hs (wb_unpack b Hb)).
Qed.
Lemma BlockReader_ok ro i p : idx !! i = Some p ->
  ∃ it, BlockReader (K := unit) ndebug t ro None p.2 = Some (it, None) /\ at_block p.2 (length (block_of p.2)) it.
Proof.
  intros E. destruct (entry_at i p E) as (b & Eb & _ & Hb & Em & Eh). destruct (read_data_block ro i b Eb Hb) as (c & Er & Hc).
  unfold BlockReader. assert (BlockHandle_DecodeFrom new_BlockHandle p.2 = (OK, w_handle bs i b, [])) as ->
    by (rewrite Eh, <- (app_nil_r (enc_handle _)); apply DecodeFrom_ok; by apply block_handle_ok).
  change (ok OK) with true. cbn match. rewrite Er. cbn [mbind option_bind]. change (ok OK) with true. cbn match. rewrite Hc.
  destruct (open_block _ _ (wb_block b Hb)) as (blk & it & -> & Eit & _ & Hat). cbn [mbind option_bind]. rewrite Eit. cbn [mbind option_bind].
  exists (inl it). split; [done |]. unfold at_block, block_of. by rewrite Em.
Qed.

Lemma all_blocks : all_pairs (idx := idx) (blk := block_of) = l.
Proof.
  rewrite (tf_pairs _ _ _ _ Hy). unfold all_pairs, block_pairs, blocks. f_equal. apply list_eq. intros i. rewrite !list_lookup_fmap.
  destruct (idx !! i) as [p |] eqn:E; cbn [fmap option_fmap option_map].
  - destruct (entry_at i p E) as (b & Eb & _ & _ & Em & _). rewrite Eb. unfold block_of. by rewrite Em.
  - apply lookup_ge_None_1 in E. rewrite index_length in E. by rewrite lookup_ge_None_2.
Qed.

Lemma index_open : ∃ it, Block_NewIterator ndebug (t_index_block t) = Some (inl it) /\
  in_left (B := EmptyIterator) (R := at_item (es := la_index y) (rs := la_index_restarts y)) (length idx) (inl it) /\ (length idx < Table_fuel t)%nat.
Proof.
  destruct (open_block _ _ (tf_index _ _ _ _ Hy)) as (blk & it & Eb & Eit & Hd & Hat). rewrite (op_index _ _ _ _ _ Ht) in Eb. injection Eb as Eb. subst blk.
  exists it. split_and!; [done | done |]. unfold Table_fuel. rewrite Hd. unfold block_bytes. rewrite length_app. pose proof (count_le (la_index y)). unfold pairs. rewrite length_fmap. lia.
Qed.

Lemma blocks_open ro i p : idx !! i = Some p -> iterates (H := block_iter ndebug C) valid (at_block p.2) (block_of p.2) /\
  ∃ d n, table_block ndebug t ro p.2 = Some d /\ at_block p.2 n d.
Proof.
  intros E. destruct (entry_at i p E) as (b & Eb & _ & Hb & Em & _). split; [apply (at_block_iterates _ b Em Hb), (block_sorted i b Eb) |].
  destruct (BlockReader_ok ro i p E) as (it & Er & Hit). exists it, (length (block_of p.2)). split; [| done]. unfold table_block. by rewrite Er.
Qed.

(** The iterator of the table. *)
Lemma Table_iterates ro : ∃ it R, Table_NewIterator C ndebug t = Some it /\
  iterates (H := Table_Iterator C ndebug t ro) valid R l /\ R (length l) it.
Proof.
  destruct index_open as (it & Eit & Hat & Hf). pose proof (any_iterates C valid _ _ (tf_index _ _ _ _ Hy) index_sorted) as HI.
  unfold Table_NewIterator. rewrite Eit. cbn [mbind option_bind].
  destruct (new_TwoLevel_ok (HiI := block_iter ndebug C) (HiD := block_iter ndebug C) (valid := valid) (RD := at_block) (blk := block_of) HI (inl it) Hat) as (tl & Etl & Htl).
  pose proof (two_level_iterates (HiI := block_iter ndebug C) (HiD := block_iter ndebug C) ndebug (table_block ndebug t ro) HI (blocks_open ro) index_sorted below_separator above_separator (Table_fuel t) Hf) as Hit.
  rewrite all_blocks in Hit, Htl. exists tl. eexists. split; [exact Etl |]. split; [exact Hit | exact Htl].
Qed.
(** ** Finding a key *)
(** What a search for a key may save: nothing when no pair of that key is at or past it, else the first pair there. *)
Definition found (ro : ReadOptions) (k : Slice) (saved : option (Slice * Slice)) : Prop :=
  (∀ q, saved = Some q -> ∃ v, l !! lower l k = Some (q.1, v) /\ q.2 = if ro_limit ro =? 0 then [] else v) /\
  ∀ q, l !! lower l k = Some q -> same q.1 k -> saved = Some (q.1, if ro_limit ro =? 0 then [] else q.2).

(** The entry that an index search ends at, and where its block stands among the pairs. *)
Lemma lower_block k : valid k ->
  (lower l k = length l /\ lower idx k = length idx) \/
  ∃ p b, idx !! lower idx k = Some p /\ bs !! lower idx k = Some b /\ block_map !! p.2 = Some b /\
    lower l k = (start bs (lower idx k) + lower (w_pairs b) k)%nat.
Proof.
  intros Hk. pose proof (lower_all_pairs (blk := block_of) index_sorted below_separator above_separator k Hk) as El. rewrite all_blocks in El.
  destruct (idx !! lower idx k) as [p |] eqn:Ep.
  - right. destruct (entry_at _ p Ep) as (b & Eb & _ & _ & Em & _). exists p, b. split_and!; try done. rewrite El.
    unfold block_of at 2. rewrite Em. f_equal. unfold first_of, start, block_pairs, blocks. f_equal. f_equal.
    apply list_eq. intros j. destruct (decide (j < lower idx k)%nat) as [Hj |]; [| by rewrite !lookup_ge_None_2 by (rewrite ?length_fmap, length_take; lia)].
    rewrite list_lookup_fmap, !lookup_take_lt, list_lookup_fmap by done. 
    destruct (lookup_lt_is_Some_2 idx j) as [q Eq]; [apply lookup_lt_Some in Ep; lia |]. destruct (entry_at j q Eq) as (c & Ec & _ & _ & Emc & _).
    rewrite Eq, Ec. cbn [fmap option_fmap option_map]. unfold block_of. by rewrite Emc.
  - left. split; [done |]. apply lookup_ge_None_1 in Ep. pose proof (lower_le idx k). lia.
Qed.

(** Past the last pair of the block, no pair of the key follows. *)
Lemma past_block k b q : valid k -> bs !! lower idx k = Some b -> lower (w_pairs b) k = length (w_pairs b) ->
  l !! lower l k = Some q -> same q.1 k -> False.
Proof.
  intros Hk Eb Hl Eq Hs. destruct (lower_block k Hk) as [[E1 E2] | (p & b' & Ep & Eb' & _ & El)].
  { rewrite E1 in Eq. apply lookup_lt_Some in Eq. lia. }
  rewrite Eb in Eb'. injection Eb' as <-. rewrite Hl in El. rewrite <- (start_S bs _ b Eb) in El. rewrite El in Eq.
  destruct (entry_at _ p Ep) as (b' & Eb' & Hp & _). rewrite Eb in Eb'. injection Eb' as <-.
  assert (Compare p.1 k = Some Lt) as Hlt.
  { apply (en_next _ _ _ _ _ Hp q k Eq Hk Hs). intros q' Eq'. rewrite last_lookup in Eq'.
    apply (lower_spec (w_pairs b) k _ q' (block_sorted _ b Eb) Hk Eq'). rewrite Hl. by eapply lookup_lt_Some. }
  apply (lower_spec idx k _ p index_sorted Hk Ep) in Hlt. lia.
Qed.

Lemma InternalGet_ok ro k : valid k -> ∃ s saved, InternalGet (K := unit) C ndebug t ro None k = Some (s, saved, None) /\ ok s = true /\ found ro k saved.
Proof.
  intros Hk. destruct index_open as (it & Eit & Hat & _). pose proof (any_iterates C valid _ _ (tf_index _ _ _ _ Hy) index_sorted) as HI.
  unfold InternalGet. rewrite Eit. cbn [mbind option_bind]. destruct (iter_Seek HI _ _ k Hat Hk) as (it1 & E1 & Hit1). rewrite E1. cbn [mbind option_bind].
  rewrite (iter_Valid HI _ _ Hit1). pose proof (iter_status HI _ _ Hit1) as Hst1. clear it Eit Hat E1.
  destruct (lower_block k Hk) as [[El Ei] | (p & b & Ep & Eb & Em & El)].
  { rewrite bool_decide_false by lia. cbn [mbind option_bind]. change (ok OK) with true. cbn match. do 2 eexists. split_and!; [done | done |]. split; [done |].
    intros q Eq. rewrite El in Eq. apply lookup_lt_Some in Eq. lia. }
  rewrite bool_decide_true by by eapply lookup_lt_Some. rewrite (iter_value HI _ _ p Hit1 Ep). cbn [mbind option_bind].
  destruct (entry_at _ p Ep) as (b' & Eb' & _ & Hb & _ & Eh). rewrite Eb in Eb'. injection Eb' as <-.
  assert (DF : BlockHandle_DecodeFrom new_BlockHandle p.2 = (OK, w_handle bs (lower idx k) b, []))
    by (rewrite Eh, <- (app_nil_r (enc_handle _)); apply DecodeFrom_ok; by apply block_handle_ok). rewrite DF.
  assert (∀ q, l !! lower l k = Some q -> same q.1 k -> w_pairs b !! lower (w_pairs b) k = Some q) as Hhit.
  { intros q Eq Hs. destruct (decide (lower (w_pairs b) k = length (w_pairs b))) as [Ee | Hne]; [by destruct (past_block k b q Hk Eb Ee Eq Hs) |].
    pose proof (lower_le (w_pairs b) k). rewrite El, (tf_pairs _ _ _ _ Hy), (block_pairs_lookup bs _ b) in Eq by (done || lia). done. }
  match goal with |- context [mbind _ (match t_filter t with _ => _ end)] =>
    assert (∃ absent, match t_filter t with Some (P, filter) => m ← FilterBlock_KeyMayMatch P filter (bh_offset (w_handle bs (lower idx k) b)) k; Some (negb m) | None => Some false end = Some absent /\
      (absent = true -> ∀ q, l !! lower l k = Some q -> same q.1 k -> False)) as (absent & Ea & Habs) end.
  { pose proof (op_filter _ _ _ _ _ Ht) as Hf. destruct (t_filter t) as [[P fr] |]; [| by eexists]. destruct Hf as [Htot Hf].
    unfold w_handle. cbn [bh_offset]. destruct (Htot (|[file_of (take (lower idx k) bs)]|) k) as [m Em']; [apply slice_size_nonneg | done |].
    rewrite Em'. cbn [mbind option_bind]. eexists. split; [done |]. intros Hm q Eq Hs. specialize (Hhit q Eq Hs).
    rewrite (Hf _ b q.1 k Eb) in Em'; [injection Em' as <-; done | by eapply list_elem_of_fmap_2, list_elem_of_lookup_2 | done]. }
  change (ok OK) with true. cbn match. rewrite Ea. cbn [mbind option_bind]. destruct absent.
  { cbn [mbind option_bind]. change (ok OK) with true. cbn match. do 2 eexists. split_and!; [done | done |]. split; [done |]. intros q Eq Hs. by destruct (Habs eq_refl q Eq Hs). }
  clear Habs Ea. destruct (BlockReader_ok ro _ p Ep) as (bit & Er & Hbit). rewrite Er. cbn [mbind option_bind].
  pose proof (at_block_iterates p.2 b Em Hb (block_sorted _ b Eb)) as HB. unfold block_of in HB, Hbit. rewrite Em in HB, Hbit.
  destruct (iter_Seek HB _ _ k Hbit Hk) as (bit1 & E2 & Hbit1). rewrite E2. cbn [mbind option_bind]. rewrite (iter_Valid HB _ _ Hbit1).
  pose proof (iter_status HB _ _ Hbit1) as Hst2. case_bool_decide as Hlt.
  - destruct (lookup_lt_is_Some_2 _ _ Hlt) as [q Eq]. rewrite (iter_key HB _ _ q Hbit1 Eq).
    assert ((if negb (ro_limit ro =? 0) then @value _ (block_iter ndebug C) bit1 else Some []) = Some (if ro_limit ro =? 0 then [] else q.2)) as ->
      by (destruct (ro_limit ro =? 0); cbn [negb]; [done | exact (iter_value HB _ _ q Hbit1 Eq)]).
    cbn [mbind option_bind]. rewrite Hst2. do 2 eexists. split_and!; [done | done |].
    assert (l !! lower l k = Some q) as Elq by by rewrite El, (tf_pairs _ _ _ _ Hy), (block_pairs_lookup bs _ b).
    split; [intros ? [= <-]; exists q.2; split; [by destruct q | done] |]. intros q' Eq' _. rewrite Elq in Eq'. by injection Eq' as <-.
  - cbn [mbind option_bind]. rewrite Hst2. do 2 eexists. split_and!; [done | done |]. split; [done |]. intros q Eq Hs.
    pose proof (Hhit q Eq Hs) as E. apply lookup_lt_Some in E. lia.
Qed.

(** The offset of a key: of the block its search ends in, or of what follows the blocks. *)
Definition offset_at (i : nat) : Z := if decide (i < length bs)%nat then |[file_of (take i bs)]| else |[meta_part l y]|.
Lemma offset_at_mono i j : (i <= j)%nat -> 0 <= offset_at i <= offset_at j /\ offset_at j <= |[raf_data f]|.
Proof.
  intros Hij. pose proof part_sizes as (? & ? & ? & ? & ? & ? & ? & ? & ?). change kEncodedLength with 48 in *.
  assert (∀ a b, (a <= b)%nat -> |[file_of (take a bs)]| <= |[file_of (take b bs)]|) as Htake.
  { intros a b Hab. replace (take b bs) with (take a bs ++ drop a (take b bs)) by (rewrite <- (take_drop a (take b bs)) at 2; by rewrite take_take, Nat.min_l).
    rewrite file_of_app, slice_size_app. pose proof (slice_size_nonneg (file_of (drop a (take b bs)))). lia. }
  pose proof (Htake i j Hij). pose proof (Htake j (Nat.max j (length bs)) ltac:(lia)) as Hj. rewrite (take_ge bs (Nat.max _ _)) in Hj by lia.
  pose proof (Htake i (Nat.max i (length bs)) ltac:(lia)) as Hi. rewrite (take_ge bs (Nat.max _ _)) in Hi by lia.
  pose proof (slice_size_nonneg (file_of (take i bs))). unfold offset_at. repeat case_decide; lia.
Qed.
Lemma ApproximateOffsetOf_ok k : valid k -> ApproximateOffsetOf C ndebug t k = Some (offset_at (lower idx k)).
Proof.
  intros Hk. destruct index_open as (it & Eit & Hat & _). pose proof (any_iterates C valid _ _ (tf_index _ _ _ _ Hy) index_sorted) as HI.
  unfold ApproximateOffsetOf. rewrite Eit. cbn [mbind option_bind]. destruct (iter_Seek HI _ _ k Hat Hk) as (it1 & E1 & Hit1). rewrite E1. cbn [mbind option_bind].
  rewrite (iter_Valid HI _ _ Hit1). unfold offset_at. rewrite <- index_length. case_bool_decide as Hlt.
  - rewrite decide_True by done. destruct (lookup_lt_is_Some_2 _ _ Hlt) as [p Ep]. rewrite (iter_value HI _ _ p Hit1 Ep). cbn [mbind option_bind].
    destruct (entry_at _ p Ep) as (b & Eb & _ & _ & _ & Eh). rewrite Eh, <- (app_nil_r (enc_handle _)), DecodeFrom_ok by by apply block_handle_ok. done.
  - rewrite decide_False by done. by rewrite (op_meta _ _ _ _ _ Ht).
Qed.
Lemma Offset_mono k k' : valid k -> valid k' -> Compare k k' <> Some Gt ->
  ∃ o o', ApproximateOffsetOf C ndebug t k = Some o /\ ApproximateOffsetOf C ndebug t k' = Some o' /\ 0 <= o <= o' /\ o' <= |[raf_data f]|.
Proof.
  intros Hk Hk' Hle. exists (offset_at (lower idx k)), (offset_at (lower idx k')). split; [by apply ApproximateOffsetOf_ok |]. split; [by apply ApproximateOffsetOf_ok |].
  split.
  all: pose proof (offset_at_mono _ _ (lower_mono idx k k' index_sorted Hk Hk' Hle)); lia.
Qed.
Lemma GetProperties_ok : GetProperties t = Some (final_props l).
Proof. unfold GetProperties. destruct (op_props _ _ _ _ _ Ht) as [-> ->]. done. Qed.
End Opened.
End File.
End Read.

(** ** Internal keys *)
Definition same_user_key (k k' : Slice) : Prop := ∃ u n u' n', k = ikey u n /\ k' = ikey u' n' /\ u = u'.

Lemma ikey_user u n v m : ikey u n = ikey v m -> u = v.
Proof. intros E. apply app_inj_2 in E as [E _]; [done | by rewrite !length_EncodeFixed64]. Qed.
Lemma ikey_size u n : |[ikey u n]| = |[u]| + 8.
Proof. unfold ikey. by rewrite slice_size_app. Qed.

Section Order.
Context (ndebug : bool) {C : Comparator} {valid : Slice -> Prop} `{!ComparatorLaws C valid}.
Lemma separator_inv u n v s : @FindShortestSeparator (InternalKeyComparator ndebug C) (ikey u n) v = Some s ->
  s = ikey u n \/ ∃ u' tmp, ExtractUserKey v = Some u' /\ FindShortestSeparator u u' = Some tmp /\ |[tmp]| < |[u]| /\ s = ikey tmp (tag kMaxSequenceNumber kValueTypeForSeek).
Proof.
  cbn [FindShortestSeparator InternalKeyComparator]. unfold InternalKey_FindShortestSeparator. rewrite ExtractUserKey_ikey. cbn [mbind option_bind].
  intros (u' & Eu & E)%bind_Some. apply bind_Some in E as (tmp & Et & E). apply bind_Some in E as (r & _ & E).
  destruct (_ && _) eqn:Hb; [| injection E as <-; by left]. right. exists u', tmp. rewrite PackSequenceAndType_tag in E by by_compute. cbn [mbind option_bind] in E.
  apply bind_Some in E as (? & _ & E). apply bind_Some in E as (? & _ & E). apply bind_Some in E as (? & _ & E). apply bind_Some in E as (? & _ & E).
  injection E as <-. bool_hyps. done.
Qed.
Lemma successor_inv u n s : @FindShortSuccessor (InternalKeyComparator ndebug C) (ikey u n) = Some s ->
  s = ikey u n \/ ∃ tmp, |[tmp]| < |[u]| /\ s = ikey tmp (tag kMaxSequenceNumber kValueTypeForSeek).
Proof.
  cbn [FindShortSuccessor InternalKeyComparator]. unfold InternalKey_FindShortSuccessor. rewrite ExtractUserKey_ikey. cbn [mbind option_bind].
  intros (tmp & Et & E)%bind_Some. apply bind_Some in E as (r & _ & E).
  destruct (_ && _) eqn:Hb; [| injection E as <-; by left]. right. exists tmp. rewrite PackSequenceAndType_tag in E by by_compute. cbn [mbind option_bind] in E.
  apply bind_Some in E as (? & _ & E). apply bind_Some in E as (? & _ & E). injection E as <-. bool_hyps. done.
Qed.

Lemma InternalKey_TableOrder : (∀ k, valid k -> bytes k) -> TableOrder (InternalKeyComparator ndebug C) (valid_ikey valid) same_user_key.
Proof.
  intros Hb. split.
  - apply _.
  - intros k (u & n & -> & Hu & Hn). by apply bytes_ikey, Hb.
  - intros k (u & n & -> & _). by exists u, n, u, n.
  - intros a b s (u & n & -> & Hu & Hn) _ [-> | (u' & tmp & _ & _ & Hlt & ->)]%separator_inv; [done |]. rewrite !ikey_size. lia.
  - intros a s (u & n & -> & Hu & Hn) [-> | (tmp & Hlt & ->)]%successor_inv; [done |]. rewrite !ikey_size. lia.
  - intros a b s k (u & n & -> & Hu & Hn) (v & m & -> & Hv & Hm) Hk Hlt Hsep Hs Hak.
    apply separator_inv in Hsep as [-> | (u' & tmp & Eu & Et & Hsz & ->)]; [done |]. rewrite ExtractUserKey_ikey in Eu. injection Eu as <-.
    destruct Hs as (v1 & m1 & v2 & n2 & E1 & Ek & E2). apply ikey_user in E1. subst v1 v2 k. destruct Hk as (v' & n' & E & Hv' & Hn').
    apply ikey_user in E as E3. subst v'. rewrite E in *. cbn [Compare InternalKeyComparator] in Hlt. rewrite InternalKey_Compare_ikey in Hlt by done.
    assert (word 64 (tag kMaxSequenceNumber kValueTypeForSeek)) as Htag by by_compute.
    destruct (cmp_some u v Hu Hv) as [r Er]. rewrite Er in Hlt. cbn [mbind option_bind] in Hlt.
    destruct r; [| | done].
    + rewrite FindShortestSeparator_eq in Et by done. injection Et as <-. lia.
    + destruct (FindShortestSeparator_ok u v Hu Hv Er) as (tmp' & Et' & Ht & _ & Hl). rewrite Et in Et'. injection Et' as <-.
      cbn [Compare InternalKeyComparator]. by rewrite InternalKey_Compare_ikey, Hl.
Qed.
End Order.

(** Bloom filters over the user keys. *)
Lemma internal_bloom_laws bits p : new_BloomFilterPolicy bits = Some p -> 0 <= bits < 2 ^ 31 ->
  FilterPolicyLaws (InternalFilterPolicy (Bloom_FilterPolicy p)) (valid_ikey bytes) same_user_key.
Proof.
  intros Hp Hb. pose proof (Bloom_laws _ _ Hp Hb) as HL. destruct (InternalFilter_laws _ _ _ HL) as [Hc Hs].
  assert (∀ k, valid_ikey bytes k -> valid_ikey (λ _, True) k) as Hw by (intros k (u & n & -> & _ & ?); by exists u, n).
  split; [intros keys dst Hv; apply Hc; by eapply list.Forall_impl | intros; by eapply Hs; eauto].
Qed.

(** C26. Tables are read back: for sorted internal keys over any user comparator, with any filter policy that keeps its promise
    and with or without compression, the builder runs without a failed assertion, and when it reports success any file
    with the bytes it wrote opens.  The open table has the properties of the pairs; its iterator visits exactly the pairs, in
    order and from every seek; a search saves the first pair at or past the key and never misses one of the same user key, whatever
    the filter says; and the approximate offsets grow with the keys and stay in the file. *)
Theorem table_roundtrip (C0 : Comparator) (valid0 : Slice -> Prop) `{!ComparatorLaws C0 valid0} {W} `{WritableFileLaws W} {F} `{RandomAccessFileLaws F} `{SnappyLaws}
    (ndebug : bool) (options : Options) (l : Pairs) (file : W) :
  let C := InternalKeyComparator ndebug C0 in let valid := valid_ikey valid0 in
  (∀ k, valid0 k -> bytes k) -> compression options = kNoCompression \/ compression options = kSnappyCompression ->
  (∀ P, filter_policy options = Some P -> FilterPolicyLaws P valid same_user_key /\ bytes (@fp_Name P) /\ |[@fp_Name P]| < 2 ^ 16) ->
  sorted_pairs valid l -> Forall (λ p : Slice * Slice, bytes p.2) l -> costs l < 2 ^ 29 -> wf_open file -> wf_data file = [] ->
  ∃ s b, build_table (C := C) ndebug options l file = Some (s, b) /\
    (ok s = true -> ∀ (f : F) ropts new_id, raf_data f = wf_data (tb_file b) -> |[raf_data f]| < 2 ^ 32 -> filter_policy ropts = filter_policy options ->
      ∃ t, Open ndebug ropts f (|[raf_data f]|) new_id = Some (OK, Some t) /\ GetProperties t = Some (final_props l) /\
        (∀ ro, ∃ it R, Table_NewIterator C ndebug t = Some it /\ iterates (H := Table_Iterator C ndebug t ro) valid R l /\ R (length l) it) /\
        (∀ ro k, valid k -> ∃ s saved, InternalGet (K := unit) C ndebug t ro None k = Some (s, saved, None) /\ ok s = true /\ found (same := same_user_key) l ro k saved) /\
        ∀ k k', valid k -> valid k' -> Compare k k' <> Some Gt ->
          ∃ o o', ApproximateOffsetOf C ndebug t k = Some o /\ ApproximateOffsetOf C ndebug t k' = Some o' /\ 0 <= o <= o' /\ o' <= |[raf_data f]|).
Proof.
  intros C valid Hb Hc Hp Hs Hv Hl Hop Hf. pose proof (InternalKey_TableOrder ndebug Hb) as HT.
  assert (input_ok (valid := valid) l) as Hin by by split.
  destruct (table_build_ok (same := same_user_key) ndebug options Hc Hp l file Hin Hop Hf) as (s & b & E & Hok).
  exists s, b. split; [exact E |]. intros Hs1 f ropts new_id Ed Hsz Hro. destruct (Hok Hs1) as [y Hy]. rewrite <- Ed in Hy.
  destruct (Open_ok ndebug options l y f ropts Hin Hy Hsz Hro (λ P HP, proj1 (proj2 (Hp P HP))) new_id) as (t & Et & Ht).
  exists t. split; [exact Et |]. split; [by eapply GetProperties_ok |]. split; [| split].
  - intros ro. by eapply Table_iterates.
  - intros ro k Hk. by eapply InternalGet_ok.
  - intros k k' Hk Hk' Hle. by eapply Offset_mono.
Qed.

#[local] Instance NoSnappy_instance : Snappy := NoSnappy.
#[local] Instance NoSnappy_laws_instance : SnappyLaws := NoSnappy_laws.
Definition example_options : Options := MkOptions 64 2 1 kSnappyCompression (Some (InternalFilterPolicy (Bloom_FilterPolicy (MkBloom 10 6)))) true.
Definition example_pairs : Pairs :=
  [(ikey (lit "apple") 0x701, lit "red"); (ikey (lit "apple") 0x301, lit "green"); (ikey (lit "banana") 0x501, lit "yellow");
   (ikey (lit "blueberry") 0x600, []); (ikey (lit "cherry") 0x201, lit "dark red")].

Lemma table_roundtrip_witness :
  let C := InternalKeyComparator false (BytewiseComparator false) in
  ∃ b t s, build_table (C := C) (W := Slice) false example_options example_pairs [] = Some (OK, b) /\
    Open (F := Slice) false example_options (tb_file b) (|[tb_file b]|) 7 = Some (OK, Some t) /\
    InternalGet (K := unit) C false t (MkReadOptions true true 4) None (ikey (lit "apple") 0x501) = Some (s, Some (ikey (lit "apple") 0x301, lit "green"), None) /\ ok s = true.
Proof.
  intros C. destruct (table_roundtrip (BytewiseComparator false) bytes (W := Slice) (F := Slice) false example_options example_pairs []) as (s & b & E & Hok).
  - done.
  - by right.
  - intros P [= <-]. split; [apply (internal_bloom_laws 10); [reflexivity | by split] | split; by_compute].
  - split.
    + apply StronglySorted_intro. intros i j x y Ex Ey Hij.
      do 5 (destruct j as [| j]; [try lia; cbn in Ey; injection Ey as <-; do 4 (destruct i as [| i]; [cbn in Ex; injection Ex as <-; reflexivity | try lia]) |]).
      by destruct j.
    + repeat constructor; (eexists _, _; split; [reflexivity | split; by_compute]).
  - by_compute.
  - by_compute.
  - exact I.
  - done.
  - assert (match build_table (C := C) (W := Slice) false example_options example_pairs [] with
            | Some (s, b) => bool_decide (s = OK) && (|[tb_file b]| <? 2 ^ 32) | None => false end = true) as Hb by (vm_compute; reflexivity).
    change (InternalKeyComparator false (BytewiseComparator false)) with C in E.
    rewrite E in Hb. apply andb_true_iff in Hb as [Hs Hsz]. apply bool_decide_eq_true in Hs as ->. apply Z.ltb_lt in Hsz.
    destruct (Hok eq_refl (tb_file b) example_options 7 eq_refl Hsz eq_refl) as (t & Et & _ & _ & Hget & _).
    destruct (Hget (MkReadOptions true true 4) (ikey (lit "apple") 0x501)) as (s & saved & Eg & Hs & _ & Hf).
    { eexists _, _. split; [reflexivity | split; by_compute]. }
    exists b, t, s. split; [done |]. split; [exact Et |]. split; [| done].
    assert (example_pairs !! lower (C := C) example_pairs (ikey (lit "apple") 0x501) = Some (ikey (lit "apple") 0x301, lit "green")) as Hl by (vm_compute; reflexivity).
    specialize (Hf _ Hl). rewrite Hf in Eg; [exact Eg |]. exists (lit "apple"), 0x301, (lit "apple"), 0x501. cbn [fst]. split; [reflexivity | split; reflexivity].
Defined.
