(* ===== verification/Merger.v ===== *)
(** * Merging iterators ([leveldb/merger.h], [merger.cc])

    An iterator over several children that yields the union of their pairs in order.  The current child is an index of
    the array of children. *)
From stdpp Require Import sorting.
From S2P Require Import Prelude Status Keys Comparator Iterator TwoLevel.

Inductive Direction := kForward | kReverse.
#[global] Instance Direction_eq_dec : EqDecision Direction.
Proof. solve_decision. Defined.

Record MergingIterator (I : Type) := MkMerging { children_ : list (IteratorWrapper I); current_ : option nat; direction_ : Direction }.
Arguments MkMerging {I}. Arguments children_ {I}. Arguments current_ {I}. Arguments direction_ {I}.

Section Merger.
Context {I : Type} `{Iterator I} (C : Comparator) (ndebug : bool).
#[local] Hint Extern 0 (Iterator (IteratorWrapper _)) => exact (IteratorWrapper_Iterator ndebug) : typeclass_instances.
Local Abbreviation Child := (IteratorWrapper I).
Implicit Types (it : MergingIterator I).

(** A loop over the children with their indices. *)
Fixpoint for_children (f : nat -> Child -> option Child) (i : nat) (cs : list Child) : option (list Child) :=
  match cs with
  | [] => Some []
  | c :: cs => c ← f i c; cs ← for_children f (S i) cs; Some (c :: cs)
  end.

Definition new_Merging (children : list I) : option (MergingIterator I) :=
  cs ← mapM (λ i : I, w_Set (Some i) new_Wrapper) children; Some (MkMerging cs None kForward).

(** The loops of [FindSmallest] and [FindLargest]: a child takes over when its key compares as asked. *)
Fixpoint find_best (better : comparison) (cs : list (nat * Child)) (best : option (nat * Child)) : option (option (nat * Child)) :=
  match cs with
  | [] => Some best
  | child :: cs =>
      best ← (if w_valid child.2 then
                match best with
                | None => Some (Some child)
                | Some b => k ← key child.2; bk ← key b.2; r ← Compare k bk; Some (if bool_decide (r = better) then Some child else best)
                end
              else Some best);
      find_best better cs best
  end.
Definition set_current (best : option (nat * Child)) (cs : list Child) (d : Direction) : MergingIterator I := MkMerging cs (fst <$> best) d.
Definition FindSmallest (cs : list Child) (d : Direction) : option (MergingIterator I) :=
  best ← find_best Lt (imap pair cs) None; Some (set_current best cs d).
Definition FindLargest (cs : list Child) (d : Direction) : option (MergingIterator I) :=
  best ← find_best Gt (rev (imap pair cs)) None; Some (set_current best cs d).

Definition Merging_Valid it : bool := bool_decide (is_Some (current_ it)).
Definition Merging_SeekToFirst it : option (MergingIterator I) :=
  cs ← for_children (λ _, SeekToFirst) 0 (children_ it); FindSmallest cs kForward.
Definition Merging_SeekToLast it : option (MergingIterator I) :=
  cs ← for_children (λ _, SeekToLast) 0 (children_ it); FindLargest cs kReverse.
Definition Merging_Seek (target : Slice) it : option (MergingIterator I) :=
  cs ← for_children (λ _, Seek target) 0 (children_ it); FindSmallest cs kForward.

(** The current child; there is none to read when the iterator is not valid. *)
Definition current it : option (nat * Child) := i ← current_ it; c ← children_ it !! i; Some (i, c).
Definition Merging_key it : option Slice := _ ← assert_ ndebug (Merging_Valid it); c ← current it; key c.2.
Definition Merging_value it : option Slice := _ ← assert_ ndebug (Merging_Valid it); c ← current it; value c.2.

(** The other children move past the key, or before it. *)
Definition after_key (k : Slice) (child : Child) : option Child :=
  child ← Seek k child;
  if w_valid child then ck ← key child; r ← Compare k ck; if bool_decide (r = Eq) then Next child else Some child
  else Some child.
Definition before_key (k : Slice) (child : Child) : option Child :=
  child ← Seek k child; if w_valid child then Prev child else SeekToLast child.
Definition others (f : Child -> option Child) (c : nat) (cs : list Child) : option (list Child) :=
  for_children (λ i child, if decide (i = c) then Some child else f child) 0 cs.

Definition Merging_Next it : option (MergingIterator I) :=
  _ ← assert_ ndebug (Merging_Valid it);
  c ← current it;
  cs ← (if decide (direction_ it = kForward) then Some (children_ it) else k ← key c.2; others (after_key k) c.1 (children_ it));
  child ← Next c.2;
  FindSmallest (<[c.1 := child]> cs) kForward.
Definition Merging_Prev it : option (MergingIterator I) :=
  _ ← assert_ ndebug (Merging_Valid it);
  c ← current it;
  cs ← (if decide (direction_ it = kReverse) then Some (children_ it) else k ← key c.2; others (before_key k) c.1 (children_ it));
  child ← Prev c.2;
  FindLargest (<[c.1 := child]> cs) kReverse.

(** The first status that is not ok, or the last one. *)
Fixpoint Merging_status_loop (cs : list Child) (s : Status) : Status :=
  match cs with
  | [] => s
  | c :: cs => let s := status c in if negb (ok s) then s else Merging_status_loop cs s
  end.
Definition Merging_status it : Status := Merging_status_loop (children_ it) OK.

#[export] Instance Merging_Iterator : Iterator (MergingIterator I) := {
  Valid := Merging_Valid; SeekToFirst := Merging_SeekToFirst; SeekToLast := Merging_SeekToLast; Seek := Merging_Seek;
  Next := Merging_Next; Prev := Merging_Prev; key := Merging_key; value := Merging_value; status := Merging_status
}.

(** One child alone is given back, and none at all is the empty iterator. *)
Definition NewMergingIterator (children : list I) : option (MergingIterator I + (I + EmptyIterator)) :=
  match children with
  | [] => Some (inr (inr NewEmptyIterator))
  | [i] => Some (inr (inl i))
  | _ => inl <$> new_Merging children
  end.
End Merger.

(** ** The sequence that is merged *)
Section Parts.
Context {C : Comparator} {valid : Slice -> Prop} `{!OrderOn Compare valid}.
Implicit Types (ml : list (nat * (Slice * Slice))).

(** Each pair carries the number of its child. *)
Definition part (i : nat) ml : Pairs := (filter (λ x, x.1 = i) ml).*2.

Lemma part_app i l1 l2 : part i (l1 ++ l2) = part i l1 ++ part i l2.
Proof. unfold part. by rewrite list.filter_app, fmap_app. Qed.
Lemma part_cons i x l : part i (x :: l) = if decide (x.1 = i) then x.2 :: part i l else part i l.
Proof. unfold part. rewrite list.filter_cons. by case_decide. Qed.
Lemma part_in i q l : q ∈ part i l -> ∃ j, l !! j = Some (i, q).
Proof.
  intros ([i' q'] & -> & Hx)%list_elem_of_fmap. apply list_elem_of_filter in Hx as [Hi Hx]. cbn in Hi. subst i'.
  by apply list_elem_of_lookup in Hx.
Qed.

Lemma part_take ml i n q : part i (take n ml) !! (length (part i (take n ml)) - 1)%nat = Some q -> ∃ j, (j < n)%nat /\ ml !! j = Some (i, q).
Proof. intros Hq%list_elem_of_lookup_2. apply part_in in Hq as [j Ej]. apply lookup_take_Some in Ej as [Ej Hj]. by exists j. Qed.

Lemma lower_part ml i t : sorted_pairs valid ml.*2 -> valid t -> lower (part i ml) t = length (part i (take (lower ml.*2 t) ml)).
Proof.
  intros Hs Ht. induction ml as [| x ml IH]; [done |]. rewrite part_cons. cbn [fmap list_fmap lower].
  pose proof (proj2 (sorted_pairs_app [x.2] ml.*2 Hs)) as Hs'. specialize (IH Hs').
  destruct (Compare x.2.1 t) as [[] |] eqn:E; cbn [take].
  2: { rewrite part_cons. case_decide; cbn [lower length]; [rewrite E |]; by rewrite IH. }
  all: (case_decide; [cbn [lower]; by rewrite E |]; change (part i []) with ([] : Pairs); cbn [length]; apply lower_zero; intros q (j & Ej)%part_in Hlt).
  all: (assert (ml.*2 !! j = Some q) as Ej' by by rewrite list_lookup_fmap, Ej).
  all: pose proof (sorted_pairs_lookup _ 0 (S j) x.2 q Hs eq_refl Ej' ltac:(lia)) as Hxq.
  all: (assert (valid x.2.1) as Hvx by exact (sorted_pairs_valid _ 0 _ Hs eq_refl)).
  all: (assert (valid q.1) as Hvq by exact (sorted_pairs_valid _ (S j) _ Hs Ej')).
  all: pose proof (cmp_trans x.2.1 q.1 t Hvx Hvq Ht Hxq Hlt); congruence.
Qed.
End Parts.

(** ** The contract *)
Section Facts.
Context {C : Comparator} {valid : Slice -> Prop} `{!OrderOn Compare valid} {I : Type} `{Iterator I} (ndebug : bool).
#[local] Hint Extern 0 (Iterator (IteratorWrapper _)) => exact (IteratorWrapper_Iterator ndebug) : typeclass_instances.
Local Abbreviation Child := (IteratorWrapper I).
Context {ml : list (nat * (Slice * Slice))} {N : nat} {RC : nat -> nat -> I -> Prop}.
Hypothesis Hsorted : sorted_pairs valid ml.*2.
Hypothesis Htags : Forall (λ x, (x.1 < N)%nat) ml.
Hypothesis HC : ∀ i, (i < N)%nat -> iterates valid (RC i) (part i ml).
Implicit Types (cs : list Child) (it : MergingIterator I).

Definition child_at (i n : nat) (c : Child) : Prop := wrapped (R := RC i) n c.
Definition children_at (g : nat -> nat) cs : Prop := length cs = N /\ ∀ i c, cs !! i = Some c -> child_at i (g i) c.
(** Where a child stands when the first [n] pairs are behind, or are ahead when moving back. *)
Definition pos (n i : nat) : nat := length (part i (take n ml)).
Definition back (n i : nat) : nat := match pos n i with O => length (part i ml) | S k => k end.

Lemma child_iterates i : (i < N)%nat -> iterates (H := IteratorWrapper_Iterator ndebug) valid (child_at i) (part i ml).
Proof. intros Hi. exact (wrapper_iterates ndebug (HC i Hi)). Qed.

Lemma for_children_ok (f : nat -> Child -> option Child) (g g' : nat -> nat) cs : children_at g cs ->
  (∀ i c, (i < N)%nat -> child_at i (g i) c -> ∃ c', f i c = Some c' /\ child_at i (g' i) c') ->
  ∃ cs', for_children f 0 cs = Some cs' /\ children_at g' cs'.
Proof.
  intros [Hl Hc] Hf. assert (∀ cs k, (k + length cs = N)%nat -> (∀ i c, cs !! i = Some c -> child_at (k + i) (g (k + i)%nat) c) ->
    ∃ cs', for_children f k cs = Some cs' /\ length cs' = length cs /\ ∀ i c, cs' !! i = Some c -> child_at (k + i) (g' (k + i)%nat) c) as Hall.
  { clear cs Hl Hc. induction cs as [| c cs IH]; intros k Hk Hc; [by exists [] |]. cbn [length] in Hk.
    pose proof (Hc 0%nat c eq_refl) as H0. rewrite Nat.add_0_r in H0. destruct (Hf k c ltac:(lia) H0) as (c' & Ef & Hc').
    destruct (IH (S k) ltac:(lia)) as (cs' & E & Hl & Hcs'). { intros i d Ed. specialize (Hc (S i) d Ed). by rewrite Nat.add_succ_r in Hc. }
    exists (c' :: cs'). cbn [for_children]. rewrite Ef. cbn [mbind option_bind]. rewrite E. split; [done |]. split; [by cbn; f_equal |].
    intros [| i] d Ed; [rewrite Nat.add_0_r; injection Ed as <-; done |]. rewrite Nat.add_succ_r. by apply (Hcs' i). }
  destruct (Hall cs 0%nat) as (cs' & E & Hl' & Hcs'); [lia | done |]. exists cs'. split; [done |]. split; [lia | done].
Qed.

Lemma child_read i n c : (i < N)%nat -> child_at i n c -> w_valid c = bool_decide (n < length (part i ml))%nat /\
  ∀ q, part i ml !! n = Some q -> w_valid c = true /\ w_key c = q.1 /\ key c = Some q.1 /\ value c = Some q.2.
Proof.
  intros Hi Hc. pose proof (child_iterates i Hi) as HI. pose proof (iter_Valid HI n c Hc) as Hv. split; [exact Hv |]. intros q Eq.
  pose proof (iter_key HI n c q Hc Eq) as Hk. pose proof (iter_value HI n c q Hc Eq) as Hval.
  cbn [Valid IteratorWrapper_Iterator] in Hv. rewrite bool_decide_true in Hv by by eapply lookup_lt_Some.
  split_and!; [done | | done..]. cbn in Hk. rewrite Hv, assert_true in Hk. by injection Hk.
Qed.

(** ** The loops that look for the current child *)
Lemma find_best_keep better c (cs : list (nat * Child)) : better <> Eq ->
  (∀ x, x ∈ cs -> w_valid x.2 = true -> Compare (w_key x.2) (w_key c.2) = Some (CompOpp better)) -> w_valid c.2 = true ->
  find_best C ndebug better cs (Some c) = Some (Some c).
Proof.
  intros Hb Hcs Hc. induction cs as [| x cs IH]; [done |]. cbn [find_best]. destruct (w_valid x.2) eqn:Hx; cbn [mbind option_bind].
  - cbn. rewrite Hx, Hc, !assert_true. cbn [mbind option_bind]. rewrite (Hcs x ltac:(left) Hx). cbn [mbind option_bind].
    rewrite bool_decide_false by by destruct better. apply IH. intros y Hy. apply Hcs. by right.
  - apply IH. intros y Hy. apply Hcs. by right.
Qed.
Lemma find_best_ok better c (l1 l2 : list (nat * Child)) : better <> Eq -> w_valid c.2 = true -> valid (w_key c.2) ->
  (∀ x, x ∈ l1 ++ l2 -> w_valid x.2 = true -> valid (w_key x.2) /\ Compare (w_key c.2) (w_key x.2) = Some better) ->
  find_best C ndebug better (l1 ++ c :: l2) None = Some (Some c).
Proof.
  intros Hb Hc Hvc Hcs.
  assert (∀ l1 best, (∀ x, x ∈ l1 ++ l2 -> w_valid x.2 = true -> valid (w_key x.2) /\ Compare (w_key c.2) (w_key x.2) = Some better) ->
    (match best with Some b => w_valid b.2 = true /\ valid (w_key b.2) /\ Compare (w_key c.2) (w_key b.2) = Some better | None => True end) ->
    find_best C ndebug better (l1 ++ c :: l2) best = Some (Some c)) as Hall; [| by apply Hall].
  clear l1 Hcs. induction l1 as [| x l1 IH]; intros best Hcs Hbest; cbn [app find_best].
  - rewrite Hc. assert (find_best C ndebug better l2 (Some c) = Some (Some c)) as Hk.
    { apply find_best_keep; [done | | done]. intros x Hx Hv. destruct (Hcs x Hx Hv) as [Hvx E]. by apply (cmp_flip (w_key c.2) (w_key x.2)). }
    destruct best as [b |]; [| exact Hk]. destruct Hbest as (Hvb & _ & E). cbn. rewrite Hc, Hvb, !assert_true. cbn [mbind option_bind]. rewrite E.
    cbn [mbind option_bind]. by rewrite bool_decide_true.
  - assert (∀ y, y ∈ l1 ++ l2 -> w_valid y.2 = true -> valid (w_key y.2) /\ Compare (w_key c.2) (w_key y.2) = Some better) as Hcs' by (intros y Hy; apply Hcs; by right).
    destruct (w_valid x.2) eqn:Hx; [| by apply IH]. destruct (Hcs x ltac:(left) Hx) as [Hvx Ex].
    destruct best as [b |]; [| by apply IH]. destruct Hbest as (Hvb & Hvkb & E). cbn. rewrite Hx, Hvb, !assert_true. cbn [mbind option_bind].
    destruct (cmp_some (w_key x.2) (w_key b.2) Hvx Hvkb) as [r ->]. cbn [mbind option_bind]. case_bool_decide; by apply IH.
Qed.
Lemma find_best_none better (cs : list (nat * Child)) : (∀ x, x ∈ cs -> w_valid x.2 = false) -> find_best C ndebug better cs None = Some None.
Proof. induction cs as [| x cs IH]; intros Hcs; [done |]. cbn [find_best]. rewrite (Hcs x) by left. cbn [mbind option_bind]. apply IH. intros y Hy. apply Hcs. by right. Qed.

Lemma ml_valid j x : ml !! j = Some x -> valid x.2.1.
Proof. intros E. assert (ml.*2 !! j = Some x.2) as E' by by rewrite list_lookup_fmap, E. exact (sorted_pairs_valid _ _ _ Hsorted E'). Qed.
Lemma ml_sorted j k x y : ml !! j = Some x -> ml !! k = Some y -> (j < k)%nat -> Compare x.2.1 y.2.1 = Some Lt.
Proof.
  intros Ej Ek. assert (ml.*2 !! j = Some x.2) as Ej' by by rewrite list_lookup_fmap, Ej.
  assert (ml.*2 !! k = Some y.2) as Ek' by by rewrite list_lookup_fmap, Ek. exact (sorted_pairs_lookup _ j k _ _ Hsorted Ej' Ek').
Qed.
Lemma ml_tag j x : ml !! j = Some x -> (x.1 < N)%nat.
Proof. intros E. exact (proj1 (list.Forall_lookup _ _) Htags _ _ E). Qed.
Lemma part_valid i j q : part i ml !! j = Some q -> valid q.1.
Proof. intros E%list_elem_of_lookup_2. apply part_in in E as [k Ek]. exact (ml_valid k (i, q) Ek). Qed.

Lemma find_current better cs g c wc q : better <> Eq -> children_at g cs -> cs !! c = Some wc -> part c ml !! g c = Some q ->
  (∀ i q', i <> c -> (i < N)%nat -> part i ml !! g i = Some q' -> Compare q.1 q'.1 = Some better) ->
  find_best C ndebug better (imap pair cs) None = Some (Some (c, wc)) /\ find_best C ndebug better (rev (imap pair cs)) None = Some (Some (c, wc)).
Proof.
  intros Hb [Hl Hc] Ec Eq Hmin. assert (∀ i d, cs !! i = Some d -> (i < N)%nat) as Hlt by (intros i d Ed; apply lookup_lt_Some in Ed; lia).
  destruct (child_read c (g c) wc (Hlt _ _ Ec) (Hc _ _ Ec)) as [_ Hr]. destruct (Hr q Eq) as (Hv & Hk & _).
  assert (imap pair cs !! c = Some (c, wc)) as Emap by by rewrite list_lookup_imap, Ec.
  set (l1 := take c (imap pair cs)). set (l2 := drop (S c) (imap pair cs)).
  assert (imap pair cs = l1 ++ (c, wc) :: l2) as El by (symmetry; by apply take_drop_middle).
  assert (∀ x, x ∈ l1 ++ l2 -> w_valid x.2 = true -> valid (w_key x.2) /\ Compare (w_key wc) (w_key x.2) = Some better) as Hx.
  { intros x Hx Hvx. assert (∃ i, i <> c /\ imap pair cs !! i = Some x) as (i & Hne & Ei).
    { apply elem_of_app in Hx as [Hx | Hx]; apply list_elem_of_lookup in Hx as [j Ej].
      - apply lookup_take_Some in Ej as [Ej Hj]. exists j. split; [lia | done].
      - unfold l2 in Ej. rewrite lookup_drop in Ej. exists (S c + j)%nat. split; [lia | done]. }
    rewrite list_lookup_imap in Ei. destruct (cs !! i) as [d |] eqn:Ed; [| done]. injection Ei as <-. cbn [snd] in *.
    destruct (child_read i (g i) d (Hlt _ _ Ed) (Hc _ _ Ed)) as [Hvd Hrd]. rewrite Hvx in Hvd. symmetry in Hvd. apply bool_decide_eq_true in Hvd.
    destruct (lookup_lt_is_Some_2 _ _ Hvd) as [q' Eq']. destruct (Hrd q' Eq') as (_ & Hkd & _). rewrite Hkd, Hk.
    split; [by eapply part_valid | by apply (Hmin i); [| apply (Hlt _ _ Ed) |]]. }
  assert (valid (w_key wc)) as Hvk by (rewrite Hk; by eapply part_valid).
  rewrite El. split; [by apply find_best_ok |]. rewrite rev_app_distr. cbn [rev]. rewrite <- app_assoc. cbn [app]. apply find_best_ok; [done.. |].
  intros x Hx'. apply Hx. rewrite list_elem_of_In, in_app_iff, <- !in_rev in Hx'. rewrite list_elem_of_In, in_app_iff. tauto.
Qed.
Lemma find_nothing better cs g : children_at g cs -> (∀ i, (i < N)%nat -> part i ml !! g i = None) ->
  find_best C ndebug better (imap pair cs) None = Some None /\ find_best C ndebug better (rev (imap pair cs)) None = Some None.
Proof.
  intros [Hl Hc] Hnone. assert (∀ x, x ∈ imap pair cs -> w_valid x.2 = false) as Hx.
  { intros x [i Ei]%list_elem_of_lookup. rewrite list_lookup_imap in Ei. destruct (cs !! i) as [d |] eqn:Ed; [| done]. injection Ei as <-.
    assert (i < N)%nat as Hi by (apply lookup_lt_Some in Ed; lia). destruct (child_read i (g i) d Hi (Hc _ _ Ed)) as [Hv _]. cbn [snd]. rewrite Hv.
    apply bool_decide_eq_false. intros Hlt%lookup_lt_is_Some_2. rewrite (Hnone i Hi) in Hlt. by destruct Hlt. }
  split; apply find_best_none; [done |]. intros x Hx'. apply Hx. rewrite list_elem_of_In, <- in_rev in Hx'. by apply list_elem_of_In.
Qed.

(** ** Cuts of the merged sequence *)
Lemma part_split n i : part i ml = part i (take n ml) ++ part i (drop n ml).
Proof. by rewrite <- part_app, take_drop. Qed.
Lemma pos_lookup n i : part i ml !! pos n i = part i (drop n ml) !! 0%nat.
Proof. rewrite (part_split n i) at 1. unfold pos. by rewrite lookup_app_r, Nat.sub_diag by lia. Qed.
Lemma pos_S n i x : ml !! n = Some x -> pos (S n) i = if decide (x.1 = i) then S (pos n i) else pos n i.
Proof.
  intros E. unfold pos. rewrite (take_S_r ml n x E), part_app, length_app, part_cons. case_decide; cbn; lia.
Qed.
Lemma pos_current n c p : ml !! n = Some (c, p) -> part c ml !! pos n c = Some p.
Proof.
  intros E. rewrite pos_lookup. rewrite <- (take_drop_middle ml n (c, p) E) at 1. rewrite drop_app_ge, length_take_le by (rewrite ?length_take; apply lookup_lt_Some in E; lia).
  rewrite Nat.sub_diag. cbn [drop]. rewrite part_cons, decide_True by done. done.
Qed.
Lemma pos_le n i : (pos n i <= length (part i ml))%nat.
Proof. rewrite (part_split n i) at 1. rewrite length_app. unfold pos. lia. Qed.
Lemma ahead n i q : part i ml !! pos n i = Some q -> ∃ j, (n <= j)%nat /\ ml !! j = Some (i, q).
Proof.
  rewrite pos_lookup. intros Eq%list_elem_of_lookup_2. apply part_in in Eq as [j Ej]. rewrite lookup_drop in Ej. exists (n + j)%nat. split; [lia | done].
Qed.
Lemma behind n i q : (0 < pos n i)%nat -> part i ml !! back n i = Some q -> ∃ j, (j < n)%nat /\ ml !! j = Some (i, q).
Proof.
  intros Hp Eq. unfold back in Eq. destruct (pos n i) as [| k] eqn:Ek; [lia |]. apply (part_take ml i n q).
  rewrite (part_split n i), lookup_app_l in Eq by (unfold pos in Ek; lia). unfold pos in Ek. rewrite Ek. cbn [Nat.sub]. by rewrite Nat.sub_0_r.
Qed.

Lemma back_current n c p : ml !! n = Some (c, p) -> back (S n) c = pos n c.
Proof. intros En. unfold back. by rewrite (pos_S n c _ En), decide_True. Qed.

(** The position of the iterator: before a pair in either direction, or nowhere. *)
Definition merging_at (n : nat) it : Prop :=
  (∃ c p, ml !! n = Some (c, p) /\ current_ it = Some c /\ direction_ it = kForward /\ children_at (pos n) (children_ it)) \/
  (∃ c p, ml !! n = Some (c, p) /\ current_ it = Some c /\ direction_ it = kReverse /\ children_at (back (S n)) (children_ it)) \/
  (n = length ml /\ current_ it = None /\ ∃ g, children_at g (children_ it)).

Lemma FindSmallest_ok n cs : (n <= length ml)%nat -> children_at (pos n) cs -> ∃ it, FindSmallest C ndebug cs kForward = Some it /\ merging_at n it.
Proof.
  intros Hn Hcs. unfold FindSmallest, set_current. destruct (ml !! n) as [[c p] |] eqn:En.
  - pose proof (ml_tag n _ En : (c < N)%nat) as Hc. destruct (lookup_lt_is_Some_2 cs c) as [wc Ec]; [destruct Hcs as [-> _]; done |].
    destruct (find_current Lt cs (pos n) c wc p ltac:(done) Hcs Ec (pos_current n c p En)) as [-> _].
    { intros i q Hne Hi Eq. apply ahead in Eq as (j & Hj & Ej). assert (j <> n) by congruence. apply (ml_sorted n j _ _ En Ej). lia. }
    eexists. split; [done |]. left. exists c, p. by cbn.
  - apply lookup_ge_None_1 in En. assert (n = length ml) as -> by lia. destruct (find_nothing Lt cs (pos (length ml)) Hcs) as [-> _].
    { intros i Hi. unfold pos. rewrite take_ge by lia. by apply lookup_ge_None_2. }
    eexists. split; [done |]. right. right. cbn. split_and!; [done.. | by eexists].
Qed.
(** The last pair of the first [n] is the current one. *)
Lemma FindLargest_ok n cs : (n <= length ml)%nat -> children_at (back n) cs ->
  ∃ it, FindLargest C ndebug cs kReverse = Some it /\ merging_at (match n with O => length ml | S n => n end) it.
Proof.
  intros Hn Hcs. unfold FindLargest, set_current. destruct n as [| n].
  - destruct (find_nothing Gt cs (back 0) Hcs) as [_ ->]; [intros i Hi; by apply lookup_ge_None_2 |].
    eexists. split; [done |]. right. right. cbn. split_and!; [done.. | by eexists].
  - destruct (lookup_lt_is_Some_2 ml n ltac:(lia)) as [[c p] En]. pose proof (ml_tag n _ En : (c < N)%nat) as Hc.
    destruct (lookup_lt_is_Some_2 cs c) as [wc Ec]; [destruct Hcs as [-> _]; done |].
    destruct (find_current Gt cs (back (S n)) c wc p ltac:(done) Hcs Ec) as [_ ->].
    { rewrite (back_current n c p En). by apply pos_current. }
    { intros i q Hne Hi Eq. assert (0 < pos (S n) i)%nat as Hpos.
      { destruct (pos (S n) i) eqn:E; [| lia]. unfold back in Eq. rewrite E, lookup_ge_None_2 in Eq; done. }
      destruct (behind (S n) i q Hpos Eq) as (j & Hj & Ej). assert (j <> n) by congruence.
      change (Some Gt) with (Some (CompOpp Lt)). apply (cmp_flip q.1 p.1); [exact (ml_valid j _ Ej) | exact (ml_valid n _ En) |]. apply (ml_sorted j n _ _ Ej En). lia. }
    eexists. split; [done |]. right. left. exists c, p. by cbn.
Qed.

Lemma merging_children n it : merging_at n it -> ∃ g, children_at g (children_ it).
Proof. intros [(c & p & _ & _ & _ & H0) | [(c & p & _ & _ & _ & H0) | (_ & _ & H0)]]; [by eexists.. | done]. Qed.

Lemma Merging_Seek_ok n it t : merging_at n it -> valid t -> ∃ it', Merging_Seek C ndebug t it = Some it' /\ merging_at (lower ml.*2 t) it'.
Proof.
  intros [g Hg]%merging_children Ht. unfold Merging_Seek.
  destruct (for_children_ok (λ _, Seek t) g (pos (lower ml.*2 t)) (children_ it) Hg) as (cs & -> & Hcs).
  { intros i c Hi Hc. unfold pos. rewrite <- (lower_part ml i t Hsorted Ht). exact (iter_Seek (child_iterates i Hi) _ c t Hc Ht). }
  cbn [mbind option_bind]. apply FindSmallest_ok; [| done]. pose proof (lower_le ml.*2 t) as Hle. by rewrite length_fmap in Hle.
Qed.
Lemma Merging_SeekToFirst_ok n it : merging_at n it -> ∃ it', Merging_SeekToFirst C ndebug it = Some it' /\ merging_at 0 it'.
Proof.
  intros [g Hg]%merging_children. unfold Merging_SeekToFirst.
  destruct (for_children_ok (λ _, SeekToFirst) g (pos 0) (children_ it) Hg) as (cs & -> & Hcs).
  { intros i c Hi Hc. exact (iter_SeekToFirst (child_iterates i Hi) _ c Hc). }
  cbn [mbind option_bind]. apply FindSmallest_ok; [lia | done].
Qed.
Lemma back_all i : back (length ml) i = (length (part i ml) - 1)%nat.
Proof. unfold back, pos. rewrite take_ge by lia. destruct (length (part i ml)); cbn; lia. Qed.
Lemma Merging_SeekToLast_ok n it : merging_at n it -> ∃ it', Merging_SeekToLast C ndebug it = Some it' /\ merging_at (length ml - 1) it'.
Proof.
  intros [g Hg]%merging_children. unfold Merging_SeekToLast.
  destruct (for_children_ok (λ _, SeekToLast) g (back (length ml)) (children_ it) Hg) as (cs & -> & Hcs).
  { intros i c Hi Hc. rewrite back_all. exact (iter_SeekToLast (child_iterates i Hi) _ c Hc). }
  cbn [mbind option_bind]. destruct (FindLargest_ok (length ml) cs ltac:(lia) Hcs) as (it' & E & Hit'). exists it'. split; [done |].
  destruct (length ml) as [| k] eqn:El; [done |]. cbn [Nat.sub]. by rewrite Nat.sub_0_r.
Qed.

(** The current child and its pair. *)
Lemma merging_current n it p c : merging_at n it -> ml !! n = Some (c, p) -> (c < N)%nat /\ current_ it = Some c /\
  ∃ w, children_ it !! c = Some w /\ child_at c (pos n c) w /\ w_valid w = true /\ key w = Some p.1 /\ value w = Some p.2.
Proof.
  intros Hit En. pose proof (ml_tag n _ En : (c < N)%nat) as Hc. split; [done |].
  assert (current_ it = Some c /\ ∃ w, children_ it !! c = Some w /\ child_at c (pos n c) w) as (Ecur & w & Ew & Hw).
  { destruct Hit as [(c' & p' & En' & Ecur & _ & Hl & Hcs) | [(c' & p' & En' & Ecur & _ & Hl & Hcs) | (-> & _)]]; [| | apply lookup_lt_Some in En; lia].
    all: rewrite En in En'; injection En' as <- <-; destruct (lookup_lt_is_Some_2 (children_ it) c) as [w Ew]; [lia |].
    all: split; [done |]; exists w; split; [done |]; specialize (Hcs c w Ew); try done.
    by rewrite (back_current n c p En) in Hcs. }
  split; [done |]. exists w. destruct (child_read c _ w Hc Hw) as [_ Hr]. destruct (Hr p (pos_current n c p En)) as (? & _ & ? & ?). done.
Qed.
Lemma merging_valid n it : merging_at n it -> Merging_Valid it = bool_decide (n < length ml)%nat.
Proof.
  intros [(c & p & En & E & _) | [(c & p & En & E & _) | (-> & E & _)]]; unfold Merging_Valid; rewrite E.
  1, 2: rewrite !bool_decide_true; [done | by eapply lookup_lt_Some | by eexists].
  rewrite !bool_decide_false; [done | lia | by intros [? ?]].
Qed.

Lemma Merging_Next_ok n it : merging_at n it -> (n < length ml)%nat -> ∃ it', Merging_Next C ndebug it = Some it' /\ merging_at (S n) it'.
Proof.
  intros Hit Hn. destruct (lookup_lt_is_Some_2 ml n Hn) as [[c p] En]. destruct (merging_current n it p c Hit En) as (Hc & Ecur & w & Ew & Hw & Hv & Hk & Hval).
  unfold Merging_Next, current. rewrite (merging_valid n it Hit), bool_decide_true, assert_true, Ecur by done. cbn [mbind option_bind]. rewrite Ew. cbn [mbind option_bind fst snd].
  rewrite Hk. cbn [mbind option_bind].
  set (g := λ i, if decide (i = c) then pos n i else pos (S n) i).
  assert (∃ cs, (if decide (direction_ it = kForward) then Some (children_ it) else others (after_key C ndebug p.1) c (children_ it)) = Some cs /\ children_at g cs) as (cs & -> & Hcs).
  { destruct Hit as [(c' & p' & En' & _ & Ed & Hl & Hcs) | [(c' & p' & En' & _ & Ed & Hcs) | (-> & _)]]; [| | lia]; rewrite Ed; cbn [decide decide_rel].
    - exists (children_ it). split; [done |]. split; [done |]. intros i d Ei. unfold g. case_decide; [by apply Hcs |].
      rewrite (pos_S n i _ En), decide_False by (cbn; congruence). by apply Hcs.
    - destruct (for_children_ok (λ i child, if decide (i = c) then Some child else after_key C ndebug p.1 child) (back (S n)) g (children_ it) Hcs) as (cs & E & Hcs'); [| by exists cs].
      intros i d Hi Hd. unfold g. case_decide as Hic; [subst i; rewrite (back_current n c p En) in Hd; by exists d |].
      rewrite (pos_S n i _ En), decide_False by (cbn; congruence). unfold after_key. assert (valid p.1) as Hvp by exact (ml_valid n _ En).
      destruct (iter_Seek (child_iterates i Hi) _ d p.1 Hd Hvp) as (d' & Ed' & Hd'). rewrite Ed'. cbn [mbind option_bind].
      assert (ml.*2 !! n = Some p) as En2 by by rewrite list_lookup_fmap, En.
      rewrite (lower_part ml i p.1 Hsorted Hvp), (lower_hit _ n p Hsorted En2) in Hd'. fold (pos n i) in Hd'.
      destruct (child_read i _ d' Hi Hd') as [Hvd Hrd]. rewrite Hvd. case_bool_decide as Hlt; [| by exists d'].
      destruct (lookup_lt_is_Some_2 _ _ Hlt) as [q Eq]. destruct (Hrd q Eq) as (_ & _ & -> & _). cbn [mbind option_bind].
      apply ahead in Eq as (j & Hj & Ej). assert (j <> n) by congruence. rewrite (ml_sorted n j _ _ En Ej ltac:(lia) : Compare p.1 q.1 = Some Lt). cbn [mbind option_bind].
      rewrite bool_decide_false by done. by exists d'. }
  cbn [mbind option_bind]. destruct (iter_Next (child_iterates c Hc) _ w Hw) as (w' & Ew' & Hw').
  { apply lookup_lt_is_Some_1. exists p. by apply pos_current. }
  rewrite Ew'. cbn [mbind option_bind]. apply FindSmallest_ok; [lia |]. destruct Hcs as [Hl Hcs]. split; [by rewrite length_insert |].
  intros i d Ei. destruct (decide (i = c)) as [-> | Hne].
  - rewrite list_lookup_insert_eq in Ei by lia. injection Ei as <-. by rewrite (pos_S n c _ En), decide_True.
  - rewrite list_lookup_insert_ne in Ei by done. specialize (Hcs i d Ei). unfold g in Hcs. by rewrite decide_False in Hcs.
Qed.

Lemma Merging_Prev_ok n it : merging_at n it -> (n < length ml)%nat ->
  ∃ it', Merging_Prev C ndebug it = Some it' /\ merging_at (if decide (n = 0)%nat then length ml else n - 1)%nat it'.
Proof.
  intros Hit Hn. destruct (lookup_lt_is_Some_2 ml n Hn) as [[c p] En]. destruct (merging_current n it p c Hit En) as (Hc & Ecur & w & Ew & Hw & Hv & Hk & Hval).
  unfold Merging_Prev, current. rewrite (merging_valid n it Hit), bool_decide_true, assert_true, Ecur by done. cbn [mbind option_bind]. rewrite Ew. cbn [mbind option_bind fst snd].
  rewrite Hk. cbn [mbind option_bind].
  set (g := λ i, if decide (i = c) then pos n i else back n i).
  assert (∃ cs, (if decide (direction_ it = kReverse) then Some (children_ it) else others (before_key ndebug p.1) c (children_ it)) = Some cs /\ children_at g cs) as (cs & -> & Hcs).
  { destruct Hit as [(c' & p' & En' & _ & Ed & Hcs) | [(c' & p' & En' & _ & Ed & Hl & Hcs) | (-> & _)]]; [| | lia]; rewrite Ed; cbn [decide decide_rel].
    - destruct (for_children_ok (λ i child, if decide (i = c) then Some child else before_key ndebug p.1 child) (pos n) g (children_ it) Hcs) as (cs & E & Hcs'); [| by exists cs].
      intros i d Hi Hd. unfold g. case_decide as Hic; [by exists d |]. unfold before_key. assert (valid p.1) as Hvp by exact (ml_valid n _ En).
      destruct (iter_Seek (child_iterates i Hi) _ d p.1 Hd Hvp) as (d' & Ed' & Hd'). rewrite Ed'. cbn [mbind option_bind].
      assert (ml.*2 !! n = Some p) as En2 by by rewrite list_lookup_fmap, En.
      rewrite (lower_part ml i p.1 Hsorted Hvp), (lower_hit _ n p Hsorted En2) in Hd'. fold (pos n i) in Hd'.
      destruct (child_read i _ d' Hi Hd') as [Hvd _]. rewrite Hvd. unfold back. pose proof (pos_le n i). case_bool_decide as Hlt.
      + destruct (iter_Prev (child_iterates i Hi) _ d' Hd' Hlt) as (d2 & Ed2 & Hd2). exists d2. split; [exact Ed2 |].
        destruct (pos n i); [done |]. by cbn [decide decide_rel Nat.sub] in Hd2; rewrite Nat.sub_0_r in Hd2.
      + destruct (iter_SeekToLast (child_iterates i Hi) _ d' Hd') as (d2 & Ed2 & Hd2). exists d2. split; [exact Ed2 |].
        destruct (pos n i) as [| k]; [by replace (length (part i ml)) with 0%nat in * by lia |]. by replace (length (part i ml) - 1)%nat with k in Hd2 by lia.
    - exists (children_ it). split; [done |]. split; [done |]. intros i d Ei. specialize (Hcs i d Ei). unfold g.
      case_decide as Hic; [subst i; by rewrite (back_current n c p En) in Hcs |]. unfold back in *. by rewrite (pos_S n i _ En), decide_False in Hcs by (cbn; congruence). }
  cbn [mbind option_bind]. destruct (iter_Prev (child_iterates c Hc) _ w Hw) as (w' & Ew' & Hw').
  { apply lookup_lt_is_Some_1. exists p. by apply pos_current. }
  rewrite Ew'. cbn [mbind option_bind]. destruct (FindLargest_ok n (<[c:=w']> cs)) as (it' & E & Hit'); [lia | |].
  - destruct Hcs as [Hl Hcs]. split; [by rewrite length_insert |]. intros i d Ei. destruct (decide (i = c)) as [-> | Hne].
    + rewrite list_lookup_insert_eq in Ei by lia. injection Ei as <-. unfold back. destruct (pos n c) as [| k]; [done |].
      by cbn [decide decide_rel Nat.sub] in Hw'; rewrite Nat.sub_0_r in Hw'.
    + rewrite list_lookup_insert_ne in Ei by done. specialize (Hcs i d Ei). unfold g in Hcs. by rewrite decide_False in Hcs.
  - exists it'. split; [done |]. destruct n as [| n]; [done |]. rewrite decide_False by done. cbn [Nat.sub]. by rewrite Nat.sub_0_r.
Qed.

Lemma status_loop_ok cs g s : children_at g cs -> ok s = true -> ok (Merging_status_loop ndebug cs s) = true.
Proof.
  intros [Hl Hc]. assert (∀ cs k s, (k + length cs = N)%nat -> (∀ i c, cs !! i = Some c -> child_at (k + i) (g (k + i)%nat) c) -> ok s = true -> ok (Merging_status_loop ndebug cs s) = true) as Hall;
    [| by apply (Hall cs 0%nat)].
  clear cs Hl Hc s. induction cs as [| c cs IH]; intros k s Hk Hc Hs; [done |]. cbn [Merging_status_loop length] in *.
  assert (k + 0 < N)%nat as Hk0 by lia. pose proof (iter_status (child_iterates _ Hk0) _ c (Hc 0%nat c eq_refl)) as Hst.
  rewrite Hst. cbn [negb].
  apply (IH (S k)); [lia | | done]. intros i d Ed. specialize (Hc (S i) d Ed). by rewrite Nat.add_succ_r in Hc.
Qed.

(** The merging iterator walks the merged sequence. *)
Lemma merging_iterates : iterates (H := Merging_Iterator C ndebug) valid merging_at ml.*2.
Proof.
  split.
  - intros n it [(c & p & En & _) | [(c & p & En & _) | (-> & _)]]; rewrite length_fmap; [apply lookup_lt_Some in En; lia.. | lia].
  - intros n it Hit. rewrite length_fmap. by apply merging_valid.
  - intros n it p Hit En. rewrite list_lookup_fmap in En. apply fmap_Some in En as ([c q] & En & ->).
    destruct (merging_current n it q c Hit En) as (_ & Ecur & w & Ew & _ & _ & Hk & _). cbn [key Merging_Iterator]. unfold Merging_key, current.
    rewrite (merging_valid n it Hit), bool_decide_true, assert_true, Ecur by by eapply lookup_lt_Some. cbn [mbind option_bind]. by rewrite Ew.
  - intros n it p Hit En. rewrite list_lookup_fmap in En. apply fmap_Some in En as ([c q] & En & ->).
    destruct (merging_current n it q c Hit En) as (_ & Ecur & w & Ew & _ & _ & _ & Hval). cbn [value Merging_Iterator]. unfold Merging_value, current.
    rewrite (merging_valid n it Hit), bool_decide_true, assert_true, Ecur by by eapply lookup_lt_Some. cbn [mbind option_bind]. by rewrite Ew.
  - intros n it Hit. rewrite length_fmap. by apply Merging_Next_ok.
  - intros n it Hit. rewrite length_fmap. by apply Merging_Prev_ok.
  - intros n it Hit. by eapply Merging_SeekToFirst_ok.
  - intros n it Hit. rewrite length_fmap. by eapply Merging_SeekToLast_ok.
  - intros n it t Hit Ht. by eapply Merging_Seek_ok.
  - intros n it [g Hg]%merging_children. by eapply status_loop_ok.
Qed.

(** A new iterator, over children anywhere. *)
Lemma new_Merging_ok children : length children = N -> (∀ i c, children !! i = Some c -> ∃ n, RC i n c) ->
  ∃ it, new_Merging children = Some it /\ merging_at (length ml) it.
Proof.
  intros Hl Hc. unfold new_Merging.
  assert (∀ (cs : list I) k, (k + length cs = N)%nat -> (∀ i c, cs !! i = Some c -> ∃ n, RC (k + i)%nat n c) ->
    ∃ ws, mapM (λ i : I, w_Set (Some i) new_Wrapper) cs = Some ws /\ length ws = length cs /\ ∀ i w, ws !! i = Some w -> ∃ n, child_at (k + i) n w) as Hall.
  { clear Hl Hc. induction cs as [| c cs IH]; intros k Hk Hc; [by exists [] |]. cbn [length] in Hk. destruct (Hc 0%nat c eq_refl) as [n Hn]. rewrite Nat.add_0_r in Hn.
    destruct (w_Set_ok (HC k ltac:(lia)) n c new_Wrapper Hn) as (w & Ew & Hw).
    destruct (IH (S k) ltac:(lia)) as (ws & E & Hl & Hws). { intros i d Ed. destruct (Hc (S i) d Ed) as [m Hm]. exists m. by rewrite Nat.add_succ_r in Hm. }
    exists (w :: ws). cbn [mapM]. rewrite Ew. cbn [mbind option_bind]. rewrite E. split; [done |]. split; [by cbn; f_equal |].
    intros [| i] d Ed; [injection Ed as <-; exists n; by rewrite Nat.add_0_r |]. rewrite Nat.add_succ_r. by apply (Hws i). }
  destruct (Hall children 0%nat ltac:(lia) Hc) as (ws & -> & Hlw & Hw). cbn [mbind option_bind]. eexists. split; [done |]. right. right. cbn. split_and!; [done.. |].
  assert (∃ g, ∀ i c, ws !! i = Some c -> child_at i (g i) c) as [g Hg]; [| exists g; split; [lia | done]].
  clear -Hw. cbn [Nat.add] in Hw. revert Hw. generalize child_at. intros Q. induction ws as [| w ws IH] using rev_ind; intros Hw; [by exists (λ _, 0%nat) |].
  destruct IH as [g Hg]. { intros i d Ed. apply Hw. by apply lookup_app_l_Some. }
  destruct (Hw (length ws) w) as [m Hm]. { by rewrite lookup_app_r, Nat.sub_diag by lia. }
  exists (λ i, if decide (i = length ws) then m else g i). intros i d Ed. apply lookup_snoc_Some in Ed as [[Hi Ed] | [Ei <-]].
  - rewrite decide_False by lia. by apply Hg.
  - subst i. by rewrite decide_True.
Qed.
End Facts.

(** ** Any sorted sequences can be merged *)
Section Merge.
Context {C : Comparator} {valid : Slice -> Prop} `{!OrderOn Compare valid}.
Implicit Types (ls : list Pairs) (tl ml : list (nat * (Slice * Slice))).

Definition tagged ls : list (nat * (Slice * Slice)) := concat (imap (λ i l, pair i <$> l) ls).
(** No two pairs have the same key. *)
Definition distinct (l : Pairs) : Prop := ∀ i j p q, l !! i = Some p -> l !! j = Some q -> (i < j)%nat -> Compare p.1 q.1 <> Some Eq.

Lemma tagged_snoc ls l : tagged (ls ++ [l]) = tagged ls ++ (pair (length ls) <$> l).
Proof. unfold tagged. rewrite imap_app, concat_app. cbn [imap concat]. by rewrite app_nil_r, Nat.add_0_r. Qed.
Lemma tagged_pairs ls : (tagged ls).*2 = concat ls.
Proof.
  induction ls as [| l ls IH] using rev_ind; [done |]. rewrite tagged_snoc, fmap_app, IH, concat_app. cbn. rewrite app_nil_r. f_equal.
  rewrite <- list_fmap_compose. apply list_fmap_id.
Qed.
Lemma tagged_tags ls : Forall (λ x, (x.1 < length ls)%nat) (tagged ls).
Proof.
  induction ls as [| l ls IH] using rev_ind; [constructor |]. rewrite tagged_snoc, length_app, Nat.add_1_r. apply list.Forall_app. split.
  - eapply list.Forall_impl; [exact IH |]. cbn. lia.
  - apply list.Forall_forall. intros x (q & -> & _)%list_elem_of_fmap. cbn. lia.
Qed.
Lemma part_none i tl : (∀ x, x ∈ tl -> x.1 <> i) -> part i tl = [].
Proof.
  induction tl as [| x tl IH]; intros Hx; [done |]. rewrite part_cons, decide_False by (apply Hx; by left). apply IH. intros y Hy. apply Hx. by right.
Qed.
Lemma part_all i (l : Pairs) : part i (pair i <$> l) = l.
Proof. induction l as [| p l IH]; [done |]. rewrite fmap_cons, part_cons, decide_True by done. by rewrite IH. Qed.
Lemma part_tagged ls i l : ls !! i = Some l -> part i (tagged ls) = l.
Proof.
  induction ls as [| l' ls IH] using rev_ind; [done |]. intros E. rewrite tagged_snoc, part_app. pose proof (tagged_tags ls) as Ht. rewrite list.Forall_forall in Ht.
  apply lookup_snoc_Some in E as [[Hi E] | [Hi ->]].
  - rewrite IH by done. rewrite (part_none i (pair _ <$> _)), app_nil_r; [done |]. intros x (q & -> & _)%list_elem_of_fmap. cbn. lia.
  - subst i. rewrite (part_none _ (tagged ls)), part_all; [done |]. intros x Hx Ex. specialize (Ht x Hx). lia.
Qed.
Lemma part_perm i tl tl' : tl ≡ₚ tl' -> part i tl ≡ₚ part i tl'.
Proof. intros Hp. unfold part. by rewrite Hp. Qed.
Lemma part_sorted i ml : sorted_pairs valid ml.*2 -> sorted_pairs valid (part i ml).
Proof.
  induction ml as [| x ml IH]; intros Hs; [done |]. pose proof (proj2 (sorted_pairs_app [x.2] ml.*2 Hs)) as Hs'. rewrite part_cons. case_decide; [| by apply IH].
  specialize (IH Hs'). apply sorted_pairs_intro.
  - intros [| k] p Ek; [injection Ek as <-; exact (sorted_pairs_valid _ 0 _ Hs eq_refl) | exact (sorted_pairs_valid _ k _ IH Ek)].
  - intros k1 k2 p q E1 E2 Hlt. destruct k2 as [| k2]; [lia |]. destruct k1 as [| k1]; [| apply (sorted_pairs_lookup _ k1 k2 _ _ IH); [done.. | lia]].
    injection E1 as <-. assert (q ∈ part i ml) as (j & Ej)%part_in by by eapply list_elem_of_lookup_2.
    apply (sorted_pairs_lookup _ 0 (S j) _ _ Hs); [done | | lia]. change (ml.*2 !! j = Some q). by rewrite list_lookup_fmap, Ej.
Qed.

Lemma sort_tagged tl : (∀ x, x ∈ tl -> valid x.2.1) -> distinct tl.*2 -> ∃ ml, ml ≡ₚ tl /\ sorted_pairs valid ml.*2.
Proof.
  induction tl as [| x tl IH]; intros Hv Hd; [exists []; split; [done | split; constructor] |]. destruct IH as (ml & Hp & Hs).
  - intros y Hy. apply Hv. by right.
  - intros i j p q Ei Ej Hij. apply (Hd (S i) (S j)); [done.. | lia].
  - set (n := lower ml.*2 x.2.1). exists (take n ml ++ x :: drop n ml). split.
    + rewrite <- Permutation_middle, take_drop. by f_equiv.
    + rewrite fmap_app, fmap_cons, fmap_take, fmap_drop. apply sorted_pairs_insert; [done | apply Hv; by left |].
      intros q (y & -> & Hy)%list_elem_of_fmap E. rewrite Hp in Hy. assert (valid x.2.1) as Vx by (apply Hv; by left). assert (valid y.2.1) as Vy by (apply Hv; by right).
      apply list_elem_of_lookup in Hy as [j Ej]. apply (Hd 0%nat (S j) x.2 y.2); [done | change (tl.*2 !! j = Some y.2); by rewrite list_lookup_fmap, Ej | lia | by apply cmp_eq_sym].
Qed.

Lemma merge_exists ls : Forall (sorted_pairs valid) ls -> distinct (concat ls) ->
  ∃ ml, sorted_pairs valid ml.*2 /\ ml.*2 ≡ₚ concat ls /\ (∀ i l, ls !! i = Some l -> part i ml = l) /\ Forall (λ x, (x.1 < length ls)%nat) ml.
Proof.
  intros Hs Hd. destruct (sort_tagged (tagged ls)) as (ml & Hp & Hsm).
  - intros x (i & Ei)%list_elem_of_lookup. assert ((tagged ls).*2 !! i = Some x.2) as E by by rewrite list_lookup_fmap, Ei. rewrite tagged_pairs in E.
    apply list_elem_of_lookup_2, list_elem_of_In, in_concat in E as (l & Hl & Hx). rewrite list.Forall_forall in Hs. specialize (Hs l). rewrite list_elem_of_In in Hs. specialize (Hs Hl).
    apply list_elem_of_In, list_elem_of_lookup in Hx as [k Ek]. by eapply sorted_pairs_valid.
  - by rewrite tagged_pairs.
  - exists ml. split; [done |]. split; [by rewrite Hp, tagged_pairs |]. split.
    + intros i l E. apply sorted_pairs_perm; [by apply part_sorted | exact (proj1 (list.Forall_lookup _ _) Hs _ _ E) |]. by rewrite (part_perm i _ _ Hp), (part_tagged ls i l E).
    + rewrite Hp. apply tagged_tags.
Qed.
End Merge.

(** The iterator that [NewMergingIterator] gives. *)
Section NewMerging.
Context {C : Comparator} {valid : Slice -> Prop} `{!OrderOn Compare valid} {I : Type} `{HiI : Iterator I} (ndebug : bool).
Definition merged_iterator : Iterator (MergingIterator I + (I + EmptyIterator)) :=
  @Sum_Iterator _ _ (Merging_Iterator C ndebug) (@Sum_Iterator _ _ HiI (EmptyIterator_Iterator ndebug)).

Lemma NewMergingIterator_ok (children : list I) (ls : list Pairs) (RC : nat -> nat -> I -> Prop) :
  length children = length ls -> Forall (sorted_pairs valid) ls -> distinct (concat ls) ->
  (∀ i l, ls !! i = Some l -> iterates valid (RC i) l) -> (∀ i c, children !! i = Some c -> ∃ n, RC i n c) ->
  ∃ l it R n, NewMergingIterator children = Some it /\ l ≡ₚ concat ls /\ sorted_pairs valid l /\ iterates (H := merged_iterator) valid R l /\ R n it.
Proof.
  intros Hl Hs Hd Hit Hc. destruct children as [| c1 [| c2 children]].
  - destruct ls; [| done]. exists [], (inr (inr NewEmptyIterator)). do 2 eexists. split; [done |]. split; [done |]. split; [by split; constructor |].
    split; [exact (right_iterates (H := Merging_Iterator C ndebug) (right_iterates (H0 := EmptyIterator_Iterator ndebug) (EmptyIterator_iterates ndebug valid))) |].
    eexists. split; [done |]. eexists. split; [done |]. split; reflexivity.
  - destruct ls as [| l [| ? ?]]; try done. exists l, (inr (inl c1)). destruct (Hc 0%nat c1 eq_refl) as [n Hn]. do 2 eexists. split; [done |].
    cbn [concat]. rewrite app_nil_r. split; [done |]. split; [exact (proj1 (list.Forall_singleton _ _) Hs) |].
    split; [exact (right_iterates (H := Merging_Iterator C ndebug) (left_iterates (H0 := EmptyIterator_Iterator ndebug) (Hit 0%nat l eq_refl))) |].
    eexists. split; [done |]. eexists. split; [done | exact Hn].
  - destruct (merge_exists ls Hs Hd) as (ml & Hsm & Hp & Hpart & Ht).
    assert (∀ i, (i < length ls)%nat -> iterates valid (RC i) (part i ml)) as HC.
    { intros i Hi. destruct (lookup_lt_is_Some_2 ls i Hi) as [l E]. rewrite (Hpart i l E). by apply Hit. }
    destruct (new_Merging_ok HC (c1 :: c2 :: children) Hl Hc) as (m & Em & Hm). exists ml.*2, (inl m). do 2 eexists.
    cbn [NewMergingIterator]. rewrite Em. split; [done |]. split; [done |]. split; [done |].
    split; [exact (left_iterates (H0 := @Sum_Iterator _ _ HiI (EmptyIterator_Iterator ndebug)) (merging_iterates ndebug Hsm Ht HC)) |].
    eexists. split; [done | exact Hm].
Qed.
End NewMerging.
