(* ===== verification/MemIter.v ===== *)
(** * Iterators of memtables ([leveldb/db/memtable.cc])

    [MemTableIterator] walks the entries of a memtable as pairs of an internal key and a value, in order. *)
From stdpp Require Import sorting.
From S2P Require Import Prelude Status Keys Coding Comparator SkipList SkipListProps.
From S2P Require Import History MemTable MemTableProps Iterator.

(** The memtable is the one the iterator was made for; nothing is added to it meanwhile. *)
Record MemTableIterator := MkMemTableIterator { mi_table : MemTable; mi_pos : option nat }.

Section MemTableIterator.
Context (ndebug : bool) (C : Comparator).
Implicit Types (it : MemTableIterator).

Definition MemTable_NewIterator (m : MemTable) : MemTableIterator := MkMemTableIterator m None.
Definition mit_move (f : SkipList Slice -> option (option nat)) it : option MemTableIterator :=
  p ← f (table_ (mi_table it)); Some (MkMemTableIterator (mi_table it) p).

#[export] Instance MemTableIterator_Iterator : Iterator MemTableIterator := {
  Valid it := it_Valid (mi_pos it);
  SeekToFirst := mit_move it_SeekToFirst;
  SeekToLast := mit_move it_SeekToLast;
  Seek k it := p ← mit_Seek C (mi_table it) k; Some (MkMemTableIterator (mi_table it) p);
  Next it := mit_move (λ t, it_Next t (mi_pos it)) it;
  Prev it := mit_move (λ t, it_Prev (KeyComparator C) ndebug t (mi_pos it)) it;
  key it := mit_key (mi_table it) (mi_pos it);
  value it := mit_value (mi_table it) (mi_pos it);
  status _ := OK
}.
End MemTableIterator.

(** The bytewise comparator keeps its contract on keys up to a length. *)
Lemma OrderOn_mono {K} (compare : K -> K -> option comparison) (P Q : K -> Prop) : (∀ k, Q k -> P k) -> OrderOn compare P -> OrderOn compare Q.
Proof.
  intros HQ [H1 H2 H3 H4 H5]. split.
  - auto.
  - auto.
  - intros a b c Ha Hb. apply H3; auto.
  - intros a b d Ha Hb Hd. apply H4; auto.
  - intros a b d c Ha Hb Hd. apply H5; auto.
Qed.
Section Bounded.
Context (ndebug : bool) (B : Z).
Definition short_bytes (u : Slice) : Prop := bytes u /\ |[u]| < B.
Lemma FindShortestSeparator_size a b s : Bytewise_FindShortestSeparator ndebug a b = Some s -> |[s]| <= |[a]|.
Proof.
  unfold Bytewise_FindShortestSeparator. case_decide; [by intros [= <-] |]. intros (x & _ & E)%bind_Some. apply bind_Some in E as (y & _ & E).
  destruct (_ && _); [| by injection E as <-]. apply bind_Some in E as (_ & _ & E). injection E as <-.
  unfold slice_size. rewrite length_take, length_insert. lia.
Qed.
Lemma FindShortSuccessor_size a s : Bytewise_FindShortSuccessor a = Some s -> |[s]| <= |[a]|.
Proof.
  unfold Bytewise_FindShortSuccessor. intros [= <-]. induction a as [| x a IH]; [done |]. cbn [FindShortSuccessor_loop].
  unfold slice_size in *. destruct (negb _); [cbn; lia |]. destruct (FindShortSuccessor_loop a); cbn in *; lia.
Qed.
Lemma Bytewise_laws_bounded : ComparatorLaws (BytewiseComparator ndebug) short_bytes.
Proof.
  pose proof (Bytewise_laws ndebug) as [Ho Hsep Heq Hsucc]. split.
  - eapply OrderOn_mono, Ho. by intros k [? _].
  - intros a b [Ha Sa] [Hb _] E. destruct (Hsep a b Ha Hb E) as (s & Es & Hs & H1 & H2). exists s. split_and!; try done.
    pose proof (FindShortestSeparator_size a b s Es). split; [done | lia].
  - intros a b [Ha _] [Hb _]. by apply Heq.
  - intros a [Ha Sa]. destruct (Hsucc a Ha) as (s & Es & Hs & H1). exists s. split_and!; try done. pose proof (FindShortSuccessor_size a s Es). split; [done | lia].
Qed.
End Bounded.

(** The pair of an entry. *)
Definition entry_pair (e : Entry) : Slice * Slice := (entry_key e, e_value e).

Section Props.
Context (ndebug : bool) {C : Comparator} {valid : Slice -> Prop} `{!ComparatorLaws C valid}.
Local Abbreviation CI := (InternalKeyComparator ndebug C).
Hypothesis Hsmall : ∀ u, valid u -> |[u]| + 8 < 2 ^ 32.
Implicit Types (h : list Entry) (e : Entry) (m : MemTable) (it : MemTableIterator).

Lemma mem_entries m h : mem_ok C valid m h -> ∃ l es, sl_ok (KeyComparator C) (valid_mem valid) (table_ m) l /\ l.*2 = entry_of <$> es /\ es ≡ₚ h.
Proof.
  intros [(l & Hok & Hp) _ _]. destruct (Permutation_map_inv entry_of h Hp) as (es & E & Hes). exists l, es. split; [done |]. split; [exact E | by symmetry].
Qed.

Section Table.
Context (m : MemTable) (l : list (nat * Slice)) (es : list Entry).
Hypothesis Hok : sl_ok (KeyComparator C) (valid_mem valid) (table_ m) l.
Hypothesis Hl : l.*2 = entry_of <$> es.
Hypothesis Hes : Forall (valid_entry valid) es.

Lemma es_length : length l = length es.
Proof. pose proof (f_equal length Hl) as E. by rewrite !length_fmap in E. Qed.
Lemma mem_entry_at n e : es !! n = Some e -> ∃ a, l !! n = Some (a, entry_of e) /\ valid_entry valid e.
Proof.
  intros E. assert (l.*2 !! n = Some (entry_of e)) as El by by rewrite Hl, list_lookup_fmap, E. rewrite list_lookup_fmap in El.
  apply fmap_Some in El as ([a k] & El & ->). exists a. split; [done |]. exact (proj1 (list.Forall_lookup _ _) Hes _ _ E).
Qed.

Definition mem_at (n : nat) it : Prop := mi_table it = m /\ mi_pos it = it_at l n /\ (n <= length l)%nat.

Lemma mem_sorted : sorted_pairs (C := CI) (valid_ikey valid) (entry_pair <$> es).
Proof.
  apply sorted_pairs_intro.
  - intros i p E. rewrite list_lookup_fmap in E. apply fmap_Some in E as (e & E & ->). destruct (mem_entry_at i e E) as (_ & _ & He). by apply entry_key_valid.
  - intros i j p q Ei Ej Hij. rewrite list_lookup_fmap in Ei, Ej. apply fmap_Some in Ei as (e & Ei & ->), Ej as (e' & Ej & ->).
    destruct (mem_entry_at i e Ei) as (a & Ea & He), (mem_entry_at j e' Ej) as (b & Eb & He').
    pose proof (so_sorted _ _ _ _ Hok) as Hs. cbn [entry_pair fst Compare InternalKeyComparator]. rewrite <- (entry_compare C valid) by done.
    exact (StronglySorted_at _ l i j _ _ Hs Ea Eb Hij).
Qed.

(** Where a search in the list stops. *)
Lemma below_lower t : |[t]| < 2 ^ 32 -> length (below (KeyComparator C) l (EncodeKey t)) = lower (C := CI) (entry_pair <$> es) t.
Proof.
  intros Ht. clear Hok. revert es Hl Hes. induction l as [| [a k] l' IH]; intros [| e es'] Hl' Hes'; try done.
  cbn [fmap list_fmap snd] in Hl'. injection Hl' as -> Hl'. apply list.Forall_cons in Hes' as [He Hes']. cbn [below lower fmap list_fmap snd entry_pair fst].
  assert (KeyComparator C (entry_of e) (EncodeKey t) = InternalKey_Compare C (entry_key e) t) as ->.
  { rewrite (entry_of_eq valid) by done. change (EncodeKey t) with (EncodeLengthPrefixedSlice t). rewrite <- (app_nil_r (EncodeLengthPrefixedSlice t)).
    apply KeyComparator_encode; [| done]. unfold entry_key. rewrite size_ikey. apply He. }
  cbn [Compare InternalKeyComparator]. destruct (InternalKey_Compare C (entry_key e) t) as [[] |]; cbn [decide decide_rel]; [done | | done | done].
  rewrite decide_True by done. cbn [length]. f_equal. by apply IH.
Qed.

Lemma mem_read n e p : es !! n = Some e -> p = it_at l n -> mit_key m p = Some (entry_key e) /\ mit_value m p = Some (e_value e).
Proof.
  intros E ->. destruct (mem_entry_at n e E) as (a & Ea & He). unfold mit_key, mit_value.
  rewrite (it_key_at _ _ _ _ Hok) by by eapply lookup_lt_Some. rewrite Ea. cbn [fmap option_fmap option_map snd mbind option_bind].
  rewrite (entry_of_eq valid) by done. split.
  - apply LengthPrefixed_encode. unfold entry_key. rewrite size_ikey. apply He.
  - assert (|[entry_key e]| < 2 ^ 32) as Hsz by (unfold entry_key; rewrite size_ikey; apply He).
    assert (word 32 (|[entry_key e]|)) as Hw by by apply size_word.
    unfold EncodeLengthPrefixedSlice at 1. unfold u32 at 1. rewrite wrap_small, <- app_assoc by done.
    change (GetVarint32Ptr ?x) with (GetVarint32 x). rewrite GetVarint32_encode by done. cbn [mbind option_bind].
    rewrite slice_size_app. pose proof (slice_size_nonneg (EncodeLengthPrefixedSlice (e_value e))).
    rewrite (proj2 (Z.leb_le _ _)), drop_slice_size by lia. rewrite <- (app_nil_r (EncodeLengthPrefixedSlice (e_value e))). apply LengthPrefixed_encode, He.
Qed.

Lemma mem_iterates : iterates (C := CI) (H := MemTableIterator_Iterator ndebug C) (valid_ikey valid) mem_at (entry_pair <$> es).
Proof.
  pose proof es_length as El. assert (length (entry_pair <$> es) = length es) as Ep by by rewrite length_fmap.
  assert (∀ n it p, mem_at n it -> (entry_pair <$> es) !! n = Some p -> mit_key (mi_table it) (mi_pos it) = Some p.1 /\ mit_value (mi_table it) (mi_pos it) = Some p.2) as Hread.
  { intros n it p (-> & Hp & _) E. rewrite list_lookup_fmap in E. apply fmap_Some in E as (e & E & ->). exact (mem_read n e _ E Hp). }
  split.
  - intros n it (_ & _ & Hn). lia.
  - intros n it (_ & Hp & Hn). cbn. rewrite Hp. unfold it_Valid, it_at. rewrite Ep, <- El. destruct (l !! n) as [x |] eqn:E; cbn.
    + by rewrite bool_decide_true by by eapply lookup_lt_Some.
    + apply lookup_ge_None_1 in E. by rewrite bool_decide_false by lia.
  - intros n it p Hit E. by apply (Hread n it p).
  - intros n it p Hit E. by apply (Hread n it p).
  - intros n it (Ht & Hp & _) Hn. cbn. unfold mit_move. rewrite Ht, Hp, (it_Next_at _ _ _ _ Hok) by lia. eexists. split; [done |]. split_and!; [done.. | cbn; lia].
  - intros n it (Ht & Hp & _) Hn. cbn. unfold mit_move. rewrite Ht, Hp, (it_Prev_at _ _ _ _ _ Hok) by lia. eexists. split; [done |]. rewrite Ep. split; [done |]. cbn [mi_pos]. case_decide.
    + split; [| lia]. unfold it_at. by rewrite lookup_ge_None_2 by lia.
    + split; [done | lia].
  - intros n it (Ht & _). cbn. unfold mit_move. rewrite Ht, (it_SeekToFirst_at _ _ _ _ Hok). eexists. split; [done |]. split_and!; [done.. | lia].
  - intros n it (Ht & _). cbn. unfold mit_move. rewrite Ht, (it_SeekToLast_at _ _ _ _ Hok). eexists. split; [done |]. rewrite Ep, <- El. split_and!; [done.. | lia].
  - intros n it t (Ht & _) Hv. cbn. unfold mit_Seek. pose proof Hv as (u & k & Eu & Hu & Hk).
    assert (|[t]| < 2 ^ 32) as Hsz by (rewrite Eu, size_ikey; by apply Hsmall).
    assert (valid_mem valid (EncodeKey t)) as Hm by (exists t, []; rewrite app_nil_r; done).
    rewrite Ht, (it_Seek_at _ _ _ _ Hok _ Hm). eexists. split; [done |]. rewrite <- below_lower by done. split; [done |]. split; [done |].
    rewrite (below_above (KeyComparator C) l (EncodeKey t)) at 2. rewrite length_app. lia.
  - done.
Qed.
End Table.

(** The iterator of a memtable walks its history in the order of internal keys. *)
Lemma memtable_iterates m h : mem_ok C valid m h -> ∃ es R, es ≡ₚ h /\ sorted_pairs (C := CI) (valid_ikey valid) (entry_pair <$> es) /\
  iterates (C := CI) (H := MemTableIterator_Iterator ndebug C) (valid_ikey valid) R (entry_pair <$> es) /\ R (length es) (MemTable_NewIterator m).
Proof.
  intros Hm. destruct (mem_entries m h Hm) as (l & es & Hok & Hl & Hp). assert (Forall (valid_entry valid) es) as Hes by (rewrite Hp; apply Hm).
  exists es, (mem_at m l). split; [done |]. split; [by apply (mem_sorted m l es) |]. split; [by apply mem_iterates |].
  pose proof (es_length l es Hl) as El. split; [done |]. split; [| lia]. unfold it_at. by rewrite lookup_ge_None_2 by lia.
Qed.
End Props.
