(* ===== verification/DbIter.v ===== *)
(** * The iterator of a database ([leveldb/db/db_iter.cc])

    An iterator over user keys on top of one over internal keys: of the entries of a key it shows the newest one that the
    snapshot sees, unless that one is a deletion. *)
From S2P Require Import Prelude Status Keys Random Comparator Iterator Merger.

Definition kReadBytesPeriod : Z := 1048576.

(** What the iterator calls on its database; the pointer may be null. *)
Class ReadSampler (D : Type) := { RecordReadSample : Slice -> D -> D }.
#[global] Instance unit_sampler : ReadSampler unit := { RecordReadSample _ d := d }.

Record DBIter (I D : Type) := MkDBIter {
  db_ : option D; iter_ : I; dbi_sequence : Z;
  dbi_status : Status; saved_key_ : Slice; saved_value_ : Slice; dbi_direction : Direction; valid_ : bool;
  rnd_ : Z; bytes_counter_ : Z
}.
Arguments MkDBIter {I D}. Arguments db_ {I D}. Arguments iter_ {I D}. Arguments dbi_sequence {I D}. Arguments dbi_status {I D}.
Arguments saved_key_ {I D}. Arguments saved_value_ {I D}. Arguments dbi_direction {I D}. Arguments valid_ {I D}.
Arguments rnd_ {I D}. Arguments bytes_counter_ {I D}.

Section DBIter.
Context {I D : Type} `{Iterator I} `{ReadSampler D} (C : Comparator) (ndebug : bool).
(** [C] is the comparator of user keys; the fuel bounds the internal entries a call passes. *)
Context (fuel : nat).
Implicit Types (it : DBIter I D).

(** The assignments to the fields. *)
Definition set_iter (i : I) it : DBIter I D :=
  MkDBIter (db_ it) i (dbi_sequence it) (dbi_status it) (saved_key_ it) (saved_value_ it) (dbi_direction it) (valid_ it) (rnd_ it) (bytes_counter_ it).
Definition set_dbi_status (s : Status) it : DBIter I D :=
  MkDBIter (db_ it) (iter_ it) (dbi_sequence it) s (saved_key_ it) (saved_value_ it) (dbi_direction it) (valid_ it) (rnd_ it) (bytes_counter_ it).
Definition set_saved_key (k : Slice) it : DBIter I D :=
  MkDBIter (db_ it) (iter_ it) (dbi_sequence it) (dbi_status it) k (saved_value_ it) (dbi_direction it) (valid_ it) (rnd_ it) (bytes_counter_ it).
Definition set_saved_value (v : Slice) it : DBIter I D :=
  MkDBIter (db_ it) (iter_ it) (dbi_sequence it) (dbi_status it) (saved_key_ it) v (dbi_direction it) (valid_ it) (rnd_ it) (bytes_counter_ it).
Definition set_direction (d : Direction) it : DBIter I D :=
  MkDBIter (db_ it) (iter_ it) (dbi_sequence it) (dbi_status it) (saved_key_ it) (saved_value_ it) d (valid_ it) (rnd_ it) (bytes_counter_ it).
Definition set_valid (v : bool) it : DBIter I D :=
  MkDBIter (db_ it) (iter_ it) (dbi_sequence it) (dbi_status it) (saved_key_ it) (saved_value_ it) (dbi_direction it) v (rnd_ it) (bytes_counter_ it).
Definition set_sampling (db : option D) (rnd counter : Z) it : DBIter I D :=
  MkDBIter db (iter_ it) (dbi_sequence it) (dbi_status it) (saved_key_ it) (saved_value_ it) (dbi_direction it) (valid_ it) rnd counter.
Definition ClearSavedValue it : DBIter I D := set_saved_value [] it.

Definition RandomPeriod (rnd : Z) : Z * Z := Random_Uniform (2 * kReadBytesPeriod) rnd.
Definition new_DBIter (db : option D) (iter : I) (s seed : Z) : DBIter I D :=
  let rnd := new_Random seed in
  let '(period, rnd) := RandomPeriod rnd in
  MkDBIter db iter s OK [] [] kForward false rnd period.

(** The loop of [ParseKey]; two periods in a row are never both 0. *)
Fixpoint sample_loop (fuel : nat) (k : Slice) (db : option D) (rnd counter : Z) : option (option D * Z * Z) :=
  if counter <? 0 then
    match fuel with
    | O => None
    | S fuel => let '(period, rnd) := RandomPeriod rnd in sample_loop fuel k (RecordReadSample k <$> db) rnd (counter + period)
    end
  else Some (db, rnd, counter).
Definition ParseKey it : option (option ParsedInternalKey * DBIter I D) :=
  k ← key (iter_ it);
  v ← value (iter_ it);
  let counter := bytes_counter_ it - (|[k]| + |[v]|) in
  '(db, rnd, counter) ← sample_loop (Z.to_nat (2 * - counter)) k (db_ it) (rnd_ it) counter;
  let it := set_sampling db rnd counter it in
  match ParseInternalKey k with
  | None => Some (None, set_dbi_status (Err kCorruption "corrupted internal key in DBIter") it)
  | Some ikey => Some (Some ikey, it)
  end.
(** [ParseKey(&ikey) && ikey.sequence <= sequence_]. *)
Definition parse_visible it : option (option ParsedInternalKey * DBIter I D) :=
  '(parsed, it) ← ParseKey it;
  Some (match parsed with Some ikey => if sequence ikey <=? dbi_sequence it then Some ikey else None | None => None end, it).

Fixpoint FindNextUserEntry_loop (fuel : nat) (skipping : bool) it : option (DBIter I D) :=
  match fuel with
  | O => None
  | S fuel =>
      '(hit, it) ← parse_visible it;
      '(found, skipping, it) ←
        match hit with
        | Some ikey =>
            match type ikey with
            | kTypeDeletion => Some (false, true, set_saved_key (user_key ikey) it)
            | kTypeValue =>
                hidden ← (if skipping then r ← Compare (user_key ikey) (saved_key_ it); Some (negb (bool_decide (r = Gt))) else Some false);
                if (hidden : bool) then Some (false, skipping, it) else Some (true, skipping, set_saved_key [] (set_valid true it))
            end
        | None => Some (false, skipping, it)
        end;
      if (found : bool) then Some it
      else
        i ← Next (iter_ it);
        let it := set_iter i it in
        if Valid i then FindNextUserEntry_loop fuel skipping it else Some (set_valid false (set_saved_key [] it))
  end.
(** [skip] always points to [saved_key_]. *)
Definition FindNextUserEntry (skipping : bool) it : option (DBIter I D) :=
  _ ← assert_ ndebug (Valid (iter_ it));
  _ ← assert_ ndebug (bool_decide (dbi_direction it = kForward));
  FindNextUserEntry_loop fuel skipping it.

(** The loop ends with the type of the last entry it kept. *)
Fixpoint FindPrevUserEntry_loop (fuel : nat) (value_type : ValueType) it : option (ValueType * DBIter I D) :=
  match fuel with
  | O => None
  | S fuel =>
      '(hit, it) ← parse_visible it;
      '(stop, value_type, it) ←
        match hit with
        | Some ikey =>
            earlier ← (if decide (value_type = kTypeDeletion) then Some false
                       else r ← Compare (user_key ikey) (saved_key_ it); Some (bool_decide (r = Lt)));
            if (earlier : bool) then Some (true, value_type, it)
            else
              match type ikey with
              | kTypeDeletion => Some (false, kTypeDeletion, ClearSavedValue (set_saved_key [] it))
              | kTypeValue =>
                  raw_value ← value (iter_ it);
                  k ← key (iter_ it); u ← ExtractUserKey k;
                  Some (false, kTypeValue, set_saved_value raw_value (set_saved_key u it))
              end
        | None => Some (false, value_type, it)
        end;
      if (stop : bool) then Some (value_type, it)
      else
        i ← Prev (iter_ it);
        let it := set_iter i it in
        if Valid i then FindPrevUserEntry_loop fuel value_type it else Some (value_type, it)
  end.
Definition FindPrevUserEntry it : option (DBIter I D) :=
  _ ← assert_ ndebug (bool_decide (dbi_direction it = kReverse));
  '(value_type, it) ← (if Valid (iter_ it) then FindPrevUserEntry_loop fuel kTypeDeletion it else Some (kTypeDeletion, it));
  Some (match value_type with
        | kTypeDeletion => set_direction kForward (ClearSavedValue (set_saved_key [] (set_valid false it)))
        | kTypeValue => set_valid true it
        end).

Definition DBIter_key it : option Slice :=
  _ ← assert_ ndebug (valid_ it);
  if decide (dbi_direction it = kForward) then k ← key (iter_ it); ExtractUserKey k else Some (saved_key_ it).
Definition DBIter_value it : option Slice :=
  _ ← assert_ ndebug (valid_ it);
  if decide (dbi_direction it = kForward) then value (iter_ it) else Some (saved_value_ it).
Definition DBIter_status it : Status := if ok (dbi_status it) then status (iter_ it) else dbi_status it.

Definition DBIter_Next it : option (DBIter I D) :=
  _ ← assert_ ndebug (valid_ it);
  if decide (dbi_direction it = kReverse) then
    let it := set_direction kForward it in
    i ← (if negb (Valid (iter_ it)) then SeekToFirst (iter_ it) else Next (iter_ it));
    let it := set_iter i it in
    if negb (Valid i) then Some (set_saved_key [] (set_valid false it)) else FindNextUserEntry true it
  else
    k ← key (iter_ it); u ← ExtractUserKey k;
    FindNextUserEntry true (set_saved_key u it).

(** The loop that leaves the entries of the current key; the iterator may run off its start. *)
Fixpoint leave_key (fuel : nat) it : option (bool * DBIter I D) :=
  match fuel with
  | O => None
  | S fuel =>
      i ← Prev (iter_ it);
      let it := set_iter i it in
      if negb (Valid i) then Some (false, ClearSavedValue (set_saved_key [] (set_valid false it)))
      else
        k ← key i; u ← ExtractUserKey k; r ← Compare u (saved_key_ it);
        if bool_decide (r = Lt) then Some (true, it) else leave_key fuel it
  end.
Definition DBIter_Prev it : option (DBIter I D) :=
  _ ← assert_ ndebug (valid_ it);
  if decide (dbi_direction it = kForward) then
    _ ← assert_ ndebug (Valid (iter_ it));
    k ← key (iter_ it); u ← ExtractUserKey k;
    '(moved, it) ← leave_key fuel (set_saved_key u it);
    if (moved : bool) then FindPrevUserEntry (set_direction kReverse it) else Some it
  else FindPrevUserEntry it.

Definition DBIter_Seek (target : Slice) it : option (DBIter I D) :=
  let it := ClearSavedValue (set_direction kForward it) in
  k ← AppendInternalKey ndebug [] (MkParsed target (dbi_sequence it) kValueTypeForSeek);
  i ← Seek k (iter_ it);
  let it := set_iter i (set_saved_key k it) in
  if Valid i then FindNextUserEntry false it else Some (set_valid false it).
Definition DBIter_SeekToFirst it : option (DBIter I D) :=
  let it := ClearSavedValue (set_direction kForward it) in
  i ← SeekToFirst (iter_ it);
  let it := set_iter i it in
  if Valid i then FindNextUserEntry false it else Some (set_valid false it).
Definition DBIter_SeekToLast it : option (DBIter I D) :=
  let it := ClearSavedValue (set_direction kReverse it) in
  i ← SeekToLast (iter_ it);
  FindPrevUserEntry (set_iter i it).

#[export] Instance DBIter_Iterator : Iterator (DBIter I D) := {
  Valid := valid_; SeekToFirst := DBIter_SeekToFirst; SeekToLast := DBIter_SeekToLast; Seek := DBIter_Seek;
  Next := DBIter_Next; Prev := DBIter_Prev; key := DBIter_key; value := DBIter_value; status := DBIter_status
}.
End DBIter.
