(* ===== verification/DbIterProps.v ===== *)
(** * The iterator of a database shows the view of its snapshot

    The entries of the internal iterator are a history; the iterator walks the keys that the snapshot sees with their values, in
    either direction and from every seek. *)
From stdpp Require Import sorting.
From S2P Require Import Prelude Status Keys Coding Random Comparator Iterator.
From S2P Require Import History MemTable MemTableProps MemIter Merger DbIter.

(** ** The loop over periods ends *)
Lemma periods_apart rnd : random_state rnd -> fst (RandomPeriod rnd) = 0 -> 0 < fst (RandomPeriod (snd (RandomPeriod rnd))).
Proof.
  intros Hr. destruct (Random_Next_mod rnd Hr) as [_ Hs]. unfold RandomPeriod, Random_Uniform. cbn [fst snd]. set (x := Random_Next rnd) in *. clearbody x.
  unfold random_state in Hs. change (2 * kReadBytesPeriod) with 2097152. intros Hz. apply Z.mod_divide in Hz as [a Ea]; [| lia].
  assert (1 <= a <= 1023) as Ha by lia. subst x.
  assert (forallb (λ a, 0 <? Random_Next (Z.of_nat a * 2097152) mod 2097152) (seq 1 1023) = true) as Hall by (vm_compute; reflexivity).
  rewrite forallb_forall in Hall. specialize (Hall (Z.to_nat a)). rewrite Z2Nat.id in Hall by lia. apply Z.ltb_lt, Hall. apply in_seq. lia.
Qed.
Lemma RandomPeriod_ok rnd : random_state rnd -> random_state (snd (RandomPeriod rnd)) /\ 0 <= fst (RandomPeriod rnd).
Proof.
  intros Hr. destruct (Random_Next_mod rnd Hr) as [_ Hs]. unfold RandomPeriod, Random_Uniform. cbn [fst snd]. split; [done |].
  apply Z.mod_pos_bound. done.
Qed.

Lemma sample_loop_ok {D} `{ReadSampler D} k : ∀ fuel (db : option D) rnd counter, random_state rnd -> 2 * - counter <= Z.of_nat fuel ->
  ∃ db' rnd' counter', sample_loop fuel k db rnd counter = Some (db', rnd', counter') /\ random_state rnd' /\ 0 <= counter'.
Proof.
  assert (∀ fuel (db : option D) rnd counter, random_state rnd -> (2 * - counter <= Z.of_nat fuel \/ (2 * - counter <= Z.of_nat fuel + 1 /\ 0 < fst (RandomPeriod rnd))) ->
    ∃ db' rnd' counter', sample_loop fuel k db rnd counter = Some (db', rnd', counter') /\ random_state rnd' /\ 0 <= counter') as Hall; [| intros; apply Hall; auto].
  induction fuel as [| fuel IH]; intros db rnd counter Hr Hf; cbn [sample_loop]; destruct (Z.ltb_spec counter 0) as [Hlt | Hge]; try (by do 3 eexists).
  - lia.
  - destruct (RandomPeriod_ok rnd Hr) as [Hr' Hp]. pose proof (periods_apart rnd Hr) as Hap. destruct (RandomPeriod rnd) as [period rnd'] eqn:E. cbn [fst snd] in *.
    apply IH; [done |]. destruct (Z.eq_dec period 0) as [-> | Hne]; [right; split; [lia | by apply Hap] | left; lia].
Qed.

(** ** What a snapshot sees *)
Section View.
Context {C : Comparator} (s : Z).
Implicit Types (es pre : list Entry) (e : Entry).

Definition visible e : bool := e_seq e <=? s.
Definition earlier pre e : bool := existsb (λ e', visible e' && same_key (e_key e') (e_key e)) pre.
(** The first visible entry of its key, and a value. *)
Definition shown pre e : bool := visible e && bool_decide (e_type e = kTypeValue) && negb (earlier pre e).
Fixpoint user_pairs pre es : Pairs :=
  match es with
  | [] => []
  | e :: es => (if shown pre e then [(e_key e, e_value e)] else []) ++ user_pairs (pre ++ [e]) es
  end.

Lemma user_pairs_app es1 : ∀ pre es2, user_pairs pre (es1 ++ es2) = user_pairs pre es1 ++ user_pairs (pre ++ es1) es2.
Proof.
  induction es1 as [| e es1 IH]; intros pre es2; cbn [app user_pairs]; [by rewrite app_nil_r |].
  rewrite IH, <- !app_assoc. done.
Qed.
Lemma earlier_spec pre e : earlier pre e = true <-> ∃ e', e' ∈ pre /\ visible e' = true /\ same_key (e_key e') (e_key e) = true.
Proof.
  unfold earlier. rewrite existsb_exists. setoid_rewrite andb_true_iff. setoid_rewrite list_elem_of_In. done.
Qed.
End View.

Section Props.
Context {C : Comparator} {valid : Slice -> Prop} `{HC : !ComparatorLaws C valid} {I D : Type} `{HiI : Iterator I} `{HiD : ReadSampler D} (ndebug : bool).
Local Abbreviation CI := (InternalKeyComparator ndebug C).
Context (es : list Entry) (s : Z) (RI : nat -> I -> Prop) (fuel : nat).
Hypothesis Hes : Forall (λ e, valid (e_key e) /\ word 56 (e_seq e)) es.
Hypothesis Hsorted : sorted_pairs (C := CI) (valid_ikey valid) (entry_pair <$> es).
Hypothesis Hs : word 56 s.
Hypothesis HI : iterates (C := CI) (valid_ikey valid) RI (entry_pair <$> es).
Hypothesis Hfuel : (length es < fuel)%nat.
Implicit Types (e : Entry) (it : DBIter I D).
Local Abbreviation visible := (visible s).
Local Abbreviation ul := (user_pairs s [] es).

Lemma at_valid i e : es !! i = Some e -> valid (e_key e) /\ word 56 (e_seq e).
Proof. intros E. exact (proj1 (list.Forall_lookup _ _) Hes _ _ E). Qed.
Lemma at_tag i e : es !! i = Some e -> word 64 (tag (e_seq e) (e_type e)).
Proof. intros E. apply tag_word. by eapply at_valid. Qed.
Lemma at_ikey i e : es !! i = Some e -> valid_ikey valid (entry_pair e).1.
Proof. intros E. eexists _, _. split; [reflexivity |]. split; [by eapply at_valid | by eapply at_tag]. Qed.

(** Keys do not decrease along the entries. *)
Lemma key_le i j e e' : es !! i = Some e -> es !! j = Some e' -> (i <= j)%nat -> Compare (e_key e) (e_key e') <> Some Gt.
Proof.
  intros Ei Ej Hij. destruct (decide (i = j)) as [-> | Hne].
  - rewrite Ei in Ej. injection Ej as ->. rewrite cmp_refl; [done |]. by eapply at_valid.
  - assert ((entry_pair <$> es) !! i = Some (entry_pair e)) as Ei' by by rewrite list_lookup_fmap, Ei.
    assert ((entry_pair <$> es) !! j = Some (entry_pair e')) as Ej' by by rewrite list_lookup_fmap, Ej.
    pose proof (sorted_pairs_lookup (C := CI) _ i j _ _ Hsorted Ei' Ej' ltac:(lia)) as Hc. cbn in Hc.
    unfold entry_key in Hc. rewrite InternalKey_Compare_ikey in Hc by by eapply at_tag. intros E. by rewrite E in Hc.
Qed.
Lemma key_sandwich i j k ei ej ek : es !! i = Some ei -> es !! j = Some ej -> es !! k = Some ek -> (i <= j <= k)%nat ->
  same_key (e_key ei) (e_key ek) = true -> same_key (e_key ei) (e_key ej) = true /\ same_key (e_key ej) (e_key ek) = true.
Proof.
  intros Ei Ej Ek Hij. unfold same_key. rewrite !bool_decide_eq_true. intros E. pose proof (key_le i j _ _ Ei Ej ltac:(lia)) as H1. pose proof (key_le j k _ _ Ej Ek ltac:(lia)) as H2.
  destruct (at_valid _ _ Ei) as [Vi _], (at_valid _ _ Ej) as [Vj _], (at_valid _ _ Ek) as [Vk _].
  destruct (cmp_some (e_key ei) (e_key ej) Vi Vj) as [[] E1]; [| | congruence].
  - split; [done |]. apply (cmp_eq (e_key ej) (e_key ei) (e_key ek)); [done.. | | done]. exact (cmp_flip _ _ _ Vi Vj E1).
  - pose proof (cmp_lt_le_trans _ _ _ Vi Vj Vk E1 H2). congruence.
Qed.

(** ** Places of the entries among the shown pairs *)
Definition cnt (j : nat) : nat := length (user_pairs s [] (take j es)).
Definition shown_at (j : nat) e : Prop := es !! j = Some e /\ shown s (take j es) e = true.

Lemma cnt_S j e : es !! j = Some e -> cnt (S j) = (cnt j + if shown s (take j es) e then 1 else 0)%nat.
Proof.
  intros E. unfold cnt. rewrite (take_S_r es j e E), user_pairs_app, length_app. cbn [app user_pairs]. rewrite app_nil_r. by destruct (shown _ _ _).
Qed.
Lemma cnt_0 : cnt 0 = 0%nat.
Proof. done. Qed.
Lemma cnt_all : cnt (length es) = length ul.
Proof. unfold cnt. by rewrite take_ge. Qed.
Lemma ul_at j : ul = user_pairs s [] (take j es) ++ user_pairs s (take j es) (drop j es).
Proof. rewrite <- (take_drop j es) at 1. by rewrite user_pairs_app. Qed.
Lemma ul_shown j e : shown_at j e -> ul !! cnt j = Some (e_key e, e_value e).
Proof.
  intros [E Hsh]. rewrite (ul_at j). unfold cnt. rewrite lookup_app_r, Nat.sub_diag by lia.
  rewrite <- (take_drop_middle es j e E) at 2. rewrite drop_app_ge, length_take_le by (rewrite ?length_take; apply lookup_lt_Some in E; lia).
  rewrite Nat.sub_diag. cbn [drop user_pairs]. by rewrite Hsh.
Qed.
Lemma cnt_lt j e : shown_at j e -> (cnt j < length ul)%nat.
Proof. intros H. eapply lookup_lt_Some. by apply ul_shown. Qed.
Lemma cnt_same a b : (a <= b <= length es)%nat -> (∀ i e, (a <= i < b)%nat -> es !! i = Some e -> shown s (take i es) e = false) -> cnt b = cnt a.
Proof.
  intros Hab Hn. induction b as [| b IH]; [by replace a with 0%nat by lia |]. destruct (decide (a = S b)) as [-> | Hne]; [done |].
  destruct (lookup_lt_is_Some_2 es b ltac:(lia)) as [e E]. rewrite (cnt_S b e E), (Hn b e) by (done || lia). rewrite Nat.add_0_r.
  apply IH; [lia |]. intros i e' Hi. apply Hn. lia.
Qed.
Lemma hidden_not_shown pre e : visible e = false -> shown s pre e = false.
Proof. intros E. unfold shown. by rewrite E. Qed.
Lemma deletion_not_shown pre e : e_type e = kTypeDeletion -> shown s pre e = false.
Proof. intros E. unfold shown. rewrite E. by rewrite andb_false_r. Qed.
Lemma earlier_at j e : earlier s (take j es) e = true <-> ∃ i e', (i < j)%nat /\ es !! i = Some e' /\ visible e' = true /\ same_key (e_key e') (e_key e) = true.
Proof.
  rewrite earlier_spec. split.
  - intros (e' & Hin & Hv & Hk). apply list_elem_of_lookup in Hin as [i Ei]. apply lookup_take_Some in Ei as [Ei Hi]. by exists i, e'.
  - intros (i & e' & Hi & Ei & Hv & Hk). exists e'. split; [| done]. apply list_elem_of_lookup. exists i. by rewrite lookup_take_lt.
Qed.
Lemma shown_intro j e : es !! j = Some e -> visible e = true -> e_type e = kTypeValue ->
  (∀ i e', (i < j)%nat -> es !! i = Some e' -> visible e' = true -> same_key (e_key e') (e_key e) = true -> False) -> shown_at j e.
Proof.
  intros E Hv Ht Hn. split; [done |]. unfold shown. rewrite Hv, bool_decide_true by done. cbn [andb]. apply negb_true_iff.
  apply not_true_iff_false. rewrite earlier_at. intros (i & e' & Hi & Ei & Hv' & Hk). by apply (Hn i e').
Qed.
Lemma shown_elim j e : shown_at j e -> visible e = true /\ e_type e = kTypeValue /\
  ∀ i e', (i < j)%nat -> es !! i = Some e' -> visible e' = true -> same_key (e_key e') (e_key e) = true -> False.
Proof.
  intros [E Hsh]. unfold shown in Hsh. apply andb_true_iff in Hsh as [Hsh He]. apply andb_true_iff in Hsh as [Hv Ht]. apply bool_decide_eq_true in Ht.
  split_and!; [done.. |]. intros i e' Hi Ei Hv' Hk. apply negb_true_iff, not_true_iff_false in He. apply He. apply earlier_at. by exists i, e'.
Qed.

(** ** States *)
Record common it : Prop := {
  co_sequence : dbi_sequence it = s;
  co_status : ok (dbi_status it) = true;
  co_rnd : random_state (rnd_ it);
  co_counter : 0 <= bytes_counter_ it
}.
Definition at_entry (j : nat) it : Prop := common it /\ RI j (iter_ it).
(** Moving back, the internal iterator is before the entries of the key, with no visible one in between. *)
Definition next_place (p : nat) : nat := if decide (p < length es)%nat then S p else 0%nat.
Definition before (p m : nat) : Prop := (p = length es \/ (p < m)%nat) /\ ∀ i e, (next_place p <= i < m)%nat -> es !! i = Some e -> visible e = false.

Definition user_at (n : nat) it : Prop := (∃ j, at_entry j it) /\
  ((∃ j e, shown_at j e /\ n = cnt j /\ valid_ it = true /\ dbi_direction it = kForward /\ at_entry j it) \/
   (∃ j e p, shown_at j e /\ n = cnt j /\ valid_ it = true /\ dbi_direction it = kReverse /\ saved_key_ it = e_key e /\ saved_value_ it = e_value e /\
      at_entry p it /\ before p j) \/
   (n = length ul /\ valid_ it = false)).

Lemma ipair_at j e : es !! j = Some e -> (entry_pair <$> es) !! j = Some (entry_pair e).
Proof. intros E. by rewrite list_lookup_fmap, E. Qed.
Lemma internal_valid j it : at_entry j it -> Valid (iter_ it) = bool_decide (j < length es)%nat.
Proof. intros [_ Hj]. rewrite (iter_Valid HI j _ Hj). by rewrite length_fmap. Qed.
Lemma internal_key j e it : at_entry j it -> es !! j = Some e -> key (iter_ it) = Some (entry_pair e).1 /\ value (iter_ it) = Some (e_value e) /\
  ExtractUserKey (entry_pair e).1 = Some (e_key e).
Proof.
  intros [_ Hj] E%ipair_at. rewrite (iter_key HI j _ _ Hj E), (iter_value HI j _ _ Hj E). split_and!; [done.. | apply ExtractUserKey_ikey].
Qed.

Lemma parse_at j e it : at_entry j it -> es !! j = Some e -> ∃ db rnd counter,
  parse_visible it = Some (if visible e then Some (MkParsed (e_key e) (e_seq e) (e_type e)) else None, set_sampling db rnd counter it) /\
  at_entry j (set_sampling db rnd counter it).
Proof.
  intros Hj E. destruct (internal_key j e it Hj E) as (Ek & Ev & _). destruct Hj as [[Hq Hst Hr Hc] Hj].
  unfold parse_visible, ParseKey. rewrite Ek, Ev. cbn [mbind option_bind].
  set (counter := bytes_counter_ it - _).
  destruct (sample_loop_ok (entry_pair e).1 (Z.to_nat (2 * - counter)) (db_ it) (rnd_ it) counter Hr) as (db & rnd & c & Esl & Hr' & Hc'); [lia |].
  rewrite Esl. cbn [mbind option_bind]. exists db, rnd, c. cbn [entry_pair fst] in *. unfold entry_key at 1. rewrite ParseInternalKey_ikey by by eapply at_valid. cbn [mbind option_bind sequence set_sampling dbi_sequence].
  rewrite Hq. split; [done |]. split; [by split | done].
Qed.

Lemma internal_step j it : at_entry j it -> (j < length es)%nat ->
  (∃ i, Next (iter_ it) = Some i /\ RI (S j) i /\ Valid i = bool_decide (S j < length es)%nat) /\
  (∃ i, Prev (iter_ it) = Some i /\ RI (if decide (j = 0)%nat then length es else j - 1)%nat i /\ Valid i = negb (bool_decide (j = 0)%nat)).
Proof.
  intros [_ Hj] Hlt. assert (length (entry_pair <$> es) = length es) as El by by rewrite length_fmap.
  split.
  - destruct (iter_Next HI j _ Hj ltac:(lia)) as (i & E & Hi). exists i. split_and!; [done.. |]. rewrite (iter_Valid HI _ _ Hi). by rewrite El.
  - destruct (iter_Prev HI j _ Hj ltac:(lia)) as (i & E & Hi). rewrite El in Hi. exists i. split_and!; [done.. |]. rewrite (iter_Valid HI _ _ Hi), El.
    case_decide; subst; [by rewrite bool_decide_false, bool_decide_true by lia | by rewrite bool_decide_true, bool_decide_false by lia].
Qed.

(** ** Moving forward *)
(** Entries before [a] are hidden, and those behind are hidden when an earlier entry of their key is visible. *)
Record skips (j a : nat) (skipping : bool) (k : Slice) : Prop := {
  sk_range : (j <= a <= length es)%nat;
  sk_valid : skipping = true -> valid k;
  sk_hidden i e : (j <= i < a)%nat -> es !! i = Some e -> visible e = true -> e_type e = kTypeValue /\ skipping = true /\ Compare (e_key e) k <> Some Gt;
  sk_iff i e : (a <= i)%nat -> es !! i = Some e -> visible e = true ->
    (skipping = true /\ Compare (e_key e) k <> Some Gt) <-> ∃ i' e', (i' < a)%nat /\ es !! i' = Some e' /\ visible e' = true /\ same_key (e_key e') (e_key e) = true
}.

Lemma skips_invisible j a b k e : skips j a b k -> es !! j = Some e -> visible e = false -> skips (S j) (Nat.max a (S j)) b k /\ (a <= j -> cnt (S j) = cnt j)%nat.
Proof.
  intros [Hr Hv Hh Hi] E Hf. split; [| intros _; by rewrite (cnt_S j e E), hidden_not_shown, Nat.add_0_r].
  pose proof (lookup_lt_Some _ _ _ E). split; [lia | done | |].
  - intros i e' Hi' Ei. apply (Hh i e'); [| done]. destruct (decide (i < a)%nat); lia.
  - intros i e' Ha Ei Hve. rewrite (Hi i e' ltac:(lia) Ei Hve). split; intros (i' & e2 & Hlt & E2 & Hv2 & Hk).
    + exists i', e2. split_and!; [lia | done..].
    + exists i', e2. split_and!; [| done..]. destruct (decide (i' < a)%nat); [done |]. assert (i' = j) as -> by lia. congruence.
Qed.
Lemma skips_visible j b k e (k' : Slice) : skips j j b k -> es !! j = Some e -> visible e = true ->
  k' = e_key e \/ (k' = k /\ b = true /\ Compare (e_key e) k <> Some Gt) -> skips (S j) (S j) true k'.
Proof.
  intros [Hr Hv Hh Hi] E Hve Hk. pose proof (lookup_lt_Some _ _ _ E). destruct (at_valid _ _ E) as [Vj _]. split; [lia | | lia |].
  - intros _. destruct Hk as [-> | (-> & -> & _)]; [done | by apply Hv].
  - intros i e' Ha Ei Hvi. destruct (at_valid _ _ Ei) as [Vi _]. pose proof (key_le j i e e' E Ei ltac:(lia)) as Hle.
    assert (Compare (e_key e') (e_key e) <> Some Gt <-> same_key (e_key e) (e_key e') = true) as Hsame.
    { unfold same_key. rewrite bool_decide_eq_true. destruct (cmp_some (e_key e) (e_key e') Vj Vi) as [r Er]. rewrite (cmp_flip _ _ r Vj Vi Er), Er. rewrite Er in Hle.
      destruct r; cbn; split; congruence. }
    split.
    + intros [_ Hle']. destruct Hk as [-> | (-> & -> & Hek)].
      * exists j, e. split_and!; [lia | done | done | by apply Hsame].
      * destruct (Hi i e' ltac:(lia) Ei Hvi) as [Hi1 _]. destruct (Hi1 (conj eq_refl Hle')) as (i' & e2 & ? & ? & ? & ?). exists i', e2. split_and!; [lia | done..].
    + intros (i' & e2 & Hlt & E2 & Hv2 & Hk2). split; [done |].
      assert (same_key (e_key e) (e_key e') = true) as Hje by (destruct (key_sandwich i' j i e2 e e' E2 E Ei ltac:(lia) Hk2); done).
      destruct Hk as [-> | (-> & -> & Hek)]; [by apply Hsame |].
      destruct (decide (i' < j)%nat) as [Hi' |]; [apply (Hi i e' ltac:(lia) Ei Hvi); by exists i', e2 |].
      unfold same_key in Hje. apply bool_decide_eq_true in Hje. intros E'.
      apply Hek. apply (cmp_eq (e_key e) (e_key e') k); [done | done | by apply Hv | done | done].
Qed.

Lemma next_loop n : ∀ j a b it, at_entry j it -> (j < length es)%nat -> (length es < n + j)%nat -> dbi_direction it = kForward -> skips j a b (saved_key_ it) ->
  ∃ it', FindNextUserEntry_loop C n b it = Some it' /\ user_at (cnt a) it'.
Proof.
  induction n as [| n IH]; intros j a b it Hj Hlt Hn Hd Hsk; [lia |]. cbn [FindNextUserEntry_loop].
  destruct (lookup_lt_is_Some_2 es j Hlt) as [e E]. destruct (parse_at j e it Hj E) as (db & rnd & c & -> & Hj1). cbn [mbind option_bind].
  set (it1 := set_sampling db rnd c it) in *.
  (* the end of the round *)
  assert (∀ a' b' it2, at_entry j it2 -> dbi_direction it2 = kForward -> skips (S j) a' b' (saved_key_ it2) -> ∃ it',
    (i ← Next (iter_ it2); if Valid i then FindNextUserEntry_loop C n b' (set_iter i it2) else Some (set_valid false (set_saved_key [] (set_iter i it2)))) = Some it' /\ user_at (cnt a') it') as Hend.
  { intros a' b' it2 Hj2 Hd2 Hsk2. destruct (internal_step j it2 Hj2 Hlt) as [(i & Ei & Hi & Hv) _]. rewrite Ei. cbn [mbind option_bind]. rewrite Hv. destruct Hj2 as [[] _].
    case_bool_decide as Hlt'.
    - apply (IH (S j)); [split; [by split | done] | done | lia | done | done].
    - eexists. split; [done |]. pose proof (sk_range _ _ _ _ Hsk2). split; [exists (S j); split; [by split | done] |]. right. right. split; [| done].
      assert (a' = length es) as -> by lia. apply cnt_all. }
  destruct (visible e) eqn:Hve.
  2: { destruct (skips_invisible j a b _ e Hsk E Hve) as [Hsk' Hcnt]. cbn [mbind option_bind].
       destruct (Hend (Nat.max a (S j)) b it1 Hj1 Hd Hsk') as (it' & E' & Hit'). exists it'. split; [exact E' |].
       pose proof (sk_range _ _ _ _ Hsk). destruct (decide (j < a)%nat); [by rewrite Nat.max_l in Hit' by lia |].
       assert (a = j) as -> by lia. rewrite Nat.max_r, Hcnt in Hit' by lia. done. }
  cbn [type user_key]. destruct (decide (j < a)%nat) as [Hja | Hja].
  { destruct (sk_hidden _ _ _ _ Hsk j e ltac:(lia) E Hve) as (-> & -> & Hle). destruct (at_valid _ _ E) as [Vj _].
    destruct (cmp_some (e_key e) (saved_key_ it) Vj (sk_valid _ _ _ _ Hsk eq_refl)) as [r Er]. change (saved_key_ it1) with (saved_key_ it). rewrite Er in *. cbn [mbind option_bind].
    rewrite bool_decide_false by congruence. cbn [negb mbind option_bind].
    destruct (Hend a true it1 Hj1 Hd) as (it' & E' & Hit'); [| by exists it'].
    destruct Hsk as [Hr Hv Hh Hi]. split; [lia | done | intros i e' Hi'; apply (Hh i e'); lia | exact Hi]. }
  assert (a = j) as -> by (pose proof (sk_range _ _ _ _ Hsk); lia). destruct (e_type e) eqn:Ht.
  { cbn [mbind option_bind]. destruct (Hend (S j) true (set_saved_key (e_key e) it1)) as (it' & E' & Hit'); [destruct Hj1 as [[] ?]; split; [by split | done] | done | |].
    - apply (skips_visible j b _ e (e_key e) Hsk E Hve). by left.
    - exists it'. split; [exact E' |]. by rewrite (cnt_S j e E), deletion_not_shown, Nat.add_0_r in Hit'. }
  assert (∃ hidden, (if b then r ← Compare (e_key e) (saved_key_ it1); Some (negb (bool_decide (r = Gt))) else Some false) = Some hidden /\
    (hidden = true <-> b = true /\ Compare (e_key e) (saved_key_ it) <> Some Gt)) as (hidden & -> & Hh).
  { destruct b; [| eexists; split; [done |]; split; [done | by intros [? _]]]. destruct (at_valid _ _ E) as [Vj _].
    destruct (cmp_some (e_key e) (saved_key_ it) Vj (sk_valid _ _ _ _ Hsk eq_refl)) as [r Er]. change (saved_key_ it1) with (saved_key_ it). rewrite Er. cbn [mbind option_bind].
    eexists. split; [done |]. rewrite negb_true_iff, bool_decide_eq_false. split; [intros; split; congruence | intros [_ ?]; congruence]. }
  cbn [mbind option_bind]. destruct hidden.
  - cbn [mbind option_bind]. destruct (proj1 Hh eq_refl) as [Hb Hle]. subst b. destruct (Hend (S j) true it1 Hj1 Hd) as (it' & E' & Hit').
    + apply (skips_visible j true _ e (saved_key_ it) Hsk E Hve). right. done.
    + exists it'. split; [exact E' |]. rewrite (cnt_S j e E) in Hit'. unfold shown in Hit'.
      assert (earlier s (take j es) e = true) as He by (apply earlier_at, (sk_iff _ _ _ _ Hsk j e); done).
      rewrite He, andb_false_r, Nat.add_0_r in Hit'. done.
  - cbn [mbind option_bind]. eexists. split; [done |]. destruct Hj1 as [[] Hj1]. assert (at_entry j (set_saved_key [] (set_valid true it1))) as Hj2 by (split; [by split | done]).
    split; [by exists j |]. left. exists j, e. split_and!; try done. apply (shown_intro j e); [done.. |]. intros i' e' Hi' Ei' Hv' Hk.
    assert (b = true /\ Compare (e_key e) (saved_key_ it) <> Some Gt) as Hbad by (apply (sk_iff _ _ _ _ Hsk j e); [lia | done | done |]; by exists i', e').
    by apply Hh in Hbad.
Qed.

Lemma FindNext_ok j a b it : at_entry j it -> (j < length es)%nat -> dbi_direction it = kForward -> skips j a b (saved_key_ it) ->
  ∃ it', FindNextUserEntry C ndebug fuel b it = Some it' /\ user_at (cnt a) it'.
Proof.
  intros Hj Hlt Hd Hsk. unfold FindNextUserEntry. rewrite (internal_valid j it Hj), (bool_decide_true (j < _)%nat), assert_true by done.
  cbn [mbind option_bind]. rewrite bool_decide_true, assert_true by done. cbn [mbind option_bind]. apply (next_loop fuel j a b it Hj Hlt ltac:(lia) Hd Hsk).
Qed.

(** ** Moving back *)
(** The candidate [m] among the entries from [a] on, for the pair before the place [J]; [vt] says whether there is one. *)
Definition candidate (a J : nat) (vt : ValueType) (k v : Slice) : Prop :=
  match vt with
  | kTypeDeletion => cnt J = cnt a
  | kTypeValue => ∃ m e, (a <= m < J)%nat /\ es !! m = Some e /\ visible e = true /\ e_type e = kTypeValue /\ k = e_key e /\ v = e_value e /\
      (∀ i e', (a <= i < m)%nat -> es !! i = Some e' -> visible e' = false) /\ cnt J = cnt (S m)
  end.
(** What the loop leaves. *)
Definition prev_result (J : nat) (vt : ValueType) it : Prop :=
  match vt with
  | kTypeDeletion => cnt J = 0%nat /\ ∃ p, at_entry p it
  | kTypeValue => ∃ m e p, shown_at m e /\ cnt J = S (cnt m) /\ saved_key_ it = e_key e /\ saved_value_ it = e_value e /\ at_entry p it /\ before p m
  end.

Lemma candidate_shown a J m e : es !! m = Some e -> visible e = true -> e_type e = kTypeValue -> (a <= m)%nat ->
  (∀ i e', (a <= i < m)%nat -> es !! i = Some e' -> visible e' = false) ->
  (∀ i e', (i < a)%nat -> es !! i = Some e' -> visible e' = true -> same_key (e_key e') (e_key e) = true -> False) ->
  cnt J = cnt (S m) -> shown_at m e /\ cnt J = S (cnt m).
Proof.
  intros E Hv Ht Ha Hinv Hbelow HJ. assert (shown_at m e) as Hsh.
  { apply shown_intro; [done.. |]. intros i e' Hi Ei Hv'. destruct (decide (i < a)%nat); [by apply (Hbelow i e') |]. by rewrite (Hinv i e') in Hv' by (done || lia). }
  split; [done |]. rewrite HJ, (cnt_S m e E). destruct Hsh as [_ ->]. lia.
Qed.

Lemma prev_loop n : ∀ j vt J it, at_entry j it -> (j < length es)%nat -> (j < n)%nat -> (j < J <= length es)%nat -> dbi_direction it = kReverse ->
  candidate (S j) J vt (saved_key_ it) (saved_value_ it) ->
  ∃ vt' it', FindPrevUserEntry_loop C n vt it = Some (vt', it') /\ dbi_direction it' = kReverse /\ valid_ it' = valid_ it /\ prev_result J vt' it'.
Proof.
  induction n as [| n IH]; intros j vt J it Hj Hlt Hn HJ Hd Hc; [lia |]. cbn [FindPrevUserEntry_loop].
  destruct (lookup_lt_is_Some_2 es j Hlt) as [e E]. destruct (parse_at j e it Hj E) as (db & rnd & c & -> & Hj1). cbn [mbind option_bind].
  set (it1 := set_sampling db rnd c it) in *. destruct (at_valid _ _ E) as [Vj _].
  (* the end of the round *)
  assert (∀ vt2 it2, at_entry j it2 -> dbi_direction it2 = kReverse -> valid_ it2 = valid_ it -> candidate j J vt2 (saved_key_ it2) (saved_value_ it2) -> ∃ vt' it',
    (i ← Prev (iter_ it2); if Valid i then FindPrevUserEntry_loop C n vt2 (set_iter i it2) else Some (vt2, set_iter i it2)) = Some (vt', it') /\
    dbi_direction it' = kReverse /\ valid_ it' = valid_ it /\ prev_result J vt' it') as Hend.
  { intros vt2 it2 Hj2 Hd2 Hval2 Hc2. destruct (internal_step j it2 Hj2 Hlt) as [_ (i & Ei & Hi & Hv)]. rewrite Ei. cbn [mbind option_bind]. rewrite Hv. destruct Hj2 as [[] _].
    case_bool_decide as Hj0; cbn [negb].
    - subst j. rewrite decide_True in Hi by done. do 2 eexists. split; [done |]. split; [done |]. split; [done |].
      assert (at_entry (length es) (set_iter i it2)) as Hl by (split; [by split | done]). destruct vt2; cbn [candidate prev_result] in *.
      + split; [by rewrite Hc2 | by eexists].
      + destruct Hc2 as (m & em & Hm & Em & Hvm & Htm & Hk & Hval & Hinv & HcJ).
        destruct (candidate_shown 0 J m em Em Hvm Htm ltac:(lia) Hinv) as [Hsh HcS]; [intros; lia | done |].
        exists m, em, (length es). split_and!; try done. split; [by left |]. intros i' e' Hi' Ei'. apply (Hinv i' e'); [lia | done].
    - rewrite decide_False in Hi by done. destruct (IH (j - 1)%nat vt2 J (set_iter i it2)) as (vt' & it' & E' & Hd' & Hval' & Hr'); [split; [by split | done] | lia | lia | lia | done | | exists vt', it'; cbn [set_iter valid_] in Hval'; by rewrite Hval2 in Hval'].
      by replace (S (j - 1)) with j by lia. }
  destruct (visible e) eqn:Hve.
  2: { cbn [mbind option_bind]. apply (Hend vt it1 Hj1 Hd eq_refl). destruct vt; cbn [candidate] in *.
       - by rewrite Hc, (cnt_S j e E), hidden_not_shown, Nat.add_0_r.
       - destruct Hc as (m & em & Hm & Em & Hvm & Htm & Hk & Hval & Hinv & HcJ). exists m, em. split_and!; try done; try lia.
         intros i e' Hi Ei. destruct (decide (i = j)) as [-> | ?]; [by rewrite E in Ei; injection Ei as <- |]. apply (Hinv i e'); [lia | done]. }
  cbn [type user_key].
  assert (∃ b, (if decide (vt = kTypeDeletion) then Some false else r ← Compare (e_key e) (saved_key_ it1); Some (bool_decide (r = Lt))) = Some b /\
    if b then prev_result J vt it1 else cnt J = cnt (S j)) as (b & -> & Hb).
  { destruct vt; cbn [decide decide_rel]; [by exists false |]. cbn [candidate] in Hc. destruct Hc as (m & em & Hm & Em & Hvm & Htm & Hk & Hval & Hinv & HcJ).
    change (saved_key_ it1) with (saved_key_ it). rewrite Hk. destruct (at_valid _ _ Em) as [Vm _]. pose proof (key_le j m e em E Em ltac:(lia)) as Hle.
    destruct (cmp_some (e_key e) (e_key em) Vj Vm) as [r Er]. rewrite Er in *. cbn [mbind option_bind]. eexists. split; [done |]. case_bool_decide as Hr.
    - subst r. destruct (candidate_shown (S j) J m em Em Hvm Htm ltac:(lia) Hinv) as [Hsh HcS]; [| done |].
      { intros i' e' Hi' Ei' Hv' Hk'. destruct (key_sandwich i' j m e' e em Ei' E Em ltac:(lia) Hk') as [_ Hjm]. unfold same_key in Hjm. apply bool_decide_eq_true in Hjm. congruence. }
      exists m, em, j. split_and!; try done. split; [right; lia |]. unfold next_place. rewrite decide_True by done. exact Hinv.
    - assert (same_key (e_key e) (e_key em) = true) as Hsame by (unfold same_key; apply bool_decide_eq_true; rewrite Er; f_equal; destruct r; congruence).
      rewrite HcJ, (cnt_S m em Em). unfold shown. assert (earlier s (take m es) em = true) as -> by (apply earlier_at; exists j, e; split_and!; [lia | done..]).
      rewrite andb_false_r, Nat.add_0_r. pose proof (lookup_lt_Some _ _ _ Em). apply cnt_same; [lia |]. intros i e' Hi Ei. apply hidden_not_shown. apply (Hinv i e'); [lia | done]. }
  cbn [mbind option_bind]. destruct b.
  { do 2 eexists. split; [reflexivity |]. by split_and!. }
  destruct (e_type e) eqn:Ht.
  - cbn [mbind option_bind]. apply (Hend kTypeDeletion); [destruct Hj1 as [[] ?]; split; [by split | done] | done | done |].
    cbn [candidate]. by rewrite Hb, (cnt_S j e E), deletion_not_shown, Nat.add_0_r.
  - destruct (internal_key j e it1 Hj1 E) as (-> & -> & Eu). cbn [mbind option_bind]. rewrite Eu. cbn [mbind option_bind].
    apply (Hend kTypeValue); [destruct Hj1 as [[] ?]; split; [by split | done] | done | done |].
    cbn [candidate set_saved_value set_saved_key saved_key_ saved_value_]. exists j, e. split_and!; try done; try lia.
Qed.

Lemma FindPrev_ok p it : at_entry p it -> (p <= length es)%nat -> dbi_direction it = kReverse ->
  ∃ it', FindPrevUserEntry C ndebug fuel it = Some it' /\ user_at (match cnt (next_place p) with O => length ul | S n => n end) it'.
Proof.
  intros Hp Hle Hd. unfold FindPrevUserEntry. rewrite (bool_decide_true (dbi_direction it = kReverse)), assert_true by done. cbn [mbind option_bind].
  rewrite (internal_valid p it Hp).
  assert (∃ vt it', (if bool_decide (p < length es)%nat then FindPrevUserEntry_loop C fuel kTypeDeletion it else Some (kTypeDeletion, it)) = Some (vt, it') /\
    dbi_direction it' = kReverse /\ prev_result (next_place p) vt it') as (vt & it' & -> & Hd' & Hr).
  { unfold next_place. case_bool_decide as Hlt; [rewrite decide_True by done | rewrite decide_False by done].
    - destruct (prev_loop fuel p kTypeDeletion (S p) it Hp Hlt ltac:(lia) ltac:(lia) Hd) as (vt & it' & E & Hd' & _ & Hr); [done | by exists vt, it'].
    - exists kTypeDeletion, it. split_and!; [done.. |]. split; [done | by exists p]. }
  cbn [mbind option_bind]. eexists. split; [done |]. destruct vt; cbn [prev_result] in Hr.
  - destruct Hr as [-> (q & [] & Hq)]. split; [exists q; split; [by split | done] |]. right. right. done.
  - destruct Hr as (m & e & q & Hsh & -> & Hk & Hv & [[] Hq] & Hb). assert (at_entry q (set_valid true it')) as Hq' by (split; [by split | done]).
    split; [by exists q |]. right. left. exists m, e, q. by split_and!.
Qed.

Lemma leave_ok n : ∀ j m e it, at_entry j it -> (j <= m)%nat -> (j < n)%nat -> shown_at m e -> saved_key_ it = e_key e ->
  (∀ i e', (j <= i <= m)%nat -> es !! i = Some e' -> same_key (e_key e') (e_key e) = true) ->
  ∃ b it', leave_key C n it = Some (b, it') /\
    if b : bool then ∃ p, at_entry p it' /\ (p < length es)%nat /\ cnt (S p) = cnt m else cnt m = 0%nat /\ valid_ it' = false /\ ∃ p, at_entry p it'.
Proof.
  induction n as [| n IH]; intros j m e it Hj Hjm Hn Hsh Hk Hsame; [lia |]. cbn [leave_key]. destruct Hsh as [Em Hs1]. pose proof (lookup_lt_Some _ _ _ Em) as Hm.
  destruct (shown_elim m e (conj Em Hs1)) as (_ & _ & Hfirst). assert (j < length es)%nat as Hlt by lia.
  assert (cnt m = cnt j) as Hcnt.
  { apply cnt_same; [lia |]. intros i e' Hi Ei. apply hidden_not_shown, not_true_is_false. intros Hv. apply (Hfirst i e'); [lia | done | done |]. apply (Hsame i e'); [lia | done]. }
  destruct (internal_step j it Hj Hlt) as [_ (i & Ei & Hi & Hv)]. rewrite Ei. cbn [mbind option_bind]. rewrite Hv. destruct Hj as [[] Hj]. case_bool_decide as Hj0; cbn [negb].
  - subst j. rewrite decide_True in Hi by done. do 2 eexists. split; [reflexivity |]. split; [done |]. split; [done |]. exists (length es). split; [by split | done].
  - rewrite decide_False in Hi by done. destruct (lookup_lt_is_Some_2 es (j - 1) ltac:(lia)) as [e1 E1].
    assert (at_entry (j - 1) (set_iter i it)) as Hj1 by (split; [by split | done]). destruct (internal_key (j - 1) e1 _ Hj1 E1) as (Ek & _ & Eu). cbn [set_iter iter_] in Ek.
    rewrite Ek. cbn [mbind option_bind]. rewrite Eu. cbn [mbind option_bind set_iter saved_key_]. rewrite Hk.
    destruct (at_valid _ _ E1) as [V1 _], (at_valid _ _ Em) as [Vm _]. destruct (cmp_some (e_key e1) (e_key e) V1 Vm) as [r Er]. rewrite Er. cbn [mbind option_bind].
    case_bool_decide as Hr.
    + do 2 eexists. split; [reflexivity |]. exists (j - 1)%nat. split; [exact Hj1 |]. split; [lia |]. by replace (S (j - 1)) with j by lia.
    + apply (IH (j - 1)%nat m e); [exact Hj1 | lia | lia | done | done |]. intros i' e' Hi' Ei'. destruct (decide (i' = j - 1)%nat) as [-> | ?]; [| apply (Hsame i' e'); [lia | done]].
      rewrite E1 in Ei'. injection Ei' as <-. unfold same_key. apply bool_decide_eq_true. pose proof (key_le (j - 1) m e1 e E1 Em ltac:(lia)) as Hle. rewrite Er in *. f_equal. destruct r; congruence.
Qed.

(** Past a pair: the entries up to its own are hidden. *)
Lemma skips_key i0 j e : shown_at j e -> (i0 <= j)%nat -> (∀ i e', (i0 <= i < j)%nat -> es !! i = Some e' -> visible e' = false) -> skips i0 (S j) true (e_key e).
Proof.
  intros Hsh Hi0 Hinv. destruct (shown_elim j e Hsh) as (Hve & Ht & Hfirst). destruct Hsh as [E _]. pose proof (lookup_lt_Some _ _ _ E). destruct (at_valid _ _ E) as [Vj _].
  assert (skips (S j) (S j) true (e_key e)) as [_ Hv Hh Hi].
  { apply (skips_visible j false (e_key e) e); [| done | done | by left]. split; [lia | done | lia |]. intros i e' Hji Ei Hv'. split; [by intros [? _] |].
    intros (i' & e2 & Hlt & E2 & Hv2 & Hk). destruct (Hfirst i' e2 Hlt E2 Hv2). exact (proj1 (key_sandwich i' j i e2 e e' E2 E Ei ltac:(lia) Hk)). }
  split; [lia | done | | exact Hi]. intros i e' Hi' Ei Hv'. destruct (decide (i = j)) as [-> | Hne].
  - rewrite E in Ei. injection Ei as <-. split_and!; [done.. |]. by rewrite cmp_refl.
  - rewrite (Hinv i e') in Hv' by (done || lia). done.
Qed.

(** ** The operations *)
Lemma DBIter_SeekToFirst_ok n it : user_at n it -> ∃ it', DBIter_SeekToFirst C ndebug fuel it = Some it' /\ user_at 0 it'.
Proof.
  intros [(j & [] & Hj) _]. unfold DBIter_SeekToFirst. cbn [ClearSavedValue set_saved_value set_direction iter_]. destruct (iter_SeekToFirst HI j _ Hj) as (i & E & Hi). rewrite E. cbn [mbind option_bind].
  rewrite (iter_Valid HI _ _ Hi), length_fmap. case_bool_decide as Hlt.
  - apply (FindNext_ok 0 0 false); [split; [by split | done] | done | done |].
    split; [lia | done | lia |]. intros i' e _ _ _. split; [by intros [? _] | intros (i2 & ? & ? & _); lia].
  - eexists. split; [done |]. split; [exists 0%nat; split; [by split | done] |]. right. right. split; [| done]. rewrite <- cnt_all. by replace (length es) with 0%nat by lia.
Qed.
Lemma DBIter_SeekToLast_ok n it : user_at n it -> ∃ it', DBIter_SeekToLast C ndebug fuel it = Some it' /\ user_at (length ul - 1) it'.
Proof.
  intros [(j & [] & Hj) _]. unfold DBIter_SeekToLast. cbn [ClearSavedValue set_saved_value set_direction iter_]. destruct (iter_SeekToLast HI j _ Hj) as (i & E & Hi). rewrite E. cbn [mbind option_bind].
  rewrite length_fmap in Hi. match goal with |- context [FindPrevUserEntry _ _ _ ?x] => destruct (FindPrev_ok (length es - 1) x) as (it' & E' & Hit') end; [split; [by split | done] | lia | done |].
  exists it'. split; [done |]. replace (cnt (next_place (length es - 1))) with (length ul) in Hit'.
  - destruct (length ul) as [| k]; [done |]. cbn [Nat.sub]. by rewrite Nat.sub_0_r.
  - rewrite <- cnt_all. f_equal. unfold next_place. case_decide; lia.
Qed.
Lemma DBIter_Next_ok n it : user_at n it -> (n < length ul)%nat -> ∃ it', DBIter_Next C ndebug fuel it = Some it' /\ user_at (S n) it'.
Proof.
  intros [_ [(j & e & Hsh & -> & Hv & Hd & Hj) | [(j & e & p & Hsh & -> & Hv & Hd & Hk & _ & Hp & Hb) | [-> _]]]] Hlt; [| | lia];
    unfold DBIter_Next; rewrite Hv, assert_true, Hd; cbn [mbind option_bind decide decide_rel];
    destruct (shown_elim j e Hsh) as (Hve & Ht & Hfirst); pose proof Hsh as [E Hs1]; pose proof (lookup_lt_Some _ _ _ E) as Hjl;
    (assert (cnt (S j) = S (cnt j)) as <- by (rewrite (cnt_S j e E), Hs1; lia)).
  - destruct (internal_key j e it Hj E) as (-> & _ & Eu). cbn [mbind option_bind]. rewrite Eu. cbn [mbind option_bind].
    apply (FindNext_ok j); [destruct Hj as [[] ?]; split; [by split | done] | done | done |]. cbn [set_saved_key saved_key_].
    apply (skips_key j j e Hsh); lia.
  - destruct Hp as [[] Hp]. cbn [set_direction iter_].
    assert (∃ i, (if negb (Valid (iter_ it)) then SeekToFirst (iter_ it) else Next (iter_ it)) = Some i /\ RI (next_place p) i) as (i & -> & Hi).
    { rewrite (iter_Valid HI _ _ Hp), length_fmap. unfold next_place. case_bool_decide as Hpl; cbn [negb].
      - rewrite decide_True by done. destruct (iter_Next HI p _ Hp) as (i & Ei & Hi); [by rewrite length_fmap | by exists i].
      - rewrite decide_False by done. exact (iter_SeekToFirst HI p _ Hp). }
    cbn [mbind option_bind]. destruct Hb as [Hpj Hinv]. assert (next_place p <= j)%nat as Hnp by (unfold next_place; case_decide; lia).
    rewrite (iter_Valid HI _ _ Hi), length_fmap, bool_decide_true by lia. cbn [negb].
    apply (FindNext_ok (next_place p)); [split; [by split | done] | lia | done |]. cbn [set_iter set_direction saved_key_]. rewrite Hk. by apply skips_key.
Qed.
Lemma DBIter_Prev_ok n it : user_at n it -> (n < length ul)%nat ->
  ∃ it', DBIter_Prev C ndebug fuel it = Some it' /\ user_at (if decide (n = 0)%nat then length ul else n - 1)%nat it'.
Proof.
  assert (∀ n, (if decide (n = 0)%nat then length ul else n - 1)%nat = match n with O => length ul | S n => n end) as Eif
    by (intros [| k]; [done |]; cbn; by rewrite Nat.sub_0_r). rewrite Eif.
  intros [_ [(j & e & Hsh & -> & Hv & Hd & Hj) | [(j & e & p & Hsh & -> & Hv & Hd & Hk & _ & Hp & Hb) | [-> _]]]] Hlt; [| | lia];
    unfold DBIter_Prev; rewrite Hv, assert_true, Hd; cbn [mbind option_bind decide decide_rel]; pose proof Hsh as [E _]; pose proof (lookup_lt_Some _ _ _ E) as Hjl.
  - rewrite (internal_valid j it Hj), (bool_decide_true (j < _)%nat), assert_true by done. cbn [mbind option_bind].
    destruct (internal_key j e it Hj E) as (-> & _ & Eu). cbn [mbind option_bind]. rewrite Eu. cbn [mbind option_bind].
    destruct (leave_ok fuel j j e (set_saved_key (e_key e) it)) as (b & it' & -> & Hr); [destruct Hj as [[] ?]; split; [by split | done] | done | lia | done | done | |].
    { intros i e' Hi Ei. assert (i = j) as -> by lia. rewrite E in Ei. injection Ei as <-. unfold same_key. apply bool_decide_eq_true, cmp_refl. by eapply at_valid. }
    cbn [mbind option_bind]. destruct b.
    + destruct Hr as (p & [[] Hp] & Hpl & Hc). destruct (FindPrev_ok p (set_direction kReverse it')) as (it2 & E2 & Hit2); [split; [by split | done] | lia | done |].
      exists it2. split; [exact E2 |]. unfold next_place in Hit2. by rewrite decide_True, Hc in Hit2 by done.
    + destruct Hr as (-> & Hv' & Hp). exists it'. split; [done |]. split; [done |]. right. right. done.
  - destruct Hb as [Hpj Hinv]. destruct (FindPrev_ok p it Hp) as (it2 & E2 & Hit2); [lia | done |]. exists it2. split; [exact E2 |].
    assert (next_place p <= j)%nat as Hnp by (unfold next_place; case_decide; lia).
    assert (cnt j = cnt (next_place p)) as ->; [| done]. apply cnt_same; [lia |]. intros i e' Hi Ei. by apply hidden_not_shown, (Hinv i e').
Qed.


Lemma ul_inv n p : ul !! n = Some p -> ∃ j e, shown_at j e /\ n = cnt j /\ p = (e_key e, e_value e).
Proof.
  assert (∀ l pre n, user_pairs s pre l !! n = Some p -> ∃ j e, l !! j = Some e /\ shown s (pre ++ take j l) e = true /\
    n = length (user_pairs s pre (take j l)) /\ p = (e_key e, e_value e)) as Hall.
  { induction l as [| e l IH]; intros pre k Ek; [done |]. cbn [user_pairs] in Ek. destruct (shown s pre e) eqn:Hsh.
    - destruct k as [| k]; [injection Ek as <-; exists 0%nat, e; by rewrite app_nil_r |]. cbn [app] in Ek.
      destruct (IH _ _ Ek) as (j & e' & Ej & Hs' & -> & ->). exists (S j), e'. cbn [take user_pairs]. rewrite Hsh. split_and!; [done | by rewrite <- app_assoc in Hs' | done | done].
    - cbn [app] in Ek. destruct (IH _ _ Ek) as (j & e' & Ej & Hs' & -> & ->). exists (S j), e'. cbn [take user_pairs]. rewrite Hsh. split_and!; [done | by rewrite <- app_assoc in Hs' | done | done]. }
  intros E. destruct (Hall es [] n E) as (j & e & Ej & Hsh & -> & ->). by exists j, e.
Qed.
Lemma cnt_mono a b : (a <= b)%nat -> (cnt a <= cnt b)%nat.
Proof.
  intros Hab. unfold cnt. replace b with (a + (b - a))%nat by lia. rewrite <- take_take_drop, user_pairs_app, length_app. lia.
Qed.
Lemma cnt_shown_lt j e k : shown_at j e -> (cnt j < cnt k)%nat <-> (j < k)%nat.
Proof.
  intros [E Hsh]. pose proof (cnt_S j e E) as HS. rewrite Hsh in HS. split; intros Hlt.
  - destruct (decide (j < k)%nat); [done |]. pose proof (cnt_mono k j ltac:(lia)). lia.
  - pose proof (cnt_mono (S j) k Hlt). lia.
Qed.

Lemma DBIter_Seek_ok n it t : user_at n it -> valid t -> ∃ it', DBIter_Seek C ndebug fuel t it = Some it' /\ user_at (lower ul t) it'.
Proof.
  intros [(j & [] & Hj) _] Ht. unfold DBIter_Seek. cbn [ClearSavedValue set_saved_value set_direction iter_ dbi_sequence]. rewrite co_sequence0.
  rewrite AppendInternalKey_ikey by done. cbn [mbind option_bind app]. change kValueTypeForSeek with kTypeValue. set (k := ikey t (tag s kTypeValue)).
  assert (valid_ikey valid k) as Hk by (eexists _, _; split; [reflexivity |]; split; [done | by apply tag_word]).
  destruct (iter_Seek HI j _ k Hj Hk) as (i & E & Hi). rewrite E. cbn [mbind option_bind]. rewrite (iter_Valid HI _ _ Hi), length_fmap.
  set (j0 := lower (C := CI) (entry_pair <$> es) k) in *.
  pose proof (lower_le (C := CI) (entry_pair <$> es) k) as Hj0. rewrite length_fmap in Hj0. fold j0 in Hj0.
  assert (∀ i e, es !! i = Some e -> visible e = true -> (i < j0)%nat <-> Compare (e_key e) t = Some Lt) as Hlow.
  { intros i' e Ei Hv. eapply iff_trans; [exact (lower_spec (C := CI) _ k i' (entry_pair e) Hsorted Hk (ipair_at _ _ Ei)) |]. cbn [Compare InternalKeyComparator entry_pair fst]. unfold k, entry_key.
    rewrite InternalKey_Compare_ikey by (by eapply at_tag || by apply tag_word). destruct (at_valid _ _ Ei) as [Ve _]. destruct (cmp_some (e_key e) t Ve Ht) as [r ->]. cbn [mbind option_bind].
    destruct r; cbn; [| done..]. rewrite tag_compare. unfold DbIterProps.visible in Hv. apply Z.leb_le in Hv. split; [| done].
    destruct (Z.compare_spec s (e_seq e)); [| lia | done]. by destruct (e_type e). }
  assert (cnt j0 = lower ul t) as <-.
  { symmetry. apply lower_unique.
    - rewrite <- cnt_all. by apply cnt_mono.
    - intros i' p Hi' Ep. destruct (ul_inv i' p Ep) as (j1 & e & Hsh & -> & ->). apply (cnt_shown_lt j1 e j0 Hsh) in Hi'. cbn [fst].
      destruct (shown_elim j1 e Hsh) as (Hv & _). apply (Hlow j1 e (proj1 Hsh) Hv), Hi'.
    - intros p Ep. destruct (ul_inv _ p Ep) as (j1 & e & Hsh & Hc & ->). cbn [fst]. destruct (shown_elim j1 e Hsh) as (Hv & _).
      intros Hlt%(Hlow j1 e (proj1 Hsh) Hv). apply (cnt_shown_lt j1 e j0 Hsh) in Hlt. lia. }
  case_bool_decide as Hlt.
  - apply (FindNext_ok j0 j0 false); [split; [by split | done] | done | done |]. split; [lia | done | lia |].
    intros i' e Hi' Ei Hv. split; [by intros [? _] |]. intros (i2 & e2 & Hi2 & E2 & Hv2 & Hk2). exfalso.
    apply (Hlow i2 e2 E2 Hv2) in Hi2. assert (¬ (i' < j0)%nat) as Hn by lia. apply Hn, (Hlow i' e Ei Hv). unfold same_key in Hk2. apply bool_decide_eq_true in Hk2.
    destruct (at_valid _ _ Ei) as [V1 _], (at_valid _ _ E2) as [V2 _]. apply (cmp_eq (e_key e) (e_key e2) t); [done.. | exact (cmp_eq_sym _ _ V2 V1 Hk2) | done].
  - eexists. split; [done |]. split; [exists j0; split; [by split | done] |]. right. right. split; [| done]. rewrite <- cnt_all. f_equal. lia.
Qed.

Lemma user_read n it p : user_at n it -> ul !! n = Some p -> valid_ it = true /\ DBIter_key ndebug it = Some p.1 /\ DBIter_value ndebug it = Some p.2.
Proof.
  intros [_ [(j & e & Hsh & -> & Hv & Hd & Hj) | [(j & e & q & Hsh & -> & Hv & Hd & Hk & Hval & _) | [-> _]]]] Ep; [| | apply lookup_lt_Some in Ep; lia];
    rewrite (ul_shown j e Hsh) in Ep; injection Ep as <-; unfold DBIter_key, DBIter_value; rewrite Hv, assert_true, Hd; cbn [mbind option_bind decide decide_rel fst snd].
  - destruct (internal_key j e it Hj (proj1 Hsh)) as (-> & -> & Eu). done.
  - by rewrite Hk, Hval.
Qed.
Lemma user_valid n it : user_at n it -> valid_ it = bool_decide (n < length ul)%nat.
Proof.
  intros [_ [(j & e & Hsh & -> & -> & _) | [(j & e & p & Hsh & -> & -> & _) | [-> ->]]]].
  1, 2: symmetry; apply bool_decide_eq_true; by eapply cnt_lt.
  symmetry. apply bool_decide_eq_false. lia.
Qed.

Lemma dbiter_iterates : iterates (H := DBIter_Iterator C ndebug fuel) valid user_at ul.
Proof.
  split.
  - intros n it [_ [(j & e & Hsh & -> & _) | [(j & e & p & Hsh & -> & _) | [-> _]]]]; [pose proof (cnt_lt j e Hsh); lia.. | done].
  - apply user_valid.
  - intros n it p Hit Ep. by eapply user_read.
  - intros n it p Hit Ep. by eapply user_read.
  - apply DBIter_Next_ok.
  - apply DBIter_Prev_ok.
  - apply DBIter_SeekToFirst_ok.
  - apply DBIter_SeekToLast_ok.
  - apply DBIter_Seek_ok.
  - intros n it [(j & [] & Hj) _]. cbn. unfold DBIter_status. rewrite co_status0. exact (iter_status HI j _ Hj).
Qed.
Lemma new_DBIter_at j i db seed : RI j i -> user_at (length ul) (new_DBIter db i s seed).
Proof.
  intros Hj. unfold new_DBIter. destruct (RandomPeriod_ok (new_Random seed) (new_Random_state seed)) as [Hr Hp]. destruct (RandomPeriod _) as [period rnd]. cbn [fst snd] in *.
  split; [exists j; split; [by split | done] |]. right. right. done.
Qed.

(** ** The shown pairs are the view of the snapshot *)
Lemma ul_sorted : sorted_pairs valid ul.
Proof.
  apply sorted_pairs_intro.
  - intros i p Ep. destruct (ul_inv i p Ep) as (j & e & [E _] & _ & ->). by eapply at_valid.
  - intros i1 i2 p1 p2 E1 E2 Hlt. destruct (ul_inv i1 p1 E1) as (j1 & e1 & Hs1 & -> & ->), (ul_inv i2 p2 E2) as (j2 & e2 & Hs2 & -> & ->). cbn [fst].
    apply (cnt_shown_lt j1 e1 j2 Hs1) in Hlt. pose proof (key_le j1 j2 e1 e2 (proj1 Hs1) (proj1 Hs2) ltac:(lia)) as Hle.
    destruct (at_valid _ _ (proj1 Hs1)) as [V1 _], (at_valid _ _ (proj1 Hs2)) as [V2 _]. destruct (cmp_some _ _ V1 V2) as [[] E]; [| done | done]. exfalso.
    destruct (shown_elim j2 e2 Hs2) as (_ & _ & Hf), (shown_elim j1 e1 Hs1) as (Hv & _). apply (Hf j1 e1 Hlt (proj1 Hs1) Hv). unfold same_key. by apply bool_decide_eq_true.
Qed.
Lemma seq_le i j e e' : es !! i = Some e -> es !! j = Some e' -> (i <= j)%nat -> same_key (e_key e) (e_key e') = true -> e_seq e' <= e_seq e.
Proof.
  intros Ei Ej Hij Hk. destruct (decide (i = j)) as [-> | Hne]; [rewrite Ei in Ej; by injection Ej as -> |].
  pose proof (sorted_pairs_lookup (C := CI) _ i j _ _ Hsorted (ipair_at _ _ Ei) (ipair_at _ _ Ej) ltac:(lia)) as Hc. cbn in Hc. unfold entry_key in Hc.
  unfold same_key in Hk. apply bool_decide_eq_true in Hk. rewrite InternalKey_Compare_ikey, Hk in Hc by by eapply at_tag. cbn in Hc. injection Hc as Hc. rewrite tag_compare in Hc.
  destruct (Z.compare_spec (e_seq e') (e_seq e)); [lia | lia | done].
Qed.
Lemma ul_view k v : base.NoDup (e_seq <$> es) -> valid k -> view es k s = Some v <-> ∃ u, (u, v) ∈ ul /\ same_key u k = true.
Proof.
  intros Hnd Hvk. unfold view.
  assert (∀ a b, valid a -> valid b -> same_key a b = true -> same_key b a = true) as Hsym by (intros a b Va Vb; unfold same_key; rewrite !bool_decide_eq_true; by apply cmp_eq_sym).
  assert (∀ a b c, valid a -> valid b -> valid c -> same_key a b = true -> same_key b c = true -> same_key a c = true) as Htr by (intros a b c Va Vb Vc; unfold same_key; rewrite !bool_decide_eq_true; by apply cmp_eq).
  split.
  - destruct (latest k s es) as [e |] eqn:El; [| done]. cbn [mbind option_bind]. destruct (e_type e) eqn:Ht; [done |]. intros [= <-]. apply latest_Some in El as (Hin & Hm & Hmax).
    apply list_elem_of_lookup in Hin as [j E]. unfold matches in Hm. apply andb_true_iff in Hm as [Hk Hv]. exists (e_key e). split; [| done].
    apply list_elem_of_lookup. exists (cnt j). apply ul_shown, shown_intro; [done.. |]. intros i e' Hi Ei Hv' Hk'.
    pose proof (seq_le i j e' e Ei E ltac:(lia) Hk'). destruct (at_valid _ _ E) as [V _], (at_valid _ _ Ei) as [V' _].
    assert (e_seq e' <= e_seq e) by (apply Hmax; [by eapply list_elem_of_lookup_2 |]; unfold matches; rewrite (Htr (e_key e') (e_key e) k); done).
    assert (i = j); [| lia]. apply (NoDup_lookup (e_seq <$> es) i j (e_seq e) Hnd); rewrite list_lookup_fmap; [rewrite Ei; cbn; f_equal; lia | by rewrite E].
  - intros (u & Hu & Hk). apply list_elem_of_lookup in Hu as [n Hu]. destruct (ul_inv n _ Hu) as (j & e & Hsh & _ & [= -> ->]). destruct (shown_elim j e Hsh) as (Hv & Ht & Hf). destruct Hsh as [E _].
    destruct (at_valid _ _ E) as [V _]. rewrite (latest_is_latest es k s e Hnd); [cbn [mbind option_bind]; by rewrite Ht |].
    split; [by eapply list_elem_of_lookup_2 |]. split; [unfold matches; by rewrite Hk |]. intros e' [i Ei]%list_elem_of_lookup Hm. unfold matches in Hm. apply andb_true_iff in Hm as [Hk' Hv'].
    destruct (at_valid _ _ Ei) as [V' _]. assert (same_key (e_key e') (e_key e) = true) as Hee by (apply (Htr (e_key e') k (e_key e)); [done.. |]; by apply Hsym).
    destruct (decide (i < j)%nat) as [Hlt | Hge]; [by destruct (Hf i e' Hlt Ei Hv' Hee) |]. apply (seq_le j i e e' E Ei ltac:(lia)). by apply Hsym.
Qed.
End Props.

(** C28. The iterator of a database shows the view of its snapshot.  When the children that are merged hold together the
    entries of a history, each in the order of internal keys, the iterator walks exactly the user keys whose newest entry up to the
    snapshot is a value, in order and with these values, in either direction, across changes of direction and from every seek;
    every call ends, the one that samples reads at random included. *)
Theorem database_iterator {C : Comparator} {valid : Slice -> Prop} `{!ComparatorLaws C valid} {I D : Type} `{HiI : Iterator I} `{HiD : ReadSampler D}
    (ndebug : bool) (children : list I) (ls : list Pairs) (RC : nat -> nat -> I -> Prop) (h : list Entry) (s : Z) (fuel : nat) (db : option D) (seed : Z) :
  Forall (λ e, valid (e_key e) /\ word 56 (e_seq e)) h -> base.NoDup (e_seq <$> h) -> word 56 s -> (length h < fuel)%nat ->
  concat ls ≡ₚ entry_pair <$> h -> Forall (sorted_pairs (C := InternalKeyComparator ndebug C) (valid_ikey valid)) ls ->
  length children = length ls -> (∀ i c, children !! i = Some c -> ∃ n, RC i n c) ->
  (∀ i l, ls !! i = Some l -> iterates (C := InternalKeyComparator ndebug C) (valid_ikey valid) (RC i) l) ->
  ∃ m l R, NewMergingIterator children = Some m /\ sorted_pairs valid l /\
    (∀ k v, valid k -> view h k s = Some v <-> ∃ u, (u, v) ∈ l /\ same_key u k = true) /\
    iterates (H := @DBIter_Iterator _ _ (merged_iterator (C := InternalKeyComparator ndebug C) ndebug) _ C ndebug fuel) valid R l /\
    R (length l) (new_DBIter db m s seed).
Proof.
  intros Hv Hnd Hs Hf Hp Hsl Hlen Hc Hit.
  assert (∃ es0, concat ls = entry_pair <$> es0 /\ es0 ≡ₚ h) as (es0 & E0 & Hp0)
    by (destruct (Permutation_map_inv entry_pair h Hp) as (es0 & E & Hes); exists es0; by split).
  assert (distinct (C := InternalKeyComparator ndebug C) (concat ls)) as Hd.
  { rewrite E0. intros i j p q Ei Ej Hij E. rewrite list_lookup_fmap in Ei, Ej. apply fmap_Some in Ei as (e & Ei & ->), Ej as (e' & Ej & ->).
    assert (∀ i e, es0 !! i = Some e -> word 64 (tag (e_seq e) (e_type e))) as Hw.
    { intros k x Ek%list_elem_of_lookup_2. rewrite Hp0 in Ek. rewrite list.Forall_forall in Hv. apply tag_word. by apply (Hv x). }
    cbn in E. unfold entry_key in E. rewrite InternalKey_Compare_ikey in E by by eapply Hw. destruct (Compare (e_key e) (e_key e')) as [[] |]; try done. cbn in E.
    injection E as E. apply Z.compare_eq in E. assert (e_seq e = e_seq e') as Es by (rewrite <- (tag_shiftr (e_seq e) (e_type e)), <- E; apply tag_shiftr).
    assert (base.NoDup (e_seq <$> es0)) as Hnd0 by by rewrite Hp0.
    assert (i = j); [| lia]. apply (NoDup_lookup (e_seq <$> es0) i j (e_seq e) Hnd0); rewrite list_lookup_fmap; [by rewrite Ei | rewrite Ej; cbn; by rewrite Es]. }
  destruct (NewMergingIterator_ok ndebug children ls RC Hlen Hsl Hd Hit Hc) as (l & m & R & n & Em & Hpl & Hsort & Hiter & Hn).
  rewrite Hp in Hpl. destruct (Permutation_map_inv entry_pair h Hpl) as (es & El & Hes). change (map entry_pair es) with (entry_pair <$> es) in El. subst l.
  assert (Forall (λ e, valid (e_key e) /\ word 56 (e_seq e)) es) as Hv' by by rewrite <- Hes.
  assert (base.NoDup (e_seq <$> es)) as Hnd' by by rewrite <- Hes.
  assert (length es < fuel)%nat as Hf' by by rewrite <- (Permutation_length Hes).
  exists m, (user_pairs s [] es), (user_at es s R). split; [done |]. split; [by eapply ul_sorted |]. split.
  - intros k v Hk. unfold view. rewrite (latest_perm h es k s Hnd Hes). by eapply (ul_view ndebug es s).
  - split; [by eapply dbiter_iterates | by eapply new_DBIter_at].
Qed.

(** Two memtables, one with a deletion of a key of the other. *)
Definition example_old : list Entry := [MkEntry (lit "b") 2 kTypeValue (lit "two"); MkEntry (lit "a") 1 kTypeValue (lit "one")].
Definition example_new : list Entry := [MkEntry (lit "c") 5 kTypeValue (lit "five"); MkEntry (lit "a") 4 kTypeDeletion []; MkEntry (lit "b") 3 kTypeValue (lit "three")].
Fixpoint mem_add_all (h : list Entry) : option MemTable :=
  match h with
  | [] => Some new_MemTable
  | e :: h => m ← mem_add_all h; MemTable_Add false (BytewiseComparator false) (e_seq e) (e_type e) (e_key e) (e_value e) m
  end.
Lemma mem_add_all_ok h : Forall (valid_entry (short_bytes 100)) h -> base.NoDup (e_seq <$> h) ->
  ∃ m, mem_add_all h = Some m /\ mem_ok (BytewiseComparator false) (short_bytes 100) m h.
Proof.
  pose proof (Bytewise_laws_bounded false 100) as HL. induction h as [| e h IH]; intros Hv Hnd; [exists new_MemTable; split; [done | apply new_MemTable_ok] |].
  apply list.Forall_cons in Hv as [He Hv]. apply list.NoDup_cons in Hnd as [Hne Hnd]. destruct (IH Hv Hnd) as (m & E & Hm). cbn [mem_add_all]. rewrite E. cbn [mbind option_bind].
  destruct (MemTable_Add_ok false (BytewiseComparator false) (short_bytes 100) m h e Hm He Hne) as (m' & E' & Hm' & _). by exists m'.
Qed.

Lemma database_iterator_witness :
  let C := BytewiseComparator false in let CI := InternalKeyComparator false C in
  ∃ m1 m2 m it p q, mem_add_all example_old = Some m1 /\ mem_add_all example_new = Some m2 /\
    NewMergingIterator (H := MemTableIterator_Iterator false C) [MemTable_NewIterator m1; MemTable_NewIterator m2] = Some m /\
    let H := @DBIter_Iterator _ unit (@merged_iterator CI _ (MemTableIterator_Iterator false C) false) _ C false 9 in
    same_key (C := C) p (lit "b") = true /\ @Seek _ H p (new_DBIter None m 5 17) = Some it /\ @key _ H it = Some p /\ @value _ H it = Some q /\ q = lit "three".
Proof.
  intros C CI. pose proof (Bytewise_laws_bounded false 100) as HL. pose (HM := MemTableIterator_Iterator false C).
  assert (∀ u, short_bytes 100 u -> |[u]| + 8 < 2 ^ 32) as Hsmall by (intros u [_ Hu]; lia).
  assert (∀ h, h = example_old \/ h = example_new -> Forall (valid_entry (short_bytes 100)) h /\ base.NoDup (e_seq <$> h)) as Hex.
  { intros h [-> | ->]; (split; [| by_compute]); repeat constructor; by_compute. }
  destruct (mem_add_all_ok example_old) as (m1 & E1 & M1); [apply Hex; by left.. |]. destruct (mem_add_all_ok example_new) as (m2 & E2 & M2); [apply Hex; by right.. |].
  destruct (memtable_iterates false Hsmall m1 _ M1) as (es1 & R1 & P1 & S1 & I1 & N1). destruct (memtable_iterates false Hsmall m2 _ M2) as (es2 & R2 & P2 & S2 & I2 & N2).
  destruct (database_iterator (D := unit) (C := C) (valid := short_bytes 100) false [MemTable_NewIterator m1; MemTable_NewIterator m2] [entry_pair <$> es1; entry_pair <$> es2]
    (λ i, if decide (i = 0)%nat then R1 else R2) (example_old ++ example_new) 5 9 None 17) as (m & l & R & Em & Hl & Hview & Hit & HR).
  - apply list.Forall_forall. intros e. rewrite elem_of_app. intros [He | He]; (split; [| revert e He; apply list.Forall_forall; by_compute]);
      [destruct (Hex example_old ltac:(by left)) as [Hv _] | destruct (Hex example_new ltac:(by right)) as [Hv _]]; rewrite list.Forall_forall in Hv; by apply Hv.
  - by_compute.
  - by_compute.
  - cbn. lia.
  - cbn [concat]. rewrite app_nil_r, fmap_app. by rewrite P1, P2.
  - apply Forall_cons_2; [exact S1 |]. apply Forall_cons_2; [exact S2 | apply Forall_nil_2].
  - done.
  - intros [| [| i]] c; cbn; intros [= <-]; by eexists.
  - intros [| [| i]] l; cbn; intros [= <-]; done.
  - assert (view (C := C) (example_old ++ example_new) (lit "b") 5 = Some (lit "three")) as Hb by (vm_compute; reflexivity).
    assert (short_bytes 100 (lit "b")) as Vb by (split; [repeat constructor; by_compute | by_compute]).
    apply (Hview _ _ Vb) in Hb as (u & Hu & Hk). apply list_elem_of_lookup in Hu as [n Hu].
    assert (short_bytes 100 u) as Vu by exact (sorted_pairs_valid l n _ Hl Hu).
    destruct (iter_Seek Hit _ _ u HR Vu) as (it & Eit & Hat). rewrite (lower_hit l n _ Hl Hu : lower l u = n) in Hat.
    exists m1, m2, m, it, u, (lit "three"). split; [exact E1 |]. split; [exact E2 |]. split; [exact Em |]. split; [exact Hk |]. split; [exact Eit |].
    split; [exact (iter_key Hit _ _ _ Hat Hu) |]. split; [exact (iter_value Hit _ _ _ Hat Hu) | exact eq_refl].
Defined.
