(* ===== verification/VersionEdit.v ===== *)
(** * Version edits ([leveldb/db/version_edit.h], [version_edit.cc], [builder.h])

    The records of a manifest: what changes from one version of a database to the next. *)
From stdpp Require Import sorting.
From S2P Require Import Prelude Status Coding Comparator.

Definition kNumLevels : Z := 7.

(** The constant part of a [FileMetaData]: number, size, offset of sequence numbers and the range of its internal keys. *)
Record FileMetaData := MkFileMetaData { number : Z; file_size : Z; seq_off : Z; smallest : Slice; largest : Slice }.
#[global] Instance FileMetaData_eq_dec : EqDecision FileMetaData.
Proof. solve_decision. Defined.

(** [int64_t] and [int] as signed words. *)
Definition sword (w z : Z) : Z := wrap w (z + 2 ^ (w - 1)) - 2 ^ (w - 1).

(** A field with its [has_] flag is a pair; a [std::set] is the list of its elements in order. *)
Record VersionEdit := MkEdit {
  comparator_ : bool * Slice;
  log_number_ : bool * Z; prev_log_number_ : bool * Z; next_file_number_ : bool * Z; last_sequence_ : bool * Z;
  compact_pointers_ : list (Z * Slice); deleted_files_ : list (Z * Z); new_files_ : list (Z * FileMetaData)
}.
Implicit Types (e : VersionEdit).

Definition new_VersionEdit : VersionEdit := MkEdit (false, []) (false, 0) (false, 0) (false, 0) (false, 0) [] [] [].
(** [Clear] leaves the compaction pointers. *)
Definition VersionEdit_Clear e : VersionEdit := MkEdit (false, []) (false, 0) (false, 0) (false, 0) (false, 0) (compact_pointers_ e) [] [].

Definition SetComparatorName (name : Slice) e : VersionEdit :=
  MkEdit (true, name) (log_number_ e) (prev_log_number_ e) (next_file_number_ e) (last_sequence_ e) (compact_pointers_ e) (deleted_files_ e) (new_files_ e).
Definition SetLogNumber (num : Z) e : VersionEdit :=
  MkEdit (comparator_ e) (true, num) (prev_log_number_ e) (next_file_number_ e) (last_sequence_ e) (compact_pointers_ e) (deleted_files_ e) (new_files_ e).
Definition SetPrevLogNumber (num : Z) e : VersionEdit :=
  MkEdit (comparator_ e) (log_number_ e) (true, num) (next_file_number_ e) (last_sequence_ e) (compact_pointers_ e) (deleted_files_ e) (new_files_ e).
Definition SetNextFile (num : Z) e : VersionEdit :=
  MkEdit (comparator_ e) (log_number_ e) (prev_log_number_ e) (true, num) (last_sequence_ e) (compact_pointers_ e) (deleted_files_ e) (new_files_ e).
Definition SetLastSequence (seq : Z) e : VersionEdit :=
  MkEdit (comparator_ e) (log_number_ e) (prev_log_number_ e) (next_file_number_ e) (true, seq) (compact_pointers_ e) (deleted_files_ e) (new_files_ e).
Definition SetCompactPointer (level : Z) (key : Slice) e : VersionEdit :=
  MkEdit (comparator_ e) (log_number_ e) (prev_log_number_ e) (next_file_number_ e) (last_sequence_ e) (compact_pointers_ e ++ [(level, key)]) (deleted_files_ e) (new_files_ e).
Definition AddNewFile (level : Z) (f : FileMetaData) e : VersionEdit :=
  MkEdit (comparator_ e) (log_number_ e) (prev_log_number_ e) (next_file_number_ e) (last_sequence_ e) (compact_pointers_ e) (deleted_files_ e) (new_files_ e ++ [(level, f)]).
Definition AddFile (level file file_size : Z) (off : Z) (smallest largest : Slice) e : VersionEdit :=
  AddNewFile level (MkFileMetaData file file_size off smallest largest) e.

(** The order of pairs, and insertion in a set of them. *)
Definition pair_lt (a b : Z * Z) : bool := (a.1 <? b.1) || ((a.1 =? b.1) && (a.2 <? b.2)).
Fixpoint set_insert (x : Z * Z) (l : list (Z * Z)) : list (Z * Z) :=
  match l with
  | [] => [x]
  | y :: l' => if pair_lt x y then x :: l else if pair_lt y x then y :: set_insert x l' else l
  end.
Definition DeleteFile (level file : Z) e : VersionEdit :=
  MkEdit (comparator_ e) (log_number_ e) (prev_log_number_ e) (next_file_number_ e) (last_sequence_ e) (compact_pointers_ e) (set_insert (level, file) (deleted_files_ e)) (new_files_ e).

(** ** Encoding *)
Inductive Tag := kComparator | kLogNumber | kNextFileNumber | kLastSequence | kCompactPointer | kDeletedFile | kNewFile | kPrevLogNumber.
Definition Tag_num (t : Tag) : Z :=
  match t with
  | kComparator => 1 | kLogNumber => 2 | kNextFileNumber => 3 | kLastSequence => 4 | kCompactPointer => 5 | kDeletedFile => 6 | kNewFile => 7
  | kPrevLogNumber => 9
  end.
Definition to_Tag (n : Z) : option Tag :=
  if n =? 1 then Some kComparator else if n =? 2 then Some kLogNumber else if n =? 3 then Some kNextFileNumber
  else if n =? 4 then Some kLastSequence else if n =? 5 then Some kCompactPointer else if n =? 6 then Some kDeletedFile
  else if n =? 7 then Some kNewFile else if n =? 9 then Some kPrevLogNumber else None.

Section Encode.
Variable ndebug : bool.

(** [InternalKey::Encode] of a key that must not be empty. *)
Definition InternalKey_Encode (key : Slice) : option Slice := _ ← assert_ ndebug (negb (bool_decide (key = []))); Some key.

Definition put_number (t : Tag) (field : bool * Z) (dst : Slice) : Slice :=
  if field.1 then PutVarint64 (PutVarint32 dst (Tag_num t)) (field.2) else dst.
Definition put_pointer (dst : Slice) (p : Z * Slice) : option Slice :=
  k ← InternalKey_Encode p.2;
  Some (PutLengthPrefixedSlice (PutVarint32 (PutVarint32 dst (Tag_num kCompactPointer)) (u32 p.1)) k).
Definition put_deleted (dst : Slice) (p : Z * Z) : Slice :=
  PutVarint64 (PutVarint32 (PutVarint32 dst (Tag_num kDeletedFile)) (u32 p.1)) p.2.
Definition put_file (dst : Slice) (p : Z * FileMetaData) : option Slice :=
  let f := p.2 in
  let dst := PutVarint32 (PutVarint32 dst (Tag_num kNewFile)) (u32 p.1) in
  let dst := PutVarint64 (PutVarint64 (PutVarint64 dst (number f)) (file_size f)) (u64 (seq_off f)) in
  s ← InternalKey_Encode (smallest f);
  l ← InternalKey_Encode (largest f);
  Some (PutLengthPrefixedSlice (PutLengthPrefixedSlice dst s) l).

Definition VersionEdit_EncodeTo e (dst : Slice) : option Slice :=
  let dst := if (comparator_ e).1 then PutLengthPrefixedSlice (PutVarint32 dst (Tag_num kComparator)) (comparator_ e).2 else dst in
  let dst := put_number kLogNumber (log_number_ e) dst in
  let dst := put_number kPrevLogNumber (prev_log_number_ e) dst in
  let dst := put_number kNextFileNumber (next_file_number_ e) dst in
  let dst := put_number kLastSequence (last_sequence_ e) dst in
  dst ← foldl (λ d p, d ← d; put_pointer d p) (Some dst) (compact_pointers_ e);
  foldl (λ d p, d ← d; put_file d p) (Some (foldl put_deleted dst (deleted_files_ e))) (new_files_ e).
End Encode.

(** ** Decoding *)
Definition GetInternalKey (input : Slice) : option (Slice * Slice) := GetLengthPrefixedSlice input.
Definition GetLevel (input : Slice) : option (Z * Slice) :=
  '(v, input) ← GetVarint32 input; if v <? kNumLevels then Some (v, input) else None.

(** The fields of a new file. *)
Definition GetFile (input : Slice) : option (Z * FileMetaData * Slice) :=
  '(level, input) ← GetLevel input;
  '(number, input) ← GetVarint64 input;
  '(file_size, input) ← GetVarint64 input;
  '(off, input) ← GetVarint64 input;
  '(smallest, input) ← GetInternalKey input;
  '(largest, input) ← GetInternalKey input;
  Some (level, MkFileMetaData number file_size (sword 64 off) smallest largest, input).

Definition or_msg {A} (r : option A) (msg : string) : A + string := match r with Some a => inl a | None => inr msg end.

(** The case of a tag: the edit and the rest of the input, or the message. *)
Definition decode_tag (t : Tag) (input : Slice) e : (VersionEdit * Slice) + string :=
  match t with
  | kComparator =>
      or_msg ('(str, input) ← GetLengthPrefixedSlice input; Some (SetComparatorName str e, input)) "comparator name"
  | kLogNumber => or_msg ('(n, input) ← GetVarint64 input; Some (SetLogNumber n e, input)) "log number"
  | kPrevLogNumber => or_msg ('(n, input) ← GetVarint64 input; Some (SetPrevLogNumber n e, input)) "previous log number"
  | kNextFileNumber => or_msg ('(n, input) ← GetVarint64 input; Some (SetNextFile n e, input)) "next file number"
  | kLastSequence => or_msg ('(n, input) ← GetVarint64 input; Some (SetLastSequence n e, input)) "last sequence number"
  | kCompactPointer =>
      or_msg ('(level, input) ← GetLevel input; '(key, input) ← GetInternalKey input; Some (SetCompactPointer level key e, input))
        "compaction pointer"
  | kDeletedFile =>
      or_msg ('(level, input) ← GetLevel input; '(n, input) ← GetVarint64 input; Some (DeleteFile level n e, input)) "deleted file"
  | kNewFile => or_msg ('(level, f, input) ← GetFile input; Some (AddNewFile level f e, input)) "new-file entry"
  end.

(** The loop; [None] is the fuel's end, which the length of the input keeps away. *)
Fixpoint Decode_loop (fuel : nat) (input : Slice) e : option (option string * VersionEdit) :=
  match fuel with
  | O => None
  | S fuel =>
      match GetVarint32 input with
      | None => Some (if bool_decide (input = []) then None else Some "invalid tag"%string, e)
      | Some (n, input) =>
          match to_Tag n with
          | None => Some (Some "unknown tag"%string, e)
          | Some t => match decode_tag t input e with inl (e, input) => Decode_loop fuel input e | inr msg => Some (Some msg, e) end
          end
      end
  end.
Definition VersionEdit_DecodeFrom (src : Slice) e : option (Status * VersionEdit) :=
  '(msg, e) ← Decode_loop (S (length src)) src (VersionEdit_Clear e);
  Some (match msg with None => OK | Some msg => MkStatus kCorruption (lit "VersionEdit") (lit msg) end, e).

(** ** Well-formed edits *)
Definition wf_file (f : FileMetaData) : Prop :=
  word 64 (number f) /\ word 64 (file_size f) /\ - 2 ^ 63 <= seq_off f < 2 ^ 63 /\ |[smallest f]| < 2 ^ 32 /\ |[largest f]| < 2 ^ 32.
Definition wf_level (n : Z) : Prop := 0 <= n < kNumLevels.
Definition wf_number (field : bool * Z) : Prop := word 64 field.2 /\ (field.1 = false -> field.2 = 0).
Definition pair_order (a b : Z * Z) : Prop := pair_lt a b = true.

Record wf_edit e : Prop := {
  wf_comparator : |[(comparator_ e).2]| < 2 ^ 32 /\ ((comparator_ e).1 = false -> (comparator_ e).2 = []);
  wf_log : wf_number (log_number_ e);
  wf_prev : wf_number (prev_log_number_ e);
  wf_next : wf_number (next_file_number_ e);
  wf_last : wf_number (last_sequence_ e);
  wf_pointers : Forall (λ p, wf_level p.1 /\ |[p.2]| < 2 ^ 32) (compact_pointers_ e);
  wf_deleted : Forall (λ p, wf_level p.1 /\ word 64 p.2) (deleted_files_ e);
  wf_deleted_sorted : StronglySorted pair_order (deleted_files_ e);
  wf_new : Forall (λ p, wf_level p.1 /\ wf_file p.2) (new_files_ e)
}.

Lemma sword_word w z : 0 < w -> - 2 ^ (w - 1) <= sword w z < 2 ^ (w - 1).
Proof.
  intros Hw. unfold sword. pose proof (wrap_word w (z + 2 ^ (w - 1)) ltac:(lia)) as [H1 H2].
  assert (2 ^ w = 2 * 2 ^ (w - 1)) by (rewrite <- Z.pow_succ_r by lia; f_equal; lia). lia.
Qed.
Lemma sword_wrap w z : 0 < w -> - 2 ^ (w - 1) <= z < 2 ^ (w - 1) -> sword w (wrap w z) = z.
Proof.
  intros Hw Hz. unfold sword, wrap. rewrite Zplus_mod_idemp_l.
  assert (2 ^ w = 2 * 2 ^ (w - 1)) by (rewrite <- Z.pow_succ_r by lia; f_equal; lia).
  rewrite Z.mod_small by lia. lia.
Qed.

Lemma pair_lt_spec a b : pair_lt a b = true <-> a.1 < b.1 \/ (a.1 = b.1 /\ a.2 < b.2).
Proof. unfold pair_lt. rewrite orb_true_iff, andb_true_iff, !Z.ltb_lt, Z.eqb_eq. done. Qed.
Lemma pair_lt_trans a b c : pair_order a b -> pair_order b c -> pair_order a c.
Proof. unfold pair_order. rewrite !pair_lt_spec. lia. Qed.
Lemma pair_lt_total a b : pair_lt a b = false -> pair_lt b a = false -> a = b.
Proof.
  destruct a as [a1 a2], b as [b1 b2]. intros Ha%not_true_iff_false Hb%not_true_iff_false. rewrite pair_lt_spec in Ha, Hb. cbn in *.
  assert (a1 = b1 /\ a2 = b2) as [-> ->] by lia. done.
Qed.

Lemma elem_of_set_insert x y l : y ∈ set_insert x l <-> y = x \/ y ∈ l.
Proof.
  induction l as [| z l IH]; cbn [set_insert]; [by rewrite list_elem_of_singleton, elem_of_nil; naive_solver |].
  destruct (pair_lt x z) eqn:E1; [by rewrite !elem_of_cons; naive_solver |]. destruct (pair_lt z x) eqn:E2.
  - rewrite !elem_of_cons, IH. naive_solver.
  - rewrite (pair_lt_total x z E1 E2), !elem_of_cons. naive_solver.
Qed.
Lemma set_insert_sorted x l : StronglySorted pair_order l -> StronglySorted pair_order (set_insert x l).
Proof.
  induction 1 as [| y l Hl IH Hy]; cbn [set_insert]; [repeat constructor |]. destruct (pair_lt x y) eqn:E1.
  - constructor; [by constructor |]. constructor; [done |]. eapply list.Forall_impl; [exact Hy |]. intros z. by apply pair_lt_trans.
  - destruct (pair_lt y x) eqn:E2; [| by constructor]. constructor; [done |]. apply list.Forall_forall. intros z [-> | Hz]%elem_of_set_insert; [done |].
    rewrite list.Forall_forall in Hy. by apply Hy.
Qed.
(** A set rebuilt in order is the same list. *)
Lemma set_insert_last x l : (∀ y, y ∈ l -> pair_order y x) -> set_insert x l = l ++ [x].
Proof.
  induction l as [| y l IH]; intros Hl; [done |]. cbn [set_insert app].
  assert (pair_order y x) as Hy by (apply Hl; by left). destruct (pair_lt x y) eqn:E.
  - pose proof (pair_lt_trans x y x E Hy) as Hx. unfold pair_order in Hx. rewrite pair_lt_spec in Hx. lia.
  - rewrite Hy, IH; [done |]. intros z Hz. apply Hl. by right.
Qed.

(** * Theorems on version edits: the round trip of their encoding, and what a decoded edit looks like *)

(** ** One record of the encoding *)
Section Chunks.
Implicit Types (g : VersionEdit -> VersionEdit) (c rest : Slice).

(** A chunk is decoded in one round of the loop, with the effect [g]. *)
Definition chunk_ok (x : Slice * (VersionEdit -> VersionEdit)) : Prop :=
  ∀ rest e, ∃ n t input, GetVarint32 (x.1 ++ rest) = Some (n, input) /\ to_Tag n = Some t /\ decode_tag t input e = inl (x.2 e, rest).

Lemma Tag_word t : word 32 (Tag_num t).
Proof. by destruct t. Qed.
Lemma to_Tag_num t : to_Tag (Tag_num t) = Some t.
Proof. by destruct t. Qed.

Lemma chunk_intro t body g : (∀ rest e, decode_tag t (body ++ rest) e = inl (g e, rest)) -> chunk_ok (EncodeVarint32 (Tag_num t) ++ body, g).
Proof.
  intros Hg rest e. exists (Tag_num t), t, (body ++ rest). cbn [fst snd]. rewrite <- app_assoc. rewrite GetVarint32_encode by apply Tag_word.
  split; [done |]. split; [apply to_Tag_num | apply Hg].
Qed.

Lemma chunk_nonempty x : chunk_ok x -> (1 <= length x.1)%nat.
Proof.
  intros H. destruct (H [] new_VersionEdit) as (n & t & input & E & _). rewrite app_nil_r in E. apply GetVarint32_rest in E. lia.
Qed.

Lemma Decode_chunks l fuel e : Forall chunk_ok l -> (length (concat l.*1) < fuel)%nat ->
  Decode_loop fuel (concat l.*1) e = Some (None, foldl (λ e x, x.2 e) e l).
Proof.
  intros Hl. revert fuel e. induction Hl as [| x l Hx Hl IH]; intros fuel e Hf; (destruct fuel as [| fuel]; [cbn in Hf; lia |]); [done |].
  cbn [fmap list_fmap concat foldl] in *. pose proof (chunk_nonempty x Hx). rewrite length_app in Hf.
  destruct (Hx (concat l.*1) e) as (n & t & input & E1 & E2 & E3). cbn [Decode_loop]. rewrite E1, E2, E3. apply IH. lia.
Qed.

(** The chunks of the fields. *)
Definition number_chunk (t : Tag) (set : Z -> VersionEdit -> VersionEdit) (field : bool * Z) : list (Slice * (VersionEdit -> VersionEdit)) :=
  if field.1 then [(EncodeVarint32 (Tag_num t) ++ EncodeVarint64 field.2, set field.2)] else [].
Definition pointer_chunk (p : Z * Slice) : Slice * (VersionEdit -> VersionEdit) :=
  (EncodeVarint32 (Tag_num kCompactPointer) ++ EncodeVarint32 (u32 p.1) ++ EncodeLengthPrefixedSlice p.2, SetCompactPointer p.1 p.2).
Definition deleted_chunk (p : Z * Z) : Slice * (VersionEdit -> VersionEdit) :=
  (EncodeVarint32 (Tag_num kDeletedFile) ++ EncodeVarint32 (u32 p.1) ++ EncodeVarint64 p.2, DeleteFile p.1 p.2).
Definition file_bytes (f : FileMetaData) : Slice :=
  EncodeVarint64 (number f) ++ EncodeVarint64 (file_size f) ++ EncodeVarint64 (u64 (seq_off f)) ++
  EncodeLengthPrefixedSlice (smallest f) ++ EncodeLengthPrefixedSlice (largest f).
Definition file_chunk (p : Z * FileMetaData) : Slice * (VersionEdit -> VersionEdit) :=
  (EncodeVarint32 (Tag_num kNewFile) ++ EncodeVarint32 (u32 p.1) ++ file_bytes p.2, AddNewFile p.1 p.2).
Definition comparator_chunk (field : bool * Slice) : list (Slice * (VersionEdit -> VersionEdit)) :=
  if field.1 then [(EncodeVarint32 (Tag_num kComparator) ++ EncodeLengthPrefixedSlice field.2, SetComparatorName field.2)] else [].
Definition edit_chunks e : list (Slice * (VersionEdit -> VersionEdit)) :=
  comparator_chunk (comparator_ e) ++ number_chunk kLogNumber SetLogNumber (log_number_ e) ++
  number_chunk kPrevLogNumber SetPrevLogNumber (prev_log_number_ e) ++ number_chunk kNextFileNumber SetNextFile (next_file_number_ e) ++
  number_chunk kLastSequence SetLastSequence (last_sequence_ e) ++
  (pointer_chunk <$> compact_pointers_ e) ++ (deleted_chunk <$> deleted_files_ e) ++ (file_chunk <$> new_files_ e).

Lemma GetLevel_encode n rest : wf_level n -> GetLevel (EncodeVarint32 (u32 n) ++ rest) = Some (n, rest).
Proof.
  intros [H0 H7]. unfold kNumLevels in H7. assert (word 32 n) as Hw by (split; [done | change (2 ^ 32) with 4294967296; lia]).
  unfold GetLevel, u32. rewrite wrap_small by done. rewrite GetVarint32_encode by done. cbn [mbind option_bind].
  unfold kNumLevels. by destruct (Z.ltb_spec n 7); [| lia].
Qed.

Lemma edit_chunks_ok e : wf_edit e -> Forall chunk_ok (edit_chunks e).
Proof.
  intros [Hc Hl Hp Hn Hs Hptr Hd _ Hf]. unfold edit_chunks.
  assert (∀ t set field, wf_number field -> (∀ rest e, decode_tag t rest e = or_msg ('(n, i) ← GetVarint64 rest; Some (set n e, i))
    (match t with kLogNumber => "log number" | kPrevLogNumber => "previous log number" | kNextFileNumber => "next file number" | _ => "last sequence number" end)) ->
    Forall chunk_ok (number_chunk t set field)) as Hnum.
  { intros t set [b n] [Hw _] Ht. unfold number_chunk. destruct b; cbn [fst snd]; [| apply Forall_nil_2]. apply list.Forall_singleton, chunk_intro.
    intros rest e'. rewrite Ht. by rewrite GetVarint64_encode by done. }
  repeat (apply list.Forall_app; split); try by apply Hnum.
  - unfold comparator_chunk. destruct (comparator_ e) as [[] c]; cbn [fst snd] in *; [| apply Forall_nil_2].
    apply list.Forall_singleton, chunk_intro. intros rest e'. cbn [decode_tag]. by rewrite GetLengthPrefixedSlice_encode by apply Hc.
  - apply list.Forall_fmap. eapply list.Forall_impl; [exact Hptr |]. intros [n k] [Hn' Hk]. apply chunk_intro. intros rest e'. cbn [decode_tag fst snd] in *.
    rewrite <- app_assoc, GetLevel_encode by done. cbn [mbind option_bind]. unfold GetInternalKey. by rewrite GetLengthPrefixedSlice_encode.
  - apply list.Forall_fmap. eapply list.Forall_impl; [exact Hd |]. intros [n k] [Hn' Hk]. apply chunk_intro. intros rest e'. cbn [decode_tag fst snd] in *.
    rewrite <- app_assoc, GetLevel_encode by done. cbn [mbind option_bind]. by rewrite GetVarint64_encode.
  - apply list.Forall_fmap. eapply list.Forall_impl; [exact Hf |]. intros [n [num sz off sm la]] [Hn' (H1 & H2 & H3 & H4 & H5)]. apply chunk_intro.
    intros rest e'. cbn [fst snd number file_size seq_off smallest largest] in *. unfold file_bytes. cbn [number file_size seq_off smallest largest].
    rewrite <- !app_assoc. cbn [decode_tag]. unfold GetFile. rewrite GetLevel_encode by done. cbn [mbind option_bind].
    rewrite !GetVarint64_encode by (done || (apply wrap_word; lia)). cbn [mbind option_bind]. rewrite !GetVarint64_encode by (done || (apply wrap_word; lia)). cbn [mbind option_bind].
    rewrite !GetVarint64_encode by (done || (apply wrap_word; lia)). cbn [mbind option_bind].
    unfold GetInternalKey. rewrite GetLengthPrefixedSlice_encode by done. cbn [mbind option_bind]. rewrite GetLengthPrefixedSlice_encode by done. cbn [mbind option_bind].
    unfold u64. by rewrite sword_wrap by (done || lia).
Qed.
End Chunks.

(** ** The whole edit *)
Section Edit.
Implicit Types (dst : Slice).

(** The keys of an edit are set. *)
Definition keys_set e : Prop := Forall (λ p, p.2 <> []) (compact_pointers_ e) /\ Forall (λ p, smallest p.2 <> [] /\ largest p.2 <> []) (new_files_ e).

Lemma InternalKey_Encode_ok ndebug k : k <> [] -> InternalKey_Encode ndebug k = Some k.
Proof. intros Hk. unfold InternalKey_Encode. by rewrite assert_bool by (by rewrite bool_decide_false). Qed.

Lemma foldl_put {A} (put : Slice -> A -> option Slice) (chunk : A -> Slice * (VersionEdit -> VersionEdit)) l dst :
  (∀ d p, p ∈ l -> put d p = Some (d ++ (chunk p).1)) ->
  foldl (λ d p, d ← d; put d p) (Some dst) l = Some (dst ++ concat (chunk <$> l).*1).
Proof.
  revert dst. induction l as [| p l IH]; intros dst Hp; cbn [foldl fmap list_fmap concat]; [by rewrite app_nil_r |]. cbn [mbind option_bind].
  rewrite Hp by left. rewrite IH by (intros; apply Hp; by right). by rewrite <- app_assoc.
Qed.

Lemma put_number_chunk t set field dst : put_number t field dst = dst ++ concat (number_chunk t set field).*1.
Proof.
  unfold put_number, number_chunk. destruct field as [[] n]; cbn [fst snd]; [| by rewrite app_nil_r]. unfold PutVarint64, PutVarint32.
  cbn [fmap list_fmap concat fst]. by rewrite app_nil_r, <- app_assoc.
Qed.

Lemma foldl_put_deleted l dst : foldl put_deleted dst l = dst ++ concat (deleted_chunk <$> l).*1.
Proof.
  revert dst. induction l as [| p l IH]; intros dst; cbn [foldl fmap list_fmap concat]; [by rewrite app_nil_r |].
  rewrite IH. unfold put_deleted, deleted_chunk, PutVarint64, PutVarint32. cbn [fst]. by rewrite <- !app_assoc.
Qed.

Lemma EncodeTo_chunks ndebug e dst : keys_set e -> VersionEdit_EncodeTo ndebug e dst = Some (dst ++ concat (edit_chunks e).*1).
Proof.
  intros [Hp Hf]. unfold VersionEdit_EncodeTo.
  assert ((if (comparator_ e).1 then PutLengthPrefixedSlice (PutVarint32 dst (Tag_num kComparator)) (comparator_ e).2 else dst)
          = dst ++ concat (comparator_chunk (comparator_ e)).*1) as ->.
  { unfold comparator_chunk. destruct (comparator_ e) as [[] c]; cbn [fst snd]; [| by rewrite app_nil_r]. rewrite PutLengthPrefixedSlice_app.
    unfold PutVarint32. cbn [fmap list_fmap concat fst]. by rewrite app_nil_r, <- app_assoc. }
  rewrite (put_number_chunk kLogNumber SetLogNumber), (put_number_chunk kPrevLogNumber SetPrevLogNumber), (put_number_chunk kNextFileNumber SetNextFile),
    (put_number_chunk kLastSequence SetLastSequence).
  rewrite (foldl_put (put_pointer ndebug) pointer_chunk). 2: { intros d p Hin. rewrite list.Forall_forall in Hp. unfold put_pointer. rewrite InternalKey_Encode_ok by by apply Hp.
    cbn [mbind option_bind]. rewrite PutLengthPrefixedSlice_app. unfold PutVarint32, pointer_chunk. cbn [fst]. by rewrite <- !app_assoc. }
  cbn [mbind option_bind]. rewrite (foldl_put (put_file ndebug) file_chunk). 2: { intros d p Hin. rewrite list.Forall_forall in Hf. destruct (Hf p Hin) as [Hs Hl].
    unfold put_file. rewrite !InternalKey_Encode_ok by done. cbn [mbind option_bind]. rewrite !PutLengthPrefixedSlice_app. unfold PutVarint64, PutVarint32, file_chunk, file_bytes. cbn [fst].
    by rewrite <- !app_assoc. }
  rewrite foldl_put_deleted. unfold edit_chunks. rewrite !fmap_app, !concat_app, <- !app_assoc. done.
Qed.

(** What the chunks do to an edit that was cleared. *)
Lemma foldl_pointers l e :
  foldl (λ e (x : Slice * (VersionEdit -> VersionEdit)), x.2 e) e (pointer_chunk <$> l) =
  MkEdit (comparator_ e) (log_number_ e) (prev_log_number_ e) (next_file_number_ e) (last_sequence_ e) (compact_pointers_ e ++ l) (deleted_files_ e) (new_files_ e).
Proof.
  revert e. induction l as [| [n k] l IH]; intros [c l1 l2 l3 l4 ps ds fs]; cbn [foldl fmap list_fmap]; [by rewrite app_nil_r |].
  rewrite IH. unfold SetCompactPointer. cbn. by rewrite <- app_assoc.
Qed.
Lemma foldl_files l e :
  foldl (λ e (x : Slice * (VersionEdit -> VersionEdit)), x.2 e) e (file_chunk <$> l) =
  MkEdit (comparator_ e) (log_number_ e) (prev_log_number_ e) (next_file_number_ e) (last_sequence_ e) (compact_pointers_ e) (deleted_files_ e) (new_files_ e ++ l).
Proof.
  revert e. induction l as [| [n k] l IH]; intros [c l1 l2 l3 l4 ps ds fs]; cbn [foldl fmap list_fmap]; [by rewrite app_nil_r |].
  rewrite IH. unfold AddNewFile. cbn. by rewrite <- app_assoc.
Qed.
Lemma foldl_deleted l e : StronglySorted pair_order (deleted_files_ e ++ l) ->
  foldl (λ e (x : Slice * (VersionEdit -> VersionEdit)), x.2 e) e (deleted_chunk <$> l) =
  MkEdit (comparator_ e) (log_number_ e) (prev_log_number_ e) (next_file_number_ e) (last_sequence_ e) (compact_pointers_ e) (deleted_files_ e ++ l) (new_files_ e).
Proof.
  revert e. induction l as [| [n k] l IH]; intros [c l1 l2 l3 l4 ps ds fs] Hs; cbn [foldl fmap list_fmap deleted_files_] in *; [by rewrite app_nil_r |].
  assert (set_insert (n, k) ds = ds ++ [(n, k)]) as E.
  { apply set_insert_last. intros y Hy. apply StronglySorted_app in Hs as (Hs & _ & _). by apply (Hs y (n, k)); [| left]. }
  rewrite IH; unfold DeleteFile; cbn; rewrite E, <- app_assoc; done.
Qed.

Definition with_pointers (ps : list (Z * Slice)) e : VersionEdit :=
  MkEdit (comparator_ e) (log_number_ e) (prev_log_number_ e) (next_file_number_ e) (last_sequence_ e) ps (deleted_files_ e) (new_files_ e).

Lemma foldl_edit e e0 : wf_edit e ->
  foldl (λ e (x : Slice * (VersionEdit -> VersionEdit)), x.2 e) (VersionEdit_Clear e0) (edit_chunks e) = with_pointers (compact_pointers_ e0 ++ compact_pointers_ e) e.
Proof.
  intros [[_ Hc] [_ Hl] [_ Hp] [_ Hn] [_ Hs] _ _ Hd _]. destruct e as [[bc c] [bl nl] [bp np] [bn nn] [bs ns] ps ds fs]. cbn [fst snd comparator_ log_number_ prev_log_number_ next_file_number_ last_sequence_ deleted_files_] in *.
  unfold edit_chunks. rewrite !foldl_app. unfold comparator_chunk, number_chunk. cbn [fst snd comparator_ log_number_ prev_log_number_ next_file_number_ last_sequence_ compact_pointers_ deleted_files_ new_files_].
  rewrite foldl_files, foldl_deleted, foldl_pointers.
  - destruct bc, bl, bp, bn, bs; cbn; unfold with_pointers; cbn; repeat match goal with H : false = false -> _ |- _ => specialize (H eq_refl) as -> end; done.
  - rewrite foldl_pointers. destruct bc, bl, bp, bn, bs; cbn; exact Hd.
Qed.

(** The encoding, and what it decodes to. *)
Definition edit_bytes e : Slice := concat (edit_chunks e).*1.
Lemma EncodeTo_bytes ndebug e : keys_set e -> VersionEdit_EncodeTo ndebug e [] = Some (edit_bytes e).
Proof. intros Hk. by rewrite EncodeTo_chunks. Qed.
Lemma Decode_edit_bytes e e0 : wf_edit e -> VersionEdit_DecodeFrom (edit_bytes e) e0 = Some (OK, with_pointers (compact_pointers_ e0 ++ compact_pointers_ e) e).
Proof.
  intros Hw. unfold VersionEdit_DecodeFrom, edit_bytes. rewrite Decode_chunks by (try apply edit_chunks_ok; done || lia). cbn [mbind option_bind]. by rewrite foldl_edit.
Qed.
Definition bytes_edit e : Prop := bytes (comparator_ e).2 /\ Forall (λ p, bytes p.2) (compact_pointers_ e) /\ Forall (λ p, bytes (smallest p.2) /\ bytes (largest p.2)) (new_files_ e).
Lemma bytes_edit_bytes e : bytes_edit e -> bytes (edit_bytes e).
Proof.
  intros (Hc & Hp & Hf). unfold edit_bytes, edit_chunks. rewrite !fmap_app, !concat_app.
  assert (∀ t set field, bytes (concat (number_chunk t set field).*1)) as Hnum.
  { intros t set [[] n]; unfold number_chunk; cbn [fst snd fmap list_fmap concat]; [| apply Forall_nil_2]. rewrite app_nil_r. apply Forall_app. split; [apply bytes_EncodeVarint32 | apply bytes_EncodeVarint64]. }
  assert (∀ x, bytes x -> bytes (EncodeLengthPrefixedSlice x)) as Hl by (intros x Hx; apply Forall_app; split; [apply bytes_EncodeVarint32 | done]).
  repeat (apply Forall_app; split); try apply Hnum.
  - unfold comparator_chunk. destruct (comparator_ e) as [[] c]; cbn [fst snd fmap list_fmap concat] in *; [| apply Forall_nil_2]. rewrite app_nil_r. apply Forall_app. split; [apply bytes_EncodeVarint32 | by apply Hl].
  - rewrite <- list_fmap_compose. induction Hp as [| [lv k] l Hk Hp IH]; [apply Forall_nil_2 |]. cbn [fmap list_fmap concat]. apply Forall_app. split; [| exact IH].
    unfold pointer_chunk, compose. cbn [fst snd]. repeat first [apply bytes_EncodeVarint32 | by apply Hl | apply Forall_app; split].
  - rewrite <- list_fmap_compose. induction (deleted_files_ e) as [| [lv k] l IH]; [apply Forall_nil_2 |]. cbn [fmap list_fmap concat]. apply Forall_app. split; [| exact IH].
    unfold deleted_chunk, compose. cbn [fst snd]. repeat first [apply bytes_EncodeVarint32 | apply bytes_EncodeVarint64 | apply Forall_app; split].
  - rewrite <- list_fmap_compose. induction Hf as [| [lv k] l [Hk1 Hk2] Hf IH]; [apply Forall_nil_2 |]. cbn [fmap list_fmap concat]. apply Forall_app. split; [| exact IH].
    unfold file_chunk, file_bytes, compose. cbn [fst snd]. repeat first [apply bytes_EncodeVarint32 | apply bytes_EncodeVarint64 | by apply Hl | apply Forall_app; split].
Qed.

(** C36. Version edits round-trip: the decoder gives back every edit the encoder wrote, fields and flags, files in order and
    deleted files as a set, except that it keeps the compaction pointers the edit had before, which [Clear] forgets to remove. *)
Theorem version_edit_roundtrip (ndebug : bool) (e e0 : VersionEdit) : wf_edit e -> keys_set e ->
  ∃ b, VersionEdit_EncodeTo ndebug e [] = Some b /\
    VersionEdit_DecodeFrom b e0 = Some (OK, with_pointers (compact_pointers_ e0 ++ compact_pointers_ e) e).
Proof.
  intros Hw Hk. exists (edit_bytes e). split; [by apply EncodeTo_bytes | by apply Decode_edit_bytes].
Qed.

Definition example_edit : VersionEdit :=
  MkEdit (true, lit "leveldb.BytewiseComparator") (true, 7) (false, 0) (true, 2 ^ 63) (true, 300) [(1, ikey (lit "m") 0x101)] [(0, 3); (0, 5); (2, 4)]
    [(1, MkFileMetaData 9 4096 (-3) (ikey (lit "a") 0x501) (ikey (lit "q") 0x200)); (6, MkFileMetaData 10 0 5 (ikey (lit "r") 0x501) (ikey (lit "z") 0x200))].
Lemma version_edit_roundtrip_witness :
  ∃ b, VersionEdit_EncodeTo false example_edit [] = Some b /\ VersionEdit_DecodeFrom b new_VersionEdit = Some (OK, example_edit).
Proof.
  apply (version_edit_roundtrip false example_edit new_VersionEdit).
  - split; try (split; [by_compute | done]); try by_compute; repeat first [apply Forall_nil_2 | apply Forall_cons_2; [split; by_compute |]].
    repeat constructor.
  - split; repeat first [apply Forall_nil_2 | apply Forall_cons_2; [by repeat split |]].
Defined.
End Edit.

(** ** What a decoded edit looks like *)
Section Decoded.

(** [q] is what is left of [p]. *)
Definition rest_of (p q : Slice) : Prop := bytes p -> bytes q /\ (length q < length p)%nat.

Lemma lor_word w a b : 0 <= w -> word w a -> word w b -> word w (Z.lor a b).
Proof.
  intros Hw Ha Hb. rewrite <- (wrap_small w a Ha), <- (wrap_small w b Hb), !wrap_land, <- Z.land_lor_distr_l by done. by apply land_ones_word.
Qed.
Lemma GetVarint_loop_word w last p s r v q : 0 <= w -> word w r -> GetVarint_loop w last p s r = Some (v, q) -> word w v /\ rest_of p q.
Proof.
  intros Hw. revert s r. induction p as [| b p IH]; intros s r Hr; cbn [GetVarint_loop]; [done |]. destruct (s <=? last); [| done].
  assert (word w (Z.lor r (wrap w (Z.shiftl b s)))) as H1 by by (apply lor_word; [.. | apply wrap_word]).
  case_decide.
  - intros [= <- <-]. split; [done |]. intros [_ Hb]%list.Forall_cons. cbn. split; [done | lia].
  - intros H'. apply IH in H' as [Hv Hq]; [| by apply lor_word; [.. | apply wrap_word]]. split; [done |].
    intros [_ Hb]%list.Forall_cons. destruct (Hq Hb). cbn. split; [done | lia].
Qed.
Lemma GetVarint64_word p v q : GetVarint64 p = Some (v, q) -> word 64 v /\ rest_of p q.
Proof. intros H. eapply GetVarint_loop_word; [| | exact H]; by (lia || split). Qed.
Lemma GetVarint32_word p v q : bytes p -> GetVarint32 p = Some (v, q) -> word 32 v /\ rest_of p q.
Proof.
  intros Hb. unfold GetVarint32, GetVarint32Ptr, GetVarint32PtrFallback. destruct p as [| b p]; [done |]. case_decide.
  - intros [= <- <-]. apply list.Forall_cons in Hb as [Hb Hp]. split; [eapply word_mono; [exact Hb | lia] |]. intros _. cbn. split; [done | lia].
  - intros H'. eapply GetVarint_loop_word; [| | exact H']; by (lia || split).
Qed.
Lemma GetPrefixed_word p s q : bytes p -> GetLengthPrefixedSlice p = Some (s, q) -> |[s]| < 2 ^ 32 /\ rest_of p q.
Proof.
  intros Hb. unfold GetLengthPrefixedSlice. destruct (GetVarint32 p) as [[len r] |] eqn:E; [cbn [mbind option_bind] | done].
  destruct (GetVarint32_word p len r Hb E) as [[H0 Hl] Hr]. destruct (len <=? |[r]|); [| done]. intros [= <- <-]. split.
  - rewrite slice_size_take by done. lia.
  - intros Hp. destruct (Hr Hp) as [Hbr Hlr]. split; [by apply Forall_drop | rewrite length_drop; lia].
Qed.
Lemma GetLevel_word p n q : bytes p -> GetLevel p = Some (n, q) -> wf_level n /\ rest_of p q.
Proof.
  intros Hb. unfold GetLevel. destruct (GetVarint32 p) as [[v r] |] eqn:E; [cbn [mbind option_bind] | done].
  destruct (GetVarint32_word p v r Hb E) as [[H0 _] Hr]. destruct (Z.ltb_spec v kNumLevels); [| done]. intros [= <- <-]. by split.
Qed.
Lemma rest_trans p q r : rest_of p q -> rest_of q r -> rest_of p r.
Proof. intros H1 H2 Hp. destruct (H1 Hp) as [Hq ?], (H2 Hq) as [Hr ?]. split; [done | lia]. Qed.

Lemma GetFile_word p n f q : bytes p -> GetFile p = Some (n, f, q) -> wf_level n /\ wf_file f /\ rest_of p q.
Proof.
  intros Hb. unfold GetFile.
  destruct (GetLevel p) as [[n' p1] |] eqn:E1; [| done]. destruct (GetLevel_word p _ _ Hb E1) as [Hn R1]. destruct (R1 Hb) as [B1 _]. cbn [mbind option_bind].
  destruct (GetVarint64 p1) as [[a p2] |] eqn:E2; [| done]. destruct (GetVarint64_word p1 _ _ E2) as [Ha R2]. destruct (R2 B1) as [B2 _]. cbn [mbind option_bind].
  destruct (GetVarint64 p2) as [[b p3] |] eqn:E3; [| done]. destruct (GetVarint64_word p2 _ _ E3) as [Hb' R3]. destruct (R3 B2) as [B3 _]. cbn [mbind option_bind].
  destruct (GetVarint64 p3) as [[c p4] |] eqn:E4; [| done]. destruct (GetVarint64_word p3 _ _ E4) as [Hc R4]. destruct (R4 B3) as [B4 _]. cbn [mbind option_bind].
  unfold GetInternalKey.
  destruct (GetLengthPrefixedSlice p4) as [[s p5] |] eqn:E5; [| done]. destruct (GetPrefixed_word p4 _ _ B4 E5) as [Hs R5]. destruct (R5 B4) as [B5 _]. cbn [mbind option_bind].
  destruct (GetLengthPrefixedSlice p5) as [[l p6] |] eqn:E6; [| done]. destruct (GetPrefixed_word p5 _ _ B5 E6) as [Hl R6]. cbn [mbind option_bind].
  intros [= <- <- <-]. split; [done |]. split.
  - split; [done |]. split; [done |]. split; [by apply (sword_word 64) |]. by split.
  - eapply rest_trans; [exact R1 |]. eapply rest_trans; [exact R2 |]. eapply rest_trans; [exact R3 |]. eapply rest_trans; [exact R4 |]. by eapply rest_trans.
Qed.

(** Every case of the decoder keeps the invariant. *)
Lemma decode_tag_wf t p e e' q : bytes p -> wf_edit e -> decode_tag t p e = inl (e', q) -> wf_edit e' /\ rest_of p q.
Proof.
  intros Hb [Hc Hl Hp Hn Hs Hptr Hd Hds Hf].
  assert (∀ n, word 64 n -> wf_number (true, n)) as Hnum by (intros; by split).
  destruct t; cbn [decode_tag].
  - destruct (GetLengthPrefixedSlice p) as [[s r] |] eqn:E; [| done]. destruct (GetPrefixed_word p _ _ Hb E) as [Hs1 R]. intros [= <- <-].
    split; [| done]. by split.
  - destruct (GetVarint64 p) as [[n r] |] eqn:E; [| done]. destruct (GetVarint64_word p _ _ E) as [Hw R]. intros [= <- <-]. split; [split; cbn; auto | done].
  - destruct (GetVarint64 p) as [[n r] |] eqn:E; [| done]. destruct (GetVarint64_word p _ _ E) as [Hw R]. intros [= <- <-]. split; [split; cbn; auto | done].
  - destruct (GetVarint64 p) as [[n r] |] eqn:E; [| done]. destruct (GetVarint64_word p _ _ E) as [Hw R]. intros [= <- <-]. split; [split; cbn; auto | done].
  - destruct (GetLevel p) as [[n r] |] eqn:E; [| done]. destruct (GetLevel_word p _ _ Hb E) as [Hn1 R]. destruct (R Hb) as [Br _]. cbn [mbind option_bind].
    unfold GetInternalKey. destruct (GetLengthPrefixedSlice r) as [[k r2] |] eqn:E2; [| done]. destruct (GetPrefixed_word r _ _ Br E2) as [Hk R2]. intros [= <- <-].
    split; [| by eapply rest_trans]. split; cbn; auto. apply list.Forall_app. split; [done |]. by apply list.Forall_singleton.
  - destruct (GetLevel p) as [[n r] |] eqn:E; [| done]. destruct (GetLevel_word p _ _ Hb E) as [Hn1 R]. destruct (R Hb) as [Br _]. cbn [mbind option_bind].
    destruct (GetVarint64 r) as [[k r2] |] eqn:E2; [| done]. destruct (GetVarint64_word r _ _ E2) as [Hk R2]. intros [= <- <-].
    split; [| by eapply rest_trans]. split; cbn; auto; [| by apply set_insert_sorted]. apply list.Forall_forall. intros x [-> | Hx]%elem_of_set_insert; [done |].
    rewrite list.Forall_forall in Hd. by apply Hd.
  - destruct (GetFile p) as [[[n f] r] |] eqn:E; [| done]. destruct (GetFile_word p _ _ _ Hb E) as (Hn1 & Hf1 & R). intros [= <- <-].
    split; [| done]. split; cbn; auto. apply list.Forall_app. split; [done |]. by apply list.Forall_singleton.
  - destruct (GetVarint64 p) as [[n r] |] eqn:E; [| done]. destruct (GetVarint64_word p _ _ E) as [Hw R]. intros [= <- <-]. split; [split; cbn; auto | done].
Qed.

Lemma Decode_loop_wf fuel p e : bytes p -> wf_edit e -> (length p < fuel)%nat -> ∃ msg e', Decode_loop fuel p e = Some (msg, e') /\ wf_edit e'.
Proof.
  revert p e. induction fuel as [| fuel IH]; intros p e Hb He Hf; [lia |]. cbn [Decode_loop].
  destruct (GetVarint32 p) as [[n r] |] eqn:E; [| by eexists _, _]. destruct (GetVarint32_word p _ _ Hb E) as [_ R]. destruct (R Hb) as [Br Hr].
  destruct (to_Tag n) as [t |]; [| by eexists _, _]. destruct (decode_tag t r e) as [[e' q] | msg] eqn:Et; [| by eexists _, _].
  destruct (decode_tag_wf t r e e' q Br He Et) as [He' Rq]. destruct (Rq Br) as [Bq Hq]. apply IH; [done.. | lia].
Qed.

(** C37. Whatever the bytes of a manifest record are, decoding ends, and the edit it leaves, on success or at an error, has the
    type the rest of the database relies on: levels below seven, numbers of 64 bits, offsets of signed 64 bits, keys shorter than 4 GiB, and an ordered set
    of deleted files; fields without their flag have their initial value. *)
Theorem decoded_edit_type (src : Slice) (e0 : VersionEdit) : bytes src -> Forall (λ p, wf_level p.1 /\ |[p.2]| < 2 ^ 32) (compact_pointers_ e0) ->
  ∃ s e, VersionEdit_DecodeFrom src e0 = Some (s, e) /\ wf_edit e.
Proof.
  intros Hb Hp. unfold VersionEdit_DecodeFrom. destruct (Decode_loop_wf (S (length src)) src (VersionEdit_Clear e0)) as (msg & e & E & He); [done | | lia |].
  - split; try done; apply Forall_nil_2 || constructor.
  - rewrite E. cbn [mbind option_bind]. by eexists _, _.
Qed.

Lemma decoded_edit_type_witness : ∃ s e, VersionEdit_DecodeFrom [2; 200; 3; 6; 1; 9; 6; 0; 9; 7; 7] new_VersionEdit = Some (s, e) /\ wf_edit e.
Proof. apply (decoded_edit_type [2; 200; 3; 6; 1; 9; 6; 0; 9; 7; 7] new_VersionEdit); [by_compute | apply Forall_nil_2]. Defined.
End Decoded.
