(* ===== verification/DbOptions.v ===== *)
(** * Options of a database ([leveldb/options.h], [leveldb/db/options.cc])

    The options the versions, the compactions and the database read; pointers to the environment and to caches are
    parameters of the functions that use them. *)
From S2P Require Import Prelude Format Filter TableBuilder VersionEdit.

Record DbOptions := MkDbOptions {
  create_if_missing : bool; error_if_exists : bool; write_buffer_size : Z; table_options : Options;
  no_memtable : bool; gc_skip_deletion : bool; skip_lock_file : bool; rotating_manifest : bool; sync_log_on_close : bool;
  disable_write_ahead_log : bool; disable_compaction : bool; disable_seek_compaction : bool;
  table_builder_skip_verification : bool; prefetch_compaction_input : bool; table_bulk_read_size : Z; table_file_size : Z;
  max_mem_compact_level : Z; level_factor : Z; l1_compaction_trigger : Z; l0_compaction_trigger : Z; l0_soft_limit : Z; l0_hard_limit : Z
}.

(** The default values. *)
Definition new_DbOptions : DbOptions :=
  MkDbOptions false false (4 * 1048576) (MkOptions (4 * 1024) 16 1 kSnappyCompression None false)
    false false false false false false false false false false (256 * 1024) (2 * 1048576) 2 10 5 4 8 12.

(** The field is compared after a cast to [int]. *)
Definition ClipToRange (v minvalue maxvalue : Z) : Z :=
  let v := if sword 32 v >? maxvalue then maxvalue else v in
  if sword 32 v <? minvalue then minvalue else v.

(** The part of [SanitizeOptions] that changes these fields; [ipolicy] wraps the filter policy. *)
Definition SanitizeOptions (ipolicy : FilterPolicy -> FilterPolicy) (src : DbOptions) : DbOptions :=
  let t := table_options src in
  MkDbOptions (create_if_missing src) (error_if_exists src) (ClipToRange (write_buffer_size src) (Z.shiftl 64 10) (Z.shiftl 1 30))
    (MkOptions (ClipToRange (block_size t) (Z.shiftl 1 10) (Z.shiftl 4 20)) (ClipToRange (block_restart_interval t) 1 1024)
       (ClipToRange (index_block_restart_interval t) 1 1024) (compression t) (ipolicy <$> filter_policy t) (paranoid_checks t))
    (no_memtable src) (gc_skip_deletion src) (skip_lock_file src) (rotating_manifest src) (sync_log_on_close src)
    (disable_write_ahead_log src) (disable_compaction src) (disable_compaction src || disable_seek_compaction src)
    (table_builder_skip_verification src) (prefetch_compaction_input src) (table_bulk_read_size src) (table_file_size src)
    (max_mem_compact_level src) (level_factor src) (l1_compaction_trigger src) (l0_compaction_trigger src) (l0_soft_limit src) (l0_hard_limit src).

(** What fits an [int] is clipped; a larger size may pass unseen. *)
Lemma sword_id w z : 0 < w -> - 2 ^ (w - 1) <= z < 2 ^ (w - 1) -> sword w z = z.
Proof.
  intros Hw Hz. unfold sword, wrap. assert (2 ^ w = 2 * 2 ^ (w - 1)) by (rewrite <- Z.pow_succ_r by lia; f_equal; lia).
  rewrite Z.mod_small by lia. lia.
Qed.
Lemma ClipToRange_spec v lo hi : - 2 ^ 31 <= v < 2 ^ 31 -> lo <= hi -> - 2 ^ 31 <= lo -> hi < 2 ^ 31 -> ClipToRange v lo hi = Z.max lo (Z.min v hi).
Proof.
  intros Hv Hl H1 H2. unfold ClipToRange. rewrite (sword_id 32 v), Z.gtb_ltb by (cbn; lia). destruct (Z.ltb_spec hi v).
  - rewrite sword_id by (cbn; lia). destruct (Z.ltb_spec hi lo); lia.
  - rewrite sword_id by (cbn; lia). destruct (Z.ltb_spec v lo); lia.
Qed.
Example ClipToRange_truncates : ClipToRange (Z.shiftl 4 30 + Z.shiftl 1 20) (Z.shiftl 64 10) (Z.shiftl 1 30) = Z.shiftl 4 30 + Z.shiftl 1 20.
Proof. reflexivity. Qed.
