(* ===== verification/Version.v ===== *)
(** * Versions of a database ([leveldb/db/version_set.h], [version_set.cc]: [Version])

    A version is a list of files per level.  A [FileMetaData] is shared by the versions that list it: its constant part is kept in
    the list with the address of the object, and the two fields that change, the references and the seeks left before a compaction, are in a heap. *)
From Stdlib Require Import Floats.SpecFloat.
From S2P Require Import Prelude Status Coding Comparator Iterator MemTable Table VersionEdit.
From S2P Require Import DbOptions.

Record File := MkFile { f_ptr : nat; f_meta :> FileMetaData }.
#[global] Instance File_eq_dec : EqDecision File.
Proof. solve_decision. Defined.

(** [refs] and [allowed_seeks]. *)
Abbreviation FileHeap := (gmap nat (Z * Z)).

Section Search.
Context (C : Comparator) (ndebug : bool).
Implicit Types (f : File) (files : list File) (u : option Slice).

Definition TotalFileSize files : Z := foldl (λ sum f, sword 64 (sum + file_size f)) 0 files.
Definition MaxGrandParentOverlapBytes (options : DbOptions) : Z := sword 64 (level_factor options * table_file_size options).
Definition ExpandedCompactionByteSizeLimit (options : DbOptions) : Z := sword 64 (sword 32 (2 * (level_factor options + 2) + 1) * table_file_size options).
Definition MaxFileSizeForLevel (options : DbOptions) (level : Z) : Z := table_file_size options.

(** The binary search of [FindFile]. *)
Fixpoint FindFile_loop (fuel : nat) files (key : Slice) (left right : Z) : option Z :=
  if left <? right then
    match fuel with
    | O => None
    | S fuel =>
        let mid := u32 (left + right) / 2 in
        f ← files !! Z.to_nat mid;
        largest ← InternalKey_Encode ndebug (largest (f_meta f));
        r ← InternalKey_Compare C largest key;
        if bool_decide (r = Lt) then FindFile_loop fuel files key (mid + 1) right else FindFile_loop fuel files key left mid
    end
  else Some right.
Definition FindFile files (key : Slice) : option Z := FindFile_loop (length files) files key 0 (u32 (Z.of_nat (length files))).

(** A null key is [None]. *)
Definition AfterFile u f : option bool :=
  match u with
  | Some u => l ← ExtractUserKey (largest f); r ← Compare u l; Some (bool_decide (r = Gt))
  | None => Some false
  end.
Definition BeforeFile u f : option bool :=
  match u with
  | Some u => s ← ExtractUserKey (smallest f); r ← Compare u s; Some (bool_decide (r = Lt))
  | None => Some false
  end.

(** The loop over files that may overlap. *)
Fixpoint some_overlap files (smallest_user_key largest_user_key : option Slice) : option bool :=
  match files with
  | [] => Some false
  | f :: files =>
      after ← AfterFile smallest_user_key f;
      outside ← (if (after : bool) then Some true else BeforeFile largest_user_key f);
      if (outside : bool) then some_overlap files smallest_user_key largest_user_key else Some true
  end.
Definition SomeFileOverlapsRange (disjoint_sorted_files : bool) files (smallest_user_key largest_user_key : option Slice) : option bool :=
  if negb disjoint_sorted_files then some_overlap files smallest_user_key largest_user_key
  else
    index ← (match smallest_user_key with
             | Some u => small ← AppendInternalKey ndebug [] (MkParsed u kMaxSequenceNumber kValueTypeForSeek); FindFile files small
             | None => Some 0
             end);
    if Z.of_nat (length files) <=? index then Some false
    else f ← files !! Z.to_nat index; before ← BeforeFile largest_user_key f; Some (negb before).

(** ** The iterator over the files of a level *)
Record LevelFileNumIterator := MkLevelFileNumIterator { flist_ : list File; lf_index : Z }.
Definition new_LevelFileNumIterator files : LevelFileNumIterator := MkLevelFileNumIterator files (u32 (Z.of_nat (length files))).
Implicit Types (it : LevelFileNumIterator).

Definition lf_set (i : Z) it : LevelFileNumIterator := MkLevelFileNumIterator (flist_ it) (u32 i).
Definition lf_Valid it : bool := lf_index it <? Z.of_nat (length (flist_ it)).
Definition lf_file it : option File := _ ← assert_ ndebug (lf_Valid it); flist_ it !! Z.to_nat (lf_index it).
Definition lf_value it : option Slice :=
  f ← lf_file it; Some (EncodeFixed64 (number (f_meta f)) ++ EncodeFixed64 (file_size (f_meta f)) ++ EncodeFixed64 (u64 (seq_off (f_meta f)))).
#[export] Instance LevelFileNumIterator_Iterator : Iterator LevelFileNumIterator := {
  Valid := lf_Valid;
  SeekToFirst it := Some (lf_set 0 it);
  SeekToLast it := Some (lf_set (if bool_decide (flist_ it = []) then 0 else Z.of_nat (length (flist_ it)) - 1) it);
  Seek target it := i ← FindFile (flist_ it) target; Some (lf_set i it);
  Next it := _ ← assert_ ndebug (lf_Valid it); Some (lf_set (lf_index it + 1) it);
  Prev it :=
    _ ← assert_ ndebug (lf_Valid it);
    Some (lf_set (if lf_index it =? 0 then Z.of_nat (length (flist_ it)) else lf_index it - 1) it);
  key it := f ← lf_file it; InternalKey_Encode ndebug (largest (f_meta f));
  value := lf_value;
  status _ := OK
}.
End Search.

(** ** Doubles, as IEEE 754 specifies them *)
Abbreviation double := spec_float.
Definition double_of (z : Z) : double := binary_normalize 53 1024 z 0 false.
Definition double_div (a b : double) : double := SFdiv 53 1024 a b.
Definition double_mul (a b : double) : double := SFmul 53 1024 a b.

Record Version := MkVersion {
  v_refs : Z; files_ : list (list File);
  file_to_compact_ : option File; file_to_compact_level_ : Z;
  compaction_score_ : double; compaction_level_ : Z
}.
Definition new_Version : Version := MkVersion 0 (replicate (Z.to_nat kNumLevels) []) None (-1) (double_of (-1)) (-1).

(** The table cache, for [Get]: what was found is given to a callback, so it is a result here. *)
Class TableGet (T : Type) := {
  tc_Get : ReadOptions -> Z -> Z -> Z -> Slice -> T -> option (Status * option (Slice * Slice) * T)
}.

Inductive SaverState := kNotFound_ | kFound_ | kDeleted_ | kCorrupt_.

Record GetStats := MkGetStats { seek_file : option File; seek_file_level : Z }.

Section Version.
Context (C : Comparator) (ndebug : bool).
Implicit Types (v : Version) (f : File) (files : list File).

Definition level_files v (level : Z) : option (list File) := if level <? 0 then None else files_ v !! Z.to_nat level.
Definition NumFiles v (level : Z) : option Z := files ← level_files v level; Some (sword 32 (Z.of_nat (length files))).

Definition set_refs (refs : Z) v : Version :=
  MkVersion refs (files_ v) (file_to_compact_ v) (file_to_compact_level_ v) (compaction_score_ v) (compaction_level_ v).
Definition set_file_to_compact (f : option File) (level : Z) v : Version :=
  MkVersion (v_refs v) (files_ v) f level (compaction_score_ v) (compaction_level_ v).
Definition set_compaction (score : double) (level : Z) v : Version :=
  MkVersion (v_refs v) (files_ v) (file_to_compact_ v) (file_to_compact_level_ v) score level.
Definition set_files (files : list (list File)) v : Version :=
  MkVersion (v_refs v) files (file_to_compact_ v) (file_to_compact_level_ v) (compaction_score_ v) (compaction_level_ v).

(** [std::sort] by [NewestFirst]; the numbers of files differ. *)
Fixpoint insert_newest f files : list File :=
  match files with
  | [] => [f]
  | f' :: files' => if number f >? number f' then f :: files else f' :: insert_newest f files'
  end.
Definition sort_newest files : list File := foldr insert_newest [] files.

(** The files of level 0 whose range holds the key. *)
Fixpoint overlapping_files (user_key : Slice) files : option (list File) :=
  match files with
  | [] => Some []
  | f :: files =>
      s ← ExtractUserKey (smallest f); r ← Compare user_key s;
      inside ← (if bool_decide (r = Lt) then Some false
                else l ← ExtractUserKey (largest f); r ← Compare user_key l; Some (negb (bool_decide (r = Gt))));
      tmp ← overlapping_files user_key files;
      Some (if (inside : bool) then f :: tmp else tmp)
  end.
(** The file of a sorted level that may hold the key. *)
Definition level_candidate (user_key internal_key : Slice) files : option (option File) :=
  index ← FindFile C ndebug files internal_key;
  if Z.of_nat (length files) <=? index then Some None
  else
    f ← files !! Z.to_nat index;
    s ← ExtractUserKey (smallest (f_meta f)); r ← Compare user_key s;
    Some (if bool_decide (r = Lt) then None else Some f).

(** [ForEachOverlapping]: the function returns whether to go on and a new state. *)
Fixpoint call_each {S} (func : Z -> File -> S -> bool * S) (level : Z) files (s : S) : bool * S :=
  match files with
  | [] => (true, s)
  | f :: files => let '(go_on, s) := func level f s in if (go_on : bool) then call_each func level files s else (false, s)
  end.
Fixpoint ForEachOverlapping_levels {S} (user_key internal_key : Slice) (func : Z -> File -> S -> bool * S) (level : Z) (levels : list (list File)) (s : S) : option S :=
  match levels with
  | [] => Some s
  | files :: levels =>
      files ← (if level =? 0 then tmp ← overlapping_files user_key files; Some (sort_newest tmp)
               else if bool_decide (files = []) then Some []
               else c ← level_candidate user_key internal_key files; Some (option_list c));
      let '(go_on, s) := call_each func level files s in
      if (go_on : bool) then ForEachOverlapping_levels user_key internal_key func (level + 1) levels s else Some s
  end.
Definition ForEachOverlapping {S} (user_key internal_key : Slice) (func : Z -> File -> S -> bool * S) v (s : S) : option S :=
  ForEachOverlapping_levels user_key internal_key func 0 (files_ v) s.

(** ** Reading *)
Section Get.
Context {T B : Type} `{TableGet T} `{Buffer B}.

(** [SaveValue] for what the table found; the state of the saver and its buffer. *)
Definition SaveValue (options : ReadOptions) (user_key ikey v : Slice) (buf : B) : option (SaverState * B) :=
  match ParseInternalKey ikey with
  | None => Some (kCorrupt_, buf)
  | Some parsed =>
      r ← Compare (Comparator.user_key parsed) user_key;
      if bool_decide (r = Eq) then
        match type parsed with
        | kTypeValue =>
            _ ← assert_ ndebug (sequence parsed <=? kMaxSequenceNumber);
            Some (kFound_, Fill buf (take (Z.to_nat (Z.min (|[v]|) (ro_limit options))) v))
        | kTypeDeletion => Some (kDeleted_, buf)
        end
      else Some (kNotFound_, buf)
  end.

(** What a search carries: the last file read with its level, the statistics, the buffer and the cache. *)
Record Search := MkSearch { last_file_read : option (File * Z); stats : GetStats; buf : B; cache : T }.

(** One file; a status ends the search. *)
Definition search_file (options : ReadOptions) (k : LookupKey) (level : Z) f (st : Search) : option (option Status * Search) :=
  let stats := match last_file_read st, seek_file (stats st) with
               | Some (g, l), None => MkGetStats (Some g) l
               | _, _ => stats st
               end in
  '(s, saved, cache) ← tc_Get options (number f) (file_size f) (seq_off f) (internal_key k) (cache st);
  let st := MkSearch (Some (f, level)) stats (buf st) cache in
  if negb (ok s) then
    '(_, buf) ← (match saved with Some (ik, v) => SaveValue options (lookup_user_key k) ik v (buf st) | None => Some (kNotFound_, buf st) end);
    Some (Some s, MkSearch (last_file_read st) stats buf cache)
  else
    '(state, buf) ← (match saved with Some (ik, v) => SaveValue options (lookup_user_key k) ik v (buf st) | None => Some (kNotFound_, buf st) end);
    let st := MkSearch (last_file_read st) stats buf cache in
    Some (match state with
          | kNotFound_ => None
          | kFound_ => Some s
          | kDeleted_ => Some (MkStatus kNotFound [] [])
          | kCorrupt_ => Some (MkStatus kCorruption (lit "Corrupted key for ") (lookup_user_key k))
          end, st).
Fixpoint search_files (options : ReadOptions) (k : LookupKey) (level : Z) files (st : Search) : option (option Status * Search) :=
  match files with
  | [] => Some (None, st)
  | f :: files =>
      '(res, st) ← search_file options k level f st;
      match res with Some s => Some (Some s, st) | None => search_files options k level files st end
  end.
Fixpoint search_levels (options : ReadOptions) (k : LookupKey) (level : Z) (levels : list (list File)) (st : Search) : option (option Status * Search) :=
  match levels with
  | [] => Some (None, st)
  | files :: levels =>
      files ← (if level =? 0 then tmp ← overlapping_files (lookup_user_key k) files; Some (sort_newest tmp)
               else if bool_decide (files = []) then Some []
               else c ← level_candidate (lookup_user_key k) (internal_key k) files; Some (option_list c));
      '(res, st) ← search_files options k level files st;
      match res with Some s => Some (Some s, st) | None => search_levels options k (level + 1) levels st end
  end.
(** The result, the status, the buffer, the statistics and the cache. *)
Definition Version_Get (options : ReadOptions) (k : LookupKey) (b : B) (t : T) v : option (bool * Status * B * GetStats * T) :=
  '(res, st) ← search_levels options k 0 (files_ v) (MkSearch None (MkGetStats None (-1)) b t);
  Some (match res with Some _ => true | None => false end, match res with Some s => s | None => MkStatus kNotFound [] [] end, buf st, stats st, cache st).
End Get.

(** [UpdateStats]: whether a compaction may be needed; the seeks of the file are in the heap. *)
Definition UpdateStats (st : GetStats) v (heap : FileHeap) : option (bool * Version * FileHeap) :=
  match seek_file st with
  | Some f =>
      '(refs, allowed) ← heap !! f_ptr f;
      let heap := <[f_ptr f := (refs, sword 32 (allowed - 1))]> heap in
      if (sword 32 (allowed - 1) <=? 0) && bool_decide (file_to_compact_ v = None) then
        Some (true, set_file_to_compact (Some f) (seek_file_level st) v, heap)
      else Some (false, v, heap)
  | None => Some (false, v, heap)
  end.

(** [RecordReadSample]: the first of two files that may hold the key is charged. *)
Definition Match (level : Z) f (s : GetStats * Z) : bool * (GetStats * Z) :=
  let '(st, matches) := s in
  let matches := matches + 1 in
  (matches <? 2, (if matches =? 1 then MkGetStats (Some f) level else st, matches)).
Definition Version_RecordReadSample (internal_key : Slice) v (heap : FileHeap) : option (bool * Version * FileHeap) :=
  match ParseInternalKey internal_key with
  | None => Some (false, v, heap)
  | Some ikey =>
      '(st, matches) ← ForEachOverlapping (user_key ikey) internal_key Match v (MkGetStats None (-1), 0);
      if 2 <=? matches then UpdateStats st v heap else Some (false, v, heap)
  end.

(** ** Overlaps *)
Definition OverlapInLevel v (level : Z) (smallest_user_key largest_user_key : option Slice) : option bool :=
  files ← level_files v level; SomeFileOverlapsRange C ndebug (0 <? level) files smallest_user_key largest_user_key.

(** The loop of [GetOverlappingInputs]: at level 0 a file that extends the range restarts it. *)
Fixpoint overlap_loop (fuel : nat) (level : Z) (all rest : list File) (user_begin user_end : option Slice) (inputs : list File) : option (list File) :=
  match rest with
  | [] => Some inputs
  | f :: rest =>
      match fuel with
      | O => None
      | S fuel =>
          file_start ← ExtractUserKey (smallest f);
          file_limit ← ExtractUserKey (largest f);
          before ← (match user_begin with Some b => r ← Compare file_limit b; Some (bool_decide (r = Lt)) | None => Some false end);
          if (before : bool) then overlap_loop fuel level all rest user_begin user_end inputs
          else
            after ← (match user_end with Some e => r ← Compare file_start e; Some (bool_decide (r = Gt)) | None => Some false end);
            if (after : bool) then overlap_loop fuel level all rest user_begin user_end inputs
            else if level =? 0 then
              extends ← (match user_begin with Some b => r ← Compare file_start b; Some (bool_decide (r = Lt)) | None => Some false end);
              if (extends : bool) then overlap_loop fuel level all all (Some file_start) user_end []
              else
                extends ← (match user_end with Some e => r ← Compare file_limit e; Some (bool_decide (r = Gt)) | None => Some false end);
                if (extends : bool) then overlap_loop fuel level all all user_begin (Some file_limit) []
                else overlap_loop fuel level all rest user_begin user_end (inputs ++ [f])
            else overlap_loop fuel level all rest user_begin user_end (inputs ++ [f])
      end
  end.
Definition overlap_fuel files : nat := S (2 * length files) * S (length files).
(** [begin] and [end] are internal keys, or null. *)
Definition GetOverlappingInputs v (level : Z) (begin end_ : option Slice) : option (list File) :=
  _ ← assert_ ndebug (0 <=? level); _ ← assert_ ndebug (level <? kNumLevels);
  user_begin ← (match begin with Some k => u ← ExtractUserKey k; Some (Some u) | None => Some None end);
  user_end ← (match end_ with Some k => u ← ExtractUserKey k; Some (Some u) | None => Some None end);
  files ← level_files v level;
  overlap_loop (overlap_fuel files) level files files user_begin user_end [].

(** The level of a new table; the loop ends at [max_mem_compact_level]. *)
Fixpoint PickLevel_loop (fuel : nat) (options : DbOptions) v (smallest_user_key largest_user_key start limit : Slice) (level : Z) : option Z :=
  match fuel with
  | O => Some level
  | S fuel =>
      overlap ← OverlapInLevel v (level + 1) (Some smallest_user_key) (Some largest_user_key);
      if (overlap : bool) then Some level
      else
        heavy ← (if level + 2 <? kNumLevels then
                   overlaps ← GetOverlappingInputs v (level + 2) (Some start) (Some limit);
                   Some (TotalFileSize overlaps >? MaxGrandParentOverlapBytes options)
                 else Some false);
        if (heavy : bool) then Some level
        else PickLevel_loop fuel options v smallest_user_key largest_user_key start limit (level + 1)
  end.
Definition PickLevelForMemTableOutput (options : DbOptions) v (smallest_user_key largest_user_key : Slice) : option Z :=
  overlap ← OverlapInLevel v 0 (Some smallest_user_key) (Some largest_user_key);
  if (overlap : bool) then Some 0
  else
    start ← AppendInternalKey ndebug [] (MkParsed smallest_user_key kMaxSequenceNumber kValueTypeForSeek);
    limit ← AppendInternalKey ndebug [] (MkParsed largest_user_key 0 kTypeDeletion);
    PickLevel_loop (Z.to_nat (max_mem_compact_level options)) options v smallest_user_key largest_user_key start limit 0.

(** [TEST_MaxNextLevelOverlappingBytes] of the version set. *)
Fixpoint max_overlap v (level : Z) files (result : Z) : option Z :=
  match files with
  | [] => Some result
  | f :: files =>
      overlaps ← GetOverlappingInputs v (level + 1) (Some (smallest f)) (Some (largest f));
      let sum := TotalFileSize overlaps in
      max_overlap v level files (if sum >? result then sum else result)
  end.
Fixpoint max_overlap_levels v (level : Z) (levels : list (list File)) (result : Z) : option Z :=
  match levels with
  | [] => Some result
  | files :: levels => result ← max_overlap v level files result; max_overlap_levels v (level + 1) levels result
  end.
Definition MaxNextLevelOverlappingBytes v : option Z :=
  max_overlap_levels v 1 (take (Z.to_nat kNumLevels - 2) (drop 1 (files_ v))) 0.
End Version.
