(* ===== verification/VersionFacts.v ===== *)
(** * Facts on the files of a version: the binary search, the iterator of a level, and overlaps *)
From stdpp Require Import sorting.
From S2P Require Import Prelude Status Coding Comparator Iterator VersionEdit DbOptions Version.

Section Facts.
Context {C : Comparator} {valid : Slice -> Prop} `{!ComparatorLaws C valid} (ndebug : bool).
Implicit Types (f : File) (files : list File).
Local Notation IC := (InternalKeyComparator ndebug C).
Abbreviation ivalid := (valid_ikey valid).

(** The range of a file is a pair of internal keys. *)
Definition file_ok f : Prop := ivalid (smallest f) /\ ivalid (largest f).

Lemma ivalid_nonempty k : ivalid k -> InternalKey_Encode ndebug k = Some k.
Proof.
  intros (u & n & -> & _). unfold InternalKey_Encode. rewrite assert_bool; [done |]. rewrite bool_decide_false; [done |]. intros E.
  apply (f_equal length) in E. rewrite length_ikey in E. cbn in E. lia.
Qed.

(** ** The sequence an iterator over the files of a level shows *)
Definition file_value f : Slice := EncodeFixed64 (number f) ++ EncodeFixed64 (file_size f) ++ EncodeFixed64 (u64 (seq_off f)).
Definition file_pairs files : Pairs := (λ f, (largest f, file_value f)) <$> files.

Lemma length_file_pairs files : length (file_pairs files) = length files.
Proof. apply length_fmap. Qed.
Lemma file_pairs_at files i f : files !! i = Some f -> file_pairs files !! i = Some (largest f, file_value f).
Proof. intros E. unfold file_pairs. by rewrite list_lookup_fmap, E. Qed.

Lemma FindFile_loop_ok files key fuel left right :
  sorted_pairs (C := IC) ivalid (file_pairs files) -> ivalid key -> Z.of_nat (length files) < 2 ^ 31 ->
  0 <= left <= Z.of_nat (lower (C := IC) (file_pairs files) key) -> Z.of_nat (lower (C := IC) (file_pairs files) key) <= right <= Z.of_nat (length files) ->
  right - left <= Z.of_nat fuel ->
  FindFile_loop C ndebug fuel files key left right = Some (Z.of_nat (lower (C := IC) (file_pairs files) key)).
Proof.
  intros Hs Hk Hn. revert left right. induction fuel as [| fuel IH]; intros left right Hl Hr Hf; cbn [FindFile_loop]; destruct (Z.ltb_spec left right); try (f_equal; lia).
  assert (u32 (left + right) = left + right) as -> by (apply wrap_small; split; [lia | change (2 ^ 32) with (2 * 2 ^ 31); lia]).
  set (mid := (left + right) / 2). assert (left <= mid < right) as Hm by (unfold mid; pose proof (Z.div_mod (left + right) 2 ltac:(lia)); pose proof (Z.mod_pos_bound (left + right) 2 ltac:(lia)); lia).
  destruct (lookup_lt_is_Some_2 files (Z.to_nat mid)) as [f Ef]; [lia |]. rewrite Ef. cbn [mbind option_bind].
  pose proof (file_pairs_at _ _ _ Ef) as Ep. pose proof (sorted_pairs_valid _ _ _ Hs Ep) as Hv. cbn [fst] in Hv.
  rewrite ivalid_nonempty by done. cbn [mbind option_bind]. pose proof (lower_spec (C := IC) _ key _ _ Hs Hk Ep) as Hlow. cbn [fst] in Hlow.
  change (@Compare IC (largest f) key) with (InternalKey_Compare C (largest f) key) in Hlow.
  destruct (InternalKey_Compare C (largest f) key) as [r |] eqn:Er; [cbn [mbind option_bind] | by destruct (cmp_some (compare := InternalKey_Compare C) _ _ Hv Hk) as [? ?]; congruence].
  case_bool_decide as Hc; apply IH; try lia.
  - subst r. apply proj2 in Hlow. specialize (Hlow eq_refl). lia.
  - assert (¬ (Z.to_nat mid < lower (C := IC) (file_pairs files) key)%nat) by (intros Hx; apply Hlow in Hx; congruence). lia.
Qed.
Lemma FindFile_ok files key : sorted_pairs (C := IC) ivalid (file_pairs files) -> ivalid key -> Z.of_nat (length files) < 2 ^ 31 ->
  FindFile C ndebug files key = Some (Z.of_nat (lower (C := IC) (file_pairs files) key)).
Proof.
  intros Hs Hk Hn. unfold FindFile, u32. rewrite wrap_small by (split; [lia | change (2 ^ 32) with (2 * 2 ^ 31); lia]).
  pose proof (lower_le (C := IC) (file_pairs files) key) as Hle. rewrite length_file_pairs in Hle. apply FindFile_loop_ok; try done; lia.
Qed.

Definition lf_at files (n : nat) (it : LevelFileNumIterator) : Prop := flist_ it = files /\ lf_index it = Z.of_nat n /\ (n <= length files)%nat.

Lemma level_iterates files : sorted_pairs (C := IC) ivalid (file_pairs files) -> Z.of_nat (length files) < 2 ^ 31 ->
  iterates (C := IC) (H := LevelFileNumIterator_Iterator C ndebug) ivalid (lf_at files) (file_pairs files) /\ lf_at files (length files) (new_LevelFileNumIterator files).
Proof.
  intros Hs Hn. assert (∀ n, (n <= length files)%nat -> u32 (Z.of_nat n) = Z.of_nat n) as Hw by (intros n ?; apply wrap_small; split; [lia | change (2 ^ 32) with (2 * 2 ^ 31); lia]).
  assert (∀ n it, lf_at files n it -> lf_Valid it = bool_decide (n < length files)%nat) as Hv.
  { intros n it (E1 & E2 & _). unfold lf_Valid. rewrite E1, E2. destruct (Z.ltb_spec (Z.of_nat n) (Z.of_nat (length files))); [rewrite bool_decide_true by lia | rewrite bool_decide_false by lia]; done. }
  assert (∀ n it, lf_at files n it -> ∀ m, (m <= length files)%nat -> lf_at files m (lf_set (Z.of_nat m) it)) as Hset.
  { intros n it (E1 & _ & _) m Hm. by split_and!; cbn; [| apply Hw |]. }
  split; [split |].
  - intros n it (_ & _ & Hb). by rewrite length_file_pairs.
  - intros n it Hat. rewrite length_file_pairs. by apply Hv.
  - intros n it p Hat E. cbn [key LevelFileNumIterator_Iterator]. unfold lf_file. pose proof (lookup_lt_Some _ _ _ E) as Hlt. rewrite length_file_pairs in Hlt.
    rewrite assert_bool by (rewrite (Hv n) by done; by apply bool_decide_true). cbn [mbind option_bind]. destruct Hat as (E1 & E2 & _). rewrite E1, E2, Nat2Z.id.
    unfold file_pairs in E. rewrite list_lookup_fmap in E. apply fmap_Some in E as (f & Ef & ->). rewrite Ef. cbn [mbind option_bind fst].
    apply ivalid_nonempty. exact (sorted_pairs_valid _ _ _ Hs (file_pairs_at _ _ _ Ef)).
  - intros n it p Hat E. cbn [value LevelFileNumIterator_Iterator]. unfold lf_value, lf_file. pose proof (lookup_lt_Some _ _ _ E) as Hlt. rewrite length_file_pairs in Hlt.
    rewrite assert_bool by (rewrite (Hv n) by done; by apply bool_decide_true). cbn [mbind option_bind]. destruct Hat as (E1 & E2 & _). rewrite E1, E2, Nat2Z.id.
    unfold file_pairs in E. rewrite list_lookup_fmap in E. apply fmap_Some in E as (f & Ef & ->). by rewrite Ef.
  - intros n it Hat Hlt. rewrite length_file_pairs in Hlt. cbn [Next LevelFileNumIterator_Iterator]. rewrite assert_bool by (rewrite (Hv n) by done; by apply bool_decide_true).
    eexists. split; [done |]. pose proof Hat as (_ & E2 & _). rewrite E2. replace (Z.of_nat n + 1) with (Z.of_nat (S n)) by lia. apply (Hset n); [done | lia].
  - intros n it Hat Hlt. rewrite length_file_pairs in *. cbn [Prev LevelFileNumIterator_Iterator]. rewrite assert_bool by (rewrite (Hv n) by done; by apply bool_decide_true).
    eexists. split; [done |]. pose proof Hat as (E1 & E2 & _). rewrite E1, E2. destruct (Z.eqb_spec (Z.of_nat n) 0).
    + rewrite decide_True by lia. apply (Hset n); [done | lia].
    + rewrite decide_False by lia. replace (Z.of_nat n - 1) with (Z.of_nat (n - 1)) by lia. apply (Hset n); [done | lia].
  - intros n it Hat. eexists. split; [done |]. apply (Hset n it Hat 0%nat). lia.
  - intros n it Hat. eexists. split; [done |]. rewrite length_file_pairs. pose proof Hat as (E1 & _ & _). rewrite E1.
    assert ((if bool_decide (files = []) then 0 else Z.of_nat (length files) - 1) = Z.of_nat (length files - 1)) as ->.
    { case_bool_decide as Hc; [by rewrite Hc | destruct files; [done | cbn; lia]]. }
    apply (Hset n); [done | lia].
  - intros n it target Hat Ht. cbn [Seek LevelFileNumIterator_Iterator]. pose proof Hat as (E1 & _ & _). rewrite E1, FindFile_ok by done. cbn [mbind option_bind].
    eexists. split; [done |]. apply (Hset n); [done |]. rewrite <- length_file_pairs. apply (lower_le (C := IC)).
  - done.
  - split_and!; [done | apply Hw; done | done].
Qed.
End Facts.

(** * The files that overlap a range ([Version::GetOverlappingInputs])

    At level 0 files overlap each other and the range grows until no file reaches out of it; the loop starts again each
    time, and ends because every file can extend each end of the range once. *)

Section Overlaps.
Context {C : Comparator} {valid : Slice -> Prop} `{!ComparatorLaws C valid} (ndebug : bool).
Implicit Types (f : File) (files rest inputs : list File) (b e : option Slice).

(** The user keys of a file's range. *)
Definition ustart f : Slice := default [] (ExtractUserKey (smallest f)).
Definition ulimit f : Slice := default [] (ExtractUserKey (largest f)).
Lemma ustart_ok f : file_ok (valid := valid) f -> ExtractUserKey (smallest f) = Some (ustart f) /\ valid (ustart f).
Proof. intros [(u & n & E & Hu & _) _]. unfold ustart. by rewrite E, ExtractUserKey_ikey. Qed.
Lemma ulimit_ok f : file_ok (valid := valid) f -> ExtractUserKey (largest f) = Some (ulimit f) /\ valid (ulimit f).
Proof. intros [_ (u & n & E & Hu & _)]. unfold ulimit. by rewrite E, ExtractUserKey_ikey. Qed.

(** Tests of the loop: an end that is not set is passed by no key. *)
Definition below (u : Slice) b : bool := match b with Some b => bool_decide (Compare u b = Some Lt) | None => false end.
Definition above (u : Slice) e : bool := match e with Some e => bool_decide (Compare u e = Some Gt) | None => false end.
Definition in_range b e f : bool := negb (below (ulimit f) b) && negb (above (ustart f) e).
(** The file stays inside the range. *)
Definition inside b e f : bool := negb (below (ustart f) b) && negb (above (ulimit f) e).
Definition closed b e files : Prop := ∀ f, f ∈ files -> in_range b e f = true -> inside b e f = true.
(** Every end moved outwards, if at all. *)
Definition lower_end b' b : Prop := match b', b with Some x, Some y => valid x /\ Compare x y <> Some Gt | None, None => True | _, _ => False end.
Definition upper_end e' e : Prop := match e', e with Some x, Some y => valid x /\ Compare y x <> Some Gt | None, None => True | _, _ => False end.
Definition valid_end (o : option Slice) : Prop := match o with Some u => valid u | None => True end.

Lemma lower_refl b : valid_end b -> lower_end b b.
Proof. destruct b as [u |]; [| done]. intros Hu. split; [done |]. by rewrite cmp_refl. Qed.
Lemma upper_refl e : valid_end e -> upper_end e e.
Proof. destruct e as [u |]; [| done]. intros Hu. split; [done |]. by rewrite cmp_refl. Qed.

Lemma cmp_le_trans x y z : valid x -> valid y -> valid z -> Compare x y <> Some Gt -> Compare y z <> Some Gt -> Compare x z <> Some Gt.
Proof.
  intros Hx Hy Hz H1 H2. destruct (cmp_some x y Hx Hy) as [[] E]; [| | done].
  - destruct (cmp_some y z Hy Hz) as [r E']. rewrite (cmp_eq x y z r) by done. congruence.
  - rewrite (cmp_lt_le_trans x y z) by done. done.
Qed.

(** A wider range sees no fewer files. *)
Lemma in_range_wider b' e' b e f : file_ok (valid := valid) f -> valid_end b -> valid_end e -> lower_end b' b -> upper_end e' e -> in_range b e f = true -> in_range b' e' f = true.
Proof.
  intros Hf Vb Ve Hb He. destruct (ustart_ok f Hf) as [_ Vs], (ulimit_ok f Hf) as [_ Vl]. unfold in_range. rewrite !andb_true_iff, !negb_true_iff. intros [H1 H2]. split.
  - destruct b' as [x |], b as [y |]; try done. cbn in *. destruct Hb as [Vx Hxy]. rewrite bool_decide_eq_false in *. intros E. apply H1. by apply (cmp_lt_le_trans (ulimit f) x y).
  - destruct e' as [x |], e as [y |]; try done. cbn in *. destruct He as [Vx Hxy]. rewrite bool_decide_eq_false in *. intros E. apply H2.
    apply cmp_gt_lt in E; [| done..]. apply cmp_gt_lt; [done.. |]. by apply (cmp_le_lt_trans y x (ustart f)).
Qed.

(** ** The loop *)
Section Loop.
Context (level : Z) (all : list File).
Hypothesis all_ok : Forall (file_ok (valid := valid)) all.

(** How many files can still move each end. *)
Definition outside b e : nat := length (filter (λ f, below (ustart f) b = true) all) + length (filter (λ f, above (ulimit f) e = true) all).

Lemma filter_less (P Q : File -> Prop) `{!∀ f, Decision (P f), !∀ f, Decision (Q f)} (l : list File) f :
  (∀ g, g ∈ l -> P g -> Q g) -> f ∈ l -> Q f -> ¬ P f -> (length (filter P l) < length (filter Q l))%nat.
Proof.
  assert (∀ l, (∀ g, g ∈ l -> P g -> Q g) -> (length (filter P l) <= length (filter Q l))%nat) as Hle.
  { intros l'. induction l' as [| x l' IH]; intros Hl; [done |]. rewrite !list.filter_cons. specialize (IH (λ g Hg, Hl g (list_elem_of_further _ _ _ Hg))).
    repeat case_decide; cbn; try lia. exfalso. pose proof (Hl x ltac:(left)). auto. }
  intros Hpq Hin Hq Hp. induction l as [| x l IH]; [by apply elem_of_nil in Hin |]. rewrite !list.filter_cons. apply elem_of_cons in Hin as [<- | Hin].
  - rewrite decide_False, decide_True by done. cbn. specialize (Hle l (λ g Hg, Hpq g (list_elem_of_further _ _ _ Hg))). lia.
  - specialize (IH (λ g Hg, Hpq g (list_elem_of_further _ _ _ Hg)) Hin). repeat case_decide; cbn; try lia. exfalso. pose proof (Hpq x ltac:(left)). auto.
Qed.

Lemma all_start f : f ∈ all -> valid (ustart f).
Proof. intros Hin. rewrite list.Forall_forall in all_ok. by apply ustart_ok, all_ok. Qed.
Lemma all_limit f : f ∈ all -> valid (ulimit f).
Proof. intros Hin. rewrite list.Forall_forall in all_ok. by apply ulimit_ok, all_ok. Qed.

Lemma outside_begin (u : Slice) e f : f ∈ all -> valid u -> below (ustart f) (Some u) = true -> (outside (Some (ustart f)) e < outside (Some u) e)%nat.
Proof.
  intros Hin Vb Hb. unfold outside. apply Nat.add_lt_mono_r. apply (filter_less _ _ all f); [| done | done |].
  - intros g Hg. cbn in *. rewrite !bool_decide_eq_true in *. intros Hgf. pose proof (all_start g Hg). pose proof (all_start f Hin). by apply (cmp_trans (ustart g) (ustart f) u).
  - cbn. rewrite bool_decide_eq_true. rewrite cmp_refl by by apply all_start. done.
Qed.
Lemma outside_end b (u : Slice) f : f ∈ all -> valid u -> above (ulimit f) (Some u) = true -> (outside b (Some (ulimit f)) < outside b (Some u))%nat.
Proof.
  intros Hin Vb Hb. unfold outside. apply Nat.add_lt_mono_l. apply (filter_less _ _ all f); [| done | done |].
  - intros g Hg. cbn in *. rewrite !bool_decide_eq_true in *. pose proof (all_limit g Hg). pose proof (all_limit f Hin). intros Hgf.
    apply cmp_gt_lt in Hb, Hgf; [| done..]. apply cmp_gt_lt; [done.. |]. by apply (cmp_trans u (ulimit f) (ulimit g)).
  - cbn. rewrite bool_decide_eq_true. rewrite cmp_refl by by apply all_limit. done.
Qed.

Lemma below_test u b : valid u -> valid_end b ->
  (match b with Some b => r ← Compare u b; Some (bool_decide (r = Lt)) | None => Some false end) = Some (below u b).
Proof.
  intros Hu Hb. destruct b as [b |]; [| done]. destruct (cmp_some u b Hu Hb) as [r E]. cbn [below]. rewrite E. cbn [mbind option_bind]. f_equal.
  by apply bool_decide_ext; split; [intros -> | intros [= ->]].
Qed.
Lemma above_test u b : valid u -> valid_end b ->
  (match b with Some b => r ← Compare u b; Some (bool_decide (r = Gt)) | None => Some false end) = Some (above u b).
Proof.
  intros Hu Hb. destruct b as [b |]; [| done]. destruct (cmp_some u b Hu Hb) as [r E]. cbn [above]. rewrite E. cbn [mbind option_bind]. f_equal.
  by apply bool_decide_ext; split; [intros -> | intros [= ->]].
Qed.

(** What the loop returns: the files in the least closed range around the one it was given. *)
Definition result_of b e (r : option (list File)) : Prop :=
  ∃ b' e', r = Some (filter (λ f, in_range b' e' f = true) all) /\ lower_end b' b /\ upper_end e' e /\
    (level <> 0 -> b' = b /\ e' = e) /\ (level = 0 -> closed b' e' all) /\
    ∀ x y, valid_end x -> valid_end y -> lower_end x b -> upper_end y e -> closed x y all -> lower_end x b' /\ upper_end y e'.

Lemma lower_trans x b b' : valid_end b -> lower_end b' b -> lower_end x b' -> lower_end x b.
Proof. destruct x as [x |], b as [b |], b' as [b' |]; try done. intros Vb [V' H1] [Vx H2]. split; [done |]. by apply (cmp_le_trans x b' b). Qed.
Lemma upper_trans x b b' : valid_end b -> upper_end b' b -> upper_end x b' -> upper_end x b.
Proof. destruct x as [x |], b as [b |], b' as [b' |]; try done. intros Vb [V' H1] [Vx H2]. split; [done |]. by apply (cmp_le_trans b b' x). Qed.

(** A file in range that sticks out moves an end, and every closed range follows. *)
Lemma extend_begin u e f r : f ∈ all -> valid u -> valid_end e -> in_range (Some u) e f = true -> below (ustart f) (Some u) = true -> level = 0 ->
  result_of (Some (ustart f)) e r -> result_of (Some u) e r.
Proof.
  intros Hin Vu Ve Hr Hb Hl (b' & e' & E & Hlb & Hue & _ & Hc & Hmin). pose proof (all_start f Hin) as Vs.
  assert (lower_end (Some (ustart f)) (Some u)) as Hle by (split; [done |]; cbn in Hb; apply bool_decide_eq_true in Hb; by rewrite Hb).
  exists b', e'. split; [done |]. split; [by eapply (lower_trans _ _ (Some (ustart f))) |]. split; [done |]. split; [done |]. split; [done |].
  intros x y Vx Vy Hx Hy Hcl. apply Hmin; [done.. | | done | done].
  assert (inside x y f = true) as Hins by (apply Hcl; [done |]; rewrite list.Forall_forall in all_ok; apply (in_range_wider x y (Some u) e f); [by apply all_ok | done..]).
  destruct x as [x |]; [| done]. destruct Hx as [_ Hx]. split; [done |]. unfold inside in Hins. bool_hyps. cbn in *. bool_hyps. intros Hgt. by apply cmp_gt_lt in Hgt.
Qed.
Lemma extend_end b u f r : f ∈ all -> valid u -> valid_end b -> in_range b (Some u) f = true -> above (ulimit f) (Some u) = true -> level = 0 ->
  result_of b (Some (ulimit f)) r -> result_of b (Some u) r.
Proof.
  intros Hin Vu Vb Hr Hb Hl (b' & e' & E & Hlb & Hue & _ & Hc & Hmin). pose proof (all_limit f Hin) as Vs.
  assert (upper_end (Some (ulimit f)) (Some u)) as Hle by (split; [done |]; cbn in Hb; apply bool_decide_eq_true in Hb; apply cmp_gt_lt in Hb; [| done..]; by rewrite Hb).
  exists b', e'. split; [done |]. split; [done |]. split; [by eapply (upper_trans _ _ (Some (ulimit f))) |]. split; [done |]. split; [done |].
  intros x y Vx Vy Hx Hy Hcl. apply Hmin; [done.. | done | | done].
  assert (inside x y f = true) as Hins by (apply Hcl; [done |]; rewrite list.Forall_forall in all_ok; apply (in_range_wider x y b (Some u) f); [by apply all_ok | done..]).
  destruct y as [y |]; [| done]. destruct Hy as [_ Hy]. split; [done |]. unfold inside in Hins. bool_hyps. cbn in *. by bool_hyps.
Qed.

Lemma overlap_loop_ok fuel rest pre b e inputs :
  all = pre ++ rest -> valid_end b -> valid_end e -> inputs = filter (λ f, in_range b e f = true) pre ->
  (level = 0 -> closed b e pre) -> (outside b e * S (length all) + length rest <= fuel)%nat ->
  result_of b e (overlap_loop C fuel level all rest b e inputs).
Proof.
  revert rest pre b e inputs. induction fuel as [fuel IH] using lt_wf_ind. intros rest pre b e inputs Eall Vb Ve -> Hpre Hf. destruct rest as [| f rest].
  - rewrite app_nil_r in Eall. subst pre. exists b, e. assert (∀ A B, overlap_loop C fuel level A [] b e B = Some B) as -> by by destruct fuel.
    split; [done |]. split; [by apply lower_refl |]. split; [by apply upper_refl |]. by split_and!.
  - destruct fuel as [| fuel]; [cbn in Hf; lia |]. cbn [overlap_loop].
    assert (f ∈ all) as Hin by (rewrite Eall; apply elem_of_app; right; left). pose proof (proj1 (list.Forall_forall _ _) all_ok f Hin) as Hok.
    destruct (ustart_ok f Hok) as [-> Vs], (ulimit_ok f Hok) as [-> Vl]. cbn [mbind option_bind]. rewrite (below_test (ulimit f) b) by done. cbn [mbind option_bind].
    assert (∀ keep : bool, in_range b e f = keep -> (keep = true -> level = 0 -> inside b e f = true) ->
      result_of b e (overlap_loop C fuel level all rest b e (filter (λ f, in_range b e f = true) pre ++ if keep then [f] else []))) as Hgo.
    { intros keep Ek Hins. apply (IH fuel ltac:(lia) rest (pre ++ [f])); [by rewrite <- app_assoc | done | done | | | cbn in Hf; lia].
      - rewrite list.filter_app. f_equal. rewrite list.filter_cons, list.filter_nil. destruct keep; [by rewrite decide_True | rewrite decide_False by congruence; done].
      - intros Hl g [Hg | ->%list_elem_of_singleton]%elem_of_app Hr; [by apply Hpre |]. apply Hins; congruence. }
    unfold in_range in Hgo. destruct (below (ulimit f) b) eqn:E1; cbn [negb andb] in Hgo; [pose proof (Hgo false eq_refl ltac:(done)) as Hgo'; cbv iota in Hgo'; rewrite app_nil_r in Hgo'; exact Hgo' |].
    rewrite (above_test (ustart f) e) by done. cbn [mbind option_bind]. destruct (above (ustart f) e) eqn:E2; cbn [negb] in Hgo; [pose proof (Hgo false eq_refl ltac:(done)) as Hgo'; cbv iota in Hgo'; rewrite app_nil_r in Hgo'; exact Hgo' |].
    assert (in_range b e f = true) as Hr by (unfold in_range; by rewrite E1, E2). specialize (Hgo true eq_refl).
    destruct (Z.eqb_spec level 0) as [Hl | Hl]; [| by apply Hgo].
    rewrite (below_test (ustart f) b) by done. cbn [mbind option_bind]. destruct (below (ustart f) b) eqn:E3.
    { destruct b as [u |]; [| done]. apply (extend_begin u e f); try done. apply (IH fuel ltac:(lia) all []); try done; [by intros _ g ?%elem_of_nil |].
      pose proof (outside_begin u e f Hin Vb E3). cbn [length] in Hf. nia. }
    rewrite (above_test (ulimit f) e) by done. cbn [mbind option_bind]. destruct (above (ulimit f) e) eqn:E4.
    { destruct e as [u |]; [| done]. apply (extend_end b u f); try done. apply (IH fuel ltac:(lia) all []); try done; [by intros _ g ?%elem_of_nil |].
      pose proof (outside_end b u f Hin Ve E4). cbn [length] in Hf. nia. }
    apply Hgo. intros _ _. unfold inside. by rewrite E3, E4.
Qed.
End Loop.
End Overlaps.

(** The user key of an end that is an internal key, or null. *)
Definition end_user (k : option Slice) : option Slice := k ← k; ExtractUserKey k.

Section Inputs.
Context {C : Comparator} {valid : Slice -> Prop} `{!ComparatorLaws C valid}.

Lemma outside_bound (all : list File) b e : (outside (C := C) all b e <= 2 * length all)%nat.
Proof.
  unfold outside. pose proof (length_filter (λ f, below (C := C) (ustart f) b = true) all). pose proof (length_filter (λ f, above (C := C) (ulimit f) e = true) all). lia.
Qed.

Lemma end_user_ok (k : option Slice) : match k with Some k => valid_ikey valid k | None => True end ->
  (match k with Some k => u ← ExtractUserKey k; Some (Some u) | None => Some None end) = Some (end_user k) /\ valid_end (valid := valid) (end_user k).
Proof. destruct k as [k |]; [| done]. intros (u & n & -> & Hu & _). unfold end_user. cbn [mbind option_bind]. by rewrite ExtractUserKey_ikey. Qed.

(** C35. Finding the inputs of a compaction ends, although a file of level 0 that reaches out of the range starts the search again:
    the result is the files, in order, that overlap a range; above level 0 it is the range asked for; at level 0 it is the least range around it that no
    file reaches out of.  *)
Theorem overlapping_inputs_closure (ndebug : bool) (v : Version) (level : Z) (files : list File) (begin end_ : option Slice) :
  level_files v level = Some files -> 0 <= level < kNumLevels -> Forall (file_ok (valid := valid)) files ->
  match begin with Some k => valid_ikey valid k | None => True end -> match end_ with Some k => valid_ikey valid k | None => True end ->
  ∃ b e, GetOverlappingInputs C ndebug v level begin end_ = Some (filter (λ f, in_range b e f = true) files) /\
    lower_end (valid := valid) b (end_user begin) /\ upper_end (valid := valid) e (end_user end_) /\
    (level <> 0 -> b = end_user begin /\ e = end_user end_) /\
    (level = 0 -> closed b e files /\
      ∀ x y, valid_end (valid := valid) x -> valid_end (valid := valid) y -> lower_end (valid := valid) x (end_user begin) -> upper_end (valid := valid) y (end_user end_) ->
        closed x y files -> lower_end (valid := valid) x b /\ upper_end (valid := valid) y e).
Proof.
  intros Ef Hl Hok Hb He. destruct (end_user_ok begin Hb) as [Eb Vb], (end_user_ok end_ He) as [Ee Ve]. unfold GetOverlappingInputs.
  rewrite (assert_bool ndebug (0 <=? level)) by (apply Z.leb_le; lia). rewrite (assert_bool ndebug (level <? kNumLevels)) by (apply Z.ltb_lt; lia). cbn [mbind option_bind]. rewrite Eb, Ee, Ef. cbn [mbind option_bind].
  destruct (overlap_loop_ok level files Hok (overlap_fuel files) files [] (end_user begin) (end_user end_) []) as (b & e & E & Hlb & Hue & Hn & Hc & Hmin); try done.
  - by intros _ g ?%elem_of_nil.
  - unfold overlap_fuel. pose proof (outside_bound files (end_user begin) (end_user end_)). nia.
  - exists b, e. split; [exact E |]. split; [done |]. split; [done |]. split; [done |]. intros H0. split; [by apply Hc |]. intros. by apply Hmin.
Qed.
End Inputs.

(** Files of level 0: the second reaches left of the first, and the third left of the second. *)
Definition example_file (n : Z) (lo hi : string) : File := MkFile (Z.to_nat n) (MkFileMetaData n 100 0 (ikey (lit lo) 0x501) (ikey (lit hi) 0x101)).
Definition example_version : Version :=
  set_files ([example_file 1 "m" "p"; example_file 2 "f" "n"; example_file 3 "a" "f"; example_file 4 "q" "t"] :: replicate 6 []) new_Version.
Lemma overlapping_inputs_closure_witness :
  ∃ b e, GetOverlappingInputs (BytewiseComparator false) false example_version 0 (Some (ikey (lit "m") 0x501)) (Some (ikey (lit "o") 0x101)) =
    Some [example_file 1 "m" "p"; example_file 2 "f" "n"; example_file 3 "a" "f"] /\
    lower_end (valid := bytes) (C := BytewiseComparator false) b (Some (lit "m")) /\ upper_end (valid := bytes) (C := BytewiseComparator false) e (Some (lit "o")).
Proof.
  assert (∀ s n, bytes (lit s) -> word 64 n -> valid_ikey bytes (ikey (lit s) n)) as Hv by (intros s n ? ?; by exists (lit s), n).
  destruct (overlapping_inputs_closure (C := BytewiseComparator false) (valid := bytes) false example_version 0 _ (Some (ikey (lit "m") 0x501)) (Some (ikey (lit "o") 0x101)) eq_refl)
    as (b & e & E & Hb & He & _).
  - by_compute.
  - repeat apply Forall_cons_2; try apply Forall_nil_2; (split; apply Hv; by_compute).
  - apply Hv; by_compute.
  - apply Hv; by_compute.
  - exists b, e. split; [| by split].
    assert (GetOverlappingInputs (BytewiseComparator false) false example_version 0 (Some (ikey (lit "m") 0x501)) (Some (ikey (lit "o") 0x101)) =
      Some [example_file 1 "m" "p"; example_file 2 "f" "n"; example_file 3 "a" "f"]) as Ev by (vm_compute; reflexivity).
    exact Ev.
Defined.
