(* ===== verification/VersionProps.v ===== *)
(** * Reading a version: [Version::Get] returns what the snapshot sees of the entries of its files *)
From stdpp Require Import sorting.
From S2P Require Import Prelude Status Coding Comparator Iterator History MemTable MemTableProps.
From S2P Require Import Table VersionEdit DbOptions Version VersionFacts.

(** ** Answers of a part of the entries *)
Section Answers.
Context {C : Comparator} {valid : Slice -> Prop} `{!ComparatorLaws C valid}.
Implicit Types (h : list Entry) (r : option Entry).

Definition answers (k : Slice) (s : Z) h r : Prop :=
  match r with Some e => is_latest h k s e | None => ∀ e, e ∈ h -> matches k s e = false end.

Lemma answers_latest k s h : answers k s h (latest k s h).
Proof. unfold answers. destruct (latest k s h) as [e |] eqn:E; [by apply latest_Some | by apply latest_None]. Qed.
Lemma answers_eq k s h r : base.NoDup (e_seq <$> h) -> answers k s h r -> latest k s h = r.
Proof. intros Hnd. destruct r as [e |]; cbn; [by apply latest_is_latest | by apply latest_None]. Qed.

(** More entries, none of which is newer for this reader. *)
Lemma answers_more k s h h' r : h ⊆ h' ->
  (∀ e, e ∈ h' -> matches k s e = true -> e ∈ h \/ ∃ e0, r = Some e0 /\ e_seq e <= e_seq e0) -> answers k s h r -> answers k s h' r.
Proof.
  intros Hsub Hm. destruct r as [e |]; cbn.
  - intros (Hin & He & Hmax). split; [by apply Hsub |]. split; [done |]. intros e' Hin' Hm'. destruct (Hm e' Hin' Hm') as [Hh | (e0 & [= <-] & Hle)]; [by apply Hmax | done].
  - intros Hnone e Hin. destruct (matches k s e) eqn:E; [| done]. destruct (Hm e Hin E) as [Hh | (e0 & ? & _)]; [by rewrite Hnone in E | done].
Qed.
Lemma answers_app k s h h' r r' : (∀ e e', e ∈ h -> e' ∈ h' -> same_key (e_key e) k = true -> same_key (e_key e') k = true -> e_seq e' < e_seq e) ->
  answers k s h r -> answers k s h' r' -> answers k s (h ++ h') (match r with Some e => Some e | None => r' end).
Proof.
  intros Hn Hr Hr'. destruct r as [e |].
  - apply (answers_more k s h); [set_solver | | done]. intros e' [He' | He']%elem_of_app Hm; [by left |]. right. exists e. split; [done |].
    destruct Hr as (Hin & Hm0 & _). unfold matches in Hm, Hm0. bool_hyps. apply Z.lt_le_incl. by apply Hn.
  - apply (answers_more k s h'); [set_solver | | done]. intros e' [He' | He']%elem_of_app Hm; [| by left]. cbn in Hr. by rewrite Hr in Hm.
Qed.
End Answers.

Section Get.
Context {C : Comparator} {valid : Slice -> Prop} `{!ComparatorLaws C valid} (ndebug : bool).
Context {T B : Type} `{!TableGet T} `{!Buffer B} (inv : T -> Prop) (stored : File -> list Entry) (options : ReadOptions).
Implicit Types (f g : File) (files : list File) (t : T).

(** Entries a file may hold. *)
Definition entry_ok (e : Entry) : Prop := valid (e_key e) /\ word 56 (e_seq e).
Definition seek_key (u : Slice) (s : Z) : Slice := ikey u (tag s kValueTypeForSeek).

(** What a table gives for a key: the entry the snapshot sees, else nothing or an entry of another key. *)
Definition finds (u : Slice) (s : Z) (h : list Entry) (saved : option (Slice * Slice)) : Prop :=
  match latest u s h with
  | Some e => ∃ v, saved = Some (entry_key e, v) /\ (v = e_value e \/ ro_limit options = 0)
  | None => saved = None \/ ∃ e v, saved = Some (entry_key e, v) /\ entry_ok e /\ same_key (e_key e) u = false
  end.
(** The tables of the files can be read, and hold the entries. *)
Definition readable f : Prop :=
  Forall entry_ok (stored f) /\
  ∀ u s t, valid u -> word 56 s -> inv t ->
    ∃ saved t', tc_Get options (number f) (file_size f) (seq_off f) (seek_key u s) t = Some (OK, saved, t') /\ inv t' /\ finds u s (stored f) saved.

Section Key.
Context (k : LookupKey) (u : Slice) (s : Z).
Hypothesis Hk : internal_key k = seek_key u s /\ lookup_user_key k = u.
Hypothesis Hu : valid u.
Hypothesis Hs : word 56 s.
Hypothesis Hlimit : 0 <= ro_limit options.

(** The entry the search stops at: that of the first file that answers. *)
Fixpoint first_answer files : option Entry :=
  match files with [] => None | f :: files => match latest u s (stored f) with Some e => Some e | None => first_answer files end end.
(** The status and the buffer for an entry. *)
Definition outcome (r : option Entry) (b : B) : option Status * B :=
  match r with
  | Some e => match e_type e with
              | kTypeValue => (Some OK, Fill b (take (Z.to_nat (Z.min (|[e_value e]|) (ro_limit options))) (e_value e)))
              | kTypeDeletion => (Some (MkStatus kNotFound [] []), b)
              end
  | None => (None, b)
  end.

Lemma SaveValue_other e v (b : B) : entry_ok e -> same_key (e_key e) u = false ->
  SaveValue C ndebug options u (entry_key e) v b = Some (kNotFound_, b).
Proof.
  intros [Ve We] Hne. unfold SaveValue, entry_key. rewrite ParseInternalKey_ikey by done. cbn [user_key]. unfold same_key in Hne.
  destruct (cmp_some (e_key e) u Ve Hu) as [r E]. rewrite E in *. cbn [mbind option_bind]. rewrite bool_decide_eq_false in Hne. rewrite bool_decide_false by congruence. done.
Qed.
Lemma SaveValue_hit e v (b : B) : entry_ok e -> same_key (e_key e) u = true -> v = e_value e \/ ro_limit options = 0 ->
  SaveValue C ndebug options u (entry_key e) v b =
  Some (match e_type e with kTypeValue => kFound_ | kTypeDeletion => kDeleted_ end, (outcome (Some e) b).2).
Proof.
  intros [Ve We] Heq Hv. unfold SaveValue, entry_key. rewrite ParseInternalKey_ikey by done. cbn [user_key type sequence]. unfold same_key in Heq. bool_hyps. rewrite Heq. cbn [mbind option_bind].
  rewrite bool_decide_true by done. cbn [outcome]. destruct (e_type e); [done |]. rewrite assert_bool by (apply Z.leb_le; unfold kMaxSequenceNumber; rewrite Z.shiftl_1_l; destruct We; lia).
  cbn [mbind option_bind]. destruct Hv as [-> | H0]; [done |]. rewrite H0. by rewrite !Z.min_r by apply slice_size_nonneg.
Qed.

Lemma search_files_ok level files st : Forall readable files -> inv (cache st) ->
  ∃ st', search_files C ndebug options k level files st = Some ((outcome (first_answer files) (buf st)).1, st') /\
    buf st' = (outcome (first_answer files) (buf st)).2 /\ inv (cache st').
Proof.
  intros Hr. revert st. induction Hr as [| f files [He Hf] Hr IH]; intros st Hi; [by exists st |]. cbn [search_files first_answer]. unfold search_file.
  destruct Hk as [Ek Eu]. rewrite Ek, Eu. destruct (Hf u s (cache st) Hu Hs Hi) as (saved & t' & -> & Hi' & Hfind). cbn [mbind option_bind]. change (ok OK) with true. cbn [negb]. unfold finds in Hfind.
  destruct (latest u s (stored f)) as [e |] eqn:El.
  - destruct Hfind as (v & -> & Hv). apply latest_Some in El as (Hin & Hm & _). unfold matches in Hm. bool_hyps. rewrite list.Forall_forall in He. cbn [buf].
    rewrite SaveValue_hit by auto. cbn [mbind option_bind]. destruct (e_type e) eqn:Et; cbn [outcome]; rewrite ?Et; cbn [mbind option_bind]; eexists; (split; [reflexivity | split; [reflexivity | exact Hi']]).
  - assert (∀ b : B, (match saved with Some (ik, v) => SaveValue C ndebug options u ik v b | None => Some (kNotFound_, b) end) = Some (kNotFound_, b)) as E.
    { intros b. destruct Hfind as [-> | (e & v & -> & Hok & Hne)]; [done |]. by apply SaveValue_other. }
    cbn [buf]. rewrite E. cbn [mbind option_bind]. match goal with |- context [search_files _ _ _ _ _ _ ?x] => destruct (IH x Hi') as (st' & E' & Hb & Hi2) end. by exists st'.
Qed.

(** ** The file of a sorted level *)
Record level_ok files : Prop := {
  lo_files : Forall (file_ok (valid := valid)) files;
  lo_sorted : sorted_pairs (C := InternalKeyComparator ndebug C) (valid_ikey valid) (file_pairs files);
  lo_count : Z.of_nat (length files) < 2 ^ 31;
  lo_low f e : f ∈ files -> e ∈ stored f -> Compare (ustart f) (e_key e) <> Some Gt;
  lo_high f e : f ∈ files -> e ∈ stored f -> InternalKey_Compare C (entry_key e) (largest f) <> Some Gt;
  lo_next i j f g e : files !! i = Some f -> files !! j = Some g -> (i < j)%nat -> e ∈ stored g -> InternalKey_Compare C (largest f) (entry_key e) = Some Lt;
  (** where the next file goes on with the last user key of a file, the file holds its largest key *)
  lo_tight i j f g e : files !! i = Some f -> files !! j = Some g -> (i < j)%nat -> e ∈ stored g -> same_key (e_key e) (ulimit f) = true ->
    ∃ e', e' ∈ stored f /\ entry_key e' = largest f
}.

Lemma seek_key_valid : valid_ikey valid (seek_key u s).
Proof. exists u, (tag s kValueTypeForSeek). split_and!; [done.. | by apply tag_word]. Qed.

(** An entry at or past the key, of the same user key, is one the snapshot sees. *)
Lemma matches_order e : entry_ok e -> matches u s e = true <-> same_key (e_key e) u = true /\ InternalKey_Compare C (entry_key e) (seek_key u s) <> Some Lt.
Proof.
  intros [Ve We]. unfold matches. rewrite andb_true_iff, Z.leb_le. apply and_iff_compat_l' || idtac.
  unfold entry_key, seek_key. rewrite InternalKey_Compare_ikey by by apply tag_word. unfold same_key. rewrite bool_decide_eq_true.
  split; (intros [E H]; split; [done |]); rewrite E in *; cbn [mbind option_bind ikey_compare] in *; rewrite tag_compare in *.
  - intros [= Hc]. destruct (Z.compare_spec s (e_seq e)); try done; [| lia]. subst. unfold kValueTypeForSeek in Hc. by destruct (e_type e).
  - destruct (Z.compare_spec s (e_seq e)); try lia. by destruct H.
Qed.

Lemma ExtractUserKey_entry e : ExtractUserKey (entry_key e) = Some (e_key e).
Proof. apply ExtractUserKey_ikey. Qed.

(** Versions of one key stand in the order of their sequence numbers. *)
Lemma entry_order_seq e e' : entry_ok e -> entry_ok e' -> Compare (e_key e) (e_key e') = Some Eq -> InternalKey_Compare C (entry_key e) (entry_key e') = Some Lt -> e_seq e' <= e_seq e.
Proof.
  intros [Ve We] [Ve' We'] E. unfold entry_key. rewrite InternalKey_Compare_ikey by by apply tag_word. rewrite E. cbn [mbind option_bind ikey_compare]. rewrite tag_compare.
  intros [= Hc]. destruct (Z.compare_spec (e_seq e') (e_seq e)); try done; lia.
Qed.

(** Between the key looked for and a later entry of its user key there is no other user key. *)
Lemma past_seek k0 e : valid_ikey valid k0 -> entry_ok e -> matches u s e = true -> InternalKey_Compare C k0 (seek_key u s) <> Some Lt -> InternalKey_Compare C k0 (entry_key e) = Some Lt ->
  same_key (e_key e) (default [] (ExtractUserKey k0)) = true /\ ∀ v, ExtractUserKey k0 = Some v -> same_key v u = true.
Proof.
  intros (w & m & -> & Vw & Wm) [Ve We] Hm Hge Hlt. rewrite ExtractUserKey_ikey. cbn [default]. unfold matches, same_key in Hm. bool_hyps.
  unfold seek_key, entry_key in *. rewrite InternalKey_Compare_ikey in Hge, Hlt by (done || by apply tag_word).
  destruct (cmp_some w u Vw Hu) as [r Er]. destruct (cmp_some w (e_key e) Vw Ve) as [r' Er']. rewrite Er, Er' in *. cbn [mbind option_bind] in *.
  assert (r = r') as <-.
  { pose proof (cmp_eq_r w (e_key e) u r' Vw Ve Hu Er' ltac:(done)) as E2. congruence. }
  destruct r; cbn [ikey_compare] in *; try done. split; [unfold same_key; apply bool_decide_eq_true; by apply cmp_eq_sym |]. intros v [= <-]. unfold same_key. by apply bool_decide_eq_true.
Qed.

Lemma candidate_answers files : level_ok files -> Forall (λ f, Forall entry_ok (stored f)) files ->
  ∃ c, level_candidate C ndebug u (seek_key u s) files = Some c /\ (∀ f, c = Some f -> f ∈ files) /\
    answers u s (files ≫= stored) (f ← c; latest u s (stored f)).
Proof.
  intros [Hfo Hso Hn Hlow Hhigh Hnext Htight] Hent. unfold level_candidate. rewrite FindFile_ok by (try apply seek_key_valid; done). cbn [mbind option_bind].
  set (n := lower (C := InternalKeyComparator ndebug C) (file_pairs files) (seek_key u s)).
  assert (∀ i f e, files !! i = Some f -> (i < n)%nat -> e ∈ stored f -> matches u s e = false) as Hbefore.
  { intros i f e Ef Hi He. destruct (matches u s e) eqn:Em; [| done]. exfalso.
    assert (f ∈ files) as Hf by by eapply list_elem_of_lookup_2. pose proof (proj1 (list.Forall_forall _ _) Hfo f Hf) as [_ Hl].
    assert (entry_ok e) as Hok by (rewrite list.Forall_forall in Hent; specialize (Hent f Hf); rewrite list.Forall_forall in Hent; by apply Hent).
    apply matches_order in Em as [_ Hge]; [| done]. apply Hge.
    apply (cmp_le_lt_trans (compare := InternalKey_Compare C) (valid := valid_ikey valid) _ (largest f)); [destruct Hok; exists (e_key e), (tag (e_seq e) (e_type e)); split_and!; [done.. | by apply tag_word] | done | apply seek_key_valid | by apply Hhigh |].
    by apply (lower_spec (C := InternalKeyComparator ndebug C) (file_pairs files) (seek_key u s) i _ Hso seek_key_valid (file_pairs_at _ _ _ Ef)). }
  destruct (Z.leb_spec (Z.of_nat (length files)) (Z.of_nat n)) as [Hle | Hlt].
  - exists None. split; [done |]. split; [done |]. cbn. intros e He. apply list_elem_of_bind in He as (f & He & Hf). apply list_elem_of_lookup in Hf as [i Ef].
    pose proof (lookup_lt_Some _ _ _ Ef). apply (Hbefore i f e Ef); [lia | done].
  - destruct (lookup_lt_is_Some_2 files n) as [f Ef]; [lia |]. rewrite Nat2Z.id, Ef. cbn [mbind option_bind].
    assert (f ∈ files) as Hf by by eapply list_elem_of_lookup_2. pose proof (proj1 (list.Forall_forall _ _) Hfo f Hf) as Hok.
    destruct (ustart_ok f Hok) as [-> Vs]. cbn [mbind option_bind]. destruct (cmp_some u (ustart f) Hu Vs) as [r Er]. rewrite Er. cbn [mbind option_bind].
    exists (if bool_decide (r = Lt) then None else Some f). split; [done |]. split; [by case_bool_decide; intros g [= <-] |].
    assert (answers u s (stored f) (f0 ← (if bool_decide (r = Lt) then None else Some f); latest u s (stored f0))) as Hans.
    { case_bool_decide as Hr; cbn; [| apply answers_latest]. subst r. intros e He. unfold matches, same_key. rewrite bool_decide_false; [done |]. intros E.
      apply (Hlow f e Hf He). assert (entry_ok e) as [Ve _] by (rewrite list.Forall_forall in Hent; specialize (Hent f Hf); rewrite list.Forall_forall in Hent; by apply Hent).
      apply (cmp_eq_sym (e_key e) u) in E; [| done..]. rewrite (cmp_flip (ustart f) (e_key e) Gt) || idtac.
      apply cmp_gt_lt; [done.. |]. apply (cmp_le_lt_trans (e_key e) u); [done.. | by rewrite (cmp_eq_sym u (e_key e)) | done]. }
    apply (answers_more u s (stored f)); [intros e He; apply list_elem_of_bind; by exists f | | exact Hans].
    intros e He Hm. apply list_elem_of_bind in He as (g & He & Hg). apply list_elem_of_lookup in Hg as [j Eg].
    destruct (lt_eq_lt_dec j n) as [[Hj | ->] | Hj]; [by rewrite (Hbefore j g e) in Hm | left; congruence |]. right.
    assert (∀ g' e', g' ∈ files -> e' ∈ stored g' -> entry_ok e') as Hent'
      by (intros g' e' Hg' He'; rewrite list.Forall_forall in Hent; specialize (Hent g' Hg'); rewrite list.Forall_forall in Hent; by apply Hent).
    pose proof (Hent' g e ltac:(by eapply list_elem_of_lookup_2) He) as Hoe.
    assert (InternalKey_Compare C (largest f) (seek_key u s) <> Some Lt) as Hge.
    { intros E. apply (lower_spec (C := InternalKeyComparator ndebug C) (file_pairs files) (seek_key u s) n _ Hso seek_key_valid (file_pairs_at _ _ _ Ef)) in E. unfold n in E. lia. }
    destruct (past_seek (largest f) e) as [Hsame Hbelow]; [apply Hok | done | done | exact Hge | by eapply Hnext |].
    destruct (Htight n j f g e Ef Eg Hj He) as (e' & He' & Ek).
    { unfold ulimit. exact Hsame. }
    pose proof (Hent' f e' Hf He') as Hoe'. assert (matches u s e' = true) as Hm'.
    { apply matches_order; [done |]. split; [| by rewrite Ek]. apply Hbelow. by rewrite <- Ek, ExtractUserKey_entry. }
    destruct (f0 ← (if bool_decide (r = Lt) then None else Some f); latest u s (stored f0)) as [e0 |]; cbn in Hans; [| by rewrite (Hans e') in Hm'].
    exists e0. split; [done |]. destruct Hans as (_ & _ & Hmax). etrans; [| by apply (Hmax e')].
    apply (entry_order_seq e' e); [done.. | |]; [| rewrite Ek; by eapply Hnext].
    unfold matches in Hm, Hm'. bool_hyps. unfold same_key in *. bool_hyps. destruct Hoe, Hoe'. apply (cmp_eq (e_key e') u); [done.. |]. by apply cmp_eq_sym.
Qed.

(** ** The files of level 0 *)
Record level0_ok files : Prop := {
  l0_files : Forall (file_ok (valid := valid)) files;
  l0_numbers : base.NoDup ((λ f, number f) <$> files);
  l0_range f e : f ∈ files -> e ∈ stored f -> Compare (ustart f) (e_key e) <> Some Gt /\ Compare (e_key e) (ulimit f) <> Some Gt;
  l0_newest f g e e' : f ∈ files -> g ∈ files -> number g < number f -> e ∈ stored f -> e' ∈ stored g -> same_key (e_key e) (e_key e') = true -> e_seq e' < e_seq e
}.

Definition holds f : bool := negb (bool_decide (Compare u (ustart f) = Some Lt)) && negb (bool_decide (Compare u (ulimit f) = Some Gt)).
Lemma overlapping_files_ok files : Forall (file_ok (valid := valid)) files -> overlapping_files C u files = Some (filter (λ f, holds f = true) files).
Proof.
  induction 1 as [| f files Hf Hfs IH]; [done |]. cbn [overlapping_files]. destruct (ustart_ok f Hf) as [-> Vs], (ulimit_ok f Hf) as [-> Vl]. cbn [mbind option_bind].
  assert ((r ← Compare u (ustart f); if bool_decide (r = Lt) then Some false else r ← Compare u (ulimit f); Some (negb (bool_decide (r = Gt)))) = Some (holds f)) as E.
  { unfold holds. destruct (cmp_some u (ustart f) Hu Vs) as [r Er], (cmp_some u (ulimit f) Hu Vl) as [r' Er']. rewrite Er, Er'. cbn [mbind option_bind]. by destruct r, r'. }
  destruct (Compare u (ustart f)) as [r |]; [cbn [mbind option_bind] in * | done]. rewrite E, IH. cbn [mbind option_bind]. f_equal. rewrite list.filter_cons.
  destruct (holds f) eqn:Eh; [by rewrite decide_True | rewrite decide_False by congruence; done].
Qed.

Lemma NoDup_fmap_filter {A A'} (h : A -> A') (P : A -> Prop) `{!∀ x, Decision (P x)} (l : list A) : base.NoDup (h <$> l) -> base.NoDup (h <$> filter P l).
Proof.
  induction l as [| x l IH]; [done |]. cbn [fmap list_fmap]. intros [Hx Hl]%list.NoDup_cons. rewrite list.filter_cons. case_decide; [| by apply IH].
  cbn [fmap list_fmap]. apply list.NoDup_cons. split; [| by apply IH]. intros Hin. apply Hx. apply list_elem_of_fmap in Hin as (y & E & Hy). apply list_elem_of_filter in Hy as [_ Hy].
  apply list_elem_of_fmap. by exists y.
Qed.

Lemma sort_newest_perm files : sort_newest files ≡ₚ files.
Proof.
  assert (∀ f fs, insert_newest f fs ≡ₚ f :: fs) as Hins.
  { intros f fs. induction fs as [| g fs IH]; cbn [insert_newest]; [done |]. destruct (number f >? number g); [done |]. rewrite IH. by apply Permutation_swap. }
  induction files as [| f files IH]; cbn [sort_newest foldr]; [done |]. rewrite Hins. by constructor.
Qed.
Lemma sort_newest_sorted files : base.NoDup ((λ f, number f) <$> files) -> StronglySorted (λ f g, number g < number f) (sort_newest files).
Proof.
  assert (∀ f fs, StronglySorted (λ f g, number g < number f) fs -> number f ∉ ((λ f : File, number f) <$> fs) -> StronglySorted (λ f g, number g < number f) (insert_newest f fs)) as Hins.
  { intros f fs Hfs. induction Hfs as [| g fs Hfs IH Hg]; intros Hnew; cbn [insert_newest]; [repeat constructor |].
    cbn [fmap list_fmap] in Hnew. apply not_elem_of_cons in Hnew as [Hne Hnew]. destruct (Z.gtb_spec (number f) (number g)).
    - constructor; [by constructor |]. constructor; [lia |]. eapply list.Forall_impl; [exact Hg |]. cbn. intros; lia.
    - constructor; [by apply IH |]. apply list.Forall_forall. intros h Hh. assert (insert_newest f fs ≡ₚ f :: fs) as Hp.
      { clear. induction fs as [| g fs IH]; cbn [insert_newest]; [done |]. destruct (number f >? number g); [done |]. rewrite IH. by apply Permutation_swap. }
      rewrite Hp in Hh. apply elem_of_cons in Hh as [-> | Hh]; [lia |]. rewrite list.Forall_forall in Hg. by apply Hg. }
  induction files as [| f files IH]; intros Hnd; cbn [sort_newest foldr]; [constructor |]. cbn [fmap list_fmap] in Hnd. apply list.NoDup_cons in Hnd as [Hn Hnd].
  apply Hins; [by apply IH |]. change (foldr insert_newest [] files) with (sort_newest files). by rewrite (sort_newest_perm files).
Qed.

Lemma sorted_answers files : StronglySorted (λ f g, number g < number f) files ->
  (∀ f g e e', f ∈ files -> g ∈ files -> number g < number f -> e ∈ stored f -> e' ∈ stored g -> same_key (e_key e) u = true -> same_key (e_key e') u = true -> e_seq e' < e_seq e) ->
  answers u s (files ≫= stored) (first_answer files).
Proof.
  induction 1 as [| f files Hs' IH Hf]; intros Hn; [by intros e ?%elem_of_nil |]. cbn [first_answer]. rewrite bind_cons. apply answers_app.
  - intros e e' He He'. apply list_elem_of_bind in He' as (g & He' & Hg). apply (Hn f g); [by left | by right | | done..]. rewrite list.Forall_forall in Hf. by apply Hf.
  - apply answers_latest.
  - apply IH. intros g g' e e' Hg Hg'. apply Hn; by right.
Qed.

Lemma level0_answers files : level0_ok files -> Forall (λ f, Forall entry_ok (stored f)) files ->
  ∃ tmp, overlapping_files C u files = Some tmp /\ sort_newest tmp ⊆ files /\ answers u s (files ≫= stored) (first_answer (sort_newest tmp)).
Proof.
  intros [Hfo Hnd Hr Hn] Hent. exists (filter (λ f, holds f = true) files). split; [by apply overlapping_files_ok |].
  assert (sort_newest (filter (λ f, holds f = true) files) ⊆ files) as Hsub by (intros f Hf; rewrite sort_newest_perm in Hf; by apply list_elem_of_filter in Hf as [_ ?]).
  assert (∀ g' e', g' ∈ files -> e' ∈ stored g' -> entry_ok e') as Hent'
    by (intros g' e' Hg' He'; rewrite list.Forall_forall in Hent; specialize (Hent g' Hg'); rewrite list.Forall_forall in Hent; by apply Hent).
  split; [done |]. apply (answers_more u s (sort_newest (filter (λ f, holds f = true) files) ≫= stored)).
  - intros e He. apply list_elem_of_bind in He as (f & He & Hf). apply list_elem_of_bind. exists f. split; [done | by apply Hsub].
  - intros e He Hm. left. apply list_elem_of_bind in He as (f & He & Hf). apply list_elem_of_bind. exists f. split; [done |]. rewrite sort_newest_perm. apply list_elem_of_filter. split; [| done].
    destruct (Hr f e Hf He) as [H1 H2]. destruct (Hent' f e Hf He) as [Ve _]. pose proof (proj1 (list.Forall_forall _ _) Hfo f Hf) as Hok. destruct (ustart_ok f Hok) as [_ Vs], (ulimit_ok f Hok) as [_ Vl].
    unfold matches, same_key in Hm. bool_hyps. unfold holds. apply andb_true_iff. split; apply negb_true_iff, bool_decide_eq_false; intros E.
    + apply H1. apply cmp_gt_lt; [done.. |]. by apply (cmp_eq (e_key e) u).
    + apply H2. by apply (cmp_eq (e_key e) u).
  - apply sorted_answers.
    + apply sort_newest_sorted. by apply NoDup_fmap_filter.
    + intros f g e e' Hf Hg Hlt He He' Hm Hm'. apply (Hn f g); [by apply Hsub | by apply Hsub | done | done | done |].
      destruct (Hent' f e (Hsub f Hf) He) as [Ve _], (Hent' g e' (Hsub g Hg) He') as [Ve' _]. unfold same_key in *. bool_hyps. apply bool_decide_eq_true.
      apply (cmp_eq (e_key e) u); [done.. |]. by apply cmp_eq_sym.
Qed.

(** ** All levels *)
Definition levels_entries (levels : list (list File)) : list Entry := levels ≫= (λ files, files ≫= stored).
(** An upper level is newer than a lower one. *)
Definition newer_above (levels : list (list File)) : Prop :=
  ∀ i j fi fj e e', levels !! i = Some fi -> levels !! j = Some fj -> (i < j)%nat -> e ∈ (fi ≫= stored) -> e' ∈ (fj ≫= stored) ->
    same_key (e_key e) (e_key e') = true -> e_seq e' < e_seq e.
Definition files_readable (levels : list (list File)) : Prop := Forall (Forall readable) levels.

Lemma readable_entries files : Forall readable files -> Forall (λ f, Forall entry_ok (stored f)) files.
Proof. intros H. eapply list.Forall_impl; [exact H |]. by intros f [? _]. Qed.

Lemma levels_newer files levels : newer_above (files :: levels) -> Forall readable files -> files_readable levels ->
  ∀ e e', e ∈ (files ≫= stored) -> e' ∈ levels_entries levels -> same_key (e_key e) u = true -> same_key (e_key e') u = true -> e_seq e' < e_seq e.
Proof.
  intros Hn Hr Hrs e e' He He' Hm Hm'. apply list_elem_of_bind in He' as (g & He' & Hg). pose proof Hg as Hg2. apply list_elem_of_lookup in Hg as [j Ej].
  apply (Hn 0%nat (S j) files g e e'); try done; [lia |]. apply list_elem_of_bind in He as (f & He & Hf). apply list_elem_of_bind in He' as (f' & He' & Hf').
  assert (entry_ok e /\ entry_ok e') as [[Ve _] [Ve' _]].
  { split; [rewrite list.Forall_forall in Hr; destruct (Hr f Hf) as [Hent _] | unfold files_readable in Hrs; rewrite list.Forall_forall in Hrs; specialize (Hrs g Hg2); rewrite list.Forall_forall in Hrs; destruct (Hrs f' Hf') as [Hent _]];
      rewrite list.Forall_forall in Hent; by apply Hent. }
  unfold same_key in *. bool_hyps. apply bool_decide_eq_true. apply (cmp_eq (e_key e) u); [done.. |]. by apply cmp_eq_sym.
Qed.

Lemma newer_above_tail files levels : newer_above (files :: levels) -> newer_above levels.
Proof. intros Hn i j fi fj e e' Ei Ej Hij. apply (Hn (S i) (S j)); [done.. | lia]. Qed.

(** What the search does with the candidates of its first level, and then below. *)
Lemma search_step level files levels cs st :
  (if level =? 0 then tmp ← overlapping_files C u files; Some (sort_newest tmp)
   else if bool_decide (files = []) then Some [] else c ← level_candidate C ndebug u (seek_key u s) files; Some (option_list c)) = Some cs ->
  cs ⊆ files -> Forall readable files -> inv (cache st) -> answers u s (files ≫= stored) (first_answer cs) ->
  newer_above (files :: levels) -> files_readable levels ->
  (∀ st, inv (cache st) -> ∃ r st', search_levels C ndebug options k (level + 1) levels st = Some ((outcome r (buf st)).1, st') /\
     buf st' = (outcome r (buf st)).2 /\ inv (cache st') /\ answers u s (levels_entries levels) r) ->
  ∃ r st', search_levels C ndebug options k level (files :: levels) st = Some ((outcome r (buf st)).1, st') /\
     buf st' = (outcome r (buf st)).2 /\ inv (cache st') /\ answers u s (levels_entries (files :: levels)) r.
Proof.
  intros Ec Hsub Hr Hi Hans Hn Hrs IH. cbn [search_levels]. destruct Hk as [Ek Eu]. rewrite Ek, Eu, Ec. cbn [mbind option_bind].
  destruct (search_files_ok level cs st) as (st' & -> & Hb & Hi'); [apply list.Forall_forall; intros f Hf; rewrite list.Forall_forall in Hr; by apply Hr, Hsub | done |].
  cbn [mbind option_bind]. destruct (IH st' Hi') as (r2 & st2 & E2 & Hb2 & Hi2 & Hans2).
  exists (match first_answer cs with Some e => Some e | None => r2 end). destruct (first_answer cs) as [e |] eqn:Ea.
  - exists st'. assert (∃ x, (outcome (Some e) (buf st)).1 = Some x) as [x Ex] by (cbn [outcome]; destruct (e_type e); by eexists). rewrite Ex. split_and!; try done.
    unfold levels_entries. rewrite bind_cons. apply (answers_app u s _ _ (Some e) r2); [by apply levels_newer | done..].
  - cbn [outcome fst snd] in *. rewrite Hb in *. exists st2. split_and!; try done. unfold levels_entries. rewrite bind_cons. apply (answers_app u s _ _ None r2); [by apply levels_newer | done..].
Qed.

Lemma search_deep level levels st : 1 <= level -> Forall level_ok levels -> newer_above levels -> files_readable levels -> inv (cache st) ->
  ∃ r st', search_levels C ndebug options k level levels st = Some ((outcome r (buf st)).1, st') /\
     buf st' = (outcome r (buf st)).2 /\ inv (cache st') /\ answers u s (levels_entries levels) r.
Proof.
  intros Hl Hok. revert level st Hl. induction Hok as [| files levels Hf Hok IH]; intros level st Hl Hn Hr Hi.
  { exists None, st. split_and!; try done. by intros e ?%elem_of_nil. }
  apply list.Forall_cons in Hr as [Hr Hrs]. destruct (candidate_answers files Hf (readable_entries _ Hr)) as (c & Ec & Hc & Hans).
  apply (search_step level files levels (if bool_decide (files = []) then [] else option_list c)); try done.
  - destruct (Z.eqb_spec level 0); [lia |]. case_bool_decide; [done |]. by rewrite Ec.
  - case_bool_decide; [set_solver |]. destruct c as [f |]; cbn; [| set_solver]. intros g ->%list_elem_of_singleton. by apply Hc.
  - case_bool_decide as He; [subst files; by intros e ?%elem_of_nil |]. destruct c as [f |]; cbn in *; [| done]. by destruct (latest u s (stored f)).
  - intros st' Hi'. apply IH; [lia | by eapply newer_above_tail | done..].
Qed.

Record version_ok (v : Version) : Prop := {
  vo_zero : ∃ files levels, files_ v = files :: levels /\ level0_ok files /\ Forall level_ok levels;
  vo_newer : newer_above (files_ v);
  vo_readable : files_readable (files_ v)
}.

Lemma Version_Get_ok v b t : version_ok v -> base.NoDup (e_seq <$> levels_entries (files_ v)) -> inv t ->
  ∃ found st b' stats t', Version_Get C ndebug options k b t v = Some (found, st, b', stats, t') /\ inv t' /\
    match latest u s (levels_entries (files_ v)) with
    | Some e => found = true /\ (outcome (Some e) b) = (Some st, b')
    | None => found = false /\ st = MkStatus kNotFound [] [] /\ b' = b
    end.
Proof.
  intros [(files & levels & E & H0 & Hdeep) Hn Hr] Hnd Hi. rewrite E in *. apply list.Forall_cons in Hr as [Hr Hrs].
  destruct (level0_answers files H0 (readable_entries _ Hr)) as (tmp & Et & Hsub & Hans). unfold Version_Get. rewrite E.
  destruct (search_step 0 files levels (sort_newest tmp) (MkSearch None (MkGetStats None (-1)) b t)) as (r & st' & Es & Hb & Hi' & Ha); try done.
  - cbn [Z.eqb]. by rewrite Et.
  - intros st Hi'. apply search_deep; [lia | done | by eapply newer_above_tail | done..].
  - rewrite Es. cbn [mbind option_bind]. rewrite (answers_eq u s _ r Hnd Ha). eexists _, _, _, _, _. split; [done |]. split; [done |]. cbn [buf] in *. destruct r as [e |].
    + cbn [outcome] in *. destruct (e_type e); cbn [fst snd] in *; by rewrite Hb.
    + cbn in *. by rewrite Hb.
Qed.
End Key.

(** C33. Reading a version: when the tables of its files can be read, each level holds what its files say (level 0 newest file
    first, the other levels sorted and disjoint, an upper level newer than a lower one), [Version::Get] gives the status and the
    buffer of the newest entry of the user key, over all files of all levels, that the snapshot sees: its value cut at the limit, NotFound
    with [found] for a deletion, and NotFound without it when no file has one. Levels are searched from the newest on, and the first that answers decides. *)
Theorem version_get (k : LookupKey) (u : Slice) (s : Z) (v : Version) (b : B) (t : T) :
  new_LookupKey ndebug u s = Some k -> valid u -> word 56 s -> 0 <= ro_limit options ->
  version_ok v -> base.NoDup (e_seq <$> levels_entries (files_ v)) -> inv t ->
  ∃ found st b' stats t', Version_Get C ndebug options k b t v = Some (found, st, b', stats, t') /\ inv t' /\
    match latest u s (levels_entries (files_ v)) with
    | Some e => found = true /\ match e_type e with
        | kTypeValue => st = OK /\ b' = Fill b (take (Z.to_nat (Z.min (|[e_value e]|) (ro_limit options))) (e_value e))
        | kTypeDeletion => st = MkStatus kNotFound [] [] /\ b' = b
        end
    | None => found = false /\ st = MkStatus kNotFound [] [] /\ b' = b
    end.
Proof.
  intros Ek Hu Hs Hl Hok Hnd Hi. rewrite new_LookupKey_ok in Ek by done. injection Ek as <-.
  destruct (Version_Get_ok (MkLookupKey (EncodeVarint32 (u32 (|[u]| + 8)) ++ ikey u (tag s kTypeValue)) (ikey u (tag s kTypeValue)) u) u s ltac:(by split) Hu Hs Hl v b t Hok Hnd Hi) as (found & st & b' & stats & t' & E & Hi' & H).
  exists found, st, b', stats, t'. split; [exact E |]. split; [done |]. destruct (latest u s (levels_entries (files_ v))) as [e |]; [| done].
  destruct H as [-> H]. split; [done |]. cbn [outcome] in H. destruct (e_type e); by injection H as <- <-.
Qed.
End Get.

(** Tables of one entry, by file number. *)
#[local] Instance one_entry_tables : TableGet (Z -> option Entry) :=
  { tc_Get options n size off k t :=
      Some (OK, e ← t n; if bool_decide (InternalKey_Compare (BytewiseComparator false) (entry_key e) k = Some Lt) then None else Some (entry_key e, e_value e), t) }.
Definition one_entry (n : Z) : option Entry :=
  if n =? 9 then Some (MkEntry (lit "a") 5 kTypeValue (lit "new")) else if n =? 4 then Some (MkEntry (lit "a") 2 kTypeValue (lit "old"))
  else if n =? 5 then Some (MkEntry (lit "b") 3 kTypeDeletion []) else None.
Definition one_file (n : Z) : File := MkFile (Z.to_nat n) (MkFileMetaData n 100 0 (default [] (entry_key <$> one_entry n)) (default [] (entry_key <$> one_entry n))).
Definition one_version : Version := set_files ([one_file 9] :: [one_file 4; one_file 5] :: replicate 5 []) new_Version.

Definition one_stored (f : File) : list Entry := option_list (one_entry (number f)).
Lemma one_readable options (f : File) : 0 <= ro_limit options -> Forall (entry_ok (valid := bytes)) (one_stored f) ->
  readable (C := BytewiseComparator false) (valid := bytes) (λ t, t = one_entry) one_stored options f.
Proof.
  intros Hl Hok. split; [done |]. intros u s t Hu Hs ->. eexists _, _. split; [reflexivity |]. split; [done |]. unfold finds, seek_key, one_stored in *.
  destruct (one_entry (number f)) as [e |]; cbn [option_list mbind option_bind] in *; [| cbn; by left].
  apply list.Forall_cons in Hok as [Hok _]. pose proof (matches_order (C := BytewiseComparator false) (valid := bytes) (MkLookupKey [] (ikey u (tag s kValueTypeForSeek)) u) u s ltac:(by split) Hs e Hok) as Hm. unfold seek_key in Hm.
  change (option_list (Some e)) with [e]. cbn [latest]. case_bool_decide as Hlt; destruct (matches u s e) eqn:E.
  - exfalso. destruct Hm as [Hm _]. by destruct (Hm eq_refl).
  - by left.
  - eexists. split; [done | by left].
  - right. exists e, (e_value e). split; [done |]. split; [done |]. destruct (same_key (e_key e) u) eqn:Es; [| done]. assert (false = true) by (by apply Hm). done.
Qed.
Lemma one_file_ok n e : one_entry n = Some e -> entry_ok (valid := bytes) e -> file_ok (valid := bytes) (one_file n).
Proof.
  intros E [Hv Hs]. unfold file_ok, one_file. cbn [f_meta smallest largest]. rewrite E. cbn [fmap option_fmap option_map default].
  split; (exists (e_key e), (tag (e_seq e) (e_type e)); split_and!; [reflexivity | exact Hv | by apply tag_word]).
Qed.
Lemma one_level_ok : level_ok (C := BytewiseComparator false) (valid := bytes) false one_stored [one_file 4; one_file 5].
Proof.
  split.
  - repeat apply Forall_cons_2; try apply Forall_nil_2; (eapply one_file_ok; [reflexivity | split; by_compute]).
  - split.
    + apply SSorted_cons; [apply SSorted_cons; [apply SSorted_nil | apply Forall_nil_2] |]. apply Forall_cons_2; [vm_compute; reflexivity | apply Forall_nil_2].
    + repeat apply Forall_cons_2; try apply Forall_nil_2; (eexists _, _; split_and!; [reflexivity | by_compute | by_compute]).
  - done.
  - intros f e Hf He. repeat (apply elem_of_cons in Hf as [-> | Hf]); [..| by apply elem_of_nil in Hf]; apply list_elem_of_singleton in He as ->; vm_compute; discriminate.
  - intros f e Hf He. repeat (apply elem_of_cons in Hf as [-> | Hf]); [..| by apply elem_of_nil in Hf]; apply list_elem_of_singleton in He as ->; vm_compute; discriminate.
  - intros [| [| i]] [| [| j]] f g e Ei Ej Hij He; try lia; try done. injection Ei as <-. injection Ej as <-. apply list_elem_of_singleton in He as ->. vm_compute. reflexivity.
  - intros [| [| i]] [| [| j]] f g e Ei Ej Hij He Hm; try lia; try done. injection Ei as <-. injection Ej as <-. apply list_elem_of_singleton in He as ->. vm_compute in Hm. discriminate Hm.
Qed.
Lemma no_level_ok : level_ok (C := BytewiseComparator false) (valid := bytes) false one_stored [].
Proof. split; try done; try (intros ? ? ?%elem_of_nil; done). split; [apply SSorted_nil | apply Forall_nil_2]. Qed.
Lemma one_newer : newer_above (C := BytewiseComparator false) one_stored (files_ one_version).
Proof.
  assert (∀ j fj e', (2 <= j)%nat -> files_ one_version !! j = Some fj -> e' ∈ (fj ≫= one_stored) -> False) as Hnil.
  { intros j fj e' Hj E He'. destruct j as [| [| j]]; [lia.. |]. cbn in E. apply list_elem_of_lookup_2 in E. repeat (apply elem_of_cons in E as [-> | E]; [by apply elem_of_nil in He' |]). by apply elem_of_nil in E. }
  intros i j fi fj e e' Ei Ej Hij He He' Hm. destruct j as [| [| j]]; [lia | | exfalso; eapply (Hnil (S (S j))); [lia | exact Ej | exact He']].
  destruct i as [| i]; [| lia]. injection Ei as <-. injection Ej as <-. apply list_elem_of_singleton in He as ->. cbn in He'.
  apply elem_of_cons in He' as [-> | He']; [vm_compute; reflexivity |]. apply list_elem_of_singleton in He' as ->. vm_compute in Hm. discriminate Hm.
Qed.
Lemma version_get_witness : ∃ v stats t',
  Version_Get (BytewiseComparator false) false (MkReadOptions true true 100) v (@nil Z) one_entry one_version = Some (true, OK, lit "new", stats, t').
Proof.
  destruct (version_get (C := BytewiseComparator false) (valid := bytes) false (λ t, t = one_entry) one_stored (MkReadOptions true true 100)
    (default (MkLookupKey [] [] []) (new_LookupKey false (lit "a") 7)) (lit "a") 7 one_version (@nil Z) one_entry) as (found & st & b' & stats & t' & E & Ht & H).
  - vm_compute. reflexivity.
  - by_compute.
  - by_compute.
  - done.
  - split.
    + exists [one_file 9], ([one_file 4; one_file 5] :: replicate 5 []). split; [reflexivity |]. split.
      * split.
        -- repeat apply Forall_cons_2; try apply Forall_nil_2; (eapply one_file_ok; [reflexivity | split; by_compute]).
        -- by_compute.
        -- intros f e ->%list_elem_of_singleton ->%list_elem_of_singleton. split; vm_compute; discriminate.
        -- intros f g e e' ->%list_elem_of_singleton ->%list_elem_of_singleton Hn. lia.
      * apply Forall_cons_2; [apply one_level_ok |]. repeat apply Forall_cons_2; try apply no_level_ok. apply Forall_nil_2.
    + apply one_newer.
    + repeat apply Forall_cons_2; try apply Forall_nil_2; (apply one_readable; [done | repeat apply Forall_cons_2; try apply Forall_nil_2; split; by_compute]).
  - by_compute.
  - done.
  - assert (latest (C := BytewiseComparator false) (lit "a") 7 (levels_entries one_stored (files_ one_version)) = Some (MkEntry (lit "a") 5 kTypeValue (lit "new"))) as El by (vm_compute; reflexivity).
    rewrite El in H. destruct H as (-> & -> & ->). exists (default (MkLookupKey [] [] []) (new_LookupKey false (lit "a") 7)), stats, t'. exact E.
Defined.
