(* ===== verification/StrUtil.v ===== *)
(** * Strings and numbers ([pdlfs-common/strutil.h], [strutil.cc])

    Printing with [snprintf] is the decimal notation of the number; the parsers consume a slice from its start. *)
From S2P Require Import Prelude Keys VersionEdit.

(** ** Printing *)
(** Decimal notation; a 64-bit number has at most 20 digits. *)
Fixpoint digits (fuel : nat) (n : Z) : Slice :=
  match fuel with
  | O => []
  | S fuel => if n <? 10 then [48 + n] else digits fuel (n / 10) ++ [48 + n mod 10]
  end.
Definition decimal (n : Z) : Slice := digits 20 n.
(** ["%0wllu"]. *)
Definition zero_padded (w : nat) (n : Z) : Slice := replicate (w - length (decimal n)) 48 ++ decimal n.

Definition AppendSignedNumberTo (str : Slice) (num : Z) : Slice := str ++ (if num <? 0 then 45 else 43) :: decimal (Z.abs num).
Definition AppendNumberTo (str : Slice) (num : Z) : Slice := str ++ decimal num.
Definition hex_digit (n : Z) : Z := if n <? 10 then 48 + n else 87 + n.
(** A byte that cannot be printed is [\x] and two hexadecimal digits. *)
Definition escape_byte (c : Z) : Slice :=
  if (32 <=? c) && (c <=? 126) then [c] else [92; 120; hex_digit (Z.shiftr c 4); hex_digit (Z.land c 15)].
Definition AppendEscapedStringTo (str value : Slice) : Slice := str ++ concat (escape_byte <$> value).
Definition NumberToString (num : Z) : Slice := AppendNumberTo [] num.
Definition EscapeString (value : Slice) : Slice := AppendEscapedStringTo [] value.

(** ** Parsing *)
Definition is_digit (c : Z) : bool := (48 <=? c) && (c <=? 57).
Definition kMaxUint64 : Z := 2 ^ 64 - 1.
(** The loop, with the number of digits; [None] is the result [false] of an overflow. *)
Fixpoint consume_digits (v n : Z) (input : Slice) : option (Z * Z * Slice) :=
  match input with
  | c :: input' =>
      if is_digit c then
        let delta := c - 48 in
        if (v >? kMaxUint64 / 10) || ((v =? kMaxUint64 / 10) && (delta >? kMaxUint64 mod 10)) then None
        else consume_digits (u64 (v * 10 + delta)) (n + 1) input'
      else Some (v, n, input)
  | [] => Some (v, n, [])
  end.
Definition ConsumeDecimalNumber (input : Slice) : option (Z * Slice) :=
  '(v, n, input) ← consume_digits 0 0 input; if n >? 0 then Some (v, input) else None.

Definition false_literals : list Slice := lit <$> ["0"; "OFF"; "NO"; "FALSE"; "IGNORED"; "DISABLED"; "SKIP"; "NONE"; "N"]%string.
Definition true_literals : list Slice := lit <$> ["1"; "ON"; "YES"; "TRUE"; "ENABLED"; "Y"]%string.
Definition IsLiteralFalse (input : Slice) : bool := bool_decide (input ∈ false_literals).
Definition IsLiteralTrue (input : Slice) : bool := bool_decide (input ∈ true_literals).
Definition toupper (c : Z) : Z := if (97 <=? c) && (c <=? 122) then c - 32 else c.
Definition ParsePrettyBool (value : Slice) : option bool :=
  let input := toupper <$> value in
  if IsLiteralTrue input then Some true else if IsLiteralFalse input then Some false else None.
(** What follows the unit is not looked at. *)
Definition ParsePrettyNumber (value : Slice) : option Z :=
  '(base, input) ← ConsumeDecimalNumber value;
  match input with
  | [] => Some base
  | c :: _ =>
      if (c =? 75) || (c =? 107) then Some (u64 (Z.shiftl base 10))
      else if (c =? 77) || (c =? 109) then Some (u64 (Z.shiftl base 20))
      else if (c =? 71) || (c =? 103) then Some (u64 (Z.shiftl base 30))
      else None
  end.

Definition isspace (c : Z) : bool := (c =? 32) || ((9 <=? c) && (c <=? 13)).
(** [input[-1]] of a [Slice] is its last byte. *)
Fixpoint Trim_loop (fuel : nat) (input : Slice) : Slice :=
  match fuel with
  | O => input
  | S fuel =>
      match input with
      | [] => []
      | c :: input' =>
          if isspace c then Trim_loop fuel input'
          else if isspace (List.last input 0) then Trim_loop fuel (removelast input)
          else input
      end
  end.
Definition Trim (v : Slice) : Slice := Trim_loop (length v) v.

(** [SplitString]; a negative [max_splits] is no limit.  [strchr] finds the first delimiter. *)
Fixpoint split_at (delim : Z) (input : Slice) : option (Slice * Slice) :=
  match input with
  | [] => None
  | c :: input => if c =? delim then Some ([], input) else '(a, b) ← split_at delim input; Some (c :: a, b)
  end.
Fixpoint split_loop (fuel : nat) (delim max_splits splits : Z) (v : list Slice) (input : Slice) : list Slice * Slice :=
  match fuel with
  | O => (v, input)
  | S fuel =>
      if bool_decide (input <> []) && ((max_splits <? 0) || (splits <? max_splits)) then
        match split_at delim input with
        | Some (start, rest) =>
            let sub := Trim start in
            let v := if bool_decide (start <> []) && bool_decide (sub <> []) then v ++ [sub] else v in
            split_loop fuel delim max_splits (splits + 1) v rest
        | None => (v, input)
        end
      else (v, input)
  end.
Definition SplitString (v : list Slice) (str : Slice) (delim max_splits : Z) : Z * list Slice :=
  let '(v', input) := split_loop (S (length str)) delim max_splits 0 v str in
  let sub := Trim input in
  let v' := if bool_decide (sub <> []) then v' ++ [sub] else v' in
  (Z.of_nat (length v') - Z.of_nat (length v), v').

(** ** Printing and parsing *)
Lemma digits_nonempty fuel n : 0 <= n < 10 ^ Z.of_nat (S fuel) -> (1 <= length (digits (S fuel) n))%nat.
Proof. intros Hn. cbn [digits]. destruct (n <? 10); [done |]. rewrite length_app. cbn. lia. Qed.
Lemma digits_are_digits fuel n : 0 <= n -> Forall (λ c, is_digit c = true) (digits fuel n).
Proof.
  revert n. induction fuel as [| fuel IH]; intros n Hn; cbn [digits]; [apply Forall_nil_2 |].
  assert (∀ m, 0 <= m < 10 -> is_digit (48 + m) = true) as Hd by (intros m Hm; unfold is_digit; apply andb_true_iff; rewrite !Z.leb_le; lia).
  destruct (Z.ltb_spec n 10); [apply list.Forall_singleton, Hd; lia |]. apply list.Forall_app. split; [apply IH, Z.div_pos; lia |].
  apply list.Forall_singleton, Hd, Z.mod_pos_bound. lia.
Qed.

Lemma consume_app v n ds d rest : is_digit d = true ->
  consume_digits v n (ds ++ d :: rest) =
  ('(v', n', r) ← consume_digits v n ds; match r with [] => consume_digits v' n' (d :: rest) | _ => Some (v', n', r ++ d :: rest) end).
Proof.
  intros Hd. revert v n. induction ds as [| c ds IH]; intros v n; [done |]. cbn [app]. change (consume_digits v n (c :: ds ++ d :: rest)) with
    (if is_digit c then if (v >? kMaxUint64 / 10) || ((v =? kMaxUint64 / 10) && (c - 48 >? kMaxUint64 mod 10)) then None
       else consume_digits (u64 (v * 10 + (c - 48))) (n + 1) (ds ++ d :: rest) else Some (v, n, c :: ds ++ d :: rest)).
  change (consume_digits v n (c :: ds)) with
    (if is_digit c then if (v >? kMaxUint64 / 10) || ((v =? kMaxUint64 / 10) && (c - 48 >? kMaxUint64 mod 10)) then None
       else consume_digits (u64 (v * 10 + (c - 48))) (n + 1) ds else Some (v, n, c :: ds)).
  destruct (is_digit c); [| done]. destruct (_ || _); [done |]. by rewrite IH.
Qed.

Lemma consume_step v n d rest : 0 <= d < 10 -> 0 <= v -> v * 10 + d < 2 ^ 64 ->
  consume_digits v n ((48 + d) :: rest) = consume_digits (v * 10 + d) (n + 1) rest.
Proof.
  intros Hd Hv Hb. cbn [consume_digits]. assert (is_digit (48 + d) = true) as -> by (unfold is_digit; apply andb_true_iff; rewrite !Z.leb_le; lia).
  replace (48 + d - 48) with d by lia. unfold kMaxUint64. change ((2 ^ 64 - 1) / 10) with 1844674407370955161. change ((2 ^ 64 - 1) mod 10) with 5.
  change (2 ^ 64) with 18446744073709551616 in Hb.
  destruct (Z.gtb_spec v 1844674407370955161); [lia |]. destruct (Z.eqb_spec v 1844674407370955161); cbn [orb andb];
    [destruct (Z.gtb_spec d 5); [lia |] |]; unfold u64; rewrite wrap_small by (split; [lia | change (2 ^ 64) with 18446744073709551616; lia]); done.
Qed.

(** A number that was printed is read back, after any zeros. *)
Lemma consume_decimal fuel n m rest : 0 <= n < 10 ^ Z.of_nat fuel -> n < 2 ^ 64 -> (0 < fuel)%nat ->
  consume_digits 0 m (digits fuel n ++ rest) = consume_digits n (m + Z.of_nat (length (digits fuel n))) rest.
Proof.
  revert n m rest. induction fuel as [| fuel IH]; intros n m rest Hn Hb Hf; [lia |]. cbn [digits]. destruct (Z.ltb_spec n 10).
  - cbn [app]. rewrite consume_step by lia. cbn [length]. f_equal; lia.
  - rewrite <- app_assoc. cbn [app]. destruct fuel as [| fuel]; [cbn in Hn; lia |].
    pose proof (Z.div_mod n 10 ltac:(lia)). pose proof (Z.mod_pos_bound n 10 ltac:(lia)).
    rewrite IH; [| split; [apply Z.div_pos; lia |] | | lia].
    + rewrite consume_step by (try lia; apply Z.div_pos; lia). rewrite length_app. cbn [length]. f_equal; lia.
    + apply Z.div_lt_upper_bound; [lia |]. rewrite <- Z.pow_succ_r by lia. replace (Z.succ (Z.of_nat (S fuel))) with (Z.of_nat (S (S fuel))) by lia. lia.
    + lia.
Qed.
Lemma consume_zeros k m s : consume_digits 0 m (replicate k 48 ++ s) = consume_digits 0 (m + Z.of_nat k) s.
Proof.
  revert m. induction k as [| k IH]; intros m; cbn [replicate app]; [f_equal; lia |]. rewrite (consume_step 0 m 0) by lia. rewrite IH. f_equal; lia.
Qed.

Lemma length_digits fuel n : (length (digits fuel n) <= fuel)%nat.
Proof. revert n. induction fuel as [| fuel IH]; intros n; cbn [digits]; [done |]. destruct (n <? 10); [cbn; lia |]. rewrite length_app. cbn. specialize (IH (n / 10)). lia. Qed.

Lemma Consume_zero_padded w n rest : word 64 n -> (∀ c r, rest = c :: r -> is_digit c = false) ->
  ConsumeDecimalNumber (zero_padded w n ++ rest) = Some (n, rest).
Proof.
  intros [H0 Hn] Hr. unfold ConsumeDecimalNumber, zero_padded, decimal. rewrite <- app_assoc, consume_zeros.
  rewrite consume_decimal; [| split; [done | change (10 ^ Z.of_nat 20) with 100000000000000000000; change (2 ^ 64) with 18446744073709551616 in Hn; lia] | done | lia].
  assert (∀ m, consume_digits n m rest = Some (n, m, rest)) as -> by (intros m; destruct rest as [| c r]; [done | cbn [consume_digits]; by rewrite (Hr c r eq_refl)]).
  cbn [mbind option_bind]. pose proof (digits_nonempty 19 n ltac:(split; [done | change (10 ^ Z.of_nat 20) with 100000000000000000000; change (2 ^ 64) with 18446744073709551616 in Hn; lia])).
  destruct (Z.gtb_spec (0 + Z.of_nat (w - length (digits 20 n)) + Z.of_nat (length (digits 20 n))) 0); [done | lia].
Qed.
Lemma zero_padded_head w n : 0 <= n < 10 ^ 20 -> ∃ c s, zero_padded w n = c :: s /\ is_digit c = true.
Proof.
  intros Hn. assert (Forall (λ c, is_digit c = true) (zero_padded w n)) as Hd.
  { apply list.Forall_app. split; [| apply digits_are_digits; lia]. apply Forall_replicate. reflexivity. }
  destruct (zero_padded w n) as [| c s] eqn:E; [| exists c, s; split; [done |]; by apply list.Forall_cons in Hd as [? _]].
  apply (f_equal length) in E. unfold zero_padded in E. rewrite length_app in E. pose proof (digits_nonempty 19 n ltac:(split; [lia | change (10 ^ Z.of_nat 20) with (10 ^ 20); lia])). unfold decimal in E. cbn [length] in E. lia.
Qed.
