(* ===== verification/Filenames.v ===== *)
(** * Names of the files of a database ([leveldb/filenames.h], [filenames.cc]) *)
From S2P Require Import Prelude Keys StrUtil.

Inductive FileType := kLogFile | kDBLockFile | kTableFile | kDescriptorFile | kCurrentFile | kTempFile | kInfoLogFile.
#[global] Instance FileType_eq_dec : EqDecision FileType.
Proof. solve_decision. Defined.

Section Names.
Variable ndebug : bool.
Implicit Types (dbname : Slice) (number : Z).

Definition MakeFileName (name : Slice) number (suffix : string) : Slice := name ++ lit "/" ++ zero_padded 6 number ++ lit "." ++ lit suffix.
(** The names of numbered files assert a positive number. *)
Definition numbered (number : Z) (name : Slice) : option Slice := _ ← assert_ ndebug (number >? 0); Some name.
Definition LogFileName dbname number : option Slice := numbered number (MakeFileName dbname number "log").
Definition TableFileName dbname number : option Slice := numbered number (MakeFileName dbname number "ldb").
Definition SSTTableFileName dbname number : option Slice := numbered number (MakeFileName dbname number "sst").
Definition DescriptorFileName dbname number : option Slice := numbered number (dbname ++ lit "/MANIFEST-" ++ zero_padded 6 number).
Definition TempFileName dbname number : option Slice := numbered number (MakeFileName dbname number "dbtmp").
Definition CurrentFileName dbname : Slice := dbname ++ lit "/CURRENT".
Definition LockFileName dbname : Slice := dbname ++ lit "/LOCK".
Definition InfoLogFileName dbname : Slice := dbname ++ lit "/LOG".
Definition OldInfoLogFileName dbname : Slice := dbname ++ lit "/LOG.old".
End Names.

(** [ParseFileName] of a name without its directory; [None] is the result [false]. *)
Definition ParseFileName (fname : Slice) : option (Z * FileType) :=
  if bool_decide (fname = lit "CURRENT") then Some (0, kCurrentFile)
  else if bool_decide (fname = lit "LOCK") then Some (0, kDBLockFile)
  else if bool_decide (fname = lit "LOG") || bool_decide (fname = lit "LOG.old") then Some (0, kInfoLogFile)
  else if starts_with fname (lit "MANIFEST-") then
    '(num, rest) ← ConsumeDecimalNumber (drop (length (lit "MANIFEST-")) fname);
    if bool_decide (rest = []) then Some (num, kDescriptorFile) else None
  else
    '(num, suffix) ← ConsumeDecimalNumber fname;
    if bool_decide (suffix = lit ".log") then Some (num, kLogFile)
    else if bool_decide (suffix = lit ".sst") || bool_decide (suffix = lit ".ldb") then Some (num, kTableFile)
    else if bool_decide (suffix = lit ".dbtmp") then Some (num, kTempFile)
    else None.

(** The name without its directory. *)
Definition base_name (dbname name : Slice) : Slice := drop (length dbname + 1) name.

Lemma base_MakeFileName dbname n suffix : base_name dbname (MakeFileName dbname n suffix) = zero_padded 6 n ++ lit "." ++ lit suffix.
Proof. unfold base_name, MakeFileName. rewrite <- drop_drop, drop_app_length. reflexivity. Qed.

(** A name that starts with a digit is parsed as a number. *)
Lemma Parse_digit c s : is_digit c = true -> ParseFileName (c :: s) =
    '(num, suffix) ← ConsumeDecimalNumber (c :: s);
    if bool_decide (suffix = lit ".log") then Some (num, kLogFile)
    else if bool_decide (suffix = lit ".sst") || bool_decide (suffix = lit ".ldb") then Some (num, kTableFile)
    else if bool_decide (suffix = lit ".dbtmp") then Some (num, kTempFile)
    else None.
Proof.
  intros Hc. unfold is_digit in Hc. bool_hyps. unfold ParseFileName.
  assert (∀ d t, 57 < d -> c :: s <> d :: t) as Hne by (intros d t Hd [= -> _]; lia).
  rewrite !bool_decide_false by (apply Hne; reflexivity). cbn [orb].
  assert (starts_with (c :: s) (lit "MANIFEST-") = false) as ->; [| done].
  unfold starts_with. apply bool_decide_eq_false. intros E. vm_compute in E. injection E as E _. lia.
Qed.
Lemma Parse_MakeFileName dbname n suffix : word 64 n -> ParseFileName (base_name dbname (MakeFileName dbname n suffix)) =
    if bool_decide (lit "." ++ lit suffix = lit ".log") then Some (n, kLogFile)
    else if bool_decide (lit "." ++ lit suffix = lit ".sst") || bool_decide (lit "." ++ lit suffix = lit ".ldb") then Some (n, kTableFile)
    else if bool_decide (lit "." ++ lit suffix = lit ".dbtmp") then Some (n, kTempFile)
    else None.
Proof.
  intros Hn. rewrite base_MakeFileName. pose proof (Consume_zero_padded 6 n (lit "." ++ lit suffix) Hn) as Hc.
  destruct (zero_padded_head 6 n) as (c & s & E & Hd); [destruct Hn as [H0 H1]; split; [done |]; change (2 ^ 64) with 18446744073709551616 in H1; change (10 ^ 20) with 100000000000000000000; lia |].
  rewrite E in *. cbn [app] in *. rewrite Parse_digit by done. rewrite Hc; [done |]. intros c0 r [= <- _]. reflexivity.
Qed.

(** File names round-trip: the names that the database gives to its files parse back, without the directory, to
    the number and the type of the file, for every number of 64 bits but the 0 that the name functions refuse; the names without a number parse to 0. *)
Theorem file_names_roundtrip (ndebug : bool) (dbname : Slice) (n : Z) : word 64 n -> n <> 0 ->
  let parsed name := ParseFileName (base_name dbname name) in
  (parsed <$> LogFileName ndebug dbname n) = Some (Some (n, kLogFile)) /\
  (parsed <$> TableFileName ndebug dbname n) = Some (Some (n, kTableFile)) /\
  (parsed <$> SSTTableFileName ndebug dbname n) = Some (Some (n, kTableFile)) /\
  (parsed <$> TempFileName ndebug dbname n) = Some (Some (n, kTempFile)) /\
  (parsed <$> DescriptorFileName ndebug dbname n) = Some (Some (n, kDescriptorFile)) /\
  parsed (CurrentFileName dbname) = Some (0, kCurrentFile) /\ parsed (LockFileName dbname) = Some (0, kDBLockFile) /\
  parsed (InfoLogFileName dbname) = Some (0, kInfoLogFile) /\ parsed (OldInfoLogFileName dbname) = Some (0, kInfoLogFile).
Proof.
  intros Hn H0 parsed. unfold LogFileName, TableFileName, SSTTableFileName, TempFileName, DescriptorFileName, numbered.
  rewrite assert_bool by (apply Z.gtb_lt; destruct Hn; lia). cbn [mbind option_bind fmap option_fmap option_map]. unfold parsed.
  rewrite !Parse_MakeFileName by done. split_and!; try reflexivity.
  - unfold base_name. rewrite <- drop_drop, drop_app_length. change (drop 1 (lit "/MANIFEST-" ++ zero_padded 6 n)) with (lit "MANIFEST-" ++ zero_padded 6 n).
    unfold ParseFileName. rewrite !bool_decide_false by (intros E; cbn in E; discriminate E). cbn [orb]. rewrite starts_with_app, drop_app_length.
    rewrite <- (app_nil_r (zero_padded 6 n)), Consume_zero_padded by done. reflexivity.
  - unfold CurrentFileName, base_name. rewrite <- drop_drop, drop_app_length. reflexivity.
  - unfold LockFileName, base_name. rewrite <- drop_drop, drop_app_length. reflexivity.
  - unfold InfoLogFileName, base_name. rewrite <- drop_drop, drop_app_length. reflexivity.
  - unfold OldInfoLogFileName, base_name. rewrite <- drop_drop, drop_app_length. reflexivity.
Qed.
Lemma file_names_roundtrip_witness : LogFileName false (lit "/tmp/db") 42 = Some (lit "/tmp/db/000042.log") /\
  (ParseFileName ∘ base_name (lit "/tmp/db")) <$> LogFileName false (lit "/tmp/db") 42 = Some (Some (42, kLogFile)).
Proof.
  pose proof (file_names_roundtrip false (lit "/tmp/db") 42 ltac:(by_compute) ltac:(done)) as (H & _).
  split; [vm_compute; reflexivity | exact H].
Defined.
