(* ===== verification/Env.v ===== *)
(** * The environment ([env.h], [env.cc]) and the file that names the current manifest ([leveldb/filenames.cc])

    [Env] is the part of the interface that the database uses for its files; its state holds all files.  An open file is a handle,
    and the environment and a handle together are a [WritableFile]. *)
From S2P Require Import Prelude Status Keys Log LogFacts StrUtil Filenames.

Class Env (E H S : Type) := {
  NewWritableFile : Slice -> E -> Status * option H * E;
  file_Append : H -> Slice -> E -> Status * E;
  file_Flush : H -> E -> Status * E;
  file_Sync : H -> E -> Status * E;
  file_Close : H -> E -> Status * E;
  NewSequentialFile : Slice -> E -> Status * option S;
  FileExists : Slice -> E -> bool;
  env_DeleteFile : Slice -> E -> Status * E;
  RenameFile : Slice -> Slice -> E -> Status * E;
  GetChildren : Slice -> E -> Status * list Slice;
  GetFileSize : Slice -> E -> Status * Z;
  CreateDir : Slice -> E -> Status * E
}.

#[export] Instance env_WritableFile {E H S} `{!Env E H S} : WritableFile (E * H) := {
  wf_Append w d := let '(s, env) := file_Append w.2 d w.1 in (s, (env, w.2));
  wf_Flush w := let '(s, env) := file_Flush w.2 w.1 in (s, (env, w.2));
  wf_Sync w := let '(s, env) := file_Sync w.2 w.1 in (s, (env, w.2))
}.

Section Files.
Context {E H S : Type} `{!Env E H S} `{!SequentialFile S}.
Variable ndebug : bool.
Implicit Types (env : E).

Definition DoWriteStringToFile (data fname : Slice) (should_sync : bool) env : Status * E :=
  let '(s, file, env) := NewWritableFile fname env in
  match file with
  | Some file =>
      if negb (ok s) then (s, env)
      else
        let '(s, env) := file_Append file data env in
        let '(s, env) := if ok s && should_sync then file_Sync file env else (s, env) in
        let '(s, env) := if ok s then file_Close file env else (s, env) in
        let env := if negb (ok s) then (env_DeleteFile fname env).2 else env in
        (s, env)
  | None => (s, env)
  end.
Definition WriteStringToFile (data fname : Slice) env : Status * E := DoWriteStringToFile data fname false env.
Definition WriteStringToFileSync (data fname : Slice) env : Status * E := DoWriteStringToFile data fname true env.

Definition kBufferSize : Z := 8192.
(** Fragments are read until an empty one; the fuel bounds their number. *)
Fixpoint read_fragments (fuel : nat) (file : S) (data : Slice) : option (Status * Slice) :=
  match fuel with
  | O => None
  | Datatypes.S fuel =>
      let '(s, fragment, file) := sf_Read file kBufferSize in
      if negb (ok s) then Some (s, data)
      else if bool_decide (fragment = []) then Some (s, data)
      else read_fragments fuel file (data ++ fragment)
  end.
Definition ReadFileToString (fuel : nat) (fname : Slice) env : option (Status * Slice) :=
  match NewSequentialFile fname env with
  | (s, Some file) => if ok s then read_fragments fuel file [] else Some (s, [])
  | (s, None) => Some (s, [])
  end.

(** [SetCurrentFile]: the name of the manifest is written to a temporary file, which replaces [CURRENT]. *)
Definition SetCurrentFile (dbname : Slice) (descriptor_number : Z) env : option (Status * E) :=
  mani ← DescriptorFileName ndebug dbname descriptor_number;
  _ ← assert_ ndebug (starts_with mani (dbname ++ lit "/"));
  let contents := drop (length dbname + 1) mani in
  tmp ← TempFileName ndebug dbname descriptor_number;
  let '(s, env) := WriteStringToFileSync (contents ++ [10]) tmp env in
  let '(s, env) := if ok s then RenameFile tmp (CurrentFileName dbname) env else (s, env) in
  let env := if negb (ok s) then (env_DeleteFile tmp env).2 else env in
  Some (s, env).
End Files.

(** ** What an environment promises

    [contents] are the files by name; [opened] says that a handle writes the file of a name. *)
Class EnvLaws (E H S : Type) `{!Env E H S} `{!SequentialFile S} `{!SequentialFileLaws S} := {
  contents : E -> gmap Slice Slice;
  opened : E -> H -> Slice -> Prop;
  opened_exists env h f : opened env h f -> is_Some (contents env !! f);
  New_ok env f s h env' : NewWritableFile f env = (s, h, env') ->
    (if ok s then ∃ h', h = Some h' /\ contents env' = <[f := []]> (contents env) /\ opened env' h' f else h = None /\ contents env' = contents env) /\
    (∀ h2 g, g <> f -> opened env h2 g -> opened env' h2 g);
  file_Append_ok env h f d s env' : file_Append h d env = (s, env') -> opened env h f ->
    (∀ h2 g, opened env h2 g -> opened env' h2 g) /\
    ∃ n, contents env' = alter (λ c, c ++ take n d) f (contents env) /\ (ok s = true -> n = length d);
  file_same env h f s env' : file_Flush h env = (s, env') \/ file_Sync h env = (s, env') -> opened env h f ->
    contents env' = contents env /\ (∀ h2 g, opened env h2 g -> opened env' h2 g);
  file_Close_same env h f s env' : file_Close h env = (s, env') -> opened env h f ->
    contents env' = contents env /\ (∀ h2 g, g <> f -> opened env h2 g -> opened env' h2 g);
  file_Close_contents env h s env' : file_Close h env = (s, env') -> contents env' = contents env;
  DeleteFile_ok env f s env' : env_DeleteFile f env = (s, env') ->
    contents env' = (if ok s then delete f (contents env) else contents env) /\ (∀ h g, g <> f -> opened env h g -> opened env' h g);
  RenameFile_ok env f g s env' : RenameFile f g env = (s, env') ->
    (if ok s then ∃ c, contents env !! f = Some c /\ contents env' = <[g := c]> (delete f (contents env)) else contents env' = contents env) /\
    (∀ h x, x <> f -> x <> g -> opened env h x -> opened env' h x);
  FileExists_ok env f : FileExists f env = bool_decide (is_Some (contents env !! f));
  NewSequentialFile_ok env f s file : NewSequentialFile f env = (s, file) ->
    if ok s then ∃ x, file = Some x /\ contents env !! f = Some (sf_data x) else file = None
}.

(** Files in memory. *)
Abbreviation MemEnv := (gmap Slice Slice).
#[export] Instance MemEnv_Env : Env MemEnv Slice Slice := {
  NewWritableFile f env := (OK, Some f, <[f := []]> env);
  file_Append h d env := (OK, alter (λ c, c ++ d) h env);
  file_Flush h env := (OK, env); file_Sync h env := (OK, env); file_Close h env := (OK, env);
  NewSequentialFile f env := match env !! f with Some c => (OK, Some c) | None => (Err kNotFound "", None) end;
  FileExists f env := bool_decide (is_Some (env !! f));
  env_DeleteFile f env := if bool_decide (is_Some (env !! f)) then (OK, delete f env) else (Err kNotFound "", env);
  RenameFile f g env := match env !! f with Some c => (OK, <[g := c]> (delete f env)) | None => (Err kNotFound "", env) end;
  GetChildren d env := (OK, base_name d <$> filter (λ f, starts_with f (d ++ lit "/") = true) (map_to_list env).*1);
  GetFileSize f env := match env !! f with Some c => (OK, |[c]|) | None => (Err kNotFound "", 0) end;
  CreateDir _ env := (OK, env)
}.
#[export] Instance MemEnv_laws : EnvLaws MemEnv Slice Slice.
Proof.
  refine {| contents := λ env, env; opened := λ (env : MemEnv) h f, h = f /\ is_Some (env !! f) |}; cbn.
  - by intros env h f [_ ?].
  - intros env f s h env' [= <- <- <-]. cbn. split; [exists f; split; [done |]; split; [done |]; by rewrite lookup_insert_eq |].
    intros h2 g Hne [-> Hg]. split; [done |]. by rewrite lookup_insert_ne.
  - intros env h f d s env' [= <- <-] [-> Hf]. split.
    + intros h2 g [-> Hg]. split; [done |]. destruct (decide (f = g)) as [-> | Hne]; [rewrite lookup_alter_eq; by apply fmap_is_Some | by rewrite lookup_alter_ne].
    + exists (length d). by rewrite firstn_all.
  - intros env h f s env' [[= <- <-] | [= <- <-]] _; by split; [| intros].
  - intros env h f s env' [= <- <-] _; by split; [| intros].
  - by intros env h s env' [= <- <-].
  - intros env f s env'. case_bool_decide; intros [= <- <-]; cbn; (split; [done |]); intros h g Hne [-> Hg]; split; try done. by rewrite lookup_delete_ne.
  - intros env f g s env'. destruct (env !! f) as [c |] eqn:E; intros [= <- <-]; cbn; (split; [try done; by exists c |]); intros h x Hf Hg [-> Hx]; split; try done.
    by rewrite lookup_insert_ne, lookup_delete_ne by done.
  - done.
  - intros env f s file. destruct (env !! f) as [c |] eqn:E; intros [= <- <-]; cbn; [| done]. by exists c.
Defined.

(** ** Files that are written whole *)
Section WriteString.
Context {E H S : Type} `{EnvLaws E H S} (ndebug : bool).
Implicit Types (env : E) (h : H) (f g : Slice).

(** Only the files for which [P] holds are touched. *)
Definition only (P : Slice -> Prop) env env' : Prop :=
  (∀ g, ~ P g -> contents env' !! g = contents env !! g) /\ (∀ h g, ~ P g -> opened env h g -> opened env' h g).
Lemma only_refl P env : only P env env.
Proof. done. Qed.
Lemma only_trans P env env1 env2 : only P env env1 -> only P env1 env2 -> only P env env2.
Proof. intros [H1 H2] [H3 H4]. split; [intros g Hg; by rewrite H3, H1 | intros h g Hg Ho; auto]. Qed.
Lemma only_sub (P Q : Slice -> Prop) env env' : (∀ g, P g -> Q g) -> only P env env' -> only Q env env'.
Proof. intros HPQ [H1 H2]. split; [intros g Hg; apply H1; auto | intros h g Hg; apply H2; auto]. Qed.

Lemma DeleteFile_only f env : only (λ g, g = f) env (env_DeleteFile f env).2.
Proof.
  destruct (env_DeleteFile f env) as [s env'] eqn:Ed. destruct (DeleteFile_ok env f s env' Ed) as [Ec Hop]. split; cbn.
  - intros g Hg. rewrite Ec. destruct (ok s); [by rewrite lookup_delete_ne by congruence | done].
  - intros h g Hg. by apply Hop.
Qed.
Lemma New_only f env s r env' : NewWritableFile f env = (s, r, env') -> only (λ g, g = f) env env'.
Proof.
  intros Hn. destruct (New_ok env f s r env' Hn) as [Hs Ho]. split; [| by auto]. intros g Hg.
  destruct (ok s); [destruct Hs as (h' & _ & -> & _); by rewrite lookup_insert_ne by congruence | by destruct Hs as [_ ->]].
Qed.
Lemma Append_only f h d env s env' : file_Append h d env = (s, env') -> opened env h f -> only (λ g, g = f) env env' /\ opened env' h f.
Proof.
  intros Ha Ho. destruct (file_Append_ok env h f d s env' Ha Ho) as [Hop (n & Ec & _)]. split; [split |]; auto. intros g Hg. rewrite Ec. by rewrite lookup_alter_ne by congruence.
Qed.
Lemma Sync_only f h env s env' : file_Sync h env = (s, env') -> opened env h f -> contents env' = contents env /\ only (λ g, g = f) env env' /\ opened env' h f.
Proof. intros Hs Ho. destruct (file_same env h f s env' (or_intror Hs) Ho) as [Ec Hop]. split; [done |]. split; [split |]; auto. intros g _. by rewrite Ec. Qed.

Lemma WriteString_ok data f sync env : let '(s, env') := DoWriteStringToFile data f sync env in
  only (λ g, g = f) env env' /\ (ok s = true -> contents env' !! f = Some data).
Proof.
  unfold DoWriteStringToFile. destruct (NewWritableFile f env) as [[s r] env1] eqn:En. pose proof (New_only f env s r env1 En) as O1. destruct (New_ok env f s r env1 En) as [Hs _].
  destruct (ok s) eqn:Es; [destruct Hs as (h & -> & Ec & Hop); cbn [negb] | destruct Hs as [-> _]; split; [done | intros ?; congruence]].
  destruct (file_Append h data env1) as [s2 env2] eqn:Ea. destruct (Append_only f h data env1 s2 env2 Ea Hop) as [O2 Hop2]. destruct (file_Append_ok env1 h f data s2 env2 Ea Hop) as [_ (n & Ec2 & Hn)].
  assert (ok s2 = true -> contents env2 !! f = Some data) as Hd.
  { intros Es2. rewrite Ec2, Ec, lookup_alter_eq, lookup_insert_eq. cbn. by rewrite (Hn Es2), firstn_all. }
  pose proof (only_trans _ _ _ _ O1 O2) as O12. clear O1 O2 Ec2 Hn Ec.
  destruct (if ok s2 && sync then file_Sync h env2 else (s2, env2)) as [s3 env3] eqn:Ey.
  assert (only (λ g, g = f) env env3 /\ opened env3 h f /\ (ok s3 = true -> contents env3 !! f = Some data)) as (O3 & Hop3 & Hd3).
  { destruct (ok s2) eqn:Es2; cbn [andb] in Ey; [destruct sync |]; try (injection Ey as <- <-; by rewrite ?Es2 in *).
    destruct (Sync_only f h env2 s3 env3 Ey Hop2) as (Ec3 & O23 & Ho3). split; [by eapply only_trans |]. split; [done |]. intros _. rewrite Ec3. by apply Hd. }
  destruct (if ok s3 then file_Close h env3 else (s3, env3)) as [s4 env4] eqn:Ez.
  assert (only (λ g, g = f) env env4 /\ (ok s4 = true -> contents env4 !! f = Some data)) as (O4 & Hd4).
  { destruct (ok s3) eqn:Es3; [| injection Ez as <- <-; by rewrite Es3 in *]. destruct (file_Close_same env3 h f s4 env4 Ez Hop3) as [Ec4 Ho4].
    split; [| rewrite Ec4; auto]. eapply only_trans; [exact O3 |]. split; [intros g _; by rewrite Ec4 | intros h2 g; apply Ho4]. }
  destruct (ok s4); cbn [negb]; [by split |]. split; [| done]. eapply only_trans; [exact O4 | apply DeleteFile_only].
Qed.

(** [CURRENT] names the new manifest, or is as before. *)
Lemma SetCurrentFile_ok dbname n env mani tmp : DescriptorFileName ndebug dbname n = Some mani -> TempFileName ndebug dbname n = Some tmp -> tmp <> CurrentFileName dbname ->
  ∃ s env', SetCurrentFile ndebug dbname n env = Some (s, env') /\ only (λ g, g = tmp \/ g = CurrentFileName dbname) env env' /\
    contents env' !! CurrentFileName dbname = if ok s then Some (base_name dbname mani ++ [10]) else contents env !! CurrentFileName dbname.
Proof.
  intros Em Et Hne. unfold SetCurrentFile. rewrite Em. cbn [mbind option_bind]. rewrite assert_bool. 2: {
    unfold DescriptorFileName, numbered in Em. destruct (assert_ ndebug _); [| done]. apply (f_equal (default [])) in Em. cbn [mbind option_bind default from_option id] in Em. subst mani.
    assert (dbname ++ lit "/MANIFEST-" ++ zero_padded 6 n = (dbname ++ lit "/") ++ (lit "MANIFEST-" ++ zero_padded 6 n)) as -> by (rewrite <- app_assoc; reflexivity). apply starts_with_app. }
  cbn [mbind option_bind]. rewrite Et. cbn [mbind option_bind]. pose proof (WriteString_ok (drop (length dbname + 1) mani ++ [10]) tmp true env) as Hw. unfold WriteStringToFileSync.
  destruct (DoWriteStringToFile _ _ _ _) as [s1 env1]. destruct Hw as [O1 Hd1].
  pose proof (only_sub _ (λ g, g = tmp \/ g = CurrentFileName dbname) _ _ (λ g Hg, or_introl Hg) O1) as O1'.
  destruct (if ok s1 then RenameFile tmp (CurrentFileName dbname) env1 else (s1, env1)) as [s2 env2] eqn:Er.
  assert (only (λ g, g = tmp \/ g = CurrentFileName dbname) env env2 /\
    contents env2 !! CurrentFileName dbname = if ok s2 then Some (base_name dbname mani ++ [10]) else contents env !! CurrentFileName dbname) as [O2 Hc].
  { destruct (ok s1) eqn:Es1; [| injection Er as <- <-; rewrite Es1; split; [done | by apply O1]]. destruct (RenameFile_ok env1 tmp _ s2 env2 Er) as [Hr Ho]. destruct (ok s2).
    - destruct Hr as (c & Ec & Ecs). rewrite (Hd1 eq_refl) in Ec. injection Ec as <-. split; [| by rewrite Ecs, lookup_insert_eq].
      eapply only_trans; [exact O1' |]. split; [intros g Hg; rewrite Ecs, lookup_insert_ne, lookup_delete_ne by naive_solver; done | intros h g Hg; apply Ho; naive_solver].
    - split; [| rewrite Hr; by apply O1]. eapply only_trans; [exact O1' |]. split; [intros g _; by rewrite Hr | intros h g Hg; apply Ho; naive_solver]. }
  eexists _, _. split; [reflexivity |]. destruct (ok s2) eqn:Es2; cbn [negb]; rewrite ?Es2; [done |]. split.
  - eapply only_trans; [exact O2 |]. eapply only_sub; [| apply DeleteFile_only]. intros g ->. by left.
  - rewrite <- Hc. by apply DeleteFile_only.
Qed.
End WriteString.
