(* ===== verification/VersionSet.v ===== *)
(** * The set of versions ([leveldb/db/version_set.h], [version_set.cc]: [VersionSet], [VersionSet::Builder])

    The versions that are still referenced, in the order of the linked list, and the file objects they share; a builder that applies
    edits to a version; and the operations that log an edit and install the new version, and that recover it from the manifest. *)
From Stdlib Require Import Floats.SpecFloat.
From S2P Require Import Prelude Status Coding Comparator Log VersionEdit DbOptions Version.
From S2P Require Import Keys Filenames Env.

(** ** Objects and their references *)
(** [versions_] is the list from [dummy_versions_.next_] on, each version with its address; a file object has its counts in the heap. *)
Record Objects := MkObjects { versions_ : list (nat * Version); files_heap : FileHeap; next_object : nat }.

Section Objects.
Variable ndebug : bool.
Implicit Types (o : Objects) (v : Version) (f : File) (files : list File) (p : nat).

Definition set_files_heap (h : FileHeap) o : Objects := MkObjects (versions_ o) h (next_object o).
Definition set_versions (l : list (nat * Version)) o : Objects := MkObjects l (files_heap o) (next_object o).

Definition ref_file f o : option Objects :=
  '(refs, seeks) ← files_heap o !! f_ptr f;
  Some (set_files_heap (<[f_ptr f := (refs + 1, seeks)]> (files_heap o)) o).
(** Dropping a reference deletes the object with the last one; [~Version] asserts that there is one. *)
Definition unref_file (checked : bool) f o : option Objects :=
  '(refs, seeks) ← files_heap o !! f_ptr f;
  _ ← (if checked then assert_ ndebug (0 <? refs) else Some tt);
  Some (set_files_heap (if refs - 1 <=? 0 then delete (f_ptr f) (files_heap o) else <[f_ptr f := (refs - 1, seeks)]> (files_heap o)) o).
Fixpoint unref_files (checked : bool) files o : option Objects :=
  match files with [] => Some o | f :: files => o ← unref_file checked f o; unref_files checked files o end.

Fixpoint find_version p (l : list (nat * Version)) : option Version :=
  match l with [] => None | (q, v) :: l => if decide (q = p) then Some v else find_version p l end.
Fixpoint put_version p v (l : list (nat * Version)) : list (nat * Version) :=
  match l with [] => [] | (q, w) :: l => if decide (q = p) then (q, v) :: l else (q, w) :: put_version p v l end.
Fixpoint unlink_version p (l : list (nat * Version)) : list (nat * Version) :=
  match l with [] => [] | (q, w) :: l => if decide (q = p) then l else (q, w) :: unlink_version p l end.

Definition Version_Ref p o : option Objects :=
  v ← find_version p (versions_ o); Some (set_versions (put_version p (set_refs (v_refs v + 1) v) (versions_ o)) o).
(** [~Version]. *)
Definition delete_version p v o : option Objects :=
  _ ← assert_ ndebug (v_refs v =? 0);
  unref_files true (concat (files_ v)) (set_versions (unlink_version p (versions_ o)) o).
Definition Version_Unref p o : option Objects :=
  v ← find_version p (versions_ o);
  _ ← assert_ ndebug (1 <=? v_refs v);
  let v := set_refs (v_refs v - 1) v in
  let o := set_versions (put_version p v (versions_ o)) o in
  if v_refs v =? 0 then delete_version p v o else Some o.
(** A new file object. *)
Definition new_file (m : FileMetaData) (refs seeks : Z) o : File * Objects :=
  (MkFile (next_object o) m, MkObjects (versions_ o) (<[next_object o := (refs, seeks)]> (files_heap o)) (S (next_object o))).
End Objects.

(** ** [VersionSet::Builder] *)
Record LevelState := MkLevelState { deleted_files : gset Z; added_files : list File }.
Record Builder := MkBuilder { base_ : nat; levels_ : list LevelState }.

Section Builder.
Context (C : Comparator) (ndebug : bool).
Implicit Types (o : Objects) (v : Version) (f : File) (files : list File) (b : Builder) (e : VersionEdit).

(** [BySmallestKey]. *)
Definition BySmallestKey f1 f2 : option bool :=
  s1 ← InternalKey_Encode ndebug (smallest f1);
  s2 ← InternalKey_Encode ndebug (smallest f2);
  r ← InternalKey_Compare C s1 s2;
  Some (match r with Eq => number f1 <? number f2 | r => bool_decide (r = Lt) end).
(** [insert] of a [FileSet]: an equivalent element keeps its place. *)
Fixpoint FileSet_insert f files : option (list File) :=
  match files with
  | [] => Some [f]
  | g :: files' =>
      less ← BySmallestKey f g;
      if (less : bool) then Some (f :: files)
      else
        more ← BySmallestKey g f;
        if (more : bool) then l ← FileSet_insert f files'; Some (g :: l) else Some files
  end.

Definition new_Builder (base : nat) o : option (Builder * Objects) :=
  o ← Version_Ref base o; Some (MkBuilder base (replicate (Z.to_nat kNumLevels) (MkLevelState ∅ [])), o).
Definition delete_Builder b o : option Objects :=
  o ← unref_files ndebug false (concat (added_files <$> levels_ b)) o; Version_Unref ndebug (base_ b) o.

Definition get_level {A} (level : Z) (l : list A) : option A := if level <? 0 then None else l !! Z.to_nat level.
Definition put_level {A} (level : Z) (x : A) (l : list A) : list A := <[Z.to_nat level := x]> l.

(** The loops of [Apply]. *)
Fixpoint apply_pointers (ps : list (Z * Slice)) (compact_pointer : list Slice) : option (list Slice) :=
  match ps with
  | [] => Some compact_pointer
  | (level, key) :: ps =>
      k ← InternalKey_Encode ndebug key;
      _ ← get_level level compact_pointer;
      apply_pointers ps (put_level level k compact_pointer)
  end.
Fixpoint apply_deleted (ds : list (Z * Z)) (ls : list LevelState) : option (list LevelState) :=
  match ds with
  | [] => Some ls
  | (level, number) :: ds =>
      l ← get_level level ls;
      apply_deleted ds (put_level level (MkLevelState ({[number]} ∪ deleted_files l) (added_files l)) ls)
  end.
Definition allowed_seeks_of (m : FileMetaData) : Z :=
  let seeks := sword 32 (file_size m / 16384) in if seeks <? 100 then 100 else seeks.
Fixpoint apply_new (ns : list (Z * FileMetaData)) (ls : list LevelState) o : option (list LevelState * Objects) :=
  match ns with
  | [] => Some (ls, o)
  | (level, m) :: ns =>
      let '(f, o) := new_file m 1 (allowed_seeks_of m) o in
      l ← get_level level ls;
      added ← FileSet_insert f (added_files l);
      apply_new ns (put_level level (MkLevelState (deleted_files l ∖ {[number m]}) added) ls) o
  end.
(** The compaction pointers belong to the version set. *)
Definition Apply e b (compact_pointer : list Slice) o : option (Builder * list Slice * Objects) :=
  compact_pointer ← apply_pointers (compact_pointers_ e) compact_pointer;
  ls ← apply_deleted (deleted_files_ e) (levels_ b);
  '(ls, o) ← apply_new (new_files_ e) ls o;
  Some (MkBuilder (base_ b) ls, compact_pointer, o).

(** [MaybeAddFile]: [files] are those the level has so far. *)
Definition MaybeAddFile (level : Z) (deleted : gset Z) f files o : option (list File * Objects) :=
  if bool_decide (number f ∈ deleted) then Some (files, o)
  else
    _ ← (match list.last files with
         | Some prev =>
             if negb ndebug && (0 <? level) then
               l ← InternalKey_Encode ndebug (largest (f_meta prev));
               s ← InternalKey_Encode ndebug (smallest (f_meta f));
               r ← InternalKey_Compare C l s;
               assert_ ndebug (bool_decide (r = Lt))
             else Some tt
         | None => Some tt
         end);
    o ← ref_file f o;
    Some (files ++ [f], o).
Fixpoint add_files (level : Z) (deleted : gset Z) (l : list File) files o : option (list File * Objects) :=
  match l with [] => Some (files, o) | f :: l => '(files, o) ← MaybeAddFile level deleted f files o; add_files level deleted l files o end.
(** [std::upper_bound] in a sorted list: the files that are not above [f], and the rest. *)
Fixpoint upper_bound f (l : list File) : option (list File * list File) :=
  match l with
  | [] => Some ([], [])
  | g :: l' =>
      less ← BySmallestKey f g;
      if (less : bool) then Some ([], l) else '(a, b) ← upper_bound f l'; Some (g :: a, b)
  end.
Fixpoint save_loop (level : Z) (deleted : gset Z) (base added files : list File) o : option (list File * Objects) :=
  match added with
  | [] => add_files level deleted base files o
  | f :: added =>
      '(smaller, base) ← upper_bound f base;
      '(files, o) ← add_files level deleted smaller files o;
      '(files, o) ← MaybeAddFile level deleted f files o;
      save_loop level deleted base added files o
  end.
(** The check of a debug build. *)
Fixpoint check_overlap files : option unit :=
  match files with
  | f :: (g :: _) as files' =>
      l ← InternalKey_Encode ndebug (largest (f_meta f));
      s ← InternalKey_Encode ndebug (smallest (f_meta g));
      r ← InternalKey_Compare C l s;
      _ ← assert_ ndebug (bool_decide (r = Lt));
      check_overlap files'
  | _ => Some tt
  end.
Fixpoint save_levels (level : Z) (ls : list LevelState) (base : list (list File)) o : option (list (list File) * Objects) :=
  match ls, base with
  | l :: ls, files :: base =>
      '(files, o) ← save_loop level (deleted_files l) files (added_files l) [] o;
      _ ← (if negb ndebug && (0 <? level) then check_overlap files else Some tt);
      '(rest, o) ← save_levels (level + 1) ls base o;
      Some (files :: rest, o)
  | _, _ => Some ([], o)
  end.
(** [SaveTo] a new version. *)
Definition SaveTo b v o : option (Version * Objects) :=
  base ← find_version (base_ b) (versions_ o);
  '(files, o) ← save_levels 0 (levels_ b) (files_ base) o;
  Some (set_files files v, o).
End Builder.

(** ** [VersionSet] *)
Record VersionSet (H : Type) := MkVersionSet {
  objects : Objects; current_ : nat;
  vs_next_file_number_ : Z; manifest_file_number_ : Z; vs_last_sequence_ : Z; vs_log_number_ : Z; vs_prev_log_number_ : Z;
  descriptor_log_ : option (Writer H); compact_pointer_ : list Slice
}.
Arguments MkVersionSet {H}. Arguments objects {H}. Arguments current_ {H}. Arguments vs_next_file_number_ {H}.
Arguments manifest_file_number_ {H}. Arguments vs_last_sequence_ {H}. Arguments vs_log_number_ {H}. Arguments vs_prev_log_number_ {H}.
Arguments descriptor_log_ {H}. Arguments compact_pointer_ {H}.

(** The level that needs a compaction most, and its score. *)
Definition MaxBytesForLevel (options : DbOptions) (level : Z) : double :=
  Nat.iter (Z.to_nat (level - 1)) (λ r, double_mul r (double_of (level_factor options)))
    (double_of (u64 (l1_compaction_trigger options * table_file_size options))).
Definition level_score (options : DbOptions) (level : Z) (files : list File) : double :=
  if level =? 0 then double_div (double_of (Z.of_nat (length files))) (double_of (l0_compaction_trigger options))
  else double_div (double_of (u64 (TotalFileSize files))) (MaxBytesForLevel options level).
Fixpoint best_of (options : DbOptions) (level : Z) (levels : list (list File)) (best_level : Z) (best_score : double) : Z * double :=
  match levels with
  | [] => (best_level, best_score)
  | files :: levels =>
      let score := level_score options level files in
      if SFltb best_score score then best_of options (level + 1) levels level score else best_of options (level + 1) levels best_level best_score
  end.
Definition VersionSet_Finalize (options : DbOptions) (v : Version) : Version :=
  let '(best_level, best_score) := best_of options 0 (take (Z.to_nat kNumLevels - 1) (files_ v)) (-1) (double_of (-1)) in
  set_compaction best_score best_level v.

Section VersionSet.
Context {E H S : Type} `{!Env E H S} `{!SequentialFile S}.
(** The name of the user comparator; [junk] is what [offset_] of a new [log::Writer] happens to hold. *)
Context (C : Comparator) (cmp_name : Slice) (ndebug : bool) (dbname_ : Slice) (options : DbOptions) (junk : Z).
Implicit Types (vs : VersionSet H) (env : E) (v : Version) (o : Objects) (e : VersionEdit).

Definition set_objects o (current : nat) vs : VersionSet H :=
  MkVersionSet o current (vs_next_file_number_ vs) (manifest_file_number_ vs) (vs_last_sequence_ vs) (vs_log_number_ vs) (vs_prev_log_number_ vs) (descriptor_log_ vs) (compact_pointer_ vs).
Definition set_next_file (n : Z) vs : VersionSet H :=
  MkVersionSet (objects vs) (current_ vs) n (manifest_file_number_ vs) (vs_last_sequence_ vs) (vs_log_number_ vs) (vs_prev_log_number_ vs) (descriptor_log_ vs) (compact_pointer_ vs).
Definition set_numbers (next_file manifest last_sequence log_number prev_log_number : Z) vs : VersionSet H :=
  MkVersionSet (objects vs) (current_ vs) next_file manifest last_sequence log_number prev_log_number (descriptor_log_ vs) (compact_pointer_ vs).
Definition set_descriptor (w : option (Writer H)) vs : VersionSet H :=
  MkVersionSet (objects vs) (current_ vs) (vs_next_file_number_ vs) (manifest_file_number_ vs) (vs_last_sequence_ vs) (vs_log_number_ vs) (vs_prev_log_number_ vs) w (compact_pointer_ vs).
Definition set_compact_pointer (cp : list Slice) vs : VersionSet H :=
  MkVersionSet (objects vs) (current_ vs) (vs_next_file_number_ vs) (manifest_file_number_ vs) (vs_last_sequence_ vs) (vs_log_number_ vs) (vs_prev_log_number_ vs) (descriptor_log_ vs) cp.

Definition NewFileNumber vs : Z * VersionSet H := (vs_next_file_number_ vs, set_next_file (u64 (vs_next_file_number_ vs + 1)) vs).
Definition ReuseFileNumber (file_number : Z) vs : VersionSet H :=
  if vs_next_file_number_ vs =? u64 (file_number + 1) then set_next_file file_number vs else vs.
Definition MarkFileNumberUsed (number : Z) vs : VersionSet H :=
  if vs_next_file_number_ vs <=? number then set_next_file (u64 (number + 1)) vs else vs.
Definition vs_SetLastSequence (s : Z) vs : option (VersionSet H) :=
  _ ← assert_ ndebug (vs_last_sequence_ vs <=? s);
  Some (set_numbers (vs_next_file_number_ vs) (manifest_file_number_ vs) s (vs_log_number_ vs) (vs_prev_log_number_ vs) vs).
Definition current_version vs : option Version := find_version (current_ vs) (versions_ (objects vs)).
Definition NumLevelFiles (level : Z) vs : option Z :=
  _ ← assert_ ndebug (0 <=? level); _ ← assert_ ndebug (level <? kNumLevels);
  v ← current_version vs; NumFiles v level.
Definition NumLevelBytes (level : Z) vs : option Z :=
  _ ← assert_ ndebug (0 <=? level); _ ← assert_ ndebug (level <? kNumLevels);
  v ← current_version vs; files ← level_files v level; Some (TotalFileSize files).
Definition NeedsCompaction (allow_seek_compaction : bool) vs : option bool :=
  v ← current_version vs;
  Some (SFleb (double_of 1) (compaction_score_ v) || (allow_seek_compaction && negb (bool_decide (file_to_compact_ v = None)))).
Definition AddLiveFiles (live : gset Z) vs : gset Z :=
  foldl (λ live p, foldl (λ live f, {[number (f_meta f)]} ∪ live) live (concat (files_ p.2))) live (versions_ (objects vs)).

(** A new version is put at the end of the list, and the last one loses the reference of [current_]. *)
Definition AppendVersion v vs : option (VersionSet H) :=
  _ ← assert_ ndebug (v_refs v =? 0);
  o ← Version_Unref ndebug (current_ vs) (objects vs);
  let p := next_object o in
  Some (set_objects (MkObjects (versions_ o ++ [(p, set_refs 1 v)]) (files_heap o) (Datatypes.S p)) p vs).
(** The constructor: the first version is empty. *)
Definition new_VersionSet : VersionSet H :=
  MkVersionSet (MkObjects [(O, set_refs 1 new_Version)] ∅ 1) 0 2 0 0 0 0 None (replicate (Z.to_nat kNumLevels) []).

(** The current version with an edit applied, not yet in the list. *)
Definition build_version e vs : option (Version * VersionSet H) :=
  '(b, o) ← new_Builder (current_ vs) (objects vs);
  '(b, cp, o) ← Apply C ndebug e b (compact_pointer_ vs) o;
  '(v, o) ← SaveTo C ndebug b new_Version o;
  o ← delete_Builder ndebug b o;
  Some (v, set_compact_pointer cp (set_objects o (current_ vs) vs)).

Definition name_mismatch e : bool := (comparator_ e).1 && negb (bool_decide ((comparator_ e).2 = cmp_name)).
Definition mismatch_status e : Status := MkStatus kInvalidArgument ((comparator_ e).2 ++ lit " does not match existing comparator ") cmp_name.
Definition ForeighApply e vs : option (Status * VersionSet H) :=
  if name_mismatch e then Some (mismatch_status e, vs)
  else
    let take_number (field : bool * Z) (n : Z) := if field.1 then _ ← assert_ ndebug (n <=? field.2); Some field.2 else Some n in
    log_number ← take_number (log_number_ e) (vs_log_number_ vs);
    prev_log_number ← take_number (prev_log_number_ e) (vs_prev_log_number_ vs);
    next_file_number ← take_number (next_file_number_ e) (vs_next_file_number_ vs);
    last_sequence ← take_number (last_sequence_ e) (vs_last_sequence_ vs);
    _ ← assert_ ndebug (log_number <? next_file_number);
    '(v, vs) ← build_version e vs;
    vs ← AppendVersion v vs;
    Some (OK, set_numbers next_file_number (manifest_file_number_ vs) last_sequence log_number prev_log_number vs).

(** ** The manifest *)
Definition snapshot_edit vs : option VersionEdit :=
  v ← current_version vs;
  let e := SetComparatorName cmp_name new_VersionEdit in
  let e := foldl (λ e p, if bool_decide (p.2 = []) then e else SetCompactPointer (Z.of_nat p.1) p.2 e) e (imap pair (compact_pointer_ vs)) in
  Some (foldl (λ e p, foldl (λ e f, AddFile (Z.of_nat p.1) (number (f_meta f)) (file_size (f_meta f)) (seq_off (f_meta f)) (smallest (f_meta f)) (largest (f_meta f)) e)
                        e p.2) e (imap pair (files_ v))).
(** A record is added through the environment. *)
Definition log_AddRecord (record : Slice) (w : Writer H) env : option (Status * Writer H * E) :=
  '(s, w') ← AddRecord ndebug record (MkWriter (env, dest_ w) (block_offset_ w) (offset_ w));
  Some (s, MkWriter (dest_ w').2 (block_offset_ w') (offset_ w'), (dest_ w').1).
Definition WriteSnapshot vs (w : Writer H) env : option (Status * Writer H * E) :=
  e ← snapshot_edit vs;
  record ← VersionEdit_EncodeTo ndebug e [];
  log_AddRecord record w env.

(** The numbers an edit is logged with. *)
Definition complete_edit e vs : option VersionEdit :=
  e ← (if (log_number_ e).1 then
         _ ← assert_ ndebug (vs_log_number_ vs <=? (log_number_ e).2);
         _ ← assert_ ndebug ((log_number_ e).2 <? vs_next_file_number_ vs);
         Some e
       else Some (SetLogNumber (vs_log_number_ vs) e));
  let e := if (prev_log_number_ e).1 then e else SetPrevLogNumber (vs_prev_log_number_ vs) e in
  Some (SetLastSequence (vs_last_sequence_ vs) (SetNextFile (vs_next_file_number_ vs) e)).

(** The first call opens the manifest and writes a snapshot; the name is that of a new manifest. *)
Definition open_descriptor vs env : option (Status * option Slice * VersionSet H * E) :=
  match descriptor_log_ vs with
  | Some _ => Some (OK, None, vs, env)
  | None =>
      _ ← assert_ ndebug (negb (manifest_file_number_ vs =? 0));
      name ← DescriptorFileName ndebug dbname_ (manifest_file_number_ vs);
      let '(s, file, env) := NewWritableFile name env in
      match file with
      | Some file =>
          if ok s then
            '(s, w, env) ← WriteSnapshot vs (MkWriter file 0 junk) env;
            Some (s, Some name, set_descriptor (Some w) vs, env)
          else Some (s, Some name, vs, env)
      | None => Some (s, Some name, vs, env)
      end
  end.
(** The record of the edit, synced. *)
Definition log_edit e vs env : option (Status * VersionSet H * E) :=
  w ← descriptor_log_ vs;
  record ← VersionEdit_EncodeTo ndebug e [];
  '(s, w, env) ← log_AddRecord record w env;
  let '(s, env) := if ok s then file_Sync (dest_ w) env else (s, env) in
  Some (s, set_descriptor (Some w) vs, env).
(** A new manifest is installed. *)
Definition install_manifest vs env : option (Status * E) :=
  if negb (rotating_manifest options) then SetCurrentFile ndebug dbname_ (manifest_file_number_ vs) env
  else
    _ ← assert_ ndebug (manifest_file_number_ vs <? 3);
    other ← DescriptorFileName ndebug dbname_ (u64 (3 - manifest_file_number_ vs));
    let env := (env_DeleteFile other env).2 in
    Some (OK, (env_DeleteFile (CurrentFileName dbname_) env).2).
(** After a failure the new version is deleted; a new manifest is closed and deleted too. *)
Definition abandon v (new_manifest_file : option Slice) vs env : option (VersionSet H * E) :=
  _ ← assert_ ndebug (v_refs v =? 0);
  o ← unref_files ndebug true (concat (files_ v)) (objects vs);
  let vs := set_objects o (current_ vs) vs in
  Some (match new_manifest_file with
        | Some name =>
            let env := match descriptor_log_ vs with Some w => (file_Close (dest_ w) env).2 | None => env end in
            (set_descriptor None vs, (env_DeleteFile name env).2)
        | None => (vs, env)
        end).
Definition LogAndApply e vs env : option (Status * VersionEdit * VersionSet H * E) :=
  e ← complete_edit e vs;
  '(v, vs) ← build_version e vs;
  let v := VersionSet_Finalize options v in
  '(s, new_manifest_file, vs, env) ← open_descriptor vs env;
  '(s, vs, env) ← (if ok s then log_edit e vs env else Some (s, vs, env));
  '(s, env) ← (if ok s && negb (bool_decide (new_manifest_file = None)) then install_manifest vs env else Some (s, env));
  if ok s then
    vs ← AppendVersion v vs;
    Some (s, e, set_numbers (vs_next_file_number_ vs) (manifest_file_number_ vs) (vs_last_sequence_ vs) (log_number_ e).2 (prev_log_number_ e).2 vs, env)
  else
    '(vs, env) ← abandon v new_manifest_file vs env; Some (s, e, vs, env).

(** ** Recovery *)
(** What was read from a manifest: the builder and the numbers it has. *)
Record Replay := MkReplay { rp_builder : Builder; rp_log : option Z; rp_prev : option Z; rp_next : option Z; rp_last : option Z }.
Definition update_number (field : bool * Z) (n : option Z) : option Z := if field.1 then Some field.2 else n.
(** One record. *)
Definition replay_edit (record : Slice) (rp : Replay) (cp : list Slice) o : option (Status * Replay * list Slice * Objects) :=
  '(s, e) ← VersionEdit_DecodeFrom record new_VersionEdit;
  let s := if ok s && name_mismatch e then mismatch_status e else s in
  '(b, cp, o) ← (if ok s then Apply C ndebug e (rp_builder rp) cp o else Some (rp_builder rp, cp, o));
  Some (s, MkReplay b (update_number (log_number_ e) (rp_log rp)) (update_number (prev_log_number_ e) (rp_prev rp))
             (update_number (next_file_number_ e) (rp_next rp)) (update_number (last_sequence_ e) (rp_last rp)), cp, o).
(** The reporter keeps the first error in the status of the loop. *)
Definition reported (r : Reader S) (s : Status) : Status :=
  if ok s then match reporter_ r with Some ((_, err) :: _) => err | _ => s end else s.
Fixpoint replay_loop (fuel : nat) (r : Reader S) (s : Status) (rp : Replay) (cp : list Slice) o : option (Status * Replay * list Slice * Objects) :=
  match fuel with
  | O => None
  | Datatypes.S fuel =>
      '(record, r) ← ReadRecord fuel false r;
      let s := reported r s in
      match record with
      | Some record => if ok s then '(s, rp, cp, o) ← replay_edit record rp cp o; replay_loop fuel r s rp cp o else Some (s, rp, cp, o)
      | None => Some (s, rp, cp, o)
      end
  end.

(** The three manifests: the odd, the even and the one that [CURRENT] names; [None] is the empty name. *)
Definition existing (name : Slice) env : option Slice := if FileExists name env then Some name else None.
Definition read_current (fuel : nat) env : option (Status * option Slice) :=
  let curr := CurrentFileName dbname_ in
  if FileExists curr env then
    '(s, current) ← ReadFileToString fuel curr env;
    Some (if ok s && negb (bool_decide (current = [])) then
            if bool_decide (List.last current 0 = 10) then (s, Some (dbname_ ++ lit "/" ++ removelast current))
            else (MkStatus kCorruption curr (lit "CURRENT file does not end with newline"), None)
          else (s, None))
  else Some (OK, None).
Definition find_manifests (fuel : nat) env : option (Status * list (option Slice)) :=
  m1 ← DescriptorFileName ndebug dbname_ 1;
  m2 ← DescriptorFileName ndebug dbname_ 2;
  let m1 := existing m1 env in
  let m2 := existing m2 env in
  '(s, m3) ← read_current fuel env;
  let m3 := match m3 with Some m => if bool_decide (m1 = Some m) || bool_decide (m2 = Some m) then None else Some m | None => None end in
  Some (s, [m1; m2; m3]).

(** What recovery knows after some of the manifests: the builders, the one selected and its numbers. *)
Record Recovery := MkRecovery {
  rc_status : Status; rc_candidates : list (option Builder); rc_selected : option (nat * Builder);
  rc_next_file : Z; rc_last_seq : Z; rc_log_number : Z; rc_prev_log_number : Z
}.
Definition missing (name : Slice) (rp : Replay) : Status :=
  match rp_next rp, rp_log rp, rp_last rp with
  | None, _, _ => MkStatus kCorruption name (lit "No next_file entry in descriptor")
  | _, None, _ => MkStatus kCorruption name (lit "No log_number entry in descriptor")
  | _, _, None => MkStatus kCorruption name (lit "No last_seq_number entry in descriptor")
  | _, _, _ => OK
  end.
(** A candidate is selected unless one before it is further on. *)
Definition select (i : nat) (b : Builder) (next_file last_seq log_number prev_log_number : Z) (rc : Recovery) : Recovery :=
  let candidates := rc_candidates rc ++ [Some b] in
  if (rc_last_seq rc <=? last_seq) && (rc_next_file rc <=? next_file) && (rc_log_number rc <=? log_number) && (rc_prev_log_number rc <=? prev_log_number)
  then MkRecovery (rc_status rc) candidates (Some (i, b)) next_file last_seq log_number prev_log_number
  else MkRecovery (rc_status rc) candidates (rc_selected rc) (rc_next_file rc) (rc_last_seq rc) (rc_log_number rc) (rc_prev_log_number rc).
Definition no_candidate (s : Status) (rc : Recovery) : Recovery :=
  MkRecovery (if ok (rc_status rc) then s else rc_status rc) (rc_candidates rc ++ [None]) (rc_selected rc)
    (rc_next_file rc) (rc_last_seq rc) (rc_log_number rc) (rc_prev_log_number rc).
Definition recover_manifest (fuel : nat) (i : nat) (name : Slice) (current : nat) (rc : Recovery) vs env : option (Recovery * VersionSet H) :=
  match NewSequentialFile name env with
  | (s, Some file) =>
      if negb (ok s) then Some (no_candidate s rc, vs)
      else
        '(b, o) ← new_Builder current (objects vs);
        '(s, rp, cp, o) ← replay_loop fuel (new_Reader file true true 0) OK (MkReplay b None None None None) (compact_pointer_ vs) o;
        let vs := set_compact_pointer cp (set_objects o (current_ vs) vs) in
        let log_number := default 0 (rp_log rp) in
        let prev_log_number := default 0 (rp_prev rp) in
        let vs := if ok s then MarkFileNumberUsed log_number (MarkFileNumberUsed prev_log_number vs) else vs in
        let s := if ok s then missing name rp else s in
        if ok s then Some (select i (rp_builder rp) (default 0 (rp_next rp)) (default 0 (rp_last rp)) log_number prev_log_number rc, vs)
        else o ← delete_Builder ndebug (rp_builder rp) (objects vs); Some (no_candidate s rc, set_objects o (current_ vs) vs)
  | (s, None) => Some (no_candidate s rc, vs)
  end.
Fixpoint recover_manifests (fuel : nat) (i : nat) (names : list (option Slice)) (current : nat) (rc : Recovery) vs env : option (Recovery * VersionSet H) :=
  match names with
  | [] => Some (rc, vs)
  | name :: names =>
      '(rc, vs) ← (match name with Some name => recover_manifest fuel i name current rc vs env | None => Some (no_candidate OK rc, vs) end);
      recover_manifests fuel (Datatypes.S i) names current rc vs env
  end.
Fixpoint delete_candidates (l : list (option Builder)) o : option Objects :=
  match l with
  | [] => Some o
  | Some b :: l => o ← delete_Builder ndebug b o; delete_candidates l o
  | None :: l => delete_candidates l o
  end.
(** The fuel bounds the bytes of each file that is read. *)
Definition Recover (fuel : nat) vs env : option (Status * VersionSet H) :=
  '(s, names) ← find_manifests fuel env;
  let current := current_ vs in
  o ← Version_Ref current (objects vs);
  '(rc, vs) ← recover_manifests fuel 0 names current (MkRecovery s [] None 0 0 0 0) (set_objects o current vs) env;
  '(s, vs) ← (if ok (rc_status rc) then
                match rc_selected rc with
                | None => Some (MkStatus kCorruption dbname_ (lit "No valid db manifest found"), vs)
                | Some (i, b) =>
                    '(v, o) ← SaveTo C ndebug b new_Version (objects vs);
                    vs ← AppendVersion (VersionSet_Finalize options v) (set_objects o (current_ vs) vs);
                    let '(next_file, manifest) :=
                      if negb (rotating_manifest options) then (u64 (rc_next_file rc + 1), rc_next_file rc)
                      else (rc_next_file rc, if decide (i = O) then 2 else 1) in
                    Some (OK, set_numbers next_file manifest (rc_last_seq rc) (rc_log_number rc) (rc_prev_log_number rc) vs)
                end
              else Some (rc_status rc, vs));
  o ← delete_candidates (rc_candidates rc) (objects vs);
  o ← Version_Unref ndebug current o;
  Some (s, set_objects o (current_ vs) vs).
End VersionSet.
