(* ===== verification/VersionSetFacts.v ===== *)
(** * The objects of a version set: reference counts, builders and the lists of files they save *)
From stdpp Require Import sorting.
From S2P Require Import Prelude Status Coding Comparator VersionEdit DbOptions Version VersionFacts.
From S2P Require Import VersionSet.

(** ** Counts of file objects *)
Section Counts.
Variable ndebug : bool.
Implicit Types (o : Objects) (f : File) (fs files : list File) (h : FileHeap).

(** How many times the object of [f] is listed. *)
Definition cnt (p : nat) fs : Z := Z.of_nat (length (filter (λ f, f_ptr f = p) fs)).
Definition refs_of (p : nat) h : Z := match h !! p with Some (r, _) => r | None => 0 end.
(** Every object lives as long as it is listed, and its count is the number of times that it is. *)
Definition counted h fs : Prop := (∀ p, refs_of p h = cnt p fs) /\ (∀ p r s, h !! p = Some (r, s) -> 0 < r).

Lemma cnt_nonneg p fs : 0 <= cnt p fs.
Proof. unfold cnt. lia. Qed.
Lemma cnt_nil p : cnt p [] = 0.
Proof. done. Qed.
Lemma cnt_cons p f fs : cnt p (f :: fs) = (if decide (f_ptr f = p) then 1 else 0) + cnt p fs.
Proof. unfold cnt. rewrite list.filter_cons. destruct (decide (f_ptr f = p)); cbn; lia. Qed.
Lemma cnt_app p fs fs' : cnt p (fs ++ fs') = cnt p fs + cnt p fs'.
Proof. unfold cnt. rewrite list.filter_app, length_app. lia. Qed.
Lemma cnt_perm p fs fs' : fs ≡ₚ fs' -> cnt p fs = cnt p fs'.
Proof. intros E. unfold cnt. by rewrite E. Qed.
Lemma cnt_in f fs : f ∈ fs -> 0 < cnt (f_ptr f) fs.
Proof.
  intros Hin. induction Hin as [f fs | f g fs Hin IH]; rewrite cnt_cons.
  - rewrite decide_True by done. pose proof (cnt_nonneg (f_ptr f) fs). lia.
  - destruct (decide _); lia.
Qed.
Lemma counted_perm h fs fs' : fs ≡ₚ fs' -> counted h fs -> counted h fs'.
Proof. intros E [H1 H2]. split; [| done]. intros p. by rewrite H1, (cnt_perm p _ _ E). Qed.
Lemma counted_lookup h fs f : counted h fs -> f ∈ fs -> ∃ r s, h !! f_ptr f = Some (r, s) /\ r = cnt (f_ptr f) fs.
Proof.
  intros [H1 _] Hin. apply cnt_in in Hin. specialize (H1 (f_ptr f)). unfold refs_of in H1.
  destruct (h !! f_ptr f) as [[r s] |]; [| lia]. by exists r, s.
Qed.
Lemma counted_insert h fs p r s fs' : counted h fs -> 0 < r -> r = cnt p fs' -> (∀ q, q <> p -> cnt q fs' = cnt q fs) -> counted (<[p := (r, s)]> h) fs'.
Proof.
  intros [H1 H2] Hr E Hq. split.
  - intros q. unfold refs_of. destruct (decide (q = p)) as [-> | Hne]; [by rewrite lookup_insert_eq |]. rewrite lookup_insert_ne, Hq by done. apply H1.
  - intros q r' s'. destruct (decide (q = p)) as [-> | Hne]; [rewrite lookup_insert_eq; by intros [= <- _] |]. rewrite lookup_insert_ne by done. apply H2.
Qed.
Lemma counted_delete h fs p fs' : counted h fs -> cnt p fs' = 0 -> (∀ q, q <> p -> cnt q fs' = cnt q fs) -> counted (delete p h) fs'.
Proof.
  intros [H1 H2] E Hq. split.
  - intros q. unfold refs_of. destruct (decide (q = p)) as [-> | Hne]; [by rewrite lookup_delete_eq |]. rewrite lookup_delete_ne, Hq by done. apply H1.
  - intros q r s. destruct (decide (q = p)) as [-> | Hne]; [by rewrite lookup_delete_eq |]. rewrite lookup_delete_ne by done. apply H2.
Qed.

(** Objects that differ in the heap of files only. *)
Definition same_versions o o' : Prop := versions_ o' = versions_ o /\ next_object o' = next_object o.

Lemma ref_file_ok f fs o : counted (files_heap o) fs -> f ∈ fs ->
  ∃ o', ref_file f o = Some o' /\ same_versions o o' /\ counted (files_heap o') (f :: fs).
Proof.
  intros Hc Hin. destruct (counted_lookup _ _ _ Hc Hin) as (r & s & E & Er). unfold ref_file. rewrite E. cbn [mbind option_bind].
  eexists. split; [done |]. split; [done |]. cbn. apply (counted_insert _ fs); [done | | |].
  - pose proof (cnt_nonneg (f_ptr f) fs). lia.
  - rewrite cnt_cons, decide_True by done. lia.
  - intros q Hq. rewrite cnt_cons, decide_False by done. lia.
Qed.
Lemma unref_file_ok checked f fs o : counted (files_heap o) (f :: fs) ->
  ∃ o', unref_file ndebug checked f o = Some o' /\ same_versions o o' /\ counted (files_heap o') fs.
Proof.
  intros Hc. destruct (counted_lookup _ _ f Hc) as (r & s & E & Er); [by left |]. rewrite cnt_cons, decide_True in Er by done.
  pose proof (cnt_nonneg (f_ptr f) fs). unfold unref_file. rewrite E. cbn [mbind option_bind].
  assert ((if checked then assert_ ndebug (0 <? r) else Some tt) = Some tt) as -> by (destruct checked; [apply assert_bool, Z.ltb_lt; lia | done]).
  cbn [mbind option_bind]. eexists. split; [done |]. split; [done |]. cbn.
  assert (∀ q, q <> f_ptr f -> cnt q fs = cnt q (f :: fs)) as Hq by (intros q Hne; rewrite cnt_cons, decide_False by done; lia).
  destruct (Z.leb_spec (r - 1) 0).
  - apply (counted_delete _ (f :: fs)); [done | lia | done].
  - apply (counted_insert _ (f :: fs)); [done | lia | lia | done].
Qed.
Lemma unref_files_ok checked files fs o : counted (files_heap o) (files ++ fs) ->
  ∃ o', unref_files ndebug checked files o = Some o' /\ same_versions o o' /\ counted (files_heap o') fs.
Proof.
  revert o. induction files as [| f files IH]; intros o Hc; [by exists o |]. cbn [unref_files].
  destruct (unref_file_ok checked f (files ++ fs) o Hc) as (o1 & -> & [E1 E2] & Hc1). cbn [mbind option_bind].
  destruct (IH o1 Hc1) as (o2 & -> & [E3 E4] & Hc2). exists o2. split; [done |]. split; [split; congruence | done].
Qed.
Lemma new_file_ok m seeks fs o : counted (files_heap o) fs -> files_heap o !! next_object o = None ->
  let '(f, o') := new_file m 1 seeks o in
  f = MkFile (next_object o) m /\ versions_ o' = versions_ o /\ next_object o' = S (next_object o) /\ counted (files_heap o') (f :: fs).
Proof.
  intros Hc Hn. cbn. split_and!; try done. apply (counted_insert _ fs); [done | lia | |].
  - rewrite cnt_cons, decide_True by done. destruct Hc as [Hc _]. rewrite <- Hc. unfold refs_of. by rewrite Hn.
  - intros q Hq. rewrite cnt_cons, decide_False by (cbn; congruence). lia.
Qed.
End Counts.

(** ** Counts of versions *)
Section Objects.
Variable ndebug : bool.
Implicit Types (o : Objects) (v : Version) (p : nat) (vs : list nat) (fs : list File) (l : list (nat * Version)).

Definition files_of l : list File := l ≫= (λ pv, concat (files_ pv.2)).
Definition vcnt p vs : Z := Z.of_nat (length (filter (λ q, q = p) vs)).
(** The versions are referenced by [vs] and the files by the versions and by [fs]; every count is exact, and a version lives as long as it is referenced. *)
Record objs_ok vs fs o : Prop := {
  oo_nodup : base.NoDup ((versions_ o).*1);
  oo_refs p v : find_version p (versions_ o) = Some v -> v_refs v = vcnt p vs /\ 0 < v_refs v;
  oo_live p : p ∈ vs -> is_Some (find_version p (versions_ o));
  oo_files : counted (files_heap o) (files_of (versions_ o) ++ fs);
  oo_fresh p : (next_object o <= p)%nat -> files_heap o !! p = None /\ find_version p (versions_ o) = None
}.

Lemma files_of_cons x l : files_of (x :: l) = concat (files_ x.2) ++ files_of l.
Proof. done. Qed.
Lemma files_of_app l l' : files_of (l ++ l') = files_of l ++ files_of l'.
Proof. unfold files_of. by rewrite bind_app. Qed.
Lemma vcnt_cons p q vs : vcnt p (q :: vs) = (if decide (q = p) then 1 else 0) + vcnt p vs.
Proof. unfold vcnt. rewrite list.filter_cons. destruct (decide (q = p)); cbn; lia. Qed.
Lemma vcnt_in p vs : p ∈ vs <-> 0 < vcnt p vs.
Proof.
  induction vs as [| q vs IH]; [split; [by intros ?%elem_of_nil | by unfold vcnt] |]. rewrite elem_of_cons, vcnt_cons, IH.
  assert (0 <= vcnt p vs) by (unfold vcnt; lia). destruct (decide (q = p)); split; try lia; try (intros [? | ?]; [congruence | lia]); auto.
Qed.

Lemma find_put p q v l : find_version q (put_version p v l) = if decide (q = p) then (match find_version p l with Some _ => Some v | None => None end) else find_version q l.
Proof.
  induction l as [| [r w] l IH]; cbn; [by destruct (decide (q = p)) |]. destruct (decide (r = p)) as [-> | Hr]; cbn.
  - destruct (decide (p = q)) as [-> | Hq]; [by rewrite decide_True by done |]. by rewrite decide_False by congruence.
  - rewrite IH. destruct (decide (r = q)) as [-> | Hq]; [by rewrite decide_False by congruence |]. done.
Qed.
Lemma keys_put p v l : (put_version p v l).*1 = l.*1.
Proof. induction l as [| [r w] l IH]; cbn; [done |]. destruct (decide (r = p)); cbn; [done | by rewrite IH]. Qed.
Lemma files_put p v w l : find_version p l = Some w -> files_ v = files_ w -> files_of (put_version p v l) = files_of l.
Proof.
  intros Hf E. induction l as [| [r x] l IH]; cbn in *; [done |]. destruct (decide (r = p)) as [-> | Hr].
  - injection Hf as ->. rewrite !files_of_cons. cbn [snd]. by rewrite E.
  - by rewrite !files_of_cons, IH.
Qed.
Lemma find_keys p l : is_Some (find_version p l) <-> p ∈ l.*1.
Proof.
  induction l as [| [r w] l IH]; cbn; [split; [by intros [] | by intros ?%elem_of_nil] |]. rewrite elem_of_cons. destruct (decide (r = p)) as [-> | Hr].
  - split; [by left | done].
  - rewrite IH. split; [by right | by intros [-> | ?]].
Qed.
Lemma find_unlink p q l : base.NoDup (l.*1) -> find_version q (unlink_version p l) = if decide (q = p) then None else find_version q l.
Proof.
  induction l as [| [r w] l IH]; cbn; [by destruct (decide (q = p)) |]. rewrite list.NoDup_cons. intros [Hn Hd]. destruct (decide (r = p)) as [-> | Hr]; cbn.
  - destruct (decide (q = p)) as [-> | Hq]; [| by rewrite (decide_False (P := p = q)) by congruence].
    destruct (find_version p l) eqn:E; [| done]. destruct Hn. apply find_keys. by rewrite E.
  - rewrite IH by done. destruct (decide (r = q)) as [-> | Hq]; [by rewrite decide_False by congruence | done].
Qed.
Lemma keys_unlink p l : base.NoDup (l.*1) -> base.NoDup ((unlink_version p l).*1).
Proof.
  induction l as [| [r w] l IH]; cbn; [done |]. rewrite list.NoDup_cons. intros [Hn Hd]. destruct (decide (r = p)); [done |]. cbn. apply list.NoDup_cons. split; [| by apply IH].
  intros Hin. apply Hn. apply find_keys in Hin. rewrite find_unlink in Hin by done. destruct (decide (r = p)); [done |]. by apply find_keys.
Qed.
Lemma files_unlink p v l : find_version p l = Some v -> files_of l ≡ₚ concat (files_ v) ++ files_of (unlink_version p l).
Proof.
  induction l as [| [r w] l IH]; cbn; [done |]. destruct (decide (r = p)) as [-> | Hr]; [by intros [= ->] |].
  intros E. rewrite !files_of_cons, (IH E). apply Permutation_app_swap_app.
Qed.

Lemma objs_perm vs vs' fs fs' o : vs ≡ₚ vs' -> fs ≡ₚ fs' -> objs_ok vs fs o -> objs_ok vs' fs' o.
Proof.
  intros Ev Ef [H1 H2 H3 H4 H5]. split; try done.
  - intros p v E. destruct (H2 p v E) as [-> ?]. split; [| done]. unfold vcnt. by rewrite Ev.
  - intros p. rewrite <- Ev. apply H3.
  - eapply counted_perm; [| exact H4]. by rewrite Ef.
Qed.

Lemma Version_Ref_ok p vs fs o : objs_ok vs fs o -> p ∈ vs -> ∃ o', Version_Ref p o = Some o' /\ objs_ok (p :: vs) fs o' /\
  files_heap o' = files_heap o /\ next_object o' = next_object o /\ ∀ q, files_ <$> find_version q (versions_ o') = files_ <$> find_version q (versions_ o).
Proof.
  intros [H1 H2 H3 H4 H5] Hin. destruct (H3 p Hin) as [v E]. unfold Version_Ref. rewrite E. cbn [mbind option_bind]. eexists. split; [done |]. split; [| split_and!; try done].
  - split; cbn.
    + by rewrite keys_put.
    + intros q w. rewrite find_put. destruct (decide (q = p)) as [-> | Hq].
      * rewrite E. intros [= <-]. cbn. rewrite vcnt_cons, decide_True by done. destruct (H2 p v E). lia.
      * rewrite vcnt_cons, decide_False by congruence. intros Ew. rewrite Z.add_0_l. by apply H2.
    + intros q Hq. rewrite find_put. destruct (decide (q = p)) as [-> | Hne]; [by rewrite E |]. apply elem_of_cons in Hq as [-> | Hq]; [done | by apply H3].
    + by erewrite files_put.
    + intros q Hq. destruct (H5 q Hq) as [? Ef]. split; [done |]. rewrite find_put. destruct (decide (q = p)) as [-> | Hne]; [congruence | done].
  - intros q. cbn. rewrite find_put. destruct (decide (q = p)) as [-> | Hq]; [by rewrite E | done].
Qed.

(** The last reference takes the version and its references to files away. *)
Lemma Version_Unref_ok p vs fs o : objs_ok (p :: vs) fs o -> ∃ o', Version_Unref ndebug p o = Some o' /\ objs_ok vs fs o' /\ next_object o' = next_object o /\
  ∀ q, q ∈ vs -> files_ <$> find_version q (versions_ o') = files_ <$> find_version q (versions_ o).
Proof.
  intros [H1 H2 H3 H4 H5]. destruct (H3 p ltac:(by left)) as [v E]. destruct (H2 p v E) as [Er Hr]. rewrite vcnt_cons, decide_True in Er by done.
  unfold Version_Unref. rewrite E. cbn [mbind option_bind]. rewrite assert_bool by (apply Z.leb_le; lia). cbn [mbind option_bind set_refs v_refs].
  assert (∀ q w, find_version q (put_version p (set_refs (v_refs v - 1) v) (versions_ o)) = Some w -> v_refs w = vcnt q vs) as Hput.
  { intros q w. rewrite find_put. destruct (decide (q = p)) as [-> | Hq]; [rewrite E; intros [= <-]; cbn; lia |].
    intros Ew. destruct (H2 q w Ew) as [-> _]. rewrite vcnt_cons, decide_False by congruence. lia. }
  destruct (Z.eqb_spec (v_refs v - 1) 0) as [E0 | E0].
  - unfold delete_version. cbn [set_refs v_refs files_ versions_ set_versions]. rewrite assert_bool by (apply Z.eqb_eq; lia). cbn [mbind option_bind].
    set (l := put_version p _ (versions_ o)) in *. assert (base.NoDup (l.*1)) as Hd by (unfold l; by rewrite keys_put).
    assert (find_version p l = Some (set_refs (v_refs v - 1) v)) as El by (unfold l; rewrite find_put, decide_True, E by done; done).
    assert (files_of (versions_ o) ≡ₚ concat (files_ v) ++ files_of (unlink_version p l)) as Hperm.
    { pose proof (files_unlink p _ _ El) as Hp. unfold l at 1 in Hp. by rewrite (files_put p (set_refs (v_refs v - 1) v) v _ E eq_refl) in Hp. }
    destruct (unref_files_ok ndebug true (concat (files_ v)) (files_of (unlink_version p l) ++ fs) (set_versions (unlink_version p l) (set_versions l o))) as (o' & -> & [Ev En] & Hc).
    { cbn. rewrite app_assoc. eapply counted_perm; [| exact H4]. apply Permutation_app_tail, Hperm. }
    cbn in Ev, En. assert (∀ q, find_version q (versions_ o') = if decide (q = p) then None else find_version q (versions_ o)) as Hfind.
    { intros q. rewrite Ev, find_unlink by done. destruct (decide (q = p)) as [-> | Hq]; [done |]. unfold l. by rewrite find_put, decide_False by done. }
    assert (∀ q, q ∈ vs -> q <> p) as Hout.
    { intros q Hq ->. apply vcnt_in in Hq. lia. }
    exists o'. split; [done |]. split; [split |].
    + rewrite Ev. by apply keys_unlink.
    + intros q w. rewrite Hfind. destruct (decide (q = p)) as [-> | Hq]; [done |]. intros Ew. destruct (H2 q w Ew) as [-> ?]. rewrite vcnt_cons, decide_False by congruence.
      rewrite vcnt_cons, decide_False in H by congruence. lia.
    + intros q Hq. rewrite Hfind, decide_False by by apply Hout. apply H3. by right.
    + by rewrite Ev.
    + intros q Hq. rewrite Hfind. destruct (H5 q) as [Hh Hf]; [lia |]. split; [| by destruct (decide (q = p))].
      destruct (files_heap o' !! q) as [[r s] |] eqn:Eh; [| done]. destruct Hc as [Hc1 Hc2]. specialize (Hc2 q r s Eh). specialize (Hc1 q). unfold refs_of in Hc1. rewrite Eh in Hc1.
      destruct H4 as [H4 _]. specialize (H4 q). unfold refs_of in H4. rewrite Hh in H4.
      assert (cnt q (files_of (versions_ o) ++ fs) = cnt q (concat (files_ v) ++ files_of (unlink_version p l) ++ fs)) as Ec.
      { apply cnt_perm. rewrite app_assoc. apply Permutation_app_tail, Hperm. }
      rewrite (cnt_app q (concat (files_ v))) in Ec. pose proof (cnt_nonneg q (concat (files_ v))). lia.
    + split; [done |]. intros q Hq. rewrite Hfind, decide_False by by apply Hout. done.
  - eexists. split; [done |]. split; [split; cbn |].
    + by rewrite keys_put.
    + intros q w Ew. split; [by apply Hput |]. rewrite find_put in Ew. destruct (decide (q = p)) as [-> | Hq]; [rewrite E in Ew; injection Ew as <-; cbn; lia | by apply (H2 q)].
    + intros q Hq. rewrite find_put. destruct (decide (q = p)) as [-> | Hne]; [by rewrite E | apply H3; by right].
    + by erewrite files_put.
    + intros q Hq. destruct (H5 q Hq) as [? Ef]. split; [done |]. rewrite find_put. destruct (decide (q = p)) as [-> | Hne]; [congruence | done].
    + split; [done |]. intros q Hq. cbn. rewrite find_put. destruct (decide (q = p)) as [-> | Hne]; [by rewrite E | done].
Qed.
End Objects.

(** ** The order of files in a level *)
Section Order.
Context {C : Comparator} {valid : Slice -> Prop} `{!ComparatorLaws C valid} (ndebug : bool).
Implicit Types (f g : File) (files l : list File).
Local Notation file_ok := (file_ok (valid := valid)).
Local Notation Below := (BySmallestKey C ndebug).

(** The smallest key, then the number. *)
Definition meta_lt (m1 m2 : FileMetaData) : Prop := InternalKey_Compare C (smallest m1) (smallest m2) = Some Lt \/
  (InternalKey_Compare C (smallest m1) (smallest m2) = Some Eq /\ number m1 < number m2).
#[export] Instance meta_lt_dec (m1 m2 : FileMetaData) : Decision (meta_lt m1 m2).
Proof. unfold meta_lt. apply _. Defined.
Definition file_lt f g : Prop := meta_lt f g.
#[export] Instance file_lt_dec f g : Decision (file_lt f g).
Proof. unfold file_lt. apply _. Defined.

Lemma Below_ok f g : file_ok f -> file_ok g -> Below f g = Some (bool_decide (file_lt f g)).
Proof.
  intros [Hf _] [Hg _]. unfold BySmallestKey. rewrite !(ivalid_nonempty (valid := valid)) by done. cbn [mbind option_bind].
  destruct (cmp_some (compare := InternalKey_Compare C) _ _ Hf Hg) as [r Er]. rewrite Er. cbn [mbind option_bind]. f_equal. symmetry. unfold file_lt, meta_lt. destruct r.
  - destruct (Z.ltb_spec (number f) (number g)); [apply bool_decide_true; by right | apply bool_decide_false]. rewrite Er. intros [? | [_ ?]]; [done | lia].
  - apply bool_decide_true. by left.
  - apply bool_decide_false. rewrite Er. by intros [? | [? _]].
Qed.
Lemma file_lt_trans f g h : file_ok f -> file_ok g -> file_ok h -> file_lt f g -> file_lt g h -> file_lt f h.
Proof.
  intros [Hf _] [Hg _] [Hh _] [H1 | [H1 N1]] [H2 | [H2 N2]].
  - left. by apply (cmp_trans _ (smallest g)).
  - left. by apply (cmp_eq_r _ (smallest g)).
  - left. by apply (cmp_eq _ (smallest g)).
  - right. split; [by apply (cmp_eq_r _ (smallest g)) | lia].
Qed.
Lemma file_lt_irrefl f : file_ok f -> ~ file_lt f f.
Proof. intros [Hf _] [H | [_ H]]; [by rewrite (cmp_refl (compare := InternalKey_Compare C) _ Hf) in H | lia]. Qed.
Lemma file_lt_total f g : file_ok f -> file_ok g -> number f <> number g -> ~ file_lt f g -> file_lt g f.
Proof.
  intros [Hf _] [Hg _] Hn H. destruct (cmp_some (compare := InternalKey_Compare C) _ _ Hf Hg) as [[] E].
  - right. split; [by apply cmp_eq_sym |]. destruct (Z.lt_total (number f) (number g)) as [? | [? | ?]]; [destruct H; by right | done | done].
  - destruct H. by left.
  - left. by apply cmp_gt_lt.
Qed.

Definition sorted_files l : Prop := StronglySorted file_lt l /\ Forall file_ok l.
Definition distinct l : Prop := base.NoDup ((λ f, number f) <$> l).

Lemma sorted_files_cons f l : sorted_files (f :: l) <-> file_ok f /\ Forall (file_lt f) l /\ sorted_files l.
Proof.
  unfold sorted_files. rewrite list.Forall_cons. split.
  - intros [Hs [Hf Hl]]. apply StronglySorted_inv in Hs as [Hs Hlt]. done.
  - intros (Hf & Hlt & Hs & Hl). split; [by apply SSorted_cons | done].
Qed.

(** Sorted lists with the same elements are the same. *)
Lemma sorted_unique {A} (R : A -> A -> Prop) (P : A -> Prop) (l l' : list A) :
  (∀ x, P x -> ~ R x x) -> (∀ x y z, P x -> P y -> P z -> R x y -> R y z -> R x z) ->
  StronglySorted R l -> StronglySorted R l' -> Forall P l -> (∀ x, x ∈ l <-> x ∈ l') -> l = l'.
Proof.
  intros Hirr Htr Hs. revert l'. induction Hs as [| x l Hs IH Hx]; intros l' Hs' Hp Hin.
  { destruct l' as [| y l']; [done |]. exfalso. apply (not_elem_of_nil y), Hin. by left. }
  destruct Hs' as [| y l' Hs' Hy]; [exfalso; apply (not_elem_of_nil x), Hin; by left |].
  apply list.Forall_cons in Hp as [Px Pl]. rewrite list.Forall_forall in Hx, Hy, Pl.
  pose proof (proj2 (Hin y) (list_elem_of_here _ _)) as Hyl. pose proof (proj1 (Hin x) (list_elem_of_here _ _)) as Hxl.
  apply elem_of_cons in Hyl, Hxl. assert (P y) as Py by (destruct Hyl as [-> | ?]; [done | by apply Pl]).
  assert (x = y) as <-.
  { destruct Hxl as [-> | Hxy]; [done |]. destruct Hyl as [-> | Hyx]; [done |]. exfalso. apply (Hirr x); [done |]. apply (Htr x y x); auto. }
  f_equal. apply IH; [done | by apply list.Forall_forall |]. intros z. specialize (Hin z). rewrite !elem_of_cons in Hin.
  split; intros Hz; [destruct (proj1 Hin) as [-> | ?] | destruct (proj2 Hin) as [-> | ?]]; auto; exfalso; apply (Hirr x); auto.
Qed.

Lemma FileSet_insert_ok f l : sorted_files l -> file_ok f -> number f ∉ (λ f, number f) <$> l ->
  ∃ l', FileSet_insert C ndebug f l = Some l' /\ sorted_files l' /\ l' ≡ₚ f :: l.
Proof.
  intros Hs Hf. induction l as [| g l IH]; intros Hn; cbn [FileSet_insert].
  { exists [f]. split; [done |]. split; [| done]. apply sorted_files_cons. split; [done |]. by split; [apply Forall_nil_2 |]. }
  apply sorted_files_cons in Hs as (Hg & Hlt & Hs). cbn [fmap list_fmap] in Hn. apply not_elem_of_cons in Hn as [Hne Hn].
  rewrite !Below_ok by done. cbn [mbind option_bind]. case_bool_decide as Hfg.
  - exists (f :: g :: l). split; [done |]. split; [| done]. apply sorted_files_cons. split; [done |]. split; [| by apply sorted_files_cons].
    apply Forall_cons_2; [done |]. destruct Hs as [_ Hl]. rewrite list.Forall_forall in *. intros h Hh. apply (file_lt_trans f g h); auto.
  - rewrite bool_decide_true by (apply file_lt_total; done). destruct (IH Hs Hn) as (l' & -> & Hs' & Hp). cbn [mbind option_bind].
    exists (g :: l'). split; [done |]. split; [| rewrite Hp; apply Permutation_swap]. apply sorted_files_cons. split; [done |]. split; [| done].
    rewrite Hp. apply Forall_cons_2; [by apply file_lt_total | done].
Qed.

(** ** The merge of the base with the files that were added *)
Fixpoint split_below f l : list File * list File :=
  match l with
  | [] => ([], [])
  | g :: l' => if bool_decide (file_lt f g) then ([], l) else (g :: (split_below f l').1, (split_below f l').2)
  end.
Fixpoint merge (base added : list File) : list File :=
  match added with [] => base | f :: added => (split_below f base).1 ++ f :: merge (split_below f base).2 added end.

Lemma upper_bound_ok f l : file_ok f -> Forall file_ok l -> upper_bound C ndebug f l = Some (split_below f l).
Proof.
  intros Hf. induction 1 as [| g l Hg Hl IH]; [done |]. cbn [upper_bound split_below]. rewrite Below_ok by done. cbn [mbind option_bind].
  case_bool_decide; [done |]. rewrite IH. cbn [mbind option_bind]. by destruct (split_below f l).
Qed.
Lemma split_below_app f l : l = (split_below f l).1 ++ (split_below f l).2.
Proof. induction l as [| g l IH]; [done |]. cbn. case_bool_decide; [done |]. cbn. by rewrite <- IH. Qed.
Lemma merge_perm base added : merge base added ≡ₚ base ++ added.
Proof.
  revert base. induction added as [| f added IH]; intros base; cbn [merge]; [by rewrite app_nil_r |].
  rewrite IH. rewrite (split_below_app f base) at 3. rewrite <- app_assoc. apply Permutation_app_head. apply Permutation_middle.
Qed.
Lemma split_below_sorted f l : sorted_files l -> file_ok f -> number f ∉ (λ f, number f) <$> l ->
  Forall (λ g, file_lt g f) (split_below f l).1 /\ Forall (file_lt f) (split_below f l).2.
Proof.
  intros Hs Hf. induction l as [| g l IH]; intros Hn; cbn [split_below]; [split; apply Forall_nil_2 |].
  apply sorted_files_cons in Hs as (Hg & Hlt & Hs). cbn [fmap list_fmap] in Hn. apply not_elem_of_cons in Hn as [Hne Hn].
  case_bool_decide as Hfg; cbn [fst snd].
  - split; [apply Forall_nil_2 |]. apply Forall_cons_2; [done |]. destruct Hs as [_ Hl]. rewrite list.Forall_forall in *. intros h Hh. apply (file_lt_trans f g h); auto.
  - destruct (IH Hs Hn) as [H1 H2]. split; [apply Forall_cons_2; [by apply file_lt_total | done] | done].
Qed.
Lemma sorted_files_app l l' : sorted_files (l ++ l') <-> sorted_files l /\ sorted_files l' /\ ∀ f g, f ∈ l -> g ∈ l' -> file_lt f g.
Proof.
  induction l as [| f l IH]; cbn [app].
  { split; [intros H; split_and!; [split; [apply SSorted_nil | apply Forall_nil_2] | done | by intros f g ?%elem_of_nil] | by intros (_ & ? & _)]. }
  rewrite !sorted_files_cons, IH, list.Forall_app, !list.Forall_forall. split.
  - intros (Hf & [H1 H2] & Hl & Hl' & H). split_and!; try done. intros x y [-> | Hx]%elem_of_cons Hy; auto.
  - intros ((Hf & H1 & Hl) & Hl' & H). split_and!; try done; intros x Hx; [| intros; apply H; [by right | done]]. apply H; [by left | done].
Qed.
Lemma merge_sorted base added : sorted_files base -> sorted_files added -> distinct (base ++ added) -> sorted_files (merge base added).
Proof.
  intros Hb. revert base Hb. induction added as [| f added IH]; intros base Hb Ha Hd; cbn [merge]; [done |].
  apply sorted_files_cons in Ha as (Hf & Hlt & Ha). unfold distinct in Hd. rewrite fmap_app in Hd. cbn [fmap list_fmap] in Hd.
  apply list.NoDup_app in Hd as (Hd1 & Hd2 & Hd3). apply list.NoDup_cons in Hd3 as [Hnf Hd3].
  assert (number f ∉ (λ f, number f) <$> base) as Hn by (intros Hin; apply (Hd2 _ Hin); by left).
  destruct (split_below_sorted f base Hb Hf Hn) as [H1 H2]. pose proof (split_below_app f base) as Eb.
  destruct (split_below f base) as [a b]. cbn [fst snd] in *. subst base. apply sorted_files_app in Hb as (Hsa & Hsb & Hab).
  assert (sorted_files (merge b added)) as Hm.
  { apply IH; [done | done |]. unfold distinct. rewrite fmap_app. rewrite fmap_app in Hd1, Hd2. apply list.NoDup_app in Hd1 as (_ & _ & Hd1).
    apply list.NoDup_app. split; [done |]. split; [| done]. intros n Hin Hin'. apply (Hd2 n); [by apply elem_of_app; right | by right]. }
  assert (Forall (file_lt f) (merge b added)) as Hfm by (rewrite merge_perm; by apply list.Forall_app).
  apply sorted_files_app. split; [done |]. split; [apply sorted_files_cons; done |]. intros x y Hx Hy. rewrite list.Forall_forall in H1.
  apply elem_of_cons in Hy as [-> | Hy]; [by apply H1 |]. destruct Hsa as [_ Hoa]. destruct Hm as [_ Hom]. rewrite list.Forall_forall in Hoa, Hom, Hfm.
  apply (file_lt_trans x f y); auto.
Qed.

(** ** Saving a level *)
(** What the assertions of a debug build ask for: the files of a level above 0 do not overlap. *)
Definition before f g : Prop := InternalKey_Compare C (largest f) (smallest g) = Some Lt.
Definition linked (level : Z) l : Prop := ndebug = true \/ level <= 0 \/ Sorted before l.
Definition kept (deleted : gset Z) l : list File := filter (λ f, number f ∉ deleted) l.

Lemma linked_take level l l' : linked level (l ++ l') -> linked level l.
Proof.
  intros [? | [? | H]]; [by left | by right; left | right; right]. induction l as [| f l IH]; [constructor |]. cbn in H.
  apply Sorted_inv in H as [H Hh]. constructor; [by apply IH |]. destruct l as [| g l]; [constructor |]. inversion Hh; subst. by constructor.
Qed.
Lemma linked_last level l f g l' : linked level ((l ++ [f]) ++ g :: l') -> negb ndebug && (0 <? level) = true -> before f g.
Proof.
  intros [-> | [H | H]] Hd; [done | bool_hyps; lia |]. clear Hd. rewrite <- app_assoc in H. cbn [app] in H.
  induction l as [| x l IH]; cbn [app] in H; apply Sorted_inv in H as [H Hh]; [by inversion Hh | by apply IH].
Qed.
Lemma check_overlap_ok level l : linked level l -> Forall file_ok l -> negb ndebug && (0 <? level) = true -> check_overlap C ndebug l = Some tt.
Proof.
  intros Hl Ho Hd. destruct Hl as [-> | [? | Hl]]; [done | bool_hyps; lia |]. induction l as [| f l IH]; [done |].
  apply Sorted_inv in Hl as [Hl Hh]. apply list.Forall_cons in Ho as [[_ Hf] Ho]. destruct l as [| g l]; [done |]. cbn [check_overlap].
  inversion Hh as [| ? ? Hb]; subst. unfold before in Hb. assert (valid_ikey valid (smallest g)) as Hg by by apply list.Forall_cons in Ho as [[? _] _].
  rewrite (ivalid_nonempty (valid := valid) ndebug (largest f)), (ivalid_nonempty (valid := valid) ndebug (smallest g)) by done. cbn [mbind option_bind]. rewrite Hb. cbn [mbind option_bind]. rewrite assert_bool by by apply bool_decide_eq_true.
  cbn [mbind option_bind]. by apply IH.
Qed.

Lemma MaybeAddFile_ok level deleted f files fs o rest : linked level (files ++ kept deleted [f] ++ rest) -> Forall file_ok (files ++ [f]) ->
  counted (files_heap o) fs -> f ∈ fs ->
  ∃ o', MaybeAddFile C ndebug level deleted f files o = Some (files ++ kept deleted [f], o') /\ same_versions o o' /\ counted (files_heap o') (kept deleted [f] ++ fs).
Proof.
  intros Hl Ho Hc Hin. unfold MaybeAddFile, kept in *. rewrite list.filter_cons in *. change (filter (λ f, number f ∉ deleted) []) with (@nil File) in *. case_bool_decide as Hd.
  { rewrite decide_False by auto. exists o. rewrite app_nil_r. by split. }
  rewrite decide_True in * by done. cbn [app] in *. apply list.Forall_app in Ho as [Ho [Hs _]%list.Forall_singleton].
  assert (match list.last files with
         | Some prev => if negb ndebug && (0 <? level) then l ← InternalKey_Encode ndebug (largest (f_meta prev)); s ← InternalKey_Encode ndebug (smallest (f_meta f)); r ← InternalKey_Compare C l s; assert_ ndebug (bool_decide (r = Lt)) else Some tt
         | None => Some tt end = Some tt) as ->.
  { destruct (list.last files) as [prev |] eqn:El; [| done]. apply last_Some in El as [files' ->]. destruct (negb ndebug && (0 <? level)) eqn:En; [| done].
    pose proof (linked_last level files' prev f rest Hl En) as Hb. apply list.Forall_app in Ho as [_ [_ Hp]%list.Forall_singleton].
    rewrite !(ivalid_nonempty (valid := valid)) by done. cbn [mbind option_bind]. unfold before in Hb. rewrite Hb. cbn [mbind option_bind]. apply assert_bool. by apply bool_decide_eq_true. }
  cbn [mbind option_bind]. destruct (ref_file_ok f fs o Hc Hin) as (o' & -> & Hv & Hc'). cbn [mbind option_bind]. by exists o'.
Qed.
Lemma kept_app deleted l l' : kept deleted (l ++ l') = kept deleted l ++ kept deleted l'.
Proof. apply list.filter_app. Qed.
Lemma kept_ok deleted l : Forall file_ok l -> Forall file_ok (kept deleted l).
Proof. rewrite !list.Forall_forall. intros H f Hf. apply list_elem_of_filter in Hf as [_ Hf]. by apply H. Qed.
Lemma same_versions_trans o o1 o2 : same_versions o o1 -> same_versions o1 o2 -> same_versions o o2.
Proof. intros [? ?] [? ?]. split; congruence. Qed.
Lemma counted_swap o l l' fs : counted (files_heap o) (l' ++ l ++ fs) -> counted (files_heap o) ((l ++ l') ++ fs).
Proof. apply counted_perm. rewrite <- app_assoc. apply Permutation_app_swap_app. Qed.

Lemma add_files_ok level deleted l : ∀ files fs o rest, linked level (files ++ kept deleted l ++ rest) -> Forall file_ok (files ++ l) ->
  counted (files_heap o) fs -> l ⊆ fs ->
  ∃ o', add_files C ndebug level deleted l files o = Some (files ++ kept deleted l, o') /\ same_versions o o' /\ counted (files_heap o') (kept deleted l ++ fs).
Proof.
  induction l as [| f l IH]; intros files fs o rest Hl Ho Hc Hin; cbn [add_files].
  { exists o. change (kept deleted []) with (@nil File). rewrite app_nil_r. by split. }
  change (f :: l) with ([f] ++ l) in *. rewrite kept_app in *. rewrite <- app_assoc in Hl. rewrite app_assoc in Ho.
  destruct (MaybeAddFile_ok level deleted f files fs o (kept deleted l ++ rest)) as (o1 & -> & Hv1 & Hc1);
    [done | by apply list.Forall_app in Ho as [? _] | done | apply Hin; by left |]. cbn [mbind option_bind].
  destruct (IH (files ++ kept deleted [f]) (kept deleted [f] ++ fs) o1 rest) as (o2 & -> & Hv2 & Hc2).
  - by rewrite <- app_assoc.
  - apply list.Forall_app in Ho as [[Hf Ho]%list.Forall_app Hl']. apply list.Forall_app. split; [apply list.Forall_app; split; [done |] | done]. by apply kept_ok.
  - done.
  - intros g Hg. apply elem_of_app. right. apply Hin. by right.
  - exists o2. rewrite <- app_assoc. split; [done |]. split; [by eapply same_versions_trans |]. by apply counted_swap.
Qed.

Lemma save_loop_ok level deleted added : ∀ base files fs o, Forall file_ok (files ++ base ++ added) -> linked level (files ++ kept deleted (merge base added)) ->
  counted (files_heap o) fs -> base ++ added ⊆ fs ->
  ∃ o', save_loop C ndebug level deleted base added files o = Some (files ++ kept deleted (merge base added), o') /\ same_versions o o' /\
    counted (files_heap o') (kept deleted (merge base added) ++ fs).
Proof.
  induction added as [| f added IH]; intros base files fs o Ho Hl Hc Hin; cbn [save_loop merge] in *.
  { rewrite !app_nil_r in *. apply (add_files_ok level deleted base files fs o []); try done. by rewrite app_nil_r. }
  apply list.Forall_app in Ho as [Hof [Hob [Hf Hoa]%list.Forall_cons]%list.Forall_app]. rewrite upper_bound_ok by done. cbn [mbind option_bind].
  pose proof (split_below_app f base) as Eb. destruct (split_below f base) as [a b]. cbn [fst snd] in *. subst base.
  apply list.Forall_app in Hob as [Hoa' Hob]. rewrite kept_app in *. change (f :: merge b added) with ([f] ++ merge b added) in *. rewrite kept_app in *.
  destruct (add_files_ok level deleted a files fs o (kept deleted [f] ++ kept deleted (merge b added))) as (o1 & -> & Hv1 & Hc1); [done | by apply list.Forall_app | done | |].
  { intros g Hg. apply Hin. apply elem_of_app. left. apply elem_of_app. by left. }
  cbn [mbind option_bind]. assert (Forall file_ok (kept deleted a)) as Hka by by apply kept_ok.
  destruct (MaybeAddFile_ok level deleted f (files ++ kept deleted a) (kept deleted a ++ fs) o1 (kept deleted (merge b added))) as (o2 & -> & Hv2 & Hc2).
  { by rewrite <- app_assoc. }
  { rewrite <- app_assoc. apply list.Forall_app. split; [done |]. apply list.Forall_app. split; [done |]. by apply list.Forall_singleton. }
  { done. }
  { apply elem_of_app. right. apply Hin. apply elem_of_app. right. by left. }
  cbn [mbind option_bind]. destruct (IH b ((files ++ kept deleted a) ++ kept deleted [f]) (kept deleted [f] ++ kept deleted a ++ fs) o2) as (o3 & -> & Hv3 & Hc3).
  - apply list.Forall_app. split; [apply list.Forall_app; split; [by apply list.Forall_app |] | by apply list.Forall_app]. apply kept_ok. by apply list.Forall_singleton.
  - by rewrite <- !app_assoc.
  - done.
  - intros g Hg. apply elem_of_app. right. apply elem_of_app. right. apply Hin. apply elem_of_app in Hg as [Hg | Hg]; apply elem_of_app; [left; apply elem_of_app; by right | by right; right].
  - exists o3. rewrite <- !app_assoc. split; [done |]. split; [by eapply same_versions_trans, same_versions_trans |].
    eapply counted_perm; [| exact Hc3]. rewrite !app_assoc. apply Permutation_app_tail. rewrite <- !app_assoc.
    rewrite (Permutation_app_comm (kept deleted a)). rewrite <- app_assoc. apply Permutation_app_swap_app.
Qed.
End Order.

(** ** What a builder makes of an edit *)
Section Apply.
Context {C : Comparator} {valid : Slice -> Prop} `{!ComparatorLaws C valid} (ndebug : bool).
Implicit Types (o : Objects) (f g : File) (fs files l : list File) (m : FileMetaData) (ls : list LevelState) (st : LevelState) (ns : list (Z * FileMetaData)) (vs : list nat).
Local Notation file_ok := (file_ok (valid := valid)).
Local Notation sorted_files := (sorted_files (C := C) (valid := valid)).

Definition meta_ok m : Prop := valid_ikey valid (smallest m) /\ valid_ikey valid (largest m).
(** The files an edit adds to a level, and the numbers it deletes there. *)
Definition new_of (level : nat) ns : list FileMetaData := (filter (λ p, p.1 = Z.of_nat level) ns).*2.
Definition deleted_of (level : nat) (ds : list (Z * Z)) : gset Z := list_to_set ((filter (λ p, p.1 = Z.of_nat level) ds).*2).
Definition numbers (ms : list FileMetaData) : list Z := number <$> ms.
Definition added_of ls : list File := concat (added_files <$> ls).

Lemma get_level_Some {A} (level : Z) (xs : list A) x : get_level level xs = Some x -> 0 <= level /\ xs !! Z.to_nat level = Some x.
Proof. unfold get_level. destruct (Z.ltb_spec level 0); [done |]. intros E. split; [lia | done]. Qed.
Lemma get_level_lookup {A} (level : Z) (xs : list A) : 0 <= level -> get_level level xs = xs !! Z.to_nat level.
Proof. intros Hl. unfold get_level. by rewrite (proj2 (Z.ltb_ge _ _)). Qed.
Lemma new_of_cons level lv m ns : new_of level ((lv, m) :: ns) = (if decide (lv = Z.of_nat level) then [m] else []) ++ new_of level ns.
Proof. unfold new_of. rewrite list.filter_cons. cbn [fst]. by destruct (decide (lv = Z.of_nat level)). Qed.

Lemma objs_new_file m seeks vs fs o : objs_ok vs fs o ->
  let '(f, o') := new_file m 1 seeks o in f = MkFile (next_object o) m /\ objs_ok vs (f :: fs) o' /\ versions_ o' = versions_ o.
Proof.
  intros [H1 H2 H3 H4 H5]. pose proof (new_file_ok m seeks _ o H4 (proj1 (H5 _ (le_n _)))) as Hn. destruct (new_file m 1 seeks o) as [f o'] eqn:E.
  destruct Hn as (Ef & Ev & En & Hc). split; [done |]. split; [| done]. split; try (rewrite Ev; done).
  - rewrite Ev. eapply counted_perm; [| exact Hc]. apply Permutation_middle.
  - intros p Hp. rewrite Ev, En in *. destruct (H5 p ltac:(lia)) as [Hh Hf]. split; [| done]. unfold new_file in E. injection E as <- <-. cbn. rewrite lookup_insert_ne by lia. done.
Qed.

Lemma added_put level st st' ls f : ls !! level = Some st -> added_files st' ≡ₚ f :: added_files st -> added_of (<[level := st']> ls) ≡ₚ f :: added_of ls.
Proof.
  intros E Hp. unfold added_of. revert level E. induction ls as [| s ls IH]; intros [| level] E; cbn in *; try done.
  - injection E as ->. by rewrite Hp.
  - rewrite (IH level E). symmetry. apply Permutation_middle.
Qed.

(** [st'] is the level with more added files. *)
Definition level_added (level : nat) ns st st' : Prop :=
  sorted_files (added_files st') /\ f_meta <$> added_files st' ≡ₚ (f_meta <$> added_files st) ++ new_of level ns /\
  deleted_files st' = deleted_files st ∖ list_to_set (numbers (new_of level ns)).

Lemma apply_new_ok ns : ∀ ls vs fs o, objs_ok vs (added_of ls ++ fs) o -> (∀ level st, ls !! level = Some st -> sorted_files (added_files st)) ->
  Forall (λ p, 0 <= p.1 < Z.of_nat (length ls) /\ meta_ok p.2) ns ->
  (∀ level st, ls !! level = Some st -> base.NoDup (numbers ((f_meta <$> added_files st) ++ new_of level ns))) ->
  ∃ ls' o', apply_new C ndebug ns ls o = Some (ls', o') /\ length ls' = length ls /\ objs_ok vs (added_of ls' ++ fs) o' /\ versions_ o' = versions_ o /\
    ∀ level st, ls !! level = Some st -> ∃ st', ls' !! level = Some st' /\ level_added level ns st st'.
Proof.
  induction ns as [| [lv m] ns IH]; intros ls vs fs o Ho Hs Hn Hd; cbn [apply_new].
  { exists ls, o. split_and!; try done. intros level st E. exists st. split; [done |]. split; [by eapply Hs |]. unfold new_of. cbn. rewrite app_nil_r. split; [done |]. set_solver. }
  apply list.Forall_cons in Hn as [[Hlv Hm] Hn]. cbn [fst snd] in *.
  pose proof (objs_new_file m (allowed_seeks_of m) vs _ o Ho) as Hnew. destruct (new_file m 1 (allowed_seeks_of m) o) as [f o1]. destruct Hnew as (Ef & Ho1 & Ev).
  rewrite get_level_lookup by lia. destruct (lookup_lt_is_Some_2 ls (Z.to_nat lv)) as [st Est]; [lia |]. rewrite Est. cbn [mbind option_bind].
  pose proof (Hd _ _ Est) as Hdst. rewrite new_of_cons, decide_True in Hdst by lia. cbn [app] in Hdst. unfold numbers in Hdst. rewrite fmap_app in Hdst. cbn [fmap list_fmap] in Hdst.
  destruct (FileSet_insert_ok (C := C) ndebug f (added_files st)) as (added' & -> & Hs' & Hp); [by eapply Hs | subst f; done | |].
  { subst f. cbn [f_meta]. apply list.NoDup_app in Hdst as (_ & Hdst & _). intros Hin. apply (Hdst (number m)); [| by left]. rewrite <- list_fmap_compose. exact Hin. }
  cbn [mbind option_bind]. unfold put_level. set (st1 := MkLevelState (deleted_files st ∖ {[number m]}) added').
  assert (Z.of_nat (Z.to_nat lv) = lv) as Elv by lia.
  destruct (IH (<[Z.to_nat lv := st1]> ls) vs fs o1) as (ls' & o2 & -> & Hl & Ho2 & Ev2 & Hls).
  - eapply objs_perm; [done | | exact Ho1]. by rewrite (added_put _ st st1 ls f Est Hp).
  - intros level x Ex. destruct (decide (level = Z.to_nat lv)) as [-> | Hne].
    + rewrite list_lookup_insert_eq in Ex by lia. injection Ex as <-. done.
    + rewrite list_lookup_insert_ne in Ex by done. by eapply Hs.
  - by rewrite length_insert.
  - intros level x Ex. destruct (decide (level = Z.to_nat lv)) as [-> | Hne].
    + rewrite list_lookup_insert_eq in Ex by lia. injection Ex as <-. unfold numbers. cbn [added_files st1]. rewrite Hp. subst f. cbn [fmap list_fmap f_meta].
      rewrite fmap_app. eapply NoDup_Permutation_proper; [| exact Hdst]. cbn. apply Permutation_middle.
    + rewrite list_lookup_insert_ne in Ex by done. specialize (Hd _ _ Ex). rewrite new_of_cons, decide_False in Hd by lia. done.
  - exists ls', o2. split; [done |]. rewrite length_insert in Hl. split; [done |]. split; [done |]. split; [congruence |].
    intros level x Ex. destruct (decide (level = Z.to_nat lv)) as [-> | Hne].
    + destruct (Hls (Z.to_nat lv) st1) as (st' & E' & Hs1 & Hp1 & Hd1); [by rewrite list_lookup_insert_eq by lia |]. exists st'. split; [done |]. assert (x = st) as -> by congruence.
      split; [done |]. rewrite new_of_cons, decide_True by lia. split.
      * rewrite Hp1. cbn [added_files st1]. rewrite Hp. subst f. cbn. apply Permutation_middle.
      * rewrite Hd1. unfold numbers. cbn [deleted_files st1 app fmap list_fmap list_to_set]. set_solver.
    + destruct (Hls level x) as (st' & E' & Hla); [by rewrite list_lookup_insert_ne by done |]. exists st'. split; [done |]. unfold level_added in *. rewrite new_of_cons, decide_False by lia. done.
Qed.

Lemma apply_deleted_ok ds : ∀ ls, Forall (λ p, 0 <= p.1 < Z.of_nat (length ls)) ds ->
  ∃ ls', apply_deleted ds ls = Some ls' /\ length ls' = length ls /\ added_of ls' = added_of ls /\
    ∀ level st, ls !! level = Some st -> ∃ st', ls' !! level = Some st' /\ added_files st' = added_files st /\ deleted_files st' = deleted_files st ∪ deleted_of level ds.
Proof.
  induction ds as [| [lv n] ds IH]; intros ls Hn; cbn [apply_deleted].
  { exists ls. split_and!; try done. intros level st E. exists st. split_and!; try done. unfold deleted_of. cbn. set_solver. }
  apply list.Forall_cons in Hn as [Hlv Hn]. cbn [fst] in Hlv. rewrite get_level_lookup by lia. destruct (lookup_lt_is_Some_2 ls (Z.to_nat lv)) as [st Est]; [lia |]. rewrite Est. cbn [mbind option_bind].
  set (st1 := MkLevelState _ _). assert (added_of (put_level lv st1 ls) = added_of ls) as Ea.
  { unfold added_of, put_level. f_equal. apply list_eq. intros i. rewrite !list_lookup_fmap. destruct (decide (i = Z.to_nat lv)) as [-> | Hne]; [rewrite list_lookup_insert_eq by lia; by rewrite Est | by rewrite list_lookup_insert_ne]. }
  destruct (IH (put_level lv st1 ls)) as (ls' & -> & Hl & Ha & Hls); [unfold put_level; by rewrite length_insert |].
  exists ls'. split; [done |]. unfold put_level in Hl. rewrite length_insert in Hl. split; [done |]. split; [by rewrite Ha |].
  intros level x Ex. unfold put_level in Hls. destruct (decide (level = Z.to_nat lv)) as [-> | Hne].
  - destruct (Hls (Z.to_nat lv) st1) as (st' & E' & Ha' & Hd'); [by rewrite list_lookup_insert_eq by lia |]. exists st'. assert (x = st) as -> by congruence. split_and!; try done.
    rewrite Hd'. unfold deleted_of. rewrite list.filter_cons. cbn [fst]. rewrite decide_True by lia. cbn. set_solver.
  - destruct (Hls level x) as (st' & E' & Ha' & Hd'); [by rewrite list_lookup_insert_ne by done |]. exists st'. split_and!; try done. rewrite Hd'. unfold deleted_of. rewrite list.filter_cons. cbn [fst].
    by rewrite decide_False by lia.
Qed.

(** Compaction pointers: the last one of each level. *)
Fixpoint set_pointers (ps : list (Z * Slice)) (cp : list Slice) : list Slice :=
  match ps with [] => cp | (level, key) :: ps => set_pointers ps (<[Z.to_nat level := key]> cp) end.
Lemma apply_pointers_ok ps : ∀ cp, Forall (λ p, 0 <= p.1 < Z.of_nat (length cp) /\ p.2 <> []) ps -> apply_pointers ndebug ps cp = Some (set_pointers ps cp) /\ length (set_pointers ps cp) = length cp.
Proof.
  induction ps as [| [lv key] ps IH]; intros cp Hp; [done |]. apply list.Forall_cons in Hp as [[Hlv Hk] Hp]. cbn [fst snd] in *. cbn [apply_pointers set_pointers].
  unfold InternalKey_Encode. rewrite assert_bool by (by rewrite bool_decide_false). cbn [mbind option_bind]. rewrite get_level_lookup by lia.
  destruct (lookup_lt_is_Some_2 cp (Z.to_nat lv)) as [x Ex]; [lia |]. rewrite Ex. cbn [mbind option_bind]. unfold put_level.
  destruct (IH (<[Z.to_nat lv := key]> cp)) as [-> Hl]; [by rewrite length_insert |]. rewrite Hl, length_insert. done.
Qed.

(** The edits a builder can take: levels in range, keys that are internal keys. *)
Definition edit_ok (e : VersionEdit) : Prop :=
  Forall (λ p, 0 <= p.1 < kNumLevels /\ valid_ikey valid p.2) (compact_pointers_ e) /\
  Forall (λ p, 0 <= p.1 < kNumLevels) (deleted_files_ e) /\ Forall (λ p, 0 <= p.1 < kNumLevels /\ meta_ok p.2) (new_files_ e).
Lemma ikey_nonempty k : valid_ikey valid k -> k <> [].
Proof. intros (u & n & -> & _) E. apply (f_equal length) in E. rewrite length_ikey in E. cbn in E. lia. Qed.

(** One level of a builder before and after an edit. *)
Definition level_applied (e : VersionEdit) (level : nat) st st' : Prop :=
  sorted_files (added_files st') /\ f_meta <$> added_files st' ≡ₚ (f_meta <$> added_files st) ++ new_of level (new_files_ e) /\
  deleted_files st' = (deleted_files st ∪ deleted_of level (deleted_files_ e)) ∖ list_to_set (numbers (new_of level (new_files_ e))).

Lemma Apply_ok e b cp vs fs o : edit_ok e -> objs_ok vs (added_of (levels_ b) ++ fs) o -> Z.of_nat (length (levels_ b)) = kNumLevels -> Z.of_nat (length cp) = kNumLevels ->
  (∀ level st, levels_ b !! level = Some st -> sorted_files (added_files st)) ->
  (∀ level st, levels_ b !! level = Some st -> base.NoDup (numbers ((f_meta <$> added_files st) ++ new_of level (new_files_ e)))) ->
  ∃ b' o', Apply C ndebug e b cp o = Some (b', set_pointers (compact_pointers_ e) cp, o') /\ base_ b' = base_ b /\ Z.of_nat (length (levels_ b')) = kNumLevels /\
    objs_ok vs (added_of (levels_ b') ++ fs) o' /\ versions_ o' = versions_ o /\
    ∀ level st, levels_ b !! level = Some st -> ∃ st', levels_ b' !! level = Some st' /\ level_applied e level st st'.
Proof.
  intros (Hp & Hd & Hn) Ho Hlen Hcp Hs Hnd. unfold Apply.
  destruct (apply_pointers_ok (compact_pointers_ e) cp) as [-> _].
  { eapply list.Forall_impl; [exact Hp |]. intros [lv k] [? ?]. cbn in *. split; [lia |]. by apply ikey_nonempty. }
  cbn [mbind option_bind]. destruct (apply_deleted_ok (deleted_files_ e) (levels_ b)) as (ls1 & -> & Hl1 & Ha1 & Hls1); [eapply list.Forall_impl; [exact Hd |]; cbn; intros; lia |].
  cbn [mbind option_bind]. assert (∀ level st1, ls1 !! level = Some st1 -> ∃ st, levels_ b !! level = Some st /\ added_files st1 = added_files st /\ deleted_files st1 = deleted_files st ∪ deleted_of level (deleted_files_ e)) as Hback.
  { intros level st1 E1. destruct (lookup_lt_is_Some_2 (levels_ b) level) as [st E]; [rewrite <- Hl1; by apply lookup_lt_Some in E1 |]. destruct (Hls1 _ _ E) as (st1' & E1' & ?). exists st. split; [done |]. congruence. }
  destruct (apply_new_ok (new_files_ e) ls1 vs fs o) as (ls' & o' & -> & Hl' & Ho' & Hv' & Hls').
  - by rewrite Ha1.
  - intros level st1 E1. destruct (Hback _ _ E1) as (st & E & -> & _). by eapply Hs.
  - eapply list.Forall_impl; [exact Hn |]. intros [lv m] [? ?]. cbn in *. split; [lia | done].
  - intros level st1 E1. destruct (Hback _ _ E1) as (st & E & -> & _). by eapply Hnd.
  - cbn [mbind option_bind]. exists (MkBuilder (base_ b) ls'), o'. split; [done |]. cbn [base_ levels_]. split; [done |]. split; [lia |]. split; [done |]. split; [done |].
    intros level st E. destruct (Hls1 _ _ E) as (st1 & E1 & Ea & Ed). destruct (Hls' _ _ E1) as (st' & E' & Hs' & Hp' & Hd'). exists st'. split; [done |]. split; [done |]. by rewrite Hp', Ea, Hd', Ed.
Qed.

(** ** [SaveTo] *)
Definition saved_level st files : list File := kept (deleted_files st) (merge (C := C) files (added_files st)).
Definition saved ls (base : list (list File)) : list (list File) := zip_with saved_level ls base.

Lemma save_levels_ok ls : ∀ base level fs o, length ls = length base ->
  (∀ i st files, ls !! i = Some st -> base !! i = Some files -> Forall file_ok (files ++ added_files st) /\ linked (C := C) ndebug (level + Z.of_nat i) (saved_level st files)) ->
  counted (files_heap o) fs -> concat base ++ added_of ls ⊆ fs ->
  ∃ o', save_levels C ndebug level ls base o = Some (saved ls base, o') /\ same_versions o o' /\ counted (files_heap o') (concat (saved ls base) ++ fs).
Proof.
  induction ls as [| st ls IH]; intros [| files base] level fs o Hlen Hok Hc Hin; try done; cbn [save_levels]; [by exists o |].
  destruct (Hok 0%nat st files eq_refl eq_refl) as [Ho Hl]. rewrite Z.add_0_r in Hl. unfold saved_level in Hl.
  destruct (save_loop_ok (C := C) (valid := valid) ndebug level (deleted_files st) (added_files st) files [] fs o) as (o1 & -> & Hv1 & Hc1).
  - done.
  - done.
  - done.
  - intros f Hf. apply Hin. unfold added_of. cbn. set_solver.
  - cbn [mbind option_bind app]. cbn [app] in Hc1. fold (saved_level st files) in *.
    assert ((if negb ndebug && (0 <? level) then check_overlap C ndebug (saved_level st files) else Some tt) = Some tt) as ->.
    { destruct (negb ndebug && (0 <? level)) eqn:En; [| done]. apply (check_overlap_ok (valid := valid) ndebug level); [done | | done]. apply kept_ok. by rewrite merge_perm. }
    cbn [mbind option_bind]. destruct (IH base (level + 1) (saved_level st files ++ fs) o1) as (o2 & -> & Hv2 & Hc2).
    + by injection Hlen.
    + intros i st' files' E E'. destruct (Hok (S i) st' files' E E') as [? Hl']. split; [done |]. replace (level + 1 + Z.of_nat i) with (level + Z.of_nat (S i)) by lia. done.
    + done.
    + intros f Hf. apply elem_of_app. right. apply Hin. unfold added_of in *. cbn. set_solver.
    + cbn [mbind option_bind]. exists o2. split; [done |]. split; [by eapply same_versions_trans |]. unfold saved in *. cbn. eapply counted_perm; [| exact Hc2].
      rewrite <- app_assoc. apply Permutation_app_swap_app.
Qed.

(** The files of a level: sorted, and those with a property. *)
Definition level_files_are (files : list File) (P : FileMetaData -> Prop) : Prop := sorted_files files /\ ∀ m, m ∈ f_meta <$> files <-> P m.

Lemma saved_level_files st files : sorted_files files -> sorted_files (added_files st) -> distinct (files ++ added_files st) ->
  level_files_are (saved_level st files) (λ m, (m ∈ f_meta <$> files \/ m ∈ f_meta <$> added_files st) /\ number m ∉ deleted_files st).
Proof.
  intros Hf Ha Hd. pose proof (merge_sorted files (added_files st) Hf Ha Hd) as [Hs Ho]. split.
  - split; [| by apply kept_ok]. clear Ho. unfold saved_level, kept. induction Hs as [| f l Hs IH Hlt]; [apply SSorted_nil |]. rewrite list.filter_cons. case_decide; [| done].
    apply SSorted_cons; [done |]. rewrite list.Forall_forall in *. intros g Hg. apply list_elem_of_filter in Hg as [_ Hg]. by apply Hlt.
  - intros m. unfold saved_level, kept. rewrite !list_elem_of_fmap. setoid_rewrite list_elem_of_filter. setoid_rewrite merge_perm. setoid_rewrite elem_of_app. split.
    + intros (f & -> & Hn & [Hin | Hin]); (split; [| done]); [left | right]; by exists f.
    + intros [[(f & -> & Hin) | (f & -> & Hin)] Hn]; exists f; auto.
Qed.
End Apply.
