(* ===== verification/Manifest.v ===== *)
(** * Manifests: what a sequence of edits means, and that a builder makes it of a batch of them

    [DbState] is the abstract state of a version set, and [edit_state] the reference for an edit: it takes the deleted files of a level away,
    and puts the new ones in their place.  A builder that is given any number of edits saves the state after all of them. *)
From stdpp Require Import sorting.
From S2P Require Import Prelude Status Coding Comparator VersionEdit DbOptions Version VersionFacts.
From S2P Require Import VersionSet VersionSetFacts.

Record DbState := MkDbState {
  st_levels : list (list FileMetaData); st_pointers : list Slice;
  st_log : option Z; st_prev : option Z; st_next : option Z; st_last : option Z
}.
Definition init_state : DbState := MkDbState (replicate (Z.to_nat kNumLevels) []) (replicate (Z.to_nat kNumLevels) []) None None None None.

Section State.
Context {C : Comparator}.
Implicit Types (m : FileMetaData) (ms : list FileMetaData) (e : VersionEdit) (st : DbState).

Fixpoint insert_meta m ms : list FileMetaData :=
  match ms with
  | [] => [m]
  | m' :: ms' => if bool_decide (meta_lt (C := C) m m') then m :: ms else m' :: insert_meta m ms'
  end.
(** A level after an edit. *)
Definition edit_level e (level : nat) ms : list FileMetaData :=
  foldr insert_meta (filter (λ m, number m ∉ deleted_of level (deleted_files_ e)) ms) (new_of level (new_files_ e)).
Definition edit_levels e (levels : list (list FileMetaData)) : list (list FileMetaData) := imap (edit_level e) levels.
Definition edit_state e st : DbState :=
  MkDbState (edit_levels e (st_levels st)) (set_pointers (compact_pointers_ e) (st_pointers st))
    (update_number (log_number_ e) (st_log st)) (update_number (prev_log_number_ e) (st_prev st))
    (update_number (next_file_number_ e) (st_next st)) (update_number (last_sequence_ e) (st_last st)).
(** The state after a sequence of edits. *)
Definition replay (es : list VersionEdit) st : DbState := foldl (λ st e, edit_state e st) st es.
End State.

(** ** Levels *)
Section Levels.
Context {C : Comparator} {valid : Slice -> Prop} `{!ComparatorLaws C valid}.
Implicit Types (m : FileMetaData) (ms : list FileMetaData) (e : VersionEdit) (es : list VersionEdit) (files : list File) (level : nat).
Local Notation meta_ok := (meta_ok (valid := valid)).
Local Notation meta_lt := (meta_lt (C := C)).
Local Notation edit_level := (edit_level (C := C)).

Definition sorted_metas ms : Prop := StronglySorted meta_lt ms /\ Forall meta_ok ms.

Lemma meta_lt_trans m1 m2 m3 : meta_ok m1 -> meta_ok m2 -> meta_ok m3 -> meta_lt m1 m2 -> meta_lt m2 m3 -> meta_lt m1 m3.
Proof. exact (file_lt_trans (C := C) (valid := valid) (MkFile 0 m1) (MkFile 0 m2) (MkFile 0 m3)). Qed.
Lemma meta_lt_irrefl m : meta_ok m -> ~ meta_lt m m.
Proof. exact (file_lt_irrefl (C := C) (valid := valid) (MkFile 0 m)). Qed.
Lemma meta_lt_total m1 m2 : meta_ok m1 -> meta_ok m2 -> number m1 <> number m2 -> ~ meta_lt m1 m2 -> meta_lt m2 m1.
Proof. exact (file_lt_total (C := C) (valid := valid) (MkFile 0 m1) (MkFile 0 m2)). Qed.

Lemma sorted_metas_unique ms ms' : sorted_metas ms -> sorted_metas ms' -> (∀ m, m ∈ ms <-> m ∈ ms') -> ms = ms'.
Proof. intros [Hs Ho] [Hs' _] Hin. apply (sorted_unique meta_lt meta_ok); try done; [apply meta_lt_irrefl | apply meta_lt_trans]. Qed.
Lemma sorted_files_metas files : sorted_files (C := C) (valid := valid) files <-> sorted_metas (f_meta <$> files).
Proof.
  unfold sorted_files, sorted_metas. rewrite list.Forall_fmap. apply and_iff_compat_r. induction files as [| f files IH]; [split; intros; apply SSorted_nil |]. cbn [fmap list_fmap]. split.
  - intros [Hs Hf]%StronglySorted_inv. apply SSorted_cons; [by apply IH | by apply list.Forall_fmap].
  - intros [Hs Hf]%StronglySorted_inv. apply SSorted_cons; [by apply IH | apply (list.Forall_fmap f_meta) in Hf; exact Hf].
Qed.
Lemma sorted_metas_filter (P : FileMetaData -> Prop) `{!∀ m, Decision (P m)} ms : sorted_metas ms -> sorted_metas (filter P ms).
Proof.
  intros [Hs Ho]. split; [| rewrite list.Forall_forall in *; intros m [_ Hm]%list_elem_of_filter; by apply Ho]. induction Hs as [| m ms Hs IH Hm]; [apply SSorted_nil |].
  apply list.Forall_cons in Ho as [_ Ho]. rewrite list.filter_cons. case_decide; [| by apply IH]. apply SSorted_cons; [by apply IH |]. rewrite list.Forall_forall in *. intros x [_ Hx]%list_elem_of_filter. by apply Hm.
Qed.

Lemma insert_meta_perm m ms : insert_meta (C := C) m ms ≡ₚ m :: ms.
Proof. induction ms as [| m' ms IH]; [done |]. cbn. case_bool_decide; [done |]. rewrite IH. apply Permutation_swap. Qed.
Lemma insert_meta_sorted m ms : sorted_metas ms -> meta_ok m -> number m ∉ numbers ms -> sorted_metas (insert_meta (C := C) m ms).
Proof.
  intros [Hs Ho] Hm Hn. split; [| rewrite insert_meta_perm; by apply Forall_cons_2]. induction Hs as [| m' ms Hs IH Hlt]; cbn [insert_meta]; [repeat constructor |].
  apply list.Forall_cons in Ho as [Hm' Ho]. unfold numbers in Hn. cbn [fmap list_fmap] in Hn. apply not_elem_of_cons in Hn as [Hne Hn]. case_bool_decide as Hlt'.
  - apply SSorted_cons; [by apply SSorted_cons |]. apply Forall_cons_2; [done |]. rewrite list.Forall_forall in *. intros x Hx. apply (meta_lt_trans m m' x); auto.
  - apply SSorted_cons; [by apply IH |]. rewrite insert_meta_perm. apply Forall_cons_2; [by apply meta_lt_total | done].
Qed.

Lemma edit_level_ok e level ms : sorted_metas ms -> Forall meta_ok (new_of level (new_files_ e)) -> base.NoDup (numbers (ms ++ new_of level (new_files_ e))) ->
  sorted_metas (edit_level e level ms) /\
  ∀ m, m ∈ edit_level e level ms <-> (m ∈ ms /\ number m ∉ deleted_of level (deleted_files_ e)) \/ m ∈ new_of level (new_files_ e).
Proof.
  intros Hs Ho Hd. unfold Manifest.edit_level. assert (sorted_metas (filter (λ m, number m ∉ deleted_of level (deleted_files_ e)) ms)) as Hk by by apply sorted_metas_filter.
  assert (∀ m, m ∈ ms /\ number m ∉ deleted_of level (deleted_files_ e) <-> m ∈ filter (λ m, number m ∉ deleted_of level (deleted_files_ e)) ms) as Hin by (intros m; rewrite list_elem_of_filter; tauto).
  assert (base.NoDup (numbers (filter (λ m, number m ∉ deleted_of level (deleted_files_ e)) ms ++ new_of level (new_files_ e)))) as Hd'.
  { unfold numbers in *. rewrite fmap_app in *. apply list.NoDup_app in Hd as (Hd1 & Hd2 & Hd3). apply list.NoDup_app. split; [| split; [| done]].
    - clear -Hd1. induction ms as [| m ms IH]; [done |]. rewrite list.filter_cons. cbn [fmap list_fmap] in Hd1. apply list.NoDup_cons in Hd1 as [Hn Hd1]. case_decide; [| by apply IH].
      cbn [fmap list_fmap]. apply list.NoDup_cons. split; [| by apply IH]. intros Hx. apply Hn. apply list_elem_of_fmap in Hx as (y & -> & Hy). apply list_elem_of_filter in Hy as [_ Hy]. by apply list_elem_of_fmap_2.
    - intros n Hx. apply Hd2. apply list_elem_of_fmap in Hx as (y & -> & Hy). apply list_elem_of_filter in Hy as [_ Hy]. by apply list_elem_of_fmap_2. }
  setoid_rewrite Hin. set (k := filter _ ms) in *. clearbody k. clear Hin Hd Hs ms.
  induction (new_of level (new_files_ e)) as [| m ns IH]; cbn [foldr]; [split; [done |]; intros m; rewrite elem_of_nil; tauto |].
  apply list.Forall_cons in Ho as [Hm Ho]. unfold numbers in Hd'. rewrite fmap_app in Hd'. cbn [fmap list_fmap] in Hd'. apply list.NoDup_app in Hd' as (Hd1 & Hd2 & Hd3). apply list.NoDup_cons in Hd3 as [Hnn Hd3].
  destruct IH as [Hs Hin]; [done | unfold numbers; rewrite fmap_app; apply list.NoDup_app; split_and!; try done; intros n Hx Hn; apply (Hd2 n Hx); by right |].
  split.
  - apply insert_meta_sorted; [done | done |]. intros Hx. unfold numbers in Hx. apply list_elem_of_fmap in Hx as (y & Ey & Hy). apply Hin in Hy as [Hy | Hy].
    + apply (Hd2 (number m)); [rewrite Ey; by apply list_elem_of_fmap_2 | by left].
    + apply Hnn. rewrite Ey. by apply list_elem_of_fmap_2.
  - intros x. rewrite insert_meta_perm, !elem_of_cons, Hin. tauto.
Qed.

(** ** Batches *)
Definition all_new level es : list FileMetaData := es ≫= (λ e, new_of level (new_files_ e)).
Definition replay_level level es ms : list FileMetaData := foldl (λ ms e, edit_level e level ms) ms es.
Lemma all_new_snoc level es e : all_new level (es ++ [e]) = all_new level es ++ new_of level (new_files_ e).
Proof. unfold all_new. rewrite bind_app. cbn. by rewrite app_nil_r. Qed.
Lemma replay_level_snoc level es e ms : replay_level level (es ++ [e]) ms = edit_level e level (replay_level level es ms).
Proof. unfold replay_level. by rewrite foldl_app. Qed.
Lemma replay_levels es st level : st_levels (replay (C := C) es st) !! level = replay_level level es <$> st_levels st !! level.
Proof.
  revert st. induction es as [| e es IH]; intros st; cbn [replay foldl]; [by destruct (st_levels st !! level) |]. unfold replay in *. rewrite IH. cbn [edit_state st_levels]. unfold edit_levels.
  rewrite list_lookup_imap. by destruct (st_levels st !! level).
Qed.

(** A level of a builder after a batch of edits over the files [ms]. *)
Definition batch level es ms (st : LevelState) : Prop :=
  sorted_files (C := C) (valid := valid) (added_files st) /\ f_meta <$> added_files st ≡ₚ all_new level es /\
  sorted_metas (replay_level level es ms) /\
  ∀ m, m ∈ replay_level level es ms <-> (m ∈ ms \/ m ∈ all_new level es) /\ number m ∉ deleted_files st.

Lemma batch_step level es e ms st st' : base.NoDup (numbers (ms ++ all_new level (es ++ [e]))) -> Forall meta_ok (new_of level (new_files_ e)) ->
  batch level es ms st -> level_applied (C := C) (valid := valid) e level st st' -> batch level (es ++ [e]) ms st'.
Proof.
  intros Hd Ho (Hs & Hp & Hsr & Hin) (Hs' & Hp' & Hd'). rewrite all_new_snoc in Hd.
  destruct (edit_level_ok e level (replay_level level es ms)) as [Hse Hie]; [done | done | |].
  { unfold numbers in *. rewrite app_assoc, !fmap_app in *. apply list.NoDup_app in Hd as (Hd1 & Hd2 & Hd3). apply list.NoDup_app. split; [| split; [| done]].
    - assert (∀ x y, x ∈ replay_level level es ms -> y ∈ replay_level level es ms -> number x = number y -> x = y) as Hinj.
      { intros x y Hx Hy E. apply Hin in Hx as [Hx _], Hy as [Hy _]. rewrite <- fmap_app in Hd1. apply elem_of_app in Hx, Hy. apply list_elem_of_lookup in Hx as [i Ei], Hy as [j Ej].
        assert (i = j) as ->; [| congruence]. eapply (NoDup_lookup _ i j (number x) Hd1); rewrite list_lookup_fmap; [by rewrite Ei | rewrite Ej; cbn; congruence]. }
      destruct Hsr as [Hsr Hor]. clear -ComparatorLaws0 Hsr Hor Hinj. rename Hsr into Hsr'. induction Hsr' as [| x l Hs IH Hx]; [apply NoDup_nil_2 |]. cbn [fmap list_fmap]. apply list.Forall_cons in Hor as [Hxo Hor]. apply list.NoDup_cons. split.
      + intros Hn. apply list_elem_of_fmap in Hn as (y & E & Hy). assert (x = y) as <- by (apply Hinj; [by left | by right | done]). rewrite list.Forall_forall in Hx. apply (meta_lt_irrefl x); auto.
      + apply IH; [done |]. intros y z Hy Hz. apply Hinj; by right.
    - intros n Hx. apply Hd2. apply list_elem_of_fmap in Hx as (y & -> & Hy). rewrite <- fmap_app. apply list_elem_of_fmap_2, elem_of_app. apply Hin in Hy as [? _]. done. }
  split; [done |]. rewrite replay_level_snoc, all_new_snoc. split; [by rewrite Hp', Hp |]. split; [done |]. intros m. rewrite Hie, Hin, Hd', elem_of_app.
  rewrite elem_of_difference, elem_of_union, elem_of_list_to_set.
  assert (m ∈ ms \/ m ∈ all_new level es -> number m ∉ numbers (new_of level (new_files_ e))) as Hfresh.
  { intros Hm Hn. unfold numbers in *. rewrite app_assoc, fmap_app in Hd. apply list.NoDup_app in Hd as (_ & Hd2 & _). apply (Hd2 (number m)); [| done]. by apply list_elem_of_fmap_2, elem_of_app. }
  assert (m ∈ new_of level (new_files_ e) -> number m ∈ numbers (new_of level (new_files_ e))) as Hnew by (intros Hm; by apply list_elem_of_fmap_2).
  tauto.
Qed.

(** The files a builder saves. *)
Lemma batch_saved level es files st : sorted_files (C := C) (valid := valid) files -> base.NoDup (numbers ((f_meta <$> files) ++ all_new level es)) ->
  batch level es (f_meta <$> files) st -> f_meta <$> saved_level (C := C) st files = replay_level level es (f_meta <$> files) /\ sorted_files (C := C) (valid := valid) (saved_level (C := C) st files).
Proof.
  intros Hf Hd (Hs & Hp & Hsr & Hin). destruct (saved_level_files st files Hf Hs) as [Hss Hsi].
  { unfold distinct. rewrite fmap_app. unfold numbers in Hd. rewrite <- Hp, fmap_app, <- !list_fmap_compose in Hd. exact Hd. }
  split; [| done]. apply sorted_metas_unique; [by apply sorted_files_metas | done |]. intros m. by rewrite Hsi, Hin, Hp.
Qed.
End Levels.
