(* ===== verification/VersionSetProps.v ===== *)
(** * What the version set promises: edits are applied as specified, objects are never freed in use, and recovery gives the state back *)
From stdpp Require Import sorting.
From S2P Require Import Prelude Status Coding Comparator Log LogFacts LogProps VersionEdit.
From S2P Require Import DbOptions Version VersionFacts Filenames Env VersionSet VersionSetFacts Manifest.

(** ** Saving a version *)
Section Save.
Context {C : Comparator} {valid : Slice -> Prop} `{!ComparatorLaws C valid} (ndebug : bool).
Implicit Types (o : Objects) (v : Version) (files : list File) (e : VersionEdit) (es : list VersionEdit) (b : Builder) (ext : list nat) (fs : list File) (level : nat).
Local Notation meta_ok := (meta_ok (valid := valid)).
Local Notation sorted_files := (sorted_files (C := C) (valid := valid)).
Local Notation batch := (batch (C := C) (valid := valid)).
Local Notation replay_level := (replay_level (C := C)).

(** What the assertions of a debug build ask of a level. *)
Definition meta_before (m1 m2 : FileMetaData) : Prop := InternalKey_Compare C (largest m1) (smallest m2) = Some Lt.
Definition disjoint_level level (ms : list FileMetaData) : Prop := ndebug = true \/ (level = 0)%nat \/ Sorted meta_before ms.
Definition metas (levels : list (list File)) : list (list FileMetaData) := (λ files, f_meta <$> files) <$> levels.

Lemma linked_metas level files : disjoint_level level (f_meta <$> files) -> linked (C := C) ndebug (Z.of_nat level) files.
Proof.
  intros [? | [-> | H]]; [by left | right; by left | right; right]. induction files as [| f files IH]; [constructor |]. cbn [fmap list_fmap] in H. apply Sorted_inv in H as [H Hh].
  constructor; [by apply IH |]. destruct files as [| g files]; [constructor |]. inversion Hh; subst. by constructor.
Qed.
Lemma metas_lookup levels level : metas levels !! level = (λ files, f_meta <$> files) <$> levels !! level.
Proof. apply list_lookup_fmap. Qed.
Lemma find_version_files p v l : find_version p l = Some v -> concat (files_ v) ⊆ files_of l.
Proof. intros E f Hf. rewrite (files_unlink p v l E). apply elem_of_app. by left. Qed.

Lemma elem_of_concat {A} (x : A) ls : x ∈ concat ls <-> ∃ l, x ∈ l /\ l ∈ ls.
Proof.
  induction ls as [| l ls IH]; cbn; [split; [by intros ?%elem_of_nil | intros (l & _ & H); by apply elem_of_nil in H] |]. rewrite elem_of_app, IH. split.
  - intros [H | (l' & H & Hl)]; [exists l; split; [done | by left] | exists l'; split; [done | by right]].
  - intros (l' & H & [-> | Hl]%elem_of_cons); [by left | right; by exists l'].
Qed.

(** Every level of a version is sorted. *)
Definition version_wf v : Prop := Z.of_nat (length (files_ v)) = kNumLevels /\ ∀ level files, files_ v !! level = Some files -> sorted_files files.
Definition builder_ok es b v : Prop :=
  Z.of_nat (length (levels_ b)) = kNumLevels /\ ∀ level st files, levels_ b !! level = Some st -> files_ v !! level = Some files -> batch level es (f_meta <$> files) st.
Definition fresh es v : Prop := ∀ level files, files_ v !! level = Some files -> base.NoDup (numbers ((f_meta <$> files) ++ all_new level es)).

Lemma same_files_find o o' ext p v : (∀ q, q ∈ ext -> files_ <$> find_version q (versions_ o') = files_ <$> find_version q (versions_ o)) -> p ∈ ext ->
  find_version p (versions_ o) = Some v -> ∃ v', find_version p (versions_ o') = Some v' /\ files_ v' = files_ v.
Proof. intros H Hp E. specialize (H p Hp). rewrite E in H. cbn in H. destruct (find_version p (versions_ o')) as [v' |]; [| done]. exists v'. split; [done |]. by injection H. Qed.

Lemma added_nil n : added_of (replicate n (MkLevelState ∅ [])) = [].
Proof. unfold added_of. induction n; cbn; auto. Qed.
Lemma new_Builder_ok p ext fs o v : objs_ok ext fs o -> p ∈ ext -> find_version p (versions_ o) = Some v -> version_wf v ->
  ∃ b o', new_Builder p o = Some (b, o') /\ base_ b = p /\ objs_ok (p :: ext) (added_of (levels_ b) ++ fs) o' /\ builder_ok [] b v /\
    (∀ q, q ∈ p :: ext -> files_ <$> find_version q (versions_ o') = files_ <$> find_version q (versions_ o)).
Proof.
  intros Ho Hp Ev [Hlen Hs]. unfold new_Builder. destruct (Version_Ref_ok p ext fs o Ho Hp) as (o' & -> & Ho' & _ & _ & Hf). cbn [mbind option_bind].
  eexists _, o'. split; [done |]. cbn [base_ levels_]. split; [done |]. rewrite added_nil. split; [done |]. split; [| intros q _; apply Hf]. split; [done |].
  intros level st files Est Ef. apply lookup_replicate in Est as [-> _]. split; [split; [apply SSorted_nil | apply Forall_nil_2] |]. split; [done |]. cbn [foldl replay_level].
  split; [by apply sorted_files_metas, Hs with level |]. intros m. unfold Manifest.replay_level. cbn. rewrite elem_of_nil, elem_of_empty. tauto.
Qed.

(** An edit given to a builder. *)
Lemma builder_Apply es e b v ext fs cp o : edit_ok (valid := valid) e -> objs_ok ext (added_of (levels_ b) ++ fs) o -> builder_ok es b v -> version_wf v -> Z.of_nat (length cp) = kNumLevels ->
  fresh (es ++ [e]) v ->
  ∃ b' o', Apply C ndebug e b cp o = Some (b', set_pointers (compact_pointers_ e) cp, o') /\ base_ b' = base_ b /\ objs_ok ext (added_of (levels_ b') ++ fs) o' /\
    versions_ o' = versions_ o /\ builder_ok (es ++ [e]) b' v.
Proof.
  intros He Ho [Hlen Hb] [Hlv Hs] Hcp Hfr.
  assert (∀ level st, levels_ b !! level = Some st -> ∃ files, files_ v !! level = Some files) as Hfiles by (intros level st E; apply lookup_lt_is_Some_2; apply lookup_lt_Some in E; lia).
  destruct (Apply_ok (C := C) ndebug e b cp ext fs o) as (b' & o' & E & Eb & Hlen' & Ho' & Hv' & Hls); try done.
  - intros level st E. destruct (Hfiles level st E) as [files Ef]. by destruct (Hb level st files E Ef) as [? _].
  - intros level st E. destruct (Hfiles level st E) as [files Ef]. destruct (Hb level st files E Ef) as (_ & Hp & _). specialize (Hfr level files Ef). rewrite all_new_snoc in Hfr.
    unfold numbers in *. rewrite fmap_app in Hfr. apply list.NoDup_app in Hfr as (_ & _ & Hfr). rewrite fmap_app in *. by rewrite Hp.
  - exists b', o'. do 4 (split; [done |]). split; [done |]. intros level st' files E' Ef. destruct (lookup_lt_is_Some_2 (levels_ b) level) as [st Est]; [apply lookup_lt_Some in E'; lia |].
    destruct (Hls level st Est) as (st2 & E2 & Happ). assert (st2 = st') as -> by congruence. eapply batch_step; [by apply Hfr | | by apply Hb | exact Happ].
    destruct He as (_ & _ & Hn). unfold new_of. rewrite list.Forall_fmap. apply list.Forall_forall. intros p [_ Hp]%list_elem_of_filter. rewrite list.Forall_forall in Hn. by destruct (Hn p Hp).
Qed.

Lemma zip_with_lookup_metas (ls : list LevelState) (base : list (list File)) es :
  length ls = length base -> (∀ level st files, ls !! level = Some st -> base !! level = Some files -> f_meta <$> saved_level (C := C) st files = replay_level level es (f_meta <$> files)) ->
  metas (saved (C := C) ls base) = imap (λ level ms, replay_level level es ms) (metas base).
Proof.
  intros Hlen H. apply list_eq. intros level. rewrite metas_lookup, list_lookup_imap, metas_lookup. unfold saved. rewrite lookup_zip_with.
  destruct (base !! level) as [files |] eqn:Ef; cbn.
  - destruct (lookup_lt_is_Some_2 ls level) as [st Est]; [apply lookup_lt_Some in Ef; lia |]. rewrite Est. cbn. by rewrite (H level st files).
  - destruct (ls !! level); done.
Qed.

Lemma SaveTo_ok es b v ext fs o : objs_ok ext (added_of (levels_ b) ++ fs) o -> find_version (base_ b) (versions_ o) = Some v -> version_wf v -> builder_ok es b v -> fresh es v ->
  (∀ level files, files_ v !! level = Some files -> disjoint_level level (replay_level level es (f_meta <$> files))) ->
  ∃ F o', SaveTo C ndebug b new_Version o = Some (set_files F new_Version, o') /\ metas F = imap (λ level ms, replay_level level es ms) (metas (files_ v)) /\
    version_wf (set_files F new_Version) /\ objs_ok ext (concat F ++ added_of (levels_ b) ++ fs) o' /\ versions_ o' = versions_ o.
Proof.
  intros Ho Ev [Hlv Hs] [Hlen Hb] Hfr Hdis. unfold SaveTo. rewrite Ev. cbn [mbind option_bind]. destruct Ho as [H1 H2 H3 H4 H5].
  assert (∀ level st files, levels_ b !! level = Some st -> files_ v !! level = Some files ->
    f_meta <$> saved_level (C := C) st files = replay_level level es (f_meta <$> files) /\ sorted_files (saved_level (C := C) st files)) as Hsaved.
  { intros level st files Est Ef. apply batch_saved; [by eapply Hs | by apply Hfr | by apply Hb]. }
  assert (length (levels_ b) = length (files_ v)) as Hll by lia.
  destruct (save_levels_ok (C := C) ndebug (levels_ b) (files_ v) 0 (files_of (versions_ o) ++ added_of (levels_ b) ++ fs) o Hll) as (o' & -> & [Ev' En'] & Hc).
  - intros level st files Est Ef. destruct (Hsaved level st files Est Ef) as [Em [_ Hso]]. split.
    + apply list.Forall_app. split; [by apply (Hs level files Ef) |]. by destruct (Hb level st files Est Ef) as [[_ ?] _].
    + rewrite Z.add_0_l. apply linked_metas. rewrite Em. by apply Hdis.
  - done.
  - intros f Hf. apply elem_of_app in Hf as [Hf | Hf]; apply elem_of_app; [left; by apply (find_version_files _ _ _ Ev) | right; apply elem_of_app; by left].
  - cbn [mbind option_bind]. exists (saved (C := C) (levels_ b) (files_ v)), o'. split; [done |]. split; [apply zip_with_lookup_metas; [done |]; intros; by apply Hsaved |]. split; [split; cbn |].
    + unfold saved. rewrite length_zip_with. lia.
    + intros level files Ef. unfold saved in Ef. apply lookup_zip_with_Some in Ef as (st & files' & -> & Est & Ef'). by apply Hsaved with level.
    + split; [| done]. split; try (rewrite Ev'; done).
      * rewrite Ev'. eapply counted_perm; [| exact Hc]. apply Permutation_app_swap_app.
      * intros p Hp. rewrite Ev', En' in *. destruct (H5 p Hp) as [Hh Hf]. split; [| done]. destruct (files_heap o' !! p) as [[r s] |] eqn:Eh; [| done].
        destruct Hc as [Hc1 Hc2]. specialize (Hc2 p r s Eh). specialize (Hc1 p). unfold refs_of in Hc1. rewrite Eh in Hc1. destruct H4 as [H4 _]. specialize (H4 p). unfold refs_of in H4. rewrite Hh in H4.
        assert (∀ f, f ∈ concat (saved (C := C) (levels_ b) (files_ v)) -> f ∈ files_of (versions_ o) ++ added_of (levels_ b) ++ fs) as Hsub.
        { intros f Hf'. apply elem_of_concat in Hf' as (l & Hfl & Hl). apply list_elem_of_lookup in Hl as [i Ei]. unfold saved in Ei. apply lookup_zip_with_Some in Ei as (st & files' & -> & Est & Ef').
          unfold saved_level, kept in Hfl. apply list_elem_of_filter in Hfl as [_ Hfl]. rewrite merge_perm in Hfl. apply elem_of_app in Hfl as [Hfl | Hfl]; apply elem_of_app.
          - left. apply (find_version_files _ _ _ Ev). apply elem_of_concat. exists files'. split; [done | by eapply list_elem_of_lookup_2].
          - right. apply elem_of_app. left. unfold added_of. apply elem_of_concat. exists (added_files st). split; [done |]. by eapply list_elem_of_fmap_2, list_elem_of_lookup_2. }
        assert (0 < cnt p (concat (saved (C := C) (levels_ b) (files_ v)))) as Hpos by (rewrite cnt_app in Hc1; lia).
        unfold cnt in Hpos. destruct (filter (λ f, f_ptr f = p) (concat (saved (C := C) (levels_ b) (files_ v)))) as [| f l] eqn:Efl; [cbn in Hpos; lia |].
        assert (f ∈ filter (λ f, f_ptr f = p) (concat (saved (C := C) (levels_ b) (files_ v)))) as Hin by (rewrite Efl; by left). apply list_elem_of_filter in Hin as [<- Hin].
        pose proof (cnt_in f _ (Hsub f Hin)). lia.
Qed.
End Save.

(** ** Versions of the set *)
Section Versions.
Context {C : Comparator} {valid : Slice -> Prop} `{!ComparatorLaws C valid} (ndebug : bool) {H : Type}.
Implicit Types (o : Objects) (v : Version) (e : VersionEdit) (ext : list nat) (fs : list File) (level : nat) (vs : VersionSet H).
Local Notation sorted_files := (sorted_files (C := C) (valid := valid)).
Local Notation version_wf := (version_wf (C := C) (valid := valid)).
Local Notation edit_ok := (edit_ok (valid := valid)).

(** [ext] are references to versions besides [current_], [fs] references to files besides those of the versions. *)
Record set_ok ext fs vs v : Prop := {
  so_objects : objs_ok (current_ vs :: ext) fs (objects vs);
  so_current : current_version vs = Some v;
  so_version : version_wf v;
  so_pointers : Z.of_nat (length (compact_pointer_ vs)) = kNumLevels
}.
(** The edit fits the version: its new files have new numbers, and the levels it makes pass the assertions of a debug build. *)
Definition edit_fits e v : Prop :=
  edit_ok e /\ (∀ level files, files_ v !! level = Some files -> base.NoDup (numbers ((f_meta <$> files) ++ new_of level (new_files_ e)))) /\
  (∀ level files, files_ v !! level = Some files -> disjoint_level (C := C) ndebug level (edit_level (C := C) e level (f_meta <$> files))).

Definition keeps ext o o' : Prop := ∀ q, q ∈ ext -> files_ <$> find_version q (versions_ o') = files_ <$> find_version q (versions_ o).
Lemma keeps_trans ext o o1 o2 : keeps ext o o1 -> keeps ext o1 o2 -> keeps ext o o2.
Proof. intros H1 H2 q Hq. by rewrite H2, H1. Qed.
Lemma keeps_same ext o o' : versions_ o' = versions_ o -> keeps ext o o'.
Proof. intros E q _. by rewrite E. Qed.
Lemma keeps_sub ext ext' o o' : ext' ⊆ ext -> keeps ext o o' -> keeps ext' o o'.
Proof. intros Hs H1 q Hq. by apply H1, Hs. Qed.

(** References to files that nothing else counts. *)
Lemma unref_extra_ok checked files ext fs o : objs_ok ext (files ++ fs) o ->
  ∃ o', unref_files ndebug checked files o = Some o' /\ objs_ok ext fs o' /\ versions_ o' = versions_ o /\ next_object o' = next_object o.
Proof.
  intros [H1 H2 H3 H4 H5].
  destruct (unref_files_ok ndebug checked files (files_of (versions_ o) ++ fs) o) as (o1 & -> & [Ev En] & Hc).
  { eapply counted_perm; [| exact H4]. apply Permutation_app_swap_app. }
  exists o1. split; [done |]. split; [| done].
  split; try (rewrite Ev; done). intros p Hp. rewrite Ev, En in *. destruct (H5 p Hp) as [Hh Hf]. split; [| done]. destruct (files_heap o1 !! p) as [[r s] |] eqn:Eh; [| done].
  destruct Hc as [Hc1 Hc2]. specialize (Hc2 p r s Eh). specialize (Hc1 p). unfold refs_of in Hc1. rewrite Eh in Hc1. destruct H4 as [H4 _]. specialize (H4 p). unfold refs_of in H4. rewrite Hh in H4.
  rewrite !cnt_app in *. pose proof (cnt_nonneg p files). lia.
Qed.
Lemma delete_Builder_ok b ext fs o : objs_ok (base_ b :: ext) (added_of (levels_ b) ++ fs) o ->
  ∃ o', delete_Builder ndebug b o = Some o' /\ objs_ok ext fs o' /\ keeps ext o o' /\ next_object o' = next_object o.
Proof.
  intros Ho. unfold delete_Builder. fold (added_of (levels_ b)).
  destruct (unref_extra_ok false _ _ _ _ Ho) as (o1 & -> & Ho1 & Ev & En). cbn [mbind option_bind].
  destruct (Version_Unref_ok ndebug (base_ b) ext fs o1 Ho1) as (o2 & -> & Ho2 & En2 & Hk). exists o2. split; [done |]. split; [done |]. split; [| congruence].
  intros q Hq. by rewrite Hk, Ev.
Qed.

Lemma replay_one (e : VersionEdit) ms : imap (λ level ms, replay_level (C := C) level [e] ms) ms = edit_levels (C := C) e ms.
Proof. done. Qed.

Lemma build_version_ok e ext fs vs v0 : set_ok ext fs vs v0 -> edit_fits e v0 ->
  ∃ F o', build_version C ndebug e vs = Some (set_files F new_Version, set_compact_pointer (set_pointers (compact_pointers_ e) (compact_pointer_ vs)) (set_objects o' (current_ vs) vs)) /\
    metas F = edit_levels (C := C) e (metas (files_ v0)) /\ version_wf (set_files F new_Version) /\
    objs_ok (current_ vs :: ext) (concat F ++ fs) o' /\ keeps (current_ vs :: ext) (objects vs) o'.
Proof.
  intros [Ho Ev Hv Hcp] (He & Hfr & Hdis). unfold build_version, current_version in *.
  destruct (new_Builder_ok (current_ vs) (current_ vs :: ext) fs (objects vs) v0 Ho ltac:(by left) Ev Hv) as (b & o1 & -> & Eb & Ho1 & Hb & Hk1). cbn [mbind option_bind].
  assert (fresh [e] v0) as Hfr' by (intros level files Ef; unfold all_new; cbn; rewrite app_nil_r; by apply Hfr).
  destruct (builder_Apply (C := C) ndebug [] e b v0 (current_ vs :: current_ vs :: ext) fs (compact_pointer_ vs) o1 He Ho1 Hb Hv Hcp Hfr') as (b2 & o2 & -> & Eb2 & Ho2 & Ev2 & Hb2).
  cbn [mbind option_bind app] in *.
  destruct (same_files_find (objects vs) o1 (current_ vs :: current_ vs :: ext) (current_ vs) v0 Hk1 ltac:(by left) Ev) as (v1 & Ev1 & Ef1).
  assert (∀ P : list (list File) -> Prop, P (files_ v0) -> P (files_ v1)) as Hsame by (intros P HP; by rewrite Ef1).
  assert (version_wf v1) as Hv1 by (unfold VersionSetProps.version_wf; by rewrite Ef1).
  destruct (SaveTo_ok (C := C) ndebug [e] b2 v1 (current_ vs :: current_ vs :: ext) fs o2) as (F & o3 & -> & Em & Hwf & Ho3 & Ev3).
  - done.
  - rewrite Ev2, Eb2, Eb. done.
  - done.
  - destruct Hb2 as [Hl Hb2]. split; [done |]. intros level st files Est Ef. rewrite Ef1 in Ef. by apply Hb2.
  - intros level files Ef. rewrite Ef1 in Ef. by apply Hfr'.
  - intros level files Ef. rewrite Ef1 in Ef. by apply Hdis.
  - cbn [mbind option_bind]. destruct (delete_Builder_ok b2 (current_ vs :: ext) (concat F ++ fs) o3) as (o4 & -> & Ho4 & Hk4 & _).
    { rewrite Eb2, Eb. eapply objs_perm; [done | | exact Ho3]. apply Permutation_app_swap_app. }
    cbn [mbind option_bind]. exists F, o4. split; [done |]. rewrite Em, Ef1, replay_one. split; [done |]. split; [done |]. split; [done |].
    eapply keeps_trans; [eapply keeps_sub; [| exact Hk1]; intros q Hq; by right |]. eapply keeps_trans; [apply keeps_same; transitivity (versions_ o2); [exact Ev3 | exact Ev2] | exact Hk4].
Qed.

Lemma find_version_app p l q v : find_version p (l ++ [(q, v)]) = match find_version p l with Some w => Some w | None => if decide (q = p) then Some v else None end.
Proof. induction l as [| [r w] l IH]; cbn; [done |]. by destruct (decide (r = p)). Qed.
Lemma AppendVersion_ok v ext fs vs : objs_ok (current_ vs :: ext) (concat (files_ v) ++ fs) (objects vs) -> v_refs v = 0 ->
  ∃ o' p, AppendVersion ndebug v vs = Some (set_objects o' p vs) /\ objs_ok (p :: ext) fs o' /\ find_version p (versions_ o') = Some (set_refs 1 v) /\ keeps ext (objects vs) o'.
Proof.
  intros Ho Hr. unfold AppendVersion. rewrite assert_bool by by apply Z.eqb_eq. cbn [mbind option_bind].
  destruct (Version_Unref_ok ndebug (current_ vs) ext _ (objects vs) Ho) as (o1 & -> & Ho1 & En & Hk). cbn [mbind option_bind].
  destruct Ho1 as [H1 H2 H3 H4 H5]. destruct (H5 (next_object o1) (le_n _)) as [Hh Hf].
  eexists _, (next_object o1). split; [done |]. split; [split; cbn |].
  - rewrite fmap_app. apply list.NoDup_app. split; [done |]. split; [| apply NoDup_singleton]. intros p Hp ->%list_elem_of_singleton. apply find_keys in Hp as [w Ew]. cbn [fst] in Ew. congruence.
  - intros p w. rewrite find_version_app. assert (~ next_object o1 ∈ ext) as Hne by (intros Hin; destruct (H3 _ Hin) as [w' Ew']; congruence).
    destruct (find_version p (versions_ o1)) as [w' |] eqn:Ew.
    + intros [= ->]. destruct (H2 p w Ew) as [-> ?]. rewrite vcnt_cons, decide_False; [done |]. intros <-. congruence.
    + destruct (decide (next_object o1 = p)) as [<- |]; [| done]. intros [= <-]. cbn. rewrite vcnt_cons, decide_True by done. rewrite vcnt_in in Hne. unfold vcnt in *. lia.
  - intros p Hp. rewrite find_version_app. destruct (find_version p (versions_ o1)) eqn:Ew; [done |]. apply elem_of_cons in Hp as [-> | Hp]; [by rewrite decide_True |]. destruct (H3 p Hp) as [? E]. congruence.
  - rewrite files_of_app, files_of_cons. change (files_of []) with (@nil File). cbn [snd]. change (files_ (set_refs 1 v)) with (files_ v). rewrite app_nil_r, <- app_assoc. exact H4.
  - intros p Hp. destruct (H5 p ltac:(lia)) as [? E]. split; [done |]. rewrite find_version_app, E, decide_False by lia. done.
  - cbn. rewrite find_version_app, Hf, decide_True by done. split; [done |]. intros q Hq. cbn. rewrite find_version_app. specialize (Hk q Hq). destruct (H3 q Hq) as [w Ew]. rewrite Ew in *. done.
Qed.
(** A new set has one version, without files. *)
Lemma new_version_wf : version_wf new_Version.
Proof. split; [by_compute |]. intros level files [-> _]%lookup_replicate. split; [apply SSorted_nil | apply Forall_nil_2]. Qed.
Lemma new_VersionSet_ok : set_ok [] [] (new_VersionSet (H := H)) (set_refs 1 new_Version).
Proof.
  split; [| done | apply new_version_wf | by_compute]. split; cbn.
  - apply NoDup_singleton.
  - intros [| p] v; cbn; [by intros [= <-] | done].
  - intros p ->%list_elem_of_singleton. done.
  - split; [intros p; unfold refs_of; by rewrite lookup_empty | intros p r s; by rewrite lookup_empty].
  - intros [| p] Hp; [lia |]. split; [apply lookup_empty | done].
Qed.
End Versions.

(** ** The manifest as a log *)
Fixpoint end_block (o : Z) (recs : list Slice) : Z := match recs with [] => o | r :: recs => end_block (end_of o (frags o r)) recs end.
Lemma log_bytes_app o recs recs' : log_bytes o (recs ++ recs') = log_bytes o recs ++ log_bytes (end_block o recs) recs'.
Proof. revert o. induction recs as [| r recs IH]; intros o; cbn; [done |]. by rewrite IH, app_assoc. Qed.
Lemma end_block_app o recs recs' : end_block o (recs ++ recs') = end_block (end_block o recs) recs'.
Proof. revert o. induction recs as [| r recs IH]; intros o; cbn; [done |]. by rewrite IH. Qed.
Lemma end_block_range o recs : 0 <= o <= kBlockSize -> Forall bytes recs -> 0 <= end_block o recs <= kBlockSize.
Proof.
  intros Ho Hb. revert o Ho. induction Hb as [| r recs Hr Hb IH]; intros o Ho; cbn; [done |]. apply IH. by destruct (frags_ok o r Ho Hr) as (_ & _ & ?).
Qed.

Section LogFile.
Context {E H S : Type} `{EnvLaws E H S} (ndebug : bool).
Implicit Types (env : E) (w : Writer H) (f : Slice) (h : H).

(** The file of an open handle, while the other files stay. *)
Lemma handle_laws f h (rest : gmap Slice Slice) : WritableFileLaws (E * H).
Proof.
  refine {| wf_data := λ x : E * H, default [] (contents x.1 !! f); wf_open := λ x : E * H, x.2 = h /\ opened x.1 h f /\ delete f (contents x.1) = rest |}; cbn.
  - intros [env x] d s w'. cbn. destruct (file_Append x d env) as [s' env'] eqn:Ea. intros [= <- <-] (-> & Hop & Hr). cbn.
    destruct (file_Append_ok env h f d s' env' Ea Hop) as [Hk (n & Ec & _)]. split; [done |]. split; [by apply Hk |]. by rewrite Ec, delete_alter_eq.
  - intros [env x] s w'. cbn. destruct (file_Flush x env) as [s' env'] eqn:Ea. intros [= <- <-] (-> & Hop & Hr). cbn.
    destruct (file_same env h f s' env' (or_introl Ea) Hop) as [Ec Hk]. split; [done |]. split; [by apply Hk | by rewrite Ec].
  - intros [env x] d s w'. cbn. destruct (file_Append x d env) as [s' env'] eqn:Ea. intros [= <- <-] (-> & Hop & Hr) Hs. cbn.
    destruct (file_Append_ok env h f d s' env' Ea Hop) as [_ (n & Ec & Hn)]. rewrite Ec, lookup_alter_eq. destruct (opened_exists env h f Hop) as [c E1]. rewrite E1. cbn. by rewrite Hn, firstn_all.
  - intros [env x] d s w'. cbn. destruct (file_Append x d env) as [s' env'] eqn:Ea. intros [= <- <-] (-> & Hop & Hr) Hs. cbn.
    destruct (file_Append_ok env h f d s' env' Ea Hop) as [_ (n & Ec & Hn)]. exists n. rewrite Ec, lookup_alter_eq. destruct (opened_exists env h f Hop) as [c E1]. by rewrite E1.
  - intros [env x] s w'. cbn. destruct (file_Flush x env) as [s' env'] eqn:Ea. intros [= <- <-] (-> & Hop & Hr). cbn.
    destruct (file_same env h f s' env' (or_introl Ea) Hop) as [Ec _]. by rewrite Ec.
Defined.

(** [w] writes the file [f], which holds the log of [recs]. *)
Definition log_open f recs w env : Prop :=
  opened env (dest_ w) f /\ contents env !! f = Some (log_bytes 0 recs) /\ block_offset_ w = end_block 0 recs.

Lemma log_AddRecord_ok f recs r w env : log_open f recs w env -> Forall bytes recs -> bytes r ->
  ∃ s w' env', log_AddRecord ndebug r w env = Some (s, w', env') /\ dest_ w' = dest_ w /\ opened env' (dest_ w) f /\ delete f (contents env') = delete f (contents env) /\
    (if ok s then log_open f (recs ++ [r]) w' env' else ∃ n, contents env' !! f = Some (take n (log_bytes 0 (recs ++ [r])))).
Proof.
  intros (Hop & Hc & Ho) Hb Hr. pose (LW := handle_laws f (dest_ w) (delete f (contents env))). unfold log_AddRecord.
  assert (0 <= end_block 0 recs <= kBlockSize) as Hrange by (apply end_block_range; [by_compute | done]).
  destruct (AddRecord_ok (H0 := LW) ndebug r (MkWriter (env, dest_ w) (block_offset_ w) (offset_ w))) as (s & [[env' h'] bo off] & -> & [(Eh & Hop' & Hrest) Hd] & Hoff).
  { split; [by repeat split | cbn; by rewrite Ho]. }
  { done. }
  cbn [mbind option_bind dest_ block_offset_ offset_ fst snd wf_data LW handle_laws] in *. subst h'. eexists s, _, env'. split; [reflexivity |]. split; [done |]. split; [done |]. split; [done |].
  rewrite Hc in Hd. change (default [] (Some (log_bytes 0 recs))) with (log_bytes 0 recs) in Hd. destruct (opened_exists env' (dest_ w) f Hop') as [c Ec]. rewrite Ec in *. change (default [] (Some c)) with c in Hd. rewrite Ho in *.
  assert (log_bytes 0 (recs ++ [r]) = log_bytes 0 recs ++ enc (end_block 0 recs) (frags (end_block 0 recs) r)) as El by (rewrite log_bytes_app; cbn; by rewrite app_nil_r).
  destruct (ok s).
  - split; [done |]. split; [by rewrite Ec, El, Hd |]. cbn. rewrite end_block_app. cbn. by apply Hoff.
  - destruct Hd as [n ->]. exists (length (log_bytes 0 recs) + n)%nat. by rewrite El, take_app_add.
Qed.
End LogFile.
