(* ===== verification/Logging.v ===== *)
(** * Logging edits in the manifest: [LogAndApply] against the replay of the log

    The manifest is the log of a snapshot and of every edit that was applied since, and replaying it gives the state of the version set. *)
From stdpp Require Import sorting.
From S2P Require Import Prelude Status Coding Comparator Log LogFacts LogProps VersionEdit.
From S2P Require Import DbOptions Version VersionFacts StrUtil Filenames Env VersionSet VersionSetFacts.
From S2P Require Import Manifest VersionSetProps.

(** A list numbered from [n] on. *)
Lemma imap_from {A B} (f : nat -> A -> B) n x (l : list A) : imap (λ i, f (n + i)%nat) (x :: l) = f n x :: imap (λ i, f (S n + i)%nat) l.
Proof. rewrite imap_cons, Nat.add_0_r. f_equal. apply imap_ext. intros i y _. cbn [compose]. by rewrite Nat.add_succ_r. Qed.

(** ** Levels and pointers of a snapshot *)
Section Snapshot.
Context {C : Comparator} {valid : Slice -> Prop} `{!ComparatorLaws C valid}.
Implicit Types (e : VersionEdit) (files : list File) (ms : list FileMetaData) (level : nat).

Lemma foldr_insert_sorted ms : StronglySorted (meta_lt (C := C)) ms -> foldr (insert_meta (C := C)) [] ms = ms.
Proof.
  induction 1 as [| m ms Hs IH Hm]; [done |]. cbn [foldr]. rewrite IH. destruct ms as [| m' ms]; [done |]. cbn [insert_meta].
  apply list.Forall_cons in Hm as [Hm _]. by rewrite bool_decide_true.
Qed.
Lemma edit_level_from e level ms m : m ∈ edit_level (C := C) e level ms -> m ∈ ms \/ m ∈ new_of level (new_files_ e).
Proof.
  unfold edit_level. induction (new_of level (new_files_ e)) as [| n ns IH]; cbn [foldr]; [intros [_ ?]%list_elem_of_filter; by left |].
  rewrite insert_meta_perm, !elem_of_cons. intros [-> | [? | ?]%IH]; tauto.
Qed.
Lemma elem_of_new_of level ns m : m ∈ new_of level ns <-> (Z.of_nat level, m) ∈ ns.
Proof.
  unfold new_of. rewrite list_elem_of_fmap. split.
  - intros ([lv x] & -> & [E Hx]%list_elem_of_filter). cbn in E. by subst.
  - intros Hm. exists (Z.of_nat level, m). split; [done |]. by apply list_elem_of_filter.
Qed.

Definition level_entries (files : list (list File)) : list (Z * FileMetaData) :=
  concat (imap (λ i fs, (λ f, (Z.of_nat i, f_meta f)) <$> fs) files).
Lemma new_of_app level ns ns' : new_of level (ns ++ ns') = new_of level ns ++ new_of level ns'.
Proof. unfold new_of. by rewrite list.filter_app, fmap_app. Qed.
Lemma new_of_same level (fs : list File) : new_of level ((λ f, (Z.of_nat level, f_meta f)) <$> fs) = f_meta <$> fs.
Proof. induction fs as [| f fs IH]; [done |]. cbn [fmap list_fmap]. rewrite new_of_cons, decide_True by done. cbn [app]. by rewrite IH. Qed.
Lemma new_of_other level n (fs : list File) : n <> level -> new_of level ((λ f, (Z.of_nat n, f_meta f)) <$> fs) = [].
Proof. intros Hn. induction fs as [| f fs IH]; [done |]. cbn [fmap list_fmap]. rewrite new_of_cons, decide_False by lia. exact IH. Qed.
Lemma new_of_entries_from n (files : list (list File)) level :
  new_of level (concat (imap (λ i fs, (λ f, (Z.of_nat (n + i), f_meta f)) <$> fs) files)) =
  if decide (n <= level)%nat then f_meta <$> default [] (files !! (level - n)%nat) else [].
Proof.
  revert n. induction files as [| fs files IH]; intros n; [by destruct (decide (n <= level)%nat) |].
  rewrite (imap_from (λ i fs, (λ f, (Z.of_nat i, f_meta f)) <$> fs)). cbn [concat]. rewrite new_of_app.
  rewrite IH. destruct (decide (n = level)) as [-> | Hne].
  - rewrite new_of_same, decide_False, decide_True, Nat.sub_diag, app_nil_r by lia. done.
  - rewrite new_of_other by done. cbn [app]. destruct (decide (n <= level)%nat) as [Hle | Hle].
    + rewrite decide_True by lia. destruct (level - n)%nat as [| k] eqn:E; [lia |]. cbn. by replace (level - S n)%nat with k by lia.
    + by rewrite decide_False by lia.
Qed.
Lemma new_of_entries (files : list (list File)) level : new_of level (level_entries files) = f_meta <$> default [] (files !! level).
Proof. unfold level_entries. pose proof (new_of_entries_from 0 files level) as H. cbn [Nat.add] in H. rewrite H, decide_True by lia. by rewrite Nat.sub_0_r. Qed.

Definition pointer_entries (cp : list Slice) : list (Z * Slice) := filter (λ p, p.2 <> []) (imap (λ i k, (Z.of_nat i, k)) cp).
Lemma set_pointer_entries_from pre cp :
  set_pointers (filter (λ p, p.2 <> []) (imap (λ i k, (Z.of_nat (length pre + i), k)) cp)) (pre ++ replicate (length cp) []) = pre ++ cp.
Proof.
  revert pre. induction cp as [| k cp IH]; intros pre; [done |]. rewrite (imap_from (λ i k, (Z.of_nat i, k))).
  cbn [length replicate]. rewrite list.filter_cons. cbn [snd]. specialize (IH (pre ++ [k])). rewrite length_app, <- !app_assoc, Nat.add_1_r in IH. cbn [app] in IH. case_decide as Hk.
  - cbn [set_pointers]. rewrite Nat2Z.id, insert_app_r_alt, Nat.sub_diag by lia. cbn [insert list_insert]. exact IH.
  - subst k. exact IH.
Qed.
Lemma set_pointer_entries cp : set_pointers (pointer_entries cp) (replicate (length cp) []) = cp.
Proof. exact (set_pointer_entries_from [] cp). Qed.
End Snapshot.

(** The edit that a snapshot is. *)
Definition the_snapshot (cmp_name : Slice) (cp : list Slice) (files : list (list File)) : VersionEdit :=
  MkEdit (true, cmp_name) (false, 0) (false, 0) (false, 0) (false, 0) (pointer_entries cp) [] (level_entries files).
Lemma foldl_pointer_entries n cp e :
  foldl (λ e p, if bool_decide (p.2 = []) then e else SetCompactPointer (Z.of_nat p.1) p.2 e) e (imap (λ i k, ((n + i)%nat, k)) cp) =
  MkEdit (comparator_ e) (log_number_ e) (prev_log_number_ e) (next_file_number_ e) (last_sequence_ e)
    (compact_pointers_ e ++ filter (λ p, p.2 <> []) (imap (λ i k, (Z.of_nat (n + i), k)) cp)) (deleted_files_ e) (new_files_ e).
Proof.
  revert n e. induction cp as [| k cp IH]; intros n e; [rewrite app_nil_r; by destruct e |]. rewrite (imap_from (λ i k, (i, k))), (imap_from (λ i k, (Z.of_nat i, k))). cbn [foldl fst snd].
  rewrite IH. rewrite list.filter_cons. cbn [snd]. case_bool_decide as Hk; case_decide as Hk'; try done. cbn. by rewrite <- app_assoc.
Qed.
Lemma foldl_AddFile n (fs : list File) e :
  foldl (λ e f, AddFile (Z.of_nat n) (number (f_meta f)) (file_size (f_meta f)) (seq_off (f_meta f)) (smallest (f_meta f)) (largest (f_meta f)) e) e fs =
  MkEdit (comparator_ e) (log_number_ e) (prev_log_number_ e) (next_file_number_ e) (last_sequence_ e) (compact_pointers_ e) (deleted_files_ e)
    (new_files_ e ++ ((λ f, (Z.of_nat n, f_meta f)) <$> fs)).
Proof.
  revert e. induction fs as [| [p [num sz off sm la]] fs IH]; intros e; cbn [foldl fmap list_fmap]; [rewrite app_nil_r; by destruct e |]. rewrite IH. cbn. by rewrite <- app_assoc.
Qed.
Lemma foldl_level_entries n files e :
  foldl (λ e (p : nat * list File), foldl (λ e f, AddFile (Z.of_nat p.1) (number (f_meta f)) (file_size (f_meta f)) (seq_off (f_meta f)) (smallest (f_meta f)) (largest (f_meta f)) e) e p.2)
    e (imap (λ i k, ((n + i)%nat, k)) files) =
  MkEdit (comparator_ e) (log_number_ e) (prev_log_number_ e) (next_file_number_ e) (last_sequence_ e) (compact_pointers_ e) (deleted_files_ e)
    (new_files_ e ++ concat (imap (λ i fs, (λ f, (Z.of_nat (n + i), f_meta f)) <$> fs) files)).
Proof.
  revert n e. induction files as [| fs files IH]; intros n e; [cbn; rewrite app_nil_r; by destruct e |]. rewrite (imap_from (λ i k, (i, k))), (imap_from (λ i fs, (λ f, (Z.of_nat i, f_meta f)) <$> fs)). cbn [foldl fst snd concat]. rewrite foldl_AddFile.
  rewrite IH. cbn. by rewrite <- app_assoc.
Qed.
Lemma snapshot_edit_eq {H} cmp_name (vs : VersionSet H) v : current_version vs = Some v -> snapshot_edit cmp_name vs = Some (the_snapshot cmp_name (compact_pointer_ vs) (files_ v)).
Proof.
  intros Ev. unfold snapshot_edit. rewrite Ev. cbn [mbind option_bind].
  pose proof (foldl_pointer_entries 0 (compact_pointer_ vs)) as Hp. pose proof (foldl_level_entries 0 (files_ v)) as Hl. cbn [Nat.add] in *.
  unfold imap in Hp, Hl |- *. rewrite Hp, Hl. done.
Qed.

(** ** Edits that can be logged *)
Section Loggable.
Context {C : Comparator} {valid : Slice -> Prop} `{!ComparatorLaws C valid} (Hvalid : ∀ u, valid u -> bytes u) (cmp_name : Slice).
Implicit Types (e : VersionEdit) (es : list VersionEdit) (ms : list FileMetaData) (level : nat).
Local Notation edit_ok := (edit_ok (valid := valid)).

(** Fields in range, keys that are keys, and the comparator of the database. *)
Definition loggable e : Prop := wf_edit e /\ edit_ok e /\ bytes (comparator_ e).2 /\ name_mismatch cmp_name e = false.

Lemma ikey_bytes k : valid_ikey valid k -> bytes k.
Proof. intros (u & n & -> & Hu & _). by apply bytes_ikey, Hvalid. Qed.
Lemma loggable_keys e : loggable e -> keys_set e.
Proof.
  intros (_ & (Hp & _ & Hn) & _). split; [eapply list.Forall_impl; [exact Hp |] | eapply list.Forall_impl; [exact Hn |]].
  - intros p [_ Hk]. by eapply ikey_nonempty.
  - intros p [_ [Hs Hl]]. by split; eapply ikey_nonempty.
Qed.
Lemma loggable_bytes e : loggable e -> bytes (edit_bytes e).
Proof.
  intros (_ & (Hp & _ & Hn) & Hc & _). apply bytes_edit_bytes. split; [done |]. split; [eapply list.Forall_impl; [exact Hp |] | eapply list.Forall_impl; [exact Hn |]].
  - intros p [_ Hk]. by apply ikey_bytes.
  - intros p [_ [Hs Hl]]. by split; apply ikey_bytes.
Qed.
Lemma loggable_Encode ndebug e : loggable e -> VersionEdit_EncodeTo ndebug e [] = Some (edit_bytes e).
Proof. intros He. by apply EncodeTo_bytes, loggable_keys. Qed.
Lemma loggable_Decode e : loggable e -> VersionEdit_DecodeFrom (edit_bytes e) new_VersionEdit = Some (OK, e).
Proof. intros (Hw & _). rewrite Decode_edit_bytes by done. by destruct e. Qed.

(** What is in a version set fits the records of the manifest. *)
Record fits {H} (vs : VersionSet H) (v : Version) : Prop := {
  ft_files : Forall (Forall wf_file) (metas (files_ v));
  ft_pointers : Forall (λ k, k = [] \/ (valid_ikey valid k /\ |[k]| < 2 ^ 32)) (compact_pointer_ vs);
  ft_next : word 64 (vs_next_file_number_ vs); ft_last : word 64 (vs_last_sequence_ vs);
  ft_log : word 64 (vs_log_number_ vs); ft_prev : word 64 (vs_prev_log_number_ vs);
  ft_name : bytes cmp_name /\ |[cmp_name]| < 2 ^ 32
}.

Lemma elem_of_imap {A B} (f : nat -> A -> B) y l : y ∈ imap f l <-> ∃ i x, l !! i = Some x /\ y = f i x.
Proof.
  rewrite list_elem_of_lookup. setoid_rewrite list_lookup_imap. split.
  - intros [i E]. destruct (l !! i) as [x |] eqn:Ex; [| done]. injection E as <-. by exists i, x.
  - intros (i & x & E & ->). exists i. by rewrite E.
Qed.

Lemma the_snapshot_ok {H} (vs : VersionSet H) ext fs v : set_ok (C := C) (valid := valid) ext fs vs v -> fits vs v ->
  let e := the_snapshot cmp_name (compact_pointer_ vs) (files_ v) in
  loggable e /\ st_levels (edit_state (C := C) e init_state) = metas (files_ v) /\ st_pointers (edit_state (C := C) e init_state) = compact_pointer_ vs.
Proof.
  intros [Ho Ev [Hlv Hs] Hcp] [Hf Hp _ _ _ _ [Hnb Hnl]] e.
  assert (∀ p, p ∈ pointer_entries (compact_pointer_ vs) -> wf_level p.1 /\ valid_ikey valid p.2 /\ |[p.2]| < 2 ^ 32) as Hptr.
  { intros p [Hne (i & k & E & ->)%elem_of_imap]%list_elem_of_filter. cbn [fst snd] in *. rewrite list.Forall_forall in Hp. destruct (Hp k) as [-> | Hk]; [by eapply list_elem_of_lookup_2 | done |].
    split; [| done]. apply lookup_lt_Some in E. unfold wf_level. lia. }
  assert (∀ p, p ∈ level_entries (files_ v) -> wf_level p.1 /\ wf_file p.2 /\ meta_ok (valid := valid) p.2) as Hnew.
  { intros p (l & Hl & (i & fs' & E & ->)%elem_of_imap)%elem_of_concat. apply list_elem_of_fmap in Hl as (f & -> & Hfl). cbn [fst snd]. split; [apply lookup_lt_Some in E; unfold wf_level; lia |]. split.
    - rewrite list.Forall_forall in Hf. specialize (Hf (f_meta <$> fs')). rewrite list.Forall_forall in Hf. apply Hf; [| by apply list_elem_of_fmap_2]. unfold metas. apply list_elem_of_fmap. exists fs'. split; [done |]. by eapply list_elem_of_lookup_2.
    - destruct (Hs i fs' E) as [_ Hok]. rewrite list.Forall_forall in Hok. by apply Hok. }
  split; [split_and!; try done |].
  - split; try done; try (by split; [split |]); cbn [e the_snapshot compact_pointers_ new_files_ deleted_files_].
    + apply list.Forall_forall. intros p Hin. by destruct (Hptr p Hin) as (? & _ & ?).
    + apply SSorted_nil.
    + apply list.Forall_forall. intros p Hin. by destruct (Hnew p Hin) as (? & ? & _).
  - split; [| split]; cbn [e the_snapshot compact_pointers_ new_files_ deleted_files_]; try done; apply list.Forall_forall; intros p Hin.
    + by destruct (Hptr p Hin) as (? & ? & _).
    + by destruct (Hnew p Hin) as (? & _ & ?).
  - unfold name_mismatch. cbn. by rewrite bool_decide_true.
  - cbn [edit_state st_levels st_pointers e the_snapshot compact_pointers_]. split.
    + apply list_eq. intros level. unfold edit_levels. rewrite list_lookup_imap. cbn [init_state st_levels]. rewrite metas_lookup. destruct (files_ v !! level) as [fs' |] eqn:E.
      * rewrite lookup_replicate_2 by (apply lookup_lt_Some in E; unfold kNumLevels in *; lia). cbn [fmap option_fmap option_map]. f_equal. unfold edit_level. cbn [e the_snapshot new_files_ deleted_files_].
        rewrite new_of_entries, E. cbn [default from_option id]. cbn [filter list_filter]. apply foldr_insert_sorted. by apply (sorted_files_metas (C := C) (valid := valid)), Hs with level.
      * rewrite (proj2 (lookup_ge_None _ _)); [done |]. rewrite length_replicate. apply lookup_ge_None in E. unfold kNumLevels in *. lia.
    + cbn [init_state st_pointers]. replace (Z.to_nat kNumLevels) with (length (compact_pointer_ vs)) by lia. apply set_pointer_entries.
Qed.
End Loggable.

(** ** Compaction pointers *)
Lemma length_set_pointers ps cp : length (set_pointers ps cp) = length cp.
Proof. revert cp. induction ps as [| [lv k] ps IH]; intros cp; cbn [set_pointers]; [done |]. by rewrite IH, length_insert. Qed.
Lemma set_pointers_other ps cp i : (∀ p, p ∈ ps -> Z.to_nat p.1 <> i) -> set_pointers ps cp !! i = cp !! i.
Proof.
  revert cp. induction ps as [| [lv k] ps IH]; intros cp Hi; cbn [set_pointers]; [done |]. rewrite IH by (intros; apply Hi; by right).
  apply list_lookup_insert_ne. exact (Hi (lv, k) ltac:(by left)).
Qed.
Lemma set_pointers_over ps cp cp' : length cp = length cp' -> (∀ i, (∀ p, p ∈ ps -> Z.to_nat p.1 <> i) -> cp !! i = cp' !! i) -> set_pointers ps cp = set_pointers ps cp'.
Proof.
  revert cp cp'. induction ps as [| [lv k] ps IH]; intros cp cp' Hl Hi; cbn [set_pointers].
  { apply list_eq. intros i. apply Hi. by intros p ?%elem_of_nil. }
  apply IH; [by rewrite !length_insert |]. intros i Hp. destruct (decide (i = Z.to_nat lv)) as [-> | Hne].
  - rewrite !list_lookup_insert, Hl. case_decide as Hd; [done |]. rewrite !(proj2 (lookup_ge_None _ _)) by lia. done.
  - rewrite !list_lookup_insert_ne by done. apply Hi. by intros p [-> | ?]%elem_of_cons; [| apply Hp].
Qed.
(** Setting the same pointers again changes nothing. *)
Lemma set_pointers_twice ps cp : set_pointers ps (set_pointers ps cp) = set_pointers ps cp.
Proof. apply set_pointers_over; [apply length_set_pointers | apply set_pointers_other]. Qed.
Lemma set_pointers_Forall (P : Slice -> Prop) ps cp : Forall (λ p, P p.2) ps -> Forall P cp -> Forall P (set_pointers ps cp).
Proof.
  intros Hp. revert cp. induction Hp as [| [lv k] ps Hk Hp IH]; intros cp Hc; cbn [set_pointers]; [done |]. apply IH. by apply Forall_insert.
Qed.

(** ** Steps of [LogAndApply] *)
Section Steps.
Context {E H S : Type} `{EnvLaws E H S} {C : Comparator} {valid : Slice -> Prop} `{!ComparatorLaws C valid} (Hvalid : ∀ u, valid u -> bytes u).
Context (cmp_name : Slice) (ndebug : bool) (dbname_ : Slice) (options : DbOptions) (junk : Z).
Implicit Types (vs : VersionSet H) (env : E) (v : Version) (e : VersionEdit) (es : list VersionEdit) (ext : list nat) (fs : list File) (f : Slice).
Local Notation loggable := (loggable (valid := valid) cmp_name).
Local Notation set_ok := (set_ok (C := C) (valid := valid)).
Local Notation fits := (fits (valid := valid) cmp_name).
Local Notation edit_fits := (edit_fits (C := C) (valid := valid) ndebug).
Local Notation replay := (replay (C := C)).

(** The edit with the numbers of the version set, which goes in the log. *)
Definition completed e vs : VersionEdit :=
  MkEdit (comparator_ e) (if (log_number_ e).1 then log_number_ e else (true, vs_log_number_ vs))
    (if (prev_log_number_ e).1 then prev_log_number_ e else (true, vs_prev_log_number_ vs))
    (true, vs_next_file_number_ vs) (true, vs_last_sequence_ vs) (compact_pointers_ e) (deleted_files_ e) (new_files_ e).
Definition log_in_range e vs : Prop := (log_number_ e).1 = true -> vs_log_number_ vs <= (log_number_ e).2 < vs_next_file_number_ vs.
Lemma complete_edit_eq e vs : log_in_range e vs -> complete_edit ndebug e vs = Some (completed e vs).
Proof.
  intros Hr. unfold complete_edit, completed, log_in_range in *. destruct e as [c [[] n] [[] p] nf ls ps ds ns]; cbn in *;
    rewrite ?(assert_bool ndebug) by (first [apply Z.leb_le | apply Z.ltb_lt]; destruct Hr; done || lia); done.
Qed.
Lemma completed_loggable e vs v : loggable e -> fits vs v -> loggable (completed e vs).
Proof.
  intros ([Hc [Hl _] [Hp _] _ _ H1 H2 H3 H4] & He & Hb & Hn) [_ _ Fn Fs Fl Fp _]. split; [| done]. split; try done; cbn.
  - destruct (log_number_ e) as [[] n]; by split.
  - destruct (prev_log_number_ e) as [[] n]; by split.
Qed.
Lemma completed_state e vs st : edit_state (C := C) (completed e vs) st =
  MkDbState (edit_levels (C := C) e (st_levels st)) (set_pointers (compact_pointers_ e) (st_pointers st))
    (Some (log_number_ (completed e vs)).2) (Some (prev_log_number_ (completed e vs)).2) (Some (vs_next_file_number_ vs)) (Some (vs_last_sequence_ vs)).
Proof. unfold edit_state, completed, update_number. cbn. by destruct (log_number_ e) as [[] n], (prev_log_number_ e) as [[] p]. Qed.

(** The state of a version set whose current version is [v]. *)
Definition state_of vs v : DbState :=
  MkDbState (metas (files_ v)) (compact_pointer_ vs) (Some (vs_log_number_ vs)) (Some (vs_prev_log_number_ vs)) (Some (vs_next_file_number_ vs)) (Some (vs_last_sequence_ vs)).
(** The manifest [f] is open, and is the log of the edits [es], which give the levels and the pointers of the version set. *)
Definition logging f es vs v env : Prop :=
  (∃ w, descriptor_log_ vs = Some w /\ log_open f (edit_bytes <$> es) w env) /\ Forall loggable es /\
  st_levels (replay es init_state) = metas (files_ v) /\ st_pointers (replay es init_state) = compact_pointer_ vs.

Lemma loggable_all es : Forall loggable es -> Forall bytes (edit_bytes <$> es).
Proof. intros Hs. apply list.Forall_fmap. eapply list.Forall_impl; [exact Hs |]. by apply loggable_bytes. Qed.

Lemma log_edit_ok e es vs w env f : descriptor_log_ vs = Some w -> log_open f (edit_bytes <$> es) w env -> Forall loggable es -> loggable e ->
  ∃ s w' env', log_edit ndebug e vs env = Some (s, set_descriptor (Some w') vs, env') /\ delete f (contents env') = delete f (contents env) /\
    (∃ n, contents env' !! f = Some (take n (log_bytes 0 (edit_bytes <$> (es ++ [e]))))) /\ (ok s = true -> log_open f (edit_bytes <$> (es ++ [e])) w' env').
Proof.
  intros Ew Ho Hes He. unfold log_edit. rewrite Ew. cbn [mbind option_bind]. rewrite (loggable_Encode (valid := valid) cmp_name ndebug e He). cbn [mbind option_bind].
  destruct (log_AddRecord_ok ndebug f _ (edit_bytes e) w env Ho) as (s & w' & env' & -> & Edst & Hop & Hd & Hs); [by apply loggable_all | by eapply (loggable_bytes (valid := valid) Hvalid) |].
  rewrite <- Edst in Hop. cbn [mbind option_bind]. rewrite fmap_app. cbn [fmap list_fmap]. change (edit_bytes <$> es) with (map edit_bytes es) in *. destruct (ok s) eqn:Es.
  - destruct (file_Sync (dest_ w') env') as [s2 env2] eqn:Ey. destruct (file_same env' (dest_ w') f s2 env2 (or_intror Ey) Hop) as [Ec Hk].
    exists s2, w', env2. split; [done |]. destruct Hs as (_ & Hc & Hb). split; [by rewrite Ec |]. split; [| intros _; split; [by apply Hk | by rewrite Ec]].
    eexists. rewrite Ec, Hc. f_equal. symmetry. apply firstn_all.
  - exists s, w', env'. split; [done |]. split; [done |]. rewrite Es. by split.
Qed.

(** The end: the new version is installed, or its files are given back. *)
Lemma Finalize_files v : files_ (VersionSet_Finalize options v) = files_ v /\ v_refs (VersionSet_Finalize options v) = v_refs v.
Proof. unfold VersionSet_Finalize. by destruct (best_of _ _ _ _ _). Qed.
Lemma finish_ok F ext fs vs : objs_ok (current_ vs :: ext) (concat F ++ fs) (objects vs) -> version_wf (C := C) (valid := valid) (set_files F new_Version) ->
  Z.of_nat (length (compact_pointer_ vs)) = kNumLevels ->
  ∃ o p v, AppendVersion ndebug (VersionSet_Finalize options (set_files F new_Version)) vs = Some (set_objects o p vs) /\ set_ok ext fs (set_objects o p vs) v /\ files_ v = F /\
    keeps ext (objects vs) o.
Proof.
  intros Ho Hwf Hcp. destruct (Finalize_files (set_files F new_Version)) as [Ef Er]. cbn [files_ set_files v_refs new_Version] in Ef, Er.
  destruct (AppendVersion_ok ndebug (VersionSet_Finalize options (set_files F new_Version)) ext fs vs) as (o & p & -> & Ho' & Ev & Hk); [by rewrite Ef | done |].
  exists o, p, (set_refs 1 (VersionSet_Finalize options (set_files F new_Version))). split; [done |]. split; [split; cbn; try done | split; [exact Ef | done]].
  unfold version_wf in *. cbn [set_refs files_]. by rewrite Ef.
Qed.

(** What is in the set after an edit fits the records too. *)
Lemma loggable_pointers e : loggable e -> Forall (λ p : Z * Slice, p.2 = [] \/ (valid_ikey valid p.2 /\ |[p.2]| < 2 ^ 32)) (compact_pointers_ e).
Proof.
  intros ([_ _ _ _ _ Hp _ _ _] & (Hp' & _) & _). rewrite list.Forall_forall in *. intros p Hin. right. split; [by apply Hp' | by apply Hp].
Qed.
Lemma wf_files_after e ls : loggable e -> Forall (Forall wf_file) ls -> Forall (Forall wf_file) (edit_levels (C := C) e ls).
Proof.
  intros ([_ _ _ _ _ _ _ _ Hn] & _) Hl. unfold edit_levels. apply list.Forall_forall. intros ms (i & ms' & Ei & ->)%elem_of_imap. apply list.Forall_forall. intros m [Hm | Hm]%edit_level_from.
  - rewrite list.Forall_forall in Hl. specialize (Hl ms' (list_elem_of_lookup_2 _ _ _ Ei)). rewrite list.Forall_forall in Hl. by apply Hl.
  - apply elem_of_new_of in Hm. rewrite list.Forall_forall in Hn. by destruct (Hn _ Hm).
Qed.
Lemma fits_built e o vs v F : fits vs v -> loggable e -> metas F = edit_levels (C := C) e (metas (files_ v)) ->
  ∀ v', files_ v' = F -> fits (set_compact_pointer (set_pointers (compact_pointers_ e) (compact_pointer_ vs)) (set_objects o (current_ vs) vs)) v'.
Proof.
  intros [Ff Fp Fn Fs Fl Fpr Fc] He Em v' Ev. split; try done; cbn [set_compact_pointer compact_pointer_].
  - rewrite Ev, Em. by apply wf_files_after.
  - apply (set_pointers_Forall _ _ _ (loggable_pointers e He) Fp).
Qed.
Lemma fits_numbers vs v e : fits vs v -> loggable e ->
  fits (set_numbers (vs_next_file_number_ vs) (manifest_file_number_ vs) (vs_last_sequence_ vs) (log_number_ e).2 (prev_log_number_ e).2 vs) v.
Proof. intros [Ff Fp Fn Fs Fl Fpr Fc] ([_ [Hl _] [Hp _] _ _ _ _ _ _] & _). by split. Qed.
Lemma fits_same vs vs' v v' : fits vs v -> files_ v' = files_ v -> compact_pointer_ vs' = compact_pointer_ vs -> vs_next_file_number_ vs' = vs_next_file_number_ vs ->
  vs_last_sequence_ vs' = vs_last_sequence_ vs -> vs_log_number_ vs' = vs_log_number_ vs -> vs_prev_log_number_ vs' = vs_prev_log_number_ vs -> fits vs' v'.
Proof. intros [Ff Fp Fn Fs Fl Fpr Fc] E1 E2 E3 E4 E5 E6. split; rewrite ?E1, ?E2, ?E3, ?E4, ?E5, ?E6; done. Qed.

Lemma set_ok_same ext fs vs vs' v : set_ok ext fs vs v -> objects vs' = objects vs -> current_ vs' = current_ vs -> compact_pointer_ vs' = compact_pointer_ vs -> set_ok ext fs vs' v.
Proof. intros [Ho Ev Hv Hl] E1 E2 E3. split; unfold current_version in *; rewrite ?E1, ?E2, ?E3; done. Qed.

Lemma replay_snoc es e st : replay (es ++ [e]) st = edit_state (C := C) e (replay es st).
Proof. unfold Manifest.replay. by rewrite foldl_app. Qed.

(** The end of [LogAndApply] after a failure. *)
Lemma abandon_ok F ext fs vs v name env : objs_ok (current_ vs :: ext) (concat F ++ fs) (objects vs) -> current_version vs = Some v -> version_wf (C := C) (valid := valid) v ->
  Z.of_nat (length (compact_pointer_ vs)) = kNumLevels ->
  ∃ o d env', abandon ndebug (VersionSet_Finalize options (set_files F new_Version)) name vs env = Some (set_descriptor d (set_objects o (current_ vs) vs), env') /\
    set_ok ext fs (set_descriptor d (set_objects o (current_ vs) vs)) v /\
    match name with Some f => d = None /\ ∃ env2, contents env2 = contents env /\ env' = (env_DeleteFile f env2).2 | None => d = descriptor_log_ vs /\ env' = env end.
Proof.
  intros Ho Ev Hwf Hcp. unfold abandon. destruct (Finalize_files (set_files F new_Version)) as [-> ->]. rewrite assert_bool by done. cbn [mbind option_bind].
  change (files_ (set_files F new_Version)) with F. destruct (unref_extra_ok ndebug true (concat F) _ fs (objects vs) Ho) as (o & -> & Ho' & Eo & _). cbn [mbind option_bind].
  assert (∀ d, set_ok ext fs (set_descriptor d (set_objects o (current_ vs) vs)) v) as Hset by (intros d; split; cbn; try done; unfold current_version in *; cbn; by rewrite Eo).
  destruct name as [f |].
  { eexists o, None, _. split; [reflexivity |]. split; [apply Hset |]. split; [done |].
    eexists. split; [| reflexivity]. change (descriptor_log_ (set_objects o (current_ vs) vs)) with (descriptor_log_ vs). destruct (descriptor_log_ vs) as [w |]; [| done].
    destruct (file_Close (dest_ w) env) as [s2 env2] eqn:Ec. by apply file_Close_contents in Ec. }
  exists o, (descriptor_log_ vs), env. split; [| by split]. by destruct vs.
Qed.
Lemma current_kept ext vs v o : current_version vs = Some v -> keeps (current_ vs :: ext) (objects vs) o ->
  ∃ v', find_version (current_ vs) (versions_ o) = Some v' /\ files_ v' = files_ v.
Proof. intros Ev Hk. apply (same_files_find (objects vs) o (current_ vs :: ext) (current_ vs) v Hk); [by left | exact Ev]. Qed.

(** C31. Edits are logged before they are applied.  [LogAndApply] with an open manifest appends one record, the edit with the numbers of the set, and the
    other files stay.  If it succeeds, the new current version has the levels the edit asks for, and the replay of the manifest gives the levels, the
    pointers and the numbers of the set; if it fails, the current version and the numbers are as before and the manifest has all of its old records,
    followed by a part of the new one.  Either way the reference counts of versions and files are exact again. *)
Theorem log_and_apply ext fs vs v e es env f : set_ok ext fs vs v -> fits vs v -> edit_fits e v -> loggable e -> log_in_range e vs -> logging f es vs v env ->
  let e' := completed e vs in
  ∃ s vs' v' env', LogAndApply C cmp_name ndebug dbname_ options junk e vs env = Some (s, e', vs', env') /\ set_ok ext fs vs' v' /\ fits vs' v' /\
    delete f (contents env') = delete f (contents env) /\ (∃ n, contents env' !! f = Some (take n (log_bytes 0 (edit_bytes <$> (es ++ [e']))))) /\
    if ok s then metas (files_ v') = edit_levels (C := C) e (metas (files_ v)) /\ logging f (es ++ [e']) vs' v' env' /\ replay (es ++ [e']) init_state = state_of vs' v'
    else files_ v' = files_ v /\ vs_log_number_ vs' = vs_log_number_ vs /\ vs_prev_log_number_ vs' = vs_prev_log_number_ vs.
Proof.
  intros Hset Hfits Hef He Hr ((w & Ew & Hlog) & Hes & Hlv & Hcp) e'. pose proof Hset as [_ Ev Hwv Hlen]. assert (loggable e') as He' by by eapply completed_loggable.
  unfold LogAndApply. rewrite complete_edit_eq by done. cbn [mbind option_bind]. fold e'.
  destruct (build_version_ok (C := C) ndebug e ext fs vs v Hset Hef) as (F & o & Eb & Em & Hwf & Ho & Hk). change (build_version C ndebug e' vs) with (build_version C ndebug e vs). rewrite Eb. cbn [mbind option_bind].
  set (vs1 := set_compact_pointer _ _). unfold open_descriptor. change (descriptor_log_ vs1) with (descriptor_log_ vs). rewrite Ew. cbn [mbind option_bind].
  change (ok OK) with true. cbn iota beta.
  destruct (log_edit_ok e' es vs1 w env f) as (s & w' & env' & -> & Hd & Hn & Hs); try done. cbn [mbind option_bind]. rewrite bool_decide_true, andb_false_r by done. cbn [mbind option_bind].
  assert (Z.of_nat (length (compact_pointer_ vs1)) = kNumLevels) as Hlen1 by (cbn [vs1 set_compact_pointer compact_pointer_]; by rewrite length_set_pointers).
  destruct (current_kept ext vs v o Ev Hk) as (v1 & Ev1 & Ef1).
  destruct (ok s) eqn:Es.
  - specialize (Hs eq_refl). destruct (finish_ok F ext fs (set_descriptor (Some w') vs1)) as (o' & p & v' & -> & Hset' & Ef & _); [done | done | done |]. cbn [mbind option_bind].
    eexists s, _, v', env'. split; [reflexivity |]. split; [by eapply set_ok_same |]. split; [apply fits_numbers; [| done]; eapply fits_same; [exact (fits_built e o vs v F Hfits He Em v' Ef) | done..] |]. split; [done |]. split; [done |]. rewrite Es.
    assert (replay (es ++ [e']) init_state = state_of (set_numbers (vs_next_file_number_ vs) (manifest_file_number_ vs) (vs_last_sequence_ vs) (log_number_ e').2 (prev_log_number_ e').2 (set_objects o' p (set_descriptor (Some w') vs1))) v') as Er.
    { rewrite replay_snoc. unfold e'. rewrite completed_state, Hlv, Hcp. unfold state_of. cbn. by rewrite Ef, Em. }
    split; [by rewrite Ef |]. split; [| exact Er]. split; [by exists w' |]. split; [by apply list.Forall_app; split; [| apply list.Forall_singleton] |]. rewrite Er. by split.
  - destruct (abandon_ok F ext fs (set_descriptor (Some w') vs1) v1 None env') as (o' & d & env2 & -> & Hset' & _ & ->); [done | done | unfold version_wf; by rewrite Ef1 | done |]. cbn [mbind option_bind].
    eexists s, _, v1, env'. split; [reflexivity |]. split; [by eapply set_ok_same |]. split; [| split; [done |]; split; [done |]; rewrite Es; by split_and!].
    split; try apply Hfits. { rewrite Ef1. by apply Hfits. } cbn. apply (set_pointers_Forall _ _ _ (loggable_pointers e He)), Hfits.
Qed.

(** ** The first call *)
Implicit Types (name tmp : Slice).

(** The names are those of different files. *)
Lemma dbname_inj (a b : Slice) : dbname_ ++ a = dbname_ ++ b -> a = b.
Proof. apply app_inv_head. Qed.
Lemma digits_differ n (a : Slice) c b : word 64 n -> zero_padded 6 n ++ a = c :: b -> 48 <= c <= 57.
Proof.
  intros Hn Eq. destruct (zero_padded_head 6 n) as (d & z & Ez & Hd); [destruct Hn as [H1 H2]; split; [done |]; change (2 ^ 64) with 18446744073709551616 in H2; change (10 ^ 20) with 100000000000000000000; lia |].
  rewrite Ez in Eq. injection Eq as <- _. unfold is_digit in Hd. bool_hyps. lia.
Qed.
Lemma names_ok n : word 64 n -> n <> 0 -> ∃ name tmp, DescriptorFileName ndebug dbname_ n = Some name /\ TempFileName ndebug dbname_ n = Some tmp /\
  name <> tmp /\ name <> CurrentFileName dbname_ /\ tmp <> CurrentFileName dbname_.
Proof.
  intros Hn Hne. unfold DescriptorFileName, TempFileName, numbered. rewrite assert_bool by (apply Z.gtb_lt; destruct Hn; lia). cbn [mbind option_bind]. eexists _, _. split; [done |]. split; [done |].
  unfold MakeFileName, CurrentFileName. assert (∀ a c b, zero_padded 6 n ++ a = c :: b -> 48 <= c <= 57) as Hz by (intros a c b; by apply digits_differ).
  set (z := zero_padded 6 n) in *. clearbody z. split; [| split]; intros Eq%dbname_inj; [cbn in Eq; injection Eq as Eq | by vm_compute in Eq | cbn in Eq; injection Eq as Eq].
  - symmetry in Eq. apply Hz in Eq. vm_compute in Eq. by destruct Eq as [_ []].
  - apply Hz in Eq. vm_compute in Eq. by destruct Eq as [_ []].
Qed.

Lemma open_descriptor_ok ext fs vs v env name : set_ok ext fs vs v -> fits vs v -> descriptor_log_ vs = None -> manifest_file_number_ vs <> 0 ->
  DescriptorFileName ndebug dbname_ (manifest_file_number_ vs) = Some name ->
  ∃ s d env', open_descriptor cmp_name ndebug dbname_ junk vs env = Some (s, Some name, set_descriptor d vs, env') /\ (∀ g, g <> name -> contents env' !! g = contents env !! g) /\
    (ok s = true -> logging name [the_snapshot cmp_name (compact_pointer_ vs) (files_ v)] (set_descriptor d vs) v env').
Proof.
  intros Hset Hfits Ed Hm En. unfold open_descriptor. rewrite Ed, assert_bool by (by apply negb_true_iff, Z.eqb_neq). cbn [mbind option_bind]. rewrite En. cbn [mbind option_bind].
  destruct (the_snapshot_ok (valid := valid) cmp_name vs ext fs v Hset Hfits) as (Hl & Hlv & Hcp). set (snap := the_snapshot _ _ _) in *.
  assert (set_descriptor None vs = vs) as Esame by (destruct vs; cbn in *; by subst).
  destruct (NewWritableFile name env) as [[s r] env1] eqn:Ew. pose proof (New_only name env s r env1 Ew) as O1. destruct (New_ok env name s r env1 Ew) as [Hs _]. destruct (ok s) eqn:Es.
  2: { destruct Hs as [-> _]. exists s, None, env1. rewrite Esame. split; [done |]. split; [apply O1 |]. congruence. }
  destruct Hs as (h & -> & Ec & Hop). cbn [mbind option_bind]. unfold WriteSnapshot. rewrite (snapshot_edit_eq cmp_name vs v) by apply Hset. cbn [mbind option_bind]. fold snap.
  rewrite (loggable_Encode (valid := valid) cmp_name ndebug snap Hl). cbn [mbind option_bind].
  destruct (log_AddRecord_ok ndebug name [] (edit_bytes snap) (MkWriter h 0 junk) env1) as (s2 & w' & env2 & -> & Edst & Hop2 & Hd & Hs2).
  - split; [done |]. split; [by rewrite Ec, lookup_insert_eq | done].
  - by apply Forall_nil_2.
  - by eapply (loggable_bytes (valid := valid) Hvalid).
  - cbn [mbind option_bind]. exists s2, (Some w'), env2. split; [done |]. split.
    + intros g Hg. by rewrite <- (lookup_delete_ne (contents env2) name g), Hd, lookup_delete_ne by congruence; apply O1.
    + intros Es2. rewrite Es2 in Hs2. split; [by exists w' |]. split; [by apply list.Forall_singleton |]. by split.
Qed.

(** The files that installing the manifest [n] may change. *)
Definition install_files (n : Z) (g : Slice) : Prop :=
  TempFileName ndebug dbname_ n = Some g \/ g = CurrentFileName dbname_ \/ (rotating_manifest options = true /\ DescriptorFileName ndebug dbname_ (3 - n) = Some g).
Definition can_install vs : Prop :=
  word 64 (manifest_file_number_ vs) /\ manifest_file_number_ vs <> 0 /\ (rotating_manifest options = true -> manifest_file_number_ vs < 3).
Lemma name_not_installed vs name : can_install vs -> DescriptorFileName ndebug dbname_ (manifest_file_number_ vs) = Some name -> ~ install_files (manifest_file_number_ vs) name.
Proof.
  intros (Hw & Hm & Hrot) En. destruct (names_ok _ Hw Hm) as (name' & tmp & En' & Et & H1 & H2 & _). assert (name' = name) as -> by congruence.
  intros [Et' | [-> | [Er Eo]]]; [congruence | done |]. specialize (Hrot Er). destruct Hw as [Hw _].
  assert (manifest_file_number_ vs = 1 \/ manifest_file_number_ vs = 2) as [E1 | E1] by lia; rewrite E1 in *; unfold DescriptorFileName, numbered in *; cbn [assert_] in *;
    rewrite assert_bool in En, Eo by done; cbn [mbind option_bind] in *; rewrite <- Eo in En; injection En as En%dbname_inj; by vm_compute in En.
Qed.
Lemma install_ok vs env : can_install vs ->
  ∃ s env', install_manifest ndebug dbname_ options vs env = Some (s, env') /\ only (install_files (manifest_file_number_ vs)) env env' /\
    (rotating_manifest options = true -> s = OK) /\
    (rotating_manifest options = false -> contents env' !! CurrentFileName dbname_ =
       if ok s then (λ name, base_name dbname_ name ++ [10]) <$> DescriptorFileName ndebug dbname_ (manifest_file_number_ vs) else contents env !! CurrentFileName dbname_).
Proof.
  intros (Hw & Hm & Hrot). destruct (names_ok _ Hw Hm) as (name & tmp & En & Et & H1 & H2 & H3). unfold install_manifest, install_files. destruct (rotating_manifest options) eqn:Er; cbn [negb].
  - specialize (Hrot eq_refl). rewrite assert_bool by by apply Z.ltb_lt. cbn [mbind option_bind]. destruct Hw as [Hw _].
    assert (u64 (3 - manifest_file_number_ vs) = 3 - manifest_file_number_ vs) as -> by (apply wrap_small; split; [lia | change (2 ^ 64) with 18446744073709551616; lia]).
    destruct (names_ok (3 - manifest_file_number_ vs)) as (other & _ & Eo & _); [split; [lia | change (2 ^ 64) with 18446744073709551616; lia] | lia |]. rewrite Eo. cbn [mbind option_bind].
    eexists _, _. split; [reflexivity |]. split; [| split; [done | done]].
    eapply only_trans; [eapply only_sub; [| apply (DeleteFile_only other)] | eapply only_sub; [| apply DeleteFile_only]]; [intros g ->; by right; right | intros g ->; right; by left].
  - destruct (SetCurrentFile_ok ndebug dbname_ (manifest_file_number_ vs) env name tmp En Et H3) as (s & env' & -> & Ho & Hc). exists s, env'. split; [done |]. split; [| split; [done |]].
    + eapply only_sub; [| exact Ho]. intros g [-> | ->]; [by left | right; by left].
    + intros _. by rewrite Hc, En.
Qed.

Lemma log_open_only P f recs w env env' : ~ P f -> only P env env' -> log_open f recs w env -> log_open f recs w env'.
Proof. intros Hp [Hc Ho] (H1 & H2 & H3). split; [by apply Ho | split; [by rewrite Hc | done]]. Qed.
Lemma log_edit_first e f snap vs v env : logging f [snap] vs v env -> loggable e ->
  ∃ s w' env', log_edit ndebug e vs env = Some (s, set_descriptor (Some w') vs, env') /\ (∀ g, g <> f -> contents env' !! g = contents env !! g) /\
    (ok s = true -> log_open f (edit_bytes <$> [snap; e]) w' env').
Proof.
  intros ((w & Ew & Hlog) & Hes & _) He. destruct (log_edit_ok e [snap] vs w env f) as (s & w' & env' & E1 & Hd & _ & Hs); try done. exists s, w', env'. split; [done |]. split; [| done].
  intros g Hg. by rewrite <- (lookup_delete_ne (contents env') f g), Hd, lookup_delete_ne by congruence.
Qed.

(** C32. The first call writes a new manifest.  It holds a snapshot and the edit, and its replay gives the levels, the pointers and the numbers of the set; only then does
    [CURRENT] name it, or are the other manifest and [CURRENT] taken away when manifests rotate.  If anything fails, the current version and [CURRENT] are as before, and
    no manifest is open.  No other file is touched. *)
Theorem log_and_apply_first ext fs vs v e env : set_ok ext fs vs v -> fits vs v -> edit_fits e v -> loggable e -> log_in_range e vs -> descriptor_log_ vs = None -> can_install vs ->
  ∃ s vs' v' env' name, DescriptorFileName ndebug dbname_ (manifest_file_number_ vs) = Some name /\
    LogAndApply C cmp_name ndebug dbname_ options junk e vs env = Some (s, completed e vs, vs', env') /\ set_ok ext fs vs' v' /\ fits vs' v' /\
    (∀ g, g <> name -> ~ install_files (manifest_file_number_ vs) g -> contents env' !! g = contents env !! g) /\
    if ok s then metas (files_ v') = edit_levels (C := C) e (metas (files_ v)) /\
      (∃ es, logging name es vs' v' env' /\ replay es init_state = state_of vs' v') /\
      (rotating_manifest options = false -> contents env' !! CurrentFileName dbname_ = Some (base_name dbname_ name ++ [10]))
    else files_ v' = files_ v /\ vs_log_number_ vs' = vs_log_number_ vs /\ vs_prev_log_number_ vs' = vs_prev_log_number_ vs /\ descriptor_log_ vs' = None /\
      contents env' !! CurrentFileName dbname_ = contents env !! CurrentFileName dbname_.
Proof.
  intros Hset Hfits Hef He Hr Ed Hinst. pose proof Hset as [_ Ev Hwv Hlen]. assert (loggable (completed e vs)) as He' by by eapply completed_loggable. set (e' := completed e vs) in *.
  destruct Hinst as (Hw & Hm & Hrot). destruct (names_ok _ Hw Hm) as (name & tmp & En & Et & Hn1 & Hn2 & Hn3).
  assert (~ install_files (manifest_file_number_ vs) name) as Hni by by (apply name_not_installed).
  unfold LogAndApply. rewrite complete_edit_eq by done. cbn [mbind option_bind]. fold e'.
  destruct (build_version_ok (C := C) ndebug e ext fs vs v Hset Hef) as (F & o & Eb & Em & Hwf & Ho & Hk). change (build_version C ndebug e' vs) with (build_version C ndebug e vs). rewrite Eb. cbn [mbind option_bind].
  set (vs1 := set_compact_pointer _ _). destruct (current_kept ext vs v o Ev Hk) as (v1 & Ev1 & Ef1). set (cp1 := set_pointers (compact_pointers_ e) (compact_pointer_ vs)) in *.
  assert (Z.of_nat (length (compact_pointer_ vs1)) = kNumLevels) as Hlen1 by (cbn [vs1 set_compact_pointer compact_pointer_]; unfold cp1; by rewrite length_set_pointers).
  assert (version_wf (C := C) (valid := valid) v1) as Hwv1 by (unfold version_wf; by rewrite Ef1).
  assert (fits vs1 v1) as Hfits1.
  { split; try apply Hfits; [rewrite Ef1; by apply Hfits |]. apply (set_pointers_Forall _ _ _ (loggable_pointers e He)), Hfits. }
  destruct (open_descriptor_ok ext (concat F ++ fs) vs1 v1 env name) as (s1 & d & env1 & -> & Hc1 & Hl1); [by split | done | done | done | done |]. cbn [mbind option_bind].
  assert (∀ s d env2, ok s = false -> (∀ g, g <> name -> ~ install_files (manifest_file_number_ vs) g -> contents env2 !! g = contents env !! g) ->
    contents env2 !! CurrentFileName dbname_ = contents env !! CurrentFileName dbname_ ->
    ∃ vs' v' env', ('(vs, env) ← abandon ndebug (VersionSet_Finalize options (set_files F new_Version)) (Some name) (set_descriptor d vs1) env2; Some (s, e', vs, env)) = Some (s, e', vs', env') /\
      set_ok ext fs vs' v' /\ fits vs' v' /\ (∀ g, g <> name -> ~ install_files (manifest_file_number_ vs) g -> contents env' !! g = contents env !! g) /\
      files_ v' = files_ v /\ vs_log_number_ vs' = vs_log_number_ vs /\ vs_prev_log_number_ vs' = vs_prev_log_number_ vs /\ descriptor_log_ vs' = None /\
      contents env' !! CurrentFileName dbname_ = contents env !! CurrentFileName dbname_) as Hfail.
  { intros s d2 env2 Es Hg Hcur. destruct (abandon_ok F ext fs (set_descriptor d2 vs1) v1 (Some name) env2) as (o' & d3 & env3 & -> & Hset' & -> & (env4 & Ec4 & ->)); [done.. |]. cbn [mbind option_bind].
    eexists _, v1, _. split; [reflexivity |]. split; [exact Hset' |]. split; [by eapply fits_same |]. destruct (DeleteFile_only name env4) as [Hdel _]. rewrite Ec4 in Hdel.
    split; [intros g Hn Hi; rewrite Hdel by done; by apply Hg |]. split_and!; try done. rewrite Hdel by congruence. done. }
  destruct (ok s1) eqn:Es1; cbn [mbind option_bind].
  2: { rewrite Es1. cbn [andb mbind option_bind]. destruct (Hfail s1 d env1 Es1) as (vs' & v' & env' & Et' & Hres); [intros g Hg _; by apply Hc1 | by apply Hc1 |].
    rewrite Et'. eexists s1, vs', v', env', name. rewrite Es1. split_and!; try done; apply Hres. }
  specialize (Hl1 eq_refl). destruct (log_edit_first e' name _ _ v1 env1 Hl1 He') as (s2 & w' & env2 & -> & Hc2 & Hl2). cbn [mbind option_bind].
  destruct (ok s2) eqn:Es2; cbn [andb mbind option_bind].
  2: { rewrite Es2. destruct (Hfail s2 (Some w') env2 Es2) as (vs' & v' & env' & Et' & Hres); [intros g Hg _; by rewrite Hc2, Hc1 | by rewrite Hc2, Hc1 |].
    change (set_descriptor (Some w') (set_descriptor d vs1)) with (set_descriptor (Some w') vs1). rewrite Et'. eexists s2, vs', v', env', name. rewrite Es2. split_and!; try done; apply Hres. }
  rewrite bool_decide_false by done. cbn [negb]. change (set_descriptor (Some w') (set_descriptor d vs1)) with (set_descriptor (Some w') vs1).
  destruct (install_ok (set_descriptor (Some w') vs1) env2) as (s3 & env3 & -> & Ho3 & Hrot3 & Hcur3); [done |]. cbn [mbind option_bind]. specialize (Hl2 eq_refl).
  change (manifest_file_number_ (set_descriptor (Some w') vs1)) with (manifest_file_number_ vs) in *.
  assert (∀ g, g <> name -> ~ install_files (manifest_file_number_ vs) g -> contents env3 !! g = contents env !! g) as Hc3 by (intros g Hg Hi; rewrite (proj1 Ho3 g Hi), Hc2, Hc1; done).
  destruct (ok s3) eqn:Es3; cbn [mbind option_bind].
  - destruct (finish_ok F ext fs (set_descriptor (Some w') vs1)) as (o' & p & v' & -> & Hset' & Ef & _); [done | done | done |]. cbn [mbind option_bind].
    eexists s3, _, v', env3, name. split; [done |]. split; [reflexivity |]. split; [by eapply set_ok_same |]. split; [apply fits_numbers; [| done]; eapply fits_same; [exact (fits_built e o vs v F Hfits He Em v' Ef) | done..] |].
    split; [done |]. rewrite Es3. split; [by rewrite Ef |]. split; [| intros Er; rewrite (Hcur3 Er), ?Es3, En; done].
    set (snap := the_snapshot _ _ _) in *. exists [snap; e']. destruct Hl1 as (_ & Hsn & Hlv & Hcp). apply list.Forall_cons in Hsn as [Hsn _].
    assert (replay [snap; e'] init_state = state_of (set_numbers (vs_next_file_number_ vs) (manifest_file_number_ vs) (vs_last_sequence_ vs) (log_number_ e').2 (prev_log_number_ e').2 (set_objects o' p (set_descriptor (Some w') vs1))) v') as Er.
    { change [snap; e'] with ([snap] ++ [e']). rewrite replay_snoc. unfold e'. rewrite completed_state, Hlv, Hcp. unfold state_of. cbn. unfold cp1. by rewrite set_pointers_twice, Ef, Em, Ef1. }
    split; [| exact Er]. split; [exists w'; split; [done |]; by eapply log_open_only |]. split; [apply Forall_cons_2; [done | by apply list.Forall_singleton] |]. rewrite Er. by split.
  - destruct (Hfail s3 (Some w') env3 Es3 Hc3) as (vs' & v' & env' & Et' & Hres).
    { destruct (rotating_manifest options) eqn:Er; [specialize (Hrot3 eq_refl); by subst s3 |]. rewrite (Hcur3 eq_refl). rewrite ?Es3. by rewrite Hc2, Hc1. }
    rewrite Et'. eexists s3, vs', v', env', name. rewrite Es3. split_and!; try done; apply Hres.
Qed.
End Steps.

(** ** Examples *)
Definition example_name : Slice := lit "leveldb.BytewiseComparator".
Definition example_set : VersionSet Slice := set_numbers 6 2 40 4 0 new_VersionSet.
Definition example_new : VersionEdit := AddFile 0 5 4096 0 (ikey (lit "a") 0x501) (ikey (lit "m") 0x2001) (SetLogNumber 5 (DeleteFile 1 3 new_VersionEdit)).
Local Abbreviation Bytewise := (BytewiseComparator false).

Lemma example_set_ok : set_ok (C := Bytewise) (valid := bytes) [] [] example_set (set_refs 1 new_Version).
Proof. by eapply set_ok_same; [apply new_VersionSet_ok | ..]. Qed.
Lemma example_fits : fits (valid := bytes) example_name example_set (set_refs 1 new_Version).
Proof.
  split; try by_compute; try (split; by_compute).
  apply list.Forall_forall. intros k Hk. apply list_elem_of_lookup in Hk as [i [-> _]%lookup_replicate]. by left.
Qed.
Lemma example_loggable : loggable (valid := bytes) example_name example_new.
Proof.
  assert (∀ s n, bytes (lit s) -> word 64 n -> valid_ikey bytes (ikey (lit s) n)) as Hk by (intros s n Hs Hn; by eexists _, _).
  split; [| split; [split; [| split] | split]].
  - split; try (split; [by_compute | done]); repeat first [apply Forall_nil_2 | apply Forall_cons_2; [split; by_compute |]]. repeat constructor.
  - apply Forall_nil_2.
  - by_compute.
  - apply list.Forall_singleton. split; [by_compute |]. split; apply Hk; by_compute.
  - by_compute.
  - done.
Qed.
Lemma example_edit_fits : edit_fits (C := Bytewise) (valid := bytes) false example_new (set_refs 1 new_Version).
Proof.
  split; [apply example_loggable |]. split; intros level files [-> Hlv]%lookup_replicate; [| destruct level as [| level]; [right; by left |]]; cbn [fmap list_fmap app].
  - change (new_files_ example_new) with [(0, MkFileMetaData 5 4096 0 (ikey (lit "a") 0x501) (ikey (lit "m") 0x2001))]. rewrite new_of_cons.
    destruct (decide _); [apply NoDup_singleton | apply NoDup_nil_2].
  - right; right. apply Sorted_nil.
Qed.
Lemma example_range : log_in_range example_new example_set.
Proof. intros _. by_compute. Qed.

Lemma log_and_apply_first_witness : ∃ s vs' v' env' name, DescriptorFileName false (lit "/db") 2 = Some name /\
  LogAndApply Bytewise example_name false (lit "/db") new_DbOptions 0 example_new example_set (∅ : MemEnv) = Some (s, completed example_new example_set, vs', env') /\
  (ok s = true -> metas (files_ v') = edit_levels (C := Bytewise) example_new (replicate 7 []) /\ ∃ es, logging (valid := bytes) (C := Bytewise) example_name name es vs' v' env').
Proof.
  destruct (log_and_apply_first (C := Bytewise) (valid := bytes) (λ u Hu, Hu) example_name false (lit "/db") new_DbOptions 0 [] [] example_set (set_refs 1 new_Version) example_new (∅ : MemEnv))
    as (s & vs' & v' & env' & name & En & Ea & _ & _ & _ & Hs).
  - exact example_set_ok.
  - exact example_fits.
  - exact example_edit_fits.
  - exact example_loggable.
  - exact example_range.
  - reflexivity.
  - split; [by_compute |]. split; [done |]. by_compute.
  - exists s, vs', v', env', name. split; [exact En |]. split; [exact Ea |]. intros Es. rewrite Es in Hs. destruct Hs as (Hm & (es & Hl & _) & _). split; [exact Hm | by exists es].
Defined.

Definition example_snapshot : VersionEdit := the_snapshot example_name (replicate 7 []) (replicate 7 []).
Definition example_file : Slice := lit "/db/MANIFEST-000002".
Definition example_open : VersionSet Slice := set_descriptor (Some (MkWriter example_file (end_block 0 [edit_bytes example_snapshot]) 0)) example_set.
Definition example_env : MemEnv := {[example_file := log_bytes 0 [edit_bytes example_snapshot]]}.
Lemma example_logging : logging (C := Bytewise) (valid := bytes) example_name example_file [example_snapshot] example_open (set_refs 1 new_Version) example_env.
Proof.
  destruct (the_snapshot_ok (valid := bytes) example_name example_set [] [] (set_refs 1 new_Version) example_set_ok example_fits) as (Hl & Hlv & Hp).
  split; [| split; [by apply list.Forall_singleton | by split]]. eexists. split; [reflexivity |]. assert (example_env !! example_file = Some (log_bytes 0 [edit_bytes example_snapshot])) as Ee by apply lookup_singleton_eq.
  split; [split; [done | by rewrite Ee] |]. split; [exact Ee | done].
Qed.
Lemma log_and_apply_witness : ∃ s vs' v' env', 
  LogAndApply Bytewise example_name false (lit "/db") new_DbOptions 0 example_new example_open example_env = Some (s, completed example_new example_open, vs', env') /\
  (ok s = true -> metas (files_ v') = edit_levels (C := Bytewise) example_new (replicate 7 []) /\
    logging (valid := bytes) (C := Bytewise) example_name example_file [example_snapshot; completed example_new example_open] vs' v' env').
Proof.
  destruct (log_and_apply (C := Bytewise) (valid := bytes) (λ u Hu, Hu) example_name false (lit "/db") new_DbOptions 0 [] [] example_open (set_refs 1 new_Version) example_new [example_snapshot] example_env example_file)
    as (s & vs' & v' & env' & Ea & _ & _ & _ & _ & Hs).
  - by eapply set_ok_same; [exact example_set_ok | ..].
  - by eapply fits_same; [exact example_fits | ..].
  - exact example_edit_fits.
  - exact example_loggable.
  - exact example_range.
  - exact example_logging.
  - exists s, vs', v', env'. split; [exact Ea |]. intros Es. rewrite Es in Hs. destruct Hs as (Hm & Hl & _). by split.
Defined.
