(* ===== verification/Recovery.v ===== *)
(** * Recovery: what [Recover] makes of the manifests that a crash left

    Each manifest is a log that may be cut anywhere.  [choose] is the reference for the choice among the candidates, and the
    theorems say that the version set has the state that the chosen manifest replays to. *)
From stdpp Require Import sorting.
From S2P Require Import Prelude Status Coding Comparator Log LogFacts LogProps VersionEdit.
From S2P Require Import DbOptions Version VersionFacts StrUtil Filenames Env VersionSet VersionSetFacts.
From S2P Require Import Manifest VersionSetProps Logging.

(** ** The choice among candidates *)
Section Choice.
Context {C : Comparator}.
Implicit Types (st : DbState) (es : list VersionEdit).
Local Notation replay := (replay (C := C)).

Definition num (n : option Z) : Z := default 0 n.
Definition further st best : bool :=
  (num (st_last best) <=? num (st_last st)) && (num (st_next best) <=? num (st_next st)) && (num (st_log best) <=? num (st_log st)) && (num (st_prev best) <=? num (st_prev st)).
(** The index and the state of the last candidate that is not behind the one chosen before. *)
Fixpoint choose (i : nat) (l : list (option (list VersionEdit))) (best : option nat * DbState) : option nat * DbState :=
  match l with
  | [] => best
  | None :: l => choose (S i) l best
  | Some es :: l => let st := replay es init_state in choose (S i) l (if further st best.2 then (Some i, st) else best)
  end.
Definition pointers_after es (cp : list Slice) : list Slice := foldl (λ cp e, set_pointers (compact_pointers_ e) cp) cp es.
Definition all_pointers (l : list (option (list VersionEdit))) (cp : list Slice) : list Slice := foldl (λ cp o, pointers_after (default [] o) cp) cp l.

(** A state from which a version set can be recovered. *)
Definition complete st : Prop := is_Some (st_next st) /\ is_Some (st_log st) /\ is_Some (st_last st).
Lemma complete_more es st : complete st -> complete (replay es st).
Proof.
  revert st. induction es as [| e es IH]; intros st Hc; [done |]. apply (IH (edit_state (C := C) e st)). destruct Hc as (H1 & H2 & H3). unfold complete, edit_state, update_number. cbn. split_and!; by case_match.
Qed.
Lemma pointers_replay es st : st_pointers (replay es st) = pointers_after es (st_pointers st).
Proof. revert st. induction es as [| e es IH]; intros st; [done |]. apply (IH (edit_state (C := C) e st)). Qed.
Lemma length_pointers_after es cp : length (pointers_after es cp) = length cp.
Proof. revert cp. induction es as [| e es IH]; intros cp; [done |]. exact (eq_trans (IH _) (length_set_pointers _ _)). Qed.
Lemma length_all_pointers l cp : length (all_pointers l cp) = length cp.
Proof. revert cp. induction l as [| o l IH]; intros cp; [done |]. exact (eq_trans (IH _) (length_pointers_after _ _)). Qed.
End Choice.

(** ** Reading one manifest *)
Section Replay.
Context {E H S : Type} `{EnvLaws E H S} {C : Comparator} {valid : Slice -> Prop} `{!ComparatorLaws C valid} (Hvalid : ∀ u, valid u -> bytes u).
Context (cmp_name : Slice) (ndebug : bool) (dbname_ : Slice) (options : DbOptions).
Implicit Types (vs : VersionSet H) (env : E) (v : Version) (e : VersionEdit) (es : list VersionEdit) (b : Builder) (ext : list nat) (fs : list File) (r : Reader S) (st : DbState) (o : Objects).
Local Notation loggable := (loggable (valid := valid) cmp_name).
Local Notation builder_ok := (builder_ok (C := C) (valid := valid)).
Local Notation version_wf := (version_wf (C := C) (valid := valid)).
Local Notation replay := (replay (C := C)).

Lemma fresh_prefix es es' v : fresh (es ++ es') v -> fresh es v.
Proof.
  intros Hf level files Ef. specialize (Hf level files Ef). unfold all_new, numbers in *. rewrite bind_app, !fmap_app in *. rewrite app_assoc in Hf. by apply list.NoDup_app in Hf as [Hf _].
Qed.

(** The numbers that were read, in a state. *)
Definition numbers_of st b : Replay := MkReplay b (st_log st) (st_prev st) (st_next st) (st_last st).

Lemma replay_loop_ok es : ∀ fuel r r' seen b v ext fs st o, read_all fuel r = Some (edit_bytes <$> es, r') -> reporter_ r' = Some [] -> Forall loggable es ->
  objs_ok ext (added_of (levels_ b) ++ fs) o -> builder_ok seen b v -> version_wf v -> Z.of_nat (length (st_pointers st)) = kNumLevels -> fresh (seen ++ es) v ->
  ∃ b' o', replay_loop C cmp_name ndebug fuel r OK (numbers_of st b) (st_pointers st) o = Some (OK, numbers_of (replay es st) b', st_pointers (replay es st), o') /\
    base_ b' = base_ b /\ objs_ok ext (added_of (levels_ b') ++ fs) o' /\ versions_ o' = versions_ o /\ builder_ok (seen ++ es) b' v.
Proof.
  induction es as [| e es IH]; intros fuel r r' seen b v ext fs st o Hr Hrep Hl Ho Hb Hv Hcp Hf; (destruct fuel as [| fuel]; [done |]); cbn [read_all] in Hr; cbn [replay_loop];
    (destruct (ReadRecord fuel false r) as [[[s |] r1] |]; [| | done]); cbn [mbind option_bind] in *.
  - by destruct (read_all fuel r1) as [[? ?] |].
  - injection Hr as <-. unfold reported. rewrite Hrep. cbn. exists b, o. by rewrite app_nil_r.
  - destruct (read_all fuel r1) as [[l r2] |] eqn:Er; [| done]. cbn [mbind option_bind] in Hr. injection Hr as -> -> ->.
    pose proof (no_reports _ _ (read_all_reports _ _ _ _ Er) Hrep) as Hrep1. unfold reported. rewrite Hrep1. change (ok OK) with true. cbn iota.
    apply list.Forall_cons in Hl as [He Hl]. unfold replay_edit. rewrite (loggable_Decode (valid := valid) cmp_name) by done. cbn [mbind option_bind].
    destruct He as (Hw & Hok & Hbc & Hn). rewrite Hn, andb_false_r. change (ok OK) with true. cbn iota. cbn [numbers_of rp_builder rp_log rp_prev rp_next rp_last].
    assert (seen ++ e :: es = (seen ++ [e]) ++ es) as Ees by by rewrite <- app_assoc. rewrite Ees in Hf.
    destruct (builder_Apply (C := C) ndebug seen e b v ext fs (st_pointers st) o) as (b1 & o1 & -> & Eb1 & Ho1 & Ev1 & Hb1); try done; [by eapply fresh_prefix |]. cbn [mbind option_bind].
    destruct (IH fuel r1 r' (seen ++ [e]) b1 v ext fs (edit_state (C := C) e st) o1) as (b2 & o2 & E2 & Eb2 & Ho2 & Ev2 & Hb2); try done; [cbn [edit_state st_pointers]; by rewrite length_set_pointers |].
    exists b2, o2. split; [exact E2 |]. rewrite Ees. split; [congruence |]. split; [done |]. split; [congruence | done].
  - done.
Qed.

(** A manifest after a crash: some of the log of [es], with at least the first [n] edits, which make a state that is complete.  The edits give new numbers to
    new files, and the levels they make pass the assertions of a debug build. *)
Record candidate env (name : Slice) es (n : nat) v : Prop := {
  cd_data : ∃ m, contents env !! name = Some (take m (log_bytes 0 (edit_bytes <$> es))) /\ (length (log_bytes 0 (edit_bytes <$> take n es)) <= m)%nat;
  cd_loggable : Forall loggable es;
  cd_enough : (n <= length es)%nat /\ complete (replay (take n es) init_state);
  cd_fresh : fresh es v;
  cd_disjoint k level files : (n <= k)%nat -> files_ v !! level = Some files -> disjoint_level (C := C) ndebug level (replay_level (C := C) level (take k es) (f_meta <$> files))
}.
(** Files that exist can be opened and read. *)
Definition readable env (fuel : nat) : Prop :=
  (∀ (f : S) n, ok (sf_Read f n).1.1 = true) /\
  ∀ name c, contents env !! name = Some c -> ok (NewSequentialFile name env).1 = true /\ (length c + 1 < fuel)%nat.

Definition selected_of (i : nat) st b rc : Recovery := select i b (num (st_next st)) (num (st_last st)) (num (st_log st)) (num (st_prev st)) rc.
Lemma replay_numbers es st st' : st_next st = st_next st' -> st_last st = st_last st' -> st_log st = st_log st' -> st_prev st = st_prev st' ->
  st_next (replay es st) = st_next (replay es st') /\ st_last (replay es st) = st_last (replay es st') /\ st_log (replay es st) = st_log (replay es st') /\ st_prev (replay es st) = st_prev (replay es st').
Proof.
  revert st st'. induction es as [| e es IH]; intros st st' H1 H2 H3 H4; [done |]. apply (IH (edit_state (C := C) e st) (edit_state (C := C) e st')); cbn; congruence.
Qed.

Lemma MarkFileNumberUsed_same n vs : objects (MarkFileNumberUsed n vs) = objects vs /\ current_ (MarkFileNumberUsed n vs) = current_ vs /\
  compact_pointer_ (MarkFileNumberUsed n vs) = compact_pointer_ vs /\ descriptor_log_ (MarkFileNumberUsed n vs) = descriptor_log_ vs.
Proof. unfold MarkFileNumberUsed. by destruct (_ <=? _). Qed.

Lemma recover_manifest_ok fuel i name es n rc vs env ext fs v w cur : candidate env name es n v -> readable env fuel -> version_wf v ->
  objs_ok ext fs (objects vs) -> cur ∈ ext -> find_version cur (versions_ (objects vs)) = Some w -> files_ w = files_ v -> Z.of_nat (length (compact_pointer_ vs)) = kNumLevels ->
  ∃ k b vs', (n <= k)%nat /\ recover_manifest C cmp_name ndebug fuel i name cur rc vs env = Some (selected_of i (replay (take k es) init_state) b rc, vs') /\
    base_ b = cur /\ builder_ok (take k es) b v /\ objs_ok (cur :: ext) (added_of (levels_ b) ++ fs) (objects vs') /\ keeps (cur :: ext) (objects vs) (objects vs') /\
    current_ vs' = current_ vs /\ descriptor_log_ vs' = descriptor_log_ vs /\ compact_pointer_ vs' = pointers_after (take k es) (compact_pointer_ vs).
Proof.
  intros [(m & Ec & Hm) Hl [Hn Hcomp] Hf Hdis] [Hreads Hopen] Hv Ho Hin Ew Efw Hcp. destruct (Hopen name _ Ec) as [Hok Hfuel]. unfold recover_manifest.
  destruct (NewSequentialFile name env) as [s [file |]] eqn:En; cbn [fst] in Hok; pose proof (NewSequentialFile_ok env name s _ En) as Hfile; rewrite Hok in Hfile; [| by destruct Hfile as (x & ? & _)].
  destruct Hfile as (x & [= <-] & Edata). rewrite Ec in Edata. injection Edata as Edata. rewrite Hok. cbn [negb].
  assert (version_wf w) as Hwf by (unfold VersionSetProps.version_wf; by rewrite Efw).
  destruct (new_Builder_ok (C := C) (valid := valid) cur ext fs (objects vs) w Ho Hin Ew Hwf) as (b & o1 & -> & Eb & Ho1 & Hb & Hk1). cbn [mbind option_bind].
  assert (builder_ok [] b v) as Hbv by (destruct Hb as [? Hb]; split; [done | intros level st files Est Ef; apply (Hb level); [done | by rewrite Efw]]).
  destruct (read_all_ok Hreads (sf_data file) (edit_bytes <$> es) fuel 0 0 (new_Reader file true true 0) (drop m (log_bytes 0 (edit_bytes <$> es)))) as (k & r' & Er & Hrep & Hk);
    [apply new_Reader_ok | by_compute | by apply (loggable_all (valid := valid) Hvalid cmp_name) | | by rewrite <- Edata |].
  { change (Z.to_nat 0) with O. by rewrite drop_0, <- Edata, take_drop. }
  rewrite <- fmap_take in Er. assert ((n <= k)%nat) as Hnk.
  { apply Hk; [by rewrite length_fmap |]. change (Z.to_nat 0) with O. rewrite drop_0, <- Edata, <- fmap_take, length_take.
    assert (length (log_bytes 0 (edit_bytes <$> take n es)) <= length (log_bytes 0 (edit_bytes <$> es)))%nat; [| lia].
    rewrite <- (take_drop n es) at 2. rewrite fmap_app, log_bytes_app, length_app. lia. }
  destruct (replay_loop_ok (take k es) fuel (new_Reader file true true 0) r' [] b v (cur :: ext) fs (MkDbState [] (compact_pointer_ vs) None None None None) o1) as (b2 & o2 & E2 & Eb2 & Ho2 & Ev2 & Hb2); try done;
    [by apply Forall_take | rewrite app_nil_l; eapply fresh_prefix; by rewrite take_drop |].
  change (numbers_of (MkDbState [] (compact_pointer_ vs) None None None None) b) with (MkReplay b None None None None) in E2. cbn [st_pointers] in E2. rewrite E2. cbn [mbind option_bind]. change (ok OK) with true. cbn iota. cbn [rp_log rp_prev rp_next rp_last rp_builder numbers_of].
  unfold missing, numbers_of. cbn [rp_log rp_prev rp_next rp_last rp_builder].
  rewrite pointers_replay. cbn [st_pointers]. destruct (replay_numbers (take k es) (MkDbState [] (compact_pointer_ vs) None None None None) init_state) as (-> & -> & -> & ->); [done.. |].
  assert (complete (replay (take k es) init_state)) as ((x1 & E3) & (x2 & E4) & (x3 & E5)).
  { rewrite <- (take_drop n (take k es)), take_take, Nat.min_l by done. unfold Manifest.replay. rewrite foldl_app. by apply complete_more. }
  rewrite E3, E4, E5. change (ok OK) with true. cbn iota.
  set (vs2 := set_compact_pointer _ _). destruct (MarkFileNumberUsed_same (default 0 (st_prev (replay (take k es) init_state))) vs2) as (M1 & M2 & M3 & M4).
  destruct (MarkFileNumberUsed_same (default 0 (Some x2)) (MarkFileNumberUsed (default 0 (st_prev (replay (take k es) init_state))) vs2)) as (M5 & M6 & M7 & M8).
  exists k, b2. eexists. split; [done |]. split; [unfold selected_of, num; rewrite E3, E4, E5; reflexivity |]. rewrite M5, M6, M7, M8, M1, M2, M3, M4.
  split; [congruence |]. split; [exact Hb2 |]. split; [done |]. split; [| done]. eapply keeps_trans; [exact Hk1 |]. by apply keeps_same.
Qed.

(** ** All candidates *)
Implicit Types (cands : list (option (Builder * list VersionEdit))) (logs : list (option (list VersionEdit * nat))) (recs : list (option (list VersionEdit))) (names : list (option Slice)).

Definition the_builder (c : option (Builder * list VersionEdit)) : option Builder := fst <$> c.
Definition the_edits (c : option (Builder * list VersionEdit)) : option (list VersionEdit) := snd <$> c.
Definition builders cands : list Builder := fst <$> omap id cands.
Definition added_all (bs : list Builder) : list File := bs ≫= λ b, added_of (levels_ b).
Lemma builders_app cands cands' : builders (cands ++ cands') = builders cands ++ builders cands'.
Proof. unfold builders. by rewrite omap_app, fmap_app. Qed.
Lemma added_all_app bs bs' : added_all (bs ++ bs') = added_all bs ++ added_all bs'.
Proof. unfold added_all. by rewrite bind_app. Qed.

(** What is known after some of the candidates. *)
Record recovering ext fs v (cur : nat) cands (best : option nat * DbState) rc vs : Prop := {
  rv_status : rc_status rc = OK;
  rv_cands : rc_candidates rc = the_builder <$> cands;
  rv_objs : objs_ok (replicate (length (builders cands)) cur ++ ext) (added_all (builders cands) ++ fs) (objects vs);
  rv_builders b es : Some (b, es) ∈ cands -> base_ b = cur /\ builder_ok es b v;
  rv_best : rc_last_seq rc = num (st_last best.2) /\ rc_next_file rc = num (st_next best.2) /\ rc_log_number rc = num (st_log best.2) /\ rc_prev_log_number rc = num (st_prev best.2);
  rv_sel : match rc_selected rc with
           | Some (i, b) => best.1 = Some i /\ ∃ es, cands !! i = Some (Some (b, es)) /\ best.2 = replay es init_state
           | None => best.1 = None
           end
}.

Lemma recovering_select ext fs v cur cands best rc vs b es vs' : let st := replay es init_state in
  recovering ext fs v cur cands best rc vs -> base_ b = cur -> builder_ok es b v ->
  objs_ok (cur :: replicate (length (builders cands)) cur ++ ext) (added_of (levels_ b) ++ added_all (builders cands) ++ fs) (objects vs') ->
  recovering ext fs v cur (cands ++ [Some (b, es)]) (if further st best.2 then (Some (length cands), st) else best) (selected_of (length cands) st b rc) vs'.
Proof.
  intros st [H1 H2 H3 H4 (B1 & B2 & B3 & B4) H6] Eb Hb Ho.
  assert (selected_of (length cands) st b rc = if further st best.2 then MkRecovery (rc_status rc) (rc_candidates rc ++ [Some b]) (Some (length cands, b)) (num (st_next st)) (num (st_last st)) (num (st_log st)) (num (st_prev st))
    else MkRecovery (rc_status rc) (rc_candidates rc ++ [Some b]) (rc_selected rc) (rc_next_file rc) (rc_last_seq rc) (rc_log_number rc) (rc_prev_log_number rc)) as ->.
  { unfold selected_of, select, further. by rewrite B1, B2, B3, B4. }
  split.
  - by destruct (further st best.2).
  - assert (rc_candidates rc ++ [Some b] = the_builder <$> (cands ++ [Some (b, es)])) as E2 by by rewrite fmap_app, H2. by destruct (further st best.2).
  - rewrite builders_app, added_all_app, length_app, Nat.add_1_r. eapply objs_perm; [| | exact Ho]; [done |]. cbn. rewrite app_nil_r, <- app_assoc. apply Permutation_app_swap_app.
  - intros b' es' [Hin | [= -> ->]%list_elem_of_singleton]%elem_of_app; [by apply H4 | done].
  - destruct (further st best.2); [done | by split_and!].
  - destruct (further st best.2); cbn [rc_selected fst snd]; [split; [done |]; exists es; by rewrite list_lookup_middle |]. destruct (rc_selected rc) as [[i b'] |]; [| done].
    destruct H6 as [-> (es' & E6 & ->)]. split; [done |]. exists es'. split; [| done]. apply lookup_app_l_Some, E6.
Qed.
Lemma recovering_none ext fs v cur cands best rc vs : recovering ext fs v cur cands best rc vs -> recovering ext fs v cur (cands ++ [None]) best (no_candidate OK rc) vs.
Proof.
  intros [H1 H2 H3 H4 H5 H6]. unfold no_candidate. rewrite H1. change (ok OK) with true. cbn iota. split; cbn; try done.
  - by rewrite fmap_app, H2.
  - rewrite builders_app. cbn. rewrite app_nil_r. exact H3.
  - intros b es [Hin | ?%list_elem_of_singleton]%elem_of_app; [by apply H4 | done].
  - destruct (rc_selected rc) as [[i b] |]; [| done]. destruct H6 as [-> (es & E6 & ->)]. split; [done |]. exists es. split; [| done]. apply lookup_app_l_Some, E6.
Qed.

Definition is_candidate env v (name : option Slice) (log : option (list VersionEdit * nat)) : Prop :=
  match name, log with Some f, Some (es, n) => candidate env f es n v | None, None => True | _, _ => False end.
(** What is read of a log: at least the part that is known to be there. *)
Definition recovered (log : option (list VersionEdit * nat)) (rec : option (list VersionEdit)) : Prop :=
  match log, rec with Some (es, n), Some es' => ∃ k, (n <= k)%nat /\ es' = take k es | None, None => True | _, _ => False end.

Lemma recover_manifests_ok fuel env ext fs v cur : readable env fuel -> version_wf v -> cur ∈ ext -> ∀ names logs, Forall2 (is_candidate env v) names logs ->
  ∀ cands best rc vs w, recovering ext fs v cur cands best rc vs -> find_version cur (versions_ (objects vs)) = Some w -> files_ w = files_ v -> Z.of_nat (length (compact_pointer_ vs)) = kNumLevels ->
  ∃ recs cands' rc' vs', recover_manifests C cmp_name ndebug fuel (length cands) names cur rc vs env = Some (rc', vs') /\ Forall2 recovered logs recs /\
    the_edits <$> cands' = recs /\ recovering ext fs v cur (cands ++ cands') (choose (C := C) (length cands) recs best) rc' vs' /\ keeps ext (objects vs) (objects vs') /\
    current_ vs' = current_ vs /\ descriptor_log_ vs' = descriptor_log_ vs /\ compact_pointer_ vs' = all_pointers recs (compact_pointer_ vs).
Proof.
  intros Hread Hv Hin names logs HF. induction HF as [| name log names logs Hc HF IH]; intros cands best rc vs w Hrc Ew Efw Hcp; cbn [recover_manifests].
  { exists [], [], rc, vs. rewrite app_nil_r. by split_and!. }
  destruct name as [f |], log as [[es n] |]; try done.
  - destruct (recover_manifest_ok fuel (length cands) f es n rc vs env (replicate (length (builders cands)) cur ++ ext) (added_all (builders cands) ++ fs) v w cur) as
      (k & b & vs1 & Hk & -> & Eb & Hb & Ho1 & Hk1 & Ec1 & Ed1 & Ep1); try done; [by apply Hrc | apply elem_of_app; by right |]. cbn [mbind option_bind].
    pose proof (recovering_select ext fs v cur cands best rc vs b (take k es) vs1 Hrc Eb Hb Ho1) as Hrc1. cbn zeta in Hrc1.
    destruct (same_files_find (objects vs) (objects vs1) ext cur w) as (w1 & Ew1 & Efw1); [intros q Hq; apply Hk1; right; apply elem_of_app; by right | done | done |].
    destruct (IH _ _ _ vs1 w1 Hrc1 Ew1) as (recs & cands' & rc' & vs' & E2 & Hrecs & Erecs & Hrc' & Hk2 & Ec2 & Ed2 & Ep2); [congruence | by rewrite Ep1, length_pointers_after |].
    rewrite length_app, Nat.add_1_r in E2, Hrc'. rewrite E2. exists (Some (take k es) :: recs), (Some (b, take k es) :: cands'), rc', vs'. split; [done |]. split; [constructor; [by exists k | done] |].
    split; [by cbn; rewrite <- Erecs |]. split; [rewrite <- app_assoc in Hrc'; exact Hrc' |]. split; [eapply keeps_trans; [eapply keeps_sub; [| exact Hk1] | exact Hk2]; intros q Hq; right; apply elem_of_app; by right |].
    split; [congruence |]. split; [congruence |]. by rewrite Ep2, Ep1.
  - pose proof (recovering_none ext fs v cur cands best rc vs Hrc) as Hrc1. cbn [mbind option_bind].
    destruct (IH _ _ _ vs w Hrc1 Ew) as (recs & cands' & rc' & vs' & E2 & Hrecs & Erecs & Hrc' & Hk2 & Ec2 & Ed2 & Ep2); [done | done |].
    rewrite length_app, Nat.add_1_r in E2, Hrc'. rewrite E2. exists (None :: recs), (None :: cands'), rc', vs'. split; [done |]. split; [by constructor |].
    split; [by cbn; rewrite <- Erecs |]. split; [rewrite <- app_assoc in Hrc'; exact Hrc' |]. done.
Qed.

Lemma delete_candidates_ok cur fs ext cands : ∀ o, (∀ b es, Some (b, es) ∈ cands -> base_ b = cur) ->
  objs_ok (replicate (length (builders cands)) cur ++ ext) (added_all (builders cands) ++ fs) o ->
  ∃ o', delete_candidates ndebug (the_builder <$> cands) o = Some o' /\ objs_ok ext fs o' /\ keeps ext o o'.
Proof.
  induction cands as [| [[b es] |] cands IH]; intros o Hb Ho; cbn [fmap list_fmap delete_candidates].
  - by exists o.
  - cbn [the_builder fmap option_fmap option_map fst]. cbn in Ho. rewrite <- app_assoc in Ho. rewrite <- (Hb b es) in Ho at 1 by by left.
    destruct (delete_Builder_ok ndebug b _ _ o Ho) as (o1 & -> & Ho1 & Hk1 & _). cbn [mbind option_bind]. destruct (IH o1) as (o2 & -> & Ho2 & Hk2); [intros b' es' Hin; apply (Hb b' es'); by right | done |].
    exists o2. split; [done |]. split; [done |]. eapply keeps_trans; [eapply keeps_sub; [| exact Hk1]; intros q Hq; apply elem_of_app; by right | done].
  - apply IH; [intros b' es' Hin; apply (Hb b' es'); by right | done].
Qed.

(** The chosen version is saved and becomes the current one. *)
Lemma builders_split cands i b es : cands !! i = Some (Some (b, es)) -> ∃ bs, builders cands ≡ₚ b :: bs.
Proof.
  intros E1. apply elem_of_Permutation. unfold builders. apply list_elem_of_fmap. exists (b, es). split; [done |]. apply list_elem_of_omap. exists (Some (b, es)). split; [by eapply list_elem_of_lookup_2 | done].
Qed.
Lemma save_chosen ext fs v cur cands best rc vs i b w : recovering ext fs v cur cands best rc vs -> rc_selected rc = Some (i, b) -> cur ∈ ext -> version_wf v -> metas (files_ v) = st_levels init_state ->
  find_version cur (versions_ (objects vs)) = Some w -> files_ w = files_ v ->
  (∀ es, Some es ∈ the_edits <$> cands -> fresh es v /\ ∀ level files, files_ v !! level = Some files -> disjoint_level (C := C) ndebug level (replay_level (C := C) level es (f_meta <$> files))) ->
  ∃ F o, SaveTo C ndebug b new_Version (objects vs) = Some (set_files F new_Version, o) /\ metas F = st_levels best.2 /\ version_wf (set_files F new_Version) /\
    objs_ok (replicate (length (builders cands)) cur ++ ext) (concat F ++ added_all (builders cands) ++ fs) o /\ versions_ o = versions_ (objects vs).
Proof.
  intros [H1 H2 H3 H4 H5 H6] Es Hin Hv Hinit Ew Efw Hes. rewrite Es in H6. destruct H6 as [_ (es & E6 & ->)]. assert (Some (b, es) ∈ cands) as Hb by by eapply list_elem_of_lookup_2.
  destruct (H4 b es Hb) as [Eb Hok]. destruct (Hes es) as [Hf Hd]; [change (Some es) with (the_edits (Some (b, es))); by apply list_elem_of_fmap_2 |].
  destruct (builders_split cands i b es E6) as [bs Hperm].
  destruct (SaveTo_ok (C := C) ndebug es b w (replicate (length (builders cands)) cur ++ ext) (added_all bs ++ fs) (objects vs)) as (F & o & -> & Em & Hwf & Ho & Ev).
  - eapply objs_perm; [reflexivity | | exact H3]. rewrite app_assoc. apply Permutation_app_tail. unfold added_all. by rewrite Hperm.
  - by rewrite Eb.
  - unfold VersionSetProps.version_wf. by rewrite Efw.
  - destruct Hok as [? Hok]. split; [done |]. intros level st files Est Ef. rewrite Efw in Ef. by apply Hok.
  - intros level files Ef. rewrite Efw in Ef. by apply Hf.
  - intros level files Ef. rewrite Efw in Ef. by apply Hd.
  - exists F, o. split; [done |]. split; [| split; [done |]; split; [| done]].
    + rewrite Em, Efw, Hinit. apply list_eq. intros level. by rewrite list_lookup_imap, replay_levels.
    + eapply objs_perm; [reflexivity | | exact Ho]. apply Permutation_app_head. rewrite app_assoc. apply Permutation_app_tail. unfold added_all. by rewrite Hperm.
Qed.

Lemma candidate_prefix env v names logs recs : Forall2 (is_candidate env v) names logs -> Forall2 recovered logs recs -> ∀ es, Some es ∈ recs ->
  Forall loggable es /\ fresh es v /\ ∀ level files, files_ v !! level = Some files -> disjoint_level (C := C) ndebug level (replay_level (C := C) level es (f_meta <$> files)).
Proof.
  intros HF HR es Hin. apply list_elem_of_lookup in Hin as [i Ei]. destruct (Forall2_lookup_r _ _ _ _ _ HR Ei) as (log & El & Hrec). destruct (Forall2_lookup_r _ _ _ _ _ HF El) as (name & Ename & Hc).
  destruct log as [[es0 n] |]; [| done]. destruct Hrec as (k & Hk & ->). destruct name as [f |]; [| done]. destruct Hc as [_ Hl _ Hf Hd]. split; [by apply Forall_take |]. split; [| intros level files; by apply Hd].
  eapply fresh_prefix. by rewrite take_drop.
Qed.

(** What [Recover] leaves in the version set, for the state of the manifest that was chosen. *)
Definition recovered_set (i : nat) st recs vs v : Prop :=
  metas (files_ v) = st_levels st /\ compact_pointer_ vs = all_pointers recs (st_pointers init_state) /\ descriptor_log_ vs = None /\
  vs_log_number_ vs = num (st_log st) /\ vs_prev_log_number_ vs = num (st_prev st) /\ vs_last_sequence_ vs = num (st_last st) /\
  if rotating_manifest options then vs_next_file_number_ vs = num (st_next st) /\ manifest_file_number_ vs = (if decide (i = O) then 2 else 1)
  else vs_next_file_number_ vs = u64 (num (st_next st) + 1) /\ manifest_file_number_ vs = num (st_next st).

Lemma Recover_spec fuel env names logs : readable env fuel -> find_manifests ndebug dbname_ fuel env = Some (OK, names) -> Forall2 (is_candidate env new_Version) names logs ->
  ∃ recs s vs' v', Recover C cmp_name ndebug dbname_ options fuel new_VersionSet env = Some (s, vs') /\ Forall2 recovered logs recs /\ set_ok (C := C) (valid := valid) [] [] vs' v' /\
    match choose (C := C) 0 recs (None, init_state) with
    | (Some i, st) => s = OK /\ recovered_set i st recs vs' v'
    | (None, _) => s = MkStatus kCorruption dbname_ (lit "No valid db manifest found") /\ files_ v' = files_ new_Version
    end.
Proof.
  intros Hread Hfind HF. destruct (new_VersionSet_ok (C := C) (valid := valid) (H := H)) as [Ho Ev Hv Hcp]. unfold Recover. rewrite Hfind. cbn [mbind option_bind].
  destruct (Version_Ref_ok 0 [0%nat] [] (objects new_VersionSet) Ho ltac:(by left)) as (o1 & E1 & Ho1 & _ & _ & Hf1). change (current_ new_VersionSet) with 0%nat. rewrite E1. cbn [mbind option_bind].
  destruct (find_version 0 (versions_ o1)) as [w |] eqn:Ew; [| by specialize (Hf1 O); rewrite Ew in Hf1]. assert (files_ w = files_ new_Version) as Efw by (specialize (Hf1 O); rewrite Ew in Hf1; by injection Hf1).
  set (vs1 := set_objects o1 0 new_VersionSet). assert (recovering [0; 0]%nat [] new_Version 0 [] (None, init_state) (MkRecovery OK [] None 0 0 0 0) vs1) as Hrc.
  { split; try done. by intros b es ?%elem_of_nil. }
  destruct (recover_manifests_ok fuel env [0; 0]%nat [] new_Version 0 Hread (new_version_wf (C := C) (valid := valid)) ltac:(by left) names logs HF [] (None, init_state) _ vs1 w Hrc Ew Efw Hcp)
    as (recs & cands & rc & vs2 & E2 & Hrecs & Erecs & Hrc2 & Hk2 & Ec2 & Ed2 & Ep2). cbn [length app] in E2, Hrc2. rewrite E2. cbn [mbind option_bind]. rewrite (rv_status _ _ _ _ _ _ _ _ Hrc2). change (ok OK) with true. cbn iota.
  destruct (same_files_find o1 (objects vs2) [0; 0]%nat 0 w Hk2 ltac:(by left) Ew) as (w2 & Ew2 & Efw2).
  pose proof (rv_sel _ _ _ _ _ _ _ _ Hrc2) as Hsel. destruct (rc_selected rc) as [[i b] |] eqn:Es.
  - destruct Hsel as [Ebest _]. destruct (save_chosen [0; 0]%nat [] new_Version 0 cands _ rc vs2 i b w2 Hrc2 Es ltac:(by left) new_version_wf ltac:(done) Ew2 ltac:(congruence)) as (F & o3 & -> & Em & Hwf & Ho3 & Ev3).
    { intros es Hes. rewrite Erecs in Hes. by destruct (candidate_prefix env new_Version names logs recs HF Hrecs es Hes) as (_ & ? & ?). }
    cbn [mbind option_bind]. set (vs3 := set_objects o3 (current_ vs2) vs2). change (current_ vs1) with 0%nat in Ec2.
    destruct (finish_ok (C := C) (valid := valid) ndebug options F (0%nat :: replicate (length (builders cands)) 0%nat) (added_all (builders cands) ++ []) vs3) as (o4 & p & v4 & -> & [Ho4 Ev4 Hv4 Hcp4] & Ef4 & _); [| done | |].
    { cbn. rewrite Ec2. eapply objs_perm; [| reflexivity | exact Ho3]. rewrite Permutation_app_comm. done. }
    { cbn [vs3 set_objects compact_pointer_]. rewrite Ep2. by rewrite length_all_pointers. }
    cbn [mbind option_bind]. destruct (if negb (rotating_manifest options) then _ else _) as [next manifest] eqn:En. cbn [mbind option_bind]. rewrite (rv_cands _ _ _ _ _ _ _ _ Hrc2).
    destruct (delete_candidates_ok 0 [] [p; 0]%nat cands o4) as (o5 & E5 & Ho5 & Hk5); [intros b' es' Hin; by eapply (rv_builders _ _ _ _ _ _ _ _ Hrc2) | |].
    { eapply objs_perm; [| reflexivity | exact Ho4]. cbn [set_objects current_ app]. rewrite (Permutation_app_comm _ [p; 0]%nat). done. }
    cbn [set_numbers set_objects objects]. rewrite E5. cbn [mbind option_bind].
    destruct (Version_Unref_ok ndebug 0 [p] [] o5) as (o6 & -> & Ho6 & _ & Hk6); [eapply objs_perm; [apply Permutation_swap | reflexivity | exact Ho5] |]. cbn [mbind option_bind].
    destruct (same_files_find o4 o6 [p] p v4) as (v6 & Ev6 & Ef6); [eapply keeps_trans; [eapply keeps_sub; [| exact Hk5]; intros q ->%list_elem_of_singleton; by left | exact Hk6] | by left | exact Ev4 |].
    eexists recs, OK, _, v6. split; [reflexivity |]. split; [done |]. split; [split; [exact Ho6 | exact Ev6 | unfold VersionSetProps.version_wf; by rewrite Ef6 | exact Hcp4] |].
    destruct (choose 0 recs (None, init_state)) as [ibest st]. cbn [fst snd] in *. subst ibest. split; [done |]. unfold recovered_set. rewrite Ef6, Ef4. split; [done |]. split; [exact Ep2 |]. split; [exact Ed2 |].
    destruct (rv_best _ _ _ _ _ _ _ _ Hrc2) as (B1 & B2 & B3 & B4). cbn [snd] in *. rewrite B1, B2, B3, B4 in *. cbn. split; [done |]. split; [done |]. split; [done |].
    destruct (rotating_manifest options); cbn [negb] in En; by injection En as <- <-.
  - cbn [mbind option_bind]. rewrite (rv_cands _ _ _ _ _ _ _ _ Hrc2). destruct (delete_candidates_ok 0 [] [0; 0]%nat cands (objects vs2)) as (o5 & E5 & Ho5 & Hk5); [intros b' es' Hin; by eapply (rv_builders _ _ _ _ _ _ _ _ Hrc2) | by apply Hrc2 |].
    rewrite E5. cbn [mbind option_bind]. destruct (Version_Unref_ok ndebug 0 [0%nat] [] o5 Ho5) as (o6 & -> & Ho6 & _ & Hk6). cbn [mbind option_bind].
    destruct (same_files_find (objects vs2) o6 [0%nat] 0 w2) as (v6 & Ev6 & Ef6); [eapply keeps_trans; [eapply keeps_sub; [| exact Hk5]; intros q ->%list_elem_of_singleton; by left | exact Hk6] | by left | exact Ew2 |].
    eexists recs, _, _, v6. split; [reflexivity |]. split; [done |]. change (current_ vs1) with 0%nat in Ec2.
    split; [split; [cbn; by rewrite Ec2 | unfold current_version; cbn; by rewrite Ec2 | unfold VersionSetProps.version_wf; rewrite Ef6, Efw2, Efw; apply new_version_wf | cbn; rewrite Ep2; by rewrite length_all_pointers] |].
    destruct (choose 0 recs (None, init_state)) as [ibest st]. cbn [fst] in Hsel. subst ibest. split; [done |]. by rewrite Ef6, Efw2, Efw.
Qed.

(** C30. Recovery.  After a crash every manifest that is there is a log cut somewhere behind the edits that are known to be in it.  [Recover] of a new version set reads
    a prefix of each log, no shorter than what is known to be there; it chooses the last one that is not behind those before it, and the version set gets the levels and the
    numbers that this prefix replays to, with exact reference counts.  Without any manifest the result is the error for that, and the set stays empty. *)
Theorem recover_ok fuel env names logs : readable env fuel -> find_manifests ndebug dbname_ fuel env = Some (OK, names) -> Forall2 (is_candidate env new_Version) names logs ->
  ∃ recs s vs' v', Recover C cmp_name ndebug dbname_ options fuel new_VersionSet env = Some (s, vs') /\ Forall2 recovered logs recs /\ set_ok (C := C) (valid := valid) [] [] vs' v' /\
    match choose (C := C) 0 recs (None, init_state) with
    | (Some i, st) => s = OK /\ recovered_set i st recs vs' v'
    | (None, _) => s = MkStatus kCorruption dbname_ (lit "No valid db manifest found") /\ files_ v' = files_ new_Version
    end.
Proof. apply Recover_spec. Qed.

(** ** What was logged is recovered *)
Definition word_or_none (n : option Z) : Prop := match n with Some n => word 64 n | None => True end.
Lemma replay_words es st : Forall loggable es -> word_or_none (st_log st) /\ word_or_none (st_prev st) /\ word_or_none (st_next st) /\ word_or_none (st_last st) ->
  let st' := replay es st in word_or_none (st_log st') /\ word_or_none (st_prev st') /\ word_or_none (st_next st') /\ word_or_none (st_last st').
Proof.
  intros Hl. revert st. induction Hl as [| e es He Hl IH]; intros st Hst; [done |]. apply (IH (edit_state (C := C) e st)). destruct He as ([_ [H1 _] [H2 _] [H3 _] [H4 _] _ _ _ _] & _).
  cbn. unfold update_number. destruct Hst as (S1 & S2 & S3 & S4). split_and!; by case_match.
Qed.
Lemma num_word n : word_or_none n -> 0 <= num n.
Proof. destruct n as [n |]; cbn; [by intros [? _] | done]. Qed.
Lemma further_init es : Forall loggable es -> further (replay es init_state) init_state = true.
Proof.
  intros Hl. destruct (replay_words es init_state Hl) as (H1 & H2 & H3 & H4); [done |]. unfold further. cbn [init_state st_last st_next st_log st_prev num default].
  by rewrite !(proj2 (Z.leb_le _ _)) by by apply num_word.
Qed.

(** One candidate. *)
Lemma choose_none l i best cp : omap id l = [] -> choose (C := C) i l best = best /\ all_pointers l cp = cp.
Proof. revert i cp. induction l as [| [es |] l IH]; intros i cp E1; [done | done |]. exact (IH (Datatypes.S i) cp E1). Qed.
Lemma choose_one l i best cp es : omap id l = [es] -> further (replay es init_state) best.2 = true ->
  (∃ j, choose (C := C) i l best = (Some j, replay es init_state)) /\ all_pointers l cp = pointers_after es cp.
Proof.
  revert i cp. induction l as [| [es' |] l IH]; intros i cp E1 Hf; [done | | exact (IH (Datatypes.S i) cp E1 Hf)]. injection E1 as -> E1. cbn [choose]. cbn zeta. rewrite Hf.
  destruct (choose_none l (Datatypes.S i) (Some i, replay es init_state) (pointers_after es cp) E1) as [-> Ep]. split; [by exists i | exact Ep].
Qed.
Definition one_log es names : list (option (list VersionEdit * nat)) := (λ name : option Slice, (λ _, (es, length es)) <$> name) <$> names.
Lemma recovered_whole es names recs : Forall2 recovered (one_log es names) recs -> omap id recs = (λ _, es) <$> omap id names.
Proof.
  revert recs. induction names as [| name names IH]; intros recs HR; cbn in HR; inversion HR as [| log rec logs recs' Hr HR']; subst; [done |]. destruct name as [f |], rec as [es' |]; cbn in *; try done.
  - destruct Hr as (k & Hk & ->). rewrite firstn_all2 by lia. f_equal. by apply IH.
  - by apply IH.
Qed.

(** C29. What was logged is recovered.  When the state of a version set is what its manifest replays to, as it is after every successful [LogAndApply], a new version
    set that finds this manifest, and no other, recovers the same state: the files of every level, the compaction pointers and the numbers. *)
Theorem recover_logged fuel env names f es vs v : logging (C := C) (valid := valid) cmp_name f es vs v env -> replay es init_state = state_of vs v ->
  fresh es new_Version -> (∀ level ms, metas (files_ v) !! level = Some ms -> disjoint_level (C := C) ndebug level ms) ->
  readable env fuel -> find_manifests ndebug dbname_ fuel env = Some (OK, names) -> omap id names = [f] ->
  ∃ vs' v', Recover C cmp_name ndebug dbname_ options fuel new_VersionSet env = Some (OK, vs') /\ set_ok (C := C) (valid := valid) [] [] vs' v' /\
    metas (files_ v') = metas (files_ v) /\ compact_pointer_ vs' = compact_pointer_ vs /\
    vs_log_number_ vs' = vs_log_number_ vs /\ vs_prev_log_number_ vs' = vs_prev_log_number_ vs /\ vs_last_sequence_ vs' = vs_last_sequence_ vs /\
    vs_next_file_number_ vs' = (if rotating_manifest options then vs_next_file_number_ vs else u64 (vs_next_file_number_ vs + 1)).
Proof.
  intros ((w & _ & (_ & Ec & _)) & Hl & _ & _) Est Hf Hd Hread Hfind Hnames. destruct (Recover_spec fuel env names (one_log es names) Hread Hfind) as (recs & s & vs' & v' & -> & Hrecs & Hset & Hres).
  { unfold one_log. apply Forall2_fmap_r, Forall2_same_length_lookup_2; [done |]. intros i nm nm' E1 E2. assert (nm' = nm) as -> by congruence. destruct nm as [g |]; [| done]. cbn.
    assert (g ∈ omap id names) as Hg by (apply list_elem_of_omap; exists (Some g); split; [by eapply list_elem_of_lookup_2 | done]). rewrite Hnames in Hg. apply list_elem_of_singleton in Hg as ->.
    split; try done.
    - exists (length (log_bytes 0 (edit_bytes <$> es))). rewrite !firstn_all. by split.
    - split; [done |]. rewrite firstn_all, Est. by split_and!.
    - intros k level files Hk Ef. rewrite firstn_all2 by done. apply Hd. change (metas (files_ v)) with (st_levels (state_of vs v)). rewrite <- Est, replay_levels.
      change (st_levels init_state) with (metas (files_ new_Version)). by rewrite metas_lookup, Ef. }
  pose proof (recovered_whole es names recs Hrecs) as Erecs. rewrite Hnames in Erecs. destruct (choose_one recs 0 (None, init_state) (st_pointers init_state) es Erecs (further_init es Hl)) as [(j & Ej) Ep].
  rewrite Ej in Hres. destruct Hres as [-> (R1 & R2 & _ & R4 & R5 & R6 & R7)]. exists vs', v'. split; [done |]. split; [done |]. rewrite Ep, <- pointers_replay in R2. rewrite Est in *. cbn in R1, R2, R4, R5, R6, R7.
  split; [done |]. split; [done |]. split; [done |]. split; [done |]. split; [done |]. destruct (rotating_manifest options); by destruct R7.
Qed.
End Replay.

(** ** Examples *)
Local Abbreviation Bytewise := (BytewiseComparator false).
Definition rotating_options : DbOptions :=
  MkDbOptions false false (4 * 1048576) (table_options new_DbOptions)
    false false false true false false false false false false (256 * 1024) (2 * 1048576) 2 10 5 4 8 12.
Definition example_edits : list VersionEdit := [completed example_new example_set].
Definition logged_set : VersionSet Slice := set_descriptor (Some (MkWriter example_file (end_block 0 (edit_bytes <$> example_edits)) 0)) (set_numbers 6 2 40 5 0 new_VersionSet).
Definition logged_version : Version := set_files (((λ p, MkFile 0 p.2) <$> new_files_ example_new) :: replicate 6 []) new_Version.
Definition logged_env : MemEnv := {[example_file := log_bytes 0 (edit_bytes <$> example_edits)]}.

Lemma example_edits_ok : Forall (loggable (valid := bytes) example_name) example_edits.
Proof. apply list.Forall_singleton. eapply completed_loggable; [exact example_loggable | exact example_fits]. Qed.
Lemma example_fresh : fresh example_edits new_Version.
Proof. intros level files Ef. unfold all_new, example_edits. cbn [mbind list_bind]. rewrite app_nil_r. by apply (proj1 (proj2 example_edit_fits)). Qed.
Lemma example_logged_lookup : logged_env !! example_file = Some (log_bytes 0 (edit_bytes <$> example_edits)).
Proof. apply lookup_singleton_eq. Qed.
Lemma recover_logged_witness : ∃ vs' v', Recover Bytewise example_name false (lit "/db") rotating_options 200 (new_VersionSet (H := Slice)) logged_env = Some (OK, vs') /\
  set_ok (C := Bytewise) (valid := bytes) [] [] vs' v' /\ metas (files_ v') = metas (files_ logged_version) /\ vs_next_file_number_ vs' = 6.
Proof.
  destruct (recover_logged (C := Bytewise) (valid := bytes) (λ u Hu, Hu) example_name false (lit "/db") rotating_options 200 logged_env [None; Some example_file; None] example_file example_edits logged_set logged_version)
    as (vs' & v' & Er & Hs & Hm & _ & _ & _ & _ & Hn).
  - split; [| split; [exact example_edits_ok | by split]]. eexists. split; [reflexivity |]. split; [split; [done | by rewrite example_logged_lookup] |]. split; [exact example_logged_lookup | done].
  - reflexivity.
  - exact example_fresh.
  - intros [| level] ms Em; [right; by left |]. right; right. cbn in Em. change (metas (replicate 6 []) !! level = Some ms) in Em. rewrite metas_lookup in Em.
    destruct (replicate 6 (@nil File) !! level) as [fs |] eqn:Ef; [| done]. apply lookup_replicate in Ef as [-> _]. injection Em as <-. apply Sorted_nil.
  - split; [done |]. intros name c Hc. change (logged_env !! name = Some c) in Hc. unfold logged_env in Hc. apply lookup_singleton_Some in Hc as [<- <-]. split; [by_compute | by_compute].
  - vm_compute. reflexivity.
  - done.
  - exists vs', v'. split; [exact Er |]. split; [exact Hs |]. split; [exact Hm | exact Hn].
Defined.

(** Two manifests: the first one is whole; the second one, which is further on, is cut within its second record. *)
Definition older_edits : list VersionEdit := [completed new_VersionEdit example_set].
Definition cut_edits : list VersionEdit := example_edits ++ [completed (DeleteFile 0 5 new_VersionEdit) logged_set].
Definition other_file : Slice := lit "/db/MANIFEST-000001".
Definition cut_at : nat := (length (log_bytes 0 (edit_bytes <$> example_edits)) + 9)%nat.
Definition crashed_env : MemEnv := <[other_file := log_bytes 0 (edit_bytes <$> older_edits)]> {[example_file := take cut_at (log_bytes 0 (edit_bytes <$> cut_edits))]}.

Lemma crashed_lookup_1 : crashed_env !! other_file = Some (log_bytes 0 (edit_bytes <$> older_edits)).
Proof. apply lookup_insert_eq. Qed.
Lemma crashed_lookup_2 : crashed_env !! example_file = Some (take cut_at (log_bytes 0 (edit_bytes <$> cut_edits))).
Proof. unfold crashed_env. rewrite lookup_insert_ne by done. apply lookup_singleton_eq. Qed.
Lemma loggable_empty : loggable (valid := bytes) example_name new_VersionEdit.
Proof.
  split; [split; try (split; [by_compute | done]); try apply Forall_nil_2; apply SSorted_nil |]. split; [split; [| split]; apply Forall_nil_2 |]. split; [apply Forall_nil_2 | done].
Qed.
Lemma loggable_delete : loggable (valid := bytes) example_name (DeleteFile 0 5 new_VersionEdit).
Proof.
  split; [split; try (split; [by_compute | done]); try apply Forall_nil_2; [apply list.Forall_singleton; split; by_compute | apply SSorted_cons; [apply SSorted_nil | apply Forall_nil_2]] |].
  split; [split; [| split]; try apply Forall_nil_2; by_compute |]. split; [apply Forall_nil_2 | done].
Qed.
Lemma older_candidate : candidate (valid := bytes) (C := Bytewise) example_name false crashed_env other_file older_edits 1 new_Version.
Proof.
  split.
  - exists (length (log_bytes 0 (edit_bytes <$> older_edits))). rewrite firstn_all. split; [exact crashed_lookup_1 | done].
  - apply list.Forall_singleton. eapply completed_loggable; [exact loggable_empty | exact example_fits].
  - split; [done |]. by split_and!.
  - intros level files [-> _]%lookup_replicate. apply NoDup_nil_2.
  - intros k level files _ [-> _]%lookup_replicate. right; right. destruct k as [| [| k]]; apply Sorted_nil.
Qed.
Lemma cut_candidate : candidate (valid := bytes) (C := Bytewise) example_name false crashed_env example_file cut_edits 1 new_Version.
Proof.
  split.
  - exists cut_at. split; [exact crashed_lookup_2 |]. change (take 1 cut_edits) with example_edits. unfold cut_at. lia.
  - apply Forall_app. split; [exact example_edits_ok |]. apply list.Forall_singleton. eapply (completed_loggable _ _ _ (set_refs 1 new_Version)); [exact loggable_delete |].
    destruct example_fits. split; try done; by_compute.
  - split; [cbn; lia |]. by split_and!.
  - intros level files Ef. exact (example_fresh level files Ef).
  - intros k level files Hk [-> _]%lookup_replicate. destruct level as [| level]; [right; by left | right; right]. destruct k as [| [| [| k]]]; [lia | apply Sorted_nil..].
Qed.
Lemma recover_ok_witness : ∃ recs s vs' v', Recover Bytewise example_name false (lit "/db") rotating_options 300 (new_VersionSet (H := Slice)) crashed_env = Some (s, vs') /\
  Forall2 recovered [Some (older_edits, 1%nat); Some (cut_edits, 1%nat); None] recs /\ set_ok (C := Bytewise) (valid := bytes) [] [] vs' v'.
Proof.
  destruct (recover_ok (C := Bytewise) (valid := bytes) (λ u Hu, Hu) example_name false (lit "/db") rotating_options 300 crashed_env [Some other_file; Some example_file; None]
    [Some (older_edits, 1%nat); Some (cut_edits, 1%nat); None]) as (recs & s & vs' & v' & Er & Hr & Hs & _).
  - split; [done |]. intros name c Hc. change (crashed_env !! name = Some c) in Hc. unfold crashed_env in Hc. apply lookup_insert_Some in Hc as [[<- <-] | [_ Hc]]; [by split; by_compute |].
    apply lookup_singleton_Some in Hc as [<- <-]. by split; by_compute.
  - vm_compute. reflexivity.
  - constructor; [exact older_candidate |]. constructor; [exact cut_candidate |]. constructor; [exact I | constructor].
  - exists recs, s, vs', v'. split; [exact Er |]. split; [exact Hr | exact Hs].
Defined.
