(* ===== verification/Compaction.v ===== *)
(** * Compactions ([leveldb/db/version_set.h], [version_set.cc]: [Compaction] and the operations of [VersionSet] that make one)

    A compaction merges files of a level with the files of the next level that overlap them.  What it reads is chosen here, with the
    questions that [DBImpl::DoCompactionWork] asks while it merges: whether deeper levels may hold a key, and whether the output overlaps too much of them. *)
From Stdlib Require Import Floats.SpecFloat.
From S2P Require Import Prelude Status Coding Comparator Iterator TwoLevel Merger VersionEdit.
From S2P Require Import DbOptions Version VersionSet Table.

Record Compaction := MkCompaction {
  level_ : Z; max_output_file_size_ : Z; max_grand_parent_overlap_bytes_ : Z;
  input_version_ : option nat; edit_ : VersionEdit; inputs_ : list File * list File;
  grandparents_ : list File; grandparent_index_ : nat; seen_key_ : bool; overlapped_bytes_ : Z;
  level_ptrs_ : list nat
}.

(** ** One compaction *)
Section Compaction.
Context (C : Comparator) (ndebug : bool).
Implicit Types (c : Compaction) (f : File) (files : list File) (v : Version).

Definition new_Compaction (options : DbOptions) (level : Z) : Compaction :=
  MkCompaction level (u64 (MaxFileSizeForLevel options level)) (MaxGrandParentOverlapBytes options) None new_VersionEdit ([], []) [] 0 false 0
    (replicate (Z.to_nat kNumLevels) 0%nat).
Definition num_input_files (which : bool) c : Z := sword 32 (Z.of_nat (length (if which then (inputs_ c).2 else (inputs_ c).1))).

Definition set_inputs (inputs : list File * list File) c : Compaction :=
  MkCompaction (level_ c) (max_output_file_size_ c) (max_grand_parent_overlap_bytes_ c) (input_version_ c) (edit_ c) inputs (grandparents_ c) (grandparent_index_ c) (seen_key_ c) (overlapped_bytes_ c) (level_ptrs_ c).
Definition set_input_version (p : option nat) c : Compaction :=
  MkCompaction (level_ c) (max_output_file_size_ c) (max_grand_parent_overlap_bytes_ c) p (edit_ c) (inputs_ c) (grandparents_ c) (grandparent_index_ c) (seen_key_ c) (overlapped_bytes_ c) (level_ptrs_ c).
Definition set_edit (e : VersionEdit) c : Compaction :=
  MkCompaction (level_ c) (max_output_file_size_ c) (max_grand_parent_overlap_bytes_ c) (input_version_ c) e (inputs_ c) (grandparents_ c) (grandparent_index_ c) (seen_key_ c) (overlapped_bytes_ c) (level_ptrs_ c).
Definition set_grandparents (files : list File) c : Compaction :=
  MkCompaction (level_ c) (max_output_file_size_ c) (max_grand_parent_overlap_bytes_ c) (input_version_ c) (edit_ c) (inputs_ c) files (grandparent_index_ c) (seen_key_ c) (overlapped_bytes_ c) (level_ptrs_ c).
Definition set_overlap (index : nat) (seen : bool) (bytes : Z) c : Compaction :=
  MkCompaction (level_ c) (max_output_file_size_ c) (max_grand_parent_overlap_bytes_ c) (input_version_ c) (edit_ c) (inputs_ c) (grandparents_ c) index seen bytes (level_ptrs_ c).
Definition set_level_ptrs (ptrs : list nat) c : Compaction :=
  MkCompaction (level_ c) (max_output_file_size_ c) (max_grand_parent_overlap_bytes_ c) (input_version_ c) (edit_ c) (inputs_ c) (grandparents_ c) (grandparent_index_ c) (seen_key_ c) (overlapped_bytes_ c) ptrs.

Definition IsTrivialMove c : bool :=
  (num_input_files false c =? 1) && (num_input_files true c =? 0) && (TotalFileSize (grandparents_ c) <=? max_grand_parent_overlap_bytes_ c).

Definition AddInputDeletions c (e : VersionEdit) : VersionEdit :=
  let delete (level : Z) files e := foldl (λ e f, DeleteFile level (number (f_meta f)) e) e files in
  delete (level_ c + 1) (inputs_ c).2 (delete (level_ c) (inputs_ c).1 e).

(** [IsBaseLevelForKey]: the pointer of a level passes the files that end before the key; the result is whether the next file holds it. *)
Fixpoint pass_files (user_key : Slice) files (ptr : nat) : option (bool * nat) :=
  match files with
  | [] => Some (false, ptr)
  | f :: files =>
      l ← ExtractUserKey (largest (f_meta f)); r ← Compare user_key l;
      if bool_decide (r = Gt) then pass_files user_key files (S ptr)
      else s ← ExtractUserKey (smallest (f_meta f)); r ← Compare user_key s; Some (negb (bool_decide (r = Lt)), ptr)
  end.
Fixpoint base_levels (user_key : Slice) (levels : list (list File)) (ptrs : list nat) : option (bool * list nat) :=
  match levels, ptrs with
  | files :: levels, ptr :: ptrs =>
      '(inside, ptr) ← pass_files user_key (drop ptr files) ptr;
      if (inside : bool) then Some (false, ptr :: ptrs) else '(base, ptrs) ← base_levels user_key levels ptrs; Some (base, ptr :: ptrs)
  | _, _ => Some (true, ptrs)
  end.
(** [v] is the input version. *)
Definition IsBaseLevelForKey v (user_key : Slice) c : option (bool * Compaction) :=
  let lvl := Z.to_nat (level_ c + 2) in
  '(base, ptrs) ← base_levels user_key (drop lvl (files_ v)) (drop lvl (level_ptrs_ c));
  Some (base, set_level_ptrs (take lvl (level_ptrs_ c) ++ ptrs) c).

(** [ShouldStopBefore]: the grandparents that end before the key are passed. *)
Fixpoint pass_grandparents (internal_key : Slice) (seen : bool) files (index : nat) (overlapped : Z) : option (nat * Z) :=
  match files with
  | [] => Some (index, overlapped)
  | f :: files =>
      l ← InternalKey_Encode ndebug (largest (f_meta f)); r ← InternalKey_Compare C internal_key l;
      if bool_decide (r = Gt) then pass_grandparents internal_key seen files (S index) (if seen then sword 64 (overlapped + file_size (f_meta f)) else overlapped)
      else Some (index, overlapped)
  end.
Definition ShouldStopBefore (internal_key : Slice) c : option (bool * Compaction) :=
  '(index, overlapped) ← pass_grandparents internal_key (seen_key_ c) (drop (grandparent_index_ c) (grandparents_ c)) (grandparent_index_ c) (overlapped_bytes_ c);
  if overlapped >? max_grand_parent_overlap_bytes_ c then Some (true, set_overlap index true 0 c)
  else Some (false, set_overlap index true overlapped c).

(** The destructor drops the reference too; the objects are those of the version set. *)
Definition ReleaseInputs c (o : Objects) : option (Compaction * Objects) :=
  match input_version_ c with
  | Some p => o ← Version_Unref ndebug p o; Some (set_input_version None c, o)
  | None => Some (c, o)
  end.
Definition delete_Compaction c (o : Objects) : option Objects := '(_, o) ← ReleaseInputs c o; Some o.
End Compaction.

(** ** What is merged *)
Section Inputs.
Context {D : Type} `{Iterator D} (C : Comparator) (ndebug : bool) (options : DbOptions).
(** [TableCache::NewIterator] or [NewDirectIterator], which reads the whole file: number, size and offset of a file. *)
Context (table_iterator : bool -> Z -> Z -> Z -> option D).
Implicit Types (c : Compaction) (files : list File).
#[local] Hint Extern 0 (Iterator LevelFileNumIterator) => exact (LevelFileNumIterator_Iterator C ndebug) : typeclass_instances.
#[local] Hint Extern 0 (Iterator EmptyIterator) => exact (EmptyIterator_Iterator ndebug) : typeclass_instances.

Definition file_iterator (prefetch : bool) (f : File) : option D := table_iterator prefetch (number (f_meta f)) (file_size (f_meta f)) (seq_off (f_meta f)).
(** [GetFileIterator] and [GetPrefetchedFileIterator]. *)
Definition GetFileIterator (prefetch : bool) (file_value : Slice) : option (D + EmptyIterator) :=
  if negb (|[file_value]| =? 24) then Some (inr (NewErrorIterator (MkStatus kCorruption (lit "Bad file_num/file_size/seq_off encoding") [])))
  else
    n ← DecodeFixed64 file_value; size ← DecodeFixed64 (drop 8 file_value); off ← DecodeFixed64 (drop 16 file_value);
    inl <$> table_iterator prefetch n size off.

Abbreviation LevelIterator := (TwoLevelIterator LevelFileNumIterator (D + EmptyIterator)).
Abbreviation InputIterator := (D + LevelIterator)%type.
(** The fuel bounds the empty files that are skipped. *)
Definition input_iterator (prefetch : bool) (fuel : nat) : Iterator InputIterator :=
  @Sum_Iterator _ _ _ (TwoLevel_Iterator ndebug (GetFileIterator prefetch) fuel).

Definition concatenating (files : list File) : option InputIterator := it ← new_TwoLevel (new_LevelFileNumIterator files); Some (inr it).
(** The children of [MakeInputIterator], which [NewMergingIterator] merges. *)
Definition input_children c : option (list InputIterator) :=
  let group (level : Z) files : option (list InputIterator) :=
    if bool_decide (files = []) then Some []
    else if level =? 0 then mapM (λ f, inl <$> file_iterator (prefetch_compaction_input options) f) files
    else it ← concatenating files; Some [it] in
  l0 ← group (level_ c) (inputs_ c).1;
  l1 ← group (level_ c + 1) (inputs_ c).2;
  Some (l0 ++ l1).
Definition MakeInputIterator (fuel : nat) c : option (MergingIterator InputIterator + (InputIterator + EmptyIterator)) :=
  children ← input_children c; NewMergingIterator (H := input_iterator (prefetch_compaction_input options) fuel) children.

(** The children of an iterator over a version, none of them prefetched. *)
Definition AddIterators (v : Version) : option (list InputIterator) :=
  match files_ v with
  | [] => None
  | files :: levels =>
      l0 ← mapM (λ f, inl <$> file_iterator false f) files;
      ls ← mapM concatenating (filter (λ files, files <> []) levels);
      Some (l0 ++ ls)
  end.
End Inputs.

(** ** Making a compaction *)
Section Making.
Context {H : Type} (C : Comparator) (ndebug : bool) (options : DbOptions).
Implicit Types (vs : VersionSet H) (c : Compaction) (f : File) (files : list File) (v : Version).

(** [icmp_.Compare] of two internal keys. *)
Definition icmp_Compare (a b : Slice) : option comparison :=
  a ← InternalKey_Encode ndebug a; b ← InternalKey_Encode ndebug b; InternalKey_Compare C a b.
Fixpoint range_loop files (smallest_ largest_ : Slice) : option (Slice * Slice) :=
  match files with
  | [] => Some (smallest_, largest_)
  | f :: files =>
      r ← icmp_Compare (smallest (f_meta f)) smallest_; r' ← icmp_Compare (largest (f_meta f)) largest_;
      range_loop files (if bool_decide (r = Lt) then smallest (f_meta f) else smallest_) (if bool_decide (r' = Gt) then largest (f_meta f) else largest_)
  end.
Definition GetRange files : option (Slice * Slice) :=
  _ ← assert_ ndebug (negb (bool_decide (files = [])));
  match files with [] => Some ([], []) | f :: files => range_loop files (smallest (f_meta f)) (largest (f_meta f)) end.
Definition GetRange2 (files1 files2 : list File) : option (Slice * Slice) := GetRange (files1 ++ files2).

(** The inputs of the level, if they can grow without more files of the next level. *)
Definition expand_inputs v (level : Z) (inputs : list File * list File) : option (option (list File * list File)) :=
  '(all_start, all_limit) ← GetRange2 inputs.1 inputs.2;
  if bool_decide (inputs.2 = []) then Some None
  else
    expanded0 ← GetOverlappingInputs C ndebug v level (Some all_start) (Some all_limit);
    if bool_decide (length inputs.1 < length expanded0)%nat && (sword 64 (TotalFileSize inputs.2 + TotalFileSize expanded0) <? ExpandedCompactionByteSizeLimit options) then
      '(new_start, new_limit) ← GetRange expanded0;
      expanded1 ← GetOverlappingInputs C ndebug v (level + 1) (Some new_start) (Some new_limit);
      Some (if bool_decide (length expanded1 = length inputs.2) then Some (expanded0, expanded1) else None)
    else Some None.
Definition SetupOtherInputs c vs : option (Compaction * VersionSet H) :=
  let level := level_ c in
  let inputs0 := (inputs_ c).1 in
  v ← current_version vs;
  '(smallest_, largest_) ← GetRange inputs0;
  inputs1 ← GetOverlappingInputs C ndebug v (level + 1) (Some smallest_) (Some largest_);
  expanded ← expand_inputs v level (inputs0, inputs1);
  let inputs := default (inputs0, inputs1) expanded in
  '(_, largest_) ← (match expanded with Some inputs => GetRange inputs.1 | None => Some (smallest_, largest_) end);
  '(all_start, all_limit) ← GetRange2 inputs.1 inputs.2;
  grandparents ← (if level + 2 <? kNumLevels then GetOverlappingInputs C ndebug v (level + 2) (Some all_start) (Some all_limit) else Some (grandparents_ c));
  largest_key ← InternalKey_Encode ndebug largest_;
  _ ← get_level level (compact_pointer_ vs);
  Some (set_edit (SetCompactPointer level largest_ (edit_ c)) (set_grandparents grandparents (set_inputs inputs c)),
        set_compact_pointer (put_level level largest_key (compact_pointer_ vs)) vs).

(** The first file after the compaction pointer. *)
Fixpoint file_after (pointer : Slice) files : option (option File) :=
  match files with
  | [] => Some None
  | f :: files =>
      after ← (if bool_decide (pointer = []) then Some true
               else l ← InternalKey_Encode ndebug (largest (f_meta f)); r ← InternalKey_Compare C l pointer; Some (bool_decide (r = Gt)));
      if (after : bool) then Some (Some f) else file_after pointer files
  end.
(** The level and the file that need a compaction. *)
Definition pick_file (allow_seek_compaction : bool) v vs : option (option (Z * File)) :=
  if SFleb (double_of 1) (compaction_score_ v) then
    let level := compaction_level_ v in
    _ ← assert_ ndebug (0 <=? level); _ ← assert_ ndebug (level + 1 <? kNumLevels);
    files ← level_files v level;
    pointer ← get_level level (compact_pointer_ vs);
    found ← file_after pointer files;
    f ← (match found with Some f => Some f | None => files !! 0%nat end);
    Some (Some (level, f))
  else
    Some (match file_to_compact_ v with Some f => if allow_seek_compaction then Some (file_to_compact_level_ v, f) else None | None => None end).
(** The current version is referenced. *)
Definition hold_version c vs : option (Compaction * VersionSet H) :=
  o ← Version_Ref (current_ vs) (objects vs); Some (set_input_version (Some (current_ vs)) c, set_objects o (current_ vs) vs).
Definition PickCompaction (allow_seek_compaction : bool) vs : option (option Compaction * VersionSet H) :=
  v ← current_version vs;
  picked ← pick_file allow_seek_compaction v vs;
  match picked with
  | None => Some (None, vs)
  | Some (level, f) =>
      '(c, vs) ← hold_version (set_inputs ([f], []) (new_Compaction options level)) vs;
      c ← (if level =? 0 then
             '(smallest_, largest_) ← GetRange [f];
             inputs0 ← GetOverlappingInputs C ndebug v 0 (Some smallest_) (Some largest_);
             _ ← assert_ ndebug (negb (bool_decide (inputs0 = [])));
             Some (set_inputs (inputs0, []) c)
           else Some c);
      '(c, vs) ← SetupOtherInputs c vs;
      Some (Some c, vs)
  end.

(** The files of the range up to the size of one file. *)
Fixpoint limit_inputs (limit total : Z) files : list File :=
  match files with
  | [] => []
  | f :: files => let total := u64 (total + file_size (f_meta f)) in if limit <=? total then [f] else f :: limit_inputs limit total files
  end.
Definition CompactRange (level : Z) (begin end_ : option Slice) vs : option (option Compaction * VersionSet H) :=
  v ← current_version vs;
  inputs ← GetOverlappingInputs C ndebug v level begin end_;
  if bool_decide (inputs = []) then Some (None, vs)
  else
    let inputs := if 0 <? level then limit_inputs (u64 (MaxFileSizeForLevel options level)) 0 inputs else inputs in
    '(c, vs) ← hold_version (new_Compaction options level) vs;
    '(c, vs) ← SetupOtherInputs (set_inputs (inputs, []) c) vs;
    Some (Some c, vs).
End Making.
