(* ===== verification/Db.v ===== *)
(** * The database: its state, flushing memtables and compacting ([leveldb/db/db_impl.h], [db_impl.cc], [builder.cc])

    The state is what the mutex protects, with the files of the environment.  A method is a function of the state in a small monad:
    where it gives up the mutex, other threads may change the state; what they do is a list of functions, one taken at each such point. *)
From Stdlib Require Import Floats.SpecFloat.
From S2P Require Import Prelude Status Coding Comparator Log Format Iterator Merger VersionEdit.
From S2P Require Import DbOptions Version VersionSet Filenames Env TableBuilder MemTable MemIter.
From S2P Require Import Compaction.

(** ** The state *)
(** A manual compaction belongs to the thread that asked for it; [manual_compaction_] points to it. *)
Record ManualCompaction := MkManual { m_level : Z; m_done : bool; m_begin : option Slice; m_end : option Slice }.
(** The batch of a writer: one of the two that ask for a flush or a sync, or a batch of updates. *)
Inductive BatchRef := flush_memtable_ | sync_wal_ | Updates (b : Slice).
#[global] Instance BatchRef_eq_dec : EqDecision BatchRef.
Proof. solve_decision. Defined.
(** A waiting writer, with the address of its record. *)
Record WriterEntry := MkWriterEntry { w_id : nat; w_batch : BatchRef; w_sync : bool }.

Record Jobs := MkJobs {
  bg_compaction_disabled_ : Z; bg_compaction_paused_ : Z; bg_compaction_scheduled_ : bool; bg_compaction_in_progress_ : bool; bulk_insert_in_progress_ : bool
}.
(** [has_imm_] is not null exactly when [imm_] is not; [finished_] are the writers that are done, with their status. *)
Record DBImpl (E H : Type) := MkDB {
  db_env : E; mem_ : option MemTable; imm_ : option MemTable;
  logfile_ : option H; logfile_number_ : Z; log_ : option (Writer H);
  writers_ : list WriterEntry; finished_ : gmap nat Status; tmp_batch_ : Slice;
  snapshots_ : list Z; pending_outputs_ : gset Z; jobs_ : Jobs;
  manual_compaction_ : option nat; manuals_ : gmap nat ManualCompaction;
  db_versions : VersionSet H; bg_error_ : Status; shutting_down_ : bool
}.
Arguments MkDB {E H}. Arguments db_env {E H}. Arguments mem_ {E H}. Arguments imm_ {E H}. Arguments logfile_ {E H}. Arguments logfile_number_ {E H}.
Arguments log_ {E H}. Arguments writers_ {E H}. Arguments finished_ {E H}. Arguments tmp_batch_ {E H}. Arguments snapshots_ {E H}. Arguments pending_outputs_ {E H}.
Arguments jobs_ {E H}. Arguments manual_compaction_ {E H}. Arguments manuals_ {E H}. Arguments db_versions {E H}. Arguments bg_error_ {E H}. Arguments shutting_down_ {E H}.

Section Fields.
Context {E H : Type}.
Implicit Types (db : DBImpl E H).
Definition set_env (env : E) db : DBImpl E H :=
  MkDB env (mem_ db) (imm_ db) (logfile_ db) (logfile_number_ db) (log_ db) (writers_ db) (finished_ db) (tmp_batch_ db) (snapshots_ db) (pending_outputs_ db) (jobs_ db) (manual_compaction_ db) (manuals_ db) (db_versions db) (bg_error_ db) (shutting_down_ db).
Definition set_memtables (mem imm : option MemTable) db : DBImpl E H :=
  MkDB (db_env db) mem imm (logfile_ db) (logfile_number_ db) (log_ db) (writers_ db) (finished_ db) (tmp_batch_ db) (snapshots_ db) (pending_outputs_ db) (jobs_ db) (manual_compaction_ db) (manuals_ db) (db_versions db) (bg_error_ db) (shutting_down_ db).
Definition set_log (file : option H) (number : Z) (log : option (Writer H)) db : DBImpl E H :=
  MkDB (db_env db) (mem_ db) (imm_ db) file number log (writers_ db) (finished_ db) (tmp_batch_ db) (snapshots_ db) (pending_outputs_ db) (jobs_ db) (manual_compaction_ db) (manuals_ db) (db_versions db) (bg_error_ db) (shutting_down_ db).
Definition set_writers (ws : list WriterEntry) (finished : gmap nat Status) db : DBImpl E H :=
  MkDB (db_env db) (mem_ db) (imm_ db) (logfile_ db) (logfile_number_ db) (log_ db) ws finished (tmp_batch_ db) (snapshots_ db) (pending_outputs_ db) (jobs_ db) (manual_compaction_ db) (manuals_ db) (db_versions db) (bg_error_ db) (shutting_down_ db).
Definition set_tmp_batch (b : Slice) db : DBImpl E H :=
  MkDB (db_env db) (mem_ db) (imm_ db) (logfile_ db) (logfile_number_ db) (log_ db) (writers_ db) (finished_ db) b (snapshots_ db) (pending_outputs_ db) (jobs_ db) (manual_compaction_ db) (manuals_ db) (db_versions db) (bg_error_ db) (shutting_down_ db).
Definition set_snapshots (l : list Z) db : DBImpl E H :=
  MkDB (db_env db) (mem_ db) (imm_ db) (logfile_ db) (logfile_number_ db) (log_ db) (writers_ db) (finished_ db) (tmp_batch_ db) l (pending_outputs_ db) (jobs_ db) (manual_compaction_ db) (manuals_ db) (db_versions db) (bg_error_ db) (shutting_down_ db).
Definition set_pending_outputs (s : gset Z) db : DBImpl E H :=
  MkDB (db_env db) (mem_ db) (imm_ db) (logfile_ db) (logfile_number_ db) (log_ db) (writers_ db) (finished_ db) (tmp_batch_ db) (snapshots_ db) s (jobs_ db) (manual_compaction_ db) (manuals_ db) (db_versions db) (bg_error_ db) (shutting_down_ db).
Definition set_jobs (j : Jobs) db : DBImpl E H :=
  MkDB (db_env db) (mem_ db) (imm_ db) (logfile_ db) (logfile_number_ db) (log_ db) (writers_ db) (finished_ db) (tmp_batch_ db) (snapshots_ db) (pending_outputs_ db) j (manual_compaction_ db) (manuals_ db) (db_versions db) (bg_error_ db) (shutting_down_ db).
Definition set_manual (p : option nat) (ms : gmap nat ManualCompaction) db : DBImpl E H :=
  MkDB (db_env db) (mem_ db) (imm_ db) (logfile_ db) (logfile_number_ db) (log_ db) (writers_ db) (finished_ db) (tmp_batch_ db) (snapshots_ db) (pending_outputs_ db) (jobs_ db) p ms (db_versions db) (bg_error_ db) (shutting_down_ db).
Definition set_vset (vs : VersionSet H) db : DBImpl E H :=
  MkDB (db_env db) (mem_ db) (imm_ db) (logfile_ db) (logfile_number_ db) (log_ db) (writers_ db) (finished_ db) (tmp_batch_ db) (snapshots_ db) (pending_outputs_ db) (jobs_ db) (manual_compaction_ db) (manuals_ db) vs (bg_error_ db) (shutting_down_ db).
Definition set_bg_error (s : Status) db : DBImpl E H :=
  MkDB (db_env db) (mem_ db) (imm_ db) (logfile_ db) (logfile_number_ db) (log_ db) (writers_ db) (finished_ db) (tmp_batch_ db) (snapshots_ db) (pending_outputs_ db) (jobs_ db) (manual_compaction_ db) (manuals_ db) (db_versions db) s (shutting_down_ db).
Definition set_scheduled (b : bool) (j : Jobs) : Jobs := MkJobs (bg_compaction_disabled_ j) (bg_compaction_paused_ j) b (bg_compaction_in_progress_ j) (bulk_insert_in_progress_ j).
Definition set_in_progress (b : bool) (j : Jobs) : Jobs := MkJobs (bg_compaction_disabled_ j) (bg_compaction_paused_ j) (bg_compaction_scheduled_ j) b (bulk_insert_in_progress_ j).
Definition set_bulk_insert (b : bool) (j : Jobs) : Jobs := MkJobs (bg_compaction_disabled_ j) (bg_compaction_paused_ j) (bg_compaction_scheduled_ j) (bg_compaction_in_progress_ j) b.
Definition set_paused (n : Z) (j : Jobs) : Jobs := MkJobs (bg_compaction_disabled_ j) n (bg_compaction_scheduled_ j) (bg_compaction_in_progress_ j) (bulk_insert_in_progress_ j).
Definition set_disabled (n : Z) (j : Jobs) : Jobs := MkJobs n (bg_compaction_paused_ j) (bg_compaction_scheduled_ j) (bg_compaction_in_progress_ j) (bulk_insert_in_progress_ j).
End Fields.

(** ** The monad: the state, and what the other threads do when they can; [None] is an error of the code, or a wait without end. *)
Definition Run (E H : Type) : Type := DBImpl E H * list (DBImpl E H -> DBImpl E H).
Definition DBM (E H A : Type) : Type := Run E H -> option (A * Run E H).
#[export] Instance DBM_ret {E H} : MRet (DBM E H) := λ A a r, Some (a, r).
#[export] Instance DBM_bind {E H} : MBind (DBM E H) := λ A B f m r, match m r with Some (a, r) => f a r | None => None end.

Section Monad.
Context {E H : Type}.
Implicit Types (db : DBImpl E H).
Definition lift {A} (o : option A) : DBM E H A := λ r, a ← o; Some (a, r).
Definition gets {A} (f : DBImpl E H -> A) : DBM E H A := λ r, Some (f r.1, r).
Definition modify (f : DBImpl E H -> DBImpl E H) : DBM E H unit := λ r, Some (tt, (f r.1, r.2)).
(** The mutex is given up and taken again. *)
Definition others : DBM E H unit := λ r, Some (tt, match r.2 with [] => r | f :: w => (f r.1, w) end).
(** A wait on a condition variable, in the loop that checks its condition.  Signals are not represented: a waiter may look at any time,
    and nothing is stated here about progress. *)
Fixpoint wait_while_in (p : DBImpl E H -> bool) db (w : list (DBImpl E H -> DBImpl E H)) : option (unit * Run E H) :=
  if p db then match w with [] => None | f :: w => wait_while_in p (f db) w end else Some (tt, (db, w)).
Definition wait_while (p : DBImpl E H -> bool) : DBM E H unit := λ r, wait_while_in p r.1 r.2.
Definition modify_jobs (f : Jobs -> Jobs) : DBM E H unit := modify (λ db, set_jobs (f (jobs_ db)) db).
(** A function of the version set, and one of the environment. *)
Definition on_versions {A} (f : VersionSet H -> option (A * VersionSet H)) : DBM E H A :=
  vs ← gets db_versions; '(a, vs) ← lift (f vs); modify (set_vset vs);; mret a.
Definition on_env {A} (f : E -> A * E) : DBM E H A :=
  env ← gets db_env; let '(a, env) := f env in modify (set_env env);; mret a.
Definition on_objects {A} (f : Objects -> option (A * Objects)) : DBM E H A :=
  on_versions (λ vs, '(a, o) ← f (objects vs); Some (a, set_objects o (current_ vs) vs)).
Definition ref_version (p : nat) : DBM E H unit := on_objects (λ o, pair tt <$> Version_Ref p o).
Definition unref_version (ndebug : bool) (p : nat) : DBM E H unit := on_objects (λ o, pair tt <$> Version_Unref ndebug p o).
Definition take_file_number : DBM E H Z :=
  n ← on_versions (λ vs, Some (NewFileNumber vs)); modify (λ db, set_pending_outputs ({[n]} ∪ pending_outputs_ db) db);; mret n.
Definition drop_pending (ns : list Z) : DBM E H unit := modify (λ db, set_pending_outputs (pending_outputs_ db ∖ list_to_set ns) db).
End Monad.

(** ** Building a table ([builder.cc]) *)
Section Build.
Context {E H S D : Type} `{!Env E H S} `{Snappy} `{!Iterator D} (C : Comparator) (ndebug : bool) (dbname_ : Slice) (options : DbOptions).
(** [TableCache::NewIterator] or [NewDirectIterator], over the files of the environment. *)
Context (table_iterator : E -> bool -> Z -> Z -> Z -> option D).
Local Abbreviation IC := (InternalKeyComparator ndebug C).

(** The environment that a builder writes to is kept by the database. *)
Definition with_env (env : E) (b : TableBuilder (E * H)) : TableBuilder (E * H) := TableBuilder.set_file (env, (tb_file b).2) (tb_status b) b.
Fixpoint add_entries {I} `{Iterator I} (fuel : nat) (iter : I) (b : TableBuilder (E * H)) : option (I * TableBuilder (E * H)) :=
  if Valid iter then
    match fuel with
    | O => None
    | Datatypes.S fuel =>
        k ← key iter; v ← value iter; b ← TableBuilder_Add IC ndebug k v b;
        iter ← Next iter; add_entries fuel iter b
    end
  else Some (iter, b).
(** Sync and close; after an error the file is closed when it is deleted. *)
Definition finish_file (s : Status) (file : H) (env : E) : Status * E :=
  let '(s, env) := if ok s then file_Sync file env else (s, env) in
  let '(r, env) := file_Close file env in (if ok s then r else s, env).
(** The check on a table that is written. *)
Definition verify_table (n size off : Z) (env : E) : option Status := it ← table_iterator env false n size off; Some (status it).

(** The part of [BuildTable] for an iterator that is valid. *)
Definition write_table {I} `{Iterator I} (fuel : nat) (iter : I) (fname : Slice) (seqs : Z * Z) (meta : FileMetaData) (env : E)
    : option (Status * bool * I * (Z * Z) * FileMetaData * E) :=
  let '(s, file, env) := NewWritableFile fname env in
  match file with
  | Some file =>
      if negb (ok s) then Some (s, false, iter, seqs, meta, env)
      else
        b ← new_TableBuilder ndebug (table_options options) (env, file);
        '(iter, b) ← add_entries fuel iter b;
        '(s, b) ← TableBuilder_Finish IC ndebug b;
        let env := (tb_file b).1 in
        _ ← (if ok s then assert_ ndebug (0 <? tb_offset b) else Some tt);
        let p := props_ b in
        let meta := if ok s then MkFileMetaData (number meta) (tb_offset b) (seq_off meta) (first_key_ p) (tp_last_key_ p) else meta in
        let seqs := if ok s then (min_seq_ p, max_seq_ p) else seqs in
        let '(s, env) := finish_file s file env in
        s ← (if ok s && negb (table_builder_skip_verification options) then verify_table (number meta) (file_size meta) (seq_off meta) env else Some s);
        Some (s, true, iter, seqs, meta, env)
  | None => Some (s, false, iter, seqs, meta, env)
  end.
(** The flag of [write_table] is false when the code returns at once, without deleting the file. *)
Definition BuildTable {I} `{Iterator I} (fuel : nat) (iter : I) (seqs : Z * Z) (meta : FileMetaData) (env : E) : option (Status * I * (Z * Z) * FileMetaData * E) :=
  _ ← assert_ ndebug (negb (number meta =? 0));
  let meta := MkFileMetaData (number meta) 0 0 (smallest meta) (largest meta) in
  iter ← SeekToFirst iter;
  fname ← TableFileName ndebug dbname_ (number meta);
  '(s, go_on, iter, seqs, meta, env) ← (if Valid iter then write_table fuel iter fname seqs meta env else Some (OK, true, iter, seqs, meta, env));
  if negb go_on then Some (s, iter, seqs, meta, env)
  else
    let s := if negb (ok (status iter)) && ok s then status iter else s in
    let env := if ok s && (0 <? file_size meta) then env else (env_DeleteFile fname env).2 in
    Some (s, iter, seqs, meta, env).
End Build.

(** ** Flushing memtables, and deleting files *)
Section Flush.
Context {E H S D : Type} `{!Env E H S} `{Snappy} `{!Iterator D} (C : Comparator) (cmp_name : Slice) (ndebug : bool) (dbname_ : Slice) (options : DbOptions) (junk : Z).
Context (table_iterator : E -> bool -> Z -> Z -> Z -> option D).
Implicit Types (e : VersionEdit).
Local Abbreviation DBM := (DBM E H).

Definition assertm (b : bool) : DBM unit := lift (assert_ ndebug b).
Definition current_of : DBM nat := gets (λ db, current_ (db_versions db)).
Definition RecordBackgroundError (s : Status) : DBM unit := modify (λ db, if ok (bg_error_ db) then set_bg_error s db else db).

(** [VersionSet::LogAndApply]; the other threads run while the manifest is written. *)
Definition log_and_apply e : DBM (Status * VersionEdit) :=
  db ← gets id;
  '(s, e, vs, env) ← lift (LogAndApply C cmp_name ndebug dbname_ options junk e (db_versions db) (db_env db));
  modify (λ db, set_env env (set_vset vs db));; others;; mret (s, e).

Definition WriteLevel0Table {I} `{Iterator I} (fuel : nat) (iter : I) (e : VersionEdit) (base : option nat) (seqs : Z * Z) : DBM (Status * VersionEdit * (Z * Z)) :=
  n ← take_file_number;
  env ← gets db_env;
  '(s, _, seqs, meta, env) ← lift (BuildTable C ndebug dbname_ options table_iterator fuel iter seqs (MkFileMetaData n 0 0 [] []) env);
  modify (set_env env);; others;;
  drop_pending [n];;
  if ok s && (0 <? file_size meta) then
    min_user_key ← lift (ExtractUserKey (smallest meta));
    max_user_key ← lift (ExtractUserKey (largest meta));
    level ← (match base with
             | Some p =>
                 if disable_compaction options then mret 0
                 else
                   vs ← gets db_versions; v ← lift (find_version p (versions_ (objects vs)));
                   lift (PickLevelForMemTableOutput C ndebug options v min_user_key max_user_key)
             | None => mret 0
             end);
    mret (s, AddFile level (number meta) (file_size meta) (seq_off meta) (smallest meta) (largest meta) e, seqs)
  else mret (s, e, seqs).
(** The two sequence numbers are ignored. *)
Definition DumpMemTable (fuel : nat) (mem : MemTable) e (base : option nat) : DBM (Status * VersionEdit) :=
  '(s, e, _) ← WriteLevel0Table (H1 := MemTableIterator_Iterator ndebug C) fuel (MemTable_NewIterator mem) e base (0, 0); mret (s, e).

(** What [DeleteObsoleteFiles] keeps. *)
Definition keep_file (live : gset Z) (vs : VersionSet H) (n : Z) (type : FileType) : bool :=
  match type with
  | kLogFile => (vs_log_number_ vs <=? n) || (n =? vs_prev_log_number_ vs)
  | kDescriptorFile => manifest_file_number_ vs <=? n
  | kTableFile | kTempFile => bool_decide (n ∈ live)
  | kCurrentFile | kDBLockFile | kInfoLogFile => true
  end.
Definition obsolete (live : gset Z) (vs : VersionSet H) (fname : Slice) : bool :=
  match ParseFileName fname with Some (n, type) => negb (keep_file live vs n type) | None => false end.
Definition DeleteObsoleteFiles : DBM unit :=
  db ← gets id;
  if negb (ok (bg_error_ db)) then mret tt
  else
    let vs := db_versions db in
    let live := AddLiveFiles (pending_outputs_ db) vs in
    let gone := filter (λ f, obsolete live vs f = true) (GetChildren dbname_ (db_env db)).2 in
    modify (set_env (if gc_skip_deletion options then db_env db else foldl (λ env f, (env_DeleteFile (dbname_ ++ lit "/" ++ f) env).2) (db_env db) gone)).

Definition CompactMemTable (fuel : nat) : DBM unit :=
  imm ← gets imm_; assertm (bool_decide (is_Some imm));; imm ← lift imm;
  base ← current_of; ref_version base;;
  '(s, e) ← DumpMemTable fuel imm new_VersionEdit (Some base);
  unref_version ndebug base;;
  shutting_down ← gets shutting_down_;
  let s := if ok s && shutting_down then MkStatus kIOError (lit "Deleting db during memtable compaction") [] else s in
  s ← (if ok s then
         n ← gets logfile_number_;
         let e := if disable_write_ahead_log options then e else SetLogNumber n (SetPrevLogNumber 0 e) in
         '(s, _) ← log_and_apply e; mret s
       else mret s);
  if ok s then
    imm ← gets imm_; imm ← lift imm; _ ← lift (MemTable_Unref ndebug imm);
    modify (λ db, set_memtables (mem_ db) None db);; DeleteObsoleteFiles
  else RecordBackgroundError s.

(** ** Scheduling *)
Definition HasCompaction (db : DBImpl E H) : option bool :=
  if bool_decide (is_Some (imm_ db)) then Some true
  else if bool_decide (is_Some (manual_compaction_ db)) then Some true
  else if negb (bg_compaction_disabled_ (jobs_ db) =? 0) then Some false
  else if disable_compaction options then Some false
  else NeedsCompaction (negb (disable_seek_compaction options)) (db_versions db).
Definition MaybeScheduleCompaction : DBM unit :=
  db ← gets id;
  if bg_compaction_scheduled_ (jobs_ db) || negb (bg_compaction_paused_ (jobs_ db) =? 0) then mret tt
  else if shutting_down_ db then mret tt
  else if negb (ok (bg_error_ db)) then mret tt
  else has ← lift (HasCompaction db); if (has : bool) then modify_jobs (set_scheduled true) else mret tt.
End Flush.

(** ** Merging *)
(** What the loop of [DoCompactionWork] remembers of the entry before. *)
Record KeyState := MkKeyState { current_user_key : Slice; has_current_user_key : bool; last_sequence_for_key : Z }.
Definition no_key : KeyState := MkKeyState [] false kMaxSequenceNumber.

Record Output := MkOutput { out_number : Z; out_file_size : Z; out_smallest : Slice; out_largest : Slice }.
Record CompactionState (E H : Type) := MkCompactionState {
  compaction : Compaction; smallest_snapshot : Z; outputs : list Output;
  outfile : option H; builder : option (TableBuilder (E * H)); total_bytes : Z
}.
Arguments MkCompactionState {E H}. Arguments compaction {E H}. Arguments smallest_snapshot {E H}. Arguments outputs {E H}.
Arguments outfile {E H}. Arguments builder {E H}. Arguments total_bytes {E H}.
Definition set_compaction_of {E H} (c : Compaction) (cs : CompactionState E H) : CompactionState E H :=
  MkCompactionState c (smallest_snapshot cs) (outputs cs) (outfile cs) (builder cs) (total_bytes cs).
Definition set_output {E H} (f : option H) (b : option (TableBuilder (E * H))) (cs : CompactionState E H) : CompactionState E H :=
  MkCompactionState (compaction cs) (smallest_snapshot cs) (outputs cs) f b (total_bytes cs).

(** The edit of a compaction. *)
Definition install_edit (c : Compaction) (outs : list Output) : VersionEdit :=
  foldl (λ e out, AddFile (level_ c + 1) (out_number out) (out_file_size out) 0 (out_smallest out) (out_largest out) e) (AddInputDeletions c (edit_ c)) outs.

(** Whether an entry is dropped. *)
Section Drop.
Context (C : Comparator) (smallest_snapshot : Z) (v : Version).
Implicit Types (ks : KeyState) (c : Compaction).
Definition next_key_state (ikey : ParsedInternalKey) ks : option KeyState :=
  differs ← (if negb (has_current_user_key ks) then Some true
             else r ← Compare (user_key ikey) (current_user_key ks); Some (negb (bool_decide (r = Eq))));
  Some (if (differs : bool) then MkKeyState (user_key ikey) true kMaxSequenceNumber else ks).
Definition drop_entry (key : Slice) ks c : option (bool * KeyState * Compaction) :=
  match ParseInternalKey key with
  | None => Some (false, no_key, c)
  | Some ikey =>
      ks ← next_key_state ikey ks;
      '(drop, c) ← (if last_sequence_for_key ks <=? smallest_snapshot then Some (true, c)
                    else if bool_decide (type ikey = kTypeDeletion) && (sequence ikey <=? smallest_snapshot) then IsBaseLevelForKey C v (user_key ikey) c
                    else Some (false, c));
      Some (drop, MkKeyState (current_user_key ks) (has_current_user_key ks) (sequence ikey), c)
  end.
End Drop.

Section Compact.
Context {E H S D : Type} `{!Env E H S} `{Snappy} `{!Iterator D} (C : Comparator) (cmp_name : Slice) (ndebug : bool) (dbname_ : Slice) (options : DbOptions) (junk : Z).
Context (table_iterator : E -> bool -> Z -> Z -> Z -> option D).
Implicit Types (cs : CompactionState E H).
Local Abbreviation DBM := (DBM E H).
Local Abbreviation IC := (InternalKeyComparator ndebug C).
Local Abbreviation assertm := (assertm (E := E) (H := H) ndebug).

Definition OpenCompactionOutputFile cs : DBM (Status * CompactionState E H) :=
  assertm (negb (bool_decide (is_Some (builder cs))));;
  n ← take_file_number;
  let outs := outputs cs ++ [MkOutput n 0 [] []] in
  fname ← lift (TableFileName ndebug dbname_ n);
  '(s, file) ← on_env (NewWritableFile fname);
  env ← gets db_env;
  b ← (match file with
       | Some file => if ok s then b ← lift (new_TableBuilder ndebug (table_options options) (env, file)); mret (Some b) else mret None
       | None => mret None
       end);
  mret (s, MkCompactionState (compaction cs) (smallest_snapshot cs) outs file b (total_bytes cs)).

(** The fields of the last output. *)
Definition set_last_output (size : Z) (first last : Slice) (outs : list Output) : option (list Output) :=
  out ← list.last outs; Some (removelast outs ++ [MkOutput (out_number out) size first last]).
Definition FinishCompactionOutputFile (input_status : Status) cs : DBM (Status * CompactionState E H) :=
  file ← lift (outfile cs); b ← lift (builder cs);
  out ← lift (list.last (outputs cs)); assertm (negb (out_number out =? 0));;
  env ← gets db_env;
  let b := with_env env b in
  '(s, b) ← lift (if ok input_status then TableBuilder_Finish IC ndebug b else b ← Abandon ndebug b; Some (input_status, b));
  let p := props_ b in
  let current_bytes := tb_offset b in
  outs ← lift (set_last_output current_bytes (first_key_ p) (tp_last_key_ p) (outputs cs));
  let '(s, env) := finish_file s file (tb_file b).1 in
  modify (set_env env);;
  s ← lift (if ok s && (0 <? num_entries b) && negb (table_builder_skip_verification options) then verify_table table_iterator (out_number out) current_bytes 0 env else Some s);
  mret (s, MkCompactionState (compaction cs) (smallest_snapshot cs) outs None None (u64 (total_bytes cs + current_bytes))).

Definition InstallCompactionResults cs : DBM (Status * CompactionState E H) :=
  let c := compaction cs in
  '(s, e) ← log_and_apply C cmp_name ndebug dbname_ options junk (install_edit c (outputs cs));
  mret (s, set_compaction_of (set_edit e c) cs).

(** At the top of the loop: a memtable is flushed first, and a pause is waited for. *)
Definition before_entry (fuel : nat) : DBM unit :=
  others;;
  imm ← gets imm_;
  (if bool_decide (is_Some imm) then CompactMemTable C cmp_name ndebug dbname_ options junk table_iterator fuel else mret tt);;
  paused ← gets (bg_compaction_paused_ ∘ jobs_);
  if negb (paused =? 0) then
    in_progress ← gets (bg_compaction_in_progress_ ∘ jobs_); assertm in_progress;;
    modify_jobs (set_in_progress false);;
    wait_while (λ db, negb (bg_compaction_paused_ (jobs_ db) =? 0));;
    modify_jobs (set_in_progress true)
  else mret tt.

(** An entry that stays goes to the current output. *)
Definition add_entry (input_status : Status) (key value : Slice) cs : DBM (Status * CompactionState E H) :=
  '(s, cs) ← (match builder cs with None => OpenCompactionOutputFile cs | Some _ => mret (OK, cs) end);
  if negb (ok s) then mret (s, cs)
  else
    b ← lift (builder cs);
    env ← gets db_env;
    b ← lift (TableBuilder_Add IC ndebug key value (with_env env b));
    modify (set_env (tb_file b).1);;
    let cs := set_output (outfile cs) (Some b) cs in
    if max_output_file_size_ (compaction cs) <=? tb_offset b then FinishCompactionOutputFile input_status cs else mret (OK, cs).

Section Loop.
Context {I : Type} `{!Iterator I}.
(** [v] is the input version. *)
Definition compact_entry (v : Version) (input : I) (ks : KeyState) cs : DBM (Status * KeyState * CompactionState E H) :=
  k ← lift (key input);
  '(stop, c) ← lift (ShouldStopBefore C ndebug k (compaction cs));
  let cs := set_compaction_of c cs in
  '(s, cs) ← (if (stop : bool) && bool_decide (is_Some (builder cs)) then FinishCompactionOutputFile (status input) cs else mret (OK, cs));
  if negb (ok s) then mret (s, ks, cs)
  else
    '(drop, ks, c) ← lift (drop_entry C (smallest_snapshot cs) v k ks (compaction cs));
    let cs := set_compaction_of c cs in
    if (drop : bool) then mret (OK, ks, cs)
    else x ← lift (value input); '(s, cs) ← add_entry (status input) k x cs; mret (s, ks, cs).
(** The fuel bounds the entries. *)
Fixpoint compact_loop (fuel flush_fuel : nat) (v : Version) (input : I) (ks : KeyState) cs : DBM (Status * I * CompactionState E H) :=
  shutting_down ← gets shutting_down_;
  if Valid input && negb shutting_down then
    match fuel with
    | O => lift None
    | Datatypes.S fuel =>
        before_entry flush_fuel;;
        '(s, ks, cs) ← compact_entry v input ks cs;
        if negb (ok s) then mret (s, input, cs)
        else input ← lift (Next input); compact_loop fuel flush_fuel v input ks cs
    end
  else mret (OK, input, cs).
(** What follows the loop. *)
Definition end_loop (s : Status) (input : I) cs : DBM (Status * CompactionState E H) :=
  shutting_down ← gets shutting_down_;
  let s := if ok s && shutting_down then MkStatus kIOError (lit "Deleting db during compaction") [] else s in
  '(s, cs) ← (match builder cs with Some _ => if ok s then FinishCompactionOutputFile (status input) cs else mret (s, cs) | None => mret (s, cs) end);
  mret (if ok s then status input else s, cs).
End Loop.

(** The snapshot below which the compaction need not look. *)
Definition oldest_snapshot (db : DBImpl E H) : Z := match snapshots_ db with [] => vs_last_sequence_ (db_versions db) | s :: _ => s end.
Definition DoCompactionWork (fuel : nat) cs : DBM (Status * CompactionState E H) :=
  let c := compaction cs in
  db ← gets id;
  n ← lift (NumLevelFiles ndebug (level_ c) (db_versions db)); assertm (0 <? n);;
  assertm (negb (bool_decide (is_Some (builder cs))));; assertm (negb (bool_decide (is_Some (outfile cs))));;
  let cs := MkCompactionState c (oldest_snapshot db) (outputs cs) (outfile cs) (builder cs) (total_bytes cs) in
  v ← lift (p ← input_version_ c; find_version p (versions_ (objects (db_versions db))));
  input ← lift (MakeInputIterator C ndebug options (table_iterator (db_env db)) fuel c);
  let merged := merged_iterator (C := IC) (HiI := input_iterator C ndebug (table_iterator (db_env db)) (prefetch_compaction_input options) fuel) ndebug in
  input ← lift (SeekToFirst (Iterator := merged) input);
  '(s, input, cs) ← compact_loop (Iterator1 := merged) fuel fuel v input no_key cs;
  '(s, cs) ← end_loop (Iterator1 := merged) s input cs;
  others;;
  '(s, cs) ← (if ok s then InstallCompactionResults cs else mret (s, cs));
  (if ok s then mret tt else RecordBackgroundError s);;
  mret (s, cs).

Definition CleanupCompaction cs : DBM unit :=
  lift (match builder cs with
        | Some b => _ ← Abandon ndebug b; Some tt
        | None => assert_ ndebug (negb (bool_decide (is_Some (outfile cs))))
        end);;
  (match outfile cs with Some file => _ ← on_env (file_Close file); mret tt | None => mret tt end);;
  drop_pending (out_number <$> outputs cs).

(** ** The background thread *)
Definition trivial_move (c : Compaction) : DBM (Status * Compaction) :=
  assertm (num_input_files false c =? 1);;
  f ← lift ((inputs_ c).1 !! 0%nat);
  let e := AddFile (level_ c + 1) (number (f_meta f)) (file_size (f_meta f)) (seq_off (f_meta f)) (smallest (f_meta f)) (largest (f_meta f))
             (DeleteFile (level_ c) (number (f_meta f)) (edit_ c)) in
  '(s, e) ← log_and_apply C cmp_name ndebug dbname_ options junk e;
  (if ok s then mret tt else RecordBackgroundError s);;
  mret (s, set_edit e c).
(** A compaction that is chosen runs; the result is its status. *)
Definition run_compaction (fuel : nat) (is_manual : bool) (c : Compaction) : DBM Status :=
  '(s, c) ← (if negb is_manual && IsTrivialMove c then trivial_move c
             else
               '(s, cs) ← DoCompactionWork fuel (MkCompactionState c 0 [] None None 0);
               (if ok s then mret tt else RecordBackgroundError s);;
               CleanupCompaction cs;;
               c ← on_objects (ReleaseInputs ndebug (compaction cs));
               DeleteObsoleteFiles dbname_ options;;
               mret (s, c));
  on_objects (λ o, pair tt <$> delete_Compaction ndebug c o);;
  mret s.
Definition set_manual_state (p : nat) (f : ManualCompaction -> ManualCompaction) : DBM unit :=
  modify (λ db, set_manual (manual_compaction_ db) (alter f p (manuals_ db)) db).
(** The rest of the range is left for the next time; the pointer is read again, and must not be null. *)
Definition finish_manual (s : Status) (manual_end : option Slice) (m : ManualCompaction) : ManualCompaction :=
  let done := m_done m || negb (ok s) in
  if done then MkManual (m_level m) true (m_begin m) (m_end m) else MkManual (m_level m) false manual_end (m_end m).
Definition BackgroundCompaction (fuel : nat) : DBM unit :=
  imm ← gets imm_;
  if bool_decide (is_Some imm) then CompactMemTable C cmp_name ndebug dbname_ options junk table_iterator fuel
  else
    manual ← gets manual_compaction_;
    match manual with
    | Some p =>
        m ← gets (λ db, manuals_ db !! p); m ← lift m;
        c ← on_versions (CompactRange C ndebug options (m_level m) (m_begin m) (m_end m));
        set_manual_state p (λ m, MkManual (m_level m) (bool_decide (c = None)) (m_begin m) (m_end m));;
        '(s, manual_end) ← (match c with
                            | Some c =>
                                f ← lift (list.last (inputs_ c).1);
                                s ← run_compaction fuel true c; mret (s, Some (largest (f_meta f)))
                            | None => mret (OK, None)
                            end);
        p ← gets manual_compaction_; p ← lift p;
        set_manual_state p (finish_manual s manual_end);;
        modify (λ db, set_manual None (manuals_ db) db)
    | None =>
        if disable_compaction options then mret tt
        else
          c ← on_versions (PickCompaction C ndebug options (negb (disable_seek_compaction options)));
          match c with Some c => _ ← run_compaction fuel false c; mret tt | None => mret tt end
    end.
Definition BackgroundCompactionWrapper (fuel : nat) : DBM unit :=
  busy ← gets (bg_compaction_in_progress_ ∘ jobs_); assertm (negb busy);;
  modify_jobs (set_in_progress true);; BackgroundCompaction fuel;; modify_jobs (set_in_progress false).
Definition BackgroundCall (fuel : nat) : DBM unit :=
  db ← gets id;
  assertm (bg_compaction_scheduled_ (jobs_ db));;
  (if shutting_down_ db || negb (ok (bg_error_ db)) || negb (bg_compaction_paused_ (jobs_ db) =? 0) then mret tt else BackgroundCompactionWrapper fuel);;
  modify_jobs (set_scheduled false);;
  MaybeScheduleCompaction options.
End Compact.
