(* ===== verification/DbOps.v ===== *)
(** * The operations of the database ([leveldb/db/db_impl.cc], [db.cc])

    Writing, with the queue of writers and the group that the first of them commits; reading; snapshots; flushes and manual compactions. *)
From S2P Require Import Prelude Status Coding Keys Comparator MemTable WriteBatch Log.
From S2P Require Import Iterator Format TwoLevel TableBuilder Table Merger MemIter VersionEdit.
From S2P Require Import DbOptions Version StrUtil Filenames Env VersionSet Compaction Db.

Section Write.
Context {E H S D : Type} `{!Env E H S} `{Snappy} `{!Iterator D} (C : Comparator) (cmp_name : Slice) (ndebug : bool) (dbname_ : Slice) (options : DbOptions) (junk : Z).
Context (table_iterator : E -> bool -> Z -> Z -> Z -> option D).
(** [ApproximateMemoryUsage]: the arena of a memtable is not modelled. *)
Context (memory_usage : MemTable -> Z).
Implicit Types (db : DBImpl E H) (w : WriterEntry).
Local Abbreviation DBM := (DBM E H).
Local Abbreviation assertm := (assertm (E := E) (H := H) ndebug).
Local Abbreviation MaybeSchedule := (MaybeScheduleCompaction (E := E) (H := H) options).

(** ** The group of a writer *)
(** The loop of [BuildBatchGroup]: the last writer of the group, and the temporary batch when there is one. *)
Fixpoint group_loop (ws : list WriterEntry) (first_sync : bool) (first tmp_batch : Slice) (size max_size : Z) (last : nat) (tmp : option Slice) : option (nat * option Slice) :=
  match ws with
  | [] => Some (last, tmp)
  | w :: ws =>
      if w_sync w && negb first_sync then Some (last, tmp)
      else
        match w_batch w with
        | Updates b =>
            let size := u64 (size + ByteSize b) in
            if size >? max_size then Some (last, tmp)
            else
              t ← (match tmp with
                   | None => n ← Count tmp_batch; _ ← assert_ ndebug (n =? 0); Append tmp_batch first
                   | Some t => Some t
                   end);
              t ← Append t b;
              group_loop ws first_sync first tmp_batch size max_size (w_id w) (Some t)
        | _ => Some (last, tmp)
        end
  end.
Definition group_limit (size : Z) : Z := if size <=? Z.shiftl 128 10 then size + Z.shiftl 128 10 else Z.shiftl 1 20.
(** The last writer and the batch of the group; whether it is the temporary one. *)
Definition BuildBatchGroup db : option (nat * Slice * bool) :=
  match writers_ db with
  | [] => None
  | first :: ws =>
      match w_batch first with
      | Updates b =>
          let size := ByteSize b in
          '(last, tmp) ← group_loop ws (w_sync first) b (tmp_batch_ db) size (group_limit size) (w_id first) None;
          Some (match tmp with Some t => (last, t, true) | None => (last, b, false) end)
      | _ => None
      end
  end.

(** ** Room for a write *)
(** [log_->Sync()] and the destructor of the log file, which closes it. *)
Definition Sync_log : DBM unit :=
  db ← gets id;
  w ← lift (log_ db);
  let '(_, env) := file_Sync (dest_ w) (db_env db) in modify (set_env env).
Definition switch_log : DBM Status :=
  vs ← gets db_versions; assertm (vs_prev_log_number_ vs =? 0);;
  n ← on_versions (λ vs, Some (NewFileNumber vs));
  fname ← lift (LogFileName ndebug dbname_ n);
  '(s, file) ← on_env (NewWritableFile fname);
  match file with
  | Some file =>
      if negb (ok s) then modify (λ db, set_vset (ReuseFileNumber n (db_versions db)) db);; mret s
      else
        (if sync_log_on_close options then Sync_log else mret tt);;
        old ← gets logfile_;
        (match old with Some old => _ ← on_env (file_Close old); mret tt | None => mret tt end);;
        modify (set_log (Some file) n (Some (MkWriter file 0 junk)));;
        mret s
  | None => modify (λ db, set_vset (ReuseFileNumber n (db_versions db)) db);; mret s
  end.
Definition has_room (force : bool) db : bool :=
  negb force && match mem_ db with Some m => memory_usage m <=? write_buffer_size options | None => false end.
Definition level0_files db : option Z := NumLevelFiles ndebug 0 (db_versions db).
(** The loop; the fuel bounds the memtables that are switched, and the waits are for what the others do. *)
Fixpoint room_loop (fuel : nat) (force allow_delay : bool) (s : Status) : DBM Status :=
  match fuel with
  | O => lift None
  | Datatypes.S fuel =>
      db ← gets id;
      if negb (ok (bg_error_ db)) then mret (bg_error_ db)
      else
        files ← lift (level0_files db);
        if negb (disable_compaction options) && allow_delay && (l0_soft_limit options <=? files) then others;; room_loop fuel force false s
        else if has_room force db then mret s
        else if bool_decide (is_Some (imm_ db)) then others;; room_loop fuel force allow_delay s
        else if negb (disable_compaction options) && (l0_hard_limit options <=? files) then others;; room_loop fuel force allow_delay s
        else if negb (no_memtable options) then
          s ← (if negb (disable_write_ahead_log options) then switch_log else mret s);
          if negb (ok s) then mret s
          else
            modify (λ db, set_memtables (Some (MemTable_Ref new_MemTable)) (mem_ db) db);;
            MaybeSchedule;; room_loop fuel false allow_delay s
        else mret s
  end.
Definition MakeRoomForWrite (fuel : nat) (force : bool) : DBM Status :=
  ws ← gets writers_; assertm (negb (bool_decide (ws = [])));; room_loop fuel force (negb force) OK.

(** ** Committing a group *)
(** The log and the memtable, while the mutex is given up. *)
Definition log_batch (sync : bool) (batch : Slice) : DBM (Status * bool) :=
  if disable_write_ahead_log options then mret (OK, false)
  else
    db ← gets id; w ← lift (log_ db);
    '(s, w, env) ← lift (log_AddRecord ndebug batch w (db_env db));
    modify (λ db, set_log (logfile_ db) (logfile_number_ db) (Some w) (set_env env db));;
    if ok s && sync then
      file ← lift (logfile_ db);
      s ← on_env (file_Sync file); mret (s, negb (ok s))
    else mret (s, false).
Definition insert_batch (batch : Slice) : DBM Status :=
  mem ← gets mem_; mem ← lift mem;
  '(s, mem) ← lift (InsertInto ndebug C batch mem);
  modify (λ db, set_memtables (Some mem) (imm_ db) db);; mret s.
Definition set_last_sequence (n : Z) : DBM unit := on_versions (λ vs, pair tt <$> vs_SetLastSequence ndebug n vs).
Definition commit_memtable (sync : bool) (batch : Slice) (last_sequence : Z) : DBM Status :=
  '(s, sync_error) ← log_batch sync batch;
  s ← (if ok s then insert_batch batch else mret s);
  others;;
  (if (sync_error : bool) then RecordBackgroundError s else mret tt);;
  set_last_sequence last_sequence;;
  mret s.

(** Compactions are kept out, and bulk insertions too. *)
Definition pause_compactions : DBM unit :=
  modify_jobs (λ j, set_paused (u32 (bg_compaction_paused_ j + 1)) j);;
  wait_while (λ db, bg_compaction_in_progress_ (jobs_ db) || bulk_insert_in_progress_ (jobs_ db));;
  modify_jobs (set_bulk_insert true).
Definition resume_compactions : DBM unit :=
  modify_jobs (set_bulk_insert false);;
  n ← gets (bg_compaction_paused_ ∘ jobs_); assertm (0 <? n);;
  modify_jobs (λ j, set_paused (u32 (bg_compaction_paused_ j - 1)) j);;
  MaybeSchedule.
(** Without memtables the group is a table of level 0. *)
Definition commit_table (fuel : nat) (batch : Slice) (last_sequence : Z) : DBM Status :=
  pause_compactions;;
  '(s, mem) ← lift (InsertInto ndebug C batch (MemTable_Ref new_MemTable));
  s ← (if ok s then
         '(s, e) ← DumpMemTable C ndebug dbname_ options table_iterator fuel mem new_VersionEdit None;
         if ok s then
           set_last_sequence last_sequence;;
           '(s, _) ← log_and_apply C cmp_name ndebug dbname_ options junk e; mret s
         else RecordBackgroundError s;; mret s
       else mret s);
  _ ← lift (MemTable_Unref ndebug mem);
  resume_compactions;;
  mret s.

(** The batch gets its sequence numbers from the version set.  (A caller's own batch gets them in place; nobody reads it after that.) *)
Definition commit_group (fuel : nat) (sync : bool) : DBM (Status * nat) :=
  db ← gets id;
  '(last, batch, is_tmp) ← lift (BuildBatchGroup db);
  (if (is_tmp : bool) then modify (set_tmp_batch batch) else mret tt);;
  let last_sequence := vs_last_sequence_ (db_versions db) in
  batch ← lift (SetSequence (u64 (last_sequence + 1)) batch);
  n ← lift (Count batch);
  let last_sequence := u64 (last_sequence + n) in
  s ← (if negb (no_memtable options) then commit_memtable sync batch last_sequence else commit_table fuel batch last_sequence);
  (if (is_tmp : bool) then modify (set_tmp_batch Clear) else mret tt);;
  mret (s, last).
(** The group leaves the queue with its status. *)
Fixpoint pop_group (ws : list WriterEntry) (self last : nat) (s : Status) (finished : gmap nat Status) : option (list WriterEntry * gmap nat Status) :=
  match ws with
  | [] => None
  | ready :: ws =>
      let finished := if decide (w_id ready = self) then finished else <[w_id ready := s]> finished in
      if decide (w_id ready = last) then Some (ws, finished) else pop_group ws self last s finished
  end.
(** What the first writer of the queue does. *)
Definition write_front (fuel : nat) (self : nat) (sync : bool) (batch : BatchRef) : DBM Status :=
  '(s, last) ← (match batch with
                | sync_wal_ =>
                    if disable_write_ahead_log options then mret (OK, self)
                    else
                      file ← gets logfile_; file ← lift file;
                      s ← on_env (file_Sync file); others;;
                      (if ok s then mret tt else RecordBackgroundError s);;
                      mret (s, self)
                | flush_memtable_ => s ← MakeRoomForWrite fuel true; mret (s, self)
                | Updates _ => s ← MakeRoomForWrite fuel false; if ok s then commit_group fuel sync else mret (s, self)
                end);
  db ← gets id;
  '(ws, finished) ← lift (pop_group (writers_ db) self last s (finished_ db));
  modify (set_writers ws finished);;
  mret s.
(** The writer waits until another one has committed it, or until it is the first; [self] is the address of its record. *)
Definition waits (self : nat) db : bool :=
  bool_decide (finished_ db !! self = None) && negb (bool_decide (w_id <$> head (writers_ db) = Some self)).
Definition Write (fuel : nat) (self : nat) (sync : bool) (batch : option BatchRef) : DBM Status :=
  let batch := default flush_memtable_ batch in
  modify (λ db, set_writers (writers_ db ++ [MkWriterEntry self batch sync]) (finished_ db) db);;
  wait_while (waits self);;
  db ← gets id;
  match finished_ db !! self with
  | Some s => modify (λ db, set_writers (writers_ db) (delete self (finished_ db)) db);; mret s
  | None => write_front fuel self sync batch
  end.

(** [DB::Put] and [DB::Delete]. *)
Definition DB_Put (fuel : nat) (self : nat) (sync : bool) (key value : Slice) : DBM Status :=
  b ← lift (WriteBatch_Put key value Clear); Write fuel self sync (Some (Updates b)).
Definition DB_Delete (fuel : nat) (self : nat) (sync : bool) (key : Slice) : DBM Status :=
  b ← lift (WriteBatch_Delete key Clear); Write fuel self sync (Some (Updates b)).
Definition SyncWAL (fuel : nat) (self : nat) : DBM Status := Write fuel self false (Some sync_wal_).

(** ** Bulk insertion *)
Definition DB_BulkInsert {I} `{Iterator I} (fuel : nat) (iter : I) (seqs : Z * Z) : DBM Status :=
  pause_compactions;;
  '(s, e, seqs) ← WriteLevel0Table C ndebug dbname_ options table_iterator fuel iter new_VersionEdit None seqs;
  s ← (if ok s then
         vs ← gets db_versions;
         (if vs_last_sequence_ vs <? seqs.2 then set_last_sequence seqs.2 else mret tt);;
         '(s, _) ← log_and_apply C cmp_name ndebug dbname_ options junk e; mret s
       else mret s);
  (if ok s then mret tt else RecordBackgroundError s);;
  resume_compactions;;
  mret s.

(** ** Control of compactions *)
Definition FreezeDbCompaction : DBM Status := modify_jobs (λ j, set_disabled (u32 (bg_compaction_disabled_ j + 1)) j);; mret OK.
Definition ResumeDbCompaction : DBM Status :=
  n ← gets (bg_compaction_disabled_ ∘ jobs_); assertm (0 <? n);;
  modify_jobs (λ j, set_disabled (u32 (bg_compaction_disabled_ j - 1)) j);;
  n ← gets (bg_compaction_disabled_ ∘ jobs_);
  (if n =? 0 then MaybeSchedule else mret tt);; mret OK.
(** Each wait is one round of the loop. *)
Fixpoint drain_loop (fuel : nat) : DBM unit :=
  db ← gets id;
  has ← lift (HasCompaction options db);
  if (has : bool) && ok (bg_error_ db) then
    match fuel with O => lift None | Datatypes.S fuel => MaybeSchedule;; others;; drain_loop fuel end
  else mret tt.
Definition DrainCompactions (fuel : nat) : DBM Status := drain_loop fuel;; gets bg_error_.

(** A manual compaction; [self] is the address of its record. *)
Fixpoint manual_loop (fuel self : nat) : DBM unit :=
  db ← gets id;
  m ← lift (manuals_ db !! self);
  if negb (m_done m) && negb (shutting_down_ db) && ok (bg_error_ db) then
    match fuel with
    | O => lift None
    | Datatypes.S fuel =>
        (if bool_decide (manual_compaction_ db = None) then modify (λ db, set_manual (Some self) (manuals_ db) db);; MaybeSchedule else others);;
        manual_loop fuel self
    end
  else mret tt.
Definition TEST_CompactRange (fuel self : nat) (level : Z) (begin end_ : option Slice) : DBM unit :=
  assertm (0 <=? level);; assertm (level + 1 <? kNumLevels);;
  let bound u (s : Z) (t : ValueType) := match u with Some u => k ← AppendInternalKey ndebug [] (MkParsed u s t); Some (Some k) | None => Some None end in
  b ← lift (bound begin kMaxSequenceNumber kValueTypeForSeek);
  e ← lift (bound end_ 0 kTypeDeletion);
  modify (λ db, set_manual (manual_compaction_ db) (<[self := MkManual level false b e]> (manuals_ db)) db);;
  manual_loop fuel self;;
  modify (λ db, set_manual (if decide (manual_compaction_ db = Some self) then None else manual_compaction_ db) (delete self (manuals_ db)) db).
Definition memtable_pending db : bool := bool_decide (is_Some (imm_ db)) && ok (bg_error_ db).
Definition FlushMemTable (fuel self : nat) (force_flush_l0 wait : bool) : DBM Status :=
  s ← Write fuel self false (Some flush_memtable_);
  if ok s && (wait || force_flush_l0) then
    wait_while memtable_pending;;
    err ← gets bg_error_;
    (if force_flush_l0 && ok err then TEST_CompactRange fuel self 0 None None else mret tt);;
    err ← gets bg_error_;
    mret (if ok err then s else err)
  else mret s.
Definition TEST_CompactMemTable (fuel self : nat) : DBM Status :=
  s ← Write fuel self false None;
  if ok s then
    wait_while memtable_pending;;
    db ← gets id; mret (if bool_decide (is_Some (imm_ db)) then bg_error_ db else s)
  else mret s.
(** The deepest level with files in the range. *)
Fixpoint max_level_loop (v : Version) (begin end_ : option Slice) (levels : list Z) (res : Z) : option Z :=
  match levels with
  | [] => Some res
  | level :: levels => o ← OverlapInLevel C ndebug v level begin end_; max_level_loop v begin end_ levels (if (o : bool) then level else res)
  end.
Fixpoint compact_levels (fuel self : nat) (begin end_ : option Slice) (levels : list Z) : DBM unit :=
  match levels with [] => mret tt | level :: levels => TEST_CompactRange fuel self level begin end_;; compact_levels fuel self begin end_ levels end.
Definition DB_CompactRange (fuel self : nat) (begin end_ : option Slice) : DBM unit :=
  vs ← gets db_versions;
  v ← lift (current_version vs);
  max_level ← lift (max_level_loop v begin end_ (seqZ 1 (kNumLevels - 1)) 1);
  _ ← TEST_CompactMemTable fuel self;
  compact_levels fuel self begin end_ (seqZ 0 max_level).

(** ** Snapshots *)
Definition GetSnapshot : DBM Z := db ← gets id; modify (set_snapshots (snapshots_ db ++ [vs_last_sequence_ (db_versions db)]));; mret (vs_last_sequence_ (db_versions db)).
(** One snapshot of that number leaves the list. *)
Fixpoint remove_snapshot (s : Z) (l : list Z) : list Z := match l with [] => [] | x :: l => if x =? s then l else x :: remove_snapshot s l end.
Definition ReleaseSnapshot (s : Z) : DBM unit := modify (λ db, set_snapshots (remove_snapshot s (snapshots_ db)) db).
End Write.

(** ** Reading *)
Section Read.
Context {E H D B : Type} `{!Iterator D} `{!TableGet E} `{!Buffer B} (C : Comparator) (ndebug : bool) (options : DbOptions).
Context (table_iterator : E -> bool -> Z -> Z -> Z -> option D).
Implicit Types (db : DBImpl E H).
Local Abbreviation DBM := (DBM E H).

(** A memtable that may be null. *)
Definition get_from (mem : option MemTable) (k : LookupKey) (value : B) (limit : Z) : option (option (Status * B)) :=
  match mem with Some m => MemTable_Get C m k value limit OK | None => Some None end.
(** What [Get] does with a lookup key, while the mutex is given up: the memtables are those of the start.  (They are referenced and
    released in pairs; those references are left out.) *)
Definition get_with (ro : ReadOptions) (k : LookupKey) (value : B) : DBM (Status * B) :=
  db ← gets id;
  let p := current_ (db_versions db) in
  ref_version p;;
  v ← lift (find_version p (versions_ (objects (db_versions db))));
  others;;
  r ← lift (get_from (mem_ db) k value (ro_limit ro));
  r ← (match r with Some r => mret (Some r) | None => lift (get_from (imm_ db) k value (ro_limit ro)) end);
  match r with
  | Some (s, value) => unref_version ndebug p;; mret (s, value)
  | None =>
      env ← gets db_env;
      '(_, s, value, stats, env) ← lift (Version_Get C ndebug ro k value env v);
      modify (set_env env);; others;;
      due ← on_objects (λ o, v ← find_version p (versions_ o); '(due, v, heap) ← UpdateStats stats v (files_heap o);
                             Some (due, set_files_heap heap (set_versions (put_version p v (versions_ o)) o)));
      (if (due : bool) && negb (disable_seek_compaction options) then MaybeScheduleCompaction options else mret tt);;
      unref_version ndebug p;;
      mret (s, value)
  end.
(** [snapshot]: the number of a snapshot, or null. *)
Definition DB_Get (ro : ReadOptions) (snapshot : option Z) (key : Slice) (value : B) : DBM (Status * B) :=
  vs ← gets db_versions;
  k ← lift (new_LookupKey ndebug key (default (vs_last_sequence_ vs) snapshot));
  get_with ro k value.

Definition DB_RecordReadSample (key : Slice) : DBM unit :=
  p ← current_of (E := E);
  due ← on_objects (λ o, v ← find_version p (versions_ o); '(due, v, heap) ← Version_RecordReadSample C ndebug key v (files_heap o);
                         Some (due, set_files_heap heap (set_versions (put_version p v (versions_ o)) o)));
  if (due : bool) && negb (disable_seek_compaction options) then MaybeScheduleCompaction options else mret tt.

(** The children of an internal iterator, with the snapshot; the seed and the references to the memtables are left out. *)
Definition NewInternalIterator : DBM (list (MemTableIterator + (D + TwoLevelIterator LevelFileNumIterator (D + EmptyIterator))) * Z) :=
  db ← gets id;
  let mems := MemTable_NewIterator <$> option_list (mem_ db) ++ option_list (imm_ db) in
  v ← lift (current_version (db_versions db));
  files ← lift (AddIterators C ndebug (table_iterator (db_env db)) v);
  ref_version (current_ (db_versions db));;
  mret ((inl <$> mems) ++ (inr <$> files), vs_last_sequence_ (db_versions db)).
End Read.

(** * Opening a database ([leveldb/db/db_impl.cc]: [NewDB], [Recover], [RecoverLogFile], [DB::Open])

    The manifest is recovered first; then the batches of the logs that are not in tables yet are inserted into memtables again, which are written to tables. *)

Section Open.
Context {E H S D : Type} `{!Env E H S} `{!SequentialFile S} `{Snappy} `{!Iterator D} (C : Comparator) (cmp_name : Slice) (ndebug : bool) (dbname_ : Slice) (options : DbOptions) (junk : Z).
Context (table_iterator : E -> bool -> Z -> Z -> Z -> option D).
(** [ApproximateMemoryUsage] and [Env::LockFile]. *)
Context (memory_usage : MemTable -> Z) (lock_file : Slice -> E -> Status * E).
Implicit Types (db : DBImpl E H) (e : VersionEdit).
Local Abbreviation DBM := (DBM E H).

(** The constructor. *)
Definition new_DBImpl (env : E) : DBImpl E H :=
  MkDB env (if no_memtable options then None else Some (MemTable_Ref new_MemTable)) None None 0 None [] ∅ Clear [] ∅ (MkJobs 0 0 false false false) None ∅ new_VersionSet OK false.

Definition NewDB : DBM Status :=
  let e := SetLastSequence 0 (SetNextFile 4 (SetLogNumber 0 (SetComparatorName cmp_name new_VersionEdit))) in
  let num := if rotating_manifest options then 1 else 3 in
  manifest ← lift (DescriptorFileName ndebug dbname_ num);
  '(s, file) ← on_env (NewWritableFile manifest);
  match file with
  | Some file =>
      if negb (ok s) then mret s
      else
        record ← lift (VersionEdit_EncodeTo ndebug e []);
        env ← gets db_env;
        '(s, _, env) ← lift (log_AddRecord ndebug record (MkWriter file 0 junk) env);
        let '(s, env) := if ok s then file_Sync file env else (s, env) in
        let env := (file_Close file env).2 in
        '(s, env) ← lift (if ok s then if rotating_manifest options then Some (s, env) else SetCurrentFile ndebug dbname_ num env
                          else Some (s, (env_DeleteFile manifest env).2));
        modify (set_env env);; mret s
  | None => mret s
  end.

Definition paranoid : bool := TableBuilder.paranoid_checks (table_options options).
Definition MaybeIgnoreError (s : Status) : Status := if ok s || paranoid then s else OK.
(** What a report leaves in the status of the caller. *)
Definition note_report (r : Reader S) (s : Status) : Status := if paranoid then reported r s else s.

(** The batch of a record goes to the memtable, which becomes a table when it is large. *)
Definition replay_record (fuel : nat) (record : Slice) (mem : option MemTable) e (max_sequence : Z) : DBM (Status * option MemTable * VersionEdit * Z) :=
  batch ← lift (SetContents ndebug record);
  '(s, mem) ← lift (InsertInto ndebug C batch (default (MemTable_Ref new_MemTable) mem));
  let s := MaybeIgnoreError s in
  if negb (ok s) then mret (s, Some mem, e, max_sequence)
  else
    seq ← lift (Sequence batch); n ← lift (Count batch);
    let last_seq := u64 (u64 (seq + n) - 1) in
    let max_sequence := if last_seq >? max_sequence then last_seq else max_sequence in
    if memory_usage mem >? write_buffer_size options then
      '(s, e) ← DumpMemTable C ndebug dbname_ options table_iterator fuel mem e None;
      if negb (ok s) then mret (s, Some mem, e, max_sequence)
      else _ ← lift (MemTable_Unref ndebug mem); mret (s, None, e, max_sequence)
    else mret (s, Some mem, e, max_sequence).
Fixpoint replay_log (fuel : nat) (r : Reader S) (s : Status) (mem : option MemTable) e (max_sequence : Z) : DBM (Status * option MemTable * VersionEdit * Z) :=
  match fuel with
  | O => lift None
  | Datatypes.S fuel =>
      '(record, r) ← lift (ReadRecord fuel false r);
      let s := note_report r s in
      match record with
      | Some record =>
          if negb (ok s) then mret (s, mem, e, max_sequence)
          else if |[record]| <? 12 then
            replay_log fuel r (if paranoid then Err kCorruption "log record too small" else s) mem e max_sequence
          else
            '(s, mem, e, max_sequence) ← replay_record fuel record mem e max_sequence;
            if negb (ok s) then mret (s, mem, e, max_sequence) else replay_log fuel r s mem e max_sequence
      | None => mret (s, mem, e, max_sequence)
      end
  end.
Definition RecoverLogFile (fuel : nat) (log_number : Z) e (max_sequence : Z) : DBM (Status * VersionEdit * Z) :=
  fname ← lift (LogFileName ndebug dbname_ log_number);
  env ← gets db_env;
  match NewSequentialFile fname env with
  | (s, Some file) =>
      if negb (ok s) then mret (MaybeIgnoreError s, e, max_sequence)
      else
        '(s, mem, e, max_sequence) ← replay_log fuel (new_Reader file true true 0) s None e max_sequence;
        '(s, e) ← (match mem with
                   | Some mem => if ok s then DumpMemTable C ndebug dbname_ options table_iterator fuel mem e None else mret (s, e)
                   | None => mret (s, e)
                   end);
        _ ← lift (match mem with Some mem => MemTable_Unref ndebug mem | None => Some None end);
        mret (s, e, max_sequence)
  | (s, None) => mret (MaybeIgnoreError s, e, max_sequence)
  end.

(** The logs in order; the status is that of the last one. *)
Fixpoint recover_logs (fuel : nat) (logs : list Z) (s : Status) e (max_sequence : Z) : DBM (Status * VersionEdit * Z) :=
  match logs with
  | [] => mret (s, e, max_sequence)
  | n :: logs =>
      '(s, e, max_sequence) ← RecoverLogFile fuel n e max_sequence;
      modify (λ db, set_vset (MarkFileNumberUsed n (db_versions db)) db);;
      recover_logs fuel logs s e max_sequence
  end.
(** The files of the directory: those that are missing, and the logs to read. *)
Definition scan_files (min_log prev_log : Z) (filenames : list Slice) (expected : gset Z) : gset Z * list Z :=
  foldl (λ acc f, match ParseFileName f with
                  | Some (n, type) =>
                      (acc.1 ∖ {[n]}, if bool_decide (type = kLogFile) && ((min_log <=? n) || (n =? prev_log)) then acc.2 ++ [n] else acc.2)
                  | None => acc
                  end) (expected, []) filenames.
Definition insert_log (n : Z) : list Z -> list Z :=
  fix go l := match l with [] => [n] | m :: l' => if n <=? m then n :: l else m :: go l' end.
Definition sort_logs (logs : list Z) : list Z := foldr insert_log [] logs.
Definition least (s : gset Z) : option Z := head (sort_logs (elements s)).
Definition missing_status (expected : gset Z) : option Status :=
  n ← least expected; name ← TableFileName ndebug dbname_ n;
  Some (MkStatus kCorruption (NumberToString (Z.of_nat (size expected)) ++ lit " missing files; e.g.") name).

Definition recover_files (fuel : nat) e : DBM (Status * VersionEdit) :=
  db ← gets id;
  let vs := db_versions db in
  let '(s, filenames) := GetChildren dbname_ (db_env db) in
  if negb (ok s) then mret (s, e)
  else
    let '(expected, logs) := scan_files (vs_log_number_ vs) (vs_prev_log_number_ vs) filenames (AddLiveFiles ∅ vs) in
    if negb (bool_decide (expected = ∅)) then s ← lift (missing_status expected); mret (s, e)
    else
      '(s, e, max_sequence) ← recover_logs fuel (sort_logs logs) s e 0;
      vs ← gets db_versions;
      (if ok s && (vs_last_sequence_ vs <? max_sequence) then on_versions (λ vs, pair tt <$> vs_SetLastSequence ndebug max_sequence vs) else mret tt);;
      mret (s, e).
Definition any_manifest (env : E) : option bool :=
  m1 ← DescriptorFileName ndebug dbname_ 1; m2 ← DescriptorFileName ndebug dbname_ 2;
  Some (FileExists m1 env || FileExists m2 env || FileExists (CurrentFileName dbname_) env).
Definition DB_Recover (fuel : nat) e : DBM (Status * VersionEdit) :=
  _ ← on_env (CreateDir dbname_);
  s ← (if skip_lock_file options then mret OK else on_env (lock_file (LockFileName dbname_)));
  if negb (ok s) then mret (s, e)
  else
    env ← gets db_env;
    exists_ ← lift (any_manifest env);
    s ← (if (exists_ : bool) then
           mret (if error_if_exists options then MkStatus kInvalidArgument dbname_ (lit "DB exists (error_if_exists==1)") else OK)
         else if create_if_missing options then NewDB
         else mret (MkStatus kInvalidArgument dbname_ (lit "DB does not exist (create_if_missing==0)")));
    if negb (ok s) then mret (s, e)
    else
      db ← gets id;
      '(s, vs) ← lift (VersionSet.Recover C cmp_name ndebug dbname_ options fuel (db_versions db) (db_env db));
      modify (set_vset vs);;
      if ok s then recover_files fuel e
      else msg ← lift (ToString s); mret (MkStatus kCorruption (lit "Cannot recover db manifest from db storage") msg, e).

(** [DB::Open]: a new log, the edit with the tables of the old ones, and the files that are no longer needed. *)
Definition open_log e : DBM (Status * VersionEdit) :=
  if disable_write_ahead_log options then mret (OK, e)
  else
    n ← on_versions (λ vs, Some (NewFileNumber vs));
    fname ← lift (LogFileName ndebug dbname_ n);
    '(s, file) ← on_env (NewWritableFile fname);
    match file with
    | Some file =>
        if ok s then modify (set_log (Some file) n (Some (MkWriter file 0 junk)));; mret (s, SetLogNumber n e) else mret (s, e)
    | None => mret (s, e)
    end.
Definition DB_Open (fuel : nat) : DBM Status :=
  '(s, e) ← DB_Recover fuel new_VersionEdit;
  if negb (ok s) then mret s
  else
    '(s, e) ← open_log e;
    '(s, e) ← (if ok s then log_and_apply C cmp_name ndebug dbname_ options junk e else mret (s, e));
    (if ok s then DeleteObsoleteFiles dbname_ options;; MaybeScheduleCompaction options else mret tt);;
    mret s.
End Open.
