(* ===== verification/CompactionProps.v ===== *)
(** * What a compaction keeps

    The questions [DoCompactionWork] asks are answered as a direct search would, and the entries it drops are seen by no reader at or after the oldest snapshot. *)
From stdpp Require Import sorting.
From S2P Require Import Prelude Status Coding Comparator Log Format Iterator Merger.
From S2P Require Import History MemTable MemTableProps VersionEdit DbOptions Version VersionFacts VersionProps.
From S2P Require Import VersionSet VersionSetFacts Manifest VersionSetProps Filenames Env TableBuilder MemIter.
From S2P Require Import Compaction Db Keys WriteBatch TwoLevel Table StrUtil DbOps.
From S2P Require Import Block.

(** ** [IsBaseLevelForKey] against a direct search *)
Section Base.
Context {C : Comparator} {valid : Slice -> Prop} `{!ComparatorLaws C valid}.
Implicit Types (f g : File) (files : list File) (levels : list (list File)) (u : Slice) (ptr : nat) (ptrs : list nat).

(** The range of the file holds the key. *)
Definition spans u f : bool := in_range (Some u) (Some u) f.
Definition base_level u levels : bool := forallb (forallb (λ f, negb (spans u f))) levels.

(** The ranges of a level, in order. *)
Record ranges_ok files : Prop := {
  ra_files : Forall (file_ok (valid := valid)) files;
  ra_order f : f ∈ files -> Compare (ustart f) (ulimit f) <> Some Gt;
  ra_next i j f g : files !! i = Some f -> files !! j = Some g -> (i < j)%nat -> Compare (ulimit f) (ustart g) <> Some Gt
}.
(** The files before the pointer end before the key. *)
Definition passed u files ptr : Prop := ∀ i f, (i < ptr)%nat -> files !! i = Some f -> Compare (ulimit f) u = Some Lt.

Lemma passed_mono u u' files ptr : ranges_ok files -> valid u -> valid u' -> Compare u u' <> Some Gt -> passed u files ptr -> passed u' files ptr.
Proof.
  intros Hok Vu Vu' Hle Hp i f Hi Ef. assert (f ∈ files) as Hin by by eapply list_elem_of_lookup_2.
  pose proof (ra_files _ Hok) as Hf. rewrite list.Forall_forall in Hf. destruct (ulimit_ok f (Hf f Hin)) as [_ Vf].
  eapply (cmp_lt_le_trans (ulimit f) u u'); auto. by apply (Hp i).
Qed.

Lemma spans_true u f : spans u f = true <-> Compare (ulimit f) u <> Some Lt /\ Compare (ustart f) u <> Some Gt.
Proof. unfold spans, in_range. cbn [below above]. rewrite andb_true_iff, !negb_true_iff, !bool_decide_eq_false. done. Qed.

Lemma pass_files_ok u files : ranges_ok files -> valid u -> ∀ pre suf, files = pre ++ suf -> passed u files (length pre) ->
  ∃ inside ptr', pass_files C u suf (length pre) = Some (inside, ptr') /\ passed u files ptr' /\ (ptr' <= length files)%nat /\ (inside = true <-> ∃ f, f ∈ files /\ spans u f = true).
Proof.
  intros Hok Vu pre suf. revert pre. induction suf as [| f suf IH]; intros pre E Hp.
  - exists false, (length pre). split; [done |]. split; [done |]. split; [rewrite E, app_nil_r; done |]. split; [done |]. intros (f & Hin & [H1 _]%spans_true). rewrite app_nil_r in E. subst pre.
    apply list_elem_of_lookup in Hin as [i Ei]. destruct H1. by apply (Hp i); [eapply lookup_lt_Some |].
  - pose proof (ra_files _ Hok) as Hf. rewrite list.Forall_forall in Hf. assert (f ∈ files) as Hin by (rewrite E; set_solver). assert (files !! length pre = Some f) as Ef by (rewrite E; by apply list_lookup_middle).
    destruct (ulimit_ok f (Hf f Hin)) as [El Vl], (ustart_ok f (Hf f Hin)) as [Es Vs]. cbn [pass_files]. change (f_meta f) with (f : FileMetaData). rewrite El. cbn [mbind option_bind].
    destruct (cmp_some u (ulimit f) Vu Vl) as [r Er]. rewrite Er. cbn [mbind option_bind]. case_bool_decide as Hgt.
    + subst r. replace (S (length pre)) with (length (pre ++ [f])) by (rewrite length_app; cbn; lia). apply IH; [by rewrite <- app_assoc |].
      intros i g Hi Eg. rewrite length_app in Hi. cbn in Hi. destruct (decide (i = length pre)) as [-> |]; [| apply (Hp i); [lia | done]]. assert (g = f) as -> by congruence. by apply cmp_gt_lt.
    + rewrite Es. cbn [mbind option_bind]. destruct (cmp_some u (ustart f) Vu Vs) as [r' Er']. rewrite Er'. cbn [mbind option_bind]. eexists _, (length pre). split; [done |]. split; [done |]. split; [rewrite E, length_app; lia |].
      assert (Compare (ulimit f) u <> Some Lt) as Hnl by (intros Hl; apply cmp_lt_gt in Hl; [congruence | done..]).
      rewrite negb_true_iff, bool_decide_eq_false. split.
      * intros Hr'. exists f. split; [done |]. apply spans_true. split; [done |]. intros Hg. apply cmp_gt_lt in Hg; [congruence | done..].
      * intros (g & Hg & [H1 H2]%spans_true) ->. apply list_elem_of_lookup in Hg as [i Ei]. destruct (decide (i < length pre)%nat) as [Hlt |]; [by apply H1, (Hp i) |].
        destruct (decide (i = length pre)) as [-> |]; [assert (g = f) as -> by congruence; apply H2; by apply cmp_lt_gt |].
        assert (g ∈ files) as Hg by by eapply list_elem_of_lookup_2. destruct (ustart_ok g (Hf g Hg)) as [_ Vgs], (ulimit_ok g (Hf g Hg)) as [_ Vgl].
        apply H2. apply cmp_lt_gt; [done.. |]. eapply (cmp_lt_le_trans u (ustart f) (ustart g)); [done.. |].
        apply (cmp_le_trans (ustart f) (ulimit f) (ustart g)); [done.. | by apply (ra_order _ Hok) |]. apply (ra_next _ Hok (length pre) i); [done.. | lia].
Qed.

Lemma base_levels_ok u levels : Forall ranges_ok levels -> valid u -> ∀ ptrs, Forall2 (λ files ptr, passed u files ptr /\ (ptr <= length files)%nat) levels ptrs ->
  ∃ ptrs', base_levels C u levels ptrs = Some (base_level u levels, ptrs') /\ Forall2 (λ files ptr, passed u files ptr /\ (ptr <= length files)%nat) levels ptrs'.
Proof.
  intros Hok Vu ptrs H2. revert Hok. induction H2 as [| files ptr levels ptrs [Hp Hle] H2 IH]; intros Hok; [exists []; split; [done | constructor] |]. apply list.Forall_cons in Hok as [Hok Hoks]. cbn [base_levels].
  destruct (pass_files_ok u files Hok Vu (take ptr files) (drop ptr files)) as (inside & ptr' & E & Hp' & Hle' & Hin); [by rewrite take_drop | by rewrite length_take_le |].
  rewrite length_take_le in E by done. rewrite E. cbn [mbind option_bind].
  assert (forallb (λ f, negb (spans u f)) files = negb inside) as Ef.
  { destruct inside; [| apply forallb_forall; intros f Hf; apply list_elem_of_In in Hf; destruct (spans u f) eqn:Es; [| done]; assert (false = true) by (apply Hin; by exists f); done].
    destruct (proj1 Hin eq_refl) as (f & Hf & Es). destruct (forallb _ files) eqn:Ea; [| done]. rewrite forallb_forall in Ea. apply list_elem_of_In in Hf. specialize (Ea f Hf). by rewrite Es in Ea. }
  cbn [base_level forallb]. rewrite Ef. destruct inside; cbn [negb andb].
  - eexists. split; [done |]. by constructor.
  - destruct (IH Hoks) as (ptrs' & -> & H2'). cbn [mbind option_bind]. eexists. split; [done |]. by constructor.
Qed.

(** The pointers of a compaction into the deeper levels of the input version. *)
Definition deeper (level : Z) (levels : list (list File)) : list (list File) := drop (Z.to_nat (level + 2)) levels.
Definition pointers_ok u (v : Version) (c : Compaction) : Prop :=
  Forall2 (λ files ptr, passed u files ptr /\ (ptr <= length files)%nat) (deeper (level_ c) (files_ v)) (drop (Z.to_nat (level_ c + 2)) (level_ptrs_ c)).
Lemma pointers_mono u u' v c : Forall ranges_ok (deeper (level_ c) (files_ v)) -> valid u -> valid u' -> Compare u u' <> Some Gt -> pointers_ok u v c -> pointers_ok u' v c.
Proof.
  unfold pointers_ok. intros Hok Vu Vu' Hle H2. revert Hok. induction H2 as [| files ptr levels ptrs [Hp Hl] H2 IH]; intros Hok; [constructor |].
  apply list.Forall_cons in Hok as [Hok Hoks]. constructor; [split; [by apply (passed_mono u u') | done] | by apply IH].
Qed.

(** The search that remembers where it was gives the answer of a direct one, for keys that come in order. *)
Lemma IsBaseLevelForKey_ok u v c : Forall ranges_ok (deeper (level_ c) (files_ v)) -> valid u -> pointers_ok u v c -> (Z.to_nat (level_ c + 2) <= length (level_ptrs_ c))%nat ->
  ∃ ptrs, IsBaseLevelForKey C v u c = Some (base_level u (deeper (level_ c) (files_ v)), set_level_ptrs ptrs c) /\ pointers_ok u v (set_level_ptrs ptrs c) /\ length ptrs = length (level_ptrs_ c).
Proof.
  intros Hok Vu Hp Hle. unfold IsBaseLevelForKey. destruct (base_levels_ok u _ Hok Vu _ Hp) as (ptrs' & E & H2). unfold deeper in *. rewrite E. cbn [mbind option_bind]. eexists. split; [done |].
  assert (length ptrs' = length (drop (Z.to_nat (level_ c + 2)) (level_ptrs_ c))) as El by (apply Forall2_length in H2, Hp; unfold deeper in *; lia).
  split; [| rewrite length_app, El, length_take_le, length_drop by done; lia].
  unfold pointers_ok, set_level_ptrs, deeper. cbn [level_ level_ptrs_]. rewrite drop_app_length' by (by rewrite length_take_le). exact H2.
Qed.
End Base.

(** ** The entries that stay *)
Section Order.
Context {C : Comparator} {valid : Slice -> Prop} `{!ComparatorLaws C valid}.
Implicit Types (e : Entry) (es pre suf : list Entry).
Local Notation entry_ok := (entry_ok (valid := valid)).

Definition entry_lt e e' : Prop := InternalKey_Compare C (entry_key e) (entry_key e') = Some Lt.
(** What the input iterator of a compaction shows. *)
Record input_sorted es : Prop := {
  is_order : StronglySorted entry_lt es;
  is_entries : Forall entry_ok es;
  is_seqs : base.NoDup (e_seq <$> es)
}.

Lemma entry_ikeys_compare e e' : entry_ok e -> entry_ok e' -> ∃ r, Compare (e_key e) (e_key e') = Some r /\
  InternalKey_Compare C (entry_key e) (entry_key e') = Some (ikey_compare r (tag (e_seq e) (e_type e)) (tag (e_seq e') (e_type e'))).
Proof.
  intros [Ve We] [Ve' We']. destruct (cmp_some (e_key e) (e_key e') Ve Ve') as [r E]. exists r. split; [done |].
  unfold entry_key. rewrite InternalKey_Compare_ikey by by apply tag_word. by rewrite E.
Qed.
Lemma entry_lt_user e e' : entry_ok e -> entry_ok e' -> entry_lt e e' -> Compare (e_key e) (e_key e') <> Some Gt.
Proof. intros He He'. destruct (entry_ikeys_compare e e' He He') as (r & E & E'). unfold entry_lt. rewrite E, E'. by destruct r. Qed.
(** Of two entries of a user key the newer one comes first. *)
Lemma entry_lt_same e e' : entry_ok e -> entry_ok e' -> Compare (e_key e) (e_key e') = Some Eq -> e_seq e <> e_seq e' -> entry_lt e e' <-> e_seq e' < e_seq e.
Proof.
  intros He He' E Hne. destruct (entry_ikeys_compare e e' He He') as (r & Er & E'). unfold entry_lt. rewrite E', E in *. injection Er as <-. cbn [ikey_compare]. rewrite tag_compare.
  destruct (Z.compare_spec (e_seq e') (e_seq e)); split; try done; lia.
Qed.
Lemma entry_lt_irrefl e e' : entry_ok e -> entry_ok e' -> entry_lt e e' -> entry_lt e' e -> False.
Proof.
  intros [Ve We] [Ve' We'] H1 H2. assert (valid_ikey valid (entry_key e) /\ valid_ikey valid (entry_key e')) as [K1 K2] by (split; eexists _, _; (split; [reflexivity | split; [done | by apply tag_word]])).
  apply (cmp_lt_gt (compare := InternalKey_Compare C)) in H1; [| done..]. unfold entry_lt in H2. congruence.
Qed.
Lemma same_key_Compare u v : same_key u v = true <-> Compare u v = Some Eq.
Proof. unfold same_key. by rewrite bool_decide_eq_true. Qed.

Lemma input_sorted_split pre e suf : input_sorted (pre ++ e :: suf) ->
  entry_ok e /\ (∀ x, x ∈ pre -> entry_ok x /\ entry_lt x e /\ e_seq x <> e_seq e) /\ (∀ x, x ∈ suf -> entry_ok x /\ entry_lt e x /\ e_seq x <> e_seq e).
Proof.
  intros [Hs He Hd]. apply StronglySorted_app in Hs as (Hpe & _ & Hes). apply StronglySorted_inv in Hes as [_ Hes]. apply list.Forall_app in He as [Hp [Hee Hsu]%list.Forall_cons].
  rewrite fmap_app in Hd. cbn [fmap list_fmap] in Hd. apply list.NoDup_app in Hd as (_ & Hd1 & [Hd2 _]%list.NoDup_cons). rewrite list.Forall_forall in *. split; [done |]. split; intros x Hx.
  - split; [by apply Hp |]. split; [by apply Hpe; [| left] |]. intros E. apply (Hd1 (e_seq x)); [by apply list_elem_of_fmap_2 | rewrite E; by left].
  - split; [by apply Hsu |]. split; [by apply Hes |]. intros E. apply Hd2. rewrite <- E. by apply list_elem_of_fmap_2.
Qed.
End Order.

Section Rule.
Context {C : Comparator} {valid : Slice -> Prop} `{!ComparatorLaws C valid} (s0 : Z) (v : Version).
Implicit Types (e p : Entry) (es pre suf : list Entry) (ks : KeyState) (c : Compaction).
Local Notation entry_ok := (entry_ok (valid := valid)).
Local Notation input_sorted := (input_sorted (C := C) (valid := valid)).

(** A newer entry of the user key that every reader at or after [s0] sees; a deletion of a key that deeper levels do not have. *)
Definition hides e' e : bool := same_key (e_key e') (e_key e) && (e_seq e <? e_seq e') && (e_seq e' <=? s0).
Definition stale_delete (level : Z) e : bool :=
  bool_decide (e_type e = kTypeDeletion) && (e_seq e <=? s0) && base_level (e_key e) (deeper level (files_ v)).
Definition survives (level : Z) es e : bool := negb (existsb (λ e', hides e' e) es) && negb (stale_delete level e).

(** The decisions of the loop of [DoCompactionWork] over a sequence of entries. *)
Fixpoint kept_entries es ks c : option (list Entry * KeyState * Compaction) :=
  match es with
  | [] => Some ([], ks, c)
  | e :: es =>
      '(drop, ks, c) ← drop_entry C s0 v (entry_key e) ks c;
      '(l, ks, c) ← kept_entries es ks c;
      Some (if (drop : bool) then l else e :: l, ks, c)
  end.

Lemma between_same e' p e : entry_ok e' -> entry_ok p -> entry_ok e -> entry_lt e' p -> entry_lt p e -> same_key (e_key e') (e_key e) = true ->
  same_key (e_key p) (e_key e) = true /\ same_key (e_key e') (e_key p) = true.
Proof.
  intros He' Hp He H1 H2 Hs%same_key_Compare. pose proof (entry_lt_user _ _ He' Hp H1) as U1. pose proof (entry_lt_user _ _ Hp He H2) as U2.
  destruct He' as [V' _], Hp as [Vp _], He as [V _]. assert (Compare (e_key p) (e_key e) = Some Eq) as E.
  { destruct (cmp_some (e_key p) (e_key e) Vp V) as [[] E]; [done | | done]. pose proof (cmp_le_lt_trans _ _ _ V' Vp V U1 E). congruence. }
  split; apply same_key_Compare; [done |]. apply (cmp_eq_r _ (e_key e)); [done.. | by apply cmp_eq_sym].
Qed.
Lemma hidden_by_last pre e suf : input_sorted (pre ++ e :: suf) ->
  existsb (λ e', hides e' e) (pre ++ e :: suf) = match list.last pre with Some p => same_key (e_key p) (e_key e) && (e_seq p <=? s0) | None => false end.
Proof.
  intros Hs. destruct (input_sorted_split pre e suf Hs) as (He & Hpre & Hsuf).
  assert (∀ x, x ∈ pre ++ e :: suf -> hides x e = true -> x ∈ pre) as Hin.
  { intros x [Hx | [-> | Hx]%elem_of_cons]%elem_of_app Hh; [done | |]; unfold hides in Hh; bool_hyps; [lia |]. destruct (Hsuf x Hx) as (Hxo & Hlt & Hne).
    apply same_key_Compare in H. pose proof (cmp_eq_sym _ _ (proj1 Hxo) (proj1 He) H) as H'. apply entry_lt_same in Hlt; [lia | done.. | congruence]. }
  destruct (list.last pre) as [p |] eqn:El.
  - apply last_Some in El as [pre0 ->]. destruct (Hpre p) as (Hp & Hlt & Hne); [set_solver |].
    destruct (same_key (e_key p) (e_key e)) eqn:Esame; cbn [andb].
    + assert (e_seq e < e_seq p) as Hlt2 by (apply entry_lt_same; [done | done | by apply same_key_Compare | done | done]).
      destruct (Z.leb_spec (e_seq p) s0) as [Hle | Hgt].
      * apply existsb_exists. exists p. split; [apply list_elem_of_In; set_solver |]. unfold hides. rewrite Esame. cbn [andb]. apply andb_true_iff. split; [by apply Z.ltb_lt | by apply Z.leb_le].
      * destruct (existsb _ _) eqn:Ex; [| done]. exfalso. apply existsb_exists in Ex as (x & Hx%list_elem_of_In & Hh). pose proof (Hin x Hx Hh) as Hxp. unfold hides in Hh. bool_hyps.
        apply elem_of_app in Hxp as [Hx0 | ->%list_elem_of_singleton]; [| lia]. rewrite <- app_assoc in Hs. cbn [app] in Hs. destruct (input_sorted_split pre0 p (e :: suf) Hs) as (_ & Hpre0 & _).
        destruct (Hpre0 x Hx0) as (Hxo & Hxp & Hxne). destruct (between_same x p e Hxo Hp He Hxp Hlt) as [_ Hs2]; [done |]. apply entry_lt_same in Hxp; [lia | done.. | by apply same_key_Compare | done].
    + destruct (existsb _ _) eqn:Ex; [| done]. exfalso. apply existsb_exists in Ex as (x & Hx%list_elem_of_In & Hh). pose proof (Hin x Hx Hh) as Hxp. unfold hides in Hh. bool_hyps.
      apply elem_of_app in Hxp as [Hx0 | ->%list_elem_of_singleton]; [| congruence]. rewrite <- app_assoc in Hs. cbn [app] in Hs. destruct (input_sorted_split pre0 p (e :: suf) Hs) as (_ & Hpre0 & _).
      destruct (Hpre0 x Hx0) as (Hxo & Hxp & Hxne). destruct (between_same x p e Hxo Hp He Hxp Hlt) as [Hs1 _]; [done |]. congruence.
  - apply last_None in El as ->. destruct (existsb _ _) eqn:Ex; [| done]. exfalso. apply existsb_exists in Ex as (x & Hx%list_elem_of_In & Hh). pose proof (Hin x Hx Hh) as Hn. by apply elem_of_nil in Hn.
Qed.

(** What the state of the loop says of the entries before. *)
Definition state_of_last pre ks : Prop :=
  match list.last pre with
  | Some p => has_current_user_key ks = true /\ last_sequence_for_key ks = e_seq p /\ valid (current_user_key ks) /\ Compare (e_key p) (current_user_key ks) = Some Eq
  | None => ks = no_key
  end.
Definition at_last pre (level : Z) c : Prop :=
  level_ c = level /\ (Z.to_nat (level + 2) <= length (level_ptrs_ c))%nat /\
  ∀ u, valid u -> (∀ p, list.last pre = Some p -> Compare (e_key p) u <> Some Gt) -> pointers_ok u v c.

Lemma next_key_state_ok pre e suf ks : input_sorted (pre ++ e :: suf) -> state_of_last pre ks ->
  ∃ ks', next_key_state C (MkParsed (e_key e) (e_seq e) (e_type e)) ks = Some ks' /\ has_current_user_key ks' = true /\ valid (current_user_key ks') /\
    Compare (e_key e) (current_user_key ks') = Some Eq /\
    last_sequence_for_key ks' = match list.last pre with Some p => if same_key (e_key p) (e_key e) then e_seq p else kMaxSequenceNumber | None => kMaxSequenceNumber end.
Proof.
  intros Hs Hks. destruct (input_sorted_split pre e suf Hs) as ([Ve We] & Hpre & _). unfold next_key_state, state_of_last in *. destruct (list.last pre) as [p |] eqn:El.
  - destruct Hks as (Eh & Ese & Vc & Ec). rewrite Eh. cbn [negb user_key]. apply last_Some in El as [pre0 ->]. destruct (Hpre p) as ([Vp _] & _ & _); [set_solver |].
    destruct (cmp_some (e_key e) (current_user_key ks) Ve Vc) as [r Er]. rewrite Er. cbn [mbind option_bind].
    assert (same_key (e_key p) (e_key e) = bool_decide (r = Eq)) as ->.
    { apply eq_true_iff_eq. rewrite same_key_Compare, bool_decide_eq_true. split.
      - intros E. pose proof (cmp_eq_r _ _ _ _ Ve Vp Vc (cmp_eq_sym _ _ Vp Ve E) Ec). congruence.
      - intros ->. apply cmp_eq_sym; [done.. |]. apply (cmp_eq_r _ (current_user_key ks)); [done.. | by apply cmp_eq_sym]. }
    case_bool_decide as Hr; cbn [negb]; eexists; (split; [reflexivity |]); cbn; split_and!; try done; [by subst | by apply cmp_refl].
  - subst ks. cbn. eexists. split; [reflexivity |]. cbn. split_and!; try done. by apply cmp_refl.
Qed.

(** One entry. *)
Lemma drop_entry_ok level pre e suf ks c : s0 < kMaxSequenceNumber -> Forall (ranges_ok (valid := valid)) (deeper level (files_ v)) ->
  input_sorted (pre ++ e :: suf) -> state_of_last pre ks -> at_last pre level c ->
  ∃ ks' ptrs, drop_entry C s0 v (entry_key e) ks c = Some (negb (survives level (pre ++ e :: suf) e), ks', set_level_ptrs ptrs c) /\
    state_of_last (pre ++ [e]) ks' /\ at_last (pre ++ [e]) level (set_level_ptrs ptrs c) /\ length ptrs = length (level_ptrs_ c).
Proof.
  intros H0 Hok Hs Hks (El & Hle & Hc). destruct (input_sorted_split pre e suf Hs) as ([Ve We] & Hpre & _). unfold drop_entry, entry_key. rewrite ParseInternalKey_ikey by done.
  destruct (next_key_state_ok pre e suf ks Hs Hks) as (ks' & -> & Eh & Vc & Ec & Els). cbn [mbind option_bind type sequence user_key].
  assert (pointers_ok (e_key e) v c) as Hp.
  { apply Hc; [done |]. intros p Ep. apply last_Some in Ep as [pre0 ->]. destruct (Hpre p) as (Hpo & Hlt & _); [set_solver |]. by apply entry_lt_user. }
  assert (∀ ptrs, pointers_ok (e_key e) v (set_level_ptrs ptrs c) -> length ptrs = length (level_ptrs_ c) -> at_last (pre ++ [e]) level (set_level_ptrs ptrs c)) as Hat.
  { intros ptrs Hp' Hl. split; [done |]. split; [cbn; lia |]. intros u Vu Hu. apply (pointers_mono (e_key e) u); try done; [by rewrite <- El in Hok | apply Hu; by rewrite last_snoc]. }
  assert (set_level_ptrs (level_ptrs_ c) c = c) as Hid by by destruct c.
  assert (state_of_last (pre ++ [e]) (MkKeyState (current_user_key ks') (has_current_user_key ks') (e_seq e))) as Hst by (unfold state_of_last; rewrite last_snoc; by cbn).
  assert (existsb (λ e', hides e' e) (pre ++ e :: suf) = (last_sequence_for_key ks' <=? s0)) as Eh2.
  { rewrite (hidden_by_last pre e suf Hs), Els. destruct (list.last pre) as [p |]; [destruct (same_key (e_key p) (e_key e)) |]; cbn [andb]; [done | symmetry; apply Z.leb_gt; lia..]. }
  unfold survives. rewrite Eh2. destruct (last_sequence_for_key ks' <=? s0); cbn [negb andb].
  - exists (MkKeyState (current_user_key ks') (has_current_user_key ks') (e_seq e)), (level_ptrs_ c). rewrite Hid. split_and!; try done. rewrite <- Hid. apply Hat; [by rewrite Hid | done].
  - unfold stale_delete. destruct (bool_decide (e_type e = kTypeDeletion) && (e_seq e <=? s0)); cbn [andb negb].
    + rewrite <- El. destruct (IsBaseLevelForKey_ok (e_key e) v c) as (ptrs & -> & Hp' & Hl); [by rewrite El | done | done | by rewrite El |]. cbn [mbind option_bind]. rewrite negb_involutive.
      eexists _, ptrs. split; [reflexivity |]. rewrite El. by split_and!; [| apply Hat |].
    + exists (MkKeyState (current_user_key ks') (has_current_user_key ks') (e_seq e)), (level_ptrs_ c). rewrite Hid. split_and!; try done. rewrite <- Hid. apply Hat; [by rewrite Hid | done].
Qed.

(** The drop rule against its reference: the entries that are kept are those that survive. *)
Lemma kept_entries_ok level es : s0 < kMaxSequenceNumber -> Forall (ranges_ok (valid := valid)) (deeper level (files_ v)) -> input_sorted es ->
  ∀ pre suf ks c, es = pre ++ suf -> state_of_last pre ks -> at_last pre level c ->
  ∃ ks' c', kept_entries suf ks c = Some (filter (λ e, survives level es e = true) suf, ks', c').
Proof.
  intros H0 Hok Hs pre suf. revert pre. induction suf as [| e suf IH]; intros pre ks c E Hks Hc; [by exists ks, c |]. cbn [kept_entries]. subst es.
  destruct (drop_entry_ok level pre e suf ks c H0 Hok Hs Hks Hc) as (ks' & ptrs & -> & Hks' & Hc' & _). cbn [mbind option_bind].
  destruct (IH (pre ++ [e]) ks' (set_level_ptrs ptrs c)) as (ks2 & c2 & E2); [by rewrite <- app_assoc | done | done |]. rewrite E2. cbn [mbind option_bind].
  exists ks2, c2. rewrite list.filter_cons. destruct (survives level (pre ++ e :: suf) e); cbn [negb]; [by rewrite decide_True | rewrite decide_False by congruence; done].
Qed.
End Rule.

(** ** What readers see *)
Section Views.
Context {C : Comparator} {valid : Slice -> Prop} `{!ComparatorLaws C valid} (s0 : Z) (v : Version).
Implicit Types (e x : Entry) (es newer deep h : list Entry) (u : Slice).
Local Notation entry_ok := (entry_ok (valid := valid)).

(** The entries that stay, in their order. *)
Definition survivors (level : Z) es : list Entry := filter (λ e, survives s0 v level es e = true) es.

Lemma same_key_sym e e' u : entry_ok e -> entry_ok e' -> valid u -> same_key (e_key e) u = true -> same_key (e_key e') u = true -> same_key (e_key e) (e_key e') = true.
Proof.
  intros [Ve _] [Ve' _] Vu Hs%same_key_Compare Hs'%same_key_Compare. apply same_key_Compare. apply (cmp_eq_r _ u); [done.. |]. by apply cmp_eq_sym.
Qed.

Lemma spans_same e e' f : entry_ok e -> entry_ok e' -> file_ok (valid := valid) f -> same_key (e_key e) (e_key e') = true -> spans (C := C) (e_key e') f = true -> spans (C := C) (e_key e) f = true.
Proof.
  intros [Ve _] [Ve' _] Hf Hs%same_key_Compare [H1 H2]%spans_true. destruct (ulimit_ok f Hf) as [_ Vl], (ustart_ok f Hf) as [_ Vs]. apply spans_true. split; intros Hc.
  - apply H1. eapply (cmp_lt_le_trans _ (e_key e)); [done.. |]. by rewrite Hs.
  - apply H2. apply cmp_lt_gt; [done.. |]. apply cmp_gt_lt in Hc; [| done..]. apply (cmp_le_lt_trans _ (e_key e)); [done.. | | done]. by rewrite (cmp_eq_sym _ _ Ve Ve' Hs).
Qed.

(** The entries of the rest of the database: newer ones of the keys of the compaction, and entries in files of deeper levels. *)
Record rest_ok (level : Z) es newer deep : Prop := {
  re_entries : Forall entry_ok (newer ++ deep);
  re_seqs : base.NoDup (e_seq <$> es ++ newer ++ deep);
  re_newer x e : x ∈ es -> e ∈ newer -> same_key (e_key e) (e_key x) = true -> e_seq x < e_seq e;
  re_deep e : e ∈ deep -> ∃ f, f ∈ concat (deeper level (files_ v)) /\ spans (C := C) (e_key e) f = true
}.

Lemma survivors_in level es e : e ∈ survivors level es <-> survives s0 v level es e = true /\ e ∈ es.
Proof. unfold survivors. by rewrite list_elem_of_filter. Qed.

Lemma hides_true e' e : hides (C := C) s0 e' e = true <-> same_key (e_key e') (e_key e) = true /\ e_seq e < e_seq e' /\ e_seq e' <= s0.
Proof. unfold hides. rewrite !andb_true_iff, Z.ltb_lt, Z.leb_le. tauto. Qed.

Lemma base_level_spans u level f : base_level (C := C) u (deeper level (files_ v)) = true -> f ∈ concat (deeper level (files_ v)) -> spans (C := C) u f = false.
Proof.
  unfold base_level. rewrite forallb_forall. intros Hb Hf. apply list_elem_of_In, in_concat in Hf as (files & Hfs & Hf).
  specialize (Hb files Hfs). rewrite forallb_forall in Hb. by apply negb_true_iff, Hb.
Qed.

(** An entry that readers at or after [s0] would see survives, or is a deletion of something that is nowhere else. *)
Lemma seen_survives level es newer deep u s e : Forall entry_ok es -> rest_ok level es newer deep -> Forall (Forall (file_ok (valid := valid))) (deeper level (files_ v)) -> valid u -> s0 <= s ->
  e ∈ es -> is_latest (C := C) (es ++ newer ++ deep) u s e ->
  survives s0 v level es e = true \/ (e_type e = kTypeDeletion /\ ∀ x, x ∈ survivors level es ++ newer ++ deep -> matches (C := C) u s x = false).
Proof.
  intros Hes Hr Hf Vu Hs He (_ & Hm & Hmax). rewrite list.Forall_forall in Hes. destruct (survives s0 v level es e) eqn:Esv; [by left | right].
  assert (∀ x, x ∈ es ++ newer ++ deep -> entry_ok x) as Hok.
  { intros x [Hx | Hx]%elem_of_app; [by apply Hes |]. pose proof (re_entries _ _ _ _ Hr) as Ho. rewrite list.Forall_forall in Ho. by apply Ho. }
  unfold matches in Hm. apply andb_true_iff in Hm as [Hk Hle%Z.leb_le].
  unfold survives in Esv. apply andb_false_iff in Esv as [Eh | Ed]; apply negb_false_iff in Eh || apply negb_false_iff in Ed.
  - exfalso. apply existsb_exists in Eh as (x & Hx%list_elem_of_In & (Hsk & Hlt & Hx0)%hides_true).
    assert (e_seq x <= e_seq e); [| lia]. apply Hmax; [set_solver |]. unfold matches. apply andb_true_iff. split; [| apply Z.leb_le; lia].
    apply same_key_Compare. apply same_key_Compare in Hsk, Hk. eapply (cmp_eq_r _ (e_key e)); [apply (Hes x Hx) | apply (Hes e He) | done | done | done].
  - unfold stale_delete in Ed. apply andb_true_iff in Ed as [[Et%bool_decide_eq_true Hse%Z.leb_le]%andb_true_iff Hb]. split; [done |]. intros x Hx.
    destruct (matches u s x) eqn:Emx; [| done]. exfalso.
    assert (x ∈ es ++ newer ++ deep) as Hxin by (apply elem_of_app in Hx as [[_ ?]%survivors_in | ?]; set_solver).
    pose proof (Hmax x Hxin Emx) as Hxe. unfold matches in Emx. apply andb_true_iff in Emx as [Hkx _].
    assert (entry_ok x) as Hxo by by apply Hok. assert (entry_ok e) as Heo by by apply Hes.
    pose proof (same_key_sym x e u Hxo Heo Vu Hkx Hk) as Hxk.
    assert (e_seq x <> e_seq e) as Hne.
    { intros Heq. assert (x = e) as ->.
      { eapply seq_inj; [apply (re_seqs _ _ _ _ Hr) | done | set_solver | done]. }
      apply elem_of_app in Hx as [[Hsv _]%survivors_in | Hx].
      - unfold survives in Hsv. apply andb_true_iff in Hsv as [_ Hsd%negb_true_iff]. unfold stale_delete in Hsd.
        rewrite Et, Hb in Hsd. rewrite bool_decide_eq_true_2, (proj2 (Z.leb_le _ _) Hse) in Hsd by done. done.
      - pose proof (re_seqs _ _ _ _ Hr) as Hnd. rewrite fmap_app in Hnd. apply list.NoDup_app in Hnd as (_ & Hd & _).
        apply (Hd (e_seq e)); by apply list_elem_of_fmap_2. }
    apply elem_of_app in Hx as [[Hsv Hxes]%survivors_in | [Hx | Hx]%elem_of_app].
    + unfold survives in Hsv. apply andb_true_iff in Hsv as [Hh%negb_true_iff _]. rewrite <- not_true_iff_false in Hh. apply Hh, existsb_exists.
      exists e. split; [by apply list_elem_of_In |]. apply hides_true. split; [| lia].
      apply (same_key_sym e x u); done.
    + pose proof (re_newer _ _ _ _ Hr e x He Hx Hxk). lia.
    + destruct (re_deep _ _ _ _ Hr x Hx) as (f & Hfin & Hsp). pose proof (base_level_spans (e_key e) level f Hb Hfin) as Hnb.
      assert (spans (C := C) (e_key e) f = true); [| congruence].
      apply (spans_same e x f); try done.
      * rewrite list.Forall_forall in Hf. apply list_elem_of_In, in_concat in Hfin as (files & Hfs & Hfi).
        specialize (Hf files (proj2 (list_elem_of_In _ _) Hfs)). rewrite list.Forall_forall in Hf. apply Hf. by apply list_elem_of_In.
      * by apply (same_key_sym e x u).
Qed.

(** Readers at or after [s0] see the same before and after. *)
Lemma survivors_view level es newer deep u s : Forall entry_ok es -> rest_ok level es newer deep -> Forall (Forall (file_ok (valid := valid))) (deeper level (files_ v)) -> valid u -> s0 <= s ->
  view (C := C) (survivors level es ++ newer ++ deep) u s = view (C := C) (es ++ newer ++ deep) u s.
Proof.
  intros Hes Hr Hf Vu Hs. unfold view.
  assert (survivors level es ++ newer ++ deep `sublist_of` es ++ newer ++ deep) as Hsub by (apply sublist_app; [apply sublist_filter | done]).
  assert (base.NoDup (e_seq <$> survivors level es ++ newer ++ deep)) as Hnd by (eapply sublist_NoDup; [apply (re_seqs _ _ _ _ Hr) | by apply fmap_sublist]).
  destruct (latest u s (es ++ newer ++ deep)) as [e |] eqn:El.
  - pose proof (latest_Some _ _ _ _ El) as Hl. pose proof Hl as (Hin & Hm & Hmax).
    assert (e ∈ survivors level es ++ newer ++ deep -> latest u s (survivors level es ++ newer ++ deep) = Some e) as Hsame.
    { intros He. apply latest_is_latest; [done |]. split; [done |]. split; [done |]. intros x Hx. apply Hmax. by eapply elem_of_sublist. }
    apply elem_of_app in Hin as [Hin | Hin]; [| by rewrite Hsame by set_solver].
    destruct (seen_survives level es newer deep u s e Hes Hr Hf Vu Hs Hin Hl) as [Hsv | [Et Hnone]].
    + rewrite Hsame; [done |]. apply elem_of_app. left. by apply survivors_in.
    + rewrite (proj2 (latest_None _ _ _) Hnone). cbn [mbind option_bind]. by rewrite Et.
  - rewrite (proj2 (latest_None _ _ _)); [done |]. intros x Hx. rewrite latest_None in El. apply El. by eapply elem_of_sublist.
Qed.
End Views.

(** ** The loop of [DoCompactionWork] *)
Section Loop.
Context {E H S D : Type} `{!Env E H S} `{Snappy} `{!Iterator D} {C : Comparator} {valid : Slice -> Prop} `{!ComparatorLaws C valid}.
Context (cmp_name : Slice) (ndebug : bool) (dbname_ : Slice) (options : DbOptions) (junk : Z).
Context (table_iterator : E -> bool -> Z -> Z -> Z -> option D).
Context {I : Type} `{!Iterator I}.
Implicit Types (cs : CompactionState E H) (c : Compaction) (e : Entry) (es : list Entry) (input : I) (r : Run E H).

(** A section that keeps the compaction and the oldest snapshot of its state. *)
Definition keeps_compaction (m : CompactionState E H -> DBM E H (Status * CompactionState E H)) : Prop :=
  ∀ cs r s cs' r', m cs r = Some ((s, cs'), r') -> compaction cs' = compaction cs /\ smallest_snapshot cs' = smallest_snapshot cs.

Lemma bind_Some {A B} (m : DBM E H A) (f : A -> DBM E H B) r b r' : (m ≫= f) r = Some (b, r') -> ∃ a r1, m r = Some (a, r1) /\ f a r1 = Some (b, r').
Proof. unfold mbind, DBM_bind. destruct (m r) as [[a r1] |]; [| done]. intros Ef. by exists a, r1. Qed.

Lemma Open_keeps : keeps_compaction (OpenCompactionOutputFile ndebug dbname_ options).
Proof.
  intros cs r s cs' r' Er. unfold OpenCompactionOutputFile in Er.
  apply bind_Some in Er as (_ & r1 & _ & Er). apply bind_Some in Er as (n & r2 & _ & Er). apply bind_Some in Er as (f & r3 & _ & Er).
  apply bind_Some in Er as ([s1 file] & r4 & _ & Er). apply bind_Some in Er as (env & r5 & _ & Er). apply bind_Some in Er as (b & r6 & _ & Er).
  by injection Er as <- <- <-.
Qed.
Lemma Finish_keeps st : keeps_compaction (FinishCompactionOutputFile C ndebug options table_iterator st).
Proof.
  intros cs r s cs' r' Er. unfold FinishCompactionOutputFile in Er.
  apply bind_Some in Er as (f & r1 & _ & Er). apply bind_Some in Er as (b & r2 & _ & Er). apply bind_Some in Er as (out & r3 & _ & Er).
  apply bind_Some in Er as (_ & r4 & _ & Er). apply bind_Some in Er as (env & r5 & _ & Er). apply bind_Some in Er as ([s1 b1] & r6 & _ & Er).
  apply bind_Some in Er as (outs & r7 & _ & Er). destruct (finish_file s1 f (tb_file b1).1) as [s2 env2].
  apply bind_Some in Er as (_ & r8 & _ & Er). apply bind_Some in Er as (s3 & r9 & _ & Er). by injection Er as <- <- <-.
Qed.
Lemma add_entry_keeps st k x : keeps_compaction (add_entry C ndebug dbname_ options table_iterator st k x).
Proof.
  intros cs r s cs' r' Er. unfold add_entry in Er. apply bind_Some in Er as ([s1 cs1] & r1 & E1 & Er).
  assert (compaction cs1 = compaction cs /\ smallest_snapshot cs1 = smallest_snapshot cs) as [K1 K2].
  { destruct (builder cs); [by injection E1 as <- <- <- | by eapply Open_keeps]. }
  destruct (negb (ok s1)); [by injection Er as <- <- <- |]. apply bind_Some in Er as (b & r2 & _ & Er). apply bind_Some in Er as (env & r3 & _ & Er).
  apply bind_Some in Er as (b2 & r4 & _ & Er). apply bind_Some in Er as (_ & r5 & _ & Er). destruct (_ <=? _).
  - apply Finish_keeps in Er as [-> ->]. done.
  - by injection Er as <- <- <-.
Qed.

Lemma ShouldStopBefore_keeps k c b c' : ShouldStopBefore C ndebug k c = Some (b, c') -> level_ c' = level_ c /\ level_ptrs_ c' = level_ptrs_ c.
Proof.
  unfold ShouldStopBefore. destruct (pass_grandparents _ _ _ _ _ _ _) as [[i o] |]; [| done]. cbn [mbind option_bind].
  destruct (_ >? _); by intros [= _ <-].
Qed.

(** The decision depends on the level and the pointers only. *)
Lemma drop_entry_frame s0 v k ks c c' b ks' ptrs : level_ c' = level_ c -> level_ptrs_ c' = level_ptrs_ c ->
  drop_entry C s0 v k ks c = Some (b, ks', set_level_ptrs ptrs c) -> drop_entry C s0 v k ks c' = Some (b, ks', set_level_ptrs ptrs c').
Proof.
  intros El Ep. unfold drop_entry. destruct (ParseInternalKey k) as [ikey |].
  2: { intros [= <- <- Ec]. do 2 f_equal. apply (f_equal level_ptrs_) in Ec. cbn in Ec. subst ptrs. rewrite <- Ep. by destruct c'. }
  destruct (next_key_state C ikey ks) as [ks1 |]; [| done]. cbn [mbind option_bind].
  assert (∀ b0, Some (b0, MkKeyState (current_user_key ks1) (has_current_user_key ks1) (sequence ikey), c) = Some (b, ks', set_level_ptrs ptrs c) ->
    Some (b0, MkKeyState (current_user_key ks1) (has_current_user_key ks1) (sequence ikey), c') = Some (b, ks', set_level_ptrs ptrs c')) as Hsame.
  { intros b0 [= -> <- Ec]. do 2 f_equal. apply (f_equal level_ptrs_) in Ec. cbn in Ec. subst ptrs. rewrite <- Ep. by destruct c'. }
  destruct (last_sequence_for_key ks1 <=? s0); cbn [mbind option_bind]; [apply Hsame |].
  destruct (bool_decide _ && _); cbn [mbind option_bind]; [| apply Hsame]. unfold IsBaseLevelForKey. rewrite El, Ep.
  destruct (base_levels C (user_key ikey) _ _) as [[base ps] |]; [| done]. cbn [mbind option_bind].
  by intros [= <- <- <-].
Qed.

(** The loop with its decisions made beforehand: [keep] says which entries stay, [ptrs] where the search for the key of each
    entry leaves the pointers. *)
Definition planned_entry (keep : bool) (ptrs : list nat) (input_status : Status) (k x : Slice) cs : DBM E H (Status * CompactionState E H) :=
  '(stop, c) ← lift (ShouldStopBefore C ndebug k (compaction cs));
  let cs := set_compaction_of c cs in
  '(s, cs) ← (if (stop : bool) && bool_decide (is_Some (builder cs)) then FinishCompactionOutputFile C ndebug options table_iterator input_status cs else mret (OK, cs));
  if negb (ok s) then mret (s, cs)
  else
    let cs := set_compaction_of (set_level_ptrs ptrs (compaction cs)) cs in
    if keep then add_entry C ndebug dbname_ options table_iterator input_status k x cs else mret (OK, cs).
Fixpoint planned_loop (flush_fuel : nat) (keep : Entry -> bool) (es : list Entry) (ptrs : list (list nat)) input cs : DBM E H (Status * I * CompactionState E H) :=
  shutting_down ← gets shutting_down_;
  match es, ptrs with
  | e :: es, p :: ptrs =>
      if (shutting_down : bool) then mret (OK, input, cs)
      else
        before_entry C cmp_name ndebug dbname_ options junk table_iterator flush_fuel;;
        '(s, cs) ← planned_entry (keep e) p (status input) (entry_key e) (e_value e) cs;
        if negb (ok s) then mret (s, input, cs)
        else input ← lift (Next input); planned_loop flush_fuel keep es ptrs input cs
  | _, _ => mret (OK, input, cs)
  end.

Lemma entry_planned s0 v input ks ks' cs c0 k x keep ptrs r :
  key input = Some k -> value input = Some x -> drop_entry C s0 v k ks c0 = Some (negb keep, ks', set_level_ptrs ptrs c0) ->
  level_ (compaction cs) = level_ c0 -> level_ptrs_ (compaction cs) = level_ptrs_ c0 -> smallest_snapshot cs = s0 ->
  match planned_entry keep ptrs (status input) k x cs r with
  | Some (s, cs', r') =>
      (∃ ks2, compact_entry C ndebug dbname_ options table_iterator v input ks cs r = Some (s, ks2, cs', r') /\ (ok s = true -> ks2 = ks')) /\
      (ok s = true -> level_ (compaction cs') = level_ c0 /\ level_ptrs_ (compaction cs') = ptrs /\ smallest_snapshot cs' = s0)
  | None => compact_entry C ndebug dbname_ options table_iterator v input ks cs r = None
  end.
Proof.
  intros Ek Ex Ed El Ep E0. unfold planned_entry, compact_entry, mbind, DBM_bind, lift. rewrite Ek. cbn [mbind option_bind].
  destruct (ShouldStopBefore C ndebug k (compaction cs)) as [[stop c] |] eqn:Es; [| done]. cbn [mbind option_bind].
  destruct (ShouldStopBefore_keeps _ _ _ _ Es) as [L1 L2]. set (cs1 := set_compaction_of c cs).
  match goal with |- context [(if stop && bool_decide ?b then ?m1 else ?m2) r] => destruct ((if stop && bool_decide b then m1 else m2) r) as [[[s1 cs2] r1] |] eqn:Ef end; [| done].
  assert (compaction cs2 = c /\ smallest_snapshot cs2 = s0) as [K1 K2].
  { destruct (stop && _); [by apply Finish_keeps in Ef as [-> ->] | by injection Ef as <- <- <-]. }
  destruct (ok s1) eqn:Es1; cbn [negb].
  2: { split; [| intros Hok; congruence]. exists ks. by split; [| intros ?; congruence]. }
  assert (level_ (compaction cs2) = level_ c0 /\ level_ptrs_ (compaction cs2) = level_ptrs_ c0) as [L3 L4] by (rewrite K1; split; congruence).
  pose proof (drop_entry_frame s0 v k ks c0 (compaction cs2) _ _ _ L3 L4 Ed) as Ed2. rewrite K2, Ed2. cbn [mbind option_bind].
  set (cs3 := set_compaction_of (set_level_ptrs ptrs (compaction cs2)) cs2).
  assert (level_ (compaction cs3) = level_ c0 /\ level_ptrs_ (compaction cs3) = ptrs /\ smallest_snapshot cs3 = s0) as Hcs3.
  { unfold cs3. cbn. rewrite K1. split_and!; congruence. }
  destruct keep; cbn [negb].
  - rewrite Ex. cbn [mbind option_bind].
    destruct (add_entry C ndebug dbname_ options table_iterator (status input) k x cs3 r1) as [[[s2 cs4] r2] |] eqn:Ea; [| done].
    apply add_entry_keeps in Ea as [-> ->]. split; [by eexists | done].
  - split; [by eexists | done].
Qed.

Context (R : nat -> I -> Prop) (s0 : Z) (v : Version) (level : Z) (all : list Entry) (flush_fuel : nat).
Context (Hiter : iterates (C := InternalKeyComparator ndebug C) (valid_ikey valid) R (entry_pair <$> all)).
Context (Hs0 : s0 < kMaxSequenceNumber) (Hranges : Forall (ranges_ok (valid := valid)) (deeper level (files_ v))) (Hsorted : input_sorted (C := C) (valid := valid) all).

Lemma loop_planned pre suf ks c0 : all = pre ++ suf -> state_of_last (valid := valid) pre ks -> at_last (valid := valid) v pre level c0 ->
  ∃ ptrs, length ptrs = length suf /\ ∀ fuel input cs r, R (length pre) input ->
    level_ (compaction cs) = level_ c0 -> level_ptrs_ (compaction cs) = level_ptrs_ c0 -> smallest_snapshot cs = s0 -> (length suf <= fuel)%nat ->
    compact_loop C cmp_name ndebug dbname_ options junk table_iterator fuel flush_fuel v input ks cs r =
    planned_loop flush_fuel (survives s0 v level all) suf ptrs input cs r.
Proof.
  revert pre ks c0. induction suf as [| e suf IH]; intros pre ks c0 Ea Hks Hc.
  - exists []. split; [done |]. intros fuel input cs r Hr _ _ _ _. rewrite app_nil_r in Ea.
    assert (Valid input = false) as Hv.
    { rewrite (iter_Valid Hiter _ _ Hr), length_fmap, Ea. apply bool_decide_eq_false. lia. }
    destruct fuel; cbn [compact_loop planned_loop]; unfold mbind, DBM_bind, gets; by rewrite Hv.
  - assert (input_sorted (C := C) (valid := valid) (pre ++ e :: suf)) as Hs by by rewrite <- Ea.
    destruct (drop_entry_ok s0 v level pre e suf ks c0 Hs0 Hranges Hs Hks Hc) as (ks' & p & Ed & Hks' & Hc' & _). rewrite <- Ea in Ed.
    destruct (IH (pre ++ [e]) ks' (set_level_ptrs p c0)) as (ptrs & Hlen & IH'); [by rewrite <- app_assoc | done | done |].
    exists (p :: ptrs). split; [cbn; lia |]. intros fuel input cs r Hr El Ep E0 Hf.
    assert ((entry_pair <$> all) !! length pre = Some (entry_key e, e_value e)) as Ek by (rewrite list_lookup_fmap, Ea, list_lookup_middle by done; done).
    pose proof (lookup_lt_Some _ _ _ Ek) as Hlt.
    assert (Valid input = true) as Hv by (rewrite (iter_Valid Hiter _ _ Hr); by apply bool_decide_eq_true).
    pose proof (iter_key Hiter _ _ _ Hr Ek) as Hk. pose proof (iter_value Hiter _ _ _ Hr Ek) as Hx. cbn [fst snd] in Hk, Hx.
    destruct (iter_Next Hiter _ _ Hr Hlt) as (input' & En & Hr').
    destruct fuel as [| fuel]; [cbn in Hf; lia |]. cbn [compact_loop planned_loop]. unfold mbind, DBM_bind, gets. rewrite Hv. cbn [andb].
    destruct (shutting_down_ r.1); cbn [negb]; [done |].
    destruct (before_entry C cmp_name ndebug dbname_ options junk table_iterator flush_fuel r) as [[[] r1] |]; [| done].
    pose proof (entry_planned s0 v input ks ks' cs c0 _ _ _ _ r1 Hk Hx Ed El Ep E0) as Hp.
    destruct (planned_entry _ _ _ _ _ _ r1) as [[[s1 cs1] r2] |]; [| by rewrite Hp].
    destruct Hp as [(ks2 & -> & Hks2) Hcs]. destruct (ok s1) eqn:Es1; cbn [negb]; [| done].
    destruct (Hcs eq_refl) as (L1 & L2 & L3). rewrite (Hks2 eq_refl). unfold lift. rewrite En. cbn [mbind option_bind].
    apply IH'; try done; [by rewrite length_app, Nat.add_1_r | cbn in Hf; lia].
Qed.

Lemma at_first c : level_ptrs_ c = replicate (Z.to_nat kNumLevels) 0%nat -> 0 <= level_ c < kNumLevels - 1 -> length (files_ v) = Z.to_nat kNumLevels ->
  at_last (valid := valid) v [] (level_ c) c.
Proof.
  intros Ep Hl Hv. split; [done |]. split; [rewrite Ep, length_replicate; lia |]. intros u _ _. unfold pointers_ok, deeper. rewrite Ep, drop_replicate.
  assert (length (drop (Z.to_nat (level_ c + 2)) (files_ v)) = (Z.to_nat kNumLevels - Z.to_nat (level_ c + 2))%nat) as Hlen by (rewrite length_drop; lia).
  revert Hlen. generalize (drop (Z.to_nat (level_ c + 2)) (files_ v)), (Z.to_nat kNumLevels - Z.to_nat (level_ c + 2))%nat.
  intros levels n. revert n. induction levels as [| files levels IH]; intros [| n] Hlen; try done; cbn [replicate]; constructor; [| apply IH; cbn in Hlen; lia].
  split; [intros j f Hj; lia | lia].
Qed.
End Loop.

Section Reads.
Context {E H S D : Type} `{!Env E H S} `{Snappy} `{!Iterator D} {C : Comparator} {valid : Slice -> Prop} `{!ComparatorLaws C valid}.
Context (cmp_name : Slice) (ndebug : bool) (dbname_ : Slice) (options : DbOptions) (junk : Z).
Context (table_iterator : E -> bool -> Z -> Z -> Z -> option D).
Context {I : Type} `{!Iterator I}.

(** C34. A compaction changes nothing for the readers it must not disturb.  Let its input iterator show the entries [es] of the input files in
    the order of internal keys, let the deeper levels of its input version be sorted, and let [s0] be the oldest
    snapshot.  Whatever other threads do in between, the loop of [DoCompactionWork] adds to the output tables exactly the entries
    that survive: those that no newer entry of their key up to [s0] hides and that are not deletions up to [s0] of a key that no
    file of a deeper level spans (the search for such files, which goes on from where the last one
    stopped, answers as a direct one does).  And for every key and every snapshot from [s0] on, the
    survivors with the rest of the database show what all entries did, when the rest consists of newer
    entries of the keys, and of entries in files of deeper levels. *)
Theorem compaction_keeps_reads (R : nat -> I -> Prop) (v : Version) (es : list Entry) (input : I) (cs : CompactionState E H) (flush_fuel fuel : nat) :
  let level := level_ (compaction cs) in let s0 := smallest_snapshot cs in
  iterates (C := InternalKeyComparator ndebug C) (valid_ikey valid) R (entry_pair <$> es) -> R 0%nat input -> input_sorted (C := C) (valid := valid) es ->
  length (files_ v) = Z.to_nat kNumLevels -> Forall (ranges_ok (valid := valid)) (deeper level (files_ v)) ->
  level_ptrs_ (compaction cs) = replicate (Z.to_nat kNumLevels) 0%nat -> 0 <= level < kNumLevels - 1 -> s0 < kMaxSequenceNumber -> (length es <= fuel)%nat ->
  (∃ ptrs, length ptrs = length es /\ ∀ r, compact_loop C cmp_name ndebug dbname_ options junk table_iterator fuel flush_fuel v input no_key cs r =
     planned_loop cmp_name ndebug dbname_ options junk table_iterator flush_fuel (survives (C := C) s0 v level es) es ptrs input cs r) /\
  ∀ newer deep u s, rest_ok (C := C) (valid := valid) v level es newer deep -> valid u -> s0 <= s ->
    view (C := C) (filter (λ e, survives (C := C) s0 v level es e = true) es ++ newer ++ deep) u s = view (C := C) (es ++ newer ++ deep) u s.
Proof.
  intros level s0 Hiter Hr Hs Hlen Hok Hptrs Hlv Hs0 Hf. split.
  - destruct (loop_planned cmp_name ndebug dbname_ options junk table_iterator R s0 v level es flush_fuel Hiter Hs0 Hok Hs [] es no_key (compaction cs)) as (ptrs & Hl & Heq).
    + done.
    + done.
    + by apply at_first.
    + exists ptrs. split; [done |]. intros r. by apply Heq.
  - intros newer deep u s Hrest Vu Hle. apply (survivors_view s0 v level es newer deep u s); [apply Hs | done | | done | done].
    apply (list.Forall_impl _ _ _ Hok). intros files Hfiles. apply Hfiles.
Qed.
End Reads.

(** ** Example: "a" was written, deleted and written again after the snapshot 4; "b" was written once; no deeper level has files *)
Record ListIter := MkListIter { li_pairs : Pairs; li_pos : nat }.
#[local] Instance ListIter_Iterator : Iterator ListIter := {
  Valid it := bool_decide (li_pos it < length (li_pairs it))%nat;
  SeekToFirst it := Some (MkListIter (li_pairs it) 0);
  SeekToLast it := Some (MkListIter (li_pairs it) (length (li_pairs it) - 1));
  Seek target it := Some (MkListIter (li_pairs it) (lower (C := InternalKeyComparator false (BytewiseComparator false)) (li_pairs it) target));
  Next it := Some (MkListIter (li_pairs it) (S (li_pos it)));
  Prev it := Some (MkListIter (li_pairs it) (if decide (li_pos it = 0)%nat then length (li_pairs it) else li_pos it - 1)%nat);
  key it := fst <$> li_pairs it !! li_pos it; value it := snd <$> li_pairs it !! li_pos it;
  status _ := OK
}.
Definition at_pos (l : Pairs) (n : nat) (it : ListIter) : Prop := it = MkListIter l n /\ (n <= length l)%nat.
Lemma list_iterates valid l : iterates (C := InternalKeyComparator false (BytewiseComparator false)) valid (at_pos l) l.
Proof.
  split.
  - by intros n it [_ ?].
  - by intros n it [-> _].
  - intros n it p [-> _] E. cbn. by rewrite E.
  - intros n it p [-> _] E. cbn. by rewrite E.
  - intros n it [-> _] Hn. eexists. split; [done |]. split; [done | lia].
  - intros n it [-> _] Hn. eexists. split; [done |]. split; [done |]. case_decide; lia.
  - intros n it [-> _]. eexists. split; [done |]. split; [done | lia].
  - intros n it [-> _]. eexists. split; [done |]. split; [done | lia].
  - intros n it target [-> _] _. eexists. split; [done |]. split; [done |]. apply lower_le.
  - done.
Qed.

Definition example_inputs : list Entry :=
  [MkEntry (lit "a") 5 kTypeValue (lit "z"); MkEntry (lit "a") 3 kTypeDeletion []; MkEntry (lit "a") 2 kTypeValue (lit "x"); MkEntry (lit "b") 1 kTypeValue (lit "y")].
Definition example_state : CompactionState MemEnv Slice := MkCompactionState (new_Compaction new_DbOptions 1) 4 [] None None 0.
#[local] Instance NoSnappy_example : Snappy := NoSnappy.

Lemma example_inputs_sorted : input_sorted (C := BytewiseComparator false) (valid := bytes) example_inputs.
Proof.
  split.
  - repeat constructor; by_compute.
  - repeat constructor; by_compute.
  - by_compute.
Qed.

(** Entries 3 and 2 of "a" are dropped; a reader at the snapshot found nothing and finds nothing. *)
Lemma compaction_keeps_reads_witness :
  (∃ ptrs, ∀ r, compact_loop (E := MemEnv) (BytewiseComparator false) [] false (lit "d") new_DbOptions 0 (λ _ _ _ _ _, None : option ListIter) 4 0 new_Version
     (MkListIter (entry_pair <$> example_inputs) 0) no_key example_state r =
     planned_loop (E := MemEnv) (C := BytewiseComparator false) [] false (lit "d") new_DbOptions 0 (λ _ _ _ _ _, None : option ListIter) 0
       (survives (C := BytewiseComparator false) 4 new_Version 1 example_inputs) example_inputs ptrs (MkListIter (entry_pair <$> example_inputs) 0) example_state r) /\
  survives (C := BytewiseComparator false) 4 new_Version 1 example_inputs <$> example_inputs = [true; false; false; true] /\
  view (C := BytewiseComparator false) [MkEntry (lit "a") 5 kTypeValue (lit "z"); MkEntry (lit "b") 1 kTypeValue (lit "y")] (lit "a") 4 =
    view (C := BytewiseComparator false) example_inputs (lit "a") 4.
Proof.
  destruct (compaction_keeps_reads (E := MemEnv) (C := BytewiseComparator false) (valid := bytes) [] false (lit "d") new_DbOptions 0
    (λ _ _ _ _ _, None : option ListIter) (at_pos (entry_pair <$> example_inputs)) new_Version example_inputs (MkListIter (entry_pair <$> example_inputs) 0) example_state 0 4)
    as [(ptrs & _ & Heq) Hv].
  - apply list_iterates.
  - split; [done | cbn; lia].
  - exact example_inputs_sorted.
  - reflexivity.
  - assert (ranges_ok (C := BytewiseComparator false) (valid := bytes) []) as Hnil by (split; [apply Forall_nil_2 | by intros f ?%elem_of_nil | done]).
    by repeat (apply Forall_cons_2; [exact Hnil |]).
  - reflexivity.
  - split; by_compute.
  - by_compute.
  - cbn; lia.
  - split; [by exists ptrs |]. split; [vm_compute; reflexivity |].
    specialize (Hv [] [] (lit "a") 4). cbn [app] in Hv. rewrite !app_nil_r in Hv. rewrite <- Hv.
    + vm_compute. reflexivity.
    + split; [constructor | by_compute | by intros ? ? _ ?%elem_of_nil | by intros ? ?%elem_of_nil].
    + by_compute.
    + by_compute.
Defined.

(** ** Example: a database that runs

    A database in memory is opened, written, read at a snapshot, flushed and compacted, and opened again after the process stopped without closing it.
    Tables are opened for each read; the other threads are background calls, one for each time that the mutex is given up. *)
Section Runs.
Local Abbreviation Bytewise := (BytewiseComparator false).
Local Abbreviation IC := (InternalKeyComparator false Bytewise).
Local Abbreviation Blocks := (TwoLevelIterator (BlockIter + EmptyIterator) (BlockIter + EmptyIterator)).
Definition run_options : DbOptions :=
  MkDbOptions true false (4 * 1048576) (MkOptions (4 * 1024) 16 1 kNoCompression None false)
    false false true false false false false false true false (256 * 1024) (2 * 1048576) 2 10 5 4 8 12.
Definition run_read : ReadOptions := MkReadOptions false true (2 ^ 64 - 1).
Definition run_table (env : MemEnv) (n size : Z) : option (Table Slice) :=
  fname ← TableFileName false (lit "d") n; f ← env !! fname;
  '(_, t) ← Open false (table_options run_options) f size 0; t.
#[local] Instance run_tables : TableGet MemEnv := {
  tc_Get ro n size off k env :=
    match run_table env n size with
    | Some t => '(s, r, _) ← InternalGet IC false t ro (None : option unit) k; Some (s, r, env)
    | None => Some (Err kIOError "", None, env)
    end
}.
(** An iterator over a table, with the table. *)
Record TableIter := MkTableIter { ti_table : Table Slice; ti_iter : Blocks }.
Definition on_iter {A} (f : Iterator Blocks -> Blocks -> A) (x : TableIter) : A := f (Table_Iterator IC false (ti_table x) run_read) (ti_iter x).
Definition move_iter (f : Iterator Blocks -> Blocks -> option Blocks) (x : TableIter) : option TableIter := MkTableIter (ti_table x) <$> on_iter f x.
#[local] Instance TableIter_Iterator : Iterator TableIter := {
  Valid := on_iter (@Valid _); SeekToFirst := move_iter (@SeekToFirst _); SeekToLast := move_iter (@SeekToLast _);
  Seek k := move_iter (λ i, @Seek _ i k); Next := move_iter (@Next _); Prev := move_iter (@Prev _);
  key := on_iter (@key _); value := on_iter (@value _); status := on_iter (@status _)
}.
Definition run_iterator (env : MemEnv) (_ : bool) (n size _ : Z) : option TableIter :=
  t ← run_table env n size; it ← Table_NewIterator IC false t; Some (MkTableIter t it).

Local Abbreviation RunM := (DBM MemEnv Slice).
Definition run_open : RunM Status := DB_Open (S := Slice) Bytewise (lit "cmp") false (lit "d") run_options 0 run_iterator (λ _, 0) (λ _ env, (OK, env)) 100.
Definition run_put (k v : string) : RunM Status := DB_Put Bytewise (lit "cmp") false (lit "d") run_options 0 run_iterator (λ _, 0) 10 0 false (lit k) (lit v).
Definition run_delete (k : string) : RunM Status := DB_Delete Bytewise (lit "cmp") false (lit "d") run_options 0 run_iterator (λ _, 0) 10 0 false (lit k).
Definition run_get (snapshot : option Z) (k : string) : RunM (Status * Slice) := DB_Get Bytewise false run_options run_read snapshot (lit k) [].
Definition run_flush : RunM Status := FlushMemTable Bytewise (lit "cmp") false (lit "d") run_options 0 run_iterator (λ _, 0) 10 0 false true.
Definition run_compact : RunM unit := DB_CompactRange Bytewise (lit "cmp") false (lit "d") run_options 0 run_iterator (λ _, 0) 10 0 None None.
Definition background (db : DBImpl MemEnv Slice) : DBImpl MemEnv Slice :=
  match BackgroundCall Bytewise (lit "cmp") false (lit "d") run_options 0 run_iterator 100 (db, []) with Some (_, (db, _)) => db | None => db end.

(** The snapshot is taken after the first "a"; later writes of "a" and "b" go through two flushes and a compaction of the whole range. *)
Definition first_run : RunM (list Status * list (Status * Slice)) :=
  s1 ← run_open; s2 ← run_put "a" "one"; n ← GetSnapshot; s3 ← run_put "a" "two"; s4 ← run_put "b" "x"; s5 ← run_flush;
  s6 ← run_put "a" "three"; s7 ← run_put "a" "four"; s8 ← run_delete "b"; s9 ← run_flush;
  run_compact;;
  r1 ← run_get (Some n) "a"; r2 ← run_get None "a"; r3 ← run_get None "b"; s10 ← run_put "c" "five";
  mret ([s1; s2; s3; s4; s5; s6; s7; s8; s9; s10], [r1; r2; r3]).
Definition second_run : RunM (list (Status * Slice)) :=
  s ← run_open; r0 ← run_get (Some 1) "a"; r1 ← run_get None "a"; r2 ← run_get None "b"; r3 ← run_get None "c"; mret [(s, []); r0; r1; r2; r3].
(** The numbers of the files of each level. *)
Definition level_numbers (db : DBImpl MemEnv Slice) : option (list (list Z)) :=
  v ← current_version (db_versions db); Some (map (map (λ f, number (f_meta f))) (files_ v)).

Example database_runs :
  match first_run (new_DBImpl run_options ∅, replicate 40 background) with
  | Some (r, (db, _)) =>
      r = (replicate 10 OK, [(OK, lit "one"); (OK, lit "four"); (Err kNotFound "", [])]) /\
      level_numbers db = Some [[]; []; [12]; []; []; []; []] /\
      match second_run (new_DBImpl run_options (db_env db), replicate 8 background) with
      | Some (r, (db, _)) =>
          r = [(OK, []); (OK, lit "one"); (OK, lit "four"); (Err kNotFound "", []); (OK, lit "five")] /\
          level_numbers db = Some [[14]; []; [12]; []; []; []; []]
      | None => False
      end
  | None => False
  end.
Proof. vm_compute. repeat split. Qed.
End Runs.
